(* ===== verification/_CoqProject ===== *)
-Q . S2P
Prelude.v
Handles.v
Arena.v
Dispatcher.v
DispatcherRun.v
DispatcherTrace.v
DispatcherCoordinator.v
Channel.v
ChannelRun.v
SysmemTypes.v
SysmemSanitize.v
SysmemAccumulate.v
SysmemMeet.v
SysmemCost.v
SysmemExample.v
SysmemCombine.v
SysmemGenerate.v
RangeSets.v
RangeFacts.v
ProtectedRanges.v
RangeGoals.v
RangeHardware.v
RangeOps.v
RangeSteps.v
RangeStepping.v
RangeFixup.v
ProtectedRun.v
ProtectedLoan.v
ProtectedClient.v
VerityGeometry.v
VeritySealer.v
VerityTree.v
VeritySeal.v
VerityVerifier.v
VerityRoundtrip.v
VerityDevice.v
VerityVerifiedDevice.v
VerityManager.v
DriverTask.v
DriverTaskRun.v
DriverDevice.v
DriverDeviceRun.v
DriverRemoval.v
DriverSuspend.v
DriverExample.v
BlockServer.v
BlockServerRun.v
BlockServerSpec.v
BlockCore.v
SkipBlock.v
SkipBlockMap.v
SkipBlockRun.v
SkipBlockRead.v
VirtioRing.v
VirtioBlock.v
VirtioChain.v
VirtioBlockRun.v
VirtioBlockSteps.v
VirtioBlockInv.v
VirtioBlockJobs.v
VirtioBlockSafe.v
VirtioExample.v
NandCore.v
NandRun.v
NandSafe.v
