(* ===== verification/Prelude.v ===== *)
(** * A verification of parts of Fuchsia's [src/devices]

    The repository holds Fuchsia's driver framework and drivers. This development models, in the
    order of the files of [_CoqProject], eight of its subsystems (paths are below
    [src/src/devices/]) and proves what makes them correct.

    ** The program's parts

    - The driver runtime, [bin/driver_runtime/], is the library that drivers of one process share:
      a table of handles ([handle.cc]); arenas, from which messages are allocated ([arena.cc]);
      dispatchers, which run the callbacks of drivers on shared threads ([dispatcher.cc],
      [callback_request.h]), and their coordinator; the stack of drivers a thread is in
      ([driver_context.cc]); channels, on which drivers send messages with data and handles
      ([channel.cc], [message_packet.cc]). Channels queue their callbacks to dispatchers; handles
      name channel ends; messages live in arenas.
    - Sysmem, [sysmem/drivers/sysmem/], allocates memory that several participants share. Each
      gives constraints; [logical_buffer_collection.cc] fills them in, intersects them, chooses a pixel
      format with [usage_pixel_format_cost.cc], and generates the settings of the buffers. Secure buffers come
      from a pool of which the hardware protects a few ranges; [protected_ranges.cc] covers the buffers
      with as few addresses as that number of ranges allows, so that the rest can be lent to the system.
    - Block-verity, [block/drivers/block-verity/], seals a partition with a tree of hashes and then
      gives verified read access to it: the layout ([geometry.cc]), the sealer that computes the tree
      ([sealer.cc], [driver-sealer.cc]), the verifiers of the superblock and of data blocks
      ([superblock-verifier.cc], [block-verifier.cc]), the mutable and the verified device
      ([device.cc], [verified-device.cc]), and the manager that opens, seals and closes
      ([device-manager.cc]).
    - The driver manager, [bin/driver_manager/], keeps the tree of devices ([device.cc], [v1/device_manager.cc]),
      each in a driver host, some with a proxy in another. Devices are started, suspended, resumed, unbound
      and removed by tasks that wait for each other ([v1/task.cc], [v1/init_task.cc], [v1/suspend_task.cc],
      [v1/resume_task.cc], [v1/unbind_task.cc]) and send requests to the driver hosts.
    - The block core, [block/drivers/core/], stands between the clients of a block device and its driver: a server
      ([server.cc], [message-group.cc], [message.cc], [iobuffer.cc]) takes requests from a FIFO, splits them into
      operations the driver can do, and answers each request or group of requests; [block-device.cc] splits
      blocking reads and writes; [manager.cc] starts and ends the server.
    - The skip-block driver, [nand/drivers/skip-block/], gives access to raw flash that has bad blocks: a map from
      logical to physical blocks ([logical-to-physical-map.cc]) and several copies of the data ([skip-block.cc]).
    - The virtio block driver, [block/drivers/virtio/], queues transfers to a device through the descriptor ring of
      [bus/lib/virtio/ring.cc], which it shares with the device: clients, a worker thread, an interrupt thread and the
      device itself work on the same lists, slots and descriptors.
    - The driver of raw NAND, [nand/drivers/nand/], queues operations on pages to a worker thread ([nand.cc], with the queue of
      [lib/dev-operation/include/lib/operation/operation.h]), retries reads, and keeps those that came close to failing
      in a cache ([read_cache.cc]).

    ** Files

    - [Prelude]: status codes, computations that may abort ([exec]: [ZX_ASSERT], and undefined behaviour
      such as a null dereference, is [Panic]), unsigned integers ([u32], [u64] wrap around), list lemmas.
    - [Handles]: [HandleTableArena], [Handle::Create], [Delete], [MapValueToHandle] and the bit fields of
      a value. A handle value always leads to the object it was made for, or to ZX_ERR_BAD_HANDLE.
    - [Arena]: [Allocate], [Contains] over a heap of blocks by address. Allocations are apart.
    - [Dispatcher]: each critical section of [Dispatcher] as a function. [DispatcherRun]: threads that
      interleave those sections, as a step relation, with an invariant of its reachable states.
      [DispatcherTrace]: the same runs with the requests accepted, called and handed back.
      [DispatcherCoordinator]: the coordinator, and the driver context.
    - [Channel]: each critical section of [Channel], the packets, and the entry points of [api.cc].
      [ChannelRun]: runs of several channels with readers and waiting calls.
    - [SysmemTypes], [SysmemSanitize], [SysmemAccumulate]: the FIDL tables and the routines on them, field by
      field. [SysmemMeet]: what a set of constraints permits, and that accumulating is the
      intersection. [SysmemCost]: the choice of the pixel format. [SysmemExample]: an instance of the
      interfaces to the device and the image format library. [SysmemCombine], [SysmemGenerate]:
      [CombineConstraints] and [GenerateUnpopulatedBufferCollectionInfo].
    - [RangeSets], [ProtectedRanges]: ranges, sets of ranges and the object [ProtectedRanges], whose methods are
      computations that list the calls they make on the hardware. [RangeFacts]: sets of disjoint ranges.
      [RangeGoals]: the sets derived from the required ranges, which end in the goal. [RangeHardware]: the
      rules of the hardware as a checker of calls, and weakest preconditions under them. [RangeOps],
      [RangeSteps], [RangeStepping], [RangeFixup]: the operations on ranges, the searches for the next one,
      a step towards the goal, and the change for an addition. [ProtectedRun], [ProtectedLoan]: the
      invariant of the object and the addresses that can be lent. [ProtectedClient]: runs of a client.
    - [VerityGeometry], [VeritySealer], [VerityVerifier]: the routines. [VerityTree]: the tree of hashes as
      a definition of its own. [VeritySeal]: the sealer writes that tree. [VerityRoundtrip]: what was
      sealed verifies, and only that. [VerityDevice]: configurations, block operations and their
      translation, the mutable device. [VerityVerifiedDevice]: the verified device and its runs over a
      parent that may answer anything. [VerityManager]: the manager's state machine and its runs.
    - [DriverTask]: a store of tasks, [AddDependency], [Complete] and the dispatcher's [ExecuteTask].
      [DriverTaskRun]: any sequence of those calls. [DriverDevice]: devices, driver hosts and the classes of
      tasks, as computations over a world that holds the machine of [DriverTaskRun], and the events from outside.
      [DriverDeviceRun]: runs, and computations that keep their invariant. [DriverRemoval], [DriverSuspend]: the
      order in which devices are removed and suspended. [DriverExample]: runs of events.
    - [BlockServer]: the actions of the server's thread, one per critical section, and completions. [BlockServerRun]:
      their interleavings. [BlockServerSpec]: groups, the split of requests, ids of VMOs, and runs.
      [BlockCore]: [DoIo], the checks of [Bind] and the manager.
    - [SkipBlock]: map, reading and writing over a NAND that is a class. [SkipBlockMap]: the map is the list of good
      blocks. [SkipBlockRun], [SkipBlockRead]: what a write leaves on a NAND that can fail, and what a read finds.
    - [VirtioRing]: the descriptor table, its free list, the two rings and the operations of [Ring]. [VirtioBlock]:
      [BlockDevice], the steps of its threads and of the device, and the events of a run. [VirtioChain]: chains of
      descriptors, as the driver fills them in and as the device follows them. [VirtioBlockRun],
      [VirtioBlockSteps], [VirtioBlockInv]: the invariant of all threads, each step on the ring, and that every event
      keeps the invariant. [VirtioBlockJobs]: what the worker makes of a request, and flushes.
      [VirtioBlockSafe]: what holds in every run from [Init] on. [VirtioExample]: a device and its runs.
    - [NandCore]: the cache, the queue, [NandDevice] over a controller that is a class, and its events. [NandRun]: reading,
      writing and erasing page by page. [NandSafe]: what an operation does, runs, and a chip as an example.

    ** How code becomes definitions

    A class is a record, an enumeration an inductive type, a method a function from the record (and
    the parts of the world it uses) to the record after it, its result, and what it does to the
    outside, which is a list of effects where the source calls out asynchronously. Objects that share
    memory (handles, arenas, channels) live in a store that is passed on. A routine that takes a lock
    and releases it in between is split at those points, and the step relations interleave the pieces.
    Machine integers keep their width wherever the source computes with them. What is not in the
    repository is an argument: the kernel's answers (creating and mapping a VMO, [zx_vmo_read]), the
    device below, and, as classes, the sizes and constants of headers that are elsewhere ([FdfAbi],
    [ArenaAbi], [PacketAbi], [CostConstants]), the FIDL constants and image format library of sysmem
    ([Sysmem2], [ImageFormatLib]), the digest ([Digest]), the rounding of [fbl] ([Fbl]), the constants of the block and virtio
    protocols ([BlockAbi], [VirtioAbi], [VirtioBlkAbi]) and the flash below ([NandProtocol], seen through [NandView], which may fail in any operation; [RawNand], seen through [RawView]); what is assumed of
    them is a class of laws ([FdfAbiOk], [ArenaAbiOk], [ImageFormatLibOk], [DigestOk]: a digest has 32 bytes,
    [FblLaws]: the nearest multiple, [BlockAbiOk], [VirtioAbiOk], [VirtioBlkAbiOk], [NandLaws], [RawNandLaws]: an operation touches
    its own pages, and what was written with success is what is held) with an instance in the development. The answers of [UseRange] are an
    oracle per request. What a channel needs of dispatchers is a class too ([DispatcherOps],
    [DispatcherLaws]), which the model of dispatchers implements.

    ** What the theorems show

    - Functional behaviour of operations on all branches: creating and deleting handles, [Contains],
      batches and timers of a dispatcher, [Write] and the end of [Call], accumulating constraints, cost of
      formats, translation of block operations, the split of a partition, the addresses that can be lent, the split
      of block requests and of blocking reads, the answer of a group, the chain that describes a virtio transfer, operations on raw NAND.
    - Invariants of all runs: exclusive execution of synchronized dispatchers; every request is called
      or handed back once; a queued callback is not forgotten; the coordinator's threads and driver
      states; ownership of a channel's callback request; requests of a verified device and
      the calls of the block-verity manager are answered once; protected buffers stay covered by hardware
      ranges, within the rules of the hardware; a task of the driver manager is run only when what it depends on has
      succeeded, an error reaches exactly the tasks that wait, and none is forgotten; devices are removed after
      they were unbound and their children removed, and suspended after their children; every request of the block
      server is given one response, which is in the FIFO or was given up by [SendResponse]; the block server exists as long as its thread; every transaction of the virtio driver is in one place
      (one of no blocks is completed twice), every descriptor of its ring has one owner, and a flush is alone with the device; operations on raw NAND are
      done once, in order, and its cache holds what the flash holds.
    - Optimality and equivalence: the goal of the protected ranges covers the fewest addresses possible, its
      incremental computation is exact, and stepping towards it ends there.
    - Refinement: a channel end is a first-in first-out queue; generated settings satisfy all
      participants; the sealer computes the reference tree.
    - Round trip and security of block-verity: sealing then opening verifies all blocks; whatever is read
      successfully is what was sealed, unless one of the blocks presented has the hash of a different block of the sealed
      disk. Round trip of skip-block: what
      was written is read, though blocks turn bad.
    - Which assertions can fail, exactly when, with runs that reach them where the source can be driven
      there; these are also the findings of the manifest.

    ** Bounds and fuel

    Recursions of the source that are not structural take fuel, and running out is [Panic], so that the
    theorems of success prove that it is enough: [integrity_shape_for] 64 (each round divides a
    64-bit number by at least two), [split_search] and [skip_blocks] 65 (they halve a distance, and divide
    an index), [ScheduleNextWorkUnit] 2 (it calls itself once, through [WriteIntegrityIfReady]), the
    search for a free txid one more than the calls that wait (of so many txids one is free), the loop of
    [FixupRangesDuringDelete] one more than the bytes that are covered (each turn but the last gives up one
    at least), [Complete] one more than the tasks that are open (each nested call completes one), and
    [RemoveDevice] 3 (a forced removal removes the devices of its driver host without force, which calls
    [RemoveDevice] no more), [DoIo] one more than the largest transfers in the buffer, a read or write of skip-block
    one more than its blocks (each turn does one), the repetitions of a write of a copy one more than the
    blocks of the flash (each turn but the last finds one more of them bad), and [free_chain] and [walk] the descriptors of the ring. Runs are unbounded.
    [Suitable] asks for hardware with room for two logical ranges, below which [BuildGoalRanges] aborts, and for
    a pool of whole blocks that ends a block before the end of the address space.
    [partition] asks for 5 blocks or more, below which the source's split is degenerate ([small_split]),
    and for at most [kMaxBlockCount], beyond which a superblock is refused.

    ** Not modelled

    Reference counts and the freeing of memory; logging, tracing and inspection; time, other than
    the order of deadlines; floating point; memory weaker than sequential consistency. Of sysmem, the life of a buffer
    collection (nodes, tokens, FIDL) and the allocators; of block-verity, its client library; of the block core, the FIDL
    and driver framework glue; of skip-block, [WriteBytes] and [ReadPartialBlocksLocked], which copy bytes between mapped
    VMOs; of virtio, the backends, which are registers; of the driver of raw NAND, its statistics. Calls on the handle table are
    taken one after the other. All other directories: the rest of the driver manager (composite
    devices, binding, devfs), the driver host, other block drivers, other buses, USB, tee, and the
    many drivers that only write registers of hardware the repository does not describe.

    ** Further work

    That a device whose remove task has completed is in no driver host any more; the suspend handler; the tree of
    sysmem's nodes and its pooled allocator; the TRB rings of xhci; that the virtio worker always gets on. *)
From Stdlib Require Import ZArith Lia.
From stdpp Require Import prelude gmap.

Local Open Scope Z_scope.

(** * Status codes

    [zx_status_t] / [fdf_status_t]: the codes the modelled sources return, by name. *)
Inductive zx_status :=
  | ZX_OK
  | ZX_ERR_INTERNAL
  | ZX_ERR_NOT_SUPPORTED
  | ZX_ERR_NO_RESOURCES
  | ZX_ERR_NO_MEMORY
  | ZX_ERR_INVALID_ARGS
  | ZX_ERR_BAD_HANDLE
  | ZX_ERR_WRONG_TYPE
  | ZX_ERR_OUT_OF_RANGE
  | ZX_ERR_BUFFER_TOO_SMALL
  | ZX_ERR_BAD_STATE
  | ZX_ERR_TIMED_OUT
  | ZX_ERR_SHOULD_WAIT
  | ZX_ERR_CANCELED
  | ZX_ERR_PEER_CLOSED
  | ZX_ERR_NOT_CONNECTED
  | ZX_ERR_NOT_FOUND
  | ZX_ERR_ALREADY_EXISTS
  | ZX_ERR_ALREADY_BOUND
  | ZX_ERR_UNAVAILABLE
  | ZX_ERR_IO
  | ZX_ERR_IO_NOT_PRESENT
  | ZX_ERR_IO_DATA_INTEGRITY.

#[global] Instance zx_status_eq_dec : EqDecision zx_status.
Proof. solve_decision. Defined.

(** * Assertions

    [ZX_ASSERT] aborts the process. A routine that contains one returns [exec A]: [Panic] is the
    aborted process, [Done a] the normal return. *)
Inductive exec (A : Type) : Type :=
  | Done (a : A)
  | Panic.
Arguments Done {A} a.
Arguments Panic {A}.

#[global] Instance exec_ret : MRet exec := @Done.

#[global] Instance exec_bind : MBind exec := fun A B f m =>
  match m with Done a => f a | Panic => Panic end.

Definition zx_assert (b : bool) : exec unit := if b then Done tt else Panic.

Declare Scope exec_scope.
Delimit Scope exec_scope with exec.
Notation "'ASSERT' b ;; k" := (exec_bind unit _ (fun _ => k) (zx_assert b))
  (at level 100, b at level 99, k at level 200, right associativity) : exec_scope.

Lemma exec_bind_Done {A B} (m : exec A) (f : A -> exec B) b :
  m ≫= f = Done b <-> exists a, m = Done a /\ f a = Done b.
Proof. destruct m; unfold mbind; simpl; [|by split; [|intros (? & ? & ?)]].
  split; [eauto|by intros (? & [= ->] & ?)]. Qed.

Lemma zx_assert_Done b (u : unit) : zx_assert b = Done u -> b = true.
Proof. by destruct b. Qed.

(** [returns m P]: the computation does not abort and its result satisfies [P]. *)
Definition returns {A} (m : exec A) (P : A -> Prop) : Prop :=
  match m with Done a => P a | Panic => False end.

(** * Machine integers

    A [w]-bit unsigned value is a [Z] in [0, 2^w); arithmetic that may leave the range is wrapped
    with [u32] / [u64], as C++ does for unsigned types. *)
Definition u8 (z : Z) : Z := z mod 2 ^ 8.
Definition u32 (z : Z) : Z := z mod 2 ^ 32.
Definition u64 (z : Z) : Z := z mod 2 ^ 64.
Definition UINT32_MAX : Z := 2 ^ 32 - 1.
Definition UINT64_MAX : Z := 2 ^ 64 - 1.

(** [~x] at 32 bits. *)
Definition u32_not (z : Z) : Z := u32 (Z.lnot z).

(** [cpp20::bit_width]. *)
Definition bit_width (z : Z) : Z := if z =? 0 then 0 else Z.log2 z + 1.

Definition is_u32 (z : Z) : Prop := 0 <= z < 2 ^ 32.
Definition is_u64 (z : Z) : Prop := 0 <= z < 2 ^ 64.

Create HintDb ints.

Section ints.
Implicit Types x a b s k m : Z.

Lemma u32_range x : is_u32 (u32 x).
Proof. unfold is_u32, u32. apply Z.mod_pos_bound. lia. Qed.

Lemma u64_range x : is_u64 (u64 x).
Proof. unfold is_u64, u64. apply Z.mod_pos_bound. lia. Qed.

Lemma u32_small x : is_u32 x -> u32 x = x.
Proof. unfold is_u32, u32. intros. by apply Z.mod_small. Qed.

Lemma u64_small x : is_u64 x -> u64 x = x.
Proof. unfold is_u64, u64. intros. by apply Z.mod_small. Qed.

(** Or-ing a field above [s] bits of payload is addition. *)
Lemma lor_shiftl_add a b s :
  0 <= s -> 0 <= a < 2 ^ s -> Z.lor a (Z.shiftl b s) = a + b * 2 ^ s.
Proof.
  intros Hs Ha. rewrite <- Z.shiftl_mul_pow2 by done.
  assert (Z.land a (Z.shiftl b s) = 0) as Hd.
  { apply Z.bits_inj'. intros n Hn. rewrite Z.land_spec, Z.bits_0.
    destruct (decide (n < s)) as [Hlt|Hge].
    - rewrite Z.shiftl_spec_low by done. apply andb_false_r.
    - rewrite <- (Z.mod_small a (2 ^ s)) by done.
      rewrite Z.mod_pow2_bits_high by lia. done. }
  rewrite Z.add_nocarry_lxor by done. by rewrite Z.lxor_lor.
Qed.

(** Reading the [k]-bit field at [s]. *)
Lemma field_read x s k :
  0 <= s -> 0 <= k ->
  Z.shiftr (Z.land x (Z.shiftl (Z.ones k) s)) s = (x / 2 ^ s) mod 2 ^ k.
Proof.
  intros Hs Hk. rewrite Z.shiftr_land, Z.shiftr_shiftl_l by done.
  rewrite Z.sub_diag, Z.shiftl_0_r, Z.land_ones, Z.shiftr_div_pow2 by done. done.
Qed.

(** Keeping the low [k] bits of a value moved to bit [s]. *)
Lemma field_write a s k :
  0 <= s -> 0 <= k ->
  Z.land (Z.shiftl a s) (Z.shiftl (Z.ones k) s) = (a mod 2 ^ k) * 2 ^ s.
Proof.
  intros Hs Hk. rewrite <- Z.shiftl_land, Z.land_ones, Z.shiftl_mul_pow2 by done. done.
Qed.

Lemma land_u32_not x m : is_u32 x -> Z.land x (u32_not m) = Z.ldiff x m.
Proof.
  unfold is_u32, u32_not, u32. intros Hx. rewrite <- Z.land_ones by done.
  rewrite (Z.land_comm (Z.lnot m)), Z.land_assoc, Z.land_ones by done.
  rewrite Z.mod_small by done. by rewrite <- Z.ldiff_land.
Qed.

Lemma land_u32_l x m : is_u32 m -> Z.land (u32 x) m = Z.land x m.
Proof.
  unfold is_u32, u32. intros Hm. rewrite <- Z.land_ones by done.
  rewrite <- Z.land_assoc, (Z.land_comm _ m), Z.land_ones by done.
  by rewrite Z.mod_small.
Qed.

(** A value of at most [k] bits fits the field at [s]: the bound check the masks express. *)
Lemma field_fits a s k :
  0 <= s -> 0 <= k -> 0 <= a < 2 ^ k ->
  Z.ldiff (Z.shiftl a s) (Z.shiftl (Z.ones k) s) = 0.
Proof.
  intros Hs Hk Ha. rewrite <- Z.shiftl_ldiff by done.
  destruct (decide (a = 0)) as [->|Hn]; [by rewrite Z.ldiff_0_l, Z.shiftl_0_l|].
  rewrite Z.ldiff_ones_r_low; [by rewrite Z.shiftl_0_l|lia|].
  apply Z.log2_lt_pow2; lia.
Qed.
End ints.

#[export] Hint Resolve u32_range u64_range u32_small u64_small : ints.

(** * Lists *)

(** Pigeonhole: distinct integers in [0, n) are at most [n] many. *)
Lemma NoDup_Z_length (l : list Z) (n : Z) :
  NoDup l -> (forall x, x ∈ l -> 0 <= x < n) -> Z.of_nat (length l) <= Z.max 0 n.
Proof.
  intros Hnd Hl. assert (Z.to_nat <$> l ⊆+ seq 0 (Z.to_nat n)) as Hs.
  { apply NoDup_submseteq.
    - induction l as [|x l IH]; simpl; [constructor|].
      apply NoDup_cons in Hnd as [Hx Hnd]. apply NoDup_cons. split.
      + intros (y & Hy & Hin)%list_elem_of_fmap.
        pose proof (Hl x ltac:(apply list_elem_of_here)).
        pose proof (Hl y ltac:(by apply list_elem_of_further)).
        assert (x = y) by lia. congruence.
      + apply IH; [done|]. intros y Hy. apply Hl. by apply list_elem_of_further.
    - intros x (y & -> & Hy)%list_elem_of_fmap. apply Hl in Hy. apply elem_of_seq. lia. }
  apply submseteq_length in Hs. rewrite length_fmap, length_seq in Hs. lia.
Qed.

(** ** Filters that keep everything or nothing *)

Lemma list_filter_all {A} (P : A -> Prop) `{!forall x, Decision (P x)} (l : list A) :
  Forall P l -> filter P l = l.
Proof.
  induction 1 as [|x l Hx _ IH]; [done|]. rewrite filter_cons, decide_True by done. by rewrite IH.
Qed.

Lemma list_filter_none {A} (P : A -> Prop) `{!forall x, Decision (P x)} (l : list A) :
  Forall (fun x => ~ P x) l -> filter P l = [].
Proof.
  induction 1 as [|x l Hx _ IH]; [done|]. rewrite filter_cons, decide_False by done. done.
Qed.

Lemma filter_partition {A} (f : A -> bool) (l : list A) :
  filter (fun x => f x = true) l ++ filter (fun x => f x = false) l ≡ₚ l.
Proof.
  induction l as [|x l IH]; [done|]. rewrite !filter_cons. destruct (f x) eqn:E.
  - rewrite decide_True, decide_False by congruence. simpl. by rewrite IH.
  - rewrite decide_False, decide_True by congruence. by rewrite <- Permutation_middle, IH.
Qed.
