(* ===== verification/Handles.v ===== *)
(** * Handles: the driver runtime's handle table

    Model of [src/devices/bin/driver_runtime/handle.cc] and [handle.h]: the layout of a
    [fdf_handle_t], the two-level table of handle slots with its free list, and the operations
    that create, look up and destroy handles. A [Handle*] is the position of its slot in the
    table, [(dir_index, index)]. [Alloc], [Delete] and the search of the table hold the arena's lock,
    but filling in the new [Handle] in [Create], [Reset] before [Delete], and the comparison of the value in
    [MapValueToHandle] are done outside of it. The model runs the calls one after the other, and says nothing of calls that overlap. *)
From Stdlib Require Import ZArith Lia.
From stdpp Require Import prelude.
From S2P Require Import Prelude.

Local Open Scope Z_scope.

(** The two constants of the C ABI header [lib/fdf/types.h] the sources use. *)
Class FdfAbi := {
  FDF_HANDLE_FIXED_BITS_MASK : Z;
  FDF_HANDLE_INVALID : Z
}.

(** ** Handle values *)

Definition kMaxNumHandles : Z := 64 * 1024.
Definition kNumTables : Z := 64.
Definition kHandlesPerTable : Z := kMaxNumHandles / kNumTables.

Definition kHandleReservedBits : Z := 2.
Definition kHandleReservedBitsMask : Z := Z.shiftl 1 kHandleReservedBits - 1.
(** [1 < 1], a comparison, in the source. *)
Definition kHandleReservedBitsValue : Z := if 1 <? 1 then 1 else 0.

Definition kHandleIndexShift : Z := kHandleReservedBits.
Definition kHandleIndexBits : Z := bit_width (kHandlesPerTable - 1).
Definition kHandleIndexMask : Z := Z.shiftl (kHandlesPerTable - 1) kHandleIndexShift.

Definition kHandleDirIndexShift : Z := kHandleIndexShift + kHandleIndexBits.
Definition kHandleDirIndexBits : Z := bit_width (kNumTables - 1).
Definition kHandleDirIndexMask : Z := Z.shiftl (kNumTables - 1) kHandleDirIndexShift.

Definition kHandleGenerationMask : Z :=
  Z.land (Z.land (u32_not kHandleIndexMask) (u32_not kHandleDirIndexMask))
         (u32_not kHandleReservedBitsMask).
Definition kHandleGenerationShift : Z := kHandleDirIndexShift + kHandleDirIndexBits.

Definition handle_value_to_dir_index (handle_value : Z) : Z :=
  Z.shiftr (Z.land handle_value kHandleDirIndexMask) kHandleDirIndexShift.

Definition handle_value_to_index (handle_value : Z) : Z :=
  Z.shiftr (Z.land handle_value kHandleIndexMask) kHandleIndexShift.

Definition new_handle_value (dir_index index old_handle_value : Z) : exec Z :=
  (ASSERT Z.land (u32 (Z.shiftl dir_index kHandleDirIndexShift))
                 (u32_not kHandleDirIndexMask) =? 0 ;;
   ASSERT Z.land (u32 (Z.shiftl index kHandleIndexShift)) (u32_not kHandleIndexMask) =? 0 ;;
   old_gen ← (if old_handle_value =? 0 then Done 0 else
     ASSERT handle_value_to_dir_index old_handle_value =? dir_index ;;
     ASSERT handle_value_to_index old_handle_value =? index ;;
     Done (Z.shiftr (Z.land old_handle_value kHandleGenerationMask) kHandleGenerationShift));
   let new_gen :=
     Z.land (u32 (Z.shiftl (old_gen + 1) kHandleGenerationShift)) kHandleGenerationMask in
   Done (Z.lor (Z.lor (Z.lor kHandleReservedBitsValue (u32 (Z.shiftl index kHandleIndexShift)))
                      (u32 (Z.shiftl dir_index kHandleDirIndexShift)))
               new_gen))%exec.

(** A [Handle*]: the address of a slot. *)
Abbreviation hptr := (Z * Z)%type.

Section handles.
Context `{abi : FdfAbi} {Obj : Type}.

(** [fbl::RefPtr<Object>] is an [option Obj]: the object's identity or null. *)
Record Handle := mkHandle {
  object_ : option Obj;
  value_ : Z
}.

(** The default constructor, which fills a new table. *)
Definition Handle_default : Handle := mkHandle None FDF_HANDLE_INVALID.

Definition Handle_Reset (h : Handle) : Handle := mkHandle None (value_ h).

Record HandleTableArena := mkArena {
  handle_table_dir_ : list (option (list Handle));
  dir_index_ : Z;
  handles_index_ : Z;
  free_handles_ : list hptr;
  num_allocated_ : Z
}.

Definition new_table : list Handle := replicate (Z.to_nat kHandlesPerTable) Handle_default.

Definition HandleTableArena_init : HandleTableArena :=
  mkArena (Some new_table :: replicate (Z.to_nat (kNumTables - 1)) None) 0 0 [] 0.

(** Reading and writing through a [Handle*]. *)
Definition deref (st : HandleTableArena) (p : hptr) : option Handle :=
  match handle_table_dir_ st !! Z.to_nat p.1 with
  | Some (Some t) => t !! Z.to_nat p.2
  | _ => None
  end.

Definition store (st : HandleTableArena) (p : hptr) (h : Handle) : HandleTableArena :=
  match handle_table_dir_ st !! Z.to_nat p.1 with
  | Some (Some t) =>
      mkArena (<[Z.to_nat p.1 := Some (<[Z.to_nat p.2 := h]> t)]> (handle_table_dir_ st))
        (dir_index_ st) (handles_index_ st) (free_handles_ st) (num_allocated_ st)
  | _ => st
  end.

Definition GetExistingHandle (st : HandleTableArena) (dir_index index : Z) : option hptr :=
  if kNumTables <=? dir_index then None
  else if kHandlesPerTable <=? index then None
  else match handle_table_dir_ st !! Z.to_nat dir_index with
       | Some (Some t) =>
           match t !! Z.to_nat index with
           | Some h => match object_ h with Some _ => Some (dir_index, index) | None => None end
           | None => None
           end
       | _ => None
       end.

(** The directory with the table [dir_index_] points to, allocated if it is null. *)
Definition current_table (st : HandleTableArena) : exec (list (option (list Handle))) :=
  match handle_table_dir_ st !! Z.to_nat (dir_index_ st) with
  | Some (Some _) => Done (handle_table_dir_ st)
  | Some None =>
      (ASSERT handles_index_ st =? 0 ;;
       Done (<[Z.to_nat (dir_index_ st) := Some new_table]> (handle_table_dir_ st)))%exec
  | None => Panic
  end.

(** The indexes after reserving one slot: past the end of a table, the next one. *)
Definition advance (st : HandleTableArena) (dir : list (option (list Handle)))
    : HandleTableArena :=
  let next := u32 (handles_index_ st + 1) in
  if kHandlesPerTable <=? next
  then mkArena dir (u32 (dir_index_ st + 1)) 0 (free_handles_ st) (num_allocated_ st)
  else mkArena dir (dir_index_ st) next (free_handles_ st) (num_allocated_ st).

(** Returns the slot with its two out-parameters. *)
Definition AllocHandleMemoryLocked (st : HandleTableArena)
    : exec (HandleTableArena * option (hptr * Z * Z)) :=
  match free_handles_ st with
  | handle :: rest =>
      match deref st handle with
      | None => Panic
      | Some h =>
          Done (mkArena (handle_table_dir_ st) (dir_index_ st) (handles_index_ st) rest
                  (num_allocated_ st),
                Some (handle, handle_value_to_dir_index (value_ h),
                      handle_value_to_index (value_ h)))
      end
  | [] =>
      if kNumTables <=? dir_index_ st then Done (st, None)
      else
        (dir ← current_table st;
         ASSERT handles_index_ st <? kHandlesPerTable ;;
         Done (advance st dir,
               Some ((dir_index_ st, handles_index_ st), dir_index_ st, handles_index_ st)))%exec
  end.

Definition Alloc (st : HandleTableArena) : exec (HandleTableArena * option (hptr * Z)) :=
  '(st1, r) ← AllocHandleMemoryLocked st;
  match r with
  | None => Done (st1, None)
  | Some (handle, dir_index, index) =>
      match deref st1 handle with
      | None => Panic
      | Some h =>
          (ASSERT negb (bool_decide (is_Some (object_ h))) ;;
           value ← new_handle_value dir_index index (value_ h);
           Done (mkArena (handle_table_dir_ st1) (dir_index_ st1) (handles_index_ st1)
                   (free_handles_ st1) (u32 (num_allocated_ st1 + 1)),
                 Some (handle, value)))%exec
      end
  end.

(** [Handle::Create]: allocates a slot and constructs the [Handle] in place. *)
Definition Create (st : HandleTableArena) (object : option Obj)
    : exec (HandleTableArena * option hptr) :=
  '(st1, r) ← Alloc st;
  match r with
  | None => Done (st1, None)
  | Some (handle, handle_value) =>
      Done (store st1 handle (mkHandle object handle_value), Some handle)
  end.

(** [HandleTableArena::Delete], what the owner's destructor calls. *)
Definition Delete (st : HandleTableArena) (handle : hptr) : exec HandleTableArena :=
  match deref st handle with
  | None => Panic
  | Some h =>
      let st1 := store st handle (Handle_Reset h) in
      Done (mkArena (handle_table_dir_ st1) (dir_index_ st1) (handles_index_ st1)
              (handle :: free_handles_ st1) (u32 (num_allocated_ st1 - 1)))
  end.

Definition IsFdfHandle (handle_value : Z) : bool :=
  (Z.land handle_value FDF_HANDLE_FIXED_BITS_MASK =? kHandleReservedBitsValue) ||
  (handle_value =? FDF_HANDLE_INVALID).

Definition MapValueToHandle (st : HandleTableArena) (handle_value : Z) : option hptr :=
  if negb (IsFdfHandle handle_value) then None else
  let dir_index := handle_value_to_dir_index handle_value in
  let index := handle_value_to_index handle_value in
  match GetExistingHandle st dir_index index with
  | None => None
  | Some handle =>
      match deref st handle with
      | Some h => if handle_value =? value_ h then Some handle else None
      | None => None
      end
  end.

(** [Handle::GetObject<T>(handle_value, &out)]. *)
Definition GetObject (st : HandleTableArena) (handle_value : Z) : zx_status + Obj :=
  match MapValueToHandle st handle_value with
  | None => inl ZX_ERR_BAD_HANDLE
  | Some handle =>
      match deref st handle with
      | Some h => match object_ h with Some o => inr o | None => inl ZX_ERR_WRONG_TYPE end
      | None => inl ZX_ERR_WRONG_TYPE
      end
  end.

End handles.
Arguments Handle : clear implicits.
Arguments HandleTableArena : clear implicits.

(** ** The layout of a handle value *)

(** Slot [p] at generation [g]: index at bit 2, directory index at bit 12, generation at bit 18. *)
Definition encode (p : hptr) (g : Z) : Z := 4 * p.2 + 4096 * p.1 + 262144 * g.

Definition kNumGenerations : Z := 2 ^ 14.

Definition in_range (p : hptr) : Prop := 0 <= p.1 < kNumTables /\ 0 <= p.2 < kHandlesPerTable.

Lemma dir_index_div v : handle_value_to_dir_index v = (v / 2 ^ 12) mod 2 ^ 6.
Proof. apply (field_read v 12 6); lia. Qed.

Lemma index_div v : handle_value_to_index v = (v / 2 ^ 2) mod 2 ^ 10.
Proof. apply (field_read v 2 10); lia. Qed.

Lemma generation_div v :
  Z.shiftr (Z.land v kHandleGenerationMask) kHandleGenerationShift = (v / 2 ^ 18) mod 2 ^ 14.
Proof. apply (field_read v 18 14); lia. Qed.

Ltac in_range_lia :=
  unfold in_range, encode, kNumGenerations in *;
  change kNumTables with 64 in *; change kHandlesPerTable with 1024 in *;
  simpl fst in *; simpl snd in *;
  Z.div_mod_to_equations; lia.

Lemma encode_dir_index p g :
  in_range p -> 0 <= g -> handle_value_to_dir_index (encode p g) = p.1.
Proof. intros. rewrite dir_index_div. in_range_lia. Qed.

Lemma encode_index p g :
  in_range p -> 0 <= g -> handle_value_to_index (encode p g) = p.2.
Proof. intros. rewrite index_div. in_range_lia. Qed.

Lemma encode_generation p g :
  in_range p -> 0 <= g < kNumGenerations -> (encode p g / 2 ^ 18) mod 2 ^ 14 = g.
Proof. intros. in_range_lia. Qed.

Lemma encode_reserved p g : encode p g mod 4 = 0.
Proof. unfold encode. Z.div_mod_to_equations. lia. Qed.

(** Assembling a value from fields that fit. *)
Lemma new_value_fields d i g :
  in_range (d, i) -> 0 <= g ->
  Z.lor (Z.lor (Z.lor kHandleReservedBitsValue (u32 (Z.shiftl i kHandleIndexShift)))
               (u32 (Z.shiftl d kHandleDirIndexShift)))
        (Z.land (u32 (Z.shiftl (g + 1) kHandleGenerationShift)) kHandleGenerationMask)
  = encode (d, i) ((g + 1) mod kNumGenerations).
Proof.
  intros [Hd Hi] Hg. change kNumTables with 64 in Hd. change kHandlesPerTable with 1024 in Hi.
  simpl in Hd, Hi. change kHandleIndexShift with 2. change kHandleDirIndexShift with 12.
  change kHandleGenerationShift with 18. change kHandleReservedBitsValue with 0.
  rewrite Z.lor_0_l, land_u32_l by (unfold is_u32; done).
  change kHandleGenerationMask with (Z.shiftl (Z.ones 14) 18).
  rewrite field_write by lia. rewrite <- (Z.shiftl_mul_pow2 _ 18) by lia.
  rewrite (u32_small (Z.shiftl i 2)), (u32_small (Z.shiftl d 12))
    by (unfold is_u32; rewrite Z.shiftl_mul_pow2 by lia; lia).
  rewrite (lor_shiftl_add (Z.shiftl i 2)) by (rewrite ?Z.shiftl_mul_pow2; lia).
  rewrite (lor_shiftl_add _ _ 18) by (rewrite ?Z.shiftl_mul_pow2; lia).
  rewrite Z.shiftl_mul_pow2 by lia. unfold encode, kNumGenerations. simpl fst. simpl snd. lia.
Qed.

(** The value of a slot that holds, or held, a handle. *)
Definition value_ok (p : hptr) (v : Z) : Prop :=
  exists g, 0 <= g < kNumGenerations /\ v = encode p g.

Lemma dir_index_fits d :
  0 <= d < kNumTables ->
  Z.land (u32 (Z.shiftl d kHandleDirIndexShift)) (u32_not kHandleDirIndexMask) = 0.
Proof.
  intros Hd. change kNumTables with 64 in Hd. rewrite land_u32_not by auto with ints.
  change kHandleDirIndexShift with 12.
  rewrite u32_small by (unfold is_u32; rewrite Z.shiftl_mul_pow2; lia).
  apply (field_fits d 12 6); lia.
Qed.

Lemma index_fits i :
  0 <= i < kHandlesPerTable ->
  Z.land (u32 (Z.shiftl i kHandleIndexShift)) (u32_not kHandleIndexMask) = 0.
Proof.
  intros Hi. change kHandlesPerTable with 1024 in Hi. rewrite land_u32_not by auto with ints.
  change kHandleIndexShift with 2.
  rewrite u32_small by (unfold is_u32; rewrite Z.shiftl_mul_pow2; lia).
  apply (field_fits i 2 10); lia.
Qed.

(** A slot's next value is the same slot at the next generation, modulo 2^14. *)
Lemma new_handle_value_eq p g :
  in_range p -> 0 <= g < kNumGenerations ->
  new_handle_value p.1 p.2 (encode p g) = Done (encode p ((g + 1) mod kNumGenerations)).
Proof.
  intros Hp Hg. destruct p as [d i]. unfold new_handle_value. simpl fst. simpl snd.
  rewrite dir_index_fits, index_fits by apply Hp. simpl zx_assert. simpl exec_bind.
  rewrite <- new_value_fields by (done || lia).
  destruct (Z.eqb_spec (encode (d, i) g) 0) as [H0|H0].
  - assert (g = 0) as -> by in_range_lia. done.
  - rewrite encode_dir_index, encode_index by (done || lia). simpl fst. simpl snd.
    rewrite !Z.eqb_refl, generation_div, encode_generation by done. done.
Qed.

(** A slot that was never used has value 0 and gets generation 1. *)
Lemma new_handle_value_first p :
  in_range p -> new_handle_value p.1 p.2 0 = Done (encode p 1).
Proof.
  intros Hp. destruct p as [d i]. unfold new_handle_value. simpl fst. simpl snd.
  rewrite dir_index_fits, index_fits by apply Hp.
  change (encode (d, i) 1) with (encode (d, i) ((0 + 1) mod kNumGenerations)).
  rewrite <- new_value_fields by (done || lia). done.
Qed.

(** ** The table's invariant *)

(** What the sources rely on of the two ABI constants: the fixed bits are among the reserved
    ones, and the invalid handle is zero, the value [new_handle_value] takes for "never used". *)
Class FdfAbiOk (abi : FdfAbi) : Prop := {
  fixed_bits_reserved : 0 <= FDF_HANDLE_FIXED_BITS_MASK <= kHandleReservedBitsMask;
  handle_invalid_zero : FDF_HANDLE_INVALID = 0
}.

Section invariant.
Context `{abi : FdfAbi} `{!FdfAbiOk abi} {Obj : Type}.
Implicit Types (st : HandleTableArena Obj) (p q : hptr) (h : Handle Obj).

(** Slots below the watermark were handed out at least once. *)
Definition carved st p : Prop :=
  p.1 < dir_index_ st \/ (p.1 = dir_index_ st /\ p.2 < handles_index_ st).

Definition live st p : Prop := exists h o, deref st p = Some h /\ object_ h = Some o.

(** [hole]: the slot [Alloc] has reserved and the constructor has not filled yet. Between two
    operations there is none. *)
Record arena_inv_but (hole : option hptr) st : Prop := {
  inv_dir_len : length (handle_table_dir_ st) = 64%nat;
  inv_tab_len : forall d t, handle_table_dir_ st !! d = Some (Some t) -> length t = 1024%nat;
  inv_watermark : 0 <= dir_index_ st <= kNumTables /\ 0 <= handles_index_ st < kHandlesPerTable;
  inv_exhausted : dir_index_ st = kNumTables -> handles_index_ st = 0;
  inv_full_tables : forall d, 0 <= d < dir_index_ st ->
    exists t, handle_table_dir_ st !! Z.to_nat d = Some (Some t);
  inv_current_table : 0 < handles_index_ st ->
    exists t, handle_table_dir_ st !! Z.to_nat (dir_index_ st) = Some (Some t);
  inv_fresh : forall p h, in_range p -> ~ carved st p -> deref st p = Some h ->
    h = Handle_default;
  inv_value : forall p h, in_range p -> carved st p -> deref st p = Some h -> hole <> Some p ->
    value_ok p (value_ h);
  inv_hole : forall p, hole = Some p ->
    in_range p /\ carved st p /\ (p ∉ free_handles_ st) /\ ~ live st p;
  inv_hole_value : forall p h, hole = Some p -> deref st p = Some h ->
    value_ok p (value_ h) \/ value_ h = 0;
  inv_free_nodup : NoDup (free_handles_ st);
  inv_free : forall p, p ∈ free_handles_ st -> in_range p /\ carved st p /\ ~ live st p;
  inv_live : forall p, in_range p -> carved st p -> (p ∉ free_handles_ st) -> hole <> Some p ->
    live st p;
  inv_count : num_allocated_ st =
    kHandlesPerTable * dir_index_ st + handles_index_ st -
    Z.of_nat (length (free_handles_ st)) - (match hole with Some _ => 1 | None => 0 end)
}.

Definition arena_inv : HandleTableArena Obj -> Prop := arena_inv_but None.

Lemma deref_store st p q h :
  in_range p -> in_range q -> is_Some (deref st p) ->
  deref (store st p h) q = if decide (p = q) then Some h else deref st q.
Proof.
  intros Hp Hq [h0 H0]. unfold deref, store in *.
  destruct (handle_table_dir_ st !! Z.to_nat p.1) as [[t|]|] eqn:Et; try done. simpl.
  pose proof (lookup_lt_Some _ _ _ Et) as Hlt. pose proof (lookup_lt_Some _ _ _ H0) as Hlt2.
  destruct (decide (Z.to_nat p.1 = Z.to_nat q.1)) as [E1|E1].
  - rewrite <- E1, list_lookup_insert_eq, Et by done.
    destruct (decide (Z.to_nat p.2 = Z.to_nat q.2)) as [E2|E2].
    + rewrite <- E2, list_lookup_insert_eq by done.
      assert (p = q) as ->; [|by rewrite decide_True].
      destruct p as [a b], q as [c d], Hp, Hq; simpl in *. f_equal; lia.
    + rewrite list_lookup_insert_ne by done.
      rewrite decide_False by (intros ->; lia). done.
  - rewrite list_lookup_insert_ne by done. rewrite decide_False by (intros ->; lia). done.
Qed.

Lemma store_frame st p h :
  dir_index_ (store st p h) = dir_index_ st /\
  handles_index_ (store st p h) = handles_index_ st /\
  free_handles_ (store st p h) = free_handles_ st /\
  num_allocated_ (store st p h) = num_allocated_ st.
Proof. unfold store. by repeat case_match. Qed.

Lemma deref_carved o st p :
  arena_inv_but o st -> in_range p -> carved st p -> is_Some (deref st p).
Proof.
  intros I [Hd Hi] Hc. unfold deref.
  assert (exists t, handle_table_dir_ st !! Z.to_nat p.1 = Some (Some t)) as [t Et].
  { destruct Hc as [Hc|[Hc Hc2]].
    - apply (inv_full_tables _ _ I). lia.
    - rewrite Hc. apply (inv_current_table _ _ I). lia. }
  rewrite Et. apply lookup_lt_is_Some. rewrite (inv_tab_len _ _ I _ _ Et).
  change kHandlesPerTable with 1024 in Hi. lia.
Qed.

#[global] Instance carved_dec st p : Decision (carved st p).
Proof. unfold carved. apply _. Defined.

Lemma live_carved o st p : arena_inv_but o st -> in_range p -> live st p -> carved st p.
Proof.
  intros I Hp (h & ob & Hd & Ho). destruct (decide (carved st p)) as [|Hn]; [done|].
  by rewrite (inv_fresh _ _ I _ _ Hp Hn Hd) in Ho.
Qed.

Lemma live_iff st p :
  arena_inv st -> in_range p -> live st p <-> carved st p /\ p ∉ free_handles_ st.
Proof.
  intros I Hp. split.
  - intros Hl. split; [by eapply live_carved|].
    intros Hf. by apply (inv_free _ _ I) in Hf as (_ & _ & Hf).
  - intros [Hc Hf]. by apply (inv_live _ _ I).
Qed.

Lemma init_table d t :
  handle_table_dir_ (HandleTableArena_init (Obj:=Obj)) !! d = Some (Some t) -> t = new_table.
Proof.
  unfold HandleTableArena_init. cbn [handle_table_dir_].
  destruct d as [|d]; [by intros [= <-]|]. rewrite lookup_cons_ne_0 by done.
  intros [? _]%lookup_replicate. done.
Qed.

Lemma init_slot p h : deref (HandleTableArena_init (Obj:=Obj)) p = Some h -> h = Handle_default.
Proof.
  unfold deref. destruct (_ !! Z.to_nat p.1) as [[t|]|] eqn:Et; try done.
  apply init_table in Et as ->. unfold new_table. by intros [-> _]%lookup_replicate.
Qed.

Lemma arena_init_inv : arena_inv (HandleTableArena_init (Obj:=Obj)).
Proof.
  assert (forall p, in_range p -> ~ carved (HandleTableArena_init (Obj:=Obj)) p) as Hnc.
  { intros p [Hd Hi] [Hc|[Hc1 Hc2]]; simpl in *; lia. }
  split; try done.
  - intros d t Ht%init_table. subst. unfold new_table. by rewrite length_replicate.
  - simpl. lia.
  - intros p h _ _. apply init_slot.
  - intros p h Hp Hc. by apply Hnc in Hc.
  - constructor.
  - intros p Hp. by apply elem_of_nil in Hp.
  - intros p Hp Hc. by apply Hnc in Hc.
Qed.

(** The table the watermark points into, allocated on demand: [dir] is the directory after that
    step, in which new slots hold the default handle and old ones are unchanged. *)
Definition grown st (dir : list (option (list (Handle Obj)))) : Prop :=
  length dir = 64%nat /\
  (forall d t, dir !! d = Some (Some t) -> length t = 1024%nat) /\
  (forall d t, handle_table_dir_ st !! d = Some (Some t) -> dir !! d = Some (Some t)) /\
  (exists t, dir !! Z.to_nat (dir_index_ st) = Some (Some t)) /\
  (forall d t, dir !! d = Some (Some t) ->
     handle_table_dir_ st !! d = Some (Some t) \/ t = new_table).

Lemma current_table_ok st :
  arena_inv st -> dir_index_ st < kNumTables ->
  exists dir, current_table st = Done dir /\ grown st dir.
Proof.
  intros I Hlt. unfold current_table, grown. pose proof (inv_watermark _ _ I) as [Hw1 Hw2].
  pose proof (inv_tab_len _ _ I) as Hlen.
  destruct (handle_table_dir_ st !! Z.to_nat (dir_index_ st)) as [[t|]|] eqn:Et.
  - eexists. split; [done|]. split; [apply (inv_dir_len _ _ I)|]. split_and!; eauto.
  - destruct (decide (0 < handles_index_ st)) as [Hpos|Hz].
    { by destruct (inv_current_table _ _ I Hpos) as [t Ht]; simplify_eq. }
    assert (handles_index_ st = 0) as -> by lia. eexists. split; [done|].
    rewrite length_insert, (inv_dir_len _ _ I). pose proof (lookup_lt_Some _ _ _ Et) as Hb.
    split_and!; [done|..].
    + intros d t. rewrite list_lookup_insert. case_decide; [|apply Hlen].
      intros [= <-]. unfold new_table. by rewrite length_replicate.
    + intros d t Hd. rewrite list_lookup_insert_ne; [done|]. intros <-. simplify_eq.
    + exists new_table. by rewrite list_lookup_insert_eq.
    + intros d t. rewrite list_lookup_insert. case_decide; [|by left].
      intros [= <-]. by right.
  - apply lookup_ge_None in Et. rewrite (inv_dir_len _ _ I) in Et.
    change kNumTables with 64 in Hlt. lia.
Qed.

Lemma grown_deref st st' p :
  grown st (handle_table_dir_ st') ->
  deref st' p = deref st p \/
  (deref st p = None /\ forall h, deref st' p = Some h -> h = Handle_default).
Proof.
  intros (_ & _ & Hkeep & _ & Hnew). unfold deref.
  destruct (handle_table_dir_ st !! Z.to_nat p.1) as [[t|]|] eqn:Et.
  { left. by rewrite (Hkeep _ _ Et). }
  all: right; split; [done|].
  all: destruct (handle_table_dir_ st' !! Z.to_nat p.1) as [[t'|]|] eqn:Et'; try done.
  all: destruct (Hnew _ _ Et') as [?| ->]; [simplify_eq|].
  all: intros h Hh; unfold new_table in Hh; by apply lookup_replicate in Hh as [-> _].
Qed.

Lemma grown_live st st' p :
  grown st (handle_table_dir_ st') -> live st' p <-> live st p.
Proof.
  intros G. unfold live. destruct (grown_deref _ _ p G) as [->|[-> Hd]]; [done|].
  split; intros (h & o & Hh & Ho); [|done]. by rewrite (Hd _ Hh) in Ho.
Qed.

Lemma advance_carved st dir p :
  arena_inv st -> dir_index_ st < kNumTables -> in_range p ->
  carved (advance st dir) p <-> carved st p \/ p = (dir_index_ st, handles_index_ st).
Proof.
  intros I Hlt [Hp1 Hp2]. pose proof (inv_watermark _ _ I) as [Hw1 Hw2].
  unfold carved, advance. change kNumTables with 64 in *. change kHandlesPerTable with 1024 in *.
  rewrite !u32_small by (unfold is_u32; lia).
  destruct p as [d i]. rewrite pair_eq. simpl in *.
  destruct (Z.leb_spec 1024 (handles_index_ st + 1)); simpl; lia.
Qed.

Lemma advance_inv st dir :
  arena_inv st -> free_handles_ st = [] -> dir_index_ st < kNumTables -> grown st dir ->
  let p := (dir_index_ st, handles_index_ st) in
  ~ live st p /\ arena_inv_but (Some p) (advance st dir).
Proof.
  intros I Hfree Hlt G p. pose proof (inv_watermark _ _ I) as [Hw1 Hw2].
  assert (in_range p) as Hp by (unfold in_range, p; simpl; lia).
  assert (~ carved st p) as Hnc by (unfold carved, p; simpl; lia).
  assert (~ live st p) as Hnl by (intros Hl; by apply (live_carved None) in Hl).
  assert (handle_table_dir_ (advance st dir) = dir) as Hdir by (unfold advance; by case_match).
  assert (free_handles_ (advance st dir) = []) as Hf' by (unfold advance; by case_match).
  assert (forall q, live (advance st dir) q <-> live st q) as Hlive.
  { intros q. apply grown_live. by rewrite Hdir. }
  assert (forall q, deref (advance st dir) q = deref st q \/
    (deref st q = None /\ forall h, deref (advance st dir) q = Some h -> h = Handle_default))
    as Hder by (intros q; apply grown_deref; by rewrite Hdir).
  assert (forall q, in_range q -> carved (advance st dir) q <-> carved st q \/ q = p)
    as Hcar by (intros q Hq; by apply advance_carved).
  destruct G as (G1 & G2 & G3 & [tc G4] & G5).
  split; [done|]. split.
  - by rewrite Hdir.
  - intros d t. rewrite Hdir. apply G2.
  - unfold advance. change kNumTables with 64 in *. change kHandlesPerTable with 1024 in *.
    rewrite !u32_small by (unfold is_u32; lia). case_match; simpl; lia.
  - unfold advance. change kNumTables with 64 in *. change kHandlesPerTable with 1024 in *.
    rewrite !u32_small by (unfold is_u32; lia). case_match; simpl; lia.
  - intros d Hd. rewrite Hdir. destruct (decide (d = dir_index_ st)) as [->|]; [by exists tc|].
    destruct (inv_full_tables _ _ I d) as [t Ht]; [|by exists t; apply G3].
    revert Hd. unfold advance. change kNumTables with 64 in *.
    rewrite (u32_small (dir_index_ st + 1)) by (unfold is_u32; lia). case_match; simpl; lia.
  - rewrite Hdir. unfold advance. case_match; simpl; [lia|]. intros _. by exists tc.
  - intros q h Hq Hc Hd. rewrite Hcar in Hc by done.
    destruct (Hder q) as [E|[_ E]]; [|by apply E].
    rewrite E in Hd. apply (inv_fresh _ _ I q); naive_solver.
  - intros q h Hq Hc Hd Hne. rewrite Hcar in Hc by done.
    destruct Hc as [Hc|Hc]; [|congruence].
    destruct (deref_carved _ _ _ I Hq Hc) as [h' Hh'].
    destruct (Hder q) as [E|[E _]]; rewrite E in *; [|done].
    by apply (inv_value _ _ I q).
  - intros q [= <-]. rewrite Hlive, Hcar, Hf' by done. split_and!; auto.
    apply not_elem_of_nil.
  - intros q h [= <-] Hd. right. destruct (Hder p) as [E|[_ E]].
    + rewrite E in Hd. by rewrite (inv_fresh _ _ I _ _ Hp Hnc Hd), <- handle_invalid_zero.
    + by rewrite (E _ Hd), <- handle_invalid_zero.
  - rewrite Hf'. constructor.
  - intros q. rewrite Hf'. intros Hq. by apply elem_of_nil in Hq.
  - intros q Hq Hc _ Hne. rewrite Hcar in Hc by done. rewrite Hlive.
    destruct Hc as [Hc|Hc]; [|congruence].
    apply (inv_live _ _ I); [done..| |done]. rewrite Hfree. apply not_elem_of_nil.
  - rewrite Hf'. pose proof (inv_count _ _ I) as Hcnt. rewrite Hfree in Hcnt.
    unfold advance. change kNumTables with 64 in *. change kHandlesPerTable with 1024 in *.
    rewrite !u32_small by (unfold is_u32; lia). simpl in *. case_match; simpl; lia.
Qed.

Definition with_free st (l : list hptr) : HandleTableArena Obj :=
  mkArena (handle_table_dir_ st) (dir_index_ st) (handles_index_ st) l (num_allocated_ st).

Lemma pop_free_inv st p rest :
  arena_inv st -> free_handles_ st = p :: rest -> arena_inv_but (Some p) (with_free st rest).
Proof.
  intros I Hfree. pose proof (inv_free_nodup _ _ I) as Hnd. rewrite Hfree in Hnd.
  apply NoDup_cons in Hnd as [Hnin Hnd].
  destruct (inv_free _ _ I p) as (Hp & Hc & Hnl); [rewrite Hfree; apply list_elem_of_here|].
  split; try apply I; try done.
  - intros q h Hq Hcq Hd _. by apply (inv_value _ _ I).
  - intros q [= <-]. done.
  - intros q h [= <-] Hd. left. by apply (inv_value _ _ I).
  - intros q Hq. apply (inv_free _ _ I). rewrite Hfree. by apply list_elem_of_further.
  - intros q Hq Hcq Hnf Hne. apply (inv_live _ _ I); [done..| |done].
    rewrite Hfree. intros [->|?]%elem_of_cons; [congruence|done].
  - pose proof (inv_count _ _ I) as Hcnt. rewrite Hfree in Hcnt. simpl in *. lia.
Qed.

(** What [AllocHandleMemoryLocked] returns: a slot that holds no handle, with its own indexes, or
    nothing when every slot is in use. *)
Lemma AllocHandleMemoryLocked_ok st :
  arena_inv st ->
  returns (AllocHandleMemoryLocked st) (fun '(st', r) =>
    match r with
    | None => st' = st /\ forall p, in_range p -> live st p
    | Some (p, d, i) =>
        p = (d, i) /\ ~ live st p /\ arena_inv_but (Some p) st' /\
        (forall q, live st q -> deref st' q = deref st q)
    end).
Proof.
  intros I. unfold AllocHandleMemoryLocked.
  destruct (free_handles_ st) as [|p rest] eqn:Hfree.
  - destruct (Z.leb_spec kNumTables (dir_index_ st)) as [Hge|Hlt]; simpl.
    + split; [done|]. intros p Hp. apply (inv_live _ _ I); [done|left|by rewrite Hfree; apply not_elem_of_nil|done].
      destruct Hp as [Hp _]. lia.
    + destruct (current_table_ok _ I Hlt) as (dir & -> & G). simpl.
      destruct (advance_inv _ _ I Hfree Hlt G) as [Hnl I'].
      pose proof (inv_watermark _ _ I) as [_ Hw2].
      destruct (Z.ltb_spec (handles_index_ st) kHandlesPerTable); [simpl|lia].
      split_and!; try done. intros q (h & o & Hh & Ho).
      assert (handle_table_dir_ (advance st dir) = dir) as Hdir by (unfold advance; by case_match).
      destruct (grown_deref st (advance st dir) q) as [E|[E _]]; [by rewrite Hdir|done|congruence].
  - destruct (inv_free _ _ I p) as (Hp & Hc & Hnl); [rewrite Hfree; apply list_elem_of_here|].
    destruct (deref_carved _ _ _ I Hp Hc) as [h Hh]. rewrite Hh. simpl.
    destruct (inv_value _ _ I p h) as (g & Hg & ->); [done..|].
    rewrite encode_dir_index, encode_index by (done || lia).
    split_and!; [by destruct p|done|by apply pop_free_inv|done].
Qed.

Lemma next_value_ok p v :
  in_range p -> value_ok p v \/ v = 0 ->
  exists v', new_handle_value p.1 p.2 v = Done v' /\ value_ok p v' /\ v' <> v.
Proof.
  intros Hp [(g & Hg & ->)| ->].
  - rewrite new_handle_value_eq by done. eexists. split; [done|].
    split; [eexists; split; [|done]|]; in_range_lia.
  - rewrite new_handle_value_first by done. eexists. split; [done|].
    split; [exists 1; done|]. in_range_lia.
Qed.

Definition with_count st (n : Z) : HandleTableArena Obj :=
  mkArena (handle_table_dir_ st) (dir_index_ st) (handles_index_ st) (free_handles_ st) n.

Lemma store_tables st p h d t :
  handle_table_dir_ (store st p h) !! d = Some (Some t) ->
  exists t0, handle_table_dir_ st !! d = Some (Some t0) /\ length t0 = length t.
Proof.
  unfold store. destruct (handle_table_dir_ st !! Z.to_nat p.1) as [[t1|]|] eqn:E; [|eauto..].
  simpl. rewrite list_lookup_insert. case_decide as Hd; [|eauto].
  destruct Hd as [<- _]. intros [= <-]. exists t1. by rewrite length_insert.
Qed.

Lemma store_tables_back st p h d t :
  handle_table_dir_ st !! d = Some (Some t) ->
  exists t', handle_table_dir_ (store st p h) !! d = Some (Some t').
Proof.
  intros Ht. unfold store.
  destruct (handle_table_dir_ st !! Z.to_nat p.1) as [[t1|]|] eqn:E; [|eauto..].
  simpl. rewrite list_lookup_insert. case_decide; eauto.
Qed.

(** Constructing the handle in the reserved slot closes the hole. *)
Lemma fill_inv st p o v :
  arena_inv_but (Some p) st -> value_ok p v ->
  arena_inv (store (with_count st (num_allocated_ st + 1)) p (mkHandle (Some o) v)).
Proof.
  intros I Hv. destruct (inv_hole _ _ I p eq_refl) as (Hp & Hc & Hnf & Hnl).
  set (st1 := with_count st (num_allocated_ st + 1)).
  assert (is_Some (deref st1 p)) as Hs by (by apply (deref_carved _ _ _ I)).
  destruct (store_frame st1 p (mkHandle (Some o) v)) as (F1 & F2 & F3 & F4).
  assert (forall q, carved (store st1 p (mkHandle (Some o) v)) q <-> carved st q) as Hcar
    by (intros q; unfold carved; by rewrite F1, F2).
  assert (forall q, in_range q -> live (store st1 p (mkHandle (Some o) v)) q <->
            q = p \/ live st q) as Hlive.
  { intros q Hq. unfold live. rewrite deref_store by done. case_decide; simplify_eq; [naive_solver|].
    split; [by right|]. intros [?|?]; [congruence|done]. }
  split.
  - unfold store. repeat case_match; simpl; rewrite ?length_insert; apply I.
  - intros d t Ht. apply store_tables in Ht as (t0 & Ht0 & <-). by apply (inv_tab_len _ _ I d).
  - rewrite F1, F2. apply I.
  - rewrite F1, F2. apply I.
  - intros d. rewrite F1. intros Hd. destruct (inv_full_tables _ _ I d Hd) as [t Ht].
    by eapply store_tables_back.
  - rewrite F1, F2. intros Hh. destruct (inv_current_table _ _ I Hh) as [t Ht].
    by eapply store_tables_back.
  - intros q h Hq. rewrite Hcar. intros Hnc. rewrite deref_store by done.
    case_decide; [congruence|]. by apply (inv_fresh _ _ I).
  - intros q h Hq. rewrite Hcar. intros Hcq. rewrite deref_store by done. case_decide.
    + intros [= <-] _. by simplify_eq.
    + intros Hd _. apply (inv_value _ _ I); [done..|congruence].
  - done.
  - done.
  - rewrite F3. apply I.
  - intros q. rewrite F3. intros Hq. destruct (inv_free _ _ I q Hq) as (Hqr & Hqc & Hql).
    rewrite Hcar, Hlive by done. split_and!; try done. intros [->|?]; done.
  - intros q Hq. rewrite Hcar, F3, Hlive by done. intros Hcq Hnfq _.
    destruct (decide (q = p)) as [|Hne]; [by left|]. right. apply (inv_live _ _ I); [done..|congruence].
  - rewrite F1, F2, F3, F4. pose proof (inv_count _ _ I) as Hcnt. simpl in *. lia.
Qed.

(** Distinct carved slots are at most as many as the watermark says. *)
Lemma carved_count o st (l : list hptr) :
  arena_inv_but o st -> NoDup l -> (forall p, p ∈ l -> in_range p /\ carved st p) ->
  Z.of_nat (length l) <= kHandlesPerTable * dir_index_ st + handles_index_ st.
Proof.
  intros I Hnd Hl. pose proof (inv_watermark _ _ I) as [Hw1 Hw2].
  rewrite <- (length_fmap (fun p => kHandlesPerTable * p.1 + p.2) l).
  rewrite <- (Z.max_r 0 (kHandlesPerTable * _ + _))
    by (change kHandlesPerTable with 1024 in *; lia).
  apply NoDup_Z_length.
  - apply NoDup_fmap_2_strong; [|done]. intros [a b] [c e] Ha Hc E.
    apply Hl in Ha as [[? ?] _]. apply Hl in Hc as [[? ?] _].
    change kHandlesPerTable with 1024 in *. simpl in *. apply pair_eq. lia.
  - intros x (q & -> & Hq)%list_elem_of_fmap. apply Hl in Hq as [[? ?] Hc].
    unfold carved in Hc. change kHandlesPerTable with 1024 in *. lia.
Qed.

Lemma count_nonneg st : arena_inv st -> 0 <= num_allocated_ st.
Proof.
  intros I. rewrite (inv_count _ _ I).
  assert (Z.of_nat (length (free_handles_ st)) <=
            kHandlesPerTable * dir_index_ st + handles_index_ st); [|lia].
  apply (carved_count None); [done|apply I|]. intros p Hp. by apply (inv_free _ _ I) in Hp as (?&?&?).
Qed.

Lemma count_pos st p : arena_inv st -> in_range p -> live st p -> 1 <= num_allocated_ st.
Proof.
  intros I Hp Hl. rewrite (inv_count _ _ I). apply live_iff in Hl as [Hc Hf]; [|done..].
  assert (Z.of_nat (length (p :: free_handles_ st)) <=
            kHandlesPerTable * dir_index_ st + handles_index_ st); [|simpl in *; lia].
  apply (carved_count None); [done| |].
  - apply NoDup_cons. split; [done|apply I].
  - intros q [->|Hq]%elem_of_cons; [done|]. by apply (inv_free _ _ I) in Hq as (?&?&?).
Qed.

Lemma count_range o st : arena_inv_but o st -> num_allocated_ st <= kMaxNumHandles.
Proof.
  intros I. rewrite (inv_count _ _ I). pose proof (inv_watermark _ _ I) as [H1 H2].
  pose proof (inv_exhausted _ _ I). change kMaxNumHandles with 65536.
  change kNumTables with 64 in *. change kHandlesPerTable with 1024 in *. destruct o; lia.
Qed.

(** A lookup by value finds a slot exactly when the slot is live and holds that value. *)
Lemma MapValueToHandle_Some st v p :
  arena_inv st ->
  MapValueToHandle st v = Some p <->
  in_range p /\ exists h o, deref st p = Some h /\ object_ h = Some o /\ value_ h = v.
Proof.
  intros I. unfold MapValueToHandle, GetExistingHandle. split.
  - destruct (IsFdfHandle v); [simpl|done].
    destruct (Z.leb_spec kNumTables (handle_value_to_dir_index v)); [done|].
    destruct (Z.leb_spec kHandlesPerTable (handle_value_to_index v)); [done|].
    set (q := (handle_value_to_dir_index v, handle_value_to_index v)).
    assert (in_range q) as Hq.
    { split; split; simpl; try done; rewrite ?dir_index_div, ?index_div;
        apply Z.mod_pos_bound; lia. }
    destruct (_ !! Z.to_nat (handle_value_to_dir_index v)) as [[t|]|] eqn:Et; try done.
    destruct (t !! Z.to_nat (handle_value_to_index v)) as [h|] eqn:Eh; [|done].
    destruct (object_ h) as [o|] eqn:Eo; [|done].
    assert (deref st q = Some h) as Hd by (unfold deref; simpl; by rewrite Et).
    fold q. rewrite Hd. destruct (Z.eqb_spec v (value_ h)); [|done].
    intros [= <-]. split; [done|]. by exists h, o.
  - intros (Hp & h & o & Hd & Ho & <-).
    assert (carved st p) as Hc by (apply (live_carved None); [done..|by exists h, o]).
    destruct (inv_value _ _ I _ _ Hp Hc Hd) as (g & Hg & E); [done|].
    assert (IsFdfHandle (value_ h) = true) as ->.
    { unfold IsFdfHandle. apply orb_true_iff. left. apply Z.eqb_eq. rewrite E.
      change kHandleReservedBitsValue with 0.
      pose proof (fixed_bits_reserved (FdfAbiOk := _)) as Hm.
      change kHandleReservedBitsMask with 3 in Hm.
      rewrite <- (Z.mod_small FDF_HANDLE_FIXED_BITS_MASK (2 ^ 2)) by lia.
      rewrite <- (Z.land_ones _ 2), (Z.land_comm _ (Z.ones 2)), Z.land_assoc, Z.land_ones by lia.
      change (2 ^ 2) with 4. by rewrite encode_reserved, Z.land_0_l. }
    simpl. rewrite E, encode_dir_index, encode_index by (done || lia). rewrite <- E.
    destruct Hp as [Hp1 Hp2].
    destruct (Z.leb_spec kNumTables p.1); [lia|]. destruct (Z.leb_spec kHandlesPerTable p.2); [lia|].
    unfold deref in *. destruct (_ !! Z.to_nat p.1) as [[t|]|] eqn:Et; try done.
    rewrite Hd, Ho. simpl. rewrite Et, Hd, Z.eqb_refl. by destruct p.
Qed.

Lemma GetObject_inr st v o :
  arena_inv st ->
  GetObject st v = inr o <->
  exists p, in_range p /\ exists h, deref st p = Some h /\ object_ h = Some o /\ value_ h = v.
Proof.
  intros I. unfold GetObject. split.
  - destruct (MapValueToHandle st v) as [p|] eqn:Em; [|done].
    apply MapValueToHandle_Some in Em as (Hp & h & o' & Hh & Ho & Hv); [|done].
    rewrite Hh, Ho. intros [= <-]. eauto 6.
  - intros (p & Hp & h & Hh & Ho & Hv).
    rewrite (proj2 (MapValueToHandle_Some st v p I)) by eauto 6. by rewrite Hh, Ho.
Qed.

Lemma GetObject_bad st v :
  arena_inv st ->
  (forall p h o, in_range p -> deref st p = Some h -> object_ h = Some o -> value_ h <> v) ->
  GetObject st v = inl ZX_ERR_BAD_HANDLE.
Proof.
  intros I Hn. unfold GetObject. destruct (MapValueToHandle st v) as [p|] eqn:Em; [|done].
  apply MapValueToHandle_Some in Em as (Hp & h & o & Hh & Ho & Hv); [|done]. exfalso. by eapply Hn.
Qed.

(** Slots below the watermark determine their handle value's position bits. *)
Lemma value_slot_inj st p q hp hq op oq :
  arena_inv st -> in_range p -> in_range q ->
  deref st p = Some hp -> object_ hp = Some op ->
  deref st q = Some hq -> object_ hq = Some oq ->
  value_ hp = value_ hq -> p = q.
Proof.
  intros I Hp Hq Dp Op Dq Oq E.
  assert (carved st p) as Cp by (apply (live_carved None); [done..|by exists hp, op]).
  assert (carved st q) as Cq by (apply (live_carved None); [done..|by exists hq, oq]).
  destruct (inv_value _ _ I _ _ Hp Cp Dp) as (gp & Hgp & Ep); [done|].
  destruct (inv_value _ _ I _ _ Hq Cq Dq) as (gq & Hgq & Eq); [done|].
  rewrite Ep, Eq in E. destruct p as [d i], q as [d' i']. apply pair_eq.
  pose proof (encode_dir_index (d, i) gp Hp). pose proof (encode_dir_index (d', i') gq Hq).
  pose proof (encode_index (d, i) gp Hp). pose proof (encode_index (d', i') gq Hq).
  rewrite E in *. simpl in *. lia.
Qed.

(** [Create] in terms of the slot [AllocHandleMemoryLocked] reserved. *)
Lemma Create_ok st o :
  arena_inv st ->
  returns (Create st (Some o)) (fun '(st', r) =>
    match r with
    | None => st' = st /\ forall p, in_range p -> live st p
    | Some p => in_range p /\ ~ live st p /\ arena_inv st' /\
        num_allocated_ st' = num_allocated_ st + 1 /\
        (forall q, in_range q -> live st q -> deref st' q = deref st q) /\
        exists v, deref st' p = Some (mkHandle (Some o) v) /\
          (forall h, free_handles_ st <> [] -> deref st p = Some h ->
             new_handle_value p.1 p.2 (value_ h) = Done v)
    end).
Proof.
  intros I. unfold Create, Alloc.
  pose proof (AllocHandleMemoryLocked_ok st I) as Ha.
  assert (forall st1 r, AllocHandleMemoryLocked st = Done (st1, r) ->
    num_allocated_ st1 = num_allocated_ st /\
    (free_handles_ st <> [] -> handle_table_dir_ st1 = handle_table_dir_ st)) as Hframe.
  { unfold AllocHandleMemoryLocked, advance, current_table, zx_assert.
    intros st1 r. repeat case_match; simpl; intros; simplify_eq/=; done. }
  destruct (AllocHandleMemoryLocked st) as [[st1 [[[p d] i]|]]|] eqn:E; [|done..].
  destruct Ha as (-> & Hnl & I1 & Hkeep).
  destruct (inv_hole _ _ I1 _ eq_refl) as (Hp & Hc & _ & Hnl1).
  destruct (deref_carved _ _ _ I1 Hp Hc) as [h1 Hh1]. simpl. rewrite Hh1.
  assert (object_ h1 = None) as Ho1.
  { destruct (object_ h1) as [o1|] eqn:Eo; [|done]. exfalso. apply Hnl1. by exists h1, o1. }
  rewrite Ho1. rewrite bool_decide_false by (intros [? ?]; done). simpl.
  destruct (next_value_ok (d, i) (value_ h1)) as (v & Hv & Hvok & Hvne);
    [done|by apply (inv_hole_value _ _ I1)|].
  simpl in Hv. rewrite Hv. simpl. destruct (Hframe _ _ eq_refl) as [Hn1 Hdir].
  pose proof (count_range _ _ I1) as Hb. change kMaxNumHandles with 65536 in Hb.
  assert (0 <= num_allocated_ st1) as Hnn by (rewrite Hn1; by apply count_nonneg).
  rewrite u32_small by (unfold is_u32; lia).
  change (mkArena _ _ _ _ (num_allocated_ st1 + 1)) with (with_count st1 (num_allocated_ st1 + 1)).
  set (st' := store _ _ _).
  assert (forall q, in_range q -> deref st' q = if decide ((d, i) = q)
            then Some (mkHandle (Some o) v) else deref st1 q) as Hd'.
  { intros q Hq. exact (deref_store (with_count st1 _) (d, i) q _ Hp Hq (ex_intro _ h1 Hh1)). }
  split_and!; try done.
  - by apply fill_inv.
  - unfold st'. rewrite (proj2 (proj2 (proj2 (store_frame _ _ _)))). simpl. lia.
  - intros q Hq Hl. rewrite Hd' by done. case_decide; [congruence|by apply Hkeep].
  - exists v. rewrite Hd' by done. rewrite decide_True by done. split; [done|].
    intros h Hne Hh. assert (deref st1 (d, i) = deref st (d, i)) as Hsame
      by (unfold deref; by rewrite Hdir).
    rewrite Hsame in Hh1. by simplify_eq.
Qed.

Lemma Delete_ok st p h o :
  arena_inv st -> in_range p -> deref st p = Some h -> object_ h = Some o ->
  returns (Delete st p) (fun st' =>
    arena_inv st' /\ num_allocated_ st' = num_allocated_ st - 1 /\
    free_handles_ st' = p :: free_handles_ st /\
    forall q, in_range q -> deref st' q =
      if decide (p = q) then Some (Handle_Reset h) else deref st q).
Proof.
  intros I Hp Hh Ho. unfold Delete. rewrite Hh. simpl.
  assert (live st p) as Hl by (by exists h, o).
  pose proof (count_pos _ _ I Hp Hl) as Hpos. pose proof (count_range _ _ I) as Hmax.
  change kMaxNumHandles with 65536 in Hmax.
  apply live_iff in Hl as [Hc Hnf]; [|done..].
  set (st1 := store st p (Handle_Reset h)).
  destruct (store_frame st p (Handle_Reset h)) as (F1 & F2 & F3 & F4). fold st1 in F1, F2, F3, F4.
  rewrite F3, F4, u32_small by (unfold is_u32; lia).
  set (st' := mkArena _ _ _ _ _).
  assert (forall q, in_range q -> deref st' q =
            if decide (p = q) then Some (Handle_Reset h) else deref st q) as Hd.
  { intros q Hq. exact (deref_store st p q _ Hp Hq (ex_intro _ h Hh)). }
  assert (forall q, carved st' q <-> carved st q) as Hcar
    by (intros q; unfold carved; simpl; by rewrite F1, F2).
  assert (forall q, in_range q -> live st' q <-> q <> p /\ live st q) as Hlive.
  { intros q Hq. unfold live. rewrite Hd by done. case_decide as E; [subst|naive_solver].
    split; [|naive_solver]. intros (h' & o' & [= <-] & Ho'). done. }
  split_and!; try done. split; try done.
  - simpl. unfold st1, store. repeat case_match; simpl; rewrite ?length_insert; apply I.
  - intros d t Ht. apply store_tables in Ht as (t0 & Ht0 & <-). by apply (inv_tab_len _ _ I d).
  - simpl. rewrite F1, F2. apply I.
  - simpl. rewrite F1, F2. apply I.
  - intros d. simpl. rewrite F1. intros Hd'. destruct (inv_full_tables _ _ I d Hd') as [t Ht].
    by eapply store_tables_back.
  - simpl. rewrite F1, F2. intros Hh'. destruct (inv_current_table _ _ I Hh') as [t Ht].
    by eapply store_tables_back.
  - intros q hq Hq. rewrite Hcar, Hd by done. intros Hnc. case_decide; [congruence|].
    by apply (inv_fresh _ _ I).
  - intros q hq Hq. rewrite Hcar, Hd by done. intros Hcq. case_decide as E.
    + intros [= <-] _. subst q. by apply (inv_value _ _ I p h).
    + intros Hdq _. by apply (inv_value _ _ I).
  - apply NoDup_cons. split; [done|apply I].
  - intros q [->|Hq]%elem_of_cons.
    + rewrite Hcar, Hlive by done. naive_solver.
    + destruct (inv_free _ _ I q Hq) as (Hqr & Hqc & Hql). rewrite Hcar, Hlive by done. naive_solver.
  - intros q Hq. rewrite Hcar, Hlive by done. intros Hcq [Hne Hnq]%not_elem_of_cons _.
    split; [done|]. by apply (inv_live _ _ I).
  - pose proof (inv_count _ _ I) as Hcnt. simpl in *. rewrite F1, F2. lia.
Qed.

(** ** Properties *)

(** The states the table can be in: handles are created on non-null objects, and only live
    handles are deleted. *)
Inductive reachable : HandleTableArena Obj -> Prop :=
  | reach_init : reachable HandleTableArena_init
  | reach_create st o st' r :
      reachable st -> Create st (Some o) = Done (st', r) -> reachable st'
  | reach_delete st p h o st' :
      reachable st -> in_range p -> deref st p = Some h -> object_ h = Some o ->
      Delete st p = Done st' -> reachable st'.

Lemma reachable_inv st : reachable st -> arena_inv st.
Proof.
  induction 1 as [|st o st' r _ IH E|st p h o st' _ IH Hp Hh Ho E].
  - apply arena_init_inv.
  - pose proof (Create_ok st o IH) as Hc. rewrite E in Hc. destruct r; [by apply Hc|].
    by destruct Hc as [-> _].
  - pose proof (Delete_ok st p h o IH Hp Hh Ho) as Hd. rewrite E in Hd. by apply Hd.
Qed.

(** C21. From every state the table can reach, [Handle::Create] on a non-null object runs without
    failing an assertion; it returns null only when all slots hold handles, and then changes
    nothing; otherwise it returns a slot that held no handle, the new handle's value resolves to
    the object, and every value that resolved before still resolves to the same object. *)
Theorem create_correct st o :
  reachable st ->
  returns (Create st (Some o)) (fun '(st', r) =>
    reachable st' /\
    match r with
    | None => st' = st /\ (forall p, in_range p -> live st p)
    | Some p => in_range p /\ ~ live st p /\
        num_allocated_ st' = num_allocated_ st + 1 /\
        (exists v, deref st' p = Some (mkHandle (Some o) v) /\ GetObject st' v = inr o) /\
        (forall v' o', GetObject st v' = inr o' -> GetObject st' v' = inr o')
    end).
Proof.
  intros R. pose proof (reachable_inv _ R) as I. pose proof (Create_ok st o I) as Hc.
  destruct (Create st (Some o)) as [[st' r]|] eqn:E; [|done]. simpl in *.
  split; [by eapply reach_create|]. destruct r as [p|]; [|done].
  destruct Hc as (Hp & Hnl & I' & Hn & Hkeep & v & Hv & _). split_and!; try done.
  - exists v. split; [done|]. apply GetObject_inr; [done|]. exists p. split; [done|]. by eexists.
  - intros v' o'. rewrite !GetObject_inr by done. intros (q & Hq & h & Hh & Ho & Hvv).
    exists q. split; [done|]. exists h. rewrite Hkeep; [done..|]. by exists h, o'.
Qed.

(** C22. Deleting the slot a handle value resolves to succeeds, makes that value resolve to
    [ZX_ERR_BAD_HANDLE] and leaves what every other value resolves to unchanged. *)
Theorem delete_correct st v p :
  reachable st -> MapValueToHandle st v = Some p ->
  returns (Delete st p) (fun st' =>
    reachable st' /\ GetObject st' v = inl ZX_ERR_BAD_HANDLE /\
    num_allocated_ st' = num_allocated_ st - 1 /\
    (forall v' o', v' <> v -> GetObject st' v' = inr o' <-> GetObject st v' = inr o')).
Proof.
  intros R Hm. pose proof (reachable_inv _ R) as I.
  apply MapValueToHandle_Some in Hm as (Hp & h & o & Hh & Ho & Hv); [|done].
  pose proof (Delete_ok st p h o I Hp Hh Ho) as Hd.
  destruct (Delete st p) as [st'|] eqn:E; [|done]. simpl in *.
  destruct Hd as (I' & Hn & _ & Hd). split_and!.
  - by eapply reach_delete.
  - apply GetObject_bad; [done|]. intros q hq oq Hq. rewrite Hd by done. case_decide as Epq.
    + intros [= <-]. done.
    + intros Hhq Hoq E'. apply Epq.
      eapply (value_slot_inj st p q h hq); (done || congruence).
  - done.
  - intros v' o' Hne. rewrite !GetObject_inr by done. split; intros (q & Hq & hq & Hhq & Hoq & Hvq).
    + rewrite Hd in Hhq by done. case_decide; [by simplify_eq|eauto 6].
    + exists q. split; [done|]. exists hq. rewrite Hd by done.
      case_decide; [subst; simplify_eq|]; done.
Qed.

(** Deletes the handle in slot [p] and creates one for [o] in the slot the table then picks, [n]
    times over. *)
Fixpoint recycle (n : nat) st p (o : Obj) : exec (HandleTableArena Obj) :=
  match n with
  | O => Done st
  | S n' => st1 ← Delete st p; '(st2, _) ← Create st1 (Some o); recycle n' st2 p o
  end.

(** The free list is a stack: a slot just freed is the next one handed out. *)
Lemma Create_after_free st p rest o st' r :
  free_handles_ st = p :: rest -> Create st (Some o) = Done (st', r) -> r = Some p.
Proof.
  unfold Create, Alloc, AllocHandleMemoryLocked. intros ->.
  destruct (deref st p); simpl; [|done]. unfold zx_assert.
  repeat case_match; simpl; try done. destruct (new_handle_value _ _ _); simpl; [|done].
  by intros [= _ <-].
Qed.

Lemma recycle_ok n st p o ob g :
  reachable st -> in_range p -> 0 <= g < kNumGenerations ->
  deref st p = Some (mkHandle (Some ob) (encode p g)) ->
  returns (recycle n st p o) (fun st' => reachable st' /\
    exists ob', deref st' p =
      Some (mkHandle (Some ob') (encode p ((g + Z.of_nat n) mod kNumGenerations)))).
Proof.
  intros R Hp. revert st g ob R. induction n as [|n IH]; intros st g ob R Hg Hd; simpl.
  - split; [done|]. exists ob. by rewrite Z.add_0_r, Z.mod_small.
  - pose proof (reachable_inv _ R) as I.
    pose proof (Delete_ok st p _ ob I Hp Hd eq_refl) as H1.
    destruct (Delete st p) as [st1|] eqn:E1; [|done]. destruct H1 as (I1 & _ & Hf1 & Hd1).
    pose proof (Create_ok st1 o I1) as H2.
    assert (R1 : reachable st1) by (by eapply reach_delete). simpl.
    destruct (Create st1 (Some o)) as [[st2 r]|] eqn:E2; [|done].
    rewrite (Create_after_free _ _ _ _ _ _ Hf1 E2) in *. simpl.
    destruct H2 as (_ & _ & I2 & _ & _ & v & Hv & Hnew).
    specialize (Hnew (Handle_Reset (mkHandle (Some ob) (encode p g)))).
    rewrite Hf1, Hd1, decide_True in Hnew by done. specialize (Hnew ltac:(done) eq_refl).
    simpl in Hnew. rewrite new_handle_value_eq in Hnew by done. injection Hnew as <-.
    specialize (IH st2 ((g + 1) mod kNumGenerations) o).
    replace (g + Z.of_nat (S n)) with (g + 1 + Z.of_nat n) by lia.
    rewrite <- Zplus_mod_idemp_l. apply IH; try done.
    + by eapply reach_create.
    + apply Z.mod_pos_bound. done.
Qed.

(** A slot that is freed is the next one handed out, one generation on: after [n] deletions
    and creations the slot's value is the same position with the generation advanced by [n]
    modulo 2^14, so the original value is stale until the generation has gone all the way
    round. *)
Theorem recycle_generation n st p o ob g :
  reachable st -> in_range p -> 0 <= g < kNumGenerations ->
  deref st p = Some (mkHandle (Some ob) (encode p g)) ->
  returns (recycle n st p o) (fun st' =>
    reachable st' /\
    (exists ob', deref st' p =
       Some (mkHandle (Some ob') (encode p ((g + Z.of_nat n) mod kNumGenerations)))) /\
    (0 < Z.of_nat n < kNumGenerations -> GetObject st' (encode p g) = inl ZX_ERR_BAD_HANDLE)).
Proof.
  intros R Hp Hg Hd.
  pose proof (recycle_ok n st p o ob g R Hp Hg Hd) as Hr.
  destruct (recycle n st p o) as [st'|]; [|done]. destruct Hr as (R' & ob' & Hd').
  split_and!; [done|by exists ob'|]. intros Hn. pose proof (reachable_inv _ R') as I'.
  apply GetObject_bad; [done|]. intros q hq oq Hq Hhq Hoq Ev.
  destruct (decide (p = q)) as [->|Hne].
  - rewrite Hhq in Hd'. simplify_eq. simpl in Ev. in_range_lia.
  - apply Hne. assert (carved st' q) as Cq by (apply (live_carved None); [done..|by exists hq, oq]).
    destruct (inv_value _ _ I' _ _ Hq Cq Hhq) as (gq & Hgq & Eq); [done|].
    rewrite Eq in Ev. destruct p as [d i], q as [d' i']. apply pair_eq. in_range_lia.
Qed.

(** The first handle ever created: slot (0, 0) at generation 1. *)
Lemma first_handle o :
  exists st, reachable st /\ deref st (0, 0) = Some (mkHandle (Some o) (encode (0, 0) 1)).
Proof.
  pose proof (Create_ok HandleTableArena_init o arena_init_inv) as H.
  destruct (Create HandleTableArena_init (Some o)) as [[st r]|] eqn:E; [|done].
  exists st. split; [eapply reach_create; [apply reach_init|exact E]|].
  assert (exists st0, AllocHandleMemoryLocked (HandleTableArena_init (Obj:=Obj)) =
            Done (st0, Some ((0, 0), 0, 0)) /\ deref st0 (0, 0) = Some Handle_default)
    as (st0 & Ea & Ed) by (eexists; split; reflexivity).
  revert E. unfold Create, Alloc. rewrite Ea. simpl mbind. rewrite Ed. simpl object_.
  rewrite bool_decide_false by (intros [? ?]; done). simpl value_. rewrite handle_invalid_zero.
  assert (new_handle_value 0 0 0 = Done (encode (0, 0) 1)) as ->
    by (by apply (new_handle_value_first (0, 0))).
  cbn [mbind exec_bind zx_assert negb].
  intros [= <- _].
  etrans; [apply deref_store; [done|done|by exists Handle_default]|by rewrite decide_True].
Qed.

(** The generation is not kept away from zero: the table reaches a state in which a live
    handle has the value [FDF_HANDLE_INVALID], so the invalid handle resolves to an object. *)
Theorem live_handle_with_invalid_value (o : Obj) :
  exists st : HandleTableArena Obj, reachable st /\ live st (0, 0) /\
    MapValueToHandle st FDF_HANDLE_INVALID = Some (0, 0).
Proof.
  destruct (first_handle o) as (st & R & Hd).
  pose proof (recycle_ok (Z.to_nat (kNumGenerations - 1)) st (0, 0) o o 1 R ltac:(done)
                ltac:(done) Hd) as Hr.
  destruct (recycle _ st (0, 0) o) as [st'|]; [|done]. destruct Hr as (R' & ob & Hd').
  rewrite Z2Nat.id in Hd' by done. exists st'. split_and!; [done|by eexists _, ob|].
  apply MapValueToHandle_Some; [by apply reachable_inv|]. split; [done|].
  eexists _, ob. split_and!; [exact Hd'|done|]. by rewrite handle_invalid_zero.
Qed.
End invariant.

(** ** Witnesses *)

(** The values of [lib/fdf/types.h]. *)
#[local] Instance fdf_abi : FdfAbi :=
  {| FDF_HANDLE_FIXED_BITS_MASK := 1; FDF_HANDLE_INVALID := 0 |}.

#[local] Instance fdf_abi_ok : FdfAbiOk fdf_abi.
Proof. by split. Defined.

Lemma create_correct_witness :
  returns (Create (HandleTableArena_init (Obj:=nat)) (Some 7%nat)) (fun '(st', r) =>
    r = Some (0, 0) /\ num_allocated_ st' = 1).
Proof.
  pose proof (create_correct (Obj:=nat) HandleTableArena_init 7%nat (reach_init)) as H.
  destruct (Create HandleTableArena_init (Some 7%nat)) as [[st r]|] eqn:E; [|destruct H].
  assert (r = Some (0, 0)) as -> by (vm_compute in E; congruence).
  split; [done|]. destruct H as [_ (_ & _ & Hn & _)]. exact Hn.
Defined.

(** A table with one live handle. *)
Definition one_handle : HandleTableArena nat :=
  match Create HandleTableArena_init (Some 7%nat) with
  | Done (st, _) => st
  | Panic => HandleTableArena_init
  end.

Lemma one_handle_reachable : reachable one_handle.
Proof. by apply (reach_create HandleTableArena_init 7%nat one_handle (Some (0, 0)) reach_init). Qed.

Lemma delete_correct_witness :
  MapValueToHandle one_handle (encode (0, 0) 1) = Some (0, 0) /\
  returns (Delete one_handle (0, 0)) (fun st' =>
    GetObject st' (encode (0, 0) 1) = inl ZX_ERR_BAD_HANDLE).
Proof.
  split; [by vm_compute|].
  pose proof (delete_correct one_handle (encode (0, 0) 1) (0, 0) one_handle_reachable
                ltac:(by vm_compute)) as H.
  destruct (Delete one_handle (0, 0)) as [st'|]; [|destruct H]. apply H.
Defined.

Lemma recycle_generation_witness :
  deref one_handle (0, 0) = Some (mkHandle (Some 7%nat) (encode (0, 0) 1)) /\
  returns (recycle 3 one_handle (0, 0) 8%nat) (fun st' =>
    GetObject st' (encode (0, 0) 1) = inl ZX_ERR_BAD_HANDLE).
Proof.
  split; [by vm_compute|].
  pose proof (recycle_generation 3 one_handle (0, 0) 8%nat 7%nat 1 one_handle_reachable
                ltac:(done) ltac:(done) ltac:(by vm_compute)) as H.
  destruct (recycle 3 one_handle (0, 0) 8%nat) as [st'|]; [|destruct H]. apply H. done.
Defined.

Lemma live_handle_with_invalid_value_witness :
  exists st : HandleTableArena nat,
    reachable st /\ live st (0, 0) /\ MapValueToHandle st 0 = Some (0, 0).
Proof. exact (live_handle_with_invalid_value (Obj:=nat) 7%nat). Defined.
