(* ===== verification/Arena.v ===== *)
(** * Arena: the driver runtime's memory arena

    Model of [fdf_arena] ([src/devices/bin/driver_runtime/arena.cc], [arena.h]): a bump allocator
    over an initial buffer and a growing list of heap blocks, with a map of the blocks' addresses
    that [Contains] searches. Addresses and sizes are 64-bit integers. The address of a new heap
    block is chosen by the allocator of the platform, an argument of [Allocate] here; [Allocate] and
    [Contains] hold the arena's lock from beginning to end and are one step each. *)
From Stdlib Require Import ZArith Lia Sorting.
From stdpp Require Import prelude.
From S2P Require Import Prelude.

Local Open Scope Z_scope.

(** [FIDL_ALIGN] and the size of a list node come from headers outside the sources. *)
Class ArenaAbi := {
  FIDL_ALIGN : Z -> Z;
  sizeof_ExtraBlockNode : Z
}.

(** Rounding up to a multiple of 8 bytes, where it does not overflow; the node fits a block. *)
Class ArenaAbiOk `{abi : ArenaAbi} : Prop := {
  FIDL_ALIGN_spec : forall b, 0 <= b <= 2 ^ 64 - 8 -> b <= FIDL_ALIGN b < b + 8 /\ (8 | FIDL_ALIGN b);
  node_small : 0 <= FIDL_ALIGN sizeof_ExtraBlockNode < 16 * 1024;
  node_aligned : (8 | FIDL_ALIGN sizeof_ExtraBlockNode)
}.

Definition kInitialBufferSize : Z := 4 * 1024.

Record fdf_arena := mkArena {
  initial_buffer_ : Z;
  next_data_available_ : Z;
  available_size_ : Z;
  extra_blocks_ : list Z;                (* data() of each block, newest first *)
  allocated_ranges_ : list (Z * Z)       (* std::map, in key order *)
}.

(** The constructor, for an arena whose [initial_buffer_] is at the given address. *)
Definition arena_init (buffer : Z) : fdf_arena := mkArena buffer buffer kInitialBufferSize [] [].

Definition NewestBufferLocked (arena : fdf_arena) : Z :=
  match extra_blocks_ arena with
  | [] => initial_buffer_ arena
  | data :: _ => data
  end.

(** [std::map::insert]: does nothing if the key is there. *)
Fixpoint ranges_insert (k v : Z) (l : list (Z * Z)) : list (Z * Z) :=
  match l with
  | [] => [(k, v)]
  | (k', v') :: rest =>
      if k <? k' then (k, v) :: l
      else if k =? k' then l
      else (k', v') :: ranges_insert k v rest
  end.

(** The entry before [upper_bound(key)]: the last whose key is at most [key]. *)
Fixpoint ranges_floor (key : Z) (l : list (Z * Z)) : option (Z * Z) :=
  match l with
  | [] => None
  | (k, v) :: rest =>
      if key <? k then None
      else match ranges_floor key rest with
           | Some e => Some e
           | None => Some (k, v)
           end
  end.

Definition contains_range (addr num_bytes want_addr want_num_bytes : Z) : bool :=
  if want_addr <? addr then false
  else
    let range_end := u64 (addr + num_bytes) in
    let want_end := u64 (want_addr + want_num_bytes) in
    want_end <=? range_end.

Section arena.
Context `{abi : ArenaAbi}.

Definition kExtraSize : Z := 16 * 1024 - FIDL_ALIGN sizeof_ExtraBlockNode.

(** What [new uint8_t[...]] is asked for when so many bytes are to be available: a sum of 64 bits. *)
Definition block_size (bytes : Z) : Z := if kExtraSize <? bytes then bytes else kExtraSize.
Definition extra_bytes (bytes : Z) : Z := u64 (block_size bytes + FIDL_ALIGN sizeof_ExtraBlockNode).

(** The part of [Allocate] that adds a block; [block] is what [new uint8_t[extra_bytes]] returns. *)
Definition add_block (block bytes : Z) (arena : fdf_arena) : fdf_arena :=
  let available := block_size bytes in
  let data := block + FIDL_ALIGN sizeof_ExtraBlockNode in
  mkArena (initial_buffer_ arena) data available (data :: extra_blocks_ arena)
    (ranges_insert data available (allocated_ranges_ arena)).

Definition Allocate (block bytes : Z) (arena : fdf_arena) : Z * fdf_arena :=
  let bytes := FIDL_ALIGN bytes in
  let arena := if available_size_ arena <? bytes then add_block block bytes arena else arena in
  (next_data_available_ arena,
   mkArena (initial_buffer_ arena) (next_data_available_ arena + bytes)
     (available_size_ arena - bytes) (extra_blocks_ arena) (allocated_ranges_ arena)).

(** No-op: nothing is freed before the arena is. *)
Definition Free (data : Z) (arena : fdf_arena) : option Z * fdf_arena := (None, arena).

Definition Contains (data num_bytes : Z) (arena : fdf_arena) : exec bool :=
  let in_block (allocated_addr allocated_size : Z) : exec bool :=
    if allocated_addr =? NewestBufferLocked arena then
      (ASSERT available_size_ arena <=? allocated_size ;;
       Done (contains_range allocated_addr (allocated_size - available_size_ arena) data num_bytes))%exec
    else Done (contains_range allocated_addr allocated_size data num_bytes) in
  if (data <? initial_buffer_ arena) || (u64 (initial_buffer_ arena + kInitialBufferSize) <=? data)
  then match ranges_floor data (allocated_ranges_ arena) with
       | None => Done false
       | Some (addr, size) => in_block addr size
       end
  else in_block (initial_buffer_ arena) kInitialBufferSize.

End arena.

(** ** The map of blocks *)

Definition key_lt (p q : Z * Z) : Prop := p.1 < q.1.

Lemma elem_of_ranges_insert k v l p :
  (forall q, q ∈ l -> q.1 <> k) -> p ∈ ranges_insert k v l <-> p = (k, v) \/ p ∈ l.
Proof.
  induction l as [|[k' v'] l IH]; intros Hk; simpl.
  - rewrite list_elem_of_singleton. set_solver.
  - destruct (Z.ltb_spec k k'); [by rewrite elem_of_cons|].
    destruct (Z.eqb_spec k k') as [->|].
    + exfalso. by apply (Hk (k', v')); [left|].
    + rewrite !elem_of_cons, IH by (intros q Hq; apply Hk; by right). tauto.
Qed.

Lemma ranges_insert_sorted k v l :
  StronglySorted key_lt l -> StronglySorted key_lt (ranges_insert k v l).
Proof.
  induction 1 as [|[k' v'] l Hs IH Hf]; simpl; [repeat constructor|].
  destruct (Z.ltb_spec k k') as [Hlt|Hge].
  - constructor; [by constructor|]. constructor; [done|].
    eapply Forall_impl; [done|]. unfold key_lt. simpl. intros [a b] ?; simpl in *. lia.
  - destruct (Z.eqb_spec k k') as [->|Hne]; [by constructor|]. constructor; [done|].
    rewrite Forall_forall in Hf |- *. intros p Hp. unfold key_lt in *; simpl in *.
    destruct (decide (p.1 = k)) as [->|Hpk]; [lia|].
    assert (p ∈ l) as Hin; [|apply Hf; done].
    clear -Hp Hpk. induction l as [|[a b] l IH]; simpl in Hp.
    + apply list_elem_of_singleton in Hp as ->. done.
    + destruct (Z.ltb_spec k a); [|destruct (Z.eqb_spec k a); [done|]].
      * apply elem_of_cons in Hp as [->|?]; done.
      * apply elem_of_cons in Hp as [->|Hp]; [left|right; auto].
Qed.

(** The search finds the entry with the greatest key at most [key], if there is one. *)
Lemma ranges_floor_spec key l :
  StronglySorted key_lt l ->
  match ranges_floor key l with
  | Some e => e ∈ l /\ e.1 <= key /\ forall p, p ∈ l -> p.1 <= key -> p.1 <= e.1
  | None => forall p, p ∈ l -> key < p.1
  end.
Proof.
  induction 1 as [|[k v] l Hs IH Hf]; simpl; [by intros p ?%elem_of_nil|].
  rewrite Forall_forall in Hf. unfold key_lt in Hf. simpl in Hf.
  destruct (Z.ltb_spec key k) as [Hlt|Hge].
  - intros p [->|Hp]%elem_of_cons; [done|]. specialize (Hf p Hp). lia.
  - destruct (ranges_floor key l) as [e|].
    + destruct IH as (He & Hle & Hmax). split_and!; [by right|done|].
      intros p [->|Hp]%elem_of_cons ?; simpl; [|auto]. specialize (Hf e He). lia.
    + split_and!; [left|done|]. intros p [->|Hp]%elem_of_cons Hpk; simpl; [lia|].
      specialize (IH p Hp). lia.
Qed.

(** ** The invariant

    [users]: the ranges handed out so far, newest first. *)

Definition blocks (st : fdf_arena) : list (Z * Z) :=
  (initial_buffer_ st, kInitialBufferSize) :: allocated_ranges_ st.

(** How much of a block has been handed out or passed over. *)
Definition used (st : fdf_arena) (b : Z * Z) : Z :=
  if b.1 =? NewestBufferLocked st then b.2 - available_size_ st else b.2.

Definition apart (a b : Z * Z) : Prop := a.1 + a.2 <= b.1 \/ b.1 + b.2 <= a.1.

Record arena_inv (st : fdf_arena) (users : list (Z * Z)) : Prop := {
  inv_sorted : StronglySorted key_lt (allocated_ranges_ st);
  inv_initial : forall b, b ∈ allocated_ranges_ st -> b.1 <> initial_buffer_ st;
  inv_block : forall b, b ∈ blocks st -> 0 <= b.1 /\ 0 < b.2 /\ b.1 + b.2 < 2 ^ 64;
  inv_apart : forall b c, b ∈ blocks st -> c ∈ blocks st -> b.1 <> c.1 -> apart b c;
  inv_newest : exists size, (NewestBufferLocked st, size) ∈ blocks st /\
    0 <= available_size_ st <= size /\
    next_data_available_ st = NewestBufferLocked st + (size - available_size_ st);
  inv_aligned : (8 | next_data_available_ st);
  inv_users : forall u, u ∈ users ->
    exists b, b ∈ blocks st /\ b.1 <= u.1 /\ 0 <= u.2 /\ u.1 + u.2 <= b.1 + used st b;
  inv_users_apart : forall i j u v, users !! i = Some u -> users !! j = Some v -> i <> j -> apart u v
}.

(** Blocks are identified by their address. *)
Lemma sorted_key_inj l b c : StronglySorted key_lt l -> b ∈ l -> c ∈ l -> b.1 = c.1 -> b = c.
Proof.
  induction 1 as [|p l Hs IH Hf]; [by intros ?%elem_of_nil|].
  rewrite Forall_forall in Hf. unfold key_lt in Hf. rewrite !elem_of_cons.
  intros [->|Hb] [->|Hc] E; [done| | |auto].
  - specialize (Hf c Hc). lia.
  - specialize (Hf b Hb). lia.
Qed.

Lemma block_inj st users b c :
  arena_inv st users -> b ∈ blocks st -> c ∈ blocks st -> b.1 = c.1 -> b = c.
Proof.
  intros Hi. unfold blocks. rewrite !elem_of_cons. intros [->|Hb] [->|Hc] E; [done| | |].
  - exfalso. by apply (inv_initial _ _ Hi c).
  - exfalso. by apply (inv_initial _ _ Hi b).
  - eauto using sorted_key_inj, inv_sorted.
Qed.

Lemma newest_used st users :
  arena_inv st users ->
  exists b, b ∈ blocks st /\ b.1 = NewestBufferLocked st /\ 0 <= available_size_ st <= b.2 /\
    next_data_available_ st = b.1 + used st b /\ used st b = b.2 - available_size_ st.
Proof.
  intros Hi. destruct (inv_newest _ _ Hi) as (size & Hin & Hav & Hn).
  exists (NewestBufferLocked st, size). unfold used. simpl. rewrite Z.eqb_refl. auto.
Qed.

Lemma used_bounds st users b :
  arena_inv st users -> b ∈ blocks st -> 0 <= used st b <= b.2.
Proof.
  intros Hi Hb. pose proof (inv_block _ _ Hi b Hb). unfold used.
  destruct (Z.eqb_spec b.1 (NewestBufferLocked st)) as [E|]; [|lia].
  destruct (newest_used st users Hi) as (c & Hc & E' & Hav & _).
  assert (b = c) as -> by (eapply block_inj; eauto; congruence). lia.
Qed.

(** ** [Contains] *)

Section contains.
Context `{abi : ArenaAbi}.

Lemma contains_range_spec a s d n :
  0 <= a -> 0 <= s -> a + s < 2 ^ 64 -> 0 <= d -> 0 <= n -> d + n < 2 ^ 64 ->
  contains_range a s d n = true <-> a <= d /\ d + n <= a + s.
Proof.
  intros. unfold contains_range. rewrite !u64_small by (unfold is_u64; lia).
  destruct (Z.ltb_spec d a); [split; [done|lia]|]. rewrite Z.leb_le. lia.
Qed.

(** The block [Contains] looks into. *)
Definition candidate (data : Z) (st : fdf_arena) : option (Z * Z) :=
  if (data <? initial_buffer_ st) || (initial_buffer_ st + kInitialBufferSize <=? data)
  then ranges_floor data (allocated_ranges_ st)
  else Some (initial_buffer_ st, kInitialBufferSize).

Lemma Contains_candidate st users data n :
  arena_inv st users ->
  Contains data n st =
  match candidate data st with
  | None => Done false
  | Some b => Done (contains_range b.1 (used st b) data n)
  end.
Proof.
  intros Hi. unfold Contains, candidate.
  destruct (inv_block _ _ Hi (initial_buffer_ st, kInitialBufferSize)) as (? & ? & ?); [left|].
  simpl in *. rewrite u64_small by (unfold is_u64, kInitialBufferSize in *; lia).
  assert (forall b, b ∈ blocks st ->
    (if b.1 =? NewestBufferLocked st
     then (ASSERT available_size_ st <=? b.2 ;;
           Done (contains_range b.1 (b.2 - available_size_ st) data n))%exec
     else Done (contains_range b.1 b.2 data n)) = Done (contains_range b.1 (used st b) data n))
    as Hblock.
  { intros b Hb. pose proof (used_bounds st users b Hi Hb) as Hu. unfold used in *.
    destruct (b.1 =? NewestBufferLocked st); [|done].
    assert ((available_size_ st <=? b.2) = true) as -> by (apply Z.leb_le; lia). done. }
  destruct ((data <? initial_buffer_ st) || _).
  - pose proof (ranges_floor_spec data _ (inv_sorted _ _ Hi)) as Hf.
    destruct (ranges_floor _ _) as [[a s]|]; [|done].
    apply (Hblock (a, s)). right. apply Hf.
  - apply (Hblock (initial_buffer_ st, kInitialBufferSize)). left.
Qed.

(** Only the candidate can hold the byte at [data]. *)
Lemma candidate_spec st users data b :
  arena_inv st users -> b ∈ blocks st -> b.1 <= data < b.1 + b.2 -> candidate data st = Some b.
Proof.
  intros Hi Hb Hd. unfold candidate. assert ((initial_buffer_ st, kInitialBufferSize) ∈ blocks st)
    as H0 by left.
  destruct (decide (b.1 = initial_buffer_ st)) as [E|Hne].
  - assert (b = (initial_buffer_ st, kInitialBufferSize)) as -> by (eapply block_inj; eauto).
    simpl in *. destruct (Z.ltb_spec data (initial_buffer_ st)); [lia|].
    destruct (Z.leb_spec (initial_buffer_ st + kInitialBufferSize) data); [lia|done].
  - destruct (inv_apart _ _ Hi b _ Hb H0 Hne) as [Ha|Ha]; simpl in Ha;
      (assert ((data <? initial_buffer_ st) || (initial_buffer_ st + kInitialBufferSize <=? data) =
               true) as -> by (apply orb_true_iff; rewrite Z.ltb_lt, Z.leb_le; lia));
      (apply elem_of_cons in Hb as [->|Hb]; [done|]);
      pose proof (ranges_floor_spec data _ (inv_sorted _ _ Hi)) as Hf;
      (destruct (ranges_floor _ _) as [e|];
        [|specialize (Hf b Hb); lia]);
      destruct Hf as (He & Hle & Hmax); f_equal; specialize (Hmax b Hb ltac:(lia));
      (destruct (decide (e.1 = b.1)); [eauto using sorted_key_inj, inv_sorted|]);
      exfalso; destruct (inv_apart _ _ Hi e b) as [?|?]; try (by right); try lia;
      pose proof (inv_block _ _ Hi e (list_elem_of_further _ _ _ He)); lia.
Qed.

Lemma candidate_in st users data b :
  arena_inv st users -> candidate data st = Some b -> b ∈ blocks st.
Proof.
  intros Hi. unfold candidate. destruct (_ || _); [|intros [= <-]; left].
  pose proof (ranges_floor_spec data _ (inv_sorted _ _ Hi)) as Hf.
  intros E. rewrite E in Hf. right. apply Hf.
Qed.

(** [Contains], for a non-empty range that does not wrap around. *)
Lemma Contains_spec st users data n :
  arena_inv st users -> 0 <= data -> 1 <= n -> data + n < 2 ^ 64 ->
  exists r, Contains data n st = Done r /\
    (r = true <-> exists b, b ∈ blocks st /\ b.1 <= data /\ data + n <= b.1 + used st b).
Proof.
  intros Hi Hd Hn Hw. rewrite (Contains_candidate st users) by done.
  destruct (candidate data st) as [b|] eqn:Ec.
  - eexists. split; [done|]. pose proof (candidate_in _ _ _ _ Hi Ec) as Hb.
    pose proof (inv_block _ _ Hi b Hb). pose proof (used_bounds _ _ _ Hi Hb).
    rewrite contains_range_spec by lia. split; [eauto|].
    intros (c & Hc & ? & ?). pose proof (used_bounds _ _ _ Hi Hc).
    rewrite (candidate_spec st users data c) in Ec by (done || lia). injection Ec as <-. done.
  - exists false. split; [done|]. split; [done|]. intros (c & Hc & ? & ?).
    pose proof (used_bounds _ _ _ Hi Hc).
    by rewrite (candidate_spec st users data c) in Ec by (done || lia).
Qed.

End contains.

(** ** [Allocate] *)

Section allocate.
Context `{abi : ArenaAbi} `{ok : !ArenaAbiOk}.

(** What [operator new] promises of a block it returns: it is aligned, lies in the address space
    with all the bytes asked for, and overlaps nothing the arena has. *)
Definition fresh_block (st : fdf_arena) (block bytes : Z) : Prop :=
  let size := extra_bytes (FIDL_ALIGN bytes) in
  0 <= block /\ block + size < 2 ^ 64 /\ (8 | block) /\ forall b, b ∈ blocks st -> apart (block, size) b.

(** Neither the rounding of the request nor the sum of its size and that of a list node wraps around. *)
Definition request_fits (bytes : Z) : Prop := 0 <= bytes /\ bytes + 8 + FIDL_ALIGN sizeof_ExtraBlockNode <= 2 ^ 64.

(** What the arena takes of the block. *)
Definition fresh_data (st : fdf_arena) (block bytes : Z) : Prop :=
  let data := block + FIDL_ALIGN sizeof_ExtraBlockNode in
  let size := block_size (FIDL_ALIGN bytes) in
  0 <= block /\ data + size < 2 ^ 64 /\ (8 | block) /\
  forall b, b ∈ blocks st -> apart (data, size) b.

Lemma fresh_block_data st block bytes : request_fits bytes -> fresh_block st block bytes -> fresh_data st block bytes.
Proof.
  intros [Hb Hf] (H0 & He & H8 & Ha). pose proof node_small as Hn. destruct (FIDL_ALIGN_spec bytes) as [Hal _]; [lia|].
  assert (extra_bytes (FIDL_ALIGN bytes) = block_size (FIDL_ALIGN bytes) + FIDL_ALIGN sizeof_ExtraBlockNode) as E.
  { unfold extra_bytes, block_size, kExtraSize. apply u64_small. unfold is_u64.
    destruct (Z.ltb_spec (16 * 1024 - FIDL_ALIGN sizeof_ExtraBlockNode) (FIDL_ALIGN bytes)); lia. }
  rewrite E in *. split_and!; [done|lia|done|]. intros b Hin. destruct (Ha b Hin) as [Hx|Hx]; simpl in Hx; unfold apart; simpl; lia.
Qed.

(** For larger requests the sum wraps: the block is asked to be smaller than what is then handed out of it. *)
Lemma extra_bytes_wraps bytes :
  0 <= bytes <= 2 ^ 64 - 8 -> 2 ^ 64 - FIDL_ALIGN sizeof_ExtraBlockNode <= FIDL_ALIGN bytes ->
  extra_bytes (FIDL_ALIGN bytes) < FIDL_ALIGN sizeof_ExtraBlockNode /\ available_size_ (add_block 0 (FIDL_ALIGN bytes) (arena_init 0)) = FIDL_ALIGN bytes.
Proof.
  intros Hb Hw. pose proof node_small as Hn. destruct (FIDL_ALIGN_spec bytes Hb) as [Hal [k Hk]]. unfold extra_bytes, add_block, block_size, kExtraSize. simpl.
  destruct (Z.ltb_spec (16 * 1024 - FIDL_ALIGN sizeof_ExtraBlockNode) (FIDL_ALIGN bytes)); [|lia]. split; [|done]. unfold u64.
  assert (FIDL_ALIGN bytes < 2 ^ 64) by lia.
  rewrite <- (Z_mod_plus_full _ (-1) (2 ^ 64)), Z.mod_small by lia. lia.
Qed.

Lemma initial_inv buffer :
  0 <= buffer -> buffer + kInitialBufferSize < 2 ^ 64 -> (8 | buffer) ->
  arena_inv (arena_init buffer) [].
Proof.
  intros Hb He Ha.
  assert (forall b, b ∈ blocks (arena_init buffer) -> b = (buffer, kInitialBufferSize)) as Hblk.
  { intros b [->|Hb']%elem_of_cons; [done|by apply elem_of_nil in Hb']. }
  split; simpl; try (by intros ? ?%elem_of_nil).
  - constructor.
  - intros b ->%Hblk. simpl. unfold kInitialBufferSize in *. lia.
  - intros b c ->%Hblk ->%Hblk. done.
  - exists kInitialBufferSize. unfold kInitialBufferSize. split; [left|].
    unfold NewestBufferLocked; simpl; unfold kInitialBufferSize; lia.
  - done.
  - by intros i j u v Hu.
Qed.

Lemma elem_of_new_blocks st users block bytes b :
  arena_inv st users -> fresh_data st block bytes ->
  let data := block + FIDL_ALIGN sizeof_ExtraBlockNode in
  let size := block_size (FIDL_ALIGN bytes) in
  b ∈ blocks (add_block block (FIDL_ALIGN bytes) st) <-> b = (data, size) \/ b ∈ blocks st.
Proof.
  intros Hi (? & ? & ? & Hap). cbv zeta. unfold blocks at 1. simpl.
  rewrite elem_of_cons, elem_of_ranges_insert.
  { unfold blocks. rewrite elem_of_cons. tauto. }
  intros q Hq E. assert (q ∈ blocks st) as Hq' by (by right).
  pose proof (inv_block _ _ Hi q Hq') as (? & ? & ?). destruct (Hap q Hq') as [Hx|Hx];
    simpl in Hx; [|lia].
  pose proof node_small. unfold block_size, kExtraSize in *. destruct (Z.ltb_spec (16 * 1024 -
    FIDL_ALIGN sizeof_ExtraBlockNode) (FIDL_ALIGN bytes)); lia.
Qed.

Lemma add_block_inv st users block bytes :
  arena_inv st users -> fresh_data st block bytes ->
  arena_inv (add_block block (FIDL_ALIGN bytes) st) users /\
  FIDL_ALIGN bytes <= available_size_ (add_block block (FIDL_ALIGN bytes) st).
Proof.
  intros Hi Hfresh. pose proof (fun b => elem_of_new_blocks st users block bytes b Hi Hfresh) as Hblk.
  destruct Hfresh as (H0 & Hend & H8 & Hap). cbv zeta in Hblk.
  set (data := block + FIDL_ALIGN sizeof_ExtraBlockNode) in *.
  set (size := block_size (FIDL_ALIGN bytes)) in *.
  pose proof node_small as Hns.
  assert (0 < size /\ FIDL_ALIGN bytes <= size /\ 0 <= data) as (Hs0 & Hsz & Hd0).
  { subst size data. unfold block_size, kExtraSize.
    destruct (Z.ltb_spec (16 * 1024 - FIDL_ALIGN sizeof_ExtraBlockNode) (FIDL_ALIGN bytes)); lia. }
  assert (forall b, b ∈ blocks st -> b.1 <> data) as Hne.
  { intros b Hb E. pose proof (inv_block _ _ Hi b Hb). destruct (Hap b Hb); simpl in *; lia. }
  assert (forall b, b ∈ blocks st ->
    used (add_block block (FIDL_ALIGN bytes) st) b = b.2) as Hused.
  { intros b Hb. unfold used, NewestBufferLocked. simpl. fold data. specialize (Hne b Hb).
    destruct (Z.eqb_spec b.1 data); [done|done]. }
  split; [|exact Hsz]. split.
  - apply ranges_insert_sorted, (inv_sorted _ _ Hi).
  - intros b Hb E. assert (b = (data, size) \/ b ∈ blocks st) as [->|Hin] by (apply Hblk; by right).
    + apply (Hne (initial_buffer_ st, kInitialBufferSize)); [left|done].
    + unfold blocks in Hin. apply elem_of_cons in Hin as [->|Hin]; [|by apply (inv_initial _ _ Hi b)].
      simpl in Hb. rewrite elem_of_ranges_insert in Hb.
      * destruct Hb as [Hb|Hb]; [|by apply (inv_initial _ _ Hi _ Hb)].
        apply (Hne (initial_buffer_ st, kInitialBufferSize)); [left|]. by rewrite Hb.
      * intros q Hq. apply Hne. by right.
  - intros b [->|Hb]%Hblk; [simpl; lia|]. by apply (inv_block _ _ Hi).
  - intros b c [->|Hb]%Hblk [->|Hc]%Hblk Hbc; [done|by apply Hap| |by apply (inv_apart _ _ Hi)].
    destruct (Hap b Hb); [by right|by left].
  - exists size. unfold NewestBufferLocked. simpl. fold size data. split; [apply Hblk; by left|lia].
  - simpl. apply Z.divide_add_r; [done|apply node_aligned].
  - intros u Hu. destruct (inv_users _ _ Hi u Hu) as (b & Hb & ? & ? & ?).
    exists b. rewrite Hused by done. pose proof (used_bounds _ _ _ Hi Hb).
    split_and!; [apply Hblk; by right|lia..].
  - apply (inv_users_apart _ _ Hi).
Qed.

(** Handing out the next bytes of the newest block. *)
Definition bump (bytes : Z) (st : fdf_arena) : fdf_arena :=
  mkArena (initial_buffer_ st) (next_data_available_ st + bytes) (available_size_ st - bytes)
    (extra_blocks_ st) (allocated_ranges_ st).

Lemma bump_inv st users n bytes :
  arena_inv st users -> 0 <= n <= bytes -> bytes <= available_size_ st -> (8 | bytes) ->
  arena_inv (bump bytes st) ((next_data_available_ st, n) :: users).
Proof.
  intros Hi Hn Hle H8. destruct (newest_used st users Hi) as (b & Hb & Eb & Hav & Hnext & Hu).
  assert (forall c, c ∈ blocks st -> used (bump bytes st) c =
    used st c + if c.1 =? NewestBufferLocked st then bytes else 0) as Hused.
  { intros c Hc. unfold used. simpl. change (NewestBufferLocked (bump bytes st)) with
      (NewestBufferLocked st). destruct (c.1 =? NewestBufferLocked st); lia. }
  assert (used (bump bytes st) b = used st b + bytes) as Hub by
    (rewrite Hused, Eb, Z.eqb_refl by done; lia).
  split; try apply Hi.
  - exists b.2. change (NewestBufferLocked (bump bytes st)) with (NewestBufferLocked st).
    rewrite <- Eb. split; [by destruct b|]. simpl. lia.
  - simpl. apply Z.divide_add_r; [apply (inv_aligned _ _ Hi)|done].
  - intros u [->|Hin]%elem_of_cons.
    + exists b. simpl. pose proof (used_bounds _ _ _ Hi Hb). split_and!; [done|lia..].
    + destruct (inv_users _ _ Hi u Hin) as (c & Hc & ? & ? & ?). exists c.
      rewrite Hused by done. split_and!; [done|lia|lia|]. destruct (c.1 =? _); lia.
  - assert (forall u, u ∈ users -> apart u (next_data_available_ st, n)) as Hnew.
    { intros u Hin. destruct (inv_users _ _ Hi u Hin) as (c & Hc & ? & ? & ?).
      pose proof (used_bounds _ _ _ Hi Hc). unfold apart; simpl.
      destruct (decide (c.1 = b.1)) as [E|Hne].
      - assert (c = b) as -> by (eapply block_inj; eauto). lia.
      - pose proof (used_bounds _ _ _ Hi Hb).
        destruct (inv_apart _ _ Hi c b Hc Hb Hne); lia. }
    intros [|i] [|j] u v Hui Hv Hij; [done|injection Hui as <-|injection Hv as <-|by eapply (inv_users_apart _ _ Hi); eauto].
    + destruct (Hnew v); [by eapply list_elem_of_lookup_2|by right|by left].
    + by eapply Hnew, list_elem_of_lookup_2.
Qed.

Lemma Allocate_inv st users block bytes :
  arena_inv st users -> request_fits bytes ->
  (available_size_ st < FIDL_ALIGN bytes -> fresh_block st block bytes) ->
  let '(p, st') := Allocate block bytes st in
  arena_inv st' ((p, bytes) :: users) /\ (8 | p).
Proof.
  intros Hi Hb Hfresh. unfold Allocate. pose proof node_small as Hn.
  destruct (FIDL_ALIGN_spec bytes) as [Hal H8]; [unfold request_fits in Hb; lia|].
  destruct (Z.ltb_spec (available_size_ st) (FIDL_ALIGN bytes)) as [Hlt|Hge].
  - destruct (add_block_inv st users block bytes Hi (fresh_block_data _ _ _ Hb (Hfresh Hlt))) as [Hi' Hav].
    split; [|apply (inv_aligned _ _ Hi')]. apply (bump_inv _ _ _ (FIDL_ALIGN bytes) Hi'); [destruct Hb; lia|done..].
  - split; [|apply (inv_aligned _ _ Hi)]. apply (bump_inv _ _ _ (FIDL_ALIGN bytes) Hi); [destruct Hb; lia|done..].
Qed.

(** ** Reachable arenas *)

(** Arenas that can arise, with the ranges handed out. *)
Inductive arena_reachable : fdf_arena -> list (Z * Z) -> Prop :=
  | reach_create buffer :
      0 <= buffer -> buffer + kInitialBufferSize < 2 ^ 64 -> (8 | buffer) ->
      arena_reachable (arena_init buffer) []
  | reach_allocate st users block bytes p st' :
      arena_reachable st users -> request_fits bytes ->
      (available_size_ st < FIDL_ALIGN bytes -> fresh_block st block bytes) ->
      Allocate block bytes st = (p, st') ->
      arena_reachable st' ((p, bytes) :: users)
  | reach_free st users data r st' :
      arena_reachable st users -> Free data st = (r, st') -> arena_reachable st' users.

Lemma arena_reachable_inv st users : arena_reachable st users -> arena_inv st users.
Proof.
  induction 1 as [buffer|st users block bytes p st' _ IH Hb Hf E|st users d r st' _ IH E].
  - by apply initial_inv.
  - pose proof (Allocate_inv st users block bytes IH Hb Hf) as H. rewrite E in H. by destruct H.
  - by injection E as _ <-.
Qed.

(** C20. [Allocate] hands out memory of its own: in every arena reached by requests that fit ([request_fits]:
    rounded up and with the size of a list node they are below 2^64) the ranges it returned are
    8-byte aligned, those of any two calls are apart (the same range is never handed out twice, unless it is empty),
    and [Contains] confirms every part of each of them, now and after any further allocations. *)
Theorem arena_allocations st users i u :
  arena_reachable st users -> users !! i = Some u ->
  (forall j v, users !! j = Some v -> j <> i -> apart u v) /\
  (forall data n, u.1 <= data -> 1 <= n -> data + n <= u.1 + u.2 -> Contains data n st = Done true) /\
  (8 | u.1).
Proof.
  intros Hr Hu. pose proof (arena_reachable_inv _ _ Hr) as Hi.
  pose proof (list_elem_of_lookup_2 _ _ _ Hu) as Hin. split; [|split].
  - intros j v Hv Hne. by apply (inv_users_apart _ _ Hi i j).
  - intros data n Hd Hn He. destruct (inv_users _ _ Hi u Hin) as (b & Hb & ? & ? & ?).
    pose proof (inv_block _ _ Hi b Hb). pose proof (used_bounds _ _ _ Hi Hb).
    destruct (Contains_spec st users data n) as (r & -> & Hiff); [done|lia|lia|lia|].
    f_equal. apply Hiff. exists b. split_and!; [done|lia|lia].
  - clear Hi Hu i. revert u Hin.
    induction Hr as [buffer|st users block bytes p st' Hr IH Hb Hf E|st users d r st' _ IH E];
      intros u; [by intros ?%elem_of_nil| |apply IH].
    intros [->|Hin]%elem_of_cons; [|auto].
    pose proof (Allocate_inv st users block bytes (arena_reachable_inv _ _ Hr) Hb Hf) as H.
    rewrite E in H. apply H.
Qed.

(** [Contains] is exact for ranges that do not wrap around: in every reachable arena it returns,
    its assertion holding, and it says yes exactly if the range lies in the part of one block that
    has been handed out. *)
Theorem contains_exact st users data n :
  arena_reachable st users -> 0 <= data -> 1 <= n -> data + n < 2 ^ 64 ->
  exists r, Contains data n st = Done r /\
    (r = true <-> exists b, b ∈ blocks st /\ b.1 <= data /\ data + n <= b.1 + used st b).
Proof. intros Hr. apply (Contains_spec st users), (arena_reachable_inv _ _ Hr). Qed.

(** For a range that wraps around the address space, [Contains] answers yes although no block
    holds it: [contains_range] adds the length in 64 bits, so that the end of the range comes out
    below the end of the block. *)
Theorem contains_wraps st users u i :
  arena_reachable st users -> users !! i = Some u -> 1 <= u.2 -> 0 < u.1 ->
  Contains u.1 (2 ^ 64 - u.1) st = Done true.
Proof.
  intros Hr Hu Hlen Hpos. pose proof (arena_reachable_inv _ _ Hr) as Hi.
  destruct (inv_users _ _ Hi u (list_elem_of_lookup_2 _ _ _ Hu)) as (b & Hb & ? & ? & ?).
  pose proof (inv_block _ _ Hi b Hb) as (? & ? & ?). pose proof (used_bounds _ _ _ Hi Hb).
  rewrite (Contains_candidate st users) by done.
  rewrite (candidate_spec st users u.1 b) by (done || lia). f_equal. unfold contains_range.
  destruct (Z.ltb_spec u.1 b.1); [lia|]. replace (u.1 + (2 ^ 64 - u.1)) with (2 ^ 64) by lia.
  apply Z.leb_le. unfold u64. rewrite Z.mod_same by lia.
  apply Z.mod_pos_bound. lia.
Qed.

End allocate.

(** ** Evaluated *)

Module ArenaExample.

Definition ex_abi : ArenaAbi := {|
  FIDL_ALIGN := fun b => Z.land (u64 (b + 7)) (u64 (Z.lnot 7));
  sizeof_ExtraBlockNode := 8
|}.

Lemma land_align b : 0 <= b < 2 ^ 64 -> Z.land b (u64 (Z.lnot 7)) = b / 8 * 8.
Proof.
  intros Hb. change (u64 (Z.lnot 7)) with (Z.shiftl (Z.ones 61) 3).
  replace (b / 8 * 8) with (Z.shiftl (Z.shiftr b 3) 3)
    by (by rewrite Z.shiftl_mul_pow2, Z.shiftr_div_pow2 by lia).
  apply Z.bits_inj'. intros n Hn. rewrite Z.land_spec.
  destruct (decide (n < 3)) as [Hlt|Hge].
  - by rewrite !Z.shiftl_spec_low, andb_false_r by done.
  - rewrite !Z.shiftl_spec by lia. rewrite Z.shiftr_spec by lia.
    replace (n - 3 + 3) with n by lia. destruct (decide (n < 64)).
    + rewrite Z.ones_spec_low by lia. apply andb_true_r.
    + assert (Z.testbit b n = false) as ->; [|done].
      rewrite <- (Z.mod_small b (2 ^ 64)) by lia. apply Z.mod_pow2_bits_high. lia.
Qed.

Lemma ex_abi_ok : @ArenaAbiOk ex_abi.
Proof.
  split; [|vm_compute; split; [discriminate|reflexivity]|by exists 1].
  intros b Hb. simpl. rewrite (u64_small (b + 7)) by (unfold is_u64; lia).
  rewrite land_align by lia. split; [|apply Z.divide_factor_r].
  pose proof (Z.div_mod (b + 7) 8). pose proof (Z.mod_pos_bound (b + 7) 8). lia.
Qed.

(** An arena at 2^20, with 100 and then 5000 bytes allocated; the second needs a block. *)
Definition arena0 : fdf_arena := arena_init (2 ^ 20).
Definition arena1 : fdf_arena := Eval vm_compute in (@Allocate ex_abi 0 100 arena0).2.
Definition arena2 : fdf_arena := Eval vm_compute in (@Allocate ex_abi (2 ^ 21) 5000 arena1).2.

Lemma arena2_reachable :
  @arena_reachable ex_abi arena2 [(2 ^ 21 + 8, 5000); (2 ^ 20, 100)].
Proof.
  apply (@reach_allocate ex_abi arena1 [(2 ^ 20, 100)] (2 ^ 21)); [|split; vm_compute; discriminate| |reflexivity].
  - apply (@reach_allocate ex_abi arena0 [] 0); [|split; vm_compute; discriminate| |reflexivity].
    + constructor; [lia|vm_compute; reflexivity|by exists (2 ^ 17)].
    + intros H. vm_compute in H. discriminate H.
  - intros _. split_and!; [lia|vm_compute; reflexivity|by exists (2 ^ 18)|].
    intros b [->|Hb]%elem_of_cons; [right; vm_compute; discriminate|by apply elem_of_nil in Hb].
Qed.

Lemma arena_allocations_witness :
  @Contains (2 ^ 20) 100 arena2 = Done true /\ apart (2 ^ 21 + 8, 5000) (2 ^ 20, 100).
Proof.
  destruct (@arena_allocations ex_abi ex_abi_ok arena2 _ 1%nat (2 ^ 20, 100) arena2_reachable
              eq_refl) as (_ & Hc & _).
  destruct (@arena_allocations ex_abi ex_abi_ok arena2 _ 0%nat (2 ^ 21 + 8, 5000) arena2_reachable
              eq_refl) as (Ha & _ & _).
  split; [apply Hc; simpl; lia|apply (Ha 1%nat); [reflexivity|discriminate]].
Defined.

Lemma contains_exact_witness : @Contains (2 ^ 21 + 8) 6000 arena2 = Done false.
Proof.
  destruct (@contains_exact ex_abi ex_abi_ok arena2 _ (2 ^ 21 + 8) 6000 arena2_reachable)
    as (r & Hr & _); [lia..|]. rewrite Hr. vm_compute in Hr. by injection Hr as <-.
Defined.

Lemma contains_wraps_witness : @Contains (2 ^ 20) (2 ^ 64 - 2 ^ 20) arena2 = Done true.
Proof.
  apply (@contains_wraps ex_abi ex_abi_ok arena2 _ (2 ^ 20, 100) 1%nat arena2_reachable);
    [reflexivity|simpl; lia..].
Defined.

End ArenaExample.
