(* ===== verification/Dispatcher.v ===== *)
(** * Dispatcher: the driver runtime's dispatchers

    Model of [src/devices/bin/driver_runtime/callback_request.h], [driver_context.cc] and the
    [Dispatcher] class of [dispatcher.cc], [dispatcher.h].

    A dispatcher keeps callback requests in queues guarded by [callback_lock_]; each critical
    section is one function on the dispatcher's state here, in the order the source takes the lock.
    ([DispatcherRun] interleaves the sections of the threads that run callbacks.) What the
    process-wide async loop answers ([async_cancel_wait] and the like are outside the sources) is
    the argument [loop]. Requests are identified by [request_id], which stands for their address. *)
From Stdlib Require Import ZArith Lia Sorting.
From stdpp Require Import prelude.
From S2P Require Import Prelude.

Local Open Scope Z_scope.

(** ** Callback requests *)

Inductive RequestType := kTask | kOther.

#[global] Instance request_type_eq_dec : EqDecision RequestType.
Proof. solve_decision. Defined.

(** [callback_]: which callback is set; [async_operation_]: the address of the operation. *)
Record CallbackRequest := mkRequest {
  request_id : Z;
  request_type_ : RequestType;
  cr_dispatcher_ : option Z;
  callback_ : option Z;
  reason_ : option zx_status;
  async_operation_ : option Z
}.

#[global] Instance callback_request_eq_dec : EqDecision CallbackRequest.
Proof. solve_decision. Defined.

(** The constructor. *)
Definition new_request (id : Z) (type : RequestType) : CallbackRequest :=
  mkRequest id type None None None None.

(** [async_operation] is null for [0]. *)
Definition SetCallback (dispatcher callback async_operation : Z) (r : CallbackRequest)
    : exec CallbackRequest :=
  (ASSERT bool_decide (cr_dispatcher_ r = None) ;;
   ASSERT bool_decide (callback_ r = None) ;;
   ASSERT bool_decide (async_operation_ r = None) ;;
   Done (mkRequest (request_id r) (request_type_ r) (Some dispatcher) (Some callback) (reason_ r)
     (if async_operation =? 0 then async_operation_ r else Some async_operation)))%exec.

(** [Call]: the callback to run, the status it is given, and the request handed to it. Running a
    [fit::callback] that is not set aborts. *)
Definition Call (status : zx_status) (r : CallbackRequest)
    : exec (Z * zx_status * CallbackRequest) :=
  let status := match reason_ r with
                | Some reason => if decide (reason = ZX_OK) then status else reason
                | None => status
                end in
  match callback_ r with
  | None => Panic
  | Some callback =>
      Done (callback, status, mkRequest (request_id r) (request_type_ r) None None None None)
  end.

Definition CallbackRequest_SetCallbackReason (callback_reason : zx_status) (r : CallbackRequest)
    : CallbackRequest :=
  mkRequest (request_id r) (request_type_ r) (cr_dispatcher_ r) (callback_ r) (Some callback_reason)
    (async_operation_ r).

Definition IsPending (r : CallbackRequest) : bool := bool_decide (callback_ r <> None).

Definition Reset (r : CallbackRequest) : CallbackRequest :=
  mkRequest (request_id r) (request_type_ r) None None None None.

Definition has_async_operation (r : CallbackRequest) : bool :=
  match async_operation_ r with Some op => negb (op =? 0) | None => false end.

Definition holds_async_operation (operation : Z) (r : CallbackRequest) : bool :=
  match async_operation_ r with Some op => op =? operation | None => false end.

(** ** The call stack of a thread *)

Record Entry := mkEntry { entry_driver : Z; entry_dispatcher : option Z }.

Definition PushDriver (driver : Z) (dispatcher : option Z) (stack : list Entry) : list Entry :=
  stack ++ [mkEntry driver dispatcher].

Definition PopDriver (stack : list Entry) : exec (list Entry) :=
  (ASSERT negb (bool_decide (stack = [])) ;; Done (take (length stack - 1) stack))%exec.

#[global] Instance entry_eq_dec : EqDecision Entry.
Proof. solve_decision. Defined.

Definition GetCurrentDriver (stack : list Entry) : option Z := entry_driver <$> last stack.

Definition GetCurrentDispatcher (stack : list Entry) : option Z := last stack ≫= entry_dispatcher.

Definition IsDriverInCallStack (driver : Z) (stack : list Entry) : bool :=
  existsb (fun e => entry_driver e =? driver) stack.

Definition IsCallStackEmpty (stack : list Entry) : bool := (length stack =? 0)%nat.

(** ** The state *)

Inductive DispatcherState := kRunning | kShuttingDown | kShutdown | kDestroyed.

#[global] Instance dispatcher_state_eq_dec : EqDecision DispatcherState.
Proof. solve_decision. Defined.

Definition kBatchSize : nat := 10.

(** [event_waiter_]: absent, or whether it is signaled. [timer_]: the deadline it is armed for.
    [complete_shutdown_event]: the event of [complete_shutdown_event_manager_] that was created and
    not yet signaled; [shutdown_signaled]: an event was signaled. *)
Record Dispatcher := mkDispatcher {
  unsynchronized_ : bool;
  allow_sync_calls_ : bool;
  owner_ : Z;
  event_waiter_ : option bool;
  registered_callbacks_ : list CallbackRequest;
  callback_queue_ : list CallbackRequest;
  shutdown_queue_ : list CallbackRequest;
  waits_ : list CallbackRequest;
  timer_ : option Z;
  delayed_tasks_ : list (Z * CallbackRequest);
  dispatching_sync_ : bool;
  state_ : DispatcherState;
  num_active_threads_ : Z;
  complete_shutdown_event : bool;
  shutdown_signaled : bool
}.

(** What the shared async loop answers to the calls made during a section. *)
Record AsyncLoop := mkLoop {
  cancel_timer_found : bool;      (* async_cancel_task: ZX_OK or ZX_ERR_NOT_FOUND *)
  post_timer_ok : bool;           (* async_post_task *)
  cancel_wait_ok : Z -> bool;     (* AsyncWait::Cancel of the wait *)
  begin_wait_ok : bool            (* async_begin_wait *)
}.

(** Updates of single fields. *)
Definition set_event_waiter (w : option bool) (d : Dispatcher) : Dispatcher :=
  mkDispatcher (unsynchronized_ d) (allow_sync_calls_ d) (owner_ d) w (registered_callbacks_ d)
    (callback_queue_ d) (shutdown_queue_ d) (waits_ d) (timer_ d) (delayed_tasks_ d)
    (dispatching_sync_ d) (state_ d) (num_active_threads_ d) (complete_shutdown_event d)
    (shutdown_signaled d).
Definition set_queues (registered queue shutdown waits : list CallbackRequest) (d : Dispatcher)
    : Dispatcher :=
  mkDispatcher (unsynchronized_ d) (allow_sync_calls_ d) (owner_ d) (event_waiter_ d) registered
    queue shutdown waits (timer_ d) (delayed_tasks_ d) (dispatching_sync_ d) (state_ d)
    (num_active_threads_ d) (complete_shutdown_event d) (shutdown_signaled d).
Definition set_timer (t : option Z) (d : Dispatcher) : Dispatcher :=
  mkDispatcher (unsynchronized_ d) (allow_sync_calls_ d) (owner_ d) (event_waiter_ d)
    (registered_callbacks_ d) (callback_queue_ d) (shutdown_queue_ d) (waits_ d) t
    (delayed_tasks_ d) (dispatching_sync_ d) (state_ d) (num_active_threads_ d)
    (complete_shutdown_event d) (shutdown_signaled d).
Definition set_delayed (l : list (Z * CallbackRequest)) (d : Dispatcher) : Dispatcher :=
  mkDispatcher (unsynchronized_ d) (allow_sync_calls_ d) (owner_ d) (event_waiter_ d)
    (registered_callbacks_ d) (callback_queue_ d) (shutdown_queue_ d) (waits_ d) (timer_ d) l
    (dispatching_sync_ d) (state_ d) (num_active_threads_ d) (complete_shutdown_event d)
    (shutdown_signaled d).
Definition set_dispatching (b : bool) (d : Dispatcher) : Dispatcher :=
  mkDispatcher (unsynchronized_ d) (allow_sync_calls_ d) (owner_ d) (event_waiter_ d)
    (registered_callbacks_ d) (callback_queue_ d) (shutdown_queue_ d) (waits_ d) (timer_ d)
    (delayed_tasks_ d) b (state_ d) (num_active_threads_ d) (complete_shutdown_event d)
    (shutdown_signaled d).
Definition set_state (s : DispatcherState) (d : Dispatcher) : Dispatcher :=
  mkDispatcher (unsynchronized_ d) (allow_sync_calls_ d) (owner_ d) (event_waiter_ d)
    (registered_callbacks_ d) (callback_queue_ d) (shutdown_queue_ d) (waits_ d) (timer_ d)
    (delayed_tasks_ d) (dispatching_sync_ d) s (num_active_threads_ d) (complete_shutdown_event d)
    (shutdown_signaled d).
Definition set_active (n : Z) (d : Dispatcher) : Dispatcher :=
  mkDispatcher (unsynchronized_ d) (allow_sync_calls_ d) (owner_ d) (event_waiter_ d)
    (registered_callbacks_ d) (callback_queue_ d) (shutdown_queue_ d) (waits_ d) (timer_ d)
    (delayed_tasks_ d) (dispatching_sync_ d) (state_ d) n (complete_shutdown_event d)
    (shutdown_signaled d).
Definition set_shutdown_event (valid signaled : bool) (d : Dispatcher) : Dispatcher :=
  mkDispatcher (unsynchronized_ d) (allow_sync_calls_ d) (owner_ d) (event_waiter_ d)
    (registered_callbacks_ d) (callback_queue_ d) (shutdown_queue_ d) (waits_ d) (timer_ d)
    (delayed_tasks_ d) (dispatching_sync_ d) (state_ d) (num_active_threads_ d) valid signaled.

(** [CreateWithAdder], once its checks have passed: a running dispatcher with a waiting event
    waiter. *)
Definition new_dispatcher (unsynchronized allow_sync_calls : bool) (owner : Z) : Dispatcher :=
  mkDispatcher unsynchronized allow_sync_calls owner (Some false) [] [] [] [] None [] false kRunning
    0 false false.

(** The checks of [CreateWithAdder] before anything is created, on the option bits and the owner
    (0 for a null owner). *)
Definition CreateWithAdder_args (unsynchronized allow_sync_calls : bool) (owner : Z) : zx_status :=
  if unsynchronized && allow_sync_calls then ZX_ERR_NOT_SUPPORTED
  else if owner =? 0 then ZX_ERR_INVALID_ARGS
  else ZX_OK.

(** ** Idle checks *)

Definition IsRunningLocked (d : Dispatcher) : bool := bool_decide (state_ d = kRunning).

Definition signaled (d : Dispatcher) : bool := default false (event_waiter_ d).

Definition IsIdleLocked (d : Dispatcher) : bool :=
  (num_active_threads_ d =? 0) && bool_decide (callback_queue_ d = []) && negb (signaled d).

Definition is_armed (d : Dispatcher) : bool := bool_decide (timer_ d <> None).

Definition HasFutureOpsScheduledLocked (d : Dispatcher) : bool :=
  negb (bool_decide (waits_ d = [])) || is_armed d.

(** [CompleteShutdownEventManager::Signal] *)
Definition ShutdownEvent_Signal (d : Dispatcher) : Dispatcher :=
  if complete_shutdown_event d then set_shutdown_event false true d else d.

Definition IdleCheckLocked (d : Dispatcher) : Dispatcher :=
  if IsIdleLocked d then
    if negb (HasFutureOpsScheduledLocked d) then ShutdownEvent_Signal d else d
  else d.

(** [RegisterForCompleteShutdownEvent], the event being created. *)
Definition RegisterForCompleteShutdownEvent (d : Dispatcher) : Dispatcher :=
  let d := set_shutdown_event true (shutdown_signaled d) d in
  if IsIdleLocked d && negb (HasFutureOpsScheduledLocked d) then ShutdownEvent_Signal d else d.

Definition HasQueuedTasks (d : Dispatcher) : bool :=
  existsb (fun r => bool_decide (request_type_ r = kTask)) (callback_queue_ d).

(** [if (event_waiter_ && !event_waiter_->signaled()) event_waiter_->signal();] *)
Definition wake (d : Dispatcher) : Dispatcher :=
  match event_waiter_ d with
  | Some false => set_event_waiter (Some true) d
  | _ => d
  end.

(** ** Timers and delayed tasks *)

(** [Timer::Cancel]: whether it returned [ZX_OK]. *)
Definition Timer_Cancel (loop : AsyncLoop) (d : Dispatcher) : bool * Dispatcher :=
  if negb (is_armed d) then (true, d)
  else if cancel_timer_found loop then (true, set_timer None d)
  else (false, d).

Definition Timer_BeginWait (loop : AsyncLoop) (deadline : Z) (d : Dispatcher) : exec Dispatcher :=
  (ASSERT negb (is_armed d) ;;
   Done (if post_timer_ok loop then set_timer (Some deadline) d else d))%exec.

Definition GetNextTimeoutLocked (d : Dispatcher) : option Z :=
  match callback_queue_ d with
  | [] => match delayed_tasks_ d with
          | [] => None
          | (deadline, _) :: _ => Some deadline
          end
  | _ => None
  end.

Definition ResetTimerLocked (loop : AsyncLoop) (d : Dispatcher) : exec Dispatcher :=
  match GetNextTimeoutLocked d with
  | None => Done (Timer_Cancel loop d).2
  | Some deadline =>
      if match timer_ d with Some t => deadline <? t | None => true end then
        let '(ok, d') := Timer_Cancel loop d in
        if ok then Timer_BeginWait loop deadline d' else Done d'
      else Done d
  end.

Fixpoint insert_sorted (deadline : Z) (task : CallbackRequest) (l : list (Z * CallbackRequest))
    : list (Z * CallbackRequest) :=
  match l with
  | [] => [(deadline, task)]
  | (t, r) :: rest =>
      if deadline <? t then (deadline, task) :: l else (t, r) :: insert_sorted deadline task rest
  end.

Definition InsertDelayedTaskSortedLocked (deadline : Z) (task : CallbackRequest) (d : Dispatcher)
    : Dispatcher :=
  set_delayed (insert_sorted deadline task (delayed_tasks_ d)) d.

(** The tasks before the first whose deadline is still to come, and the rest. *)
Fixpoint split_done (now : Z) (l : list (Z * CallbackRequest))
    : list (Z * CallbackRequest) * list (Z * CallbackRequest) :=
  match l with
  | [] => ([], [])
  | (t, r) :: rest =>
      if now <? t then ([], l)
      else let '(done, later) := split_done now rest in ((t, r) :: done, later)
  end.

Definition CheckDelayedTasksLocked (loop : AsyncLoop) (now : Z) (d : Dispatcher) : exec Dispatcher :=
  if negb (IsRunningLocked d) then Done (IdleCheckLocked d)
  else
    let '(done, later) := split_done now (delayed_tasks_ d) in
    match done with
    | [] => ResetTimerLocked loop d
    | _ =>
        let d := set_delayed later d in
        let d := set_queues (registered_callbacks_ d) (callback_queue_ d ++ done.*2)
                   (shutdown_queue_ d) (waits_ d) d in
        Done (wake d)
    end.

(** [Timer::Handler] *)
Definition Timer_Handler (loop : AsyncLoop) (now : Z) (d : Dispatcher) : exec Dispatcher :=
  CheckDelayedTasksLocked loop now (set_timer None d).

(** ** Registering and queueing callbacks *)

(** The request back if the dispatcher is no longer running. *)
Definition RegisterCallbackWithoutQueueing (r : CallbackRequest) (d : Dispatcher)
    : option CallbackRequest * Dispatcher :=
  if negb (IsRunningLocked d) then (Some r, d)
  else (None, set_queues (registered_callbacks_ d ++ [r]) (callback_queue_ d) (shutdown_queue_ d)
                (waits_ d) d).

Definition has_id (id : Z) (r : CallbackRequest) : bool := request_id r =? id.

(** Remove the request with the given identity from a list. *)
Fixpoint remove_request (id : Z) (l : list CallbackRequest)
    : option (CallbackRequest * list CallbackRequest) :=
  match l with
  | [] => None
  | r :: rest =>
      if has_id id r then Some (r, rest)
      else '(found, rest') ← remove_request id rest; Some (found, r :: rest')
  end.

(** What the thread that queued a callback goes on to do. *)
Inductive QueueOutcome :=
  | Returned
  | DirectCall (r : CallbackRequest).

(** The first section of [QueueRegisteredCallback] on a thread with the given call stack, up to
    the direct call or the return. [in_to_call]: the request is on the list of callbacks a
    dispatcher thread is about to run. Erasing a request from [registered_callbacks_] that is on
    another list corrupts both lists, and counts as an abort. *)
Definition queue_begin (in_to_call : bool) (stack : list Entry) (request : Z)
    (callback_reason : zx_status) (d : Dispatcher) : exec (QueueOutcome * Dispatcher) :=
  let d := set_active (num_active_threads_ d + 1) d in
  if negb (IsRunningLocked d) then Done (Returned, d)
  else
    let elsewhere := in_to_call || existsb (has_id request) (callback_queue_ d) ||
                     existsb (has_id request) (shutdown_queue_ d) in
    match remove_request request (registered_callbacks_ d) with
    | None => if elsewhere then Panic else Done (Returned, d)
    | Some (r, registered) =>
        let r := CallbackRequest_SetCallbackReason callback_reason r in
        let d := set_queues registered (callback_queue_ d) (shutdown_queue_ d) (waits_ d) d in
        let may_call := unsynchronized_ d ||
          (negb (dispatching_sync_ d) && negb (allow_sync_calls_ d) &&
           negb (bool_decide (request_type_ r = kTask))) in
        let direct_call := may_call && negb (IsCallStackEmpty stack) &&
                           negb (IsDriverInCallStack (owner_ d) stack) in
        if direct_call then Done (DirectCall r, set_dispatching true d)
        else Done (Returned, wake (set_queues (registered_callbacks_ d) (callback_queue_ d ++ [r])
                                     (shutdown_queue_ d) (waits_ d) d))
    end.

(** The section after the direct call. *)
Definition queue_direct_end (d : Dispatcher) : Dispatcher :=
  let d := set_dispatching false d in
  if negb (bool_decide (callback_queue_ d = [])) && IsRunningLocked d then wake d else d.

(** The deferred section at the end of [QueueRegisteredCallback]. *)
Definition active_end (d : Dispatcher) : exec Dispatcher :=
  (ASSERT 0 <? num_active_threads_ d ;;
   Done (IdleCheckLocked (set_active (num_active_threads_ d - 1) d)))%exec.

(** [CancelCallback] on the dispatcher's own lists. The request may also be on the list of a thread
    that runs callbacks, see [cancel_callback] in [DispatcherRun]. *)
Definition CancelCallback (request : Z) (d : Dispatcher) : option CallbackRequest * Dispatcher :=
  match remove_request request (registered_callbacks_ d) with
  | Some (r, l) => (Some r, set_queues l (callback_queue_ d) (shutdown_queue_ d) (waits_ d) d)
  | None =>
      match remove_request request (callback_queue_ d) with
      | Some (r, l) => (Some r, set_queues (registered_callbacks_ d) l (shutdown_queue_ d) (waits_ d) d)
      | None =>
          match remove_request request (shutdown_queue_ d) with
          | Some (r, l) =>
              (Some r, set_queues (registered_callbacks_ d) (callback_queue_ d) l (waits_ d) d)
          | None => (None, d)
          end
      end
  end.

Definition SetCallbackReason (request : Z) (callback_reason : zx_status) (d : Dispatcher)
    : bool * Dispatcher :=
  if existsb (has_id request) (callback_queue_ d) then
    (true, set_queues (registered_callbacks_ d)
             (map (fun r => if has_id request r
                            then CallbackRequest_SetCallbackReason callback_reason r else r)
                (callback_queue_ d)) (shutdown_queue_ d) (waits_ d) d)
  else (false, d).

(** [erase_if]: the first request that holds the operation. *)
Fixpoint erase_operation (operation : Z) (l : list CallbackRequest)
    : option (CallbackRequest * list CallbackRequest) :=
  match l with
  | [] => None
  | r :: rest =>
      if holds_async_operation operation r then Some (r, rest)
      else '(found, rest') ← erase_operation operation rest; Some (found, r :: rest')
  end.

Fixpoint erase_delayed (operation : Z) (l : list (Z * CallbackRequest))
    : option (CallbackRequest * list (Z * CallbackRequest)) :=
  match l with
  | [] => None
  | (t, r) :: rest =>
      if holds_async_operation operation r then Some (r, rest)
      else '(found, rest') ← erase_delayed operation rest; Some (found, (t, r) :: rest')
  end.

Definition CancelAsyncOperation (loop : AsyncLoop) (operation : Z) (d : Dispatcher)
    : exec (option CallbackRequest * Dispatcher) :=
  match erase_operation operation (callback_queue_ d) with
  | Some (r, l) =>
      Done (Some r, set_queues (registered_callbacks_ d) l (shutdown_queue_ d) (waits_ d) d)
  | None =>
      match erase_operation operation (shutdown_queue_ d) with
      | Some (r, l) =>
          Done (Some r, set_queues (registered_callbacks_ d) (callback_queue_ d) l (waits_ d) d)
      | None =>
          match erase_delayed operation (delayed_tasks_ d) with
          | Some (r, l) =>
              d' ← ResetTimerLocked loop (set_delayed l d);
              Done (Some r, d')
          | None => Done (None, d)
          end
      end
  end.

(** [CancelTask] *)
Definition CancelTask (loop : AsyncLoop) (task : Z) (d : Dispatcher)
    : exec (zx_status * Dispatcher) :=
  '(r, d') ← CancelAsyncOperation loop task d;
  Done (match r with Some _ => ZX_OK | None => ZX_ERR_NOT_FOUND end, d').

(** ** Waits *)

(** [BeginWait] with [AsyncWait::BeginWait]; [r] is the new [AsyncWait], identified by the address of
    the wait it stands for. A loop refuses a wait with [ZX_ERR_BAD_STATE]. *)
Definition BeginWait (loop : AsyncLoop) (r : CallbackRequest) (d : Dispatcher)
    : zx_status * Dispatcher :=
  if negb (IsRunningLocked d) then (ZX_ERR_BAD_STATE, d)
  else if begin_wait_ok loop then
    (ZX_OK, set_queues (registered_callbacks_ d) (callback_queue_ d) (shutdown_queue_ d)
              (waits_ d ++ [r]) d)
  else (ZX_ERR_BAD_STATE, IdleCheckLocked d).

(** [QueueWait], when the loop reports the wait [wait] with [status]: on a running dispatcher the
    wait becomes a registered callback, which the thread then queues. *)
Definition QueueWait (wait : Z) (d : Dispatcher) : exec (bool * Dispatcher) :=
  match remove_request wait (waits_ d) with
  | None => Panic
  | Some (r, waits) =>
      if negb (IsRunningLocked d) then
        Done (false, IdleCheckLocked (set_queues (registered_callbacks_ d) (callback_queue_ d)
                                        (shutdown_queue_ d ++ [r]) waits d))
      else Done (true, set_queues (registered_callbacks_ d ++ [r]) (callback_queue_ d)
                         (shutdown_queue_ d) waits d)
  end.

(** [CancelWait], where the wait was cancelled on the loop: [RemoveWait]. *)
Definition RemoveWait (wait : Z) (d : Dispatcher) : option CallbackRequest * Dispatcher :=
  match remove_request wait (waits_ d) with
  | None => (None, d)
  | Some (r, waits) =>
      (Some r, IdleCheckLocked (set_queues (registered_callbacks_ d) (callback_queue_ d)
                                  (shutdown_queue_ d) waits d))
  end.

(** [CancelWait]: the request it drops, before it is turned into a status. *)
Definition cancel_wait_request (loop : AsyncLoop) (wait : Z) (d : Dispatcher)
    : exec (option CallbackRequest * Dispatcher) :=
  if existsb (has_id wait) (waits_ d) && cancel_wait_ok loop wait then
    let '(r, d') := RemoveWait wait d in
    (ASSERT bool_decide (r <> None) ;; Done (r, d'))%exec
  else CancelAsyncOperation loop wait d.

Definition CancelWait (loop : AsyncLoop) (wait : Z) (d : Dispatcher)
    : exec (zx_status * Dispatcher) :=
  '(r, d') ← cancel_wait_request loop wait d;
  Done (match r with Some _ => ZX_OK | None => ZX_ERR_NOT_FOUND end, d').

(** [QueuePacket] and [BindIrq]: refused unless running, else what the loop says. *)
Definition QueuePacket (answer : zx_status) (d : Dispatcher) : zx_status :=
  if negb (IsRunningLocked d) then ZX_ERR_BAD_STATE else answer.
Definition BindIrq (answer : zx_status) (d : Dispatcher) : zx_status :=
  if negb (IsRunningLocked d) then ZX_ERR_BAD_STATE else answer.

(** ** Posting tasks *)

(** [PostTask] for a task that is due: register and queue. [id] names the new request. *)
Definition post_due (stack : list Entry) (self task callback id : Z) (d : Dispatcher)
    : exec (zx_status * QueueOutcome * Dispatcher) :=
  r ← SetCallback self callback task (new_request id kTask);
  match RegisterCallbackWithoutQueueing r d with
  | (Some _, d') => Done (ZX_ERR_BAD_STATE, Returned, d')
  | (None, d') =>
      '(outcome, d'') ← queue_begin false stack id ZX_OK d';
      Done (ZX_OK, outcome, d'')
  end.

(** [PostTask] for a task with a later deadline, [None] for [ZX_TIME_INFINITE]. *)
Definition post_delayed (loop : AsyncLoop) (self task callback id : Z) (deadline : option Z)
    (d : Dispatcher) : exec (zx_status * Dispatcher) :=
  match deadline with
  | None => Done (ZX_ERR_INVALID_ARGS, d)
  | Some deadline =>
      r ← SetCallback self callback task (new_request id kTask);
      d' ← ResetTimerLocked loop (InsertDelayedTaskSortedLocked deadline r d);
      Done (ZX_OK, d')
  end.

(** ** Running callbacks *)

(** The loop of [DispatchCallbacks] that fills [to_call], which holds [n] callbacks so far. *)
Fixpoint take_batch (unsynchronized : bool) (room n : nat) (queue : list CallbackRequest)
    : list CallbackRequest * list CallbackRequest :=
  match room, queue with
  | S room', r :: rest =>
      let has_async_op := negb unsynchronized && has_async_operation r in
      if has_async_op && (0 <? n)%nat then ([], queue)
      else if has_async_op then ([r], rest)
      else let '(to_call, remaining) := take_batch unsynchronized room' (S n) rest in (r :: to_call, remaining)
  | _, _ => ([], queue)
  end.

(** What the dispatcher thread does after the first section of [DispatchCallbacks]: leave at once,
    or run [to_call], still holding the event waiter or not. *)
Inductive BatchOutcome :=
  | Leave
  | Run (to_call : list CallbackRequest) (has_waiter : bool).

(** The first section. The event waiter is held by the thread. *)
Definition dispatch_begin (loop : AsyncLoop) (d : Dispatcher) : BatchOutcome * Dispatcher :=
  let d := set_active (num_active_threads_ d + 1) d in
  let designal d := set_event_waiter (const false <$> event_waiter_ d) d in
  if (negb (unsynchronized_ d) && dispatching_sync_ d) || negb (IsRunningLocked d)
  then (Leave, designal d)
  else
    let d := set_dispatching true d in
    let '(to_call, remaining) := take_batch (unsynchronized_ d) kBatchSize 0 (callback_queue_ d) in
    let d := set_queues (registered_callbacks_ d) remaining (shutdown_queue_ d) (waits_ d) d in
    if unsynchronized_ d && negb (bool_decide (remaining = [])) then
      (Run to_call false, if begin_wait_ok loop then d else set_event_waiter None d)
    else (Run to_call true, d).

(** [EventWaiter::HandleEvent] on a loop that reports an error or is going away: the waiter is
    dropped. Otherwise it calls [DispatchCallbacks]. Its branch for other signals than
    [ZX_USER_SIGNAL_0] is not reached: that is the only signal [AsyncLoopOwnedEventHandler] waits
    for, so that a wait that ends with [ZX_OK] has observed it. *)
Definition HandleEvent_error (d : Dispatcher) : Dispatcher := set_event_waiter None d.

(** The section after the callbacks, if the thread still holds the waiter. *)
Definition dispatch_end (loop : AsyncLoop) (d : Dispatcher) : exec Dispatcher :=
  d ← ResetTimerLocked loop (set_dispatching false d);
  Done (if bool_decide (callback_queue_ d = []) && signaled d
        then set_event_waiter (Some false) d else d).

(** The deferred section at the end of [DispatchCallbacks]. *)
Definition dispatch_defer (loop : AsyncLoop) (has_waiter : bool) (d : Dispatcher)
    : exec Dispatcher :=
  active_end (if has_waiter && negb (begin_wait_ok loop) then set_event_waiter None d else d).

(** ** Shutting down *)

(** The first section of [ShutdownAsync]: whether shutting down begins now, and the new state. *)
Definition shutdown_begin (loop : AsyncLoop) (d : Dispatcher) : bool * Dispatcher :=
  match state_ d with
  | kRunning =>
      let d := set_state kShuttingDown d in
      let cancelled := filter (fun w => cancel_wait_ok loop (request_id w) = true) (waits_ d) in
      let running := filter (fun w => cancel_wait_ok loop (request_id w) = false) (waits_ d) in
      let shutdown := callback_queue_ d ++ registered_callbacks_ d ++ cancelled in
      let d := set_queues [] [] shutdown running d in
      let d := (Timer_Cancel loop d).2 in
      (true, set_delayed [] (set_queues [] [] (shutdown_queue_ d ++ (delayed_tasks_ d).*2)
                               (waits_ d) d))
  | _ => (false, d)
  end.

(** [ShutdownAsync] with both its sections, undisturbed. *)
Definition ShutdownAsync (loop : AsyncLoop) (d : Dispatcher) : Dispatcher :=
  let '(begun, d') := shutdown_begin loop d in
  if begun then RegisterForCompleteShutdownEvent d' else d'.

(** The first section of [CompleteShutdown]; [waiter_idle]: the loop is waiting on the event waiter
    and has not begun to run it, so that it can be cancelled. *)
Definition complete_begin (waiter_idle : bool) (d : Dispatcher) : exec Dispatcher :=
  (ASSERT bool_decide (state_ d = kShuttingDown) ;;
   ASSERT IsIdleLocked d && negb (HasFutureOpsScheduledLocked d) ;;
   ASSERT bool_decide (event_waiter_ d = None) || waiter_idle ;;
   Done (set_event_waiter None d))%exec.

(** One round of its loop: the next request to call with [ZX_ERR_CANCELED]. *)
Definition complete_next (d : Dispatcher) : option CallbackRequest * Dispatcher :=
  match shutdown_queue_ d with
  | [] => (None, d)
  | r :: rest => (Some r, set_queues (registered_callbacks_ d) (callback_queue_ d) rest (waits_ d) d)
  end.

(** The section after the loop. *)
Definition complete_end (d : Dispatcher) : Dispatcher := set_state kShutdown d.

Definition Destroy (d : Dispatcher) : exec Dispatcher :=
  (ASSERT bool_decide (state_ d = kShutdown) ;; Done (set_state kDestroyed d))%exec.

(** ** Batches *)

#[global] Arguments take_batch : simpl never.

Lemma take_batch_cons u room n r rest :
  take_batch u (S room) n (r :: rest) =
    if negb u && has_async_operation r then if (0 <? n)%nat then ([], r :: rest) else ([r], rest)
    else let '(to_call, remaining) := take_batch u room (S n) rest in (r :: to_call, remaining).
Proof. unfold take_batch. by destruct (negb u && has_async_operation r). Qed.

Lemma take_batch_spec u room n queue to_call remaining :
  take_batch u room n queue = (to_call, remaining) ->
  queue = to_call ++ remaining /\ (length to_call <= room)%nat /\
  (u = false -> n = 0%nat -> (exists r, to_call = [r]) \/ Forall (fun r => has_async_operation r = false) to_call) /\
  (u = false -> (0 < n)%nat -> Forall (fun r => has_async_operation r = false) to_call) /\
  (length to_call = room \/ remaining = [] \/ u = false /\ to_call <> [] \/
   u = false /\ (0 < n)%nat).
Proof.
  revert n queue to_call remaining. induction room as [|room IH]; intros n queue to_call remaining.
  { intros [= <- <-]. split_and!; auto; by left || constructor. }
  destruct queue as [|r rest]; [|rewrite take_batch_cons].
  { intros [= <- <-]. split_and!; simpl; auto; lia. }
  destruct (negb u && has_async_operation r) eqn:Ea.
  - apply andb_true_iff in Ea as [Hu Ha]. apply negb_true_iff in Hu.
    destruct n as [|n]; simpl; intros [= <- <-].
    + split_and!; simpl; eauto; try lia.
    + split_and!; simpl; auto; [lia|]. right; right; right. split; [done|lia].
  - destruct (take_batch u room (S n) rest) as [l m] eqn:E. intros [= <- <-].
    destruct (IH _ _ _ _ E) as (-> & Hl & _ & Hs & Hm).
    assert (u = false -> has_async_operation r = false) as Hr by (intros ->; done).
    split_and!; simpl; auto; try lia.
    + intros Hu _. right. constructor; [auto|]. apply Hs; [done|lia].
    + destruct Hm as [->|[->|[[-> _]|[-> _]]]]; auto; right; right; left; done.
Qed.

Lemma take_batch_head u room r rest :
  exists l m, take_batch u (S room) 0 (r :: rest) = (r :: l, m).
Proof.
  rewrite take_batch_cons. destruct (_ && _); simpl; [eauto|].
  destruct (take_batch u room 1 rest); eauto.
Qed.

(** The batch a dispatcher thread takes: callbacks from the front of the queue in their order,
    at most [kBatchSize] of them, all that fit on an unsynchronized dispatcher; on a synchronized
    one an asynchronous operation is taken alone, so that another can still be cancelled. *)
Theorem batch_order loop d to_call w d' :
  dispatch_begin loop d = (Run to_call w, d') ->
  callback_queue_ d = to_call ++ callback_queue_ d' /\
  (length to_call <= kBatchSize)%nat /\
  (callback_queue_ d <> [] -> to_call <> []) /\
  (unsynchronized_ d = true -> length to_call = kBatchSize \/ callback_queue_ d' = []) /\
  (unsynchronized_ d = false ->
   (exists r, to_call = [r]) \/ Forall (fun r => has_async_operation r = false) to_call).
Proof.
  unfold dispatch_begin. simpl. destruct (_ || _); [done|].
  destruct (take_batch _ _ _ _) as [l m] eqn:E. intros H.
  assert (l = to_call /\ m = callback_queue_ d') as [-> ->].
  { destruct (_ && _); [destruct (begin_wait_ok loop)|]; by injection H as <- _ <-. }
  destruct (take_batch_spec _ _ _ _ _ _ E) as (Hq & Hl & Ha & _ & Hm). split_and!; auto.
  - intros Hne. destruct (callback_queue_ d) as [|r rest] eqn:Eq; [done|].
    destruct (take_batch_head (unsynchronized_ d) 9 r rest) as (l & m & E').
    change kBatchSize with 10%nat in E. rewrite E in E'. congruence.
  - intros Hu. rewrite Hu in Hm. destruct Hm as [|[|[[? _]|[? _]]]]; auto; done.
Qed.

Module BatchExample.

(** A loop on which everything succeeds. *)
Definition loop0 : AsyncLoop := mkLoop true true (fun _ => true) true.

(** A channel read of driver 1. *)
Definition req (id : Z) : CallbackRequest := mkRequest id kOther (Some 1) (Some 9) None None.

(** Three callbacks, the last of them a task. *)
Definition queue3 : list CallbackRequest :=
  [req 1; req 2; mkRequest 3 kTask (Some 1) (Some 9) None (Some 77)].
Definition with_queue3 : Dispatcher :=
  set_event_waiter (Some true) (set_queues [] queue3 [] [] (new_dispatcher false false 1)).

Lemma batch_order_witness :
  queue3 = [req 1; req 2] ++ [mkRequest 3 kTask (Some 1) (Some 9) None (Some 77)].
Proof.
  apply (batch_order loop0 with_queue3 [req 1; req 2] true
    (dispatch_begin loop0 with_queue3).2). reflexivity.
Defined.

End BatchExample.
