(* ===== verification/DispatcherRun.v ===== *)
(** * DispatcherRun: threads running a dispatcher

    The critical sections of [Dispatcher] interleaved by the threads that queue and run callbacks,
    as a step relation, with the invariant of its reachable states. The theorems: a synchronized
    dispatcher runs at most one callback at a time, a queued callback is never forgotten, the
    assertions of shutting down hold when no thread is inside, delayed tasks run in deadline order;
    and three ways in which the source's sections can interleave badly. *)
From Stdlib Require Import ZArith Lia Sorting.
From stdpp Require Import prelude.
From S2P Require Import Prelude Dispatcher.

Local Open Scope Z_scope.

(** Where a thread is: in a direct call made by [QueueRegisteredCallback]; before that routine's
    deferred section; running the callbacks of [DispatchCallbacks]; before its deferred section.
    [has_waiter]: the thread owns the event waiter. *)
Inductive Thread :=
  | TDirect (r : CallbackRequest)
  | TQueueEnd
  | TBatch (to_call : list CallbackRequest) (has_waiter : bool)
  | TBatchEnd (has_waiter : bool).

(** How far shutting down has come: [ShutdownAsync] between its sections; the shutdown event waited
    for; [CompleteShutdown] calling the cancelled requests; done. *)
Inductive ShutdownPhase := NotShutDown | Registering | Waiting | Completing | Completed.

#[global] Instance shutdown_phase_eq_dec : EqDecision ShutdownPhase.
Proof. solve_decision. Defined.

(** [armed]: the loop owns the event waiter and waits for its signal. *)
Record System := mkSystem {
  disp : Dispatcher;
  threads : list Thread;
  armed : bool;
  phase : ShutdownPhase
}.

Definition initial (unsynchronized allow_sync_calls : bool) (owner : Z) : System :=
  mkSystem (new_dispatcher unsynchronized allow_sync_calls owner) [] true NotShutDown.

(** The request waits on the list of a dispatcher thread. *)
Definition in_to_call (id : Z) (s : System) : bool :=
  existsb (fun t => match t with TBatch l _ => existsb (has_id id) l | _ => false end) (threads s).

Definition queue_thread (o : QueueOutcome) : Thread :=
  match o with Returned => TQueueEnd | DirectCall r => TDirect r end.

Definition batch_thread (o : BatchOutcome) : Thread :=
  match o with Leave => TBatchEnd true | Run l w => TBatch l w end.

(** What a step shows: a request was accepted; called with a status; taken back by its owner. *)
Inductive Event :=
  | EvTau
  | EvAccepted (r : CallbackRequest)
  | EvCalled (r : CallbackRequest) (status : zx_status)
  | EvDropped (r : CallbackRequest).

Definition dropped (r : option CallbackRequest) : Event :=
  match r with Some r => EvDropped r | None => EvTau end.

Definition queue_event (o : QueueOutcome) : Event :=
  match o with Returned => EvTau | DirectCall r => EvCalled r ZX_OK end.

Definition post_event (self task callback id : Z) (deadline : option Z) : Event :=
  match deadline, SetCallback self callback task (new_request id kTask) with
  | Some _, Done r => EvAccepted r
  | _, _ => EvTau
  end.

Definition wait_event (r : CallbackRequest) (st : zx_status) : Event :=
  if decide (st = ZX_OK) then EvAccepted r else EvTau.

(** Remove a request from the [to_call] list of the thread that has it. *)
Fixpoint cancel_to_call (id : Z) (ts : list Thread) : option (CallbackRequest * list Thread) :=
  match ts with
  | [] => None
  | t :: rest =>
      let elsewhere := '(r, rest') ← cancel_to_call id rest; Some (r, t :: rest') in
      match t with
      | TBatch to_call w =>
          match remove_request id to_call with
          | Some (r, to_call') => Some (r, TBatch to_call' w :: rest)
          | None => elsewhere
          end
      | _ => elsewhere
      end
  end.

(** [CancelCallback]: remove the request from whatever list it is on. *)
Definition cancel_callback (id : Z) (s : System) : option CallbackRequest * System :=
  match CancelCallback id (disp s) with
  | (Some r, d) => (Some r, mkSystem d (threads s) (armed s) (phase s))
  | (None, d) =>
      match cancel_to_call id (threads s) with
      | Some (r, ts) => (Some r, mkSystem d ts (armed s) (phase s))
      | None => (None, mkSystem d (threads s) (armed s) (phase s))
      end
  end.

Inductive step : System -> Event -> System -> Prop :=
  | step_register s r d :
      RegisterCallbackWithoutQueueing r (disp s) = (None, d) ->
      step s (EvAccepted r) (mkSystem d (threads s) (armed s) (phase s))
  | step_queue s stack id reason o d :
      queue_begin (in_to_call id s) stack id reason (disp s) = Done (o, d) ->
      step s (queue_event o) (mkSystem d (threads s ++ [queue_thread o]) (armed s) (phase s))
  | step_direct_end s l1 r l2 :
      threads s = l1 ++ TDirect r :: l2 ->
      step s EvTau (mkSystem (queue_direct_end (disp s)) (l1 ++ TQueueEnd :: l2) (armed s) (phase s))
  | step_queue_end s l1 l2 d :
      threads s = l1 ++ TQueueEnd :: l2 -> active_end (disp s) = Done d ->
      step s EvTau (mkSystem d (l1 ++ l2) (armed s) (phase s))
  | step_fire s loop o d :
      armed s = true -> signaled (disp s) = true -> dispatch_begin loop (disp s) = (o, d) ->
      step s EvTau (mkSystem d (threads s ++ [batch_thread o])
                (match o with Run _ false => begin_wait_ok loop | _ => false end) (phase s))
  | step_waiter_lost s :
      armed s = true ->
      step s EvTau (mkSystem (HandleEvent_error (disp s)) (threads s) false (phase s))
  | step_call s l1 r l w l2 :
      threads s = l1 ++ TBatch (r :: l) w :: l2 ->
      step s (EvCalled r ZX_OK) (mkSystem (disp s) (l1 ++ TBatch l w :: l2) (armed s) (phase s))
  | step_batch_end s loop l1 l2 d :
      threads s = l1 ++ TBatch [] true :: l2 -> dispatch_end loop (disp s) = Done d ->
      step s EvTau (mkSystem d (l1 ++ TBatchEnd true :: l2) (armed s) (phase s))
  | step_batch_handed s l1 l2 :
      threads s = l1 ++ TBatch [] false :: l2 ->
      step s EvTau (mkSystem (disp s) (l1 ++ TBatchEnd false :: l2) (armed s) (phase s))
  | step_defer s loop l1 w l2 d :
      threads s = l1 ++ TBatchEnd w :: l2 -> dispatch_defer loop w (disp s) = Done d ->
      step s EvTau (mkSystem d (l1 ++ l2) (if w then begin_wait_ok loop else armed s) (phase s))
  | step_cancel s id : step s (dropped (cancel_callback id s).1) (cancel_callback id s).2
  | step_reason s id reason :
      step s EvTau (mkSystem (SetCallbackReason id reason (disp s)).2 (threads s) (armed s) (phase s))
  | step_cancel_operation s loop operation r d :
      CancelAsyncOperation loop operation (disp s) = Done (r, d) ->
      step s (dropped r) (mkSystem d (threads s) (armed s) (phase s))
  | step_post_delayed s loop self task cb id deadline st d :
      post_delayed loop self task cb id deadline (disp s) = Done (st, d) ->
      step s (post_event self task cb id deadline) (mkSystem d (threads s) (armed s) (phase s))
  | step_timer s loop now d :
      timer_ (disp s) <> None -> Timer_Handler loop now (disp s) = Done d ->
      step s EvTau (mkSystem d (threads s) (armed s) (phase s))
  | step_begin_wait s loop r :
      step s (wait_event r (BeginWait loop r (disp s)).1) (mkSystem (BeginWait loop r (disp s)).2 (threads s) (armed s) (phase s))
  | step_cancel_wait s loop w r d :
      cancel_wait_request loop w (disp s) = Done (r, d) ->
      step s (dropped r) (mkSystem d (threads s) (armed s) (phase s))
  | step_wait_signaled s w b d :
      QueueWait w (disp s) = Done (b, d) -> step s EvTau (mkSystem d (threads s) (armed s) (phase s))
  | step_shutdown s loop d :
      shutdown_begin loop (disp s) = (true, d) ->
      step s EvTau (mkSystem d (threads s) (armed s) Registering)
  | step_shutdown_event s :
      phase s = Registering ->
      step s EvTau (mkSystem (RegisterForCompleteShutdownEvent (disp s)) (threads s) (armed s) Waiting)
  | step_complete s d :
      phase s = Waiting -> shutdown_signaled (disp s) = true ->
      complete_begin (armed s) (disp s) = Done d ->
      step s EvTau (mkSystem d (threads s) false Completing)
  | step_complete_next s r d :
      phase s = Completing -> complete_next (disp s) = (Some r, d) ->
      step s (EvCalled r ZX_ERR_CANCELED) (mkSystem d (threads s) (armed s) Completing)
  | step_complete_end s :
      phase s = Completing -> shutdown_queue_ (disp s) = [] ->
      step s EvTau (mkSystem (complete_end (disp s)) (threads s) (armed s) Completed)
  | step_destroy s d :
      Destroy (disp s) = Done d -> step s EvTau (mkSystem d (threads s) (armed s) (phase s)).

(** A run from the start, with what it did. *)
Inductive run (unsynchronized allow_sync_calls : bool) (owner : Z) : list Event -> System -> Prop :=
  | run_initial : run unsynchronized allow_sync_calls owner []
                    (initial unsynchronized allow_sync_calls owner)
  | run_step tr s e s' :
      run unsynchronized allow_sync_calls owner tr s -> step s e s' ->
      run unsynchronized allow_sync_calls owner (tr ++ [e]) s'.

(** ** The invariant *)

Definition is_running (t : Thread) : bool :=
  match t with TDirect _ => true | TBatch _ true => true | _ => false end.
Definition holds_waiter (t : Thread) : bool :=
  match t with TBatch _ w => w | TBatchEnd w => w | _ => false end.
Definition is_direct (t : Thread) : bool := match t with TDirect _ => true | _ => false end.
(** A thread that has passed the waiter on; only unsynchronized dispatchers have them. *)
Definition passed_on (t : Thread) : bool :=
  match t with TBatch _ w => negb w | TBatchEnd w => negb w | _ => false end.

Fixpoint count (p : Thread -> bool) (l : list Thread) : Z :=
  match l with [] => 0 | t :: rest => (if p t then 1 else 0) + count p rest end.

Definition b2z (b : bool) : Z := if b then 1 else 0.

Lemma b2z_range b : 0 <= b2z b <= 1.
Proof. destruct b; simpl; lia. Qed.

(** Delayed tasks are in the order of their deadlines. *)
Definition by_deadline (a b : Z * CallbackRequest) : Prop := a.1 <= b.1.

Record system_inv (s : System) : Prop := {
  inv_active : num_active_threads_ (disp s) = Z.of_nat (length (threads s));
  inv_sync : unsynchronized_ (disp s) = false ->
    count is_running (threads s) = b2z (dispatching_sync_ (disp s)) /\
    count passed_on (threads s) = 0;
  inv_waiter : count holds_waiter (threads s) + b2z (armed s) =
    b2z (bool_decide (event_waiter_ (disp s) <> None));
  inv_wake : state_ (disp s) = kRunning -> event_waiter_ (disp s) = Some false ->
    callback_queue_ (disp s) <> [] -> 0 < count is_direct (threads s);
  inv_stopped : state_ (disp s) <> kRunning ->
    registered_callbacks_ (disp s) = [] /\ callback_queue_ (disp s) = [];
  inv_delayed : StronglySorted by_deadline (delayed_tasks_ (disp s))
}.

Lemma count_app p l1 l2 : count p (l1 ++ l2) = count p l1 + count p l2.
Proof. induction l1 as [|t l1 IH]; simpl; lia. Qed.

Lemma threads_nonneg p l : 0 <= count p l.
Proof. induction l as [|t l IH]; simpl; [lia|]. destruct (p t); lia. Qed.

Lemma threads_pos p l : 0 < count p l -> exists t, t ∈ l /\ p t = true.
Proof.
  induction l as [|t l IH]; simpl; [lia|]. destruct (p t) eqn:E.
  - intros _. exists t. split; [left|done].
  - intros H. destruct IH as (u & Hu & ?); [lia|]. exists u. split; [by right|done].
Qed.

Lemma count_elem p l k v : l !! k = Some v -> p v = true -> 1 <= count p l.
Proof.
  revert k. induction l as [|x l IH]; intros k Hk Hv; [done|]. simpl.
  pose proof (threads_nonneg p l). destruct k as [|k]; simpl in Hk.
  - injection Hk as ->. rewrite Hv. lia.
  - specialize (IH k Hk Hv). destruct (p x); lia.
Qed.

Lemma count_two p l i j t u :
  l !! i = Some t -> l !! j = Some u -> i <> j -> p t = true -> p u = true -> 2 <= count p l.
Proof.
  revert i j. induction l as [|x l IH]; intros i j Hi Hj Hij Ht Hu; [done|].
  pose proof (count_elem p l) as Hone.
  pose proof (threads_nonneg p l). destruct i as [|i], j as [|j]; simpl in *; [done| | |].
  - injection Hi as ->. rewrite Ht. specialize (Hone j u Hj Hu). lia.
  - injection Hj as ->. rewrite Hu. specialize (Hone i t Hi Ht). lia.
  - specialize (IH i j Hi Hj ltac:(lia) Ht Hu). destruct (p x); lia.
Qed.

(** Running synchronously excludes: whoever runs holds the waiter or is a direct call. *)
Lemma count_running l :
  count passed_on l = 0 -> count is_running l <= count is_direct l + count holds_waiter l.
Proof.
  induction l as [|t l IH]; [simpl; lia|]. pose proof (threads_nonneg passed_on l).
  destruct t as [r| |to_call [|]|[|]]; simpl; lia.
Qed.

(** ** Frames of the sections *)

Lemma IdleCheck_frame d : exists v g, IdleCheckLocked d = set_shutdown_event v g d.
Proof.
  unfold IdleCheckLocked, ShutdownEvent_Signal.
  destruct (IsIdleLocked d), (HasFutureOpsScheduledLocked d), (complete_shutdown_event d) eqn:E;
    simpl; eauto; exists (complete_shutdown_event d), (shutdown_signaled d); by destruct d.
Qed.

Lemma Register_frame d : exists v g, RegisterForCompleteShutdownEvent d = set_shutdown_event v g d.
Proof.
  unfold RegisterForCompleteShutdownEvent, ShutdownEvent_Signal.
  destruct (IsIdleLocked _ && _); simpl; eauto.
Qed.

Lemma Timer_Cancel_frame loop d : exists t, (Timer_Cancel loop d).2 = set_timer t d.
Proof.
  unfold Timer_Cancel. destruct (negb (is_armed d)); [exists (timer_ d); by destruct d|].
  destruct (cancel_timer_found loop); simpl; [eauto|exists (timer_ d); by destruct d].
Qed.

Lemma ResetTimer_frame loop d d' : ResetTimerLocked loop d = Done d' -> exists t, d' = set_timer t d.
Proof.
  unfold ResetTimerLocked. destruct (GetNextTimeoutLocked d) as [deadline|].
  - destruct (match timer_ d with Some t => deadline <? t | None => true end).
    + pose proof (Timer_Cancel_frame loop d) as [t Ht].
      destruct (Timer_Cancel loop d) as [[|] d1]; simpl in *; subst d1.
      * unfold Timer_BeginWait. destruct (negb _); simpl; [|done].
        destruct (post_timer_ok loop); intros [= <-]; eauto.
      * intros [= <-]. eauto.
    + intros [= <-]. exists (timer_ d). by destruct d.
  - intros [= <-]. apply Timer_Cancel_frame.
Qed.

Lemma wake_frame d :
  exists w, wake d = set_event_waiter w d /\ w <> Some false /\
    (w <> None <-> event_waiter_ d <> None).
Proof.
  unfold wake. destruct (event_waiter_ d) as [[|]|] eqn:E.
  - exists (Some true). split; [by destruct d; simpl in E; subst|naive_solver].
  - exists (Some true). naive_solver.
  - exists None. split; [by destruct d; simpl in E; subst|naive_solver].
Qed.

Lemma active_end_frame d d' :
  active_end d = Done d' ->
  exists v g, d' = set_shutdown_event v g (set_active (num_active_threads_ d - 1) d).
Proof.
  unfold active_end. destruct (0 <? num_active_threads_ d); simpl; [|done]. intros [= <-].
  apply IdleCheck_frame.
Qed.

Lemma remove_request_Some id l r l' :
  remove_request id l = Some (r, l') -> exists l1 l2, l = l1 ++ r :: l2 /\ l' = l1 ++ l2.
Proof.
  revert l'. induction l as [|x l IH]; intros l'; simpl; [done|].
  destruct (has_id id x); [intros [= -> ->]; by exists [], l'|].
  intros ([x' l''] & H & [= -> <-])%bind_Some.
  destruct (IH l'' H) as (l1 & l2 & -> & ->). by exists (x :: l1), l2.
Qed.

(** A section that neither pushes on the queue nor touches the fields threads depend on. *)
Record quiet (d d' : Dispatcher) : Prop := {
  quiet_unsync : unsynchronized_ d' = unsynchronized_ d;
  quiet_waiter : event_waiter_ d' = event_waiter_ d;
  quiet_sync : dispatching_sync_ d' = dispatching_sync_ d;
  quiet_active : num_active_threads_ d' = num_active_threads_ d;
  quiet_state : state_ d' = kRunning -> state_ d = kRunning;
  quiet_queue : callback_queue_ d' <> [] -> callback_queue_ d <> [] /\ state_ d' = kRunning;
  quiet_registered : state_ d' <> kRunning -> registered_callbacks_ d' = [];
  quiet_delayed : StronglySorted by_deadline (delayed_tasks_ d) ->
    StronglySorted by_deadline (delayed_tasks_ d')
}.

Lemma quiet_inv s d ph :
  system_inv s -> quiet (disp s) d -> system_inv (mkSystem d (threads s) (armed s) ph).
Proof.
  intros Hi Hq. split; simpl.
  - rewrite (quiet_active _ _ Hq). apply (inv_active _ Hi).
  - rewrite (quiet_unsync _ _ Hq), (quiet_sync _ _ Hq). apply (inv_sync _ Hi).
  - rewrite (quiet_waiter _ _ Hq). apply (inv_waiter _ Hi).
  - rewrite (quiet_waiter _ _ Hq). intros Hs Hw Hc. apply (inv_wake _ Hi); [|done|].
    + by apply (quiet_state _ _ Hq).
    + by apply (quiet_queue _ _ Hq).
  - intros Hs. split; [by apply (quiet_registered _ _ Hq)|].
    destruct (callback_queue_ d) as [|r l] eqn:E; [done|].
    destruct (quiet_queue _ _ Hq) as [_ H]; [by rewrite E|done].
  - apply (quiet_delayed _ _ Hq), (inv_delayed _ Hi).
Qed.

(** The state of a system with the same dispatcher queues: most sections only change these. *)
Lemma quiet_intro s d' :
  system_inv s ->
  unsynchronized_ d' = unsynchronized_ (disp s) -> event_waiter_ d' = event_waiter_ (disp s) ->
  dispatching_sync_ d' = dispatching_sync_ (disp s) ->
  num_active_threads_ d' = num_active_threads_ (disp s) -> state_ d' = state_ (disp s) ->
  (callback_queue_ (disp s) = [] -> callback_queue_ d' = []) ->
  (state_ (disp s) <> kRunning -> registered_callbacks_ d' = []) ->
  (StronglySorted by_deadline (delayed_tasks_ (disp s)) ->
   StronglySorted by_deadline (delayed_tasks_ d')) ->
  quiet (disp s) d'.
Proof.
  intros Hi E1 E2 E3 E4 E5 Hq Hr Hd. split; try done.
  - by rewrite E5.
  - intros Hne. assert (callback_queue_ (disp s) <> []) as Hne' by (intros E; auto). split; [done|].
    rewrite E5. destruct (decide (state_ (disp s) = kRunning)); [done|].
    destruct (inv_stopped _ Hi); done.
  - by rewrite E5.
Qed.

(** *** Delayed tasks *)

Lemma insert_sorted_spec deadline r l :
  StronglySorted by_deadline l ->
  StronglySorted by_deadline (insert_sorted deadline r l) /\
  insert_sorted deadline r l ≡ₚ (deadline, r) :: l.
Proof.
  induction 1 as [|[t x] l Hs IH Hf]; simpl; [split; [repeat constructor|done]|].
  destruct (Z.ltb_spec deadline t) as [Hlt|Hge].
  - split; [|done]. constructor; [by constructor|]. constructor; [unfold by_deadline; simpl; lia|].
    eapply Forall_impl; [exact Hf|]. unfold by_deadline; simpl. intros [a b] ?; simpl in *. lia.
  - destruct IH as [IH1 IH2]. split; [|rewrite IH2; constructor].
    constructor; [done|]. rewrite IH2. constructor; [unfold by_deadline; simpl; lia|done].
Qed.

Lemma split_done_spec now l :
  StronglySorted by_deadline l ->
  let '(due, later) := split_done now l in
  l = due ++ later /\ Forall (fun p => p.1 <= now) due /\ Forall (fun p => now < p.1) later /\
  StronglySorted by_deadline later.
Proof.
  induction 1 as [|[t x] l Hs IH Hf]; simpl; [split_and!; by constructor|].
  destruct (Z.ltb_spec now t) as [Hlt|Hge].
  - split_and!; [done|constructor| |by constructor]. constructor; [done|].
    eapply Forall_impl; [exact Hf|]. unfold by_deadline; simpl. intros [a b] ?; simpl in *. lia.
  - destruct (split_done now l) as [due later]. destruct IH as (-> & ? & ? & ?).
    split_and!; [done|by constructor|done|done].
Qed.

Lemma erase_delayed_sorted op l r l' :
  StronglySorted by_deadline l -> erase_delayed op l = Some (r, l') -> StronglySorted by_deadline l'.
Proof.
  intros Hs. revert l'. induction Hs as [|[t x] l Hs IH Hf]; intros l'; simpl; [done|].
  destruct (holds_async_operation op x); [by intros [= -> ->]|].
  intros ([r' l''] & H & [= -> <-])%bind_Some. constructor; [auto|].
  clear -H Hf. revert l'' H. induction l as [|[t' x'] l IH]; intros l''; simpl; [done|].
  apply Forall_cons in Hf as [Hx Hf].
  destruct (holds_async_operation op x'); [by intros [= -> ->]|].
  intros ([r' l3] & H' & [= -> <-])%bind_Some. constructor; [done|auto].
Qed.

Lemma erase_operation_nil op l r l' :
  erase_operation op l = Some (r, l') -> l <> [].
Proof. by destruct l. Qed.

(** ** Quiet sections *)

Ltac quiet_fields Hi :=
  apply (quiet_intro _ _ Hi); simpl; try done;
  try (intros ?; by destruct (inv_stopped _ Hi)).

Lemma ResetTimer_quiet s loop d0 d' :
  system_inv s -> ResetTimerLocked loop d0 = Done d' -> quiet (disp s) d0 -> quiet (disp s) d'.
Proof. intros Hi [t ->]%ResetTimer_frame []. by split. Qed.

Lemma IdleCheck_quiet s d0 : quiet (disp s) d0 -> quiet (disp s) (IdleCheckLocked d0).
Proof. destruct (IdleCheck_frame d0) as (v & g & ->). intros []. by split. Qed.

Lemma CancelCallback_quiet s id :
  system_inv s -> quiet (disp s) (CancelCallback id (disp s)).2.
Proof.
  intros Hi. unfold CancelCallback.
  destruct (remove_request id (registered_callbacks_ _)) as [[r l]|] eqn:E1.
  { quiet_fields Hi. intros Hs. destruct (inv_stopped _ Hi Hs) as [E _]. by rewrite E in E1. }
  destruct (remove_request id (callback_queue_ _)) as [[r l]|] eqn:E2.
  { quiet_fields Hi. intros E. by rewrite E in E2. }
  destruct (remove_request id (shutdown_queue_ _)) as [[r l]|]; quiet_fields Hi.
Qed.

Lemma SetCallbackReason_quiet s id reason :
  system_inv s -> quiet (disp s) (SetCallbackReason id reason (disp s)).2.
Proof.
  intros Hi. unfold SetCallbackReason. destruct (existsb _ _); quiet_fields Hi.
  by intros ->.
Qed.

Lemma CancelAsyncOperation_quiet s loop op r d :
  system_inv s -> CancelAsyncOperation loop op (disp s) = Done (r, d) -> quiet (disp s) d.
Proof.
  intros Hi. unfold CancelAsyncOperation.
  destruct (erase_operation op (callback_queue_ _)) as [[x l]|] eqn:E1.
  { intros [= <- <-]. quiet_fields Hi. intros E. by rewrite E in E1. }
  destruct (erase_operation op (shutdown_queue_ _)) as [[x l]|].
  { intros [= <- <-]. quiet_fields Hi. }
  destruct (erase_delayed op _) as [[x l]|] eqn:E3; [|intros [= <- <-]; quiet_fields Hi].
  intros H. destruct (ResetTimerLocked loop _) as [d'|] eqn:Et; [|done]. injection H as <- <-.
  eapply ResetTimer_quiet; [done..|]. quiet_fields Hi. intros Hs. by eapply erase_delayed_sorted.
Qed.

Lemma post_delayed_quiet s loop self task cb id deadline st d :
  system_inv s -> post_delayed loop self task cb id deadline (disp s) = Done (st, d) ->
  quiet (disp s) d.
Proof.
  intros Hi. unfold post_delayed. destruct deadline as [deadline|]; [|intros [= <- <-]; quiet_fields Hi].
  destruct (SetCallback _ _ _ _) as [r|]; [|done]. cbn [mbind exec_bind].
  destruct (ResetTimerLocked loop _) as [d'|] eqn:Et; [|done]. intros [= <- <-].
  eapply ResetTimer_quiet; [done..|]. quiet_fields Hi. apply insert_sorted_spec.
Qed.

Lemma BeginWait_quiet s loop r : system_inv s -> quiet (disp s) (BeginWait loop r (disp s)).2.
Proof.
  intros Hi. unfold BeginWait. destruct (negb (IsRunningLocked (disp s))); [quiet_fields Hi|].
  destruct (begin_wait_ok loop); [quiet_fields Hi|]. apply IdleCheck_quiet. quiet_fields Hi.
Qed.

Lemma CancelWait_quiet s loop w r d :
  system_inv s -> cancel_wait_request loop w (disp s) = Done (r, d) -> quiet (disp s) d.
Proof.
  intros Hi. unfold cancel_wait_request. destruct (existsb _ _ && _).
  - unfold RemoveWait. destruct (remove_request w (waits_ _)) as [[x l]|]; simpl.
    + intros [= <- <-]. apply IdleCheck_quiet. quiet_fields Hi.
    + done.
  - by eapply CancelAsyncOperation_quiet.
Qed.

Lemma QueueWait_quiet s w b d :
  system_inv s -> QueueWait w (disp s) = Done (b, d) -> quiet (disp s) d.
Proof.
  intros Hi. unfold QueueWait. destruct (remove_request w (waits_ _)) as [[r l]|]; [|done].
  unfold IsRunningLocked. destruct (bool_decide_reflect (state_ (disp s) = kRunning)); simpl.
  - intros [= <- <-]. quiet_fields Hi.
  - intros [= <- <-]. apply IdleCheck_quiet. quiet_fields Hi.
Qed.

Lemma shutdown_begin_quiet s loop d :
  system_inv s -> shutdown_begin loop (disp s) = (true, d) -> quiet (disp s) d.
Proof.
  intros Hi. unfold shutdown_begin. destruct (state_ (disp s)) eqn:E; try done. intros [= <-].
  match goal with |- context [Timer_Cancel loop ?x] =>
    destruct (Timer_Cancel_frame loop x) as [t ->] end.
  split; simpl; try done. constructor.
Qed.

(** ** Preservation *)

Lemma initial_system_inv u a o : system_inv (initial u a o).
Proof. split; simpl; try done. constructor. Qed.

Lemma queue_inv s stack id reason o d :
  system_inv s -> queue_begin (in_to_call id s) stack id reason (disp s) = Done (o, d) ->
  system_inv (mkSystem d (threads s ++ [queue_thread o]) (armed s) (phase s)).
Proof.
  intros Hi. pose proof (threads_nonneg is_direct (threads s)) as Hnn.
  unfold queue_begin, IsRunningLocked. simpl.
  destruct (bool_decide_reflect (state_ (disp s) = kRunning)) as [Hs|Hs]; simpl.
  2: { intros [= <- <-]. destruct (inv_stopped _ Hi Hs).
       split; simpl; rewrite ?length_app, ?count_app; simpl; rewrite ?Z.add_0_r; try apply Hi; try done.
       rewrite (inv_active _ Hi). lia. }
  destruct (remove_request id _) as [[r l]|] eqn:Er.
  2: { destruct (_ || _); [done|]. intros [= <- <-].
       split; simpl; rewrite ?length_app, ?count_app; simpl; rewrite ?Z.add_0_r; try apply Hi; try done.
       rewrite (inv_active _ Hi). lia. }
  destruct ((unsynchronized_ (disp s) || _) && _ && _) eqn:Ed.
  - intros [= <- <-].
    split; simpl; rewrite ?length_app, ?count_app; simpl; rewrite ?Z.add_0_r; try apply Hi; try done.
    + rewrite (inv_active _ Hi). lia.
    + intros Hu. destruct (inv_sync _ Hi Hu) as [Hc ->]. split; [|done].
      rewrite Hu in Ed. simpl in Ed. apply andb_true_iff in Ed as [Ed _].
      apply andb_true_iff in Ed as [Ed _]. apply andb_true_iff in Ed as [Ed _].
      apply andb_true_iff in Ed as [Ed _]. apply negb_true_iff in Ed. rewrite Hc, Ed. done.
    + lia.
  - intros [= <- <-].
    match goal with |- context [wake ?x] => destruct (wake_frame x) as (w & -> & Hw & Hn) end.
    simpl in Hn.
    split; simpl; rewrite ?length_app, ?count_app; simpl; rewrite ?Z.add_0_r; try apply Hi; try done.
    + rewrite (inv_active _ Hi). lia.
    + rewrite (inv_waiter _ Hi). f_equal. by apply bool_decide_ext.
Qed.

Lemma timer_inv s loop now d :
  system_inv s -> Timer_Handler loop now (disp s) = Done d ->
  system_inv (mkSystem d (threads s) (armed s) (phase s)).
Proof.
  intros Hi. unfold Timer_Handler, CheckDelayedTasksLocked, IsRunningLocked. simpl.
  destruct (bool_decide_reflect (state_ (disp s) = kRunning)) as [Hs|Hs]; simpl.
  2: { intros [= <-]. apply quiet_inv; [done|]. apply IdleCheck_quiet. quiet_fields Hi. }
  pose proof (split_done_spec now _ (inv_delayed _ Hi)) as Hsp.
  destruct (split_done now _) as [due later]. destruct Hsp as (_ & _ & _ & Hl).
  destruct due as [|p due].
  - intros H. apply quiet_inv; [done|]. eapply ResetTimer_quiet; [done..|]. quiet_fields Hi.
  - intros [= <-].
    match goal with |- context [wake ?x] => destruct (wake_frame x) as (w & -> & Hw & Hn) end.
    simpl in Hn. split; simpl; try apply Hi; try done.
    rewrite (inv_waiter _ Hi). f_equal. by apply bool_decide_ext.
Qed.

(** Replacing one thread. *)
Ltac thread_arith := rewrite ?length_app, ?count_app in *; simpl in *.

Lemma direct_end_inv s l1 r l2 :
  system_inv s -> threads s = l1 ++ TDirect r :: l2 ->
  system_inv (mkSystem (queue_direct_end (disp s)) (l1 ++ TQueueEnd :: l2) (armed s) (phase s)).
Proof.
  intros Hi Ht.
  assert (exists w, queue_direct_end (disp s) = set_event_waiter w (set_dispatching false (disp s)) /\
    (w <> None <-> event_waiter_ (disp s) <> None) /\
    (state_ (disp s) = kRunning -> callback_queue_ (disp s) <> [] -> w <> Some false))
    as (w & -> & Hn & Hw).
  { unfold queue_direct_end, IsRunningLocked. simpl.
    destruct (negb _ && _) eqn:E.
    - destruct (wake_frame (set_dispatching false (disp s))) as (w & -> & ? & ?). eauto.
    - exists (event_waiter_ (disp s)). split; [done|]. split; [done|]. intros Hs Hq.
      apply andb_false_iff in E as [E|E].
      + apply negb_false_iff, bool_decide_eq_true in E. done.
      + apply bool_decide_eq_false in E. done. }
  pose proof (threads_nonneg is_running l1). pose proof (threads_nonneg is_running l2).
  destruct Hi as [Ha Hsy Hwt Hwk Hst Hdl]. rewrite Ht in *. thread_arith.
  split; simpl; thread_arith; try done.
  - intros Hu. destruct (Hsy Hu) as [Hc Hp]. split; [|lia].
    destruct (dispatching_sync_ (disp s)); simpl in *; lia.
  - rewrite Hwt. f_equal. by apply bool_decide_ext.
  - intros Hs -> Hq. exfalso. by apply Hw.
Qed.

Lemma queue_end_inv s l1 l2 d :
  system_inv s -> threads s = l1 ++ TQueueEnd :: l2 -> active_end (disp s) = Done d ->
  system_inv (mkSystem d (l1 ++ l2) (armed s) (phase s)).
Proof.
  intros [Ha Hsy Hwt Hwk Hst Hdl] Ht (v & g & ->)%active_end_frame. rewrite Ht in *. thread_arith.
  split; simpl; thread_arith; try done. lia.
Qed.

Lemma batch_defer_inv s loop l1 w l2 d :
  system_inv s -> threads s = l1 ++ TBatchEnd w :: l2 -> dispatch_defer loop w (disp s) = Done d ->
  system_inv (mkSystem d (l1 ++ l2) (if w then begin_wait_ok loop else armed s) (phase s)).
Proof.
  intros [Ha Hsy Hwt Hwk Hst Hdl] Ht (v & g & ->)%active_end_frame. rewrite Ht in *. thread_arith.
  pose proof (threads_nonneg holds_waiter l1). pose proof (threads_nonneg holds_waiter l2).
  pose proof (threads_nonneg passed_on l1). pose proof (threads_nonneg passed_on l2).
  destruct w; simpl in *.
  - pose proof (b2z_range (armed s)).
    pose proof (b2z_range (bool_decide (event_waiter_ (disp s) <> None))).
    destruct (begin_wait_ok loop); simpl; split; simpl; thread_arith; try done; try lia;
      intros Hu; destruct (Hsy Hu); split; lia || done.
  - split; simpl; thread_arith; try done; try lia.
    intros Hu. destruct (Hsy Hu). split; [done|lia].
Qed.

Lemma fire_inv s loop o d :
  system_inv s -> armed s = true -> signaled (disp s) = true ->
  dispatch_begin loop (disp s) = (o, d) ->
  system_inv (mkSystem d (threads s ++ [batch_thread o])
                (match o with Run _ false => begin_wait_ok loop | _ => false end) (phase s)).
Proof.
  intros Hi Harm Hsig. assert (event_waiter_ (disp s) = Some true) as Hw.
  { unfold signaled in Hsig. destruct (event_waiter_ (disp s)) as [[]|]; done. }
  destruct Hi as [Ha Hsy Hwt Hwk Hst Hdl]. rewrite Harm, Hw in Hwt. simpl in Hwt.
  assert (count holds_waiter (threads s) = 0) as Hh by lia.
  unfold dispatch_begin, IsRunningLocked. simpl.
  destruct ((negb _ && _) || _) eqn:El.
  - intros [= <- <-]. split; simpl; thread_arith; rewrite ?Hw; simpl; try done; try lia.
    + intros Hu. destruct (Hsy Hu). split; lia.
    + intros Hs _ Hq. rewrite Hs in El. apply orb_true_iff in El as [El|El]; [|done].
      apply andb_true_iff in El as [Hu Hds]. apply negb_true_iff in Hu.
      destruct (Hsy Hu) as [Hc Hp]. rewrite Hds in Hc. simpl in Hc.
      pose proof (count_running _ Hp). lia.
  - apply orb_false_iff in El as [El Hrun]. apply negb_false_iff, bool_decide_eq_true in Hrun.
    destruct (take_batch _ _ _ _) as [to_call remaining].
    destruct (unsynchronized_ (disp s)) eqn:Hu; simpl in El.
    + simpl. destruct (bool_decide (remaining = [])); simpl; intros [= <- <-].
      * split; simpl; thread_arith; rewrite ?Hw; simpl; try done; try lia; congruence.
      * destruct (begin_wait_ok loop); split; simpl; thread_arith; rewrite ?Hw; simpl; try done;
          try lia; congruence.
    + intros [= <- <-]. destruct (Hsy eq_refl) as [Hc Hp]. rewrite El in Hc. simpl in Hc.
      split; simpl; thread_arith; rewrite ?Hw; simpl; try done; try lia; congruence.
Qed.

Lemma waiter_lost_inv s :
  system_inv s -> armed s = true ->
  system_inv (mkSystem (HandleEvent_error (disp s)) (threads s) false (phase s)).
Proof.
  intros [Ha Hsy Hwt Hwk Hst Hdl] Harm. rewrite Harm in Hwt. simpl in Hwt.
  pose proof (b2z_range (bool_decide (event_waiter_ (disp s) <> None))).
  pose proof (threads_nonneg holds_waiter (threads s)). split; simpl; try done. lia.
Qed.

Lemma batch_end_inv s loop l1 l2 d :
  system_inv s -> threads s = l1 ++ TBatch [] true :: l2 -> dispatch_end loop (disp s) = Done d ->
  system_inv (mkSystem d (l1 ++ TBatchEnd true :: l2) (armed s) (phase s)).
Proof.
  intros [Ha Hsy Hwt Hwk Hst Hdl] Ht. unfold dispatch_end.
  destruct (ResetTimerLocked loop _) as [d1|] eqn:Er; [|done].
  apply ResetTimer_frame in Er as [t ->]. intros [= <-]. rewrite Ht in *. thread_arith.
  pose proof (threads_nonneg is_running l1). pose proof (threads_nonneg is_running l2).
  assert (forall b, unsynchronized_ (disp s) = false ->
    count is_running l1 + (1 + count is_running l2) = b2z b ->
    count is_running l1 + (0 + count is_running l2) = 0) as Hone.
  { intros [] _ Hc; simpl in Hc; lia. }
  change (signaled (set_timer t (set_dispatching false (disp s)))) with (signaled (disp s)).
  simpl. destruct (bool_decide_reflect (callback_queue_ (disp s) = [])) as [Hq|Hq]; simpl.
  - destruct (signaled (disp s)) eqn:Hsig; split; simpl; thread_arith; try done; try lia.
    + intros Hu. destruct (Hsy Hu) as [Hc Hp]. split; [by eapply Hone|done].
    + unfold signaled in Hsig. rewrite Hwt. by destruct (event_waiter_ (disp s)).
    + intros Hu. destruct (Hsy Hu) as [Hc Hp]. split; [by eapply Hone|done].
  - split; simpl; thread_arith; try done; try lia.
    intros Hu. destruct (Hsy Hu) as [Hc Hp]. split; [by eapply Hone|done].
Qed.

Lemma thread_inv s l1 t t' l2 :
  system_inv s -> threads s = l1 ++ t :: l2 ->
  is_running t' = is_running t -> holds_waiter t' = holds_waiter t -> is_direct t' = is_direct t ->
  passed_on t' = passed_on t ->
  system_inv (mkSystem (disp s) (l1 ++ t' :: l2) (armed s) (phase s)).
Proof.
  intros [Ha Hsy Hwt Hwk Hst Hdl] Ht E1 E2 E3 E4. rewrite Ht in *. thread_arith.
  split; simpl; thread_arith; rewrite ?E1, ?E2, ?E3, ?E4; done.
Qed.

Lemma cancel_to_call_spec id ts r ts' :
  cancel_to_call id ts = Some (r, ts') ->
  exists l1 l l' w l2, ts = l1 ++ TBatch l w :: l2 /\ ts' = l1 ++ TBatch l' w :: l2 /\
    remove_request id l = Some (r, l').
Proof.
  revert ts'. induction ts as [|t ts IH]; intros ts'; simpl; [done|].
  assert (('(r0, rest') ← cancel_to_call id ts; Some (r0, t :: rest')) = Some (r, ts') ->
    exists l1 l l' w l2, t :: ts = l1 ++ TBatch l w :: l2 /\ ts' = l1 ++ TBatch l' w :: l2 /\
      remove_request id l = Some (r, l')) as Hrest.
  { intros ([r' l''] & H & [= -> <-])%bind_Some.
    destruct (IH l'' H) as (l1 & l & l' & w & l2 & -> & -> & Hr). by exists (t :: l1), l, l', w, l2. }
  destruct t as [r0| |l w|w]; try exact Hrest.
  destruct (remove_request id l) as [[x l']|] eqn:E; [|exact Hrest].
  intros [= <- <-]. by exists [], l, l', w, ts.
Qed.

Lemma cancel_callback_cases id s :
  (exists d, cancel_callback id s = ((CancelCallback id (disp s)).1, mkSystem d (threads s) (armed s) (phase s)) /\
     d = (CancelCallback id (disp s)).2) \/
  (exists r l1 l l' w l2, (CancelCallback id (disp s)).1 = None /\
     threads s = l1 ++ TBatch l w :: l2 /\ remove_request id l = Some (r, l') /\
     cancel_callback id s =
       (Some r, mkSystem (CancelCallback id (disp s)).2 (l1 ++ TBatch l' w :: l2) (armed s) (phase s))).
Proof.
  unfold cancel_callback. destruct (CancelCallback id (disp s)) as [[r|] d] eqn:E; simpl; [eauto|].
  destruct (cancel_to_call id (threads s)) as [[r ts]|] eqn:Ec; [|eauto].
  destruct (cancel_to_call_spec _ _ _ _ Ec) as (l1 & l & l' & w & l2 & Ht & -> & Hr).
  right. by exists r, l1, l, l', w, l2.
Qed.

Lemma cancel_inv s id : system_inv s -> system_inv (cancel_callback id s).2.
Proof.
  intros Hi. pose proof (CancelCallback_quiet s id Hi) as Hq.
  destruct (cancel_callback_cases id s) as [(d & -> & ->)|(r & l1 & l & l' & w & l2 & _ & Ht & _ & ->)];
    simpl; [by apply quiet_inv|].
  by eapply (thread_inv (mkSystem (CancelCallback id (disp s)).2 (threads s) (armed s) (phase s)));
    [by apply quiet_inv|..].
Qed.

Lemma complete_inv s d :
  system_inv s -> complete_begin (armed s) (disp s) = Done d ->
  system_inv (mkSystem d (threads s) false Completing).
Proof.
  intros [Ha Hsy Hwt Hwk Hst Hdl]. unfold complete_begin.
  destruct (bool_decide_reflect (state_ (disp s) = kShuttingDown)) as [Hs|]; simpl; [|done].
  destruct (IsIdleLocked (disp s) && _) eqn:Ei; simpl; [|done].
  destruct (_ || _); simpl; [|done]. intros [= <-].
  apply andb_true_iff in Ei as [Ei _]. unfold IsIdleLocked in Ei.
  apply andb_true_iff in Ei as [Ei _]. apply andb_true_iff in Ei as [Ei _]. apply Z.eqb_eq in Ei.
  rewrite Ei in Ha. assert (threads s = []) as Ht by (destruct (threads s); [done|simpl in Ha; lia]).
  rewrite Ht in *. split; simpl; try done.
Qed.

(** ** The phases of shutting down *)

Definition finishing (p : ShutdownPhase) : bool :=
  match p with Completing | Completed => true | _ => false end.

(** The dispatcher state a phase belongs to. *)
Definition phase_state (p : ShutdownPhase) (st : DispatcherState) : Prop :=
  match p with
  | NotShutDown => st = kRunning
  | Registering | Waiting | Completing => st = kShuttingDown
  | Completed => st = kShutdown \/ st = kDestroyed
  end.

Record phase_inv (s : System) : Prop := {
  ph_state : phase_state (phase s) (state_ (disp s));
  ph_event : complete_shutdown_event (disp s) || shutdown_signaled (disp s) = true ->
    phase s <> NotShutDown /\ phase s <> Registering;
  ph_signaled : shutdown_signaled (disp s) = true ->
    waits_ (disp s) = [] /\ signaled (disp s) = false;
  ph_finishing : finishing (phase s) = true ->
    waits_ (disp s) = [] /\ event_waiter_ (disp s) = None /\ armed s = false /\
    Forall (eq TQueueEnd) (threads s);
  ph_completed : phase s = Completed -> shutdown_queue_ (disp s) = [];
  ph_running : phase s = NotShutDown -> shutdown_queue_ (disp s) = []
}.

(** A section that does not move the phase on. *)
Record calm (d d' : Dispatcher) : Prop := {
  calm_state : state_ d' = state_ d;
  calm_waits : state_ d <> kRunning -> waits_ d = [] ->
    waits_ d' = [] /\ (shutdown_queue_ d = [] -> shutdown_queue_ d' = []);
  calm_running : state_ d = kRunning -> shutdown_queue_ d = [] -> shutdown_queue_ d' = [];
  calm_signaled : state_ d <> kRunning -> signaled d = false -> signaled d' = false;
  calm_waiter : event_waiter_ d = None -> event_waiter_ d' = None;
  calm_event : complete_shutdown_event d' || shutdown_signaled d' = true ->
    complete_shutdown_event d || shutdown_signaled d = true;
  calm_signal : state_ d <> kRunning -> shutdown_signaled d' = true ->
    shutdown_signaled d = true \/ waits_ d' = [] /\ signaled d' = false
}.

Lemma phase_state_running p : phase_state p kRunning -> p = NotShutDown.
Proof. by destruct p; simpl; [..|intros []]. Qed.

Lemma calm_phase s d ts a :
  phase_inv s -> calm (disp s) d ->
  (finishing (phase s) = true -> a = false /\ Forall (eq TQueueEnd) ts) ->
  phase_inv (mkSystem d ts a (phase s)).
Proof.
  intros [Hst Hev Hsg Hfin Hco Hrn] [Cst Cw Crn Csg Cwt Cev Csig] Hts.
  assert (shutdown_signaled d = true -> state_ (disp s) <> kRunning) as Hnr.
  { intros Hs E. rewrite E in Hst. apply phase_state_running in Hst.
    destruct Hev as [? _]; [|done]. apply Cev. by rewrite Hs, orb_true_r. }
  assert (finishing (phase s) = true -> state_ (disp s) <> kRunning) as Hnf.
  { intros Hs E. rewrite E in Hst. apply phase_state_running in Hst. by rewrite Hst in Hs. }
  split; simpl.
  - by rewrite Cst.
  - auto.
  - intros Hs. destruct (Csig (Hnr Hs) Hs) as [Hd|]; [|done]. destruct (Hsg Hd).
    split; [by apply Cw; auto|auto].
  - intros Hf. destruct (Hfin Hf) as (Hw & He & _ & _). split; [by apply Cw; auto|]. auto.
  - intros Hc. destruct Hfin as (Hw & _); [by rewrite Hc|]. apply Cw; auto. apply Hnf. by rewrite Hc.
  - intros Hc. rewrite Hc in Hst. simpl in Hst. auto.
Qed.

Ltac calm_fields := split; simpl; auto; try done.

Lemma calm_frame d d' :
  state_ d' = state_ d -> waits_ d' = waits_ d ->
  (shutdown_queue_ d = [] -> shutdown_queue_ d' = []) ->
  (state_ d <> kRunning -> signaled d = false -> signaled d' = false) ->
  (event_waiter_ d = None -> event_waiter_ d' = None) ->
  complete_shutdown_event d' = complete_shutdown_event d ->
  shutdown_signaled d' = shutdown_signaled d -> calm d d'.
Proof. intros E1 E2 H1 H2 H3 E3 E4. split; rewrite ?E3, ?E4, ?E2; auto. Qed.

Lemma IdleCheck_calm d d0 : calm d d0 -> calm d (IdleCheckLocked d0).
Proof.
  intros C. unfold IdleCheckLocked, ShutdownEvent_Signal, HasFutureOpsScheduledLocked.
  destruct (IsIdleLocked d0) eqn:Ei; [|done].
  destruct (bool_decide_reflect (waits_ d0 = [])) as [Hw|]; simpl; [|done].
  destruct (is_armed d0); simpl; [done|]. destruct (complete_shutdown_event d0) eqn:Ec; [|done].
  destruct C as [Cst Cw Crn Csg Cwt Cev Csig].
  assert (signaled d0 = false) as Hs.
  { unfold IsIdleLocked in Ei. destruct (signaled d0); [|done]. by rewrite andb_false_r in Ei. }
  split; simpl; auto. intros _. apply Cev. by rewrite Ec.
Qed.

Lemma wake_calm d d0 : state_ d = kRunning -> calm d d0 -> calm d (wake d0).
Proof.
  intros Hr [Cst Cw Crn Csg Cwt Cev Csig]. destruct (wake_frame d0) as (w & -> & Hw & Hn).
  split; simpl; auto; try done.
  intros E. specialize (Cwt E). destruct w; [|done]. exfalso. by destruct (proj1 Hn).
Qed.

Lemma ResetTimer_calm d loop d0 d' : ResetTimerLocked loop d0 = Done d' -> calm d d0 -> calm d d'.
Proof. intros [t ->]%ResetTimer_frame []. by split. Qed.

Lemma active_end_calm d d' : active_end d = Done d' -> calm d d'.
Proof.
  unfold active_end. destruct (0 <? num_active_threads_ d); simpl; [|done]. intros [= <-].
  apply IdleCheck_calm. by apply calm_frame.
Qed.

Lemma queue_begin_calm b stack id reason o d d' :
  queue_begin b stack id reason d = Done (o, d') -> calm d d'.
Proof.
  unfold queue_begin, IsRunningLocked. simpl.
  destruct (bool_decide_reflect (state_ d = kRunning)) as [Hs|Hs]; simpl.
  2: { intros [= <- <-]. by apply calm_frame. }
  destruct (remove_request id _) as [[r l]|] eqn:Er.
  2: { destruct (_ || _); [done|]. intros [= <- <-]. by apply calm_frame. }
  destruct (_ && _ && _); intros [= <- <-]; [by apply calm_frame|].
  apply wake_calm; [done|]. by apply calm_frame.
Qed.

Lemma direct_end_calm d : calm d (queue_direct_end d).
Proof.
  unfold queue_direct_end, IsRunningLocked. simpl. destruct (negb _); simpl; [|by apply calm_frame].
  destruct (bool_decide_reflect (state_ d = kRunning)); [|by apply calm_frame].
  apply wake_calm; [done|]. by apply calm_frame.
Qed.

Lemma dispatch_begin_calm loop o d d' : dispatch_begin loop d = (o, d') -> calm d d'.
Proof.
  unfold dispatch_begin. simpl. destruct (_ || negb (IsRunningLocked _)).
  { intros [= <- <-]. apply calm_frame; simpl; try done.
    - intros _. unfold signaled. simpl. by destruct (event_waiter_ d).
    - by intros ->. }
  destruct (take_batch _ _ _ _) as [to_call remaining].
  destruct (_ && _); [destruct (begin_wait_ok loop)|]; intros [= <- <-]; by apply calm_frame.
Qed.

Lemma dispatch_end_calm loop d d' : dispatch_end loop d = Done d' -> calm d d'.
Proof.
  unfold dispatch_end. destruct (ResetTimerLocked loop _) as [d1|] eqn:Er; [|done].
  apply ResetTimer_frame in Er as [t ->]. intros [= <-].
  change (signaled (set_timer t (set_dispatching false d))) with (signaled d). simpl.
  destruct (bool_decide _ && signaled d) eqn:E; apply calm_frame; simpl; try done.
  intros Hn. unfold signaled in E. rewrite Hn in E. by rewrite andb_false_r in E.
Qed.

Lemma dispatch_defer_calm loop w d d' : dispatch_defer loop w d = Done d' -> calm d d'.
Proof.
  unfold dispatch_defer. destruct (_ && _); [|apply active_end_calm].
  intros [Cst Cw Crn Csg Cwt Cev Csig]%active_end_calm. split; auto.
Qed.

Lemma Timer_Handler_calm loop now d d' : Timer_Handler loop now d = Done d' -> calm d d'.
Proof.
  unfold Timer_Handler, CheckDelayedTasksLocked, IsRunningLocked. simpl.
  destruct (bool_decide_reflect (state_ d = kRunning)) as [Hs|Hs]; simpl.
  2: { intros [= <-]. apply IdleCheck_calm. by apply calm_frame. }
  destruct (split_done now _) as [[|p due] later].
  - intros H. eapply ResetTimer_calm; [done|]. by apply calm_frame.
  - intros [= <-]. apply wake_calm; [done|]. by apply calm_frame.
Qed.

Lemma CancelCallback_calm id d : calm d (CancelCallback id d).2.
Proof.
  unfold CancelCallback. destruct (remove_request id (registered_callbacks_ _)) as [[r l]|];
    [by apply calm_frame|].
  destruct (remove_request id (callback_queue_ _)) as [[r l]|]; [by apply calm_frame|].
  destruct (remove_request id (shutdown_queue_ _)) as [[r l]|] eqn:E; [|by apply calm_frame].
  apply calm_frame; simpl; try done. intros Hn. by rewrite Hn in E.
Qed.

Lemma CancelAsyncOperation_calm loop op r d d' :
  CancelAsyncOperation loop op d = Done (r, d') -> calm d d'.
Proof.
  unfold CancelAsyncOperation.
  destruct (erase_operation op (callback_queue_ _)) as [[x l]|].
  { intros [= <- <-]. by apply calm_frame. }
  destruct (erase_operation op (shutdown_queue_ _)) as [[x l]|] eqn:E.
  { intros [= <- <-]. apply calm_frame; simpl; try done. intros Hn. by rewrite Hn in E. }
  destruct (erase_delayed op _) as [[x l]|]; [|intros [= <- <-]; by apply calm_frame].
  intros H. destruct (ResetTimerLocked loop _) as [d1|] eqn:Et; [|done]. injection H as <- <-.
  eapply ResetTimer_calm; [done|]. by apply calm_frame.
Qed.

Lemma post_delayed_calm loop self task cb id deadline st d d' :
  post_delayed loop self task cb id deadline d = Done (st, d') -> calm d d'.
Proof.
  unfold post_delayed. destruct deadline as [deadline|]; [|intros [= <- <-]; by apply calm_frame].
  destruct (SetCallback _ _ _ _) as [r|]; [|done]. cbn [mbind exec_bind].
  destruct (ResetTimerLocked loop _) as [d1|] eqn:Et; [|done]. intros [= <- <-].
  eapply ResetTimer_calm; [done|]. by apply calm_frame.
Qed.

Lemma waits_calm d reg q wt :
  (state_ d <> kRunning -> waits_ d = [] -> wt = []) ->
  calm d (set_queues reg q (shutdown_queue_ d) wt d).
Proof. intros H. split; simpl; auto. Qed.

Lemma BeginWait_calm loop r d : calm d (BeginWait loop r d).2.
Proof.
  unfold BeginWait, IsRunningLocked.
  destruct (bool_decide_reflect (state_ d = kRunning)); simpl; [|by apply calm_frame].
  destruct (begin_wait_ok loop); [by apply waits_calm|]. apply IdleCheck_calm. by apply calm_frame.
Qed.

Lemma CancelWait_calm loop w r d d' : cancel_wait_request loop w d = Done (r, d') -> calm d d'.
Proof.
  unfold cancel_wait_request. destruct (existsb _ _ && _).
  - unfold RemoveWait. destruct (remove_request w (waits_ _)) as [[x l]|] eqn:E; simpl; [|done].
    intros [= <- <-]. apply IdleCheck_calm, waits_calm. intros _ Hn. by rewrite Hn in E.
  - by eapply CancelAsyncOperation_calm.
Qed.

Lemma QueueWait_calm w b d d' : QueueWait w d = Done (b, d') -> calm d d'.
Proof.
  unfold QueueWait. destruct (remove_request w (waits_ _)) as [[r l]|] eqn:E; [|done].
  unfold IsRunningLocked. destruct (bool_decide_reflect (state_ d = kRunning)); simpl.
  - intros [= <- <-]. by apply waits_calm.
  - intros [= <- <-]. apply IdleCheck_calm. split; simpl; auto; try done.
    intros _ Hn. by rewrite Hn in E.
Qed.

(** In the last phases every thread is on its way out. *)
Lemma finishing_thread s l1 t l2 :
  phase_inv s -> threads s = l1 ++ t :: l2 -> finishing (phase s) = true -> t = TQueueEnd.
Proof.
  intros Hp Ht Hf. destruct (ph_finishing _ Hp Hf) as (_ & _ & _ & Hall).
  rewrite Ht, Forall_app, Forall_cons in Hall. by destruct Hall as (_ & <- & _).
Qed.

Lemma finishing_threads s :
  phase_inv s -> finishing (phase s) = true -> armed s = false /\ Forall (eq TQueueEnd) (threads s).
Proof. intros Hp Hf. by destruct (ph_finishing _ Hp Hf) as (_ & _ & ? & ?). Qed.

Lemma queue_returned b stack id reason o d d' :
  queue_begin b stack id reason d = Done (o, d') -> state_ d <> kRunning -> o = Returned.
Proof.
  unfold queue_begin, IsRunningLocked. simpl. intros H Hs. rewrite bool_decide_false in H by done.
  by injection H as <- <-.
Qed.

Lemma finishing_state s : phase_inv s -> finishing (phase s) = true -> state_ (disp s) <> kRunning.
Proof.
  intros Hp Hf E. pose proof (ph_state _ Hp) as H. rewrite E in H.
  apply phase_state_running in H. by rewrite H in Hf.
Qed.

Lemma cancel_phase s id : phase_inv s -> phase_inv (cancel_callback id s).2.
Proof.
  intros Hp. pose proof (finishing_threads s Hp) as Hft. pose proof (CancelCallback_calm id (disp s)).
  destruct (cancel_callback_cases id s) as [(d & -> & ->)|(r & l1 & l & l' & w & l2 & _ & Ht & _ & ->)];
    apply calm_phase; auto. intros Hf.
  by assert (TBatch l w = TQueueEnd) by by eapply finishing_thread.
Qed.

Lemma shutdown_phase s loop d :
  phase_inv s -> shutdown_begin loop (disp s) = (true, d) ->
  phase_inv (mkSystem d (threads s) (armed s) Registering).
Proof.
  intros [Hst Hev Hsg Hfin Hco Hrn]. unfold shutdown_begin. destruct (state_ (disp s)) eqn:E; try done.
  intros [= <-]. apply phase_state_running in Hst. rewrite Hst in *.
  match goal with |- context [Timer_Cancel loop ?x] =>
    destruct (Timer_Cancel_frame loop x) as [t ->] end.
  split; simpl; try done.
  - intros H. by destruct (Hev H).
  - intros H. destruct Hev; [|done]. by rewrite H, orb_true_r.
Qed.

Lemma register_phase s :
  phase_inv s -> phase s = Registering ->
  phase_inv (mkSystem (RegisterForCompleteShutdownEvent (disp s)) (threads s) (armed s) Waiting).
Proof.
  intros [Hst Hev Hsg Hfin Hco Hrn] Hph. rewrite Hph in *.
  unfold RegisterForCompleteShutdownEvent, ShutdownEvent_Signal. simpl.
  destruct (IsIdleLocked _ && negb _) eqn:E; split; simpl; try done. intros _.
  apply andb_true_iff in E as [Ei Ef].
  apply negb_true_iff, orb_false_iff in Ef as [Ef _]. apply negb_false_iff, bool_decide_eq_true in Ef.
  split; [done|]. apply andb_true_iff in Ei as [_ Ei]. by apply negb_true_iff in Ei.
Qed.

Lemma complete_phase s d :
  phase_inv s -> system_inv s -> complete_begin (armed s) (disp s) = Done d ->
  phase_inv (mkSystem d (threads s) false Completing).
Proof.
  intros Hp Hi. unfold complete_begin.
  destruct (bool_decide_reflect (state_ (disp s) = kShuttingDown)) as [Hs|]; simpl; [|done].
  destruct (IsIdleLocked (disp s) && _) eqn:Ei; simpl; [|done].
  destruct (_ || _); simpl; [|done]. intros [= <-].
  apply andb_true_iff in Ei as [Ei Ef]. unfold IsIdleLocked in Ei.
  apply andb_true_iff in Ei as [Ei _]. apply andb_true_iff in Ei as [Ei _]. apply Z.eqb_eq in Ei.
  unfold HasFutureOpsScheduledLocked in Ef. apply negb_true_iff, orb_false_iff in Ef as [Ef _].
  apply negb_false_iff, bool_decide_eq_true in Ef.
  pose proof (inv_active _ Hi) as Ha. rewrite Ei in Ha.
  assert (threads s = []) as Ht by (destruct (threads s); [done|simpl in Ha; lia]). rewrite Ht.
  split; simpl; auto; try done.
Qed.

Lemma step_phase s e s' : phase_inv s -> system_inv s -> step s e s' -> phase_inv s'.
Proof.
  intros Hp Hi Hstep. pose proof (finishing_threads s Hp) as Hft. destruct Hstep.
  - apply calm_phase; [done| |done]. unfold RegisterCallbackWithoutQueueing in *.
    destruct (negb _); simplify_eq. by apply calm_frame.
  - apply calm_phase; [done|by eapply queue_begin_calm|]. intros Hf.
    destruct (Hft Hf) as [-> Hall]. split; [done|]. apply Forall_app. split; [done|].
    assert (o = Returned) as -> by (eapply queue_returned; [done|by apply finishing_state]).
    by constructor.
  - apply calm_phase; [done|apply direct_end_calm|]. intros Hf.
    by assert (TDirect r = TQueueEnd) by by eapply finishing_thread.
  - apply calm_phase; [done|by apply active_end_calm|]. intros Hf. destruct (Hft Hf) as [-> Hall].
    split; [done|]. rewrite H, Forall_app, Forall_cons in Hall. apply Forall_app. tauto.
  - apply calm_phase; [done|by eapply dispatch_begin_calm|]. intros Hf.
    destruct (Hft Hf). congruence.
  - apply calm_phase; [done|by apply calm_frame|]. intros Hf. destruct (Hft Hf). done.
  - apply calm_phase; [done|by apply calm_frame|]. intros Hf.
    by assert (TBatch (r :: l) w = TQueueEnd) by by eapply finishing_thread.
  - apply calm_phase; [done|by eapply dispatch_end_calm|]. intros Hf.
    by assert (TBatch [] true = TQueueEnd) by by eapply finishing_thread.
  - apply calm_phase; [done|by apply calm_frame|]. intros Hf.
    by assert (TBatch [] false = TQueueEnd) by by eapply finishing_thread.
  - apply calm_phase; [done|by eapply dispatch_defer_calm|]. intros Hf.
    by assert (TBatchEnd w = TQueueEnd) by by eapply finishing_thread.
  - by apply cancel_phase.
  - apply calm_phase; [done| |done]. unfold SetCallbackReason. destruct (existsb _ _); by apply calm_frame.
  - apply calm_phase; [done|by eapply CancelAsyncOperation_calm|done].
  - apply calm_phase; [done|by eapply post_delayed_calm|done].
  - apply calm_phase; [done|by eapply Timer_Handler_calm|done].
  - apply calm_phase; [done|apply BeginWait_calm|done].
  - apply calm_phase; [done|by eapply CancelWait_calm|done].
  - apply calm_phase; [done|by eapply QueueWait_calm|done].
  - by eapply shutdown_phase.
  - by apply register_phase.
  - by apply complete_phase.
  - unfold complete_next in *. destruct (shutdown_queue_ (disp s)) eqn:E; simplify_eq/=.
    destruct Hp as [Hst Hev Hsg Hfin Hco Hrn].
    repeat match goal with H : phase s = _ |- _ => rewrite H in * end. by split.
  - destruct Hp as [Hst Hev Hsg Hfin Hco Hrn].
    repeat match goal with H : phase s = _ |- _ => rewrite H in * end. split; simpl; auto.
  - unfold Destroy in *. destruct (bool_decide_reflect (state_ (disp s) = kShutdown)) as [E|]; simplify_eq/=.
    destruct Hp as [Hst Hev Hsg Hfin Hco Hrn]. split; simpl; auto.
    rewrite E in Hst. destruct (phase s); simpl in *; try done. by right.
Qed.

Lemma step_inv s e s' : system_inv s -> phase_inv s -> step s e s' -> system_inv s'.
Proof.
  intros Hi Hp Hstep. destruct Hstep.
  - apply quiet_inv; [done|]. unfold RegisterCallbackWithoutQueueing, IsRunningLocked in *.
    destruct (bool_decide_reflect (state_ (disp s) = kRunning)); simplify_eq/=. quiet_fields Hi.
  - by eapply queue_inv.
  - by eapply direct_end_inv.
  - by eapply queue_end_inv.
  - by eapply fire_inv.
  - by apply waiter_lost_inv.
  - by eapply thread_inv.
  - by eapply batch_end_inv.
  - by eapply thread_inv.
  - by eapply batch_defer_inv.
  - by apply cancel_inv.
  - by apply quiet_inv, SetCallbackReason_quiet.
  - apply quiet_inv; [done|]. by eapply CancelAsyncOperation_quiet.
  - apply quiet_inv; [done|]. by eapply post_delayed_quiet.
  - by eapply timer_inv.
  - by apply quiet_inv, BeginWait_quiet.
  - apply quiet_inv; [done|]. by eapply CancelWait_quiet.
  - apply quiet_inv; [done|]. by eapply QueueWait_quiet.
  - apply quiet_inv; [done|]. by eapply shutdown_begin_quiet.
  - apply quiet_inv; [done|]. destruct (Register_frame (disp s)) as (v & g & ->). quiet_fields Hi.
  - by apply complete_inv.
  - apply quiet_inv; [done|]. unfold complete_next in *.
    destruct (shutdown_queue_ (disp s)); simplify_eq/=. quiet_fields Hi.
  - apply quiet_inv; [done|]. destruct (decide (state_ (disp s) = kRunning)) as [E|E].
    + exfalso. apply (finishing_state s Hp); [|done]. by rewrite H.
    + split; simpl; try done; destruct (inv_stopped _ Hi); congruence.
  - apply quiet_inv; [done|]. unfold Destroy in *.
    destruct (bool_decide_reflect (state_ (disp s) = kShutdown)); simplify_eq/=.
    split; simpl; try done; destruct (inv_stopped _ Hi); congruence.
Qed.

Lemma initial_phase u a o : phase_inv (initial u a o).
Proof. by split. Qed.

Lemma run_invs u a o tr s : run u a o tr s -> system_inv s /\ phase_inv s.
Proof.
  induction 1 as [|tr s e s' _ [Hi Hp] Hs]; [split; [apply initial_system_inv|apply initial_phase]|].
  split; [by eapply step_inv|by eapply step_phase].
Qed.


(** ** What the sections do to the queue and the delayed tasks *)

Lemma ResetTimer_total loop d : exists t, ResetTimerLocked loop d = Done (set_timer t d).
Proof.
  assert (exists d', ResetTimerLocked loop d = Done d') as [d' E].
  { unfold ResetTimerLocked. destruct (GetNextTimeoutLocked d) as [deadline|]; [|by eexists].
    destruct (match timer_ d with Some _ => _ | None => _ end); [|by eexists].
    unfold Timer_Cancel, Timer_BeginWait, is_armed. destruct (timer_ d) as [t|] eqn:Et; simpl.
    - destruct (cancel_timer_found loop); [by eexists|by eexists].
    - rewrite Et. by eexists. }
  destruct (ResetTimer_frame loop d d' E) as [t ->]. eauto.
Qed.

Lemma insert_sorted_split deadline r l :
  StronglySorted by_deadline l ->
  insert_sorted deadline r l =
    filter (fun p => p.1 <= deadline) l ++ (deadline, r) :: filter (fun p => deadline < p.1) l.
Proof.
  induction 1 as [|[t x] l Hs IH Hf]; simpl; [done|].
  destruct (Z.ltb_spec deadline t) as [Hlt|Hge].
  - rewrite !filter_cons. simpl. rewrite decide_False, decide_True by lia.
    assert (Forall (fun p => deadline < p.1) l) as Hall.
    { eapply Forall_impl; [exact Hf|]. unfold by_deadline. simpl. intros ? ?. lia. }
    rewrite (list_filter_all (fun p => deadline < p.1)) by done.
    rewrite list_filter_none; [done|]. eapply Forall_impl; [exact Hall|]. simpl. intros ? ?. lia.
  - rewrite IH, !filter_cons. simpl. by rewrite decide_True, decide_False by lia.
Qed.

Lemma split_done_filter now l :
  StronglySorted by_deadline l ->
  split_done now l = (filter (fun p => p.1 <= now) l, filter (fun p => now < p.1) l).
Proof.
  intros Hs. pose proof (split_done_spec now l Hs) as H. destruct (split_done now l) as [due later].
  destruct H as (-> & Hd & Hl & _). rewrite !filter_app.
  rewrite (list_filter_all _ due Hd), (list_filter_all _ later Hl).
  rewrite list_filter_none; [rewrite list_filter_none; [by rewrite app_nil_r|]|].
  - eapply Forall_impl; [exact Hd|]. simpl. intros ? ?. lia.
  - eapply Forall_impl; [exact Hl|]. simpl. intros ? ?. lia.
Qed.

(** ** Theorems *)

(** A thread inside callbacks of the dispatcher's owner. *)
Definition in_callback (t : Thread) : bool :=
  match t with TDirect _ | TBatch _ _ => true | _ => false end.

(** The callbacks of the owner that are running: on the threads that queue and dispatch, and the
    cancellation callback of [CompleteShutdown], which runs outside the lock between the rounds of
    its loop. *)
Definition callbacks_running (s : System) : Z :=
  count in_callback (threads s) + b2z (bool_decide (phase s = Completing)).

Lemma count_in_callback l :
  count passed_on l = 0 -> count in_callback l <= count is_running l.
Proof.
  induction l as [|t l IH]; [simpl; lia|]. pose proof (threads_nonneg passed_on l).
  destruct t as [r| |to_call [|]|[|]]; simpl; lia.
Qed.

Lemma count_in_callback_ended l : Forall (eq TQueueEnd) l -> count in_callback l = 0.
Proof. induction 1 as [|t l <- _ IH]; simpl; lia. Qed.

Lemma callbacks_running_bound s :
  system_inv s -> phase_inv s -> unsynchronized_ (disp s) = false -> callbacks_running s <= 1.
Proof.
  intros Hi Hp Hu. unfold callbacks_running. destruct (inv_sync _ Hi Hu) as [Hrun Hpass].
  case_bool_decide as Hc; simpl.
  - destruct (ph_finishing _ Hp) as (_ & _ & _ & Hall); [by rewrite Hc|].
    by rewrite count_in_callback_ended.
  - pose proof (count_in_callback _ Hpass). pose proof (b2z_range (dispatching_sync_ (disp s))). lia.
Qed.

(** A call shows in the state it leads to: on one of the threads, or, for a cancellation, in the
    phase of [CompleteShutdown]. *)
Lemma called_where s r st s' :
  phase_inv s -> step s (EvCalled r st) s' ->
  1 <= callbacks_running s' /\ (phase s' = Completing <-> st = ZX_ERR_CANCELED) /\
  unsynchronized_ (disp s') = unsynchronized_ (disp s).
Proof.
  intros Hp Hs. unfold callbacks_running. remember (EvCalled r st) as e eqn:He.
  assert (forall t l1 l2, threads s = l1 ++ t :: l2 -> t <> TQueueEnd -> phase s <> Completing) as Hnc.
  { intros t l1 l2 Ht Hq Hc. apply Hq. apply (finishing_thread s l1 t l2 Hp Ht). by rewrite Hc. }
  destruct Hs; try discriminate He; simpl.
  - destruct o; [discriminate He|]. injection He as <- <-. unfold queue_begin in H.
    destruct (negb (IsRunningLocked _)) eqn:Er; [by simplify_eq|].
    apply negb_false_iff, bool_decide_eq_true in Er. simpl in Er.
    assert (phase s <> Completing) as Hne.
    { intros Hc. apply (finishing_state s Hp); [by rewrite Hc|done]. }
    rewrite (bool_decide_false _ Hne), count_app. pose proof (threads_nonneg in_callback (threads s)).
    simpl. split_and!; [lia|naive_solver|].
    destruct (remove_request _ _) as [[r' l]|]; [|by destruct (_ || _)].
    simpl in H. destruct (_ && _) in H; simplify_eq/=; done.
  - injection He as <- <-. assert (phase s <> Completing) as Hne by by eapply Hnc.
    rewrite (bool_decide_false _ Hne), count_app. simpl.
    pose proof (threads_nonneg in_callback l1). pose proof (threads_nonneg in_callback l2).
    split_and!; [lia|naive_solver|done].
  - unfold dropped in He. by destruct ((cancel_callback id s).1).
  - by destruct r0.
  - unfold post_event in He. by destruct deadline.
  - unfold wait_event in He. by destruct (decide _).
  - by destruct r0.
  - injection He as <- <-. pose proof (threads_nonneg in_callback (threads s)).
    split_and!; [lia|done|].
    unfold complete_next in *. destruct (shutdown_queue_ (disp s)); simplify_eq/=; done.
Qed.

(** C1. A synchronized dispatcher never runs two callbacks of its owner at once, whatever mix of
    direct calls, batches, timers, cancellations and shutdown led to the state: of the callbacks on
    the threads that queue and dispatch and the cancellation callbacks of [CompleteShutdown] at
    most one is running. Every call a step makes is counted there, alone, and the calls made with
    [ZX_ERR_CANCELED] are those of [CompleteShutdown]. *)
Theorem synchronized_exclusive u a o tr s :
  run u a o tr s -> unsynchronized_ (disp s) = false ->
  callbacks_running s <= 1 /\
  forall r st s', step s (EvCalled r st) s' ->
    callbacks_running s' = 1 /\ (phase s' = Completing <-> st = ZX_ERR_CANCELED).
Proof.
  intros Hr Hu. destruct (run_invs _ _ _ _ _ Hr) as [Hi Hp].
  split; [by apply callbacks_running_bound|]. intros r st s' Hs.
  destruct (called_where _ _ _ _ Hp Hs) as (H1 & Hc & Hu').
  destruct (run_invs _ _ _ _ _ (run_step _ _ _ _ _ _ _ Hr Hs)) as [Hi' Hp'].
  pose proof (callbacks_running_bound s' Hi' Hp' ltac:(by rewrite Hu')). split; [lia|done].
Qed.

(** The sections of a thread that owns the event waiter leave the event signaled while there are
    callbacks in the queue. *)
Lemma waiter_sections_keep_signal loop d :
  callback_queue_ d <> [] -> signaled d = true ->
  (exists d', dispatch_end loop d = Done d' /\ signaled d' = true /\
     callback_queue_ d' = callback_queue_ d) /\
  (0 < num_active_threads_ d -> exists d', dispatch_defer loop true d = Done d' /\
     callback_queue_ d' = callback_queue_ d /\ (begin_wait_ok loop = true -> signaled d' = true)).
Proof.
  intros Hq Hsig. split.
  - unfold dispatch_end. destruct (ResetTimer_total loop (set_dispatching false d)) as [t ->]. simpl.
    rewrite bool_decide_false by done. eexists; split; [done|]. by simpl.
  - intros Ha. unfold dispatch_defer, active_end.
    destruct (begin_wait_ok loop); simpl; rewrite (proj2 (Z.ltb_lt _ _)) by done; simpl;
      eexists; (split; [done|]);
      match goal with |- context [IdleCheckLocked ?x] => destruct (IdleCheck_frame x) as (v & g & ->) end;
      done.
Qed.

(** C35. No wakeup is lost: take a running dispatcher that holds a queued callback and still has its
    event waiter (a waiter is dropped when the loop reports an error or refuses the next wait).
    Either a thread is inside a direct call, whose end signals the event; or the event is signaled
    and the loop waits for it, and its next dispatch runs a batch that starts with the callback;
    or the event is signaled and a thread owns the waiter, whose remaining sections keep the
    callback in the queue and the event signaled for the wait it begins. *)
Theorem queued_callback_not_forgotten u a o tr s r rest :
  run u a o tr s -> state_ (disp s) = kRunning -> event_waiter_ (disp s) <> None ->
  callback_queue_ (disp s) = r :: rest ->
  (exists t, t ∈ threads s /\ is_direct t = true) /\ signaled (queue_direct_end (disp s)) = true \/
  signaled (disp s) = true /\
  (armed s = true /\
     (forall loop, exists l w d, dispatch_begin loop (disp s) = (Run (r :: l) w, d)) \/
   (exists t, t ∈ threads s /\ holds_waiter t = true) /\
     forall loop,
       (exists d, dispatch_end loop (disp s) = Done d /\ signaled d = true /\
          callback_queue_ d = r :: rest) /\
       (exists d, dispatch_defer loop true (disp s) = Done d /\ callback_queue_ d = r :: rest /\
          (begin_wait_ok loop = true -> signaled d = true))).
Proof.
  intros [Hi _]%run_invs Hs Hw Hq.
  destruct (decide (0 < count is_direct (threads s))) as [Hd|Hd].
  { left. split; [apply threads_pos, Hd|]. unfold queue_direct_end, IsRunningLocked. simpl.
    rewrite Hq, Hs. simpl. unfold wake. simpl. destruct (event_waiter_ (disp s)) as [[|]|] eqn:E; [|done..].
    unfold signaled. simpl. by rewrite E. }
  right. assert (event_waiter_ (disp s) = Some true) as Hsig.
  { destruct (event_waiter_ (disp s)) as [[|]|] eqn:E; [done| |done].
    exfalso. apply Hd. apply (inv_wake _ Hi); [done..|by rewrite Hq]. }
  assert (signaled (disp s) = true) as Hsg by (unfold signaled; by rewrite Hsig). split; [done|].
  destruct (decide (0 < count holds_waiter (threads s))) as [Hh|Hh].
  { right. destruct (threads_pos _ _ Hh) as (t & Ht & E). split; [eauto|]. intros loop. rewrite <- Hq.
    destruct (waiter_sections_keep_signal loop (disp s)) as [He Hf]; [by rewrite Hq|done|].
    split; [exact He|]. apply Hf. rewrite (inv_active _ Hi).
    destruct (threads s); [by apply elem_of_nil in Ht|simpl; lia]. }
  left. pose proof (threads_nonneg holds_waiter (threads s)).
  pose proof (inv_waiter _ Hi) as Ha. rewrite (bool_decide_true _ Hw) in Ha. simpl in Ha.
  split; [destruct (armed s); [done|simpl in Ha; lia]|]. intros loop.
  assert (unsynchronized_ (disp s) = false -> dispatching_sync_ (disp s) = false) as Hfree.
  { intros Hu. destruct (inv_sync _ Hi Hu) as [Hrun Hp]. pose proof (count_running _ Hp).
    destruct (dispatching_sync_ (disp s)); [simpl in Hrun; lia|done]. }
  unfold dispatch_begin, IsRunningLocked. simpl. rewrite Hs, Hq.
  replace (negb (unsynchronized_ (disp s)) && dispatching_sync_ (disp s)) with false
    by (destruct (unsynchronized_ (disp s)); [done|by rewrite Hfree]).
  simpl. destruct (take_batch_head (unsynchronized_ (disp s)) 9 r rest) as (l & m & E).
  change kBatchSize with 10%nat. rewrite E. destruct (_ && _); eauto.
Qed.

(** Delayed tasks: when the timer of a running dispatcher fires, the tasks whose deadline has
    passed are queued, in the order of their deadlines, and the others stay; a newly posted task
    goes after the tasks with the same or an earlier deadline. *)
Theorem delayed_tasks_in_order u a o tr s loop now :
  run u a o tr s -> state_ (disp s) = kRunning ->
  (exists d, Timer_Handler loop now (disp s) = Done d /\
     callback_queue_ d = callback_queue_ (disp s) ++
       (filter (fun p => p.1 <= now) (delayed_tasks_ (disp s))).*2 /\
     delayed_tasks_ d = filter (fun p => now < p.1) (delayed_tasks_ (disp s))) /\
  StronglySorted by_deadline (delayed_tasks_ (disp s)) /\
  forall deadline r,
    delayed_tasks_ (InsertDelayedTaskSortedLocked deadline r (disp s)) =
      filter (fun p => p.1 <= deadline) (delayed_tasks_ (disp s)) ++
      (deadline, r) :: filter (fun p => deadline < p.1) (delayed_tasks_ (disp s)).
Proof.
  intros [Hi _]%run_invs Hs. pose proof (inv_delayed _ Hi) as Hd. split_and!; [|done|].
  2: { intros deadline r. by apply insert_sorted_split. }
  unfold Timer_Handler, CheckDelayedTasksLocked, IsRunningLocked. simpl. rewrite Hs. simpl.
  rewrite split_done_filter by done.
  destruct (filter (fun p => p.1 <= now) _) as [|p due] eqn:E.
  - destruct (ResetTimer_total loop (set_timer None (disp s))) as [t ->]. eexists; split; [done|].
    simpl. rewrite app_nil_r. split; [done|]. pose proof (split_done_filter now _ Hd) as Hf.
    pose proof (split_done_spec now _ Hd) as Hsp. rewrite Hf, E in Hsp. by destruct Hsp as (? & _).
  - eexists; split; [done|].
    match goal with |- context [wake ?x] => destruct (wake_frame x) as (w & -> & _) end. done.
Qed.

(** The assertions of [CompleteShutdown], once the shutdown event is signaled: they hold exactly
    when no thread is inside [QueueRegisteredCallback] or [DispatchCallbacks] and no timer was
    armed since. *)
Theorem complete_shutdown_asserts u a o tr s :
  run u a o tr s -> phase s = Waiting -> shutdown_signaled (disp s) = true ->
  (exists d, complete_begin (armed s) (disp s) = Done d) <->
  threads s = [] /\ timer_ (disp s) = None.
Proof.
  intros [Hi Hp]%run_invs Hph Hsig. destruct (ph_signaled _ Hp Hsig) as [Hw Hns].
  pose proof (ph_state _ Hp) as Hst. rewrite Hph in Hst. simpl in Hst.
  assert (state_ (disp s) <> kRunning) as Hnr by (by rewrite Hst).
  destruct (inv_stopped _ Hi Hnr) as [_ Hq]. pose proof (inv_active _ Hi) as Ha.
  unfold complete_begin, IsIdleLocked, HasFutureOpsScheduledLocked, is_armed.
  rewrite Hst, Hw, Hns, Hq, Ha. simpl. rewrite !andb_true_r.
  destruct (threads s) as [|t ts] eqn:Et; simpl.
  - pose proof (inv_waiter _ Hi) as Hwt. rewrite Et in Hwt. simpl in Hwt.
    destruct (timer_ (disp s)); simpl; [split; [by intros [? ?]|by intros [_ ?]]|].
    split; [done|]. intros _. destruct (event_waiter_ (disp s)) eqn:Ee; simpl in *; [|eauto].
    destruct (armed s); simpl in *; [eauto|lia].
  - split; [by intros [? ?]|by intros [? _]].
Qed.

(** ** Concrete runs *)

Module DispatcherExample.
Export BatchExample.

(** The call stack of a thread that runs driver 2. *)
Definition stack2 : list Entry := [mkEntry 2 None].

Definition is_done {A} (x : exec A) : bool := match x with Done _ => true | Panic => false end.
Definition get {A} (default : A) (x : exec A) : A := match x with Done a => a | Panic => default end.

Definition after_register (r : CallbackRequest) (s : System) : System :=
  mkSystem (RegisterCallbackWithoutQueueing r (disp s)).2 (threads s) (armed s) (phase s).
Definition after_queue (stack : list Entry) (id : Z) (s : System) : System :=
  let '(o, d) := get (Returned, disp s) (queue_begin (in_to_call id s) stack id ZX_OK (disp s)) in
  mkSystem d (threads s ++ [queue_thread o]) (armed s) (phase s).
Definition after_post (id deadline : Z) (s : System) : System :=
  mkSystem (get (ZX_OK, disp s) (post_delayed loop0 1 id 9 id (Some deadline) (disp s))).2
    (threads s) (armed s) (phase s).
Definition after_fire (s : System) : System :=
  let '(o, d) := dispatch_begin loop0 (disp s) in
  mkSystem d (threads s ++ [batch_thread o])
    (match o with Run _ false => begin_wait_ok loop0 | _ => false end) (phase s).
Definition after_shutdown (s : System) : System :=
  mkSystem (shutdown_begin loop0 (disp s)).2 (threads s) (armed s) Registering.
Definition after_event (s : System) : System :=
  mkSystem (RegisterForCompleteShutdownEvent (disp s)) (threads s) (armed s) Waiting.

Section runs.
Context {u a : bool} {o : Z}.

Lemma run_register tr s r :
  run u a o tr s -> IsRunningLocked (disp s) = true ->
  run u a o (tr ++ [EvAccepted r]) (after_register r s).
Proof.
  intros H Hr. eapply run_step; [done|]. apply step_register.
  unfold RegisterCallbackWithoutQueueing. by rewrite Hr.
Qed.

Lemma run_queue tr s stack id :
  run u a o tr s -> is_done (queue_begin (in_to_call id s) stack id ZX_OK (disp s)) = true ->
  run u a o (tr ++ [queue_event (get (Returned, disp s)
    (queue_begin (in_to_call id s) stack id ZX_OK (disp s))).1]) (after_queue stack id s).
Proof.
  intros H Hd. eapply run_step; [done|]. unfold after_queue.
  destruct (queue_begin _ _ _ _ _) as [[o' d]|] eqn:E; [|done]. by eapply step_queue.
Qed.

Lemma run_post tr s id deadline :
  run u a o tr s -> 
  run u a o (tr ++ [post_event 1 id 9 id (Some deadline)]) (after_post id deadline s).
Proof.
  intros H. eapply run_step; [done|]. unfold after_post.
  destruct (post_delayed _ _ _ _ _ _ _) as [[st d]|] eqn:E.
  - by eapply step_post_delayed.
  - exfalso. unfold post_delayed in E. simpl in E.
    match type of E with context [ResetTimerLocked ?l ?x] =>
      destruct (ResetTimer_total l x) as [t Ht]; rewrite Ht in E end. done.
Qed.

Lemma run_fire tr s :
  run u a o tr s -> armed s = true -> signaled (disp s) = true ->
  run u a o (tr ++ [EvTau]) (after_fire s).
Proof.
  intros H Ha Hs. eapply run_step; [done|]. unfold after_fire.
  destruct (dispatch_begin _ _) as [o' d] eqn:E. by eapply step_fire.
Qed.
End runs.

(** Read 5 is called directly from driver 2; read 6, from an unknown thread, is queued. *)
Definition direct_and_queued : System :=
  after_queue [] 6 (after_queue stack2 5 (after_register (req 6) (after_register (req 5)
    (initial false false 1)))).

Definition direct_and_queued_trace : list Event :=
  [EvAccepted (req 5); EvAccepted (req 6);
   EvCalled (CallbackRequest_SetCallbackReason ZX_OK (req 5)) ZX_OK; EvTau].

Lemma direct_and_queued_run : run false false 1 direct_and_queued_trace direct_and_queued.
Proof.
  refine (run_queue _ _ [] 6 (run_queue _ _ stack2 5 (run_register _ _ (req 6)
    (run_register _ _ (req 5) (run_initial _ _ _) _) _) _) _); reflexivity.
Qed.

(** Shutting down an idle dispatcher, up to the signal of the shutdown event. *)
Definition shutdown_waiting : System := after_event (after_shutdown (initial false false 1)).

Lemma shutdown_waiting_run : run false false 1 [EvTau; EvTau] shutdown_waiting.
Proof.
  apply (run_step _ _ _ [EvTau] (after_shutdown (initial false false 1))); [|by apply step_shutdown_event].
  apply (run_step _ _ _ [] (initial false false 1)); [apply run_initial|].
  by apply (step_shutdown _ loop0).
Qed.

(** The thread of the direct call, the first of [direct_and_queued]. *)
Definition direct5 : Thread := TDirect (CallbackRequest_SetCallbackReason ZX_OK (req 5)).

Lemma synchronized_exclusive_witness :
  threads direct_and_queued = [direct5; TQueueEnd] /\ callbacks_running direct_and_queued = 1 /\
  forall r st s', step direct_and_queued (EvCalled r st) s' ->
    callbacks_running s' = 1 /\ (phase s' = Completing <-> st = ZX_ERR_CANCELED).
Proof.
  split; [reflexivity|]. split; [reflexivity|].
  apply (synchronized_exclusive _ _ _ _ _ direct_and_queued_run). reflexivity.
Defined.

(** Read 6 alone, queued from an unknown thread that has left again. *)
Definition queued6 : System := Eval vm_compute in
  let s := after_queue [] 6 (after_register (req 6) (initial false false 1)) in
  mkSystem (get (disp s) (active_end (disp s))) [] true NotShutDown.

Lemma queued6_run : exists tr, run false false 1 tr queued6.
Proof.
  set (s := after_queue [] 6 (after_register (req 6) (initial false false 1))).
  eexists. eapply (run_step _ _ _ _ s EvTau); [|by apply (step_queue_end s [] [])].
  refine (run_queue _ _ [] 6 (run_register _ _ (req 6) (run_initial _ _ _) _) _); reflexivity.
Qed.

Lemma queued_callback_not_forgotten_witness :
  armed queued6 = true /\
  forall loop, exists l w d, dispatch_begin loop (disp queued6)
    = (Run (CallbackRequest_SetCallbackReason ZX_OK (req 6) :: l) w, d).
Proof.
  destruct queued6_run as [tr Hrun].
  destruct (queued_callback_not_forgotten _ _ _ _ _ _ [] Hrun eq_refl ltac:(done) eq_refl)
    as [[(t & Ht & _) _]|[_ [H|[(t & Ht & _) _]]]]; [|exact H|];
    exfalso; by apply elem_of_nil in Ht.
Defined.

Definition two_delayed : System := after_post 8 50 (after_post 7 100 (initial false false 1)).

Definition two_delayed_trace : list Event :=
  [EvAccepted (mkRequest 7 kTask (Some 1) (Some 9) None (Some 7));
   EvAccepted (mkRequest 8 kTask (Some 1) (Some 9) None (Some 8))].

Lemma two_delayed_run : run false false 1 two_delayed_trace two_delayed.
Proof. refine (run_post _ _ 8 50 (run_post _ _ 7 100 (run_initial _ _ _))). Qed.

Lemma delayed_tasks_in_order_witness :
  exists d, Timer_Handler loop0 60 (disp two_delayed) = Done d /\
    callback_queue_ d = [] ++ (filter (fun p => p.1 <= 60) (delayed_tasks_ (disp two_delayed))).*2 /\
    delayed_tasks_ d = filter (fun p => 60 < p.1) (delayed_tasks_ (disp two_delayed)).
Proof.
  apply (delayed_tasks_in_order _ _ _ _ _ loop0 60 two_delayed_run). reflexivity.
Defined.

Lemma complete_shutdown_asserts_witness :
  (exists d, complete_begin (armed shutdown_waiting) (disp shutdown_waiting) = Done d) <->
  threads shutdown_waiting = [] /\ timer_ (disp shutdown_waiting) = None.
Proof. apply (complete_shutdown_asserts _ _ _ _ _ shutdown_waiting_run); reflexivity. Defined.

(** [CompleteShutdown] can abort on its assertion: after the shutdown event is signaled, a thread
    entering [QueueRegisteredCallback] counts as active before it finds that the dispatcher is
    not running. *)
Theorem complete_shutdown_race :
  exists tr s, run false false 1 tr s /\ phase s = Waiting /\ shutdown_signaled (disp s) = true /\
    complete_begin (armed s) (disp s) = Panic.
Proof.
  exists [EvTau; EvTau; EvTau], (after_queue [] 5 shutdown_waiting).
  split; [|split_and!; vm_compute; reflexivity].
  refine (run_queue _ _ [] 5 shutdown_waiting_run _). reflexivity.
Qed.

(** [PostTask] accepts a delayed task after shutting down has begun, which neither the shutdown
    queue nor the timer then serves: its timer makes [CompleteShutdown] abort. *)
Theorem delayed_task_after_shutdown :
  exists tr s d, run false false 1 tr s /\ state_ (disp s) = kShuttingDown /\
    post_delayed loop0 1 7 9 7 (Some 100) (disp s) = Done (ZX_OK, d) /\
    shutdown_signaled d = true /\ complete_begin (armed s) d = Panic.
Proof.
  exists [EvTau; EvTau], shutdown_waiting, (disp (after_post 7 100 shutdown_waiting)).
  split; [apply shutdown_waiting_run|]. split_and!; vm_compute; reflexivity.
Qed.

(** The event fires during the direct call, read 6 is cancelled, then every thread leaves. *)
Definition stranded0 : System := Eval vm_compute in after_fire (after_post 7 100 direct_and_queued).
Definition stranded1 : System := Eval vm_compute in
  (cancel_callback 6 stranded0).2.
Definition stranded2 : System := Eval vm_compute in
  mkSystem (queue_direct_end (disp stranded1)) [TQueueEnd; TQueueEnd; TBatchEnd true] false NotShutDown.
Definition stranded3 : System := Eval vm_compute in
  mkSystem (get (disp stranded2) (active_end (disp stranded2))) [TQueueEnd; TBatchEnd true] false
    NotShutDown.
Definition stranded4 : System := Eval vm_compute in
  mkSystem (get (disp stranded3) (active_end (disp stranded3))) [TBatchEnd true] false NotShutDown.
Definition stranded : System := Eval vm_compute in
  mkSystem (get (disp stranded4) (dispatch_defer loop0 true (disp stranded4))) [] true NotShutDown.

Lemma stranded_run : exists tr, run false false 1 tr stranded.
Proof.
  eexists. eapply (run_step _ _ _ _ stranded4 EvTau);
    [|by apply (step_defer stranded4 loop0 [] true [])].
  eapply (run_step _ _ _ _ stranded3 EvTau);
    [|by apply (step_queue_end stranded3 [] [TBatchEnd true])].
  eapply (run_step _ _ _ _ stranded2 EvTau);
    [|by apply (step_queue_end stranded2 [] [TQueueEnd; TBatchEnd true])].
  eapply (run_step _ _ _ _ stranded1 EvTau);
    [|by apply (step_direct_end stranded1 [] (CallbackRequest_SetCallbackReason ZX_OK (req 5))
       [TQueueEnd; TBatchEnd true])].
  eapply (run_step _ _ _ _ stranded0 (dropped (cancel_callback 6 stranded0).1));
    [|apply (step_cancel stranded0)].
  change stranded0 with (after_fire (after_post 7 100 direct_and_queued)).
  apply run_fire; [|reflexivity..]. apply run_post, direct_and_queued_run.
Qed.

(** A delayed task can be stranded: on a synchronized dispatcher that is in a direct call, with
    a callback queued behind it, a task is posted (its timer is not armed, as the queue is not
    empty), the event fires and is put off, and the queued callback is cancelled. The direct call
    ends with an empty queue, and nothing arms the timer: the dispatcher is idle with a pending
    task and no timer. *)
Theorem stranded_delayed_task :
  exists tr s, run false false 1 tr s /\ state_ (disp s) = kRunning /\ threads s = [] /\
    IsIdleLocked (disp s) = true /\ timer_ (disp s) = None /\ delayed_tasks_ (disp s) <> [].
Proof.
  destruct stranded_run as [tr Hrun]. exists tr, stranded. split; [exact Hrun|].
  split_and!; vm_compute; done.
Qed.

End DispatcherExample.
