(* ===== verification/DispatcherTrace.v ===== *)
(** * DispatcherTrace: every request is called or handed back once

    The requests a dispatcher and its threads hold, followed along the runs of [DispatcherRun]: what
    was accepted is what was called or taken back, each request once, and what is still held. When
    shutting down is complete nothing is held but delayed tasks. *)
From Stdlib Require Import ZArith Lia.
From stdpp Require Import prelude.
From S2P Require Import Prelude Dispatcher DispatcherRun.

Local Open Scope Z_scope.

Definition thread_requests (t : Thread) : list CallbackRequest :=
  match t with TBatch l _ => l | _ => [] end.

Definition held (d : Dispatcher) : list CallbackRequest :=
  registered_callbacks_ d ++ callback_queue_ d ++ shutdown_queue_ d ++ waits_ d ++
  (delayed_tasks_ d).*2.

(** The requests accepted and not yet called or handed back, by identity. *)
Definition pending (s : System) : list Z :=
  request_id <$> held (disp s) ++ flat_map thread_requests (threads s).

Definition accepted_by (e : Event) : list Z :=
  match e with EvAccepted r => [request_id r] | _ => [] end.

Definition finished_by (e : Event) : list Z :=
  match e with EvCalled r _ | EvDropped r => [request_id r] | _ => [] end.

Definition accepted (tr : list Event) : list Z := flat_map accepted_by tr.
Definition finished (tr : list Event) : list Z := flat_map finished_by tr.

(** ** Counting occurrences *)

Definition occ (x : Z) (l : list Z) : nat := count_occ Z.eq_dec l x.

#[global] Arguments occ : simpl never.

(** Occurrences among requests. *)
Definition cnt (x : Z) (l : list CallbackRequest) : nat := occ x (request_id <$> l).

Lemma cnt_app x l1 l2 : cnt x (l1 ++ l2) = (cnt x l1 + cnt x l2)%nat.
Proof. unfold cnt, occ. by rewrite fmap_app, count_occ_app. Qed.

Lemma cnt_cons x r l : cnt x (r :: l) = (cnt x [r] + cnt x l)%nat.
Proof. apply (cnt_app x [r]). Qed.

Lemma occ_app x l1 l2 : occ x (l1 ++ l2) = (occ x l1 + occ x l2)%nat.
Proof. apply count_occ_app. Qed.

Lemma occ_nil x : occ x [] = 0%nat.
Proof. done. Qed.

Lemma cnt_nil x : cnt x [] = 0%nat.
Proof. done. Qed.

Definition load (x : Z) (d : Dispatcher) : nat := cnt x (held d).
Definition tload (x : Z) (l : list Thread) : nat := cnt x (flat_map thread_requests l).

Lemma tload_app x l1 l2 : tload x (l1 ++ l2) = (tload x l1 + tload x l2)%nat.
Proof. unfold tload. by rewrite flat_map_app, cnt_app. Qed.

Lemma tload_cons x t l : tload x (t :: l) = (cnt x (thread_requests t) + tload x l)%nat.
Proof. unfold tload. simpl. by rewrite cnt_app. Qed.

Lemma tload_nil x : tload x [] = 0%nat.
Proof. done. Qed.

#[local] Create Rewrite HintDb cnt.
#[local] Hint Rewrite cnt_app cnt_nil occ_app occ_nil tload_app tload_cons tload_nil : cnt.

Lemma load_eq x d :
  load x d = (cnt x (registered_callbacks_ d) + cnt x (callback_queue_ d) +
    cnt x (shutdown_queue_ d) + cnt x (waits_ d) + cnt x (delayed_tasks_ d).*2)%nat.
Proof. unfold load, held. rewrite !cnt_app. lia. Qed.

Lemma cnt_same x r r' : request_id r = request_id r' -> cnt x [r] = cnt x [r'].
Proof. unfold cnt. simpl. by intros ->. Qed.

Lemma cnt_remove x id l r l' :
  remove_request id l = Some (r, l') -> cnt x l = (cnt x [r] + cnt x l')%nat.
Proof.
  intros (l1 & l2 & -> & ->)%remove_request_Some. rewrite !cnt_app, (cnt_cons x r l2). lia.
Qed.

Lemma cnt_erase x op l r l' :
  erase_operation op l = Some (r, l') -> cnt x l = (cnt x [r] + cnt x l')%nat.
Proof.
  revert l'. induction l as [|y l IH]; intros l'; simpl; [done|].
  destruct (holds_async_operation op y); [intros [= -> ->]; apply cnt_cons|].
  intros ([r' l''] & H & [= -> <-])%bind_Some. rewrite (cnt_cons x y l), (cnt_cons x y l''), (IH l'' H). lia.
Qed.

Lemma cnt_erase_delayed x op l r l' :
  erase_delayed op l = Some (r, l') -> cnt x l.*2 = (cnt x [r] + cnt x l'.*2)%nat.
Proof.
  revert l'. induction l as [|[t y] l IH]; intros l'; csimpl; [done|].
  destruct (holds_async_operation op y); [intros [= -> ->]; apply cnt_cons|].
  intros ([r' l''] & H & [= -> <-])%bind_Some. csimpl.
  rewrite (cnt_cons x y l.*2), (cnt_cons x y l''.*2), (IH l'' H). lia.
Qed.

Lemma cnt_insert x deadline r l : cnt x (insert_sorted deadline r l).*2 = (cnt x [r] + cnt x l.*2)%nat.
Proof.
  induction l as [|[t y] l IH]; csimpl; [done|]. destruct (deadline <? t); csimpl; [apply cnt_cons|].
  rewrite (cnt_cons x y l.*2), (cnt_cons x y (_ <$> insert_sorted _ _ _)), IH. lia.
Qed.

Lemma cnt_split x now l :
  cnt x l.*2 = (cnt x (split_done now l).1.*2 + cnt x (split_done now l).2.*2)%nat.
Proof.
  induction l as [|[t y] l IH]; csimpl; [done|]. destruct (now <? t); csimpl; [done|].
  destruct (split_done now l) as [a b]. csimpl in *. rewrite (cnt_cons x y l.*2), (cnt_cons x y a.*2), IH. lia.
Qed.

Lemma cnt_partition x (f : CallbackRequest -> bool) l :
  cnt x l = (cnt x (filter (fun r => f r = true) l) + cnt x (filter (fun r => f r = false) l))%nat.
Proof.
  rewrite <- cnt_app. unfold cnt, occ. apply (Permutation_count_occ Z.eq_dec).
  by rewrite filter_partition.
Qed.

Lemma cnt_reason x id reason l :
  cnt x (map (fun r => if has_id id r then CallbackRequest_SetCallbackReason reason r else r) l) = cnt x l.
Proof.
  unfold cnt. f_equal. induction l as [|r l IH]; simpl; [done|]. f_equal; [|done].
  by destruct (has_id id r).
Qed.

(** ** The load of the sections *)

Lemma load_IdleCheck x d : load x (IdleCheckLocked d) = load x d.
Proof. by destruct (IdleCheck_frame d) as (v & g & ->). Qed.

Lemma load_wake x d : load x (wake d) = load x d.
Proof. by destruct (wake_frame d) as (w & -> & _). Qed.

Lemma load_ResetTimer x loop d d' : ResetTimerLocked loop d = Done d' -> load x d' = load x d.
Proof. by intros [t ->]%ResetTimer_frame. Qed.

Lemma load_active_end x d d' : active_end d = Done d' -> load x d' = load x d.
Proof. by intros (v & g & ->)%active_end_frame. Qed.

#[local] Hint Rewrite load_IdleCheck load_wake : cnt.

Ltac load_solve := autorewrite with cnt; rewrite ?load_eq in *; simpl; autorewrite with cnt; try lia.

Lemma load_queue x b stack id reason o d d' :
  queue_begin b stack id reason d = Done (o, d') ->
  load x d = (load x d' + occ x (finished_by (queue_event o)))%nat.
Proof.
  unfold queue_begin. simpl. destruct (negb _); [intros [= <- <-]; load_solve|].
  destruct (remove_request id _) as [[r l]|] eqn:Er.
  2: { destruct (_ || _); [done|]. intros [= <- <-]. load_solve. }
  apply (cnt_remove x) in Er.
  rewrite (cnt_same x r (CallbackRequest_SetCallbackReason reason r) eq_refl) in Er.
  destruct (_ && _ && _); intros [= <- <-]; load_solve. unfold cnt in Er at 2.
  simpl in *. lia.
Qed.

Lemma load_direct_end x d : load x (queue_direct_end d) = load x d.
Proof. unfold queue_direct_end. destruct (_ && _); by rewrite ?load_wake. Qed.

Lemma load_fire x loop o d d' :
  dispatch_begin loop d = (o, d') -> load x d = (load x d' + cnt x (thread_requests (batch_thread o)))%nat.
Proof.
  unfold dispatch_begin. simpl. destruct (_ || _); [intros [= <- <-]; load_solve|].
  destruct (take_batch _ _ _ _) as [l m] eqn:E.
  destruct (take_batch_spec _ _ _ _ _ _ E) as (Hq & _).
  destruct (_ && _); [destruct (begin_wait_ok loop)|]; intros [= <- <-]; load_solve; rewrite Hq;
    load_solve.
Qed.

Lemma load_dispatch_end x loop d d' : dispatch_end loop d = Done d' -> load x d' = load x d.
Proof.
  unfold dispatch_end. destruct (ResetTimerLocked loop _) as [d1|] eqn:E; [|done].
  apply (load_ResetTimer x) in E. intros [= <-]. transitivity (load x d1); [|done].
  by destruct (_ && _).
Qed.

Lemma load_defer x loop w d d' : dispatch_defer loop w d = Done d' -> load x d' = load x d.
Proof. intros ->%(load_active_end x). by destruct (_ && _). Qed.

Lemma load_cancel x id d :
  load x d = (load x (CancelCallback id d).2 + occ x (finished_by (dropped (CancelCallback id d).1)))%nat.
Proof.
  unfold CancelCallback. destruct (remove_request id (registered_callbacks_ d)) as [[r l]|] eqn:E1.
  { apply (cnt_remove x) in E1. load_solve. change (occ x _) with (cnt x [r]). lia. }
  destruct (remove_request id (callback_queue_ d)) as [[r l]|] eqn:E2.
  { apply (cnt_remove x) in E2. load_solve. change (occ x _) with (cnt x [r]). lia. }
  destruct (remove_request id (shutdown_queue_ d)) as [[r l]|] eqn:E3; [|load_solve].
  apply (cnt_remove x) in E3. load_solve. change (occ x _) with (cnt x [r]). lia.
Qed.

Lemma load_cancel_operation x loop op r d d' :
  CancelAsyncOperation loop op d = Done (r, d') ->
  load x d = (load x d' + occ x (finished_by (dropped r)))%nat.
Proof.
  unfold CancelAsyncOperation.
  destruct (erase_operation op (callback_queue_ d)) as [[y l]|] eqn:E1.
  { apply (cnt_erase x) in E1. intros [= <- <-]. load_solve. change (occ x _) with (cnt x [y]). lia. }
  destruct (erase_operation op (shutdown_queue_ d)) as [[y l]|] eqn:E2.
  { apply (cnt_erase x) in E2. intros [= <- <-]. load_solve. change (occ x _) with (cnt x [y]). lia. }
  destruct (erase_delayed op _) as [[y l]|] eqn:E3; [|intros [= <- <-]; load_solve].
  apply (cnt_erase_delayed x) in E3. destruct (ResetTimerLocked loop _) as [d1|] eqn:Et; [|done].
  intros [= <- <-]. apply (load_ResetTimer x) in Et. rewrite Et. load_solve.
  change (occ x _) with (cnt x [y]). lia.
Qed.

Lemma load_cancel_wait x loop w r d d' :
  cancel_wait_request loop w d = Done (r, d') ->
  load x d = (load x d' + occ x (finished_by (dropped r)))%nat.
Proof.
  unfold cancel_wait_request. destruct (existsb _ _ && _); [|apply load_cancel_operation].
  unfold RemoveWait. destruct (remove_request w (waits_ d)) as [[y l]|] eqn:E; simpl; [|done].
  apply (cnt_remove x) in E. intros [= <- <-]. load_solve. change (occ x _) with (cnt x [y]). lia.
Qed.

Lemma load_post x loop self task cb id deadline st d d' :
  post_delayed loop self task cb id deadline d = Done (st, d') ->
  (occ x (accepted_by (post_event self task cb id deadline)) + load x d = load x d')%nat.
Proof.
  unfold post_delayed, post_event. destruct deadline as [deadline|]; [|intros [= <- <-]; load_solve].
  destruct (SetCallback _ _ _ _) as [r|]; [|done]. cbn [mbind exec_bind].
  destruct (ResetTimerLocked loop _) as [d1|] eqn:Et; [|done]. intros [= <- <-].
  apply (load_ResetTimer x) in Et. rewrite Et. load_solve. rewrite cnt_insert.
  change (occ x _) with (cnt x [r]). lia.
Qed.

Lemma load_timer x loop now d d' : Timer_Handler loop now d = Done d' -> load x d' = load x d.
Proof.
  unfold Timer_Handler, CheckDelayedTasksLocked. simpl. destruct (negb _).
  { intros [= <-]. by load_solve. }
  pose proof (cnt_split x now (delayed_tasks_ d)) as Hs.
  destruct (split_done now _) as [[|p due] later]; simpl in Hs.
  - intros ->%(load_ResetTimer x). done.
  - intros [= <-]. load_solve.
Qed.

Lemma load_begin_wait x loop r d :
  (occ x (accepted_by (wait_event r (BeginWait loop r d).1)) + load x d = load x (BeginWait loop r d).2)%nat.
Proof.
  unfold BeginWait. destruct (negb _); [by load_solve|].
  destruct (begin_wait_ok loop).
  - load_solve. change (occ x _) with (cnt x [r]). lia.
  - change (occ x _) with 0%nat. cbn [snd]. by rewrite load_IdleCheck.
Qed.

Lemma load_queue_wait x w b d d' : QueueWait w d = Done (b, d') -> load x d' = load x d.
Proof.
  unfold QueueWait. destruct (remove_request w (waits_ d)) as [[y l]|] eqn:E; [|done].
  apply (cnt_remove x) in E. destruct (negb _); intros [= <- <-]; load_solve.
Qed.

Lemma load_shutdown x loop d d' :
  shutdown_begin loop d = (true, d') -> shutdown_queue_ d = [] -> load x d' = load x d.
Proof.
  unfold shutdown_begin. destruct (state_ d); try done. intros [= <-] Hq.
  match goal with |- context [Timer_Cancel loop ?y] =>
    destruct (Timer_Cancel_frame loop y) as [t ->] end.
  pose proof (cnt_partition x (fun w => cancel_wait_ok loop (request_id w)) (waits_ d)) as Hp.
  rewrite !load_eq, Hq. simpl. autorewrite with cnt. simpl in Hp. lia.
Qed.

Lemma complete_begin_frame w d d' : complete_begin w d = Done d' -> d' = set_event_waiter None d.
Proof.
  unfold complete_begin. destruct (bool_decide (state_ d = _)); simpl; [|done].
  destruct (IsIdleLocked d && negb _); simpl; [|done]. destruct (_ || _); simpl; [|done]. by intros [= <-].
Qed.

Ltac cnt_lia := simpl in *; autorewrite with cnt in *; lia.

Lemma step_load_cancel x id s :
  (occ x (accepted_by (dropped (cancel_callback id s).1)) + (load x (disp s) + tload x (threads s)) =
   occ x (finished_by (dropped (cancel_callback id s).1)) +
   (load x (disp (cancel_callback id s).2) + tload x (threads (cancel_callback id s).2)))%nat.
Proof.
  assert (forall r, accepted_by (dropped r) = []) as Ha by (by intros []).
  rewrite Ha. pose proof (load_cancel x id (disp s)) as Hl.
  destruct (cancel_callback_cases id s) as [(d & -> & ->)|(r & l1 & l & l' & w & l2 & E & Ht & Hr & ->)].
  - simpl. rewrite Hl. destruct (CancelCallback id (disp s)).1; cnt_lia.
  - rewrite Ht, Hl, E. apply (cnt_remove x) in Hr.
    simpl. change (occ x [request_id r]) with (cnt x [r]). autorewrite with cnt. simpl. lia.
Qed.

(** Each step accounts for what it accepts and finishes. *)
Lemma step_load x s e s' :
  phase_inv s -> step s e s' ->
  (occ x (accepted_by e) + (load x (disp s) + tload x (threads s)) =
   occ x (finished_by e) + (load x (disp s') + tload x (threads s')))%nat.
Proof.
  intros Hp Hstep. destruct Hstep; simpl; autorewrite with cnt;
    repeat match goal with H : threads s = _ |- _ => rewrite H; clear H end; autorewrite with cnt; simpl.
  - unfold RegisterCallbackWithoutQueueing in *. destruct (negb _); simplify_eq.
    load_solve. change (occ x [request_id r]) with (cnt x [r]). simpl. lia.
  - apply (load_queue x) in H. destruct o; cnt_lia.
  - rewrite load_direct_end. lia.
  - apply (load_active_end x) in H0. rewrite H0. cnt_lia.
  - apply (load_fire x) in H1. lia.
  - done.
  - rewrite (cnt_cons x r l). change (occ x [request_id r]) with (cnt x [r]). lia.
  - apply (load_dispatch_end x) in H0. lia.
  - lia.
  - apply (load_defer x) in H0. rewrite H0. cnt_lia.
  - by apply step_load_cancel.
  - unfold SetCallbackReason. destruct (existsb _ _); [|done]. load_solve. rewrite cnt_reason. lia.
  - rewrite (load_cancel_operation x _ _ _ _ _ H). destruct r; cnt_lia.
  - assert (finished_by (post_event self task cb id deadline) = []) as ->.
    { unfold post_event. destruct deadline; [|done]. by destruct (SetCallback _ _ _ _). }
    rewrite <- (load_post x _ _ _ _ _ _ _ _ _ H). cnt_lia.
  - rewrite (load_timer x _ _ _ _ H0). lia.
  - rewrite <- (load_begin_wait x loop r). unfold wait_event.
    destruct (decide _); cnt_lia.
  - rewrite (load_cancel_wait x _ _ _ _ _ H). destruct r; cnt_lia.
  - rewrite (load_queue_wait x _ _ _ _ H). lia.
  - rewrite (load_shutdown x _ _ _ H); [lia|]. apply (ph_running _ Hp).
    pose proof (ph_state _ Hp) as Hst. unfold shutdown_begin in H.
    destruct (state_ (disp s)) eqn:E; try done. by apply phase_state_running.
  - by destruct (Register_frame (disp s)) as (v & g & ->).
  - by rewrite (complete_begin_frame _ _ _ H1).
  - unfold complete_next in *. destruct (shutdown_queue_ (disp s)) eqn:E; simplify_eq.
    load_solve. rewrite E, (cnt_cons x r). change (occ x [request_id r]) with (cnt x [r]). lia.
  - done.
  - unfold Destroy in *. destruct (bool_decide (state_ (disp s) = kShutdown)); simplify_eq/=. done.
Qed.

Lemma occ_pending x s : occ x (pending s) = (load x (disp s) + tload x (threads s))%nat.
Proof. unfold pending, load, tload. rewrite fmap_app, occ_app. done. Qed.

Lemma run_load x u a o tr s :
  run u a o tr s -> occ x (accepted tr) = (occ x (finished tr) + occ x (pending s))%nat.
Proof.
  induction 1 as [|tr s e s' Hrun IH Hs]; [done|].
  destruct (run_invs _ _ _ _ _ Hrun) as [_ Hp]. apply (step_load x) in Hs; [|done].
  unfold accepted, finished in *. rewrite !flat_map_app, !occ_app. simpl. rewrite !app_nil_r.
  rewrite occ_pending in *. lia.
Qed.

(** ** Theorems *)

(** C6. No request is lost or run twice: along every run, the requests accepted (registered
    callbacks, waits, delayed tasks) are, each once, the requests called, those handed back to
    their owner by a cancellation, and those still held. *)
Theorem requests_conserved u a o tr s :
  run u a o tr s -> accepted tr ≡ₚ finished tr ++ pending s.
Proof.
  intros Hrun. apply (Permutation_count_occ Z.eq_dec). intros x.
  change (occ x (accepted tr) = occ x (finished tr ++ pending s)).
  rewrite occ_app. by eapply run_load.
Qed.

(** When shutting down is complete, every request accepted has been called or handed back,
    except for delayed tasks, which only a [PostTask] after shutting down began can have left. *)
Theorem shutdown_completes_requests u a o tr s :
  run u a o tr s -> phase s = Completed ->
  accepted tr ≡ₚ finished tr ++ (request_id <$> (delayed_tasks_ (disp s)).*2).
Proof.
  intros Hrun Hph. destruct (run_invs _ _ _ _ _ Hrun) as [Hi Hp].
  apply (Permutation_count_occ Z.eq_dec). intros x.
  change (occ x (accepted tr) = occ x (finished tr ++ (request_id <$> (delayed_tasks_ (disp s)).*2))).
  rewrite occ_app, (run_load x _ _ _ _ _ Hrun), occ_pending, load_eq.
  destruct (ph_finishing _ Hp) as (-> & _ & _ & Hts); [by rewrite Hph|].
  rewrite (ph_completed _ Hp Hph).
  destruct (inv_stopped _ Hi) as [-> ->]; [apply (finishing_state _ Hp); by rewrite Hph|].
  assert (tload x (threads s) = 0%nat) as ->.
  { clear -Hts. induction Hts as [|t l <- _ IH]; [done|]. by rewrite tload_cons. }
  autorewrite with cnt. unfold cnt. lia.
Qed.

Module TraceExample.
Import DispatcherExample.

Lemma requests_conserved_witness :
  [5; 6] ≡ₚ [5] ++ pending direct_and_queued.
Proof. apply (requests_conserved _ _ _ _ _ direct_and_queued_run). Defined.

(** A read is registered, and the dispatcher is shut down: the read is called with
    [ZX_ERR_CANCELED]. *)
Definition cancelled0 : System := Eval vm_compute in
  after_event (after_shutdown (after_register (req 5) (initial false false 1))).
Definition cancelled1 : System := Eval vm_compute in
  mkSystem (set_event_waiter None (disp cancelled0)) [] false Completing.
Definition cancelled2 : System := Eval vm_compute in
  mkSystem (complete_next (disp cancelled1)).2 [] false Completing.
Definition cancelled : System := Eval vm_compute in
  mkSystem (complete_end (disp cancelled2)) [] false Completed.

Definition cancelled_trace : list Event :=
  ((((([] ++ [EvAccepted (req 5)]) ++ [EvTau]) ++ [EvTau]) ++ [EvTau]) ++
   [EvCalled (req 5) ZX_ERR_CANCELED]) ++ [EvTau].

Lemma cancelled_run : run false false 1 cancelled_trace cancelled.
Proof.
  apply (run_step _ _ _ _ cancelled2); [|by apply (step_complete_end cancelled2)].
  apply (run_step _ _ _ _ cancelled1); [|by apply (step_complete_next cancelled1)].
  apply (run_step _ _ _ _ cancelled0); [|by apply (step_complete cancelled0)].
  apply (run_step _ _ _ _ (after_shutdown (after_register (req 5) (initial false false 1))));
    [|by apply step_shutdown_event].
  apply (run_step _ _ _ _ (after_register (req 5) (initial false false 1)));
    [|by apply (step_shutdown _ loop0)].
  apply run_register; [apply run_initial|reflexivity].
Qed.

Lemma shutdown_completes_requests_witness : [5] ≡ₚ [5] ++ [].
Proof. apply (shutdown_completes_requests _ _ _ _ _ cancelled_run). reflexivity. Defined.

End TraceExample.
