(* ===== verification/DispatcherCoordinator.v ===== *)
(** * DispatcherCoordinator: the dispatchers of a process

    Model of the [DispatcherCoordinator] class of [src/devices/bin/driver_runtime/dispatcher.cc] and
    [dispatcher.h]: which dispatchers each driver has, how far they are shut down, who is told, and
    how many loop threads the blocking dispatchers need. Each operation runs under [lock_] and is one
    function; [NotifyShutdown], which calls the observer unlocked, is two. *)
From Stdlib Require Import ZArith Lia.
From stdpp Require Import prelude gmap fin_maps.
From S2P Require Import Prelude Dispatcher.

Local Open Scope Z_scope.

(** What the coordinator asks of a dispatcher: its address, [owner()], [allow_sync_calls()], and
    whether its [process_shared_dispatcher()] is the coordinator's own loop. *)
Record DispatcherRef := mkRef {
  ref_id : Z;
  ref_owner : Z;
  ref_allow_sync_calls : bool;
  ref_shared_loop : bool
}.

#[global] Instance dispatcher_ref_eq_dec : EqDecision DispatcherRef.
Proof. solve_decision. Defined.

(** ** Driver state *)

Record DriverState := mkDriver {
  shutdown_dispatchers_ : list DispatcherRef;
  dispatchers_ : list DispatcherRef;
  shutdown_observer_ : option Z
}.

Definition new_driver : DriverState := mkDriver [] [] None.

Definition DriverState_AddDispatcher (d : DispatcherRef) (ds : DriverState) : DriverState :=
  mkDriver (shutdown_dispatchers_ ds) (dispatchers_ ds ++ [d]) (shutdown_observer_ ds).

(** Erase a dispatcher from a list. *)
Fixpoint erase_ref (d : DispatcherRef) (l : list DispatcherRef) : option (list DispatcherRef) :=
  match l with
  | [] => None
  | x :: rest => if decide (x = d) then Some rest else cons x <$> erase_ref d rest
  end.

(** Erasing a dispatcher that is not on the list corrupts it, and counts as an abort. *)
Definition SetDispatcherShutdown (d : DispatcherRef) (ds : DriverState) : exec DriverState :=
  match erase_ref d (dispatchers_ ds) with
  | Some rest => Done (mkDriver (shutdown_dispatchers_ ds ++ [d]) rest (shutdown_observer_ ds))
  | None => Panic
  end.

Definition DriverState_RemoveDispatcher (d : DispatcherRef) (ds : DriverState) : exec DriverState :=
  match erase_ref d (shutdown_dispatchers_ ds) with
  | Some rest => Done (mkDriver rest (dispatchers_ ds) (shutdown_observer_ ds))
  | None => Panic
  end.

Definition SetShutdownObserver (observer : Z) (ds : DriverState) : zx_status * DriverState :=
  match shutdown_observer_ ds with
  | Some _ => (ZX_ERR_BAD_STATE, ds)
  | None => (ZX_OK, mkDriver (shutdown_dispatchers_ ds) (dispatchers_ ds) (Some observer))
  end.

Definition CompletedShutdown (ds : DriverState) : bool := bool_decide (dispatchers_ ds = []).

Definition IsShuttingDown (ds : DriverState) : bool := bool_decide (shutdown_observer_ ds <> None).

Definition HasDispatchers (ds : DriverState) : bool :=
  negb (bool_decide (dispatchers_ ds = [])) || negb (bool_decide (shutdown_dispatchers_ ds = [])).

Definition ClearShutdownObserver (ds : DriverState) : DriverState :=
  mkDriver (shutdown_dispatchers_ ds) (dispatchers_ ds) None.

(** ** The coordinator *)

Record Coordinator := mkCoordinator {
  drivers_ : gmap Z DriverState;
  number_threads_ : Z;
  dispatcher_threads_needed_ : Z
}.

Definition new_coordinator : Coordinator := mkCoordinator ∅ 1 1.

Definition set_drivers (m : gmap Z DriverState) (c : Coordinator) : Coordinator :=
  mkCoordinator m (number_threads_ c) (dispatcher_threads_needed_ c).

Definition AddDispatcher (d : DispatcherRef) (c : Coordinator) : zx_status * Coordinator :=
  match drivers_ c !! ref_owner d with
  | None => (ZX_OK, set_drivers
      (<[ref_owner d := DriverState_AddDispatcher d new_driver]> (drivers_ c)) c)
  | Some ds =>
      if IsShuttingDown ds then (ZX_ERR_BAD_STATE, c)
      else (ZX_OK, set_drivers (<[ref_owner d := DriverState_AddDispatcher d ds]> (drivers_ c)) c)
  end.

Definition SetShutdown (d : DispatcherRef) (c : Coordinator) : exec Coordinator :=
  match drivers_ c !! ref_owner d with
  | None => Panic
  | Some ds => ds' ← SetDispatcherShutdown d ds;
               Done (set_drivers (<[ref_owner d := ds']> (drivers_ c)) c)
  end.

(** Keep a driver's state, or drop it when nothing is left of the driver. *)
Definition put_or_erase (owner : Z) (ds : DriverState) (c : Coordinator) : Coordinator :=
  if negb (HasDispatchers ds) && negb (IsShuttingDown ds)
  then set_drivers (delete owner (drivers_ c)) c
  else set_drivers (<[owner := ds]> (drivers_ c)) c.

(** The first section of [NotifyShutdown]: the observer to call, if any. *)
Definition notify_begin (d : DispatcherRef) (c : Coordinator) : option Z :=
  match drivers_ c !! ref_owner d with
  | None => None
  | Some ds => if negb (CompletedShutdown ds) then None else shutdown_observer_ ds
  end.

(** The section after the observer's handler. *)
Definition notify_end (owner : Z) (c : Coordinator) : exec Coordinator :=
  match drivers_ c !! owner with
  | None => Panic
  | Some ds => Done (put_or_erase owner (ClearShutdownObserver ds) c)
  end.

Definition needs_thread (d : DispatcherRef) : bool := ref_allow_sync_calls d && ref_shared_loop d.

Definition RemoveDispatcher (d : DispatcherRef) (c : Coordinator) : exec Coordinator :=
  match drivers_ c !! ref_owner d with
  | None => Panic
  | Some ds =>
      let c := mkCoordinator (drivers_ c) (number_threads_ c)
                 (if needs_thread d then u32 (dispatcher_threads_needed_ c - 1)
                  else dispatcher_threads_needed_ c) in
      ds' ← DriverState_RemoveDispatcher d ds;
      Done (put_or_erase (ref_owner d) ds' c)
  end.

(** [start]: what [StartThread] answers. *)
Definition AddThread (start : zx_status) (c : Coordinator) : zx_status * Coordinator :=
  let needed := u32 (dispatcher_threads_needed_ c + 1) in
  if (needed <=? number_threads_ c) || (number_threads_ c =? 10)
  then (ZX_OK, mkCoordinator (drivers_ c) (number_threads_ c) needed)
  else if decide (start = ZX_OK)
       then (ZX_OK, mkCoordinator (drivers_ c) (u32 (number_threads_ c + 1)) needed)
       else (start, mkCoordinator (drivers_ c) (number_threads_ c) needed).

(** [Reset], which runs when the loop is stopped. *)
Definition CoordinatorReset (c : Coordinator) : exec Coordinator :=
  (ASSERT bool_decide (drivers_ c = ∅) ;;
   ASSERT dispatcher_threads_needed_ c =? 1 ;;
   Done (mkCoordinator (drivers_ c) 1 1))%exec.

(** [ShutdownDispatchersAsync]: the status, the dispatchers to post [ShutdownAsync] to, and whether
    the observer is to be called at once. *)
Definition ShutdownDispatchersAsync (driver observer : Z) (c : Coordinator)
    : zx_status * list DispatcherRef * bool * Coordinator :=
  match drivers_ c !! driver with
  | None => (ZX_ERR_INVALID_ARGS, [], false, c)
  | Some ds =>
      match dispatchers_ ds with
      | [] => (ZX_OK, [], true, c)
      | _ =>
          let '(status, ds') := SetShutdownObserver observer ds in
          match status with
          | ZX_OK => (ZX_OK, dispatchers_ ds', false,
                      set_drivers (<[driver := ds']> (drivers_ c)) c)
          | _ => (status, [], false, c)
          end
      end
  end.

(** [CreateWithAdder] of a dispatcher. [start], [event] and [wait] are what starting a loop thread,
    creating the event and waiting on it answer. *)
Definition CreateWithAdder (unsynchronized : bool) (d : DispatcherRef) (start event wait : zx_status)
    (c : Coordinator) : zx_status * Coordinator :=
  match CreateWithAdder_args unsynchronized (ref_allow_sync_calls d) (ref_owner d) with
  | ZX_OK =>
      let '(status, c1) :=
        if ref_allow_sync_calls d
        then if ref_shared_loop d then AddThread start c else (start, c)
        else (ZX_OK, c) in
      match status, event with
      | ZX_OK, ZX_OK => if decide (wait = ZX_ERR_BAD_STATE) then (wait, c1) else AddDispatcher d c1
      | ZX_OK, _ => (event, c1)
      | _, _ => (status, c1)
      end
  | status => (status, c)
  end.

(** [DestroyAllDispatchers]: the dispatchers it goes on to destroy. *)
Definition DestroyAllDispatchers (c : Coordinator) : exec (list DispatcherRef) :=
  (ASSERT forallb CompletedShutdown (map_to_list (drivers_ c)).*2 ;;
   Done (flat_map shutdown_dispatchers_ (map_to_list (drivers_ c)).*2))%exec.

(** ** Runs *)

(** [completing]: dispatchers whose thread is between [SetShutdown] and [NotifyShutdown].
    [notifying]: threads inside an observer's handler. [leaked]: dispatchers that failed to be created
    after a thread was asked for them. *)
Record CoordSystem := mkCoord {
  coord : Coordinator;
  completing : list DispatcherRef;
  notifying : list Z;
  leaked : Z
}.

(** A creation that failed after [AddThread]. *)
Definition leaks (unsynchronized : bool) (d : DispatcherRef) (status : zx_status) : bool :=
  bool_decide (status <> ZX_OK) && needs_thread d &&
  bool_decide (CreateWithAdder_args unsynchronized (ref_allow_sync_calls d) (ref_owner d) = ZX_OK).

Definition b2z (b : bool) : Z := if b then 1 else 0.

(** The label is the driver whose observer is called. *)
Inductive cstep : CoordSystem -> option (Z * Z) -> CoordSystem -> Prop :=
  | cstep_create s unsynchronized d start event wait status c :
      dispatcher_threads_needed_ (coord s) < 2 ^ 32 - 1 ->
      CreateWithAdder unsynchronized d start event wait (coord s) = (status, c) ->
      cstep s None (mkCoord c (completing s) (notifying s)
                      (leaked s + b2z (leaks unsynchronized d status)))
  | cstep_shutdown s driver observer status l now c :
      ShutdownDispatchersAsync driver observer (coord s) = (status, l, now, c) ->
      cstep s (if now then Some (driver, observer) else None)
        (mkCoord c (completing s) (notifying s) (leaked s))
  | cstep_set_shutdown s d c :
      SetShutdown d (coord s) = Done c ->
      cstep s None (mkCoord c (completing s ++ [d]) (notifying s) (leaked s))
  | cstep_notify s l1 d l2 observer :
      completing s = l1 ++ d :: l2 -> notify_begin d (coord s) = Some observer ->
      cstep s (Some (ref_owner d, observer))
        (mkCoord (coord s) (l1 ++ l2) (notifying s ++ [ref_owner d]) (leaked s))
  | cstep_no_notify s l1 d l2 :
      completing s = l1 ++ d :: l2 -> notify_begin d (coord s) = None ->
      cstep s None (mkCoord (coord s) (l1 ++ l2) (notifying s) (leaked s))
  | cstep_notify_end s l1 owner l2 c :
      notifying s = l1 ++ owner :: l2 -> notify_end owner (coord s) = Done c ->
      cstep s None (mkCoord c (completing s) (l1 ++ l2) (leaked s))
  | cstep_remove s d c :
      RemoveDispatcher d (coord s) = Done c ->
      cstep s None (mkCoord c (completing s) (notifying s) (leaked s))
  | cstep_reset s c :
      CoordinatorReset (coord s) = Done c ->
      cstep s None (mkCoord c (completing s) (notifying s) (leaked s)).

Inductive crun : list (option (Z * Z)) -> CoordSystem -> Prop :=
  | crun_initial : crun [] (mkCoord new_coordinator [] [] 0)
  | crun_step tr s e s' : crun tr s -> cstep s e s' -> crun (tr ++ [e]) s'.

(** ** Counting the threads needed *)

Fixpoint count_needed (l : list DispatcherRef) : Z :=
  match l with [] => 0 | d :: rest => b2z (needs_thread d) + count_needed rest end.

Definition weight (ds : DriverState) : Z :=
  count_needed (dispatchers_ ds) + count_needed (shutdown_dispatchers_ ds).

Definition total (m : gmap Z DriverState) : Z := map_fold (fun _ ds acc => weight ds + acc) 0 m.

Lemma total_insert_new k ds m : m !! k = None -> total (<[k := ds]> m) = weight ds + total m.
Proof. intros Hk. unfold total. rewrite map_fold_insert_L; [done| |done]. intros. lia. Qed.

Lemma total_delete k ds m : m !! k = Some ds -> total m = weight ds + total (delete k m).
Proof. intros Hk. unfold total. rewrite (map_fold_delete_L _ _ k ds m); [done| |done]. intros. lia. Qed.

Lemma total_insert k ds ds' m :
  m !! k = Some ds -> total (<[k := ds']> m) = weight ds' - weight ds + total m.
Proof.
  intros Hk. rewrite <- insert_delete_eq, total_insert_new by apply lookup_delete_eq.
  pose proof (total_delete k ds m Hk). lia.
Qed.

Lemma count_needed_app l1 l2 : count_needed (l1 ++ l2) = count_needed l1 + count_needed l2.
Proof. induction l1; simpl; lia. Qed.

Lemma count_needed_nonneg l : 0 <= count_needed l.
Proof. induction l as [|d l IH]; simpl; [lia|]. unfold b2z. destruct (needs_thread d); lia. Qed.

Lemma erase_ref_count d l l' :
  erase_ref d l = Some l' -> count_needed l = b2z (needs_thread d) + count_needed l'.
Proof.
  revert l'. induction l as [|x l IH]; intros l'; simpl; [done|]. destruct (decide (x = d)) as [->|].
  - by intros [= ->].
  - intros (l'' & H & ->)%fmap_Some. simpl. rewrite (IH l'' H). lia.
Qed.

Lemma total_nonneg m : 0 <= total m.
Proof.
  unfold total. apply (map_fold_weak_ind (fun r _ => 0 <= r)); [lia|]. intros k ds m' r _ Hr.
  pose proof (count_needed_nonneg (dispatchers_ ds)).
  pose proof (count_needed_nonneg (shutdown_dispatchers_ ds)). unfold weight. lia.
Qed.

(** ** The invariant *)

Definition in_use (ds : DriverState) : bool := HasDispatchers ds || IsShuttingDown ds.

Record coord_inv (s : CoordSystem) : Prop := {
  ci_threads : 1 <= number_threads_ (coord s) <= 10;
  ci_needed : dispatcher_threads_needed_ (coord s) = 1 + total (drivers_ (coord s)) + leaked s;
  ci_leaked : 0 <= leaked s;
  ci_bound : dispatcher_threads_needed_ (coord s) < 2 ^ 32;
  ci_in_use : map_Forall (fun _ ds => in_use ds = true) (drivers_ (coord s))
}.

Lemma put_or_erase_total owner ds ds' c :
  drivers_ c !! owner = Some ds ->
  total (drivers_ (put_or_erase owner ds' c)) =
    weight ds' - weight ds + total (drivers_ c).
Proof.
  intros Hk. unfold put_or_erase. destruct (negb _ && _) eqn:E; simpl.
  - apply andb_true_iff in E as [E _]. unfold HasDispatchers in E.
    apply negb_true_iff, orb_false_iff in E as [E1 E2].
    apply negb_false_iff, bool_decide_eq_true in E1. apply negb_false_iff, bool_decide_eq_true in E2.
    pose proof (total_delete _ _ _ Hk). unfold weight in *. rewrite E1, E2. simpl. lia.
  - by apply total_insert.
Qed.

Lemma put_or_erase_in_use owner ds c :
  map_Forall (fun _ ds => in_use ds = true) (drivers_ c) ->
  map_Forall (fun _ ds => in_use ds = true) (drivers_ (put_or_erase owner ds c)).
Proof.
  intros H. unfold put_or_erase. destruct (negb _ && _) eqn:E; simpl.
  - by apply map_Forall_delete.
  - apply map_Forall_insert_2; [|done]. unfold in_use.
    destruct (HasDispatchers ds), (IsShuttingDown ds); done.
Qed.

(** ** Preservation *)

Lemma AddThread_spec start c status c' :
  1 <= number_threads_ c <= 10 -> 0 <= dispatcher_threads_needed_ c < 2 ^ 32 - 1 ->
  AddThread start c = (status, c') ->
  drivers_ c' = drivers_ c /\ 1 <= number_threads_ c' <= 10 /\
  dispatcher_threads_needed_ c' = dispatcher_threads_needed_ c + 1.
Proof.
  intros Hn Hd. unfold AddThread. rewrite (u32_small (_ + 1)) by (unfold is_u32; lia).
  destruct (_ || _) eqn:E; [intros [= <- <-]; simpl; auto|].
  apply orb_false_iff in E as [_ E]. apply Z.eqb_neq in E.
  destruct (decide (start = ZX_OK)); intros [= <- <-]; simpl; [|auto].
  rewrite u32_small by (unfold is_u32; lia). split_and!; lia || done.
Qed.

Lemma AddDispatcher_spec d c status c' :
  map_Forall (fun _ ds => in_use ds = true) (drivers_ c) ->
  AddDispatcher d c = (status, c') ->
  number_threads_ c' = number_threads_ c /\
  dispatcher_threads_needed_ c' = dispatcher_threads_needed_ c /\
  total (drivers_ c') = total (drivers_ c) + b2z (bool_decide (status = ZX_OK) && needs_thread d) /\
  map_Forall (fun _ ds => in_use ds = true) (drivers_ c').
Proof.
  intros Hu. unfold AddDispatcher.
  assert (forall ds, in_use (DriverState_AddDispatcher d ds) = true) as Hin.
  { intros ds. unfold in_use, HasDispatchers. simpl. by destruct (dispatchers_ ds). }
  destruct (drivers_ c !! ref_owner d) as [ds|] eqn:E.
  - destruct (IsShuttingDown ds); intros [= <- <-]; simpl; [split_and!; auto; lia|].
    rewrite (total_insert _ _ _ _ E). unfold weight. simpl. rewrite count_needed_app. simpl.
    split_and!; auto; [lia|]. by apply map_Forall_insert_2.
  - intros [= <- <-]. simpl. rewrite total_insert_new by done. unfold weight. simpl.
    split_and!; auto; [lia|]. by apply map_Forall_insert_2.
Qed.

Lemma create_inv s u d start event wait status c :
  coord_inv s -> dispatcher_threads_needed_ (coord s) < 2 ^ 32 - 1 ->
  CreateWithAdder u d start event wait (coord s) = (status, c) ->
  coord_inv (mkCoord c (completing s) (notifying s) (leaked s + b2z (leaks u d status))).
Proof.
  intros [Ht Hn Hl Hb Hu] Hlt. pose proof (total_nonneg (drivers_ (coord s))) as Htot.
  unfold CreateWithAdder, leaks.
  destruct (CreateWithAdder_args u _ _) eqn:Ea;
    try (intros [= <- <-]; rewrite (bool_decide_false (_ = ZX_OK)), andb_false_r by done;
         split; simpl; auto; lia).
  rewrite (bool_decide_true (ZX_OK = ZX_OK)), andb_true_r by done.
  set (p := if ref_allow_sync_calls d then _ else _).
  assert (exists c1, p.2 = c1 /\ drivers_ c1 = drivers_ (coord s) /\ 1 <= number_threads_ c1 <= 10 /\
    dispatcher_threads_needed_ c1 = dispatcher_threads_needed_ (coord s) + b2z (needs_thread d))
    as (c1 & Hc1 & Hd1 & Ht1 & Hn1).
  { unfold p, needs_thread. destruct (ref_allow_sync_calls d); simpl; [|eexists; split_and!; eauto; lia].
    destruct (ref_shared_loop d); simpl; [|eexists; split_and!; eauto; lia].
    destruct (AddThread start (coord s)) as [st c1] eqn:E.
    destruct (AddThread_spec _ _ _ _ Ht ltac:(lia) E) as (? & ? & ?). by exists c1. }
  assert (forall st, st <> ZX_OK ->
    coord_inv (mkCoord c1 (completing s) (notifying s)
      (leaked s + b2z (bool_decide (st <> ZX_OK) && needs_thread d)))) as Hfail.
  { intros st Hst. rewrite bool_decide_true by done. simpl.
    split; simpl; rewrite ?Hd1, ?Hn1; auto; unfold b2z in *; destruct (needs_thread d); lia. }
  destruct p as [st c1'] eqn:Ep. simpl in Hc1. subst c1'.
  destruct st; try (intros [= <- <-]; by apply Hfail).
  destruct event; try (intros [= <- <-]; by apply Hfail).
  destruct (decide (wait = ZX_ERR_BAD_STATE)) as [->|]; [intros [= <- <-]; by apply Hfail|].
  intros H. apply AddDispatcher_spec in H as (Hx1 & Hx2 & Hx3 & Hx4); [|by rewrite Hd1].
  assert (b2z (bool_decide (status = ZX_OK) && needs_thread d) +
    b2z (bool_decide (status <> ZX_OK) && needs_thread d) = b2z (needs_thread d)) as Hsum.
  { destruct status; simpl; by destruct (needs_thread d). }
  assert (forall b, 0 <= b2z b <= 1) as Hr by (by intros []).
  pose proof (Hr (bool_decide (status <> ZX_OK) && needs_thread d)).
  pose proof (Hr (needs_thread d)).
  split; simpl; rewrite ?Hx1, ?Hx2, ?Hx3, ?Hd1, ?Hn1; auto; lia.
Qed.

Lemma in_use_observer ds : shutdown_observer_ ds <> None -> in_use ds = true.
Proof. intros H. unfold in_use, IsShuttingDown. by rewrite bool_decide_true, orb_true_r. Qed.

Lemma remove_inv s d c :
  coord_inv s -> RemoveDispatcher d (coord s) = Done c ->
  coord_inv (mkCoord c (completing s) (notifying s) (leaked s)).
Proof.
  intros [Ht Hn Hl Hb Hu]. unfold RemoveDispatcher, DriverState_RemoveDispatcher.
  destruct (drivers_ (coord s) !! ref_owner d) as [ds|] eqn:E; [|done].
  destruct (erase_ref d _) as [rest|] eqn:Er; [|done]. apply erase_ref_count in Er. intros [= <-].
  match goal with |- context [put_or_erase ?o ?x ?y] =>
    pose proof (put_or_erase_total o ds x y E) as Htot; pose proof (put_or_erase_in_use o x y Hu) as Hin
  end.
  pose proof (total_delete _ _ _ E) as Hdel. pose proof (total_nonneg (delete (ref_owner d) (drivers_ (coord s)))).
  pose proof (count_needed_nonneg (dispatchers_ ds)). pose proof (count_needed_nonneg rest).
  assert (0 <= b2z (needs_thread d) <= 1) as Hr by (by destruct (needs_thread d)).
  assert ((if needs_thread d then u32 (dispatcher_threads_needed_ (coord s) - 1)
           else dispatcher_threads_needed_ (coord s)) =
          dispatcher_threads_needed_ (coord s) - b2z (needs_thread d)) as Hneed.
  { unfold weight in *. destruct (needs_thread d); simpl in *; [|lia].
    rewrite u32_small by (unfold is_u32; lia). lia. }
  unfold put_or_erase in *. destruct (negb _ && _); split; simpl in *; auto; rewrite ?Hneed, ?Htot;
    unfold weight; simpl; lia.
Qed.

Lemma cstep_inv s e s' : coord_inv s -> cstep s e s' -> coord_inv s'.
Proof.
  intros Hi Hs. pose proof Hi as [Ht Hn Hl Hb Hu]. destruct Hs as [| | | | | | |]; simpl in *.
  - by eapply create_inv.
  - unfold ShutdownDispatchersAsync, SetShutdownObserver in *.
    destruct (drivers_ (coord s) !! driver) as [ds|] eqn:E; simplify_eq; [|by split].
    destruct (dispatchers_ ds) eqn:Ed; simplify_eq; [by split|].
    destruct (shutdown_observer_ ds) eqn:Eo; simplify_eq; [by split|].
    split; simpl; rewrite ?(total_insert _ _ _ _ E); unfold weight; simpl; auto; [rewrite ?Ed; simpl; lia|].
    apply map_Forall_insert_2; [|done]. by apply in_use_observer.
  - unfold SetShutdown, SetDispatcherShutdown in *.
    destruct (drivers_ (coord s) !! ref_owner d) as [ds|] eqn:E; [|done].
    destruct (erase_ref d _) as [rest|] eqn:Er; [|done]. simplify_eq/=.
    apply erase_ref_count in Er. split; simpl; rewrite ?(total_insert _ _ _ _ E); auto.
    + unfold weight. simpl. rewrite count_needed_app. simpl. lia.
    + apply map_Forall_insert_2; [|done]. unfold in_use, HasDispatchers. simpl.
      by destruct (shutdown_dispatchers_ ds), (bool_decide (rest = [])).
  - by split.
  - by split.
  - unfold notify_end in *. destruct (drivers_ (coord s) !! owner) as [ds|] eqn:E; [|done].
    simplify_eq. pose proof (put_or_erase_total owner ds (ClearShutdownObserver ds) _ E) as Htot.
    pose proof (put_or_erase_in_use owner (ClearShutdownObserver ds) _ Hu) as Hin.
    unfold put_or_erase in *. destruct (_ && _); split; simpl in *; auto; rewrite Htot;
      unfold weight; simpl; lia.
  - by eapply remove_inv.
  - unfold CoordinatorReset in *.
    destruct (bool_decide_reflect (drivers_ (coord s) = ∅)) as [Hm|]; simplify_eq/=.
    destruct (Z.eqb_spec (dispatcher_threads_needed_ (coord s)) 1) as [Hone|]; simplify_eq/=.
    split; simpl; auto; lia.
Qed.

Lemma crun_inv tr s : crun tr s -> coord_inv s.
Proof.
  induction 1 as [|tr s e s' _ IH Hs]; [|by eapply cstep_inv].
  split; simpl; try done; lia.
Qed.

(** ** Theorems *)

Definition nothing_left (c : Coordinator) : Prop :=
  forall owner ds, drivers_ c !! owner = Some ds -> HasDispatchers ds = false /\ IsShuttingDown ds = false.

(** The coordinator's books: it never has more than ten loop threads, it keeps a driver's state
    exactly as long as the driver has dispatchers or an observer to be told, and [Reset] passes its
    assertions exactly when nothing is left of any driver and no dispatcher failed to be created
    after a thread had been asked for it. *)
Theorem coordinator_reset tr s :
  crun tr s ->
  1 <= number_threads_ (coord s) <= 10 /\
  (nothing_left (coord s) <-> drivers_ (coord s) = ∅) /\
  ((exists c, CoordinatorReset (coord s) = Done c) <-> nothing_left (coord s) /\ leaked s = 0).
Proof.
  intros [Ht Hn Hl Hb Hu]%crun_inv. split; [done|].
  assert (nothing_left (coord s) <-> drivers_ (coord s) = ∅) as Hleft.
  { split.
    - intros H. apply map_empty. intros owner. destruct (drivers_ (coord s) !! owner) as [ds|] eqn:E; [|done].
      exfalso. destruct (H owner ds E) as [H1 H2]. specialize (Hu owner ds E). unfold in_use in Hu.
      simpl in Hu. by rewrite H1, H2 in Hu.
    - intros Hm owner ds. by rewrite Hm, lookup_empty. }
  split; [done|]. rewrite Hleft. unfold CoordinatorReset.
  destruct (bool_decide_reflect (drivers_ (coord s) = ∅)) as [Hm|Hm]; simpl.
  - rewrite Hm in Hn. change (total ∅) with 0 in Hn.
    destruct (Z.eqb_spec (dispatcher_threads_needed_ (coord s)) 1) as [E|E]; simpl.
    + split; [intros _; split; [done|lia]|eauto].
    + split; [by intros [? ?]|intros [_ ?]; lia].
  - split; [by intros [? ?]|by intros [? _]].
Qed.

Module CoordinatorExample.

(** Two dispatchers of driver 1, the first of them blocking. *)
Definition d1 : DispatcherRef := mkRef 11 1 true true.
Definition d2 : DispatcherRef := mkRef 12 1 false true.

Definition leak1 : CoordSystem :=
  mkCoord (CreateWithAdder false d1 ZX_OK ZX_ERR_NO_MEMORY ZX_OK new_coordinator).2 [] [] 1.

Lemma leak1_run : crun [None] leak1.
Proof.
  apply (crun_step [] (mkCoord new_coordinator [] [] 0) None); [apply crun_initial|].
  by apply (cstep_create (mkCoord new_coordinator [] [] 0) false d1 ZX_OK ZX_ERR_NO_MEMORY ZX_OK
    ZX_ERR_NO_MEMORY).
Qed.

(** A failed creation leaves a state in which [Reset] aborts though there are no drivers. *)
Lemma coordinator_reset_witness :
  drivers_ (coord leak1) = ∅ /\ ~ (exists c, CoordinatorReset (coord leak1) = Done c).
Proof.
  split; [reflexivity|]. intros H. apply (coordinator_reset [None] leak1 leak1_run) in H.
  by destruct H.
Defined.

(** The two dispatchers of driver 1 shut down on two threads. *)
Definition c0 : CoordSystem :=
  mkCoord (CreateWithAdder false d2 ZX_OK ZX_OK ZX_OK
    (CreateWithAdder false d1 ZX_OK ZX_OK ZX_OK new_coordinator).2).2 [] [] 0.
Definition c1 : CoordSystem :=
  mkCoord (ShutdownDispatchersAsync 1 99 (coord c0)).2 [] [] 0.
Definition run_exec (x : exec Coordinator) (c : Coordinator) : Coordinator :=
  match x with Done c' => c' | Panic => c end.
Definition c2 : CoordSystem :=
  mkCoord (run_exec (SetShutdown d1 (coord c1)) (coord c1)) [d1] [] 0.
Definition c3 : CoordSystem :=
  mkCoord (run_exec (SetShutdown d2 (coord c2)) (coord c2)) [d1; d2] [] 0.
Definition c4 : CoordSystem := mkCoord (coord c3) [d2] [1] 0.
Definition c5 : CoordSystem := mkCoord (coord c3) [] [1; 1] 0.
(** The first thread returns; the host destroys both dispatchers. *)
Definition c6 : CoordSystem :=
  let c := run_exec (notify_end 1 (coord c5)) (coord c5) in
  let c := run_exec (RemoveDispatcher d1 c) c in
  mkCoord (run_exec (RemoveDispatcher d2 c) c) [] [1] 0.

Definition c_trace : list (option (Z * Z)) :=
  ((((([None] ++ [None]) ++ [None]) ++ [None]) ++ [None]) ++ [Some (1, 99)]) ++ [Some (1, 99)].

Lemma c5_run : crun c_trace c5.
Proof.
  apply (crun_step _ c4); [|by apply (cstep_notify c4 [] d2 [] 99)].
  apply (crun_step _ c3); [|by apply (cstep_notify c3 [] d1 [d2] 99)].
  apply (crun_step _ c2); [|by apply (cstep_set_shutdown c2 d2)].
  apply (crun_step _ c1); [|by apply (cstep_set_shutdown c1 d1)].
  apply (crun_step _ c0); [|by apply (cstep_shutdown c0 1 99 ZX_OK [d1; d2] false)].
  apply (crun_step _ (mkCoord (CreateWithAdder false d1 ZX_OK ZX_OK ZX_OK new_coordinator).2 [] [] 0)).
  2: { by apply (cstep_create (mkCoord _ [] [] 0) false d2 ZX_OK ZX_OK ZX_OK ZX_OK). }
  apply (crun_step [] (mkCoord new_coordinator [] [] 0)); [apply crun_initial|].
  by apply (cstep_create (mkCoord new_coordinator [] [] 0) false d1 ZX_OK ZX_OK ZX_OK ZX_OK).
Qed.

(** A driver's shutdown observer can be called twice for one shutdown: when two threads are both
    between [SetShutdown] and [NotifyShutdown] for the last dispatchers of a driver, each finds
    the shutdown complete and the observer still set. If the dispatchers are destroyed before the
    second thread comes back, its assertion that the driver's state still exists fails. *)
Theorem observer_notified_twice :
  exists tr s, crun tr s /\ filter (fun e => e = Some (1, 99)) tr = [Some (1, 99); Some (1, 99)] /\
    notifying s = [1] /\ notify_end 1 (coord s) = Panic.
Proof.
  exists (((c_trace ++ [None]) ++ [None]) ++ [None]), c6.
  split; [|split_and!; vm_compute; reflexivity].
  apply (crun_step _ (mkCoord (run_exec (RemoveDispatcher d1 (run_exec (notify_end 1 (coord c5)) (coord c5)))
    (coord c5)) [] [1] 0)); [|by apply (cstep_remove (mkCoord _ [] [1] 0) d2)].
  apply (crun_step _ (mkCoord (run_exec (notify_end 1 (coord c5)) (coord c5)) [] [1] 0));
    [|by apply (cstep_remove (mkCoord _ [] [1] 0) d1)].
  apply (crun_step _ c5); [apply c5_run|]. by apply (cstep_notify_end c5 [] 1 [1]).
Qed.

End CoordinatorExample.
