(* ===== verification/Channel.v ===== *)
(** * Channel: the driver runtime's channels

    Model of [src/devices/bin/driver_runtime/channel.cc], [channel.h], [message_packet.cc],
    [message_packet.h] and of the channel part of [api.cc].

    Channels, waiting calls, dispatchers and arenas live in a [World], by their address; the two ends
    of a channel share a lock, and each critical section is one function on the world. The call of
    [QueueRegisteredCallback] that some operations make after releasing the lock is returned as a
    [QueueAction]. The world's dispatchers are of any type that has the operations a channel uses,
    [DispatcherOps]; [ChannelRun] says what is required of them. *)
From Stdlib Require Import ZArith Lia.
From stdpp Require Import prelude gmap.
From S2P Require Import Prelude Handles Arena Dispatcher.

Local Open Scope Z_scope.

(** The size of a [MessagePacket], which is allocated in its arena. *)
Class PacketAbi := { sizeof_MessagePacket : Z }.

(** What a channel asks of a dispatcher. *)
Class DispatcherOps (D : Type) := {
  op_unsynchronized : D -> bool;
  op_allow_sync_calls : D -> bool;
  op_register : CallbackRequest -> D -> option CallbackRequest * D;
  op_cancel : Z -> D -> option CallbackRequest * D;
  op_set_reason : Z -> zx_status -> D -> bool * D
}.

(** ** Message packets *)

(** Null pointers are [0]. *)
Record MessagePacket := mkPacket {
  arena_ : option Z;
  data_ : Z;
  num_bytes_ : Z;
  handles_ : Z;
  num_handles_ : Z
}.

#[global] Instance message_packet_eq_dec : EqDecision MessagePacket.
Proof. solve_decision. Defined.

(** Memory, as 32-bit words by address. *)
Abbreviation memory := (Z -> Z).

Definition write_word (a v : Z) (mem : memory) : memory := fun b => if b =? a then v else mem b.

(** Reading through a null pointer crashes. *)
Definition get_txid (mem : memory) (p : MessagePacket) : exec Z :=
  if num_bytes_ p <? 4 then Done 0
  else if data_ p =? 0 then Panic else Done (mem (data_ p)).

Definition set_txid (txid : Z) (p : MessagePacket) (mem : memory) : exec memory :=
  (ASSERT 4 <=? num_bytes_ p ;;
   if data_ p =? 0 then Panic else Done (write_word (data_ p) txid mem))%exec.

(** Which of the results the caller asks for. *)
Record Outs := mkOuts {
  out_arena : bool;
  out_data : bool;
  out_num_bytes : bool;
  out_handles : bool;
  out_num_handles : bool
}.

(** What it is given. *)
Record Message := mkMessage {
  msg_arena : option (option Z);
  msg_data : option Z;
  msg_num_bytes : option Z;
  msg_handles : option Z;
  msg_num_handles : option Z
}.

Definition CopyOut (o : Outs) (p : MessagePacket) : Message * MessagePacket :=
  (mkMessage (if out_arena o then Some (arena_ p) else None)
     (if out_data o then Some (data_ p) else None)
     (if out_num_bytes o then Some (num_bytes_ p) else None)
     (if out_handles o then Some (handles_ p) else None)
     (if out_num_handles o then Some (num_handles_ p) else None),
   mkPacket (arena_ p) (if out_data o then 0 else data_ p) (num_bytes_ p)
     (if out_handles o then 0 else handles_ p) (num_handles_ p)).

(** The handle values in an array of [n]. *)
Fixpoint read_handles (mem : memory) (handles : Z) (n : nat) : list Z :=
  match n with O => [] | S n' => mem handles :: read_handles mem (handles + 4) n' end.

(** The handles the destructor closes. *)
Definition packet_closes (mem : memory) (p : MessagePacket) : list Z :=
  if handles_ p =? 0 then [] else read_handles mem (handles_ p) (Z.to_nat (num_handles_ p)).

(** ** Channels *)

Definition kMinTxid : Z := 2 ^ 31.
Definition kNumTxids : Z := 2 ^ 32 - 1 - kMinTxid + 1.

(** [unowned_callback_request_] is the request with the channel's address for identity. *)
Record Channel := mkChannel {
  peer_ : option Z;
  callback_request_ : option CallbackRequest;
  callback_request_pending_queue_ : bool;
  num_pending_callbacks_ : Z;
  msg_queue_ : list MessagePacket;
  dispatcher_ : option Z;
  channel_read_ : option Z;
  next_id_ : Z;
  waiters_ : list Z
}.

Record MessageWaiter := mkWaiter {
  w_channel_ : option Z;
  txid_ : option Z;
  status_ : option zx_status;
  msg_ : option MessagePacket
}.

Section channel.
Context `{FdfAbi} `{ArenaAbi} `{PacketAbi} {D : Type} `{DispatcherOps D}.

Record World := mkWorld {
  channels : gmap Z Channel;
  waiters : gmap Z MessageWaiter;
  dispatchers : gmap Z D;
  arenas : gmap Z fdf_arena;
  handle_table : HandleTableArena Z;
  mem : memory
}.

(** Updates of the world. *)
Definition set_channel (i : Z) (c : Channel) (w : World) : World :=
  mkWorld (<[i := c]> (channels w)) (waiters w) (dispatchers w) (arenas w) (handle_table w) (mem w).
Definition set_waiter (i : Z) (x : MessageWaiter) (w : World) : World :=
  mkWorld (channels w) (<[i := x]> (waiters w)) (dispatchers w) (arenas w) (handle_table w) (mem w).
Definition del_waiter (i : Z) (w : World) : World :=
  mkWorld (channels w) (delete i (waiters w)) (dispatchers w) (arenas w) (handle_table w) (mem w).
Definition set_dispatcher (i : Z) (d : D) (w : World) : World :=
  mkWorld (channels w) (waiters w) (<[i := d]> (dispatchers w)) (arenas w) (handle_table w) (mem w).
Definition set_arena (i : Z) (a : fdf_arena) (w : World) : World :=
  mkWorld (channels w) (waiters w) (dispatchers w) (<[i := a]> (arenas w)) (handle_table w) (mem w).
Definition set_mem (m : memory) (w : World) : World :=
  mkWorld (channels w) (waiters w) (dispatchers w) (arenas w) (handle_table w) m.

(** The call [dispatcher->QueueRegisteredCallback(request, reason)] still to be made. *)
Record QueueAction := mkAction {
  act_dispatcher : Z;
  act_request : Z;
  act_reason : zx_status
}.

(** Following a pointer; a dangling one crashes. *)
Definition deref_channel (i : Z) (w : World) : exec Channel :=
  match channels w !! i with Some c => Done c | None => Panic end.
Definition deref_waiter (i : Z) (w : World) : exec MessageWaiter :=
  match waiters w !! i with Some x => Done x | None => Panic end.
Definition deref_dispatcher (i : Z) (w : World) : exec D :=
  match dispatchers w !! i with Some d => Done d | None => Panic end.
Definition deref_arena (i : Z) (w : World) : exec fdf_arena :=
  match arenas w !! i with Some a => Done a | None => Panic end.

Definition IsWaitAsyncRegisteredLocked (c : Channel) : bool := bool_decide (dispatcher_ c <> None).
Definition IsInCallbackLocked (c : Channel) : bool := 0 <? num_pending_callbacks_ c.
Definition HasIncompleteWaitAsync (c : Channel) : bool :=
  IsWaitAsyncRegisteredLocked c || IsInCallbackLocked c.

(** *** Updates of a channel *)

Definition set_queue (l : list MessagePacket) (c : Channel) : Channel :=
  mkChannel (peer_ c) (callback_request_ c) (callback_request_pending_queue_ c)
    (num_pending_callbacks_ c) l (dispatcher_ c) (channel_read_ c) (next_id_ c) (waiters_ c).
Definition set_pending (b : bool) (c : Channel) : Channel :=
  mkChannel (peer_ c) (callback_request_ c) b (num_pending_callbacks_ c) (msg_queue_ c)
    (dispatcher_ c) (channel_read_ c) (next_id_ c) (waiters_ c).
Definition set_waiters (l : list Z) (c : Channel) : Channel :=
  mkChannel (peer_ c) (callback_request_ c) (callback_request_pending_queue_ c)
    (num_pending_callbacks_ c) (msg_queue_ c) (dispatcher_ c) (channel_read_ c) (next_id_ c) l.
Definition set_next_id (n : Z) (c : Channel) : Channel :=
  mkChannel (peer_ c) (callback_request_ c) (callback_request_pending_queue_ c)
    (num_pending_callbacks_ c) (msg_queue_ c) (dispatcher_ c) (channel_read_ c) n (waiters_ c).
Definition set_peer (p : option Z) (c : Channel) : Channel :=
  mkChannel p (callback_request_ c) (callback_request_pending_queue_ c) (num_pending_callbacks_ c)
    (msg_queue_ c) (dispatcher_ c) (channel_read_ c) (next_id_ c) (waiters_ c).
Definition set_read (r : option CallbackRequest) (d read : option Z) (c : Channel) : Channel :=
  mkChannel (peer_ c) r (callback_request_pending_queue_ c) (num_pending_callbacks_ c) (msg_queue_ c)
    d read (next_id_ c) (waiters_ c).
Definition set_callbacks (n : Z) (c : Channel) : Channel :=
  mkChannel (peer_ c) (callback_request_ c) (callback_request_pending_queue_ c) n (msg_queue_ c)
    (dispatcher_ c) (channel_read_ c) (next_id_ c) (waiters_ c).

(** The constructor. *)
Definition new_channel (self : Z) : Channel :=
  mkChannel None (Some (new_request self kOther)) false 0 [] None None 0 [].

(** [Channel::Init] *)
Definition Init (peer : Z) (c : Channel) : Channel := set_peer (Some peer) c.

(** [Channel::Create]: the ends [ch0] and [ch1], and their handles. *)
Definition ChannelCreate (ch0 ch1 : Z) (w : World) : exec (zx_status * option (Z * Z) * World) :=
  let w := set_channel ch1 (Init ch0 (new_channel ch1)) (set_channel ch0 (Init ch1 (new_channel ch0)) w) in
  '(t0, handle0) ← Handles.Create (handle_table w) (Some ch0);
  '(t1, handle1) ← Handles.Create t0 (Some ch1);
  match handle0, handle1 with
  | Some p0, Some p1 =>
      match deref t1 p0, deref t1 p1 with
      | Some h0, Some h1 =>
          Done (ZX_OK, Some (value_ h0, value_ h1),
                mkWorld (channels w) (waiters w) (dispatchers w) (arenas w) t1 (mem w))
      | _, _ => Panic
      end
  | Some p0, None =>
      t2 ← Handles.Delete t1 p0;
      Done (ZX_ERR_NO_RESOURCES, None,
            mkWorld (channels w) (waiters w) (dispatchers w) (arenas w) t2 (mem w))
  | None, Some p1 =>
      t2 ← Handles.Delete t1 p1;
      Done (ZX_ERR_NO_RESOURCES, None,
            mkWorld (channels w) (waiters w) (dispatchers w) (arenas w) t2 (mem w))
  | None, None =>
      Done (ZX_ERR_NO_RESOURCES, None,
            mkWorld (channels w) (waiters w) (dispatchers w) (arenas w) t1 (mem w))
  end.

(** ** Argument checks *)

Definition CheckReadArgs (o : Outs) : zx_status :=
  if negb (out_arena o) && (out_data o || out_handles o) then ZX_ERR_INVALID_ARGS else ZX_OK.

Record WriteArgs := mkWrite {
  wr_arena : option Z;
  wr_data : Z;
  wr_num_bytes : Z;
  wr_handles : Z;
  wr_num_handles : Z
}.

(** [fdf_arena_contains] *)
Definition fdf_arena_contains (arena : option Z) (data num_bytes : Z) (w : World) : exec bool :=
  match arena with
  | None => Panic
  | Some a => ar ← deref_arena a w; Contains data num_bytes ar
  end.

(** The check of one handle to be transferred by [this]. *)
Definition check_handle (this handle : Z) (w : World) : exec zx_status :=
  if IsFdfHandle handle then
    match GetObject (handle_table w) handle with
    | inl _ => Done ZX_ERR_INVALID_ARGS
    | inr transfer_channel =>
        if transfer_channel =? this then Done ZX_ERR_NOT_SUPPORTED
        else
          c ← deref_channel transfer_channel w;
          Done (if HasIncompleteWaitAsync c then ZX_ERR_INVALID_ARGS else ZX_OK)
    end
  else Done ZX_OK.

(** The loop over the handles: [n] of them, from address [handles]. *)
Fixpoint check_handles (this handles : Z) (n : nat) (w : World) : exec zx_status :=
  match n with
  | O => Done ZX_OK
  | S n' =>
      if handles =? 0 then Panic
      else
        status ← check_handle this (mem w handles) w;
        if decide (status = ZX_OK) then check_handles this (handles + 4) n' w else Done status
  end.

Definition CheckWriteArgs (this : Z) (a : WriteArgs) (w : World) : exec zx_status :=
  if bool_decide (wr_arena a = None) && (negb (wr_data a =? 0) || negb (wr_handles a =? 0))
  then Done ZX_ERR_INVALID_ARGS
  else
    data_ok ← (if wr_data a =? 0 then Done true
               else fdf_arena_contains (wr_arena a) (wr_data a) (wr_num_bytes a) w);
    if negb data_ok then Done ZX_ERR_INVALID_ARGS
    else
      handles_ok ← (if wr_handles a =? 0 then Done true
                    else fdf_arena_contains (wr_arena a) (wr_handles a) (wr_num_handles a * 4) w);
      if negb handles_ok then Done ZX_ERR_INVALID_ARGS
      else check_handles this (wr_handles a) (Z.to_nat (wr_num_handles a)) w.

(** [MessagePacket::Create]; [block] is the memory an arena gets if it is full, [calloc_ok] whether
    [calloc] succeeds. *)
Definition CreatePacket (block : Z) (calloc_ok : bool) (a : WriteArgs) (w : World)
    : exec (option MessagePacket * World) :=
  let packet := mkPacket (wr_arena a) (wr_data a) (wr_num_bytes a) (wr_handles a) (wr_num_handles a) in
  match wr_arena a with
  | Some i =>
      ar ← deref_arena i w;
      Done (Some packet, set_arena i (Allocate block sizeof_MessagePacket ar).2 w)
  | None => Done (if calloc_ok then Some packet else None, w)
  end.

(** ** Waiting calls *)

Definition DeliverLocked (i : Z) (msg : MessagePacket) (w : World) : exec World :=
  (x ← deref_waiter i w;
   ASSERT bool_decide (w_channel_ x <> None) ;;
   Done (set_waiter i (mkWaiter (w_channel_ x) (txid_ x) (Some ZX_OK) (Some msg)) w))%exec.

(** Called on a waiter that was taken off its list. *)
Definition CancelLocked (i : Z) (status : zx_status) (w : World) : exec World :=
  (x ← deref_waiter i w;
   ASSERT bool_decide (w_channel_ x <> None) ;;
   Done (set_waiter i (mkWaiter (w_channel_ x) (txid_ x) (Some status) (msg_ x)) w))%exec.

Definition TakeLocked (i : Z) (w : World) : exec ((zx_status + MessagePacket) * World) :=
  (x ← deref_waiter i w;
   ASSERT bool_decide (w_channel_ x <> None) ;;
   let w' := set_waiter i (mkWaiter None (txid_ x) (status_ x) (msg_ x)) w in
   match status_ x, msg_ x with
   | None, _ => Done (inl ZX_ERR_TIMED_OUT, w')
   | Some ZX_OK, Some m => Done (inr m, set_waiter i (mkWaiter None (txid_ x) (status_ x) None) w)
   | Some ZX_OK, None => Panic
   | Some status, _ => Done (inl status, w')
   end)%exec.

(** The first waiter in the list with the given txid. *)
Fixpoint find_waiter (txid : Z) (l : list Z) (w : World) : exec (option Z) :=
  match l with
  | [] => Done None
  | i :: rest =>
      x ← deref_waiter i w;
      match txid_ x with
      | None => Panic
      | Some t => if t =? txid then Done (Some i) else find_waiter txid rest w
      end
  end.

Definition IsTxidInUseLocked (txid : Z) (c : Channel) (w : World) : exec bool :=
  r ← find_waiter txid (waiters_ c) w;
  Done (bool_decide (r <> None)).

(** The loop of [AllocateTxidLocked]: the txid and the new [next_id_]. *)
Fixpoint allocate_txid (fuel : nat) (next : Z) (c : Channel) (w : World) : exec (option (Z * Z)) :=
  match fuel with
  | O => Done None
  | S fuel' =>
      let txid := u32 (kMinTxid + next) in
      (ASSERT kMinTxid <=? txid ;;
       let next := Z.land (u32 (next + 1)) (kNumTxids - 1) in
       in_use ← IsTxidInUseLocked txid c w;
       if in_use : bool then allocate_txid fuel' next c w else Done (Some (txid, next)))%exec
  end.

(** At most one round more than there are waiters. *)
Definition AllocateTxidLocked (c : Channel) (w : World) : exec (option (Z * Z)) :=
  allocate_txid (S (length (waiters_ c))) (next_id_ c) c w.

(** ** Writing *)

Definition WriteSelfLocked (this : Z) (msg : MessagePacket) (w : World)
    : exec (option QueueAction * World) :=
  c ← deref_channel this w;
  delivered ← (match waiters_ c with
               | [] => Done (None : option Z)
               | l => txid ← get_txid (mem w) msg; find_waiter txid l w
               end);
  match delivered with
  | Some i =>
      let w := set_channel this (set_waiters (filter (fun j => j <> i) (waiters_ c)) c) w in
      w' ← DeliverLocked i msg w;
      Done (None, w')
  | None =>
      let c := set_queue (msg_queue_ c ++ [msg]) c in
      match dispatcher_ c with
      | None => Done (None, set_channel this c w)
      | Some d =>
          if callback_request_pending_queue_ c
          then Done (Some (mkAction d this ZX_OK), set_channel this (set_pending false c) w)
          else Done (None, set_channel this c w)
      end
  end.

Definition Write (this block : Z) (calloc_ok : bool) (a : WriteArgs) (w : World)
    : exec (zx_status * option QueueAction * World) :=
  status ← CheckWriteArgs this a w;
  if negb (bool_decide (status = ZX_OK)) then Done (status, None, w)
  else
    c ← deref_channel this w;
    match peer_ c with
    | None => Done (ZX_ERR_PEER_CLOSED, None, w)
    | Some peer =>
        '(msg, w) ← CreatePacket block calloc_ok a w;
        match msg with
        | None => Done (ZX_ERR_NO_MEMORY, None, w)
        | Some msg => '(act, w) ← WriteSelfLocked peer msg w; Done (ZX_OK, act, w)
        end
    end.

(** ** Reading *)

(** [Read]: the status, the message, and the handles closed with the packet. *)
Definition Read (this : Z) (o : Outs) (w : World)
    : exec (zx_status * option Message * list Z * World) :=
  match CheckReadArgs o with
  | ZX_OK =>
      c ← deref_channel this w;
      match msg_queue_ c with
      | [] => Done (if decide (peer_ c = None) then ZX_ERR_PEER_CLOSED else ZX_ERR_SHOULD_WAIT,
                    None, [], w)
      | msg :: rest =>
          let '(out, packet) := CopyOut o msg in
          Done (ZX_OK, Some out, packet_closes (mem w) packet, set_channel this (set_queue rest c) w)
      end
  | status => Done (status, None, [], w)
  end.

(** [TakeCallbackRequestLocked]: the request, its callback set, and the channel without it. *)
Definition TakeCallbackRequestLocked (this : Z) (c : Channel) : exec (CallbackRequest * Channel) :=
  match callback_request_ c with
  | None => Panic
  | Some r =>
      (ASSERT negb (IsPending r) ;;
       r ← SetCallback (default 0 (dispatcher_ c)) this 0 r;
       Done (r, set_read None (dispatcher_ c) (channel_read_ c) c))%exec
  end.

Definition ResetCallbackRequestStateLocked (r : option CallbackRequest) (c : Channel) : exec Channel :=
  match r with
  | None => Panic
  | Some r =>
      (ASSERT bool_decide (callback_request_ c = None) ;;
       Done (set_pending false (set_read (Some (Dispatcher.Reset r)) (dispatcher_ c) (channel_read_ c) c)))%exec
  end.

Definition WaitAsync (this dispatcher channel_read : Z) (w : World)
    : exec (zx_status * option QueueAction * World) :=
  c ← deref_channel this w;
  if bool_decide (peer_ c = None) && bool_decide (msg_queue_ c = [])
  then Done (ZX_ERR_PEER_CLOSED, None, w)
  else if bool_decide (dispatcher_ c <> None) then Done (ZX_ERR_BAD_STATE, None, w)
  else
    d ← deref_dispatcher dispatcher w;
    '(r, c) ← TakeCallbackRequestLocked this
                (set_read (callback_request_ c) (Some dispatcher) (Some channel_read) c);
    let '(returned, d) := op_register r d in
    let c := set_pending true c in
    let w := set_dispatcher dispatcher d w in
    match returned with
    | Some r =>
        c ← ResetCallbackRequestStateLocked (Some r) (set_read (callback_request_ c) None None c);
        Done (ZX_ERR_UNAVAILABLE, None, set_channel this c w)
    | None =>
        match msg_queue_ c with
        | [] => Done (ZX_OK, None, set_channel this c w)
        | _ => Done (ZX_OK, Some (mkAction dispatcher this ZX_OK),
                     set_channel this (set_pending false c) w)
        end
    end.

Definition CancelWait (this : Z) (w : World) : exec (zx_status * option QueueAction * World) :=
  c ← deref_channel this w;
  match dispatcher_ c with
  | None => Done (ZX_ERR_NOT_FOUND, None, w)
  | Some dispatcher =>
      d ← deref_dispatcher dispatcher w;
      if op_unsynchronized d then
        if negb (callback_request_pending_queue_ c) then
          let '(updated, d) := op_set_reason this ZX_ERR_CANCELED d in
          Done (if updated then ZX_OK else ZX_ERR_NOT_FOUND, None, set_dispatcher dispatcher d w)
        else
          Done (ZX_OK, Some (mkAction dispatcher this ZX_ERR_CANCELED),
                set_channel this (set_pending false c) w)
      else
        let '(r, d) := op_cancel this d in
        c ← ResetCallbackRequestStateLocked r c;
        Done (ZX_OK, None, set_channel this (set_read (callback_request_ c) None None c)
                             (set_dispatcher dispatcher d w))
  end.

(** ** Calls *)

(** [Call] with its arguments given, up to the wait: [ZX_OK] if the thread goes on to wait. [waiter] is the address of the
    [MessageWaiter], [stack] the thread's call stack. *)
Definition call_begin (this waiter block : Z) (calloc_ok : bool) (stack : list Entry) (a : WriteArgs)
    (o : Outs) (w : World) : exec (zx_status * option QueueAction * World) :=
  status ← CheckWriteArgs this a w;
  if negb (bool_decide (status = ZX_OK)) then Done (status, None, w)
  else if negb (bool_decide (CheckReadArgs o = ZX_OK)) then Done (CheckReadArgs o, None, w)
  else if wr_num_bytes a <? 4 then Done (ZX_ERR_INVALID_ARGS, None, w)
  else
    allowed ← (match GetCurrentDispatcher stack with
               | None => Done true
               | Some d => d ← deref_dispatcher d w; Done (op_allow_sync_calls d)
               end);
    if negb allowed then Done (ZX_ERR_BAD_STATE, None, w)
    else
      '(msg, w) ← CreatePacket block calloc_ok a w;
      match msg with
      | None => Done (ZX_ERR_NO_MEMORY, None, w)
      | Some msg =>
          c ← deref_channel this w;
          match peer_ c with
          | None => Done (ZX_ERR_PEER_CLOSED, None, w)
          | Some peer =>
              found ← AllocateTxidLocked c w;
              match found with
              | None => Panic
              | Some (txid, next) =>
                  m ← set_txid txid msg (mem w);
                  let w := set_mem m (set_waiter waiter (mkWaiter (Some this) (Some txid) None None) w) in
                  let w := set_channel this (set_waiters (waiters_ c ++ [waiter]) (set_next_id next c)) w in
                  '(act, w) ← WriteSelfLocked peer msg w;
                  Done (ZX_OK, act, w)
              end
          end
      end.

(** [Call] after the wait, which ends when the waiter has a status or the deadline has passed: the
    status and the reply. The waiter is destroyed. *)
Definition call_end (this waiter : Z) (o : Outs) (w : World)
    : exec (zx_status * option Message * list Z * World) :=
  '(reply, w) ← TakeLocked waiter w;
  c ← deref_channel this w;
  match reply with
  | inl status =>
      let timed_out := bool_decide (status = ZX_ERR_TIMED_OUT) in
      let l := if timed_out then filter (fun j => j <> waiter) (waiters_ c) else waiters_ c in
      (ASSERT negb timed_out || bool_decide (waiter ∈ waiters_ c) ;;
       ASSERT negb (bool_decide (waiter ∈ l)) ;;
       Done (status, None, [], del_waiter waiter (set_channel this (set_waiters l c) w)))%exec
  | inr msg =>
      let '(out, packet) := CopyOut o msg in
      (ASSERT negb (bool_decide (waiter ∈ waiters_ c)) ;;
       Done (ZX_OK, Some out, packet_closes (mem w) packet, del_waiter waiter w))%exec
  end.

(** ** Closing *)

(** [while (!waiters_.is_empty()) waiters_.pop_front()->CancelLocked(ZX_ERR_PEER_CLOSED);] *)
Fixpoint cancel_waiters (l : list Z) (w : World) : exec World :=
  match l with
  | [] => Done w
  | i :: rest => w' ← CancelLocked i ZX_ERR_PEER_CLOSED w; cancel_waiters rest w'
  end.

Definition abort_calls (this : Z) (w : World) : exec World :=
  c ← deref_channel this w;
  w' ← cancel_waiters (waiters_ c) w;
  Done (set_channel this (set_waiters [] c) w').

(** [Close], up to the call of the peer's [OnPeerClosed]: the peer to tell. *)
Definition Close (this : Z) (w : World) : exec (option Z * World) :=
  (c ← deref_channel this w;
   ASSERT negb (IsWaitAsyncRegisteredLocked c) ;;
   let w := set_channel this (set_peer None c) w in
   w ← (match peer_ c with
        | None => Done w
        | Some p => cp ← deref_channel p w; Done (set_channel p (set_peer None cp) w)
        end);
   w ← abort_calls this w;
   Done (peer_ c, w))%exec.

Definition OnPeerClosed (this : Z) (w : World) : exec (option QueueAction * World) :=
  w ← abort_calls this w;
  c ← deref_channel this w;
  match msg_queue_ c, dispatcher_ c with
  | [], Some d =>
      if callback_request_pending_queue_ c
      then Done (Some (mkAction d this ZX_ERR_PEER_CLOSED), set_channel this (set_pending false c) w)
      else Done (None, w)
  | _, _ => Done (None, w)
  end.

(** ** The callback *)

(** [DispatcherCallback] up to the call of the handler: the dispatcher, the read and the status the
    handler is given. The request comes back cleared by [CallbackRequest::Call]. *)
Definition callback_begin (this : Z) (r : CallbackRequest) (status : zx_status) (w : World)
    : exec (Z * Z * zx_status * World) :=
  (ASSERT negb (IsPending r) ;;
   c ← deref_channel this w;
   match dispatcher_ c, channel_read_ c with
   | Some d, Some read =>
       Done (d, read, status,
             set_channel this (set_callbacks (u32 (num_pending_callbacks_ c + 1))
                                 (set_read (Some r) None None c)) w)
   | _, _ => Panic
   end)%exec.

(** The section after the handler. *)
Definition callback_end (this : Z) (w : World) : exec World :=
  (c ← deref_channel this w;
   ASSERT 0 <? num_pending_callbacks_ c ;;
   Done (set_channel this (set_callbacks (num_pending_callbacks_ c - 1) c) w))%exec.

(** ** The C interface *)

(** Look up the channel of a handle; a bad handle aborts. *)
Definition fdf_channel {A} (handle : Z) (k : Z -> exec A) (w : World) : exec A :=
  match GetObject (handle_table w) handle with inr ch => k ch | inl _ => Panic end.

Definition fdf_channel_write (handle block : Z) (calloc_ok : bool) (a : WriteArgs) (w : World) :=
  fdf_channel handle (fun ch => Write ch block calloc_ok a w) w.

Definition fdf_channel_read (handle : Z) (o : Outs) (w : World) :=
  fdf_channel handle (fun ch => Read ch o w) w.

(** [channel_read]: its address, and the handle it names. *)
Definition fdf_channel_wait_async (dispatcher channel_read handle : Z) (w : World)
    : exec (zx_status * option QueueAction * World) :=
  if channel_read =? 0 then Done (ZX_ERR_INVALID_ARGS, None, w)
  else fdf_channel handle (fun ch => WaitAsync ch dispatcher channel_read w) w.

(** [args] may be null: the first check of [Channel::Call]. *)
Definition fdf_channel_call (handle waiter block : Z) (calloc_ok : bool) (stack : list Entry)
    (args : option (WriteArgs * Outs)) (w : World) : exec (zx_status * option QueueAction * World) :=
  fdf_channel handle (fun ch =>
    match args with
    | None => Done (ZX_ERR_INVALID_ARGS, None, w)
    | Some (a, o) => call_begin ch waiter block calloc_ok stack a o w
    end) w.

Definition fdf_channel_cancel_wait (handle : Z) (w : World) :=
  fdf_channel handle (fun ch => CancelWait ch w) w.

(** [fdf_handle_close]: the peer whose [OnPeerClosed] is called before the handle is dropped. A
    handle that is not a channel's goes to [zx_handle_close], which is outside the sources. *)
Definition fdf_handle_close (handle : Z) (w : World) : exec (option Z * World) :=
  if handle =? FDF_HANDLE_INVALID then Done (None, w)
  else if negb (IsFdfHandle handle) then Done (None, w)
  else
    match MapValueToHandle (handle_table w) handle with
    | None => Panic
    | Some p =>
        match GetObject (handle_table w) handle with
        | inl _ => Done (None, w)
        | inr ch =>
            '(peer, w) ← Close ch w;
            t ← Handles.Delete (handle_table w) p;
            Done (peer, mkWorld (channels w) (waiters w) (dispatchers w) (arenas w) t (mem w))
        end
    end.

End channel.
Arguments World : clear implicits.
