(* ===== verification/ChannelRun.v ===== *)
(** * ChannelRun: channels, their readers and their callers

    The critical sections of [Channel] interleaved by the threads that use channels and by the
    dispatchers that run read callbacks, with the invariants of the reachable states. The dispatchers
    are known by what they promise, [DispatcherLaws]; the dispatcher of [DispatcherRun] keeps the
    promise ([system_laws], by the accounting of [DispatcherTrace]). *)
From Stdlib Require Import ZArith Lia.
From stdpp Require Import prelude gmap.
From S2P Require Import Prelude Handles Arena Dispatcher DispatcherRun DispatcherTrace Channel.

Local Open Scope Z_scope.

(** ** What dispatchers promise *)

(** A dispatcher holds requests. [d_queue]: the thread that called [QueueRegisteredCallback] enters
    it; [d_step]: anything else the dispatcher does by itself. *)
Class DispatcherModel (D : Type) := {
  d_ok : D -> Prop;
  d_held : D -> list Z;
  d_queue : Z -> zx_status -> D -> Event -> D -> Prop;
  d_step : D -> Event -> D -> Prop
}.

(** The requests of [d'] are those of [d], with what the event accepted and finished. *)
Definition accounts `{DispatcherModel D} (e : Event) (d d' : D) : Prop :=
  forall x, (occ x (accepted_by e) + occ x (d_held d) = occ x (finished_by e) + occ x (d_held d'))%nat.

Class DispatcherLaws (D : Type) `{DispatcherOps D} `{DispatcherModel D} : Prop := {
  law_register r d r' d' :
    d_ok d -> op_register r d = (r', d') ->
    d_ok d' /\ ((r' = Some r /\ accounts EvTau d d') \/ (r' = None /\ accounts (EvAccepted r) d d'));
  law_cancel id d r d' :
    d_ok d -> op_cancel id d = (r, d') ->
    d_ok d' /\ accounts (dropped r) d d' /\ (forall r', r = Some r' -> request_id r' = id);
  law_set_reason id reason d b d' :
    d_ok d -> op_set_reason id reason d = (b, d') -> d_ok d' /\ accounts EvTau d d';
  law_queue id reason d e d' :
    d_ok d -> d_queue id reason d e d' ->
    d_ok d' /\ accounts e d d' /\ accepted_by e = [] /\ (forall r, e <> EvDropped r);
  law_step d e d' : d_ok d -> d_step d e d' -> d_ok d' /\ accounts e d d'
}.

(** ** The dispatcher of [DispatcherRun] keeps the promise *)

#[global] Instance system_ops : DispatcherOps System := {|
  op_unsynchronized s := unsynchronized_ (disp s);
  op_allow_sync_calls s := allow_sync_calls_ (disp s);
  op_register r s :=
    let '(r', d) := RegisterCallbackWithoutQueueing r (disp s) in
    (r', mkSystem d (threads s) (armed s) (phase s));
  op_cancel id s := cancel_callback id s;
  op_set_reason id reason s :=
    let '(b, d) := SetCallbackReason id reason (disp s) in
    (b, mkSystem d (threads s) (armed s) (phase s))
|}.

#[global] Instance system_model : DispatcherModel System := {|
  d_ok s := system_inv s /\ phase_inv s;
  d_held s := pending s;
  d_queue id reason s e s' :=
    exists stack o d, queue_begin (in_to_call id s) stack id reason (disp s) = Done (o, d) /\
      e = queue_event o /\ s' = mkSystem d (threads s ++ [queue_thread o]) (armed s) (phase s);
  d_step := step
|}.

Lemma system_step_law s e s' :
  d_ok s -> step s e s' -> d_ok s' /\ accounts e s s'.
Proof.
  intros [Hi Hp] Hs. split; [split; [by eapply step_inv|by eapply step_phase]|].
  intros x. simpl. rewrite !occ_pending. by apply step_load.
Qed.

Lemma remove_request_id id l r l' : remove_request id l = Some (r, l') -> request_id r = id.
Proof.
  revert l'. induction l as [|y l IH]; intros l'; simpl; [done|]. unfold has_id at 1.
  destruct (Z.eqb_spec (request_id y) id); [by intros [= <- <-]|].
  intros ([r' l''] & H & [= -> <-])%bind_Some. eauto.
Qed.

Lemma cancel_callback_id id s r s' : cancel_callback id s = (Some r, s') -> request_id r = id.
Proof.
  destruct (cancel_callback_cases id s) as [(d & -> & _)|(y & l1 & l & l' & w & l2 & _ & _ & Hr & ->)].
  - intros [= E _]. revert E. unfold CancelCallback.
    destruct (remove_request id (registered_callbacks_ _)) as [[y l]|] eqn:E1;
      [intros [= <-]; by eapply remove_request_id|].
    destruct (remove_request id (callback_queue_ _)) as [[y l]|] eqn:E2;
      [intros [= <-]; by eapply remove_request_id|].
    destruct (remove_request id (shutdown_queue_ _)) as [[y l]|] eqn:E3; [|done].
    intros [= <-]. by eapply remove_request_id.
  - intros [= <- _]. by eapply remove_request_id.
Qed.

#[global] Instance system_laws : DispatcherLaws System.
Proof.
  split.
  - intros r s r' s' Hok. simpl. destruct (RegisterCallbackWithoutQueueing r (disp s)) as [o d] eqn:E.
    intros [= <- <-]. destruct o as [r0|].
    + unfold RegisterCallbackWithoutQueueing in E. destruct (negb _); simplify_eq.
      destruct s; simpl in *. split; [done|]. left. split; [done|]. by intros x.
    + destruct (system_step_law s _ _ Hok (step_register s r d E)) as [? ?]. auto.
  - intros id s r s' Hok E. simpl in E. pose proof (step_cancel s id) as Hs. rewrite E in Hs. simpl in Hs.
    destruct (system_step_law _ _ _ Hok Hs) as [? ?]. split_and!; [done..|].
    intros r' ->. by eapply cancel_callback_id.
  - intros id reason s b s' Hok. simpl. pose proof (step_reason s id reason) as Hs.
    destruct (SetCallbackReason id reason (disp s)) as [b' d]. intros [= <- <-].
    by apply (system_step_law _ _ _ Hok Hs).
  - intros id reason s e s' Hok (stack & o & d & E & -> & ->).
    destruct (system_step_law _ _ _ Hok (step_queue s stack id reason o d E)). by destruct o.
  - intros s e s' Hok Hs. by apply system_step_law.
Qed.

(** ** The system *)

(** What a step shows of a channel's messages: a successful write of a packet to the end [i]; one that
    was handed to a call waiting there; what a read from the end [i] gave its caller, who asked
    for the results [o]. *)
Inductive ChannelEvent :=
  | ChTau
  | ChSent (i : Z) (p : MessagePacket)
  | ChAnswered (i : Z) (p : MessagePacket)
  | ChReceived (i : Z) (o : Outs) (m : Message).

Section run.
Context `{FdfAbi} `{ArenaAbi} `{PacketAbi} {D : Type} `{DispatcherOps D} `{DispatcherModel D}.

(** [actions]: threads about to call [QueueRegisteredCallback]; [closing]: threads about to call
    [OnPeerClosed]; [calling]: read callbacks a dispatcher has called, with the status, that have not
    reached the channel's lock; [handlers]: read handlers running; [calls]: threads waiting in
    [Call], with their waiter. *)
Record CSystem := mkCS {
  cw : World D;
  actions : list QueueAction;
  closing : list Z;
  calling : list (Z * zx_status);
  handlers : list Z;
  calls : list (Z * Z)
}.

Definition opt_list {A} (x : option A) : list A := match x with Some a => [a] | None => [] end.

(** The channel callbacks among the calls of a dispatcher. *)
Definition called_channels (e : Event) (w : World D) : list (Z * zx_status) :=
  match e with
  | EvCalled r st => if decide (is_Some (channels w !! request_id r)) then [(request_id r, st)] else []
  | _ => []
  end.

Definition queue_of (i : Z) (w : World D) : list MessagePacket :=
  match channels w !! i with Some c => msg_queue_ c | None => [] end.

Definition waiting_at (i : Z) (w : World D) : list Z :=
  match channels w !! i with Some c => waiters_ c | None => [] end.

(** One of the calls that were [waiting] at the end [j] has been taken off its list and holds the
    packet as its answer. *)
Definition handed_over (waiting : list Z) (j : Z) (p : MessagePacket) (w' : World D) : bool :=
  existsb (fun k => negb (bool_decide (k ∈ waiting_at j w')) &&
                    match waiters w' !! k with
                    | Some x => bool_decide (status_ x = Some ZX_OK) && bool_decide (msg_ x = Some p)
                    | None => false
                    end) waiting.

(** A write or call from [this] that returned [st]: if it succeeded, the packet it was given went to
    the peer, unless a waiting call has it. *)
Definition sent_event (this : Z) (a : WriteArgs) (st : zx_status) (w w' : World D) : ChannelEvent :=
  let p := mkPacket (wr_arena a) (wr_data a) (wr_num_bytes a) (wr_handles a) (wr_num_handles a) in
  match st, channels w !! this ≫= peer_ with
  | ZX_OK, Some j => if handed_over (waiting_at j w) j p w' then ChAnswered j p else ChSent j p
  | _, _ => ChTau
  end.

(** A read that gave its caller [out]. *)
Definition received_event (this : Z) (o : Outs) (st : zx_status) (out : option Message) : ChannelEvent :=
  match st, out with
  | ZX_OK, Some m => ChReceived this o m
  | _, _ => ChTau
  end.

Inductive chstep : CSystem -> ChannelEvent -> CSystem -> Prop :=
  | ch_create s ch0 ch1 st hs w :
      ch0 <> ch1 ->
      (forall i, i = ch0 \/ i = ch1 -> channels (cw s) !! i = None /\ (i ∉ (calling s).*1) /\
         (forall k d, dispatchers (cw s) !! k = Some d -> occ i (d_held d) = 0%nat)) ->
      ChannelCreate ch0 ch1 (cw s) = Done (st, hs, w) ->
      chstep s ChTau (mkCS w (actions s) (closing s) (calling s) (handlers s) (calls s))
  | ch_dispatcher s k d :
      dispatchers (cw s) !! k = None -> d_ok d -> d_held d = [] ->
      chstep s ChTau (mkCS (set_dispatcher k d (cw s)) (actions s) (closing s) (calling s) (handlers s)
                        (calls s))
  | ch_write s this block ok a st act w :
      Write this block ok a (cw s) = Done (st, act, w) ->
      chstep s (sent_event this a st (cw s) w)
        (mkCS w (actions s ++ opt_list act) (closing s) (calling s) (handlers s) (calls s))
  | ch_read s this o st out closes w :
      Read this o (cw s) = Done (st, out, closes, w) ->
      chstep s (received_event this o st out)
        (mkCS w (actions s) (closing s) (calling s) (handlers s) (calls s))
  | ch_wait s this k read st act w :
      WaitAsync this k read (cw s) = Done (st, act, w) ->
      chstep s ChTau (mkCS w (actions s ++ opt_list act) (closing s) (calling s) (handlers s) (calls s))
  | ch_cancel s this st act w :
      CancelWait this (cw s) = Done (st, act, w) ->
      chstep s ChTau (mkCS w (actions s ++ opt_list act) (closing s) (calling s) (handlers s) (calls s))
  | ch_call s this waiter block ok stack a o st act w :
      waiters (cw s) !! waiter = None ->
      (forall c, channels (cw s) !! this = Some c -> Z.of_nat (length (waiters_ c)) < 2 ^ 31) ->
      call_begin this waiter block ok stack a o (cw s) = Done (st, act, w) ->
      chstep s (sent_event this a st (cw s) w)
        (mkCS w (actions s ++ opt_list act) (closing s) (calling s) (handlers s)
           (if decide (st = ZX_OK) then calls s ++ [(this, waiter)] else calls s))
  | ch_call_end s l1 this waiter l2 o st out closes w :
      calls s = l1 ++ (this, waiter) :: l2 ->
      call_end this waiter o (cw s) = Done (st, out, closes, w) ->
      chstep s ChTau (mkCS w (actions s) (closing s) (calling s) (handlers s) (l1 ++ l2))
  | ch_close s this peer w :
      Close this (cw s) = Done (peer, w) ->
      chstep s ChTau (mkCS w (actions s) (closing s ++ opt_list peer) (calling s) (handlers s) (calls s))
  | ch_peer_closed s l1 i l2 act w :
      closing s = l1 ++ i :: l2 -> OnPeerClosed i (cw s) = Done (act, w) ->
      chstep s ChTau (mkCS w (actions s ++ opt_list act) (l1 ++ l2) (calling s) (handlers s) (calls s))
  | ch_queue s l1 a l2 d e d' :
      actions s = l1 ++ a :: l2 -> dispatchers (cw s) !! act_dispatcher a = Some d ->
      d_queue (act_request a) (act_reason a) d e d' ->
      chstep s ChTau (mkCS (set_dispatcher (act_dispatcher a) d' (cw s)) (l1 ++ l2) (closing s)
                        (calling s ++ called_channels e (cw s)) (handlers s) (calls s))
  | ch_dispatch s k d e d' :
      dispatchers (cw s) !! k = Some d -> d_step d e d' ->
      (forall r, e = EvAccepted r \/ e = EvDropped r -> channels (cw s) !! request_id r = None) ->
      chstep s ChTau (mkCS (set_dispatcher k d' (cw s)) (actions s) (closing s)
                        (calling s ++ called_channels e (cw s)) (handlers s) (calls s))
  | ch_callback s l1 i st l2 k read st' w :
      calling s = l1 ++ (i, st) :: l2 ->
      callback_begin i (new_request i kOther) st (cw s) = Done (k, read, st', w) ->
      chstep s ChTau (mkCS w (actions s) (closing s) (l1 ++ l2) (handlers s ++ [i]) (calls s))
  | ch_callback_end s l1 i l2 w :
      handlers s = l1 ++ i :: l2 -> callback_end i (cw s) = Done w ->
      chstep s ChTau (mkCS w (actions s) (closing s) (calling s) (l1 ++ l2) (calls s))
  | ch_memory s m :
      chstep s ChTau (mkCS (set_mem m (cw s)) (actions s) (closing s) (calling s) (handlers s) (calls s)).

Definition empty_world (t : HandleTableArena Z) (a : gmap Z fdf_arena) (m : memory) : World D :=
  mkWorld ∅ ∅ ∅ a t m.

Inductive chrun : list ChannelEvent -> CSystem -> Prop :=
  | chrun_initial t a m : chrun [] (mkCS (empty_world t a m) [] [] [] [] [])
  | chrun_step tr s e s' : chrun tr s -> chstep s e s' -> chrun (tr ++ [e]) s'.

(** ** The cases of the operations *)

Lemma deref_channel_Done i (w : World D) c : deref_channel i w = Done c <-> channels w !! i = Some c.
Proof. unfold deref_channel. destruct (channels w !! i); naive_solver. Qed.

Lemma deref_waiter_Done i (w : World D) x : deref_waiter i w = Done x <-> waiters w !! i = Some x.
Proof. unfold deref_waiter. destruct (waiters w !! i); naive_solver. Qed.

Lemma deref_dispatcher_Done i (w : World D) d :
  deref_dispatcher i w = Done d <-> dispatchers w !! i = Some d.
Proof. unfold deref_dispatcher. destruct (dispatchers w !! i); naive_solver. Qed.

(** The message is not for a waiting call. *)
Definition unmatched (msg : MessagePacket) (c : Channel) (w : World D) : Prop :=
  waiters_ c = [] \/
  exists t, get_txid (mem w) msg = Done t /\ find_waiter t (waiters_ c) w = Done None.

Lemma WriteSelf_cases this msg (w : World D) act w' :
  WriteSelfLocked this msg w = Done (act, w') ->
  exists c, channels w !! this = Some c /\
  ((exists i x t, act = None /\ get_txid (mem w) msg = Done t /\
      find_waiter t (waiters_ c) w = Done (Some i) /\ waiters w !! i = Some x /\
      w' = set_waiter i (mkWaiter (w_channel_ x) (txid_ x) (Some ZX_OK) (Some msg))
             (set_channel this (set_waiters (filter (fun j => j <> i) (waiters_ c)) c) w)) \/
   (act = None /\ unmatched msg c w /\
      (dispatcher_ c = None \/ callback_request_pending_queue_ c = false) /\
      w' = set_channel this (set_queue (msg_queue_ c ++ [msg]) c) w) \/
   (exists d, act = Some (mkAction d this ZX_OK) /\ unmatched msg c w /\ dispatcher_ c = Some d /\
      callback_request_pending_queue_ c = true /\
      w' = set_channel this (set_pending false (set_queue (msg_queue_ c ++ [msg]) c)) w)).
Proof.
  unfold WriteSelfLocked. intros (c & Hc%deref_channel_Done & Hw)%exec_bind_Done.
  apply exec_bind_Done in Hw as (r & Hr & Hw). exists c. split; [done|].
  assert ((exists i t, r = Some i /\ get_txid (mem w) msg = Done t /\
    find_waiter t (waiters_ c) w = Done (Some i)) \/ r = None /\ unmatched msg c w) as Hcases.
  { unfold unmatched. destruct (waiters_ c) as [|x l] eqn:El; [injection Hr as <-; auto|].
    apply exec_bind_Done in Hr as (t & Ht & Hr). destruct r as [i|]; [left|right]; eauto 10. }
  destruct Hcases as [(i & t & -> & Ht & Hf)|[-> Hu]].
  - left. apply exec_bind_Done in Hw as (w1 & Hd & [= <- <-]).
    unfold DeliverLocked in Hd. apply exec_bind_Done in Hd as (x & Hx%deref_waiter_Done & Hd).
    apply exec_bind_Done in Hd as (? & _ & [= <-]). by exists i, x, t.
  - right. simpl in Hw. destruct (dispatcher_ c) as [d|] eqn:Ed.
    + destruct (callback_request_pending_queue_ c) eqn:Ep; injection Hw as <- <-; [right|left]; eauto 10.
    + injection Hw as <- <-. left. auto.
Qed.

Lemma CreatePacket_frame block ok a (w : World D) p w' :
  CreatePacket block ok a w = Done (p, w') ->
  (p = None \/ p = Some (mkPacket (wr_arena a) (wr_data a) (wr_num_bytes a) (wr_handles a) (wr_num_handles a))) /\
  channels w' = channels w /\ waiters w' = waiters w /\ dispatchers w' = dispatchers w /\ mem w' = mem w.
Proof.
  unfold CreatePacket. destruct (wr_arena a) as [i|].
  - intros (ar & _ & [= <- <-])%exec_bind_Done. simpl. auto.
  - intros [= <- <-]. destruct ok; auto 10.
Qed.

Lemma Write_cases this block ok a (w : World D) st act w' :
  Write this block ok a w = Done (st, act, w') ->
  (act = None /\ st <> ZX_OK /\ channels w' = channels w /\ waiters w' = waiters w /\
     dispatchers w' = dispatchers w /\ mem w' = mem w) \/
  (exists c j w1, st = ZX_OK /\ channels w !! this = Some c /\ peer_ c = Some j /\
     channels w1 = channels w /\ waiters w1 = waiters w /\ dispatchers w1 = dispatchers w /\
     mem w1 = mem w /\
     WriteSelfLocked j (mkPacket (wr_arena a) (wr_data a) (wr_num_bytes a) (wr_handles a) (wr_num_handles a))
       w1 = Done (act, w')).
Proof.
  unfold Write. intros (st0 & _ & H')%exec_bind_Done.
  destruct (bool_decide_reflect (st0 = ZX_OK)) as [E0|Hn]; simpl in H'.
  2: { injection H' as <- <- <-. left. by split_and!. }
  apply exec_bind_Done in H' as (c & Hc%deref_channel_Done & H').
  destruct (peer_ c) as [j|] eqn:Ep; [|injection H' as <- <- <-; left; by split_and!].
  apply exec_bind_Done in H' as ([p w1] & Hp & H').
  apply CreatePacket_frame in Hp as (Hp & Hf1 & Hf2 & Hf3 & Hf4).
  destruct Hp as [-> | ->]; [injection H' as <- <- <-; left; by split_and!|].
  apply exec_bind_Done in H' as ([act' w2] & Hw & [= <- <- <-]). right. by exists c, j, w1.
Qed.

Lemma Read_cases this o (w : World D) st out closes w' :
  Read this o w = Done (st, out, closes, w') ->
  (st <> ZX_OK /\ w' = w) \/
  (exists c p rest, st = ZX_OK /\ channels w !! this = Some c /\ msg_queue_ c = p :: rest /\
     w' = set_channel this (set_queue rest c) w /\ out = Some (CopyOut o p).1).
Proof.
  unfold Read. destruct (CheckReadArgs o); try (intros [= <- <- <- <-]; left; done).
  intros (c & Hc%deref_channel_Done & E)%exec_bind_Done.
  destruct (msg_queue_ c) as [|p rest] eqn:Eq.
  - injection E as <- <- <- <-. left. by destruct (decide _).
  - destruct (CopyOut o p) as [m q] eqn:Ec. injection E as <- <- <- <-. right. exists c, p, rest. by rewrite Ec.
Qed.

(** The request of channel [i] with nothing set. *)
Definition clean (i : Z) (r : CallbackRequest) : Prop :=
  request_id r = i /\ cr_dispatcher_ r = None /\ callback_ r = None /\ async_operation_ r = None.

Lemma TakeCallbackRequest_cases this (c : Channel) r c' :
  TakeCallbackRequestLocked this c = Done (r, c') ->
  exists r0, callback_request_ c = Some r0 /\ request_id r = request_id r0 /\
    c' = set_read None (dispatcher_ c) (channel_read_ c) c.
Proof.
  unfold TakeCallbackRequestLocked. destruct (callback_request_ c) as [r0|]; [|done].
  intros (? & _ & E)%exec_bind_Done. apply exec_bind_Done in E as (r1 & E & [= <- <-]).
  exists r0. split_and!; [done| |done]. unfold SetCallback in E.
  apply exec_bind_Done in E as (? & _ & E). apply exec_bind_Done in E as (? & _ & E).
  apply exec_bind_Done in E as (? & _ & E). by injection E as <-.
Qed.

Lemma TakeCallbackRequest_total this (c : Channel) r0 :
  callback_request_ c = Some r0 -> clean this r0 ->
  exists r, TakeCallbackRequestLocked this c = Done (r, set_read None (dispatcher_ c) (channel_read_ c) c).
Proof.
  intros Hr (Hid & Hd & Hc & Ho). unfold TakeCallbackRequestLocked, SetCallback, IsPending.
  rewrite Hr, Hd, Hc, Ho. simpl. eauto.
Qed.

(** A read registered on dispatcher [k]. *)
Definition registered (k read : Z) (c : Channel) : Channel := set_read None (Some k) (Some read) c.

Lemma WaitAsync_cases this k read (w : World D) st act w' :
  WaitAsync this k read w = Done (st, act, w') ->
  (st <> ZX_OK /\ act = None /\ w' = w) \/
  (exists c d d' r r0 ret, channels w !! this = Some c /\ dispatchers w !! k = Some d /\
     dispatcher_ c = None /\ callback_request_ c = Some r0 /\ request_id r = request_id r0 /\
     (peer_ c <> None \/ msg_queue_ c <> []) /\ op_register r d = (ret, d') /\
     ((exists r', ret = Some r' /\ st = ZX_ERR_UNAVAILABLE /\ act = None /\
         w' = set_channel this (set_pending false (set_read (Some (Dispatcher.Reset r')) None None c))
                (set_dispatcher k d' w)) \/
      (ret = None /\ st = ZX_OK /\ msg_queue_ c = [] /\ act = None /\
         w' = set_channel this (set_pending true (registered k read c)) (set_dispatcher k d' w)) \/
      (ret = None /\ st = ZX_OK /\ msg_queue_ c <> [] /\ act = Some (mkAction k this ZX_OK) /\
         w' = set_channel this (set_pending false (registered k read c)) (set_dispatcher k d' w)))).
Proof.
  unfold WaitAsync. intros (c & Hc%deref_channel_Done & E)%exec_bind_Done.
  destruct (bool_decide (peer_ c = None) && bool_decide (msg_queue_ c = [])) eqn:Ec.
  { injection E as <- <- <-. by left. }
  destruct (bool_decide_reflect (dispatcher_ c <> None)) as [Hd|Hd].
  { injection E as <- <- <-. by left. }
  apply exec_bind_Done in E as (d & Hdd%deref_dispatcher_Done & E).
  apply exec_bind_Done in E as ([r c1] & Ht & E).
  apply TakeCallbackRequest_cases in Ht as (r0 & Hr0 & Hid & ->). simpl in Hr0.
  assert (dispatcher_ c = None) as Hdn by (destruct (dispatcher_ c); [exfalso; by apply Hd|done]).
  assert (peer_ c <> None \/ msg_queue_ c <> []) as Hpq.
  { apply andb_false_iff in Ec as [Ec|Ec]; apply bool_decide_eq_false in Ec; auto. }
  destruct (op_register r d) as [ret d'] eqn:Er. right. exists c, d, d', r, r0, ret.
  split_and!; try done. destruct ret as [r'|].
  - left. exists r'. apply exec_bind_Done in E as (c2 & Hreset & [= <- <- <-]).
    simpl in Hreset. injection Hreset as <-. by split_and!.
  - right. simpl in E. destruct (msg_queue_ c) eqn:Eq; injection E as <- <- <-; [left|right]; by split_and!.
Qed.

Lemma CancelWait_cases this (w : World D) st act w' :
  CancelWait this w = Done (st, act, w') ->
  (act = None /\ w' = w) \/
  (exists c k d, channels w !! this = Some c /\ dispatcher_ c = Some k /\ dispatchers w !! k = Some d /\
     ((exists b d', op_set_reason this ZX_ERR_CANCELED d = (b, d') /\ act = None /\
         w' = set_dispatcher k d' w) \/
      (callback_request_pending_queue_ c = true /\ st = ZX_OK /\
         act = Some (mkAction k this ZX_ERR_CANCELED) /\ w' = set_channel this (set_pending false c) w) \/
      (exists r d', op_unsynchronized d = false /\ op_cancel this d = (Some r, d') /\
         callback_request_ c = None /\ st = ZX_OK /\ act = None /\
         w' = set_channel this (set_pending false (set_read (Some (Dispatcher.Reset r)) None None c))
                (set_dispatcher k d' w)))).
Proof.
  unfold CancelWait. intros (c & Hc%deref_channel_Done & E)%exec_bind_Done.
  destruct (dispatcher_ c) as [k|] eqn:Ek; [|injection E as <- <- <-; by left].
  apply exec_bind_Done in E as (d & Hd%deref_dispatcher_Done & E). right. exists c, k, d.
  split_and!; try done. destruct (op_unsynchronized d) eqn:Eu.
  - destruct (callback_request_pending_queue_ c) eqn:Ep; simpl in E.
    + injection E as <- <- <-. right; left. by split_and!.
    + destruct (op_set_reason this ZX_ERR_CANCELED d) as [b d'] eqn:Es. injection E as <- <- <-.
      left. by exists b, d'.
  - destruct (op_cancel this d) as [r d'] eqn:Eo. apply exec_bind_Done in E as (c1 & Hr & [= <- <- <-]).
    right; right. destruct r as [r|]; [|done]. unfold ResetCallbackRequestStateLocked in Hr.
    apply exec_bind_Done in Hr as (? & Ha%zx_assert_Done & [= <-]). apply bool_decide_eq_true in Ha.
    by exists r, d'.
Qed.

(** Cancelling waiters only changes the waiters. *)
Lemma cancel_waiters_frame l (w w' : World D) :
  cancel_waiters l w = Done w' ->
  channels w' = channels w /\ dispatchers w' = dispatchers w /\ mem w' = mem w.
Proof.
  revert w. induction l as [|i l IH]; intros w; simpl; [by intros [= <-]|].
  intros (w1 & Hc & Hl)%exec_bind_Done. apply IH in Hl as (-> & -> & ->).
  unfold CancelLocked in Hc. apply exec_bind_Done in Hc as (x & _ & Hc).
  by apply exec_bind_Done in Hc as (? & _ & [= <-]).
Qed.

Lemma abort_calls_frame this (w w' : World D) :
  abort_calls this w = Done w' ->
  exists c, channels w !! this = Some c /\ channels w' = <[this := set_waiters [] c]> (channels w) /\
    dispatchers w' = dispatchers w /\ mem w' = mem w /\
    exists w1, cancel_waiters (waiters_ c) w = Done w1 /\ waiters w' = waiters w1.
Proof.
  unfold abort_calls. intros (c & Hc%deref_channel_Done & E)%exec_bind_Done.
  apply exec_bind_Done in E as (w1 & Hw & [= <-]). exists c.
  destruct (cancel_waiters_frame _ _ _ Hw) as (E1 & E2 & E3). simpl. rewrite E1. split_and!; eauto.
Qed.

Lemma Close_cases this (w w' : World D) peer :
  Close this w = Done (peer, w') ->
  exists c w0, channels w !! this = Some c /\ dispatcher_ c = None /\ peer = peer_ c /\
    dispatchers w' = dispatchers w /\ waiters w0 = waiters w /\ mem w' = mem w /\
    match peer_ c with
    | None => channels w0 = <[this := set_peer None c]> (channels w)
    | Some p => exists cp, <[this := set_peer None c]> (channels w) !! p = Some cp /\
        channels w0 = <[p := set_peer None cp]> (<[this := set_peer None c]> (channels w))
    end /\
    abort_calls this w0 = Done w'.
Proof.
  unfold Close. intros (c & Hc%deref_channel_Done & E)%exec_bind_Done.
  apply exec_bind_Done in E as (? & Ha%zx_assert_Done & E).
  apply exec_bind_Done in E as (w0 & Hw0 & E). apply exec_bind_Done in E as (w1 & Hw1 & [= <- <-]).
  exists c, w0. assert (dispatcher_ c = None) as Hd.
  { unfold IsWaitAsyncRegisteredLocked in Ha. destruct (dispatcher_ c); [done|done]. }
  destruct (abort_calls_frame _ _ _ Hw1) as (_ & _ & _ & E1 & E2 & _).
  destruct (peer_ c) as [p|].
  - apply exec_bind_Done in Hw0 as (cp & Hcp%deref_channel_Done & [= <-]). simpl in *.
    split_and!; eauto.
  - injection Hw0 as <-. simpl in *. split_and!; eauto.
Qed.

Lemma OnPeerClosed_cases this (w w' : World D) act :
  OnPeerClosed this w = Done (act, w') ->
  exists w1 c, abort_calls this w = Done w1 /\ channels w1 !! this = Some c /\
    ((act = None /\ w' = w1 /\
       (msg_queue_ c <> [] \/ dispatcher_ c = None \/ callback_request_pending_queue_ c = false)) \/
     (exists k, act = Some (mkAction k this ZX_ERR_PEER_CLOSED) /\ dispatcher_ c = Some k /\
        callback_request_pending_queue_ c = true /\ w' = set_channel this (set_pending false c) w1)).
Proof.
  unfold OnPeerClosed. intros (w1 & Ha & E)%exec_bind_Done.
  apply exec_bind_Done in E as (c & Hc%deref_channel_Done & E). exists w1, c. split_and!; try done.
  destruct (msg_queue_ c) as [|p l] eqn:Eq; [|injection E as <- <-; left; split_and!; auto].
  destruct (dispatcher_ c) as [k|] eqn:Ek; [|injection E as <- <-; left; split_and!; auto].
  destruct (callback_request_pending_queue_ c) eqn:Ep; injection E as <- <-.
  - right. by exists k.
  - left. split_and!; auto.
Qed.

Lemma callback_begin_cases this r st (w w' : World D) k read st' :
  callback_begin this r st w = Done (k, read, st', w') ->
  exists c, channels w !! this = Some c /\ dispatcher_ c = Some k /\ channel_read_ c = Some read /\
    st' = st /\
    w' = set_channel this (set_callbacks (u32 (num_pending_callbacks_ c + 1)) (set_read (Some r) None None c)) w.
Proof.
  unfold callback_begin. intros (? & _ & E)%exec_bind_Done.
  apply exec_bind_Done in E as (c & Hc%deref_channel_Done & E). exists c.
  destruct (dispatcher_ c) as [k'|]; [|done]. destruct (channel_read_ c) as [read'|]; [|done].
  by injection E as -> -> -> <-.
Qed.

Lemma callback_end_cases this (w w' : World D) :
  callback_end this w = Done w' ->
  exists c, channels w !! this = Some c /\ 0 < num_pending_callbacks_ c /\
    w' = set_channel this (set_callbacks (num_pending_callbacks_ c - 1) c) w.
Proof.
  unfold callback_end. intros (c & Hc%deref_channel_Done & E)%exec_bind_Done.
  apply exec_bind_Done in E as (? & Ha%zx_assert_Done & [= <-]). exists c. split_and!; [done| |done].
  by apply Z.ltb_lt.
Qed.

Definition packet_of (a : WriteArgs) : MessagePacket :=
  mkPacket (wr_arena a) (wr_data a) (wr_num_bytes a) (wr_handles a) (wr_num_handles a).

(** The world in which a call's message is written: the waiter is installed. *)
Definition with_waiter (this waiter txid next data : Z) (c : Channel) (w : World D) : World D :=
  set_channel this (set_waiters (waiters_ c ++ [waiter]) (set_next_id next c))
    (set_mem (write_word data txid (mem w))
       (set_waiter waiter (mkWaiter (Some this) (Some txid) None None) w)).

Lemma call_begin_cases this waiter block ok stack a o (w : World D) st act w' :
  call_begin this waiter block ok stack a o w = Done (st, act, w') ->
  (act = None /\ st <> ZX_OK /\ channels w' = channels w /\ waiters w' = waiters w /\
     dispatchers w' = dispatchers w /\ mem w' = mem w) \/
  (exists c j txid next w1, st = ZX_OK /\ channels w !! this = Some c /\ peer_ c = Some j /\
     channels w1 = channels w /\ waiters w1 = waiters w /\ dispatchers w1 = dispatchers w /\
     mem w1 = mem w /\ 4 <= wr_num_bytes a /\ wr_data a <> 0 /\
     AllocateTxidLocked c w1 = Done (Some (txid, next)) /\
     WriteSelfLocked j (packet_of a) (with_waiter this waiter txid next (wr_data a) c w1) = Done (act, w')).
Proof.
  unfold call_begin. intros (st0 & _ & E)%exec_bind_Done.
  destruct (bool_decide_reflect (st0 = ZX_OK)) as [E0|Hn]; simpl in E.
  2: { injection E as <- <- <-. left. by split_and!. }
  destruct (bool_decide_reflect (CheckReadArgs o = ZX_OK)) as [E1|Hn]; simpl in E.
  2: { injection E as <- <- <-. left. by split_and!. }
  destruct (Z.ltb_spec (wr_num_bytes a) 4); [injection E as <- <- <-; left; by split_and!|].
  apply exec_bind_Done in E as (allowed & _ & E).
  destruct allowed; simpl in E; [|injection E as <- <- <-; left; by split_and!].
  apply exec_bind_Done in E as ([p w1] & Hp & E).
  apply CreatePacket_frame in Hp as (Hp & Hf1 & Hf2 & Hf3 & Hf4).
  destruct Hp as [-> | ->]; [injection E as <- <- <-; left; by split_and!|].
  apply exec_bind_Done in E as (c & Hc%deref_channel_Done & E).
  destruct (peer_ c) as [j|] eqn:Ep; [|injection E as <- <- <-; left; by split_and!].
  apply exec_bind_Done in E as (found & Hf & E). destruct found as [[txid next]|]; [|done].
  apply exec_bind_Done in E as (m & Hm & E). apply exec_bind_Done in E as ([act' w2] & Hw & [= <- <- <-]).
  unfold set_txid in Hm. apply exec_bind_Done in Hm as (? & _ & Hm). simpl in Hm.
  destruct (Z.eqb_spec (wr_data a) 0); [done|]. injection Hm as <-.
  right. exists c, j, txid, next, w1. rewrite <- Hf1. split_and!; done.
Qed.

(** What [Call] returns: no answer and the waiter still listed, a recorded error, or the reply. *)
Lemma call_end_cases this waiter o (w : World D) st out closes w' :
  call_end this waiter o w = Done (st, out, closes, w') ->
  exists x c, waiters w !! waiter = Some x /\ channels w !! this = Some c /\
    waiters w' = delete waiter (waiters w) /\ dispatchers w' = dispatchers w /\
    ((status_ x = None /\ st = ZX_ERR_TIMED_OUT /\ out = None /\ waiter ∈ waiters_ c /\
        channels w' = <[this := set_waiters (filter (fun j => j <> waiter) (waiters_ c)) c]> (channels w)) \/
     (exists l, status_ x = Some st /\ st <> ZX_OK /\ out = None /\
        (l = waiters_ c \/ l = filter (fun j => j <> waiter) (waiters_ c)) /\
        channels w' = <[this := set_waiters l c]> (channels w)) \/
     (exists m, status_ x = Some ZX_OK /\ st = ZX_OK /\ msg_ x = Some m /\
        out = Some (CopyOut o m).1 /\ channels w' = channels w)).
Proof.
  unfold call_end. intros ([reply w1] & Ht & E)%exec_bind_Done.
  apply exec_bind_Done in E as (c & Hc%deref_channel_Done & E).
  unfold TakeLocked in Ht. apply exec_bind_Done in Ht as (x & Hx%deref_waiter_Done & Ht).
  apply exec_bind_Done in Ht as (? & _ & Ht). exists x, c.
  assert (channels w1 = channels w /\ dispatchers w1 = dispatchers w /\
    delete waiter (waiters w1) = delete waiter (waiters w)) as (E1 & E2 & E3).
  { destruct (status_ x) as [[]|], (msg_ x); try done; injection Ht as _ <-; simpl;
      by rewrite delete_insert_eq. }
  rewrite E1 in Hc. destruct reply as [s|m].
  - apply exec_bind_Done in E as (? & Ha%zx_assert_Done & E).
    apply exec_bind_Done in E as (? & _ & [= <- <- <- <-]). simpl. rewrite E1. split_and!; try done.
    destruct (status_ x) as [s'|] eqn:Es.
    + right; left. assert (s' = s /\ s <> ZX_OK) as [-> Hs].
      { destruct s', (msg_ x); try done; by injection Ht as <- <-. }
      eexists. split_and!; [done|done|done| |done]. destruct (bool_decide _); auto.
    + left. injection Ht as <- <-. simpl in Ha. apply bool_decide_eq_true in Ha. by split_and!.
  - destruct (CopyOut o m) as [m' q] eqn:Eco. apply exec_bind_Done in E as (? & _ & [= <- <- <- <-]).
    simpl. split_and!; try done. right; right. exists m.
    assert (status_ x = Some ZX_OK /\ msg_ x = Some m) as [-> ->].
    { destruct (status_ x) as [[]|], (msg_ x); try done; by injection Ht as <- <-. }
    split_and!; try done. injection Eco as <- _. done.
Qed.

Lemma ChannelCreate_frame ch0 ch1 (w : World D) st hs w' :
  ChannelCreate ch0 ch1 w = Done (st, hs, w') ->
  channels w' = <[ch1 := Init ch0 (new_channel ch1)]> (<[ch0 := Init ch1 (new_channel ch0)]> (channels w)) /\
  waiters w' = waiters w /\ dispatchers w' = dispatchers w /\ mem w' = mem w.
Proof.
  unfold ChannelCreate. intros ([t0 h0] & _ & E)%exec_bind_Done.
  apply exec_bind_Done in E as ([t1 h1] & _ & E).
  destruct h0 as [p0|], h1 as [p1|].
  - destruct (deref t1 p0), (deref t1 p1); try done. by injection E as <- <- <-.
  - by apply exec_bind_Done in E as (t2 & _ & [= <- <- <-]).
  - by apply exec_bind_Done in E as (t2 & _ & [= <- <- <-]).
  - by injection E as <- <- <-.
Qed.

(** ** Messages are read in the order they were queued *)

Definition sent_of (i : Z) (e : ChannelEvent) : list MessagePacket :=
  match e with ChSent j p => if decide (j = i) then [p] else [] | _ => [] end.
Definition received_of (i : Z) (e : ChannelEvent) : list (Outs * Message) :=
  match e with ChReceived j o m => if decide (j = i) then [(o, m)] else [] | _ => [] end.
Definition sent (i : Z) (tr : list ChannelEvent) : list MessagePacket := flat_map (sent_of i) tr.
Definition received (i : Z) (tr : list ChannelEvent) : list (Outs * Message) := flat_map (received_of i) tr.

(** What a reader was given shows the packet: every result it asked for is the packet's. *)
Definition shows (p : MessagePacket) (om : Outs * Message) : Prop :=
  let '(o, m) := om in
  (out_arena o = true -> msg_arena m = Some (arena_ p)) /\
  (out_data o = true -> msg_data m = Some (data_ p)) /\
  (out_num_bytes o = true -> msg_num_bytes m = Some (num_bytes_ p)) /\
  (out_handles o = true -> msg_handles m = Some (handles_ p)) /\
  (out_num_handles o = true -> msg_num_handles m = Some (num_handles_ p)).

Lemma CopyOut_shows o p : shows p (o, (CopyOut o p).1).
Proof. unfold shows, CopyOut. destruct o; simpl. split_and!; by intros ->. Qed.

Lemma queue_of_upd i j c c' (m m' : gmap Z Channel) :
  m !! i = Some c -> m' = <[i := c']> m -> msg_queue_ c' = msg_queue_ c ->
  match m' !! j with Some c => msg_queue_ c | None => [] end =
  match m !! j with Some c => msg_queue_ c | None => [] end.
Proof.
  intros Hc -> Hq. destruct (decide (i = j)) as [<-|Hn].
  - by rewrite lookup_insert_eq, Hc.
  - by rewrite lookup_insert_ne.
Qed.

Lemma find_waiter_In t l (w : World D) i : find_waiter t l w = Done (Some i) -> i ∈ l.
Proof.
  induction l as [|k l IH]; simpl; [done|]. intros (x & _ & E)%exec_bind_Done.
  destruct (txid_ x) as [t'|]; [|done]. destruct (t' =? t); [injection E as <-; left|right; auto].
Qed.

Lemma handed_over_same j p (w' : World D) : handed_over (waiting_at j w') j p w' = false.
Proof.
  unfold handed_over. apply not_true_iff_false. rewrite existsb_exists. intros (k & Hk & Hb).
  apply andb_true_iff in Hb as [Hb _]. apply negb_true_iff, bool_decide_eq_false in Hb.
  by apply Hb, list_elem_of_In.
Qed.

Lemma WriteSelf_queue j p (w : World D) act w' :
  WriteSelfLocked j p w = Done (act, w') ->
  (handed_over (waiting_at j w) j p w' = true /\ forall i, queue_of i w' = queue_of i w) \/
  (handed_over (waiting_at j w) j p w' = false /\ queue_of j w' = queue_of j w ++ [p] /\
   forall i, i <> j -> queue_of i w' = queue_of i w).
Proof.
  intros (c & Hc & Hcases)%WriteSelf_cases.
  assert (forall c', msg_queue_ c' = msg_queue_ c ++ [p] -> waiters_ c' = waiters_ c ->
    handed_over (waiting_at j w) j p (set_channel j c' w) = false /\
    queue_of j (set_channel j c' w) = queue_of j w ++ [p] /\
    forall i, i <> j -> queue_of i (set_channel j c' w) = queue_of i w) as Happ.
  { intros c' Hq Hw. split.
    - rewrite <- (handed_over_same j p (set_channel j c' w)). f_equal. unfold waiting_at. simpl.
      by rewrite lookup_insert_eq, Hc, Hw.
    - unfold queue_of. simpl. rewrite lookup_insert_eq, Hc, Hq. split; [done|].
      intros i Hi. by rewrite lookup_insert_ne. }
  destruct Hcases as [(i & x & t & _ & _ & Hi & _ & ->)|[(_ & _ & _ & ->)|(d & _ & _ & _ & _ & ->)]];
    [left|right; by apply Happ..]. split.
  - unfold handed_over. apply existsb_exists. exists i. unfold waiting_at. rewrite Hc.
    split; [apply list_elem_of_In; by eapply find_waiter_In|]. simpl. rewrite !lookup_insert_eq. simpl.
    rewrite bool_decide_false; [|rewrite list_elem_of_filter; by intros [? _]].
    by rewrite !bool_decide_true.
  - intros k. unfold queue_of. simpl. by eapply queue_of_upd.
Qed.

Lemma queue_of_frame i (w w' : World D) : channels w' = channels w -> queue_of i w' = queue_of i w.
Proof. unfold queue_of. by intros ->. Qed.

(** The event of a successful write says what it queued. *)
Lemma sent_event_spec this a c j (w w' : World D) i :
  channels w !! this = Some c -> peer_ c = Some j ->
  (handed_over (waiting_at j w) j (packet_of a) w' = true /\ forall i, queue_of i w' = queue_of i w) \/
  (handed_over (waiting_at j w) j (packet_of a) w' = false /\
   queue_of j w' = queue_of j w ++ [packet_of a] /\ forall i, i <> j -> queue_of i w' = queue_of i w) ->
  queue_of i w ++ sent_of i (sent_event this a ZX_OK w w') = queue_of i w' /\
  received_of i (sent_event this a ZX_OK w w') = [].
Proof.
  intros Hc Hj Hcase. unfold sent_event. rewrite Hc. simpl. rewrite Hj. fold (packet_of a).
  destruct Hcase as [[-> Hs]|(-> & Hq & Hs)]; simpl; (split; [|done]).
  - by rewrite app_nil_r.
  - destruct (decide (j = i)) as [->|Hn]; [done|]. rewrite app_nil_r. by rewrite Hs.
Qed.

Lemma sent_event_same this a st (w w' : World D) i :
  st <> ZX_OK -> channels w' = channels w ->
  queue_of i w ++ sent_of i (sent_event this a st w w') = queue_of i w' /\
  received_of i (sent_event this a st w w') = [].
Proof.
  intros Hst E. rewrite (queue_of_frame i w w' E). unfold sent_event.
  destruct st; try done; simpl; by rewrite app_nil_r.
Qed.

Lemma abort_calls_queue this (w w' : World D) i : abort_calls this w = Done w' -> queue_of i w' = queue_of i w.
Proof. intros (c & Hc & E & _)%abort_calls_frame. unfold queue_of. by eapply queue_of_upd. Qed.

Lemma Close_queue this (w w' : World D) peer i : Close this w = Done (peer, w') -> queue_of i w' = queue_of i w.
Proof.
  intros (c & w0 & Hc & _ & _ & _ & _ & _ & Hp & Ha)%Close_cases.
  rewrite (abort_calls_queue _ _ _ i Ha). unfold queue_of. destruct (peer_ c) as [p|].
  - destruct Hp as (cp & Hcp & ->). etransitivity; [by eapply queue_of_upd|]. by eapply queue_of_upd.
  - by eapply queue_of_upd.
Qed.

Lemma with_waiter_queue this waiter txid next data c (w : World D) i :
  channels w !! this = Some c -> queue_of i (with_waiter this waiter txid next data c w) = queue_of i w.
Proof. intros Hc. unfold queue_of. simpl. by eapply queue_of_upd. Qed.

(** A step puts what it sends at the end of the queue, and takes what it shows the reader off the
    front. *)
Lemma chstep_queue s e s' i :
  (forall k c j, channels (cw s) !! k = Some c -> peer_ c = Some j -> k <> j) ->
  chstep s e s' ->
  exists ps, Forall2 shows ps (received_of i e) /\
    queue_of i (cw s) ++ sent_of i e = ps ++ queue_of i (cw s').
Proof.
  intros Hself Hs.
  assert (queue_of i (cw s) ++ sent_of i e = queue_of i (cw s') /\ received_of i e = [] ->
    exists ps, Forall2 shows ps (received_of i e) /\
      queue_of i (cw s) ++ sent_of i e = ps ++ queue_of i (cw s')) as Hsend.
  { intros [-> ->]. by exists []. }
  destruct Hs; try (apply Hsend; split; [|reflexivity]; simpl; rewrite app_nil_r).
  - destruct (ChannelCreate_frame _ _ _ _ _ _ H6) as (E & _).
    unfold queue_of. rewrite E. destruct (decide (ch1 = i)) as [<-|].
    { rewrite lookup_insert_eq. destruct (H5 ch1) as [-> _]; auto. }
    rewrite lookup_insert_ne by done. destruct (decide (ch0 = i)) as [<-|].
    { rewrite lookup_insert_eq. destruct (H5 ch0) as [-> _]; auto. }
    by rewrite lookup_insert_ne.
  - done.
  - destruct (Write_cases _ _ _ _ _ _ _ _ H4) as [(_ & ? & E & _)|(c & j & w1 & -> & Hc & Hj & E & _ & _ & _ & Hw)].
    + by apply Hsend, sent_event_same.
    + apply WriteSelf_queue in Hw. apply Hsend, (sent_event_spec this a c j); [done..|].
      unfold waiting_at in *. rewrite E in Hw. rewrite <- (queue_of_frame j (cw s) w1 E).
      destruct Hw as [[? Hw]|(? & ? & Hw)]; [left; split; [done|]|right; split_and!; [done..|]];
        intros; rewrite Hw by done; by apply queue_of_frame.
  - unfold received_event in *. destruct (Read_cases _ _ _ _ _ _ _ H4)
      as [[Hst ->]|(c & p & rest & -> & Hc & Hq & -> & ->)].
    + apply Hsend. destruct st; try done; simpl; by rewrite ?app_nil_r.
    + assert (queue_of this (cw s) = p :: rest) as Hq' by (unfold queue_of; by rewrite Hc).
      simpl. rewrite app_nil_r. unfold queue_of. simpl. destruct (decide (this = i)) as [<-|].
      * exists [p]. split; [constructor; [apply CopyOut_shows|constructor]|].
        by rewrite lookup_insert_eq, Hc, Hq.
      * exists []. split; [constructor|]. by rewrite lookup_insert_ne.
  - destruct (WaitAsync_cases _ _ _ _ _ _ _ H4) as
      [(_ & _ & ->)|(c & d & d' & r & r0 & ret & Hc & _ & _ & _ & _ & _ & _ & Hcase)]; [done|].
    destruct Hcase as [(r' & _ & _ & _ & ->)|[(_ & _ & _ & _ & ->)|(_ & _ & _ & _ & ->)]];
      unfold queue_of; simpl; symmetry; by eapply queue_of_upd.
  - destruct (CancelWait_cases _ _ _ _ _ H4) as [[_ ->]|(c & k & d & Hc & _ & _ & Hcase)]; [done|].
    destruct Hcase as [(b & d' & _ & _ & ->)|[(_ & _ & _ & ->)|(r & d' & _ & _ & _ & _ & _ & ->)]];
      [done|unfold queue_of; simpl; symmetry; by eapply queue_of_upd..].
  - destruct (call_begin_cases _ _ _ _ _ _ _ _ _ _ _ H6) as
      [(_ & ? & E & _)|(c & j & txid & next & w1 & -> & Hc & Hj & E & _ & _ & _ & _ & _ & _ & Hw)].
    + by apply Hsend, sent_event_same.
    + apply WriteSelf_queue in Hw. apply Hsend, (sent_event_spec this a c j); [done..|].
      assert (waiting_at j (with_waiter this waiter txid next (wr_data a) c w1) = waiting_at j (cw s)) as Ew.
      { unfold waiting_at. simpl. rewrite lookup_insert_ne by (by eapply Hself). by rewrite E. }
      rewrite Ew in Hw. rewrite <- (queue_of_frame j (cw s) w1 E). rewrite <- E in Hc.
      destruct Hw as [[? Hw]|(? & Hq & Hw)].
      * left. split; [done|]. intros k. rewrite Hw, with_waiter_queue by done. by apply queue_of_frame.
      * right. rewrite Hq, with_waiter_queue by done. split_and!; [done..|].
        intros k Hk. rewrite Hw, with_waiter_queue by done. by apply queue_of_frame.
  - destruct (call_end_cases _ _ _ _ _ _ _ _ H5) as (x & c & _ & Hc & _ & _ & Hcase).
    destruct Hcase as [(_ & _ & _ & _ & E)|[(l & _ & _ & _ & _ & E)|(m & _ & _ & _ & _ & E)]];
      [unfold queue_of; symmetry; by eapply queue_of_upd..|by rewrite (queue_of_frame i _ _ E)].
  - by rewrite (Close_queue _ _ _ _ i H4).
  - destruct (OnPeerClosed_cases _ _ _ _ H5) as (w1 & c & Ha & Hc & Hcase).
    rewrite <- (abort_calls_queue _ _ _ i Ha).
    destruct Hcase as [(_ & -> & _)|(k & _ & _ & _ & ->)]; [done|].
    unfold queue_of. simpl. symmetry. by eapply queue_of_upd.
  - done.
  - done.
  - destruct (callback_begin_cases _ _ _ _ _ _ _ _ H5) as (c & Hc & _ & _ & _ & ->).
    unfold queue_of. simpl. symmetry. by eapply queue_of_upd.
  - destruct (callback_end_cases _ _ _ H5) as (c & Hc & _ & ->).
    unfold queue_of. simpl. symmetry. by eapply queue_of_upd.
  - done.
Qed.

(** ** Ends know each other, and registered reads are told *)

Definition peers_inv (m : gmap Z Channel) : Prop :=
  forall i c j, m !! i = Some c -> peer_ c = Some j ->
    i <> j /\ exists cj, m !! j = Some cj /\ peer_ cj = Some i.

(** A read that is registered and not yet queued has nothing to read, and its peer is there, or a
    thread is about to tell it otherwise. *)
Definition quiet_read (cl : list Z) (i : Z) (c : Channel) : Prop :=
  dispatcher_ c <> None -> callback_request_pending_queue_ c = true ->
  msg_queue_ c = [] /\ (peer_ c = None -> i ∈ cl).

Definition link_inv (s : CSystem) : Prop :=
  peers_inv (channels (cw s)) /\
  map_Forall (quiet_read (closing s)) (channels (cw s)).

Lemma peers_upd i c c' (m : gmap Z Channel) :
  peers_inv m -> m !! i = Some c -> peer_ c' = peer_ c -> peers_inv (<[i := c']> m).
Proof.
  intros Hp Hc Hpeer k ck j Hk Hj. destruct (decide (i = k)) as [<-|Hn].
  - rewrite lookup_insert_eq in Hk. injection Hk as <-. rewrite Hpeer in Hj.
    destruct (Hp i c j Hc Hj) as (Hij & cj & Hcj & Hback). split; [done|]. exists cj.
    by rewrite lookup_insert_ne.
  - rewrite lookup_insert_ne in Hk by done. destruct (Hp k ck j Hk Hj) as (Hkj & cj & Hcj & Hback).
    split; [done|]. destruct (decide (i = j)) as [<-|].
    + exists c'. rewrite lookup_insert_eq. split; [done|]. rewrite Hpeer. by simplify_eq.
    + exists cj. by rewrite lookup_insert_ne.
Qed.

Lemma link_upd i c c' s w acts ca hs cs :
  link_inv s -> channels (cw s) !! i = Some c -> channels w = <[i := c']> (channels (cw s)) ->
  peer_ c' = peer_ c -> quiet_read (closing s) i c' ->
  link_inv (mkCS w acts (closing s) ca hs cs).
Proof.
  intros [Hp Hq] Hc E Hpeer Hquiet. split; simpl; rewrite E; [by eapply peers_upd|].
  by apply map_Forall_insert_2.
Qed.

Lemma link_same s w acts ca hs cs :
  link_inv s -> channels w = channels (cw s) -> link_inv (mkCS w acts (closing s) ca hs cs).
Proof. intros [Hp Hq] E. split; simpl; by rewrite E. Qed.

(** A quiet read stays quiet if only other fields change. *)
Lemma quiet_read_keep cl i c c' :
  quiet_read cl i c -> dispatcher_ c' = dispatcher_ c ->
  callback_request_pending_queue_ c' = callback_request_pending_queue_ c ->
  msg_queue_ c' = msg_queue_ c -> peer_ c' = peer_ c -> quiet_read cl i c'.
Proof. unfold quiet_read. by intros Hq -> -> -> ->. Qed.

Lemma WriteSelf_link s j p w act w' acts ca hs cs :
  link_inv s -> channels w = channels (cw s) -> WriteSelfLocked j p w = Done (act, w') ->
  link_inv (mkCS w' acts (closing s) ca hs cs).
Proof.
  intros Hl E (c & Hc & Hcase)%WriteSelf_cases. rewrite E in Hc. pose proof (proj2 Hl _ _ Hc) as Hq.
  destruct Hcase as [(i & x & t & _ & _ & _ & _ & ->)|[(_ & _ & Hno & ->)|(d & _ & _ & _ & _ & ->)]];
    (eapply (link_upd j c); [done|done|simpl; by rewrite E|done|]).
  - by apply (quiet_read_keep _ _ c).
  - intros Hd Hp. simpl in *. destruct Hno; congruence.
  - by intros _ ?.
Qed.

Lemma abort_link this w w' cl acts ca hs cs :
  link_inv (mkCS w acts cl ca hs cs) -> abort_calls this w = Done w' ->
  link_inv (mkCS w' acts cl ca hs cs).
Proof.
  intros Hl (c & Hc & E & _)%abort_calls_frame.
  eapply (link_upd this c (set_waiters [] c) (mkCS w acts cl ca hs cs)); try done.
  by apply (quiet_read_keep _ _ c); [apply (proj2 Hl)|..].
Qed.

Lemma Close_link s this w' peer :
  link_inv s -> Close this (cw s) = Done (peer, w') ->
  link_inv (mkCS w' (actions s) (closing s ++ opt_list peer) (calling s) (handlers s) (calls s)).
Proof.
  intros [Hp Hq] (c & w0 & Hc & Hd & -> & _ & _ & _ & Hw0 & Ha)%Close_cases.
  eapply abort_link; [|exact Ha]. pose proof (Hq _ _ Hc) as Hqc.
  assert (forall cl, quiet_read cl this (set_peer None c)) as Hthis by (intros cl Hd'; simpl in Hd'; congruence).
  assert (forall i ci, channels (cw s) !! i = Some ci ->
    quiet_read (closing s ++ opt_list (peer_ c)) i ci) as Hmore.
  { intros i ci Hi Hdi Hpi. destruct (Hq i ci Hi Hdi Hpi) as [? Hcl]. split; [done|].
    intros Hpn. apply elem_of_app. auto. }
  destruct (peer_ c) as [p|] eqn:Ep.
  - destruct Hw0 as (cp & Hcp & E). destruct (Hp _ _ _ Hc Ep) as (Hne & cj & Hcj & Hback).
    rewrite lookup_insert_ne in Hcp by done. assert (cj = cp) as -> by congruence. split; simpl.
    + rewrite E. intros i ci j Hi Hj. destruct (decide (p = i)) as [<-|].
      { rewrite lookup_insert_eq in Hi. by injection Hi as <-. }
      rewrite lookup_insert_ne in Hi by done. destruct (decide (this = i)) as [<-|].
      { rewrite lookup_insert_eq in Hi. by injection Hi as <-. }
      rewrite lookup_insert_ne in Hi by done. destruct (Hp i ci j Hi Hj) as (Hij & ck & Hck & Hb).
      split; [done|]. exists ck. rewrite !lookup_insert_ne; [done|congruence|congruence].
    + rewrite E. apply map_Forall_insert_2; [|apply map_Forall_insert_2; [done|exact Hmore]].
      intros Hdi Hpi. simpl in *. destruct (Hq p cp Hcj Hdi Hpi) as [? _]. split; [done|].
      intros _. apply elem_of_app. right. by left.
  - split; simpl; rewrite Hw0.
    + intros i ci j Hi Hj. destruct (decide (this = i)) as [<-|].
      { rewrite lookup_insert_eq in Hi. by injection Hi as <-. }
      rewrite lookup_insert_ne in Hi by done. destruct (Hp i ci j Hi Hj) as (Hij & ck & Hck & Hb).
      split; [done|]. exists ck. rewrite lookup_insert_ne; [done|]. congruence.
    + apply map_Forall_insert_2; [done|exact Hmore].
Qed.

Lemma OnPeerClosed_link s l1 i l2 act w' :
  link_inv s -> closing s = l1 ++ i :: l2 -> OnPeerClosed i (cw s) = Done (act, w') ->
  link_inv (mkCS w' (actions s ++ opt_list act) (l1 ++ l2) (calling s) (handlers s) (calls s)).
Proof.
  intros Hl Ecl (w1 & c & Ha & Hc & Hcase)%OnPeerClosed_cases.
  assert (link_inv (mkCS w1 (actions s) (closing s) (calling s) (handlers s) (calls s))) as [Hp1 Hq1].
  { eapply abort_link; [|exact Ha]. by destruct Hl. }
  simpl in *.
  assert (forall k ck, channels w1 !! k = Some ck -> k <> i -> quiet_read (l1 ++ l2) k ck) as Hother.
  { intros k ck Hk Hne Hd Hp. destruct (Hq1 k ck Hk Hd Hp) as [? Hcl]. split; [done|].
    intros Hpn. specialize (Hcl Hpn). rewrite Ecl in Hcl. set_solver. }
  destruct Hcase as [(_ & -> & Hno)|(k & _ & _ & _ & ->)]; split; simpl.
  - done.
  - intros k ck Hk. destruct (decide (k = i)) as [->|]; [|by apply Hother].
    intros Hd Hp. assert (ck = c) as -> by congruence. destruct (Hq1 i c Hc Hd Hp) as [Hnil _].
    destruct Hno as [?|[?|?]]; congruence.
  - by eapply peers_upd.
  - intros k' ck Hk. destruct (decide (i = k')) as [<-|].
    + rewrite lookup_insert_eq in Hk. injection Hk as <-. by intros _ ?.
    + rewrite lookup_insert_ne in Hk by done. by apply Hother.
Qed.

Lemma create_link s ch0 ch1 st hs w :
  link_inv s -> ch0 <> ch1 -> channels (cw s) !! ch0 = None -> channels (cw s) !! ch1 = None ->
  ChannelCreate ch0 ch1 (cw s) = Done (st, hs, w) ->
  link_inv (mkCS w (actions s) (closing s) (calling s) (handlers s) (calls s)).
Proof.
  intros [Hp Hq] Hne H0' H1' (E & _)%ChannelCreate_frame. split; simpl; rewrite E.
  - intros i c j Hi Hj. destruct (decide (ch1 = i)) as [<-|].
    { rewrite lookup_insert_eq in Hi. injection Hi as <-. injection Hj as <-. split; [done|].
      exists (Init ch1 (new_channel ch0)). by rewrite lookup_insert_ne, lookup_insert_eq. }
    rewrite lookup_insert_ne in Hi by done. destruct (decide (ch0 = i)) as [<-|].
    { rewrite lookup_insert_eq in Hi. injection Hi as <-. injection Hj as <-. split; [done|].
      exists (Init ch0 (new_channel ch1)). by rewrite lookup_insert_eq. }
    rewrite lookup_insert_ne in Hi by done. destruct (Hp i c j Hi Hj) as (? & cj & Hcj & ?).
    split; [done|]. exists cj. rewrite !lookup_insert_ne; [done|congruence|congruence].
  - apply map_Forall_insert_2; [done|]. by apply map_Forall_insert_2.
Qed.

Lemma chstep_link s e s' : link_inv s -> chstep s e s' -> link_inv s'.
Proof.
  intros Hl Hs. destruct Hs; simpl.
  - eapply create_link; eauto; by apply H5; auto.
  - by apply link_same.
  - destruct (Write_cases _ _ _ _ _ _ _ _ H4) as [(_ & _ & E & _)|(c & j & w1 & _ & Hc & Hj & E & _ & _ & _ & Hw)].
    + by apply link_same.
    + by eapply WriteSelf_link.
  - destruct (Read_cases _ _ _ _ _ _ _ H4) as [[_ ->]|(c & p & rest & _ & Hc & Hq & -> & _)]; [by apply link_same|].
    eapply (link_upd this c); [done|done|done|done|]. intros Hd Hp.
    destruct (proj2 Hl _ _ Hc Hd Hp). congruence.
  - destruct (WaitAsync_cases _ _ _ _ _ _ _ H4) as
      [(_ & _ & ->)|(c & d & d' & r & r0 & ret & Hc & _ & _ & _ & _ & Hpq & _ & Hcase)]; [by apply link_same|].
    destruct Hcase as [(r' & _ & _ & _ & ->)|[(_ & _ & Hq & _ & ->)|(_ & _ & _ & _ & ->)]];
      (eapply (link_upd this c); [done|done|done|done|]); try by intros ? ?.
    intros _ _. split; [done|]. simpl. by destruct Hpq.
  - destruct (CancelWait_cases _ _ _ _ _ H4) as [[_ ->]|(c & k & d & Hc & _ & _ & Hcase)]; [by apply link_same|].
    destruct Hcase as [(b & d' & _ & _ & ->)|[(_ & _ & _ & ->)|(r & d' & _ & _ & _ & _ & _ & ->)]];
      [by apply link_same|..]; (eapply (link_upd this c); [done|done|done|done|]); by intros ? ?.
  - destruct (call_begin_cases _ _ _ _ _ _ _ _ _ _ _ H6) as
      [(_ & _ & E & _)|(c & j & txid & next & w1 & _ & Hc & Hj & E & _ & _ & _ & _ & _ & _ & Hw)].
    + by apply link_same.
    + eapply (WriteSelf_link (mkCS (with_waiter this waiter txid next (wr_data a) c w1) (actions s)
        (closing s) (calling s) (handlers s) (calls s))); [|done|done].
      eapply (link_upd this c); [done|done|simpl; by rewrite E|done|].
      by apply (quiet_read_keep _ _ c); [apply (proj2 Hl)|..].
  - destruct (call_end_cases _ _ _ _ _ _ _ _ H5) as (x & c & _ & Hc & _ & _ & Hcase).
    destruct Hcase as [(_ & _ & _ & _ & E)|[(l & _ & _ & _ & _ & E)|(m & _ & _ & _ & _ & E)]];
      [..|by apply link_same]; (eapply (link_upd this c); [done|done|done|done|]);
      by apply (quiet_read_keep _ _ c); [apply (proj2 Hl)|..].
  - by eapply Close_link.
  - by eapply OnPeerClosed_link.
  - by apply link_same.
  - by apply link_same.
  - destruct (callback_begin_cases _ _ _ _ _ _ _ _ H5) as (c & Hc & _ & _ & _ & ->).
    eapply (link_upd i c); [done|done|done|done|]. by intros ? ?.
  - destruct (callback_end_cases _ _ _ H5) as (c & Hc & _ & ->).
    eapply (link_upd i c); [done|done|done|done|].
    by apply (quiet_read_keep _ _ c); [apply (proj2 Hl)|..].
  - by apply link_same.
Qed.

Lemma chrun_link tr s : chrun tr s -> link_inv s.
Proof. induction 1 as [|tr s e s' _ IH Hs]; [by split|by eapply chstep_link]. Qed.

(** ** The callback request has one owner *)

Definition held_at (ds : gmap Z D) (k i : Z) : nat :=
  match ds !! k with Some d => occ i (d_held d) | None => 0 end.

(** Either no read is registered and the channel owns its cleared request, or one is, and the
    request is with its dispatcher or on its way back. *)
Definition owned (cal : list Z) (ds : gmap Z D) (i : Z) (c : Channel) : Prop :=
  (dispatcher_ c = None /\ channel_read_ c = None /\
     (exists r, callback_request_ c = Some r /\ clean i r) /\
     occ i cal = 0%nat /\ forall k, held_at ds k i = 0%nat) \/
  (exists k read, dispatcher_ c = Some k /\ channel_read_ c = Some read /\ callback_request_ c = None /\
     is_Some (ds !! k) /\ (occ i cal + held_at ds k i = 1)%nat /\
     forall k', k' <> k -> held_at ds k' i = 0%nat).

Definition own_inv (s : CSystem) : Prop :=
  map_Forall (fun _ d => d_ok d) (dispatchers (cw s)) /\
  map_Forall (owned (calling s).*1 (dispatchers (cw s))) (channels (cw s)).

Lemma owned_keep cal ds i c c' :
  owned cal ds i c -> dispatcher_ c' = dispatcher_ c -> channel_read_ c' = channel_read_ c ->
  callback_request_ c' = callback_request_ c -> owned cal ds i c'.
Proof. unfold owned. by intros H' -> -> ->. Qed.

(** Steps that only touch other fields of one channel. *)
Lemma own_upd i c c' s w acts cl hs cs :
  own_inv s -> channels (cw s) !! i = Some c -> channels w = <[i := c']> (channels (cw s)) ->
  dispatchers w = dispatchers (cw s) ->
  dispatcher_ c' = dispatcher_ c -> channel_read_ c' = channel_read_ c ->
  callback_request_ c' = callback_request_ c ->
  own_inv (mkCS w acts cl (calling s) hs cs).
Proof.
  intros [Hok Ho] Hc E Ed E1 E2 E3. split; simpl; rewrite ?Ed; [done|]. rewrite E.
  apply map_Forall_insert_2; [|done]. eapply owned_keep; [by apply Ho|done..].
Qed.

Lemma own_same s w acts cl hs cs :
  own_inv s -> channels w = channels (cw s) -> dispatchers w = dispatchers (cw s) ->
  own_inv (mkCS w acts cl (calling s) hs cs).
Proof. intros [Hok Ho] E Ed. split; simpl; rewrite ?Ed, ?E; done. Qed.

Lemma held_insert ds k d k' i :
  held_at (<[k := d]> ds) k' i = if decide (k = k') then occ i (d_held d) else held_at ds k' i.
Proof.
  unfold held_at. destruct (decide (k = k')) as [<-|]; [by rewrite lookup_insert_eq|].
  by rewrite lookup_insert_ne.
Qed.

Lemma held_some ds k d i : ds !! k = Some d -> held_at ds k i = occ i (d_held d).
Proof. unfold held_at. by intros ->. Qed.

(** The dispatcher [k] moves, in a way that [n] requests of [i] leave it, to be called. *)
Lemma owned_dispatch cal cal' ds k d d' i c :
  owned cal ds i c -> ds !! k = Some d ->
  (occ i (d_held d) + occ i cal = occ i (d_held d') + occ i cal')%nat ->
  (occ i cal <= occ i cal')%nat ->
  owned cal' (<[k := d']> ds) i c.
Proof.
  intros [(H1' & H2' & H3' & Hcal & Hh)|(k0 & read & H1' & H2' & H3' & Hk0 & Hsum & Hh)] Hk Hacc Hle.
  - left. split_and!; try done.
    + specialize (Hh k). rewrite (held_some _ _ _ _ Hk) in Hh. lia.
    + intros k'. rewrite held_insert. destruct (decide (k = k')) as [<-|]; [|done].
      specialize (Hh k). rewrite (held_some _ _ _ _ Hk) in Hh. lia.
  - right. exists k0, read. split_and!; try done.
    + rewrite lookup_insert_is_Some'. auto.
    + rewrite held_insert. destruct (decide (k = k0)) as [<-|].
      * rewrite (held_some _ _ _ _ Hk) in Hsum. lia.
      * specialize (Hh k ltac:(done)). rewrite (held_some _ _ _ _ Hk) in Hh. lia.
    + intros k' Hk'. rewrite held_insert. destruct (decide (k = k')) as [<-|]; [|auto].
      specialize (Hh k Hk'). rewrite (held_some _ _ _ _ Hk) in Hh. lia.
Qed.

Lemma own_dispatch s k d d' e acts :
  own_inv s -> dispatchers (cw s) !! k = Some d -> d_ok d' -> accounts e d d' ->
  (forall r, e = EvAccepted r \/ e = EvDropped r -> channels (cw s) !! request_id r = None) ->
  own_inv (mkCS (set_dispatcher k d' (cw s)) acts (closing s)
             (calling s ++ called_channels e (cw s)) (handlers s) (calls s)).
Proof.
  intros [Hok Ho] Hk Hd' Hacc Hno. split; simpl; [by apply map_Forall_insert_2|].
  intros i c Hc. specialize (Hacc i). rewrite fmap_app.
  assert (occ i (accepted_by e) = 0%nat /\ occ i (finished_by e) = occ i (called_channels e (cw s)).*1)
    as [Ea Ef].
  { assert (forall r, channels (cw s) !! request_id r = None -> occ i [request_id r] = 0%nat) as Hz.
    { intros r Hr. unfold occ. simpl. destruct (Z.eq_dec _ _); [congruence|done]. }
    destruct e as [|r|r st|r]; simpl; rewrite ?occ_nil.
    - done.
    - split; [|done]. apply Hz. apply Hno. by left.
    - split; [done|]. destruct (decide (is_Some _)) as [|Hn]; [done|]. simpl. rewrite occ_nil.
      apply Hz. by apply eq_None_not_Some.
    - split; [done|]. apply Hz. apply Hno. by right. }
  eapply owned_dispatch; [by apply Ho|done| |]; rewrite occ_app; lia.
Qed.

Context {laws : DispatcherLaws D}.

Lemma occ_one i j : i <> j -> occ i [j] = 0%nat.
Proof. intros Hn. unfold occ. simpl. destruct (Z.eq_dec j i); congruence. Qed.

Lemma occ_self i : occ i [i] = 1%nat.
Proof. unfold occ. simpl. destruct (Z.eq_dec i i); done. Qed.

(** The other channels when channel [this] and dispatcher [k] change. *)
Lemma owned_others s this k d d' n :
  own_inv s -> dispatchers (cw s) !! k = Some d ->
  (forall x, x <> this -> occ x (d_held d') = occ x (d_held d)) ->
  owned (calling s).*1 (<[k := d']> (dispatchers (cw s))) this n ->
  map_Forall (owned (calling s).*1 (<[k := d']> (dispatchers (cw s)))) (<[this := n]> (channels (cw s))).
Proof.
  intros [Hok Ho] Hk Hsame Hn i c Hi. destruct (decide (this = i)) as [<-|Hne].
  - rewrite lookup_insert_eq in Hi. by injection Hi as <-.
  - rewrite lookup_insert_ne in Hi by done. eapply owned_dispatch; [by apply Ho|done| |lia].
    rewrite Hsame by done. lia.
Qed.

Lemma wait_own s this k read st act w acts cl hs cs :
  own_inv s -> WaitAsync this k read (cw s) = Done (st, act, w) ->
  own_inv (mkCS w acts cl (calling s) hs cs).
Proof.
  intros Hown Hw. pose proof Hown as [Hok Ho].
  destruct (WaitAsync_cases _ _ _ _ _ _ _ Hw) as
    [(_ & _ & ->)|(c & d & d' & r & r0 & ret & Hc & Hk & Hdn & Hr0 & Hid & _ & Hreg & Hcase)];
    [by apply own_same|].
  destruct (Ho _ _ Hc) as [(_ & _ & (r1 & Hr1 & Hclean) & Hcal & Hheld)|(k0 & ? & ? & _)]; [|congruence].
  assert (r1 = r0) as -> by congruence. destruct Hclean as (Hid0 & _ & _ & _).
  destruct (law_register r d ret d' (Hok _ _ Hk) Hreg) as [Hok' Hacc].
  assert (map_Forall (fun _ d => d_ok d) (<[k := d']> (dispatchers (cw s)))) as Hoks
    by by apply map_Forall_insert_2.
  assert (forall k', held_at (dispatchers (cw s)) k' this = 0%nat) as Hz by done.
  destruct Hcase as [(r' & -> & _ & _ & ->)|Hcase].
  - destruct Hacc as [[[= ->] Hacc]|[? _]]; [|done]. split; simpl; [done|].
    eapply owned_others; [done|done| |].
    + intros x _. specialize (Hacc x). simpl in Hacc. rewrite ?occ_nil in Hacc. lia.
    + left. simpl. split_and!; try done.
      * exists (Dispatcher.Reset r). split; [done|]. split_and!; simpl; congruence.
      * intros k'. rewrite held_insert. destruct (decide (k = k')) as [<-|]; [|done].
        specialize (Hacc this). simpl in Hacc. rewrite ?occ_nil in Hacc.
        specialize (Hheld k). rewrite (held_some _ _ _ _ Hk) in Hheld. lia.
  - destruct Hacc as [[? _]|[-> Hacc]].
    { destruct Hcase as [(? & _)|(? & _)]; congruence. }
    assert (exists b, w = set_channel this (set_pending b (registered k read c)) (set_dispatcher k d' (cw s)))
      as [b ->] by (destruct Hcase as [(_ & _ & _ & _ & ->)|(_ & _ & _ & _ & ->)]; eauto).
    split; simpl; [done|]. eapply owned_others; [done|done| |].
    + intros x Hx. specialize (Hacc x). simpl in Hacc. rewrite ?occ_nil, occ_one in Hacc by congruence. lia.
    + right. exists k, read. simpl. split_and!; try done.
      * by rewrite lookup_insert_eq.
      * rewrite held_insert, decide_True by done. specialize (Hacc this). simpl in Hacc.
        rewrite ?occ_nil, Hid, Hid0, occ_self in Hacc. specialize (Hheld k).
        rewrite (held_some _ _ _ _ Hk) in Hheld. lia.
      * intros k' Hk'. by rewrite held_insert, decide_False by done.
Qed.

Lemma cancel_own s this st act w acts cl hs cs :
  own_inv s -> CancelWait this (cw s) = Done (st, act, w) ->
  own_inv (mkCS w acts cl (calling s) hs cs).
Proof.
  intros Hown Hw. pose proof Hown as [Hok Ho].
  destruct (CancelWait_cases _ _ _ _ _ Hw) as [[_ ->]|(c & k & d & Hc & Hdk & Hk & Hcase)];
    [by apply own_same|].
  assert (forall e d', d_ok d' -> accounts e d d' -> accepted_by e = [] -> (e = EvTau \/ exists r, e = EvDropped r /\ request_id r = this) ->
    map_Forall (fun _ d => d_ok d) (<[k := d']> (dispatchers (cw s))) /\
    (forall x, x <> this -> occ x (d_held d') = occ x (d_held d))) as Hmove.
  { intros e d' Hok' Hacc Ha He. split; [by apply map_Forall_insert_2|]. intros x Hx. specialize (Hacc x).
    rewrite Ha, ?occ_nil in Hacc. destruct He as [->|(r & -> & Hr)]; simpl in Hacc.
    - rewrite ?occ_nil in Hacc. lia.
    - rewrite occ_one in Hacc by congruence. lia. }
  destruct Hcase as [(b & d' & Hset & _ & ->)|[(_ & _ & _ & ->)|(r & d' & _ & Hcan & Hcr & _ & _ & ->)]].
  - destruct (law_set_reason _ _ _ _ _ (Hok _ _ Hk) Hset) as [Hok' Hacc].
    destruct (Hmove EvTau d' Hok' Hacc eq_refl (or_introl eq_refl)) as [Hoks Hsame].
    split; simpl; [done|]. rewrite <- (insert_id (channels (cw s)) this c) by done.
    eapply owned_others; [done|done|done|]. eapply owned_dispatch; [by apply Ho|done| |lia].
    specialize (Hacc this). simpl in Hacc. rewrite ?occ_nil in Hacc. lia.
  - by eapply own_upd.
  - destruct (law_cancel _ _ _ _ (Hok _ _ Hk) Hcan) as (Hok' & Hacc & Hid). specialize (Hid r eq_refl).
    destruct (Hmove (EvDropped r) d' Hok' Hacc eq_refl) as [Hoks Hsame]; [eauto|].
    split; simpl; [done|]. eapply owned_others; [done|done|done|]. left. simpl.
    specialize (Hacc this). simpl in Hacc. rewrite ?occ_nil, Hid, occ_self in Hacc.
    destruct (Ho _ _ Hc) as [(? & _)|(k0 & rd & Hk0 & _ & _ & _ & Hsum & Hzero)]; [congruence|].
    assert (k0 = k) as -> by congruence. rewrite (held_some _ _ _ _ Hk) in Hsum.
    split_and!; try done; [|lia|].
    + exists (Dispatcher.Reset r). by split_and!.
    + intros k'. rewrite held_insert. destruct (decide (k = k')); [lia|auto].
Qed.

Lemma callback_own s l1 i st l2 k read st' w acts cl hs cs :
  own_inv s -> calling s = l1 ++ (i, st) :: l2 ->
  callback_begin i (new_request i kOther) st (cw s) = Done (k, read, st', w) ->
  own_inv (mkCS w acts cl (l1 ++ l2) hs cs).
Proof.
  intros [Hok Ho] Ecal (c & Hc & Hk & _ & _ & ->)%callback_begin_cases.
  assert (forall x, occ x (calling s).*1 = (occ x [i] + occ x (l1 ++ l2).*1)%nat) as Hsplit.
  { intros x. rewrite Ecal, !fmap_app, fmap_cons, !occ_app. cbn [fst].
    pose proof (occ_app x [i] l2.*1) as E. cbn [app] in E. lia. }
  split; simpl; [done|]. intros j cj Hj. destruct (decide (i = j)) as [<-|Hn].
  - rewrite lookup_insert_eq in Hj. injection Hj as <-. left. simpl.
    destruct (Ho _ _ Hc) as [(? & _)|(k0 & rd & Hk0 & _ & _ & _ & Hsum & Hzero)]; [congruence|].
    rewrite Hsplit, occ_self in Hsum. split_and!; try done; [|lia|].
    + exists (new_request i kOther). by split_and!.
    + intros k'. destruct (decide (k' = k0)) as [->|]; [lia|auto].
  - rewrite lookup_insert_ne in Hj by done. pose proof (Ho _ _ Hj) as Hoj.
    unfold owned in *. by rewrite Hsplit, occ_one in Hoj by done.
Qed.

Lemma create_own s ch0 ch1 st hs w :
  own_inv s -> ch0 <> ch1 ->
  (forall i, i = ch0 \/ i = ch1 -> (i ∉ (calling s).*1) /\
     (forall k d, dispatchers (cw s) !! k = Some d -> occ i (d_held d) = 0%nat)) ->
  ChannelCreate ch0 ch1 (cw s) = Done (st, hs, w) ->
  own_inv (mkCS w (actions s) (closing s) (calling s) (handlers s) (calls s)).
Proof.
  intros [Hok Ho] Hne Hfresh (E & _ & Ed & _)%ChannelCreate_frame. split; simpl; rewrite Ed; [done|].
  assert (forall i j, i = ch0 \/ i = ch1 ->
    owned (calling s).*1 (dispatchers (cw s)) i (Init j (new_channel i))) as Hnew.
  { intros i j Hi. destruct (Hfresh i Hi) as [Hcal Hheld]. left. simpl. split_and!; try done.
    - exists (new_request i kOther). by split_and!.
    - unfold occ. apply count_occ_not_In. by rewrite <- list_elem_of_In.
    - intros k. unfold held_at. destruct (dispatchers (cw s) !! k) eqn:Ek; [eauto|done]. }
  rewrite E. apply map_Forall_insert_2; [auto|]. apply map_Forall_insert_2; [auto|done].
Qed.

Lemma WriteSelf_own s j p w act w' acts cl hs cs :
  own_inv s -> channels w = channels (cw s) -> dispatchers w = dispatchers (cw s) ->
  WriteSelfLocked j p w = Done (act, w') -> own_inv (mkCS w' acts cl (calling s) hs cs).
Proof.
  intros Ho E Ed (c & Hc & Hcase)%WriteSelf_cases. rewrite E in Hc.
  destruct Hcase as [(i & x & t & _ & _ & _ & _ & ->)|[(_ & _ & _ & ->)|(d & _ & _ & _ & _ & ->)]];
    (eapply (own_upd j c); [done|done|simpl; by rewrite E|done..]).
Qed.

Lemma abort_own this w w' acts cl ca hs cs :
  own_inv (mkCS w acts cl ca hs cs) -> abort_calls this w = Done w' ->
  own_inv (mkCS w' acts cl ca hs cs).
Proof.
  intros Ho (c & Hc & E & Ed & _)%abort_calls_frame.
  by eapply (own_upd this c (set_waiters [] c) (mkCS w acts cl ca hs cs)).
Qed.

Lemma Close_own s this w' peer acts cl hs cs :
  own_inv s -> Close this (cw s) = Done (peer, w') -> own_inv (mkCS w' acts cl (calling s) hs cs).
Proof.
  intros [Hok Ho] (c & w0 & Hc & _ & _ & Ed & _ & _ & Hw0 & Ha)%Close_cases.
  assert (dispatchers w0 = dispatchers (cw s)) as Ed0.
  { destruct (abort_calls_frame _ _ _ Ha) as (_ & _ & _ & E & _). congruence. }
  eapply abort_own; [|exact Ha]. split; simpl; rewrite Ed0; [done|].
  assert (map_Forall (owned (calling s).*1 (dispatchers (cw s)))
    (<[this := set_peer None c]> (channels (cw s)))) as Hthis.
  { apply map_Forall_insert_2; [|done]. by eapply owned_keep; [apply Ho|..]. }
  destruct (peer_ c) as [p|]; [|by rewrite Hw0].
  destruct Hw0 as (cp & Hcp & ->). apply map_Forall_insert_2; [|done].
  by eapply owned_keep; [apply Hthis|..].
Qed.

Lemma chstep_own s e s' : own_inv s -> chstep s e s' -> own_inv s'.
Proof.
  intros Ho Hs. destruct Hs; simpl.
  - eapply create_own; eauto. intros i Hi. by destruct (H5 i Hi).
  - destruct Ho as [Hok Ho]. split; simpl; [by apply map_Forall_insert_2|].
    assert (forall k' i, held_at (<[k := d]> (dispatchers (cw s))) k' i = held_at (dispatchers (cw s)) k' i) as Hh.
    { intros k' i. rewrite held_insert. destruct (decide (k = k')) as [<-|]; [|done].
      unfold held_at. by rewrite H4, H6. }
    intros i c Hc. pose proof (Ho i c Hc) as Hoc. unfold owned in *.
    destruct Hoc as [(? & ? & ? & ? & Hz)|(k0 & rd & ? & ? & ? & Hk0 & ? & Hz)]; [left|right; exists k0, rd];
      rewrite ?Hh; split_and!; try done; [intros k'; by rewrite Hh|rewrite lookup_insert_is_Some'; auto|].
    intros k' Hk'. rewrite Hh. auto.
  - destruct (Write_cases _ _ _ _ _ _ _ _ H4) as
      [(_ & _ & E & _ & Ed & _)|(c & j & w1 & _ & Hc & Hj & E & _ & Ed & _ & Hw)].
    + by apply own_same.
    + by eapply WriteSelf_own.
  - destruct (Read_cases _ _ _ _ _ _ _ H4) as [[_ ->]|(c & p & rest & _ & Hc & Hq & -> & _)];
      [by apply own_same|by eapply (own_upd this c)].
  - by eapply wait_own.
  - by eapply cancel_own.
  - destruct (call_begin_cases _ _ _ _ _ _ _ _ _ _ _ H6) as
      [(_ & _ & E & _ & Ed & _)|(c & j & txid & next & w1 & _ & Hc & Hj & E & _ & Ed & _ & _ & _ & _ & Hw)].
    + by apply own_same.
    + eapply (WriteSelf_own (mkCS (with_waiter this waiter txid next (wr_data a) c w1) (actions s)
        (closing s) (calling s) (handlers s) (calls s))); [|done|done|done].
      by eapply (own_upd this c); [done|done|simpl; rewrite E|..].
  - destruct (call_end_cases _ _ _ _ _ _ _ _ H5) as (x & c & _ & Hc & _ & Ed & Hcase).
    destruct Hcase as [(_ & _ & _ & _ & E)|[(l & _ & _ & _ & _ & E)|(m & _ & _ & _ & _ & E)]];
      [by eapply (own_upd this c)..|by apply own_same].
  - by eapply Close_own.
  - destruct (OnPeerClosed_cases _ _ _ _ H5) as (w1 & c & Ha & Hc & Hcase).
    assert (own_inv (mkCS w1 (actions s ++ opt_list act) (l1 ++ l2) (calling s) (handlers s) (calls s))) as Ho1.
    { eapply abort_own; [|exact Ha]. by apply own_same. }
    destruct Hcase as [(_ & -> & _)|(k & _ & _ & _ & ->)]; [done|].
    by eapply (own_upd i c _ (mkCS w1 (actions s ++ opt_list act) (l1 ++ l2) (calling s) (handlers s) (calls s))).
  - pose proof (proj1 Ho _ _ H5) as Hd. destruct (law_queue _ _ _ _ _ Hd H6) as (Hd' & Hacc & Ha & Hnd).
    eapply own_dispatch; eauto. intros r [-> | ->]; [done|]. by destruct (Hnd r).
  - pose proof (proj1 Ho _ _ H4) as Hd. destruct (law_step _ _ _ Hd H5) as (Hd' & Hacc).
    by eapply own_dispatch.
  - by eapply callback_own.
  - destruct (callback_end_cases _ _ _ H5) as (c & Hc & _ & ->). by eapply (own_upd i c).
  - by apply own_same.
Qed.

Lemma chrun_own tr s : chrun tr s -> own_inv s.
Proof. induction 1 as [|tr s e s' _ IH Hs]; [by split|by eapply chstep_own]. Qed.

(** ** Waiting calls *)

(** The state of the waiter of a call on channel [i], whose channel lists it or not. *)
Definition waiter_state (i : Z) (listed : Prop) (x : MessageWaiter) : Prop :=
  w_channel_ x = Some i /\
  match status_ x with
  | None => listed
  | Some ZX_OK => ~ listed /\ msg_ x <> None
  | Some st => ~ listed /\ st = ZX_ERR_PEER_CLOSED
  end.

Record calls_inv (chs : gmap Z Channel) (ws : gmap Z MessageWaiter) (cs : list (Z * Z)) : Prop := {
  ci_next : forall i c, chs !! i = Some c -> 0 <= next_id_ c < kNumTxids;
  ci_nodup : forall i c, chs !! i = Some c -> NoDup (waiters_ c);
  ci_listed : forall i c x, chs !! i = Some c -> x ∈ waiters_ c ->
    (i, x) ∈ cs /\ exists wt t, ws !! x = Some wt /\ txid_ wt = Some t /\ kMinTxid <= t < 2 ^ 32;
  ci_txids : forall i c x y wx wy, chs !! i = Some c -> x ∈ waiters_ c -> y ∈ waiters_ c ->
    ws !! x = Some wx -> ws !! y = Some wy -> txid_ wx = txid_ wy -> x = y;
  ci_calls : NoDup cs.*2;
  ci_call : forall i x, (i, x) ∈ cs ->
    exists c wt, chs !! i = Some c /\ ws !! x = Some wt /\ waiter_state i (x ∈ waiters_ c) wt
}.

(** A waiter belongs to one channel. *)
Lemma listed_once chs ws cs i j ci cj x :
  calls_inv chs ws cs -> chs !! i = Some ci -> chs !! j = Some cj ->
  x ∈ waiters_ ci -> x ∈ waiters_ cj -> i = j.
Proof.
  intros Hw Hi Hj Hxi Hxj. destruct (ci_listed _ _ _ Hw i ci x Hi Hxi) as [Hi' _].
  destruct (ci_listed _ _ _ Hw j cj x Hj Hxj) as [Hj' _].
  destruct (ci_call _ _ _ Hw i x Hi') as (c1 & w1 & _ & Hw1 & Hs1 & _).
  destruct (ci_call _ _ _ Hw j x Hj') as (c2 & w2 & _ & Hw2 & Hs2 & _). congruence.
Qed.

(** Only other fields of a channel change. *)
Lemma calls_upd chs ws cs i c c' :
  calls_inv chs ws cs -> chs !! i = Some c -> waiters_ c' = waiters_ c -> next_id_ c' = next_id_ c ->
  calls_inv (<[i := c']> chs) ws cs.
Proof.
  intros Hw Hc E1 E2.
  assert (forall k ck, <[i := c']> chs !! k = Some ck ->
    exists ck0, chs !! k = Some ck0 /\ waiters_ ck = waiters_ ck0 /\ next_id_ ck = next_id_ ck0) as Hback.
  { intros k ck Hk. destruct (decide (i = k)) as [<-|].
    - rewrite lookup_insert_eq in Hk. injection Hk as <-. eauto.
    - rewrite lookup_insert_ne in Hk by done. eauto. }
  destruct Hw as [W1 W2 W3 W4 W5 W6]. split; try done.
  - intros k ck Hk. destruct (Hback k ck Hk) as (c0 & Hc0 & _ & ->). eauto.
  - intros k ck Hk. destruct (Hback k ck Hk) as (c0 & Hc0 & -> & _). eauto.
  - intros k ck x Hk. destruct (Hback k ck Hk) as (c0 & Hc0 & -> & _). eauto.
  - intros k ck x y wx wy Hk. destruct (Hback k ck Hk) as (c0 & Hc0 & -> & _). eauto.
  - intros k x Hx. destruct (W6 k x Hx) as (c0 & wt & Hc0 & Hwt & Hs).
    destruct (decide (i = k)) as [<-|].
    + exists c', wt. rewrite lookup_insert_eq, E1. simplify_eq. done.
    + exists c0, wt. by rewrite lookup_insert_ne.
Qed.

Lemma calls_new chs ws cs i :
  calls_inv chs ws cs -> chs !! i = None -> forall c, waiters_ c = [] -> next_id_ c = 0 ->
  calls_inv (<[i := c]> chs) ws cs.
Proof.
  intros [W1 W2 W3 W4 W5 W6] Hn c E1 E2. split; try done.
  - intros k ck [[<- <-]|[_ Hk]]%lookup_insert_Some; [rewrite E2; done|eauto].
  - intros k ck [[<- <-]|[_ Hk]]%lookup_insert_Some; [rewrite E1; constructor|eauto].
  - intros k ck x [[<- <-]|[_ Hk]]%lookup_insert_Some; [rewrite E1; set_solver|eauto].
  - intros k ck x y wx wy [[<- <-]|[_ Hk]]%lookup_insert_Some; [rewrite E1; set_solver|eauto].
  - intros k x Hx. destruct (W6 k x Hx) as (c0 & wt & Hc0 & Hwt & Hs). exists c0, wt.
    rewrite lookup_insert_ne; [done|congruence].
Qed.

(** A listed waiter is answered and taken off the list. *)
Lemma calls_answer chs ws cs i c x wt st msg :
  calls_inv chs ws cs -> chs !! i = Some c -> x ∈ waiters_ c -> ws !! x = Some wt ->
  (st = ZX_OK /\ msg <> None \/ st = ZX_ERR_PEER_CLOSED) ->
  calls_inv (<[i := set_waiters (filter (fun y => y <> x) (waiters_ c)) c]> chs)
    (<[x := mkWaiter (w_channel_ wt) (txid_ wt) (Some st) msg]> ws) cs.
Proof.
  intros Hw Hc Hx Hwt Hst. pose proof Hw as [W1 W2 W3 W4 W5 W6]. split; try done.
  - intros k ck [[<- <-]|[_ Hk]]%lookup_insert_Some; simpl; eauto.
  - intros k ck [[<- <-]|[_ Hk]]%lookup_insert_Some; simpl; [apply NoDup_filter; eauto|eauto].
  - intros k ck y Hk Hy. assert (exists c0, chs !! k = Some c0 /\ y ∈ waiters_ c0 /\ y <> x) as (c0 & Hk0 & Hy0 & Hne).
    { apply lookup_insert_Some in Hk as [[<- <-]|[Hn Hk]]; simpl in Hy.
      - apply list_elem_of_filter in Hy as [? ?]. eauto.
      - exists ck. split_and!; [done..|]. intros ->. apply Hn. by eapply listed_once. }
    destruct (W3 k c0 y Hk0 Hy0) as [? (wy & t & ? & ? & ?)]. split; [done|]. exists wy, t.
    by rewrite lookup_insert_ne.
  - intros k ck y z wy wz Hk Hy Hz Hwy Hwz.
    assert (exists c0, chs !! k = Some c0 /\ y ∈ waiters_ c0 /\ z ∈ waiters_ c0) as (c0 & Hk0 & Hy0 & Hz0).
    { apply lookup_insert_Some in Hk as [[<- <-]|[Hn Hk]]; simpl in *; [|eauto].
      apply list_elem_of_filter in Hy as [? ?]. apply list_elem_of_filter in Hz as [? ?]. eauto. }
    apply lookup_insert_Some in Hwy as [[<- <-]|[? Hwy]], Hwz as [[<- <-]|[? Hwz]]; simpl; eauto.
  - intros k y Hy. destruct (W6 k y Hy) as (c0 & wy & Hk & Hwy & Hch & Hs).
    assert (exists ck, <[i := set_waiters (filter (fun y => y <> x) (waiters_ c)) c]> chs !! k = Some ck /\
      (y <> x -> y ∈ waiters_ ck <-> y ∈ waiters_ c0) /\ (y = x -> y ∉ waiters_ ck)) as (ck & Hck & Hne & Heq).
    { destruct (decide (i = k)) as [<-|Hik].
      - eexists. rewrite lookup_insert_eq. split; [done|]. assert (c0 = c) as -> by congruence.
        simpl. split; [intros ?; rewrite list_elem_of_filter; tauto|].
        by intros -> [? _]%list_elem_of_filter.
      - exists c0. rewrite lookup_insert_ne by done. split_and!; [done..|]. intros -> Hin.
        apply Hik. by eapply listed_once. }
    exists ck. destruct (decide (x = y)) as [<-|Hxy].
    + assert (wy = wt) as -> by congruence. eexists. rewrite (lookup_insert_eq ws). split_and!; [done..|].
      split; [done|]. simpl. specialize (Heq eq_refl). destruct Hst as [[-> ?]| ->]; done.
    + exists wy. rewrite (lookup_insert_ne ws) by done. split_and!; [done..|]. split; [done|].
      specialize (Hne ltac:(done)). destruct (status_ wy) as [[]|]; rewrite Hne; done.
Qed.

Lemma filter_head x (l : list Z) : NoDup (x :: l) -> filter (fun y => y <> x) (x :: l) = l.
Proof.
  intros [Hx Hl]%NoDup_cons. rewrite filter_cons, decide_False by tauto.
  apply list_filter_all. apply Forall_forall. intros y Hy ->. done.
Qed.

(** All listed waiters are told that the peer has gone. *)
Lemma cancel_waiters_calls i c l chs cs (w : World D) :
  calls_inv (<[i := set_waiters l c]> chs) (waiters w) cs ->
  exists w', cancel_waiters l w = Done w' /\ calls_inv (<[i := set_waiters [] c]> chs) (waiters w') cs.
Proof.
  revert w. induction l as [|x l IH]; intros w Hw; [by exists w|].
  assert (<[i := set_waiters (x :: l) c]> chs !! i = Some (set_waiters (x :: l) c)) as Hi
    by by rewrite lookup_insert_eq.
  assert (x ∈ waiters_ (set_waiters (x :: l) c)) as Hx by (simpl; by left).
  destruct (ci_listed _ _ _ Hw i _ x Hi Hx) as [Hcall (wt & t & Hwt & _)].
  destruct (ci_call _ _ _ Hw i x Hcall) as (c0 & wt0 & Hc0 & Hwt0 & Hch & _).
  assert (wt0 = wt) as -> by congruence.
  pose proof (calls_answer _ _ _ i _ x wt ZX_ERR_PEER_CLOSED (msg_ wt) Hw Hi Hx Hwt) as Ha.
  specialize (Ha ltac:(auto)). cbn [waiters_ set_waiters] in Ha.
  rewrite filter_head in Ha by apply (ci_nodup _ _ _ Hw i _ Hi). rewrite insert_insert_eq in Ha.
  destruct (IH (set_waiter x (mkWaiter (w_channel_ wt) (txid_ wt) (Some ZX_ERR_PEER_CLOSED) (msg_ wt)) w) Ha)
    as (w' & Hcw & Hinv).
  exists w'. split; [|done]. simpl. unfold CancelLocked, deref_waiter. rewrite Hwt. simpl.
  rewrite (bool_decide_true (w_channel_ wt <> None)) by (by rewrite Hch). done.
Qed.

Lemma set_waiters_id (c : Channel) : set_waiters (waiters_ c) c = c.
Proof. by destruct c. Qed.

Lemma abort_calls_spec i c cs (w : World D) :
  calls_inv (channels w) (waiters w) cs -> channels w !! i = Some c ->
  exists w', abort_calls i w = Done w' /\ calls_inv (channels w') (waiters w') cs.
Proof.
  intros Hw Hc. unfold abort_calls, deref_channel. rewrite Hc. simpl.
  destruct (cancel_waiters_calls i c (waiters_ c) (channels w) cs w) as (w' & Hcw & Hinv).
  { by rewrite set_waiters_id, insert_id. }
  rewrite Hcw. simpl. eexists. split; [done|]. simpl.
  destruct (cancel_waiters_frame _ _ _ Hcw) as (-> & _). done.
Qed.

(** *** Transaction identifiers *)

Lemma find_waiter_spec t l (w : World D) :
  (forall x, x ∈ l -> exists wt t, waiters w !! x = Some wt /\ txid_ wt = Some t) ->
  exists r, find_waiter t l w = Done r /\
    match r with
    | Some i => i ∈ l /\ exists wt, waiters w !! i = Some wt /\ txid_ wt = Some t
    | None => forall x wt, x ∈ l -> waiters w !! x = Some wt -> txid_ wt <> Some t
    end.
Proof.
  induction l as [|x l IH]; intros Hl; simpl; [exists None; split; [done|set_solver]|].
  destruct (Hl x) as (wt & t' & Hx & Ht'); [by left|].
  unfold deref_waiter. rewrite Hx. simpl. rewrite Ht'.
  destruct (Z.eqb_spec t' t) as [->|Hn].
  - exists (Some x). split; [done|]. split; [by left|eauto].
  - destruct IH as (r & Hr & Hspec); [intros y Hy; apply Hl; by right|]. exists r. split; [done|].
    destruct r as [i|]; [destruct Hspec; split; [by right|done]|].
    intros y wy Hy Hwy. apply elem_of_cons in Hy as [->|Hy]; [congruence|eauto].
Qed.

Lemma next_id_wraps n : 0 <= n < kNumTxids -> Z.land (u32 (n + 1)) (kNumTxids - 1) = (n + 1) mod kNumTxids.
Proof.
  intros Hn. change (kNumTxids - 1) with (Z.ones 31). change kNumTxids with (2 ^ 31) in *.
  rewrite u32_small by (unfold is_u32; lia). by rewrite Z.land_ones.
Qed.

Section txids.
Context (c : Channel) (w : World D).
Context (listed : forall x, x ∈ waiters_ c -> exists wt t, waiters w !! x = Some wt /\ txid_ wt = Some t).

(** [t] is the txid of a listed waiter. *)
Definition in_use_txid (t : Z) : Prop :=
  exists x wt, x ∈ waiters_ c /\ waiters w !! x = Some wt /\ txid_ wt = Some t.

(** The loop finds a free txid, unless all it tries are in use. *)
Lemma allocate_txid_spec fuel n :
  0 <= n < kNumTxids ->
  exists r, allocate_txid fuel n c w = Done r /\
    match r with
    | Some (txid, next) => kMinTxid <= txid < 2 ^ 32 /\ 0 <= next < kNumTxids /\ ~ in_use_txid txid
    | None => forall j, 0 <= j < Z.of_nat fuel -> in_use_txid (kMinTxid + (n + j) mod kNumTxids)
    end.
Proof.
  revert n. induction fuel as [|fuel IH]; intros n Hn; simpl; [exists None; split; [done|lia]|].
  assert (u32 (kMinTxid + n) = kMinTxid + n) as Hu.
  { apply u32_small. unfold is_u32, kNumTxids, kMinTxid in *. lia. }
  rewrite Hu, next_id_wraps by done.
  replace (kMinTxid <=? kMinTxid + n) with true by (symmetry; apply Z.leb_le; lia). simpl.
  destruct (find_waiter_spec (kMinTxid + n) (waiters_ c) w listed) as (r & Hr & Hspec).
  unfold IsTxidInUseLocked. rewrite Hr. simpl. destruct r as [i|]; simpl.
  - destruct (IH ((n + 1) mod kNumTxids)) as (r' & Hr' & Hspec').
    { apply Z.mod_pos_bound. unfold kNumTxids, kMinTxid. lia. }
    exists r'. split; [done|]. destruct r' as [[txid next]|]; [done|]. intros j Hj.
    destruct (decide (j = 0)) as [->|].
    + rewrite Z.add_0_r, Z.mod_small by done. destruct Hspec as [? (wt & ? & ?)]. by exists i, wt.
    + specialize (Hspec' (j - 1) ltac:(lia)). rewrite Zplus_mod_idemp_l in Hspec'.
      by replace (n + 1 + (j - 1)) with (n + j) in Hspec' by lia.
  - eexists. split; [done|]. simpl. split_and!; try (unfold kNumTxids, kMinTxid in *; lia).
    + apply Z.mod_pos_bound. unfold kNumTxids, kMinTxid. lia.
    + apply Z.mod_pos_bound. unfold kNumTxids, kMinTxid. lia.
    + intros (x & wt & Hx & Hwt & Ht). by apply (Hspec x wt).
Qed.

(** With fewer than 2^31 waiting calls there is always a free txid. *)
Lemma AllocateTxid_spec :
  0 <= next_id_ c < kNumTxids -> Z.of_nat (length (waiters_ c)) < 2 ^ 31 ->
  exists txid next, AllocateTxidLocked c w = Done (Some (txid, next)) /\
    kMinTxid <= txid < 2 ^ 32 /\ 0 <= next < kNumTxids /\ ~ in_use_txid txid.
Proof.
  intros Hn Hlen. unfold AllocateTxidLocked.
  destruct (allocate_txid_spec (S (length (waiters_ c))) _ Hn) as (r & Hr & Hspec).
  destruct r as [[txid next]|]; [by exists txid, next|]. exfalso.
  set (f := fun j : nat => kMinTxid + (next_id_ c + Z.of_nat j) mod kNumTxids).
  set (txid_at := fun x => match waiters w !! x ≫= txid_ with Some t => t | None => 0 end).
  assert (map f (seq 0 (S (length (waiters_ c)))) ⊆+ map txid_at (waiters_ c)) as Hsub.
  { apply NoDup_submseteq.
    - apply NoDup_fmap_2_strong; [|apply NoDup_seq]. intros j k Hj Hk Hjk.
      apply elem_of_seq in Hj, Hk. unfold f in Hjk. apply Z.add_cancel_l in Hjk.
      change kNumTxids with (2 ^ 31) in *.
      pose proof (Z.div_mod (next_id_ c + Z.of_nat j) (2 ^ 31) ltac:(lia)).
      pose proof (Z.div_mod (next_id_ c + Z.of_nat k) (2 ^ 31) ltac:(lia)). nia.
    - intros t (j & -> & Hj)%list_elem_of_fmap. apply elem_of_seq in Hj.
      destruct (Hspec (Z.of_nat j) ltac:(lia)) as (x & wt & Hx & Hwt & Ht).
      apply list_elem_of_fmap. exists x. split; [|done]. unfold txid_at. rewrite Hwt. simpl. by rewrite Ht. }
  apply submseteq_length in Hsub. rewrite !length_fmap, length_seq in Hsub. lia.
Qed.
End txids.

Lemma listed_txids chs ws cs i c :
  calls_inv chs ws cs -> chs !! i = Some c ->
  forall x, x ∈ waiters_ c -> exists wt t, ws !! x = Some wt /\ txid_ wt = Some t.
Proof. intros Hw Hc x Hx. destruct (ci_listed _ _ _ Hw i c x Hc Hx) as [_ (wt & t & ? & ? & _)]. eauto. Qed.

Lemma WriteSelf_calls j p (w : World D) act w' cs :
  calls_inv (channels w) (waiters w) cs -> WriteSelfLocked j p w = Done (act, w') ->
  calls_inv (channels w') (waiters w') cs.
Proof.
  intros Hw (c & Hc & Hcase)%WriteSelf_cases.
  destruct Hcase as [(i & x & t & _ & _ & Hf & Hx & ->)|[(_ & _ & _ & ->)|(d & _ & _ & _ & _ & ->)]];
    simpl; [|by eapply calls_upd..].
  destruct (find_waiter_spec t (waiters_ c) w (listed_txids _ _ _ _ _ Hw Hc)) as (r & Hr & Hspec).
  rewrite Hf in Hr. injection Hr as <-. destruct Hspec as [Hi _].
  apply calls_answer; auto.
Qed.

(** A new call is listed under a txid that is not in use. *)
Lemma calls_add chs ws cs i c x txid next :
  calls_inv chs ws cs -> chs !! i = Some c -> ws !! x = None -> kMinTxid <= txid < 2 ^ 32 ->
  0 <= next < kNumTxids ->
  ~ (exists y wt, y ∈ waiters_ c /\ ws !! y = Some wt /\ txid_ wt = Some txid) ->
  calls_inv (<[i := set_waiters (waiters_ c ++ [x]) (set_next_id next c)]> chs)
    (<[x := mkWaiter (Some i) (Some txid) None None]> ws) (cs ++ [(i, x)]).
Proof.
  intros Hw Hc Hx Ht Hn Hfree. pose proof Hw as [W1 W2 W3 W4 W5 W6].
  assert (forall k, (k, x) ∉ cs) as Hxcs by (intros k Hk; destruct (W6 k x Hk) as (? & ? & _ & ? & _); congruence).
  assert (forall k ck, chs !! k = Some ck -> x ∉ waiters_ ck) as Hxl.
  { intros k ck Hk Hin. destruct (W3 k ck x Hk Hin) as [Hcs _]. by apply (Hxcs k). }
  split.
  - intros k ck [[<- <-]|[_ Hk]]%lookup_insert_Some; simpl; eauto.
  - intros k ck [[<- <-]|[_ Hk]]%lookup_insert_Some; simpl; [|eauto]. apply NoDup_app. split_and!; eauto.
    + intros y Hy ->%list_elem_of_singleton. by eapply Hxl.
    + apply NoDup_singleton.
  - intros k ck y Hk Hy. destruct (decide (y = x)) as [->|Hne].
    + assert (k = i) as ->.
      { apply lookup_insert_Some in Hk as [[<- _]|[_ Hk]]; [done|]. by destruct (Hxl k ck Hk). }
      split; [set_solver|]. eexists _, txid. by rewrite lookup_insert_eq.
    + assert (exists c0, chs !! k = Some c0 /\ y ∈ waiters_ c0) as (c0 & Hk0 & Hy0).
      { apply lookup_insert_Some in Hk as [[<- <-]|[_ Hk]]; [|eauto]. simpl in Hy.
        apply elem_of_app in Hy as [Hy| ->%list_elem_of_singleton]; [eauto|done]. }
      destruct (W3 k c0 y Hk0 Hy0) as [? (wy & t & ? & ? & ?)]. split; [apply elem_of_app; auto|].
      exists wy, t. by rewrite lookup_insert_ne.
  - intros k ck y z wy wz Hk Hy Hz Hwy Hwz Heq.
    assert (forall y, y ∈ waiters_ ck -> y = x \/ exists c0, chs !! k = Some c0 /\ y ∈ waiters_ c0) as Hold.
    { intros v Hv. apply lookup_insert_Some in Hk as [[<- <-]|[_ Hk]]; [|eauto]. simpl in Hv.
      apply elem_of_app in Hv as [Hv| ->%list_elem_of_singleton]; eauto. }
    assert (forall y wy, y ∈ waiters_ ck -> y <> x -> ws !! y = Some wy -> x ∈ waiters_ ck ->
      txid_ wy <> Some txid) as Hdiff.
    { intros v wv Hv Hne Hwv Hxin Htv. destruct (Hold v Hv) as [|(c0 & Hk0 & Hv0)]; [done|].
      apply Hfree. exists v, wv. split_and!; [|done..].
      apply lookup_insert_Some in Hk as [[<- <-]|[_ Hk]]; [by simplify_eq|]. by destruct (Hxl k ck Hk). }
    apply lookup_insert_Some in Hwy as [[<- <-]|[? Hwy]], Hwz as [[<- <-]|[? Hwz]]; simpl in Heq; [done| | |].
    + exfalso. by apply (Hdiff z wz).
    + exfalso. by apply (Hdiff y wy).
    + destruct (Hold y Hy) as [|(c0 & Hk0 & Hy0)]; [done|].
      destruct (Hold z Hz) as [|(c1 & Hk1 & Hz0)]; [done|]. simplify_eq. by eapply W4.
  - rewrite fmap_app. apply NoDup_app. split_and!; [done| |apply NoDup_singleton].
    intros y Hy ->%list_elem_of_singleton. apply list_elem_of_fmap in Hy as ([k x'] & Heq & Hin).
    simpl in Heq. subst x'. by apply (Hxcs k).
  - intros k y [Hy|Heq%list_elem_of_singleton]%elem_of_app.
    + destruct (W6 k y Hy) as (c0 & wy & Hk & Hwy & Hs). assert (y <> x) as Hne by congruence.
      destruct (decide (i = k)) as [<-|].
      * eexists _, wy. rewrite lookup_insert_eq, (lookup_insert_ne ws) by done. split_and!; [done..|].
        simplify_eq. destruct Hs as [? Hs]. split; [done|]. simpl.
        assert (y ∈ waiters_ c ++ [x] <-> y ∈ waiters_ c) as Hiff by set_solver.
        destruct (status_ wy) as [[]|]; rewrite Hiff; done.
      * exists c0, wy. by rewrite !lookup_insert_ne by done.
    + injection Heq as -> ->. eexists _, _. rewrite !lookup_insert_eq. split_and!; [done..|].
      split; [done|]. simpl. set_solver.
Qed.

Lemma NoDup_app_remove_mid {A} (l1 l2 : list A) x : NoDup (l1 ++ x :: l2) -> NoDup (l1 ++ l2).
Proof. rewrite <- Permutation_middle. by intros [_ ?]%NoDup_cons. Qed.

(** A call that returns is taken off. *)
Lemma calls_remove chs ws cs l1 l2 i c x :
  calls_inv chs ws cs -> cs = l1 ++ (i, x) :: l2 -> chs !! i = Some c ->
  calls_inv (<[i := set_waiters (filter (fun y => y <> x) (waiters_ c)) c]> chs) (delete x ws) (l1 ++ l2).
Proof.
  intros Hw -> Hc. pose proof Hw as [W1 W2 W3 W4 W5 W6].
  assert (forall k ck, <[i := set_waiters (filter (fun y => y <> x) (waiters_ c)) c]> chs !! k = Some ck ->
    exists c0, chs !! k = Some c0 /\ next_id_ ck = next_id_ c0 /\ NoDup (waiters_ ck) /\
      forall y, y ∈ waiters_ ck <-> y ∈ waiters_ c0 /\ y <> x) as Hback.
  { intros k ck Hk. destruct (decide (i = k)) as [<-|Hik].
    - rewrite lookup_insert_eq in Hk. injection Hk as <-. exists c. split_and!; [done..| |].
      + apply NoDup_filter. eauto.
      + intros y. simpl. rewrite list_elem_of_filter. tauto.
    - rewrite lookup_insert_ne in Hk by done. exists ck. split_and!; eauto. intros y. split; [|tauto].
      intros Hy. split; [done|]. intros ->. destruct (W3 k ck x Hk Hy) as [Hcs _].
      destruct (W6 k x Hcs) as (? & w1 & _ & Hw1 & Hs1 & _).
      destruct (W6 i x) as (? & w2 & _ & Hw2 & Hs2 & _); [set_solver|]. congruence. }
  assert (NoDup (l1.*2 ++ x :: l2.*2)) as Hnd by (by rewrite fmap_app, fmap_cons in W5).
  assert (forall k y, (k, y) ∈ l1 ++ l2 -> y <> x) as Hother.
  { intros k y Hy ->. rewrite <- Permutation_middle in Hnd. apply NoDup_cons in Hnd as [Hnx _].
    apply Hnx. rewrite <- fmap_app. apply list_elem_of_fmap. by exists (k, x). }
  split.
  - intros k ck (c0 & Hk0 & -> & _)%Hback. eauto.
  - intros k ck (c0 & Hk0 & _ & ? & _)%Hback. done.
  - intros k ck y (c0 & Hk0 & _ & _ & Hiff)%Hback [Hy Hne]%Hiff.
    destruct (W3 k c0 y Hk0 Hy) as [Hcs (wy & t & ? & ? & ?)]. split.
    + rewrite elem_of_app, elem_of_cons in Hcs. apply elem_of_app.
      destruct Hcs as [?|[Heq|?]]; [auto| |auto]. congruence.
    + exists wy, t. by rewrite lookup_delete_ne.
  - intros k ck y z wy wz (c0 & Hk0 & _ & _ & Hiff)%Hback [Hy ?]%Hiff [Hz ?]%Hiff
      [_ Hwy]%lookup_delete_Some [_ Hwz]%lookup_delete_Some. by eapply W4.
  - rewrite fmap_app. by eapply NoDup_app_remove_mid.
  - intros k y Hy. pose proof (Hother k y Hy) as Hne.
    destruct (W6 k y) as (c0 & wy & Hk & Hwy & Hs).
    { rewrite elem_of_app, elem_of_cons. apply elem_of_app in Hy. tauto. }
    destruct (decide (i = k)) as [<-|].
    + eexists _, wy. rewrite lookup_insert_eq, lookup_delete_ne by done. split_and!; [done..|].
      simplify_eq. destruct Hs as [? Hs]. split; [done|]. simpl.
      assert (y ∈ filter (fun y => y <> x) (waiters_ c) <-> y ∈ waiters_ c) as Hiff
        by (rewrite list_elem_of_filter; tauto).
      destruct (status_ wy) as [[]|]; rewrite Hiff; done.
    + exists c0, wy. by rewrite lookup_insert_ne, lookup_delete_ne by done.
Qed.

Definition sys_calls_inv (s : CSystem) : Prop := calls_inv (channels (cw s)) (waiters (cw s)) (calls s).

Lemma call_calls s this waiter block ok stack a o st act w :
  sys_calls_inv s -> waiters (cw s) !! waiter = None ->
  (forall c, channels (cw s) !! this = Some c -> Z.of_nat (length (waiters_ c)) < 2 ^ 31) ->
  call_begin this waiter block ok stack a o (cw s) = Done (st, act, w) ->
  calls_inv (channels w) (waiters w) (if decide (st = ZX_OK) then calls s ++ [(this, waiter)] else calls s).
Proof.
  intros Hw Hx Hlen. intros [(_ & Hst & E & Ew & _)|(c & j & txid & next & w1 & -> & Hc & Hj & E & Ew & _ & _ & _ & _ & Hall & Hwr)]%call_begin_cases.
  - rewrite E, Ew. by rewrite decide_False.
  - rewrite decide_True by done. eapply WriteSelf_calls; [|exact Hwr]. simpl. rewrite E, Ew.
    assert (forall x, x ∈ waiters_ c -> exists wt t, waiters w1 !! x = Some wt /\ txid_ wt = Some t) as Hl.
    { rewrite Ew. by eapply listed_txids. }
    destruct (AllocateTxid_spec c w1 Hl (ci_next _ _ _ Hw _ _ Hc) (Hlen c Hc))
      as (txid' & next' & Hall' & Ht & Hn & Hfree).
    rewrite Hall in Hall'. injection Hall' as <- <-. apply calls_add; try done.
    unfold in_use_txid in Hfree. by rewrite Ew in Hfree.
Qed.

Lemma filter_not_in x (l : list Z) : x ∉ l -> filter (fun y => y <> x) l = l.
Proof. intros Hx. apply list_filter_all, Forall_forall. by intros y Hy ->. Qed.

Lemma call_end_calls s l1 this waiter l2 o st out closes w :
  sys_calls_inv s -> calls s = l1 ++ (this, waiter) :: l2 ->
  call_end this waiter o (cw s) = Done (st, out, closes, w) ->
  calls_inv (channels w) (waiters w) (l1 ++ l2).
Proof.
  intros Hw Hcs (x & c & Hx & Hc & Ew & _ & Hcase)%call_end_cases. rewrite Ew.
  pose proof (calls_remove _ _ _ l1 l2 this c waiter Hw Hcs Hc) as Hrem.
  destruct (ci_call _ _ _ Hw this waiter) as (c0 & x0 & Hc0 & Hx0 & _ & Hs).
  { rewrite Hcs. set_solver. }
  assert (c0 = c) as -> by congruence. assert (x0 = x) as -> by congruence.
  assert (waiter ∉ waiters_ c -> calls_inv (channels (cw s)) (delete waiter (waiters (cw s))) (l1 ++ l2)) as Hsame.
  { intros Hn. by rewrite filter_not_in, set_waiters_id, insert_id in Hrem by done. }
  destruct Hcase as [(_ & _ & _ & _ & ->)|[(l & Hst & Hne & _ & Hl & ->)|(m & Hst & _ & _ & _ & ->)]].
  - done.
  - assert (waiter ∉ waiters_ c) as Hn by (rewrite Hst in Hs; destruct st; tauto).
    assert (l = waiters_ c) as -> by (destruct Hl as [->| ->]; [done|by apply filter_not_in]).
    rewrite set_waiters_id, insert_id by done. by apply Hsame.
  - apply Hsame. rewrite Hst in Hs. tauto.
Qed.

Lemma Close_calls s this peer w :
  sys_calls_inv s -> Close this (cw s) = Done (peer, w) -> calls_inv (channels w) (waiters w) (calls s).
Proof.
  intros Hw (c & w0 & Hc & _ & _ & _ & Ew & _ & Hw0 & Ha)%Close_cases.
  assert (calls_inv (<[this := set_peer None c]> (channels (cw s))) (waiters (cw s)) (calls s)) as H1'
    by by eapply calls_upd.
  assert (calls_inv (channels w0) (waiters w0) (calls s)) as H2'.
  { rewrite Ew. destruct (peer_ c) as [p|]; [|by rewrite Hw0].
    destruct Hw0 as (cp & Hcp & ->). by eapply calls_upd. }
  destruct (abort_calls_frame _ _ _ Ha) as (c0 & Hc0 & _).
  destruct (abort_calls_spec this c0 _ _ H2' Hc0) as (w' & Ha' & Hinv). congruence.
Qed.

Lemma chstep_calls s e s' : sys_calls_inv s -> chstep s e s' -> sys_calls_inv s'.
Proof.
  intros Hw Hs. unfold sys_calls_inv in *. destruct Hs; simpl.
  - destruct (ChannelCreate_frame _ _ _ _ _ _ H6) as (E & Ew & _). rewrite E, Ew.
    destruct (H5 ch0) as [Hn0 _]; [auto|]. destruct (H5 ch1) as [Hn1 _]; [auto|].
    apply calls_new; [by apply calls_new|by rewrite lookup_insert_ne|done|done].
  - done.
  - destruct (Write_cases _ _ _ _ _ _ _ _ H4) as
      [(_ & _ & E & Ew & _)|(c & j & w1 & _ & Hc & Hj & E & Ew & _ & _ & Hwr)].
    + by rewrite E, Ew.
    + eapply WriteSelf_calls; [|exact Hwr]. by rewrite E, Ew.
  - destruct (Read_cases _ _ _ _ _ _ _ H4) as [[_ ->]|(c & p & rest & _ & Hc & Hq & -> & _)];
      [done|by eapply calls_upd].
  - destruct (WaitAsync_cases _ _ _ _ _ _ _ H4) as
      [(_ & _ & ->)|(c & d & d' & r & r0 & ret & Hc & _ & _ & _ & _ & _ & _ & Hcase)]; [done|].
    destruct Hcase as [(r' & _ & _ & _ & ->)|[(_ & _ & _ & _ & ->)|(_ & _ & _ & _ & ->)]];
      by eapply calls_upd.
  - destruct (CancelWait_cases _ _ _ _ _ H4) as [[_ ->]|(c & k & d & Hc & _ & _ & Hcase)]; [done|].
    destruct Hcase as [(b & d' & _ & _ & ->)|[(_ & _ & _ & ->)|(r & d' & _ & _ & _ & _ & _ & ->)]];
      [done|by eapply calls_upd..].
  - by eapply call_calls.
  - by eapply call_end_calls.
  - by eapply Close_calls.
  - destruct (OnPeerClosed_cases _ _ _ _ H5) as (w1 & c & Ha & Hc & Hcase).
    destruct (abort_calls_frame _ _ _ Ha) as (c0 & Hc0 & _).
    destruct (abort_calls_spec i c0 _ _ Hw Hc0) as (w' & Ha' & Hinv).
    assert (w' = w1) as -> by congruence.
    destruct Hcase as [(_ & -> & _)|(k & _ & _ & _ & ->)]; [done|by eapply calls_upd].
  - done.
  - done.
  - destruct (callback_begin_cases _ _ _ _ _ _ _ _ H5) as (c & Hc & _ & _ & _ & ->). by eapply calls_upd.
  - destruct (callback_end_cases _ _ _ H5) as (c & Hc & _ & ->). by eapply calls_upd.
  - done.
Qed.

Lemma chrun_calls tr s : chrun tr s -> sys_calls_inv s.
Proof.
  induction 1 as [t a m|tr s e s' _ IH Hs]; [|by eapply chstep_calls].
  split; simpl; try (intros; by rewrite lookup_empty in *); try set_solver. constructor.
Qed.

(** ** The claims *)

(** C4. Messages are read in the order they were queued, none lost, none twice: along every run, the
    packets successfully written to an end, other than those handed to a call waiting there, are
    those its readers were shown, in that order, followed by those in its queue. What a reader was
    shown is what [Read] put out, every result it asked for being the packet's. *)
Theorem messages_fifo tr s i :
  chrun tr s ->
  exists ps, Forall2 shows ps (received i tr) /\ sent i tr = ps ++ queue_of i (cw s).
Proof.
  induction 1 as [t a m|tr s e s' Hr (ps & Hps & IH) Hs]; [by exists []|].
  destruct (chstep_queue s e s' i) as (qs & Hqs & Hq); [|done|].
  { intros k c j Hc Hj. by destruct (proj1 (chrun_link _ _ Hr) k c j Hc Hj) as [? _]. }
  exists (ps ++ qs). unfold sent, received in *. rewrite !flat_map_app. simpl. rewrite !app_nil_r.
  split; [by apply Forall2_app|]. by rewrite IH, <- !(assoc_L (++)), Hq.
Qed.

Lemma listed_waiting chs ws cs i c x wt :
  calls_inv chs ws cs -> chs !! i = Some c -> x ∈ waiters_ c -> ws !! x = Some wt -> status_ wt = None.
Proof.
  intros Hw Hc Hx Hwt. destruct (ci_listed _ _ _ Hw i c x Hc Hx) as [Hin _].
  destruct (ci_call _ _ _ Hw i x Hin) as (c' & wt' & Hc' & Hwt' & _ & Hs). simplify_eq.
  destruct (status_ wt) as [[]|]; destruct Hs; try done; by exfalso.
Qed.

(** The message goes to the call with its txid, or to the queue. *)
Definition delivered (cs : list (Z * Z)) (j : Z) (cj : Channel) (p : MessagePacket) (w w' : World D) : Prop :=
  (exists x wt t, get_txid (mem w) p = Done t /\ (j, x) ∈ cs /\ x ∈ waiters_ cj /\
     waiters w !! x = Some wt /\ txid_ wt = Some t /\ status_ wt = None /\
     waiters w' = <[x := mkWaiter (Some j) (Some t) (Some ZX_OK) (Some p)]> (waiters w) /\
     forall i, queue_of i w' = queue_of i w) \/
  ((forall x wt t, x ∈ waiters_ cj -> waiters w !! x = Some wt -> get_txid (mem w) p = Done t ->
      txid_ wt <> Some t) /\
     waiters w' = waiters w /\ queue_of j w' = queue_of j w ++ [p] /\
     forall i, i <> j -> queue_of i w' = queue_of i w).

Lemma set_channel_queue j c c' (w : World D) i :
  channels w !! j = Some c ->
  queue_of i (set_channel j c' w) = if decide (i = j) then msg_queue_ c' else queue_of i w.
Proof.
  intros Hc. unfold queue_of. simpl. destruct (decide (i = j)) as [->|];
    [by rewrite lookup_insert_eq|by rewrite lookup_insert_ne].
Qed.

Lemma WriteSelf_delivered cs j p (w : World D) act w' :
  calls_inv (channels w) (waiters w) cs -> WriteSelfLocked j p w = Done (act, w') ->
  exists cj, channels w !! j = Some cj /\ delivered cs j cj p w w'.
Proof.
  intros Hci HS. destruct (WriteSelf_cases _ _ _ _ _ HS) as (cj & Hcj & Hcases).
  exists cj. split; [done|]. assert (queue_of j w = msg_queue_ cj) as Hq by (unfold queue_of; by rewrite Hcj).
  assert (forall t r, find_waiter t (waiters_ cj) w = Done r -> match r with
    | Some i => i ∈ waiters_ cj /\ exists wt, waiters w !! i = Some wt /\ txid_ wt = Some t
    | None => forall x wt, x ∈ waiters_ cj -> waiters w !! x = Some wt -> txid_ wt <> Some t end) as Hfind.
  { intros t r Hr. destruct (find_waiter_spec t (waiters_ cj) w) as (r' & Hr' & Hspec);
      [by eapply listed_txids|]. rewrite Hr in Hr'. by injection Hr' as <-. }
  destruct Hcases as [(x & wx & t & -> & Ht & Hfw & Hx & ->)|Hcases].
  - left. destruct (Hfind _ _ Hfw) as [Hin (wt & Hwt & Htx)]. simplify_eq.
    destruct (ci_listed _ _ _ Hci _ _ _ Hcj Hin) as [Hcs _].
    destruct (ci_call _ _ _ Hci _ _ Hcs) as (? & ? & ? & ? & Hch & _). simplify_eq.
    exists x, wx, t. split_and!; try done; [by eapply listed_waiting|simpl; by rewrite Hch, Htx|].
    intros i. etransitivity; [by apply (set_channel_queue j cj)|]. destruct (decide (i = j)) as [->|]; done.
  - right. assert (unmatched p cj w) as Hu by (destruct Hcases as [(_&?&_)|(?&_&?&_)]; done). split.
    { intros x wt t Hx Hwt Ht. destruct Hu as [E|(t' & Ht' & Hfw)]; [by rewrite E in Hx; inversion Hx|].
      rewrite Ht' in Ht. injection Ht as <-. by apply (Hfind _ _ Hfw x). }
    rewrite Hq. destruct Hcases as [(_ & _ & _ & ->)|(k & _ & _ & _ & _ & ->)]; (split; [done|]);
      (split; [|intros i Hi]); rewrite (set_channel_queue j cj) by done;
      [by rewrite decide_True|by rewrite decide_False|by rewrite decide_True|by rewrite decide_False].
Qed.

(** C25. A successful [Write] delivers its message exactly once: to the waiting call at the other end
    that has the message's txid, if there is one, and else to the end of the other end's queue. *)
Theorem write_delivers tr s this block ok a act w :
  chrun tr s -> Write this block ok a (cw s) = Done (ZX_OK, act, w) ->
  exists j cj, channels (cw s) !! this ≫= peer_ = Some j /\ channels (cw s) !! j = Some cj /\
    delivered (calls s) j cj (packet_of a) (cw s) w.
Proof.
  intros Hrun HW. pose proof (chrun_calls _ _ Hrun) as Hci.
  destruct (Write_cases _ _ _ _ _ _ _ _ HW) as [(_ & Hn & _)|(c & j & w1 & _ & Hc & Hp & Hf1 & Hf2 & _ & Hf4 & HS)];
    [done|].
  destruct (WriteSelf_delivered (calls s) _ _ _ _ _ ltac:(by rewrite Hf1, Hf2) HS) as (cj & Hcj & Hd).
  rewrite Hf1 in Hcj. exists j, cj. rewrite Hc. split_and!; [done..|].
  assert (forall i, queue_of i w1 = queue_of i (cw s)) as Hq by (intros; by apply queue_of_frame).
  unfold delivered in *. setoid_rewrite Hq in Hd. by rewrite Hf2, Hf4 in Hd.
Qed.

(** A registered read is not forgotten. If no read is registered on a channel, it owns its callback
    request, cleared, and no dispatcher has it. If one is registered, its request is exactly once with
    its dispatcher or in a call of the callback, and, unless it has been queued, there is no message
    to read and the other end is open or its closing is about to be told. *)
Theorem registered_read tr s i c :
  chrun tr s -> channels (cw s) !! i = Some c ->
  match dispatcher_ c with
  | None =>
      (exists r, callback_request_ c = Some r /\ clean i r) /\ occ i (calling s).*1 = 0%nat /\
      forall k, held_at (dispatchers (cw s)) k i = 0%nat
  | Some k =>
      callback_request_ c = None /\ channel_read_ c <> None /\
      (occ i (calling s).*1 + held_at (dispatchers (cw s)) k i = 1)%nat /\
      (forall k', k' <> k -> held_at (dispatchers (cw s)) k' i = 0%nat) /\
      (callback_request_pending_queue_ c = true ->
         msg_queue_ c = [] /\ (peer_ c = None -> i ∈ closing s))
  end.
Proof.
  intros Hrun Hc. destruct (chrun_own _ _ Hrun) as [_ Ho]. destruct (chrun_link _ _ Hrun) as [_ Hq].
  pose proof (Hq i c Hc) as Hqr. unfold quiet_read in Hqr.
  destruct (Ho i c Hc) as [(Hd & _ & Hr & Hcal & Hk)|(k & read & Hd & Hr & Hcr & _ & Hone & Hk)]; rewrite Hd in *.
  - by split_and!.
  - rewrite Hr. split_and!; try done. by apply Hqr.
Qed.

Lemma WaitAsync_total cal this k read c d (w : World D) :
  channels w !! this = Some c -> dispatchers w !! k = Some d -> d_ok d ->
  owned cal (dispatchers w) this c -> WaitAsync this k read w <> Panic.
Proof.
  intros Hc Hd Hok Ho. unfold WaitAsync, deref_channel, deref_dispatcher. rewrite Hc. simpl.
  destruct (_ && _); [done|]. destruct (bool_decide_reflect (dispatcher_ c <> None)) as [|Hn]; [done|].
  rewrite Hd. simpl.
  destruct Ho as [(_ & _ & (r & Hr & Hcl) & _)|(k' & ? & E & _)]; [|by rewrite E in Hn; destruct Hn].
  destruct (TakeCallbackRequest_total this (set_read (callback_request_ c) (Some k) (Some read) c) r)
    as [r' E]; [done..|]. rewrite E. simpl.
  destruct (op_register r' d) as [[r''|] d'] eqn:Er; simpl; [done|]. by destruct (msg_queue_ c).
Qed.

Lemma Close_total this c cs (w : World D) :
  calls_inv (channels w) (waiters w) cs -> peers_inv (channels w) -> channels w !! this = Some c ->
  dispatcher_ c = None -> Close this w <> Panic.
Proof.
  intros Hci Hp Hc Hd. unfold Close. rewrite (proj2 (deref_channel_Done _ _ _) Hc). simpl.
  unfold IsWaitAsyncRegisteredLocked. rewrite Hd. simpl.
  set (w1 := set_channel this (set_peer None c) w).
  assert (calls_inv (channels w1) (waiters w1) cs) as H1' by (by eapply calls_upd).
  assert (channels w1 !! this = Some (set_peer None c)) as Hc1 by apply lookup_insert_eq.
  destruct (peer_ c) as [p|] eqn:Ep; simpl.
  - destruct (Hp this c p Hc Ep) as [Hne (cp & Hcp & _)].
    assert (channels w1 !! p = Some cp) as Hcp1 by (simpl; by rewrite lookup_insert_ne).
    unfold deref_channel. rewrite Hcp1. simpl.
    destruct (abort_calls_spec this (set_peer None c) cs (set_channel p (set_peer None cp) w1)) as (w' & -> & _);
      [by eapply calls_upd|simpl; by rewrite lookup_insert_ne|done].
  - by destruct (abort_calls_spec this (set_peer None c) cs w1) as (w' & -> & _).
Qed.

Lemma CancelWait_total cal this c k d (w : World D) :
  channels w !! this = Some c -> dispatcher_ c = Some k -> dispatchers w !! k = Some d ->
  owned cal (dispatchers w) this c ->
  (CancelWait this w = Panic <-> op_unsynchronized d = false /\ (op_cancel this d).1 = None).
Proof.
  intros Hc Hk Hd Ho.
  assert (callback_request_ c = None) as Hcr by (destruct Ho as [(E & _)|(? & ? & _ & _ & ? & _)]; congruence).
  unfold CancelWait, deref_channel, deref_dispatcher. rewrite Hc. simpl. rewrite Hk, Hd. simpl.
  destruct (op_unsynchronized d).
  - destruct (negb _); [destruct (op_set_reason _ _ d)|]; by split; [|intros [? _]].
  - destruct (op_cancel this d) as [[r|] d']; simpl; [|by split]. rewrite Hcr. simpl.
    by split; [|intros [_ ?]].
Qed.

(** The assertions of channels hold in every reachable state: [WaitAsync], the read callback and
    [OnPeerClosed] do not abort; [Close] aborts exactly if a read is registered, as documented; and
    [CancelWait] aborts exactly if the dispatcher is synchronized and no longer has the request. *)
Theorem channel_asserts tr s i c :
  chrun tr s -> channels (cw s) !! i = Some c ->
  (forall k read, is_Some (dispatchers (cw s) !! k) -> WaitAsync i k read (cw s) <> Panic) /\
  (forall st, (i, st) ∈ calling s -> callback_begin i (new_request i kOther) st (cw s) <> Panic) /\
  OnPeerClosed i (cw s) <> Panic /\
  (Close i (cw s) = Panic <-> dispatcher_ c <> None) /\
  (CancelWait i (cw s) = Panic <->
     exists k d, dispatcher_ c = Some k /\ dispatchers (cw s) !! k = Some d /\
       op_unsynchronized d = false /\ (op_cancel i d).1 = None).
Proof.
  intros Hrun Hc. destruct (chrun_own _ _ Hrun) as [Hok Ho]. pose proof (Ho i c Hc) as Hi.
  destruct (chrun_link _ _ Hrun) as [Hp _]. pose proof (chrun_calls _ _ Hrun) as Hci.
  split_and!.
  - intros k read [d Hd]. by eapply WaitAsync_total; eauto.
  - intros st Hin. unfold callback_begin, deref_channel. rewrite Hc. simpl.
    destruct Hi as [(_ & _ & _ & Hz & _)|(k & read & -> & -> & _)]; [|done].
    exfalso. apply (count_occ_not_In Z.eq_dec) in Hz. apply Hz, list_elem_of_In.
    apply list_elem_of_fmap. by exists (i, st).
  - destruct (abort_calls_spec i c _ _ Hci Hc) as (w' & Ha & _). unfold OnPeerClosed. rewrite Ha. simpl.
    destruct (abort_calls_frame _ _ _ Ha) as (c' & Hc' & Hch & _).
    unfold deref_channel. rewrite Hch, lookup_insert_eq. simpl.
    destruct (msg_queue_ c'), (dispatcher_ c'), (callback_request_pending_queue_ c'); done.
  - split.
    + intros HP Hd. by eapply Close_total.
    + intros Hd. unfold Close, deref_channel. rewrite Hc. simpl. unfold IsWaitAsyncRegisteredLocked.
      by rewrite bool_decide_true.
  - destruct (dispatcher_ c) as [k|] eqn:Ek.
    + destruct Hi as [(? & _)|(k' & read & Ek' & _ & _ & [d Hd] & _)]; [congruence|].
      assert (k' = k) as -> by congruence.
      rewrite (CancelWait_total _ i c k d _ Hc Ek Hd (Ho i c Hc)). split.
      * intros [? ?]. by exists k, d.
      * intros (k2 & d2 & [= <-] & Hd2 & ? & ?). by simplify_eq.
    + split; [|by intros (? & ? & ? & _)]. unfold CancelWait, deref_channel. rewrite Hc. simpl. by rewrite Ek.
Qed.

(** The end of a call whose waiter is in state [wt]. *)
Definition call_outcome (o : Outs) (wt : MessageWaiter) (st : zx_status) (out : option Message) : Prop :=
  match status_ wt with
  | None => st = ZX_ERR_TIMED_OUT /\ out = None
  | Some ZX_OK => st = ZX_OK /\ exists m, msg_ wt = Some m /\ out = Some (CopyOut o m).1
  | Some _ => st = ZX_ERR_PEER_CLOSED /\ out = None
  end.

Lemma call_end_total i x o c wt (w : World D) :
  channels w !! i = Some c -> waiters w !! x = Some wt -> waiter_state i (x ∈ waiters_ c) wt ->
  exists st out closes w', call_end i x o w = Done (st, out, closes, w') /\ call_outcome o wt st out /\
    waiters w' = delete x (waiters w).
Proof.
  intros Hc Hwt [Hch Hst]. unfold call_end, TakeLocked, deref_channel, deref_waiter, call_outcome in *.
  rewrite Hwt. simpl. rewrite Hch. simpl.
  destruct (status_ wt) as [st|]; simpl in *.
  - assert (x ∉ waiters_ c) as Hx by (by destruct st; destruct Hst).
    destruct (decide (st = ZX_OK)) as [->|Hn].
    + destruct Hst as [_ Hm]. destruct (msg_ wt) as [m|]; [|done]. simpl. rewrite Hc. simpl.
      rewrite bool_decide_false by done. simpl. do 4 eexists. split; [done|].
      split; [by eauto|]. simpl. by rewrite delete_insert_eq.
    + assert (st = ZX_ERR_PEER_CLOSED) as -> by (by destruct st; destruct Hst). simpl. rewrite Hc. simpl.
      rewrite bool_decide_false by done. simpl. do 4 eexists. split; [done|].
      split; [done|]. simpl. by rewrite delete_insert_eq.
  - rewrite Hc. simpl. rewrite (bool_decide_true (x ∈ waiters_ c)) by done. simpl.
    rewrite bool_decide_false by (rewrite list_elem_of_filter; tauto). simpl.
    do 4 eexists. split; [done|]. split; [done|]. simpl. by rewrite delete_insert_eq.
Qed.

(** A waiting call always comes to a regular end, and leaves nothing behind: with the reply
    delivered to it, [ZX_ERR_PEER_CLOSED] if an end was closed, and [ZX_ERR_TIMED_OUT] if nothing
    happened before its deadline; its waiter, which is destroyed, is on no channel's list. *)
Theorem call_end_result tr s i x o :
  chrun tr s -> (i, x) ∈ calls s ->
  exists wt st out closes w, waiters (cw s) !! x = Some wt /\
    call_end i x o (cw s) = Done (st, out, closes, w) /\ call_outcome o wt st out /\
    waiters w = delete x (waiters (cw s)) /\ forall j cj, channels w !! j = Some cj -> x ∉ waiters_ cj.
Proof.
  intros Hrun Hin. pose proof (chrun_calls _ _ Hrun) as Hci.
  destruct (ci_call _ _ _ Hci i x Hin) as (c & wt & Hc & Hwt & Hst).
  destruct (call_end_total i x o c wt _ Hc Hwt Hst) as (st & out & closes & w & Hend & Hout & Hw).
  exists wt, st, out, closes, w. split_and!; [done..|]. intros j cj Hj Hx.
  apply list_elem_of_split in Hin as (l1 & l2 & Hl).
  pose proof (chstep_calls _ _ _ Hci (ch_call_end s l1 i x l2 o st out closes w Hl Hend)) as Hci'.
  destruct (ci_listed _ _ _ Hci' j cj x Hj Hx) as [_ (wt' & t & Hx' & _)].
  simpl in Hx'. rewrite Hw, lookup_delete_eq in Hx'. done.
Qed.

(** C36. Replies cannot be mixed up: the calls waiting on a channel have different txids, each in the
    range reserved for calls, and as long as fewer than 2^31 wait, [AllocateTxidLocked] terminates with
    a txid of that range that none of them has. *)
Theorem call_txids tr s i c :
  chrun tr s -> channels (cw s) !! i = Some c -> Z.of_nat (length (waiters_ c)) < 2 ^ 31 ->
  (forall x y wx wy, x ∈ waiters_ c -> y ∈ waiters_ c -> waiters (cw s) !! x = Some wx ->
     waiters (cw s) !! y = Some wy -> txid_ wx = txid_ wy -> x = y) /\
  exists txid next, AllocateTxidLocked c (cw s) = Done (Some (txid, next)) /\ kMinTxid <= txid < 2 ^ 32 /\
    forall x wx, x ∈ waiters_ c -> waiters (cw s) !! x = Some wx ->
      txid_ wx <> Some txid /\ exists t, txid_ wx = Some t /\ kMinTxid <= t < 2 ^ 32.
Proof.
  intros Hrun Hc Hlen. pose proof (chrun_calls _ _ Hrun) as Hci. split.
  { intros x y wx wy. by apply (ci_txids _ _ _ Hci i c x y). }
  destruct (AllocateTxid_spec c (cw s) (listed_txids _ _ _ _ _ Hci Hc) (ci_next _ _ _ Hci i c Hc) Hlen)
    as (txid & next & Ha & Hr & _ & Hfree).
  exists txid, next. split_and!; [done|lia..|]. intros x wx Hx Hwx. split.
  - intros Ht. apply Hfree. by exists x, wx.
  - destruct (ci_listed _ _ _ Hci i c x Hc Hx) as [_ (wt & t & ? & ? & ?)]. simplify_eq. eauto.
Qed.

End run.

(** ** An example *)

(** Channels 101 and 102, with a dispatcher 7 on which 102 waits for messages. A thread calls over
    101 with the message at address 4096, which is read from 102. *)
Module ChannelExample.

#[local] Instance fdf_abi : FdfAbi := {| FDF_HANDLE_FIXED_BITS_MASK := 1; FDF_HANDLE_INVALID := 0 |}.
#[local] Instance arena_abi : ArenaAbi := ArenaExample.ex_abi.
#[local] Instance packet_abi : PacketAbi := {| sizeof_MessagePacket := 64 |}.

Definition all_outs : Outs := mkOuts true true true true true.
Definition request_args : WriteArgs := mkWrite (Some 300) 4096 16 0 0.
Definition call_packet : MessagePacket := mkPacket (Some 300) 4096 16 0 0.

Definition arena300 : fdf_arena := Eval vm_compute in (Allocate 0 16 (arena_init 4096)).2.

Definition start : World System :=
  empty_world HandleTableArena_init {[ 300 := arena300 ]} (fun _ => 0).

Definition result {A} (f : A -> CSystem (D:=System)) (x : exec A) : CSystem (D:=System) :=
  match x with Done a => f a | Panic => mkCS start [] [] [] [] [] end.

Definition s0 : CSystem := mkCS start [] [] [] [] [].
Definition s1 : CSystem := Eval vm_compute in
  result (fun '(_, _, w) => mkCS w [] [] [] [] []) (ChannelCreate 101 102 start).
Definition s2 : CSystem := Eval vm_compute in
  mkCS (set_dispatcher 7 (initial false false 1) (cw s1)) [] [] [] [] [].
Definition s3 : CSystem := Eval vm_compute in
  result (fun '(_, act, w) => mkCS w (opt_list act) [] [] [] []) (WaitAsync 102 7 900 (cw s2)).
Definition s4 : CSystem := Eval vm_compute in
  result (fun '(_, act, w) => mkCS w (opt_list act) [] [] [] [(101, 500)])
    (call_begin 101 500 0 true [] request_args all_outs (cw s3)).
Definition s5 : CSystem := Eval vm_compute in
  result (fun '(_, _, _, w) => mkCS w (actions s4) [] [] [] (calls s4)) (Read 102 all_outs (cw s4)).

(** What the reader of [call_packet] is given. *)
Definition call_message : Message := mkMessage (Some (Some 300)) (Some 4096) (Some 16) (Some 0) (Some 0).

Definition ex_trace : list ChannelEvent := [ChTau; ChTau; ChTau; ChSent 102 call_packet; ChReceived 102 all_outs call_message].

Lemma s1_run : chrun [ChTau] s1.
Proof.
  apply (chrun_step [] s0); [apply chrun_initial|].
  eapply (ch_create s0 101 102 ZX_OK); [done| |vm_compute; reflexivity].
  intros i [-> | ->]; (split_and!; [done|set_solver|]); intros k d Hd; by apply (lookup_empty_Some k d) in Hd.
Qed.

Lemma s3_run : chrun [ChTau; ChTau; ChTau] s3.
Proof.
  apply (chrun_step [ChTau; ChTau] s2).
  - apply (chrun_step [ChTau] s1 ChTau s2 s1_run).
    apply (ch_dispatcher s1 7 (initial false false 1)); [done| |done].
    split; [apply initial_system_inv|apply initial_phase].
  - eapply (ch_wait s2 102 7 900 ZX_OK None). vm_compute. reflexivity.
Qed.

Lemma s4_run : chrun [ChTau; ChTau; ChTau; ChSent 102 call_packet] s4.
Proof.
  apply (chrun_step [ChTau; ChTau; ChTau] s3 _ s4 s3_run).
  change (ChSent 102 call_packet) with (sent_event 101 request_args ZX_OK (cw s3) (cw s4)).
  apply (ch_call s3 101 500 0 true [] request_args all_outs ZX_OK (head (actions s4)) (cw s4));
    [done| |vm_compute; reflexivity].
  intros c Hc. vm_compute in Hc. injection Hc as <-. done.
Qed.

Lemma s5_run : chrun ex_trace s5.
Proof.
  apply (chrun_step [ChTau; ChTau; ChTau; ChSent 102 call_packet] s4 _ s5 s4_run).
  change (ChReceived 102 all_outs call_message) with (received_event 102 all_outs ZX_OK (Some call_message)).
  eapply (ch_read s4 102 all_outs ZX_OK). vm_compute. reflexivity.
Qed.

Lemma messages_fifo_witness :
  sent 102 ex_trace = [call_packet] /\ received 102 ex_trace = [(all_outs, call_message)] /\
  shows call_packet (all_outs, call_message).
Proof.
  split; [reflexivity|]. split; [reflexivity|].
  destruct (messages_fifo _ _ 102 s5_run) as (ps & Hps & Hs). change (received 102 ex_trace) with
    [(all_outs, call_message)] in Hps. simpl in Hs. rewrite app_nil_r in Hs. subst ps.
  by inversion Hps.
Defined.

(** The reply, with the txid in the same memory. *)
Definition replied : World System := Eval vm_compute in
  match Write 102 0 true request_args (cw s5) with Done (_, _, w) => w | Panic => start end.

Lemma write_delivers_witness :
  exists j cj, channels (cw s5) !! 102 ≫= peer_ = Some j /\ channels (cw s5) !! j = Some cj /\
    delivered (calls s5) j cj call_packet (cw s5) replied.
Proof. apply (write_delivers ex_trace s5 102 0 true request_args None replied s5_run). vm_compute. reflexivity. Defined.

(** The read registered on 102, not yet queued. *)
Definition waiting102 : Channel := Eval vm_compute in default (new_channel 0) (channels (cw s3) !! 102).

Lemma registered_read_witness :
  dispatcher_ waiting102 = Some 7 /\ (0 + held_at (dispatchers (cw s3)) 7 102 = 1)%nat.
Proof.
  split; [done|]. pose proof (registered_read _ s3 102 waiting102 s3_run ltac:(vm_compute; reflexivity)) as H.
  simpl in H. apply H.
Defined.

Lemma channel_asserts_witness :
  WaitAsync 102 7 900 (cw s3) <> Panic /\ Close 102 (cw s3) = Panic.
Proof.
  destruct (channel_asserts _ s3 102 waiting102 s3_run ltac:(vm_compute; reflexivity)) as (H1 & _ & _ & H4 & _).
  split; [apply H1; vm_compute; eauto|by apply H4].
Defined.

Lemma call_end_result_witness :
  exists wt st out closes w, waiters (cw s5) !! 500 = Some wt /\
    call_end 101 500 all_outs (cw s5) = Done (st, out, closes, w) /\ call_outcome all_outs wt st out /\
    waiters w = delete 500 (waiters (cw s5)) /\ forall j cj, channels w !! j = Some cj -> 500 ∉ waiters_ cj.
Proof. apply (call_end_result _ s5 101 500 all_outs s5_run). left. Defined.

Definition calling101 : Channel := Eval vm_compute in default (new_channel 0) (channels (cw s5) !! 101).

Lemma call_txids_witness :
  waiters_ calling101 = [500] /\
  exists txid next, AllocateTxidLocked calling101 (cw s5) = Done (Some (txid, next)) /\ kMinTxid <= txid < 2 ^ 32.
Proof.
  split; [done|].
  destruct (call_txids _ s5 101 calling101 s5_run) as [_ (txid & next & H1 & H2 & _)];
    [vm_compute; reflexivity|done|]. by exists txid, next.
Defined.

(** A message that claims bytes or handles but has none passes the argument checks or crashes them:
    a [Write] of four bytes at a null address aborts when a call waits at the other end, a [Call]
    always aborts, and a null handle array with a count is read by the check itself. *)
Theorem null_message_crashes :
  exists tr s, chrun tr s /\
    CheckWriteArgs 102 (mkWrite None 0 4 0 0) (cw s) = Done ZX_OK /\
    Write 102 0 true (mkWrite None 0 4 0 0) (cw s) = Panic /\
    call_begin 102 501 0 true [] (mkWrite None 0 4 0 0) all_outs (cw s) = Panic /\
    CheckWriteArgs 102 (mkWrite None 0 0 0 1) (cw s) = Panic.
Proof. exists ex_trace, s5. split; [exact s5_run|]. split_and!; vm_compute; reflexivity. Qed.

End ChannelExample.
