(* ===== verification/SysmemTypes.v ===== *)
(** * SysmemTypes: the data of sysmem's constraint aggregation

    The FIDL tables of [fuchsia.sysmem2] that
    [src/devices/sysmem/drivers/sysmem/logical_buffer_collection.cc] reads and writes, and what
    that code uses of the generated bindings and of [lib/image-format].

    A table as a client sent it has optional fields ([Wire], an [option] for each [has_x()]); the
    [CheckSanitize*] routines fill in every field, and the aggregation works on tables with all
    fields present (the records outside [Wire]). Integer fields are [uint32_t] unless noted. *)
From Stdlib Require Import ZArith Lia.
From stdpp Require Import prelude.
From S2P Require Import Prelude.

Local Open Scope Z_scope.

(** ** The generated bindings *)

(** Constants and the [ColorSpace] table of [fuchsia.sysmem2], and the page size. *)
Class Sysmem2 := {
  kNoneUsage : Z;
  kCpuUsageWrite : Z;
  kCpuUsageWriteOften : Z;
  kVulkanUsageTransferDst : Z;
  kVulkanUsageStorage : Z;
  kVideoUsageHwDecoder : Z;
  kVideoUsageHwDecoderInternal : Z;
  kVideoUsageDecryptorOutput : Z;
  kVideoUsageHwEncoder : Z;
  HeapType_kSystemRam : Z;
  HeapType_kAmlogicSecure : Z;
  HeapType_kAmlogicSecureVdec : Z;
  PixelFormatType_kInvalid : Z;
  ColorSpaceType_kInvalid : Z;
  ColorSpaceType_kSrgb : Z;
  ColorSpaceType_kRec601Ntsc : Z;
  ColorSpaceType_kRec601NtscFullRange : Z;
  ColorSpaceType_kRec601Pal : Z;
  ColorSpaceType_kRec601PalFullRange : Z;
  ColorSpaceType_kRec709 : Z;
  ColorSpaceType_kRec2020 : Z;
  ColorSpaceType_kRec2100 : Z;
  ColorSpaceType_kPassThrough : Z;
  kMaxCountBufferCollectionInfoBuffers : Z;
  zx_system_get_page_size : Z;
  ColorSpace : Type;
  ColorSpace_has_type : ColorSpace -> bool;
  ColorSpace_type : ColorSpace -> Z;
  ColorSpace_set_type : Z -> ColorSpace
}.

(** ** Tables with all fields present *)

Record BufferUsage := mkUsage {
  none : Z; cpu : Z; vulkan : Z; display : Z; video : Z
}.

Record PixelFormat := mkPixelFormat {
  pixel_format_type : Z;
  format_modifier_value : Z        (* uint64_t *)
}.

Section tables.
Context `{fidl : Sysmem2}.

Record BufferMemoryConstraints := mkMemory {
  min_size_bytes : Z;
  max_size_bytes : Z;
  physically_contiguous_required : bool;
  secure_required : bool;
  ram_domain_supported : bool;
  cpu_domain_supported : bool;
  inaccessible_domain_supported : bool;
  heap_permitted : list Z
}.

Record ImageFormatConstraints := mkImage {
  pixel_format : PixelFormat;
  color_spaces : list ColorSpace;
  min_coded_width : Z;
  max_coded_width : Z;
  min_coded_height : Z;
  max_coded_height : Z;
  min_bytes_per_row : Z;
  max_bytes_per_row : Z;
  max_coded_width_times_coded_height : Z;
  coded_width_divisor : Z;
  coded_height_divisor : Z;
  bytes_per_row_divisor : Z;
  start_offset_divisor : Z;
  display_width_divisor : Z;
  display_height_divisor : Z;
  required_min_coded_width : Z;
  required_max_coded_width : Z;
  required_min_coded_height : Z;
  required_max_coded_height : Z;
  required_min_bytes_per_row : Z;
  required_max_bytes_per_row : Z
}.

Record BufferCollectionConstraints := mkConstraints {
  usage : BufferUsage;
  min_buffer_count_for_camping : Z;
  min_buffer_count_for_dedicated_slack : Z;
  min_buffer_count_for_shared_slack : Z;
  min_buffer_count : Z;
  max_buffer_count : Z;
  buffer_memory_constraints : BufferMemoryConstraints;
  image_format_constraints : list ImageFormatConstraints;
  need_clear_aux_buffers_for_secure : bool;
  allow_clear_aux_buffers_for_secure : bool
}.
End tables.

(** ** Tables as received *)

Module Wire.

Record BufferUsage := mkUsage {
  none : option Z; cpu : option Z; vulkan : option Z; display : option Z; video : option Z
}.

Record PixelFormat := mkPixelFormat {
  pixel_format_type : option Z;
  format_modifier_value : option Z
}.

Section tables.
Context `{fidl : Sysmem2}.

Record BufferMemoryConstraints := mkMemory {
  min_size_bytes : option Z;
  max_size_bytes : option Z;
  physically_contiguous_required : option bool;
  secure_required : option bool;
  ram_domain_supported : option bool;
  cpu_domain_supported : option bool;
  inaccessible_domain_supported : option bool;
  heap_permitted : option (list Z)
}.

Record ImageFormatConstraints := mkImage {
  pixel_format : option PixelFormat;
  color_spaces : option (list ColorSpace);
  min_coded_width : option Z;
  max_coded_width : option Z;
  min_coded_height : option Z;
  max_coded_height : option Z;
  min_bytes_per_row : option Z;
  max_bytes_per_row : option Z;
  max_coded_width_times_coded_height : option Z;
  coded_width_divisor : option Z;
  coded_height_divisor : option Z;
  bytes_per_row_divisor : option Z;
  start_offset_divisor : option Z;
  display_width_divisor : option Z;
  display_height_divisor : option Z;
  required_min_coded_width : option Z;
  required_max_coded_width : option Z;
  required_min_coded_height : option Z;
  required_max_coded_height : option Z;
  required_min_bytes_per_row : option Z;
  required_max_bytes_per_row : option Z
}.

Record BufferCollectionConstraints := mkConstraints {
  usage : option BufferUsage;
  min_buffer_count_for_camping : option Z;
  min_buffer_count_for_dedicated_slack : option Z;
  min_buffer_count_for_shared_slack : option Z;
  min_buffer_count : option Z;
  max_buffer_count : option Z;
  buffer_memory_constraints : option BufferMemoryConstraints;
  image_format_constraints : option (list ImageFormatConstraints);
  need_clear_aux_buffers_for_secure : option bool;
  allow_clear_aux_buffers_for_secure : option bool
}.
End tables.

(** Default-constructed tables: no field present. *)
Definition empty_usage : BufferUsage := mkUsage None None None None None.
Definition empty_pixel_format : PixelFormat := mkPixelFormat None None.
Definition empty_memory : BufferMemoryConstraints :=
  mkMemory None None None None None None None None.
Definition empty_constraints `{fidl : Sysmem2} : BufferCollectionConstraints :=
  mkConstraints None None None None None None None None None None.

End Wire.

(** A table with all fields present, as a table. *)
Definition usage_to_wire (u : BufferUsage) : Wire.BufferUsage :=
  Wire.mkUsage (Some (none u)) (Some (cpu u)) (Some (vulkan u)) (Some (display u))
    (Some (video u)).

Definition pixel_format_to_wire (p : PixelFormat) : Wire.PixelFormat :=
  Wire.mkPixelFormat (Some (pixel_format_type p)) (Some (format_modifier_value p)).

Section to_wire.
Context `{fidl : Sysmem2}.

Definition memory_to_wire (m : BufferMemoryConstraints) : Wire.BufferMemoryConstraints :=
  Wire.mkMemory (Some (min_size_bytes m)) (Some (max_size_bytes m))
    (Some (physically_contiguous_required m)) (Some (secure_required m))
    (Some (ram_domain_supported m)) (Some (cpu_domain_supported m))
    (Some (inaccessible_domain_supported m)) (Some (heap_permitted m)).

Definition image_to_wire (i : ImageFormatConstraints) : Wire.ImageFormatConstraints :=
  Wire.mkImage (Some (pixel_format_to_wire (pixel_format i))) (Some (color_spaces i))
    (Some (min_coded_width i)) (Some (max_coded_width i))
    (Some (min_coded_height i)) (Some (max_coded_height i))
    (Some (min_bytes_per_row i)) (Some (max_bytes_per_row i))
    (Some (max_coded_width_times_coded_height i))
    (Some (coded_width_divisor i)) (Some (coded_height_divisor i))
    (Some (bytes_per_row_divisor i)) (Some (start_offset_divisor i))
    (Some (display_width_divisor i)) (Some (display_height_divisor i))
    (Some (required_min_coded_width i)) (Some (required_max_coded_width i))
    (Some (required_min_coded_height i)) (Some (required_max_coded_height i))
    (Some (required_min_bytes_per_row i)) (Some (required_max_bytes_per_row i)).

Definition constraints_to_wire (c : BufferCollectionConstraints)
    : Wire.BufferCollectionConstraints :=
  Wire.mkConstraints (Some (usage_to_wire (usage c)))
    (Some (min_buffer_count_for_camping c)) (Some (min_buffer_count_for_dedicated_slack c))
    (Some (min_buffer_count_for_shared_slack c)) (Some (min_buffer_count c))
    (Some (max_buffer_count c)) (Some (memory_to_wire (buffer_memory_constraints c)))
    (Some (map image_to_wire (image_format_constraints c)))
    (Some (need_clear_aux_buffers_for_secure c))
    (Some (allow_clear_aux_buffers_for_secure c)).
End to_wire.

(** ** lib/image-format *)

Class ImageFormatLib `{fidl : Sysmem2} := {
  ImageFormatIsSupported : PixelFormat -> bool;
  ImageFormatIsTableEqual : Wire.PixelFormat -> Wire.PixelFormat -> bool;
  ImageFormatIsSupportedColorSpaceForPixelFormat : ColorSpace -> PixelFormat -> bool;
  ImageFormatStrideBytesPerWidthPixel : PixelFormat -> Z;
  ImageFormatCodedWidthMinDivisor : PixelFormat -> Z;
  ImageFormatCodedHeightMinDivisor : PixelFormat -> Z;
  ImageFormatSampleAlignment : PixelFormat -> Z;
  ImageFormatCompatibleWithProtectedMemory : PixelFormat -> bool;
  (** the size in bytes of an image of the given format, width, height and stride *)
  ImageFormatImageSize : PixelFormat -> Z -> Z -> Z -> Z
}.

(** [ImageFormatIsPixelFormatEqual] takes tables; the aggregation calls it on tables with both
    fields present. *)
Definition ImageFormatIsPixelFormatEqual `{lib : ImageFormatLib} (a b : PixelFormat) : bool :=
  ImageFormatIsTableEqual (pixel_format_to_wire a) (pixel_format_to_wire b).
