(* ===== verification/SysmemSanitize.v ===== *)
(** * SysmemSanitize: filling in and checking one set of constraints

    Model of the [CheckSanitize*] routines of
    [src/devices/sysmem/drivers/sysmem/logical_buffer_collection.cc] and of the usage predicates
    of [utils.cc]. Each routine takes the table as received and returns the table with every field
    present, or [None] where the source logs an error and returns [false]. Looking up a colour
    space that [kColorSpaceRanking] lacks ends the process ([std::unordered_map::at]), hence the
    [exec] in the routine that ranks them. *)
From Stdlib Require Import ZArith Lia.
From stdpp Require Import prelude.
From S2P Require Import Prelude SysmemTypes.

Local Open Scope Z_scope.

Inductive CheckSanitizeStage := kInitial | kNotAggregated | kAggregated.

#[global] Instance stage_eq_dec : EqDecision CheckSanitizeStage.
Proof. solve_decision. Defined.

(** The [FIELD_DEFAULT*] macros: the field's value, or the default if it is absent. *)
Definition FIELD_DEFAULT {A} (field : option A) (value : A) : A := default value field.
Abbreviation FIELD_DEFAULT_ZERO f := (FIELD_DEFAULT f 0).
Abbreviation FIELD_DEFAULT_1 f := (FIELD_DEFAULT f 1).
Abbreviation FIELD_DEFAULT_MAX f := (FIELD_DEFAULT f UINT32_MAX).
Abbreviation FIELD_DEFAULT_FALSE f := (FIELD_DEFAULT f false).

(** [if (b) { LogError(...); return false; }] *)
Definition reject {A} (b : bool) (k : option A) : option A := if b then None else k.
Notation "'REJECT' b ;; k" := (reject b k)
  (at level 100, b at level 99, k at level 200, right associativity).

Definition IsNonZeroPowerOf2 (value : Z) : bool :=
  if value =? 0 then false
  else if negb (Z.land value (value - 1) =? 0) then false
  else true.

Section sanitize.
Context `{fidl : Sysmem2} `{lib : !ImageFormatLib}.

(** [kColorSpaceRanking] *)
Definition kColorSpaceRanking : list (Z * Z) :=
  [(ColorSpaceType_kInvalid, UINT32_MAX);
   (ColorSpaceType_kSrgb, 1);
   (ColorSpaceType_kRec601Ntsc, 8);
   (ColorSpaceType_kRec601NtscFullRange, 7);
   (ColorSpaceType_kRec601Pal, 6);
   (ColorSpaceType_kRec601PalFullRange, 5);
   (ColorSpaceType_kRec709, 4);
   (ColorSpaceType_kRec2020, 3);
   (ColorSpaceType_kRec2100, 2);
   (ColorSpaceType_kPassThrough, 9)].

Definition ranking_at (type : Z) : exec Z :=
  match list_find (fun p => p.1 = type) kColorSpaceRanking with
  | Some (_, (_, r)) => Done r
  | None => Panic
  end.

Definition IsWriteUsage (buffer_usage : Wire.BufferUsage) : bool :=
  let kCpuWriteBits := Z.lor kCpuUsageWriteOften kCpuUsageWrite in
  let kVulkanWriteBits := Z.lor kVulkanUsageTransferDst kVulkanUsageStorage in
  let kDisplayWriteBits := 0 in
  let kVideoWriteBits :=
    Z.lor (Z.lor (Z.lor kVideoUsageHwDecoder kVideoUsageHwDecoderInternal)
                 kVideoUsageDecryptorOutput) kVideoUsageHwEncoder in
  let cpu := default 0 (Wire.cpu buffer_usage) in
  let vulkan := default 0 (Wire.vulkan buffer_usage) in
  let display := default 0 (Wire.display buffer_usage) in
  let video := default 0 (Wire.video buffer_usage) in
  negb (Z.land cpu kCpuWriteBits =? 0) || negb (Z.land vulkan kVulkanWriteBits =? 0) ||
  negb (Z.land display kDisplayWriteBits =? 0) || negb (Z.land video kVideoWriteBits =? 0).

(** Called after the usage table is filled in. *)
Definition IsCpuUsage (buffer_usage : BufferUsage) : bool := negb (cpu buffer_usage =? 0).

Definition IsHeapPermitted (constraints : BufferMemoryConstraints) (heap : Z) : bool :=
  match heap_permitted constraints with
  | [] => true
  | heaps => bool_decide (heap ∈ heaps)
  end.

Definition IsSecurePermitted (constraints : BufferMemoryConstraints) : bool :=
  inaccessible_domain_supported constraints &&
  (IsHeapPermitted constraints HeapType_kAmlogicSecure ||
   IsHeapPermitted constraints HeapType_kAmlogicSecureVdec).

Definition IsCpuAccessSupported (constraints : BufferMemoryConstraints) : bool :=
  cpu_domain_supported constraints || ram_domain_supported constraints.

Definition CheckSanitizeBufferUsage (stage : CheckSanitizeStage) (buffer_usage : Wire.BufferUsage)
    : option BufferUsage :=
  let u := mkUsage (FIELD_DEFAULT_ZERO (Wire.none buffer_usage))
                   (FIELD_DEFAULT_ZERO (Wire.cpu buffer_usage))
                   (FIELD_DEFAULT_ZERO (Wire.vulkan buffer_usage))
                   (FIELD_DEFAULT_ZERO (Wire.display buffer_usage))
                   (FIELD_DEFAULT_ZERO (Wire.video buffer_usage)) in
  match stage with
  | kInitial => Some u
  | kNotAggregated =>
      REJECT (none u =? 0) && (cpu u =? 0) && (vulkan u =? 0) && (display u =? 0) &&
             (video u =? 0) ;;
      REJECT negb (none u =? 0) &&
             (negb (cpu u =? 0) || negb (vulkan u =? 0) || negb (display u =? 0) ||
              negb (video u =? 0)) ;;
      Some u
  | kAggregated =>
      REJECT (cpu u =? 0) && (vulkan u =? 0) && (display u =? 0) && (video u =? 0) ;;
      Some u
  end.

Definition CheckSanitizeBufferMemoryConstraints (stage : CheckSanitizeStage)
    (buffer_usage : BufferUsage) (constraints : Wire.BufferMemoryConstraints)
    : option BufferMemoryConstraints :=
  let heaps := Wire.heap_permitted constraints in
  REJECT negb (bool_decide (stage = kAggregated)) &&
         match heaps with Some [] => true | _ => false end ;;
  let c := mkMemory
    (FIELD_DEFAULT_ZERO (Wire.min_size_bytes constraints))
    (FIELD_DEFAULT_MAX (Wire.max_size_bytes constraints))
    (FIELD_DEFAULT_FALSE (Wire.physically_contiguous_required constraints))
    (FIELD_DEFAULT_FALSE (Wire.secure_required constraints))
    (FIELD_DEFAULT (Wire.ram_domain_supported constraints) (cpu buffer_usage =? 0))
    (FIELD_DEFAULT (Wire.cpu_domain_supported constraints) true)
    (FIELD_DEFAULT (Wire.inaccessible_domain_supported constraints) (cpu buffer_usage =? 0))
    (FIELD_DEFAULT heaps []) in
  REJECT max_size_bytes c <? min_size_bytes c ;;
  REJECT secure_required c && negb (IsSecurePermitted c) ;;
  Some c.

Definition CheckSanitizePixelFormat (p : option Wire.PixelFormat) : PixelFormat :=
  let p := default Wire.empty_pixel_format p in
  mkPixelFormat (FIELD_DEFAULT_ZERO (Wire.pixel_format_type p))
                (FIELD_DEFAULT_ZERO (Wire.format_modifier_value p)).

(** The defaults of [CheckSanitizeImageFormatConstraints], with [min_bytes_per_row] raised to
    the stride the minimum width needs. *)
Definition image_defaults (constraints : Wire.ImageFormatConstraints) : ImageFormatConstraints :=
  let pf := CheckSanitizePixelFormat (Wire.pixel_format constraints) in
  let min_width := FIELD_DEFAULT_ZERO (Wire.min_coded_width constraints) in
  let min_bytes_per_row_given_min_width :=
    u32 (ImageFormatStrideBytesPerWidthPixel pf * min_width) in
  mkImage pf
    (FIELD_DEFAULT (Wire.color_spaces constraints) [])
    min_width
    (FIELD_DEFAULT_MAX (Wire.max_coded_width constraints))
    (FIELD_DEFAULT_ZERO (Wire.min_coded_height constraints))
    (FIELD_DEFAULT_MAX (Wire.max_coded_height constraints))
    (Z.max (FIELD_DEFAULT_ZERO (Wire.min_bytes_per_row constraints))
           min_bytes_per_row_given_min_width)
    (FIELD_DEFAULT_MAX (Wire.max_bytes_per_row constraints))
    (FIELD_DEFAULT_MAX (Wire.max_coded_width_times_coded_height constraints))
    (FIELD_DEFAULT_1 (Wire.coded_width_divisor constraints))
    (FIELD_DEFAULT_1 (Wire.coded_height_divisor constraints))
    (FIELD_DEFAULT_1 (Wire.bytes_per_row_divisor constraints))
    (FIELD_DEFAULT_1 (Wire.start_offset_divisor constraints))
    (FIELD_DEFAULT_1 (Wire.display_width_divisor constraints))
    (FIELD_DEFAULT_1 (Wire.display_height_divisor constraints))
    (FIELD_DEFAULT_MAX (Wire.required_min_coded_width constraints))
    (FIELD_DEFAULT_ZERO (Wire.required_max_coded_width constraints))
    (FIELD_DEFAULT_MAX (Wire.required_min_coded_height constraints))
    (FIELD_DEFAULT_ZERO (Wire.required_max_coded_height constraints))
    (FIELD_DEFAULT_MAX (Wire.required_min_bytes_per_row constraints))
    (FIELD_DEFAULT_ZERO (Wire.required_max_bytes_per_row constraints)).

Definition CheckSanitizeImageFormatConstraints (stage : CheckSanitizeStage)
    (constraints : Wire.ImageFormatConstraints) : option ImageFormatConstraints :=
  let c := image_defaults constraints in
  REJECT pixel_format_type (pixel_format c) =? PixelFormatType_kInvalid ;;
  REJECT negb (ImageFormatIsSupported (pixel_format c)) ;;
  REJECT (length (color_spaces c) =? 0)%nat ;;
  REJECT max_coded_width c <? min_coded_width c ;;
  REJECT max_coded_height c <? min_coded_height c ;;
  REJECT max_bytes_per_row c <? min_bytes_per_row c ;;
  REJECT max_coded_width_times_coded_height c <?
         u32 (min_coded_width c * min_coded_height c) ;;
  REJECT negb (IsNonZeroPowerOf2 (coded_width_divisor c)) ;;
  REJECT negb (IsNonZeroPowerOf2 (coded_height_divisor c)) ;;
  REJECT negb (IsNonZeroPowerOf2 (bytes_per_row_divisor c)) ;;
  REJECT negb (IsNonZeroPowerOf2 (start_offset_divisor c)) ;;
  REJECT zx_system_get_page_size <? start_offset_divisor c ;;
  REJECT negb (IsNonZeroPowerOf2 (display_width_divisor c)) ;;
  REJECT negb (IsNonZeroPowerOf2 (display_height_divisor c)) ;;
  REJECT negb (forallb (fun cs => ImageFormatIsSupportedColorSpaceForPixelFormat cs
                                    (pixel_format c)) (color_spaces c)) ;;
  REJECT required_min_coded_width c =? 0 ;;
  REJECT required_min_coded_width c <? min_coded_width c ;;
  REJECT max_coded_width c <? required_max_coded_width c ;;
  REJECT required_min_coded_height c =? 0 ;;
  REJECT required_min_coded_height c <? min_coded_height c ;;
  REJECT max_coded_height c <? required_max_coded_height c ;;
  REJECT required_min_bytes_per_row c =? 0 ;;
  REJECT required_min_bytes_per_row c <? min_bytes_per_row c ;;
  REJECT max_bytes_per_row c <? required_max_bytes_per_row c ;;
  Some c.

(** [constraints.IsEmpty()] *)
Definition IsEmpty (c : Wire.BufferCollectionConstraints) : bool :=
  match c with
  | Wire.mkConstraints None None None None None None None None None None => true
  | _ => false
  end.

(** The colour space with the lowest ranking number among those with a type. *)
Fixpoint best_color_space (best : Z) (spaces : list ColorSpace) : exec Z :=
  match spaces with
  | [] => Done best
  | color_space :: rest =>
      if ColorSpace_has_type color_space then
        best_ranking ← ranking_at best;
        current_ranking ← ranking_at (ColorSpace_type color_space);
        best_color_space
          (if current_ranking <? best_ranking then ColorSpace_type color_space else best) rest
      else best_color_space best rest
  end.

Definition with_color_spaces (c : ImageFormatConstraints) (l : list ColorSpace)
    : ImageFormatConstraints :=
  mkImage (pixel_format c) l (min_coded_width c) (max_coded_width c) (min_coded_height c)
    (max_coded_height c) (min_bytes_per_row c) (max_bytes_per_row c)
    (max_coded_width_times_coded_height c) (coded_width_divisor c) (coded_height_divisor c)
    (bytes_per_row_divisor c) (start_offset_divisor c) (display_width_divisor c)
    (display_height_divisor c) (required_min_coded_width c) (required_max_coded_width c)
    (required_min_coded_height c) (required_max_coded_height c) (required_min_bytes_per_row c)
    (required_max_bytes_per_row c).

Fixpoint select_color_spaces (l : list ImageFormatConstraints)
    : exec (list ImageFormatConstraints) :=
  match l with
  | [] => Done []
  | c :: rest =>
      best ← best_color_space ColorSpaceType_kInvalid (color_spaces c);
      rest' ← select_color_spaces rest;
      Done (with_color_spaces c [ColorSpace_set_type best] :: rest')
  end.

Fixpoint sanitize_images (stage : CheckSanitizeStage) (l : list Wire.ImageFormatConstraints)
    : option (list ImageFormatConstraints) :=
  match l with
  | [] => Some []
  | c :: rest =>
      c' ← CheckSanitizeImageFormatConstraints stage c;
      rest' ← sanitize_images stage rest;
      Some (c' :: rest')
  end.

(** Whether two entries have the same pixel format, for some pair [i < j]. *)
Fixpoint has_identical_formats (l : list ImageFormatConstraints) : bool :=
  match l with
  | [] => false
  | c :: rest =>
      existsb (fun d => ImageFormatIsPixelFormatEqual (pixel_format c) (pixel_format d)) rest ||
      has_identical_formats rest
  end.

Definition CheckSanitizeBufferCollectionConstraints (stage : CheckSanitizeStage)
    (constraints : Wire.BufferCollectionConstraints)
    : exec (option BufferCollectionConstraints) :=
  let was_empty := IsEmpty constraints in
  let usage0 := FIELD_DEFAULT (Wire.usage constraints) Wire.empty_usage in
  let usage1 :=
    if was_empty
    then Wire.mkUsage (Some (FIELD_DEFAULT (Wire.none usage0) kNoneUsage)) (Wire.cpu usage0)
           (Wire.vulkan usage0) (Wire.display usage0) (Wire.video usage0)
    else usage0 in
  let memory0 := FIELD_DEFAULT (Wire.buffer_memory_constraints constraints) Wire.empty_memory in
  let images0 := FIELD_DEFAULT (Wire.image_format_constraints constraints) [] in
  let max_count := FIELD_DEFAULT_MAX (Wire.max_buffer_count constraints) in
  let min_count := FIELD_DEFAULT_ZERO (Wire.min_buffer_count constraints) in
  let checked : option BufferCollectionConstraints :=
    u ← CheckSanitizeBufferUsage stage usage1;
    REJECT max_count =? 0 ;;
    REJECT max_count <? min_count ;;
    m ← CheckSanitizeBufferMemoryConstraints stage u memory0;
    REJECT negb (bool_decide (stage = kAggregated)) &&
           (IsCpuUsage u && negb (IsCpuAccessSupported m)) ;;
    REJECT negb (bool_decide (stage = kAggregated)) && (IsCpuUsage u && secure_required m) ;;
    REJECT negb (bool_decide (stage = kAggregated)) &&
           (secure_required m && IsCpuAccessSupported m) ;;
    images ← sanitize_images stage images0;
    Some (mkConstraints u
      (FIELD_DEFAULT_ZERO (Wire.min_buffer_count_for_camping constraints))
      (FIELD_DEFAULT_ZERO (Wire.min_buffer_count_for_dedicated_slack constraints))
      (FIELD_DEFAULT_ZERO (Wire.min_buffer_count_for_shared_slack constraints))
      min_count max_count m images
      (FIELD_DEFAULT_FALSE (Wire.need_clear_aux_buffers_for_secure constraints))
      (FIELD_DEFAULT (Wire.allow_clear_aux_buffers_for_secure constraints)
         (negb (IsWriteUsage usage1)))) in
  match checked with
  | None => Done None
  | Some c =>
      match stage with
      | kInitial => Done (Some c)
      | kAggregated =>
          images ← select_color_spaces (image_format_constraints c);
          Done (Some (mkConstraints (usage c) (min_buffer_count_for_camping c)
            (min_buffer_count_for_dedicated_slack c) (min_buffer_count_for_shared_slack c)
            (min_buffer_count c) (max_buffer_count c) (buffer_memory_constraints c) images
            (need_clear_aux_buffers_for_secure c) (allow_clear_aux_buffers_for_secure c)))
      | kNotAggregated =>
          Done (REJECT has_identical_formats (image_format_constraints c) ;; Some c)
      end
  end.

End sanitize.
