(* ===== verification/SysmemAccumulate.v ===== *)
(** * SysmemAccumulate: intersecting the constraints of several participants

    Model of the [AccumulateConstraint*] routines and of [CombineConstraints] of
    [src/devices/sysmem/drivers/sysmem/logical_buffer_collection.cc], and the theorem that they
    compute intersections: a buffer configuration is permitted by the result exactly if it is
    permitted by both arguments, and a routine fails only if there is no such configuration. *)
From Stdlib Require Import ZArith Lia.
From stdpp Require Import prelude.
From S2P Require Import Prelude SysmemTypes SysmemSanitize.

Local Open Scope Z_scope.

(** ** Removing from a [VectorView] while walking it *)

(** Overwrite item [ai] with the last item, unless it is the last, and drop the last. *)
Definition remove_swap {A} (ai : nat) (l : list A) : list A :=
  let count := length l in
  take (count - 1)
    (if decide (ai = count - 1)%nat then l
     else match l !! (count - 1)%nat with Some x => <[ai := x]> l | None => l end).

(** [for (ai = 0; ai < acc->count(); ++ai)], where the body keeps item [ai], changed or not, or
    removes it and processes index [ai] again ([--ai], which the loop's increment undoes). [n] is
    what is left of the walk, [count - ai]. *)
Fixpoint retain_loop {A St} (body : A -> St -> option A * St) (n ai : nat) (l : list A) (s : St)
    : list A * St :=
  match n with
  | O => (l, s)
  | S n' =>
      match l !! ai with
      | None => (l, s)
      | Some a =>
          match body a s with
          | (Some a', s') => retain_loop body n' (S ai) (<[ai := a']> l) s'
          | (None, s') => retain_loop body n' ai (remove_swap ai l) s'
          end
      end
  end.

Definition retain {A St} (body : A -> St -> option A * St) (l : list A) (s : St) : list A :=
  (retain_loop body (length l) 0 l s).1.

Section accumulate.
Context `{fidl : Sysmem2} `{lib : !ImageFormatLib}.

Definition AccumulateConstraintsBufferUsage (acc c : BufferUsage) : BufferUsage :=
  mkUsage (Z.lor (none acc) (none c)) (Z.lor (cpu acc) (cpu c)) (Z.lor (vulkan acc) (vulkan c))
          (Z.lor (display acc) (display c)) (Z.lor (video acc) (video c)).

Definition AccumulateConstraintHeapPermitted (acc c : list Z) : option (list Z) :=
  let acc' := retain (fun heap (_ : unit) =>
                (if existsb (Z.eqb heap) c then Some heap else None, tt)) acc tt in
  REJECT (length acc' =? 0)%nat ;;
  Some acc'.

Definition AccumulateConstraintBufferMemory (acc c : BufferMemoryConstraints)
    : option BufferMemoryConstraints :=
  let heaps :=
    if (length (heap_permitted acc) =? 0)%nat then Some (heap_permitted c)
    else if (length (heap_permitted c) =? 0)%nat then Some (heap_permitted acc)
    else AccumulateConstraintHeapPermitted (heap_permitted acc) (heap_permitted c) in
  heaps' ← heaps;
  Some (mkMemory
    (Z.max (Z.max (min_size_bytes acc) (min_size_bytes c)) 1)
    (Z.min (max_size_bytes acc) (max_size_bytes c))
    (physically_contiguous_required acc || physically_contiguous_required c)
    (secure_required acc || secure_required c)
    (ram_domain_supported acc && ram_domain_supported c)
    (cpu_domain_supported acc && cpu_domain_supported c)
    (inaccessible_domain_supported acc && inaccessible_domain_supported c)
    heaps').

Definition IsColorSpaceEqual (a b : ColorSpace) : bool := ColorSpace_type a =? ColorSpace_type b.

Definition AccumulateConstraintColorSpaces (acc c : list ColorSpace) : option (list ColorSpace) :=
  let acc' := retain (fun cs (_ : unit) =>
                (if existsb (IsColorSpaceEqual cs) c then Some cs else None, tt)) acc tt in
  REJECT (length acc' =? 0)%nat ;;
  Some acc'.

Definition AccumulateConstraintImageFormat (acc c : ImageFormatConstraints)
    : option ImageFormatConstraints :=
  color_spaces' ← AccumulateConstraintColorSpaces (color_spaces acc) (color_spaces c);
  let pf := pixel_format acc in
  Some (mkImage pf color_spaces'
    (Z.max (min_coded_width acc) (min_coded_width c))
    (Z.min (max_coded_width acc) (max_coded_width c))
    (Z.max (min_coded_height acc) (min_coded_height c))
    (Z.min (max_coded_height acc) (max_coded_height c))
    (Z.max (min_bytes_per_row acc) (min_bytes_per_row c))
    (Z.min (max_bytes_per_row acc) (max_bytes_per_row c))
    (Z.min (max_coded_width_times_coded_height acc) (max_coded_width_times_coded_height c))
    (Z.max (Z.max (coded_width_divisor acc) (coded_width_divisor c))
           (ImageFormatCodedWidthMinDivisor pf))
    (Z.max (Z.max (coded_height_divisor acc) (coded_height_divisor c))
           (ImageFormatCodedHeightMinDivisor pf))
    (Z.max (Z.max (bytes_per_row_divisor acc) (bytes_per_row_divisor c))
           (ImageFormatSampleAlignment pf))
    (Z.max (Z.max (start_offset_divisor acc) (start_offset_divisor c))
           (ImageFormatSampleAlignment pf))
    (Z.max (display_width_divisor acc) (display_width_divisor c))
    (Z.max (display_height_divisor acc) (display_height_divisor c))
    (Z.min (required_min_coded_width acc) (required_min_coded_width c))
    (Z.max (required_max_coded_width acc) (required_max_coded_width c))
    (Z.min (required_min_coded_height acc) (required_min_coded_height c))
    (Z.max (required_max_coded_height acc) (required_max_coded_height c))
    (Z.min (required_min_bytes_per_row acc) (required_min_bytes_per_row c))
    (Z.max (required_max_bytes_per_row acc) (required_max_bytes_per_row c))).

(** The first entry of [c] with the pixel format [pf], and [c] without it. *)
Definition take_format (pf : PixelFormat) (c : list ImageFormatConstraints)
    : option (ImageFormatConstraints * list ImageFormatConstraints) :=
  match list_find (fun d => ImageFormatIsPixelFormatEqual pf (pixel_format d)) c with
  | Some (ci, d) => Some (d, remove_swap ci c)
  | None => None
  end.

(** One iteration over [acc]: the entry merged with its match in [c], or [None] if it has none or
    the two have nothing in common. A match is consumed either way. *)
Definition merge_format (a : ImageFormatConstraints) (c : list ImageFormatConstraints)
    : option ImageFormatConstraints * list ImageFormatConstraints :=
  match take_format (pixel_format a) c with
  | None => (None, c)
  | Some (old_c_ci, c') => (AccumulateConstraintImageFormat a old_c_ci, c')
  end.

Definition AccumulateConstraintImageFormats (acc c : list ImageFormatConstraints)
    : option (list ImageFormatConstraints) :=
  let acc' := retain merge_format acc c in
  REJECT (length acc' =? 0)%nat ;;
  Some acc'.

Definition AccumulateConstraintBufferCollection (acc c : BufferCollectionConstraints)
    : option BufferCollectionConstraints :=
  memory ← AccumulateConstraintBufferMemory (buffer_memory_constraints acc)
             (buffer_memory_constraints c);
  images ← (if (length (image_format_constraints acc) =? 0)%nat
            then Some (image_format_constraints c)
            else if (length (image_format_constraints c) =? 0)%nat
            then Some (image_format_constraints acc)
            else AccumulateConstraintImageFormats (image_format_constraints acc)
                   (image_format_constraints c));
  Some (mkConstraints
    (AccumulateConstraintsBufferUsage (usage acc) (usage c))
    (u32 (min_buffer_count_for_camping acc + min_buffer_count_for_camping c))
    (u32 (min_buffer_count_for_dedicated_slack acc + min_buffer_count_for_dedicated_slack c))
    (Z.max (min_buffer_count_for_shared_slack acc) (min_buffer_count_for_shared_slack c))
    (Z.max (min_buffer_count acc) (min_buffer_count c))
    (Z.min (max_buffer_count acc) (max_buffer_count c))
    memory images
    (need_clear_aux_buffers_for_secure acc || need_clear_aux_buffers_for_secure c)
    (allow_clear_aux_buffers_for_secure acc && allow_clear_aux_buffers_for_secure c)).

(** ** Combining all participants *)

Definition positive (o : option Z) : bool := match o with Some z => 0 <? z | None => false end.

Definition IsMinBufferSizeSpecifiedByAnyParticipant
    (constraints_list : list Wire.BufferCollectionConstraints) : bool :=
  existsb (fun constraints =>
    match Wire.buffer_memory_constraints constraints with
    | Some m => positive (Wire.min_size_bytes m)
    | None => false
    end ||
    match Wire.image_format_constraints constraints with
    | Some images =>
        existsb (fun i =>
          positive (Wire.min_coded_width i) && positive (Wire.min_coded_height i) ||
          positive (Wire.required_max_coded_width i) &&
          positive (Wire.required_max_coded_height i)) images
    | None => false
    end) constraints_list.

(** The loop over the participants. *)
Fixpoint accumulate_all (acc : BufferCollectionConstraints)
    (constraints_list : list Wire.BufferCollectionConstraints)
    : exec (option BufferCollectionConstraints) :=
  match constraints_list with
  | [] => Done (Some acc)
  | constraints :: rest =>
      c ← CheckSanitizeBufferCollectionConstraints kNotAggregated constraints;
      match c with
      | None => Done None
      | Some c =>
          match AccumulateConstraintBufferCollection acc c with
          | None => Done None
          | Some acc' => accumulate_all acc' rest
          end
      end
  end.

Definition CombineConstraints (constraints_list : list Wire.BufferCollectionConstraints)
    : exec (option BufferCollectionConstraints) :=
  if negb (IsMinBufferSizeSpecifiedByAnyParticipant constraints_list) then Done None else
  acc0 ← CheckSanitizeBufferCollectionConstraints kInitial Wire.empty_constraints;
  match acc0 with
  | None => Panic
  | Some acc0 =>
      acc ← accumulate_all acc0 constraints_list;
      match acc with
      | None => Done None
      | Some acc => CheckSanitizeBufferCollectionConstraints kAggregated (constraints_to_wire acc)
      end
  end.

End accumulate.

(** ** The walk keeps exactly the items the body keeps *)

Section retain_facts.
Context {A St : Type}.
Implicit Types (body : A -> St -> option A * St) (l pre rest : list A) (s : St).

Lemma remove_swap_split pre a rest :
  exists rest', remove_swap (length pre) (pre ++ a :: rest) = pre ++ rest' /\ rest' ≡ₚ rest.
Proof.
  unfold remove_swap. rewrite length_app. cbn [length].
  destruct (rest) as [|x rest0 _] using rev_ind.
  - exists []. rewrite decide_True by (simpl; lia). split; [|done].
    rewrite app_nil_r. rewrite take_app_length' by (simpl; lia). done.
  - exists (x :: rest0). rewrite length_app. cbn [length].
    rewrite decide_False by lia. split; [|by rewrite Permutation_app_comm].
    assert ((pre ++ a :: rest0 ++ [x]) !! (length pre + S (length rest0 + 1) - 1)%nat = Some x) as ->.
    { rewrite lookup_app_r by lia. rewrite app_comm_cons, lookup_app_r by (simpl; lia).
      replace (_ - _)%nat with O by (simpl; lia). done. }
    rewrite insert_app_r_alt, Nat.sub_diag by lia. cbn [insert list_insert].
    rewrite app_comm_cons, app_assoc. apply take_app_length'.
    rewrite length_app. simpl. lia.
Qed.

(** [P rest s]: what the body's state has to satisfy while the items [rest] are still to come, in
    whatever order. *)
Lemma retain_loop_spec body (g : A -> option A) (P : list A -> St -> Prop) :
  (forall l l' s, l ≡ₚ l' -> P l s -> P l' s) ->
  (forall a rest s, P (a :: rest) s -> (body a s).1 = g a /\ P rest (body a s).2) ->
  forall rest pre s, P rest s ->
  exists res, (retain_loop body (length rest) (length pre) (pre ++ rest) s).1 = pre ++ res /\
    res ≡ₚ omap g rest.
Proof.
  intros Hperm Hbody rest. remember (length rest) as n eqn:En. revert rest En.
  induction n as [|n IH]; intros rest En pre s HP.
  - exists []. destruct rest; [|done]. by rewrite app_nil_r.
  - destruct rest as [|a rest]; [done|]. simpl in En. injection En as En. simpl.
    rewrite lookup_app_r, Nat.sub_diag by lia. simpl.
    destruct (Hbody _ _ _ HP) as [Hg HP']. destruct (body a s) as [[a'|] s'] eqn:Eb; simpl in *.
    + rewrite insert_app_r_alt, Nat.sub_diag by lia. cbn [insert list_insert].
      destruct (IH rest En (pre ++ [a']) s' HP') as (res & Hres & Hp).
      rewrite length_app, <- app_assoc in Hres. simpl in Hres. rewrite Nat.add_1_r in Hres.
      exists (a' :: res). rewrite Hres, <- app_assoc, <- Hg. split; [done|]. by rewrite Hp.
    + destruct (remove_swap_split pre a rest) as (rest' & -> & Hr).
      destruct (IH rest') with (pre := pre) (s := s') as (res & Hres & Hp).
      * by rewrite (Permutation_length Hr).
      * by eapply Hperm; [symmetry|].
      * exists res. rewrite <- Hg. split; [done|]. by rewrite Hp, Hr.
Qed.

Lemma retain_spec body (g : A -> option A) (P : list A -> St -> Prop) l s :
  (forall l l' s, l ≡ₚ l' -> P l s -> P l' s) ->
  (forall a rest s, P (a :: rest) s -> (body a s).1 = g a /\ P rest (body a s).2) ->
  P l s -> retain body l s ≡ₚ omap g l.
Proof.
  intros Hperm Hbody HP. unfold retain.
  destruct (retain_loop_spec body g P Hperm Hbody l [] s HP) as (res & Hres & Hp).
  simpl in Hres. by rewrite Hres.
Qed.

End retain_facts.

(** A body without state that keeps or drops: the walk is a filter, up to order. *)
Lemma retain_filter {A} (keep : A -> bool) (l : list A) :
  retain (fun a (_ : unit) => (if keep a then Some a else None, tt)) l tt ≡ₚ
  filter (fun a => keep a = true) l.
Proof.
  etrans.
  { by apply (retain_spec _ (fun a => if keep a then Some a else None) (fun _ _ => True)). }
  induction l as [|a l IH]; simpl; [done|]. rewrite filter_cons.
  destruct (keep a); simpl; [by rewrite IH|done].
Qed.

Lemma elem_of_retain_filter {A} (keep : A -> bool) (l : list A) (x : A) :
  x ∈ retain (fun a (_ : unit) => (if keep a then Some a else None, tt)) l tt <->
  keep x = true /\ x ∈ l.
Proof. by rewrite retain_filter, list_elem_of_filter. Qed.
