(* ===== verification/SysmemMeet.v ===== *)
(** * SysmemMeet: aggregation computes the intersection of the participants' constraints

    What the tables of [SysmemTypes] mean, as sets of permitted buffer configurations, and the
    theorems that [SysmemSanitize] and [SysmemAccumulate] compute with these sets: each
    [AccumulateConstraint*] routine returns the intersection of its arguments, fails only if the
    intersection is empty, and [CombineConstraints] returns the intersection over all participants
    with one colour space chosen per format. *)
From Stdlib Require Import ZArith Lia Znumtheory.
From stdpp Require Import prelude.
From S2P Require Import Prelude SysmemTypes SysmemSanitize SysmemAccumulate.

Local Open Scope Z_scope.

(** ** Powers of two *)

Definition is_pow2 (z : Z) : Prop := exists n, 0 <= n /\ z = 2 ^ n.

Lemma IsNonZeroPowerOf2_spec v : IsNonZeroPowerOf2 v = true <-> is_pow2 v.
Proof.
  unfold IsNonZeroPowerOf2, is_pow2. split.
  - destruct (Z.eqb_spec v 0) as [->|Hv]; [done|].
    destruct (Z.eqb_spec (Z.land v (v - 1)) 0) as [Hl|]; [|done]. intros _.
    destruct (decide (v < 0)) as [Hneg|Hpos].
    { assert (Z.land v (v - 1) < 0) by (apply Z.land_neg; lia). lia. }
    exists (Z.log2 v). split; [apply Z.log2_nonneg|].
    destruct (Z.log2_spec v) as [H1 _]; [lia|].
    destruct (decide (v = 2 ^ Z.log2 v)) as [|Hne]; [done|]. exfalso.
    assert (Z.log2 (v - 1) = Z.log2 v) as El.
    { apply Z.log2_unique; [apply Z.log2_nonneg|].
      pose proof (Z.log2_spec v ltac:(lia)). lia. }
    assert (1 <= v - 1).
    { assert (0 < 2 ^ Z.log2 v) by (apply Z.pow_pos_nonneg; [lia|apply Z.log2_nonneg]). lia. }
    assert (Z.testbit (Z.land v (v - 1)) (Z.log2 v) = true) as Ht.
    { rewrite Z.land_spec, Z.bit_log2 by lia. rewrite <- El, Z.bit_log2 by lia. done. }
    by rewrite Hl, Z.bits_0 in Ht.
  - intros (n & Hn & ->). assert (0 < 2 ^ n) by (apply Z.pow_pos_nonneg; lia).
    destruct (Z.eqb_spec (2 ^ n) 0); [lia|].
    replace (2 ^ n - 1) with (Z.ones n) by (rewrite Z.ones_equiv; lia).
    by rewrite Z.land_ones, Z.mod_same by lia.
Qed.

(** The larger of two powers of two is their least common multiple. *)
Lemma max_pow2_divides a b x :
  is_pow2 a -> is_pow2 b -> (Z.max a b | x) <-> (a | x) /\ (b | x).
Proof.
  intros (n & Hn & ->) (k & Hk & ->).
  assert (forall i j, 0 <= i <= j -> (2 ^ i | 2 ^ j)) as Hd.
  { intros i j Hij. exists (2 ^ (j - i)). rewrite <- Z.pow_add_r by lia. f_equal. lia. }
  destruct (decide (n <= k)).
  - rewrite Z.max_r by (apply Z.pow_le_mono_r; lia).
    split; [|tauto]. intros Hx. split; [|done]. by eapply Z.divide_trans; [apply Hd|].
  - rewrite Z.max_l by (apply Z.pow_le_mono_r; lia).
    split; [|tauto]. intros Hx. split; [done|].
    eapply Z.divide_trans; [apply Hd|done]. lia.
Qed.

Lemma is_pow2_max a b : is_pow2 a -> is_pow2 b -> is_pow2 (Z.max a b).
Proof. destruct (Z.max_spec a b) as [[_ ->]|[_ ->]]; done. Qed.

#[export] Hint Resolve is_pow2_max : ints.

(** ** Rejections *)

Lemma reject_Some {A} b (k : option A) x : reject b k = Some x <-> b = false /\ k = Some x.
Proof. destruct b; simpl; naive_solver. Qed.

(** Splits a successful chain of checks into the checks that passed. *)
Ltac checks H :=
  repeat (apply reject_Some in H; let Hc := fresh "Hchk" in destruct H as [Hc H]).

(** ** What a table permits *)

Section permits.
Context `{fidl : Sysmem2} `{lib : !ImageFormatLib}.

Inductive CoherencyDomain := kCpu | kRam | kInaccessible.

(** A choice of buffer memory. *)
Record MemoryPoint := mkMemoryPoint {
  pt_size : Z; pt_heap : Z; pt_contiguous : bool; pt_secure : bool; pt_domain : CoherencyDomain
}.

Definition domain_supported (m : BufferMemoryConstraints) (d : CoherencyDomain) : bool :=
  match d with
  | kCpu => cpu_domain_supported m
  | kRam => ram_domain_supported m
  | kInaccessible => inaccessible_domain_supported m
  end.

Definition memory_permits (m : BufferMemoryConstraints) (p : MemoryPoint) : Prop :=
  min_size_bytes m <= pt_size p <= max_size_bytes m /\
  (physically_contiguous_required m = true -> pt_contiguous p = true) /\
  (secure_required m = true -> pt_secure p = true) /\
  domain_supported m (pt_domain p) = true /\
  IsHeapPermitted m (pt_heap p) = true.

(** A choice of image layout. *)
Record ImagePoint := mkImagePoint {
  pt_format : PixelFormat; pt_color : Z;
  pt_width : Z; pt_height : Z; pt_bytes_per_row : Z; pt_start_offset : Z;
  pt_display_width : Z; pt_display_height : Z
}.

(** The bounds and divisors of an entry, colour aside. *)
Definition layout_permits (i : ImageFormatConstraints) (p : ImagePoint) : Prop :=
  min_coded_width i <= pt_width p <= max_coded_width i /\
  min_coded_height i <= pt_height p <= max_coded_height i /\
  min_bytes_per_row i <= pt_bytes_per_row p <= max_bytes_per_row i /\
  pt_width p * pt_height p <= max_coded_width_times_coded_height i /\
  (coded_width_divisor i | pt_width p) /\ (coded_height_divisor i | pt_height p) /\
  (bytes_per_row_divisor i | pt_bytes_per_row p) /\
  (start_offset_divisor i | pt_start_offset p) /\
  (display_width_divisor i | pt_display_width p) /\
  (display_height_divisor i | pt_display_height p).

Definition color_permits (i : ImageFormatConstraints) (t : Z) : Prop :=
  exists cs, cs ∈ color_spaces i /\ ColorSpace_type cs = t.

Definition image_permits (i : ImageFormatConstraints) (p : ImagePoint) : Prop :=
  ImageFormatIsPixelFormatEqual (pixel_format i) (pt_format p) = true /\
  color_permits i (pt_color p) /\ layout_permits i p.

(** No entry means no constraint on images; otherwise some entry has to permit the layout. *)
Definition images_permit (l : list ImageFormatConstraints) (p : ImagePoint) : Prop :=
  l = [] \/ exists i, i ∈ l /\ image_permits i p.

(** The alignment the pixel format itself asks for. *)
Definition naturally_aligned (p : ImagePoint) : Prop :=
  forall pf, ImageFormatIsPixelFormatEqual pf (pt_format p) = true ->
  (ImageFormatCodedWidthMinDivisor pf | pt_width p) /\
  (ImageFormatCodedHeightMinDivisor pf | pt_height p) /\
  (ImageFormatSampleAlignment pf | pt_bytes_per_row p) /\
  (ImageFormatSampleAlignment pf | pt_start_offset p).

(** [supports r i]: the range of sizes [r] covers those the entry requires. *)
Record SizeRange := mkSizeRange {
  lo_width : Z; hi_width : Z; lo_height : Z; hi_height : Z; lo_bytes : Z; hi_bytes : Z
}.

Definition covers_required (r : SizeRange) (i : ImageFormatConstraints) : Prop :=
  (lo_width r <= required_min_coded_width i /\ required_max_coded_width i <= hi_width r) /\
  (lo_height r <= required_min_coded_height i /\ required_max_coded_height i <= hi_height r) /\
  (lo_bytes r <= required_min_bytes_per_row i /\ required_max_bytes_per_row i <= hi_bytes r).

(** What holds of an entry once it is sanitised. *)
Definition wf_image (i : ImageFormatConstraints) : Prop :=
  is_pow2 (coded_width_divisor i) /\ is_pow2 (coded_height_divisor i) /\
  is_pow2 (bytes_per_row_divisor i) /\ is_pow2 (start_offset_divisor i) /\
  is_pow2 (display_width_divisor i) /\ is_pow2 (display_height_divisor i).

(** The formats of the entries are pairwise different. *)
Definition distinct_formats (l : list ImageFormatConstraints) : Prop :=
  has_identical_formats l = false.

(** Documented behaviour of the bindings and of [lib/image-format]: pixel formats are compared by
    value, alignments are powers of two, a supported colour space has a valid type, and setting a
    colour space's type sets it. *)
Class ImageFormatLibOk := {
  format_eq_refl : forall a, ImageFormatIsPixelFormatEqual a a = true;
  format_eq_sym : forall a b,
    ImageFormatIsPixelFormatEqual a b = true -> ImageFormatIsPixelFormatEqual b a = true;
  format_eq_trans : forall a b c,
    ImageFormatIsPixelFormatEqual a b = true -> ImageFormatIsPixelFormatEqual b c = true ->
    ImageFormatIsPixelFormatEqual a c = true;
  width_divisor_pow2 : forall pf, is_pow2 (ImageFormatCodedWidthMinDivisor pf);
  height_divisor_pow2 : forall pf, is_pow2 (ImageFormatCodedHeightMinDivisor pf);
  sample_alignment_pow2 : forall pf, is_pow2 (ImageFormatSampleAlignment pf);
  supported_color_typed : forall cs pf,
    ImageFormatIsSupportedColorSpaceForPixelFormat cs pf = true ->
    ColorSpace_has_type cs = true /\ ColorSpace_type cs <> ColorSpaceType_kInvalid;
  type_of_set_type : forall t, ColorSpace_type (ColorSpace_set_type t) = t
}.

End permits.

(** ** Memory *)

Section memory_meet.
Context `{fidl : Sysmem2} `{lib : !ImageFormatLib}.
Implicit Types m acc c : BufferMemoryConstraints.

Lemma IsHeapPermitted_spec m h :
  IsHeapPermitted m h = true <-> heap_permitted m = [] \/ h ∈ heap_permitted m.
Proof.
  unfold IsHeapPermitted. destruct (heap_permitted m) as [|x l].
  - naive_solver.
  - rewrite bool_decide_eq_true. naive_solver.
Qed.

Lemma AccumulateConstraintHeapPermitted_spec la lc :
  match AccumulateConstraintHeapPermitted la lc with
  | Some l => l <> [] /\ forall h, h ∈ l <-> h ∈ la /\ h ∈ lc
  | None => forall h, ~ (h ∈ la /\ h ∈ lc)
  end.
Proof.
  unfold AccumulateConstraintHeapPermitted. set (l := retain _ la tt).
  assert (forall h, h ∈ l <-> h ∈ la /\ h ∈ lc) as Hl.
  { intros h. subst l. rewrite (elem_of_retain_filter (fun heap => existsb (Z.eqb heap) lc)).
    rewrite existsb_exists. setoid_rewrite Z.eqb_eq. setoid_rewrite <- list_elem_of_In.
    naive_solver. }
  clearbody l. destruct l as [|x l]; simpl.
  - intros h Hh. apply Hl in Hh. by apply not_elem_of_nil in Hh.
  - done.
Qed.

(** The heap part on its own: empty lists mean no constraint. *)
Definition heaps_of (acc c : BufferMemoryConstraints) : option (list Z) :=
  if (length (heap_permitted acc) =? 0)%nat then Some (heap_permitted c)
  else if (length (heap_permitted c) =? 0)%nat then Some (heap_permitted acc)
  else AccumulateConstraintHeapPermitted (heap_permitted acc) (heap_permitted c).

Lemma heaps_of_spec acc c :
  match heaps_of acc c with
  | Some l => forall h, (l = [] \/ h ∈ l) <->
                IsHeapPermitted acc h = true /\ IsHeapPermitted c h = true
  | None => forall h, ~ (IsHeapPermitted acc h = true /\ IsHeapPermitted c h = true)
  end.
Proof.
  unfold heaps_of.
  destruct (heap_permitted acc) as [|a la] eqn:Ea; simpl.
  { intros h. rewrite !IsHeapPermitted_spec, Ea. naive_solver. }
  destruct (heap_permitted c) as [|b lb] eqn:Eb; simpl.
  { intros h. rewrite !IsHeapPermitted_spec, Ea, Eb. naive_solver. }
  pose proof (AccumulateConstraintHeapPermitted_spec (a :: la) (b :: lb)) as Hs.
  destruct (AccumulateConstraintHeapPermitted _ _) as [l|]; intros h;
    rewrite !IsHeapPermitted_spec, Ea, Eb.
  - destruct Hs as [Hne Hs]. rewrite Hs. naive_solver.
  - intros Hh. apply (Hs h). naive_solver.
Qed.

Lemma accumulate_memory_spec acc c p :
  match AccumulateConstraintBufferMemory acc c with
  | Some m => memory_permits m p <->
      memory_permits acc p /\ memory_permits c p /\ 1 <= pt_size p
  | None => ~ (memory_permits acc p /\ memory_permits c p)
  end.
Proof.
  unfold AccumulateConstraintBufferMemory. fold (heaps_of acc c).
  pose proof (heaps_of_spec acc c) as Hh.
  destruct (heaps_of acc c) as [heaps|]; simpl.
  - specialize (Hh (pt_heap p)). unfold memory_permits. rewrite IsHeapPermitted_spec; simpl.
    rewrite Hh. rewrite !orb_true_iff.
    assert (forall d, domain_supported (mkMemory
      (Z.max (Z.max (min_size_bytes acc) (min_size_bytes c)) 1)
      (Z.min (max_size_bytes acc) (max_size_bytes c))
      (physically_contiguous_required acc || physically_contiguous_required c)
      (secure_required acc || secure_required c)
      (ram_domain_supported acc && ram_domain_supported c)
      (cpu_domain_supported acc && cpu_domain_supported c)
      (inaccessible_domain_supported acc && inaccessible_domain_supported c) heaps) d = true <->
      domain_supported acc d = true /\ domain_supported c d = true) as ->
      by (intros []; simpl; apply andb_true_iff).
    rewrite Z.max_lub_iff, Z.max_lub_iff, Z.min_glb_iff. tauto.
  - specialize (Hh (pt_heap p)). unfold memory_permits. tauto.
Qed.

End memory_meet.

(** ** Images *)

Section image_meet.
Context `{fidl : Sysmem2} `{lib : !ImageFormatLib} `{ok : !ImageFormatLibOk}.
Implicit Types i a acc c : ImageFormatConstraints.

Abbreviation fmt_eq := ImageFormatIsPixelFormatEqual.

Lemma AccumulateConstraintColorSpaces_spec la lc :
  match AccumulateConstraintColorSpaces la lc with
  | Some l => l <> [] /\
      forall t, (exists cs, cs ∈ l /\ ColorSpace_type cs = t) <->
        (exists cs, cs ∈ la /\ ColorSpace_type cs = t) /\
        (exists cs, cs ∈ lc /\ ColorSpace_type cs = t)
  | None => forall t, ~ ((exists cs, cs ∈ la /\ ColorSpace_type cs = t) /\
                         (exists cs, cs ∈ lc /\ ColorSpace_type cs = t))
  end.
Proof.
  unfold AccumulateConstraintColorSpaces. set (l := retain _ la tt).
  assert (forall cs, cs ∈ l <->
    (exists d, d ∈ lc /\ ColorSpace_type cs = ColorSpace_type d) /\ cs ∈ la) as Hl.
  { intros cs. subst l. rewrite (elem_of_retain_filter (fun x => existsb (IsColorSpaceEqual x) lc)).
    rewrite existsb_exists. unfold IsColorSpaceEqual. setoid_rewrite Z.eqb_eq.
    by setoid_rewrite <- list_elem_of_In. }
  clearbody l. destruct l as [|x l]; simpl.
  - intros t [(cs & ? & ?) (d & ? & ?)]. apply (not_elem_of_nil cs), Hl. naive_solver.
  - split; [done|]. intros t. setoid_rewrite Hl. naive_solver.
Qed.

Lemma layout_meet acc c cs i p :
  wf_image acc -> wf_image c ->
  AccumulateConstraintColorSpaces (color_spaces acc) (color_spaces c) = Some cs ->
  AccumulateConstraintImageFormat acc c = Some i ->
  layout_permits i p <-> layout_permits acc p /\ layout_permits c p /\
    (ImageFormatCodedWidthMinDivisor (pixel_format acc) | pt_width p) /\
    (ImageFormatCodedHeightMinDivisor (pixel_format acc) | pt_height p) /\
    (ImageFormatSampleAlignment (pixel_format acc) | pt_bytes_per_row p) /\
    (ImageFormatSampleAlignment (pixel_format acc) | pt_start_offset p).
Proof.
  intros (? & ? & ? & ? & ? & ?) (? & ? & ? & ? & ? & ?) Hcs.
  pose proof (width_divisor_pow2 (pixel_format acc)).
  pose proof (height_divisor_pow2 (pixel_format acc)).
  pose proof (sample_alignment_pow2 (pixel_format acc)).
  unfold AccumulateConstraintImageFormat. rewrite Hcs. simpl. intros [= <-].
  unfold layout_permits; simpl.
  rewrite !max_pow2_divides by eauto with ints.
  rewrite !Z.max_lub_iff, !Z.min_glb_iff. tauto.
Qed.

Lemma accumulate_image_wf acc c i :
  wf_image acc -> wf_image c -> AccumulateConstraintImageFormat acc c = Some i -> wf_image i.
Proof.
  intros (? & ? & ? & ? & ? & ?) (? & ? & ? & ? & ? & ?).
  pose proof (width_divisor_pow2 (pixel_format acc)).
  pose proof (height_divisor_pow2 (pixel_format acc)).
  pose proof (sample_alignment_pow2 (pixel_format acc)).
  unfold AccumulateConstraintImageFormat. intros (cs & _ & [= <-])%bind_Some.
  unfold wf_image; simpl. split_and!; eauto with ints.
Qed.

Lemma accumulate_image_format acc c i :
  AccumulateConstraintImageFormat acc c = Some i -> pixel_format i = pixel_format acc.
Proof. unfold AccumulateConstraintImageFormat. by intros (cs & _ & [= <-])%bind_Some. Qed.

(** Whatever the alignment, what the merged entry permits is permitted by both. *)
Lemma accumulate_image_sound acc c i p :
  wf_image acc -> wf_image c -> fmt_eq (pixel_format acc) (pixel_format c) = true ->
  AccumulateConstraintImageFormat acc c = Some i ->
  image_permits i p -> image_permits acc p /\ image_permits c p.
Proof.
  intros Ha Hc Hf E (Hp & Hcol & Hl).
  pose proof (AccumulateConstraintColorSpaces_spec (color_spaces acc) (color_spaces c)) as Hs.
  pose proof E as E'. unfold AccumulateConstraintImageFormat in E'.
  destruct (AccumulateConstraintColorSpaces _ _) as [cs|] eqn:Ecs; simpl in E'; [|done].
  destruct Hs as [_ Hs]. apply (layout_meet acc c cs i p Ha Hc Ecs E) in Hl.
  rewrite (accumulate_image_format _ _ _ E) in Hp. injection E' as <-.
  apply Hs in Hcol as [? ?]. unfold image_permits, color_permits.
  split_and!; try tauto.
  eapply format_eq_trans; [apply format_eq_sym, Hf|done].
Qed.

Lemma accumulate_image_spec acc c p :
  wf_image acc -> wf_image c -> fmt_eq (pixel_format acc) (pixel_format c) = true ->
  match AccumulateConstraintImageFormat acc c with
  | Some i => naturally_aligned p -> (image_permits i p <-> image_permits acc p /\ image_permits c p)
  | None => ~ (image_permits acc p /\ image_permits c p)
  end.
Proof.
  intros Ha Hc Hf.
  pose proof (AccumulateConstraintColorSpaces_spec (color_spaces acc) (color_spaces c)) as Hs.
  destruct (AccumulateConstraintImageFormat acc c) as [i|] eqn:E; pose proof E as E';
    unfold AccumulateConstraintImageFormat in E';
    destruct (AccumulateConstraintColorSpaces _ _) as [cs|] eqn:Ecs; simpl in E'; try done.
  - destruct Hs as [_ Hs]. intros Hn. split; [by apply accumulate_image_sound|].
    intros [(Hp & Hcol & Hl) (_ & Hcol' & Hl')].
    split; [by rewrite (accumulate_image_format _ _ _ E)|]. split.
    + injection E' as <-. by apply Hs.
    + apply (layout_meet acc c cs i p Ha Hc Ecs E). specialize (Hn _ Hp). tauto.
  - unfold image_permits. intros [(_ & H1 & _) (_ & H2 & _)]. by apply (Hs (pt_color p)).
Qed.

Lemma accumulate_required acc c i r :
  AccumulateConstraintImageFormat acc c = Some i ->
  covers_required r i <-> covers_required r acc /\ covers_required r c.
Proof.
  unfold AccumulateConstraintImageFormat. intros (cs & _ & [= <-])%bind_Some.
  unfold covers_required; simpl. rewrite !Z.min_glb_iff, !Z.max_lub_iff. tauto.
Qed.

(** *** Lists of entries with different formats *)

Lemma distinct_cons a (l : list ImageFormatConstraints) :
  distinct_formats (a :: l) <->
  (forall d, d ∈ l -> fmt_eq (pixel_format a) (pixel_format d) = false) /\ distinct_formats l.
Proof.
  unfold distinct_formats. simpl. rewrite orb_false_iff. f_equiv. split.
  - intros H d Hd. apply not_true_is_false. intros Hf. apply not_true_iff_false in H. apply H.
    apply existsb_exists. exists d. by rewrite <- list_elem_of_In.
  - intros H. apply not_true_is_false. intros (d & Hd & Hf)%existsb_exists.
    apply list_elem_of_In in Hd. rewrite H in Hf; done.
Qed.

Lemma format_neq_sym a b :
  fmt_eq (pixel_format a) (pixel_format b) = false ->
  fmt_eq (pixel_format b) (pixel_format a) = false.
Proof.
  intros H. apply not_true_is_false. intros H'%format_eq_sym. by rewrite H' in H.
Qed.

#[local] Instance distinct_perm : Proper ((≡ₚ) ==> iff) distinct_formats.
Proof.
  assert (forall l l', l ≡ₚ l' -> distinct_formats l -> distinct_formats l') as H.
  { intros l l'. induction 1 as [|a l l' Hp IH|a b l|]; rewrite ?distinct_cons; [done| | |auto].
    - intros [H1 H2]. split; [|auto]. intros d Hd. apply H1. by rewrite Hp.
    - setoid_rewrite elem_of_cons. intros [H1 [H2 H3]]. split_and!; [|naive_solver|done].
      intros d [->|Hd]; [apply format_neq_sym; auto|auto]. }
  intros l l' Hl. split; apply H; [done|by symmetry].
Qed.

Lemma distinct_unique (l : list ImageFormatConstraints) a b :
  distinct_formats l -> a ∈ l -> b ∈ l -> fmt_eq (pixel_format a) (pixel_format b) = true -> a = b.
Proof.
  induction l as [|x l IH]; [intros _ []%elem_of_nil|]. rewrite distinct_cons, !elem_of_cons.
  intros [Hx Hl] [->|Ha] [->|Hb] Hf; [done| | |auto].
  - by rewrite Hx in Hf.
  - apply format_eq_sym in Hf. by rewrite Hx in Hf.
Qed.

Lemma distinct_omap (g : ImageFormatConstraints -> option ImageFormatConstraints) l :
  (forall a b, g a = Some b -> pixel_format b = pixel_format a) ->
  distinct_formats l -> distinct_formats (omap g l).
Proof.
  intros Hg. induction l as [|a l IH]; [done|]. rewrite distinct_cons. intros [Ha Hl]. simpl.
  destruct (g a) as [b|] eqn:E; [|auto]. apply distinct_cons. split; [|auto].
  intros d (d0 & Hd0 & Hd)%list_elem_of_omap.
  rewrite (Hg _ _ E), (Hg _ _ Hd). auto.
Qed.

Lemma take_format_spec pf (s : list ImageFormatConstraints) :
  match take_format pf s with
  | Some (d, s') => fmt_eq pf (pixel_format d) = true /\ s ≡ₚ d :: s'
  | None => forall d, d ∈ s -> fmt_eq pf (pixel_format d) = false
  end.
Proof.
  unfold take_format. destruct (list_find _ s) as [[ci d]|] eqn:E.
  - apply list_find_Some in E as (Hl & Hf & _). split; [by destruct (fmt_eq _ _)|].
    rewrite <- (take_drop_middle s ci d Hl) at 1.
    destruct (remove_swap_split (take ci s) d (drop (S ci) s)) as (r & Hr & Hp).
    rewrite length_take_le in Hr by (apply lookup_lt_Some in Hl; lia).
    rewrite (take_drop_middle s ci d Hl) in Hr. rewrite Hr, Hp. by rewrite Permutation_middle.
  - intros d Hd. rewrite list_find_None, Forall_forall in E.
    specialize (E d Hd). by destruct (fmt_eq _ _).
Qed.

(** What becomes of an entry: merged with the entry of the same format, if there is one. *)
Definition partner (c : list ImageFormatConstraints) (a : ImageFormatConstraints)
    : option ImageFormatConstraints :=
  '(d, _) ← take_format (pixel_format a) c; AccumulateConstraintImageFormat a d.

Lemma partner_format (c : list ImageFormatConstraints) a b : partner c a = Some b -> pixel_format b = pixel_format a.
Proof. intros ([d ?] & _ & H)%bind_Some. by apply accumulate_image_format in H. Qed.

Lemma merge_formats_walk (acc c : list ImageFormatConstraints) :
  distinct_formats acc -> distinct_formats c ->
  retain merge_format acc c ≡ₚ omap (partner c) acc.
Proof.
  intros Ha Hc.
  apply retain_spec with (P := fun rest s => distinct_formats rest /\ distinct_formats s /\
    forall a d, a ∈ rest -> fmt_eq (pixel_format a) (pixel_format d) = true ->
      (d ∈ s <-> d ∈ c)); [| |naive_solver].
  { intros l l' s Hl (? & ? & Hs). rewrite <- Hl. split_and!; [done..|].
    intros a d Hin. rewrite <- Hl in Hin. by apply Hs. }
  intros a rest s (Hr & Hs & Hsame). apply distinct_cons in Hr as [Har Hr].
  unfold merge_format, partner.
  pose proof (take_format_spec (pixel_format a) s) as Ts.
  pose proof (take_format_spec (pixel_format a) c) as Tc.
  destruct (take_format (pixel_format a) s) as [[d s']|];
    destruct (take_format (pixel_format a) c) as [[d' c']|]; simpl.
  - destruct Ts as [Hd Hps], Tc as [Hd' Hpc].
    assert (d ∈ c) as Hdc by (apply (Hsame a d); [left|done|rewrite Hps; left]).
    assert (d = d') as <-.
    { apply (distinct_unique c); [done..|rewrite Hpc; left|].
      eapply format_eq_trans; [apply format_eq_sym, Hd|done]. }
    split; [done|]. split_and!; [done|rewrite Hps in Hs; by apply distinct_cons in Hs as [_ ?]|].
    intros b e Hb He. assert (e ∈ s <-> e ∈ c) as <- by (apply (Hsame b e); [by right|done]).
    rewrite Hps, elem_of_cons.
    split; [by right|]. intros [->|]; [|done]. exfalso.
    specialize (Har b Hb). assert (fmt_eq (pixel_format a) (pixel_format b) = true); [|congruence].
    eapply format_eq_trans; [exact Hd|by apply format_eq_sym].
  - destruct Ts as [Hd Hps]. rewrite (Tc d) in Hd; [done|].
    apply (Hsame a d); [left|done|rewrite Hps; left].
  - destruct Tc as [Hd Hpc]. rewrite (Ts d') in Hd; [done|].
    apply (Hsame a d'); [left|done|rewrite Hpc; left].
  - split_and!; [done..|]. intros b e Hb He. apply (Hsame b e); [by right|done].
Qed.

Lemma partner_permits (c : list ImageFormatConstraints) a b p :
  wf_image a -> Forall wf_image c -> partner c a = Some b ->
  wf_image b /\ exists d, d ∈ c /\ fmt_eq (pixel_format a) (pixel_format d) = true /\
    AccumulateConstraintImageFormat a d = Some b /\
    (image_permits b p -> image_permits a p /\ image_permits d p).
Proof.
  intros Ha Hc ([d c'] & Ht & Hb)%bind_Some.
  pose proof (take_format_spec (pixel_format a) c) as Ts. rewrite Ht in Ts.
  destruct Ts as [Hd Hp].
  assert (d ∈ c) as Hin by (rewrite Hp; left).
  assert (wf_image d) as Hwd by (rewrite Forall_forall in Hc; auto).
  split; [by apply (accumulate_image_wf a d)|]. exists d. split_and!; [done..|].
  by apply accumulate_image_sound.
Qed.

Lemma partner_complete (c : list ImageFormatConstraints) a d p :
  distinct_formats c -> wf_image a -> wf_image d -> d ∈ c -> naturally_aligned p ->
  image_permits a p -> image_permits d p ->
  exists b, partner c a = Some b /\ image_permits b p.
Proof.
  intros Hc Hwa Hwd Hd Hn Hpa Hpd.
  assert (fmt_eq (pixel_format a) (pixel_format d) = true) as Hf.
  { destruct Hpa as [? _], Hpd as [? _]. eapply format_eq_trans; [done|by apply format_eq_sym]. }
  pose proof (accumulate_image_spec a d p Hwa Hwd Hf) as Hspec.
  destruct (AccumulateConstraintImageFormat a d) as [b|] eqn:E; [|tauto].
  exists b. split; [|by apply Hspec]. unfold partner.
  pose proof (take_format_spec (pixel_format a) c) as Ts.
  destruct (take_format _ c) as [[d' c']|]; simpl; [|by rewrite Ts in Hf].
  destruct Ts as [Hd' Hp]. replace d' with d; [done|].
  apply (distinct_unique c); [done..|rewrite Hp; left|].
  eapply format_eq_trans; [apply format_eq_sym, Hf|done].
Qed.

(** Two non-empty lists of entries. *)
Lemma accumulate_images_spec (acc c : list ImageFormatConstraints) :
  distinct_formats acc -> distinct_formats c -> Forall wf_image acc -> Forall wf_image c ->
  match AccumulateConstraintImageFormats acc c with
  | Some l => l <> [] /\ distinct_formats l /\ Forall wf_image l /\ forall p,
      ((exists i, i ∈ l /\ image_permits i p) ->
       (exists i, i ∈ acc /\ image_permits i p) /\ (exists i, i ∈ c /\ image_permits i p)) /\
      (naturally_aligned p ->
       (exists i, i ∈ acc /\ image_permits i p) -> (exists i, i ∈ c /\ image_permits i p) ->
       exists i, i ∈ l /\ image_permits i p)
  | None => forall p, naturally_aligned p ->
      ~ ((exists i, i ∈ acc /\ image_permits i p) /\ (exists i, i ∈ c /\ image_permits i p))
  end.
Proof.
  intros Ha Hc Hwa Hwc. unfold AccumulateConstraintImageFormats.
  pose proof (merge_formats_walk acc c Ha Hc) as Hw. set (l := retain _ acc c) in *. clearbody l.
  assert (forall p, naturally_aligned p -> (exists i, i ∈ acc /\ image_permits i p) ->
    (exists i, i ∈ c /\ image_permits i p) -> exists i, i ∈ l /\ image_permits i p) as Hcompl.
  { intros p Hn (a & Hina & Hpa) (d & Hind & Hpd). rewrite Forall_forall in Hwa, Hwc.
    destruct (partner_complete c a d p) as (b & Hb & Hpb); [auto..|].
    exists b. split; [|done]. rewrite Hw, list_elem_of_omap. eauto. }
  assert (forall b, b ∈ l -> exists a, a ∈ acc /\ partner c a = Some b) as Hb.
  { intros b. by rewrite Hw, list_elem_of_omap. }
  destruct l as [|x l]; simpl.
  { intros p Hn [H1 H2]. destruct (Hcompl p Hn H1 H2) as (? & []%elem_of_nil & _). }
  split_and!; [done| | |intros p; split; [|auto]].
  - rewrite Hw. apply distinct_omap; [apply partner_format|done].
  - apply Forall_forall. intros b Hin. destruct (Hb b Hin) as (a & Hina & Hpart).
    rewrite Forall_forall in Hwa.
    by destruct (partner_permits c a b (mkImagePoint (pixel_format a) 0 0 0 0 0 0 0)
                   (Hwa a Hina) Hwc Hpart).
  - intros (b & Hin & Hpb). destruct (Hb b Hin) as (a & Hina & Hpart).
    rewrite Forall_forall in Hwa.
    destruct (partner_permits c a b p (Hwa a Hina) Hwc Hpart) as (_ & d & ? & _ & _ & Hs).
    destruct (Hs Hpb). split; eauto.
Qed.

End image_meet.
