(* ===== verification/SysmemCost.v ===== *)
(** * SysmemCost: which pixel format is preferred

    Model of [src/devices/sysmem/drivers/sysmem/usage_pixel_format_cost.cc] and of the tie-breaker
    of [logical_buffer_collection.cc]. A cost is a [double]; every cost of the tables is a sum of
    small integers, exact in a [double], and the default is the largest finite [double], itself an
    integer, so costs are integers here and compare as the source's do. The platform and format
    constants come from headers outside the sources ([CostConstants]). *)
From Stdlib Require Import ZArith Lia.
From stdpp Require Import prelude.
From S2P Require Import Prelude SysmemTypes SysmemSanitize.

Local Open Scope Z_scope.

Class CostConstants := {
  PDEV_VID_AMLOGIC : Z;
  PDEV_PID_AMLOGIC_S912 : Z;
  PDEV_PID_AMLOGIC_S905D2 : Z;
  PDEV_PID_AMLOGIC_T931 : Z;
  PDEV_PID_AMLOGIC_A311D : Z;
  PixelFormatType_kBgra32 : Z;
  PixelFormatType_kR8G8B8A8 : Z;
  PixelFormatType_kNv12 : Z;
  kFormatModifierArmAfbc16X16SplitBlockSparseYuvTeTiledHeader : Z;
  kFormatModifierArmAfbc16X16Te : Z;
  kFormatModifierArmAfbc32X8Te : Z;
  kFormatModifierArmAfbc16X16SplitBlockSparseYuvTe : Z;
  kFormatModifierArmAfbc16X16SplitBlockSparseYuvTiledHeader : Z;
  kFormatModifierArmAfbc16X16SplitBlockSparseYuv : Z;
  kFormatModifierArmAfbc16X16YuvTiledHeader : Z;
  kFormatModifierArmAfbc16X16 : Z;
  kFormatModifierArmAfbc32X8 : Z;
  kFormatModifierArmLinearTe : Z;
  kFormatModifierArmYuvBit : Z;
  kFormatModifierArmTiledHeaderBit : Z;
  kFormatModifierArmSparseBit : Z;
  kFormatModifierArmTeBit : Z;
  kFormatModifierIntelI915YfTiledCcs : Z;
  kFormatModifierIntelI915YTiledCcs : Z;
  kFormatModifierIntelI915YfTiled : Z;
  kFormatModifierIntelI915YTiled : Z;
  kFormatModifierIntelI915XTiled : Z
}.

Inductive Platform :=
  | kPlatform_None
  | kPlatform_Generic
  | kPlatform_Arm_Mali
  | kPlatform_Amlogic_Generic
  | kPlatform_Amlogic_S912
  | kPlatform_Amlogic_S905D2
  | kPlatform_Amlogic_T931
  | kPlatform_Amlogic_A311D.

Record UsagePixelFormatCostEntry := mkCostEntry {
  entry_pixel_format : Wire.PixelFormat;
  required_buffer_usage_bits : Wire.BufferUsage;
  cost : Z
}.

Record PlatformCostsEntry := mkPlatformCosts {
  platform : Platform;
  next_platform : Platform;
  costs : list UsagePixelFormatCostEntry
}.

Definition MakeVidPidKey (vid pid : Z) : Z := Z.lor (u64 (Z.shiftl vid 32)) pid.

(** [std::numeric_limits<double>::max()] *)
Definition kDefaultCost : Z := (2 ^ 53 - 1) * 2 ^ 971.

Section cost.
Context `{fidl : Sysmem2} `{lib : !ImageFormatLib} `{consts : CostConstants}.

Definition kPlatformTranslation : list (Z * Platform) :=
  [(MakeVidPidKey PDEV_VID_AMLOGIC PDEV_PID_AMLOGIC_S912, kPlatform_Amlogic_S912);
   (MakeVidPidKey PDEV_VID_AMLOGIC PDEV_PID_AMLOGIC_S905D2, kPlatform_Amlogic_S905D2);
   (MakeVidPidKey PDEV_VID_AMLOGIC PDEV_PID_AMLOGIC_T931, kPlatform_Amlogic_T931);
   (MakeVidPidKey PDEV_VID_AMLOGIC PDEV_PID_AMLOGIC_A311D, kPlatform_Amlogic_A311D)].

(** The two entries the routine appends. *)
Definition AddRgbaPixelFormat (format_modifier cost : Z) : list UsagePixelFormatCostEntry :=
  map (fun format =>
    mkCostEntry (Wire.mkPixelFormat (Some format) (Some format_modifier))
      (Wire.mkUsage (Some 0) (Some 0) (Some 0) (Some 0) (Some 0)) cost)
    [PixelFormatType_kBgra32; PixelFormatType_kR8G8B8A8].

(** The cost of an AFBC modifier, by its feature bits. *)
Definition mali_cost (modifier : Z) : Z :=
  let kSplitCost := 10 in
  let kNonYuvCost := 100 in
  let kNonTiledHeaderCost := 500 in
  let kNonSparseCost := 1000 in
  let kNonTeCost := 2000 in
  let kNon16X16Cost := 4000 in
  let kAfbcTypeMask := 15 in
  let has bit := negb (Z.land modifier bit =? 0) in
  (if negb (has kFormatModifierArmYuvBit) then kNonYuvCost else 0) +
  (if negb (has kFormatModifierArmTiledHeaderBit) then kNonTiledHeaderCost else 0) +
  (if has kFormatModifierArmTiledHeaderBit then kSplitCost else 0) +
  (if negb (has kFormatModifierArmSparseBit) then kNonSparseCost else 0) +
  (if negb (has kFormatModifierArmTeBit) then kNonTeCost else 0) +
  (if negb (Z.land modifier kAfbcTypeMask =? Z.land kFormatModifierArmAfbc16X16 kAfbcTypeMask)
   then kNon16X16Cost else 0).

Definition kArm_Mali_Cost_Entries : list UsagePixelFormatCostEntry :=
  concat (map (fun modifier => AddRgbaPixelFormat modifier (mali_cost modifier))
    [kFormatModifierArmAfbc16X16SplitBlockSparseYuvTeTiledHeader;
     kFormatModifierArmAfbc16X16Te;
     kFormatModifierArmAfbc32X8Te;
     kFormatModifierArmAfbc16X16SplitBlockSparseYuvTe;
     kFormatModifierArmAfbc16X16SplitBlockSparseYuvTiledHeader;
     kFormatModifierArmAfbc16X16SplitBlockSparseYuv;
     kFormatModifierArmAfbc16X16YuvTiledHeader;
     kFormatModifierArmAfbc16X16;
     kFormatModifierArmAfbc32X8]) ++
  AddRgbaPixelFormat kFormatModifierArmLinearTe 30000.

Definition kArm_Mali_Costs : PlatformCostsEntry :=
  mkPlatformCosts kPlatform_Arm_Mali kPlatform_Generic kArm_Mali_Cost_Entries.

Definition kAmlogic_Generic_Cost_Entries : list UsagePixelFormatCostEntry :=
  [mkCostEntry (Wire.mkPixelFormat (Some PixelFormatType_kNv12) None)
     (Wire.mkUsage (Some 0) (Some 0) (Some 0) (Some 0) (Some kVideoUsageHwDecoder)) 100].

Definition kGeneric_Cost_Entries : list UsagePixelFormatCostEntry :=
  AddRgbaPixelFormat kFormatModifierIntelI915YfTiledCcs 500 ++
  AddRgbaPixelFormat kFormatModifierIntelI915YTiledCcs 600 ++
  AddRgbaPixelFormat kFormatModifierIntelI915YfTiled 1000 ++
  AddRgbaPixelFormat kFormatModifierIntelI915YTiled 2000 ++
  AddRgbaPixelFormat kFormatModifierIntelI915XTiled 3000.

Definition kAmlogic_Generic_Costs : PlatformCostsEntry :=
  mkPlatformCosts kPlatform_Amlogic_Generic kPlatform_Arm_Mali kAmlogic_Generic_Cost_Entries.
Definition kAmlogic_S912_Costs : PlatformCostsEntry :=
  mkPlatformCosts kPlatform_Amlogic_S912 kPlatform_Amlogic_Generic [].
Definition kAmlogic_S905D2_Costs : PlatformCostsEntry :=
  mkPlatformCosts kPlatform_Amlogic_S905D2 kPlatform_Amlogic_Generic [].
Definition kAmlogic_T931_Costs : PlatformCostsEntry :=
  mkPlatformCosts kPlatform_Amlogic_T931 kPlatform_Amlogic_Generic [].
Definition kAmlogic_A311D_Costs : PlatformCostsEntry :=
  mkPlatformCosts kPlatform_Amlogic_A311D kPlatform_Amlogic_Generic [].
Definition kGeneric_Costs : PlatformCostsEntry :=
  mkPlatformCosts kPlatform_Generic kPlatform_None kGeneric_Cost_Entries.

(** [kPlatformCosts.find] *)
Definition kPlatformCosts (p : Platform) : option PlatformCostsEntry :=
  match p with
  | kPlatform_None => None
  | kPlatform_Generic => Some kGeneric_Costs
  | kPlatform_Arm_Mali => Some kArm_Mali_Costs
  | kPlatform_Amlogic_Generic => Some kAmlogic_Generic_Costs
  | kPlatform_Amlogic_S912 => Some kAmlogic_S912_Costs
  | kPlatform_Amlogic_S905D2 => Some kAmlogic_S905D2_Costs
  | kPlatform_Amlogic_T931 => Some kAmlogic_T931_Costs
  | kPlatform_Amlogic_A311D => Some kAmlogic_A311D_Costs
  end.

Definition FindPlatform (pdev_device_info_vid pdev_device_info_pid : Z) : Platform :=
  match list_find (fun e => e.1 = MakeVidPidKey pdev_device_info_vid pdev_device_info_pid)
          kPlatformTranslation with
  | Some (_, (_, p)) => p
  | None => kPlatform_Generic
  end.

Definition FindPlatformCosts (p : Platform) : option PlatformCostsEntry :=
  match p with
  | kPlatform_None => None
  | _ => kPlatformCosts p
  end.

Definition HasAllRequiredBits (a r : Z) : bool := Z.land r a =? r.

Definition HasAllRequiredUsageBits (a r : Wire.BufferUsage) : bool :=
  let bits (f : Wire.BufferUsage -> option Z) u := default 0 (f u) in
  HasAllRequiredBits (bits Wire.cpu a) (bits Wire.cpu r) &&
  HasAllRequiredBits (bits Wire.vulkan a) (bits Wire.vulkan r) &&
  HasAllRequiredBits (bits Wire.display a) (bits Wire.display r) &&
  HasAllRequiredBits (bits Wire.video a) (bits Wire.video r).

(** The loop over the bits [i, i + n). *)
Fixpoint count_bits (set_in_both : Z) (n : nat) (i count : Z) : Z :=
  match n with
  | O => count
  | S n' =>
      count_bits set_in_both n' (i + 1)
        (if negb (Z.land set_in_both (Z.shiftl 1 i) =? 0) then count + 1 else count)
  end.

Definition SharedBitsCount (a b : Z) : Z := count_bits (Z.land a b) 32 0 0.

Definition SharedUsageBitsCount (a b : Wire.BufferUsage) : Z :=
  let bits (f : Wire.BufferUsage -> option Z) u := default 0 (f u) in
  SharedBitsCount (bits Wire.cpu a) (bits Wire.cpu b) +
  SharedBitsCount (bits Wire.vulkan a) (bits Wire.vulkan b) +
  SharedBitsCount (bits Wire.display a) (bits Wire.display b) +
  SharedBitsCount (bits Wire.video a) (bits Wire.video b).

(** [query]: the pixel format of the entry of [constraints] the index names. *)
Definition IsBetterMatch (usage : BufferUsage) (query : PixelFormat)
    (a : UsagePixelFormatCostEntry) (b : option UsagePixelFormatCostEntry) : bool :=
  let usage := usage_to_wire usage in
  if negb (ImageFormatIsTableEqual (entry_pixel_format a) (pixel_format_to_wire query)) then false
  else if negb (HasAllRequiredUsageBits usage (required_buffer_usage_bits a)) then false
  else match b with
  | None => true
  | Some b =>
      SharedUsageBitsCount usage (required_buffer_usage_bits b) <?
      SharedUsageBitsCount usage (required_buffer_usage_bits a)
  end.

(** The inner loop: the best match among [entries] and the one found so far. *)
Definition best_match (usage : BufferUsage) (query : PixelFormat)
    (best : option UsagePixelFormatCostEntry) (entries : list UsagePixelFormatCostEntry)
    : option UsagePixelFormatCostEntry :=
  foldl (fun best entry => if IsBetterMatch usage query entry best then Some entry else best)
    best entries.

(** [while (platform_costs)]; [None] if [fuel] chained platforms are not enough. *)
Fixpoint match_platforms (fuel : nat) (usage : BufferUsage) (query : PixelFormat)
    (platform_costs : option PlatformCostsEntry) (best : option UsagePixelFormatCostEntry)
    : option (option UsagePixelFormatCostEntry) :=
  match platform_costs with
  | None => Some best
  | Some pc =>
      match fuel with
      | O => None
      | S fuel' =>
          match_platforms fuel' usage query (FindPlatformCosts (next_platform pc))
            (best_match usage query best (costs pc))
      end
  end.

(** There are seven platforms with costs. *)
Definition platform_count : nat := 7.

Definition GetCostInternal (usage : BufferUsage) (query : PixelFormat) (p : Platform) : Z :=
  match FindPlatformCosts p with
  | None => kDefaultCost
  | Some pc =>
      match match_platforms platform_count usage query (Some pc) None with
      | Some (Some entry) => cost entry
      | _ => kDefaultCost
      end
  end.

Definition GetCost (vid pid : Z) (usage : BufferUsage) (query : PixelFormat) : Z :=
  match FindPlatform vid pid with
  | kPlatform_None => kDefaultCost
  | p => GetCostInternal usage query p
  end.

Definition Compare (vid pid : Z) (usage : BufferUsage) (a b : PixelFormat) : Z :=
  let cost_a := GetCost vid pid usage a in
  let cost_b := GetCost vid pid usage b in
  if cost_a <? cost_b then -1 else if cost_b <? cost_a then 1 else 0.

(** [static_cast<int32_t>] *)
Definition i32 (z : Z) : Z := (z + 2 ^ 31) mod 2 ^ 32 - 2 ^ 31.

(** [a - b] at [int32_t]; its overflow, undefined in C++, wraps here. *)
Definition clamp_difference (a b : Z) : Z :=
  let raw_result := i32 (a - b) in
  if 0 <? raw_result then 1 else if raw_result <? 0 then -1 else raw_result.

Definition CompareImageFormatConstraintsTieBreaker (a b : ImageFormatConstraints) : Z :=
  let result := clamp_difference (i32 (pixel_format_type (pixel_format a)))
                  (i32 (pixel_format_type (pixel_format b))) in
  if negb (result =? 0) then result
  else clamp_difference (i32 (format_modifier_value (pixel_format a)))
         (i32 (format_modifier_value (pixel_format b))).

Definition CompareImageFormatConstraintsByIndex (vid pid : Z) (usage : BufferUsage)
    (a b : ImageFormatConstraints) : Z :=
  let cost_compare := Compare vid pid usage (pixel_format a) (pixel_format b) in
  if negb (cost_compare =? 0) then cost_compare
  else CompareImageFormatConstraintsTieBreaker a b.

End cost.

(** ** The closest match *)

(** Keeping the better of two while walking a list finds the first of the best. *)
Section first_best.
Context {E : Type} (ap : E -> bool) (cl : E -> Z).

Definition first_best (l : list E) (e : E) : Prop :=
  exists l1 l2, l = l1 ++ e :: l2 /\ ap e = true /\
    (forall d, d ∈ l1 -> ap d = true -> cl d < cl e) /\
    (forall d, d ∈ l2 -> ap d = true -> cl d <= cl e).

Definition better (a : E) (b : option E) : bool :=
  ap a && match b with None => true | Some b => cl b <? cl a end.

Lemma foldl_first_best l :
  match foldl (fun best entry => if better entry best then Some entry else best) None l with
  | Some e => first_best l e
  | None => forall d, d ∈ l -> ap d = false
  end.
Proof.
  induction l as [|x l IH] using rev_ind; [by intros d ?%elem_of_nil|].
  rewrite foldl_app. cbn [foldl]. unfold better at 1.
  destruct (foldl _ None l) as [e|].
  - destruct IH as (l1 & l2 & -> & He & H1 & H2).
    destruct (ap x) eqn:Ex; simpl.
    + destruct (Z.ltb_spec (cl e) (cl x)).
      * exists (l1 ++ e :: l2), []. split_and!; [done..| |by intros d ?%elem_of_nil].
        intros d. rewrite elem_of_app, elem_of_cons. intros [Hd|[->|Hd]] Hap; [|done|].
        -- specialize (H1 d Hd Hap). lia.
        -- specialize (H2 d Hd Hap). lia.
      * exists l1, (l2 ++ [x]). rewrite <- app_assoc. split_and!; [done..|].
        intros d. rewrite elem_of_app, list_elem_of_singleton. intros [?| ->]; auto.
    + exists l1, (l2 ++ [x]). rewrite <- app_assoc. split_and!; [done..|].
      intros d. rewrite elem_of_app, list_elem_of_singleton. intros [?| ->]; [auto|congruence].
  - destruct (ap x) eqn:Ex; simpl.
    + exists l, []. split_and!; [done..| |by intros d ?%elem_of_nil].
      intros d Hd Hap. rewrite (IH d Hd) in Hap. done.
    + intros d. rewrite elem_of_app, list_elem_of_singleton. intros [?| ->]; auto.
Qed.
End first_best.

Section cost_facts.
Context `{fidl : Sysmem2} `{lib : !ImageFormatLib} `{consts : CostConstants}.
Implicit Types (e : UsagePixelFormatCostEntry) (u : BufferUsage) (q : PixelFormat).

(** An entry applies to a query: its format is the query's and its usage bits are all used. *)
Definition applies u q e : bool :=
  ImageFormatIsTableEqual (entry_pixel_format e) (pixel_format_to_wire q) &&
  HasAllRequiredUsageBits (usage_to_wire u) (required_buffer_usage_bits e).

Definition closeness u e : Z :=
  SharedUsageBitsCount (usage_to_wire u) (required_buffer_usage_bits e).

(** [e] is the first of the closest entries of [l] that apply. *)
Definition closest u q : list UsagePixelFormatCostEntry -> UsagePixelFormatCostEntry -> Prop :=
  first_best (applies u q) (closeness u).

Lemma IsBetterMatch_spec u q a b :
  IsBetterMatch u q a b = better (applies u q) (closeness u) a b.
Proof.
  unfold IsBetterMatch, better, applies, closeness. cbv zeta.
  destruct (ImageFormatIsTableEqual _ _); cbn [negb andb]; [|reflexivity].
  destruct (HasAllRequiredUsageBits _ _); cbn [negb]; reflexivity.
Qed.

Lemma best_match_spec u q l :
  match best_match u q None l with
  | Some e => closest u q l e
  | None => forall d, d ∈ l -> applies u q d = false
  end.
Proof.
  pose proof (foldl_first_best (applies u q) (closeness u) l) as H.
  assert (best_match u q None l =
    foldl (fun best entry => if better (applies u q) (closeness u) entry best then Some entry
                             else best) None l) as ->; [|exact H].
  unfold best_match. clear H. generalize (@None UsagePixelFormatCostEntry).
  induction l as [|x l IH]; intros o; cbn [foldl]; [reflexivity|].
  rewrite IsBetterMatch_spec. apply IH.
Qed.

(** The overall effective list of a platform: its own entries, then those it chains into. *)
Definition effective_entries (p : Platform) : list UsagePixelFormatCostEntry :=
  let mali := kArm_Mali_Cost_Entries ++ kGeneric_Cost_Entries in
  match p with
  | kPlatform_None => []
  | kPlatform_Generic => kGeneric_Cost_Entries
  | kPlatform_Arm_Mali => mali
  | _ => kAmlogic_Generic_Cost_Entries ++ mali
  end.

Lemma match_platforms_effective u q p :
  match FindPlatformCosts p with
  | Some pc => match_platforms platform_count u q (Some pc) None =
                 Some (best_match u q None (effective_entries p))
  | None => effective_entries p = []
  end.
Proof.
  destruct p; [done|..]; unfold best_match, effective_entries, platform_count;
    cbn [FindPlatformCosts kPlatformCosts match_platforms next_platform costs kGeneric_Costs
      kArm_Mali_Costs kAmlogic_Generic_Costs kAmlogic_S912_Costs kAmlogic_S905D2_Costs
      kAmlogic_T931_Costs kAmlogic_A311D_Costs];
    unfold best_match; by rewrite ?foldl_app.
Qed.

Lemma GetCost_unfold vid pid u q :
  GetCost vid pid u q = GetCostInternal u q (FindPlatform vid pid).
Proof. unfold GetCost. by destruct (FindPlatform vid pid). Qed.

(** The cost of a pixel format is that of the closest applicable entry: [GetCost] walks the
    chain of platforms to its end and returns the cost of the entry that shares most usage bits
    with the query, the first such in the platform's effective list; without an applicable entry
    it returns the default cost. *)
Theorem get_cost_closest vid pid u q :
  let l := effective_entries (FindPlatform vid pid) in
  (exists e, closest u q l e /\ GetCost vid pid u q = cost e) \/
  ((forall e, e ∈ l -> applies u q e = false) /\ GetCost vid pid u q = kDefaultCost).
Proof.
  cbv zeta. rewrite GetCost_unfold. pose proof (match_platforms_effective u q (FindPlatform vid pid)) as H.
  unfold GetCostInternal. destruct (FindPlatformCosts _) as [pc|].
  - rewrite H. pose proof (best_match_spec u q (effective_entries (FindPlatform vid pid))) as Hb.
    destruct (best_match u q None _) as [e|]; [left|right]; eauto.
  - right. rewrite H. split; [by intros e ?%elem_of_nil|done].
Qed.

(** Counting shared bits is counting the positions set in both words. *)
Lemma count_bits_spec x n : forall i c, 0 <= i ->
  count_bits x n i c = c + Z.of_nat (length (filter (fun k => Z.testbit x k = true) (seqZ i (Z.of_nat n)))).
Proof.
  induction n as [|n IH]; intros i c Hi; [simpl; lia|].
  rewrite seqZ_cons by lia. cbn [count_bits]. rewrite IH by lia.
  replace (Z.succ i) with (i + 1) by lia. replace (Z.pred (Z.of_nat (S n))) with (Z.of_nat n) by lia.
  rewrite filter_cons.
  assert (Z.land x (Z.shiftl 1 i) = 0 <-> Z.testbit x i = false) as Hbit.
  { split; intros H.
    - apply not_true_is_false. intros Ht. apply (f_equal (fun z => Z.testbit z i)) in H.
      rewrite Z.land_spec, Z.bits_0, Z.shiftl_spec, Z.sub_diag, Ht in H by lia. done.
    - apply Z.bits_inj'. intros k Hk. rewrite Z.land_spec, Z.bits_0.
      destruct (decide (k = i)) as [->|]; [by rewrite H|].
      rewrite Z.shiftl_1_l, Z.pow2_bits_false by lia. apply andb_false_r. }
  destruct (Z.eqb_spec (Z.land x (Z.shiftl 1 i)) 0) as [E|E]; simpl.
  - rewrite decide_False; [lia|]. apply Hbit in E. by rewrite E.
  - rewrite decide_True; [simpl; lia|]. apply not_false_is_true. tauto.
Qed.

Lemma SharedBitsCount_spec a b :
  SharedBitsCount a b =
  Z.of_nat (length (filter (fun k => Z.testbit a k && Z.testbit b k = true) (seqZ 0 32))).
Proof.
  unfold SharedBitsCount. rewrite count_bits_spec by lia. rewrite Z.add_0_l.
  do 2 f_equal. apply list_filter_iff. intros k. by rewrite Z.land_spec.
Qed.

(** [Compare] orders formats by cost. *)
Lemma Compare_spec vid pid u a b :
  Compare vid pid u a b =
  match GetCost vid pid u a ?= GetCost vid pid u b with Lt => -1 | Eq => 0 | Gt => 1 end.
Proof.
  unfold Compare. destruct (Z.compare_spec (GetCost vid pid u a) (GetCost vid pid u b)) as [E|E|E].
  - rewrite E, Z.ltb_irrefl. done.
  - apply Z.ltb_lt in E. by rewrite E.
  - assert (GetCost vid pid u a <? GetCost vid pid u b = false) as -> by (apply Z.ltb_ge; lia).
    apply Z.ltb_lt in E. by rewrite E.
Qed.

(** A format that compares less never costs more. *)
Lemma ByIndex_cost vid pid u a b :
  (CompareImageFormatConstraintsByIndex vid pid u a b < 0 ->
   GetCost vid pid u (pixel_format a) <= GetCost vid pid u (pixel_format b)) /\
  (0 <= CompareImageFormatConstraintsByIndex vid pid u a b ->
   GetCost vid pid u (pixel_format b) <= GetCost vid pid u (pixel_format a)).
Proof.
  unfold CompareImageFormatConstraintsByIndex. rewrite Compare_spec.
  destruct (Z.compare_spec (GetCost vid pid u (pixel_format a))
              (GetCost vid pid u (pixel_format b))); simpl; lia.
Qed.

End cost_facts.
