(* ===== verification/SysmemExample.v ===== *)
(** * SysmemExample: one instance of the sysmem interfaces

    A concrete [Sysmem2] and [ImageFormatLib] that satisfy [ImageFormatLibOk], and some tables over
    them. They show that the laws the theorems assume can hold, and are what the theorems are
    evaluated on. *)
From Stdlib Require Import ZArith Lia.
From stdpp Require Import prelude.
From S2P Require Import Prelude SysmemTypes SysmemSanitize SysmemMeet SysmemCost.

Local Open Scope Z_scope.

Definition ex_fidl : Sysmem2 := {|
  kNoneUsage := 1;
  kCpuUsageWrite := 4; kCpuUsageWriteOften := 8;
  kVulkanUsageTransferDst := 2; kVulkanUsageStorage := 8;
  kVideoUsageHwDecoder := 1; kVideoUsageHwDecoderInternal := 8;
  kVideoUsageDecryptorOutput := 4; kVideoUsageHwEncoder := 2;
  HeapType_kSystemRam := 0; HeapType_kAmlogicSecure := 65537; HeapType_kAmlogicSecureVdec := 65538;
  PixelFormatType_kInvalid := 0;
  ColorSpaceType_kInvalid := 0; ColorSpaceType_kSrgb := 1;
  ColorSpaceType_kRec601Ntsc := 2; ColorSpaceType_kRec601NtscFullRange := 3;
  ColorSpaceType_kRec601Pal := 4; ColorSpaceType_kRec601PalFullRange := 5;
  ColorSpaceType_kRec709 := 6; ColorSpaceType_kRec2020 := 7; ColorSpaceType_kRec2100 := 8;
  ColorSpaceType_kPassThrough := 9;
  kMaxCountBufferCollectionInfoBuffers := 64;
  zx_system_get_page_size := 4096;
  ColorSpace := option Z;
  ColorSpace_has_type := fun cs => match cs with Some _ => true | None => false end;
  ColorSpace_type := default 0;
  ColorSpace_set_type := Some
|}.

Definition ex_color_supported (cs : @ColorSpace ex_fidl) : bool :=
  match cs with Some t => (1 <=? t) && (t <=? 9) | None => false end.

Definition ex_lib : @ImageFormatLib ex_fidl := {|
  ImageFormatIsSupported := fun pf => pixel_format_type pf <? 200;
  ImageFormatIsTableEqual := fun a b =>
    (default 0 (Wire.pixel_format_type a) =? default 0 (Wire.pixel_format_type b)) &&
    (default 0 (Wire.format_modifier_value a) =? default 0 (Wire.format_modifier_value b));
  ImageFormatIsSupportedColorSpaceForPixelFormat := 
    fun (cs : @ColorSpace ex_fidl) _ => ex_color_supported cs;
  ImageFormatStrideBytesPerWidthPixel := fun _ => 4;
  ImageFormatCodedWidthMinDivisor := fun _ => 2;
  ImageFormatCodedHeightMinDivisor := fun _ => 2;
  ImageFormatSampleAlignment := fun _ => 4;
  ImageFormatCompatibleWithProtectedMemory := fun pf => format_modifier_value pf =? 0;
  ImageFormatImageSize := fun _ _ h stride => stride * h
|}.

Definition ex_consts : CostConstants := {|
  PDEV_VID_AMLOGIC := 5; PDEV_PID_AMLOGIC_S912 := 1; PDEV_PID_AMLOGIC_S905D2 := 2;
  PDEV_PID_AMLOGIC_T931 := 3; PDEV_PID_AMLOGIC_A311D := 4;
  PixelFormatType_kBgra32 := 101; PixelFormatType_kR8G8B8A8 := 1; PixelFormatType_kNv12 := 102;
  kFormatModifierArmAfbc16X16SplitBlockSparseYuvTeTiledHeader := 15729;
  kFormatModifierArmAfbc16X16Te := 4097; kFormatModifierArmAfbc32X8Te := 4098;
  kFormatModifierArmAfbc16X16SplitBlockSparseYuvTe := 4209;
  kFormatModifierArmAfbc16X16SplitBlockSparseYuvTiledHeader := 8305;
  kFormatModifierArmAfbc16X16SplitBlockSparseYuv := 113;
  kFormatModifierArmAfbc16X16YuvTiledHeader := 8209;
  kFormatModifierArmAfbc16X16 := 1; kFormatModifierArmAfbc32X8 := 2;
  kFormatModifierArmLinearTe := 4096;
  kFormatModifierArmYuvBit := 16; kFormatModifierArmTiledHeaderBit := 8192;
  kFormatModifierArmSparseBit := 64; kFormatModifierArmTeBit := 4096;
  kFormatModifierIntelI915YfTiledCcs := 70001; kFormatModifierIntelI915YTiledCcs := 70002;
  kFormatModifierIntelI915YfTiled := 70003; kFormatModifierIntelI915YTiled := 70004;
  kFormatModifierIntelI915XTiled := 70005
|}.

Lemma pow2_2 : is_pow2 2.
Proof. by exists 1. Qed.

Lemma pow2_4 : is_pow2 4.
Proof. by exists 2. Qed.

Lemma ex_ok : @ImageFormatLibOk ex_fidl ex_lib.
Proof.
  split; unfold ImageFormatIsPixelFormatEqual; simpl; auto using pow2_2, pow2_4.
  - intros a. by rewrite !Z.eqb_refl.
  - intros a b. rewrite !andb_true_iff, !Z.eqb_eq. naive_solver.
  - intros a b c. rewrite !andb_true_iff, !Z.eqb_eq. naive_solver congruence.
  - intros [t|] _; simpl; [|done]. rewrite andb_true_iff, !Z.leb_le. intros. split; [done|lia].
Qed.

(** A participant that reads with the CPU, and a display, each with one image format. *)
Definition ex_image (pf : Z) (colors : list Z) (w_min w_max : Z)
    : @Wire.ImageFormatConstraints ex_fidl :=
  @Wire.mkImage ex_fidl (Some (Wire.mkPixelFormat (Some pf) (Some 0))) (Some (Some <$> colors))
    (Some w_min) (Some w_max) (Some 16) None None None None None None None None None None
    None None None None None None.

Definition ex_participant (u : Wire.BufferUsage) (camping : Z)
    (images : list (@Wire.ImageFormatConstraints ex_fidl)) : @Wire.BufferCollectionConstraints ex_fidl :=
  @Wire.mkConstraints ex_fidl (Some u) (Some camping) None None None None None (Some images)
    None None.

Definition ex_cpu : Wire.BufferUsage := Wire.mkUsage None (Some 1) None None None.
Definition ex_display : Wire.BufferUsage := Wire.mkUsage None None None (Some 1) None.

Definition ex_participants : list (@Wire.BufferCollectionConstraints ex_fidl) :=
  [ex_participant ex_cpu 2 [ex_image 101 [6; 1] 16 1024; ex_image 102 [1] 16 1024];
   ex_participant ex_display 1 [ex_image 102 [1] 32 4096; ex_image 101 [2; 6; 1] 32 4096]].
