(* ===== verification/SysmemCombine.v ===== *)
(** * SysmemCombine: what [CombineConstraints] returns

    The theorems about sanitising and combining the constraints of all participants
    ([SysmemSanitize], [SysmemAccumulate]), in terms of the sets of permitted configurations of
    [SysmemMeet]: what the result permits, every participant permits; what all participants permit
    survives, one colour space being chosen per format; the fixed starting point is accepted. *)
From Stdlib Require Import ZArith Lia Znumtheory.
From stdpp Require Import prelude.
From S2P Require Import Prelude SysmemTypes SysmemSanitize SysmemAccumulate SysmemMeet.
From S2P Require Import SysmemExample.

Local Open Scope Z_scope.

Section combine.
Context `{fidl : Sysmem2} `{lib : !ImageFormatLib}.

(** A configuration: how many buffers, of which memory, with which image layout. *)
Record BufferPoint := mkPoint { pt_count : Z; pt_memory : MemoryPoint; pt_image : ImagePoint }.

Definition permits (c : BufferCollectionConstraints) (p : BufferPoint) : Prop :=
  min_buffer_count c <= pt_count p <= max_buffer_count c /\
  memory_permits (buffer_memory_constraints c) (pt_memory p) /\
  images_permit (image_format_constraints c) (pt_image p).

(** The constraints of a participant once sanitised. *)
Abbreviation sanitized w c :=
  (CheckSanitizeBufferCollectionConstraints kNotAggregated w = Done (Some c)).

Definition wf_constraints (c : BufferCollectionConstraints) : Prop :=
  distinct_formats (image_format_constraints c) /\
  Forall wf_image (image_format_constraints c).

(** *** Sanitised entries *)

Lemma sanitize_image_Some stage w c :
  CheckSanitizeImageFormatConstraints stage w = Some c ->
  c = image_defaults w /\ wf_image c /\ color_spaces c <> [] /\
  (forall cs, cs ∈ color_spaces c ->
     ImageFormatIsSupportedColorSpaceForPixelFormat cs (pixel_format c) = true) /\
  min_coded_width c <= max_coded_width c /\ min_coded_height c <= max_coded_height c /\
  min_bytes_per_row c <= max_bytes_per_row c.
Proof.
  unfold CheckSanitizeImageFormatConstraints. intros H. checks H.
  injection H as <-. split; [done|].
  repeat match goal with
  | H : negb (IsNonZeroPowerOf2 _) = false |- _ =>
      apply negb_false_iff, IsNonZeroPowerOf2_spec in H
  | H : (_ <? _) = false |- _ => apply Z.ltb_ge in H
  end.
  split; [done|]. split_and!; try done.
  - by destruct (color_spaces _).
  - intros cs Hcs. apply negb_false_iff in Hchk13. rewrite forallb_forall in Hchk13.
    by apply Hchk13, list_elem_of_In.
Qed.

Lemma sanitize_images_Forall2 stage ws cs :
  sanitize_images stage ws = Some cs <->
  Forall2 (fun w c => CheckSanitizeImageFormatConstraints stage w = Some c) ws cs.
Proof.
  revert cs. induction ws as [|w ws IH]; intros cs; simpl.
  - split; [intros [= <-]; constructor|by inversion 1].
  - rewrite bind_Some. setoid_rewrite bind_Some. setoid_rewrite IH. split.
    + intros (c & Hc & cs' & Hcs & [= <-]). by constructor.
    + inversion 1; subst. naive_solver.
Qed.

(** The checks before the stages part. *)
Lemma sanitize_common stage w c :
  CheckSanitizeBufferCollectionConstraints stage w = Done (Some c) ->
  exists images,
    sanitize_images stage (default [] (Wire.image_format_constraints w)) = Some images /\
    min_buffer_count c = default 0 (Wire.min_buffer_count w) /\
    max_buffer_count c = default UINT32_MAX (Wire.max_buffer_count w) /\
    min_buffer_count c <= max_buffer_count c /\
    CheckSanitizeBufferMemoryConstraints stage (usage c)
      (default Wire.empty_memory (Wire.buffer_memory_constraints w)) =
      Some (buffer_memory_constraints c) /\
    match stage with
    | kInitial => image_format_constraints c = images
    | kNotAggregated =>
        image_format_constraints c = images /\ distinct_formats images
    | kAggregated => select_color_spaces images = Done (image_format_constraints c)
    end.
Proof.
  unfold CheckSanitizeBufferCollectionConstraints.
  set (u0 := if IsEmpty w then _ else _). clearbody u0.
  destruct (CheckSanitizeBufferUsage stage u0) as [u|]; [|done].
  cbn [mbind option_bind]. unfold FIELD_DEFAULT.
  destruct (default UINT32_MAX (Wire.max_buffer_count w) =? 0) eqn:E0; [done|]. cbn [reject].
  destruct (default UINT32_MAX (Wire.max_buffer_count w) <? _) eqn:E1; [done|]. cbn [reject].
  destruct (CheckSanitizeBufferMemoryConstraints _ _ _) as [m|] eqn:Em; [|done].
  cbn [mbind option_bind].
  destruct (sanitize_images _ _) as [images|] eqn:Ei;
    repeat (match goal with |- context [reject ?b _] => destruct b end; [done|]; cbn [reject]);
    [|done].
  cbn [mbind option_bind image_format_constraints]. apply Z.ltb_ge in E1.
  destruct stage; cbn [image_format_constraints]; intros H.
  - injection H as <-. by exists images.
  - injection H as H. apply reject_Some in H as [Hd [= <-]]. by exists images.
  - apply exec_bind_Done in H as (images' & Hsel & [= <-]). by exists images.
Qed.

Lemma sanitized_wf w c : sanitized w c -> wf_constraints c.
Proof.
  intros (images & Hi & _ & _ & _ & _ & E & Hd)%sanitize_common.
  unfold wf_constraints. rewrite E. split; [done|].
  apply sanitize_images_Forall2 in Hi. clear E Hd.
  induction Hi as [|w' c' ws cs Hw _ IH]; constructor; [|done].
  by apply sanitize_image_Some in Hw as (_ & ? & _).
Qed.

(** *** Choosing a colour space *)

Context `{ok : !ImageFormatLibOk}.

Lemma ranking_of_valid t r :
  t <> ColorSpaceType_kInvalid -> ranking_at t = Done r -> r < UINT32_MAX.
Proof.
  unfold ranking_at. intros Ht. destruct (list_find _ _) as [[i [t' r']]|] eqn:E; [|done].
  intros [= <-]. apply list_find_Some in E as (Hl & <- & _). simpl in Ht.
  unfold kColorSpaceRanking in Hl.
  do 10 (destruct i as [|i]; [injection Hl as <- <-; done || (vm_compute; done)|]). done.
Qed.

Lemma ranking_of_invalid : ranking_at ColorSpaceType_kInvalid = Done UINT32_MAX.
Proof. unfold ranking_at, kColorSpaceRanking. simpl. by rewrite decide_True. Qed.

(** The result is the start value or one of the list, and ranks no worse than any of them. *)
Lemma best_color_space_spec l b t :
  (forall cs, cs ∈ l -> ColorSpace_has_type cs = true) ->
  best_color_space b l = Done t ->
  (t = b \/ exists cs, cs ∈ l /\ ColorSpace_type cs = t) /\
  (l <> [] -> forall b', b' = b \/ (exists cs, cs ∈ l /\ ColorSpace_type cs = b') ->
     exists k kt, ranking_at b' = Done k /\ ranking_at t = Done kt /\ kt <= k).
Proof.
  revert b. induction l as [|cs l IH]; intros b Hty; simpl.
  { intros [= <-]. split; [by left|done]. }
  rewrite (Hty cs) by left. intros (kb & Hkb & (kc & Hkc & H)%exec_bind_Done)%exec_bind_Done.
  set (n := if kc <? kb then _ else _) in H.
  assert (exists kn, ranking_at n = Done kn /\ kn <= kb /\ kn <= kc) as (kn & Hkn & ? & ?).
  { subst n. destruct (Z.ltb_spec kc kb); eexists; split_and!; eauto; lia. }
  destruct (IH n) as [Hin Hbest]; [intros d Hd; apply Hty; by right|done|]. split.
  - destruct Hin as [->|(d & Hd & <-)].
    + subst n. destruct (kc <? kb); [right; exists cs; split; [left|done]|by left].
    + right. exists d. split; [by right|done].
  - intros _. assert (exists kt, ranking_at t = Done kt /\ kt <= kn) as (kt & Hkt & ?).
    { destruct l as [|d l]; [injection H as <-; by exists kn|].
      destruct (Hbest ltac:(done) n) as (k & kt & Hk & ? & ?); [by left|].
      exists kt. split; [done|]. rewrite Hkn in Hk. injection Hk as <-. lia. }
    intros b' [->|(d & Hd & <-)]; [exists kb, kt; split_and!; [done..|lia]|].
    apply elem_of_cons in Hd as [->|Hd]; [exists kc, kt; split_and!; [done..|lia]|].
    apply Hbest; [by intros ->; apply elem_of_nil in Hd|]. right. by exists d.
Qed.

Lemma best_color_space_in l t :
  l <> [] -> (forall cs, cs ∈ l -> ColorSpace_has_type cs = true /\
                         ColorSpace_type cs <> ColorSpaceType_kInvalid) ->
  best_color_space ColorSpaceType_kInvalid l = Done t ->
  exists cs, cs ∈ l /\ ColorSpace_type cs = t.
Proof.
  intros Hne Hl H.
  destruct (best_color_space_spec l ColorSpaceType_kInvalid t) as [[->|?] Hbest];
    [naive_solver|done| |done].
  exfalso. destruct l as [|cs l]; [done|].
  destruct (Hbest Hne (ColorSpace_type cs)) as (k & kt & Hk & Hkt & Hle).
  { right. exists cs. split; [left|done]. }
  apply ranking_of_valid in Hk; [|apply Hl; left].
  rewrite ranking_of_invalid in Hkt. injection Hkt as <-. lia.
Qed.

Lemma select_color_spaces_Forall2 l l' :
  select_color_spaces l = Done l' ->
  Forall2 (fun c c' => exists t, best_color_space ColorSpaceType_kInvalid (color_spaces c) = Done t /\
                       c' = with_color_spaces c [ColorSpace_set_type t]) l l'.
Proof.
  revert l'. induction l as [|c l IH]; intros l'; simpl; [intros [= <-]; constructor|].
  intros (t & Ht & (r & Hr & [= <-])%exec_bind_Done)%exec_bind_Done. constructor; eauto.
Qed.

(** *** Accumulating a participant *)

Lemma images_permit_nonempty l p :
  l <> [] -> images_permit l p <-> exists i, i ∈ l /\ image_permits i p.
Proof. unfold images_permit. naive_solver. Qed.

Definition images_of (acc c : list ImageFormatConstraints) : option (list ImageFormatConstraints) :=
  if (length acc =? 0)%nat then Some c
  else if (length c =? 0)%nat then Some acc
  else AccumulateConstraintImageFormats acc c.

Lemma images_of_spec acc c :
  distinct_formats acc -> distinct_formats c -> Forall wf_image acc -> Forall wf_image c ->
  match images_of acc c with
  | Some l => distinct_formats l /\ Forall wf_image l /\ forall p,
      (images_permit l p -> images_permit acc p /\ images_permit c p) /\
      (naturally_aligned p -> images_permit acc p -> images_permit c p -> images_permit l p)
  | None => forall p, naturally_aligned p -> ~ (images_permit acc p /\ images_permit c p)
  end.
Proof.
  intros Ha Hc Hwa Hwc. unfold images_of.
  destruct acc as [|a acc]; simpl; [unfold images_permit; naive_solver|].
  destruct c as [|d c]; simpl; [unfold images_permit; naive_solver|].
  pose proof (accumulate_images_spec (a :: acc) (d :: c) Ha Hc Hwa Hwc) as Hs.
  destruct (AccumulateConstraintImageFormats _ _) as [l|].
  - destruct Hs as (Hne & Hdl & Hwl & Hp). split_and!; [done..|]. intros p.
    rewrite !images_permit_nonempty by done. apply Hp.
  - intros p. rewrite !images_permit_nonempty by done. apply Hs.
Qed.

Lemma accumulate_Some acc c r :
  AccumulateConstraintBufferCollection acc c = Some r ->
  AccumulateConstraintBufferMemory (buffer_memory_constraints acc)
    (buffer_memory_constraints c) = Some (buffer_memory_constraints r) /\
  images_of (image_format_constraints acc) (image_format_constraints c) =
    Some (image_format_constraints r) /\
  min_buffer_count r = Z.max (min_buffer_count acc) (min_buffer_count c) /\
  max_buffer_count r = Z.min (max_buffer_count acc) (max_buffer_count c).
Proof.
  unfold AccumulateConstraintBufferCollection. fold images_of.
  intros (m & Hm & (images & Hi & [= <-])%bind_Some)%bind_Some. done.
Qed.

Lemma accumulate_wf acc c r :
  wf_constraints acc -> wf_constraints c ->
  AccumulateConstraintBufferCollection acc c = Some r -> wf_constraints r.
Proof.
  intros [] [] (_ & Hi & _)%accumulate_Some.
  pose proof (images_of_spec (image_format_constraints acc) (image_format_constraints c)) as Hs.
  rewrite Hi in Hs. destruct Hs as (? & ? & _); done.
Qed.

Lemma accumulate_permits acc c r p :
  wf_constraints acc -> wf_constraints c ->
  AccumulateConstraintBufferCollection acc c = Some r ->
  (permits r p -> permits acc p /\ permits c p /\ 1 <= pt_size (pt_memory p)) /\
  (naturally_aligned (pt_image p) -> 1 <= pt_size (pt_memory p) ->
   permits acc p -> permits c p -> permits r p).
Proof.
  intros [Hda Hwa] [Hdc Hwc] (Hm & Hi & Hmin & Hmax)%accumulate_Some.
  pose proof (images_of_spec _ _ Hda Hdc Hwa Hwc) as Hs. rewrite Hi in Hs.
  destruct Hs as (_ & _ & Hs). specialize (Hs (pt_image p)).
  pose proof (accumulate_memory_spec (buffer_memory_constraints acc)
    (buffer_memory_constraints c) (pt_memory p)) as Hmem. rewrite Hm in Hmem.
  unfold permits. rewrite Hmin, Hmax, Z.max_lub_iff, Z.min_glb_iff, Hmem. tauto.
Qed.

Lemma accumulate_empty acc c p :
  wf_constraints acc -> wf_constraints c -> naturally_aligned (pt_image p) ->
  AccumulateConstraintBufferCollection acc c = None -> ~ (permits acc p /\ permits c p).
Proof.
  intros [Hda Hwa] [Hdc Hwc] Hn. unfold AccumulateConstraintBufferCollection. fold images_of.
  pose proof (images_of_spec _ _ Hda Hdc Hwa Hwc) as Hs.
  fold (images_of (image_format_constraints acc) (image_format_constraints c)).
  pose proof (accumulate_memory_spec (buffer_memory_constraints acc)
    (buffer_memory_constraints c) (pt_memory p)) as Hmem.
  destruct (AccumulateConstraintBufferMemory _ _); [|unfold permits; tauto].
  destruct (images_of _ _); [done|]. intros _. specialize (Hs _ Hn). unfold permits. tauto.
Qed.

(** *** All participants *)

Lemma accumulate_all_spec ws : forall acc r,
  wf_constraints acc -> accumulate_all acc ws = Done (Some r) ->
  wf_constraints r /\ exists cs, Forall2 (fun w c => sanitized w c) ws cs /\ forall p,
    (permits r p -> permits acc p /\ Forall (fun c => permits c p) cs) /\
    (naturally_aligned (pt_image p) -> 1 <= pt_size (pt_memory p) ->
     permits acc p -> Forall (fun c => permits c p) cs -> permits r p).
Proof.
  induction ws as [|w ws IH]; intros acc r Hacc; simpl.
  { intros [= <-]. split; [done|]. exists []. split; [constructor|]. naive_solver. }
  intros ([c|] & Hc & H)%exec_bind_Done; [|done].
  destruct (AccumulateConstraintBufferCollection acc c) as [acc'|] eqn:Ea; [|done].
  pose proof (sanitized_wf _ _ Hc) as Hwc.
  pose proof (accumulate_wf _ _ _ Hacc Hwc Ea) as Hacc'.
  destruct (IH acc' r Hacc' H) as (Hr & cs & Hcs & Hp). split; [done|].
  exists (c :: cs). split; [by constructor|]. intros p. rewrite Forall_cons.
  pose proof (accumulate_permits _ _ _ p Hacc Hwc Ea). specialize (Hp p). tauto.
Qed.

(** *** The starting point and the last check *)

Lemma initial_constraints :
  exists c, CheckSanitizeBufferCollectionConstraints kInitial Wire.empty_constraints = Done (Some c) /\
    wf_constraints c /\ image_format_constraints c = [] /\
    forall p, permits c p <-> is_u32 (pt_count p) /\ is_u32 (pt_size (pt_memory p)).
Proof.
  eexists. split; [reflexivity|]. split; [by split|]. split; [done|]. intros p.
  unfold permits, memory_permits, images_permit, is_u32, UINT32_MAX; simpl.
  assert (forall d, domain_supported (mkMemory 0 UINT32_MAX false false true true true []) d = true)
    as Hd by (by intros []).
  unfold UINT32_MAX in Hd. simpl in Hd. rewrite Hd. split; [lia|].
  intros [? ?]. split_and!; auto; lia.
Qed.

(** What sanitising again changes of an entry: the minimum stride. *)
Lemma image_defaults_again i p :
  image_permits (image_defaults (image_to_wire i)) p ->
  image_permits i p.
Proof.
  destruct i as [[]]. unfold image_permits, color_permits, layout_permits; simpl.
  rewrite Z.max_lub_iff. tauto.
Qed.

(** The stride holds a row of pixels of the format. *)
Definition row_fits (p : ImagePoint) : Prop :=
  is_u32 (pt_bytes_per_row p) /\
  forall pf, ImageFormatIsPixelFormatEqual pf (pt_format p) = true ->
    0 <= ImageFormatStrideBytesPerWidthPixel pf /\
    ImageFormatStrideBytesPerWidthPixel pf * pt_width p <= pt_bytes_per_row p.

Lemma image_defaults_keeps i p :
  0 <= min_coded_width i -> row_fits p -> image_permits i p ->
  image_permits (image_defaults (image_to_wire i)) p.
Proof.
  intros Hw [Hu Hrow] (Hf & Hcol & Hl). destruct (Hrow _ Hf) as [Hs Hle].
  assert (u32 (ImageFormatStrideBytesPerWidthPixel (pixel_format i) * min_coded_width i) <=
          pt_bytes_per_row p) as Hmin.
  { destruct Hl as ([? _] & _). rewrite u32_small; [nia|]. unfold is_u32 in *. nia. }
  destruct i as [[]]. unfold image_permits, color_permits, layout_permits in *; simpl in *.
  rewrite Z.max_lub_iff. tauto.
Qed.

Definition chosen_color (i i' : ImageFormatConstraints) : Prop :=
  exists t, color_permits i t /\
    i' = with_color_spaces (image_defaults (image_to_wire i)) [ColorSpace_set_type t].

Lemma aggregated_images images images' l :
  sanitize_images kAggregated (map image_to_wire images) = Some images' ->
  select_color_spaces images' = Done l -> Forall2 chosen_color images l.
Proof.
  intros Hs%sanitize_images_Forall2 Hl%select_color_spaces_Forall2.
  revert images' l Hs Hl. induction images as [|i images IH]; simpl; intros images' l Hs Hl.
  { inversion Hs; subst. inversion Hl; subst. constructor. }
  inversion Hs as [|? i1 ? images1 Hi Hs']; subst.
  inversion Hl as [|? i2 ? l2 (t & Ht & ->) Hl']; subst.
  constructor; [|by eapply IH]. exists t.
  apply sanitize_image_Some in Hi as (-> & _ & Hne & Hsup & _). split; [|done].
  destruct (best_color_space_in _ t Hne) as (cs & Hcs & Hty); [|done|].
  - intros cs Hcs. by apply (supported_color_typed _ _ (Hsup _ Hcs)).
  - exists cs. split; [|done]. by destruct i.
Qed.

Lemma aggregated_spec acc r :
  CheckSanitizeBufferCollectionConstraints kAggregated (constraints_to_wire acc) = Done (Some r) ->
  buffer_memory_constraints r = buffer_memory_constraints acc /\
  min_buffer_count r = min_buffer_count acc /\ max_buffer_count r = max_buffer_count acc /\
  Forall2 chosen_color (image_format_constraints acc) (image_format_constraints r).
Proof.
  intros (images & Hi & Hmin & Hmax & _ & Hm & Hsel)%sanitize_common. simpl in *. split_and!; try done.
  - unfold CheckSanitizeBufferMemoryConstraints in Hm. checks Hm. injection Hm as <-.
    by destruct (buffer_memory_constraints acc).
  - by eapply aggregated_images.
Qed.

Lemma chosen_permits i i' p :
  chosen_color i i' -> image_permits i' p -> image_permits i p.
Proof.
  intros (t & Hcol & ->) (Hf & (cs & ->%list_elem_of_singleton & Ht) & Hl). simpl in *.
  rewrite type_of_set_type in Ht. subst t. apply image_defaults_again.
  split_and!; [done| |done]. by destruct i.
Qed.

(** The point with another colour. *)
Definition with_color (t : Z) (p : ImagePoint) : ImagePoint :=
  mkImagePoint (pt_format p) t (pt_width p) (pt_height p) (pt_bytes_per_row p)
    (pt_start_offset p) (pt_display_width p) (pt_display_height p).

Lemma chosen_keeps i i' p :
  chosen_color i i' -> 0 <= min_coded_width i -> row_fits p -> image_permits i p ->
  exists t, color_permits i t /\ image_permits i' (with_color t p).
Proof.
  intros (t & Hcol & ->) Hw Hr Hp. exists t. split; [done|].
  apply (image_defaults_keeps i p Hw Hr) in Hp as (Hf & _ & Hl).
  split_and!; [done| |done]. exists (ColorSpace_set_type t). simpl.
  split; [by apply list_elem_of_singleton|apply type_of_set_type].
Qed.

(** *** [CombineConstraints] *)

Lemma combine_Some ws r :
  CombineConstraints ws = Done (Some r) ->
  exists acc0 acc,
    (wf_constraints acc0 /\ image_format_constraints acc0 = [] /\
     forall p, permits acc0 p <-> is_u32 (pt_count p) /\ is_u32 (pt_size (pt_memory p))) /\
    accumulate_all acc0 ws = Done (Some acc) /\
    CheckSanitizeBufferCollectionConstraints kAggregated (constraints_to_wire acc) = Done (Some r).
Proof.
  unfold CombineConstraints. destruct (negb _); [done|].
  destruct initial_constraints as (acc0 & E0 & Hw & Hi & Hp). rewrite E0.
  intros ([a0|] & [= <-] & H)%exec_bind_Done.
  apply exec_bind_Done in H as ([acc|] & Hacc & H); [|done]. by exists acc0, acc.
Qed.

Lemma aggregated_keeps acc r p :
  CheckSanitizeBufferCollectionConstraints kAggregated (constraints_to_wire acc) = Done (Some r) ->
  Forall (fun i => 0 <= min_coded_width i) (image_format_constraints acc) ->
  row_fits (pt_image p) -> permits acc p ->
  exists t, permits r (mkPoint (pt_count p) (pt_memory p) (with_color t (pt_image p))).
Proof.
  intros (Hm & Hmin & Hmax & Hi)%aggregated_spec Hw Hr (? & ? & Himg). unfold permits. simpl.
  rewrite Hm, Hmin, Hmax.
  destruct Himg as [E|(i & Hin & Hp)].
  { rewrite E in Hi. exists 0. (split; [done|]; split; [done|]). left.
    by apply Forall2_nil_inv_l in Hi. }
  rewrite Forall_forall in Hw. specialize (Hw i Hin).
  apply list_elem_of_lookup in Hin as (k & Hk).
  destruct (Forall2_lookup_l _ _ _ _ _ Hi Hk) as (i' & Hk' & Hch).
  destruct (chosen_keeps _ _ _ Hch Hw Hr Hp) as (t & _ & Ht).
  exists t. (split; [done|]; split; [done|]). right. exists i'. split; [|done].
  by eapply list_elem_of_lookup_2.
Qed.

(** Unsigned widths stay unsigned. *)
Lemma images_of_Forall (P : ImageFormatConstraints -> Prop) acc c l :
  (forall a d b, P a -> AccumulateConstraintImageFormat a d = Some b -> P b) ->
  distinct_formats acc -> distinct_formats c -> Forall P acc -> Forall P c ->
  images_of acc c = Some l -> Forall P l.
Proof.
  intros HP Ha Hc Hpa Hpc. unfold images_of.
  destruct (length acc =? 0)%nat; [congruence|]. destruct (length c =? 0)%nat; [congruence|].
  unfold AccumulateConstraintImageFormats. intros [_ [= <-]]%reject_Some.
  rewrite Forall_forall in Hpa |- *. intros b. rewrite (merge_formats_walk acc c Ha Hc).
  intros (a & Hin & ([d ?] & _ & Hb)%bind_Some)%list_elem_of_omap. eauto.
Qed.

Definition widths_unsigned (c : BufferCollectionConstraints) : Prop :=
  Forall (fun i => 0 <= min_coded_width i) (image_format_constraints c).

Lemma accumulate_widths acc c r :
  wf_constraints acc -> wf_constraints c -> widths_unsigned acc -> widths_unsigned c ->
  AccumulateConstraintBufferCollection acc c = Some r -> widths_unsigned r.
Proof.
  intros [] [] Ha Hc (_ & Hi & _)%accumulate_Some.
  refine (images_of_Forall _ _ _ _ _ _ _ Ha Hc Hi); [|done..].
  intros a d b Hw (cs & _ & [= <-])%bind_Some. simpl. lia.
Qed.

Lemma accumulate_all_widths ws : forall acc r cs,
  wf_constraints acc -> widths_unsigned acc -> Forall2 (fun w c => sanitized w c) ws cs ->
  Forall widths_unsigned cs -> accumulate_all acc ws = Done (Some r) -> widths_unsigned r.
Proof.
  induction ws as [|w ws IH]; intros acc r cs Hacc Hwa Hcs Hcw; simpl; [by intros [= <-]|].
  intros ([c|] & Hc & H)%exec_bind_Done; [|done].
  destruct (AccumulateConstraintBufferCollection acc c) as [acc'|] eqn:Ea; [|done].
  inversion Hcs as [|? c' ? cs' Hc' Hcs']; subst. rewrite Hc in Hc'. injection Hc' as <-.
  apply Forall_cons in Hcw as [? ?]. pose proof (sanitized_wf _ _ Hc).
  eapply (IH acc' r cs'); eauto using accumulate_wf, accumulate_widths.
Qed.

(** [r] is at least as strict as [c], in each respect. *)
Record refines (r c : BufferCollectionConstraints) : Prop := {
  refines_count : min_buffer_count c <= min_buffer_count r /\ max_buffer_count r <= max_buffer_count c;
  refines_memory : forall p, memory_permits (buffer_memory_constraints r) p ->
    memory_permits (buffer_memory_constraints c) p;
  refines_images : forall p, images_permit (image_format_constraints r) p ->
    images_permit (image_format_constraints c) p
}.

#[local] Instance refines_preorder : PreOrder refines.
Proof.
  split; [intros c; split; [lia|done..]|].
  intros a b c [? ? ?] [? ? ?]. split; [lia|auto..].
Qed.

Lemma accumulate_refines acc c r :
  wf_constraints acc -> wf_constraints c ->
  AccumulateConstraintBufferCollection acc c = Some r -> refines r acc /\ refines r c.
Proof.
  intros [Hda Hwa] [Hdc Hwc] (Hm & Hi & Hmin & Hmax)%accumulate_Some.
  pose proof (images_of_spec _ _ Hda Hdc Hwa Hwc) as Hs. rewrite Hi in Hs.
  destruct Hs as (_ & _ & Hs).
  assert (forall p, memory_permits (buffer_memory_constraints r) p ->
    memory_permits (buffer_memory_constraints acc) p /\
    memory_permits (buffer_memory_constraints c) p) as Hmem.
  { intros p Hp. pose proof (accumulate_memory_spec (buffer_memory_constraints acc)
      (buffer_memory_constraints c) p) as H. rewrite Hm in H. tauto. }
  split; split; try lia; intros p Hp; by apply Hmem || apply Hs.
Qed.

Lemma accumulate_all_refines ws : forall acc r,
  wf_constraints acc -> accumulate_all acc ws = Done (Some r) ->
  refines r acc /\ exists cs, Forall2 (fun w c => sanitized w c) ws cs /\ Forall (refines r) cs.
Proof.
  induction ws as [|w ws IH]; intros acc r Hacc; simpl.
  { intros [= <-]. split; [done|]. exists []. split; constructor. }
  intros ([c|] & Hc & H)%exec_bind_Done; [|done].
  destruct (AccumulateConstraintBufferCollection acc c) as [acc'|] eqn:Ea; [|done].
  pose proof (sanitized_wf _ _ Hc) as Hwc.
  destruct (accumulate_refines _ _ _ Hacc Hwc Ea) as [H1 H2].
  destruct (IH acc' r (accumulate_wf _ _ _ Hacc Hwc Ea) H) as (Hr & cs & Hcs & Hf).
  split; [by etrans|]. exists (c :: cs). split; [by constructor|].
  constructor; [by etrans|done].
Qed.

Lemma aggregated_refines acc r :
  CheckSanitizeBufferCollectionConstraints kAggregated (constraints_to_wire acc) = Done (Some r) ->
  refines r acc.
Proof.
  intros (Hm & Hmin & Hmax & Hi)%aggregated_spec. split; [lia|by rewrite Hm|].
  intros p [E|(i' & Hin & Hp)]; [rewrite E in Hi; apply Forall2_nil_inv_r in Hi; by left|].
  right. apply list_elem_of_lookup in Hin as (k & Hk).
  destruct (Forall2_lookup_r _ _ _ _ _ Hi Hk) as (i & Hk' & Hch).
  exists i. split; [by eapply list_elem_of_lookup_2|by eapply chosen_permits].
Qed.

Lemma refines_permits r c p : refines r c -> permits r p -> permits c p.
Proof. intros [? Hm Hi] (? & ? & ?). split; [lia|]. split; auto. Qed.

Lemma combine_refines ws r :
  CombineConstraints ws = Done (Some r) ->
  exists cs, Forall2 (fun w c => sanitized w c) ws cs /\ Forall (refines r) cs.
Proof.
  intros (acc0 & acc & (Hwf & _ & _) & Hall & Hagg%aggregated_refines)%combine_Some.
  destruct (accumulate_all_refines ws acc0 acc Hwf Hall) as (_ & cs & Hcs & Hf).
  exists cs. split; [done|]. eapply Forall_impl; [done|]. intros c Hc. by etrans.
Qed.

Lemma accumulate_all_memory ws : forall acc r,
  accumulate_all acc ws = Done (Some r) ->
  min_size_bytes (buffer_memory_constraints acc) <= min_size_bytes (buffer_memory_constraints r) /\
  max_size_bytes (buffer_memory_constraints r) <= max_size_bytes (buffer_memory_constraints acc).
Proof.
  induction ws as [|w ws IH]; intros acc r; simpl; [intros [= <-]; lia|].
  intros ([c|] & Hc & H)%exec_bind_Done; [|done].
  destruct (AccumulateConstraintBufferCollection acc c) as [acc'|] eqn:Ea; [|done].
  apply IH in H. apply accumulate_Some in Ea as (Hm & _).
  apply bind_Some in Hm as (heaps & _ & [= Hm]). rewrite <- Hm in H. simpl in H. lia.
Qed.

(** The size bounds of the result are 32-bit and in order. *)
Lemma combine_memory ws r :
  CombineConstraints ws = Done (Some r) ->
  let m := buffer_memory_constraints r in
  is_u32 (min_size_bytes m) /\ is_u32 (max_size_bytes m) /\ min_size_bytes m <= max_size_bytes m.
Proof.
  unfold CombineConstraints. destruct (negb _); [done|].
  intros ([acc0|] & H0 & H)%exec_bind_Done; [|done].
  apply exec_bind_Done in H as ([acc|] & Hall & Hagg); [|done].
  apply accumulate_all_memory in Hall.
  vm_compute in H0. injection H0 as <-. simpl in Hall.
  pose proof (aggregated_spec acc r Hagg) as (Hm & _).
  apply sanitize_common in Hagg as (_ & _ & _ & _ & _ & Hs & _).
  unfold CheckSanitizeBufferMemoryConstraints in Hs. checks Hs. injection Hs as Hs.
  apply Z.ltb_ge in Hchk0. simpl in Hchk0. rewrite Hm. unfold is_u32. cbv zeta. lia.
Qed.

(** The entries of the result are well formed. *)
Lemma combine_images_wf ws r :
  CombineConstraints ws = Done (Some r) -> Forall wf_image (image_format_constraints r).
Proof.
  intros (? & acc & _ & _ & (images & Hi & _ & _ & _ & _ & Hsel)%sanitize_common)%combine_Some.
  apply sanitize_images_Forall2 in Hi. apply select_color_spaces_Forall2 in Hsel.
  revert Hi Hsel. generalize (image_format_constraints r).
  generalize (default [] (Wire.image_format_constraints (constraints_to_wire acc))).
  intros ws' l Hi. revert l. induction Hi as [|w i ws' is' Hw _ IH]; intros l Hsel.
  { inversion Hsel. constructor. }
  inversion Hsel as [|? ? ? ? (t & _ & ->)]; subst. constructor; [|by apply IH].
  by apply sanitize_image_Some in Hw as (_ & ? & _).
Qed.

(** Every width on the wire is unsigned, as [uint32_t] is. *)
Definition wire_typed (w : Wire.BufferCollectionConstraints) : Prop :=
  forall i, i ∈ default [] (Wire.image_format_constraints w) ->
    0 <= default 0 (Wire.min_coded_width i).

Lemma sanitized_widths w c : sanitized w c -> wire_typed w -> widths_unsigned c.
Proof.
  intros (images & Hi & _ & _ & _ & _ & E & _)%sanitize_common. unfold wire_typed, widths_unsigned.
  rewrite E. apply sanitize_images_Forall2 in Hi. intros Ht. clear E.
  induction Hi as [|w' c' ws cs Hw _ IH]; constructor.
  - apply sanitize_image_Some in Hw as (-> & _). apply Ht. left.
  - apply IH. intros i Hin. apply Ht. by right.
Qed.

(** C9. Where [CombineConstraints] succeeds it computes the intersection of the participants'
    constraints: every participant's constraints passed sanitising, any configuration (buffer count
    between the minimum and maximum, memory, image format and layout) the result permits is
    permitted by every participant, and conversely a configuration all participants permit, of at
    least one byte, whose numbers are 32-bit, whose layout is aligned for its pixel format and whose
    rows fit, is permitted by the result up to the one colour space chosen for the format. Combining
    can fail although the participants permit a common image, see [conflicting_format_fails_all];
    what the usages, the camping and slack counts and the required extents combine to is not part
    of [permits]. *)
Theorem combine_correct ws r :
  CombineConstraints ws = Done (Some r) -> Forall wire_typed ws ->
  exists cs, Forall2 (fun w c => sanitized w c) ws cs /\
    (forall p, permits r p -> Forall (fun c => permits c p) cs) /\
    (forall p, is_u32 (pt_count p) -> is_u32 (pt_size (pt_memory p)) ->
       1 <= pt_size (pt_memory p) -> naturally_aligned (pt_image p) -> row_fits (pt_image p) ->
       Forall (fun c => permits c p) cs ->
       exists t, permits r (mkPoint (pt_count p) (pt_memory p) (with_color t (pt_image p)))).
Proof.
  intros (acc0 & acc & (Hwf & Hno & Hinit) & Hall & Hagg)%combine_Some Hty.
  destruct (accumulate_all_spec ws acc0 acc Hwf Hall) as (_ & cs & Hcs & Hp).
  exists cs. split; [done|]. split.
  - intros p Hr. by apply Hp, (refines_permits r), Hr; apply aggregated_refines.
  - intros p Hn Hsz H1 Hal Hrow Hf. apply (aggregated_keeps acc r p Hagg); [|done|].
    + eapply (accumulate_all_widths ws acc0 acc cs); [done| |done| |done].
      * unfold widths_unsigned. by rewrite Hno.
      * clear -Hcs Hty. induction Hcs; constructor; inversion Hty; subst; eauto using sanitized_widths.
    + apply Hp; [done..| |done]. by apply Hinit.
Qed.

(** Accumulating one participant into the aggregate is exact: the result permits a
    configuration of at least one byte and an aligned layout exactly if the aggregate and the
    participant both permit it, and the accumulation fails only if they have no such configuration
    in common. *)
Theorem accumulate_exact acc w c p :
  wf_constraints acc -> sanitized w c ->
  naturally_aligned (pt_image p) -> 1 <= pt_size (pt_memory p) ->
  match AccumulateConstraintBufferCollection acc c with
  | Some r => wf_constraints r /\ (permits r p <-> permits acc p /\ permits c p)
  | None => ~ (permits acc p /\ permits c p)
  end.
Proof.
  intros Ha Hc%sanitized_wf Hn H1.
  destruct (AccumulateConstraintBufferCollection acc c) as [r|] eqn:E.
  - split; [by apply (accumulate_wf acc c)|]. pose proof (accumulate_permits _ _ _ p Ha Hc E). tauto.
  - by apply accumulate_empty.
Qed.

(** Ranking the colour spaces of a list that [kColorSpaceRanking] covers returns. *)
Lemma best_color_space_total l b rb :
  ranking_at b = Done rb ->
  (forall cs, cs ∈ l -> exists r, ranking_at (ColorSpace_type cs) = Done r) ->
  exists t, best_color_space b l = Done t.
Proof.
  revert b rb. induction l as [|cs l IH]; intros b rb Hb Hl; simpl; [eauto|].
  destruct (Hl cs ltac:(left)) as [r Hr].
  destruct (ColorSpace_has_type cs).
  - rewrite Hb. simpl. rewrite Hr. simpl.
    eapply (IH _ (if r <? rb then r else rb)); [by destruct (r <? rb)|].
    intros d Hd. apply Hl. by right.
  - eapply IH; [done|]. intros d Hd. apply Hl. by right.
Qed.

(** [kColorSpaceRanking] has every colour space the library supports. *)
Definition colors_ranked : Prop :=
  forall cs pf, ImageFormatIsSupportedColorSpaceForPixelFormat cs pf = true ->
    exists r, ranking_at (ColorSpace_type cs) = Done r.

Lemma sanitize_total stage w :
  colors_ranked ->
  exists o, CheckSanitizeBufferCollectionConstraints stage w = Done o.
Proof.
  intros Hrank. unfold CheckSanitizeBufferCollectionConstraints.
  set (checked := mbind _ _). destruct checked as [c|] eqn:E; [|eauto].
  destruct stage; [eauto..|]. subst checked.
  assert (exists ws, sanitize_images kAggregated ws = Some (image_format_constraints c)) as [ws Hi].
  { exists (default [] (Wire.image_format_constraints w)).
    apply bind_Some in E as (u & _ & E). checks E. apply bind_Some in E as (m & _ & E). checks E.
    apply bind_Some in E as (images & Hi & [= <-]). exact Hi. }
  apply sanitize_images_Forall2 in Hi.
  assert (exists l, select_color_spaces (image_format_constraints c) = Done l) as [l ->]; [|eauto].
  induction Hi as [|w' i ws ims Hw _ IH]; simpl; [eauto|]. destruct IH as [l ->].
  apply sanitize_image_Some in Hw as (_ & _ & _ & Hsup & _).
  destruct (best_color_space_total (color_spaces i) ColorSpaceType_kInvalid _ ranking_of_invalid)
    as [t ->]; [eauto|]. simpl. eauto.
Qed.

(** Combining always returns: provided [kColorSpaceRanking] ranks every colour space
    [lib/image-format] supports, no lookup of [CombineConstraints] aborts and the starting
    constraints, which are always the same, are accepted. *)
Theorem combine_total ws :
  colors_ranked ->
  exists o, CombineConstraints ws = Done o.
Proof.
  intros Hrank. unfold CombineConstraints. destruct (negb _); [eauto|].
  destruct initial_constraints as (acc0 & -> & _). cbn [mbind exec_bind].
  assert (forall acc, exists o, accumulate_all acc ws = Done o) as Hall.
  { induction ws as [|w ws IH]; intros acc; simpl; [eauto|].
    destruct (sanitize_total kNotAggregated w Hrank) as [[c|] ->]; simpl; [|eauto].
    destruct (AccumulateConstraintBufferCollection acc c); eauto. }
  destruct (Hall acc0) as [[acc|] ->]; simpl; [|eauto]. by apply sanitize_total.
Qed.

End combine.

(** ** Evaluated *)

Module Example.

Definition result : exec (option (@BufferCollectionConstraints ex_fidl)) :=
  Eval vm_compute in @CombineConstraints ex_fidl ex_lib ex_participants.

Definition combined : @BufferCollectionConstraints ex_fidl :=
  Eval vm_compute in
  match result with Done (Some r) => r | _ =>
    @mkConstraints ex_fidl (mkUsage 0 0 0 0 0) 0 0 0 0 0
      (mkMemory 0 0 false false false false false []) [] false false end.

Lemma combine_correct_witness :
  exists cs, Forall2 (fun w c => @CheckSanitizeBufferCollectionConstraints ex_fidl ex_lib
                                   kNotAggregated w = Done (Some c)) ex_participants cs /\
    forall p, @permits ex_fidl ex_lib combined p ->
      Forall (fun c => @permits ex_fidl ex_lib c p) cs.
Proof.
  destruct (@combine_correct ex_fidl ex_lib ex_ok ex_participants combined) as (cs & H1 & H2 & _).
  - vm_compute. reflexivity.
  - repeat constructor; intros i Hi; simpl in Hi;
      repeat (apply elem_of_cons in Hi as [->|Hi]); try (simpl; lia); by apply elem_of_nil in Hi.
  - exists cs. split; [exact H1|exact H2].
Defined.

(** The sanitised constraints of the participants, evaluated. *)
Definition sanitized_of (w : @Wire.BufferCollectionConstraints ex_fidl)
    : list (@BufferCollectionConstraints ex_fidl) :=
  match @CheckSanitizeBufferCollectionConstraints ex_fidl ex_lib kNotAggregated w with
  | Done (Some c) => [c]
  | _ => []
  end.

(** 64 by 16 pixels of 4 bytes in system memory, as format [pf]. *)
Definition point (pf : Z) : BufferPoint :=
  mkPoint 3 (mkMemoryPoint 4096 0 false false kCpu)
    (mkImagePoint (mkPixelFormat pf 0) 1 64 16 256 0 64 16).

Lemma point_aligned pf : @naturally_aligned ex_fidl ex_lib (pt_image (point pf)).
Proof. intros ? _. simpl. split_and!; [by exists 32|by exists 8|by exists 64|by exists 0]. Qed.

(** Both participants have formats 101 and 102; their widths agree for 101 only. *)
Definition conflicting : list (@Wire.BufferCollectionConstraints ex_fidl) :=
  [ex_participant ex_cpu 2 [ex_image 101 [1] 16 1024; ex_image 102 [1] 16 32];
   ex_participant ex_display 1 [ex_image 101 [1] 32 4096; ex_image 102 [1] 64 4096]].

Lemma point_permitted c :
  c ∈ concat (map sanitized_of conflicting) -> @permits ex_fidl ex_lib c (point 101).
Proof.
  intros Hc. vm_compute in Hc.
  repeat (apply elem_of_cons in Hc as [->|Hc]); [..|by apply elem_of_nil in Hc];
    (split; [simpl; lia|]; split; [split; [simpl; lia|by split_and!]|]);
    right; (eexists; split; [left|]; split; [reflexivity|]);
    (split; [by eexists; split; [left|]|]);
    unfold layout_permits; simpl; split_and!; try lia; apply Z.divide_1_l.
Qed.

(** One conflicting format fails the whole aggregation. [AccumulateConstraintImageFormat] gives
    up on a format only if no colour space is left; a format whose dimensions no longer allow any
    image stays in the list, and the last check of [CombineConstraints] then rejects all of it,
    although every participant permits the same image in another format. *)
Theorem conflicting_format_fails_all :
  exists p, Forall (fun w => exists c,
      @CheckSanitizeBufferCollectionConstraints ex_fidl ex_lib kNotAggregated w = Done (Some c) /\
      @permits ex_fidl ex_lib c p) conflicting /\
    @naturally_aligned ex_fidl ex_lib (pt_image p) /\
    @CombineConstraints ex_fidl ex_lib conflicting = Done None.
Proof.
  exists (point 101). split; [|split; [apply point_aligned|vm_compute; reflexivity]].
  repeat constructor; (eexists; split; [vm_compute; reflexivity|]; apply point_permitted;
    vm_compute; first [by left|by right; left]).
Qed.

Lemma combine_total_witness :
  exists o, @CombineConstraints ex_fidl ex_lib ex_participants = Done o.
Proof.
  apply (@combine_total ex_fidl ex_lib). intros [t|] pf Ht; [|done]. simpl in Ht.
  apply andb_true_iff in Ht as [H1%Z.leb_le H2%Z.leb_le].
  assert (t = 1 \/ t = 2 \/ t = 3 \/ t = 4 \/ t = 5 \/ t = 6 \/ t = 7 \/ t = 8 \/ t = 9) as Ht
    by lia.
  repeat destruct Ht as [->|Ht]; [..|subst t]; eexists; vm_compute; reflexivity.
Defined.

Definition reader : @Wire.BufferCollectionConstraints ex_fidl :=
  ex_participant ex_cpu 2 [ex_image 101 [6; 1] 16 1024; ex_image 102 [1] 16 1024].

Definition reader_sanitized : @BufferCollectionConstraints ex_fidl :=
  Eval vm_compute in default combined (head (sanitized_of reader)).

Lemma accumulate_exact_witness :
  match @AccumulateConstraintBufferCollection ex_fidl ex_lib combined reader_sanitized with
  | Some r => @wf_constraints ex_fidl ex_lib r /\
      (@permits ex_fidl ex_lib r (point 101) <->
       @permits ex_fidl ex_lib combined (point 101) /\
       @permits ex_fidl ex_lib reader_sanitized (point 101))
  | None => False
  end.
Proof.
  assert (@wf_constraints ex_fidl ex_lib combined) as Hwf.
  { split; [reflexivity|]. repeat constructor; simpl;
      first [by exists 0|by exists 1|by exists 2]. }
  pose proof (@accumulate_exact ex_fidl ex_lib ex_ok combined reader reader_sanitized (point 101)
    Hwf) as H.
  destruct (@AccumulateConstraintBufferCollection ex_fidl ex_lib combined reader_sanitized)
    as [r|] eqn:E.
  - apply H; [vm_compute; reflexivity|apply point_aligned|simpl; lia].
  - vm_compute in E. discriminate E.
Defined.

End Example.
