(* ===== verification/SysmemGenerate.v ===== *)
(** * SysmemGenerate: from combined constraints to buffer settings

    Model of [GetHeap], [GetCoherencyDomain] and [GenerateUnpopulatedBufferCollectionInfo] of
    [src/devices/sysmem/drivers/sysmem/logical_buffer_collection.cc], of [GetAllocator] and
    [GetHeapProperties] of [device.cc], and the theorems that what they choose is permitted by the
    constraints they start from, hence by every participant, and is within the size limits. *)
From Stdlib Require Import ZArith Lia Znumtheory.
From stdpp Require Import prelude gmap.
From S2P Require Import Prelude SysmemTypes SysmemSanitize SysmemAccumulate SysmemMeet SysmemCost.
From S2P Require Import SysmemExample SysmemCombine.

Local Open Scope Z_scope.

Definition kMaxTotalSizeBytesPerCollection : Z := 1 * 1024 * 1024 * 1024.
Definition kMaxSizeBytesPerBuffer : Z := 256 * 1024 * 1024.
Definition kNeedAuxVmoAlso : Z := 1.

(** ** The device *)

Record CoherencyDomainSupport := mkSupport {
  cpu_supported : bool; ram_supported : bool; inaccessible_supported : bool
}.

(** [HeapProperties] of a memory allocator, the part of it that settings depend on. *)
Record HeapProperties := mkHeapProperties {
  coherency_domain_support : option CoherencyDomainSupport
}.

Record Device := mkDevice {
  allocators_ : gmap Z HeapProperties;
  contiguous_system_ram_allocator_ : option HeapProperties;
  pdev_device_info_vid : Z;
  pdev_device_info_pid : Z;
  max_allocation_size : Z
}.

Record BufferMemorySettings := mkMemorySettings {
  size_bytes : Z;
  is_physically_contiguous : bool;
  is_secure : bool;
  coherency_domain : CoherencyDomain;
  heap : Z
}.

Section generate.
Context `{fidl : Sysmem2} `{lib : !ImageFormatLib} `{consts : CostConstants}.

Record SingleBufferSettings := mkSettings {
  buffer_settings : BufferMemorySettings;
  settings_image : option ImageFormatConstraints
}.

(** [buffers]: the [vmo_usable_start] of each buffer. *)
Record BufferCollectionInfo := mkInfo {
  buffers : list Z;
  settings : SingleBufferSettings
}.

Definition GetAllocator (device : Device) (heap : Z) (contiguous : bool) : option HeapProperties :=
  if (heap =? HeapType_kSystemRam) && contiguous then contiguous_system_ram_allocator_ device
  else allocators_ device !! heap.

Definition GetHeapProperties (device : Device) (heap : Z) : exec HeapProperties :=
  match allocators_ device !! heap with
  | Some p => Done p
  | None => Panic
  end.

(** Whether the heap and the constraints have a coherency domain in common. *)
Definition shares_domain (s : CoherencyDomainSupport) (constraints : BufferMemoryConstraints)
    : bool :=
  (cpu_supported s && cpu_domain_supported constraints) ||
  (ram_supported s && ram_domain_supported constraints) ||
  (inaccessible_supported s && inaccessible_domain_supported constraints).

(** The loop over the permitted heaps. *)
Fixpoint find_heap (constraints : BufferMemoryConstraints) (device : Device) (heaps : list Z)
    : exec (sum zx_status Z) :=
  match heaps with
  | [] => Done (inl ZX_ERR_NOT_FOUND)
  | heap :: rest =>
      properties ← GetHeapProperties device heap;
      match coherency_domain_support properties with
      | Some s => if shares_domain s constraints then Done (inr heap)
                  else find_heap constraints device rest
      | None => find_heap constraints device rest
      end
  end.

Definition GetHeap (constraints : BufferMemoryConstraints) (device : Device)
    : exec (sum zx_status Z) :=
  if secure_required constraints then
    (ASSERT IsSecurePermitted constraints ;;
     if IsHeapPermitted constraints HeapType_kAmlogicSecure
     then Done (inr HeapType_kAmlogicSecure)
     else ASSERT IsHeapPermitted constraints HeapType_kAmlogicSecureVdec ;;
          Done (inr HeapType_kAmlogicSecureVdec))%exec
  else if IsHeapPermitted constraints HeapType_kSystemRam then Done (inr HeapType_kSystemRam)
  else find_heap constraints device (heap_permitted constraints).

Definition GetCoherencyDomain (constraints : BufferCollectionConstraints)
    (memory_allocator : HeapProperties) : exec (option CoherencyDomain) :=
  let m := buffer_memory_constraints constraints in
  match coherency_domain_support memory_allocator with
  | None => Panic
  | Some support =>
      Done (if negb (display (usage constraints) =? 0) && ram_domain_supported m then Some kRam
            else if cpu_supported support && cpu_domain_supported m then Some kCpu
            else if ram_supported support && ram_domain_supported m then Some kRam
            else if inaccessible_supported support && inaccessible_domain_supported m
            then Some kInaccessible
            else None)
  end.

(** ** The settings *)

Definition AlignUp (value divisor : Z) : Z := u32 (value + divisor - 1) / divisor * divisor.

(** The loop that picks the entry to use: the best so far, or none yet. *)
Definition pick_image (device : Device) (usage : BufferUsage) (secure : bool)
    (best : option ImageFormatConstraints) (l : list ImageFormatConstraints)
    : option ImageFormatConstraints :=
  foldl (fun best i =>
    if secure && negb (ImageFormatCompatibleWithProtectedMemory (pixel_format i)) then best
    else match best with
    | None => Some i
    | Some b =>
        if CompareImageFormatConstraintsByIndex (pdev_device_info_vid device)
             (pdev_device_info_pid device) usage i b <? 0
        then Some i else best
    end) best l.

(** The smallest image the buffers have to hold. *)
Definition min_coded_width_of (i : ImageFormatConstraints) : Z :=
  AlignUp (Z.max (min_coded_width i) (required_max_coded_width i)) (coded_width_divisor i).
Definition min_coded_height_of (i : ImageFormatConstraints) : Z :=
  AlignUp (Z.max (min_coded_height i) (required_max_coded_height i)) (coded_height_divisor i).
Definition min_bytes_per_row_of (i : ImageFormatConstraints) : Z :=
  AlignUp (Z.max (min_bytes_per_row i)
             (u32 (ImageFormatStrideBytesPerWidthPixel (pixel_format i) * min_coded_width_of i)))
    (bytes_per_row_divisor i).

(** The size of the buffers, once the entry [i] is chosen. *)
Definition image_min_size (i : ImageFormatConstraints) (min_size max_size : Z)
    : sum zx_status Z :=
  if max_coded_width i <? min_coded_width_of i then inl ZX_ERR_NOT_SUPPORTED
  else if max_coded_height i <? min_coded_height_of i then inl ZX_ERR_NOT_SUPPORTED
  else if max_bytes_per_row i <? min_bytes_per_row_of i then inl ZX_ERR_NOT_SUPPORTED
  else if max_coded_width_times_coded_height i <?
          u32 (min_coded_width_of i * min_coded_height_of i) then inl ZX_ERR_NOT_SUPPORTED
  else
    let image_min_size_bytes := ImageFormatImageSize (pixel_format i) (min_coded_width_of i)
                                  (min_coded_height_of i) (min_bytes_per_row_of i) in
    if min_size <? image_min_size_bytes then
      if max_size <? image_min_size_bytes then inl ZX_ERR_NOT_SUPPORTED
      else inr image_min_size_bytes
    else inr min_size.

(** The number of buffers. *)
Definition buffer_count (constraints : BufferCollectionConstraints) : Z :=
  Z.max (u32 (min_buffer_count_for_camping constraints +
              min_buffer_count_for_dedicated_slack constraints +
              min_buffer_count_for_shared_slack constraints))
        (min_buffer_count constraints).

(** From the choice of image entry to the end. *)
Definition size_and_finish (device : Device) (constraints : BufferCollectionConstraints)
    (count : Z) (heap : Z) (domain : CoherencyDomain) (image : option ImageFormatConstraints)
    : sum zx_status BufferCollectionInfo :=
  let m := buffer_memory_constraints constraints in
  match match image with
        | Some i => image_min_size i (min_size_bytes m) (max_size_bytes m)
        | None => inr (min_size_bytes m)
        end with
  | inl e => inl e
  | inr min_size =>
      if min_size =? 0 then inl ZX_ERR_NOT_SUPPORTED
      else if kMaxTotalSizeBytesPerCollection <? u64 (min_size * count) then inl ZX_ERR_NO_MEMORY
      else if kMaxSizeBytesPerBuffer <? min_size then inl ZX_ERR_NO_MEMORY
      else if max_allocation_size device <? u32 min_size then inl ZX_ERR_NO_MEMORY
      else
        let usable_start :=
          if secure_required m && need_clear_aux_buffers_for_secure constraints
          then Z.lor 0 kNeedAuxVmoAlso else 0 in
        inr (mkInfo (replicate (Z.to_nat count) usable_start)
               (mkSettings (mkMemorySettings (u32 min_size) (physically_contiguous_required m)
                  (secure_required m) domain heap) image))
  end.

Definition GenerateUnpopulatedBufferCollectionInfo (device : Device)
    (constraints : BufferCollectionConstraints) : exec (sum zx_status BufferCollectionInfo) :=
  let m := buffer_memory_constraints constraints in
  let count := buffer_count constraints in
  if max_buffer_count constraints <? count then Done (inl ZX_ERR_NOT_SUPPORTED)
  else if kMaxCountBufferCollectionInfoBuffers <? count then Done (inl ZX_ERR_NOT_SUPPORTED)
  else
  (ASSERT IsSecurePermitted m || negb (secure_required m) ;;
   if secure_required m && (need_clear_aux_buffers_for_secure constraints &&
                            negb (allow_clear_aux_buffers_for_secure constraints))
   then Done (inl ZX_ERR_NOT_SUPPORTED)
   else
   exec_bind _ _ (fun get_heap =>
     match get_heap with
     | inl e => Done (inl e)
     | inr heap =>
         match GetAllocator device heap (physically_contiguous_required m) with
         | None => Done (inl ZX_ERR_NO_MEMORY)
         | Some allocator =>
             exec_bind _ _ (fun domain =>
               match domain with
               | None => Done (inl ZX_ERR_NOT_SUPPORTED)
               | Some domain =>
                   match image_format_constraints constraints with
                   | [] => Done (size_and_finish device constraints count heap domain None)
                   | images =>
                       match pick_image device (usage constraints) (secure_required m) None images with
                       | None => Done (inl ZX_ERR_NOT_SUPPORTED)
                       | Some i =>
                           Done (size_and_finish device constraints count heap domain (Some i))
                       end
                   end
               end) (GetCoherencyDomain constraints allocator)
         end
     end) (GetHeap m device))%exec.

End generate.

(** ** What is chosen is permitted *)

Section generate_facts.
Context `{fidl : Sysmem2} `{lib : !ImageFormatLib} `{consts : CostConstants}.
Implicit Types (m : BufferMemoryConstraints) (c : BufferCollectionConstraints) (dev : Device).

Lemma find_heap_in m dev l h : find_heap m dev l = Done (inr h) -> h ∈ l.
Proof.
  induction l as [|x l IH]; simpl; [done|].
  intros (p & _ & H)%exec_bind_Done. destruct (coherency_domain_support p) as [s|].
  - destruct (shares_domain s m); [injection H as <-; left|right; auto].
  - right. auto.
Qed.

Lemma GetHeap_permitted m dev h : GetHeap m dev = Done (inr h) -> IsHeapPermitted m h = true.
Proof.
  unfold GetHeap. destruct (secure_required m).
  - intros (? & _ & H)%exec_bind_Done.
    destruct (IsHeapPermitted m HeapType_kAmlogicSecure) eqn:E; [by injection H as <-|].
    apply exec_bind_Done in H as (? & Ha%zx_assert_Done & [= <-]). done.
  - destruct (IsHeapPermitted m HeapType_kSystemRam) eqn:E; [by intros [= <-]|].
    intros H%find_heap_in. apply IsHeapPermitted_spec. by right.
Qed.

Lemma GetCoherencyDomain_supported c a d :
  GetCoherencyDomain c a = Done (Some d) ->
  domain_supported (buffer_memory_constraints c) d = true.
Proof.
  unfold GetCoherencyDomain. destruct (coherency_domain_support a) as [s|]; [|done].
  intros [= H]. repeat case_match; simplify_eq; simpl;
    repeat match goal with H : _ && _ = true |- _ => apply andb_true_iff in H as [? ?] end; done.
Qed.

End generate_facts.

(** Walking a list and replacing the choice by an eligible item that compares less finds an
    eligible item of least cost, if smaller never costs more. *)
Section cheapest.
Context {E : Type} (skip : E -> bool) (less : E -> E -> bool) (cost_of : E -> Z).
Context (less_cost : forall a b, less a b = true -> cost_of a <= cost_of b).
Context (not_less_cost : forall a b, less a b = false -> cost_of b <= cost_of a).

Lemma foldl_cheapest l :
  match foldl (fun best i => if skip i then best else
                 match best with
                 | None => Some i
                 | Some b => if less i b then Some i else best
                 end) None l with
  | Some e => e ∈ l /\ skip e = false /\ forall d, d ∈ l -> skip d = false -> cost_of e <= cost_of d
  | None => forall d, d ∈ l -> skip d = true
  end.
Proof.
  induction l as [|x l IH] using rev_ind; [by intros d ?%elem_of_nil|].
  rewrite foldl_app. cbn [foldl].
  assert (forall d, d ∈ l ++ [x] <-> d ∈ l \/ d = x) as Happ
    by (intros d; by rewrite elem_of_app, list_elem_of_singleton).
  destruct (skip x) eqn:Ex; destruct (foldl _ None l) as [b|].
  - destruct IH as (? & ? & Hmin). split_and!; [apply Happ; by left|done|].
    intros d [?| ->]%Happ; [auto|congruence].
  - intros d [?| ->]%Happ; auto.
  - destruct IH as (? & ? & Hmin). destruct (less x b) eqn:El.
    + split_and!; [apply Happ; by right|done|]. intros d [?| ->]%Happ Hd; [|lia].
      etrans; [by apply less_cost|auto].
    + split_and!; [apply Happ; by left|done|]. intros d [?| ->]%Happ Hd; auto.
  - split_and!; [apply Happ; by right|done|]. intros d [Hd| ->]%Happ Hs; [|lia].
    rewrite (IH d Hd) in Hs. done.
Qed.
End cheapest.

Section generate_correct.
Context `{fidl : Sysmem2} `{lib : !ImageFormatLib} `{consts : CostConstants}.
Implicit Types (m : BufferMemoryConstraints) (c : BufferCollectionConstraints) (dev : Device).

(** Formats the choice may fall on. *)
Definition eligible (secure : bool) (i : ImageFormatConstraints) : bool :=
  negb (secure && negb (ImageFormatCompatibleWithProtectedMemory (pixel_format i))).

(** The chosen entry: eligible, and no eligible entry costs less on this device. *)
Definition cheapest_image dev u secure (l : list ImageFormatConstraints) i : Prop :=
  i ∈ l /\ eligible secure i = true /\
  forall j, j ∈ l -> eligible secure j = true ->
    GetCost (pdev_device_info_vid dev) (pdev_device_info_pid dev) u (pixel_format i) <=
    GetCost (pdev_device_info_vid dev) (pdev_device_info_pid dev) u (pixel_format j).

Lemma pick_image_spec dev u secure l :
  match pick_image dev u secure None l with
  | Some i => cheapest_image dev u secure l i
  | None => forall i, i ∈ l -> eligible secure i = false
  end.
Proof.
  pose proof (foldl_cheapest
    (fun i => secure && negb (ImageFormatCompatibleWithProtectedMemory (pixel_format i)))
    (fun i b => CompareImageFormatConstraintsByIndex (pdev_device_info_vid dev)
                  (pdev_device_info_pid dev) u i b <? 0)
    (fun i => GetCost (pdev_device_info_vid dev) (pdev_device_info_pid dev) u (pixel_format i))) as H.
  specialize (H ltac:(intros a b Hab%Z.ltb_lt; exact (proj1 (ByIndex_cost _ _ u a b) Hab))
                ltac:(intros a b Hab%Z.ltb_ge; exact (proj2 (ByIndex_cost _ _ u a b) Hab)) l).
  unfold pick_image, cheapest_image, eligible. destruct (foldl _ None l) as [i|].
  - setoid_rewrite negb_true_iff. exact H.
  - setoid_rewrite negb_false_iff. exact H.
Qed.

(** *** Sizes *)

Lemma image_min_size_bounds i lo hi sz :
  lo <= hi -> image_min_size i lo hi = inr sz -> lo <= sz <= hi.
Proof.
  intros Hle. unfold image_min_size.
  repeat (match goal with |- context [if ?b then inl _ else _] => destruct b; [done|] end).
  destruct (Z.ltb_spec lo (ImageFormatImageSize (pixel_format i) (min_coded_width_of i)
    (min_coded_height_of i) (min_bytes_per_row_of i))) as [|].
  - destruct (Z.ltb_spec hi (ImageFormatImageSize (pixel_format i) (min_coded_width_of i)
      (min_coded_height_of i) (min_bytes_per_row_of i))); [done|]. intros [= <-]. lia.
  - intros [= <-]. lia.
Qed.

Lemma size_and_finish_spec dev c count h d image info :
  let m := buffer_memory_constraints c in
  is_u32 (min_size_bytes m) -> is_u32 (max_size_bytes m) -> min_size_bytes m <= max_size_bytes m ->
  0 <= count <= kMaxCountBufferCollectionInfoBuffers ->
  kMaxCountBufferCollectionInfoBuffers <= UINT32_MAX ->
  size_and_finish dev c count h d image = inr info ->
  let s := buffer_settings (settings info) in
  settings_image (settings info) = image /\ Z.of_nat (length (buffers info)) = count /\
  is_physically_contiguous s = physically_contiguous_required m /\
  is_secure s = secure_required m /\ coherency_domain s = d /\ heap s = h /\
  min_size_bytes m <= size_bytes s <= max_size_bytes m /\ 1 <= size_bytes s /\
  size_bytes s <= kMaxSizeBytesPerBuffer /\ size_bytes s <= max_allocation_size dev /\
  count * size_bytes s <= kMaxTotalSizeBytesPerCollection.
Proof.
  cbv zeta. intros Hmin Hmax Hle Hcount Hk. unfold size_and_finish.
  set (chosen := match image with Some _ => _ | None => _ end).
  assert (forall sz, chosen = inr sz -> min_size_bytes (buffer_memory_constraints c) <= sz <=
            max_size_bytes (buffer_memory_constraints c)) as Hsz.
  { subst chosen. intros sz. destruct image; [by apply image_min_size_bounds|]. intros [= <-]. lia. }
  destruct chosen as [|sz]; [done|]. specialize (Hsz sz eq_refl).
  destruct (Z.eqb_spec sz 0); [done|].
  destruct (Z.ltb_spec kMaxTotalSizeBytesPerCollection (u64 (sz * count))); [done|].
  destruct (Z.ltb_spec kMaxSizeBytesPerBuffer sz); [done|].
  assert (is_u32 sz) as Hu by (unfold is_u32 in *; lia). rewrite (u32_small sz Hu).
  destruct (Z.ltb_spec (max_allocation_size dev) sz); [done|].
  intros [= <-]. simpl. rewrite length_replicate. unfold is_u32, UINT32_MAX, kMaxSizeBytesPerBuffer in *.
  assert (u64 (sz * count) = sz * count) as E by (apply u64_small; unfold is_u64; nia).
  split_and!; try done; lia.
Qed.

Lemma buffer_count_bounds c : min_buffer_count c <= buffer_count c /\ 0 <= buffer_count c.
Proof.
  unfold buffer_count. pose proof (u32_range (min_buffer_count_for_camping c +
    min_buffer_count_for_dedicated_slack c + min_buffer_count_for_shared_slack c)) as H.
  unfold is_u32 in H. lia.
Qed.

(** The choice the settings record. *)
Definition chosen_memory (info : BufferCollectionInfo) : MemoryPoint :=
  let s := buffer_settings (settings info) in
  mkMemoryPoint (size_bytes s) (heap s) (is_physically_contiguous s) (is_secure s)
    (coherency_domain s).

Lemma generate_parts dev c info :
  GenerateUnpopulatedBufferCollectionInfo dev c = Done (inr info) ->
  let m := buffer_memory_constraints c in
  buffer_count c <= max_buffer_count c /\ buffer_count c <= kMaxCountBufferCollectionInfoBuffers /\
  exists h d image, IsHeapPermitted m h = true /\ domain_supported m d = true /\
    match image with
    | None => image_format_constraints c = []
    | Some i => cheapest_image dev (usage c) (secure_required m) (image_format_constraints c) i
    end /\
    size_and_finish dev c (buffer_count c) h d image = inr info.
Proof.
  unfold GenerateUnpopulatedBufferCollectionInfo. cbv zeta.
  destruct (Z.ltb_spec (max_buffer_count c) (buffer_count c)); [done|].
  destruct (Z.ltb_spec kMaxCountBufferCollectionInfoBuffers (buffer_count c)); [done|].
  intros (? & _ & Hgen)%exec_bind_Done. split_and!; [done..|].
  destruct (secure_required _ && _); [done|].
  apply exec_bind_Done in Hgen as ([e|h] & Hh & Hgen); [done|].
  destruct (GetAllocator _ _ _) as [a|]; [|done].
  apply exec_bind_Done in Hgen as ([d|] & Hd & Hgen); [|done].
  exists h, d.
  pose proof (pick_image_spec dev (usage c) (secure_required (buffer_memory_constraints c))
    (image_format_constraints c)) as Hpick.
  destruct (image_format_constraints c) as [|i0 l].
  - exists None. injection Hgen as Hgen. split_and!; [..|done|done];
      [by eapply GetHeap_permitted|by eapply GetCoherencyDomain_supported].
  - destruct (pick_image _ _ _ None (i0 :: l)) as [i|]; [|done]. injection Hgen as Hgen.
    exists (Some i). split; [by eapply GetHeap_permitted|].
    split; [by eapply GetCoherencyDomain_supported|done].
Qed.

Lemma generate_spec dev c info :
  let m := buffer_memory_constraints c in
  is_u32 (min_size_bytes m) -> is_u32 (max_size_bytes m) -> min_size_bytes m <= max_size_bytes m ->
  kMaxCountBufferCollectionInfoBuffers <= UINT32_MAX ->
  GenerateUnpopulatedBufferCollectionInfo dev c = Done (inr info) ->
  let n := Z.of_nat (length (buffers info)) in
  let size := size_bytes (buffer_settings (settings info)) in
  n = buffer_count c /\ n <= max_buffer_count c /\
  n <= kMaxCountBufferCollectionInfoBuffers /\
  memory_permits m (chosen_memory info) /\
  1 <= size <= kMaxSizeBytesPerBuffer /\ size <= max_allocation_size dev /\
  n * size <= kMaxTotalSizeBytesPerCollection /\
  match settings_image (settings info) with
  | None => image_format_constraints c = []
  | Some i => cheapest_image dev (usage c) (secure_required m) (image_format_constraints c) i
  end.
Proof.
  cbv zeta. intros Hmin Hmax Hle Hk (Hc1 & Hc2 & h & d & image & Hh & Hd & Hi & Hf)%generate_parts.
  pose proof (buffer_count_bounds c) as [_ ?].
  destruct (size_and_finish_spec dev c (buffer_count c) h d image info Hmin Hmax Hle)
    as (-> & -> & E1 & E2 & E3 & E4 & ? & ? & ? & ? & ?); [lia|done..|].
  unfold memory_permits, chosen_memory; simpl. rewrite E1, E2, E3, E4.
  split_and!; try done; lia.
Qed.

Context `{ok : !ImageFormatLibOk}.

(** *** How many buffers the participants ask for *)

Definition total (f : BufferCollectionConstraints -> Z) (cs : list BufferCollectionConstraints) : Z :=
  foldr (fun c n => f c + n) 0 cs.
Definition largest (f : BufferCollectionConstraints -> Z) (cs : list BufferCollectionConstraints) : Z :=
  foldr (fun c n => Z.max (f c) n) 0 cs.

(** The buffers the participants camp on and their dedicated slack, each participant's own, and the
    slack they share. *)
Definition buffers_demanded (cs : list BufferCollectionConstraints) : Z :=
  total min_buffer_count_for_camping cs + total min_buffer_count_for_dedicated_slack cs +
  largest min_buffer_count_for_shared_slack cs.

Lemma sanitize_counts stage w c :
  CheckSanitizeBufferCollectionConstraints stage w = Done (Some c) ->
  min_buffer_count_for_camping c = default 0 (Wire.min_buffer_count_for_camping w) /\
  min_buffer_count_for_dedicated_slack c = default 0 (Wire.min_buffer_count_for_dedicated_slack w) /\
  min_buffer_count_for_shared_slack c = default 0 (Wire.min_buffer_count_for_shared_slack w).
Proof.
  unfold CheckSanitizeBufferCollectionConstraints.
  set (u0 := if IsEmpty w then _ else _). clearbody u0.
  destruct (CheckSanitizeBufferUsage stage u0) as [u|]; [|done].
  cbn [mbind option_bind]. do 2 (match goal with |- context [reject ?b _] => destruct b end; [done|]; cbn [reject]).
  destruct (CheckSanitizeBufferMemoryConstraints _ _ _) as [m|]; [|done].
  cbn [mbind option_bind].
  destruct (sanitize_images _ _) as [images|];
    repeat (match goal with |- context [reject ?b _] => destruct b end; [done|]; cbn [reject]);
    [|done].
  cbn [mbind option_bind image_format_constraints]. destruct stage; intros H.
  - by injection H as <-.
  - injection H as H. by apply reject_Some in H as [_ [= <-]].
  - by apply exec_bind_Done in H as (images' & _ & [= <-]).
Qed.

Lemma accumulate_counts ws : forall acc cs r,
  accumulate_all acc ws = Done (Some r) ->
  Forall2 (fun w c => CheckSanitizeBufferCollectionConstraints kNotAggregated w = Done (Some c)) ws cs ->
  0 <= min_buffer_count_for_shared_slack acc -> 0 <= min_buffer_count acc ->
  u32 (min_buffer_count_for_camping r) =
    u32 (min_buffer_count_for_camping acc + total min_buffer_count_for_camping cs) /\
  u32 (min_buffer_count_for_dedicated_slack r) =
    u32 (min_buffer_count_for_dedicated_slack acc + total min_buffer_count_for_dedicated_slack cs) /\
  min_buffer_count_for_shared_slack r =
    Z.max (min_buffer_count_for_shared_slack acc) (largest min_buffer_count_for_shared_slack cs) /\
  min_buffer_count r = Z.max (min_buffer_count acc) (largest min_buffer_count cs).
Proof.
  induction ws as [|w ws IH]; intros acc cs r; simpl.
  { intros [= <-] ->%Forall2_nil_inv_l ? ?. simpl. rewrite !Z.add_0_r. split_and!; [done..|lia|lia]. }
  intros ([c|] & Hc & H)%exec_bind_Done (c' & cs' & Hc' & Hcs & ->)%Forall2_cons_inv_l Hs0 Hm0; [|done].
  rewrite Hc' in Hc. injection Hc as ->. unfold AccumulateConstraintBufferCollection in H.
  destruct (AccumulateConstraintBufferMemory _ _) as [m|]; [|done]. cbn [mbind option_bind] in H.
  match type of H with context [@mbind _ _ _ _ _ ?x] => destruct x as [images|] end; [|done].
  cbn [mbind option_bind] in H. destruct (IH _ _ _ H Hcs) as (E1 & E2 & E3 & E4); simpl in *; [lia..|].
  rewrite E1, E2, E3, E4. unfold u32. rewrite !Zplus_mod_idemp_l, !Z.add_assoc. split_and!; [done..|lia|lia].
Qed.

Lemma combine_counts ws cs r :
  CombineConstraints ws = Done (Some r) ->
  Forall2 (fun w c => CheckSanitizeBufferCollectionConstraints kNotAggregated w = Done (Some c)) ws cs ->
  buffer_count r = Z.max (u32 (buffers_demanded cs)) (largest min_buffer_count cs).
Proof.
  unfold CombineConstraints. destruct (negb _); [done|].
  intros ([acc0|] & H0 & H)%exec_bind_Done Hcs; [|done].
  apply exec_bind_Done in H as ([acc|] & Hacc & H); [|done].
  destruct (sanitize_counts _ _ _ H0) as (A1 & A2 & A3).
  destruct (sanitize_common _ _ _ H0) as (_ & _ & A4 & _).
  destruct (sanitize_counts _ _ _ H) as (B1 & B2 & B3).
  destruct (sanitize_common _ _ _ H) as (_ & _ & B4 & _). simpl in *.
  destruct (accumulate_counts _ _ _ _ Hacc Hcs) as (E1 & E2 & E3 & E4); [lia..|].
  rewrite A1 in E1. rewrite A2 in E2. rewrite A3 in E3. rewrite A4 in E4.
  assert (forall f, 0 <= largest f cs) as Hpos by (intros f; clear; induction cs; simpl; lia).
  rewrite Z.max_r in E3, E4 by apply Hpos.
  unfold buffer_count, buffers_demanded. rewrite B1, B2, B3, B4, E3, E4. f_equal.
  unfold u32 in *. rewrite Z.add_0_l in E1, E2.
  rewrite <- Zplus_mod_idemp_l, (Z.add_mod (min_buffer_count_for_camping acc)), E1, E2 by done.
  by rewrite <- Z.add_mod, Zplus_mod_idemp_l by done.
Qed.

(** C3. What sysmem generates satisfies every participant. If combining the participants'
    constraints succeeds and settings are generated from the result, then the number of buffers is
    the sum of what the participants camp on and of their dedicated slack, plus the largest slack
    they share, computed in 32 bits, or the largest of their minima if that is more; each
    participant's sanitised constraints permit the number of buffers, the chosen memory (size,
    heap, contiguity, security, coherency domain) and every image the returned image constraints
    permit (any image, if there are none); and the buffers are at least one byte, at most 256 MiB
    each, at most 1 GiB together, and within the device's limit. *)
Theorem allocation_satisfies_participants dev ws r info :
  kMaxCountBufferCollectionInfoBuffers <= UINT32_MAX ->
  CombineConstraints ws = Done (Some r) ->
  GenerateUnpopulatedBufferCollectionInfo dev r = Done (inr info) ->
  let n := Z.of_nat (length (buffers info)) in
  let size := size_bytes (buffer_settings (settings info)) in
  (exists cs, Forall2 (fun w c =>
       CheckSanitizeBufferCollectionConstraints kNotAggregated w = Done (Some c)) ws cs /\
     n = Z.max (u32 (buffers_demanded cs)) (largest min_buffer_count cs) /\
     Forall (fun c =>
       min_buffer_count c <= n <= max_buffer_count c /\
       memory_permits (buffer_memory_constraints c) (chosen_memory info) /\
       forall p, match settings_image (settings info) with
                 | Some i => image_permits i p
                 | None => True
                 end -> images_permit (image_format_constraints c) p) cs) /\
  1 <= size <= kMaxSizeBytesPerBuffer /\ size <= max_allocation_size dev /\
  n * size <= kMaxTotalSizeBytesPerCollection.
Proof.
  cbv zeta. intros Hk Hr Hg.
  destruct (combine_memory ws r Hr) as (Hu1 & Hu2 & Hle).
  destruct (generate_spec dev r info Hu1 Hu2 Hle Hk Hg)
    as (Hn & Hn2 & _ & Hm & ? & ? & ? & Himg).
  split; [|split_and!; lia].
  destruct (combine_refines ws r Hr) as (cs & Hcs & Hp). exists cs. split; [done|].
  split; [rewrite Hn; by apply (combine_counts ws)|].
  pose proof (buffer_count_bounds r) as [Hb _].
  eapply Forall_impl; [exact Hp|]. intros c [Hcount Hmem Himages].
  split; [lia|]. split; [by apply Hmem|]. intros p Hpi. apply Himages.
  destruct (settings_image _) as [i|]; [|by left]. destruct Himg as [Hin _]. right. by exists i.
Qed.

(** *** The image the buffers are sized for *)

Lemma AlignUp_spec v d :
  0 <= v -> 0 < d -> v + d - 1 < 2 ^ 32 ->
  v <= AlignUp v d < v + d /\ (d | AlignUp v d).
Proof.
  intros Hv Hd Hb. unfold AlignUp. rewrite u32_small by (unfold is_u32; lia).
  split; [|apply Z.divide_factor_r].
  pose proof (Z.div_mod (v + d - 1) d ltac:(lia)).
  pose proof (Z.mod_pos_bound (v + d - 1) d ltac:(lia)). lia.
Qed.

(** Nothing wraps while the smallest image is computed. *)
Definition image_arith_fits (i : ImageFormatConstraints) : Prop :=
  let w := Z.max (min_coded_width i) (required_max_coded_width i) in
  let h := Z.max (min_coded_height i) (required_max_coded_height i) in
  let row := ImageFormatStrideBytesPerWidthPixel (pixel_format i) * min_coded_width_of i in
  (0 <= w /\ w + coded_width_divisor i - 1 < 2 ^ 32) /\
  (0 <= h /\ h + coded_height_divisor i - 1 < 2 ^ 32) /\
  (0 <= row < 2 ^ 32 /\ Z.max (min_bytes_per_row i) row + bytes_per_row_divisor i - 1 < 2 ^ 32) /\
  min_coded_width_of i * min_coded_height_of i < 2 ^ 32.

(** The smallest image for the entry [i] that holds what is required, as a layout. *)
Definition smallest_image (i : ImageFormatConstraints) (p : ImagePoint) : Prop :=
  pt_format p = pixel_format i /\ pt_width p = min_coded_width_of i /\
  pt_height p = min_coded_height_of i /\ pt_bytes_per_row p = min_bytes_per_row_of i /\
  pt_start_offset p = 0 /\ pt_display_width p = 0 /\ pt_display_height p = 0.

Lemma image_min_size_layout i lo hi sz p :
  wf_image i -> image_arith_fits i -> image_min_size i lo hi = inr sz -> smallest_image i p ->
  layout_permits i p /\
  required_max_coded_width i <= pt_width p /\ required_max_coded_height i <= pt_height p /\
  ImageFormatStrideBytesPerWidthPixel (pixel_format i) * pt_width p <= pt_bytes_per_row p /\
  ImageFormatImageSize (pt_format p) (pt_width p) (pt_height p) (pt_bytes_per_row p) <= sz.
Proof.
  intros (Hw & Hh & Hb & _) ((Hw0 & Hw1) & (Hh0 & Hh1) & ([Hr0 Hr1] & Hr2) & Hprod) Hs
    (Ef & Ew & Eh & Eb & Eo & Edw & Edh).
  assert (forall z, is_pow2 z -> 0 < z) as Hpos by (intros z (n & ? & ->); by apply Z.pow_pos_nonneg).
  destruct (AlignUp_spec _ _ Hw0 (Hpos _ Hw) Hw1) as [Bw Dw].
  destruct (AlignUp_spec _ _ Hh0 (Hpos _ Hh) Hh1) as [Bh Dh].
  fold (min_coded_width_of i) in Bw, Dw. fold (min_coded_height_of i) in Bh, Dh.
  destruct (AlignUp_spec (Z.max (min_bytes_per_row i) (ImageFormatStrideBytesPerWidthPixel
    (pixel_format i) * min_coded_width_of i)) _
    (Z.le_trans _ _ _ Hr0 (Z.le_max_r _ _)) (Hpos _ Hb) Hr2) as [Bb Db].
  assert (min_bytes_per_row_of i = AlignUp (Z.max (min_bytes_per_row i)
    (ImageFormatStrideBytesPerWidthPixel (pixel_format i) * min_coded_width_of i))
    (bytes_per_row_divisor i)) as Ebr by (unfold min_bytes_per_row_of; by rewrite u32_small).
  rewrite <- Ebr in Bb, Db. unfold image_min_size in Hs.
  rewrite (u32_small (min_coded_width_of i * min_coded_height_of i)) in Hs
    by (unfold is_u32; split; [apply Z.mul_nonneg_nonneg; lia|done]).
  destruct (Z.ltb_spec (max_coded_width i) (min_coded_width_of i)); [done|].
  destruct (Z.ltb_spec (max_coded_height i) (min_coded_height_of i)); [done|].
  destruct (Z.ltb_spec (max_bytes_per_row i) (min_bytes_per_row_of i)); [done|].
  destruct (Z.ltb_spec (max_coded_width_times_coded_height i)
              (min_coded_width_of i * min_coded_height_of i)); [done|].
  unfold layout_permits. rewrite Ef, Ew, Eh, Eb, Eo, Edw, Edh.
  split; [split_and!; try done; try lia; apply Z.divide_0_r|]. split_and!; [lia..|].
  destruct (Z.ltb_spec lo (ImageFormatImageSize (pixel_format i) (min_coded_width_of i)
    (min_coded_height_of i) (min_bytes_per_row_of i))); [|injection Hs as <-; lia].
  destruct (Z.ltb_spec hi (ImageFormatImageSize (pixel_format i) (min_coded_width_of i)
    (min_coded_height_of i) (min_bytes_per_row_of i))); [done|]. injection Hs as <-. lia.
Qed.

Lemma size_and_finish_image dev c count h d i info :
  is_u32 (max_size_bytes (buffer_memory_constraints c)) ->
  0 <= min_size_bytes (buffer_memory_constraints c) <= max_size_bytes (buffer_memory_constraints c) ->
  size_and_finish dev c count h d (Some i) = inr info ->
  settings_image (settings info) = Some i /\
  image_min_size i (min_size_bytes (buffer_memory_constraints c))
    (max_size_bytes (buffer_memory_constraints c)) =
    inr (size_bytes (buffer_settings (settings info))).
Proof.
  intros Hu Hle. unfold size_and_finish.
  destruct (image_min_size i _ _) as [|sz] eqn:E; [done|].
  apply image_min_size_bounds in E; [|lia].
  repeat (match goal with |- context [if ?b then inl _ else _] => destruct b; [done|] end).
  intros [= <-]. simpl. split; [done|]. rewrite u32_small by (unfold is_u32 in *; lia). done.
Qed.

(** C37. The buffers hold the image they are for. When settings are generated with an image format,
    the entry is one of the combined ones, usable for protected memory if the buffers are secure,
    and none of the usable ones has a lower cost on the device; and the smallest image of the
    entry that is as large as any participant requires is within the entry's bounds and divisors,
    its rows fit its stride, and it fits in a buffer, provided the 32-bit computation of its
    dimensions does not wrap around. *)
Theorem buffers_hold_required_image dev ws r info i p :
  CombineConstraints ws = Done (Some r) ->
  GenerateUnpopulatedBufferCollectionInfo dev r = Done (inr info) ->
  settings_image (settings info) = Some i -> image_arith_fits i -> smallest_image i p ->
  cheapest_image dev (usage r) (is_secure (buffer_settings (settings info)))
    (image_format_constraints r) i /\
  layout_permits i p /\
  required_max_coded_width i <= pt_width p /\ required_max_coded_height i <= pt_height p /\
  ImageFormatStrideBytesPerWidthPixel (pixel_format i) * pt_width p <= pt_bytes_per_row p /\
  ImageFormatImageSize (pt_format p) (pt_width p) (pt_height p) (pt_bytes_per_row p) <=
    size_bytes (buffer_settings (settings info)).
Proof.
  intros Hr (_ & _ & h & d & image & _ & _ & Hi & Hf)%generate_parts Es Hfits Hp.
  destruct (combine_memory ws r Hr) as ([? ?] & Hu2 & Hle).
  assert (is_secure (buffer_settings (settings info)) =
          secure_required (buffer_memory_constraints r) /\ settings_image (settings info) = image)
    as [-> Ei].
  { clear -Hf. unfold size_and_finish in Hf. repeat case_match; simplify_eq; done. }
  rewrite Ei in Es. subst image.
  apply size_and_finish_image in Hf as [_ Hsz]; [|done|lia].
  assert (wf_image i) as Hwf.
  { pose proof (combine_images_wf ws r Hr) as H'. rewrite Forall_forall in H'. apply H', Hi. }
  split; [done|]. by apply (image_min_size_layout i _ _ _ p Hwf Hfits Hsz).
Qed.

End generate_correct.

(** ** Evaluated *)

Module GenerateExample.

Definition all_domains : HeapProperties := mkHeapProperties (Some (mkSupport true true true)).

Definition device : Device := mkDevice {[ 0 := all_domains ]} (Some all_domains) 5 2 UINT64_MAX.

Abbreviation generate := (@GenerateUnpopulatedBufferCollectionInfo ex_fidl ex_lib ex_consts device).
Abbreviation combine := (@CombineConstraints ex_fidl ex_lib).

(** The settings for the participants of [SysmemExample]. *)
Definition info : @BufferCollectionInfo ex_fidl :=
  Eval vm_compute in
  match generate Example.combined with
  | Done (inr info) => info
  | _ => @mkInfo ex_fidl [] (@mkSettings ex_fidl (mkMemorySettings 0 false false kCpu 0) None)
  end.

Definition image : @ImageFormatConstraints ex_fidl :=
  Eval vm_compute in
  match settings_image (settings info), image_format_constraints Example.combined with
  | Some i, _ => i
  | None, i :: _ => i
  | None, [] => @image_defaults ex_fidl ex_lib (ex_image 0 [] 0 0)
  end.

Lemma allocation_satisfies_participants_witness :
  generate Example.combined = Done (inr info) /\
  Z.of_nat (length (buffers info)) * size_bytes (buffer_settings (settings info)) <=
    kMaxTotalSizeBytesPerCollection.
Proof.
  split; [vm_compute; reflexivity|].
  apply (@allocation_satisfies_participants ex_fidl ex_lib ex_consts ex_ok device ex_participants
           Example.combined info); [vm_compute; discriminate|vm_compute; reflexivity..].
Defined.

Lemma buffers_hold_required_image_witness :
  image ∈ image_format_constraints Example.combined /\
  @min_bytes_per_row_of ex_fidl ex_lib image * @min_coded_height_of ex_fidl image <=
    size_bytes (buffer_settings (settings info)).
Proof.
  destruct (@buffers_hold_required_image ex_fidl ex_lib ex_consts ex_ok device ex_participants
    Example.combined info image
    (mkImagePoint (pixel_format image) 1 (@min_coded_width_of ex_fidl image)
       (@min_coded_height_of ex_fidl image) (@min_bytes_per_row_of ex_fidl ex_lib image) 0 0 0))
    as ((Hin & _) & _ & _ & _ & _ & Hsz).
  - vm_compute; reflexivity.
  - vm_compute; reflexivity.
  - vm_compute; reflexivity.
  - vm_compute. split_and!; discriminate || reflexivity.
  - by split_and!.
  - split; [exact Hin|exact Hsz].
Defined.

(** One participant that asks for memory from heap [h] only. *)
Definition from_heap (h camping : Z) : @Wire.BufferCollectionConstraints ex_fidl :=
  @Wire.mkConstraints ex_fidl (Some ex_cpu) (Some camping) None None None None
    (Some (Wire.mkMemory (Some 4096) None None None None None None (Some [h]))) None None None.

(** What [combine] and [generate] return, where they succeed. *)
Definition combined_of (ws : list (@Wire.BufferCollectionConstraints ex_fidl))
    : @BufferCollectionConstraints ex_fidl :=
  match combine ws with Done (Some r) => r | _ => Example.combined end.
Definition info_of (ws : list (@Wire.BufferCollectionConstraints ex_fidl))
    : @BufferCollectionInfo ex_fidl :=
  match generate (combined_of ws) with Done (inr i) => i | _ => info end.

(** A permitted heap the device does not have ends the process: [GetHeap] looks up the
    properties of each permitted heap with [allocators_.at], which aborts for a heap that is not
    registered, although the participant's constraints passed every check before. *)
Theorem unregistered_heap_aborts :
  exists r, combine [from_heap 77 1] = Done (Some r) /\ generate r = Panic.
Proof. exists (combined_of [from_heap 77 1]). split; vm_compute; reflexivity. Qed.

(** The buffers participants camp on are added up in 32 bits: two participants that each need
    2^31 buffers to themselves are given settings with no buffer at all, whereas either of them
    alone is refused. *)
Theorem camping_count_wraps :
  let ws := [from_heap 0 (2 ^ 31); from_heap 0 (2 ^ 31)] in
  (exists r info, combine ws = Done (Some r) /\ generate r = Done (inr info) /\
     buffers info = []) /\
  (exists r, combine [from_heap 0 (2 ^ 31)] = Done (Some r) /\
     generate r = Done (inl ZX_ERR_NOT_SUPPORTED)).
Proof.
  cbv zeta. set (w := from_heap 0 (2 ^ 31)). split.
  - exists (combined_of [w; w]), (info_of [w; w]). split_and!; vm_compute; reflexivity.
  - exists (combined_of [w]). split; vm_compute; reflexivity.
Qed.

Definition wide : @Wire.BufferCollectionConstraints ex_fidl :=
  ex_participant ex_cpu 1 [ex_image 101 [1] (2 ^ 30) (2 ^ 30)].

(** The stride of the smallest image is computed in 32 bits as well: for images 2^30 pixels
    wide at 4 bytes per pixel it wraps to 0, and the buffers get one byte, less than any image the
    returned constraints permit with rows that fit. *)
Theorem row_size_wraps :
  exists r info i,
    combine [wide] = Done (Some r) /\
    generate r = Done (inr info) /\ settings_image (settings info) = Some i /\
    size_bytes (buffer_settings (settings info)) = 1 /\
    forall p, @layout_permits ex_fidl i p ->
      @ImageFormatStrideBytesPerWidthPixel ex_fidl ex_lib (pixel_format i) * pt_width p >= 2 ^ 32.
Proof.
  exists (combined_of [wide]), (info_of [wide]),
    (default image (settings_image (settings (info_of [wide])))).
  split_and!; [vm_compute; reflexivity..|].
  intros p ([Hw _] & _). vm_compute in Hw. cbn -[Z.mul]. apply Z.le_ge.
  change (2 ^ 32) with (4 * 2 ^ 30). apply Z.mul_le_mono_nonneg_l; [lia|exact Hw].
Qed.

End GenerateExample.

