(* ===== verification/RangeSets.v ===== *)
(** * RangeSets: ranges of addresses and ordered sets of them

    Model of [Range] and of the [std::multiset]s of ranges in
    [src/devices/sysmem/drivers/sysmem/protected_ranges.h], and of the routines of [protected_ranges.cc]
    that only look at such sets. A set is the list of its elements in order. *)
From Stdlib Require Import ZArith Lia.
From stdpp Require Import prelude.
From S2P Require Import Prelude.

Local Open Scope Z_scope.

(** ** Ranges *)

Record Range := mkRange {
  begin_ : Z;
  length_ : Z
}.

#[global] Instance Range_eq_dec : EqDecision Range.
Proof. solve_decision. Defined.

Definition r_end (r : Range) : Z := u64 (begin_ r + length_ r).

Definition BeginLength (b l : Z) : Range := mkRange b l.
Definition BeginEnd (b e : Z) : Range := mkRange b (u64 (e - b)).

(** [empty]. *)
Definition is_empty (r : Range) : bool := r_end r <=? begin_ r.

Definition IsOverlap (a b : Range) : bool :=
  if r_end a <=? begin_ b then false else if r_end b <=? begin_ a then false else true.

Definition Intersect (a b : Range) : Range :=
  let new_begin := Z.max (begin_ a) (begin_ b) in
  let new_last := Z.min (u64 (r_end a - 1)) (u64 (r_end b - 1)) in
  let new_end := u64 (new_last + 1) in
  BeginLength new_begin (u64 (new_end - new_begin)).

Definition CompareRangeByBegin (left right : Range) : bool :=
  if begin_ left <? begin_ right then true
  else if begin_ right <? begin_ left then false
  else if length_ left <? length_ right then true
  else if length_ right <? length_ left then false
  else false.

Definition CompareRangeByLength (left right : Range) : bool :=
  if length_ left <? length_ right then true
  else if length_ right <? length_ left then false
  else if begin_ left <? begin_ right then true
  else if begin_ right <? begin_ left then false
  else false.

(** Is [a] covered by [b]? *)
Definition IsCoveredBy (a b : Range) : bool := (begin_ b <=? begin_ a) && (r_end a <=? r_end b).

(** ** Ordered sets *)

Section multiset.
Context (less : Range -> Range -> bool).

(** [emplace]: after the elements that are not greater. *)
Fixpoint emplace (r : Range) (l : list Range) : list Range :=
  match l with
  | [] => [r]
  | x :: l' => if less r x then r :: l else x :: emplace r l'
  end.

(** [erase] of a key: every element equivalent to it. *)
Definition erase (r : Range) (l : list Range) : list Range :=
  filter (fun x => less r x || less x r = true) l.

(** [lower_bound]: the position of the first element that is not less. *)
Fixpoint lower_bound (r : Range) (l : list Range) : nat :=
  match l with
  | [] => 0%nat
  | x :: l' => if less x r then S (lower_bound r l') else 0%nat
  end.

(** [upper_bound]: the position of the first element that is greater. *)
Fixpoint upper_bound (r : Range) (l : list Range) : nat :=
  match l with
  | [] => 0%nat
  | x :: l' => if less r x then 0%nat else S (upper_bound r l')
  end.

(** [erase(find(r))]: one element; erasing [end()] is undefined. *)
Definition erase_find (r : Range) (l : list Range) : exec (list Range) :=
  let k := lower_bound r l in
  match l !! k with
  | Some x => if less r x then Panic else Done (take k l ++ drop (S k) l)
  | None => Panic
  end.
End multiset.

Abbreviation insert_by_begin := (emplace CompareRangeByBegin).
Abbreviation erase_by_begin := (erase CompareRangeByBegin).

(** Is the range in the set? ([find(r) != end()]) *)
Definition contains (r : Range) (l : list Range) : bool :=
  match l !! lower_bound CompareRangeByBegin r l with
  | Some x => negb (CompareRangeByBegin r x)
  | None => false
  end.

(** The elements from position [i] to before position [j]. *)
Definition slice (i j : nat) (l : list Range) : list Range := take (j - i) (drop i l).

(** The loop that walks back from position [k]. *)
Fixpoint walk_back (range : Range) (ranges : list Range) (k : nat) : nat :=
  match k with
  | O => O
  | S k' =>
      match ranges !! k with
      | None => walk_back range ranges k'
      | Some r => if begin_ range <? r_end r then walk_back range ranges k' else k
      end
  end.

Definition IteratorsCoveringPotentialOverlapsOfRangeWithRanges (range : Range) (ranges : list Range) : nat * nat :=
  let first_ge_begin := lower_bound CompareRangeByBegin (BeginLength (begin_ range) 0) ranges in
  let look_begin := walk_back range ranges first_ge_begin in
  let look_begin :=
    match ranges !! look_begin with
    | Some r => if r_end r <=? begin_ range then S look_begin else look_begin
    | None => look_begin
    end in
  (look_begin, lower_bound CompareRangeByBegin (BeginLength (r_end range) 0) ranges).

(** The elements between the two iterators. *)
Definition look (range : Range) (ranges : list Range) : list Range :=
  let '(i, j) := IteratorsCoveringPotentialOverlapsOfRangeWithRanges range ranges in slice i j ranges.

(** ** Routines that look at sets *)

Fixpoint any_overlap (last_end : Z) (ranges : list Range) : bool :=
  match ranges with
  | [] => false
  | r :: ranges' => if begin_ r <? last_end then true else any_overlap (r_end r) ranges'
  end.

Definition IsAnyInternalOverlap (ranges : list Range) : bool := any_overlap 0 ranges.

Definition SubtractRanges (a b : Range) : exec (Range * Range) :=
  (ASSERT IsOverlap a b ;;
   Done (if begin_ a <? begin_ b then BeginEnd (begin_ a) (begin_ b) else BeginLength (begin_ a) 0,
         if r_end b <? r_end a then BeginEnd (r_end b) (r_end a) else BeginLength (r_end a) 0))%exec.

Fixpoint FindRangeToDelete (old_ranges new_ranges : list Range) : option Range :=
  match old_ranges with
  | [] => None
  | old_range :: rest =>
      if existsb (IsOverlap old_range) (look old_range new_ranges) then FindRangeToDelete rest new_ranges
      else Some old_range
  end.

(** The first of the begins (the last of the ends) of the ranges that overlap. *)
Definition min_begin (old_range : Range) (looked : list Range) : option Z :=
  fold_left (fun m r =>
    if IsOverlap old_range r
    then match m with Some b => if begin_ r <? b then Some (begin_ r) else m | None => Some (begin_ r) end
    else m) looked None.
Definition max_end (old_range : Range) (looked : list Range) : option Z :=
  fold_left (fun m r =>
    if IsOverlap old_range r
    then match m with Some e => if e <? r_end r then Some (r_end r) else m | None => Some (r_end r) end
    else m) looked None.

(** [FindRangeToShorten]: the range and what it is shortened to. *)
Fixpoint FindRangeToShorten (old_ranges new_ranges : list Range) : option (Range * Range) :=
  match old_ranges with
  | [] => None
  | old_range :: rest =>
      let looked := look old_range new_ranges in
      match min_begin old_range looked with
      | Some b =>
          if begin_ old_range <? b then Some (old_range, BeginEnd b (r_end old_range))
          else
            match max_end old_range looked with
            | Some e =>
                if e <? r_end old_range then Some (old_range, BeginEnd (begin_ old_range) e)
                else FindRangeToShorten rest new_ranges
            | None => FindRangeToShorten rest new_ranges
            end
      | None => FindRangeToShorten rest new_ranges
      end
  end.

(** The gaps between the elements of a list, in order. *)
Fixpoint gaps_from (prev_end : Z) (l : list Range) : list Range :=
  match l with
  | [] => []
  | r :: l' => BeginEnd prev_end (begin_ r) :: gaps_from (r_end r) l'
  end.
Definition gaps (l : list Range) : list Range :=
  match l with [] => [] | r :: l' => gaps_from (r_end r) l' end.

(** One range of [FindBestSplit]: the best gap so far with the range it is in. *)
Definition split_in (old_range : Range) (new_ranges : list Range) (best : option (Range * Range))
    : option (Range * Range) :=
  let old_interior := BeginEnd (u64 (begin_ old_range + 1)) (u64 (r_end old_range - 1)) in
  fold_left (fun best new_gap =>
    if match best with Some (_, g) => length_ new_gap <=? length_ g | None => false end then best
    else if IsCoveredBy new_gap old_interior then Some (old_range, new_gap) else best)
    (gaps (look old_range new_ranges)) best.

(** [FindBestSplit]: the range to split and the gap to stop using. *)
Definition FindBestSplit (old_ranges new_ranges : list Range) : option (Range * Range) :=
  fold_left (fun best old_range => split_in old_range new_ranges best) old_ranges None.

(** [FindBestMerge], from the second element on: [best] is the best gap so far, with its length. A second
    range that covers the same gap is not allowed. *)
Fixpoint best_merge (prev : Range) (old_ranges new_ranges : list Range) (best : option (Z * (Range * Range)))
    : exec (option (Z * (Range * Range))) :=
  match old_ranges with
  | [] => Done best
  | old_range :: rest =>
      let old_gap := BeginEnd (r_end prev) (begin_ old_range) in
      if match best with Some (size, _) => size <=? length_ old_gap | None => false end
      then best_merge old_range rest new_ranges best
      else
        match filter (fun r => IsCoveredBy old_gap r = true) (look old_gap new_ranges) with
        | [] => best_merge old_range rest new_ranges best
        | [_] => best_merge old_range rest new_ranges (Some (length_ old_gap, (prev, old_range)))
        | _ => Panic
        end
  end.

(** The two ranges to merge. *)
Definition FindBestMerge (old_ranges new_ranges : list Range) : exec (option (Range * Range)) :=
  match old_ranges with
  | [] => Done None
  | r :: rest => exec_bind _ _ (fun best => Done (option_map snd best)) (best_merge r rest new_ranges None)
  end.

(** [TryCoalesceAdjacentRangesAt], the search: the position of the range that starts at [location] when the
    one before it ends there. *)
Definition find_adjacent (ranges : list Range) (location : Z) : exec (option nat) :=
  if (length ranges <? 2)%nat then Done None
  else
    let second_block_iter := lower_bound CompareRangeByBegin (BeginLength location 0) ranges in
    match ranges !! second_block_iter with
    | None => Done None
    | Some second_block =>
        if negb (begin_ second_block =? location)
        then (ASSERT location <? begin_ second_block ;; Done None)%exec
        else
          match second_block_iter with
          | O => Done None
          | S first_block_iter =>
              match ranges !! first_block_iter with
              | None => Panic
              | Some first_block =>
                  if negb (r_end first_block =? location)
                  then (ASSERT r_end first_block <? location ;; Done None)%exec
                  else Done (Some second_block_iter)
              end
          end
    end.

(** The change of the set: both ranges are erased and their union is put in. *)
Definition weld (ranges : list Range) (second_block_iter : nat) : option (Range * Range * Range * list Range) :=
  match ranges !! pred second_block_iter, ranges !! second_block_iter with
  | Some first_block, Some second_block =>
      let new_range := BeginEnd (begin_ first_block) (r_end second_block) in
      Some (first_block, second_block, new_range,
            insert_by_begin new_range (take (pred second_block_iter) ranges ++ drop (S second_block_iter) ranges))
  | _, _ => None
  end.
