(* ===== verification/RangeFacts.v ===== *)
(** * RangeFacts: ordered sets of ranges as sets of addresses

    The sets of [protected_ranges.h] are described by the addresses they cover: [disj] is a set without
    overlap, [coal] one in which no two ranges touch either. A coalesced set is determined by the
    addresses it covers ([coal_canonical]), so every routine below is specified by its cover. *)
From Stdlib Require Import ZArith Lia Sorted.
From stdpp Require Import prelude sorting.
From S2P Require Import Prelude RangeSets.

Local Open Scope Z_scope.
Implicit Types (r a b : Range) (l : list Range).

(** ** Addresses *)

(** The end of a range that does not wrap. *)
Definition en r : Z := begin_ r + length_ r.

(** A range is not empty and does not reach the end of the address space. *)
Definition okr r : Prop := 0 <= begin_ r /\ 0 < length_ r /\ en r < 2 ^ 64.

Definition inr r (x : Z) : Prop := begin_ r <= x < en r.

Definition covers l (x : Z) : Prop := exists r, r ∈ l /\ inr r x.

(** The ranges are in order, do not overlap and start at [lo] or later. *)
Fixpoint disj (lo : Z) l : Prop :=
  match l with [] => True | r :: l' => lo <= begin_ r /\ okr r /\ disj (en r) l' end.

(** They do not touch either, and start after [lo]. *)
Fixpoint coal (lo : Z) l : Prop :=
  match l with [] => True | r :: l' => lo < begin_ r /\ okr r /\ coal (en r) l' end.

(** The number of addresses. *)
Fixpoint total l : Z := match l with [] => 0 | r :: l' => length_ r + total l' end.

Create HintDb ranges.

Lemma r_end_ok r : okr r -> r_end r = en r.
Proof. unfold okr, r_end, en. intros. apply u64_small. unfold is_u64. lia. Qed.

Lemma BeginEnd_ok (b e : Z) : 0 <= b < e -> e < 2 ^ 64 -> BeginEnd b e = mkRange b (e - b) /\ okr (mkRange b (e - b)).
Proof.
  unfold BeginEnd, okr, en. intros. simpl. rewrite u64_small by (unfold is_u64; lia). split; [done|lia].
Qed.

Lemma range_eq r a : begin_ r = begin_ a -> en r = en a -> r = a.
Proof. destruct r, a. unfold en. simpl. intros. f_equal; lia. Qed.

Lemma is_empty_ok r : okr r -> is_empty r = false.
Proof. intros H. unfold is_empty. rewrite r_end_ok by done. unfold okr, en in *. lia. Qed.

Lemma covers_nil x : covers [] x <-> False.
Proof. unfold covers. split; [intros (r & H & _); by apply not_elem_of_nil in H|done]. Qed.

Lemma covers_cons r l x : covers (r :: l) x <-> inr r x \/ covers l x.
Proof.
  unfold covers. split.
  - intros (a & [->|H]%elem_of_cons & Hx); eauto.
  - intros [H|(a & Ha & Hx)]; [exists r|exists a]; split; auto using list_elem_of_here, list_elem_of_further.
Qed.

Lemma covers_app l1 l2 x : covers (l1 ++ l2) x <-> covers l1 x \/ covers l2 x.
Proof.
  induction l1 as [|r l1 IH]; simpl; [rewrite covers_nil; tauto|]. rewrite !covers_cons, IH. tauto.
Qed.

Lemma covers_perm l1 l2 x : l1 ≡ₚ l2 -> covers l1 x <-> covers l2 x.
Proof. intros H. unfold covers. setoid_rewrite H. tauto. Qed.

#[global] Instance covers_proper : Proper ((≡ₚ) ==> (=) ==> iff) covers.
Proof. intros l1 l2 H x y ->. by apply covers_perm. Qed.

#[global] Instance total_proper : Proper ((≡ₚ) ==> (=)) total.
Proof. intros l1 l2 H. induction H; simpl; lia. Qed.

Lemma total_app l1 l2 : total (l1 ++ l2) = total l1 + total l2.
Proof. induction l1; simpl; lia. Qed.

Lemma length_total_nonneg l : Forall okr l -> 0 <= total l.
Proof. induction 1 as [|r l Hr _ IH]; simpl; [lia|]. unfold okr in Hr. lia. Qed.

(** ** Sets without overlap *)

Lemma disj_weaken lo lo' l : disj lo l -> lo' <= lo -> disj lo' l.
Proof. destruct l; simpl; [done|]. intros (? & ? & ?) ?. split_and!; [lia|done..]. Qed.

Lemma coal_weaken lo lo' l : coal lo l -> lo' <= lo -> coal lo' l.
Proof. destruct l; simpl; [done|]. intros (? & ? & ?) ?. split_and!; [lia|done..]. Qed.

Lemma coal_disj lo l : coal lo l -> disj (lo + 1) l.
Proof.
  revert lo. induction l as [|r l IH]; simpl; [done|]. intros lo (? & ? & H%IH).
  split_and!; [lia|done|]. eapply disj_weaken; [done|lia].
Qed.

Lemma disj_ok lo l : disj lo l -> Forall okr l.
Proof. revert lo. induction l as [|r l IH]; simpl; [by constructor|]. intros lo (? & ? & ?%IH). by constructor. Qed.

Lemma coal_ok lo l : coal lo l -> Forall okr l.
Proof. intros H%coal_disj. by eapply disj_ok. Qed.

Lemma disj_elem lo l r : disj lo l -> r ∈ l -> lo <= begin_ r /\ okr r.
Proof.
  revert lo. induction l as [|a l IH]; simpl; [intros ? _ H; by apply not_elem_of_nil in H|].
  intros lo (? & Hok & Hl) [->|Hin]%elem_of_cons; [done|].
  destruct (IH _ Hl Hin) as [? ?]. split; [|done]. unfold okr, en in *. lia.
Qed.

Lemma disj_covers lo l x : disj lo l -> covers l x -> lo <= x < 2 ^ 64.
Proof. intros H (r & Hr & Hx). destruct (disj_elem _ _ _ H Hr) as [? Hok]. unfold inr, okr in *. lia. Qed.

Lemma disj_app lo l1 l2 :
  disj lo (l1 ++ l2) <-> disj lo l1 /\ disj (default lo (en <$> last l1)) l2.
Proof.
  revert lo. induction l1 as [|r l1 IH]; intros lo; simpl; [tauto|]. rewrite IH.
  destruct (last l1) as [z|] eqn:E.
  - assert (last (r :: l1) = Some z) as ->; [|simpl; tauto].
    rewrite last_cons, E. done.
  - apply last_None in E as ->. simpl. tauto.
Qed.

(** Two different ranges of a set are one before the other. *)
Lemma disj_pair lo l a b : disj lo l -> a ∈ l -> b ∈ l -> a = b \/ en a <= begin_ b \/ en b <= begin_ a.
Proof.
  revert lo. induction l as [|r l IH]; [intros ? _ H; by apply not_elem_of_nil in H|].
  intros lo (_ & Hr & Hl) [->|Ha]%elem_of_cons [->|Hb]%elem_of_cons; [by left| | |by eapply IH].
  - destruct (disj_elem _ _ _ Hl Hb). right; left; lia.
  - destruct (disj_elem _ _ _ Hl Ha). right; right; lia.
Qed.

Lemma disj_inr_eq lo l a b x : disj lo l -> a ∈ l -> b ∈ l -> inr a x -> inr b x -> a = b.
Proof. intros H Ha Hb Hx Hy. destruct (disj_pair _ _ _ _ H Ha Hb) as [|[]]; [done|unfold inr in *; lia..]. Qed.

Lemma disj_NoDup lo l : disj lo l -> NoDup l.
Proof.
  revert lo. induction l as [|r l IH]; intros lo; simpl; [constructor|]. intros (_ & Hr & Hl).
  constructor; [|by eapply IH]. intros Hin. destruct (disj_elem _ _ _ Hl Hin). unfold okr, en in *. lia.
Qed.

Lemma disj_filter (P : Range -> Prop) `{!forall r, Decision (P r)} lo l : disj lo l -> disj lo (filter P l).
Proof.
  revert lo. induction l as [|r l IH]; intros lo; simpl; [done|]. intros (H1 & H2 & H3).
  rewrite filter_cons. destruct (decide (P r)).
  - simpl. split_and!; [lia|done|by apply IH].
  - eapply disj_weaken; [by apply IH|]. unfold okr, en in *. lia.
Qed.

(** The set is coalesced when no range starts where another ends. *)
Definition touch l (x : Z) : Prop := exists a b, a ∈ l /\ b ∈ l /\ en a = x /\ begin_ b = x.

Lemma coal_after p l :
  (forall a b, a ∈ p :: l -> b ∈ p :: l -> en a <> begin_ b) -> disj (en p) l -> coal (en p) l.
Proof.
  revert p. induction l as [|r l IH]; simpl; [done|]. intros p Ht (H1 & H2 & H3). split_and!; [|done|].
  - assert (en p <> begin_ r); [|lia]. apply Ht; set_solver.
  - apply IH; [|done]. intros a b ? ?. apply Ht; set_solver.
Qed.

Lemma coal_of_disj lo l : disj lo l -> (forall x, ~ touch l x) -> coal (lo - 1) l.
Proof.
  destruct l as [|r l]; simpl; [done|]. intros (H1 & H2 & H3) Ht. split_and!; [lia|done|].
  apply coal_after; [|done]. intros a b Ha Hb He. apply (Ht (begin_ b)). by exists a, b.
Qed.

Lemma coal_no_touch lo l x : coal lo l -> ~ touch l x.
Proof.
  revert lo. induction l as [|r l IH]; intros lo; simpl; [intros _ (a & b & H & _); by apply not_elem_of_nil in H|].
  intros (H1 & H2 & H3) (a & b & [->|Ha]%elem_of_cons & [->|Hb]%elem_of_cons & Hx & Hy).
  - unfold okr, en in *. lia.
  - pose proof (coal_disj _ _ H3) as Hd. destruct (disj_elem _ _ _ Hd Hb). lia.
  - pose proof (coal_disj _ _ H3) as Hd. destruct (disj_elem _ _ _ Hd Ha) as [? Ha'].
    unfold okr, en in *. lia.
  - eapply IH; [done|]. exists a, b. done.
Qed.

(** A range of a coalesced set is a maximal run of covered addresses. *)
Lemma coal_bound lo l r : coal lo l -> r ∈ l -> ~ covers l (begin_ r - 1) /\ ~ covers l (en r).
Proof.
  intros H Hr. pose proof (coal_disj _ _ H) as Hd. split; intros (a & Ha & Hx).
  - destruct (disj_pair _ _ _ _ Hd Ha Hr) as [->|[Hp|Hp]]; [unfold inr in *; lia| |].
    + apply (coal_no_touch _ _ (begin_ r) H). exists a, r. unfold inr in *. split_and!; [done|done|lia|lia].
    + destruct (disj_elem _ _ _ Hd Hr) as [_ Hok]. unfold inr, okr, en in *. lia.
  - destruct (disj_pair _ _ _ _ Hd Ha Hr) as [->|[Hp|Hp]]; [unfold inr in *; lia| |].
    + destruct (disj_elem _ _ _ Hd Hr) as [_ Hok]. unfold inr, okr, en in *. lia.
    + apply (coal_no_touch _ _ (en r) H). exists r, a. unfold inr in *. split_and!; [done|done|lia|lia].
Qed.

(** An interval of covered addresses is in one range of a coalesced set. *)
Lemma coal_interval lo l (b e : Z) :
  coal lo l -> b < e -> (forall x, b <= x < e -> covers l x) -> exists r, r ∈ l /\ begin_ r <= b /\ e <= en r.
Proof.
  intros H Hbe Hc. destruct (Hc b ltac:(lia)) as (r & Hr & Hb). exists r. split; [done|].
  split; [unfold inr in Hb; lia|]. destruct (decide (e <= en r)); [done|].
  destruct (coal_bound _ _ _ H Hr) as [_ Hn]. destruct Hn. apply Hc. unfold inr in Hb. lia.
Qed.

(** A coalesced set is determined by its cover. *)
Lemma coal_canonical_elem lo1 lo2 l1 l2 r :
  coal lo1 l1 -> coal lo2 l2 -> (forall x, covers l1 x <-> covers l2 x) -> r ∈ l1 -> r ∈ l2.
Proof.
  intros H1 H2 Hc Hr. pose proof (coal_disj _ _ H1) as Hd1.
  destruct (disj_elem _ _ _ Hd1 Hr) as [_ Hok]. destruct (coal_bound _ _ _ H1 Hr) as [Hb He].
  destruct (coal_interval _ _ (begin_ r) (en r) H2) as (a & Ha & ? & ?); [unfold okr, en in *; lia| |].
  { intros x Hx. apply Hc. exists r. done. }
  assert (r = a) as ->; [|done]. pose proof (coal_disj _ _ H2) as Hd2.
  destruct (disj_elem _ _ _ Hd2 Ha) as [_ Hoka]. unfold okr, en in Hok, Hoka.
  apply range_eq.
  - destruct (decide (begin_ a < begin_ r)); [|lia]. destruct Hb. apply Hc. exists a.
    split; [done|]. unfold inr, en in *. lia.
  - destruct (decide (en r < en a)); [|lia]. destruct He. apply Hc. exists a.
    split; [done|]. unfold inr, en in *. lia.
Qed.

Lemma disj_elem_eq lo1 lo2 l1 l2 : disj lo1 l1 -> disj lo2 l2 -> (forall r, r ∈ l1 <-> r ∈ l2) -> l1 = l2.
Proof.
  revert lo1 lo2 l2. induction l1 as [|r l1 IH]; intros lo1 lo2 [|a l2]; simpl; [done|..].
  - intros _ _ H. exfalso. assert (a ∈ @nil Range) as E by (apply H; by apply list_elem_of_here). set_solver.
  - intros _ _ H. exfalso. assert (r ∈ @nil Range) as E by (apply H; by apply list_elem_of_here). set_solver.
  - intros (H1 & H2 & H3) (G1 & G2 & G3) Hel.
    assert (r = a) as <-.
    { destruct (proj1 (elem_of_cons _ _ _) (proj1 (Hel r) ltac:(by apply list_elem_of_here))) as [|Hr]; [done|].
      destruct (proj1 (elem_of_cons _ _ _) (proj2 (Hel a) ltac:(by apply list_elem_of_here))) as [|Ha]; [done|].
      destruct (disj_elem _ _ _ G3 Hr), (disj_elem _ _ _ H3 Ha). unfold okr, en in *. lia. }
    f_equal. eapply IH; [done..|]. intros x. split; intros Hx.
    + destruct (proj1 (elem_of_cons _ _ _) (proj1 (Hel x) ltac:(by apply list_elem_of_further))) as [->|]; [|done].
      destruct (disj_elem _ _ _ H3 Hx). unfold okr, en in *. lia.
    + destruct (proj1 (elem_of_cons _ _ _) (proj2 (Hel x) ltac:(by apply list_elem_of_further))) as [->|]; [|done].
      destruct (disj_elem _ _ _ G3 Hx). unfold okr, en in *. lia.
Qed.

Lemma coal_canonical lo1 lo2 l1 l2 :
  coal lo1 l1 -> coal lo2 l2 -> (forall x, covers l1 x <-> covers l2 x) -> l1 = l2.
Proof.
  intros H1 H2 Hc. eapply disj_elem_eq; [by eapply coal_disj..|]. intros r.
  split; eapply coal_canonical_elem; eauto. intros x. by rewrite Hc.
Qed.

(** ** The orders *)

Lemma by_begin_lt r a :
  CompareRangeByBegin r a = true <-> begin_ r < begin_ a \/ begin_ r = begin_ a /\ length_ r < length_ a.
Proof. unfold CompareRangeByBegin. repeat case_match; lia. Qed.

Lemma by_begin_ge r a :
  CompareRangeByBegin r a = false <-> begin_ a < begin_ r \/ begin_ r = begin_ a /\ length_ a <= length_ r.
Proof. unfold CompareRangeByBegin. repeat case_match; lia. Qed.

Lemma by_length_lt r a :
  CompareRangeByLength r a = true <-> length_ r < length_ a \/ length_ r = length_ a /\ begin_ r < begin_ a.
Proof. unfold CompareRangeByLength. repeat case_match; lia. Qed.

Lemma by_length_ge r a :
  CompareRangeByLength r a = false <-> length_ a < length_ r \/ length_ r = length_ a /\ begin_ a <= begin_ r.
Proof. unfold CompareRangeByLength. repeat case_match; lia. Qed.

(** What the routines on sets need of an order: ranges that are not in order either way are equal. *)
Class RangeOrder (less : Range -> Range -> bool) := {
  less_irrefl r : less r r = false;
  less_trans r1 r2 r3 : less r2 r1 = false -> less r3 r2 = false -> less r3 r1 = false;
  less_total r1 r2 : less r1 r2 = false -> less r2 r1 = false -> r1 = r2;
  less_asym r1 r2 : less r1 r2 = true -> less r2 r1 = false
}.

#[global] Instance by_begin_order : RangeOrder CompareRangeByBegin.
Proof.
  split.
  - intros r. apply by_begin_ge. lia.
  - intros r1 r2 r3. rewrite !by_begin_ge. lia.
  - intros [b1 n1] [b2 n2]. rewrite !by_begin_ge. simpl. intros. f_equal; lia.
  - intros r1 r2. rewrite by_begin_lt, by_begin_ge. lia.
Qed.

#[global] Instance by_length_order : RangeOrder CompareRangeByLength.
Proof.
  split.
  - intros r. apply by_length_ge. lia.
  - intros r1 r2 r3. rewrite !by_length_ge. lia.
  - intros [b1 n1] [b2 n2]. rewrite !by_length_ge. simpl. intros. f_equal; lia.
  - intros r1 r2. rewrite by_length_lt, by_length_ge. lia.
Qed.

Section orders.
Context (less : Range -> Range -> bool) `{!RangeOrder less}.

Definition in_order l : Prop := StronglySorted (fun a b => less b a = false) l.

Lemma emplace_perm r l : emplace less r l ≡ₚ r :: l.
Proof.
  induction l as [|a l IH]; simpl; [done|]. destruct (less r a); [done|].
  rewrite IH. apply Permutation_swap.
Qed.

Lemma emplace_in_order r l : in_order l -> in_order (emplace less r l).
Proof.
  induction 1 as [|a l Hl IH Ha]; simpl; [by repeat constructor|]. destruct (less r a) eqn:E.
  - constructor; [by constructor|]. constructor; [by apply less_asym|].
    eapply Forall_impl; [exact Ha|]. simpl. intros x Hx. eapply less_trans; [|exact Hx]. by apply less_asym.
  - constructor; [exact IH|]. rewrite emplace_perm. by constructor.
Qed.

Lemma erase_filter r l : erase less r l = filter (fun x => x <> r) l.
Proof.
  unfold erase. apply list_filter_iff. intros x. split.
  - intros H ->. rewrite less_irrefl in H. done.
  - intros H. destruct (less r x) eqn:E1; [done|]. destruct (less x r) eqn:E2; [done|].
    destruct H. by apply less_total.
Qed.

Lemma in_order_unique l1 l2 : in_order l1 -> in_order l2 -> l1 ≡ₚ l2 -> l1 = l2.
Proof.
  intros. eapply (StronglySorted_unique_strong (fun a b => less b a = false)); [|done..].
  intros. by apply less_total.
Qed.

(** [lower_bound] of a list that is split at the key. *)
Lemma lower_bound_split r l1 l2 :
  Forall (fun x => less x r = true) l1 -> Forall (fun x => less x r = false) l2 ->
  lower_bound less r (l1 ++ l2) = length l1.
Proof.
  induction 1 as [|x l1 Hx _ IH]; simpl; intros H2.
  - destruct H2 as [|y l2 Hy _]; simpl; [done|]. by rewrite Hy.
  - rewrite Hx. f_equal. auto.
Qed.

Lemma upper_bound_split r l1 l2 :
  Forall (fun x => less r x = false) l1 -> Forall (fun x => less r x = true) l2 ->
  upper_bound less r (l1 ++ l2) = length l1.
Proof.
  induction 1 as [|x l1 Hx _ IH]; simpl; intros H2.
  - destruct H2 as [|y l2 Hy _]; simpl; [done|]. by rewrite Hy.
  - rewrite Hx. f_equal. auto.
Qed.

(** An ordered list is the elements below a key, then the others. *)
Lemma in_order_split r l :
  in_order l -> exists l1 l2, l = l1 ++ l2 /\ Forall (fun x => less x r = true) l1 /\ Forall (fun x => less x r = false) l2.
Proof.
  induction 1 as [|a l Hl IH Ha]; [by exists [], []|]. destruct (less a r) eqn:E.
  - destruct IH as (l1 & l2 & -> & H1 & H2). exists (a :: l1), l2. auto.
  - exists [], (a :: l). split_and!; [done..|]. constructor; [done|].
    eapply Forall_impl; [exact Ha|]. simpl. intros x Hx. by eapply less_trans.
Qed.

(** [find] of an element of the set. *)
Lemma find_elem r l :
  in_order l -> r ∈ l ->
  exists l1 l2, l = l1 ++ r :: l2 /\ lower_bound less r l = length l1 /\ Forall (fun x => less x r = true) l1.
Proof.
  intros Ho Hr. destruct (in_order_split r l Ho) as (l1 & l2 & -> & H1 & H2).
  destruct l2 as [|a l2].
  { rewrite app_nil_r in *. rewrite Forall_forall in H1. specialize (H1 _ Hr). by rewrite less_irrefl in H1. }
  assert (a = r) as ->.
  { apply elem_of_app in Hr as [Hr|Hr].
    { rewrite Forall_forall in H1. specialize (H1 _ Hr). by rewrite less_irrefl in H1. }
    apply elem_of_cons in Hr as [|Hr]; [done|].
    assert (less r a = false) as Hra.
    { apply StronglySorted_app_1_r in Ho. apply StronglySorted_inv in Ho as [_ Ho].
      rewrite Forall_forall in Ho. auto. }
    apply less_total; [|done]. by apply Forall_cons in H2 as [? _]. }
  exists l1, l2. split_and!; [done| |done]. by apply lower_bound_split.
Qed.

Lemma erase_find_elem r l :
  in_order l -> r ∈ l -> exists l', erase_find less r l = Done l' /\ l ≡ₚ r :: l' /\ in_order l'.
Proof.
  intros Ho Hr. destruct (find_elem r l Ho Hr) as (l1 & l2 & -> & Hk & _).
  exists (l1 ++ l2). unfold erase_find. rewrite Hk, list_lookup_middle by done. rewrite less_irrefl.
  split_and!.
  - f_equal. rewrite take_app_length. f_equal. change (r :: l2) with ([r] ++ l2).
    rewrite app_assoc, drop_app_length'; [done|]. rewrite length_app. simpl. lia.
  - symmetry. apply Permutation_middle.
  - clear Hr Hk. induction l1 as [|a l1 IH]; simpl in *.
    + by apply StronglySorted_inv in Ho as [? _].
    + apply StronglySorted_inv in Ho as [Ho Ha]. constructor; [by apply IH|].
      apply Forall_app in Ha as [? Ha]. apply Forall_cons in Ha as [_ ?]. by apply Forall_app.
Qed.
End orders.

(** ** Changing a set *)

Lemma StronglySorted_filter (R : relation Range) (P : Range -> Prop) `{!forall r, Decision (P r)} l :
  StronglySorted R l -> StronglySorted R (filter P l).
Proof.
  induction 1 as [|a l Hl IH Ha]; [constructor|]. rewrite filter_cons. destruct (decide (P a)); [|done].
  constructor; [done|]. apply Forall_forall. intros x [_ Hx]%list_elem_of_filter.
  rewrite Forall_forall in Ha. auto.
Qed.

Definition apart r a : Prop := en r <= begin_ a \/ en a <= begin_ r.

Lemma apart_not_inr r a : okr r -> okr a -> (forall x, inr r x -> ~ inr a x) -> apart r a.
Proof.
  unfold okr, inr, apart, en. intros Hr Ha H.
  destruct (decide (begin_ r <= begin_ a)).
  - specialize (H (begin_ a)). lia.
  - specialize (H (begin_ r)). lia.
Qed.

Lemma emplace_disj lo l r :
  disj lo l -> okr r -> lo <= begin_ r -> (forall x, inr r x -> ~ covers l x) -> disj lo (insert_by_begin r l).
Proof.
  revert lo. induction l as [|a l IH]; simpl; intros lo; [done|].
  intros (H1 & H2 & H3) Hr Hlo Hc.
  assert (apart r a) as Hap.
  { apply apart_not_inr; [done..|]. intros x Hx Ha. apply (Hc x Hx). apply covers_cons. by left. }
  assert (forall x, inr r x -> ~ covers l x) as Hc'.
  { intros x Hx Ha. apply (Hc x Hx). apply covers_cons. by right. }
  unfold apart, okr, en in *.
  destruct (CompareRangeByBegin r a) eqn:E; simpl; unfold okr, en.
  - apply by_begin_lt in E. split_and!; (done || lia).
  - apply by_begin_ge in E. split_and!; try (done || lia). apply IH; (done || lia).
Qed.

Lemma emplace_covers r l x : covers (insert_by_begin r l) x <-> inr r x \/ covers l x.
Proof. rewrite emplace_perm. apply covers_cons. Qed.

Lemma emplace_total r l : total (insert_by_begin r l) = length_ r + total l.
Proof. rewrite emplace_perm. done. Qed.

Lemma emplace_length less r l : length (emplace less r l) = S (length l).
Proof. by rewrite emplace_perm. Qed.

Lemma emplace_elem less r l a : a ∈ emplace less r l <-> a = r \/ a ∈ l.
Proof. rewrite emplace_perm. by rewrite elem_of_cons. Qed.

Lemma erase_elem r l a : a ∈ erase_by_begin r l <-> a <> r /\ a ∈ l.
Proof. rewrite erase_filter by apply _. by rewrite list_elem_of_filter. Qed.

Lemma erase_disj lo l r : disj lo l -> disj lo (erase_by_begin r l).
Proof. rewrite erase_filter by apply _. apply disj_filter. Qed.

Lemma erase_perm lo l r : disj lo l -> r ∈ l -> l ≡ₚ r :: erase_by_begin r l.
Proof.
  intros H%disj_NoDup Hr. rewrite erase_filter by apply _. clear lo.
  induction H as [|a l Ha Hl IH]; [by apply not_elem_of_nil in Hr|].
  apply elem_of_cons in Hr as [<-|Hr].
  - rewrite filter_cons, decide_False by tauto. rewrite list_filter_all; [done|].
    apply Forall_forall. intros x Hx ->. done.
  - rewrite filter_cons, decide_True by (intros ->; done). rewrite Permutation_swap. f_equiv. by apply IH.
Qed.

Lemma erase_covers lo l r x : disj lo l -> r ∈ l -> covers (erase_by_begin r l) x <-> covers l x /\ ~ inr r x.
Proof.
  intros H Hr. split.
  - intros (a & [Hne Ha]%erase_elem & Hx). split; [by exists a|]. intros Hxr. apply Hne.
    by eapply disj_inr_eq.
  - intros [(a & Ha & Hx) Hn]. exists a. split; [|done]. apply erase_elem. split; [by intros ->|done].
Qed.

Lemma erase_total lo l r : disj lo l -> r ∈ l -> total (erase_by_begin r l) = total l - length_ r.
Proof. intros H Hr. rewrite (erase_perm _ _ _ H Hr) at 2. simpl. lia. Qed.

Lemma erase_length lo l r : disj lo l -> r ∈ l -> S (length (erase_by_begin r l)) = length l.
Proof. intros H Hr. rewrite (erase_perm _ _ _ H Hr) at 2. done. Qed.

Lemma disj_in_order lo l : disj lo l -> in_order CompareRangeByBegin l.
Proof.
  revert lo. induction l as [|r l IH]; simpl; [constructor|]. intros lo (H1 & H2 & H3).
  constructor; [by eapply IH|]. apply Forall_forall. intros a Ha. apply by_begin_ge.
  destruct (disj_elem _ _ _ H3 Ha). unfold okr, en in *. lia.
Qed.

Lemma contains_elem l r : in_order CompareRangeByBegin l -> r ∈ l -> contains r l = true.
Proof.
  intros Ho Hr. destruct (find_elem _ _ _ Ho Hr) as (l1 & l2 & -> & Hk & _). unfold contains.
  rewrite Hk, list_lookup_middle by done. by rewrite less_irrefl.
Qed.

(** ** The iterators *)

(** Begins and ends do not decrease along the list. *)
Definition mono l : Prop := StronglySorted (fun a b => begin_ a <= begin_ b /\ en a <= en b) l /\ Forall okr l.

Lemma disj_mono lo l : disj lo l -> mono l.
Proof.
  intros H. split; [|by eapply disj_ok]. revert lo H.
  induction l as [|r l IH]; simpl; [constructor|]. intros lo (H1 & H2 & H3).
  constructor; [by eapply IH|]. apply Forall_forall. intros a Ha.
  destruct (disj_elem _ _ _ H3 Ha). unfold okr, en in *. lia.
Qed.

Lemma mono_split (b : Z) l :
  mono l -> exists l1 l2, l = l1 ++ l2 /\ Forall (fun a => en a <= b) l1 /\ Forall (fun a => b < en a) l2.
Proof.
  intros [H _]. induction H as [|a l Hl IH Ha]; [by exists [], []|]. destruct (decide (en a <= b)).
  - destruct IH as (l1 & l2 & -> & H1 & H2). exists (a :: l1), l2. auto.
  - exists [], (a :: l). split_and!; [done..|]. constructor; [lia|].
    eapply Forall_impl; [exact Ha|]. simpl. lia.
Qed.

Lemma mono_split_begin (e : Z) l :
  mono l -> exists l1 l2, l = l1 ++ l2 /\ Forall (fun a => begin_ a < e) l1 /\ Forall (fun a => e <= begin_ a) l2.
Proof.
  intros [H _]. induction H as [|a l Hl IH Ha]; [by exists [], []|]. destruct (decide (begin_ a < e)).
  - destruct IH as (l1 & l2 & -> & H1 & H2). exists (a :: l1), l2. auto.
  - exists [], (a :: l). split_and!; [done..|]. constructor; [lia|].
    eapply Forall_impl; [exact Ha|]. simpl. lia.
Qed.

Lemma mono_app l1 l2 : mono (l1 ++ l2) -> mono l1 /\ mono l2.
Proof.
  intros [H1 H2]. apply Forall_app in H2 as [? ?].
  split; split; eauto using StronglySorted_app_1_l, StronglySorted_app_1_r.
Qed.

Lemma lower_bound_begin (k : Z) l1 l2 :
  Forall okr (l1 ++ l2) -> Forall (fun a => begin_ a < k) l1 -> Forall (fun a => k <= begin_ a) l2 ->
  lower_bound CompareRangeByBegin (BeginLength k 0) (l1 ++ l2) = length l1.
Proof.
  intros [Hk1 Hk2]%Forall_app H1 H2. apply lower_bound_split; apply Forall_forall; intros a Ha.
  - rewrite Forall_forall in H1. apply by_begin_lt. simpl. specialize (H1 _ Ha). lia.
  - rewrite Forall_forall in H2, Hk2. apply by_begin_ge. simpl. specialize (H2 _ Ha). specialize (Hk2 _ Ha).
    unfold okr in Hk2. lia.
Qed.

Lemma walk_back_split range l1 l2 k :
  Forall okr (l1 ++ l2) -> Forall (fun a => en a <= begin_ range) l1 -> Forall (fun a => begin_ range < en a) l2 ->
  (pred (length l1) <= k)%nat -> walk_back range (l1 ++ l2) k = pred (length l1).
Proof.
  intros Hok H1 H2. induction k as [|k IH]; intros Hk; simpl; [lia|].
  destruct ((l1 ++ l2) !! S k) as [a|] eqn:E.
  - assert (okr a) as Ha by (rewrite Forall_forall in Hok; eauto using list_elem_of_lookup_2).
    rewrite r_end_ok by done. apply lookup_app_Some in E as [E|[? E]].
    + rewrite Forall_forall in H1. specialize (H1 a ltac:(eauto using list_elem_of_lookup_2)).
      rewrite (proj2 (Z.ltb_ge _ _)) by lia. apply lookup_lt_Some in E. lia.
    + rewrite Forall_forall in H2. specialize (H2 a ltac:(eauto using list_elem_of_lookup_2)).
      rewrite (proj2 (Z.ltb_lt _ _)) by lia. apply IH. lia.
  - apply lookup_ge_None in E. rewrite length_app in E. apply IH. lia.
Qed.

(** The iterators delimit exactly the ranges that overlap the given one. *)
Lemma iterators_split range l :
  mono l -> okr range ->
  exists l1 l2 l3, l = l1 ++ l2 ++ l3 /\
    Forall (fun a => en a <= begin_ range) l1 /\
    Forall (fun a => begin_ range < en a /\ begin_ a < en range) l2 /\
    Forall (fun a => en range <= begin_ a) l3 /\
    IteratorsCoveringPotentialOverlapsOfRangeWithRanges range l = (length l1, (length l1 + length l2)%nat).
Proof.
  intros Hm Hr. destruct (mono_split (begin_ range) l Hm) as (l1 & l23 & -> & H1 & H23).
  destruct (mono_split_begin (en range) l23) as (l2 & l3 & -> & H2 & H3); [by apply mono_app in Hm as [_ ?]|].
  exists l1, l2, l3. apply Forall_app in H23 as [Hb2 Hb3].
  assert (Forall okr (l1 ++ l2 ++ l3)) as Hok by apply Hm.
  split_and!; [done..| |done|].
  { apply Forall_forall. intros a Ha. rewrite Forall_forall in Hb2, H2. auto. }
  unfold IteratorsCoveringPotentialOverlapsOfRangeWithRanges.
  assert (lower_bound CompareRangeByBegin (BeginLength (r_end range) 0) (l1 ++ l2 ++ l3) = (length l1 + length l2)%nat) as ->.
  { rewrite r_end_ok by done. rewrite app_assoc, lower_bound_begin; [by rewrite length_app|by rewrite <- app_assoc| |done].
    apply Forall_app. split; [|done]. rewrite Forall_forall in H1 |- *. intros a Ha. specialize (H1 _ Ha).
    rewrite !Forall_app, !Forall_forall in Hok. destruct Hok as (Hok & _). specialize (Hok _ Ha).
    unfold okr, en in *. lia. }
  assert (length l1 <= lower_bound CompareRangeByBegin (BeginLength (begin_ range) 0) (l1 ++ l2 ++ l3))%nat as Hle.
  { destruct (mono_split_begin (begin_ range) (l1 ++ l2 ++ l3) Hm) as (m1 & m2 & E & G1 & G2). rewrite E in *.
    rewrite lower_bound_begin by done. destruct (decide (length l1 <= length m1)%nat); [done|]. exfalso.
    destruct (lookup_lt_is_Some_2 l1 (length m1) ltac:(lia)) as [a Ha].
    assert ((m1 ++ m2) !! length m1 = Some a) as Ha2 by (rewrite <- E; by apply lookup_app_l_Some).
    rewrite lookup_app_r, Nat.sub_diag in Ha2 by lia.
    rewrite Forall_forall in H1, G2. specialize (H1 a ltac:(eauto using list_elem_of_lookup_2)).
    specialize (G2 a ltac:(eauto using list_elem_of_lookup_2)).
    rewrite Forall_app, !Forall_forall in Hok. destruct Hok as [_ Hok].
    specialize (Hok a ltac:(eauto using list_elem_of_lookup_2)). unfold okr, en in *. lia. }
  rewrite walk_back_split; [|done|done|by apply Forall_app|lia].
  f_equal. destruct l1 as [|z l1 _] using rev_ind.
  - simpl. destruct (l2 ++ l3) as [|a l'] eqn:E; simpl; [done|].
    assert (Forall (fun a => begin_ range < en a) (a :: l')) as Ha by (rewrite <- E; by apply Forall_app).
    apply Forall_cons in Ha as [Ha _]. cbn [app] in Hok. rewrite ?E in Hok. apply Forall_cons in Hok as [Hoka _].
    rewrite r_end_ok, (proj2 (Z.leb_gt _ _)) by (done || lia). done.
  - rewrite length_app. cbn [length]. rewrite Nat.add_1_r. cbn [pred].
    rewrite <- (app_assoc l1 [z]). cbn [app]. rewrite list_lookup_middle by done.
    apply Forall_app in H1 as [_ Hz]. apply Forall_cons in Hz as [Hz _].
    rewrite !Forall_app in Hok. destruct Hok as ((_ & Hokz) & _). apply Forall_cons in Hokz as [Hokz _].
    rewrite r_end_ok, (proj2 (Z.leb_le _ _)) by (done || lia). done.
Qed.

Lemma IsOverlap_spec r a : okr r -> okr a -> IsOverlap r a = true <-> begin_ r < en a /\ begin_ a < en r.
Proof. intros Hr Ha. unfold IsOverlap. rewrite !r_end_ok by done. repeat case_match; lia. Qed.

Lemma IsOverlap_inr r a : okr r -> okr a -> IsOverlap r a = true <-> exists x, inr r x /\ inr a x.
Proof.
  intros Hr Ha. rewrite IsOverlap_spec by done. unfold inr, okr, en in *. split.
  - intros. exists (Z.max (begin_ r) (begin_ a)). lia.
  - intros (x & ? & ?). lia.
Qed.

Lemma slice_middle (l1 l2 l3 : list Range) : slice (length l1) (length l1 + length l2) (l1 ++ l2 ++ l3) = l2.
Proof.
  unfold slice. rewrite drop_app_length. replace (length l1 + length l2 - length l1)%nat with (length l2) by lia.
  apply take_app_length.
Qed.

Lemma look_filter range l :
  mono l -> okr range -> look range l = filter (fun a => IsOverlap range a = true) l.
Proof.
  intros Hm Hr. destruct (iterators_split range l Hm Hr) as (l1 & l2 & l3 & -> & H1 & H2 & H3 & E).
  unfold look. rewrite E, slice_middle. destruct Hm as [_ Hok]. rewrite !Forall_app in Hok.
  destruct Hok as (K1 & K2 & K3). rewrite !filter_app.
  rewrite (list_filter_none _ l1), (list_filter_all _ l2), (list_filter_none _ l3), app_nil_r; [done|..];
    apply Forall_forall; intros a Ha; rewrite Forall_forall in *; rewrite IsOverlap_spec by auto.
  - specialize (H3 _ Ha). specialize (K3 _ Ha). lia.
  - by apply H2.
  - specialize (H1 _ Ha). lia.
Qed.

Lemma look_elem range l a : mono l -> okr range -> a ∈ look range l <-> a ∈ l /\ IsOverlap range a = true.
Proof. intros. rewrite look_filter by done. rewrite list_elem_of_filter. tauto. Qed.

(** ** Coalescing two ranges that touch *)

(** Ranges that meet at [loc] are the last one before it and the first one from it on. *)
Lemma touch_split lo l1 l2 (loc : Z) :
  disj lo (l1 ++ l2) -> Forall (fun r => begin_ r < loc) l1 -> Forall (fun r => loc <= begin_ r) l2 -> touch (l1 ++ l2) loc ->
  exists l1' a b l2', l1 = l1' ++ [a] /\ l2 = b :: l2' /\ en a = loc /\ begin_ b = loc.
Proof.
  intros Hd H1 H2. pose proof (disj_mono _ _ Hd) as Hm. pose proof (disj_ok _ _ Hd) as Hok.
  intros (a & b & Ha & Hb & Ea & Eb).
  destruct (disj_elem _ _ _ Hd Ha) as [_ Hoka]. destruct (disj_elem _ _ _ Hd Hb) as [_ Hokb].
  rewrite Forall_forall in H1, H2.
  assert (a ∈ l1) as Ha1.
  { apply elem_of_app in Ha as [|Ha]; [done|]. specialize (H2 _ Ha). unfold okr, en in *. lia. }
  assert (b ∈ l2) as Hb2.
  { apply elem_of_app in Hb as [Hb|]; [|done]. specialize (H1 _ Hb). lia. }
  destruct l1 as [|z l1 _] using rev_ind; [by apply not_elem_of_nil in Ha1|].
  destruct l2 as [|y l2]; [by apply not_elem_of_nil in Hb2|].
  exists l1, z, y, l2. split_and!; [done..| |].
  - destruct (disj_pair _ _ a z Hd Ha ltac:(set_solver)) as [<-|[Hp|Hp]]; [done| |].
    + specialize (H1 z ltac:(set_solver)). lia.
    + apply elem_of_app in Ha1 as [Ha1|Ha1%list_elem_of_singleton]; [|by subst].
      destruct Hm as [Hm _]. apply StronglySorted_app_1_l in Hm.
      pose proof (StronglySorted_app_1_elem_of _ _ _ a z Hm Ha1 ltac:(set_solver)) as [? _].
      destruct (disj_elem _ _ z Hd ltac:(set_solver)) as [_ Hz]. unfold okr, en in *. lia.
  - destruct (disj_pair _ _ b y Hd Hb ltac:(set_solver)) as [<-|[Hp|Hp]]; [done| |].
    + apply elem_of_cons in Hb2 as [->|Hb2]; [done|].
      apply disj_app in Hd as [_ Hd]. simpl in Hd. destruct Hd as (_ & Hy & Hd).
      destruct (disj_elem _ _ _ Hd Hb2). unfold okr, en in *. lia.
    + specialize (H2 y ltac:(set_solver)).
      assert (okr y) as Hy by (rewrite Forall_forall in Hok; apply Hok; set_solver).
      unfold okr, en in *. lia.
Qed.

Lemma find_adjacent_spec lo l (loc : Z) :
  disj lo l ->
  (find_adjacent l loc = Done None /\ ~ touch l loc) \/
  exists l1 a b l2, l = l1 ++ a :: b :: l2 /\ en a = loc /\ begin_ b = loc /\
    find_adjacent l loc = Done (Some (S (length l1))).
Proof.
  intros Hd. pose proof (disj_mono _ _ Hd) as Hm. pose proof (disj_ok _ _ Hd) as Hok.
  destruct (mono_split_begin loc l Hm) as (l1 & l2 & -> & H1 & H2).
  pose proof (touch_split lo l1 l2 loc Hd H1 H2) as Ht.
  unfold find_adjacent. destruct (Nat.ltb_spec (length (l1 ++ l2)) 2) as [Hlt|Hge].
  { left. split; [done|]. intros (l1' & a & b & l2' & -> & -> & _)%Ht.
    rewrite !length_app in Hlt. simpl in Hlt. lia. }
  rewrite lower_bound_begin by done. destruct l2 as [|b l2].
  { left. rewrite lookup_ge_None_2 by (rewrite app_nil_r; done). split; [done|].
    intros (? & ? & ? & ? & _ & ? & _)%Ht. done. }
  rewrite list_lookup_middle by done. pose proof (Forall_inv H2) as Hb. simpl in Hb.
  destruct (Z.eqb_spec (begin_ b) loc) as [Eb|Eb]; simpl.
  2:{ left. rewrite (proj2 (Z.ltb_lt _ _)) by lia. split; [done|].
      intros (? & ? & ? & ? & _ & [= -> ->] & _ & ?)%Ht. done. }
  destruct l1 as [|a l1 _] using rev_ind; simpl.
  { left. split; [done|]. intros (l1' & ? & ? & ? & E & _)%Ht. by destruct l1'. }
  rewrite length_app. cbn [length]. rewrite Nat.add_1_r. rewrite <- (app_assoc l1 [a]) in Ht |- *. cbn [app] in Ht |- *.
  rewrite list_lookup_middle by done.
  assert (okr a) as Ha by (rewrite Forall_forall in Hok; apply Hok; set_solver).
  assert (en a <= begin_ b) as Hab.
  { apply disj_app in Hd as [_ Hd]. rewrite last_snoc in Hd. simpl in Hd. tauto. }
  rewrite r_end_ok by done. destruct (Z.eqb_spec (en a) loc) as [Ea|Ea]; simpl.
  - right. exists l1, a, b, l2. split_and!; done.
  - left. rewrite (proj2 (Z.ltb_lt _ _)) by lia. split; [done|].
    intros (l1' & ? & ? & ? & E & _ & ? & _)%Ht. apply app_inj_tail in E as [_ ->]. done.
Qed.

(** Where the ranges meet after two of them have become one. *)
Lemma weld_touch lo l1 a b l2 x :
  disj lo (l1 ++ l2) -> okr a -> okr b -> en a = begin_ b ->
  let n := mkRange (begin_ a) (en b - begin_ a) in
  (forall x, inr n x -> ~ covers (l1 ++ l2) x) ->
  touch (insert_by_begin n (l1 ++ l2)) x <-> touch (l1 ++ a :: b :: l2) x /\ x <> en a.
Proof.
  intros Hd' Hoka Hokb E n Hnc.
  assert (forall p, p ∈ l1 ++ a :: b :: l2 <-> p = a \/ p = b \/ p ∈ l1 ++ l2) as Hel.
  { intros p. rewrite !elem_of_app, !elem_of_cons. tauto. }
  unfold touch. setoid_rewrite emplace_elem. split.
  - intros (p & q & Hp & Hq & Ep & Eq).
    destruct (decide (x = en a)) as [->|Hne].
    { exfalso. destruct Hp as [->|Hp]; [unfold okr, n, en in *; simpl in *; lia|].
      destruct Hq as [->|Hq]; [unfold okr, n, en in *; simpl in *; lia|].
      apply (Hnc (en a)); [unfold inr, okr, n, en in *; simpl in *; lia|]. exists q. split; [done|].
      destruct (disj_elem _ _ _ Hd' Hq) as [_ ?].
      unfold inr, okr, en in *. lia. }
    split; [|done]. setoid_rewrite Hel.
    destruct Hp as [->|Hp], Hq as [->|Hq].
    + exists b, a. unfold n, en in *. simpl in *. split_and!; [auto..|lia|lia].
    + exists b, q. unfold n, en in *. simpl in *. split_and!; [auto..|lia|lia].
    + exists p, a. unfold n, en in *. simpl in *. split_and!; [auto..|lia|lia].
    + exists p, q. split_and!; [auto..|lia|lia].
  - setoid_rewrite Hel. intros ((p & q & Hp & Hq & Ep & Eq) & Hne).
    destruct Hp as [->|[->|Hp]]; [lia| |]; destruct Hq as [->|[->|Hq]]; try lia.
    + exists n, n. unfold n, en in *. simpl in *. split_and!; [auto..|lia|lia].
    + exists n, q. unfold n, en in *. simpl in *. split_and!; [auto..|lia|lia].
    + exists p, n. unfold n, en in *. simpl in *. split_and!; [auto..|lia|lia].
    + exists p, q. split_and!; [auto..|lia|lia].
Qed.

Lemma weld_spec lo l1 a b l2 :
  disj lo (l1 ++ a :: b :: l2) -> en a = begin_ b ->
  let n := mkRange (begin_ a) (en b - begin_ a) in
  let l' := insert_by_begin n (l1 ++ l2) in
  weld (l1 ++ a :: b :: l2) (S (length l1)) = Some (a, b, n, l') /\ okr n /\ disj lo l' /\
  (forall x, covers l' x <-> covers (l1 ++ a :: b :: l2) x) /\
  (forall x, touch l' x <-> touch (l1 ++ a :: b :: l2) x /\ x <> en a) /\
  total l' = total (l1 ++ a :: b :: l2) /\ S (length l') = length (l1 ++ a :: b :: l2).
Proof.
  intros Hd E n l'.
  assert (a ∈ l1 ++ a :: b :: l2) as Ha by set_solver. assert (b ∈ l1 ++ a :: b :: l2) as Hb by set_solver.
  destruct (disj_elem _ _ _ Hd Ha) as [Hla Hoka]. destruct (disj_elem _ _ _ Hd Hb) as [_ Hokb].
  assert (okr n) as Hn by (unfold okr, n, en in *; simpl; lia).
  assert (forall x, inr n x <-> inr a x \/ inr b x) as Hx.
  { intros x. unfold inr, okr, n, en in *. simpl. lia. }
  assert (disj lo (l1 ++ l2)) as Hd'.
  { apply disj_app in Hd as [Hd1 Hd2]. apply disj_app. split; [done|].
    simpl in Hd2. destruct Hd2 as (? & _ & ? & _ & Hd2). eapply disj_weaken; [done|].
    unfold okr, en in *. lia. }
  assert (forall x, inr n x -> ~ covers (l1 ++ l2) x) as Hnc.
  { intros x Hxn (c & Hc & Hxc).
    assert (c ∈ l1 ++ a :: b :: l2) as Hc' by set_solver.
    pose proof (disj_NoDup _ _ Hd) as Hnd. apply NoDup_app in Hnd as (_ & Hnd1 & Hnd2).
    apply NoDup_cons in Hnd2 as [Hnd2 Hnd3]. apply NoDup_cons in Hnd3 as [Hnd3 _].
    apply Hx in Hxn as [Hxn|Hxn]; [assert (c = a) as -> by (by apply (disj_inr_eq _ _ c a x Hd))
      |assert (c = b) as -> by (by apply (disj_inr_eq _ _ c b x Hd))];
      apply elem_of_app in Hc as [Hc|Hc]; try (apply (Hnd1 _ Hc)); set_solver. }
  assert (forall x, covers l' x <-> covers (l1 ++ a :: b :: l2) x) as Hcov.
  { intros x. unfold l'. rewrite emplace_covers, !covers_app, !covers_cons, Hx. tauto. }
  split_and!; [|done| |done| | |].
  - unfold weld. simpl. rewrite list_lookup_middle by done.
    replace ((l1 ++ a :: b :: l2) !! S (length l1)) with (Some b); [|by rewrite lookup_app_r, Nat.sub_succ_l, Nat.sub_diag by lia].
    rewrite r_end_ok by done. destruct (BeginEnd_ok (begin_ a) (en b)) as [-> _]; [unfold okr, en in *; lia..|].
    rewrite take_app_length. fold n. do 2 f_equal. unfold l'. do 2 f_equal.
    change (a :: b :: l2) with ([a; b] ++ l2). rewrite app_assoc, drop_app_length'; [done|].
    rewrite length_app. simpl. lia.
  - apply emplace_disj; [done|done|simpl; lia|done].
  - intros x. by apply (weld_touch lo).
  - unfold l'. rewrite emplace_total, !total_app. simpl. unfold n, en in *. simpl. lia.
  - unfold l'. rewrite emplace_length, !length_app. simpl. lia.
Qed.
