(* ===== verification/ProtectedRanges.v ===== *)
(** * ProtectedRanges: the hardware protection ranges of a memory pool

    Model of [ProtectedRanges] of [src/devices/sysmem/drivers/sysmem/protected_ranges.cc]. The object keeps the
    ranges its client asked for, the chain of sets derived from them that ends in [goal_ranges_], and
    [ranges_], the ranges set in the hardware. A method is a computation [op]: it reads and writes the object,
    may abort ([ZX_DEBUG_ASSERT], [ZX_ASSERT], [ZX_PANIC]) and lists the calls it makes on [ranges_control_],
    in order. [UseRange], the only call that can fail, is answered by the oracle [use]; within one method it is
    never asked twice about one range. [fbl::round_down] and [fbl::round_up] are parameters ([Fbl]). *)
From Stdlib Require Import ZArith Lia.
From stdpp Require Import prelude.
From S2P Require Import Prelude RangeSets.

Local Open Scope Z_scope.

(** ** The interface *)

(** [ProtectedRangesControl]: what it reports. *)
Record Control := mkControl {
  IsDynamic : bool;
  MaxRangeCount : Z;
  GetRangeGranularity : Z;
  HasModProtectedRange : bool;
  GetBase : Z;
  GetSize : Z
}.

(** The calls that change ranges. *)
Inductive ControlCall :=
  | AddProtectedRange (range : Range)
  | DelProtectedRange (range : Range)
  | ModProtectedRange (old_range new_range : Range)
  | ZeroProtectedSubRange (is_covering_range_explicit : bool) (range : Range)
  | UseRange (range : Range) (result : bool)
  | UnUseRange (range : Range).

(** [fbl::round_down] and [fbl::round_up]. *)
Class Fbl := {
  round_down : Z -> Z -> Z;
  round_up : Z -> Z -> Z
}.

(** What is documented of them: the nearest multiple on either side. *)
Class FblLaws `{!Fbl} : Prop := {
  round_down_spec a g : 0 < g -> 0 <= a < 2 ^ 64 -> round_down a g = a - a mod g;
  round_up_spec a g : 0 < g -> 0 <= a -> a + g - 1 < 2 ^ 64 -> round_up a g = a + g - 1 - (a + g - 1) mod g
}.

(** ** The object *)

Record Config := mkConfig {
  ranges_control_ : Control;
  is_dynamic_ : bool;
  max_range_count_ : Z;
  is_mod_available_ : bool;
  max_logical_range_count_ : Z;
  range_granularity_ : Z
}.

Record PR := mkPR {
  requested_ranges_ : list Range;
  requested_bytes_ : Z;
  required_ranges_ : list Range;
  coalesced_required_ranges_ : list Range;
  interior_unused_ranges_ : list Range;
  interior_unused_ranges_by_length_ : list Range;
  largest_interior_unused_ranges_ : list Range;
  goal_ranges_ : list Range;
  ranges_ : list Range;
  ranges_bytes_ : Z
}.

Definition PR_empty : PR := mkPR [] 0 [] [] [] [] [] [] [] 0.

(** The constructor. *)
Definition ProtectedRanges (control : Control) : exec (Config * PR) :=
  let is_dynamic := IsDynamic control in
  let max_range_count := MaxRangeCount control in
  (ASSERT 1 <=? max_range_count ;;
   let is_mod_available := HasModProtectedRange control in
   let max_logical_range_count :=
     if is_dynamic then if is_mod_available then u64 (max_range_count - 1) else u64 (max_range_count - 2)
     else 1 in
   let range_granularity := GetRangeGranularity control in
   ASSERT 1 <=? range_granularity ;;
   Done (mkConfig control is_dynamic max_range_count is_mod_available max_logical_range_count range_granularity,
         PR_empty))%exec.

(** The destructor. *)
Definition ProtectedRanges_dtor (s : PR) : exec unit := zx_assert (bool_decide (ranges_ s = [])).

Definition max_logical_ranges (c : Config) : Z := max_logical_range_count_ c.

Definition set_requested (l : list Range) (n : Z) (s : PR) : PR :=
  mkPR l n (required_ranges_ s) (coalesced_required_ranges_ s) (interior_unused_ranges_ s)
    (interior_unused_ranges_by_length_ s) (largest_interior_unused_ranges_ s) (goal_ranges_ s) (ranges_ s) (ranges_bytes_ s).
Definition set_required (l : list Range) (s : PR) : PR :=
  mkPR (requested_ranges_ s) (requested_bytes_ s) l (coalesced_required_ranges_ s) (interior_unused_ranges_ s)
    (interior_unused_ranges_by_length_ s) (largest_interior_unused_ranges_ s) (goal_ranges_ s) (ranges_ s) (ranges_bytes_ s).
Definition set_derived (coalesced interior by_length largest goal : list Range) (s : PR) : PR :=
  mkPR (requested_ranges_ s) (requested_bytes_ s) (required_ranges_ s) coalesced interior by_length largest goal
    (ranges_ s) (ranges_bytes_ s).
Definition set_ranges (l : list Range) (n : Z) (s : PR) : PR :=
  mkPR (requested_ranges_ s) (requested_bytes_ s) (required_ranges_ s) (coalesced_required_ranges_ s)
    (interior_unused_ranges_ s) (interior_unused_ranges_by_length_ s) (largest_interior_unused_ranges_ s)
    (goal_ranges_ s) l n.

(** ** Computations *)

Definition op (A : Type) : Type := PR -> exec (A * PR * list ControlCall).

#[global] Instance op_ret : MRet op := fun A a s => Done (a, s, []).
#[global] Instance op_bind : MBind op := fun A B f m s =>
  match m s with
  | Done (a, s1, calls) =>
      match f a s1 with Done (b, s2, calls') => Done (b, s2, calls ++ calls') | Panic => Panic end
  | Panic => Panic
  end.

Definition get : op PR := fun s => Done (s, s, []).
Definition modify (f : PR -> PR) : op unit := fun s => Done (tt, f s, []).
Definition call (k : ControlCall) : op unit := fun s => Done (tt, s, [k]).
Definition lift {A} (m : exec A) : op A := fun s => match m with Done a => Done (a, s, []) | Panic => Panic end.
Definition check (b : bool) : op unit := lift (zx_assert b).

(** ** From the required ranges to the goal *)

Definition AlignRequestedRange `{!Fbl} (range : Range) (alignment : Z) : Range :=
  let aligned_start := round_down (begin_ range) alignment in
  let aligned_end := round_up (r_end range) alignment in
  BeginEnd aligned_start aligned_end.

(** [TryCoalesceAdjacentRangesAt] on a set that is not [ranges_]. *)
Definition coalesce_at (ranges : list Range) (location : Z) : exec (list Range) :=
  k ← find_adjacent ranges location;
  match k with
  | None => Done ranges
  | Some k => match weld ranges k with Some (_, _, _, l) => Done l | None => Panic end
  end.

(** One existing range of the subtraction. *)
Definition subtract_one (diff_range : Range) (acc : exec (list Range)) (existing_range : Range) : exec (list Range) :=
  coalesced ← acc;
  if negb (IsOverlap existing_range diff_range) then Done coalesced
  else
    '(leftover_left, leftover_right) ← SubtractRanges existing_range diff_range;
    let coalesced := erase_by_begin existing_range coalesced in
    let coalesced := if is_empty leftover_left then coalesced else insert_by_begin leftover_left coalesced in
    Done (if is_empty leftover_right then coalesced else insert_by_begin leftover_right coalesced).

(** [flush_in_progress]. *)
Definition flush_in_progress (diff_range : Range) (gap_end : Z) (st : Range * list Range) : exec (Range * list Range) :=
  let '(in_progress, coalesced) := st in
  (ASSERT (r_end in_progress <? gap_end) || (gap_end =? r_end diff_range) ;;
   Done (BeginLength gap_end 0,
         if is_empty in_progress then coalesced else insert_by_begin in_progress coalesced))%exec.

(** One required range of the scan. *)
Definition scan_one (diff_range : Range) (acc : exec (Range * list Range)) (r : Range) : exec (Range * list Range) :=
  st ← acc;
  '(in_progress, coalesced) ← (if r_end (fst st) <? begin_ r then flush_in_progress diff_range (begin_ r) st else Done st);
  (ASSERT begin_ r <? r_end diff_range ;;
   ASSERT begin_ r <=? r_end in_progress ;;
   if r_end r <=? r_end in_progress then Done (in_progress, coalesced)
   else
     let new_end := Z.min (r_end diff_range) (r_end r) in
     Done (BeginEnd (begin_ in_progress) new_end, coalesced))%exec.

Definition UpdateCoalescedRequiredRanges (diff_range : Range) (required coalesced : list Range) : exec (list Range) :=
  (ASSERT negb (is_empty diff_range) ;;
   coalesced ← fold_left (subtract_one diff_range) (look diff_range coalesced) (Done coalesced);
   st ← fold_left (scan_one diff_range) (look diff_range required) (Done (BeginLength (begin_ diff_range) 0, coalesced));
   '(_, coalesced) ← flush_in_progress diff_range (r_end diff_range) st;
   coalesced ← coalesce_at coalesced (begin_ diff_range);
   coalesce_at coalesced (r_end diff_range))%exec.

(** [rebuild_begin] after the expansion to the range before. *)
Definition expand_begin (diff_range : Range) (coalesced : list Range) (rebuild_begin : nat) : nat :=
  match rebuild_begin with
  | O => O
  | S k =>
      match coalesced !! rebuild_begin with
      | None => k
      | Some r => if begin_ diff_range <? r_end r then k else rebuild_begin
      end
  end.

(** The ranges of [interior_unused_ranges_] inside the carve range are taken out of both sets. *)
Definition carve (maybe_carve_begin maybe_carve_end : option Z) (interior by_length : list Range)
    : exec (list Range * list Range) :=
  match interior, last interior with
  | first :: _, Some last =>
      let carve_begin := default (begin_ first) maybe_carve_begin in
      let carve_end := default (r_end last) maybe_carve_end in
      if carve_begin <? carve_end then
        let carve_range := BeginEnd carve_begin carve_end in
        let '(i, j) := IteratorsCoveringPotentialOverlapsOfRangeWithRanges carve_range interior in
        let carved := slice i j interior in
        (ASSERT forallb (fun r => IsCoveredBy r carve_range) carved ;;
         Done (take i interior ++ drop j interior,
               fold_left (fun l r => erase CompareRangeByLength r l) carved by_length))%exec
      else Done (interior, by_length)
  | _, _ => Done (interior, by_length)
  end.

(** [maybe_carve_begin] and [maybe_carve_end]. *)
Definition carve_begin_at (diff_range : Range) (coalesced : list Range) (rebuild_begin : nat) : exec (option Z) :=
  match rebuild_begin with
  | O => Done None
  | S _ =>
      match coalesced !! rebuild_begin with
      | Some r => (ASSERT r_end r <=? begin_ diff_range ;; Done (Some (r_end r)))%exec
      | None => Panic
      end
  end.
Definition carve_end_at (diff_range : Range) (coalesced : list Range) (rebuild_end : nat) : exec (option Z) :=
  match coalesced !! rebuild_end with
  | None => Done None
  | Some r => (ASSERT r_end diff_range <=? begin_ r ;; Done (Some (begin_ r)))%exec
  end.

Definition UpdateInteriorUnusedRanges (diff_range : Range) (coalesced interior by_length : list Range)
    : exec (list Range * list Range) :=
  if (length coalesced <? 2)%nat then Done ([], [])
  else
    let '(rebuild_begin, rebuild_end) := IteratorsCoveringPotentialOverlapsOfRangeWithRanges diff_range coalesced in
    let rebuild_begin := expand_begin diff_range coalesced rebuild_begin in
    maybe_carve_begin ← carve_begin_at diff_range coalesced rebuild_begin;
    maybe_carve_end ← carve_end_at diff_range coalesced rebuild_end;
    let rebuild_end := if (rebuild_end =? length coalesced)%nat then rebuild_end else S rebuild_end in
    '(interior, by_length) ← carve maybe_carve_begin maybe_carve_end interior by_length;
    Done (fold_left (fun '(i, b) gap_range => (insert_by_begin gap_range i, emplace CompareRangeByLength gap_range b))
            (gaps (slice rebuild_begin rebuild_end coalesced)) (interior, by_length)).

Definition BuildLargestInteriorUnusedRanges (c : Config) (by_length : list Range) : list Range :=
  let ranges_to_use := Z.min (u64 (max_logical_range_count_ c - 1)) (Z.of_nat (length by_length)) in
  fold_left (fun l r => insert_by_begin r l) (take (Z.to_nat ranges_to_use) (rev by_length)) [].

Definition BuildGoalRanges (coalesced largest : list Range) : exec (list Range) :=
  match coalesced with
  | [] => Done []
  | [r] => Done (insert_by_begin r [])
  | first :: _ =>
      (ASSERT (1 <=? length largest)%nat ;;
       let goal := fold_left (fun l gap_range => insert_by_begin gap_range l) (gaps largest) [] in
       match largest, last largest, last coalesced with
       | g :: _, Some g', Some r' =>
           let left_range := BeginEnd (begin_ first) (begin_ g) in
           let right_range := BeginEnd (r_end g') (r_end r') in
           Done (insert_by_begin right_range (insert_by_begin left_range goal))
       | _, _, _ => Panic
       end)%exec
  end.

Section methods.
Context `{!Fbl} (c : Config) (use : Range -> bool).

Definition PropagateRequiredRangesToGoalRanges (diff_range : Range) : op unit :=
  s ← get;
  coalesced ← lift (UpdateCoalescedRequiredRanges diff_range (required_ranges_ s) (coalesced_required_ranges_ s));
  '(interior, by_length) ← lift (UpdateInteriorUnusedRanges diff_range coalesced (interior_unused_ranges_ s)
                                   (interior_unused_ranges_by_length_ s));
  check (bool_decide (coalesced = []) || (length interior + 1 =? length coalesced)%nat);;
  let largest := BuildLargestInteriorUnusedRanges c by_length in
  check (Z.of_nat (length largest) =? Z.min (u64 (max_logical_range_count_ c - 1)) (Z.of_nat (length interior)));;
  goal ← lift (BuildGoalRanges coalesced largest);
  check (bool_decide (largest = []) || (length goal =? length largest + 1)%nat);;
  check (Z.of_nat (length goal) <=? max_logical_range_count_ c);;
  modify (set_derived coalesced interior by_length largest goal).

(** ** The operations on [ranges_] *)

(** [TryCoalesceAdjacentRangesAt] on [ranges_]: the hardware follows. *)
Definition TryCoalesceAdjacentRangesAt (location : Z) : op unit :=
  s ← get;
  k ← lift (find_adjacent (ranges_ s) location);
  match k with
  | None => mret tt
  | Some k =>
      match weld (ranges_ s) k with
      | None => lift Panic
      | Some (first_block, second_block, new_range, l) =>
          (if is_mod_available_ c then
             call (ModProtectedRange first_block new_range);;
             call (DelProtectedRange second_block)
           else
             call (AddProtectedRange new_range);;
             call (DelProtectedRange first_block);;
             call (DelProtectedRange second_block));;
          modify (fun s => set_ranges l (ranges_bytes_ s) s)
      end
  end.

Definition ask_UseRange (range : Range) : op bool := call (UseRange range (use range));; mret (use range).

(** [ranges_.erase(r)] and [ranges_.emplace(r)], with the count of bytes. *)
Definition erase_range (r : Range) : op unit :=
  modify (fun s => set_ranges (erase_by_begin r (ranges_ s)) (u64 (ranges_bytes_ s - length_ r)) s).
Definition emplace_range (r : Range) : op unit :=
  modify (fun s => set_ranges (insert_by_begin r (ranges_ s)) (u64 (ranges_bytes_ s + length_ r)) s).

Definition DoOpAddRange (new_range : Range) : op bool :=
  ok ← ask_UseRange new_range;
  if negb ok then mret false
  else
    call (AddProtectedRange new_range);;
    emplace_range new_range;;
    TryCoalesceAdjacentRangesAt (begin_ new_range);;
    TryCoalesceAdjacentRangesAt (r_end new_range);;
    mret true.

Definition DoOpDelRange (old_range : Range) : op unit :=
  s ← get;
  check (contains old_range (ranges_ s));;
  call (DelProtectedRange old_range);;
  erase_range old_range;;
  call (UnUseRange old_range).

(** The ranges kept free for the transient ones. *)
Definition spare_ranges (mod_count other_count : Z) : bool :=
  (if is_mod_available_ c then mod_count else other_count) <=? u64 (max_range_count_ c - max_logical_range_count_ c).

Definition DoOpShortenRange (old_range new_range : Range) : op unit :=
  s ← get;
  check (contains old_range (ranges_ s));;
  check (negb (is_empty old_range));;
  check (negb (is_empty new_range));;
  check ((begin_ old_range =? begin_ new_range) || (r_end old_range =? r_end new_range));;
  check (length_ new_range <? length_ old_range);;
  check (Z.of_nat (length (ranges_ s)) <=? max_logical_range_count_ c);;
  check (spare_ranges 1 2);;
  let temp_range :=
    if begin_ old_range =? begin_ new_range then BeginEnd (r_end new_range) (r_end old_range)
    else BeginEnd (begin_ old_range) (begin_ new_range) in
  call (AddProtectedRange temp_range);;
  (if is_mod_available_ c then call (ModProtectedRange old_range new_range)
   else call (AddProtectedRange new_range);; call (DelProtectedRange old_range));;
  call (DelProtectedRange temp_range);;
  erase_range old_range;;
  emplace_range new_range;;
  call (UnUseRange temp_range).

Definition DoOpMergeRanges (first_range second_range : Range) : op bool :=
  check (negb (is_empty first_range));;
  check (negb (is_empty second_range));;
  check (r_end first_range <? begin_ second_range);;
  check (spare_ranges 0 1);;
  let gap_going_away := BeginEnd (r_end first_range) (begin_ second_range) in
  ok ← ask_UseRange gap_going_away;
  if negb ok then mret false
  else
    let new_range := BeginEnd (begin_ first_range) (r_end second_range) in
    (if is_mod_available_ c then
       call (ModProtectedRange first_range new_range);;
       call (DelProtectedRange second_range)
     else
       call (AddProtectedRange new_range);;
       call (DelProtectedRange first_range);;
       call (DelProtectedRange second_range));;
    erase_range first_range;;
    erase_range second_range;;
    emplace_range new_range;;
    mret true.

Definition DoOpSplitRange (range_to_split new_gap_to_stop_using : Range) : op unit :=
  s ← get;
  check (negb (is_empty range_to_split));;
  check (negb (is_empty new_gap_to_stop_using));;
  check (begin_ range_to_split <? begin_ new_gap_to_stop_using);;
  check (r_end new_gap_to_stop_using <? r_end range_to_split);;
  check (Z.of_nat (length (ranges_ s)) <=? u64 (max_logical_range_count_ c - 1));;
  check (spare_ranges 1 2);;
  let new_left_range := BeginEnd (begin_ range_to_split) (begin_ new_gap_to_stop_using) in
  let new_right_range := BeginEnd (r_end new_gap_to_stop_using) (r_end range_to_split) in
  call (AddProtectedRange new_left_range);;
  call (AddProtectedRange new_gap_to_stop_using);;
  (if is_mod_available_ c then call (ModProtectedRange range_to_split new_right_range)
   else call (AddProtectedRange new_right_range);; call (DelProtectedRange range_to_split));;
  call (DelProtectedRange new_gap_to_stop_using);;
  erase_range range_to_split;;
  emplace_range new_left_range;;
  emplace_range new_right_range;;
  call (UnUseRange new_gap_to_stop_using).

Definition DoOpExtendRangeEnd (old_range new_range : Range) : op bool :=
  check (begin_ old_range =? begin_ new_range);;
  check (r_end old_range <? r_end new_range);;
  ok ← ask_UseRange (BeginEnd (r_end old_range) (r_end new_range));
  if negb ok then mret false
  else
    call (AddProtectedRange new_range);;
    call (DelProtectedRange old_range);;
    erase_range old_range;;
    emplace_range new_range;;
    TryCoalesceAdjacentRangesAt (r_end new_range);;
    mret true.

(** ** The public operations *)

(** Only the ranges that need the new one covered are changed. *)
Definition FixupRangesDuringAdd (new_required_range : Range) : op bool :=
  s ← get;
  match ranges_ s with
  | [] => DoOpAddRange new_required_range
  | _ :: _ =>
      let range_starting_after_iter :=
        upper_bound CompareRangeByBegin (BeginLength (begin_ new_required_range) UINT64_MAX) (ranges_ s) in
      match range_starting_after_iter with
      | S k =>
          match ranges_ s !! k with
          | None => lift Panic
          | Some before =>
              if (begin_ before <=? begin_ new_required_range) && (r_end new_required_range <=? r_end before)
              then mret true
              else
                let new_begin := begin_ before in
                let new_end :=
                  match ranges_ s !! range_starting_after_iter with
                  | Some after => Z.min (r_end new_required_range) (begin_ after)
                  | None => r_end new_required_range
                  end in
                ok ← DoOpExtendRangeEnd before (BeginEnd new_begin new_end);
                if negb ok then mret false
                else TryCoalesceAdjacentRangesAt new_end;; mret true
          end
      | O =>
          match ranges_ s !! 0%nat with
          | None => lift Panic
          | Some after =>
              let new_end := Z.min (r_end new_required_range) (begin_ after) in
              let adjusted_range_to_add := BeginEnd (begin_ new_required_range) new_end in
              ok ← DoOpAddRange adjusted_range_to_add;
              if negb ok then mret false
              else
                s ← get;
                if Z.of_nat (length (ranges_ s)) <=? max_logical_range_count_ c then mret true
                else
                  check (Z.of_nat (length (ranges_ s)) =? max_logical_range_count_ c + 1);;
                  check (contains adjusted_range_to_add (ranges_ s));;
                  best ← lift (FindBestMerge (ranges_ s) (goal_ranges_ s));
                  match best with
                  | None => lift Panic
                  | Some (merge_left_range, merge_right_range) =>
                      merged ← DoOpMergeRanges merge_left_range merge_right_range;
                      if negb merged then DoOpDelRange adjusted_range_to_add;; mret false
                      else
                        s ← get;
                        check (Z.of_nat (length (ranges_ s)) =? max_logical_range_count_ c);;
                        mret true
                  end
          end
      end
  end.

Definition AddRange (range : Range) : op bool :=
  s ← get;
  if negb (is_dynamic_ c) && negb (bool_decide (requested_ranges_ s = [])) then mret true
  else
    modify (fun s => set_requested (insert_by_begin range (requested_ranges_ s)) (u64 (requested_bytes_ s + length_ range)) s);;
    s ← get;
    check (negb (IsAnyInternalOverlap (requested_ranges_ s)));;
    let required_range :=
      if is_dynamic_ c then AlignRequestedRange range (range_granularity_ c)
      else BeginLength (GetBase (ranges_control_ c)) (GetSize (ranges_control_ c)) in
    modify (fun s => set_required (insert_by_begin required_range (required_ranges_ s)) s);;
    PropagateRequiredRangesToGoalRanges required_range;;
    ok ← FixupRangesDuringAdd required_range;
    if negb ok then
      check (is_dynamic_ c);;
      modify (fun s => set_requested (erase_by_begin range (requested_ranges_ s)) (u64 (requested_bytes_ s - length_ range)) s);;
      s ← get;
      required ← lift (erase_find CompareRangeByBegin required_range (required_ranges_ s));
      modify (set_required required);;
      PropagateRequiredRangesToGoalRanges required_range;;
      mret false
    else
      (if is_dynamic_ c then call (ZeroProtectedSubRange true range) else mret tt);;
      mret true.

(** One step towards the goal; [true] when there is nothing (more) to do. *)
Definition StepTowardOptimalRangesInternal (allow_use_range : bool) : op bool :=
  s ← get;
  if bool_decide (ranges_ s = goal_ranges_ s) then mret true
  else
    match FindRangeToDelete (ranges_ s) (goal_ranges_ s) with
    | Some range_to_delete => DoOpDelRange range_to_delete;; mret false
    | None =>
        match FindRangeToShorten (ranges_ s) (goal_ranges_ s) with
        | Some (range_to_shorten, shorter_range) => DoOpShortenRange range_to_shorten shorter_range;; mret false
        | None =>
            check (Z.of_nat (length (ranges_ s)) <=? max_logical_range_count_ c);;
            match FindBestSplit (ranges_ s) (goal_ranges_ s) with
            | None => lift Panic
            | Some (range_to_split, new_gap_to_stop_using) =>
                if Z.of_nat (length (ranges_ s)) =? max_logical_range_count_ c then
                  if negb allow_use_range then mret true
                  else
                    best ← lift (FindBestMerge (ranges_ s) (goal_ranges_ s));
                    match best with
                    | Some (first_range_to_merge, second_range_to_merge) =>
                        merged ← DoOpMergeRanges first_range_to_merge second_range_to_merge;
                        if negb merged then mret false
                        else
                          s ← get;
                          match FindBestSplit (ranges_ s) (goal_ranges_ s) with
                          | Some (range_to_split, new_gap_to_stop_using) =>
                              DoOpSplitRange range_to_split new_gap_to_stop_using;; mret false
                          | None => lift Panic
                          end
                    | None => DoOpSplitRange range_to_split new_gap_to_stop_using;; mret false
                    end
                else DoOpSplitRange range_to_split new_gap_to_stop_using;; mret false
            end
        end
    end.

Definition StepTowardOptimalRanges : op bool := StepTowardOptimalRangesInternal true.

(** The loop of [FixupRangesDuringDelete]. *)
Fixpoint step_without_use (fuel : nat) : op unit :=
  match fuel with
  | O => lift Panic
  | S fuel =>
      done ← StepTowardOptimalRangesInternal false;
      if (done : bool) then mret tt else step_without_use fuel
  end.

(** Every turn but the last stops using an address at least. *)
Definition FixupRangesDuringDelete : op unit :=
  s ← get;
  step_without_use (S (Z.to_nat (ranges_bytes_ s))).

Definition DeleteRange (range : Range) : op unit :=
  if negb (is_dynamic_ c) then mret tt
  else
    s ← get;
    check (contains range (requested_ranges_ s));;
    modify (fun s => set_requested (erase_by_begin range (requested_ranges_ s)) (u64 (requested_bytes_ s - length_ range)) s);;
    let required_range := AlignRequestedRange range (range_granularity_ c) in
    s ← get;
    required ← lift (erase_find CompareRangeByBegin required_range (required_ranges_ s));
    modify (set_required required);;
    PropagateRequiredRangesToGoalRanges required_range;;
    FixupRangesDuringDelete.

(** ** The ranges that are not protected *)

(** [Intersect] with its assertion. *)
Definition intersect_checked (a b : Range) : exec Range := (ASSERT IsOverlap a b ;; Done (Intersect a b))%exec.

(** The ranges the callback is given, in order. *)
Definition ForUnprotectedRangesOverlappingRange (range : Range) (s : PR) : exec (list Range) :=
  let entire_range := BeginLength (GetBase (ranges_control_ c)) (GetSize (ranges_control_ c)) in
  let overlapping gap := if IsOverlap gap range then [Intersect gap range] else [] in
  if negb (is_dynamic_ c) then Done []
  else if bool_decide (ranges_ s = []) then
    exec_bind _ _ (fun r => Done [r]) (intersect_checked entire_range range)
  else
    let '(iter_begin, iter_end) := IteratorsCoveringPotentialOverlapsOfRangeWithRanges range (ranges_ s) in
    let iter_begin := pred iter_begin in
    let iter_end := if (iter_end =? length (ranges_ s))%nat then iter_end else S iter_end in
    let looked := slice iter_begin iter_end (ranges_ s) in
    (ASSERT negb (iter_begin =? iter_end)%nat ;;
     ASSERT negb (bool_decide (looked = [])) ;;
     Done
       ((match iter_begin, ranges_ s with
         | O, first :: _ => overlapping (BeginEnd (begin_ entire_range) (begin_ first))
         | _, _ => []
         end) ++
        concat (map overlapping (gaps looked)) ++
        (match last (ranges_ s) with
         | Some last =>
             if (iter_end =? length (ranges_ s))%nat then overlapping (BeginEnd (r_end last) (r_end entire_range)) else []
         | None => []
         end)))%exec.

Definition ForUnprotectedRanges (s : PR) : exec (list Range) :=
  ForUnprotectedRangesOverlappingRange (BeginLength (GetBase (ranges_control_ c)) (GetSize (ranges_control_ c))) s.

Definition GetLoanableBytes (s : PR) : Z := u64 (GetSize (ranges_control_ c) - ranges_bytes_ s).
End methods.

(** ** A client's run *)

Inductive ClientRequest :=
  | ReqAdd (range : Range)
  | ReqDelete (range : Range)
  | ReqStep.

(** What a request returns; [None] for [DeleteRange], which returns nothing. *)
Definition serve `{!Fbl} (c : Config) (use : Range -> bool) (q : ClientRequest) : op (option bool) :=
  match q with
  | ReqAdd r => ok ← AddRange c use r; mret (Some ok)
  | ReqDelete r => DeleteRange c use r;; mret None
  | ReqStep => done ← StepTowardOptimalRanges c use; mret (Some done)
  end.

(** Requests one after the other, the answers of [UseRange] given for each. *)
Fixpoint serve_all `{!Fbl} (c : Config) (qs : list (ClientRequest * (Range -> bool))) : op (list (option bool)) :=
  match qs with
  | [] => mret []
  | (q, use) :: qs => a ← serve c use q; rest ← serve_all c qs; mret (a :: rest)
  end.
