(* ===== verification/RangeGoals.v ===== *)
(** * RangeGoals: the sets derived from the required ranges

    What [PropagateRequiredRangesToGoalRanges] computes. [UpdateCoalescedRequiredRanges] and
    [UpdateInteriorUnusedRanges] repair their sets around the range that changed; the theorems say that the
    result is what a computation from scratch gives. *)
From Stdlib Require Import ZArith Lia Sorted.
From stdpp Require Import prelude sorting.
From S2P Require Import Prelude RangeSets RangeFacts ProtectedRanges.

Local Open Scope Z_scope.
Implicit Types (r a : Range) (l : list Range).

(** ** Coalescing *)

Lemma coalesce_at_spec lo l (loc : Z) :
  disj lo l ->
  exists l', coalesce_at l loc = Done l' /\ disj lo l' /\ (forall x, covers l' x <-> covers l x) /\
    (forall x, touch l' x <-> touch l x /\ x <> loc).
Proof.
  intros Hd. unfold coalesce_at. destruct (find_adjacent_spec _ _ loc Hd) as [[-> Hn]|(l1 & a & b & l2 & -> & Ea & Eb & ->)].
  - exists l. split_and!; [done..|]. intros x. split; [|tauto]. intros H. split; [done|by intros ->].
  - destruct (weld_spec lo l1 a b l2 Hd ltac:(lia)) as (E & _ & H1 & H2 & H3 & _). unfold mbind, exec_bind.
    rewrite E. eexists. split_and!; [done..|]. intros x. rewrite H3. by rewrite Ea.
Qed.

(** ** [UpdateCoalescedRequiredRanges] *)

(** What is left at one end of a range is put back, if it is not empty; [e] is where an empty range is. *)
Definition end_part (b e z : Z) : Range := if b <? e then BeginEnd b e else BeginLength z 0.

Lemma end_part_spec lo l (b e z : Z) :
  disj lo l -> 0 <= lo <= b -> e < 2 ^ 64 -> is_u64 z -> (forall x, b <= x < e -> ~ covers l x) ->
  exists l', (if is_empty (end_part b e z) then l else insert_by_begin (end_part b e z) l) = l' /\ disj lo l' /\
    (forall x, covers l' x <-> covers l x \/ b <= x < e) /\ (forall a, a ∈ l' <-> a ∈ l \/ begin_ a = b /\ en a = e /\ b < e).
Proof.
  intros Hd Hb He Hz Hn. eexists. split; [reflexivity|]. unfold end_part. destruct (Z.ltb_spec b e).
  - destruct (BeginEnd_ok b e) as [-> Hok]; [lia..|]. rewrite is_empty_ok by done. split_and!.
    + apply emplace_disj; [done|done|simpl; lia|]. intros x Hx. apply Hn. unfold inr, en in Hx. simpl in Hx. lia.
    + intros x. rewrite emplace_covers. unfold inr, en. simpl. split; (intros [?|?]; by auto || (right; lia) || (left; lia)).
    + intros a. rewrite emplace_elem. split; [intros [->|?]; [right; unfold en; simpl; lia|by left]|].
      intros [?|(E1 & E2 & _)]; [by right|left]. apply range_eq; [done|]. rewrite E2. unfold en. simpl. lia.
  - assert (is_empty (BeginLength z 0) = true) as ->.
    { unfold is_empty, r_end, BeginLength. simpl. rewrite Z.add_0_r, u64_small by done. apply Z.leb_refl. }
    split_and!; [done|intros x; split; [by left|intros [?|?]; [done|lia]]|intros a; split; [by left|intros [?|?]; [done|lia]]].
Qed.

(** What is left of a range when the addresses of [diff] are taken out. *)
Lemma subtract_one_spec diff lo l r :
  okr diff -> disj lo l -> r ∈ l -> 0 <= lo ->
  exists l', subtract_one diff (Done l) r = Done l' /\ disj lo l' /\
    (forall x, covers l' x <-> covers l x /\ ~ (inr diff x /\ inr r x)) /\
    (forall x, touch l' x -> touch l x \/ x = begin_ diff \/ x = en diff) /\
    (forall a, a ∈ l -> a <> r -> a ∈ l').
Proof.
  intros Hdiff Hd Hr Hlo. destruct (disj_elem _ _ _ Hd Hr) as [Hrlo Hrok].
  unfold subtract_one. cbn [mbind exec_bind]. destruct (IsOverlap r diff) eqn:Eo; cbn [negb].
  2:{ exists l. split_and!; [done..| |tauto|tauto]. intros x. split; [|tauto]. intros H. split; [done|]. intros [H1 H2].
      assert (IsOverlap r diff = true); [|congruence]. apply IsOverlap_inr; eauto. }
  unfold SubtractRanges. rewrite Eo. cbn [zx_assert exec_bind].
  rewrite !r_end_ok by done. apply IsOverlap_spec in Eo as [Eo1 Eo2]; [|done..].
  set (l0 := erase_by_begin r l). assert (disj lo l0) as Hd0 by (by apply erase_disj).
  assert (forall x, covers l0 x <-> covers l x /\ ~ inr r x) as Hc0 by (intros; by eapply erase_covers).
  destruct (end_part_spec lo l0 (begin_ r) (begin_ diff) (begin_ r) Hd0) as (l1 & E1 & Hd1 & Hc1 & He1);
    [unfold okr, en, is_u64 in *; lia..|intros x Hx; rewrite Hc0; intros [_ Hn]; apply Hn; unfold inr; lia|].
  destruct (end_part_spec lo l1 (en diff) (en r) (en r) Hd1) as (l2 & E2 & Hd2 & Hc2 & He2);
    [unfold okr, en, is_u64 in *; lia..|intros x Hx; rewrite Hc1, Hc0; intros [[_ Hn]|?]; [apply Hn; unfold inr, okr, en in *; lia|unfold okr, en in *; lia]|].
  unfold end_part in E1, E2. unfold mbind, exec_bind. rewrite E1, E2. exists l2. split_and!; [done|done| | |].
  - intros x. rewrite Hc2, Hc1, Hc0. destruct (decide (inr r x)) as [Hx|Hx].
    + assert (covers l x) by (by exists r). unfold inr in *. unfold okr, en in *. intuition lia.
    + unfold inr in *. unfold okr, en in *. intuition lia.
  - intros x (p & q & Hp & Hq & Ep & Eq). assert (forall a, a ∈ l0 -> a ∈ l) as H0 by (intros a [_ ?]%erase_elem; done).
    assert ((exists p', p' ∈ l /\ en p' = x) \/ x = begin_ diff) as [(p' & Hp' & Ep')|]; [| |auto].
    { apply He2 in Hp as [[Hp|(_ & ? & _)]%He1|(_ & ? & _)]; [left; eauto|right; congruence|left; exists r; split; [done|congruence]]. }
    assert ((exists q', q' ∈ l /\ begin_ q' = x) \/ x = en diff) as [(q' & Hq' & Eq')|]; [| |auto].
    { apply He2 in Hq as [[Hq|(? & _)]%He1|(? & _)]; [left; eauto|left; exists r; split; [done|congruence]|right; congruence]. }
    left. by exists p', q'.
  - intros a Ha Hne. apply He2. left. apply He1. left. by apply erase_elem.
Qed.

Lemma subtract_fold diff l0 lo l :
  okr diff -> 0 <= lo -> NoDup l0 -> disj lo l -> (forall r, r ∈ l0 -> r ∈ l) ->
  exists l', fold_left (subtract_one diff) l0 (Done l) = Done l' /\ disj lo l' /\
    (forall x, covers l' x <-> covers l x /\ ~ (inr diff x /\ covers l0 x)) /\
    (forall x, touch l' x -> touch l x \/ x = begin_ diff \/ x = en diff).
Proof.
  intros Hdiff Hlo Hnd. revert l. induction Hnd as [|r l0 Hr _ IH]; intros l Hd Hin; cbn [fold_left].
  { exists l. split_and!; [done..| |tauto]. intros x. rewrite covers_nil. tauto. }
  destruct (subtract_one_spec diff lo l r) as (l1 & E1 & Hd1 & Hc1 & Ht1 & He1); [done|done|set_solver|done|].
  rewrite E1.
  destruct (IH l1 Hd1) as (l2 & E2 & Hd2 & Hc2 & Ht2).
  { intros a Ha. apply He1; [set_solver|by intros ->]. }
  exists l2. split_and!; [exact E2|done| |].
  - intros x. rewrite Hc2, Hc1, covers_cons. tauto.
  - intros x [[]%Ht1|]%Ht2; tauto.
Qed.

Definition rng (b e : Z) : Range := mkRange b (e - b).

Lemma rng_end b e : 0 <= e < 2 ^ 64 -> r_end (rng b e) = e.
Proof. intros. unfold r_end, rng. simpl. rewrite u64_small; [lia|]. unfold is_u64. lia. Qed.

Lemma rng_empty b e : 0 <= e < 2 ^ 64 -> is_empty (rng b e) = (e <=? b).
Proof. intros. unfold is_empty. by rewrite rng_end. Qed.

Lemma en_rng b e : en (rng b e) = e.
Proof. unfold en, rng. simpl. lia. Qed.

Lemma BeginEnd_rng b e : 0 <= b <= e -> e < 2 ^ 64 -> BeginEnd b e = rng b e.
Proof. intros. unfold BeginEnd, rng. rewrite u64_small; [done|]. unfold is_u64. lia. Qed.

Lemma BeginLength_rng b : BeginLength b 0 = rng b b.
Proof. unfold BeginLength, rng. by rewrite Z.sub_diag. Qed.

(** The scan: the addresses of [diff] before [ib] are in the flushed ranges [F], those from [ib] to [ie] are
    in progress, and what is left of the list decides the others. *)
Record Scan (diff : Range) (cov : Z -> Prop) (B R F : list Range) (ib ie : Z) (c : list Range) : Prop := {
  sc_pos : begin_ diff <= ib <= ie /\ ie <= en diff;
  sc_disj : disj 0 c;
  sc_perm : c ≡ₚ F ++ B;
  sc_flushed f : f ∈ F -> begin_ diff <= begin_ f /\ en f < ib;
  sc_no_touch x : ~ touch F x;
  sc_done x : begin_ diff <= x < ie -> cov x <-> covers F x \/ ib <= x;
  sc_todo x : ie <= x < en diff -> cov x <-> covers R x
}.

Section scan.
Context (diff : Range) (cov : Z -> Prop) (B : list Range).
Context (Hdiff : okr diff) (HB : forall x, inr diff x -> ~ covers B x).

(** Flushing up to [g], with no covered address between [ie] and [g]. *)
Lemma flush_spec R F ib ie c g :
  Scan diff cov B R F ib ie c -> ie < g \/ g = en diff -> ie <= g <= en diff ->
  (forall x, ie <= x < g -> ~ cov x) ->
  exists F' c', flush_in_progress diff g (rng ib ie, c) = Done (rng g g, c') /\
    (forall f, f ∈ F' <-> f ∈ F \/ ib < ie /\ f = rng ib ie) /\
    (g = en diff \/ Scan diff cov B R F' g g c') /\
    disj 0 c' /\ c' ≡ₚ F' ++ B /\ (forall x, ~ touch F' x) /\
    (forall x, begin_ diff <= x < g -> cov x <-> covers F' x) /\
    (forall f, f ∈ F' -> begin_ diff <= begin_ f /\ en f <= g).
Proof using All.
  intros [Hp Hd Hperm Hf Ht Hdone Htodo] Hg Hgd Hgap. unfold flush_in_progress.
  assert (0 <= ib /\ en diff < 2 ^ 64) as [Hib Hen] by (unfold okr in Hdiff; lia).
  rewrite rng_end, rng_empty by lia. rewrite (r_end_ok diff) by done.
  assert (((ie <? g) || (g =? en diff)) = true) as -> by (destruct (Z.ltb_spec ie g); [done|]; simpl; lia).
  cbn [zx_assert exec_bind]. rewrite BeginLength_rng.
  set (F' := if ie <=? ib then F else rng ib ie :: F).
  exists F'. eexists. split; [reflexivity|].
  assert (forall f, f ∈ F' <-> f ∈ F \/ ib < ie /\ f = rng ib ie) as HF'.
  { intros f. unfold F'. destruct (Z.leb_spec ie ib); [intuition lia|]. rewrite elem_of_cons. naive_solver. }
  assert (disj 0 (if ie <=? ib then c else insert_by_begin (rng ib ie) c)) as Hd'.
  { destruct (Z.leb_spec ie ib); [done|]. apply emplace_disj; [done| | |].
    - unfold okr. rewrite en_rng. unfold rng. simpl. lia.
    - simpl. lia.
    - intros x Hx. rewrite Hperm, covers_app. unfold inr in Hx. rewrite en_rng in Hx. simpl in Hx.
      intros [(f & [_ ?]%Hf & ?)|Hc]; [unfold inr in *; lia|]. apply (HB x); [unfold inr; lia|done]. }
  assert ((if ie <=? ib then c else insert_by_begin (rng ib ie) c) ≡ₚ F' ++ B) as Hp'.
  { unfold F'. destruct (ie <=? ib); [done|]. rewrite emplace_perm, Hperm. done. }
  assert (forall x, ~ touch F' x) as Ht'.
  { intros x (p & q & Hp1 & Hq1 & Ep & Eq). apply HF' in Hp1 as [Hp1|[? ->]]; apply HF' in Hq1 as [Hq1|[? ->]].
    - apply (Ht x). by exists p, q.
    - apply Hf in Hp1. simpl in Eq. lia.
    - rewrite en_rng in Ep. pose proof (Hf _ Hq1). 
      assert (okr q) as Hq.
      { eapply (disj_elem _ _ _ Hd). rewrite Hperm. apply elem_of_app. by left. }
      unfold okr, en in *. lia.
    - rewrite en_rng in Ep. simpl in Eq. lia. }
  assert (forall x, begin_ diff <= x < g -> cov x <-> covers F' x) as Hc'.
  { intros x Hx. assert (covers F' x <-> covers F x \/ ib <= x < ie) as ->.
    { unfold covers. setoid_rewrite HF'. split.
      - intros (f & [Hfi|[? ->]] & Hi); [left; eauto|right]. unfold inr in Hi. rewrite en_rng in Hi. simpl in Hi. lia.
      - intros [(f & ? & ?)|?]; [exists f; auto|]. exists (rng ib ie). split; [right; split; [lia|done]|].
        unfold inr. rewrite en_rng. simpl. lia. }
    destruct (decide (x < ie)).
    - rewrite Hdone by lia. intuition lia.
    - split; [intros Hc; exfalso; apply (Hgap x); [lia|done]|].
      intros [(f & [_ ?]%Hf & ?)|?]; [unfold inr in *|]; lia. }
  assert (forall f, f ∈ F' -> begin_ diff <= begin_ f /\ en f <= ie) as Hfl.
  { intros f [Hfi|[? ->]]%HF'; [apply Hf in Hfi; lia|]. rewrite en_rng. simpl. lia. }
  split_and!; try done.
  - destruct Hg as [Hg| ->]; [right|by left]. constructor; try done; try lia.
    + intros f Hfi%Hfl. lia.
    + intros x Hx. rewrite Hc' by done. intuition lia.
    + intros x Hx. apply Htodo. lia.
  - intros f Hfi%Hfl. lia.
Qed.

Lemma scan_fold R : forall F ib ie c,
  StronglySorted (fun a b => begin_ a <= begin_ b /\ en a <= en b) R ->
  Forall (fun r => okr r /\ begin_ diff < en r /\ begin_ r < en diff) R ->
  Scan diff cov B R F ib ie c ->
  exists F' ib' ie' c', fold_left (scan_one diff) R (Done (rng ib ie, c)) = Done (rng ib' ie', c') /\
    Scan diff cov B [] F' ib' ie' c'.
Proof using All.
  induction R as [|r R IH]; intros F ib ie c Hs Hr Hsc; cbn [fold_left]; [by exists F, ib, ie, c|].
  apply StronglySorted_inv in Hs as [Hs Hrs]. apply Forall_cons in Hr as [(Hrok & Hr1 & Hr2) Hr].
  assert (0 <= ib /\ en diff < 2 ^ 64) as [Hib Hen] by (destruct Hsc as [? _]; unfold okr in Hdiff; lia).
  assert (exists F1 ib1 ie1 c1,
    (if r_end (rng ib ie) <? begin_ r then flush_in_progress diff (begin_ r) (rng ib ie, c) else Done (rng ib ie, c)) =
      Done (rng ib1 ie1, c1) /\ Scan diff cov B (r :: R) F1 ib1 ie1 c1 /\ begin_ r <= ie1) as (F1 & ib1 & ie1 & c1 & E1 & Hsc1 & Hle1).
  { rewrite rng_end by (destruct Hsc as [? _]; lia). destruct (Z.ltb_spec ie (begin_ r)).
    - destruct (flush_spec _ _ _ _ _ (begin_ r) Hsc) as (F1 & c1 & E1 & _ & [?|Hsc1] & _); [by left|lia| |lia|].
      + intros x Hx Hc. apply (sc_todo _ _ _ _ _ _ _ _ Hsc) in Hc; [|destruct Hsc as [? _]; lia].
        apply covers_cons in Hc as [Hc|(q & Hq & Hc)]; [unfold inr in Hc; lia|].
        rewrite Forall_forall in Hrs. specialize (Hrs _ Hq). unfold inr in Hc. lia.
      + exists F1, (begin_ r), (begin_ r), c1. split_and!; [done..|lia].
    - exists F, ib, ie, c. split_and!; [done..|lia]. }
  unfold scan_one at 2. cbn [mbind exec_bind fst]. unfold mbind, exec_bind. rewrite E1.
  pose proof (sc_pos _ _ _ _ _ _ _ _ Hsc1) as Hp1. assert (0 <= begin_ diff) as Hdb by apply Hdiff.
  rewrite (r_end_ok diff), (r_end_ok r), rng_end by (done || lia).
  rewrite (proj2 (Z.ltb_lt (begin_ r) (en diff))) by lia. rewrite (proj2 (Z.leb_le (begin_ r) ie1)) by lia.
  cbn [zx_assert].
  destruct (Z.leb_spec (en r) ie1) as [Hle|Hgt].
  - apply (IH F1 ib1 ie1 c1 Hs Hr). destruct Hsc1. constructor; try done.
    intros x Hx. rewrite sc_todo0, covers_cons by done. unfold inr. intuition lia.
  - rewrite BeginEnd_rng by (simpl; lia). cbn [begin_ rng].
    apply (IH F1 ib1 (Z.min (en diff) (en r)) c1 Hs Hr). destruct Hsc1. constructor; try done; try lia.
    + intros x Hx. destruct (decide (x < ie1)); [by apply sc_done0; lia|].
      rewrite sc_todo0 by lia. split; [intros _; right; lia|].
      intros _. apply covers_cons. left. unfold inr. lia.
    + intros x Hx. rewrite sc_todo0, covers_cons by lia. unfold inr. intuition lia.
Qed.
End scan.

(** After the ranges of [diff] have been rebuilt, ranges can meet at its ends only. *)
Lemma rebuilt_touch diff B F c x :
  okr diff -> disj 0 B -> disj 0 c -> c ≡ₚ F ++ B -> (forall y, covers B y -> ~ inr diff y) -> (forall y, ~ touch F y) ->
  (forall f, f ∈ F -> begin_ diff <= begin_ f /\ en f <= en diff) -> (forall y, touch B y -> y = begin_ diff \/ y = en diff) ->
  touch c x -> x = begin_ diff \/ x = en diff.
Proof.
  intros Hdiff HdB Hd3 Hp3 HcB Ht3 Hf3 HtB. intros (p & q & Hpp & Hqq & Ep & Eq). pose proof Hpp as Hpp'. pose proof Hqq as Hqq'.
  rewrite Hp3 in Hpp, Hqq. apply elem_of_app in Hpp as [Hpp|Hpp]; apply elem_of_app in Hqq as [Hqq|Hqq].
  - exfalso. apply (Ht3 x). by exists p, q.
  - apply Hf3 in Hpp. destruct (disj_elem _ _ _ HdB Hqq) as [_ Hq].
    destruct (decide (x = en diff)); [by right|]. exfalso.
    assert (covers B (begin_ q)) as Hn%HcB; [exists q; split; [done|unfold inr, okr, en in *; lia]|].
    apply Hn. unfold inr. destruct (disj_elem _ _ _ Hd3 Hpp') as [_ ?]. unfold okr, en in *. lia.
  - apply Hf3 in Hqq. destruct (disj_elem _ _ _ HdB Hpp) as [_ Hq].
    destruct (decide (x = begin_ diff)); [by left|]. exfalso.
    assert (covers B (en p - 1)) as Hn%HcB; [exists p; split; [done|unfold inr, okr, en in *; lia]|].
    apply Hn. unfold inr. destruct (disj_elem _ _ _ Hd3 Hqq') as [_ ?]. unfold okr, en in *. lia.
  - apply HtB. by exists p, q.
Qed.

(** The result covers the same addresses as before outside [diff_range], and inside it the required ones. *)
Lemma update_coalesced diff required coalesced :
  okr diff -> mono required -> coal (-1) coalesced ->
  exists l, UpdateCoalescedRequiredRanges diff required coalesced = Done l /\ coal (-1) l /\
    forall x, covers l x <-> (inr diff x /\ covers required x) \/ (~ inr diff x /\ covers coalesced x).
Proof.
  intros Hdiff Hm Hc. pose proof (coal_disj _ _ Hc) as Hd. simpl in Hd.
  unfold UpdateCoalescedRequiredRanges. rewrite is_empty_ok by done. cbn [negb zx_assert exec_bind].
  destruct (subtract_fold diff (look diff coalesced) 0 coalesced) as (B & E1 & HdB & HcB & HtB); [done|lia| |done| |].
  { rewrite look_filter by (done || by eapply disj_mono). apply NoDup_filter. by eapply disj_NoDup. }
  { intros r Hr. apply look_elem in Hr; [tauto|by eapply disj_mono|done]. }
  unfold mbind, exec_bind. rewrite E1.
  assert (forall x, covers B x <-> covers coalesced x /\ ~ inr diff x) as HcB'.
  { intros x. rewrite HcB. split; intros [H1 H2]; (split; [done|]); intros H3; [|tauto]. apply H2. split; [done|].
    destruct H1 as (r & Hr & Hx). exists r. split; [|done]. apply look_elem; [by eapply disj_mono|done|].
    split; [done|]. apply IsOverlap_inr; [done|by eapply (disj_elem _ _ _ Hd)|eauto]. }
  assert (0 <= begin_ diff /\ en diff < 2 ^ 64 /\ begin_ diff < en diff) as (Hb0 & He0 & Hbe) by (unfold okr, en in *; lia).
  assert (Scan diff (covers required) B (look diff required) [] (begin_ diff) (begin_ diff) B) as Hsc.
  { constructor; try done; try lia.
    - intros f Hf. by apply not_elem_of_nil in Hf.
    - intros x (a & ? & Ha & _). by apply not_elem_of_nil in Ha.
    - intros x Hx. split; intros (r & Hr & Hxr); exists r; (split; [|done]).
      + apply look_elem; [done..|]. split; [done|]. apply IsOverlap_inr; [done| |exists x; split; [unfold inr; lia|done]].
        destruct Hm as [_ Hok]. rewrite Forall_forall in Hok. auto.
      + apply look_elem in Hr; [tauto|done..]. }
  rewrite BeginLength_rng.
  destruct (scan_fold diff (covers required) B Hdiff ltac:(intros x ? ?%HcB'; tauto) (look diff required) [] (begin_ diff) (begin_ diff) B)
    as (F & ib & ie & c & E2 & Hsc2); [| |done|].
  { rewrite look_filter by done. apply StronglySorted_filter. by destruct Hm. }
  { apply Forall_forall. intros r Hr. apply look_elem in Hr as [Hr Ho]; [|done..].
    destruct Hm as [_ Hok]. rewrite Forall_forall in Hok. apply IsOverlap_spec in Ho; [|done|auto]. split; [auto|lia]. }
  rewrite E2. rewrite (r_end_ok diff) by done.
  destruct (flush_spec diff (covers required) B Hdiff ltac:(intros x ? ?%HcB'; tauto) _ _ _ _ _ (en diff) Hsc2)
    as (F' & c' & E3 & _ & _ & Hd3 & Hp3 & Ht3 & Hc3 & Hf3); [by right|destruct Hsc2 as [? _]; lia| |].
  { intros x Hx Hcx. apply (sc_todo _ _ _ _ _ _ _ _ Hsc2) in Hcx; [|done]. by apply covers_nil in Hcx. }
  rewrite E3.
  pose proof (fun x => rebuilt_touch diff B F' c' x Hdiff HdB Hd3 Hp3 ltac:(intros y Hy; by apply HcB') Ht3 Hf3) as Ht.
  assert (forall x, touch B x -> x = begin_ diff \/ x = en diff) as HtB'.
  { intros x [H|H]%HtB; [exfalso; by eapply coal_no_touch|tauto]. }
  destruct (coalesce_at_spec 0 c' (begin_ diff) Hd3) as (c4 & E4 & Hd4 & Hc4 & Ht4). rewrite E4.
  destruct (coalesce_at_spec 0 c4 (en diff) Hd4) as (c5 & E5 & Hd5 & Hc5 & Ht5). rewrite E5.
  exists c5. split; [done|]. split.
  - apply (coal_of_disj 0); [done|]. intros x [[Hx ?]%Ht4 ?]%Ht5. apply (Ht x HtB') in Hx. tauto.
  - intros x. rewrite Hc5, Hc4, Hp3, covers_app, HcB'. destruct (decide (inr diff x)) as [Hx|Hx].
    + rewrite Hc3 by (unfold inr in Hx; lia). tauto.
    + split; [|tauto]. intros [(f & [Hf1 Hf2]%Hf3 & Hxf)|?]; [|tauto]. unfold inr in *. lia.
Qed.

(** ** Gaps *)

(** A gap of a set of addresses: a maximal run outside it with members on both sides. *)
Definition gapP (P : Z -> Prop) r : Prop :=
  okr r /\ P (begin_ r - 1) /\ P (en r) /\ forall x, inr r x -> ~ P x.

Lemma gaps_cons a d l :
  okr a -> okr d -> en a < begin_ d -> gaps (a :: d :: l) = rng (en a) (begin_ d) :: gaps (d :: l).
Proof.
  intros Ha Hd Hlt. simpl. rewrite r_end_ok by done. rewrite BeginEnd_rng; [done|..];
    unfold okr, en in *; lia.
Qed.

Lemma okr_rng (b e : Z) : 0 <= b < e -> e < 2 ^ 64 -> okr (rng b e).
Proof. intros. unfold okr. rewrite en_rng. simpl. lia. Qed.

Lemma gaps_app l1 a l2 lo :
  coal lo (l1 ++ a :: l2) -> gaps (l1 ++ a :: l2) = gaps (l1 ++ [a]) ++ gaps (a :: l2).
Proof.
  revert lo. induction l1 as [|d l1 IH]; intros lo Hc; [done|]. simpl in Hc. destruct Hc as (_ & Hd & Hc).
  destruct l1 as [|d' l1]; simpl in Hc.
  - destruct Hc as (Hlt & Ha & _). cbn [app]. by rewrite !gaps_cons.
  - cbn [app]. rewrite !gaps_cons by tauto. cbn [app] in IH. erewrite IH by (split; [|exact (proj2 Hc)]; apply Hc). done.
Qed.

Lemma gaps_elem lo l r : coal lo l -> r ∈ gaps l <-> gapP (covers l) r.
Proof.
  revert lo. induction l as [|a l IH]; intros lo Hc.
  { simpl. split; [intros H; by apply not_elem_of_nil in H|]. intros (_ & H & _). by apply covers_nil in H. }
  destruct l as [|d l].
  { simpl. split; [intros H; by apply not_elem_of_nil in H|]. intros (Hok & H1 & H2 & H3).
    apply covers_cons in H1 as [H1|H1%covers_nil]; [|done]. apply covers_cons in H2 as [H2|H2%covers_nil]; [|done].
    exfalso. apply (H3 (begin_ r)); [unfold inr, okr, en in *; lia|]. apply covers_cons. left.
    unfold inr, okr, en in *. lia. }
  simpl in Hc. destruct Hc as (_ & Ha & Hlt & Hd & Hc). rewrite gaps_cons by done.
  rewrite elem_of_cons, (IH (en a)) by done.
  assert (forall x, covers (d :: l) x -> begin_ d <= x) as Hge.
  { intros x Hx. assert (disj (begin_ d) (d :: l)) as Hdj.
    { simpl. split_and!; [lia|done|]. eapply disj_weaken; [by apply coal_disj|lia]. }
    by destruct (disj_covers _ _ _ Hdj Hx). }
  assert (covers (d :: l) (begin_ d)) as Hcd.
  { apply covers_cons. left. unfold inr, okr, en in *. lia. }
  assert (forall x, covers (a :: d :: l) x <-> inr a x \/ covers (d :: l) x) as Hcc by (intros; apply covers_cons).
  split.
  - intros [->|(Hok & H1 & H2 & H3)].
    + split_and!.
      * apply okr_rng; unfold okr, en in *; lia.
      * apply Hcc. left. simpl. unfold inr, okr, en in *. lia.
      * apply Hcc. right. by rewrite en_rng.
      * intros x Hx. unfold inr in Hx. rewrite en_rng in Hx. simpl in Hx. rewrite Hcc.
        intros [?|?%Hge]; [unfold inr in *; lia|lia].
    + pose proof (Hge _ H1). split_and!; [done|apply Hcc; by right|apply Hcc; by right|].
      intros x Hx. rewrite Hcc. intros [?|?]; [|by apply (H3 x)]. unfold inr in *. lia.
  - intros (Hok & H1 & H2 & H3). apply Hcc in H1 as [H1|H1].
    + left. assert (begin_ r = en a) as Eb.
      { destruct (decide (begin_ r = en a)); [done|]. exfalso. apply (H3 (begin_ r)); [unfold inr, okr, en in *; lia|].
        apply Hcc. left. unfold inr, okr, en in *. lia. }
      assert (begin_ d <= en r) as Hde.
      { apply Hcc in H2 as [H2|H2]; [unfold inr, okr, en in *; lia|by apply Hge]. }
      apply range_eq; [done|]. rewrite en_rng. destruct (decide (en r = begin_ d)); [done|]. exfalso.
      apply (H3 (begin_ d)); [unfold inr; lia|]. apply Hcc. by right.
    + right. pose proof (Hge _ H1). split_and!; [done|done| |].
      * apply Hcc in H2 as [H2|H2]; [|done]. unfold inr, okr, en in *. lia.
      * intros x Hx Hn. apply (H3 x Hx). apply Hcc. by right.
Qed.

Lemma gaps_coal_cons lo a l : coal lo (a :: l) -> coal (begin_ a) (gaps (a :: l)).
Proof.
  revert lo a. induction l as [|d l IH]; intros lo a Hc; [done|].
  pose proof Hc as (_ & Ha & Hc'). pose proof Hc' as (Hlt & Hd & _). rewrite gaps_cons by done.
  simpl. split_and!.
  - unfold okr, en in *. lia.
  - apply okr_rng; unfold okr, en in *; lia.
  - rewrite en_rng. by eapply IH.
Qed.

Lemma gaps_coal lo l : coal lo l -> coal lo (gaps l).
Proof.
  destruct l as [|a l]; [done|]. intros Hc. eapply coal_weaken; [by eapply gaps_coal_cons|].
  destruct Hc. lia.
Qed.

Lemma gaps_length l : length (gaps l) = pred (length l).
Proof.
  destruct l as [|a l]; [done|]. simpl. generalize (r_end a). clear a.
  induction l as [|d l IH]; intros e; simpl; [done|]. by rewrite IH.
Qed.

Lemma gaps_bounds lo l1 a l2 r :
  coal lo (l1 ++ a :: l2) ->
  (r ∈ gaps (l1 ++ [a]) -> en r <= begin_ a) /\ (r ∈ gaps (a :: l2) -> en a <= begin_ r).
Proof.
  intros Hc. split.
  - revert lo Hc. induction l1 as [|d l1 IH]; intros lo Hc; [intros H; by apply not_elem_of_nil in H|].
    destruct l1 as [|d' l1]; cbn [app] in *; destruct Hc as (_ & Hd & Hc); pose proof Hc as (Hlt & Ha & _).
    + rewrite gaps_cons by done. intros [->|H]%elem_of_cons; [by rewrite en_rng|by apply not_elem_of_nil in H].
    + rewrite gaps_cons by done. intros [->|H]%elem_of_cons; [|by eapply IH]. rewrite en_rng.
      apply coal_disj in Hc. assert (a ∈ d' :: l1 ++ a :: l2) as Ha' by set_solver.
      destruct (disj_pair _ _ d' a Hc ltac:(by left) Ha') as [->|[?|?]]; [lia|unfold okr, en in *; lia|].
      apply disj_in_order in Hc. apply StronglySorted_inv in Hc as [_ Hc]. rewrite Forall_forall in Hc.
      specialize (Hc a ltac:(set_solver)). apply by_begin_ge in Hc. lia.
  - assert (coal (begin_ a - 1) (a :: l2)) as Hc2.
    { revert lo Hc. induction l1 as [|d l1 IH]; intros lo Hc; cbn [app] in Hc.
      - destruct Hc as (_ & ? & ?). simpl. split_and!; [lia|done..].
      - destruct Hc as (_ & _ & Hc). by eapply IH. }
    intros Hr. apply (gaps_elem _ _ _ Hc2) in Hr as (Hok & H1 & _ & H3).
    destruct (decide (en a <= begin_ r)); [done|]. exfalso. apply (H3 (begin_ r)).
    + unfold inr, okr, en in *. lia.
    + assert (begin_ a <= begin_ r - 1) as Hb.
      { apply coal_disj in Hc2. apply (disj_covers (begin_ a - 1 + 1)) in H1; [lia|done]. }
      apply covers_cons. left. unfold inr. lia.
Qed.

(** ** [UpdateInteriorUnusedRanges] *)

Lemma erase_fold (l0 l : list Range) :
  fold_left (fun l r => erase CompareRangeByLength r l) l0 l = filter (fun r => r ∉ l0) l.
Proof.
  revert l. induction l0 as [|r l0 IH]; intros l; simpl.
  - rewrite list_filter_all; [done|]. apply Forall_forall. intros x _. apply not_elem_of_nil.
  - rewrite IH, (erase_filter CompareRangeByLength), list_filter_filter. apply list_filter_iff.
    intros x. rewrite not_elem_of_cons. tauto.
Qed.

(** Taking out the middle of a list without duplicates. *)
Lemma filter_middle (i1 i2 i3 : list Range) : NoDup (i1 ++ i2 ++ i3) -> i1 ++ i3 = filter (fun r => r ∉ i2) (i1 ++ i2 ++ i3).
Proof.
  intros Hnd. apply NoDup_app in Hnd as (_ & N1 & Hnd). apply NoDup_app in Hnd as (_ & N2 & _).
  rewrite !filter_app, (list_filter_all _ i1), (list_filter_none _ i2), (list_filter_all _ i3); [done|..];
    apply Forall_forall; intros r Hr; [intros ?; by eapply N2|tauto|intros ?; apply (N1 _ Hr); set_solver].
Qed.

(** The first and the last range bound the others. *)
Lemma disj_extent lo l i0 l' iz : disj lo l -> l = i0 :: l' -> last l = Some iz -> forall r, r ∈ l -> begin_ i0 <= begin_ r /\ en r <= en iz.
Proof.
  intros Hd EI Ez r Hr. destruct (disj_mono _ _ Hd) as [Hs _]. split.
  - rewrite EI in Hs, Hr. apply StronglySorted_inv in Hs as [_ Hs]. rewrite Forall_forall in Hs.
    apply elem_of_cons in Hr as [->|Hr]; [lia|]. by apply Hs in Hr as [? _].
  - apply last_Some in Ez as [I'' E]. rewrite E in Hs, Hr. apply elem_of_app in Hr as [Hr|Hr%list_elem_of_singleton]; [|by subst].
    by pose proof (StronglySorted_app_1_elem_of _ _ _ r iz Hs Hr ltac:(by left)) as [_ ?].
Qed.

(** A range that is kept when what lies from [mb] to [me] is rebuilt: it ends before or begins after. *)
Definition stays (mb me : option Z) r : Prop := (exists x, mb = Some x /\ en r < x) \/ (exists x, me = Some x /\ x < begin_ r).

Lemma stays_iff mb me (b0 e0 : Z) r :
  okr r -> b0 <= begin_ r -> en r <= e0 ->
  (forall x, mb = Some x -> en r < x \/ x <= begin_ r) -> (forall x, me = Some x -> en r <= x \/ x < begin_ r) ->
  default e0 me <= begin_ r \/ en r <= default b0 mb <-> stays mb me r.
Proof.
  intros Hr Hb He Hmb Hme. unfold stays. split.
  - intros [Hc|Hc].
    + destruct me as [e|]; simpl in Hc; [|unfold okr, en in *; lia].
      destruct (Hme e eq_refl); [unfold okr, en in *; lia|]. right. eauto.
    + destruct mb as [x|]; simpl in Hc; [|unfold okr, en in *; lia].
      destruct (Hmb x eq_refl); [left; eauto|]. unfold okr, en in *. lia.
  - intros [(x & -> & ?)|(x & -> & ?)]; simpl; lia.
Qed.

(** The kept ranges are the ones outside the carve range. *)
Lemma carve_spec (mb me : option Z) (I b : list Range) :
  disj 0 I -> b ≡ₚ I -> in_order CompareRangeByLength b ->
  (forall r x, r ∈ I -> mb = Some x -> en r < x \/ x <= begin_ r) ->
  (forall r x, r ∈ I -> me = Some x -> en r <= x \/ x < begin_ r) ->
  (forall x y, mb = Some x -> me = Some y -> 0 < x < y /\ y < 2 ^ 64) ->
  (forall x, mb = Some x -> 0 <= x) -> (forall x, me = Some x -> x < 2 ^ 64) ->
  exists K b', carve mb me I b = Done (K, b') /\ b' ≡ₚ K /\ in_order CompareRangeByBegin K /\
    in_order CompareRangeByLength b' /\ NoDup K /\
    (forall r, r ∈ K <-> r ∈ I /\ stays mb me r).
Proof.
  intros Hd Hp Ho Hmb Hme Hbe Hb0 He0. pose proof (disj_NoDup _ _ Hd) as Hnd. unfold carve.
  destruct I as [|i0 I'] eqn:EI.
  { exists [], b. split_and!; [done|done|constructor|done|constructor|]. intros r. split; [intros H|intros [H _]]; by apply not_elem_of_nil in H. }
  rewrite <- EI in *. destruct (last I) as [iz|] eqn:Ez; [|apply last_None in Ez; congruence].
  assert (i0 ∈ I) as Hi0 by (rewrite EI; by left). assert (iz ∈ I) as Hiz by (apply last_Some in Ez as [? ->]; set_solver).
  destruct (disj_elem _ _ _ Hd Hi0) as [Hi0b Hi0k]. destruct (disj_elem _ _ _ Hd Hiz) as [Hizb Hizk].
  rewrite r_end_ok by done.
  pose proof (disj_extent _ _ _ _ _ Hd EI Ez) as Hext.
  set (cb := default (begin_ i0) mb). set (ce := default (en iz) me).
  assert (forall r, r ∈ I -> ce <= begin_ r \/ en r <= cb <-> stays mb me r) as Hkeep.
  { intros r Hr. destruct (disj_elem _ _ _ Hd Hr) as [_ Hrk]. destruct (Hext r Hr). apply stays_iff; [done..|by intros; apply Hmb|by intros; apply Hme]. }
  destruct (Z.ltb_spec cb ce) as [Hlt|Hge].
  2:{ exists I, b. split_and!; [done..|by eapply disj_in_order|done|done|]. intros r. split; [|tauto].
      intros Hr. split; [done|]. apply Hkeep; [done|]. destruct (disj_elem _ _ _ Hd Hr) as [_ Hrk]. destruct (Hext r Hr).
      unfold cb, ce in *. destruct mb as [x|], me as [y|]; simpl in *; try (unfold okr, en in *; lia).
      pose proof (Hbe x y eq_refl eq_refl). lia. }
  assert (0 <= cb /\ ce < 2 ^ 64) as [Hcb Hce].
  { unfold cb, ce. destruct mb as [x|], me as [y|]; simpl; try pose proof (Hb0 _ eq_refl); try pose proof (He0 _ eq_refl); unfold okr in *; lia. }
  rewrite BeginEnd_rng by lia. pose proof (okr_rng cb ce ltac:(lia) ltac:(lia)) as Hcr.
  destruct (iterators_split (rng cb ce) I (disj_mono _ _ Hd) Hcr) as (i1 & i2 & i3 & E & H1 & H2 & H3 & ->).
  rewrite en_rng in H2, H3. cbn [begin_ rng] in H1, H2.
  rewrite E, slice_middle.
  assert (forallb (fun r => IsCoveredBy r (rng cb ce)) i2 = true) as ->.
  { apply forallb_forall. intros r Hr%list_elem_of_In. rewrite Forall_forall in H2. pose proof (H2 _ Hr) as [? ?].
    assert (r ∈ I) as HrI by (rewrite E; set_solver). destruct (disj_elem _ _ _ Hd HrI) as [_ Hrk]. destruct (Hext r HrI).
    unfold IsCoveredBy. rewrite r_end_ok, rng_end by (done || lia). cbn [begin_ rng]. unfold cb, ce in *.
    destruct mb as [x|], me as [y|]; simpl in *; try pose proof (Hmb _ _ HrI eq_refl); try pose proof (Hme _ _ HrI eq_refl); lia. }
  cbn [zx_assert exec_bind]. rewrite erase_fold, take_app_length.
  assert (drop (length i1 + length i2) (i1 ++ i2 ++ i3) = i3) as ->.
  { rewrite app_assoc. by rewrite drop_app_length' by (by rewrite length_app). }
  assert (i1 ++ i3 = filter (fun r => r ∉ i2) I) as EK by (rewrite E in Hnd |- *; by apply filter_middle).
  exists (i1 ++ i3), (filter (fun r => r ∉ i2) b). split_and!; [done|by rewrite EK, Hp| | | |].
  - rewrite EK. apply StronglySorted_filter. by eapply disj_in_order.
  - by apply StronglySorted_filter.
  - rewrite EK. by apply NoDup_filter.
  - intros r. rewrite <- E. assert (r ∈ I <-> r ∈ i1 \/ r ∈ i2 \/ r ∈ i3) as HI by (rewrite E, !elem_of_app; tauto).
    rewrite elem_of_app. rewrite Forall_forall in H1, H2, H3. split.
    + intros [Hr|Hr]; (split; [tauto|]); (apply Hkeep; [tauto|]); [right; by apply H1|left; by apply H3].
    + intros [Hr Hk]. destruct (proj1 HI Hr) as [|[Hr2|]]; [tauto| |tauto]. pose proof (H2 _ Hr2).
      apply Hkeep in Hk; [|done]. lia.
Qed.

Lemma insert_gaps (G i b : list Range) :
  exists i' b', fold_left (fun '(i, b) gap_range => (insert_by_begin gap_range i, emplace CompareRangeByLength gap_range b)) G (i, b) = (i', b') /\
    i' ≡ₚ G ++ i /\ b' ≡ₚ G ++ b /\
    (in_order CompareRangeByBegin i -> in_order CompareRangeByBegin i') /\
    (in_order CompareRangeByLength b -> in_order CompareRangeByLength b').
Proof.
  revert i b. induction G as [|g G IH]; intros i b; cbn [fold_left].
  - exists i, b. split_and!; done.
  - destruct (IH (insert_by_begin g i) (emplace CompareRangeByLength g b)) as (i' & b' & E & H1 & H2 & H3 & H4).
    exists i', b'. split_and!; [exact E| | | |].
    + rewrite H1, emplace_perm. symmetry. apply Permutation_middle.
    + rewrite H2, emplace_perm. symmetry. apply Permutation_middle.
    + intros. apply H3. apply (emplace_in_order CompareRangeByBegin). done.
    + intros. apply H4. apply (emplace_in_order CompareRangeByLength). done.
Qed.

Lemma gaps_middle lo A M D m0 M1 ml M2 r :
  coal lo (A ++ M ++ D) -> M = m0 :: M1 -> M = M2 ++ [ml] ->
  (r ∈ gaps (A ++ M ++ D) <-> r ∈ gaps (A ++ [m0]) \/ r ∈ gaps M \/ r ∈ gaps (ml :: D)) /\
  (r ∈ gaps (A ++ [m0]) -> en r <= begin_ m0) /\ (r ∈ gaps M -> en m0 <= begin_ r /\ en r <= begin_ ml) /\
  (r ∈ gaps (ml :: D) -> en ml <= begin_ r).
Proof.
  intros Hc E0 El.
  assert (coal lo (A ++ m0 :: (M1 ++ D))) as Hc1 by (by rewrite E0 in Hc).
  assert (exists lo', coal lo' (M2 ++ ml :: D)) as [lo' Hc2].
  { rewrite El in Hc. rewrite <- app_assoc in Hc. clear -Hc. revert lo Hc.
    induction A as [|a A IH]; intros lo Hc; [eauto|]. destruct Hc as (_ & _ & Hc). eauto. }
  destruct (gaps_bounds _ _ _ _ r Hc1) as [B1 B2]. destruct (gaps_bounds _ _ _ _ r Hc2) as [B3 B4].
  assert (gaps (A ++ M ++ D) = gaps (A ++ [m0]) ++ gaps M ++ gaps (ml :: D)) as E.
  { rewrite E0 at 1. cbn [app]. rewrite (gaps_app _ _ _ _ Hc1). f_equal.
    transitivity (gaps (M ++ D)); [by rewrite E0|]. rewrite El, <- app_assoc. cbn [app]. by rewrite (gaps_app _ _ _ _ Hc2). }
  rewrite E, !elem_of_app. split_and!; [done|done| |done].
  intros Hr. split; [|apply B3; by rewrite <- El]. apply B2. 
  change (m0 :: M1 ++ D) with ((m0 :: M1) ++ D). rewrite <- E0, El, <- app_assoc. cbn [app].
  rewrite (gaps_app _ _ _ _ Hc2), <- El. apply elem_of_app. by left.
Qed.

(** The part [M] of the list that is rebuilt, and the bounds of the gaps that are taken out. *)
Lemma rebuild_spec diff C :
  okr diff -> coal (-1) C -> (2 <= length C)%nat ->
  exists i j A M D m0 M1 M2 ml mb me,
    IteratorsCoveringPotentialOverlapsOfRangeWithRanges diff C = (i, j) /\
    C = A ++ M ++ D /\ M = m0 :: M1 /\ M = M2 ++ [ml] /\
    expand_begin diff C i = length A /\
    carve_begin_at diff C (length A) = Done mb /\ carve_end_at diff C j = Done me /\
    (if (j =? length C)%nat then j else S j) = (length A + length M)%nat /\
    (mb = None /\ A = [] \/ mb = Some (en m0) /\ en m0 <= begin_ diff) /\
    (me = None /\ D = [] \/ me = Some (begin_ ml) /\ en diff <= begin_ ml).
Proof.
  intros Hdiff Hc Hge. pose proof (coal_disj _ _ Hc) as Hd. simpl in Hd. pose proof (coal_ok _ _ Hc) as Hok.
  destruct (iterators_split diff C (disj_mono _ _ Hd) Hdiff) as (l1 & l2 & l3 & E & H1 & H2 & H3 & Eit).
  assert (exists A o1, l1 = A ++ o1 /\ length A = pred (length l1) /\ (l1 = [] \/ exists z, o1 = [z])) as (A & o1 & El1 & HlA & Ho1).
  { destruct l1 as [|z l1 _] using rev_ind; [exists [], []; auto|]. exists l1, [z]. rewrite length_app. simpl. split_and!; [done|lia|eauto]. }
  assert (exists o3 D, l3 = o3 ++ D /\ (l3 = [] /\ o3 = [] \/ exists h, o3 = [h])) as (o3 & D & El3 & Ho3).
  { destruct l3 as [|h l3]; [exists [], []; auto|]. exists [h], l3. eauto. }
  assert (C = A ++ (o1 ++ l2 ++ o3) ++ D) as EC by (rewrite E, El1, El3; by rewrite <- !app_assoc).
  assert (o1 ++ l2 ++ o3 <> []) as HM.
  { intros HM. apply app_eq_nil in HM as [-> HM]. apply app_eq_nil in HM as [-> ->].
    destruct Ho1 as [->|[? ?]]; [|done]. destruct Ho3 as [[-> _]|[? ?]]; [|done]. rewrite E in Hge. simpl in Hge. lia. }
  destruct (o1 ++ l2 ++ o3) as [|m0 M1] eqn:EM; [done|].
  destruct (exists_last (l := m0 :: M1) ltac:(done)) as (M2 & ml & EM2).
  assert (okr m0 /\ okr ml) as [Hm0 Hml].
  { rewrite Forall_forall in Hok. split; apply Hok; rewrite EC; [set_solver|]. rewrite EM2. set_solver. }
  exists (length l1), (length l1 + length l2)%nat, A, (m0 :: M1), D, m0, M1, M2, ml,
    (match A with [] => None | _ => Some (en m0) end), (match l3 with [] => None | _ => Some (begin_ ml) end).
  assert (A <> [] -> en m0 <= begin_ diff) as HA.
  { intros HA. destruct Ho1 as [->|[z ->]]; [destruct A; done|]. injection EM as -> _.
    rewrite Forall_forall in H1. apply H1. rewrite El1. set_solver. }
  assert (l3 <> [] -> en diff <= begin_ ml) as HD.
  { intros Hl3. destruct Ho3 as [[-> _]|[h ->]]; [done|]. rewrite EM2 in EM. rewrite app_assoc in EM.
    apply app_inj_tail in EM as [_ ->]. rewrite Forall_forall in H3. apply H3. rewrite El3. set_solver. }
  split_and!; [done|done|done|done| | | | | |].
  - rewrite HlA. unfold expand_begin. destruct (length l1) as [|k] eqn:Ek; [done|].
    destruct (C !! S k) as [r|] eqn:Er; [|done].
    assert (okr r) as Hrk by (rewrite Forall_forall in Hok; eauto using list_elem_of_lookup_2).
    rewrite E, lookup_app_r in Er by lia. rewrite r_end_ok by done. rewrite (proj2 (Z.ltb_lt _ _)); [done|].
    apply list_elem_of_lookup_2, elem_of_app in Er as [Er|Er].
    + rewrite Forall_forall in H2. by apply H2.
    + rewrite Forall_forall in H3. specialize (H3 _ Er). unfold okr, en in *. lia.
  - unfold carve_begin_at. destruct A as [|a0 A'] eqn:EA; [done|]. rewrite <- EA in *.
    replace (length A) with (S (length A')) by (by rewrite EA).
    assert (C !! S (length A') = Some m0) as ->.
    { rewrite EC. replace (S (length A')) with (length A) by (by rewrite EA). cbn [app]. by apply list_lookup_middle. }
    rewrite r_end_ok, (proj2 (Z.leb_le _ _)); [done|apply HA; by rewrite EA|done].
  - unfold carve_end_at. rewrite E, app_assoc, lookup_app_r by (rewrite length_app; lia). rewrite length_app, Nat.sub_diag.
    destruct l3 as [|h l3'] eqn:E3; simpl; [done|]. destruct Ho3 as [[? _]|[h' ->]]; [done|]. injection El3 as <- <-.
    rewrite EM2 in EM. rewrite app_assoc in EM. apply app_inj_tail in EM as [_ <-].
    rewrite r_end_ok, (proj2 (Z.leb_le _ _)); [done|by apply HD|done].
  - rewrite <- EM, E, El1, El3, !length_app. destruct Ho3 as [[E3 ->]|[h ->]].
    + rewrite El3 in E3. simpl in E3. rewrite E3. simpl. rewrite (proj2 (Nat.eqb_eq _ _)) by lia. lia.
    + simpl. rewrite (proj2 (Nat.eqb_neq _ _)) by lia. lia.
  - destruct A as [|a0 A'] eqn:EA; [by left|]. right. split; [done|]. by apply HA.
  - destruct l3 as [|h l3'] eqn:E3.
    + left. split; [done|]. symmetry in El3. by apply app_eq_nil in El3 as [_ ->].
    + right. split; [done|]. by apply HD.
Qed.

(** A set of addresses and its gaps next to another one that only differs inside [diff]. *)
Section agree.
Context (diff : Range) (C0 C : list Range).
Context (Hdiff : okr diff) (Hagree : forall x, ~ inr diff x -> covers C0 x <-> covers C x).

Lemma gap_same r : en r < begin_ diff \/ en diff < begin_ r -> okr r -> gapP (covers C0) r <-> gapP (covers C) r.
Proof using Hdiff Hagree.
  intros Hr Hrk. unfold gapP. rewrite !Hagree by (unfold inr, okr, en in *; lia).
  assert (forall x, inr r x -> covers C0 x <-> covers C x) as Hx by (intros x Hx; apply Hagree; unfold inr, okr, en in *; lia).
  split; intros (? & ? & ? & H); (split_and!; [done..|]); intros x Hxr Hn; apply (H x Hxr); by apply Hx.
Qed.

(** A gap does not contain a member. *)
Lemma gap_excludes r x : gapP (covers C0) r \/ gapP (covers C) r -> ~ inr diff x -> covers C x -> x < begin_ r \/ en r <= x.
Proof using Hagree.
  intros Hr Hx Hc. destruct (decide (inr r x)) as [Hin|Hn]; [|unfold inr in Hn; lia]. exfalso.
  destruct Hr as [(_ & _ & _ & Hr)|(_ & _ & _ & Hr)]; apply (Hr _ Hin); [|done]. by apply Hagree.
Qed.

Lemma kept_gaps A M D m0 M1 M2 ml mb me (K : list Range) :
  coal (-1) C0 -> coal (-1) C -> C = A ++ M ++ D -> M = m0 :: M1 -> M = M2 ++ [ml] ->
  (mb = None /\ A = [] \/ mb = Some (en m0) /\ en m0 <= begin_ diff) ->
  (me = None /\ D = [] \/ me = Some (begin_ ml) /\ en diff <= begin_ ml) ->
  NoDup K ->
  (forall r, r ∈ K <-> r ∈ gaps C0 /\ ((exists x, mb = Some x /\ en r < x) \/ (exists x, me = Some x /\ x < begin_ r))) ->
  gaps M ++ K ≡ₚ gaps C.
Proof using Hdiff Hagree.
  intros Hc0 Hc EC EM EM2 Hmb Hme HndK HK.
  assert (forall r, r ∈ gaps C0 <-> gapP (covers C0) r) as HI by (intros; by eapply gaps_elem).
  assert (forall r, r ∈ gaps C <-> gapP (covers C) r) as HG by (intros; by eapply gaps_elem).
  pose proof Hc as Hc'. rewrite EC in Hc'. pose proof (fun r => gaps_middle _ _ _ _ _ _ _ _ r Hc' EM EM2) as Hmid.
  rewrite <- EC in Hmid. pose proof (coal_ok _ _ Hc) as Hok. rewrite Forall_forall in Hok.
  assert (okr m0) as Hm0 by (apply Hok; rewrite EC, EM; set_solver).
  assert (okr ml) as Hml by (apply Hok; rewrite EC, EM2; set_solver).
  assert (exists lo, coal lo M) as [lo HcM].
  { clear -Hc'. revert Hc'. generalize (-1). induction A as [|a A IH]; intros lo Hc; cbn [app] in Hc.
    - exists lo. revert lo Hc. induction M as [|a M IH]; intros lo; [done|]. intros (? & ? & ?). simpl. split_and!; [done..|]. by apply IH.
    - destruct Hc as (_ & _ & Hc). by apply IH in Hc. }
  apply NoDup_Permutation.
  - apply NoDup_app. split_and!; [by eapply disj_NoDup, coal_disj, gaps_coal| |done].
    intros r Hr HrK. apply HK in HrK as [HrI Hr2]. destruct (Hmid r) as (_ & _ & Hb & _). destruct (Hb Hr) as [Hb1 Hb2].
    apply HI in HrI as [Hrk _]. destruct Hr2 as [(x & Ex & ?)|(x & Ex & ?)].
    + destruct Hmb as [[? _]|[? _]]; simplify_eq. unfold okr, en in *. lia.
    + destruct Hme as [[? _]|[? _]]; simplify_eq. unfold okr, en in *. lia.
  - by eapply disj_NoDup, coal_disj, gaps_coal.
  - intros r. rewrite elem_of_app, HK, HI. destruct (Hmid r) as (Hall & Hb1 & Hb2 & Hb3). split.
    + intros [Hr|[HrI [(x & Ex & Hx)|(x & Ex & Hx)]]]; [apply Hall; tauto| |]; apply HG; (apply gap_same; [|by destruct HrI|done]).
      * destruct Hmb as [[? _]|[? ?]]; simplify_eq. lia.
      * destruct Hme as [[? _]|[? ?]]; simplify_eq. lia.
    + intros Hr. destruct (proj1 Hall Hr) as [Hr1|[Hr1|Hr1]]; [right|by left|right]; apply HG in Hr as [Hrk Hr'].
      * destruct Hmb as [[_ ->]|[-> ?]]; [by apply not_elem_of_nil in Hr1|]. pose proof (Hb1 Hr1).
        split; [apply gap_same; [unfold okr, en in *; lia|done|done]|]. left. exists (en m0). unfold okr, en in *. split; [done|lia].
      * destruct Hme as [[_ ->]|[-> ?]]; [by apply not_elem_of_nil in Hr1|]. pose proof (Hb3 Hr1).
        split; [apply gap_same; [unfold okr, en in *; lia|done|done]|]. right. exists (begin_ ml). unfold okr, en in *. split; [done|lia].
Qed.

(** The interior gaps are rebuilt where the coalesced ranges changed. *)
Lemma update_interior (b : list Range) :
  coal (-1) C0 -> coal (-1) C -> b ≡ₚ gaps C0 -> in_order CompareRangeByLength b ->
  exists b', UpdateInteriorUnusedRanges diff C (gaps C0) b = Done (gaps C, b') /\ b' ≡ₚ gaps C /\
    in_order CompareRangeByLength b'.
Proof using Hdiff Hagree.
  intros Hc0 Hc Hp Ho. unfold UpdateInteriorUnusedRanges.
  destruct (Nat.ltb_spec (length C) 2) as [Hlt|Hge].
  { exists []. destruct C as [|a [|]]; [| |simpl in Hlt; lia]; simpl; (split_and!; [done|done|constructor]). }
  destruct (rebuild_spec diff C Hdiff Hc Hge) as (i & j & A & M & D & m0 & M1 & M2 & ml & mb & me & Eij & EC & EM & EM2 & Eb & Emb & Eme & Ee & Hmb & Hme).
  rewrite Eij, Eb, Ee. unfold mbind, exec_bind. rewrite Emb, Eme.
  pose proof (coal_ok _ _ Hc) as Hok. rewrite Forall_forall in Hok.
  assert (m0 ∈ C) as Hm0C by (rewrite EC, EM; set_solver). pose proof (Hok _ Hm0C) as Hm0.
  assert (ml ∈ C) as HmlC by (rewrite EC, EM2; set_solver). pose proof (Hok _ HmlC) as Hml.
  assert (forall r, r ∈ gaps C0 -> gapP (covers C0) r) as HI by (intros r Hr; by apply (gaps_elem (-1))).
  pose proof gap_excludes as Hex.
  destruct (carve_spec mb me (gaps C0) b) as (K & b1 & EK & Hp1 & HoK & Ho1 & HndK & HK).
  { apply (coal_disj (-1)). by apply gaps_coal. }
  { done. } { done. }
  { intros r x Hr ->. destruct Hmb as [[? _]|[? ?]]; simplify_eq.
    destruct (Hex r (en m0 - 1)); [left; by apply HI|unfold inr; lia| |lia|lia]. exists m0. split; [done|]. unfold inr, okr, en in *. lia. }
  { intros r x Hr ->. destruct Hme as [[? _]|[? ?]]; simplify_eq.
    destruct (Hex r (begin_ ml)); [left; by apply HI|unfold inr; lia| |lia|lia]. exists ml. split; [done|]. unfold inr, okr, en in *. lia. }
  { intros x y -> ->. destruct Hmb as [[? _]|[? ?]], Hme as [[? _]|[? ?]]; simplify_eq. unfold okr, en in *. lia. }
  { intros x ->. destruct Hmb as [[? _]|[? ?]]; simplify_eq. unfold okr, en in *. lia. }
  { intros x ->. destruct Hme as [[? _]|[? ?]]; simplify_eq. unfold okr, en in *. lia. }
  rewrite EK. assert (slice (length A) (length A + length M) C = M) as -> by (rewrite EC; apply slice_middle).
  pose proof (kept_gaps A M D m0 M1 M2 ml mb me K Hc0 Hc EC EM EM2 Hmb Hme HndK HK) as HpC.
  destruct (insert_gaps (gaps M) K b1) as (I' & b' & EI & HpI & Hpb & HoI & Hob). rewrite EI.
  exists b'. split_and!.
  - do 2 f_equal. eapply (in_order_unique CompareRangeByBegin); [by apply HoI| |by rewrite HpI].
    eapply disj_in_order, coal_disj. by apply gaps_coal.
  - by rewrite Hpb, Hp1.
  - by apply Hob.
Qed.
End agree.

(** ** The largest gaps and the goal *)

Lemma coal_filter (P : Range -> Prop) `{!forall r, Decision (P r)} lo l : coal lo l -> coal lo (filter P l).
Proof.
  revert lo. induction l as [|r l IH]; intros lo; simpl; [done|]. intros (H1 & H2 & H3).
  rewrite filter_cons. destruct (decide (P r)).
  - simpl. split_and!; [lia|done|by apply IH].
  - eapply coal_weaken; [by apply IH|]. unfold okr, en in *. lia.
Qed.

Lemma insert_all (G l : list Range) :
  fold_left (fun l r => insert_by_begin r l) G l ≡ₚ G ++ l /\
  (in_order CompareRangeByBegin l -> in_order CompareRangeByBegin (fold_left (fun l r => insert_by_begin r l) G l)).
Proof.
  revert l. induction G as [|g G IH]; intros l; cbn [fold_left]; [done|].
  destruct (IH (insert_by_begin g l)) as [H1 H2]. split.
  - rewrite H1, emplace_perm. symmetry. apply Permutation_middle.
  - intros. apply H2. apply (emplace_in_order CompareRangeByBegin). done.
Qed.

(** A set built by insertion from elements of a coalesced one. *)
Lemma built_sub lo (I G : list Range) :
  coal lo I -> NoDup G -> (forall r, r ∈ G -> r ∈ I) ->
  fold_left (fun l r => insert_by_begin r l) G [] = filter (fun r => r ∈ G) I.
Proof.
  intros Hc Hnd Hin. destruct (insert_all G []) as [Hp Ho]. rewrite app_nil_r in Hp.
  eapply (in_order_unique CompareRangeByBegin); [apply Ho; constructor| |].
  - apply StronglySorted_filter. eapply disj_in_order. by eapply coal_disj.
  - rewrite Hp. apply NoDup_Permutation; [done|apply NoDup_filter; by eapply disj_NoDup, coal_disj|].
    intros r. rewrite list_elem_of_filter. naive_solver.
Qed.

Definition top (c : Config) (b : list Range) : list Range :=
  take (Z.to_nat (Z.min (max_logical_range_count_ c - 1) (Z.of_nat (length b)))) (rev b).

Lemma build_largest c lo I b :
  1 <= max_logical_range_count_ c < 2 ^ 64 -> coal lo I -> b ≡ₚ I ->
  BuildLargestInteriorUnusedRanges c b = filter (fun r => r ∈ top c b) I /\
  coal lo (BuildLargestInteriorUnusedRanges c b) /\
  BuildLargestInteriorUnusedRanges c b ≡ₚ top c b /\
  Z.of_nat (length (BuildLargestInteriorUnusedRanges c b)) = Z.min (max_logical_range_count_ c - 1) (Z.of_nat (length I)).
Proof.
  intros Hml Hc Hp. unfold BuildLargestInteriorUnusedRanges. rewrite u64_small by (unfold is_u64; lia). fold (top c b).
  assert (NoDup I) as HndI by (by eapply disj_NoDup, coal_disj).
  assert (NoDup (rev b)) as Hndb by (by rewrite <- Permutation_rev, Hp).
  rewrite (built_sub lo I (top c b)) by
    (done || (by eapply sublist_NoDup; [|apply sublist_take]) ||
     (intros r Hr; rewrite <- Hp, (Permutation_rev b); unfold top in Hr; by apply elem_of_take in Hr as (i & Hr & _); apply list_elem_of_lookup_2 in Hr)).
  assert (filter (fun r => r ∈ top c b) I ≡ₚ top c b) as Hpt.
  { apply NoDup_Permutation; [by apply NoDup_filter|by eapply sublist_NoDup; [|apply sublist_take]|].
    intros r. rewrite list_elem_of_filter. split; [tauto|]. intros Hr. split; [done|].
    rewrite <- Hp, (Permutation_rev b). unfold top in Hr. apply elem_of_take in Hr as (i & Hr & _). by apply list_elem_of_lookup_2 in Hr. }
  split_and!; [done|by apply coal_filter|done|]. rewrite Hpt. unfold top. rewrite length_take, length_rev.
  rewrite <- (Permutation_length Hp). lia.
Qed.

(** The ranges between [lo] and [hi] without the gaps [L]. *)
Fixpoint between (lo hi : Z) (L : list Range) : list Range :=
  match L with
  | [] => [rng lo hi]
  | g :: L' => rng lo (begin_ g) :: between (en g) hi L'
  end.

Lemma between_coal (l0 lo hi : Z) L : l0 < lo -> 0 <= lo -> lo < hi -> hi < 2 ^ 64 -> coal lo L -> (forall g, g ∈ L -> en g < hi) -> coal l0 (between lo hi L).
Proof.
  revert l0 lo. induction L as [|g L IH]; intros l0 lo Hl0 Hlo Hhi Hhi' Hc Hg; simpl.
  - split_and!; [done| |done]. apply okr_rng; lia.
  - destruct Hc as (Hlt & Hgk & Hc). pose proof (Hg g ltac:(by left)). split_and!; [done| |].
    + apply okr_rng; unfold okr, en in *; lia.
    + rewrite en_rng. apply IH; try done; unfold okr, en in *; try lia. intros. apply Hg. by right.
Qed.

Lemma between_covers lo hi L x :
  disj lo L -> (forall g, g ∈ L -> en g <= hi) -> covers (between lo hi L) x <-> lo <= x < hi /\ ~ covers L x.
Proof.
  revert lo. induction L as [|g L IH]; intros lo Hd Hg; simpl.
  - rewrite covers_cons. unfold inr. rewrite en_rng. simpl. pose proof (covers_nil x). tauto.
  - destruct Hd as (Hlt & Hgk & Hd). pose proof (Hg g ltac:(by left)).
    rewrite !covers_cons, IH; [|done|intros; apply Hg; by right].
    unfold inr at 1. rewrite en_rng. cbn [begin_ rng]. split.
    + intros [Hx|[Hx Hn]].
      * split; [unfold okr, en in *; lia|]. intros [?|Hc]; [unfold inr in *; lia|].
        destruct (disj_covers _ _ _ Hd Hc). unfold okr, en in *. lia.
      * split; [unfold okr, en in *; lia|]. intros [?|Hc]; [unfold inr in *; lia|done].
    + intros [Hx Hn]. destruct (decide (x < begin_ g)); [left; lia|]. right. split; [|tauto].
      assert (~ inr g x) by tauto. unfold inr in *. lia.
Qed.

Lemma between_length lo hi L : length (between lo hi L) = S (length L).
Proof. revert lo. induction L as [|g L IH]; intros lo; simpl; [done|]. by rewrite IH. Qed.

Lemma between_perm lo hi g L z :
  coal lo (g :: L) -> last (g :: L) = Some z ->
  between lo hi (g :: L) ≡ₚ rng (en z) hi :: rng lo (begin_ g) :: gaps (g :: L).
Proof.
  revert lo g. induction L as [|d L IH]; intros lo g Hc Hz.
  - simpl in Hz |- *. injection Hz as <-. by rewrite Permutation_swap.
  - pose proof Hc as (_ & Hg & Hc'). pose proof Hc' as (Hlt & Hd & _). rewrite gaps_cons by done.
    cbn [between]. cbn [between] in IH. rewrite (IH (en g) d Hc'); [|by rewrite last_cons_cons in Hz].
    apply Permutation_swap.
Qed.

Lemma between_elem lo hi L g :
  g ∈ between lo hi L ->
  (begin_ g = lo \/ exists d, d ∈ L /\ begin_ g = en d) /\ (en g = hi \/ exists d, d ∈ L /\ en g = begin_ d).
Proof.
  revert lo. induction L as [|d L IH]; intros lo; simpl.
  - intros ->%list_elem_of_singleton. rewrite en_rng. auto.
  - intros [->|Hg]%elem_of_cons.
    + rewrite en_rng. split; [by left|]. right. exists d. split; [by left|done].
    + apply IH in Hg as [H1 H2]. split.
      * right. destruct H1 as [->|(m & ? & ->)]; [exists d; split; [by left|done]|]. exists m. split; [by right|done].
      * destruct H2 as [->|(m & ? & ->)]; [by left|]. right. exists m. split; [by right|done].
Qed.

(** An address between two covered ones is covered or in a gap. *)
Lemma covers_or_gap lo l x y z : coal lo l -> covers l y -> covers l z -> y <= x <= z -> covers l x \/ covers (gaps l) x.
Proof.
  revert lo y. induction l as [|a l IH]; intros lo y Hc Hy Hz Hxy; [by apply covers_nil in Hy|].
  destruct l as [|d l].
  { left. rewrite covers_cons, covers_nil in Hy, Hz |- *. unfold inr in *. lia. }
  pose proof Hc as (_ & Ha & Hc'). pose proof Hc' as (Hlt & Hd & _). rewrite gaps_cons by done.
  rewrite !(covers_cons a), (covers_cons (rng _ _)).
  pose proof (coal_disj _ _ Hc') as Hdj.
  assert (begin_ a <= y) as Hay.
  { apply covers_cons in Hy as [Hy|Hy]; [unfold inr in Hy; lia|]. destruct (disj_covers _ _ _ Hdj Hy). unfold okr, en in *. lia. }
  destruct (decide (x < en a)); [left; left; unfold inr; lia|].
  destruct (decide (x < begin_ d)); [right; left; unfold inr; rewrite en_rng; simpl; lia|].
  destruct (IH (en a) (begin_ d) Hc') as [?|?]; [| |lia|by auto|by auto].
  - apply covers_cons. left. unfold inr, okr, en in *. lia.
  - apply covers_cons in Hz as [Hz|Hz]; [unfold inr in Hz; lia|done].
Qed.

(** A set is inside its first begin and its last end. *)
Lemma coal_hull lo a l z :
  coal lo (a :: l) -> last (a :: l) = Some z ->
  okr a /\ okr z /\ z ∈ a :: l /\ begin_ a < en z /\ forall x, covers (a :: l) x -> begin_ a <= x < en z.
Proof.
  intros Hc Hz. pose proof (coal_disj _ _ Hc) as Hd. destruct (disj_mono _ _ Hd) as [Hs Hok]. rewrite Forall_forall in Hok.
  assert (z ∈ a :: l) as Hzin by (apply last_Some in Hz as [? ->]; set_solver).
  pose proof (Hok a ltac:(by left)) as Ha. pose proof (Hok z Hzin) as Hzk.
  assert (forall r, r ∈ a :: l -> begin_ a <= begin_ r /\ en r <= en z) as Hext.
  { intros r Hr. split.
    - apply StronglySorted_inv in Hs as [_ Hs]. rewrite Forall_forall in Hs.
      apply elem_of_cons in Hr as [->|Hr]; [lia|]. by apply Hs in Hr as [? _].
    - apply last_Some in Hz as [l' E]. rewrite E in Hs, Hr. apply elem_of_app in Hr as [Hr|Hr%list_elem_of_singleton]; [|by subst].
      by pose proof (StronglySorted_app_1_elem_of _ _ _ r z Hs Hr ltac:(by left)) as [_ ?]. }
  split_and!; [done..| |].
  - destruct (Hext a ltac:(by left)). unfold okr, en in *. lia.
  - intros x (r & Hr & Hx). apply Hext in Hr. unfold inr in Hx. lia.
Qed.

Lemma build_goal lo0 a C z L :
  coal lo0 (a :: C) -> last (a :: C) = Some z -> coal lo0 L -> (forall g, g ∈ L -> g ∈ gaps (a :: C)) ->
  (2 <= length (a :: C) -> L <> [])%nat ->
  coal (begin_ a) L /\ (forall g, g ∈ L -> en g < en z) /\
  BuildGoalRanges (a :: C) L = Done (between (begin_ a) (en z) L).
Proof.
  intros Hc Hz HcL Hin Hne. destruct (coal_hull _ _ _ _ Hc Hz) as (Hak & Hzk & Hzin & Hlt & Hhull).
  assert (forall g, g ∈ L -> okr g /\ begin_ a < begin_ g /\ en g < en z) as HgL.
  { intros g Hg%Hin. apply (gaps_elem _ _ _ Hc) in Hg as (Hgk & H1%Hhull & H2%Hhull & _). split; [done|lia]. }
  assert (coal (begin_ a) L) as HcL'.
  { destruct L as [|g L]; [done|]. destruct HcL as (_ & ? & ?). simpl. split_and!; [|done..]. by apply HgL; left. }
  split_and!; [done|intros; by apply HgL|].
  destruct C as [|d C].
  - simpl in Hz. injection Hz as <-.
    assert (L = []) as -> by (destruct L as [|g L]; [done|]; specialize (Hin g ltac:(by left)); by apply not_elem_of_nil in Hin).
    simpl. do 2 f_equal. symmetry. apply range_eq; [done|by rewrite en_rng].
  - destruct L as [|g L]; [by destruct Hne; [simpl; lia|]|].
    destruct (last (g :: L)) as [g'|] eqn:Eg; [|by apply last_None in Eg].
    destruct (insert_all (gaps (g :: L)) []) as [Hp Ho]. rewrite app_nil_r in Hp.
    assert (g' ∈ g :: L) as Hg' by (apply last_Some in Eg as [? ->]; set_solver).
    pose proof (HgL g ltac:(by left)) as (Hgk & ? & _). pose proof (HgL g' Hg') as (Hgk' & _ & ?).
    unfold BuildGoalRanges. cbn [length]. cbn [Nat.leb zx_assert exec_bind]. rewrite Eg, Hz. f_equal.
    rewrite !r_end_ok by done. rewrite !BeginEnd_rng by (unfold okr, en in *; lia).
    eapply (in_order_unique CompareRangeByBegin).
    + apply (emplace_in_order CompareRangeByBegin), (emplace_in_order CompareRangeByBegin), Ho. constructor.
    + eapply disj_in_order, coal_disj, (between_coal (begin_ a - 1)); try done; unfold okr, en in *; try lia.
      intros x Hx%HgL. unfold en in *. lia.
    + rewrite !emplace_perm, Hp, (between_perm _ _ _ _ g'); [done|done|done].
Qed.

(** ** The chain of sets *)

Record Derived (c : Config) (required C I b L G : list Range) : Prop := {
  dv_coal : coal (-1) C;
  dv_covers x : covers C x <-> covers required x;
  dv_interior : I = gaps C;
  dv_by_length : b ≡ₚ gaps C;
  dv_order : in_order CompareRangeByLength b;
  dv_largest : L = BuildLargestInteriorUnusedRanges c b;
  dv_goal : BuildGoalRanges C L = Done G
}.

(** The derived sets of an object belong to its required ranges. *)
Definition DerivedOf (c : Config) (required : list Range) (s : PR) : Prop :=
  Derived c required (coalesced_required_ranges_ s) (interior_unused_ranges_ s) (interior_unused_ranges_by_length_ s)
    (largest_interior_unused_ranges_ s) (goal_ranges_ s).

(** What the rest of the object relies on. *)
Record Goal (c : Config) (required G : list Range) : Prop := {
  goal_coal : coal (-1) G;
  goal_covers x : covers required x -> covers G x;
  goal_ends g : g ∈ G -> covers required (begin_ g) /\ covers required (en g - 1);
  goal_count : Z.of_nat (length G) <= max_logical_range_count_ c;
  goal_exact x : Z.of_nat (length G) < max_logical_range_count_ c -> covers G x -> covers required x
}.

Definition Limits (c : Config) : Prop := 2 <= max_logical_range_count_ c < 2 ^ 64.

(** Each set of the chain is built without a failed assertion. *)
Lemma chain_spec c C b :
  Limits c -> coal (-1) C -> b ≡ₚ gaps C ->
  exists G, BuildGoalRanges C (BuildLargestInteriorUnusedRanges c b) = Done G /\
    length G = (if decide (C = []) then 0%nat else S (length (BuildLargestInteriorUnusedRanges c b))) /\
    coal (-1) G /\
    (forall x, covers G x <-> (exists y z, covers C y /\ covers C z /\ y <= x <= z) /\ ~ covers (BuildLargestInteriorUnusedRanges c b) x) /\
    (forall g, g ∈ G -> covers C (begin_ g) /\ covers C (en g - 1)).
Proof.
  intros Hml Hc Hp. unfold Limits in Hml.
  destruct (build_largest c (-1) (gaps C) b ltac:(lia) (gaps_coal _ _ Hc) Hp) as (EL & HcL & HpL & HlL).
  set (L := BuildLargestInteriorUnusedRanges c b) in *.
  assert (forall g, g ∈ L -> g ∈ gaps C) as Hin by (intros g Hg; rewrite EL in Hg; by apply list_elem_of_filter in Hg as [_ ?]).
  destruct C as [|a C].
  { exists []. cbn [BuildGoalRanges]. split_and!; [done|by rewrite decide_True|done| |].
    - intros x. rewrite covers_nil. split; [done|]. intros [(y & z & H & _) _]. by apply covers_nil in H.
    - intros g Hg. by apply not_elem_of_nil in Hg. }
  destruct (last (a :: C)) as [z|] eqn:Ez; [|by apply last_None in Ez].
  destruct (coal_hull _ _ _ _ Hc Ez) as (Hak & Hzk & Hzin & Hlt & Hhull).
  destruct (build_goal (-1) a C z L Hc Ez HcL Hin) as (HcL' & HgL & ->).
  { intros Hlen EL0. rewrite gaps_length in HlL. rewrite EL0 in HlL. simpl in HlL, Hlen. lia. }
  exists (between (begin_ a) (en z) L). rewrite decide_False by done. rewrite between_length. split_and!; [done|done| | |].
  - apply between_coal; try done; unfold okr, en in *; lia.
  - intros x. rewrite between_covers.
    2:{ eapply disj_weaken; [by apply coal_disj|lia]. }
    2:{ intros g Hg%HgL. lia. }
    split; intros [H1 H2]; (split; [|done]).
    + exists (begin_ a), (en z - 1). split_and!; [| |lia|lia].
      * exists a. split; [by left|]. unfold inr, okr, en in *. lia.
      * exists z. split; [done|]. unfold inr, okr, en in *. lia.
    + destruct H1 as (y & w & Hy%Hhull & Hw%Hhull & ?). lia.
  - assert (forall d, d ∈ L -> covers (a :: C) (en d) /\ covers (a :: C) (begin_ d - 1)) as HL.
    { intros d Hl%Hin. apply (gaps_elem _ _ _ Hc) in Hl as (_ & ? & ? & _). done. }
    intros g Hg. apply between_elem in Hg as [H1 H2]. split.
    + destruct H1 as [->|(d & ?%HL & ->)]; [|tauto]. exists a. split; [by left|]. unfold inr, okr, en in *. lia.
    + destruct H2 as [->|(d & ?%HL & ->)]; [|tauto]. exists z. split; [done|]. unfold inr, okr, en in *. lia.
Qed.

Lemma derived_goal c required C I b L G : Limits c -> Derived c required C I b L G -> Goal c required G.
Proof.
  intros Hml [Hc Hcov -> Hp Ho -> EG]. pose proof Hml as Hml'. unfold Limits in Hml.
  destruct (chain_spec c C b Hml' Hc Hp) as (G' & EG' & Hlen & HcG & HcovG & Hends). rewrite EG in EG'. injection EG' as <-.
  destruct (build_largest c (-1) (gaps C) b ltac:(lia) (gaps_coal _ _ Hc) Hp) as (EL & HcL & HpL & HlL).
  assert (forall g, g ∈ BuildLargestInteriorUnusedRanges c b -> g ∈ gaps C) as Hin
    by (intros g Hg; rewrite EL in Hg; by apply list_elem_of_filter in Hg as [_ ?]).
  constructor.
  - done.
  - intros x Hx%Hcov. apply HcovG. split; [exists x, x; split_and!; [done..|lia|lia]|].
    intros (d & Hl%Hin & Hxl). apply (gaps_elem _ _ _ Hc) in Hl as (_ & _ & _ & Hl). by apply (Hl x).
  - intros g Hg%Hends. by rewrite <- !Hcov.
  - case_decide; lia.
  - intros x Hlt Hx. apply Hcov. apply HcovG in Hx as [(y & z & Hy & Hz & ?) Hn].
    destruct (decide (C = [])) as [->|HC]; [by apply covers_nil in Hy|].
    assert (BuildLargestInteriorUnusedRanges c b ≡ₚ gaps C) as HpC.
    { rewrite HpL. rewrite <- Hp. unfold top. rewrite take_ge; [by rewrite <- Permutation_rev|].
      rewrite length_rev. rewrite <- Hp in HlL. lia. }
    rewrite HpC in Hn. by destruct (covers_or_gap _ _ x y z Hc Hy Hz).
Qed.

(** ** [PropagateRequiredRangesToGoalRanges] *)

Lemma op_lift {A B} (m : exec A) (k : A -> op B) s (a : A) : m = Done a -> (lift m ≫= k) s = k a s.
Proof. intros ->. unfold mbind, op_bind, lift. by destruct (k a s) as [[[? ?] ?]|]. Qed.

Lemma op_check {B} (b : bool) (k : unit -> op B) s : b = true -> (check b ≫= k) s = k tt s.
Proof. intros ->. by apply op_lift. Qed.

Lemma op_get {B} (k : PR -> op B) s : (get ≫= k) s = k s s.
Proof. unfold mbind, op_bind, get. by destruct (k s s) as [[[? ?] ?]|]. Qed.

(** The chain is brought up to date: the result is the one of the new required ranges, however the sets were
    before outside the range that changed. *)
Lemma propagate_spec c diff required0 s :
  Limits c -> okr diff -> mono (required_ranges_ s) -> DerivedOf c required0 s ->
  (forall x, ~ inr diff x -> covers required0 x <-> covers (required_ranges_ s) x) ->
  exists C I b L G,
    PropagateRequiredRangesToGoalRanges c diff s = Done (tt, set_derived C I b L G s, []) /\
    Derived c (required_ranges_ s) C I b L G.
Proof.
  intros Hml Hdiff Hm [Hc0 Hcov0 HI0 Hp0 Ho0 HL0 HG0] Hagree.
  destruct (update_coalesced diff (required_ranges_ s) (coalesced_required_ranges_ s) Hdiff Hm Hc0) as (C & EC & Hc & Hcov).
  destruct (update_interior diff (coalesced_required_ranges_ s) C Hdiff) with (b := interior_unused_ranges_by_length_ s)
    as (b & EI & Hp & Ho); [|done|done|done|done|].
  { intros x Hx. rewrite Hcov. tauto. }
  destruct (chain_spec c C b Hml Hc Hp) as (G & EG & HlG & _).
  destruct (build_largest c (-1) (gaps C) b ltac:(unfold Limits in Hml; lia) (gaps_coal _ _ Hc) Hp) as (_ & _ & _ & HlL).
  set (L := BuildLargestInteriorUnusedRanges c b) in *.
  exists C, (gaps C), b, L, G. split.
  2:{ constructor; try done. intros x. rewrite Hcov, Hcov0. destruct (decide (inr diff x)) as [Hx|Hx]; [tauto|].
      rewrite Hagree by done. tauto. }
  unfold PropagateRequiredRangesToGoalRanges. rewrite op_get. erewrite op_lift by exact EC.
  erewrite op_lift by (rewrite HI0; exact EI). cbn beta iota. fold L.
  unfold Limits in Hml. rewrite op_check.
  2:{ rewrite gaps_length. destruct C; [done|]. cbn [length pred]. rewrite orb_true_iff. right. apply Nat.eqb_eq. lia. }
  rewrite op_check by (rewrite u64_small by (unfold is_u64; lia); by apply Z.eqb_eq).
  erewrite op_lift by exact EG.
  rewrite op_check.
  2:{ destruct (decide (L = [])) as [->|HL]; [done|]. rewrite HlG. rewrite decide_False.
      - apply orb_true_iff. right. apply Nat.eqb_eq. lia.
      - intros ->. apply HL. rewrite gaps_length in HlL. destruct L; [done|]. simpl in HlL. lia. }
  rewrite op_check; [done|]. rewrite HlG. apply Z.leb_le. case_decide; lia.
Qed.

(** ** The chain from scratch *)

(** Coalescing an ordered list in one pass. *)
Fixpoint coalesce_from (cur : Range) l : list Range :=
  match l with
  | [] => [cur]
  | r :: l' =>
      if begin_ r <=? en cur then coalesce_from (rng (begin_ cur) (Z.max (en cur) (en r))) l'
      else cur :: coalesce_from r l'
  end.
Definition coalesce l : list Range := match l with [] => [] | r :: l' => coalesce_from r l' end.

(** Every set of the chain computed from the required ranges alone. *)
Definition rebuild (c : Config) (required : list Range) (s : PR) : exec PR :=
  let coalesced := coalesce required in
  let by_length := fold_right (emplace CompareRangeByLength) [] (gaps coalesced) in
  let largest := BuildLargestInteriorUnusedRanges c by_length in
  goal ← BuildGoalRanges coalesced largest;
  Done (set_derived coalesced (gaps coalesced) by_length largest goal s).

Lemma coalesce_from_spec lo cur l :
  lo < begin_ cur -> okr cur -> Forall okr l -> StronglySorted (fun a b => begin_ a <= begin_ b) (cur :: l) ->
  coal lo (coalesce_from cur l) /\ forall x, covers (coalesce_from cur l) x <-> inr cur x \/ covers l x.
Proof.
  revert lo cur. induction l as [|r l IH]; intros lo cur Hlo Hcur Hok Hs; simpl.
  { split; [done|]. intros x. apply covers_cons. }
  apply Forall_cons in Hok as [Hr Hok]. apply StronglySorted_inv in Hs as [Hs Hle].
  apply StronglySorted_inv in Hs as [Hs Hle2]. apply Forall_cons in Hle as [Hle Hle1].
  destruct (Z.leb_spec (begin_ r) (en cur)).
  - destruct (IH lo (rng (begin_ cur) (Z.max (en cur) (en r)))) as [H1 H2].
    + done.
    + apply okr_rng; unfold okr, en in *; lia.
    + done.
    + constructor; [done|]. done.
    + split; [done|]. intros x. rewrite H2, covers_cons. unfold inr. rewrite en_rng. cbn [begin_ rng]. unfold okr, en in *.
      intuition lia.
  - destruct (IH (en cur) r) as [H1 H2]; [lia|done|done|by constructor|].
    split; [simpl; split_and!; done|]. intros x. rewrite covers_cons, H2, covers_cons. done.
Qed.

Lemma coalesce_spec l : mono l -> coal (-1) (coalesce l) /\ forall x, covers (coalesce l) x <-> covers l x.
Proof.
  intros [Hs Hok]. destruct l as [|r l]; [done|]. pose proof (Forall_inv Hok) as Hr. simpl in Hr.
  destruct (coalesce_from_spec (-1) r l) as [H1 H2].
  - unfold okr in Hr. lia.
  - done.
  - by apply Forall_inv_tail in Hok.
  - clear -Hs. revert Hs. generalize (r :: l). induction 1 as [|a l' Hs IH Ha]; constructor; [done|].
    eapply Forall_impl; [exact Ha|]. simpl. lia.
  - split; [done|]. intros x. by rewrite H2, covers_cons.
Qed.

(** The chain is a function of the required ranges. *)
Lemma derived_rebuild c required s C I b L G :
  mono required -> Derived c required C I b L G -> rebuild c required s = Done (set_derived C I b L G s).
Proof.
  intros Hm [Hc Hcov -> Hp Ho -> EG]. destruct (coalesce_spec required Hm) as [Hc' Hcov'].
  assert (coalesce required = C) as E.
  { eapply coal_canonical; [done..|]. intros x. by rewrite Hcov', Hcov. }
  unfold rebuild. rewrite E. assert (fold_right (emplace CompareRangeByLength) [] (gaps C) = b) as ->.
  { eapply (in_order_unique CompareRangeByLength); [| done|].
    - clear. induction (gaps C); simpl; [constructor|]. by apply (emplace_in_order CompareRangeByLength).
    - rewrite Hp. clear. induction (gaps C) as [|g l IH]; simpl; [done|]. by rewrite emplace_perm, IH. }
  rewrite EG. done.
Qed.

(** C10. The incremental updates are exact: on hardware with at least two logical ranges ([Limits]; the constructor
    also accepts one, for which [BuildGoalRanges] aborts), when the required ranges changed only inside [diff_range],
    [PropagateRequiredRangesToGoalRanges] passes all its assertions, makes no call on the hardware and leaves every
    derived set as a computation from the required ranges alone gives it. *)
Theorem propagate_exact c diff_range required0 s :
  Limits c -> okr diff_range -> mono (required_ranges_ s) -> DerivedOf c required0 s ->
  (forall x, ~ inr diff_range x -> covers required0 x <-> covers (required_ranges_ s) x) ->
  exists s', PropagateRequiredRangesToGoalRanges c diff_range s = Done (tt, s', []) /\
    rebuild c (required_ranges_ s) s = Done s' /\ DerivedOf c (required_ranges_ s) s'.
Proof.
  intros Hml Hdiff Hm Hder Hagree.
  destruct (propagate_spec c diff_range required0 s Hml Hdiff Hm Hder Hagree) as (C & I & b & L & G & E & HD).
  exists (set_derived C I b L G s). split_and!; [done| |done]. by apply derived_rebuild.
Qed.

(** ** The goal is optimal *)

(** The addresses of a set. *)
Definition addresses l : list Z := concat (map (fun r => seqZ (begin_ r) (length_ r)) l).

Lemma addresses_elem l x : x ∈ addresses l <-> covers l x.
Proof.
  unfold addresses. induction l as [|r l IH]; simpl; [rewrite covers_nil; set_solver|].
  rewrite elem_of_app, IH, covers_cons, elem_of_seqZ. done.
Qed.

Lemma addresses_length l : Forall okr l -> Z.of_nat (length (addresses l)) = total l.
Proof.
  unfold addresses. induction 1 as [|r l Hr _ IH]; simpl; [done|]. rewrite length_app, length_seqZ. unfold okr in Hr. lia.
Qed.

Lemma addresses_NoDup lo l : disj lo l -> NoDup (addresses l).
Proof.
  revert lo. induction l as [|r l IH]; intros lo; [constructor|]. intros (_ & Hr & Hd). unfold addresses. simpl.
  apply NoDup_app. split_and!; [apply NoDup_seqZ| |by eapply IH]. intros x Hx%elem_of_seqZ Hx2%addresses_elem.
  destruct (disj_covers _ _ _ Hd Hx2). unfold en in *. lia.
Qed.

Lemma total_mono lo1 lo2 l1 l2 : disj lo1 l1 -> disj lo2 l2 -> (forall x, covers l1 x -> covers l2 x) -> total l1 <= total l2.
Proof.
  intros H1 H2 Hc. rewrite <- !addresses_length by (by eapply disj_ok).
  apply inj_le, submseteq_length, NoDup_submseteq; [by eapply addresses_NoDup|].
  intros x. rewrite !addresses_elem. apply Hc.
Qed.

Lemma between_total lo hi L : total (between lo hi L) = hi - lo - total L.
Proof. revert lo. induction L as [|g L IH]; intros lo; simpl; [lia|]. rewrite IH. unfold en. lia. Qed.

(** The longest ranges have the largest sum. *)
Lemma longest_sum (k : nat) (d S : list Range) :
  StronglySorted (fun a b => length_ b <= length_ a) d -> Forall okr d -> S ⊆+ d -> (length S <= k)%nat -> total S <= total (take k d).
Proof.
  revert k S. induction d as [|x d IH]; intros k S Hs Hok Hsub Hlen.
  { apply submseteq_nil_r in Hsub as ->. by rewrite take_nil. }
  apply StronglySorted_inv in Hs as [Hs Hx]. apply Forall_cons in Hok as [Hxk Hok].
  destruct k as [|k]; [destruct S; [done|simpl in Hlen; lia]|]. simpl.
  apply submseteq_cons_r in Hsub as [Hsub|(S' & HS & Hsub)].
  - destruct S as [|y S]; [pose proof (length_total_nonneg (take k d) (Forall_take _ _ _ Hok)); unfold okr in Hxk; simpl; lia|].
    simpl. assert (y ∈ d) as Hy by (eapply elem_of_submseteq; [by left|done]). rewrite Forall_forall in Hx. specialize (Hx _ Hy).
    assert (total S <= total (take k d)); [|lia]. apply IH; [done..| |simpl in Hlen; lia].
    etrans; [|exact Hsub]. apply submseteq_cons. done.
  - rewrite HS in Hlen |- *. simpl in *. assert (total S' <= total (take k d)); [|lia]. apply IH; [done..|lia].
Qed.

Lemma in_order_rev b : in_order CompareRangeByLength b -> StronglySorted (fun a b => length_ b <= length_ a) (rev b).
Proof.
  induction 1 as [|a l Hl IH Ha]; simpl; [constructor|]. apply StronglySorted_app. split_and!; [|done|by repeat constructor].
  intros x y Hx ->%list_elem_of_singleton. rewrite <- Permutation_rev in Hx. rewrite Forall_forall in Ha. specialize (Ha _ Hx).
  apply by_length_ge in Ha. lia.
Qed.

#[global] Instance inr_dec r x : Decision (inr r x).
Proof. unfold inr. apply _. Defined.

#[global] Instance covers_dec l x : Decision (covers l x).
Proof.
  refine (cast_if (decide (Exists (fun r => inr r x) l))); unfold covers; rewrite <- Exists_exists in *; done.
Defined.

(** The range of a set that holds an address. *)
Definition pick l (x : Z) : Range := default (mkRange 0 0) (find (fun r => bool_decide (inr r x)) l).

Lemma pick_spec l x : covers l x -> pick l x ∈ l /\ inr (pick l x) x.
Proof.
  intros (r & Hr & Hx). unfold pick. destruct (find _ l) as [a|] eqn:E.
  - apply find_some in E as [Ha%list_elem_of_In Hi%bool_decide_eq_true]. done.
  - pose proof (find_none _ _ E r ltac:(by apply list_elem_of_In)) as H. by apply bool_decide_eq_false in H.
Qed.

Section optimal.
Context (C R : list Range) (HC : coal (-1) C) (HR : disj 0 R) (Hcov : forall x, covers C x -> covers R x).

(** The gaps of [C] that [R] does not cover entirely. *)
Definition open_gaps : list Range :=
  filter (fun d => ~ Forall (covers R) (seqZ (begin_ d) (length_ d))) (gaps C).

Lemma open_gap_elem d : d ∈ open_gaps <-> d ∈ gaps C /\ exists x, inr d x /\ ~ covers R x.
Proof using Type.
  unfold open_gaps. rewrite list_elem_of_filter. split.
  - intros [H2 H1]. split; [done|]. apply not_Forall_Exists in H2; [|apply _].
    apply Exists_exists in H2 as (x & Hx%elem_of_seqZ & Hn). eauto.
  - intros [H1 (x & Hx & Hn)]. split; [|done]. rewrite Forall_forall. intros H. apply Hn, H, elem_of_seqZ. done.
Qed.

(** No range of [R] reaches over an open gap. *)
Lemma open_gap_blocks d r : d ∈ open_gaps -> r ∈ R -> inr r (begin_ d - 1) -> en r < en d.
Proof using Type.
  intros Hd Hr Hi. apply open_gap_elem in Hd as [_ (x & Hx & Hn)]. destruct (decide (en r < en d)); [done|].
  destruct Hn. exists r. split; [done|]. unfold inr in *. lia.
Qed.

(** There are fewer of them than ranges of [R]. *)
Lemma open_gaps_count x0 : covers C x0 -> (S (length open_gaps) <= length R)%nat.
Proof using HC HR Hcov.
  intros Hx0. assert (C <> []) as HC0 by (intros ->; by apply covers_nil in Hx0).
  destruct C as [|a C'] eqn:EC; [done|]. rewrite <- EC in *.
  destruct (last C) as [z|] eqn:Ez; [|by apply last_None in Ez].
  assert (okr z /\ z ∈ C /\ forall x, covers C x -> x < en z) as (Hzk & Hzin & Hzmax).
  { rewrite EC in HC, Ez |- *. destruct (coal_hull _ _ _ _ HC Ez) as (_ & ? & ? & _ & Hh). split_and!; [done..|]. intros x ?%Hh. lia. }
  assert (covers C (en z - 1)) as Hlast by (exists z; split; [done|unfold inr, okr, en in *; lia]).
  assert (forall d, d ∈ open_gaps -> gapP (covers C) d) as Hg.
  { intros d [Hd _]%open_gap_elem. by apply (gaps_elem (-1)). }
  assert (forall d, d ∈ open_gaps -> pick R (begin_ d - 1) ∈ R /\ inr (pick R (begin_ d - 1)) (begin_ d - 1)) as Hp.
  { intros d Hd. apply pick_spec, Hcov. by apply Hg. }
  destruct (pick_spec R (en z - 1) (Hcov _ Hlast)) as [Hpz Hpz2].
  assert (pick R (en z - 1) :: map (fun d => pick R (begin_ d - 1)) open_gaps ⊆+ R) as Hsub.
  2:{ apply submseteq_length in Hsub. simpl in Hsub. by rewrite length_map in Hsub. }
  apply NoDup_submseteq.
  - constructor.
    + intros (d & E & Hd)%list_elem_of_fmap. destruct (Hp d Hd) as [H1 H2].
      pose proof (open_gap_blocks d _ Hd H1 H2) as Hb. destruct (Hg d Hd) as (_ & _ & Hen%Hzmax & _).
      rewrite <- E in Hb. unfold inr in Hpz2. lia.
    + apply NoDup_fmap_2_strong.
      * intros d1 d2 Hd1 Hd2 E.
        assert (forall d1 d2, d1 ∈ open_gaps -> d2 ∈ open_gaps -> pick R (begin_ d1 - 1) = pick R (begin_ d2 - 1) -> begin_ d1 < begin_ d2 -> False) as Hlt.
        { clear d1 d2 Hd1 Hd2 E. intros d1 d2 Hd1 Hd2 E Hlt. destruct (Hp d1 Hd1) as [H1 H2], (Hp d2 Hd2) as [H3 H4].
          pose proof (open_gap_blocks d1 _ Hd1 H1 H2) as Hb. rewrite E in Hb.
          destruct (Hg d1 Hd1) as (Hk1 & _ & Hc1 & Hn1), (Hg d2 Hd2) as (Hk2 & Hc2 & _ & Hn2).
          apply (Hn1 (begin_ d2 - 1)); [|done]. unfold inr, okr, en in *. lia. }
        assert (begin_ d1 = begin_ d2) as Eb.
        { destruct (Z.lt_trichotomy (begin_ d1) (begin_ d2)) as [?|[?|?]]; [by destruct (Hlt d1 d2)|done|by destruct (Hlt d2 d1)]. }
        assert (disj 0 (gaps C)) as Hdg by (apply (coal_disj (-1)); by apply gaps_coal).
        apply open_gap_elem in Hd1 as [Hd1 _]. apply open_gap_elem in Hd2 as [Hd2 _].
        apply (disj_inr_eq _ _ d1 d2 (begin_ d1) Hdg); [done..| |].
        -- destruct (disj_elem _ _ _ Hdg Hd1) as [_ ?]. unfold inr, okr, en in *. lia.
        -- destruct (disj_elem _ _ _ Hdg Hd2) as [_ ?]. unfold inr, okr, en in *. lia.
      * apply NoDup_filter. eapply disj_NoDup, coal_disj. by apply gaps_coal.
  - intros r [->|(d & -> & Hd)%list_elem_of_fmap]%elem_of_cons; [done|]. by apply Hp.
Qed.
End optimal.

(** C11. The goal is optimal: no set of at most [max_logical_range_count_] ranges that covers the required ranges
    covers fewer addresses than [goal_ranges_] does. *)
Theorem goal_optimal c required s (R : list Range) :
  Limits c -> DerivedOf c required s ->
  disj 0 R -> Z.of_nat (length R) <= max_logical_range_count_ c -> (forall x, covers required x -> covers R x) ->
  total (goal_ranges_ s) <= total R.
Proof.
  intros Hml [Hc Hcov HI Hp Ho HL HG] HR Hlen HcR. pose proof Hml as Hml'. unfold Limits in Hml'.
  assert (forall x, covers (coalesced_required_ranges_ s) x -> covers R x) as HcR' by (intros x Hx; apply HcR; by apply Hcov).
  rewrite HL in HG. clear HL HI HcR Hcov. set (C := coalesced_required_ranges_ s) in *. set (b := interior_unused_ranges_by_length_ s) in *.
  destruct (build_largest c (-1) (gaps C) b ltac:(lia) (gaps_coal _ _ Hc) Hp) as (EL & HcL & HpL & HlL).
  destruct C as [|a C'] eqn:EC.
  { simpl in HG. injection HG as <-. simpl. apply length_total_nonneg. by eapply disj_ok. }
  destruct (last (a :: C')) as [z|] eqn:Ez; [|by apply last_None in Ez].
  destruct (coal_hull _ _ _ _ Hc Ez) as (Hak & Hzk & Hzin & Hlt & Hhull).
  assert (forall S, S ⊆ gaps (a :: C') -> forall g, g ∈ S -> begin_ a < begin_ g /\ en g < en z) as Hin.
  { intros S HS g Hg%HS. apply (gaps_elem _ _ _ Hc) in Hg as (Hgk & H1%Hhull & H2%Hhull & _). lia. }
  destruct (build_goal (-1) a C' z (BuildLargestInteriorUnusedRanges c b) Hc Ez HcL) as (_ & _ & HG').
  { intros g Hg. rewrite EL in Hg. by apply list_elem_of_filter in Hg as [_ ?]. }
  { intros Hlen' EL0. rewrite gaps_length in HlL. rewrite EL0 in HlL. simpl in HlL, Hlen'. lia. }
  rewrite HG' in HG. injection HG as <-. rewrite between_total.
  set (S := open_gaps (a :: C') R).
  assert (S ⊆ gaps (a :: C')) as HSsub by (intros d Hd; by apply open_gap_elem in Hd as [? _]).
  assert (coal (-1) S) as HcS by (unfold S, open_gaps; by apply coal_filter, gaps_coal).
  assert (total S <= total (BuildLargestInteriorUnusedRanges c b)) as HtS.
  { rewrite HpL. unfold top. apply longest_sum.
    - apply (in_order_rev b Ho).
    - apply Forall_forall. intros r Hr. rewrite <- (Permutation_rev b), Hp in Hr. eapply (disj_elem 0); [|exact Hr].
      apply (coal_disj (-1)). by apply gaps_coal.
    - rewrite <- (Permutation_rev b), Hp. unfold S, open_gaps. apply sublist_submseteq, sublist_filter.
    - rewrite <- Hp in HSsub. assert (Datatypes.S (length S) <= length R)%nat as Hcount.
      { apply (open_gaps_count _ _ Hc HR HcR' (begin_ a)). exists a. split; [by left|]. unfold inr, okr, en in *. lia. }
      assert (length S <= length b)%nat; [|lia]. rewrite Hp. unfold S, open_gaps. apply length_filter. }
  assert (total (between (begin_ a) (en z) S) <= total R) as Hb; [|rewrite between_total in Hb; lia].
  eapply total_mono; [| exact HR|].
  - eapply coal_disj, (between_coal (begin_ a - 1)); unfold okr, en in *; try lia.
    + destruct S as [|g S'] eqn:ES; [done|]. destruct HcS as (_ & ? & ?). simpl. split_and!; [|done..]. apply (Hin _ HSsub). by left.
    + intros g Hg. apply (Hin _ HSsub) in Hg. lia.
  - intros x. rewrite between_covers; [| |intros g Hg; apply (Hin _ HSsub) in Hg; lia].
    2:{ apply coal_disj in HcS. destruct S as [|g S'] eqn:ES; [done|]. destruct HcS as (_ & ? & ?). simpl. split_and!; [|done..].
        destruct (Hin _ HSsub g ltac:(by left)). lia. }
    intros [Hx Hn]. destruct (decide (covers R x)) as [|Hnr]; [done|]. exfalso. apply Hn.
    destruct (covers_or_gap _ _ x (begin_ a) (en z - 1) Hc) as [H|(d & Hd & Hxd)].
    + exists a. split; [by left|]. unfold inr, okr, en in *. lia.
    + exists z. split; [done|]. unfold inr, okr, en in *. lia.
    + lia.
    + by apply HcR' in H.
    + exists d. split; [|done]. apply open_gap_elem. split; [done|]. eauto.
Qed.
