(* ===== verification/RangeHardware.v ===== *)
(** * RangeHardware: what the hardware allows

    The rules that [protected_ranges.h] documents for the calls on [ProtectedRangesControl], as a checker of the
    sequence of calls, and the weakest precondition of a computation of [ProtectedRanges] under these rules:
    no assertion fails and every call is allowed. *)
From Stdlib Require Import ZArith Lia Sorted.
From stdpp Require Import prelude sorting.
From S2P Require Import Prelude RangeSets RangeFacts ProtectedRanges RangeGoals.

Local Open Scope Z_scope.
Implicit Types (r : Range) (l : list Range).

(** ** The rules *)

(** The ranges that are set, and the addresses that were taken from the system with [UseRange]. *)
Record HW := mkHW {
  hw_ranges : list Range;
  hw_used : Z -> Prop
}.

Definition HW_empty : HW := mkHW [] (fun _ => False).

Definition others (h : HW) r : list Range := filter (fun x => x <> r) (hw_ranges h).

(** Addresses may leave a range when other ranges cover all of them; otherwise the whole range may become
    unusable for a while, so that it must not overlap a buffer in use. *)
Definition may_remove (live : list Range) (h : HW) r (gone : Z -> Prop) : Prop :=
  (forall x, gone x -> covers (others h r) x) \/ (forall b, b ∈ live -> apart r b).

(** Is the call allowed? [live] are the buffers in use. *)
Definition allowed (c : Config) (live : list Range) (h : HW) (k : ControlCall) : Prop :=
  match k with
  | AddProtectedRange r =>
      okr r /\ r ∉ hw_ranges h /\ (forall x, inr r x -> hw_used h x) /\
      Z.of_nat (length (hw_ranges h)) + 1 <= max_range_count_ c
  | DelProtectedRange r => r ∈ hw_ranges h /\ may_remove live h r (inr r)
  | ModProtectedRange o n =>
      is_mod_available_ c = true /\ o ∈ hw_ranges h /\ okr n /\ n ∉ hw_ranges h /\ (forall x, inr n x -> hw_used h x) /\
      (begin_ o = begin_ n \/ en o = en n) /\ may_remove live h o (fun x => inr o x /\ ~ inr n x)
  | ZeroProtectedSubRange _ r =>
      exists p, p ∈ hw_ranges h /\ begin_ p <= begin_ r /\ en r <= en p /\ forall q, q ∈ others h p -> apart q r
  | UseRange r _ => okr r /\ forall x, inr r x -> ~ hw_used h x
  | UnUseRange r => forall x, inr r x -> hw_used h x /\ ~ covers (hw_ranges h) x
  end.

Definition apply_call (h : HW) (k : ControlCall) : HW :=
  match k with
  | AddProtectedRange r => mkHW (r :: hw_ranges h) (hw_used h)
  | DelProtectedRange r => mkHW (others h r) (hw_used h)
  | ModProtectedRange o n => mkHW (n :: others h o) (hw_used h)
  | ZeroProtectedSubRange _ _ => h
  | UseRange r ok => if ok then mkHW (hw_ranges h) (fun x => hw_used h x \/ inr r x) else h
  | UnUseRange r => mkHW (hw_ranges h) (fun x => hw_used h x /\ ~ inr r x)
  end.

Fixpoint obeys (c : Config) (live : list Range) (h : HW) (ks : list ControlCall) : Prop :=
  match ks with
  | [] => True
  | k :: ks => allowed c live h k /\ obeys c live (apply_call h k) ks
  end.

Definition hw_after (h : HW) (ks : list ControlCall) : HW := fold_left apply_call ks h.

Lemma obeys_app c live h ks1 ks2 :
  obeys c live h (ks1 ++ ks2) <-> obeys c live h ks1 /\ obeys c live (hw_after h ks1) ks2.
Proof. revert h. induction ks1 as [|k ks1 IH]; intros h; simpl; [tauto|]. rewrite IH. tauto. Qed.

Lemma hw_after_app h ks1 ks2 : hw_after h (ks1 ++ ks2) = hw_after (hw_after h ks1) ks2.
Proof. unfold hw_after. apply fold_left_app. Qed.

(** ** Weakest preconditions *)

Definition wp {A} (c : Config) (live : list Range) (m : op A) (Q : A -> PR -> HW -> Prop) (s : PR) (h : HW) : Prop :=
  match m s with
  | Done (a, s', ks) => obeys c live h ks /\ Q a s' (hw_after h ks)
  | Panic => False
  end.

Section wp.
Context (c : Config) (live : list Range).

Lemma wp_bind {A B} (m : op A) (k : A -> op B) Q s h :
  wp c live m (fun a s' h' => wp c live (k a) Q s' h') s h -> wp c live (m ≫= k) Q s h.
Proof using Type.
  unfold wp, mbind, op_bind. destruct (m s) as [[[a s1] ks]|]; [|done]. intros [H1 H2].
  destruct (k a s1) as [[[b s2] ks']|]; [|done]. destruct H2 as [H2 H3]. rewrite obeys_app, hw_after_app. done.
Qed.

Lemma wp_mono {A} (m : op A) (Q Q' : A -> PR -> HW -> Prop) s h :
  wp c live m Q s h -> (forall a s' h', Q a s' h' -> Q' a s' h') -> wp c live m Q' s h.
Proof using Type. unfold wp. destruct (m s) as [[[a s1] ks]|]; naive_solver. Qed.

Lemma wp_ret {A} (a : A) (Q : A -> PR -> HW -> Prop) s h : Q a s h -> wp c live (mret a) Q s h.
Proof using Type. done. Qed.

Lemma wp_get Q s h : Q s s h -> wp c live get Q s h.
Proof using Type. done. Qed.

Lemma wp_modify f (Q : unit -> PR -> HW -> Prop) s h : Q tt (f s) h -> wp c live (modify f) Q s h.
Proof using Type. done. Qed.

Lemma wp_lift {A} (m : exec A) (a : A) (Q : A -> PR -> HW -> Prop) s h : m = Done a -> Q a s h -> wp c live (lift m) Q s h.
Proof using Type. intros ->. done. Qed.

Lemma wp_check b (Q : unit -> PR -> HW -> Prop) s h : b = true -> Q tt s h -> wp c live (check b) Q s h.
Proof using Type. intros ->. done. Qed.

Lemma wp_call k (Q : unit -> PR -> HW -> Prop) s h :
  allowed c live h k -> Q tt s (apply_call h k) -> wp c live (call k) Q s h.
Proof using Type. done. Qed.

(** ** Calls with the set of ranges known *)

Definition At (h : HW) l (u : Z -> Prop) : Prop := hw_ranges h ≡ₚ l /\ forall x, hw_used h x <-> u x.

Lemma others_perm h r l : hw_ranges h ≡ₚ r :: l -> r ∉ l -> others h r ≡ₚ l.
Proof using Type.
  unfold others. intros -> Hr. rewrite filter_cons, decide_False by tauto.
  rewrite list_filter_all; [done|]. apply Forall_forall. intros x Hx ->. done.
Qed.

Lemma wp_add r l u (Q : unit -> PR -> HW -> Prop) s h :
  At h l u -> okr r -> r ∉ l -> (forall x, inr r x -> u x) -> Z.of_nat (length l) + 1 <= max_range_count_ c ->
  (forall h', At h' (r :: l) u -> Q tt s h') -> wp c live (call (AddProtectedRange r)) Q s h.
Proof using Type.
  intros [Hp Hu] Hr Hn Hx Hc HQ. apply wp_call.
  - simpl. split_and!; [done|by rewrite Hp|intros; by apply Hu, Hx|by rewrite Hp].
  - apply HQ. split; simpl; [by rewrite Hp|done].
Qed.

Lemma wp_del r l u (Q : unit -> PR -> HW -> Prop) s h :
  At h (r :: l) u -> r ∉ l -> (forall x, inr r x -> covers l x) \/ (forall b, b ∈ live -> apart r b) ->
  (forall h', At h' l u -> Q tt s h') -> wp c live (call (DelProtectedRange r)) Q s h.
Proof using Type.
  intros [Hp Hu] Hr Hrem HQ. pose proof (others_perm _ _ _ Hp Hr) as Ho. apply wp_call.
  - simpl. split; [rewrite Hp; by left|]. destruct Hrem as [Hrem|Hrem]; [left|by right]. intros x Hx. rewrite Ho. by apply Hrem.
  - apply HQ. split; simpl; [done|done].
Qed.

Lemma wp_mod o n l u (Q : unit -> PR -> HW -> Prop) s h :
  is_mod_available_ c = true -> At h (o :: l) u -> o ∉ l -> n ∉ l -> n <> o -> okr n -> (forall x, inr n x -> u x) ->
  (begin_ o = begin_ n \/ en o = en n) -> (forall x, inr o x -> ~ inr n x -> covers l x) ->
  (forall h', At h' (n :: l) u -> Q tt s h') -> wp c live (call (ModProtectedRange o n)) Q s h.
Proof using Type.
  intros Hm [Hp Hu] Ho Hn Hne Hnk Hx He Hrem HQ. pose proof (others_perm _ _ _ Hp Ho) as Hot. apply wp_call.
  - simpl. split_and!; [done|rewrite Hp; by left|done|rewrite Hp; set_solver|intros; by apply Hu, Hx|done|].
    left. intros x [H1 H2]. rewrite Hot. by apply Hrem.
  - apply HQ. split; simpl; [by rewrite Hot|done].
Qed.

Lemma wp_ask use r l u (Q : bool -> PR -> HW -> Prop) s h :
  At h l u -> okr r -> (forall x, inr r x -> ~ u x) ->
  (use r = false -> forall h', At h' l u -> Q false s h') ->
  (use r = true -> forall h', At h' l (fun x => u x \/ inr r x) -> Q true s h') -> wp c live (ask_UseRange use r) Q s h.
Proof using Type.
  intros [Hp Hu] Hr Hx Hf Ht. unfold ask_UseRange. apply wp_bind. apply wp_call.
  - simpl. split; [done|]. intros x Hi. rewrite Hu. by apply Hx.
  - apply wp_ret. simpl. destruct (use r).
    + apply Ht; [done|]. split; simpl; [done|]. intros x. by rewrite Hu.
    + apply Hf; [done|]. split; done.
Qed.

Lemma wp_unuse r l u (Q : unit -> PR -> HW -> Prop) s h :
  At h l u -> (forall x, inr r x -> u x /\ ~ covers l x) ->
  (forall h', At h' l (fun x => u x /\ ~ inr r x) -> Q tt s h') -> wp c live (call (UnUseRange r)) Q s h.
Proof using Type.
  intros [Hp Hu] Hx HQ. apply wp_call.
  - simpl. intros x Hi. rewrite Hu, Hp. by apply Hx.
  - apply HQ. split; simpl; [done|]. intros x. by rewrite Hu.
Qed.

Lemma wp_zero e r l u (Q : unit -> PR -> HW -> Prop) s h :
  At h l u -> disj 0 l -> (exists p, p ∈ l /\ begin_ p <= begin_ r /\ en r <= en p) -> begin_ r < en r ->
  Q tt s h -> wp c live (call (ZeroProtectedSubRange e r)) Q s h.
Proof using Type.
  intros [Hp Hu] Hd (p & Hpl & H1 & H2) Hr HQ. apply wp_call; [|done]. exists p. rewrite Hp. split_and!; [done..|].
  intros q Hq. unfold others in Hq. apply list_elem_of_filter in Hq as [Hne Hq]. rewrite Hp in Hq.
  destruct (disj_pair _ _ _ _ Hd Hq Hpl) as [|[?|?]]; [done| |]; unfold apart; lia.
Qed.
End wp.
