(* ===== verification/RangeOps.v ===== *)
(** * RangeOps: the operations on the hardware ranges

    Each [DoOp] method of [ProtectedRanges] from a state in which [ranges_] mirrors the hardware: no assertion
    fails, every call obeys the rules of [RangeHardware], and the new [ranges_] covers the expected addresses. *)
From Stdlib Require Import ZArith Lia Sorted.
From stdpp Require Import prelude sorting.
From S2P Require Import Prelude RangeSets RangeFacts ProtectedRanges RangeGoals RangeHardware.

Local Open Scope Z_scope.
Implicit Types (r : Range) (l : list Range).

(** [ranges_] mirrors the hardware. *)
Record Mirror (s : PR) (h : HW) : Prop := {
  mi_disj : disj 0 (ranges_ s);
  mi_at : At h (ranges_ s) (covers (ranges_ s));
  mi_bytes : ranges_bytes_ s = total (ranges_ s)
}.

Definition with_ranges l (s : PR) : PR := set_ranges l (total l) s.

Lemma with_ranges_id s h : Mirror s h -> with_ranges (ranges_ s) s = s.
Proof. intros [_ _ H]. unfold with_ranges, set_ranges. rewrite <- H. by destruct s. Qed.

Lemma total_bound l : disj 0 l -> 0 <= total l < 2 ^ 64.
Proof.
  intros H. split; [apply length_total_nonneg; by eapply disj_ok|].
  assert (total l <= total [rng 0 (2 ^ 64 - 1)]) as Hle; [|simpl in Hle; lia].
  eapply total_mono; [done|instantiate (1 := 0)|].
  - simpl. split_and!; [lia| |done]. apply okr_rng; lia.
  - intros x (r & Hr & Hx). apply covers_cons. left. destruct (disj_elem _ _ _ H Hr) as [? Hk].
    unfold inr in *. rewrite en_rng. unfold okr in Hk. simpl. lia.
Qed.

Lemma At_perm h l l' (u u' : Z -> Prop) : At h l u -> l ≡ₚ l' -> (forall x, u x <-> u' x) -> At h l' u'.
Proof. intros [H1 H2] Hp Hu. split; [by rewrite H1|]. intros x. by rewrite H2. Qed.

Lemma coal_of_ends lo l : disj lo l -> (forall r, r ∈ l -> ~ covers l (en r)) -> coal (lo - 1) l.
Proof.
  intros Hd Hn. apply coal_of_disj; [done|]. intros x (p & q & Hp & Hq & Ep & Eq). apply (Hn p Hp). exists q.
  split; [done|]. destruct (disj_elem _ _ _ Hd Hq). unfold inr, okr, en in *. lia.
Qed.

Lemma covers_not_elem r l : okr r -> (forall x, inr r x -> ~ covers l x) -> r ∉ l.
Proof. intros Hr Hn Hin. apply (Hn (begin_ r)); [|exists r; split; [done|]]; unfold inr, okr, en in *; lia. Qed.

Lemma perm_321 (r1 r2 r3 : Range) l : r1 :: r2 :: r3 :: l ≡ₚ r3 :: r2 :: r1 :: l.
Proof. etrans; [apply Permutation_swap|]. etrans; [apply Permutation_skip, Permutation_swap|]. apply Permutation_swap. Qed.

(** The hardware ranges kept free for what an operation needs for a while. *)
Definition room (c : Config) (n : Z) : Prop := n + (if is_mod_available_ c then 0 else 1) <= max_range_count_ c.

Section ops.
Context (c : Config) (live : list Range).

(** ** The calls of the operations *)

(** Two ranges become one: the calls that [TryCoalesceAdjacentRangesAt] and [DoOpMergeRanges] share. *)
Lemma wp_join a b n l0 u (Q : unit -> PR -> HW -> Prop) s h :
  At h (a :: b :: l0) u -> a ∉ b :: l0 -> b ∉ l0 -> n ∉ a :: b :: l0 -> okr n -> begin_ n = begin_ a ->
  (forall x, inr n x -> u x) -> (forall x, inr a x \/ inr b x -> inr n x) ->
  room c (Z.of_nat (length l0) + 2) ->
  (forall h', At h' (n :: l0) u -> Q tt s h') ->
  wp c live (if is_mod_available_ c then
       call (ModProtectedRange a n);;
       call (DelProtectedRange b)
     else
       call (AddProtectedRange n);;
       call (DelProtectedRange a);;
       call (DelProtectedRange b)) Q s h.
Proof using Type.
  intros Hat Ha Hb Hn Hnk Hbe Hu Hin Hroom HQ. rewrite !not_elem_of_cons in *. unfold room in Hroom.
  destruct (is_mod_available_ c) eqn:Em.
  - apply wp_bind. eapply wp_mod; [done|exact Hat|set_solver|set_solver|tauto|done|done|by left| |].
    { intros x Hx Hnx. destruct Hnx. apply Hin. by left. }
    intros h1 Hat1. eapply wp_del; [eapply At_perm; [exact Hat1|apply Permutation_swap|done]|set_solver| |done].
    left. intros x Hx. apply covers_cons. left. apply Hin. by right.
  - apply wp_bind. eapply wp_add; [exact Hat|done|set_solver|done|cbn [length]; lia|]. intros h1 Hat1.
    apply wp_bind. eapply wp_del; [eapply At_perm; [exact Hat1|apply Permutation_swap|done]|set_solver| |].
    { left. intros x Hx. apply covers_cons. left. apply Hin. by left. }
    intros h2 Hat2. eapply wp_del; [eapply At_perm; [exact Hat2|apply Permutation_swap|done]|set_solver| |done].
    left. intros x Hx. apply covers_cons. left. apply Hin. by right.
Qed.

(** One range takes the place of another: the calls that [DoOpShortenRange] and [DoOpSplitRange] share. *)
Lemma wp_replace o n l0 u (Q : unit -> PR -> HW -> Prop) s h :
  At h (o :: l0) u -> o ∉ l0 -> n ∉ l0 -> n <> o -> okr n -> begin_ o = begin_ n \/ en o = en n ->
  (forall x, inr n x -> u x) -> (forall x, inr o x -> ~ inr n x -> covers l0 x) ->
  room c (Z.of_nat (length l0) + 1) ->
  (forall h', At h' (n :: l0) u -> Q tt s h') ->
  wp c live (if is_mod_available_ c then call (ModProtectedRange o n)
     else call (AddProtectedRange n);; call (DelProtectedRange o)) Q s h.
Proof using Type.
  intros Hat Ho Hn Hne Hnk He Hu Hrem Hroom HQ. unfold room in Hroom. destruct (is_mod_available_ c) eqn:Em; [by eapply wp_mod|].
  apply wp_bind. eapply wp_add; [exact Hat|done|set_solver|done|cbn [length]; lia|]. intros h1 Hat1.
  eapply wp_del; [eapply At_perm; [exact Hat1|apply Permutation_swap|done]|set_solver| |done].
  left. intros x Hx. apply covers_cons. destruct (decide (inr n x)); [by left|]. right. by apply Hrem.
Qed.

(** The ranges that stay when one is taken out. *)
Lemma taken_out r l :
  disj 0 l -> r ∈ l ->
  l ≡ₚ r :: erase_by_begin r l /\ length l = S (length (erase_by_begin r l)) /\
  (forall x, covers (erase_by_begin r l) x <-> covers l x /\ ~ inr r x) /\ r ∉ erase_by_begin r l /\
  (forall q, okr q -> (forall x, inr q x -> inr r x) -> q ∉ erase_by_begin r l).
Proof using Type.
  intros Hd Hr. pose proof (erase_perm _ _ _ Hd Hr) as Hp. destruct (disj_elem _ _ _ Hd Hr) as [_ Hrk].
  assert (forall x, covers (erase_by_begin r l) x <-> covers l x /\ ~ inr r x) as Hc by (intros; by eapply erase_covers).
  assert (forall q, okr q -> (forall x, inr q x -> inr r x) -> q ∉ erase_by_begin r l) as Hn.
  { intros q Hq Hx. apply covers_not_elem; [done|]. intros x ?%Hx. rewrite Hc. tauto. }
  split_and!; [done|by rewrite Hp at 1|done|by apply Hn|done].
Qed.

(** ** Coalescing *)

Lemma wp_coalesce loc (Q : unit -> PR -> HW -> Prop) s h :
  Mirror s h -> room c (Z.of_nat (length (ranges_ s))) ->
  (forall l h', Mirror (with_ranges l s) h' -> (forall x, covers l x <-> covers (ranges_ s) x) ->
     (forall x, touch l x <-> touch (ranges_ s) x /\ x <> loc) ->
     (length l <= length (ranges_ s))%nat -> (length l = length (ranges_ s) -> l = ranges_ s) -> Q tt (with_ranges l s) h') ->
  wp c live (TryCoalesceAdjacentRangesAt c loc) Q s h.
Proof using Type.
  intros HM Hroom HQ. pose proof HM as [Hd Hat Hb]. unfold TryCoalesceAdjacentRangesAt. apply wp_bind, wp_get.
  destruct (find_adjacent_spec _ _ loc Hd) as [[E Hn]|(l1 & a & b & l2 & El & Ea & Eb & E)].
  { apply wp_bind. eapply wp_lift; [exact E|]. apply wp_ret. pose proof (HQ (ranges_ s) h) as HQ'.
    rewrite (with_ranges_id s h HM) in HQ'. apply HQ'; try done. intros x. split; [|tauto]. intros H. split; [done|by intros ->]. }
  apply wp_bind. eapply wp_lift; [exact E|]. rewrite El in *.
  destruct (weld_spec 0 l1 a b l2 Hd ltac:(lia)) as (Ew & Hnk & Hd' & Hc' & Ht' & Htot & Hlen). rewrite Ew.
  set (n := mkRange (begin_ a) (en b - begin_ a)) in *. set (l' := insert_by_begin n (l1 ++ l2)) in *.
  destruct (disj_elem _ _ a Hd ltac:(set_solver)) as [_ Hak]. destruct (disj_elem _ _ b Hd ltac:(set_solver)) as [_ Hbk].
  pose proof (disj_NoDup _ _ Hd) as Hnd.
  assert (l1 ++ a :: b :: l2 ≡ₚ a :: b :: (l1 ++ l2)) as Hp by (rewrite <- !Permutation_middle; done).
  rewrite Hp in Hnd. apply NoDup_cons in Hnd as [Hna Hnd]. apply NoDup_cons in Hnd as [Hnb _].
  assert (n ∉ l1 ++ l2) as Hnn.
  { pose proof (disj_NoDup _ _ Hd') as Hnd'. unfold l' in Hnd'. rewrite emplace_perm in Hnd'. by apply NoDup_cons in Hnd' as [? _]. }
  assert (n ∉ a :: b :: l1 ++ l2) as Hnab.
  { rewrite !not_elem_of_cons. split_and!; [| |done]; intros E'; apply (f_equal en) in E' as E2; apply (f_equal begin_) in E';
      unfold n, okr, en in *; simpl in *; lia. }
  assert (forall x, inr n x <-> inr a x \/ inr b x) as Hix by (intros x; unfold n, inr, okr, en in *; simpl; lia).
  pose proof (Permutation_length Hp) as Hl. rewrite Hl in Hroom. cbn [length] in Hroom.
  apply wp_bind. eapply (wp_join a b n (l1 ++ l2)); [by eapply At_perm|done|done|done|done|done| |intros x; apply Hix| |].
  { intros x Hx. rewrite Hp, !covers_cons. apply Hix in Hx. tauto. }
  { unfold room in *. lia. }
  intros h' Hat'. apply wp_modify. rewrite Hb, <- Htot.
  apply HQ; [|done|by intros x; rewrite Ht', Ea|lia|lia]. constructor; [done| |done].
  eapply At_perm; [exact Hat'|symmetry; apply emplace_perm|]. intros x. symmetry. apply Hc'.
Qed.

(** ** Bookkeeping *)

Lemma wp_erase r (Q : unit -> PR -> HW -> Prop) s h :
  disj 0 (ranges_ s) -> ranges_bytes_ s = total (ranges_ s) -> r ∈ ranges_ s ->
  Q tt (with_ranges (erase_by_begin r (ranges_ s)) s) h -> wp c live (erase_range r) Q s h.
Proof using Type.
  intros Hd Hb Hr HQ. unfold erase_range. apply wp_modify. rewrite Hb.
  pose proof (erase_total _ _ _ Hd Hr) as Ht. pose proof (total_bound _ (erase_disj _ _ r Hd)) as Hbd.
  rewrite <- Ht, u64_small by done. done.
Qed.

Lemma wp_emplace r (Q : unit -> PR -> HW -> Prop) s h :
  disj 0 (insert_by_begin r (ranges_ s)) -> ranges_bytes_ s = total (ranges_ s) ->
  Q tt (with_ranges (insert_by_begin r (ranges_ s)) s) h -> wp c live (emplace_range r) Q s h.
Proof using Type.
  intros Hd Hb HQ. unfold emplace_range. apply wp_modify. rewrite Hb.
  pose proof (emplace_total r (ranges_ s)) as Ht. pose proof (total_bound _ Hd) as Hbd.
  rewrite Z.add_comm, <- Ht, u64_small by done. done.
Qed.

(** ** The operations *)

Lemma wp_DoOpAddRange use n (Q : bool -> PR -> HW -> Prop) s h :
  Mirror s h -> coal (-1) (ranges_ s) -> okr n -> (forall x, inr n x -> ~ covers (ranges_ s) x) ->
  room c (Z.of_nat (length (ranges_ s)) + 1) ->
  (use n = false -> forall h', Mirror s h' -> Q false s h') ->
  (use n = true -> forall l h', Mirror (with_ranges l s) h' -> coal (-1) l ->
     (forall x, covers l x <-> inr n x \/ covers (ranges_ s) x) -> (length l <= S (length (ranges_ s)))%nat ->
     (length l = S (length (ranges_ s)) -> l = insert_by_begin n (ranges_ s)) -> Q true (with_ranges l s) h') ->
  wp c live (DoOpAddRange c use n) Q s h.
Proof using Type.
  intros HM Hc Hn Hx Hroom Hf Ht. pose proof HM as [Hd Hat Hb]. unfold DoOpAddRange. apply wp_bind.
  eapply wp_ask; [exact Hat|done|done| |].
  { intros E h' Hat'. apply wp_ret. apply Hf; [done|]. by constructor. }
  intros E h' Hat'. cbn [negb]. set (l1 := insert_by_begin n (ranges_ s)).
  assert (disj 0 l1) as Hd1 by (apply emplace_disj; [done|done|apply Hn|done]).
  assert (length l1 = S (length (ranges_ s))) as Hl1 by apply emplace_length.
  apply wp_bind. eapply wp_add; [exact Hat'|done|by apply covers_not_elem|by right| |].
  { unfold room in Hroom. destruct (is_mod_available_ c); lia. }
  intros h1 Hat1. apply wp_bind, wp_emplace; [done|done|]. fold l1.
  assert (Mirror (with_ranges l1 s) h1) as HM1.
  { constructor; [done| |done]. eapply At_perm; [exact Hat1|symmetry; apply emplace_perm|].
    intros x. cbn [ranges_ with_ranges set_ranges]. unfold l1. rewrite emplace_covers. tauto. }
  apply wp_bind. apply wp_coalesce; [done|cbn [ranges_ with_ranges set_ranges]; rewrite Hl1, Nat2Z.inj_succ; exact Hroom|].
  cbn [ranges_ with_ranges set_ranges]. intros l2 h2 HM2 Hc2 Ht2 Hlen2 Hsame2.
  apply wp_bind. apply wp_coalesce; [done| |].
  { cbn [ranges_ with_ranges set_ranges]. unfold room in *. lia. }
  cbn [ranges_ with_ranges set_ranges]. intros l3 h3 HM3 Hc3 Ht3 Hlen3 Hsame3. apply wp_ret.
  change (with_ranges l3 (with_ranges l2 (with_ranges l1 s))) with (with_ranges l3 s) in *. apply Ht; [done|done| | |lia|].
  - apply (coal_of_disj 0); [apply HM3|]. intros x [[(p & q & Hp & Hq & Ep & Eq) Hx1]%Ht2 Hx2]%Ht3.
    rewrite r_end_ok in Hx2 by done. apply emplace_elem in Hp as [->|Hp]; [lia|]. apply emplace_elem in Hq as [->|Hq]; [lia|].
    apply (coal_no_touch _ _ x Hc). by exists p, q.
  - intros x. rewrite Hc3, Hc2. apply emplace_covers.
  - intros Hlen. rewrite Hsame3, Hsame2 by lia. done.
Qed.

Lemma wp_DoOpDelRange r (Q : unit -> PR -> HW -> Prop) s h :
  Mirror s h -> coal (-1) (ranges_ s) -> r ∈ ranges_ s -> (forall b, b ∈ live -> apart r b) ->
  (forall l h', l = erase_by_begin r (ranges_ s) -> Mirror (with_ranges l s) h' -> coal (-1) l ->
     (forall x, covers l x <-> covers (ranges_ s) x /\ ~ inr r x) -> Q tt (with_ranges l s) h') ->
  wp c live (DoOpDelRange r) Q s h.
Proof using Type.
  intros HM Hc Hr Hap HQ. pose proof HM as [Hd Hat Hb]. unfold DoOpDelRange. apply wp_bind, wp_get.
  apply wp_bind, wp_check; [apply contains_elem; [by eapply disj_in_order|done]|].
  pose proof (erase_perm _ _ _ Hd Hr) as Hp. set (l1 := erase_by_begin r (ranges_ s)) in *.
  assert (disj 0 l1) as Hd1 by (by apply erase_disj).
  assert (forall x, covers l1 x <-> covers (ranges_ s) x /\ ~ inr r x) as Hc1 by (intros; by eapply erase_covers).
  apply wp_bind. eapply wp_del; [eapply At_perm; [exact Hat|exact Hp|done]| |by right|].
  { apply covers_not_elem; [by apply (disj_elem _ _ _ Hd Hr)|]. intros x ?. rewrite Hc1. tauto. }
  intros h1 Hat1. apply wp_bind, wp_erase; [done..|]. fold l1.
  eapply wp_unuse; [exact Hat1| |].
  - intros x Hx. split; [by exists r|]. rewrite Hc1. tauto.
  - intros h2 Hat2. apply HQ; [done| | |done].
    + constructor; [done| |done]. eapply At_perm; [exact Hat2|done|]. intros x. symmetry. apply Hc1.
    + unfold l1. rewrite erase_filter by apply _. by apply coal_filter.
Qed.

(** Replacing one range: the ones that stay. *)
Lemma replaced_disj o n l :
  disj 0 l -> o ∈ l -> okr n -> (forall x, inr n x -> ~ covers (erase_by_begin o l) x) -> disj 0 (insert_by_begin n (erase_by_begin o l)).
Proof using Type. intros Hd Ho Hn Hx. apply emplace_disj; [by apply erase_disj|done|apply Hn|done]. Qed.

Context (Hlive : Forall okr live).

Lemma apart_live r : okr r -> (forall x, inr r x -> ~ covers live x) -> forall b, b ∈ live -> apart r b.
Proof using Hlive.
  intros Hr Hx b Hb. rewrite Forall_forall in Hlive. apply apart_not_inr; [done|by apply Hlive|].
  intros x Hxr Hxb. apply (Hx x Hxr). by exists b.
Qed.

(** The configuration leaves the transient ranges their place. *)
Definition Capacity : Prop :=
  0 <= max_logical_range_count_ c /\
  max_logical_range_count_ c + (if is_mod_available_ c then 1 else 2) <= max_range_count_ c < 2 ^ 64.

Context (Hcap : Capacity).

Lemma spare_ok m n : m <= 1 -> n <= 2 -> spare_ranges c m n = true.
Proof using Hcap.
  unfold Capacity in Hcap. intros. unfold spare_ranges. rewrite u64_small by (unfold is_u64; destruct (is_mod_available_ c); lia).
  apply Z.leb_le. destruct (is_mod_available_ c); lia.
Qed.

(** The part of a range that is cut off at one end. *)
Definition cut_off (o n : Range) : Range := if begin_ o =? begin_ n then rng (en n) (en o) else rng (begin_ o) (begin_ n).

Lemma cut_off_spec o n :
  okr o -> okr n -> begin_ o = begin_ n /\ en n < en o \/ en o = en n /\ begin_ o < begin_ n ->
  (if begin_ o =? begin_ n then BeginEnd (r_end n) (r_end o) else BeginEnd (begin_ o) (begin_ n)) = cut_off o n /\
  okr (cut_off o n) /\ (forall x, inr (cut_off o n) x <-> inr o x /\ ~ inr n x) /\ (forall x, inr n x -> inr o x).
Proof using Type.
  intros Ho Hn Hcase. unfold cut_off. rewrite !r_end_ok by done. destruct (Z.eqb_spec (begin_ o) (begin_ n)).
  - rewrite BeginEnd_rng by (unfold okr, en in *; lia). split_and!; [done| | |].
    + apply okr_rng; unfold okr, en in *; lia.
    + intros x. unfold inr. rewrite en_rng. simpl. unfold okr, en in *. lia.
    + intros x. unfold inr. lia.
  - rewrite BeginEnd_rng by (unfold okr, en in *; lia). split_and!; [done| | |].
    + apply okr_rng; unfold okr, en in *; lia.
    + intros x. unfold inr. rewrite en_rng. simpl. unfold okr, en in *. lia.
    + intros x. unfold inr. lia.
Qed.

Lemma cut_off_neq o n :
  okr o -> okr n -> begin_ o = begin_ n /\ en n < en o \/ en o = en n /\ begin_ o < begin_ n ->
  n <> o /\ cut_off o n <> o /\ cut_off o n <> n.
Proof using Type.
  intros Ho Hn Hcase. unfold cut_off. split_and!; [intros ->; lia| |]; destruct (Z.eqb_spec (begin_ o) (begin_ n));
    intros E; pose proof (f_equal en E) as E2; apply (f_equal begin_) in E; rewrite ?en_rng in E2; simpl in E; unfold okr, en in *; lia.
Qed.

(** [ranges_] after a range has been shortened at one end. *)
Lemma shortened o n l :
  disj 0 l -> coal (-1) l -> o ∈ l -> okr n -> begin_ o = begin_ n /\ en n < en o \/ en o = en n /\ begin_ o < begin_ n ->
  disj 0 (insert_by_begin n (erase_by_begin o l)) /\ coal (-1) (insert_by_begin n (erase_by_begin o l)) /\
  (forall x, covers (insert_by_begin n (erase_by_begin o l)) x <-> covers l x /\ (inr o x -> inr n x)).
Proof using Type.
  intros Hd Hc Ho Hn Hcase. destruct (taken_out o l Hd Ho) as (_ & _ & Hc0 & _). destruct (disj_elem _ _ _ Hd Ho) as [_ Hok].
  destruct (cut_off_spec o n Hok Hn Hcase) as (_ & _ & _ & Hno).
  assert (disj 0 (insert_by_begin n (erase_by_begin o l))) as Hd'.
  { apply replaced_disj; [done..|]. intros x Hx%Hno. rewrite Hc0. tauto. }
  assert (forall x, covers (insert_by_begin n (erase_by_begin o l)) x <-> covers l x /\ (inr o x -> inr n x)) as Hcl.
  { intros x. rewrite emplace_covers, Hc0. destruct (decide (inr o x)) as [Hx|Hx].
    - assert (covers l x) by (by exists o). tauto.
    - pose proof (Hno x). tauto. }
  split_and!; [done| |done]. apply (coal_of_ends 0); [done|]. intros r [->|Hr]%emplace_elem; rewrite Hcl; intros [H1 H2].
  - destruct Hcase as [[? ?]|[Ee ?]].
    + assert (inr o (en n)) as Hx by (unfold inr, okr, en in *; lia). apply H2 in Hx. unfold inr in Hx. lia.
    + rewrite <- Ee in H1. by destruct (coal_bound _ _ _ Hc Ho) as [_ ?].
  - apply erase_elem in Hr as [_ Hr]. by destruct (coal_bound _ _ _ Hc Hr) as [_ ?].
Qed.

Lemma wp_DoOpShortenRange o n (Q : unit -> PR -> HW -> Prop) s h :
  Mirror s h -> coal (-1) (ranges_ s) -> o ∈ ranges_ s -> okr n ->
  begin_ o = begin_ n /\ en n < en o \/ en o = en n /\ begin_ o < begin_ n ->
  (forall x, inr o x -> ~ inr n x -> ~ covers live x) -> Z.of_nat (length (ranges_ s)) <= max_logical_range_count_ c ->
  (forall l h', Mirror (with_ranges l s) h' -> coal (-1) l -> length l = length (ranges_ s) ->
     (forall x, covers l x <-> covers (ranges_ s) x /\ (inr o x -> inr n x)) -> Q tt (with_ranges l s) h') ->
  wp c live (DoOpShortenRange c o n) Q s h.
Proof using Hlive Hcap.
  intros HM Hc Ho Hn Hcase Hl Hcount HQ. pose proof HM as [Hd Hat Hb]. destruct (disj_elem _ _ _ Hd Ho) as [_ Hok].
  destruct (cut_off_spec o n Hok Hn Hcase) as (Et & Htk & Htx & Hno). set (t := cut_off o n) in *.
  unfold DoOpShortenRange. apply wp_bind, wp_get.
  apply wp_bind, wp_check; [apply contains_elem; [by eapply disj_in_order|done]|].
  apply wp_bind, wp_check; [by rewrite (is_empty_ok o)|]. apply wp_bind, wp_check; [by rewrite (is_empty_ok n)|].
  apply wp_bind, wp_check; [rewrite !r_end_ok by done; destruct Hcase; lia|].
  apply wp_bind, wp_check; [unfold en in *; lia|]. apply wp_bind, wp_check; [lia|].
  apply wp_bind, wp_check; [by apply spare_ok|]. cbv zeta. rewrite Et.
  destruct (taken_out o _ Hd Ho) as (Hp & Hlen & Hc0 & Hol & Hnot). set (l0 := erase_by_begin o (ranges_ s)) in *.
  assert (n ∉ l0) as Hnl by (by apply Hnot).
  assert (t ∉ l0) as Htl by (apply Hnot; [done|]; intros x Hx; apply Htx in Hx; tauto).
  destruct (cut_off_neq o n Hok Hn Hcase) as (Hne1 & Hne2 & Hne3). fold t in Hne2, Hne3.
  assert (forall x, inr o x -> covers (ranges_ s) x) as Hus by (intros; by exists o).
  unfold Capacity in Hcap.
  apply wp_bind. eapply wp_add; [eapply At_perm; [exact Hat|exact Hp|done]|done|set_solver|intros x Hx; apply Hus; apply Htx in Hx; tauto| |].
  { cbn [length]. destruct (is_mod_available_ c); lia. }
  intros h1 Hat1. apply wp_bind.
  eapply wp_replace; [eapply At_perm; [exact Hat1|apply Permutation_swap|done]|set_solver|set_solver|done|done|destruct Hcase; lia| | | |].
  { intros; by apply Hus, Hno. }
  { intros x Hx Hnx. apply covers_cons. left. by apply Htx. }
  { unfold room. cbn [length]. destruct (is_mod_available_ c); lia. }
  intros h2 Hat2.
  apply wp_bind. eapply wp_del; [eapply At_perm; [exact Hat2|apply Permutation_swap|done]|set_solver| |].
  { right. apply apart_live; [done|]. intros x [? ?]%Htx. by apply Hl. }
  intros h3 Hat3. apply wp_bind, wp_erase; [done..|]. fold l0.
  destruct (shortened o n _ Hd Hc Ho Hn Hcase) as (Hdl & Hcoal & Hcl). fold l0 in Hdl, Hcoal, Hcl.
  apply wp_bind, wp_emplace; [done|done|]. cbn [ranges_ with_ranges set_ranges].
  eapply wp_unuse; [exact Hat3| |].
  - intros x [H1 H2]%Htx. split; [by apply Hus|]. rewrite covers_cons, Hc0. tauto.
  - intros h4 Hat4. apply HQ; [|done|rewrite emplace_length; lia|done].
    constructor; [done| |done]. eapply At_perm; [exact Hat4|symmetry; apply emplace_perm|].
    intros x. cbn [ranges_ with_ranges set_ranges]. rewrite Hcl, Htx. destruct (decide (inr n x)); tauto.
Qed.

(** [ranges_] after two ranges have been merged over the gap between them. *)
Lemma merged a b l :
  disj 0 l -> coal (-1) l -> a ∈ l -> b ∈ l -> en a < begin_ b -> (forall x, en a <= x < begin_ b -> ~ covers l x) ->
  let n := rng (begin_ a) (en b) in let l1 := erase_by_begin a l in let l0 := erase_by_begin b l1 in let l' := insert_by_begin n l0 in
  l ≡ₚ a :: b :: l0 /\ disj 0 l1 /\ b ∈ l1 /\ (forall x, inr n x -> ~ covers l0 x) /\ disj 0 l' /\ coal (-1) l' /\
  (forall x, covers l' x <-> covers l x \/ en a <= x < begin_ b).
Proof using Type.
  clear Hcap Hlive. intros Hd Hc Ha Hb Hlt Hgap n l1 l0 l'. destruct (disj_elem _ _ _ Hd Ha) as [_ Hak]. destruct (disj_elem _ _ _ Hd Hb) as [_ Hbk].
  assert (forall x, inr n x <-> inr a x \/ inr b x \/ en a <= x < begin_ b) as Hnx.
  { intros x. unfold inr, n. rewrite en_rng. cbn [begin_ rng]. unfold okr, en in *. lia. }
  assert (disj 0 l1) as Hd1 by (by apply erase_disj).
  assert (b ∈ l1) as Hb1 by (apply erase_elem; split; [intros ->; unfold okr, en in *; lia|done]).
  destruct (taken_out a l Hd Ha) as (Hp1 & _ & Hc1 & _). destruct (taken_out b l1 Hd1 Hb1) as (Hp2 & _ & Hc0 & _).
  fold l1 in Hp1, Hc1. fold l0 in Hp2, Hc0.
  assert (l ≡ₚ a :: b :: l0) as Hp by (by rewrite Hp1; constructor).
  assert (forall x, inr n x -> ~ covers l0 x) as Hnc.
  { intros x Hx. rewrite Hc0. rewrite Hc1. apply Hnx in Hx as [?|[?|Hg]]; [tauto..|].
    intros [[Hx _] _]. by apply (Hgap x). }
  assert (disj 0 l') as Hdn by (apply replaced_disj; [done|done|apply okr_rng; unfold okr, en in *; lia|done]).
  assert (forall x, covers l' x <-> covers l x \/ en a <= x < begin_ b) as Hcl.
  { intros x. unfold l'. rewrite emplace_covers, Hnx, Hp, !covers_cons. tauto. }
  split_and!; [done..| |done]. apply (coal_of_ends 0); [done|].
  intros r [->|Hr]%emplace_elem; rewrite Hcl; [unfold n; rewrite en_rng; destruct (coal_bound _ _ _ Hc Hb); unfold okr, en in *; intros [?|?]; [done|lia]|].
  assert (r ∈ l) as Hrs by (rewrite Hp; set_solver). destruct (disj_elem _ _ _ Hd Hrs) as [_ Hrk].
  destruct (coal_bound _ _ _ Hc Hrs) as [_ Hre]. intros [H1|H1]; [done|].
  destruct (decide (en r = en a)) as [Ee|Hne].
  - apply (Hnc (en a - 1)); [apply Hnx; left; unfold inr, okr, en in *; lia|]. exists r. split; [done|]. unfold inr, okr, en in *. lia.
  - apply (Hgap (en r - 1)); [lia|]. exists r. split; [done|]. unfold inr, okr, en in *. lia.
Qed.

Lemma wp_DoOpMergeRanges use a b (Q : bool -> PR -> HW -> Prop) s h :
  Mirror s h -> coal (-1) (ranges_ s) -> a ∈ ranges_ s -> b ∈ ranges_ s -> en a < begin_ b ->
  (forall x, en a <= x < begin_ b -> ~ covers (ranges_ s) x) ->
  Z.of_nat (length (ranges_ s)) <= max_logical_range_count_ c + 1 ->
  (use (rng (en a) (begin_ b)) = false -> forall h', Mirror s h' -> Q false s h') ->
  (use (rng (en a) (begin_ b)) = true -> forall l h', Mirror (with_ranges l s) h' -> coal (-1) l -> S (length l) = length (ranges_ s) ->
     (forall x, covers l x <-> covers (ranges_ s) x \/ en a <= x < begin_ b) -> rng (begin_ a) (en b) ∈ l -> Q true (with_ranges l s) h') ->
  wp c live (DoOpMergeRanges c use a b) Q s h.
Proof using Hcap.
  clear Hlive. intros HM Hc Ha Hb Hlt Hgap Hcount Hf Ht. pose proof HM as [Hd Hat Hby].
  destruct (disj_elem _ _ _ Hd Ha) as [_ Hak]. destruct (disj_elem _ _ _ Hd Hb) as [_ Hbk].
  set (n := rng (begin_ a) (en b)). set (g := rng (en a) (begin_ b)) in *.
  assert (okr n) as Hnk by (apply okr_rng; unfold okr, en in *; lia). assert (okr g) as Hgk by (apply okr_rng; unfold okr, en in *; lia).
  assert (forall x, inr g x <-> en a <= x < begin_ b) as Hgx by (intros x; unfold inr, g; by rewrite en_rng).
  assert (forall x, inr n x <-> inr a x \/ inr b x \/ inr g x) as Hnx.
  { intros x. rewrite Hgx. unfold inr, n. rewrite en_rng. cbn [begin_ rng]. unfold okr, en in *. lia. }
  unfold DoOpMergeRanges. apply wp_bind, wp_check; [by rewrite (is_empty_ok a)|]. apply wp_bind, wp_check; [by rewrite (is_empty_ok b)|].
  apply wp_bind, wp_check; [rewrite r_end_ok by done; lia|]. apply wp_bind, wp_check; [apply spare_ok; lia|].
  cbv zeta. rewrite !r_end_ok by done. rewrite !BeginEnd_rng by (unfold okr, en in *; lia). fold n g.
  apply wp_bind. eapply wp_ask; [exact Hat|done|intros x Hx; apply Hgap; by apply Hgx| |].
  { intros E h' Hat'. apply wp_ret. apply Hf; [done|]. by constructor. }
  intros E h1 Hat1. cbn [negb].
  destruct (merged a b _ Hd Hc Ha Hb Hlt Hgap) as (Hp & Hd1 & Hb1 & Hnc & Hdn & Hcoal & Hcl). fold n in Hnc, Hdn, Hcoal, Hcl.
  set (l1 := erase_by_begin a (ranges_ s)) in *. set (l0 := erase_by_begin b l1) in *. set (l := insert_by_begin n l0) in *.
  pose proof (disj_NoDup _ _ Hd) as Hnd. rewrite Hp in Hnd. apply NoDup_cons in Hnd as [Hna Hnd]. apply NoDup_cons in Hnd as [Hnb _].
  apply wp_bind. eapply wp_join; [eapply At_perm; [exact Hat1|exact Hp|done]|done|done| |done|done| | | |].
  { rewrite !not_elem_of_cons. split_and!; [| |by apply covers_not_elem].
    - intros E2. apply (f_equal en) in E2. unfold n in E2. rewrite en_rng in E2. unfold okr, en in *. lia.
    - intros E2. apply (f_equal begin_) in E2. simpl in E2. unfold okr, en in *. lia. }
  { intros x [?|[?|?]]%Hnx; [left; by exists a|left; by exists b|by right]. }
  { intros x Hx. apply Hnx. tauto. }
  { unfold room, Capacity in *. pose proof (Permutation_length Hp) as Hlen. cbn [length] in Hlen.
    destruct (is_mod_available_ c); lia. }
  intros h2 Hat2. apply wp_bind, wp_erase; [done..|]. fold l1. apply wp_bind, wp_erase; [done..|]. cbn [ranges_ with_ranges set_ranges]. fold l0.
  apply wp_bind, wp_emplace; [done|done|]. cbn [ranges_ with_ranges set_ranges]. apply wp_ret. fold l.
  apply (Ht E l h2); [|done| |done|apply emplace_elem; by left].
  - constructor; [done| |done]. eapply At_perm; [exact Hat2|symmetry; apply emplace_perm|].
    intros x. cbn [ranges_ with_ranges set_ranges]. rewrite Hcl, Hgx. done.
  - unfold l. rewrite emplace_length. by rewrite Hp.
Qed.

(** The parts of a range [r] around a gap [g] inside it. *)
Lemma split_parts r g :
  okr r -> okr g -> begin_ r < begin_ g -> en g < en r ->
  let lft := rng (begin_ r) (begin_ g) in let rgt := rng (en g) (en r) in
  okr lft /\ okr rgt /\ (forall x, inr lft x <-> inr r x /\ x < begin_ g) /\ (forall x, inr rgt x <-> inr r x /\ en g <= x) /\
  (forall x, inr g x <-> inr r x /\ begin_ g <= x < en g) /\
  lft <> r /\ rgt <> r /\ g <> r /\ lft <> g /\ rgt <> g /\ lft <> rgt.
Proof using Type.
  intros Hr Hg Hb He lft rgt. split_and!; [apply okr_rng; unfold okr, en in *; lia..| | | | | | | | |].
  1,2: intros x; unfold inr, lft, rgt; rewrite en_rng; cbn [begin_ rng]; unfold okr, en in *; lia.
  { intros x; unfold inr, okr, en in *; lia. }
  all: unfold lft, rgt; intros E; pose proof (f_equal en E) as E2; apply (f_equal begin_) in E; rewrite ?en_rng in E2; simpl in E;
    unfold okr, en in *; lia.
Qed.

(** [ranges_] after a range has been split. *)
Lemma split_ranges r g l :
  disj 0 l -> coal (-1) l -> r ∈ l -> okr g -> begin_ r < begin_ g -> en g < en r ->
  let l1 := insert_by_begin (rng (begin_ r) (begin_ g)) (erase_by_begin r l) in
  let l2 := insert_by_begin (rng (en g) (en r)) l1 in
  disj 0 l1 /\ disj 0 l2 /\ coal (-1) l2 /\ (forall x, covers l2 x <-> covers l x /\ ~ inr g x).
Proof using Type.
  intros Hd Hc Hr Hgk Hbg Heg l1 l2. destruct (disj_elem _ _ _ Hd Hr) as [_ Hrk]. destruct (taken_out r l Hd Hr) as (_ & _ & Hc0 & _).
  destruct (split_parts r g Hrk Hgk Hbg Heg) as (Hlk & Hrtk & Hlx & Hrx & Hgx & _).
  assert (disj 0 l1) as Hd1.
  { apply replaced_disj; [done..|]. intros x ?%Hlx. rewrite Hc0. tauto. }
  assert (disj 0 l2) as Hd2.
  { apply emplace_disj; [done|done|apply Hrtk|]. intros x Hx%Hrx. unfold l1. rewrite emplace_covers, Hlx, Hc0.
    intros [?|?]; [unfold okr, en in *; lia|tauto]. }
  assert (forall x, covers l2 x <-> covers l x /\ ~ inr g x) as Hcl.
  { intros x. unfold l2, l1. rewrite !emplace_covers, Hlx, Hrx, Hc0, Hgx. destruct (decide (inr r x)) as [Hx|Hx]; [|tauto].
    assert (covers l x) by (by exists r). assert (begin_ g < en g) by (unfold okr, en in *; lia).
    destruct (decide (x < begin_ g)), (decide (en g <= x)); intuition lia. }
  split_and!; [done..| |done]. apply (coal_of_ends 0); [done|]. intros q Hq. rewrite Hcl. intros [H1 H2].
  apply emplace_elem in Hq as [->|[->|Hq]%emplace_elem].
  - rewrite en_rng in H1. by destruct (coal_bound _ _ _ Hc Hr) as [_ ?].
  - apply H2. rewrite en_rng. unfold inr, okr, en in *. lia.
  - apply erase_elem in Hq as [_ Hq]. by destruct (coal_bound _ _ _ Hc Hq) as [_ ?].
Qed.

Lemma wp_DoOpSplitRange r g (Q : unit -> PR -> HW -> Prop) s h :
  Mirror s h -> coal (-1) (ranges_ s) -> r ∈ ranges_ s -> okr g -> begin_ r < begin_ g -> en g < en r ->
  (forall x, inr g x -> ~ covers live x) -> Z.of_nat (length (ranges_ s)) <= max_logical_range_count_ c - 1 ->
  (forall l h', Mirror (with_ranges l s) h' -> coal (-1) l -> length l = S (length (ranges_ s)) ->
     (forall x, covers l x <-> covers (ranges_ s) x /\ ~ inr g x) -> Q tt (with_ranges l s) h') ->
  wp c live (DoOpSplitRange c r g) Q s h.
Proof using Hlive Hcap.
  intros HM Hc Hr Hgk Hbg Heg Hl Hcount HQ. pose proof HM as [Hd Hat Hb]. destruct (disj_elem _ _ _ Hd Hr) as [_ Hrk].
  pose proof (apart_live _ Hgk Hl) as Hap. clear Hlive Hl. pose proof Hcap as Hcap'. unfold Capacity in Hcap'.
  unfold DoOpSplitRange. apply wp_bind, wp_get. apply wp_bind, wp_check; [by rewrite (is_empty_ok r)|].
  apply wp_bind, wp_check; [by rewrite (is_empty_ok g)|]. apply wp_bind, wp_check; [lia|].
  apply wp_bind, wp_check; [rewrite !r_end_ok by done; lia|].
  apply wp_bind, wp_check; [rewrite u64_small; [lia|unfold is_u64; destruct (is_mod_available_ c); lia]|].
  apply wp_bind, wp_check; [by apply spare_ok|]. cbv zeta. rewrite !r_end_ok by done. rewrite !BeginEnd_rng by (unfold okr, en in *; lia).
  set (lft := rng (begin_ r) (begin_ g)). set (rgt := rng (en g) (en r)).
  destruct (split_parts r g Hrk Hgk Hbg Heg) as (Hlk & Hrtk & Hlx & Hrx & Hgx & D1 & D2 & D3 & D4 & D5 & D6). fold lft rgt in Hlk, Hrtk, Hlx, Hrx, D1, D2, D4, D5, D6.
  destruct (taken_out r _ Hd Hr) as (Hp & Hlen & Hc0 & N1 & Hnot). set (l0 := erase_by_begin r (ranges_ s)) in *.
  assert (lft ∉ l0) as N2 by (apply Hnot; [done|]; intros x ?%Hlx; tauto).
  assert (rgt ∉ l0) as N3 by (apply Hnot; [done|]; intros x ?%Hrx; tauto). assert (g ∉ l0) as N4 by (apply Hnot; [done|]; intros x ?%Hgx; tauto).
  assert (forall x, inr r x -> covers (ranges_ s) x) as Hus by (intros; by exists r).
  apply wp_bind. eapply wp_add; [eapply At_perm; [exact Hat|exact Hp|done]|done|set_solver|intros x ?%Hlx; apply Hus; tauto| |].
  { cbn [length]. destruct (is_mod_available_ c); lia. }
  intros h1 Hat1. apply wp_bind. eapply wp_add; [exact Hat1|done|set_solver|intros x ?%Hgx; apply Hus; tauto| |].
  { cbn [length]. destruct (is_mod_available_ c); lia. }
  intros h2 Hat2. apply wp_bind.
  eapply (wp_replace r rgt (lft :: g :: l0)); [eapply At_perm; [exact Hat2|apply perm_321|done]|set_solver|set_solver|done|done
    |right; unfold rgt; by rewrite en_rng|intros x ?%Hrx; apply Hus; tauto| | |].
  { intros x Hx Hnx. rewrite !covers_cons, Hlx, Hgx. rewrite Hrx in Hnx. destruct (decide (x < begin_ g)); [tauto|].
    right; left. split; [done|]. split; [lia|]. destruct (decide (en g <= x)); [tauto|lia]. }
  { unfold room. cbn [length]. destruct (is_mod_available_ c); lia. }
  intros h3 Hat3. apply wp_bind.
  eapply (wp_del _ _ g (lft :: rgt :: l0)); [eapply At_perm; [exact Hat3| |done]|set_solver|by right|].
  { etrans; [apply perm_321|]. apply Permutation_skip. done. }
  intros h4 Hat4. apply wp_bind, wp_erase; [done..|]. fold l0.
  destruct (split_ranges r g _ Hd Hc Hr Hgk Hbg Heg) as (Hd1 & Hd2 & Hcoal & Hcl). fold lft rgt l0 in Hd1, Hd2, Hcoal, Hcl.
  apply wp_bind, wp_emplace; [done|done|]. cbn [ranges_ with_ranges set_ranges].
  apply wp_bind, wp_emplace; [done|done|]. cbn [ranges_ with_ranges set_ranges].
  eapply wp_unuse; [exact Hat4| |].
  - intros x Hx. pose proof (proj1 (Hgx x) Hx) as [Hxr ?]. split; [by apply Hus|]. rewrite !covers_cons, Hlx, Hrx, Hc0. intuition lia.
  - intros h5 Hat5. apply HQ; [|done|rewrite !emplace_length; lia|done].
    constructor; [done| |done]. eapply At_perm; [exact Hat5| |].
    + cbn [ranges_ with_ranges set_ranges]. rewrite !emplace_perm. apply Permutation_swap.
    + intros x. cbn [ranges_ with_ranges set_ranges]. rewrite Hcl. done.
Qed.

Lemma wp_DoOpExtendRangeEnd use o n (Q : bool -> PR -> HW -> Prop) s h :
  Mirror s h -> coal (-1) (ranges_ s) -> o ∈ ranges_ s -> okr n -> begin_ n = begin_ o -> en o < en n ->
  (forall x, en o <= x < en n -> ~ covers (ranges_ s) x) ->
  Z.of_nat (length (ranges_ s)) <= max_logical_range_count_ c ->
  (use (rng (en o) (en n)) = false -> forall h', Mirror s h' -> Q false s h') ->
  (use (rng (en o) (en n)) = true -> forall l h', Mirror (with_ranges l s) h' -> coal (-1) l -> (length l <= length (ranges_ s))%nat ->
     (forall x, covers l x <-> covers (ranges_ s) x \/ en o <= x < en n) -> Q true (with_ranges l s) h') ->
  wp c live (DoOpExtendRangeEnd c use o n) Q s h.
Proof using Hcap.
  clear Hlive. intros HM Hc Ho Hnk Hbe Hlt Hgap Hcount Hf Ht. pose proof HM as [Hd Hat Hb]. destruct (disj_elem _ _ _ Hd Ho) as [_ Hok].
  unfold Capacity in Hcap. unfold DoOpExtendRangeEnd. apply wp_bind, wp_check; [lia|].
  apply wp_bind, wp_check; [rewrite !r_end_ok by done; lia|]. rewrite !r_end_ok by done. rewrite BeginEnd_rng by (unfold okr, en in *; lia).
  set (g := rng (en o) (en n)) in *. assert (okr g) as Hgk by (apply okr_rng; unfold okr, en in *; lia).
  assert (forall x, inr g x <-> en o <= x < en n) as Hgx by (intros x; unfold inr, g; by rewrite en_rng).
  assert (forall x, inr n x <-> inr o x \/ inr g x) as Hnx by (intros x; rewrite Hgx; unfold inr, okr, en in *; lia).
  apply wp_bind. eapply wp_ask; [exact Hat|done|intros x Hx; apply Hgap; by apply Hgx| |].
  { intros E h' Hat'. apply wp_ret. apply Hf; [done|]. by constructor. }
  intros E h1 Hat1. cbn [negb].
  destruct (taken_out o _ Hd Ho) as (Hp & Hlen & Hc0 & N3 & _). set (l0 := erase_by_begin o (ranges_ s)) in *.
  assert (forall x, inr n x -> ~ covers l0 x) as Hnc.
  { intros x Hx. rewrite Hc0. intros [Hcx Hnx']. apply Hnx in Hx as [?|Hg]; [done|]. by apply (Hgap x (proj1 (Hgx x) Hg)). }
  assert (n ∉ l0) as N1 by (by apply covers_not_elem). assert (n <> o) as N2 by (intros ->; lia).
  apply wp_bind. eapply wp_add; [eapply At_perm; [exact Hat1|exact Hp|done]|done|set_solver| | |].
  { intros x [?|?]%Hnx; [left; by exists o|by right]. }
  { cbn [length]. destruct (is_mod_available_ c); lia. }
  intros h2 Hat2. apply wp_bind. eapply wp_del; [eapply At_perm; [exact Hat2|apply Permutation_swap|done]|set_solver| |].
  { left. intros x Hx. apply covers_cons. left. apply Hnx. by left. }
  intros h3 Hat3. apply wp_bind, wp_erase; [done..|]. fold l0.
  assert (disj 0 (insert_by_begin n l0)) as Hd1 by (by apply replaced_disj).
  apply wp_bind, wp_emplace; [done|done|]. cbn [ranges_ with_ranges set_ranges]. set (l1 := insert_by_begin n l0) in *.
  assert (forall x, covers l1 x <-> covers (ranges_ s) x \/ en o <= x < en n) as Hc1.
  { intros x. unfold l1. rewrite emplace_covers, Hnx, Hp, !covers_cons, Hgx. tauto. }
  change (with_ranges l1 (with_ranges l0 s)) with (with_ranges l1 s).
  assert (length l1 = length (ranges_ s)) as Hl1 by (unfold l1; rewrite emplace_length; lia).
  apply wp_bind. apply wp_coalesce.
  - constructor; [done| |done]. eapply At_perm; [exact Hat3|symmetry; apply emplace_perm|].
    intros x. cbn [ranges_ with_ranges set_ranges]. rewrite Hc1, Hgx. done.
  - cbn [ranges_ with_ranges set_ranges]. rewrite Hl1. unfold room. destruct (is_mod_available_ c); lia.
  - cbn [ranges_ with_ranges set_ranges]. intros l h4 HM4 Hc4 Ht4 Hlen4 _. apply wp_ret.
    change (with_ranges l (with_ranges l1 s)) with (with_ranges l s) in *.
    apply Ht; [done|done| |lia|intros x; by rewrite Hc4, Hc1].
    apply (coal_of_disj 0); [apply HM4|]. intros x [(p & q & Hpp & Hq & Ep & Eq) Hx]%Ht4.
    apply emplace_elem in Hpp as [->|Hpp]; [done|]. apply emplace_elem in Hq as [->|Hq].
    + apply erase_elem in Hpp as [_ Hpp]. apply (coal_no_touch _ _ x Hc). exists p, o. split_and!; [done..|lia].
    + apply erase_elem in Hpp as [_ Hpp]. apply erase_elem in Hq as [_ Hq]. apply (coal_no_touch _ _ x Hc). by exists p, q.
Qed.
End ops.
