(* ===== verification/RangeSteps.v ===== *)
(** * RangeSteps: the choice of the next step towards the goal

    The searches of [protected_ranges.cc] ([FindRangeToDelete], [FindRangeToShorten], [FindBestSplit],
    [FindBestMerge]) on two coalesced sets, and the counting arguments that make a step possible whenever the
    hardware ranges differ from the goal. *)
From Stdlib Require Import ZArith Lia Sorted.
From stdpp Require Import prelude sorting.
From S2P Require Import Prelude RangeSets RangeFacts ProtectedRanges RangeGoals RangeHardware RangeOps.

Local Open Scope Z_scope.
Implicit Types (r g : Range) (l : list Range).

(** Two ranges share an address. *)
Definition meets r g : Prop := begin_ r < en g /\ begin_ g < en r.

Section searches.
Context (R G : list Range) (HR : coal (-1) R) (HG : coal (-1) G).

Lemma R_ok r : r ∈ R -> okr r.
Proof using HR. intros Hr. pose proof (coal_ok _ _ HR) as H. rewrite Forall_forall in H. auto. Qed.
Lemma G_ok g : g ∈ G -> okr g.
Proof using HG. intros Hg. pose proof (coal_ok _ _ HG) as H. rewrite Forall_forall in H. auto. Qed.
Lemma G_mono : mono G.
Proof using HG. eapply disj_mono. by apply coal_disj. Qed.

Lemma look_meets r g : okr r -> g ∈ look r G <-> g ∈ G /\ meets r g.
Proof using HG.
  intros Hr. rewrite look_elem by (done || apply G_mono). split; intros [Hg Hm]; (split; [done|]).
  - by apply IsOverlap_spec in Hm; [|done|apply G_ok].
  - by apply IsOverlap_spec; [done|apply G_ok|].
Qed.

(** ** [FindRangeToDelete] *)

Lemma find_delete_in l :
  (forall r, r ∈ l -> r ∈ R) ->
  match FindRangeToDelete l G with
  | Some r => r ∈ l /\ forall g, g ∈ G -> ~ meets r g
  | None => forall r, r ∈ l -> exists g, g ∈ G /\ meets r g
  end.
Proof using HR HG.
  induction l as [|r l IH]; intros Hin; simpl; [intros r Hr; by apply not_elem_of_nil in Hr|].
  pose proof (R_ok r (Hin r ltac:(by left))) as Hr.
  destruct (existsb (IsOverlap r) (look r G)) eqn:E.
  - apply existsb_exists in E as (g & Hg%list_elem_of_In & _). apply look_meets in Hg as [Hg Hm]; [|done].
    specialize (IH ltac:(intros; apply Hin; by right)). destruct (FindRangeToDelete l G).
    + destruct IH. split; [by right|done].
    + intros q [->|Hq]%elem_of_cons; eauto.
  - split; [by left|]. intros g Hg Hm.
    assert (existsb (IsOverlap r) (look r G) = true); [|congruence]. apply existsb_exists. exists g.
    split; [apply list_elem_of_In, look_meets; done|]. apply IsOverlap_spec; [done|by apply G_ok|done].
Qed.

(** ** [FindRangeToShorten] *)

Lemma min_begin_spec r l :
  (forall g, g ∈ l -> IsOverlap r g = true) ->
  match min_begin r l with
  | Some b => exists g, g ∈ l /\ b = begin_ g /\ forall g', g' ∈ l -> b <= begin_ g'
  | None => l = []
  end.
Proof using Type.
  intros Hl. unfold min_begin.
  assert (forall m, match fold_left (fun m g => if IsOverlap r g then match m with Some b => if begin_ g <? b then Some (begin_ g) else m | None => Some (begin_ g) end else m) l m with
    | Some b => (m = Some b \/ exists g, g ∈ l /\ b = begin_ g) /\ (forall g', g' ∈ l -> b <= begin_ g') /\ (forall b', m = Some b' -> b <= b')
    | None => m = None /\ l = [] end) as H.
  { induction l as [|g l IH]; intros m; cbn [fold_left].
    - destruct m; [|done]. split_and!; [by left|intros g' Hg'; by apply not_elem_of_nil in Hg'|intros ? [= ->]; lia].
    - rewrite (Hl g) by (by left).
      specialize (IH ltac:(intros; apply Hl; by right) (match m with Some b => if begin_ g <? b then Some (begin_ g) else m | None => Some (begin_ g) end)).
      destruct (fold_left _ l _) as [b|].
      + destruct IH as (H1 & H2 & H3). assert (b <= begin_ g /\ forall b', m = Some b' -> b <= b') as [H4 H5].
        { destruct m as [b0|]; [|split; [by apply H3|done]]. destruct (Z.ltb_spec (begin_ g) b0).
          - specialize (H3 _ eq_refl). split; [done|]. intros ? [= <-]. lia.
          - specialize (H3 _ eq_refl). split; [lia|]. by intros ? [= <-]. }
        split_and!; [|intros g' [->|Hg']%elem_of_cons; [done|by apply H2]|done].
        destruct H1 as [H1|(g' & Hg' & ->)]; [|right; exists g'; split; [by right|done]].
        destruct m as [b0|]; [destruct (begin_ g <? b0)|]; simplify_eq; [right; exists g; split; [by left|done]|by left|right; exists g; split; [by left|done]].
      + destruct IH as [H1 _]. destruct m as [b0|]; [destruct (begin_ g <? b0)|]; done. }
  specialize (H None). destruct (fold_left _ l None) as [b|]; [|by destruct H].
  destruct H as ([?|(g & Hg & ->)] & H2 & _); [done|]. eauto.
Qed.

Lemma max_end_spec r l :
  (forall g, g ∈ l -> IsOverlap r g = true) -> Forall okr l ->
  match max_end r l with
  | Some e => exists g, g ∈ l /\ e = en g /\ forall g', g' ∈ l -> en g' <= e
  | None => l = []
  end.
Proof using Type.
  intros Hl Hok. unfold max_end.
  assert (forall m, match fold_left (fun m g => if IsOverlap r g then match m with Some e => if e <? r_end g then Some (r_end g) else m | None => Some (r_end g) end else m) l m with
    | Some b => (m = Some b \/ exists g, g ∈ l /\ b = en g) /\ (forall g', g' ∈ l -> en g' <= b) /\ (forall b', m = Some b' -> b' <= b)
    | None => m = None /\ l = [] end) as H.
  { induction Hok as [|g l Hg Hok IH]; intros m; cbn [fold_left].
    - destruct m; [|done]. split_and!; [by left|intros g' Hg'; by apply not_elem_of_nil in Hg'|intros ? [= ->]; lia].
    - rewrite (Hl g) by (by left). rewrite r_end_ok by done.
      specialize (IH ltac:(intros; apply Hl; by right) (match m with Some b => if b <? en g then Some (en g) else m | None => Some (en g) end)).
      destruct (fold_left _ l _) as [b|].
      + destruct IH as (H1 & H2 & H3). assert (en g <= b /\ forall b', m = Some b' -> b' <= b) as [H4 H5].
        { destruct m as [b0|]; [|split; [by apply H3|done]]. destruct (Z.ltb_spec b0 (en g)).
          - specialize (H3 _ eq_refl). split; [done|]. intros ? [= <-]. lia.
          - specialize (H3 _ eq_refl). split; [lia|]. by intros ? [= <-]. }
        split_and!; [|intros g' [->|Hg']%elem_of_cons; [done|by apply H2]|done].
        destruct H1 as [H1|(g' & Hg' & ->)]; [|right; exists g'; split; [by right|done]].
        destruct m as [b0|]; [destruct (b0 <? en g)|]; simplify_eq; [right; exists g; split; [by left|done]|by left|right; exists g; split; [by left|done]].
      + destruct IH as [H1 _]. destruct m as [b0|]; [destruct (b0 <? en g)|]; done. }
  specialize (H None). destruct (fold_left _ l None) as [b|]; [|by destruct H].
  destruct H as ([?|(g & Hg & ->)] & H2 & _); [done|]. eauto.
Qed.

Lemma find_shorten_in l :
  (forall r, r ∈ l -> r ∈ R) ->
  match FindRangeToShorten l G with
  | Some (o, n) =>
      o ∈ l /\ okr n /\ (begin_ o = begin_ n /\ en n < en o \/ en o = en n /\ begin_ o < begin_ n) /\
      (forall x, inr o x -> ~ inr n x -> ~ covers G x) /\
      (begin_ n = begin_ o \/ exists g, g ∈ G /\ begin_ n = begin_ g) /\ (en n = en o \/ exists g, g ∈ G /\ en n = en g)
  | None =>
      forall r, r ∈ l -> (exists g, g ∈ G /\ meets r g) ->
      (exists g, g ∈ G /\ meets r g /\ begin_ g <= begin_ r) /\ (exists g, g ∈ G /\ meets r g /\ en r <= en g)
  end.
Proof using HR HG.
  induction l as [|r l IH]; intros Hin; simpl; [intros r Hr; by apply not_elem_of_nil in Hr|].
  pose proof (R_ok r (Hin r ltac:(by left))) as Hr. specialize (IH ltac:(intros; apply Hin; by right)).
  assert (forall g, g ∈ look r G -> IsOverlap r g = true) as Hov.
  { intros g [Hg Hm]%look_meets; [|done]. apply IsOverlap_spec; [done|by apply G_ok|done]. }
  assert (Forall okr (look r G)) as Hlok.
  { apply Forall_forall. intros g [Hg _]%look_meets; [|done]. by apply G_ok. }
  pose proof (min_begin_spec r (look r G) Hov) as Hmin. pose proof (max_end_spec r (look r G) Hov Hlok) as Hmax.
  assert (match FindRangeToShorten l G with
    | Some (o, n) => o ∈ r :: l /\ okr n /\ (begin_ o = begin_ n /\ en n < en o \/ en o = en n /\ begin_ o < begin_ n) /\ (forall x, inr o x -> ~ inr n x -> ~ covers G x) /\
        (begin_ n = begin_ o \/ exists g, g ∈ G /\ begin_ n = begin_ g) /\ (en n = en o \/ exists g, g ∈ G /\ en n = en g)
    | None => forall q, q ∈ l -> (exists g, g ∈ G /\ meets q g) -> (exists g, g ∈ G /\ meets q g /\ begin_ g <= begin_ q) /\ (exists g, g ∈ G /\ meets q g /\ en q <= en g) end) as IH'.
  { destruct (FindRangeToShorten l G) as [[o n]|]; [|done]. destruct IH as (? & ? & ?). split_and!; [by right|tauto..]. }
  clear IH. destruct (min_begin r (look r G)) as [b|] eqn:Emin.
  - destruct Hmin as (g1 & Hg1 & -> & Hmin). apply look_meets in Hg1 as [Hg1 Hm1]; [|done]. pose proof (G_ok _ Hg1) as Hk1.
    destruct (Z.ltb_spec (begin_ r) (begin_ g1)) as [Hlt|Hge].
    { unfold meets in Hm1. rewrite r_end_ok, BeginEnd_rng by (done || (unfold okr, en in *; lia)). split_and!.
      - by left.
      - apply okr_rng; unfold okr, en in *; lia.
      - right. rewrite en_rng. simpl. lia.
      - intros x Hx Hn (g & Hg & Hxg). assert (g ∈ look r G) as Hgl by (apply look_meets; [done|]; split; [done|]; unfold meets, inr in *; lia).
        specialize (Hmin _ Hgl). apply Hn. unfold inr in *. rewrite en_rng. simpl. lia.
      - right. eauto.
      - left. by rewrite en_rng. }
    destruct (max_end r (look r G)) as [e|] eqn:Emax.
    + destruct Hmax as (g2 & Hg2 & -> & Hmax). apply look_meets in Hg2 as [Hg2 Hm2]; [|done]. pose proof (G_ok _ Hg2) as Hk2.
      rewrite r_end_ok by done. destruct (Z.ltb_spec (en g2) (en r)) as [Hlt2|Hge2].
      * unfold meets in Hm2. rewrite BeginEnd_rng by (unfold okr, en in *; lia). split_and!.
        -- by left.
        -- apply okr_rng; unfold okr, en in *; lia.
        -- left. rewrite en_rng. done.
        -- intros x Hx Hn (g & Hg & Hxg). assert (g ∈ look r G) as Hgl by (apply look_meets; [done|]; split; [done|]; unfold meets, inr in *; lia).
           specialize (Hmax _ Hgl). apply Hn. unfold inr in *. rewrite en_rng. simpl. lia.
        -- by left.
        -- right. exists g2. by rewrite en_rng.
      * destruct (FindRangeToShorten l G) as [[o n]|]; [done|]. intros q [->|Hq]%elem_of_cons Hm; [|by apply IH'].
        split; [exists g1|exists g2]; done.
    + assert (g1 ∈ look r G) as Hgl by (by apply look_meets). rewrite Hmax in Hgl. by apply not_elem_of_nil in Hgl.
  - destruct (FindRangeToShorten l G) as [[o n]|]; [done|]. intros q [->|Hq]%elem_of_cons Hm; [|by apply IH'].
    destruct Hm as (g & Hg & Hm). assert (g ∈ look r G) as Hgl by (by apply look_meets). rewrite Hmin in Hgl. by apply not_elem_of_nil in Hgl.
Qed.

(** ** [FindBestSplit] *)

(** Is the gap strictly inside the range? *)
Lemma inside_spec r d :
  okr r -> okr d -> IsCoveredBy d (BeginEnd (u64 (begin_ r + 1)) (u64 (r_end r - 1))) = true <-> begin_ r < begin_ d /\ en d < en r.
Proof using Type.
  intros Hr Hd. rewrite (r_end_ok r) by done. rewrite !u64_small by (unfold is_u64, okr, en in *; lia).
  unfold IsCoveredBy. rewrite (r_end_ok d) by done.
  destruct (decide (2 <= length_ r)).
  - rewrite BeginEnd_rng by (unfold okr, en in *; lia). rewrite rng_end by (unfold okr, en in *; lia).
    cbn [begin_ rng]. rewrite andb_true_iff, !Z.leb_le. unfold okr, en in *. lia.
  - assert (en r = begin_ r + 1) as -> by (unfold okr, en in *; lia). rewrite Z.add_simpl_r.
    unfold BeginEnd, r_end. cbn [begin_ length_]. 
    unfold u64. rewrite Zplus_mod_idemp_r. replace (begin_ r + 1 + (begin_ r - (begin_ r + 1))) with (begin_ r) by lia.
    rewrite Z.mod_small by (unfold okr, en in *; lia). rewrite andb_true_iff, !Z.leb_le. unfold okr, en in *. lia.
Qed.

Definition splittable r d : Prop := d ∈ gaps (look r G) /\ begin_ r < begin_ d /\ en d < en r.

Lemma look_coal r : okr r -> coal (-1) (look r G).
Proof using HG. intros Hr. rewrite look_filter by (done || apply G_mono). by apply coal_filter. Qed.

Lemma split_in_spec r best :
  okr r ->
  match split_in r G best with
  | Some (o, d) => best = Some (o, d) \/ o = r /\ splittable r d
  | None => best = None /\ forall d, ~ splittable r d
  end.
Proof using HG.
  intros Hr. unfold split_in, splittable. pose proof (gaps_coal _ _ (look_coal r Hr)) as Hc.
  assert (Forall okr (gaps (look r G))) as Hok by (by eapply coal_ok). clear Hc. revert best.
  induction Hok as [|d ds Hd Hok IH]; intros best; cbn [fold_left].
  { destruct best as [[o d]|]; [by left|]. split; [done|]. intros d [H _]. by apply not_elem_of_nil in H. }
  cbn zeta in IH |- *.
  set (b1 := if match best with Some (_, g) => length_ d <=? length_ g | None => false end then best
    else if IsCoveredBy d (BeginEnd (u64 (begin_ r + 1)) (u64 (r_end r - 1))) then Some (r, d) else best).
  specialize (IH b1). destruct (fold_left _ ds b1) as [[o e]|].
  - destruct IH as [IH|[-> IH]]; [|right; split; [done|]; destruct IH; split; [by right|done]].
    unfold b1 in IH. destruct (match best with Some (_, g) => length_ d <=? length_ g | None => false end); [by left|].
    destruct (IsCoveredBy d _) eqn:E; [|by left]. injection IH as <- <-. right. split; [done|]. split; [by left|].
    by apply inside_spec in E.
  - destruct IH as [IH1 IH2]. unfold b1 in IH1. destruct best as [[? ?]|].
    + repeat case_match; done.
    + destruct (IsCoveredBy d _) eqn:E; [done|]. split; [done|]. intros e [[->|He]%elem_of_cons Hin]; [|by apply (IH2 e)].
      apply (inside_spec r d Hr Hd) in Hin. congruence.
Qed.

Lemma find_split_in l :
  (forall r, r ∈ l -> r ∈ R) -> forall best,
  match fold_left (fun best r => split_in r G best) l best with
  | Some (o, d) => best = Some (o, d) \/ o ∈ l /\ splittable o d
  | None => best = None /\ forall r d, r ∈ l -> ~ splittable r d
  end.
Proof using HR HG.
  induction l as [|r l IH]; intros Hin best; cbn [fold_left].
  { destruct best as [[o d]|]; [by left|]. split; [done|]. intros r d H. by apply not_elem_of_nil in H. }
  pose proof (split_in_spec r best (R_ok r (Hin r ltac:(by left)))) as H1.
  specialize (IH ltac:(intros; apply Hin; by right) (split_in r G best)). destruct (fold_left _ l _) as [[o d]|].
  - destruct IH as [IH|[? ?]]; [|right; split; [by right|done]]. rewrite IH in H1.
    destruct H1 as [?|[-> ?]]; [by left|right; split; [by left|done]].
  - destruct IH as [IH1 IH2]. rewrite IH1 in H1. destruct H1 as [-> H1]. split; [done|].
    intros q d [->|Hq]%elem_of_cons; [apply H1|by apply IH2].
Qed.

(** A gap found in a range is outside the goal and inside the range. *)
Lemma splittable_spec r d :
  okr r -> splittable r d -> okr d /\ begin_ r < begin_ d /\ en d < en r /\ forall x, inr d x -> ~ covers G x.
Proof using HG.
  intros Hr [Hd [H1 H2]]. apply (gaps_elem _ _ _ (look_coal r Hr)) in Hd as (Hdk & _ & _ & Hn). split_and!; [done..|].
  intros x Hx (g & Hg & Hxg). apply (Hn x Hx). exists g. split; [|done]. apply look_meets; [done|]. split; [done|].
  unfold meets, inr, okr, en in *. lia.
Qed.

Lemma splittable_ends r d : okr r -> splittable r d -> covers G (begin_ d - 1) /\ covers G (en d).
Proof using HG.
  intros Hr [Hd _]. apply (gaps_elem _ _ _ (look_coal r Hr)) in Hd as (_ & (g1 & Hg1 & ?) & (g2 & Hg2 & ?) & _).
  apply look_meets in Hg1 as [Hg1 _]; [|done]. apply look_meets in Hg2 as [Hg2 _]; [|done]. split; [exists g1|exists g2]; done.
Qed.

(** A range that meets two goal ranges can be split. *)
Lemma meets_two r g1 g2 : okr r -> g1 ∈ G -> g2 ∈ G -> g1 <> g2 -> meets r g1 -> meets r g2 -> exists d, splittable r d.
Proof using HG.
  intros Hr Hg1 Hg2 Hne Hm1 Hm2. pose proof (look_coal r Hr) as Hc.
  assert (g1 ∈ look r G) as Hl1 by (by apply look_meets). assert (g2 ∈ look r G) as Hl2 by (by apply look_meets).
  assert (forall g, g ∈ look r G -> meets r g) as Hall by (intros g ?%look_meets; tauto).
  destruct (look r G) as [|a [|d l]] eqn:El.
  - by apply not_elem_of_nil in Hl1.
  - apply list_elem_of_singleton in Hl1, Hl2. congruence.
  - destruct Hc as (_ & Ha & Hlt & Hd & _). exists (rng (en a) (begin_ d)). unfold splittable. rewrite El, gaps_cons by done.
    pose proof (Hall a ltac:(by left)) as [? ?]. pose proof (Hall d ltac:(right; by left)) as [? ?].
    split; [by left|]. rewrite en_rng. cbn [begin_ rng]. done.
Qed.

Lemma splittable_two r d : okr r -> splittable r d -> exists g1 g2, g1 ∈ G /\ g2 ∈ G /\ g1 <> g2 /\ meets r g1 /\ meets r g2.
Proof using HG.
  intros Hrk [Hd Hin]. apply (gaps_elem _ _ _ (look_coal r Hrk)) in Hd as (Hdk & (g1 & Hg1 & Hx1) & (g2 & Hg2 & Hx2) & Hn).
  assert (g1 <> g2) as Hne.
  { intros <-. apply (Hn (begin_ d)); [unfold inr, okr, en in *; lia|]. exists g1. split; [done|]. unfold inr, okr, en in *. lia. }
  apply look_meets in Hg1 as [Hg1 Hm1]; [|done..]. apply look_meets in Hg2 as [Hg2 Hm2]; [|done..]. by exists g1, g2.
Qed.

(** ** [FindBestMerge] *)

(** Neighbours in a list. *)
Definition neighbours l r1 r2 : Prop := exists l1 l2, l = l1 ++ r1 :: r2 :: l2.

(** Their gap is covered by one goal range. *)
Definition mergeable r1 r2 : Prop := exists g, g ∈ G /\ begin_ g <= en r1 /\ begin_ r2 <= en g.

Lemma covering_spec r1 r2 :
  okr r1 -> okr r2 -> en r1 < begin_ r2 ->
  match filter (fun g => IsCoveredBy (rng (en r1) (begin_ r2)) g = true) (look (rng (en r1) (begin_ r2)) G) with
  | [] => ~ mergeable r1 r2
  | [_] => mergeable r1 r2
  | _ => False
  end.
Proof using HG.
  intros H1 H2 Hlt. assert (okr (rng (en r1) (begin_ r2))) as Hk by (apply okr_rng; unfold okr, en in *; lia).
  set (d := rng (en r1) (begin_ r2)) in *.
  assert (forall g, g ∈ filter (fun g => IsCoveredBy d g = true) (look d G) <-> g ∈ G /\ begin_ g <= en r1 /\ begin_ r2 <= en g) as Hel.
  { intros g. rewrite list_elem_of_filter, look_meets by done. unfold IsCoveredBy, meets. unfold d. rewrite en_rng. cbn [begin_ rng].
    split.
    - intros [Hc [Hg _]]. rewrite rng_end, (r_end_ok g) in Hc by (apply G_ok || (unfold okr, en in *; lia); done).
      split; [done|]. apply andb_true_iff in Hc as [? ?]. lia.
    - intros (Hg & ? & ?). pose proof (G_ok _ Hg). rewrite rng_end, (r_end_ok g) by (done || (unfold okr, en in *; lia)).
      split; [apply andb_true_iff; lia|]. split; [done|]. lia. }
  assert (NoDup (filter (fun g => IsCoveredBy d g = true) (look d G))) as Hnd.
  { apply NoDup_filter. eapply disj_NoDup, coal_disj. by apply look_coal. }
  destruct (filter _ _) as [|g [|g' l]].
  - intros (g & Hg & ? & ?). assert (g ∈ @nil Range) as E by (by apply Hel). by apply not_elem_of_nil in E.
  - assert (g ∈ [g]) as Hg%Hel by (by left). exists g. tauto.
  - assert (g ∈ g :: g' :: l) as Hg%Hel by (by left). assert (g' ∈ g :: g' :: l) as Hg'%Hel by (right; by left).
    apply NoDup_cons in Hnd as [Hnd _]. apply Hnd.
    assert (g = g') as ->; [|by left]. apply (disj_inr_eq (-1 + 1) G g g' (en r1)); [by apply coal_disj|tauto|tauto|unfold inr; lia|unfold inr; lia].
Qed.

Lemma best_merge_spec prev l best :
  (forall r, r ∈ prev :: l -> okr r) -> coal (begin_ prev - 1) (prev :: l) ->
  exists res, best_merge prev l G best = Done res /\
  match res with
  | Some (n, (r1, r2)) => best = res \/ neighbours (prev :: l) r1 r2 /\ mergeable r1 r2
  | None => best = None /\ forall r1 r2, neighbours (prev :: l) r1 r2 -> ~ mergeable r1 r2
  end.
Proof using HG.
  revert prev best. induction l as [|r l IH]; intros prev best Hok Hc.
  { exists best. split; [done|]. destruct best as [[n [r1 r2]]|]; [by left|]. split; [done|].
    intros r1 r2 (l1 & l2 & E). destruct l1 as [|? [|]]; done. }
  pose proof Hc as (_ & Hpk & Hc1). pose proof Hc1 as (Hlt & Hrk & Hc2).
  assert (forall r1 r2, neighbours (prev :: r :: l) r1 r2 <-> prev = r1 /\ r = r2 \/ neighbours (r :: l) r1 r2) as Hnb.
  { intros r1 r2. split.
    - intros ([|q l1] & l2 & E); simpl in E.
      + injection E as -> -> _. by left.
      + injection E as _ E. right. by exists l1, l2.
    - intros [[-> ->]|(l1 & l2 & E)]; [by exists [], l|]. exists (prev :: l1), l2. simpl. by rewrite E. }
  assert (forall best, exists res, best_merge r l G best = Done res /\
    match res with Some (n, (r1, r2)) => best = res \/ neighbours (r :: l) r1 r2 /\ mergeable r1 r2
    | None => best = None /\ forall r1 r2, neighbours (r :: l) r1 r2 -> ~ mergeable r1 r2 end) as IH'.
  { intros best'. apply IH; [intros; apply Hok; by right|]. simpl. split_and!; [lia|done|done]. }
  cbn [best_merge]. cbn zeta. rewrite (r_end_ok prev) by done. rewrite BeginEnd_rng by (unfold okr, en in *; lia).
  pose proof (covering_spec prev r Hpk Hrk Hlt) as Hcov.
  destruct (match best with Some (size, _) => size <=? length_ (rng (en prev) (begin_ r)) | None => false end) eqn:Eb.
  - destruct (IH' best) as (res & E & H). exists res. split; [done|]. destruct res as [[n [r1 r2]]|].
    + destruct H as [H|[H H']]; [by left|right]. split; [|done]. apply Hnb. by right.
    + destruct H as [-> H]. done.
  - destruct (filter _ _) as [|g [|g' l']]; [| |done].
    + destruct (IH' best) as (res & E & H). exists res. split; [done|]. destruct res as [[n [r1 r2]]|].
      * destruct H as [H|[H H']]; [by left|right]. split; [|done]. apply Hnb. by right.
      * destruct H as [-> H]. split; [done|]. intros r1 r2 [[<- <-]|Hn]%Hnb; [done|by apply H].
    + destruct (IH' (Some (length_ (rng (en prev) (begin_ r)), (prev, r)))) as (res & E & H). exists res. split; [done|].
      destruct res as [[n [r1 r2]]|].
      * right. destruct H as [H|[H H']]; [injection H as _ <- <-; split; [apply Hnb; by left|done]|split; [apply Hnb; by right|done]].
      * by destruct H as [? _].
Qed.

Lemma find_merge :
  exists res, FindBestMerge R G = Done res /\
  match res with
  | Some (r1, r2) => neighbours R r1 r2 /\ mergeable r1 r2
  | None => forall r1 r2, neighbours R r1 r2 -> ~ mergeable r1 r2
  end.
Proof using HR HG.
  unfold FindBestMerge. pose proof R_ok as Hok. destruct R as [|r l] eqn:E.
  { exists None. split; [done|]. intros r1 r2 (l1 & l2 & E'). by destruct l1. }
  destruct (best_merge_spec r l None Hok) as (res & Eb & H).
  { destruct HR as (? & ? & ?). simpl. split_and!; [lia|done..]. }
  rewrite Eb. unfold exec_bind. destruct res as [[n [r1 r2]]|]; simpl.
  - exists (Some (r1, r2)). split; [done|]. destruct H as [?|?]; done.
  - exists None. split; [done|]. tauto.
Qed.

Lemma neighbours_spec r1 r2 :
  neighbours R r1 r2 -> r1 ∈ R /\ r2 ∈ R /\ en r1 < begin_ r2 /\ forall x, en r1 <= x < begin_ r2 -> ~ covers R x.
Proof using HR HG.
  intros (l1 & l2 & E). assert (r1 ∈ R) as H1 by (rewrite E; set_solver). assert (r2 ∈ R) as H2 by (rewrite E; set_solver).
  split_and!; [done|done| |].
  - assert (coal (-1) (l1 ++ r1 :: r2 :: l2)) as Hc by (by rewrite <- E). clear -Hc. revert Hc. generalize (-1). induction l1 as [|a l1 IH]; intros lo Hc.
    + destruct Hc as (_ & _ & ? & _). done.
    + destruct Hc as (_ & _ & Hc). by eapply IH.
  - intros x Hx (q & Hq & Hxq). pose proof (coal_disj _ _ HR) as Hd. simpl in Hd.
    pose proof (disj_in_order _ _ Hd) as Ho.
    pose proof (R_ok _ H1) as Hk1. pose proof (R_ok _ H2) as Hk2. unfold okr in Hk1, Hk2. unfold en in Hk1, Hk2.
    destruct (disj_pair _ _ q r1 Hd Hq H1) as [->|[?|?]]; [unfold inr in *; lia|unfold inr, en in *; lia|].
    destruct (disj_pair _ _ q r2 Hd Hq H2) as [->|[?|?]]; [unfold inr in *; lia| |unfold inr, en in *; lia].
    rewrite E in Hq, Ho. apply elem_of_app in Hq as [Hq|Hq].
    + pose proof (StronglySorted_app_1_elem_of _ _ _ q r1 Ho Hq ltac:(by left)) as Hle. apply by_begin_ge in Hle.
      pose proof (R_ok _ H1). unfold okr, en in *. lia.
    + apply elem_of_cons in Hq as [->|Hq]; [unfold inr in *; lia|]. apply elem_of_cons in Hq as [->|Hq]; [unfold inr in *; lia|].
      apply StronglySorted_app_1_r in Ho. apply StronglySorted_inv in Ho as [Ho _]. apply StronglySorted_inv in Ho as [_ Ho].
      rewrite Forall_forall in Ho. specialize (Ho _ Hq). apply by_begin_ge in Ho. unfold inr in *. lia.
Qed.

(** Two ranges that meet one goal range: a pair of neighbours can be merged. *)
Lemma meets_shared r1 r2 g :
  r1 ∈ R -> r2 ∈ R -> r1 <> r2 -> g ∈ G -> meets r1 g -> meets r2 g -> exists q1 q2, neighbours R q1 q2 /\ mergeable q1 q2.
Proof using HR HG.
  intros H1 H2 Hne Hg Hm1 Hm2. pose proof (coal_disj _ _ HR) as Hd. simpl in Hd.
  assert (forall r1 r2, r1 ∈ R -> r2 ∈ R -> en r1 <= begin_ r2 -> meets r1 g -> meets r2 g -> exists q1 q2, neighbours R q1 q2 /\ mergeable q1 q2) as Hw.
  { clear r1 r2 H1 H2 Hne Hm1 Hm2. intros r1 r2 H1 H2 Hle Hm1 Hm2.
    apply list_elem_of_split in H1 as (l1 & l2 & E). destruct l2 as [|q l2].
    - exfalso. pose proof (disj_in_order _ _ Hd) as Ho. rewrite E in Ho, H2. apply elem_of_app in H2 as [H2|H2%list_elem_of_singleton].
      + pose proof (StronglySorted_app_1_elem_of _ _ _ r2 r1 Ho H2 ltac:(by left)) as Hb. apply by_begin_ge in Hb.
        assert (r1 ∈ R) as Hr1 by (rewrite E; set_solver). pose proof (R_ok _ Hr1). unfold okr, en in *. lia.
      + rewrite H2 in *. assert (r1 ∈ R) as Hr1 by (rewrite E; set_solver). pose proof (R_ok _ Hr1). unfold okr, en in *. lia.
    - exists r1, q. split; [by exists l1, l2|]. exists g. unfold meets in *. split_and!; [done|lia|].
      assert (begin_ q <= begin_ r2); [|lia]. pose proof (disj_in_order _ _ Hd) as Ho.
      assert (r1 ∈ R) as Hr1 by (rewrite E; set_solver). pose proof (R_ok _ Hr1) as Hk1.
      rewrite E in Ho, H2. apply elem_of_app in H2 as [H2|H2].
      + pose proof (StronglySorted_app_1_elem_of _ _ _ r2 r1 Ho H2 ltac:(by left)) as Hb. apply by_begin_ge in Hb. unfold okr, en in *. lia.
      + apply elem_of_cons in H2 as [->|H2]; [unfold okr, en in *; lia|]. apply elem_of_cons in H2 as [->|H2]; [lia|].
        apply StronglySorted_app_1_r in Ho. apply StronglySorted_inv in Ho as [Ho _]. apply StronglySorted_inv in Ho as [_ Ho].
        rewrite Forall_forall in Ho. specialize (Ho _ H2). apply by_begin_ge in Ho. lia. }
  destruct (disj_pair _ _ _ _ Hd H1 H2) as [|[?|?]]; [done|by apply (Hw r1 r2)|by apply (Hw r2 r1)].
Qed.
End searches.

#[global] Instance meets_dec r g : Decision (meets r g).
Proof. unfold meets. apply _. Defined.

(** A goal range that meets a range. *)
Definition partner (G : list Range) r : Range := default (mkRange 0 0) (find (fun g => bool_decide (meets r g)) G).

Lemma partner_spec G r : (exists g, g ∈ G /\ meets r g) -> partner G r ∈ G /\ meets r (partner G r).
Proof.
  intros (g & Hg & Hm). unfold partner. destruct (find _ G) as [a|] eqn:E.
  - apply find_some in E as [Ha%list_elem_of_In Hi%bool_decide_eq_true]. done.
  - pose proof (find_none _ _ E g ltac:(by apply list_elem_of_In)) as H. by apply bool_decide_eq_false in H.
Qed.

(** ** Counting *)

Section counting.
Context (R G : list Range) (HR : coal (-1) R) (HG : coal (-1) G).
Context (Hmeet : forall r, r ∈ R -> exists g, g ∈ G /\ meets r g).
Context (Hnomerge : forall r1 r2, neighbours R r1 r2 -> ~ mergeable G r1 r2).

(** Without a merge to do, no goal range meets two ranges. *)
Lemma alone r1 r2 g : r1 ∈ R -> r2 ∈ R -> g ∈ G -> meets r1 g -> meets r2 g -> r1 = r2.
Proof using HR HG Hnomerge.
  intros H1 H2 Hg Hm1 Hm2. destruct (decide (r1 = r2)) as [|Hne]; [done|]. exfalso.
  destruct (meets_shared R G HR HG r1 r2 g) as (q1 & q2 & Hn & Hmg); [done..|]. by apply (Hnomerge q1 q2).
Qed.

Lemma partners_NoDup : NoDup (map (partner G) R).
Proof using All.
  apply NoDup_fmap_2_strong; [|eapply disj_NoDup; by apply coal_disj].
  intros r1 r2 H1 H2 E. destruct (partner_spec G r1 (Hmeet _ H1)) as [Hp1 Hm1]. destruct (partner_spec G r2 (Hmeet _ H2)) as [_ Hm2].
  rewrite <- E in Hm2. by apply (alone r1 r2 (partner G r1)).
Qed.

Lemma partners_sub g : g ∈ map (partner G) R -> g ∈ G.
Proof using Hmeet. intros (r & -> & Hr)%list_elem_of_fmap. by apply partner_spec, Hmeet. Qed.

(** There is a goal range for every range. *)
Lemma count_ranges : (length R <= length G)%nat.
Proof using All.
  rewrite <- (length_map (partner G) R). apply submseteq_length, NoDup_submseteq; [apply partners_NoDup|apply partners_sub].
Qed.

(** There is one more when a range can be split. *)
Lemma count_ranges_split r d : r ∈ R -> splittable G r d -> (S (length R) <= length G)%nat.
Proof using All.
  intros Hr Hd. destruct (splittable_two G HG r d (R_ok _ HR _ Hr) Hd) as (g1 & g2 & Hg1 & Hg2 & Hne & Hm1 & Hm2).
  assert (exists g, g ∈ G /\ meets r g /\ g <> partner G r) as (g & Hg & Hm & Hgp).
  { destruct (decide (g1 = partner G r)) as [->|]; [exists g2|exists g1]; auto. }
  assert (g :: map (partner G) R ⊆+ G) as Hsub.
  { apply NoDup_submseteq.
    - apply NoDup_cons. split; [|apply partners_NoDup]. intros (q & -> & Hq)%list_elem_of_fmap.
      destruct (partner_spec G q (Hmeet _ Hq)) as [_ Hmq]. apply Hgp. by rewrite (alone r q (partner G q)).
    - intros q [->|Hq]%elem_of_cons; [done|by apply partners_sub]. }
  apply submseteq_length in Hsub. simpl in Hsub. by rewrite length_map in Hsub.
Qed.
End counting.

(** ** At the goal *)

Section at_goal.
Context (c : Config) (required R G : list Range) (HR : coal (-1) R) (HGo : Goal c required G).
Context (Hcov : forall x, covers required x -> covers R x) (Hcount : Z.of_nat (length R) <= max_logical_range_count_ c).
Context (Hmeet : forall r, r ∈ R -> exists g, g ∈ G /\ meets r g).
Context (Hnosplit : forall r d, r ∈ R -> ~ splittable G r d).

Lemma one_goal r g1 g2 : r ∈ R -> g1 ∈ G -> g2 ∈ G -> meets r g1 -> meets r g2 -> g1 = g2.
Proof using HR HGo Hnosplit.
  intros Hr H1 H2 Hm1 Hm2. destruct (decide (g1 = g2)) as [|Hne]; [done|]. exfalso.
  destruct (meets_two G (goal_coal _ _ _ HGo) r g1 g2) as [d Hd]; [by eapply R_ok|done..|]. by apply (Hnosplit r d).
Qed.

(** The range at the begin of a goal range. *)
Lemma at_begin g : g ∈ G -> pick R (begin_ g) ∈ R /\ inr (pick R (begin_ g)) (begin_ g) /\ meets (pick R (begin_ g)) g.
Proof using HR HGo Hcov.
  intros Hg. destruct (goal_ends _ _ _ HGo g Hg) as [Hb _]. destruct (pick_spec R (begin_ g) (Hcov _ Hb)) as [H1 H2].
  split_and!; [done..|]. pose proof (coal_ok _ _ (goal_coal _ _ _ HGo)) as Hok. rewrite Forall_forall in Hok. specialize (Hok _ Hg).
  unfold meets, inr, okr, en in *. lia.
Qed.

(** A goal range is inside one range, when all ranges are needed for the goal. *)
Lemma goal_inside g : Z.of_nat (length G) = max_logical_range_count_ c -> g ∈ G -> exists r, r ∈ R /\ begin_ r <= begin_ g /\ en g <= en r.
Proof using HR HGo Hcov Hcount Hnosplit.
  intros Hlen Hg. pose proof (goal_coal _ _ _ HGo) as HG. pose proof (coal_ok _ _ HG) as Hok. rewrite Forall_forall in Hok.
  destruct (goal_ends _ _ _ HGo g Hg) as [_ He]. destruct (pick_spec R (en g - 1) (Hcov _ He)) as [H1 H2].
  assert (NoDup (map (fun g => pick R (begin_ g)) G)) as Hnd.
  { apply NoDup_fmap_2_strong; [|eapply disj_NoDup; by apply coal_disj]. intros g1 g2 Hg1 Hg2 E.
    destruct (at_begin g1 Hg1) as (Hp & _ & Hm1). destruct (at_begin g2 Hg2) as (_ & _ & Hm2). rewrite <- E in Hm2. by eapply one_goal. }
  assert (map (fun g => pick R (begin_ g)) G ⊆+ R) as Hsub.
  { apply NoDup_submseteq; [done|]. intros r (g' & -> & Hg')%list_elem_of_fmap. by apply at_begin. }
  assert (map (fun g => pick R (begin_ g)) G ≡ₚ R) as Hp.
  { apply submseteq_length_Permutation; [done|]. rewrite length_map. lia. }
  assert (pick R (en g - 1) ∈ map (fun g => pick R (begin_ g)) G) as Hin by (by rewrite Hp).
  apply list_elem_of_fmap in Hin as (g' & E & Hg'). destruct (at_begin g' Hg') as (_ & _ & Hm'). rewrite <- E in Hm'.
  assert (g' = g) as ->.
  { eapply one_goal; [exact H1|done|done|done|]. specialize (Hok _ Hg). unfold meets, inr, okr, en in *. lia. }
  destruct (at_begin g Hg) as (_ & Hb & _). exists (pick R (begin_ g)). rewrite <- E in *. unfold inr in *. split_and!; [done|lia|lia].
Qed.

(** Nothing to delete, shorten or split: the goal is reached. *)
Lemma goal_reached :
  (forall r, r ∈ R -> (exists g, g ∈ G /\ meets r g /\ begin_ g <= begin_ r) /\ (exists g, g ∈ G /\ meets r g /\ en r <= en g)) -> R = G.
Proof using All.
  intros Hends. pose proof (goal_coal _ _ _ HGo) as HG. eapply coal_canonical; [exact HR|exact HG|]. intros x. split.
  - intros (r & Hr & Hx). destruct (Hends r Hr) as [(g1 & Hg1 & Hm1 & Hb) (g2 & Hg2 & Hm2 & He)].
    assert (g1 = g2) as <- by (by eapply one_goal). exists g1. split; [done|]. unfold inr in *. lia.
  - intros (g & Hg & Hx). pose proof (goal_count _ _ _ HGo) as Hgc.
    destruct (decide (Z.of_nat (length G) < max_logical_range_count_ c)) as [Hlt|Hge].
    + apply Hcov. apply (goal_exact _ _ _ HGo x Hlt). by exists g.
    + destruct (goal_inside g ltac:(lia) Hg) as (r & Hr & ? & ?). exists r. split; [done|]. unfold inr in *. lia.
Qed.
End at_goal.
