(* ===== verification/RangeStepping.v ===== *)
(** * RangeStepping: [StepTowardOptimalRanges]

    A step never fails an assertion and only makes calls the hardware allows; it keeps the required ranges
    covered and brings [ranges_] closer to the goal, unless [UseRange] refused. *)
From Stdlib Require Import ZArith Lia Sorted.
From stdpp Require Import prelude sorting.
From S2P Require Import Prelude RangeSets RangeFacts ProtectedRanges RangeGoals RangeHardware RangeOps RangeSteps.

Local Open Scope Z_scope.
Implicit Types (r g : Range) (l : list Range).

(** ** Distance to the goal *)

Lemma NoDup_lt {A} `{EqDecision A} (l1 l2 : list A) x : NoDup l1 -> (forall y, y ∈ l1 -> y ∈ l2) -> x ∈ l2 -> x ∉ l1 -> (length l1 < length l2)%nat.
Proof.
  intros Hnd Hin Hx Hn. assert (x :: l1 ⊆+ l2) as Hs.
  { apply NoDup_submseteq; [by apply NoDup_cons|]. intros y [->|]%elem_of_cons; auto. }
  apply submseteq_length in Hs. simpl in Hs. lia.
Qed.

(** The addresses on one side only. *)
Definition only_in (l l' : list Range) : list Z := filter (fun x => ~ covers l' x) (addresses l).

Lemma only_in_elem l l' x : x ∈ only_in l l' <-> covers l x /\ ~ covers l' x.
Proof. unfold only_in. rewrite list_elem_of_filter, addresses_elem. tauto. Qed.

Lemma only_in_NoDup lo l l' : disj lo l -> NoDup (only_in l l').
Proof. intros H. apply NoDup_filter. by eapply addresses_NoDup. Qed.

(** The number of addresses in which two sets differ. *)
Definition away (l G : list Range) : nat := (length (only_in l G) + length (only_in G l))%nat.

Lemma away_lt lo lo' R R' G :
  disj lo R' -> disj lo' G ->
  (forall x, covers R' x -> ~ covers G x -> covers R x) -> (forall x, covers G x -> covers R x -> covers R' x) ->
  (exists x, covers R x /\ ~ covers G x /\ ~ covers R' x \/ covers G x /\ ~ covers R x /\ covers R' x) ->
  (away R' G < away R G)%nat.
Proof.
  intros Hd HdG H1 H2 (x & Hx). unfold away.
  assert (forall y, y ∈ only_in R' G -> y ∈ only_in R G) as Hs1 by (intros y; rewrite !only_in_elem; naive_solver).
  assert (forall y, y ∈ only_in G R' -> y ∈ only_in G R) as Hs2 by (intros y; rewrite !only_in_elem; naive_solver).
  pose proof (submseteq_length _ _ (NoDup_submseteq _ _ (only_in_NoDup _ _ G Hd) Hs1)) as L1.
  pose proof (submseteq_length _ _ (NoDup_submseteq _ _ (only_in_NoDup _ _ R' HdG) Hs2)) as L2.
  destruct Hx as [Hx|Hx].
  - assert (length (only_in R' G) < length (only_in R G))%nat; [|lia].
    apply (NoDup_lt _ _ x (only_in_NoDup _ _ G Hd) Hs1); rewrite only_in_elem; tauto.
  - assert (length (only_in G R') < length (only_in G R))%nat; [|lia].
    apply (NoDup_lt _ _ x (only_in_NoDup _ _ R' HdG) Hs2); rewrite only_in_elem; tauto.
Qed.

Lemma total_lt lo lo' l l' :
  disj lo l -> disj lo' l' -> (forall x, covers l x -> covers l' x) -> (exists x, covers l' x /\ ~ covers l x) -> total l < total l'.
Proof.
  intros H1 H2 Hc (x & Hx & Hn). rewrite <- !addresses_length by (by eapply disj_ok). apply inj_lt.
  apply (NoDup_lt _ _ x); [by eapply addresses_NoDup|intros y; rewrite !addresses_elem; apply Hc|by rewrite addresses_elem..].
Qed.

(** ** Boundaries *)

(** Nothing begins or ends at the address. *)
Definition smooth (P : Z -> Prop) (x : Z) : Prop := P x <-> P (x - 1).

Lemma smooth_elem lo l r x : coal lo l -> r ∈ l -> smooth (covers l) x -> x <> begin_ r /\ x <> en r.
Proof.
  intros Hc Hr Hs. destruct (coal_bound _ _ _ Hc Hr) as [H1 H2]. pose proof (coal_ok _ _ Hc) as Hok. rewrite Forall_forall in Hok.
  specialize (Hok _ Hr). unfold smooth in Hs. split; intros ->.
  - apply H1, Hs. exists r. split; [done|]. unfold inr, okr, en in *. lia.
  - apply H2, Hs. exists r. split; [done|]. unfold inr, okr, en in *. lia.
Qed.

Lemma smooth_inr r x : x <> begin_ r -> x <> en r -> inr r x <-> inr r (x - 1).
Proof. unfold inr. lia. Qed.

(** ** The state between operations *)

Record Steady (c : Config) (required : list Range) (s : PR) (h : HW) : Prop := {
  st_mirror : Mirror s h;
  st_coal : coal (-1) (ranges_ s);
  st_goal : Goal c required (goal_ranges_ s);
  st_cover x : covers required x -> covers (ranges_ s) x;
  st_count : Z.of_nat (length (ranges_ s)) <= max_logical_range_count_ c
}.

Section stepping.
Context (c : Config) (required live : list Range).
Context (Hcap : Capacity c) (Hlive : Forall okr live) (Hreq : forall x, covers live x -> covers required x).

(** What a step leaves: a step that changed nothing was refused by [UseRange]. *)
Definition Stepped (use : Range -> bool) (allow : bool) (s : PR) (done : bool) (s' : PR) (h' : HW) : Prop :=
  exists l, s' = with_ranges l s /\ Steady c required s' h' /\
    (if done then l = ranges_ s /\ (allow = true -> l = goal_ranges_ s) /\ (goal_ranges_ s = [] -> l = [])
     else (away l (goal_ranges_ s) < away (ranges_ s) (goal_ranges_ s))%nat \/
          l = ranges_ s /\ allow = true /\ exists r, use r = false) /\
    (forall x, covers l x -> covers (ranges_ s) x \/ covers (goal_ranges_ s) x) /\
    (forall x, smooth (covers (ranges_ s)) x -> smooth (covers (goal_ranges_ s)) x -> smooth (covers l) x) /\
    (allow = false -> done = false -> total l < total (ranges_ s)).

(** Giving up addresses outside the goal. *)
Lemma stepped_less use allow s h l h' :
  Steady c required s h -> Mirror (with_ranges l s) h' -> coal (-1) l -> Z.of_nat (length l) <= max_logical_range_count_ c ->
  (forall x, covers l x -> covers (ranges_ s) x) -> (forall x, covers (goal_ranges_ s) x -> covers (ranges_ s) x -> covers l x) ->
  (exists x, covers (ranges_ s) x /\ ~ covers l x) ->
  (forall x, smooth (covers (ranges_ s)) x -> smooth (covers (goal_ranges_ s)) x -> smooth (covers l) x) ->
  Stepped use allow s false (with_ranges l s) h'.
Proof using Type.
  intros [HM Hc HG Hcov Hcnt] HM' Hc' Hcnt' Hsub Hkeep (x & Hx & Hn) Hsm. exists l. split; [done|]. split_and!; [| |naive_solver|done|].
  - constructor; [done|done|done| |done]. intros y Hy. apply Hkeep; [by apply (goal_covers _ _ _ HG)|by apply Hcov].
  - left. eapply away_lt; [by apply coal_disj|apply coal_disj, HG|naive_solver|naive_solver|].
    exists x. left. split_and!; [done| |done]. intros Hg. by apply Hn, Hkeep.
  - intros _ _. eapply total_lt; [by apply coal_disj|by apply coal_disj|done|eauto].
Qed.

Lemma R_of_steady s h : Steady c required s h -> forall r, r ∈ ranges_ s -> okr r.
Proof using Type. intros [_ Hc _ _ _]. by apply R_ok. Qed.

(** Deleting a range that does not meet the goal. *)
Lemma step_delete use allow s h r :
  Steady c required s h -> r ∈ ranges_ s -> (forall g, g ∈ goal_ranges_ s -> ~ meets r g) ->
  wp c live (DoOpDelRange r;; mret false) (Stepped use allow s) s h.
Proof using Hlive Hreq.
  intros HS Hr Hn. pose proof HS as [HM Hc HG Hcov Hcnt]. pose proof (R_of_steady s h HS r Hr) as Hrk.
  assert (forall x, inr r x -> ~ covers (goal_ranges_ s) x) as Hng.
  { intros x Hx (g & Hg & Hxg). apply (Hn g Hg). unfold meets, inr in *. lia. }
  apply wp_bind. apply wp_DoOpDelRange; [done|done|done| |].
  { apply apart_live; [done..|]. intros x Hx Hl. by apply (Hng x Hx), (goal_covers _ _ _ HG), Hreq. }
  intros l h' El HM' Hc' Hcl. apply wp_ret.
  eapply stepped_less; [done|done|done| |intros x; rewrite Hcl; tauto|intros x Hg Hx; rewrite Hcl; split; [done|]; intros Hi; by apply (Hng x)| |].
  - pose proof (erase_length _ _ _ (mi_disj _ _ HM) Hr) as Hlen. rewrite <- El in Hlen. lia.
  - exists (begin_ r). assert (inr r (begin_ r)) as Hb by (unfold inr, okr, en in *; lia). split; [by exists r|]. rewrite Hcl. tauto.
  - intros x Hsm _. destruct (smooth_elem _ _ _ _ Hc Hr Hsm). unfold smooth in *. rewrite !Hcl, Hsm, (smooth_inr r x) by done. done.
Qed.

Lemma step_shorten use allow s h o n :
  Steady c required s h -> o ∈ ranges_ s -> okr n ->
  begin_ o = begin_ n /\ en n < en o \/ en o = en n /\ begin_ o < begin_ n ->
  (forall x, inr o x -> ~ inr n x -> ~ covers (goal_ranges_ s) x) ->
  (begin_ n = begin_ o \/ exists g, g ∈ goal_ranges_ s /\ begin_ n = begin_ g) -> (en n = en o \/ exists g, g ∈ goal_ranges_ s /\ en n = en g) ->
  wp c live (DoOpShortenRange c o n;; mret false) (Stepped use allow s) s h.
Proof using Hcap Hlive Hreq.
  intros HS Ho Hn Hcase Hng Hnb Hne. pose proof HS as [HM Hc HG Hcov Hcnt]. pose proof (R_of_steady s h HS o Ho) as Hok.
  apply wp_bind. apply wp_DoOpShortenRange; try done.
  { intros x Hx Hnx Hl. by apply (Hng x Hx Hnx), (goal_covers _ _ _ HG), Hreq. }
  intros l h' HM' Hc' Hlen Hcl. apply wp_ret.
  eapply stepped_less; [done|done|done|lia|intros x; rewrite Hcl; tauto| | |].
  - intros x Hg Hx. rewrite Hcl. split; [done|]. intros Hi. destruct (decide (inr n x)); [done|]. by destruct (Hng x).
  - destruct (cut_off_spec o n Hok Hn Hcase) as (_ & Htk & Htx & _).
    assert (inr (cut_off o n) (begin_ (cut_off o n))) as [Hb1 Hb2]%Htx by (unfold inr, okr, en in *; lia).
    exists (begin_ (cut_off o n)). split; [by exists o|]. rewrite Hcl. tauto.
  - intros x Hs1 Hs2. destruct (smooth_elem _ _ _ _ Hc Ho Hs1).
    assert (forall g, g ∈ goal_ranges_ s -> x <> begin_ g /\ x <> en g) as Hg by (intros; eapply smooth_elem; [apply HG|done|done]).
    unfold smooth in *. rewrite !Hcl, Hs1, (smooth_inr o x), (smooth_inr n x); [done|..|done|done].
    + destruct Hnb as [->|(g & [? ?]%Hg & ->)]; done.
    + destruct Hne as [->|(g & [? ?]%Hg & ->)]; done.
Qed.

(** Splitting a range at a gap of the goal. *)
Lemma step_split use allow s h r d :
  Steady c required s h -> r ∈ ranges_ s -> splittable (goal_ranges_ s) r d -> Z.of_nat (length (ranges_ s)) < max_logical_range_count_ c ->
  wp c live (DoOpSplitRange c r d;; mret false) (fun done s' h' => done = false /\ Stepped use allow s done s' h') s h.
Proof using Hcap Hlive Hreq.
  intros HS Hr Hd Hlt. pose proof HS as [HM Hc HG Hcov Hcnt]. pose proof (R_of_steady s h HS r Hr) as Hrk.
  destruct (splittable_spec _ (goal_coal _ _ _ HG) r d Hrk Hd) as (Hdk & Hb & He & Hng).
  apply wp_bind. apply wp_DoOpSplitRange; try done; [|lia|].
  { intros x Hx Hl. by apply (Hng x Hx), (goal_covers _ _ _ HG), Hreq. }
  intros l h' HM' Hc' Hlen Hcl. apply wp_ret. split; [done|].
  eapply stepped_less; [done|done|done|lia|intros x; rewrite Hcl; tauto| | |].
  - intros x Hg Hx. rewrite Hcl. split; [done|]. intros Hi. by apply (Hng x).
  - exists (begin_ d). split; [exists r; split; [done|]; unfold inr, okr, en in *; lia|]. rewrite Hcl. intros [_ Hn]. apply Hn. unfold inr, okr, en in *. lia.
  - intros x Hs1 Hs2. unfold smooth in *. rewrite !Hcl, Hs1, (smooth_inr d x); [done|..]; intros ->.
    + apply (Hng (begin_ d)); [unfold inr, okr, en in *; lia|]. apply Hs2. by apply (splittable_ends _ (goal_coal _ _ _ HG) r d Hrk Hd).
    + apply (Hng (en d - 1)); [unfold inr, okr, en in *; lia|]. apply Hs2. by apply (splittable_ends _ (goal_coal _ _ _ HG) r d Hrk Hd).
Qed.

(** After a merge there still is a range to split. *)
Lemma split_after_merge G R l r d :
  coal (-1) R -> coal (-1) G -> coal (-1) l -> r ∈ R -> splittable G r d -> (forall x, covers R x -> covers l x) ->
  exists r' d', FindBestSplit l G = Some (r', d') /\ r' ∈ l /\ splittable G r' d'.
Proof using Type.
  clear. intros HR HG Hl Hr Hd Hsub. pose proof (R_ok _ HR _ Hr) as Hrk.
  destruct (splittable_two G HG r d Hrk Hd) as (g1 & g2 & Hg1 & Hg2 & Hne & Hm1 & Hm2).
  destruct (coal_interval _ _ (begin_ r) (en r) Hl) as (q & Hq & Hqb & Hqe).
  { unfold okr, en in *. lia. }
  { intros x Hx. apply Hsub. by exists r. }
  destruct (meets_two G HG q g1 g2) as [d' Hd']; [by eapply R_ok|done|done|done|unfold meets in *; lia|unfold meets in *; lia|].
  pose proof (find_split_in l G Hl HG l ltac:(done) None) as Hf. unfold FindBestSplit.
  destruct (fold_left _ l None) as [[r' e]|].
  - destruct Hf as [?|[? ?]]; [done|]. eauto.
  - destruct Hf as [_ Hf]. by destruct (Hf q d').
Qed.

(** Merging two ranges first, to make room for a split. *)
Lemma step_merge_split use s h r d r1 r2 :
  Steady c required s h -> r ∈ ranges_ s -> splittable (goal_ranges_ s) r d -> neighbours (ranges_ s) r1 r2 -> mergeable (goal_ranges_ s) r1 r2 ->
  wp c live (merged ← DoOpMergeRanges c use r1 r2;
    if negb merged then mret false
    else
      s ← get;
      match FindBestSplit (ranges_ s) (goal_ranges_ s) with
      | Some (range_to_split, new_gap_to_stop_using) => DoOpSplitRange c range_to_split new_gap_to_stop_using;; mret false
      | None => lift Panic
      end) (Stepped use true s) s h.
Proof using Hcap Hlive Hreq.
  intros HS Hr Hd Hnb (g & Hg & Hgb & Hge). pose proof HS as [HM Hc HG Hcov Hcnt]. pose proof (goal_coal _ _ _ HG) as HGc.
  destruct (neighbours_spec _ _ Hc HGc _ _ Hnb) as (H1 & H2 & Hlt & Hgap).
  apply wp_bind. apply wp_DoOpMergeRanges; try done; [lia| |].
  { intros E h' HM'. apply wp_ret. exists (ranges_ s). rewrite (with_ranges_id s h' HM'). split_and!; [done|by constructor| |by left|done|done].
    right. split_and!; [done..|eauto]. }
  intros E l h' HM' Hc' Hlen Hcl _. cbn [negb]. apply wp_bind, wp_get. cbn [ranges_ with_ranges set_ranges goal_ranges_].
  destruct (split_after_merge _ _ l r d Hc HGc Hc' Hr Hd) as (r' & d' & -> & Hr' & Hd').
  { intros x Hx. rewrite Hcl. by left. }
  assert (Steady c required (with_ranges l s) h') as HS'.
  { constructor; [done|done|done| |cbn [ranges_ with_ranges set_ranges]; lia]. intros x Hx%Hcov. cbn [ranges_ with_ranges set_ranges]. rewrite Hcl. by left. }
  eapply wp_mono; [apply (step_split use true (with_ranges l s) h' r' d'); [done|done|done|cbn [ranges_ with_ranges set_ranges]; lia]|].
  intros done s' h2 (-> & l2 & -> & HS2 & Hd2 & Hco2 & Hsm2 & _). cbn [ranges_ with_ranges set_ranges goal_ranges_] in Hd2, Hco2, Hsm2.
  assert (forall x, en r1 <= x < begin_ r2 -> covers (goal_ranges_ s) x) as Hin by (intros x Hx; exists g; split; [done|unfold inr; lia]).
  exists l2. split_and!; [done|done| | | |done].
  2:{ intros x [[?|?]%Hcl|?]%Hco2; [by left|right; by apply Hin|by right]. }
  2:{ intros x Hs1 Hs2. apply Hsm2; [|done]. destruct (smooth_elem _ _ _ _ Hc H1 Hs1), (smooth_elem _ _ _ _ Hc H2 Hs1).
      unfold smooth in *. rewrite !Hcl, Hs1. assert (en r1 <= x < begin_ r2 <-> en r1 <= x - 1 < begin_ r2) as -> by lia. done. }
  assert (away l (goal_ranges_ s) < away (ranges_ s) (goal_ranges_ s))%nat as Haw.
  { eapply away_lt; [by apply coal_disj|by apply coal_disj| | |].
    - intros x [?|?]%Hcl Hn; [done|]. by destruct Hn; apply Hin.
    - intros x _ Hx. rewrite Hcl. by left.
    - exists (en r1). right. split_and!; [apply Hin; lia|apply Hgap; lia|]. rewrite Hcl. right. lia. }
  left. destruct Hd2 as [?|(-> & _)]; [lia|done].
Qed.

(** One step towards the goal: no assertion fails, every call on the hardware is allowed whatever [UseRange]
    answers, and the required ranges stay covered; the step returns [true] only when nothing is left to do (or,
    inside [DeleteRange], nothing without [UseRange]) and otherwise brings [ranges_] nearer to the goal, unless
    [UseRange] refused. *)
Lemma step_wp use allow s h :
  Steady c required s h -> wp c live (StepTowardOptimalRangesInternal c use allow) (Stepped use allow s) s h.
Proof using Hcap Hlive Hreq.
  intros HS. pose proof HS as [HM Hc HG Hcov Hcnt]. pose proof (goal_coal _ _ _ HG) as HGc.
  unfold StepTowardOptimalRangesInternal. apply wp_bind, wp_get.
  destruct (bool_decide_reflect (ranges_ s = goal_ranges_ s)) as [E|Hne].
  { apply wp_ret. exists (ranges_ s). rewrite (with_ranges_id s h HM). split_and!; try done; [by rewrite E|by left]. }
  pose proof (find_delete_in (ranges_ s) (goal_ranges_ s) Hc HGc (ranges_ s) ltac:(done)) as Hdel.
  destruct (FindRangeToDelete (ranges_ s) (goal_ranges_ s)) as [r|]; [by apply step_delete; tauto|].
  pose proof (find_shorten_in (ranges_ s) (goal_ranges_ s) Hc HGc (ranges_ s) ltac:(done)) as Hsh.
  destruct (FindRangeToShorten (ranges_ s) (goal_ranges_ s)) as [[o n]|]; [by apply step_shorten; tauto|].
  apply wp_bind, wp_check; [lia|].
  pose proof (find_split_in (ranges_ s) (goal_ranges_ s) Hc HGc (ranges_ s) ltac:(done) None) as Hsp. unfold FindBestSplit at 1.
  destruct (fold_left _ (ranges_ s) None) as [[r d]|].
  2:{ destruct Hsp as [_ Hsp]. destruct Hne. apply (goal_reached c required); try done. intros r Hr. apply Hsh; [done|]. by apply Hdel. }
  destruct Hsp as [?|[Hr Hd]]; [done|].
  destruct (Z.eqb_spec (Z.of_nat (length (ranges_ s))) (max_logical_range_count_ c)) as [Efull|Hfree].
  2:{ eapply wp_mono; [apply (step_split use allow); [done..|lia]|]. intros b s' h' [-> ?]. done. }
  destruct allow; cbn [negb].
  2:{ apply wp_ret. exists (ranges_ s). rewrite (with_ranges_id s h HM). split_and!; try done; [|by left]. intros EG.
      destruct (splittable_two _ HGc r d (R_ok _ Hc _ Hr) Hd) as (g & _ & Hg & _). rewrite EG in Hg. by apply not_elem_of_nil in Hg. }
  destruct (find_merge _ _ Hc HGc) as (res & Em & Hres). apply wp_bind. eapply wp_lift; [exact Em|].
  destruct res as [[r1 r2]|].
  - destruct Hres as [Hnb Hmg]. by apply (step_merge_split use s h r d r1 r2).
  - exfalso. pose proof (count_ranges_split _ _ Hc HGc Hdel Hres r d Hr Hd) as Hct.
    pose proof (goal_count _ _ _ HG). lia.
Qed.

(** The client calls [StepTowardOptimalRanges] until it returns [true], at most [n] times. *)
Fixpoint optimize (n : nat) : op bool :=
  match n with
  | O => mret false
  | S n =>
      done ← StepTowardOptimalRanges c (fun _ => true);
      if (done : bool) then mret true else optimize n
  end.

Lemma optimize_wp n s h :
  Steady c required s h -> (away (ranges_ s) (goal_ranges_ s) < n)%nat ->
  wp c live (optimize n) (fun done s' h' => done = true /\ Steady c required s' h' /\ s' = with_ranges (goal_ranges_ s) s) s h.
Proof using Hcap Hlive Hreq.
  revert s h. induction n as [|n IH]; intros s h HS Hn; [lia|]. cbn [optimize]. apply wp_bind.
  eapply wp_mono; [by apply step_wp|]. intros done s' h' (l & -> & HS' & Hd & _). destruct done.
  - destruct Hd as (_ & Hd & _). rewrite (Hd eq_refl) in *. apply wp_ret. done.
  - destruct Hd as [Hlt|(_ & _ & r & ?)]; [|done].
    eapply wp_mono; [apply IH; [done|cbn [ranges_ goal_ranges_ with_ranges set_ranges]; lia]|].
    intros b s2 h2 (-> & ? & ->). done.
Qed.
End stepping.
