(* ===== verification/RangeFixup.v ===== *)
(** * RangeFixup: [FixupRangesDuringAdd]

    How [ranges_] grows to cover a new required range. The method only looks at the ranges around the begin of
    the new one; that this is enough rests on a property of the client's ranges ([reach]) that the callers
    have to establish. *)
From Stdlib Require Import ZArith Lia Sorted.
From stdpp Require Import prelude sorting.
From S2P Require Import Prelude RangeSets RangeFacts ProtectedRanges RangeGoals RangeHardware RangeOps RangeSteps RangeStepping.

Local Open Scope Z_scope.
Implicit Types (r g : Range) (l : list Range).

(** ** Growing a set of ranges *)

(** [l] is [R] grown to make place for [a]: what was added reaches from ranges of [R] or from [a]. *)
Record Grown (R : list Range) (a : Range) (l : list Range) : Prop := {
  gr_sub x : covers R x -> covers l x;
  gr_linked x : covers l x -> covers R x \/ inr a x \/ covers l (x - 1);
  gr_smooth x : smooth (covers R) x -> x <> begin_ a -> x <> en a -> smooth (covers l) x;
  gr_low x : covers l x -> exists y, y <= x /\ (covers R y \/ inr a y);
  gr_high x : covers l x -> exists y, x <= y /\ (covers R y \/ inr a y)
}.

Lemma grown_refl R a : Grown R a R.
Proof. constructor; try tauto; intros x Hx; exists x; (split; [lia|by left]). Qed.

(** Filling an interval that lies between ranges or ends of [a]. *)
Lemma grown_fill R a l l' (b e : Z) :
  okr a -> Grown R a l -> b < e -> (forall x, covers l' x <-> covers l x \/ b <= x < e) ->
  covers l (b - 1) /\ ~ covers l b \/ b = begin_ a -> covers l e /\ ~ covers l (e - 1) \/ e = en a -> Grown R a l'.
Proof.
  intros Ha [H1 H2 H3 H4 H5] Hbe Hc Hb He. assert (inr a (begin_ a) /\ inr a (en a - 1)) as [Hab Hae] by (unfold inr, okr, en in *; lia).
  constructor.
  - intros x Hx%H1. rewrite Hc. by left.
  - intros x [Hx|Hx]%Hc; [destruct (H2 x Hx) as [?|[?|?]]; rewrite ?Hc; tauto|]. rewrite !Hc.
    destruct (decide (x = b)) as [->|]; [|right; right; right; lia]. destruct Hb as [[? _]| ->]; tauto.
  - intros x Hx N1 N2. specialize (H3 x Hx N1 N2). unfold smooth in *. rewrite !Hc, H3.
    assert (x <> b) by (intros ->; destruct Hb as [[? ?]|?]; tauto). assert (x <> e) by (intros ->; destruct He as [[? ?]|?]; tauto).
    assert (b <= x < e <-> b <= x - 1 < e) as -> by lia. done.
  - intros x [Hx|Hx]%Hc; [by apply H4|]. destruct Hb as [[Hb _]| ->].
    + destruct (H4 _ Hb) as (y & ? & ?). exists y. split; [lia|done].
    + exists (begin_ a). split; [lia|by right].
  - intros x [Hx|Hx]%Hc; [by apply H5|]. destruct He as [[He _]| ->].
    + destruct (H5 _ He) as (y & ? & ?). exists y. split; [lia|done].
    + exists (en a - 1). split; [lia|by right].
Qed.

Lemma in_begin r : okr r -> inr r (begin_ r) /\ inr r (en r - 1).
Proof. unfold inr, okr, en. lia. Qed.

(** A range of a coalesced set is where an interval may be filled. *)
Lemma coal_ends lo l r :
  coal lo l -> r ∈ l -> (covers l (en r - 1) /\ ~ covers l (en r)) /\ (covers l (begin_ r) /\ ~ covers l (begin_ r - 1)).
Proof.
  intros Hc Hr. destruct (coal_bound _ _ _ Hc Hr). pose proof (coal_ok _ _ Hc) as Hok. rewrite Forall_forall in Hok.
  destruct (in_begin r (Hok r Hr)). split; (split; [by exists r|done]).
Qed.

(** Every range of a grown set has an address of the old set or of [a]. *)
Lemma grown_elem lo R a l r : coal lo l -> Grown R a l -> r ∈ l -> covers R (begin_ r) \/ inr a (begin_ r).
Proof.
  intros Hc HG Hr. destruct (coal_ends _ _ _ Hc Hr) as [_ [H1 H2]]. destruct (gr_linked _ _ _ HG _ H1) as [?|[?|?]]; tauto.
Qed.

(** Every range has an address that is required. *)
Definition useful (required l : list Range) : Prop := forall r, r ∈ l -> exists x, inr r x /\ covers required x.

Lemma useful_grown lo lo' R a l required :
  coal lo R -> coal lo' l -> Grown R a l -> useful required R -> (forall x, inr a x -> covers required x) -> useful required l.
Proof.
  intros HcR Hc HG Hu Ha r Hr. destruct (grown_elem _ _ _ _ _ Hc HG Hr) as [(q & Hq & Hbq)|Hi].
  - destruct (Hu q Hq) as (x & Hx & Hxr). exists x. split; [|done].
    assert (forall y, begin_ q <= y < en q -> covers l y) as Hin by (intros y Hy; apply (gr_sub _ _ _ HG); by exists q).
    destruct (coal_interval _ _ (begin_ q) (en q) Hc) as (p & Hp & ? & ?); [unfold inr in Hx; lia|done|].
    assert (p = r) as ->; [|unfold inr in *; lia]. apply (disj_inr_eq (lo' + 1) l p r (begin_ r)); [by apply coal_disj|done|done|unfold inr in *; lia|].
    pose proof (coal_ok _ _ Hc) as Hok. rewrite Forall_forall in Hok. by apply in_begin, Hok.
  - exists (begin_ r). split; [|by apply Ha]. pose proof (coal_ok _ _ Hc) as Hok. rewrite Forall_forall in Hok. by apply in_begin, Hok.
Qed.

(** Ranges with a required address all meet the goal. *)
Lemma useful_meets c required l G : Goal c required G -> useful required l -> forall r, r ∈ l -> exists g, g ∈ G /\ meets r g.
Proof.
  intros HG Hu r Hr. destruct (Hu r Hr) as (x & Hx & (g & Hg & Hxg)%(goal_covers _ _ _ HG)). exists g. split; [done|].
  unfold meets, inr in *. lia.
Qed.

(** A range that begins inside [a] reaches its end. *)
Definition reach (R : list Range) a : Prop := forall r, r ∈ R -> begin_ a < begin_ r < en a -> en a <= en r.

(** ** The method *)

Section fixup.
Context (c : Config) (required live : list Range) (a : Range).
Context (Hcap : Capacity c) (Hlive : Forall okr live) (Ha : okr a).

(** What the caller knows: the new goal, and that no buffer in use lies outside [ranges_]. *)
Record Ready (s : PR) (h : HW) : Prop := {
  rd_mirror : Mirror s h;
  rd_coal : coal (-1) (ranges_ s);
  rd_count : Z.of_nat (length (ranges_ s)) <= max_logical_range_count_ c;
  rd_pos : 1 <= max_logical_range_count_ c;
  rd_goal : Goal c required (goal_ranges_ s);
  rd_new x : inr a x -> covers required x;
  rd_useful : useful required (ranges_ s);
  rd_reach : reach (ranges_ s) a;
  rd_live x : covers live x -> covers (ranges_ s) x
}.

(** On success [ranges_] has grown to cover [a]; otherwise nothing changed. *)
Definition Fixed (s : PR) (ok : bool) (s' : PR) (h' : HW) : Prop :=
  if ok then
    exists l, s' = with_ranges l s /\ Mirror s' h' /\ coal (-1) l /\ Z.of_nat (length l) <= max_logical_range_count_ c /\
      Grown (ranges_ s) a l /\ forall x, inr a x -> covers l x
  else s' = s /\ Mirror s h'.

Lemma room_one s : Z.of_nat (length (ranges_ s)) <= max_logical_range_count_ c -> room c (Z.of_nat (length (ranges_ s)) + 1).
Proof using Hcap. clear Ha Hlive. unfold room, Capacity in *. destruct (is_mod_available_ c); lia. Qed.

(** The last range that begins at or before [a], and the next one. *)
Lemma around R :
  coal (-1) R ->
  exists l1 l2, R = l1 ++ l2 /\ Forall (fun r => begin_ r <= begin_ a) l1 /\ Forall (fun r => begin_ a < begin_ r) l2 /\
    upper_bound CompareRangeByBegin (BeginLength (begin_ a) UINT64_MAX) R = length l1.
Proof using Type.
  clear Hcap Hlive Ha. intros Hc. pose proof (coal_disj _ _ Hc) as Hd. destruct (mono_split_begin (begin_ a + 1) R (disj_mono _ _ Hd)) as (l1 & l2 & -> & H1 & H2).
  assert (Forall (fun r => begin_ r <= begin_ a) l1) as H1' by (eapply Forall_impl; [exact H1|]; simpl; lia).
  assert (Forall (fun r => begin_ a < begin_ r) l2) as H2' by (eapply Forall_impl; [exact H2|]; simpl; lia).
  exists l1, l2. split_and!; [done..|]. apply upper_bound_split.
  - apply Forall_forall. intros r Hr. rewrite Forall_forall in H1'. specialize (H1' r Hr). apply by_begin_ge. simpl.
    destruct (disj_elem _ _ r Hd) as [_ Hk]; [set_solver|]. unfold okr, en, UINT64_MAX in *. lia.
  - apply Forall_forall. intros r Hr. rewrite Forall_forall in H2'. specialize (H2' r Hr). apply by_begin_lt. simpl. lia.
Qed.

(** Where the addition for [a] ends, when the ranges [l2] begin after [a]. *)
Definition new_end_at l2 : Z := match head l2 with Some after => Z.min (r_end a) (begin_ after) | None => r_end a end.

Lemma new_end_at_spec l1 l2 R :
  coal (-1) R -> R = l1 ++ l2 -> Forall (fun r => begin_ a < begin_ r) l2 -> reach R a ->
  begin_ a < new_end_at l2 <= en a /\
  (covers R (new_end_at l2) /\ ~ covers R (new_end_at l2 - 1) \/ new_end_at l2 = en a) /\
  (forall x, new_end_at l2 <= x < en a -> covers R x) /\
  (forall r, r ∈ l2 -> new_end_at l2 <= begin_ r).
Proof using Ha.
  clear Hcap Hlive. intros Hc ER Hl2 Hrc. unfold new_end_at. rewrite r_end_ok by done. destruct l2 as [|after l2]; cbn [head].
  { split_and!; [unfold okr, en in *; lia|lia|by right|lia|]. intros r Hr. by apply not_elem_of_nil in Hr. }
  assert (after ∈ R) as Haf by (rewrite ER; set_solver). destruct (coal_ends _ _ _ Hc Haf) as [_ [? ?]].
  apply Forall_cons in Hl2 as [Hba _]. pose proof (coal_disj _ _ Hc) as Hd. rewrite ER in Hd. apply disj_app in Hd as [_ Hd].
  pose proof (disj_in_order _ _ Hd) as Ho. apply StronglySorted_inv in Ho as [_ Ho]. rewrite Forall_forall in Ho.
  split_and!; [unfold okr, en in *; lia|lia| | |].
  - destruct (Z.min_spec (en a) (begin_ after)) as [[? ->]|[? ->]]; [by right|by left].
  - intros x Hx. exists after. split; [done|]. specialize (Hrc after Haf). unfold inr. lia.
  - intros r [->|Hr]%elem_of_cons; [lia|]. specialize (Ho r Hr). apply by_begin_ge in Ho. lia.
Qed.

(** The range before [a] is extended. *)
Lemma fixup_extend use l1 before l2 s h :
  Ready s h -> ranges_ s = (l1 ++ [before]) ++ l2 -> begin_ before <= begin_ a -> Forall (fun r => begin_ a < begin_ r) l2 -> en before < en a ->
  wp c live (ok ← DoOpExtendRangeEnd c use before (BeginEnd (begin_ before) (new_end_at l2));
    if negb ok then mret false else TryCoalesceAdjacentRangesAt c (new_end_at l2);; mret true) (Fixed s) s h.
Proof using Hcap Hlive Ha.
  intros [HM Hc Hcnt Hpos HG Hnew Hu Hrc _] ER Hbb Hl2 Heb.
  destruct (new_end_at_spec _ _ _ Hc ER Hl2 Hrc) as ([Hn1 Hn2] & Hne & Hrest & Hafter). set (new_end := new_end_at l2) in *. clearbody new_end.
  assert (before ∈ ranges_ s) as Hbe by (rewrite ER; set_solver). pose proof (R_ok _ Hc _ Hbe) as Hbk.
  assert (en before < new_end) as Hlt.
  { destruct Hne as [[Hx Hx']| ->]; [|done]. destruct (decide (en before < new_end)); [done|]. destruct Hx'.
    exists before. split; [done|]. unfold inr, okr, en in *. lia. }
  assert (forall x, en before <= x < new_end -> ~ covers (ranges_ s) x) as Hgap.
  { intros x Hx (q & Hq & Hxq). pose proof (coal_disj _ _ Hc) as Hd.
    destruct (disj_pair _ _ q before Hd Hq Hbe) as [->|[?|?]]; [unfold inr in *; lia|unfold inr, okr, en in *; lia|].
    pose proof (disj_in_order _ _ Hd) as Ho. rewrite ER in Ho, Hq. apply elem_of_app in Hq as [Hq|Hq]; [|specialize (Hafter q Hq); unfold inr in *; lia].
    apply elem_of_app in Hq as [Hq| ->%list_elem_of_singleton]; [|unfold inr in *; lia].
    rewrite <- app_assoc in Ho. pose proof (StronglySorted_app_1_elem_of _ _ _ q before Ho Hq ltac:(by left)) as Hle. apply by_begin_ge in Hle.
    unfold inr, okr, en in *. lia. }
  rewrite BeginEnd_rng by (unfold okr, en in *; lia). set (n := rng (begin_ before) new_end).
  assert (en n = new_end) as En by apply en_rng. assert (okr n) as Hnk by (apply okr_rng; unfold okr, en in *; lia).
  apply wp_bind. apply wp_DoOpExtendRangeEnd; rewrite ?En; try done.
  intros _ l h' HM' Hc' Hlen Hcl. cbn [negb]. apply wp_bind. cbn [ranges_ with_ranges set_ranges].
  apply wp_coalesce; [done|cbn [ranges_ with_ranges set_ranges]; pose proof (room_one s Hcnt); unfold room in *; lia|].
  cbn [ranges_ with_ranges set_ranges]. intros l' h2 HM2 Hc2 Ht2 Hlen2 _. apply wp_ret.
  assert (l' = l) as ->.
  { assert (coal (0 - 1) l') as Hc3; [|by eapply coal_canonical]. apply coal_of_disj; [apply HM2|].
    intros x [Hx _]%Ht2. by apply (coal_no_touch _ _ x Hc'). }
  exists l. split_and!; [done|done|done|lia| |].
  - eapply (grown_fill _ _ (ranges_ s)); [done|apply grown_refl|exact Hlt|done|left; by apply (coal_ends _ _ _ Hc)|done].
  - intros x Hx. rewrite Hcl. destruct (decide (x < en before)); [left; exists before; split; [done|]; unfold inr in *; lia|].
    destruct (decide (x < new_end)); [right; lia|]. left. apply Hrest. unfold inr in Hx. lia.
Qed.

Lemma erase_emplace r l : r ∉ l -> erase_by_begin r (insert_by_begin r l) = l.
Proof using Type.
  clear. intros Hr. rewrite erase_filter by apply _. induction l as [|q l IH]; simpl.
  { rewrite filter_cons, decide_False by tauto. done. }
  apply not_elem_of_cons in Hr as [Hne Hr]. destruct (CompareRangeByBegin r q).
  - rewrite filter_cons, decide_False by tauto. apply list_filter_all. apply Forall_forall. intros x [->|Hx]%elem_of_cons; [done|by intros ->].
  - rewrite filter_cons, decide_True by done. by rewrite IH.
Qed.

(** One range too many: two are merged, or the new one is taken back. *)
Lemma fixup_merge use n s h l h1 :
  Ready s h -> okr n -> (forall x, inr n x -> ~ covers (ranges_ s) x) -> l = insert_by_begin n (ranges_ s) ->
  Mirror (with_ranges l s) h1 -> coal (-1) l -> Grown (ranges_ s) a l -> (forall x, inr a x -> covers l x) ->
  max_logical_range_count_ c < Z.of_nat (length l) ->
  wp c live (
    check (Z.of_nat (length l) =? max_logical_range_count_ c + 1);;
    check (contains n l);;
    best ← lift (FindBestMerge l (goal_ranges_ s));
    match best with
    | None => lift Panic
    | Some (merge_left_range, merge_right_range) =>
        merged ← DoOpMergeRanges c use merge_left_range merge_right_range;
        if negb merged then DoOpDelRange n;; mret false
        else s ← get; check (Z.of_nat (length (ranges_ s)) =? max_logical_range_count_ c);; mret true
    end) (Fixed s) (with_ranges l s) h1.
Proof using Hcap Hlive Ha.
  intros [HM Hc Hcnt Hpos HG Hnew Hu Hrc Hlv] Hn Hnc El HM1 Hc1 Hgr Hal Hmany.
  assert (length l = S (length (ranges_ s))) as Hlen by (rewrite El; apply emplace_length). assert (n ∈ l) as Hnl by (rewrite El; apply emplace_elem; by left).
  apply wp_bind, wp_check; [lia|]. apply wp_bind, wp_check; [apply contains_elem; [eapply disj_in_order, (mi_disj _ _ HM1)|done]|].
  pose proof (goal_coal _ _ _ HG) as HGc. destruct (find_merge l (goal_ranges_ s) Hc1 HGc) as (res & Em & Hres).
  apply wp_bind. eapply wp_lift; [exact Em|]. destruct res as [[r1 r2]|].
  2:{ exfalso. pose proof (useful_meets _ _ _ _ HG (useful_grown _ _ _ _ _ _ Hc Hc1 Hgr Hu Hnew)) as Hmt.
      pose proof (count_ranges _ _ Hc1 HGc Hmt Hres). pose proof (goal_count _ _ _ HG). lia. }
  destruct Hres as [Hnb _]. destruct (neighbours_spec _ _ Hc1 HGc _ _ Hnb) as (H1 & H2 & Hlt & Hgap).
  apply wp_bind. apply wp_DoOpMergeRanges; try done; cbn [ranges_ with_ranges set_ranges]; [lia| |].
  - intros _ h2 HM2. cbn [negb]. apply wp_bind. apply wp_DoOpDelRange; [done|done|done| |].
    { apply apart_live; [done..|]. intros x Hx Hl. by apply (Hnc x Hx), Hlv. }
    cbn [ranges_ with_ranges set_ranges]. intros l2 h3 El2 HM3 _ _. apply wp_ret.
    assert (l2 = ranges_ s) as -> by (rewrite El2, El; apply erase_emplace; by apply covers_not_elem).
    change (with_ranges (ranges_ s) (with_ranges l s)) with (with_ranges (ranges_ s) s) in *. rewrite (with_ranges_id s h HM) in *. done.
  - intros _ l2 h2 HM2 Hc2 Hlen2 Hcl _. cbn [negb]. apply wp_bind, wp_get. apply wp_bind, wp_check; [cbn [ranges_ with_ranges set_ranges]; lia|].
    apply wp_ret. exists l2. change (with_ranges l2 (with_ranges l s)) with (with_ranges l2 s) in *. split_and!; [done|done|done|lia| |].
    + eapply (grown_fill _ _ l); [done|done|exact Hlt|done|left; by apply (coal_ends _ _ _ Hc1)|left; by apply (coal_ends _ _ _ Hc1)].
    + intros x Hx%Hal. rewrite Hcl. by left.
Qed.

Lemma fixup_wp use s h : Ready s h -> wp c live (FixupRangesDuringAdd c use a) (Fixed s) s h.
Proof using Hcap Hlive Ha.
  intros HR. pose proof HR as [HM Hc Hcnt Hpos HG Hnew Hu Hrc Hlv]. unfold FixupRangesDuringAdd. apply wp_bind, wp_get.
  destruct (around _ Hc) as (l1 & l2 & ER & Hl1 & Hl2 & ->).
  destruct (new_end_at_spec _ _ _ Hc ER Hl2 Hrc) as ([Hn1 Hn2] & Hne & Hrest & Hafter).
  destruct l1 as [|before l1 _] using rev_ind.
  - simpl in ER. cbn [length].
    assert (forall x, begin_ a <= x < new_end_at l2 -> ~ covers (ranges_ s) x) as Hgap.
    { intros x Hx (q & Hq & Hxq). rewrite ER in Hq. specialize (Hafter q Hq). unfold inr in Hxq. lia. }
    set (n := rng (begin_ a) (new_end_at l2)). assert (okr n) as Hnk by (apply okr_rng; unfold okr, en in *; lia).
    assert (forall x, inr n x <-> begin_ a <= x < new_end_at l2) as Hnx by (intros x; unfold inr, n; by rewrite en_rng).
    assert (forall x, inr n x -> ~ covers (ranges_ s) x) as Hnc by (intros x Hx; apply Hgap; by apply Hnx).
    assert (forall l, (forall x, covers l x <-> inr n x \/ covers (ranges_ s) x) -> Grown (ranges_ s) a l /\ forall x, inr a x -> covers l x) as Hgr.
    { intros l Hcl. split.
      - eapply (grown_fill _ _ (ranges_ s)); [done|apply grown_refl|exact Hn1| |by right|done]. intros x. rewrite Hcl, Hnx. tauto.
      - intros x Hx. rewrite Hcl, Hnx. destruct (decide (x < new_end_at l2)); [left|right; apply Hrest]; unfold inr in Hx; lia. }
    destruct (ranges_ s) as [|after l] eqn:EL.
    + assert (l2 = []) as -> by done. assert (n = a) as En by (apply range_eq; [done|]; unfold n; rewrite en_rng; unfold new_end_at; simpl; by apply r_end_ok).
      rewrite <- En at 1. apply wp_DoOpAddRange; rewrite ?EL; try done; [rewrite <- EL in *; by apply room_one|].
      intros _ l h' HM' Hc' Hcl Hlen _. destruct (Hgr l Hcl). exists l. rewrite EL. split_and!; try done. simpl in Hlen. lia.
    + cbn [lookup list_lookup]. assert (Z.min (r_end a) (begin_ after) = new_end_at l2) as -> by (rewrite <- ER; done).
      rewrite BeginEnd_rng by (unfold okr, en in *; lia). fold n. rewrite <- EL in *. apply wp_bind.
      apply wp_DoOpAddRange; try done; [by apply room_one|]. intros _ l' h' HM' Hc' Hcl Hlen Heq. destruct (Hgr l' Hcl). cbn [negb].
      apply wp_bind, wp_get. cbn [ranges_ with_ranges set_ranges].
      destruct (Z.leb_spec (Z.of_nat (length l')) (max_logical_range_count_ c)).
      { apply wp_ret. exists l'. done. }
      exact (fixup_merge use n s h l' h' HR Hnk Hnc (Heq ltac:(lia)) HM' Hc' ltac:(done) ltac:(done) ltac:(done)).
  - destruct (ranges_ s) as [|r0 R0] eqn:EL; [by destruct l1|]. rewrite <- EL in *. rewrite length_app. cbn [length]. rewrite Nat.add_1_r.
    assert (ranges_ s !! length l1 = Some before) as -> by (rewrite ER, <- app_assoc; by apply list_lookup_middle).
    assert (before ∈ ranges_ s) as Hbe by (rewrite ER; set_solver). pose proof (R_ok _ Hc _ Hbe) as Hbk. rewrite !r_end_ok by done.
    apply Forall_app in Hl1 as [_ Hb]. apply Forall_cons in Hb as [Hb _].
    assert (ranges_ s !! S (length l1) = head l2) as ->.
    { rewrite ER, lookup_app_r by (rewrite length_app; simpl; lia). rewrite length_app. simpl. replace (S (length l1) - (length l1 + 1))%nat with 0%nat by lia.
      by destruct l2. }
    rewrite (proj2 (Z.leb_le _ _)) by lia. cbn [andb]. destruct (Z.leb_spec (en a) (en before)).
    + apply wp_ret. exists (ranges_ s). rewrite (with_ranges_id s h HM). split_and!; [done|done|done|done|apply grown_refl|].
      intros x Hx. exists before. split; [done|]. unfold inr in *. lia.
    + pose proof (fixup_extend use l1 before l2 s h HR ER Hb Hl2 ltac:(lia)) as Hw. unfold new_end_at in Hw. rewrite r_end_ok in Hw by done. exact Hw.
Qed.
End fixup.
