(* ===== verification/ProtectedRun.v ===== *)
(** * ProtectedRun: [AddRange], [DeleteRange] and runs of a client

    The invariant of a [ProtectedRanges] object whose hardware ranges can change ([is_dynamic_]), its
    preservation by every operation, and the guarantees to the client: a buffer that was added stays protected
    until it is deleted, and the hardware is only asked what its rules allow. *)
From Stdlib Require Import ZArith Lia Sorted.
From stdpp Require Import prelude sorting.
From S2P Require Import Prelude RangeSets RangeFacts ProtectedRanges RangeGoals RangeHardware RangeOps RangeSteps RangeStepping RangeFixup.

Local Open Scope Z_scope.
Implicit Types (r : Range) (l : list Range).

(** ** Alignment *)

Lemma StronglySorted_strengthen (P P' : Range -> Range -> Prop) l :
  StronglySorted P l -> (forall r1 r2, r1 ∈ l -> r2 ∈ l -> P r1 r2 -> P' r1 r2) -> StronglySorted P' l.
Proof.
  induction 1 as [|r l Hl IH Hr]; intros H; constructor.
  - apply IH. intros r1 r2 H1 H2. apply H; by right.
  - apply Forall_forall. intros q Hq. rewrite Forall_forall in Hr. apply H; [by left|by right|by apply Hr].
Qed.

Section geometry.
Context `{Hfbl : !Fbl, Hlaws : !FblLaws} (c : Config).

Abbreviation gran := (range_granularity_ c).
Abbreviation base := (GetBase (ranges_control_ c)).
Abbreviation size := (GetSize (ranges_control_ c)).

(** The pool is a multiple of the granularity and does not reach the end of the address space. *)
Record PoolOk : Prop := {
  geo_dynamic : is_dynamic_ c = true;
  geo_gran : 0 < gran;
  geo_base : 0 <= base /\ base mod gran = 0;
  geo_size : 0 <= size /\ size mod gran = 0;
  geo_end : base + size + gran <= 2 ^ 64;
  geo_limits : Limits c;
  geo_capacity : Capacity c
}.

Context (Hgeo : PoolOk).

Definition down (x : Z) : Z := x - x mod gran.
Definition up (x : Z) : Z := down (x + gran - 1).
Definition inside r : Prop := base <= begin_ r /\ en r <= base + size.

(** The required range of a requested one. *)
Definition align r : Range := rng (down (begin_ r)) (up (en r)).

Lemma down_spec x : down x <= x < down x + gran /\ down x mod gran = 0.
Proof using Hgeo.
  pose proof (geo_gran Hgeo) as Hg. pose proof (Z.mod_pos_bound x _ Hg). unfold down. split; [lia|].
  rewrite Zminus_mod, Z.mod_mod, Z.sub_diag by lia. apply Z.mod_0_l. lia.
Qed.

Lemma up_spec x : x <= up x < x + gran /\ up x mod gran = 0.
Proof using Hgeo. unfold up. pose proof (down_spec (x + gran - 1)). split; [lia|tauto]. Qed.

(** Multiples of the granularity are at least one apart. *)
Lemma multiple_lt x y : x mod gran = 0 -> y mod gran = 0 -> x < y + gran -> x <= y.
Proof using Hgeo.
  pose proof (geo_gran Hgeo) as Hg. intros Hx Hy Hlt. apply Z.mod_divide in Hx as [p ->]; [|lia].
  apply Z.mod_divide in Hy as [q ->]; [|lia]. clear Hgeo. assert (p < q + 1) by nia. nia.
Qed.

Lemma base_multiple : base mod gran = 0 /\ (base + size) mod gran = 0.
Proof using Hgeo.
  pose proof (geo_gran Hgeo). destruct (geo_base Hgeo) as [_ Hb]. destruct (geo_size Hgeo) as [_ Hs]. split; [done|].
  rewrite Zplus_mod, Hb, Hs. apply Z.mod_0_l. lia.
Qed.

Lemma down_mono x y : x <= y -> down x <= down y.
Proof using Hgeo. intros. pose proof (down_spec x). pose proof (down_spec y). apply multiple_lt; [tauto|tauto|lia]. Qed.

Lemma up_mono x y : x <= y -> up x <= up y.
Proof using Hgeo. intros. apply down_mono. lia. Qed.

Lemma align_spec r :
  okr r -> inside r ->
  AlignRequestedRange r gran = align r /\ okr (align r) /\ inside (align r) /\ (forall x, inr r x -> inr (align r) x) /\
  begin_ (align r) mod gran = 0 /\ en (align r) mod gran = 0.
Proof using Hgeo Hlaws.
  intros Hr [Hb He]. pose proof Hgeo as [_ Hg [Hb0 _] [Hs0 _] Hend _ _]. destruct base_multiple as [Hbm Hsm].
  pose proof (down_spec (begin_ r)) as [Hd Hdm]. pose proof (up_spec (en r)) as [Hu Hum].
  assert (base <= down (begin_ r)) as Hbd by (apply multiple_lt; [done|done|lia]).
  assert (up (en r) <= base + size) as Hue by (apply multiple_lt; [done|done|lia]).
  assert (okr (align r)) as Hok by (apply okr_rng; unfold okr, en in *; lia).
  split_and!; [|done| | | |].
  - unfold AlignRequestedRange. rewrite r_end_ok by done. rewrite round_down_spec by (unfold okr, en in Hr; lia).
    rewrite round_up_spec by (unfold okr, en in *; lia). fold (down (begin_ r)). fold (down (en r + gran - 1)). fold (up (en r)). apply BeginEnd_rng; unfold okr, en in *; lia.
  - unfold inside, align. rewrite en_rng. simpl. lia.
  - intros x. unfold inr, align. rewrite en_rng. simpl. lia.
  - done.
  - unfold align. by rewrite en_rng.
Qed.

(** ** The required ranges *)

(** The client's ranges, disjoint and in the pool, and the required ones. *)
Record Asked (requested required : list Range) : Prop := {
  as_disj : disj 0 requested;
  as_inside r : r ∈ requested -> inside r;
  as_perm : required ≡ₚ map align requested;
  as_order : in_order CompareRangeByBegin required
}.

Lemma asked_elem requested required r :
  Asked requested required -> r ∈ requested ->
  okr r /\ inside r /\ align r ∈ required /\ AlignRequestedRange r gran = align r /\ okr (align r) /\ inside (align r) /\
  (forall x, inr r x -> inr (align r) x) /\ begin_ (align r) mod gran = 0 /\ en (align r) mod gran = 0.
Proof using Hgeo Hlaws.
  intros [Hd Hin Hp _] Hr. destruct (disj_elem _ _ _ Hd Hr) as [_ Hk]. split_and!; [done|by apply Hin| |by apply align_spec, Hin..].
  rewrite Hp. apply list_elem_of_fmap. eauto.
Qed.

Lemma required_elem requested required a : Asked requested required -> a ∈ required -> exists r, r ∈ requested /\ a = align r.
Proof using Type. intros [_ _ Hp _]. rewrite Hp. intros (r & -> & Hr)%list_elem_of_fmap. by exists r. Qed.

(** Of two required ranges, the one that begins first does not end last. *)
Lemma align_order requested required r1 r2 :
  Asked requested required -> r1 ∈ requested -> r2 ∈ requested -> begin_ (align r1) < begin_ (align r2) -> en (align r1) <= en (align r2).
Proof using Hgeo.
  intros [Hd _ _ _] H1 H2 Hlt. destruct (disj_elem _ _ _ Hd H1) as [_ K1]. destruct (disj_elem _ _ _ Hd H2) as [_ K2].
  unfold align in *. rewrite !en_rng. cbn [begin_ rng] in *.
  destruct (disj_pair _ _ _ _ Hd H1 H2) as [->|[?|?]]; [lia|apply up_mono; unfold okr, en in *; lia|].
  pose proof (down_mono (begin_ r2) (begin_ r1) ltac:(unfold okr, en in *; lia)). lia.
Qed.

(** The restriction on overlaps that the iterators rely on. *)
Lemma required_mono requested required : Asked requested required -> mono required.
Proof using Hgeo Hlaws.
  intros HA. split.
  - eapply StronglySorted_strengthen; [apply HA|]. intros a b Ha Hb Hle%by_begin_ge.
    destruct (decide (begin_ a = begin_ b)); [unfold en; lia|]. split; [lia|].
    destruct (required_elem _ _ _ HA Ha) as (p & Hp & ->). destruct (required_elem _ _ _ HA Hb) as (q & Hq & ->).
    eapply align_order; [done..|lia].
  - apply Forall_forall. intros a Ha. destruct (required_elem _ _ _ HA Ha) as (p & Hp & ->). by eapply asked_elem.
Qed.

Lemma requested_covered requested required x : Asked requested required -> covers requested x -> covers required x.
Proof using Hgeo Hlaws. intros HA (r & Hr & Hx). exists (align r). split; [by eapply asked_elem|]. by eapply asked_elem. Qed.

Lemma required_inside requested required x : Asked requested required -> covers required x -> base <= x < base + size.
Proof using Hgeo Hlaws.
  intros HA (a & Ha & Hx). destruct (required_elem _ _ _ HA Ha) as (r & Hr & ->).
  destruct (asked_elem _ _ _ HA Hr) as (_ & _ & _ & _ & _ & [? ?] & _). unfold inr in Hx. lia.
Qed.

(** One more range. *)
Lemma asked_add requested required r :
  Asked requested required -> okr r -> inside r -> (forall x, inr r x -> ~ covers requested x) ->
  Asked (insert_by_begin r requested) (insert_by_begin (align r) required).
Proof using Type.
  intros [Hd Hin Hp Ho] Hr Hi Hn. constructor.
  - apply emplace_disj; [done|done|apply Hr|done].
  - intros q [->|Hq]%emplace_elem; auto.
  - by rewrite !emplace_perm, Hp.
  - by apply (emplace_in_order CompareRangeByBegin).
Qed.

(** One range less. *)
Lemma asked_delete requested required r :
  Asked requested required -> r ∈ requested ->
  exists required', erase_find CompareRangeByBegin (align r) required = Done required' /\ required ≡ₚ align r :: required' /\
    Asked (erase_by_begin r requested) required'.
Proof using Type.
  intros [Hd Hin Hp Ho] Hr. destruct (erase_find_elem CompareRangeByBegin (align r) required Ho) as (l & E & Hl & Hol).
  { rewrite Hp. apply list_elem_of_fmap. eauto. }
  exists l. split_and!; [done|done|]. constructor; [by apply erase_disj|intros q [_ Hq]%erase_elem; auto| |done].
  apply (Permutation_cons_inv (a := align r)). rewrite <- Hl, Hp. rewrite (erase_perm _ _ _ Hd Hr) at 1. done.
Qed.

(** ** Sets of whole blocks *)

Definition blocky l : Prop := forall x, x mod gran <> 0 -> smooth (covers l) x.

Lemma blocky_elem lo l r : coal lo l -> blocky l -> r ∈ l -> begin_ r mod gran = 0 /\ en r mod gran = 0.
Proof using Type.
  intros Hc Hb Hr. split.
  - destruct (decide (begin_ r mod gran = 0)) as [|Hn]; [done|]. by destruct (smooth_elem _ _ _ _ Hc Hr (Hb _ Hn)).
  - destruct (decide (en r mod gran = 0)) as [|Hn]; [done|]. by destruct (smooth_elem _ _ _ _ Hc Hr (Hb _ Hn)).
Qed.

Lemma blocky_of l : (forall r, r ∈ l -> begin_ r mod gran = 0 /\ en r mod gran = 0) -> blocky l.
Proof using Type.
  intros H x Hx. unfold smooth, covers. split; intros (r & Hr & Hi); exists r; (split; [done|]);
    destruct (H r Hr); (apply (smooth_inr r x); [by intros ->|by intros ->|done]).
Qed.

Lemma goal_blocky required G : Goal c required G -> blocky required -> blocky G.
Proof using Type.
  intros [HGc HGcov HGends _ _] Hb. apply blocky_of. intros g Hg. destruct (HGends g Hg) as [H1 H2]. destruct (coal_bound _ _ _ HGc Hg) as [N1 N2].
  split.
  - destruct (decide (begin_ g mod gran = 0)) as [|Hn]; [done|]. destruct N1. by apply HGcov, (Hb _ Hn).
  - destruct (decide (en g mod gran = 0)) as [|Hn]; [done|]. destruct N2. by apply HGcov, (Hb _ Hn).
Qed.

(** ** The invariant *)

Record Inv (s : PR) (h : HW) : Prop := {
  inv_asked : Asked (requested_ranges_ s) (required_ranges_ s);
  inv_requested_bytes : requested_bytes_ s = total (requested_ranges_ s);
  inv_derived : DerivedOf c (required_ranges_ s) s;
  inv_mirror : Mirror s h;
  inv_coal : coal (-1) (ranges_ s);
  inv_cover x : covers (required_ranges_ s) x -> covers (ranges_ s) x;
  inv_count : Z.of_nat (length (ranges_ s)) <= max_logical_range_count_ c;
  inv_blocky : blocky (ranges_ s);
  inv_in_pool x : covers (ranges_ s) x -> base <= x < base + size
}.

Lemma inv_goal s h : Inv s h -> Goal c (required_ranges_ s) (goal_ranges_ s).
Proof using Hgeo. intros HI. eapply derived_goal; [apply (geo_limits Hgeo)|apply HI]. Qed.

Lemma inv_steady s h : Inv s h -> Steady c (required_ranges_ s) s h.
Proof using Hgeo. intros HI. pose proof (inv_goal s h HI). destruct HI. by constructor. Qed.

Lemma required_blocky requested required : Asked requested required -> blocky required.
Proof using Hgeo Hlaws.
  intros HA. apply blocky_of. intros a Ha. destruct (required_elem _ _ _ HA Ha) as (r & Hr & ->). by eapply asked_elem.
Qed.

Lemma requested_ok requested required : Asked requested required -> Forall okr requested.
Proof using Type. intros HA. eapply disj_ok, HA. Qed.

(** The buffers in use are protected. *)
Lemma inv_protected s h x : Inv s h -> covers (requested_ranges_ s) x -> covers (hw_ranges h) x.
Proof using Hgeo Hlaws.
  intros HI Hx. destruct (mi_at _ _ (inv_mirror _ _ HI)) as [-> _]. apply (inv_cover _ _ HI). eapply requested_covered; [apply HI|done].
Qed.

(** The invariant of the ranges after one of them changed, the client's ranges untouched. *)
Lemma inv_with_ranges s h l h' :
  Inv s h -> Mirror (with_ranges l s) h' -> coal (-1) l -> (forall x, covers (required_ranges_ s) x -> covers l x) ->
  Z.of_nat (length l) <= max_logical_range_count_ c -> blocky l -> (forall x, covers l x -> base <= x < base + size) -> Inv (with_ranges l s) h'.
Proof using Type. intros [] HM Hc Hcov Hlen Hb Hin. constructor; try done. Qed.

(** ** Steps *)

Lemma inv_step live use allow s h :
  Inv s h -> Forall okr live -> (forall x, covers live x -> covers (required_ranges_ s) x) ->
  wp c live (StepTowardOptimalRangesInternal c use allow)
    (fun done s' h' => Inv s' h' /\ Stepped c (required_ranges_ s) use allow s done s' h') s h.
Proof using Hgeo Hlaws.
  intros HI Hlive Hreq. pose proof (inv_goal s h HI) as HG. pose proof (required_blocky _ _ (inv_asked _ _ HI)) as Hrb.
  eapply wp_mono; [apply (step_wp c (required_ranges_ s) live (geo_capacity Hgeo) Hlive Hreq); by apply inv_steady|].
  intros done s' h' HSt. split; [|done]. destruct HSt as (l & -> & [HM Hc HG' Hcov Hcnt] & _ & Hsub & Hsm & _).
  eapply inv_with_ranges; [done|done|done|done|done| |].
  - intros x Hx. apply Hsm; [by apply (inv_blocky _ _ HI)|]. by apply (goal_blocky _ _ HG Hrb).
  - intros x [Hx|(g & Hg & Hx)]%Hsub; [by apply (inv_in_pool _ _ HI)|]. destruct (goal_ends _ _ _ HG g Hg) as [H1 H2].
    pose proof (inv_asked _ _ HI) as HA. apply (required_inside _ _ _ HA) in H1. apply (required_inside _ _ _ HA) in H2. unfold inr in Hx. lia.
Qed.

(** A step of [StepTowardOptimalRanges] that returns [true] has reached the goal. *)
Lemma stepping_inv use s h :
  Inv s h ->
  wp c (requested_ranges_ s) (StepTowardOptimalRanges c use)
    (fun done s' h' => Inv s' h' /\ requested_ranges_ s' = requested_ranges_ s /\ (done = true -> useful (required_ranges_ s') (ranges_ s')) /\
      (forall x, covers (ranges_ s') x -> covers (ranges_ s) x \/ covers (goal_ranges_ s) x)) s h.
Proof using Hgeo Hlaws.
  intros HI. pose proof (inv_asked _ _ HI) as HA. eapply wp_mono; [apply (inv_step (requested_ranges_ s)); [done|by eapply requested_ok|]|].
  { intros x. by apply requested_covered. }
  intros done s' h' [HI' (l & -> & _ & Hd & Hsub & _)]. split_and!; [done|done| |done]. intros ->. destruct Hd as (_ & Hd & _).
  cbn [ranges_ required_ranges_ with_ranges set_ranges]. rewrite (Hd eq_refl). pose proof (inv_goal s h HI) as HG. intros g Hg.
  destruct (goal_ends _ _ _ HG g Hg) as [Hb _]. exists (begin_ g). split; [|done]. apply in_begin. eapply (R_ok _ (goal_coal _ _ _ HG) g Hg).
Qed.

(** ** [AddRange] *)

Lemma no_overlap lo l : disj lo l -> any_overlap lo l = false.
Proof using Type.
  revert lo. induction l as [|r l IH]; intros lo; [done|]. intros (H1 & H2 & H3). cbn [any_overlap].
  rewrite (proj2 (Z.ltb_ge _ _)) by lia. rewrite r_end_ok by done. by apply IH.
Qed.

Lemma wp_propagate live diff required0 (Q : unit -> PR -> HW -> Prop) s h :
  okr diff -> mono (required_ranges_ s) -> DerivedOf c required0 s ->
  (forall x, ~ inr diff x -> covers required0 x <-> covers (required_ranges_ s) x) ->
  (forall C I b L G, Derived c (required_ranges_ s) C I b L G -> Q tt (set_derived C I b L G s) h) ->
  wp c live (PropagateRequiredRangesToGoalRanges c diff) Q s h.
Proof using Hgeo.
  intros Hd Hm HD Hag HQ. destruct (propagate_spec c diff required0 s (geo_limits Hgeo) Hd Hm HD Hag) as (C & I & b & L & G & E & HD').
  unfold wp. rewrite E. split; [done|]. by apply HQ.
Qed.

(** Deriving again from the old required ranges restores the object. *)
Lemma derived_unique required s C I b L G :
  mono required -> DerivedOf c required s -> Derived c required C I b L G -> set_derived C I b L G s = s.
Proof using Type.
  intros Hm H1 H2. pose proof (derived_rebuild _ _ s _ _ _ _ _ Hm H1) as E. rewrite (derived_rebuild _ _ s _ _ _ _ _ Hm H2) in E.
  injection E as E1 E2 E3 E4 E5. destruct s. unfold set_derived in *. simpl in *. congruence.
Qed.

(** A range of [ranges_] that begins inside the new required range reaches its end. *)
Lemma settled_reach s h r :
  Inv s h -> useful (required_ranges_ s) (ranges_ s) ->
  Asked (insert_by_begin r (requested_ranges_ s)) (insert_by_begin (align r) (required_ranges_ s)) -> reach (ranges_ s) (align r).
Proof using Hgeo Hlaws.
  intros HI Hu HA p Hp Hbp. destruct (decide (en (align r) <= en p)) as [|Hn]; [done|exfalso].
  destruct (Hu p Hp) as (x & Hx & (a' & Ha' & Hxa)). destruct (required_elem _ _ _ (inv_asked _ _ HI) Ha') as (q & Hq & ->).
  destruct (asked_elem _ _ _ (inv_asked _ _ HI) Hq) as (_ & _ & _ & _ & Hok & _).
  destruct (coal_interval _ _ (begin_ (align q)) (en (align q)) (inv_coal _ _ HI)) as (p' & Hp' & ? & ?).
  { unfold okr, en in *. lia. }
  { intros y Hy. apply (inv_cover _ _ HI). by exists (align q). }
  assert (p' = p) as ->.
  { apply (disj_inr_eq _ _ p' p x (coal_disj _ _ (inv_coal _ _ HI))); [done|done|unfold inr in *; lia|done]. }
  assert (en (align r) <= en (align q)); [|lia].
  eapply (align_order _ _ r q HA); [apply emplace_elem; by left|apply emplace_elem; by right|lia].
Qed.

(** The object between the change of the client's ranges and the change of the hardware's. *)
Lemma add_ready s h r C I b L G :
  Inv s h -> useful (required_ranges_ s) (ranges_ s) ->
  Asked (insert_by_begin r (requested_ranges_ s)) (insert_by_begin (align r) (required_ranges_ s)) ->
  Derived c (insert_by_begin (align r) (required_ranges_ s)) C I b L G ->
  Ready c (insert_by_begin (align r) (required_ranges_ s)) (requested_ranges_ s) (align r)
    (set_derived C I b L G (set_required (insert_by_begin (align r) (required_ranges_ s))
       (set_requested (insert_by_begin r (requested_ranges_ s)) (total (insert_by_begin r (requested_ranges_ s))) s))) h.
Proof using Hgeo Hlaws.
  intros HI Hu HA HD. pose proof (settled_reach s h r HI Hu HA) as Hrc. pose proof (geo_limits Hgeo) as Hlim. unfold Limits in Hlim.
  pose proof HI as [HA0 _ _ HM Hc Hcov Hcnt _ _]. destruct HM. constructor; try done.
  - lia.
  - eapply derived_goal; [apply (geo_limits Hgeo)|exact HD].
  - intros x Hx. apply emplace_covers. by left.
  - intros p Hp. destruct (Hu p Hp) as (x & Hx & Hxr). exists x. split; [done|]. apply emplace_covers. by right.
  - intros x Hx. apply Hcov. by eapply requested_covered.
Qed.

(** What [AddRange] leaves. *)
Definition Added (s : PR) r (ok : bool) (s' : PR) (h' : HW) : Prop :=
  if ok then Inv s' h' /\ useful (required_ranges_ s') (ranges_ s') /\ requested_ranges_ s' = insert_by_begin r (requested_ranges_ s)
  else s' = s /\ Mirror s h'.

(** The hardware covers the new range: the object is consistent again. *)
Lemma add_done s h s1 r l h' :
  Inv s h -> useful (required_ranges_ s) (ranges_ s) -> Asked (requested_ranges_ s1) (required_ranges_ s1) ->
  requested_ranges_ s1 = insert_by_begin r (requested_ranges_ s) -> required_ranges_ s1 = insert_by_begin (align r) (required_ranges_ s) ->
  requested_bytes_ s1 = total (requested_ranges_ s1) -> DerivedOf c (required_ranges_ s1) s1 ->
  Mirror (with_ranges l s1) h' -> coal (-1) l -> Z.of_nat (length l) <= max_logical_range_count_ c ->
  Grown (ranges_ s) (align r) l -> (forall x, inr (align r) x -> covers l x) -> Added s r true (with_ranges l s1) h'.
Proof using Hgeo Hlaws.
  intros HI Hu HA E1 E2 Hb HD HM Hc Hcnt HG Hal.
  assert (r ∈ requested_ranges_ s1) as Hr by (rewrite E1; apply emplace_elem; by left).
  destruct (asked_elem _ _ _ HA Hr) as (_ & _ & _ & _ & Hok & [Hb1 Hb2] & _ & Hm1 & Hm2).
  assert (forall y, covers (ranges_ s) y \/ inr (align r) y -> base <= y < base + size) as Hpool.
  { intros y [Hy|Hy]; [by apply (inv_in_pool _ _ HI)|unfold inr in Hy; lia]. }
  split_and!; [|eapply useful_grown; [exact (inv_coal _ _ HI)|exact Hc|exact HG| |]|done].
  - constructor; try done.
    + intros x. cbn [required_ranges_ ranges_ with_ranges set_ranges]. rewrite E2, emplace_covers. intros [?|Hx]; [by apply Hal|].
      by apply (gr_sub _ _ _ HG), (inv_cover _ _ HI).
    + intros x Hx. apply (gr_smooth _ _ _ HG); [by apply (inv_blocky _ _ HI)|by intros ->..].
    + intros x Hx. destruct (gr_low _ _ _ HG x Hx) as (y & ? & ?%Hpool). destruct (gr_high _ _ _ HG x Hx) as (z & ? & ?%Hpool). lia.
  - intros p Hp. destruct (Hu p Hp) as (x & Hx & Hxr). exists x. split; [done|]. cbn [required_ranges_ with_ranges set_ranges].
    rewrite E2, emplace_covers. by right.
  - intros x Hx. cbn [required_ranges_ with_ranges set_ranges]. rewrite E2, emplace_covers. by left.
Qed.

(** [UseRange] refused: everything is taken back. *)
Lemma add_refused_wp live s h r h' C I b L G :
  Inv s h -> Asked (insert_by_begin r (requested_ranges_ s)) (insert_by_begin (align r) (required_ranges_ s)) ->
  (forall x, inr r x -> ~ covers (requested_ranges_ s) x) ->
  Derived c (insert_by_begin (align r) (required_ranges_ s)) C I b L G -> Mirror s h' ->
  wp c live (
    check true;;
    modify (fun s => set_requested (erase_by_begin r (requested_ranges_ s)) (u64 (requested_bytes_ s - length_ r)) s);;
    s ← get;
    required ← lift (erase_find CompareRangeByBegin (align r) (required_ranges_ s));
    modify (set_required required);;
    PropagateRequiredRangesToGoalRanges c (align r);;
    mret false) (Added s r)
    (set_derived C I b L G (set_required (insert_by_begin (align r) (required_ranges_ s))
       (set_requested (insert_by_begin r (requested_ranges_ s)) (total (insert_by_begin r (requested_ranges_ s))) s))) h'.
Proof using Hgeo Hlaws.
  intros HI HA Hn HD HM'. assert (r ∈ insert_by_begin r (requested_ranges_ s)) as Hr by (apply emplace_elem; by left).
  destruct (asked_elem _ _ _ HA Hr) as (Hrk & _ & _ & _ & Hok & _). pose proof (inv_asked _ _ HI) as HA0.
  apply wp_bind, wp_check; [done|]. apply wp_bind, wp_modify. apply wp_bind, wp_get.
  cbn [requested_ranges_ required_ranges_ requested_bytes_ set_requested set_required set_derived].
  destruct (asked_delete _ _ _ HA Hr) as (l & E & Hl & HA'). apply wp_bind. eapply wp_lift; [exact E|].
  assert (l = required_ranges_ s) as ->.
  { eapply (in_order_unique CompareRangeByBegin); [apply HA'|apply HA0|]. rewrite emplace_perm in Hl. by apply Permutation_cons_inv in Hl. }
  rewrite erase_emplace by (by apply covers_not_elem). rewrite emplace_total.
  replace (length_ r + total (requested_ranges_ s) - length_ r) with (total (requested_ranges_ s)) by lia.
  pose proof (total_bound _ (as_disj _ _ HA0)). rewrite u64_small by (unfold is_u64; lia).
  apply wp_bind, wp_modify. apply wp_bind. eapply (wp_propagate _ _ (insert_by_begin (align r) (required_ranges_ s))).
  - done.
  - by eapply required_mono.
  - exact HD.
  - intros x Hx. cbn [required_ranges_ set_required]. rewrite emplace_covers. tauto.
  - cbn [required_ranges_ set_required]. intros C' I' b' L' G' HD'. apply wp_ret. unfold Added.
    assert (set_derived C' I' b' L' G' s = s) as Es by (eapply derived_unique; [by eapply required_mono|apply HI|done]).
    pose proof (inv_requested_bytes _ _ HI) as Hb. clear -Es Hb HM'. destruct s. simpl in *. subst. unfold set_derived in Es. simpl in Es.
    injection Es as <- <- <- <- <-. done.
Qed.

Lemma add_wp use s h r :
  Inv s h -> useful (required_ranges_ s) (ranges_ s) -> okr r -> inside r -> (forall x, inr r x -> ~ covers (requested_ranges_ s) x) ->
  wp c (requested_ranges_ s) (AddRange c use r) (Added s r) s h.
Proof using Hgeo Hlaws.
  intros HI Hu Hr Hin Hn. pose proof (inv_asked _ _ HI) as HA0. pose proof (asked_add _ _ r HA0 Hr Hin Hn) as HA.
  destruct (align_spec r Hr Hin) as (Eal & Hok & _ & Hsub & _). pose proof (geo_dynamic Hgeo) as Hdyn.
  unfold AddRange. rewrite Hdyn. apply wp_bind, wp_get. cbn [negb andb]. apply wp_bind, wp_modify. apply wp_bind, wp_get.
  cbn [requested_ranges_ set_requested]. pose proof (total_bound _ (as_disj _ _ HA)) as Hb. rewrite emplace_total in Hb.
  rewrite (inv_requested_bytes _ _ HI), (Z.add_comm (total _)), u64_small by (unfold is_u64; lia). rewrite <- emplace_total. clear Hb.
  apply wp_bind, wp_check; [unfold IsAnyInternalOverlap; by rewrite (no_overlap 0) by apply HA|]. rewrite Eal. cbv zeta.
  apply wp_bind, wp_modify. apply wp_bind. eapply (wp_propagate _ _ (required_ranges_ s)); [done|by eapply required_mono|apply HI| |].
  { intros x Hx. cbn [required_ranges_ set_required set_requested]. rewrite emplace_covers. tauto. }
  cbn [required_ranges_ set_required set_requested]. intros C I b L G HD. apply wp_bind.
  eapply wp_mono; [eapply (fixup_wp c (insert_by_begin (align r) (required_ranges_ s)) _ _ (geo_capacity Hgeo) (requested_ok _ _ HA0) Hok); by apply add_ready|].
  intros [] s' h'; cbn [negb]; unfold Fixed.
  - intros (l & -> & HM & Hc & Hcnt & HG & Hal). apply wp_bind. eapply wp_zero.
    + apply HM.
    + apply HM.
    + apply (coal_interval (-1)); [done|unfold okr, en in *; lia|]. intros x Hx. by apply Hal, Hsub.
    + unfold okr, en in *. lia.
    + apply wp_ret. eapply (add_done s h); done.
  - intros [-> HM']. apply (add_refused_wp _ s h r h'); try done. by destruct HM'.
Qed.

(** ** [DeleteRange] *)

(** Nothing requested, nothing to protect. *)
Lemma goal_nil s h : Inv s h -> requested_ranges_ s = [] -> goal_ranges_ s = [].
Proof using Hgeo.
  intros HI E. pose proof (as_perm _ _ (inv_asked _ _ HI)) as Hp. rewrite E in Hp. apply Permutation_nil_r in Hp.
  pose proof (inv_goal s h HI) as HG. rewrite Hp in HG. destruct (goal_ranges_ s) as [|g G]; [done|].
  destruct (goal_ends _ _ _ HG g ltac:(by left)) as [Hx _]. by apply covers_nil in Hx.
Qed.

Lemma step_without_use_wp use fuel s h :
  Inv s h -> (Z.to_nat (ranges_bytes_ s) < fuel)%nat ->
  wp c (requested_ranges_ s) (step_without_use c use fuel)
    (fun _ s' h' => Inv s' h' /\ requested_ranges_ s' = requested_ranges_ s /\ (goal_ranges_ s = [] -> ranges_ s' = [])) s h.
Proof using Hgeo Hlaws.
  revert s h. induction fuel as [|fuel IH]; intros s h HI Hf; [lia|]. cbn [step_without_use]. apply wp_bind.
  pose proof (inv_asked _ _ HI) as HA. eapply wp_mono; [apply (inv_step (requested_ranges_ s)); [done|by eapply requested_ok|]|].
  { intros x. by apply requested_covered. }
  intros done s' h' [HI' (l & -> & _ & Hd & _ & _ & Hlt)]. destruct done; [apply wp_ret; by destruct Hd as (_ & _ & Hd)|].
  apply (IH (with_ranges l s) h' HI'). specialize (Hlt eq_refl eq_refl). cbn [ranges_bytes_ with_ranges set_ranges].
  pose proof (length_total_nonneg l (disj_ok _ _ (coal_disj _ _ (inv_coal _ _ HI')))). rewrite (mi_bytes _ _ (inv_mirror _ _ HI)) in Hf. lia.
Qed.

Lemma delete_wp use s h r :
  Inv s h -> r ∈ requested_ranges_ s ->
  wp c (erase_by_begin r (requested_ranges_ s)) (DeleteRange c use r)
    (fun _ s' h' => Inv s' h' /\ requested_ranges_ s' = erase_by_begin r (requested_ranges_ s) /\ (requested_ranges_ s' = [] -> ranges_ s' = [])) s h.
Proof using Hgeo Hlaws.
  intros HI Hr. pose proof (inv_asked _ _ HI) as HA. destruct (asked_elem _ _ _ HA Hr) as (Hrk & _ & _ & Eal & Hok & _).
  destruct (asked_delete _ _ _ HA Hr) as (l & El & Hl & HA'). unfold DeleteRange. rewrite (geo_dynamic Hgeo). cbn [negb].
  apply wp_bind, wp_get. apply wp_bind, wp_check; [apply contains_elem; [eapply disj_in_order, HA|done]|].
  apply wp_bind, wp_modify. rewrite Eal. cbv zeta. apply wp_bind, wp_get. apply wp_bind. eapply wp_lift; [exact El|].
  apply wp_bind, wp_modify. pose proof (erase_total _ _ _ (as_disj _ _ HA) Hr) as Ht. pose proof (total_bound _ (as_disj _ _ HA')).
  rewrite (inv_requested_bytes _ _ HI), <- Ht, u64_small by (unfold is_u64; lia).
  apply wp_bind. eapply (wp_propagate _ _ (required_ranges_ s)); [done|by eapply required_mono|apply HI| |].
  { intros x Hx. cbn [required_ranges_ set_required]. rewrite Hl, covers_cons. tauto. }
  cbn [required_ranges_ set_required]. intros C I b L G HD. set (s1 := set_derived C I b L G _).
  assert (Inv s1 h) as HI1.
  { pose proof HI as [_ _ _ [] ? Hcov ? ? ?]. constructor; try done. intros x Hx. apply Hcov. rewrite Hl, covers_cons. by right. }
  unfold FixupRangesDuringDelete. apply wp_bind, wp_get.
  eapply wp_mono; [apply (step_without_use_wp use _ s1 h HI1); lia|]. intros _ s' h' (? & E & Hg). split_and!; [done|done|].
  rewrite E. intros E0. apply Hg. by apply (goal_nil s1 h).
Qed.
End geometry.
