(* ===== verification/ProtectedLoan.v ===== *)
(** * ProtectedLoan: the addresses that can be lent

    [ForUnprotectedRangesOverlappingRange], [ForUnprotectedRanges] and [GetLoanableBytes]: the callback is given
    exactly the addresses no hardware range covers, and their number is what [GetLoanableBytes] says. *)
From Stdlib Require Import ZArith Lia Sorted.
From stdpp Require Import prelude sorting.
From S2P Require Import Prelude RangeSets RangeFacts ProtectedRanges RangeGoals RangeHardware RangeOps RangeSteps RangeStepping RangeFixup ProtectedRun.

Local Open Scope Z_scope.
Implicit Types (r g : Range) (l : list Range).

(** ** Parts of gaps *)

Section parts.
Context (range : Range) (Hrange : okr range).

(** The part of a gap inside [range]. *)
Definition part g : list Range := if IsOverlap g range then [Intersect g range] else [].

(** A gap to look at: a real one, or an empty one at an end of [range]. *)
Definition lookable g : Prop := 0 <= begin_ g <= en g /\ en g < 2 ^ 64 /\ (begin_ g < en g \/ en g <= begin_ range \/ en range <= begin_ g).

Lemma part_spec g :
  lookable g ->
  part g = [] /\ (en g <= begin_ range \/ en range <= begin_ g) \/
  exists p, part g = [p] /\ okr p /\ (forall x, inr p x <-> inr g x /\ inr range x) /\ begin_ g <= begin_ p /\ en p <= en g.
Proof using Hrange.
  intros (H0 & H1 & H2). unfold part, IsOverlap, Intersect. rewrite (r_end_ok range) by done.
  assert (r_end g = en g) as -> by (unfold r_end; fold (en g); apply u64_small; unfold is_u64; lia).
  destruct (Z.leb_spec (en g) (begin_ range)); [by left; split; [|left]|].
  destruct (Z.leb_spec (en range) (begin_ g)); [by left; split; [|right]|].
  right. assert (0 < en g) by (unfold okr, en in *; lia). assert (0 < en range) by (unfold okr, en in *; lia).
  rewrite (u64_small (en g - 1)), (u64_small (en range - 1)) by (unfold is_u64, okr, en in *; lia).
  rewrite (u64_small (Z.min _ _ + 1)) by (unfold is_u64, okr, en in *; lia). rewrite u64_small by (unfold is_u64, okr, en in *; lia).
  exists (rng (Z.max (begin_ g) (begin_ range)) (Z.min (en g) (en range))). split_and!.
  - unfold rng, BeginLength. do 2 f_equal. lia.
  - apply okr_rng; unfold okr, en in *; lia.
  - intros x. unfold inr. rewrite en_rng. cbn [begin_ rng]. lia.
  - cbn [begin_ rng]. lia.
  - rewrite en_rng. lia.
Qed.

(** Gaps one after the other. *)
Fixpoint chain (lo : Z) l : Prop := match l with [] => True | g :: l' => lo <= begin_ g /\ lookable g /\ chain (en g) l' end.

Lemma chain_app lo (hi : Z) l1 l2 : chain lo l1 -> (forall g, g ∈ l1 -> en g <= hi) -> lo <= hi -> chain hi l2 -> chain lo (l1 ++ l2).
Proof using Type.
  revert lo. induction l1 as [|g l1 IH]; intros lo H1 Hhi Hlo H2; simpl.
  - destruct l2 as [|g l2]; [done|]. destruct H2 as (? & ? & ?). simpl. split_and!; [lia|done..].
  - destruct H1 as (? & ? & ?). split_and!; [done..|]. apply IH; [done|intros; apply Hhi; by right|apply Hhi; by left|done].
Qed.

Lemma chain_coal lo l : coal lo l -> 0 <= lo -> chain lo l.
Proof using Type.
  revert lo. induction l as [|g l IH]; intros lo; [done|]. intros (H1 & H2 & H3) Hlo. simpl. split_and!; [lia| |].
  - unfold lookable, okr, en in *. lia.
  - apply IH; [done|]. unfold okr, en in *. lia.
Qed.

Lemma parts_spec lo l :
  chain lo l ->
  disj lo (concat (map part l)) /\ forall x, covers (concat (map part l)) x <-> covers l x /\ inr range x.
Proof using Hrange.
  revert lo. induction l as [|g l IH]; intros lo; cbn [chain map concat].
  { intros _. split; [done|]. intros x. rewrite covers_nil. tauto. }
  intros (Hlo & Hg & Hc). destruct (IH _ Hc) as [Hd Hx]. pose proof Hg as (Hg0 & _).
  destruct (part_spec g Hg) as [[-> Hn]|(p & -> & Hp & Hpx & Hb & He)]; cbn [app].
  - split; [eapply disj_weaken; [done|lia]|]. intros x. rewrite Hx, covers_cons. unfold inr at 2. unfold inr in *. intuition lia.
  - split; [simpl; split_and!; [lia|done|eapply disj_weaken; [done|lia]]|]. intros x. rewrite !covers_cons, Hpx, Hx. tauto.
Qed.
End parts.

(** ** The gaps that are looked at *)

(** The parts of a pool between ranges that are in it. *)
Section outside.
Context (range : Range) (R : list Range) (base size : Z).
Context (Hrange : okr range) (Hin : base <= begin_ range /\ en range <= base + size) (Hbase : 0 <= base) (Hend : base + size < 2 ^ 64).
Context (HR : coal (-1) R) (Hpool : forall x, covers R x -> base <= x < base + size).

(** Ranges before and after those that are looked at. *)
Lemma window (pre looked post : list Range) f z :
  R = pre ++ looked ++ post -> head looked = Some f -> last looked = Some z ->
  (forall r, r ∈ pre -> en r <= begin_ f) /\ (forall r, r ∈ post -> en z <= begin_ r) /\ coal (-1) looked /\
  (forall x, covers looked x -> begin_ f <= x < en z) /\ okr f /\ okr z /\ f ∈ looked /\ z ∈ looked /\ begin_ f < en z.
Proof using HR.
  clear Hrange Hin Hbase Hend Hpool. intros ER Hf Hz. destruct looked as [|f' looked]; [done|]. injection Hf as ->.
  assert (coal (-1) (f :: looked)) as Hcl.
  { rewrite ER in HR. clear -HR. revert HR. assert (forall lo, -1 <= lo -> coal lo (pre ++ (f :: looked) ++ post) -> coal (-1) (f :: looked)) as H; [|by apply H].
    induction pre as [|p pre IH]; intros lo Hlo Hc.
    - eapply coal_weaken; [|exact Hlo]. clear Hlo. revert lo Hc. generalize (f :: looked) as k. induction k as [|q k IH]; intros lo; [done|].
      simpl. intros (? & ? & Hc). split_and!; [done..|by apply IH].
    - destruct Hc as (? & ? & Hc). apply (IH (en p)); [|done]. unfold okr, en in *. lia. }
  destruct (coal_hull _ _ _ _ Hcl Hz) as (Hfk & Hzk & Hzi & Hfz & Hh).
  pose proof (coal_disj _ _ HR) as Hd. simpl in Hd. pose proof (disj_in_order _ _ Hd) as Ho. rewrite ER in Hd, Ho.
  split_and!; try done; [| |by left].
  - intros r Hr. pose proof (StronglySorted_app_1_elem_of _ _ _ r f Ho Hr ltac:(by left)) as Hle. apply by_begin_ge in Hle.
    assert (r ∈ pre ++ (f :: looked) ++ post) as Hr' by set_solver. destruct (disj_elem _ _ _ Hd Hr') as [_ Hrk].
    destruct (disj_pair _ _ r f Hd Hr' ltac:(set_solver)) as [->|[?|?]]; [|done|unfold okr, en in *; lia].
    exfalso. pose proof (disj_NoDup _ _ Hd) as Hnd. apply NoDup_app in Hnd as (_ & Hnd & _). apply (Hnd f Hr). set_solver.
  - intros r Hr. apply StronglySorted_app_1_r in Ho. pose proof (StronglySorted_app_1_elem_of _ _ _ z r Ho Hzi Hr) as Hle. apply by_begin_ge in Hle.
    assert (r ∈ pre ++ (f :: looked) ++ post) as Hr' by set_solver. destruct (disj_elem _ _ _ Hd Hr') as [_ Hrk].
    destruct (disj_pair _ _ z r Hd ltac:(set_solver) Hr') as [->|[?|?]]; [|done|unfold okr, en in *; lia].
    exfalso. pose proof (disj_NoDup _ _ Hd) as Hnd. apply NoDup_app in Hnd as (_ & _ & Hnd). apply NoDup_app in Hnd as (_ & Hnd & _). by apply (Hnd r Hzi).
Qed.

(** The gaps around and between the ranges that are looked at are what is outside [R], as far as [range] goes. *)
Lemma window_gaps (pre looked post : list Range) f z :
  R = pre ++ looked ++ post -> head looked = Some f -> last looked = Some z ->
  (pre = [] \/ en f <= begin_ range) -> (post = [] \/ en range <= begin_ z) ->
  let all := (if decide (pre = []) then [rng base (begin_ f)] else []) ++ gaps looked ++ (if decide (post = []) then [rng (en z) (base + size)] else []) in
  chain range base all /\ forall x, inr range x -> covers all x <-> ~ covers R x.
Proof using Hrange Hin Hbase Hend HR Hpool.
  intros ER Hf Hz Hpre Hpost. destruct (window _ _ _ _ _ ER Hf Hz) as (Hb & Ha & Hcl & Hh & Hfk & Hzk & Hfi & Hzi & Hfz).
  assert (base <= begin_ f /\ en z <= base + size) as [Hbf Hez].
  { assert (covers R (begin_ f)) as H1%Hpool by (exists f; split; [rewrite ER; set_solver|by apply in_begin]).
    assert (covers R (en z - 1)) as H2%Hpool by (exists z; split; [rewrite ER; set_solver|by apply in_begin]). lia. }
  assert (forall g, g ∈ gaps looked -> begin_ f < begin_ g /\ en g < en z) as Hgb.
  { intros g Hg. apply (gaps_elem _ _ _ Hcl) in Hg as (Hgk & H1%Hh & H2%Hh & _). lia. }
  assert (chain range (begin_ f) (gaps looked)) as Hcg.
  { destruct looked as [|f' looked]; [done|]. injection Hf as ->. apply chain_coal; [by eapply gaps_coal_cons|lia]. }
  intros all. split.
  - apply (chain_app _ _ (begin_ f)).
    + case_decide; [|done]. simpl. unfold lookable. rewrite en_rng. cbn [begin_ rng]. unfold okr, en in *. split_and!; try done; lia.
    + intros g. case_decide; [intros ->%list_elem_of_singleton; by rewrite en_rng|intros Hg; by apply not_elem_of_nil in Hg].
    + done.
    + apply (chain_app _ _ (en z)); [done|intros g Hg%Hgb; lia|lia|]. case_decide; [|done].
      simpl. unfold lookable. rewrite en_rng. cbn [begin_ rng]. unfold okr, en in *. split_and!; try done; lia.
  - assert (forall x, covers R x <-> covers pre x \/ covers looked x \/ covers post x) as HcR by (intros x; rewrite ER, !covers_app; tauto).
    assert (forall x, covers pre x -> x < begin_ f) as Hbx by (intros x (r & Hr%Hb & Hx); unfold inr in Hx; lia).
    assert (forall x, covers post x -> en z <= x) as Hax by (intros x (r & Hr%Ha & Hx); unfold inr in Hx; lia).
    assert (forall (P : Prop) `{!Decision P} g x, covers (if decide P then [g] else []) x <-> P /\ inr g x) as Hif.
    { intros P ? g x. case_decide; rewrite ?covers_cons, covers_nil; tauto. }
    intros x Hx. unfold all. rewrite !covers_app, !Hif, HcR. unfold inr at 1 2. rewrite !en_rng. cbn [begin_ rng]. unfold inr in Hx. split.
    + intros [[-> ?]|[(g & Hg & Hxg)|[-> ?]]].
      * intros [?%covers_nil|[?%Hh|?%Hax]]; [done|lia|lia].
      * pose proof (Hgb g Hg). apply (gaps_elem _ _ _ Hcl) in Hg as (_ & _ & _ & Hg). unfold inr in Hxg.
        intros [?%Hbx|[?|?%Hax]]; [lia| |lia]. by apply (Hg x).
      * intros [?%Hbx|[?%Hh|?%covers_nil]]; [lia|lia|done].
    + intros Hn. destruct (decide (x < begin_ f)).
      { destruct Hpre as [->|?]; [left; split; [done|lia]|unfold okr, en in *; lia]. }
      destruct (decide (en z <= x)).
      { destruct Hpost as [->|?]; [right; right; split; [done|lia]|unfold okr, en in *; lia]. }
      right; left. destruct (covers_or_gap _ _ x (begin_ f) (en z - 1) Hcl) as [?|?]; [exists f; split; [done|by apply in_begin]|exists z; split; [done|by apply in_begin]|lia|tauto|done].
Qed.
End outside.

(** What the iterators, one further on either side, delimit. *)
Lemma window_of range R :
  coal (-1) R -> okr range -> R <> [] ->
  let '(i, j) := IteratorsCoveringPotentialOverlapsOfRangeWithRanges range R in
  let j' := if (j =? length R)%nat then j else S j in
  exists pre looked post f z, R = pre ++ looked ++ post /\ head looked = Some f /\ last looked = Some z /\
    pred i = length pre /\ j' = (length pre + length looked)%nat /\
    (pre = [] \/ en f <= begin_ range) /\ (post = [] \/ en range <= begin_ z).
Proof.
  intros Hc Hr Hne. destruct (iterators_split range R (disj_mono _ _ (coal_disj _ _ Hc)) Hr) as (l1 & l2 & l3 & ER & H1 & H2 & H3 & ->).
  assert (exists pre k1, l1 = pre ++ k1 /\ pred (length l1) = length pre /\ (pre = [] /\ k1 = [] \/ exists f, k1 = [f] /\ en f <= begin_ range)) as (pre & k1 & E1 & Hl1 & Hp).
  { destruct l1 as [|f pre _] using rev_ind; [by exists [], []; auto|]. exists pre, [f]. split_and!; [done|rewrite length_app; simpl; lia|].
    right. exists f. split; [done|]. apply Forall_app in H1 as [_ H1]. by apply Forall_cons in H1 as [? _]. }
  assert (exists post k3, l3 = k3 ++ post /\ (post = [] /\ k3 = [] \/ exists z, k3 = [z] /\ en range <= begin_ z)) as (post & k3 & E3 & Hq).
  { destruct l3 as [|z post]; [by exists [], []; auto|]. exists post, [z]. split; [done|]. right. exists z. split; [done|]. by apply Forall_cons in H3 as [? _]. }
  assert (k1 ++ l2 ++ k3 <> []) as Hl.
  { intros E. destruct k1; [|done]. destruct l2; [|done]. destruct k3; [|done]. destruct Hp as [[-> _]|(? & ? & _)]; [|done].
    destruct Hq as [[-> _]|(? & ? & _)]; [|done]. by subst. }
  exists pre, (k1 ++ l2 ++ k3), post, (default range (head (k1 ++ l2 ++ k3))), (default range (last (k1 ++ l2 ++ k3))). split_and!.
  - rewrite ER, E1, E3. by rewrite <- !app_assoc.
  - by destruct (k1 ++ l2 ++ k3).
  - destruct (k1 ++ l2 ++ k3) as [|q k _] using rev_ind; [done|]. by rewrite last_snoc.
  - done.
  - rewrite ER, E1, E3, !length_app. destruct Hq as [[-> ->]|(z & -> & _)]; cbn [length].
    + rewrite (proj2 (Nat.eqb_eq _ _)) by lia. lia.
    + rewrite (proj2 (Nat.eqb_neq _ _)) by lia. lia.
  - destruct Hp as [[-> _]|(f & -> & ?)]; [by left|by right].
  - destruct Hq as [[-> _]|(z & -> & ?)]; [by left|right]. by rewrite app_assoc, last_snoc.
Qed.

(** The gap before the first range, and the one after the last, as the code finds them. *)
Lemma first_part range R (base : Z) pre looked post f :
  R = pre ++ looked ++ post -> head looked = Some f -> 0 <= base <= begin_ f /\ begin_ f < 2 ^ 64 ->
  match length pre, R with O, first :: _ => part range (BeginEnd base (begin_ first)) | _, _ => [] end =
  concat (map (part range) (if decide (pre = []) then [rng base (begin_ f)] else [])).
Proof.
  intros ER Hf Hb. destruct pre as [|p pre]; [|by case_decide]. rewrite decide_True by done. destruct looked as [|f' looked]; [done|].
  injection Hf as ->. rewrite ER. cbn [length app map concat]. rewrite BeginEnd_rng by lia. by rewrite app_nil_r.
Qed.

Lemma last_part range R (e : Z) pre looked post z :
  R = pre ++ looked ++ post -> last looked = Some z -> okr z -> en z <= e < 2 ^ 64 ->
  match last R with
  | Some last => if (length pre + length looked =? length R)%nat then part range (BeginEnd (r_end last) e) else []
  | None => []
  end = concat (map (part range) (if decide (post = []) then [rng (en z) e] else [])).
Proof.
  intros ER Hz Hk He. destruct looked as [|z' looked _] using rev_ind; [done|]. rewrite last_snoc in Hz. injection Hz as ->.
  destruct post as [|p post].
  - rewrite app_nil_r in ER. rewrite decide_True by done. rewrite ER, app_assoc, last_snoc, <- app_assoc.
    rewrite (proj2 (Nat.eqb_eq _ _)) by (rewrite !length_app; lia). rewrite r_end_ok by done.
    rewrite BeginEnd_rng by (unfold okr, en in *; lia). cbn [map concat]. by rewrite app_nil_r.
  - rewrite decide_False by done. rewrite (proj2 (Nat.eqb_neq _ _)) by (rewrite ER, !length_app; simpl; lia). by destruct (last R).
Qed.

(** ** The theorem *)

Section loan.
Context (c : Config) (Hgeo : PoolOk c).

(** For the parts of the pool inside [range] that the callback is given. *)
Lemma unprotected_exact s h range :
  Inv c s h -> okr range -> inside c range ->
  exists out, ForUnprotectedRangesOverlappingRange c range s = Done out /\ disj (GetBase (ranges_control_ c)) out /\
    forall x, covers out x <-> inr range x /\ ~ covers (ranges_ s) x.
Proof using Hgeo.
  intros HI Hr [Hb He]. pose proof Hgeo as [Hdyn Hg [Hb0 _] [Hs0 _] Hend _ _]. pose proof (inv_coal _ _ _ HI) as Hc.
  set (base := GetBase (ranges_control_ c)) in *. set (size := GetSize (ranges_control_ c)) in *.
  assert (0 < size) as Hs by (unfold okr, en in *; lia). assert (okr (BeginLength base size)) as Hek by (unfold okr, en; simpl; lia).
  assert (en (BeginLength base size) = base + size) as Ee by done. unfold ForUnprotectedRangesOverlappingRange. rewrite Hdyn. cbn [negb]. fold base size.
  assert (forall g, (if IsOverlap g range then [Intersect g range] else []) = part range g) as Epart by done.
  destruct (bool_decide_reflect (ranges_ s = [])) as [E|Hne].
  - assert (lookable range (BeginLength base size)) as Hl by (unfold lookable; rewrite Ee; simpl; lia).
    destruct (part_spec range Hr _ Hl) as [[_ [H|H]]|(p & Hp & Hpk & Hpx & Hpb & _)]; [rewrite Ee in H; unfold okr, en in *; lia|simpl in H; unfold okr, en in *; lia|].
    unfold part in Hp. unfold intersect_checked. destruct (IsOverlap _ range); [|done]. injection Hp as Hp. cbn [zx_assert exec_bind]. rewrite Hp.
    exists [p]. split_and!; [done|simpl in *; by split_and!|]. intros x. rewrite covers_cons, E, !covers_nil, Hpx. unfold inr. rewrite Ee. simpl. lia.
  - pose proof (window_of range (ranges_ s) Hc Hr Hne) as Hw. destruct (IteratorsCoveringPotentialOverlapsOfRangeWithRanges range (ranges_ s)) as [i j].
    cbv zeta in Hw |- *. destruct Hw as (pre & looked & post & f & z & ER & Hf & Hz & -> & -> & Hpre & Hpost).
    assert (slice (length pre) (length pre + length looked) (ranges_ s) = looked) as -> by (rewrite ER; apply slice_middle).
    assert (looked <> []) as Hln by (by intros ->). rewrite (bool_decide_eq_false_2 (looked = [])) by done.
    assert ((length pre =? length pre + length looked)%nat = false) as -> by (apply Nat.eqb_neq; destruct looked; simpl; [done|lia]).
    cbn [negb zx_assert exec_bind]. eexists. split; [reflexivity|].
    destruct (window_gaps range (ranges_ s) base size Hr ltac:(done) Hb0 ltac:(lia) Hc (inv_in_pool _ _ _ HI) _ _ _ _ _ ER Hf Hz Hpre Hpost) as [Hch Hcov].
    destruct (parts_spec range Hr _ _ Hch) as [Hd Hx]. rewrite !map_app, !concat_app in Hd, Hx.
    destruct (window (ranges_ s) Hc _ _ _ _ _ ER Hf Hz) as (_ & _ & _ & _ & Hfk & Hzk & Hfi & Hzi & _).
    assert (base <= begin_ f /\ en z <= base + size) as [Hbf Hez].
    { assert (covers (ranges_ s) (begin_ f)) as H1%(inv_in_pool _ _ _ HI) by (exists f; split; [rewrite ER; set_solver|by apply in_begin]).
      assert (covers (ranges_ s) (en z - 1)) as H2%(inv_in_pool _ _ _ HI) by (exists z; split; [rewrite ER; set_solver|by apply in_begin]).
      fold base size in H1, H2. lia. }
    pose proof (first_part range (ranges_ s) base pre looked post f ER Hf ltac:(unfold okr, en in *; lia)) as E1.
    pose proof (last_part range (ranges_ s) (base + size) pre looked post z ER Hz Hzk ltac:(lia)) as E3.
    rewrite (r_end_ok (BeginLength base size)), Ee by done. cbn [begin_ BeginLength]. unfold part in *. rewrite E1, E3.
    split; [done|]. intros x. rewrite Hx. split; intros [H1 H2]; [split; [done|by apply Hcov]|split; [by apply Hcov|done]].
Qed.

(** The addresses of the pool are those of the ranges and those that are given to the callback. *)
Lemma loan_total s h out :
  Inv c s h -> disj (GetBase (ranges_control_ c)) out ->
  (forall x, covers out x <-> GetBase (ranges_control_ c) <= x < GetBase (ranges_control_ c) + GetSize (ranges_control_ c) /\ ~ covers (ranges_ s) x) ->
  GetLoanableBytes c s = total out.
Proof using Hgeo.
  intros HI Hd Hx. pose proof Hgeo as [_ Hg [Hb0 _] [Hs0 _] Hend _ _]. pose proof (mi_disj _ _ (inv_mirror _ _ _ HI)) as HdR.
  unfold GetLoanableBytes. rewrite (mi_bytes _ _ (inv_mirror _ _ _ HI)).
  assert (total out + total (ranges_ s) = GetSize (ranges_control_ c)) as E.
  { rewrite <- !addresses_length by (by eapply disj_ok). rewrite <- Nat2Z.inj_add, <- length_app.
    assert (addresses out ++ addresses (ranges_ s) ≡ₚ seqZ (GetBase (ranges_control_ c)) (GetSize (ranges_control_ c))) as ->.
    { apply NoDup_Permutation.
      - apply NoDup_app. split_and!; [by eapply addresses_NoDup| |by eapply addresses_NoDup]. intros x. rewrite !addresses_elem. rewrite Hx. tauto.
      - apply NoDup_seqZ.
      - intros x. rewrite elem_of_app, !addresses_elem, elem_of_seqZ, Hx. split.
        + intros [[? _]|?%(inv_in_pool _ _ _ HI)]; [done|lia].
        + intros ?. destruct (decide (covers (ranges_ s) x)); [by right|left]. split; [lia|done]. }
    rewrite length_seqZ. lia. }
  pose proof (length_total_nonneg out (disj_ok _ _ Hd)). pose proof (total_bound _ HdR). rewrite u64_small by (unfold is_u64; lia). lia.
Qed.
End loan.
