(* ===== verification/ProtectedClient.v ===== *)
(** * ProtectedClient: runs of a client of [ProtectedRanges]

    The promises of the object to the client that drives it: sysmem's pooled allocator adds a range when it
    hands out a buffer, deletes it when the buffer is freed, and steps towards the optimal ranges from a timer.
    A run is a sequence of requests, each with its own answers of [UseRange]. The theorems are about runs in
    which a deletion is followed by steps until one returns [true] before the next range is added; the last
    ones show what goes wrong in other runs. *)
From Stdlib Require Import ZArith Lia Sorted.
From stdpp Require Import prelude sorting.
From S2P Require Import Prelude RangeSets RangeFacts ProtectedRanges RangeGoals RangeHardware RangeOps RangeSteps RangeStepping RangeFixup ProtectedRun ProtectedLoan.

Local Open Scope Z_scope.
Implicit Types (r g : Range) (l : list Range).

(** ** The client *)

(** The object, the hardware behind it, and whether a range may be added. *)
Record Client := mkClient {
  cl_obj : PR;
  cl_hw : HW;
  cl_settled : bool
}.

Definition requested (k : Client) : list Range := requested_ranges_ (cl_obj k).

(** What the client may ask. *)
Definition permitted (c : Config) (k : Client) (q : ClientRequest) : Prop :=
  match q with
  | ReqAdd r => cl_settled k = true /\ okr r /\ inside c r /\ forall x, inr r x -> ~ covers (requested k) x
  | ReqDelete r => r ∈ requested k
  | ReqStep => True
  end.

(** The buffers in use during the request. *)
Definition live_during (k : Client) (q : ClientRequest) : list Range :=
  match q with ReqDelete r => erase_by_begin r (requested k) | _ => requested k end.

Definition settled_after (settled : bool) (q : ClientRequest) (answer : option bool) : bool :=
  match q, answer with
  | ReqAdd _, _ => settled
  | ReqStep, Some true => true
  | _, _ => false
  end.

Inductive client_reachable `{!Fbl} (c : Config) (s0 : PR) : Client -> Prop :=
  | client_start : client_reachable c s0 (mkClient s0 HW_empty true)
  | client_serve k q use answer s' ks :
      client_reachable c s0 k -> permitted c k q -> serve c use q (cl_obj k) = Done (answer, s', ks) ->
      client_reachable c s0 (mkClient s' (hw_after (cl_hw k) ks) (settled_after (cl_settled k) q answer)).

(** A control whose hardware has room for two logical ranges at least, and a pool of whole blocks. *)
Record Suitable (control : Control) : Prop := {
  su_dynamic : IsDynamic control = true;
  su_count : (if HasModProtectedRange control then 3 else 4) <= MaxRangeCount control < 2 ^ 64;
  su_base : 0 <= GetBase control /\ GetBase control mod GetRangeGranularity control = 0;
  su_size : 0 <= GetSize control /\ GetSize control mod GetRangeGranularity control = 0;
  su_end : GetBase control + GetSize control + GetRangeGranularity control <= 2 ^ 64
}.

Lemma suitable_geometry control c s0 : Suitable control -> ProtectedRanges control = Done (c, s0) -> PoolOk c /\ s0 = PR_empty.
Proof.
  intros [Hd Hc Hb Hs He]. unfold ProtectedRanges. rewrite Hd. destruct (1 <=? MaxRangeCount control) eqn:E1; cbn [zx_assert exec_bind]; [|done].
  destruct (1 <=? GetRangeGranularity control) eqn:E2; cbn [zx_assert exec_bind]; [|done]. intros [= <- <-]. split; [|done].
  constructor; cbn [is_dynamic_ range_granularity_ ranges_control_]; try done; [lia| |].
  - unfold Limits. cbn [max_logical_range_count_]. destruct (HasModProtectedRange control); rewrite u64_small by (unfold is_u64; lia); lia.
  - unfold Capacity. cbn [max_logical_range_count_ is_mod_available_ max_range_count_].
    destruct (HasModProtectedRange control); rewrite u64_small by (unfold is_u64; lia); lia.
Qed.

Section client.
Context `{Hfbl : !Fbl, Hlaws : !FblLaws} (c : Config) (Hgeo : PoolOk c).

Definition Sound (k : Client) : Prop :=
  Inv c (cl_obj k) (cl_hw k) /\ (cl_settled k = true -> useful (required_ranges_ (cl_obj k)) (ranges_ (cl_obj k))) /\
  (requested k = [] -> ranges_ (cl_obj k) = []).

Lemma sound_start : Sound (mkClient PR_empty HW_empty true).
Proof using Hgeo.
  pose proof (geo_limits c Hgeo) as Hlim. unfold Limits in Hlim. split_and!; [|intros _ r Hr; by apply not_elem_of_nil in Hr|done].
  constructor; cbn; try done.
  - constructor; [done|intros r Hr; by apply not_elem_of_nil in Hr|done|constructor].
  - constructor; try done; [constructor|]. unfold BuildLargestInteriorUnusedRanges. cbn. by rewrite take_nil.
  - constructor; [done|split; [done|]|done]. intros x. by rewrite covers_nil.
  - lia.
  - intros x Hx. unfold smooth. by rewrite !covers_nil.
  - intros x ?%covers_nil. done.
Qed.

(** Serving a permitted request. *)
Lemma sound_serve use k q :
  Sound k -> permitted c k q ->
  wp c (live_during k q) (serve c use q) (fun answer s' h' =>
    Sound (mkClient s' h' (settled_after (cl_settled k) q answer)) /\
    (forall r, q = ReqAdd r -> answer = Some false -> s' = cl_obj k /\ Mirror (cl_obj k) h')) (cl_obj k) (cl_hw k).
Proof using Hgeo Hlaws.
  intros (HI & Hu & He) Hp. destruct q as [r|r|]; cbn [serve live_during settled_after].
  - destruct Hp as (Hs & Hr & Hin & Hn). apply wp_bind. eapply wp_mono; [by apply (add_wp c Hgeo); [|apply Hu|..]|].
    intros ok s' h' HA. apply wp_ret. destruct ok; cbn [Added] in HA.
    + destruct HA as (HI' & Hu' & E). split; [|intros ? _ [=]]. split_and!; [done|done|]. unfold requested. cbn [cl_obj]. rewrite E. intros E0.
      pose proof (emplace_length CompareRangeByBegin r (requested_ranges_ (cl_obj k))) as Hlen. by rewrite E0 in Hlen.
    + destruct HA as (-> & HM). split; [|done]. split_and!; [|done|done]. destruct HI. by constructor.
  - apply wp_bind. eapply wp_mono; [by apply (delete_wp c Hgeo)|]. intros [] s' h' (HI' & _ & He'). apply wp_ret. split; [by split_and!|done].
  - apply wp_bind. eapply wp_mono; [by apply (stepping_inv c Hgeo)|]. intros done s' h' (HI' & E & Hu' & Hsub). apply wp_ret.
    split; [|done]. split_and!; [done| |].
    + cbn [cl_settled cl_obj]. destruct done; [by auto|done].
    + unfold requested in *. cbn [cl_obj]. rewrite E. intros E0. destruct (ranges_ s') as [|r l] eqn:El; [done|].
      pose proof (goal_nil c Hgeo _ _ HI E0) as EG. rewrite (He E0), EG in Hsub. pose proof (inv_coal _ _ _ HI') as Hc.
      rewrite El in Hc. destruct Hc as (_ & Hk & _).
      destruct (Hsub (begin_ r)) as [?%covers_nil|?%covers_nil]; [|done|done]. exists r. split; [by left|by apply in_begin].
Qed.

Lemma reachable_sound k : client_reachable c PR_empty k -> Sound k.
Proof using Hgeo Hlaws.
  induction 1 as [|k q use answer s' ks _ IH Hp E]; [apply sound_start|].
  pose proof (sound_serve use k q IH Hp) as Hw. unfold wp in Hw. rewrite E in Hw. apply Hw.
Qed.
End client.

(** ** The promises *)

Section promises.
Context `{Hfbl : !Fbl, Hlaws : !FblLaws} (control : Control) (c : Config) (s0 : PR).
Context (Hsuit : Suitable control) (Hctor : ProtectedRanges control = Done (c, s0)).

Lemma promises_sound k : client_reachable c s0 k -> PoolOk c /\ Sound c k.
Proof using All. destruct (suitable_geometry control c s0 Hsuit Hctor) as [Hg ->]. intros. split; [done|]. by apply (reachable_sound c Hg). Qed.

(** C5. For hardware with dynamic ranges, at least three of them if a range can be modified in place and four if
    not, and a pool aligned to the granularity ([Suitable]): in every run of the client in which a deletion is
    followed by steps up to one that returns [true] before the next addition, and whatever [UseRange] answers, no assertion of [AddRange], [DeleteRange] or
    [StepTowardOptimalRanges] fails and the loop of [DeleteRange] ends; every call on the hardware follows the
    documented rules (never more ranges than the hardware has, only addresses taken with [UseRange] are
    protected, a range leaves only when others cover it or no buffer in use overlaps it); and between requests
    every buffer that was added is covered by hardware ranges, which are at most [max_logical_range_count_] and
    made of whole blocks of the pool. When the last buffer has been deleted no hardware range is left, and the
    assertion of the destructor holds. *)
Theorem protected_run k :
  client_reachable c s0 k ->
  (forall q use, permitted c k q ->
     exists answer s' ks, serve c use q (cl_obj k) = Done (answer, s', ks) /\ obeys c (live_during k q) (cl_hw k) ks) /\
  (forall x, covers (requested k) x -> covers (hw_ranges (cl_hw k)) x) /\
  hw_ranges (cl_hw k) ≡ₚ ranges_ (cl_obj k) /\ Z.of_nat (length (hw_ranges (cl_hw k))) <= max_logical_range_count_ c /\
  (forall r, r ∈ hw_ranges (cl_hw k) -> inside c r /\ begin_ r mod range_granularity_ c = 0 /\ en r mod range_granularity_ c = 0) /\
  (requested k = [] -> hw_ranges (cl_hw k) = [] /\ ProtectedRanges_dtor (cl_obj k) = Done tt).
Proof using All.
  intros Hk. destruct (promises_sound k Hk) as [Hgeo HS]. pose proof HS as (HI & _ & He). destruct (mi_at _ _ (inv_mirror _ _ _ HI)) as [Hp _].
  split_and!.
  - intros q use Hq. pose proof (sound_serve c Hgeo use k q HS Hq) as Hw. unfold wp in Hw.
    destruct (serve c use q (cl_obj k)) as [[[answer s'] ks]|]; [|done]. exists answer, s', ks. tauto.
  - intros x. by eapply (inv_protected c Hgeo).
  - done.
  - rewrite Hp. apply HI.
  - intros r. rewrite Hp. intros Hr. split; [|eapply (blocky_elem c); [exact (inv_coal _ _ _ HI)|apply (inv_blocky _ _ _ HI)|done]].
    destruct (coal_ends _ _ _ (inv_coal _ _ _ HI) Hr) as [[H1 _] [H2 _]].
    apply (inv_in_pool _ _ _ HI) in H1. apply (inv_in_pool _ _ _ HI) in H2. unfold inside. lia.
  - intros E. rewrite (He E) in Hp. split; [by apply Permutation_nil_r|]. unfold ProtectedRanges_dtor. by rewrite (He E).
Qed.

(** When [UseRange] refuses what an addition needs, [AddRange] returns [false] and everything is taken back:
    every field of the object is what it was, and so are the hardware ranges and the addresses in use. *)
Theorem add_refused k r use s' ks :
  client_reachable c s0 k -> permitted c k (ReqAdd r) -> serve c use (ReqAdd r) (cl_obj k) = Done (Some false, s', ks) ->
  s' = cl_obj k /\ hw_ranges (hw_after (cl_hw k) ks) ≡ₚ hw_ranges (cl_hw k) /\
  forall x, hw_used (hw_after (cl_hw k) ks) x <-> hw_used (cl_hw k) x.
Proof using All.
  intros Hk Hp E. destruct (promises_sound k Hk) as [Hgeo HS]. pose proof (sound_serve c Hgeo use k _ HS Hp) as Hw. unfold wp in Hw. rewrite E in Hw.
  destruct Hw as (_ & _ & Hw). destruct (Hw r eq_refl eq_refl) as [-> HM]. destruct HS as (HI & _).
  destruct (mi_at _ _ HM) as [Hp1 Hu1]. destruct (mi_at _ _ (inv_mirror _ _ _ HI)) as [Hp2 Hu2]. split_and!; [done|by rewrite Hp1, Hp2|].
  intros x. by rewrite Hu1, Hu2.
Qed.

(** Stepping ends at the goal: when [UseRange] does not refuse, a bounded number of calls of
    [StepTowardOptimalRanges] (one more than the addresses in which [ranges_] and [goal_ranges_] differ) reaches
    one that returns [true], and [ranges_] is then [goal_ranges_]; no assertion fails and every call on the
    hardware is allowed on the way, with all buffers in use. *)
Theorem steps_converge k n :
  client_reachable c s0 k -> (away (ranges_ (cl_obj k)) (goal_ranges_ (cl_obj k)) < n)%nat ->
  exists s' ks, optimize c n (cl_obj k) = Done (true, s', ks) /\ ranges_ s' = goal_ranges_ (cl_obj k) /\
    requested_ranges_ s' = requested k /\ obeys c (requested k) (cl_hw k) ks.
Proof using All.
  intros Hk Hn. destruct (promises_sound k Hk) as [Hgeo (HI & _)]. pose proof (inv_asked _ _ _ HI) as HA.
  pose proof (optimize_wp c (required_ranges_ (cl_obj k)) (requested k) (geo_capacity c Hgeo) (requested_ok c _ _ HA)
    ltac:(intros x; by apply (requested_covered c Hgeo)) n _ _ (inv_steady c Hgeo _ _ HI) Hn) as Hw.
  unfold wp in Hw. destruct (optimize c n (cl_obj k)) as [[[b s'] ks]|]; [|done]. destruct Hw as (Ho & -> & _ & ->). eexists _, ks. done.
Qed.

(** C38. For such hardware ([Suitable]; without dynamic ranges [ForUnprotectedRanges] gives nothing) with a pool that
    is not empty, between the requests of such a run: [ForUnprotectedRanges] gives the callback non-empty ranges in order, without overlap, that cover exactly
    the addresses of the pool outside the hardware ranges (the same within a part of the pool for
    [ForUnprotectedRangesOverlappingRange]), and [GetLoanableBytes] is their total length. *)
Theorem loan_exact k :
  client_reachable c s0 k -> 0 < GetSize control ->
  (forall range, okr range -> inside c range ->
     exists out, ForUnprotectedRangesOverlappingRange c range (cl_obj k) = Done out /\ disj (GetBase control) out /\
       forall x, covers out x <-> inr range x /\ ~ covers (hw_ranges (cl_hw k)) x) /\
  exists out, ForUnprotectedRanges c (cl_obj k) = Done out /\ disj (GetBase control) out /\
    (forall x, covers out x <-> GetBase control <= x < GetBase control + GetSize control /\ ~ covers (hw_ranges (cl_hw k)) x) /\
    GetLoanableBytes c (cl_obj k) = total out.
Proof using All.
  intros Hk Hsz. destruct (promises_sound k Hk) as [Hgeo (HI & _)]. assert (ranges_control_ c = control) as Ec.
  { clear Hk. unfold ProtectedRanges in Hctor. destruct (1 <=? MaxRangeCount control); [|done]. cbn [zx_assert exec_bind] in Hctor.
    destruct (1 <=? GetRangeGranularity control); [|done]. cbn [zx_assert exec_bind] in Hctor. by injection Hctor as <- _. }
  destruct (mi_at _ _ (inv_mirror _ _ _ HI)) as [Hp _].
  assert (forall range, okr range -> inside c range -> exists out, ForUnprotectedRangesOverlappingRange c range (cl_obj k) = Done out /\
    disj (GetBase control) out /\ forall x, covers out x <-> inr range x /\ ~ covers (hw_ranges (cl_hw k)) x) as Hall.
  { intros range Hr Hin. destruct (unprotected_exact c Hgeo _ _ range HI Hr Hin) as (out & E & Hd & Hx). rewrite Ec in Hd.
    exists out. split_and!; [done..|]. intros x. by rewrite Hp. }
  split; [done|]. destruct (Hall (BeginLength (GetBase control) (GetSize control))) as (out & E & Hd & Hx).
  { pose proof (geo_end c Hgeo) as He. pose proof (geo_gran c Hgeo). rewrite Ec in He. destruct (su_base _ Hsuit). unfold okr, en. simpl. lia. }
  { unfold inside, en. rewrite Ec. simpl. lia. }
  exists out. split_and!; [unfold ForUnprotectedRanges; by rewrite Ec|done|done|].
  eapply (loan_total c Hgeo); [done|by rewrite Ec|]. intros x. rewrite Ec, <- Hp. apply Hx.
Qed.
End promises.

(** ** Examples *)

Module ClientExample.

#[global] Instance example_fbl : Fbl := {| round_down a n := a - a mod n; round_up a n := a + n - 1 - (a + n - 1) mod n |}.

Lemma example_fbl_laws : FblLaws.
Proof. by split. Qed.

(** Hardware with four ranges, blocks of 16 bytes, and a pool of 32 kB. *)
Definition control : Control := mkControl true 4 16 true 4096 32768.
Definition config : Config := mkConfig control true 4 true 3 16.

Lemma control_suitable : Suitable control.
Proof. constructor; simpl; [done|lia|split; [lia|done]|split; [lia|done]|lia]. Qed.

Definition always (r : Range) : bool := true.
Definition never (r : Range) : bool := false.

(** The client after a request, [UseRange] never refusing. *)
Definition after (k : Client) (q : ClientRequest) : Client :=
  match serve config always q (cl_obj k) with
  | Done (answer, s', ks) => mkClient s' (hw_after (cl_hw k) ks) (settled_after (cl_settled k) q answer)
  | Panic => k
  end.

Lemma after_reachable k q : client_reachable config PR_empty k -> permitted config k q -> client_reachable config PR_empty (after k q).
Proof.
  intros Hk Hq. unfold after. destruct (serve config always q (cl_obj k)) as [[[answer s'] ks]|] eqn:E; [|done]. by eapply client_serve.
Qed.

(** A range outside the ones that are there. *)
Lemma add_permitted k r l :
  cl_settled k = true -> requested k = l -> okr r -> inside config r -> Forall (apart r) l -> permitted config k (ReqAdd r).
Proof.
  intros Hs <- Hr Hi Hl. split_and!; [done..|]. intros x Hx (q & Hq & Hxq). rewrite Forall_forall in Hl. specialize (Hl q Hq).
  unfold apart, inr in *. lia.
Qed.

Definition buffer1 : Range := mkRange 4100 10.
Definition buffer2 : Range := mkRange 4300 100.
Definition buffer3 : Range := mkRange 5000 10.
Definition buffer4 : Range := mkRange 4600 30.

Definition client0 : Client := mkClient PR_empty HW_empty true.
Definition client1 : Client := after client0 (ReqAdd buffer1).
Definition client2 : Client := after client1 (ReqAdd buffer2).
Definition client3 : Client := after client2 (ReqAdd buffer3).
Definition client4 : Client := after client3 (ReqAdd buffer4).
Ltac permit l :=
  apply (add_permitted _ _ l); [vm_compute; reflexivity|vm_compute; reflexivity|unfold okr, en; simpl; lia|unfold inside, en; simpl; lia
    |repeat constructor; unfold apart, en; simpl; lia].

Lemma buffer3_permitted : permitted config client2 (ReqAdd buffer3).
Proof. permit [buffer1; buffer2]. Qed.

Lemma client2_reachable : client_reachable config PR_empty client2.
Proof. apply after_reachable; [apply after_reachable; [apply client_start|]|]; [permit (@nil Range)|permit [buffer1]]. Qed.

Lemma client4_reachable : client_reachable config PR_empty client4.
Proof.
  apply after_reachable; [apply after_reachable; [apply client2_reachable|apply buffer3_permitted]|]. permit [buffer1; buffer2; buffer3].
Qed.

Lemma client4_requested : requested client4 = [buffer1; buffer2; buffer4; buffer3].
Proof. vm_compute. reflexivity. Qed.

(** Additions extend a range; four buffers are then to be covered by three ranges. *)
Lemma client4_ranges :
  ranges_ (cl_obj client4) = [mkRange 4096 928] /\
  goal_ranges_ (cl_obj client4) = [mkRange 4096 304; mkRange 4592 48; mkRange 4992 32].
Proof. vm_compute. split; reflexivity. Qed.

Lemma protected_run_witness :
  client_reachable config PR_empty client4 /\ requested client4 = [buffer1; buffer2; buffer4; buffer3] /\
  (forall x, covers (requested client4) x -> covers (hw_ranges (cl_hw client4)) x).
Proof.
  split; [exact client4_reachable|]. split; [exact client4_requested|].
  apply (@protected_run example_fbl example_fbl_laws control config PR_empty control_suitable eq_refl client4 client4_reachable).
Defined.

Lemma add_refused_witness :
  exists s' ks, serve config never (ReqAdd buffer3) (cl_obj client2) = Done (Some false, s', ks) /\ s' = cl_obj client2.
Proof.
  destruct (serve config never (ReqAdd buffer3) (cl_obj client2)) as [[[[[|]|] s'] ks]|] eqn:E; [vm_compute in E; discriminate E| |vm_compute in E; discriminate E..].
  exists s', ks. split; [reflexivity|].
  exact (proj1 (@add_refused example_fbl example_fbl_laws control config PR_empty control_suitable eq_refl client2 buffer3 never s' ks client2_reachable buffer3_permitted E)).
Defined.

Lemma steps_converge_witness :
  exists s' ks, optimize config 545 (cl_obj client4) = Done (true, s', ks) /\ ranges_ s' = goal_ranges_ (cl_obj client4).
Proof.
  destruct (@steps_converge example_fbl example_fbl_laws control config PR_empty control_suitable eq_refl client4 545 client4_reachable)
    as (s' & ks & E & Hr & _); [apply Nat.ltb_lt; vm_compute; reflexivity|]. exists s', ks. split; [exact E|exact Hr].
Defined.

Lemma loan_exact_witness :
  client_reachable config PR_empty client4 /\ exists out, ForUnprotectedRanges config (cl_obj client4) = Done out /\ GetLoanableBytes config (cl_obj client4) = total out.
Proof.
  split; [exact client4_reachable|].
  destruct (@loan_exact example_fbl example_fbl_laws control config PR_empty control_suitable eq_refl client4 client4_reachable) as [_ (out & E & _ & _ & Ht)];
    [reflexivity|]. exists out. split; [exact E|exact Ht].
Defined.

(** ** The sets derived from the required ranges *)

Lemma client4_derived : DerivedOf config (required_ranges_ (cl_obj client4)) (cl_obj client4).
Proof.
  destruct (@promises_sound example_fbl example_fbl_laws control config PR_empty control_suitable eq_refl client4 client4_reachable) as [_ [HI _]]. exact (inv_derived _ _ _ HI).
Qed.

Lemma derived_set_required c required l s : DerivedOf c required s -> DerivedOf c required (set_required l s).
Proof. done. Qed.

(** The hull is one range that covers all that is required; three ranges cover less. *)
Lemma goal_optimal_witness : total (goal_ranges_ (cl_obj client4)) <= total [mkRange 4096 928].
Proof.
  apply (goal_optimal config (required_ranges_ (cl_obj client4))).
  - vm_compute. split; [discriminate|reflexivity].
  - exact client4_derived.
  - simpl. unfold okr, en. simpl. lia.
  - vm_compute. discriminate.
  - assert (required_ranges_ (cl_obj client4) = [mkRange 4096 16; mkRange 4288 112; mkRange 4592 48; mkRange 4992 32]) as -> by (vm_compute; reflexivity).
    intros x. rewrite !covers_cons, covers_nil. unfold inr, en. simpl. lia.
Defined.

(** One more required range. *)
Lemma propagate_exact_witness :
  let s := set_required (insert_by_begin (mkRange 6000 16) (required_ranges_ (cl_obj client4))) (cl_obj client4) in
  exists s', PropagateRequiredRangesToGoalRanges config (mkRange 6000 16) s = Done (tt, s', []) /\ rebuild config (required_ranges_ s) s = Done s'.
Proof.
  intros s. destruct (propagate_exact config (mkRange 6000 16) (required_ranges_ (cl_obj client4)) s) as (s' & E1 & E2 & _).
  - vm_compute. split; [discriminate|reflexivity].
  - unfold okr, en. simpl. lia.
  - assert (required_ranges_ s = [mkRange 4096 16; mkRange 4288 112; mkRange 4592 48; mkRange 4992 32; mkRange 6000 16]) as -> by (vm_compute; reflexivity).
    split; repeat constructor; unfold okr, en; simpl; lia.
  - exact (derived_set_required _ _ _ _ client4_derived).
  - intros x Hx. unfold s. cbn [required_ranges_ set_required]. rewrite emplace_covers. tauto.
  - exists s'. split; [exact E1|exact E2].
Defined.

(** ** Adding before the ranges have settled *)

(** Blocks of one byte, to have small numbers. *)
Definition bytewise : Config := mkConfig (mkControl true 4 1 true 0 2000) true 4 true 3 1.

Definition add_byte (x : Z) : ClientRequest * (Range -> bool) := (ReqAdd (mkRange x 1), always).

(** Five buffers and a deletion, after which a range that covers no buffer is left. *)
Definition unsettled : list (ClientRequest * (Range -> bool)) :=
  map add_byte [1010; 1005; 1000; 1100; 1200] ++ [(ReqDelete (mkRange 1005 1), always)].

(** More buffers, each the closest to the ones before. *)
Definition crowd : list (ClientRequest * (Range -> bool)) :=
  map (fun n => add_byte (1010 + 8 * Z.of_nat n)) (seq 1 11) ++ map (fun n => add_byte (1100 + 8 * Z.of_nat n)) (seq 1 12).

(** An addition right after a deletion, which the client's timer allows, is not safe: [FixupRangesDuringAdd]
    relies on every range of [ranges_] covering part of a buffer, but the steps of [DeleteRange] stop as soon as
    one would need [UseRange], and can leave a range that covers none. In one run (buffers of one byte at 1010,
    1005, 1000, 1100, 1200, the one at 1005 deleted, then 7 bytes at 1002 added) [AddRange] returns [true] with
    the bytes 1006 to 1008 of the buffer in no hardware range; in another one, where [UseRange] never refuses,
    the addition of a byte at 0 aborts because there are no two ranges to merge. *)
Theorem add_before_settling :
  ProtectedRanges (mkControl true 4 1 true 0 2000) = Done (bytewise, PR_empty) /\
  (exists s ks, serve_all bytewise (unsettled ++ [(ReqAdd (mkRange 1002 7), always)]) PR_empty =
     Done ([Some true; Some true; Some true; Some true; Some true; None; Some true], s, ks) /\
     mkRange 1002 7 ∈ requested_ranges_ s /\
     forall x, covers (hw_ranges (hw_after HW_empty ks)) x -> ~ 1006 <= x <= 1008) /\
  (exists answers s ks, serve_all bytewise (unsettled ++ crowd) PR_empty = Done (answers, s, ks) /\ Forall (fun a => a <> Some false) answers) /\
  serve_all bytewise (unsettled ++ crowd ++ [add_byte 0]) PR_empty = Panic.
Proof.
  split_and!.
  - reflexivity.
  - eexists _, _. split; [vm_compute; reflexivity|]. split; [apply (bool_decide_unpack _); vm_compute; exact I|].
    intros x (r & Hr & Hx). vm_compute in Hr. apply elem_of_cons in Hr as [->|Hr]; [unfold inr, en in Hx; simpl in Hx; lia|].
    apply list_elem_of_singleton in Hr as ->. unfold inr, en in Hx. simpl in Hx. lia.
  - eexists _, _, _. split; [vm_compute; reflexivity|]. repeat constructor; discriminate.
  - vm_compute. reflexivity.
Qed.
End ClientExample.
