(* ===== verification/VerityGeometry.v ===== *)
(** * VerityGeometry: the layout of a block-verity partition

    Model of [src/devices/block/drivers/block-verity/geometry.cc] and [geometry.h]: how many blocks
    hold integrity data, and where the hash of a block is. *)
From Stdlib Require Import ZArith Lia.
From stdpp Require Import prelude.
From S2P Require Import Prelude.

Local Open Scope Z_scope.

Definition kBlockSize : Z := 4096.
Definition kHashOutputSize : Z := 32.
Definition kMaxBlockCount : Z := 0xfffff.

Record IntegrityShape := mkShape {
  integrity_block_count : Z;
  tree_depth : Z
}.

Record BlockAllocation := mkAllocation {
  superblock_count : Z;
  padded_integrity_block_count : Z;
  data_block_count : Z;
  integrity_shape : IntegrityShape
}.

Record HashLocation := mkLocation {
  integrity_block : Z;
  hash_in_block : Z
}.

(** ** Counting blocks *)

(** The recursion, at most [fuel] deep: one that does not end overflows the stack. [hash_size] is not
    zero. *)
Fixpoint integrity_shape_for (fuel : nat) (block_size hash_size data_block_count : Z)
    : exec IntegrityShape :=
  match fuel with
  | O => Panic
  | S fuel' =>
      (ASSERT block_size mod hash_size =? 0 ;;
       let hashes_per_block := block_size / hash_size in
       let direct_hash_blocks_needed_floored := data_block_count / hashes_per_block in
       let remainder := u32 (data_block_count mod hashes_per_block) in
       let direct_hash_blocks_needed :=
         u64 (direct_hash_blocks_needed_floored + (if remainder =? 0 then 0 else 1)) in
       if direct_hash_blocks_needed =? 1 then Done (mkShape 1 1)
       else
         indirect ← integrity_shape_for fuel' block_size hash_size direct_hash_blocks_needed;
         Done (mkShape (u64 (direct_hash_blocks_needed + integrity_block_count indirect))
                 (u32 (1 + tree_depth indirect))))%exec
  end.

Definition IntegrityShapeFor (block_size hash_size data_block_count : Z) : exec IntegrityShape :=
  integrity_shape_for 64 block_size hash_size data_block_count.

(** The binary search of [BestSplitFor]: the largest possible number of data blocks and the shape
    tried last with success. *)
Fixpoint split_search (fuel : nat) (block_size hash_size total_blocks largest smallest : Z)
    (best : IntegrityShape) : exec (Z * IntegrityShape) :=
  match fuel with
  | O => Panic
  | S fuel' =>
      if largest + 1 <? smallest then
        let test := largest + (smallest - largest) / 2 in
        i ← IntegrityShapeFor block_size hash_size test;
        if u64 (u64 (test + integrity_block_count i) + 1) <=? total_blocks
        then split_search fuel' block_size hash_size total_blocks test smallest i
        else split_search fuel' block_size hash_size total_blocks largest test best
      else Done (largest, best)
  end.

(** [uninitialised] is the value of [best_integrity_shape_yet] before anything is assigned to it. *)
Definition BestSplitFor (uninitialised : IntegrityShape) (block_size hash_size total_blocks : Z)
    : exec BlockAllocation :=
  (ASSERT block_size mod hash_size =? 0 ;;
   ASSERT 3 <=? total_blocks ;;
   '(largest, best) ← split_search 65 block_size hash_size total_blocks 1 (total_blocks - 2) uninitialised;
   Done (mkAllocation 1 (total_blocks - 1 - largest) largest best))%exec.

(** ** Locations *)

Record Geometry := mkGeometry {
  total_blocks_ : Z;
  hash_size_ : Z;
  block_size_ : Z;
  hashes_per_block_ : Z;
  allocation_ : BlockAllocation
}.

(** The constructor. *)
Definition new_geometry (uninitialised : IntegrityShape) (block_size hash_size total_blocks : Z)
    : exec Geometry :=
  a ← BestSplitFor uninitialised block_size hash_size total_blocks;
  Done (mkGeometry total_blocks hash_size block_size (block_size / hash_size) a).

(** The loop; it ends if [hashes_per_block] is at least two. *)
Fixpoint skip_blocks (fuel : nat) (hashes_per_block to_pass block_offset : Z) : exec Z :=
  match fuel with
  | O => Panic
  | S fuel' =>
      if 0 <? to_pass
      then skip_blocks fuel' hashes_per_block (to_pass / hashes_per_block) (u64 (block_offset + to_pass))
      else Done block_offset
  end.

Definition IntegrityDataLocationForDataBlock (g : Geometry) (data_block_index : Z) : exec HashLocation :=
  block_offset ← skip_blocks 65 (hashes_per_block_ g) (data_block_index / hashes_per_block_ g) 0;
  Done (mkLocation block_offset (u32 (data_block_index mod hashes_per_block_ g))).

Definition tier_stride (hashes_per_block : Z) (distance_from_leaf : nat) : Z :=
  Nat.iter distance_from_leaf (fun s => u64 (u64 (s * hashes_per_block) + 1)) 1.

Definition NextIntegrityBlockUp (g : Geometry) (distance_from_leaf integrity_block_index : Z)
    : HashLocation :=
  let one_indexed := u64 (integrity_block_index + 1) in
  let current_tier_stride := tier_stride (hashes_per_block_ g) (Z.to_nat distance_from_leaf) in
  let next_tier_stride := u64 (u64 (current_tier_stride * hashes_per_block_ g) + 1) in
  let block_in_tier_chunk := one_indexed mod next_tier_stride in
  let unadjusted := u32 (block_in_tier_chunk / current_tier_stride) in
  let offset_within_block :=
    if u64 (unadjusted * current_tier_stride) =? block_in_tier_chunk
    then u32 (unadjusted - 1) else unadjusted in
  let one_indexed_containing := u64 (one_indexed - one_indexed mod next_tier_stride + next_tier_stride) in
  let containing := u64 (one_indexed_containing - 1) in
  let shape := integrity_shape (allocation_ g) in
  let max_block_index_at_tier :=
    u64 (integrity_block_count shape - u32 (tree_depth shape - 1 - distance_from_leaf)) in
  let clamped := if max_block_index_at_tier <? containing then max_block_index_at_tier else containing in
  mkLocation clamped offset_within_block.

Definition AbsoluteLocationForIntegrity (g : Geometry) (index : Z) : Z :=
  u64 (superblock_count (allocation_ g) + index).

Definition AbsoluteLocationForData (g : Geometry) (index : Z) : Z :=
  u64 (superblock_count (allocation_ g) + padded_integrity_block_count (allocation_ g) + index).

(** ** Division rounded up *)

Definition cdiv (a b : Z) : Z := a / b + (if a mod b =? 0 then 0 else 1).

Lemma cdiv_spec a b : 0 < b -> b * (cdiv a b - 1) < a <= b * cdiv a b.
Proof.
  intros Hb. unfold cdiv. pose proof (Z.div_mod a b ltac:(lia)). pose proof (Z.mod_pos_bound a b Hb).
  destruct (Z.eqb_spec (a mod b) 0); nia.
Qed.

Lemma cdiv_unique a b q : 0 < b -> b * (q - 1) < a <= b * q -> cdiv a b = q.
Proof. intros Hb Hq. pose proof (cdiv_spec a b Hb). nia. Qed.

Lemma cdiv_mono a a' b : 0 < b -> a <= a' -> cdiv a b <= cdiv a' b.
Proof. intros Hb Ha. pose proof (cdiv_spec a b Hb). pose proof (cdiv_spec a' b Hb). nia. Qed.

Lemma cdiv_pos a b : 0 < b -> 1 <= a -> 1 <= cdiv a b.
Proof. intros Hb Ha. pose proof (cdiv_spec a b Hb). nia. Qed.

Lemma cdiv_one a b : 0 < b -> 1 <= a -> (cdiv a b = 1 <-> a <= b).
Proof. intros Hb Ha. pose proof (cdiv_spec a b Hb). pose proof (cdiv_pos a b Hb Ha). nia. Qed.

(** ** The shape of the tree *)

Section shape.
Context (block_size hash_size h : Z).
Hypothesis Hsizes : block_size = h * hash_size.
Hypothesis Hhash : 0 < hash_size.
Hypothesis Hh : 2 <= h < 2 ^ 32.

(** The blocks of a tree of depth [D] over [n] blocks: tier by tier. *)
Fixpoint tree_blocks (D : nat) (n : Z) : Z :=
  match D with
  | O => 0
  | S D' => cdiv n h + tree_blocks D' (cdiv n h)
  end.

(** [D] tiers are needed, and enough. *)
Definition needs_depth (n : Z) (D : nat) : Prop :=
  (0 < D)%nat /\ n <= h ^ Z.of_nat D /\ ((1 < D)%nat -> h ^ (Z.of_nat D - 1) < n).

Lemma sizes_mod : block_size mod hash_size = 0 /\ block_size / hash_size = h.
Proof using Hsizes Hhash. rewrite Hsizes, Z.mod_mul, Z.div_mul by lia. done. Qed.

Lemma pow_S k : (0 <= k)%Z -> h ^ (k + 1) = h * h ^ k.
Proof using Hh. intros. rewrite Z.pow_add_r by lia. lia. Qed.

Lemma integrity_shape_spec fuel n :
  1 <= n < 2 ^ 62 -> (0 < fuel)%nat -> n <= h ^ Z.of_nat fuel ->
  exists D, (D <= fuel)%nat /\ needs_depth n D /\ 1 <= tree_blocks D n <= 2 * n /\
    integrity_shape_for fuel block_size hash_size n = Done (mkShape (tree_blocks D n) (Z.of_nat D)).
Proof using Hsizes Hhash Hh.
  destruct sizes_mod as [Hm Hd].
  revert n. induction fuel as [|fuel IH]; intros n Hn Hf Hpow; [lia|]. simpl integrity_shape_for.
  rewrite Hm, Hd. simpl. unfold u32. rewrite (Z.mod_small (n mod h)) by (pose proof (Z.mod_pos_bound n h); lia).
  fold (cdiv n h). pose proof (cdiv_spec n h ltac:(lia)) as Hc. pose proof (cdiv_pos n h ltac:(lia) ltac:(lia)).
  rewrite u64_small by (unfold is_u64; nia).
  destruct (Z.eqb_spec (cdiv n h) 1) as [E|E].
  - exists 1%nat. simpl. rewrite E. unfold needs_depth. change (Z.of_nat 1) with 1. rewrite Z.pow_1_r.
    split_and!; try done; try lia.
  - rewrite Nat2Z.inj_succ, <- Z.add_1_r, pow_S in Hpow by lia.
    assert (fuel <> 0)%nat by (intros ->; simpl in Hpow; nia).
    destruct (IH (cdiv n h)) as (D & HD & (H1 & H2 & H3) & Hb & Hs); [nia|lia|nia|].
    rewrite Hs. simpl. exists (S D). split_and!; [lia| | | |].
    + unfold needs_depth. rewrite Nat2Z.inj_succ, <- Z.add_1_r, pow_S by lia.
      split_and!; [lia|nia|]. intros _. rewrite Z.add_simpl_r.
      destruct (decide (1 < D)%nat) as [HD1|].
      * specialize (H3 HD1). replace (Z.of_nat D) with (Z.of_nat D - 1 + 1) by lia. rewrite pow_S by lia. nia.
      * replace (Z.of_nat D) with 1 by lia. rewrite Z.pow_1_r. nia.
    + simpl. lia.
    + simpl. assert (3 <= n) by nia. nia.
    + unfold u32. rewrite u64_small, (Z.mod_small (1 + _)).
      * f_equal. f_equal. lia.
      * assert (Z.of_nat D <= 64); [|lia]. destruct (decide (1 < D)%nat) as [HD1|]; [|lia].
        specialize (H3 HD1). assert (Z.of_nat D - 1 < 62); [|lia].
        apply (Z.pow_lt_mono_r_iff 2); [lia..|].
        pose proof (Z.pow_le_mono_l 2 h (Z.of_nat D - 1)). nia.
      * unfold is_u64. nia.
Qed.

Lemma IntegrityShapeFor_spec n :
  1 <= n < 2 ^ 62 ->
  exists D, needs_depth n D /\ 1 <= tree_blocks D n <= 2 * n /\
    IntegrityShapeFor block_size hash_size n = Done (mkShape (tree_blocks D n) (Z.of_nat D)).
Proof using Hsizes Hhash Hh.
  intros Hn. destruct (integrity_shape_spec 64 n Hn) as (D & _ & H1 & H2 & H3); [lia| |eauto].
  pose proof (Z.pow_le_mono_l 2 h 64). change (Z.of_nat 64) with 64. lia.
Qed.

(** The depth is determined. *)
Lemma needs_depth_unique n D D' : 0 < n -> needs_depth n D -> needs_depth n D' -> D = D'.
Proof using Hh.
  intros Hn (H1 & H2 & H3) (H1' & H2' & H3').
  assert (forall E E' : nat, (1 < E)%nat -> h ^ (Z.of_nat E - 1) < n -> n <= h ^ Z.of_nat E' -> (E <= E')%nat) as Hle.
  { intros E E' HE Hlt Hge. destruct (decide (E <= E')%nat); [done|].
    pose proof (Z.pow_le_mono_r h (Z.of_nat E') (Z.of_nat E - 1)). lia. }
  destruct (decide (1 < D)%nat), (decide (1 < D')%nat); [apply Nat.le_antisymm| | |]; eauto; try lia.
  - specialize (Hle D D'). lia.
  - specialize (Hle D' D). lia.
Qed.

Lemma tree_blocks_mono n n' D D' :
  1 <= n <= n' -> needs_depth n D -> needs_depth n' D' -> tree_blocks D n <= tree_blocks D' n'.
Proof using Hh.
  revert n n' D'. induction D as [|D IH]; intros n n' D' Hn (H1 & H2 & H3) (H1' & H2' & H3'); [lia|].
  destruct D' as [|D']; [lia|]. simpl.
  pose proof (cdiv_mono n n' h ltac:(lia) ltac:(lia)). pose proof (cdiv_pos n h ltac:(lia) ltac:(lia)).
  assert (forall E m, 0 <= tree_blocks E m \/ m < 1) as Hpos.
  { clear -Hh. induction E as [|E IHE]; intros m; simpl; [lia|]. destruct (decide (m < 1)); [lia|].
    pose proof (cdiv_pos m h ltac:(lia) ltac:(lia)). destruct (IHE (cdiv m h)); lia. }
  destruct D as [|D]; [simpl; destruct (Hpos D' (cdiv n' h)); lia|].
  assert (forall E m, 1 <= m -> needs_depth m (S (S E)) -> needs_depth (cdiv m h) (S E)) as Hup.
  { clear -Hh. intros E m Hm (_ & H2 & H3). pose proof (cdiv_spec m h ltac:(lia)).
    specialize (H3 ltac:(lia)). rewrite Nat2Z.inj_succ, <- Z.add_1_r, pow_S in H2 by lia.
    rewrite (Nat2Z.inj_succ (S E)), <- Z.add_1_r, Z.add_simpl_r in H3.
    unfold needs_depth. split_and!; [lia|nia|]. intros _.
    rewrite Nat2Z.inj_succ, <- Z.add_1_r in *. rewrite Z.add_simpl_r. rewrite pow_S in H3 by lia. nia. }
  assert (D' <> 0)%nat as HD'.
  { intros ->. specialize (H3 ltac:(lia)). change (Z.of_nat 1) with 1 in H2'. rewrite Z.pow_1_r in H2'.
    pose proof (Z.pow_le_mono_r h 1 (Z.of_nat (S (S D)) - 1)). lia. }
  destruct D' as [|D']; [done|].
  assert (tree_blocks (S D) (cdiv n h) <= tree_blocks (S D') (cdiv n' h)); [|lia].
  apply IH; [lia|apply Hup; [lia|by split_and!]..].
Qed.

(** ** The split of a partition *)

(** [m] data blocks fit a partition of [total] blocks. *)
Definition fits (total m : Z) : Prop :=
  exists s, IntegrityShapeFor block_size hash_size m = Done s /\ 1 + integrity_block_count s + m <= total.

Lemma fits_mono total m m' : 1 <= m <= m' -> m' < 2 ^ 62 -> fits total m' -> fits total m.
Proof using Hsizes Hhash Hh.
  intros Hm Hm' (s' & Hs' & Hf).
  destruct (IntegrityShapeFor_spec m) as (D & HD & _ & Hs); [lia|].
  destruct (IntegrityShapeFor_spec m') as (D' & HD' & _ & Hs2); [lia|].
  rewrite Hs2 in Hs'. injection Hs' as <-. simpl in Hf.
  pose proof (tree_blocks_mono m m' D D' Hm HD HD'). eexists. split; [exact Hs|]. simpl. lia.
Qed.

Lemma split_search_spec fuel total lo hi best :
  1 <= lo < hi -> hi < 2 ^ 62 -> total < 2 ^ 62 -> hi - lo <= 2 ^ Z.of_nat fuel ->
  exists r s, split_search (S fuel) block_size hash_size total lo hi best = Done (r, s) /\ lo <= r < hi /\
    (r = lo /\ s = best \/ IntegrityShapeFor block_size hash_size r = Done s /\ fits total r) /\
    (r + 1 = hi \/ ~ fits total (r + 1)).
Proof using Hsizes Hhash Hh.
  revert lo hi best. induction fuel as [|fuel IH]; intros lo hi best Hlo Hhi Ht Hd.
  - exists lo, best. simpl. rewrite (proj2 (Z.ltb_ge _ _)) by (simpl in Hd; lia). simpl in Hd. split_and!; auto; lia.
  - set (k := S fuel). simpl. destruct (Z.ltb_spec (lo + 1) hi) as [Hlt|Hge].
    2: { exists lo, best. split_and!; auto; lia. }
    set (test := lo + (hi - lo) / 2). pose proof (Z.div_mod (hi - lo) 2 ltac:(lia)).
    pose proof (Z.mod_pos_bound (hi - lo) 2 ltac:(lia)).
    rewrite Nat2Z.inj_succ, Z.pow_succ_r in Hd by lia.
    assert (lo < test < hi) as Htest by (unfold test; lia).
    destruct (IntegrityShapeFor_spec test) as (D & HD & Hb & Hs); [lia|]. rewrite Hs. simpl.
    rewrite !u64_small by (unfold is_u64; rewrite ?u64_small; unfold is_u64; lia).
    destruct (Z.leb_spec (tree_blocks D test + test + 1) total) as [Hfit|Hno];
      rewrite (Z.add_comm test), ?(proj2 (Z.leb_le _ _) Hfit), ?(proj2 (Z.leb_gt _ _) Hno).
    + destruct (IH test hi (mkShape (tree_blocks D test) (Z.of_nat D))) as (r & s & Hr & Hrange & Hs' & Hend);
        [lia|lia|lia|unfold test; lia|].
      exists r, s. split_and!; [exact Hr|lia|lia| |exact Hend]. right.
      destruct Hs' as [[-> ->]|?]; [|assumption]. split; [exact Hs|]. eexists. split; [exact Hs|]. simpl. lia.
    + destruct (IH lo test best) as (r & s & Hr & Hrange & Hs' & Hend);
        [lia|lia|lia|unfold test; lia|].
      exists r, s. split_and!; [exact Hr|lia|lia|exact Hs'|]. destruct Hend as [<-|?]; [|by right]. right.
      intros (s2 & Hs2 & Hf). rewrite Hs in Hs2. injection Hs2 as <-. simpl in Hf. lia.
Qed.
End shape.

Section split.
Context (uninitialised : IntegrityShape) (block_size hash_size h : Z).
Hypothesis Hsizes : block_size = h * hash_size.
Hypothesis Hhash : 0 < hash_size.
Hypothesis Hh : 2 <= h < 2 ^ 32.

Lemma BestSplitFor_spec total :
  5 <= total < 2 ^ 62 ->
  exists a, BestSplitFor uninitialised block_size hash_size total = Done a /\
    superblock_count a = 1 /\ 2 <= data_block_count a < total - 2 /\
    1 + padded_integrity_block_count a + data_block_count a = total /\
    IntegrityShapeFor block_size hash_size (data_block_count a) = Done (integrity_shape a) /\
    1 <= integrity_block_count (integrity_shape a) <= padded_integrity_block_count a /\
    forall m, data_block_count a < m < total - 2 -> ~ fits block_size hash_size total m.
Proof using Hsizes Hhash Hh.
  intros Ht. destruct (split_search_spec block_size hash_size h Hsizes Hhash Hh 64 total 1 (total - 2) uninitialised)
    as (r & s & Hr & Hrange & Hs & Hend); [lia..|change (Z.of_nat 64) with 64; lia|].
  unfold BestSplitFor. rewrite (proj1 (sizes_mod block_size hash_size h Hsizes Hhash)). simpl (_ =? _).
  rewrite (proj2 (Z.leb_le 3 total)) by lia. rewrite Hr. simpl.
  destruct (IntegrityShapeFor_spec block_size hash_size h Hsizes Hhash Hh 2) as (D & HD & Hb & H2); [lia|].
  assert (fits block_size hash_size total 2) as Hf2.
  { exists (mkShape (tree_blocks h D 2) (Z.of_nat D)). split; [exact H2|]. simpl.
    assert (tree_blocks h D 2 = 1) as ->; [|lia].
    assert (D = 1%nat) as ->.
    { apply (needs_depth_unique h Hh 2); [lia|exact HD|]. unfold needs_depth. change (Z.of_nat 1) with 1.
      rewrite Z.pow_1_r. split_and!; lia. }
    simpl. rewrite (proj2 (cdiv_one 2 h ltac:(lia) ltac:(lia))); lia. }
  assert (IntegrityShapeFor block_size hash_size r = Done s /\ fits block_size hash_size total r) as [Hrs Hfr].
  { destruct Hs as [[-> ->]|?]; [|assumption]. destruct Hend as [Hend|Hend]; [lia|]. by destruct Hend. }
  assert (r <> 1). { intros ->. destruct Hend as [Hend|Hend]; [lia|by destruct Hend]. }
  destruct Hfr as (s' & Hs' & Hfit). rewrite Hrs in Hs'. injection Hs' as <-.
  destruct (IntegrityShapeFor_spec block_size hash_size h Hsizes Hhash Hh r) as (D' & _ & Hb' & Hs'); [lia|].
  assert (s = mkShape (tree_blocks h D' r) (Z.of_nat D')) as Es by congruence.
  eexists. split; [reflexivity|]. simpl. split_and!; try lia; [exact Hrs|by rewrite Es; simpl; lia|].
  intros m Hm Hfm. destruct Hend as [Hend|Hend]; [lia|]. apply Hend.
  apply (fits_mono block_size hash_size h Hsizes Hhash Hh total (r + 1) m); [lia|lia|done].
Qed.
End split.

(** The split of a partition of at least five blocks: one superblock, the data blocks, and the rest
    for integrity; the shape is the shape of the tree over those data blocks and fits the integrity
    section, and no larger number of data blocks below [total - 2] fits. *)
Theorem best_split uninitialised block_size hash_size h total :
  block_size = h * hash_size -> 0 < hash_size -> 2 <= h < 2 ^ 32 -> 5 <= total < 2 ^ 62 ->
  exists a, BestSplitFor uninitialised block_size hash_size total = Done a /\
    superblock_count a = 1 /\ 2 <= data_block_count a < total - 2 /\
    superblock_count a + padded_integrity_block_count a + data_block_count a = total /\
    IntegrityShapeFor block_size hash_size (data_block_count a) = Done (integrity_shape a) /\
    1 <= integrity_block_count (integrity_shape a) <= padded_integrity_block_count a /\
    forall m, data_block_count a < m < total - 2 -> ~ fits block_size hash_size total m.
Proof.
  intros Hs Hp Hh Ht.
  destruct (BestSplitFor_spec uninitialised block_size hash_size h Hs Hp Hh total Ht) as (a & Ha & Hone & Hrest).
  exists a. split; [exact Ha|]. rewrite Hone. auto.
Qed.

(** A partition of 40000 blocks. *)
Lemma best_split_witness :
  exists a, BestSplitFor (mkShape 0 0) 4096 32 40000 = Done a /\ data_block_count a = 39684 /\
    superblock_count a + padded_integrity_block_count a + data_block_count a = 40000.
Proof.
  destruct (best_split (mkShape 0 0) 4096 32 128 40000 eq_refl eq_refl ltac:(lia) ltac:(lia))
    as (a & Ha & _ & _ & Hsum & _).
  exists a. split; [exact Ha|]. split; [|exact Hsum].
  assert (BestSplitFor (mkShape 0 0) 4096 32 40000 = Done (mkAllocation 1 315 39684 (mkShape 315 3))) as E
    by (vm_compute; reflexivity).
  rewrite E in Ha. injection Ha as <-. reflexivity.
Defined.

(** ** Small partitions *)

(** A partition of three or four blocks: nothing is searched, and the shape is never assigned. *)
Lemma small_split uninitialised total :
  3 <= total <= 4 ->
  BestSplitFor uninitialised kBlockSize kHashOutputSize total =
    Done (mkAllocation 1 (total - 2) 1 uninitialised).
Proof.
  intros Ht. assert (total = 3 \/ total = 4) as [-> | ->] by lia; reflexivity.
Qed.

(** The search stops one short: where a single integrity block is enough, [total - 2] data blocks fit
    and [total - 3] are taken. *)
Lemma split_one_short uninitialised total :
  5 <= total <= 130 ->
  fits kBlockSize kHashOutputSize total (total - 2) /\
  exists a, BestSplitFor uninitialised kBlockSize kHashOutputSize total = Done a /\ data_block_count a = total - 3.
Proof.
  intros Ht.
  assert (forall m, 1 <= m <= 128 -> fits kBlockSize kHashOutputSize (m + 2) m) as Hfit.
  { intros m Hm.
    destruct (IntegrityShapeFor_spec kBlockSize kHashOutputSize 128 eq_refl ltac:(done) ltac:(done) m)
      as (D & HD & _ & Hs); [lia|].
    assert (D = 1%nat) as ->.
    { apply (needs_depth_unique 128 ltac:(lia) m); [lia|exact HD|]. split_and!; simpl; lia. }
    eexists. split; [exact Hs|]. simpl.
    rewrite (proj2 (cdiv_one m 128 ltac:(lia) ltac:(lia))); lia. }
  split; [replace total with ((total - 2) + 2) at 1 by lia; apply Hfit; lia|].
  destruct (BestSplitFor_spec uninitialised kBlockSize kHashOutputSize 128 eq_refl ltac:(done) ltac:(done) total)
    as (a & Ha & _ & Hn & Hsum & Hshape & Hb & Hmax); [lia|].
  exists a. split; [exact Ha|].
  destruct (Z.eq_dec (data_block_count a) (total - 3)) as [|Hne]; [assumption|].
  destruct (Hmax (total - 3)); [lia|].
  destruct (Hfit (total - 3) ltac:(lia)) as (s & Hs & Hle). exists s. split; [exact Hs|lia].
Qed.

(** The tree the comment in [NextIntegrityBlockUp] describes has 132 blocks, not 131. *)
Example comment_tree : IntegrityShapeFor kBlockSize kHashOutputSize (129 * 128) = Done (mkShape 132 3).
Proof. reflexivity. Qed.

(** ** Where blocks are

    A tree of depth [D] over [N] data blocks is written block by block, each right after the last
    data block below it. *)

(** The integrity blocks that are complete after [n] data blocks. *)
Fixpoint complete_blocks (h : Z) (D : nat) (n : Z) : Z :=
  match D with
  | O => 0
  | S D' => n / h + complete_blocks h D' (n / h)
  end.

(** The place in the integrity section of block [j] of tier [t]. *)
Definition block_pos (h : Z) (D : nat) (N : Z) (t : nat) (j : Z) : Z :=
  complete_blocks h D (Z.min N ((j + 1) * h ^ (Z.of_nat t + 1)) - 1) + Z.of_nat t.

Section positions.
Context (h N : Z) (D : nat).
Hypothesis Hh : 2 <= h.

Lemma complete_nonneg E n : 0 <= n -> 0 <= complete_blocks h E n.
Proof using Hh.
  revert n. induction E as [|E IH]; intros n Hn; simpl; [lia|].
  pose proof (Z.div_pos n h Hn ltac:(lia)). specialize (IH (n / h)). lia.
Qed.

Lemma complete_mono E n n' : 0 <= n <= n' -> complete_blocks h E n <= complete_blocks h E n'.
Proof using Hh.
  revert n n'. induction E as [|E IH]; intros n n' Hn; simpl; [lia|].
  pose proof (Z.div_le_mono n n' h ltac:(lia) ltac:(lia)). pose proof (Z.div_pos n h ltac:(lia) ltac:(lia)).
  specialize (IH (n / h) (n' / h) ltac:(lia)). lia.
Qed.

Lemma complete_zero E : complete_blocks h E 0 = 0.
Proof using Hh. induction E as [|E IH]; simpl; [done|]. by rewrite Z.div_0_l, IH by lia. Qed.

(** The blocks of the whole tree: those complete before the last data block, and one per tier. *)
Lemma tree_blocks_complete E n :
  1 <= n -> tree_blocks h E n = complete_blocks h E (n - 1) + Z.of_nat E.
Proof using Hh.
  revert n. induction E as [|E IH]; intros n Hn; simpl; [lia|].
  assert (cdiv n h = (n - 1) / h + 1) as Hc.
  { apply cdiv_unique; [lia|]. pose proof (Z.div_mod (n - 1) h ltac:(lia)).
    pose proof (Z.mod_pos_bound (n - 1) h ltac:(lia)). nia. }
  rewrite Hc, IH by (pose proof (Z.div_pos (n - 1) h); lia). rewrite Z.add_simpl_r. lia.
Qed.

Lemma skip_blocks_spec fuel m off :
  0 <= m -> m < 2 ^ (Z.of_nat fuel) -> 0 <= off -> off + 2 * m < 2 ^ 64 ->
  forall E, m < h ^ Z.of_nat E ->
  skip_blocks (S fuel) h m off = Done (off + m + complete_blocks h E m).
Proof using Hh.
  revert m off. induction fuel as [|fuel IH]; intros m off Hm Hf Ho Hlt E HE.
  - assert (m = 0) as -> by (simpl in Hf; lia). simpl. rewrite complete_zero. f_equal. lia.
  - change (skip_blocks (S (S fuel)) h m off)
      with (if 0 <? m then skip_blocks (S fuel) h (m / h) (u64 (off + m)) else Done off).
    destruct (Z.ltb_spec 0 m) as [Hpos|Hz].
    + destruct E as [|E]; [simpl in HE; lia|].
      pose proof (Z.div_mod m h ltac:(lia)). pose proof (Z.mod_pos_bound m h ltac:(lia)).
      rewrite u64_small by (unfold is_u64; lia). rewrite (IH (m / h) (off + m)) with (E := E).
      * simpl. f_equal. lia.
      * apply Z.div_pos; lia.
      * rewrite Nat2Z.inj_succ, Z.pow_succ_r in Hf by lia. nia.
      * lia.
      * nia.
      * rewrite Nat2Z.inj_succ, Z.pow_succ_r in HE by lia. nia.
    + assert (m = 0) as -> by lia. rewrite complete_zero. f_equal. lia.
Qed.
End positions.

(** ** The locations are right *)

(** A geometry for [N] data blocks, [h] hashes to a block, in a tree of depth [D]. *)
Record geometry_ok (g : Geometry) (h N : Z) (D : nat) : Prop := {
  go_hashes : hashes_per_block_ g = h;
  go_shape : integrity_shape (allocation_ g) = mkShape (tree_blocks h D N) (Z.of_nat D);
  go_depth : needs_depth h N D;
  go_data : 1 <= N
}.

Section locations.
Context (g : Geometry) (h N : Z) (D : nat).
Hypothesis Hh : 2 <= h < 2 ^ 16.
Hypothesis HN : N <= h ^ 3.
Hypothesis Hg : geometry_ok g h N D.

Lemma depth_3 : (1 <= D <= 3)%nat.
Proof using Hh HN Hg.
  destruct Hg as [_ _ (H1 & _ & H3) _]. split; [done|].
  destruct (decide (D <= 3)%nat) as [|Hn]; [done|]. specialize (H3 ltac:(lia)).
  pose proof (Z.pow_le_mono_r h 3 (Z.of_nat D - 1)). lia.
Qed.

Lemma cube_small : h ^ 3 < 2 ^ 48.
Proof using Hh. pose proof (Z.pow_lt_mono_l h (2 ^ 16) 3). lia. Qed.

Lemma min_last_div a q : 0 < a -> 0 <= q -> a * q < N -> (Z.min N ((q + 1) * a) - 1) / a = q.
Proof using Hh.
  intros. rewrite Z.mul_add_distr_r, Z.mul_1_l, (Z.mul_comm q). symmetry.
  apply Z.div_unique_pos with (r := Z.min N (a * q + a) - 1 - a * q); lia.
Qed.

(** The hash of data block [i]. *)
Lemma location_of_data i :
  0 <= i < N ->
  IntegrityDataLocationForDataBlock g i = Done (mkLocation (block_pos h D N 0 (i / h)) (i mod h)).
Proof using Hh HN Hg.
  intros Hi. pose proof cube_small. destruct depth_3 as [HD1 _]. destruct Hg as [E1 E2 (_ & H2 & _) _].
  unfold IntegrityDataLocationForDataBlock. rewrite E1.
  pose proof (Z.div_mod i h ltac:(lia)) as Hdm. pose proof (Z.mod_pos_bound i h ltac:(lia)) as Hr.
  pose proof (Z.div_pos i h ltac:(lia) ltac:(lia)).
  destruct D as [|E]; [lia|].
  rewrite (skip_blocks_spec h ltac:(lia) 64 (i / h) 0) with (E := E); try lia.
  - simpl. unfold u32. rewrite Z.mod_small by lia. do 2 f_equal. unfold block_pos. change (Z.of_nat 0 + 1) with 1.
    rewrite Z.pow_1_r. simpl.
    rewrite min_last_div; lia.
  - rewrite Nat2Z.inj_succ, Z.pow_succ_r in H2 by lia. nia.
Qed.

Lemma next_up_0 j :
  (1 < D)%nat -> 0 <= j -> h * j < N ->
  NextIntegrityBlockUp g 0 (block_pos h D N 0 j) = mkLocation (block_pos h D N 1 (j / h)) (j mod h).
Proof using Hh HN Hg.
  intros HD Hj Hlt. pose proof cube_small. pose proof depth_3.
  assert (h ^ 3 = h * h * h) as E3 by (simpl; lia). rewrite E3 in *.
  pose proof (Z.div_mod j h ltac:(lia)) as Hdm. pose proof (Z.mod_pos_bound j h ltac:(lia)) as Hr.
  set (q := j / h) in *. set (r := j mod h) in *. assert (0 <= q < h) as Hq by nia.
  assert (q / h = 0) as Hq0 by (apply Z.div_small; lia).
  assert (block_pos h D N 0 j = j + q) as Ep.
  { unfold block_pos. change (Z.of_nat 0 + 1) with 1. rewrite Z.pow_1_r. change (Z.of_nat 0) with 0.
    destruct D as [|[|[|[|?]]]]; try lia; simpl; rewrite min_last_div by lia; fold q; rewrite ?Hq0; lia. }
  set (m := (Z.min N ((q + 1) * (h * h)) - 1) / h).
  assert (m / h = q) as Hm.
  { unfold m. rewrite Z.div_div by lia. apply min_last_div; nia. }
  assert (m = Z.min ((N - 1) / h) ((q + 1) * h - 1)) as Hmin.
  { unfold m. destruct (decide (N <= (q + 1) * (h * h))) as [Hle|Hgt].
    - rewrite Z.min_l by lia. symmetry. apply Z.min_l.
      pose proof (Z.div_mod (N - 1) h ltac:(lia)). pose proof (Z.mod_pos_bound (N - 1) h ltac:(lia)). nia.
    - rewrite !Z.min_r; [|pose proof (Z.div_mod (N - 1) h ltac:(lia)); pose proof (Z.mod_pos_bound (N - 1) h ltac:(lia)); nia|lia].
      symmetry. apply Z.div_unique_pos with (r := h - 1); lia. }
  assert (block_pos h D N 1 q = m + q + 1) as Ep1.
  { unfold block_pos. change (h ^ (Z.of_nat 1 + 1)) with (h ^ 2). rewrite Z.pow_2_r. change (Z.of_nat 1) with 1.
    destruct D as [|[|[|[|?]]]]; try lia; simpl; fold m; rewrite Hm, ?Hq0; lia. }
  assert (tree_blocks h D N - (Z.of_nat D - 1) = (N - 1) / h + (N - 1) / h / h + 1) as Emax.
  { destruct Hg as [_ _ _ ?]. rewrite tree_blocks_complete by lia.
    assert ((N - 1) / h / h / h = 0) as E0.
    { rewrite !Z.div_div by lia. apply Z.div_small. nia. }
    destruct D as [|[|[|[|?]]]]; try lia; simpl; rewrite ?E0; lia. }
  destruct Hg as [Eh Es _ _]. unfold NextIntegrityBlockUp. rewrite Eh, Es, Ep, Ep1. simpl integrity_block_count.
  simpl tree_depth. change (tier_stride h (Z.to_nat 0)) with 1. rewrite Z.mul_1_l.
  rewrite (u64_small h), (u64_small (h + 1)), (u64_small (j + q + 1)) by (unfold is_u64; nia).
  assert ((j + q + 1) mod (h + 1) = r + 1) as ->.
  { symmetry. apply Z.mod_unique_pos with (q := q); nia. }
  rewrite Z.div_1_r. unfold u32. rewrite !(Z.mod_small (r + 1)), Z.mul_1_r by lia.
  rewrite (u64_small (r + 1)), Z.eqb_refl, Z.add_simpl_r, (Z.mod_small r) by (unfold is_u64; lia).
  rewrite (Z.mod_small (Z.of_nat D - 1 - 0)) by lia. rewrite Z.sub_0_r, Emax.
  assert (0 <= (N - 1) / h / h /\ 0 <= (N - 1) / h < h * h) as [Hn1 Hn2].
  { destruct Hg as [_ _ _ ?]. split; [apply Z.div_pos; [apply Z.div_pos|]; lia|].
    split; [apply Z.div_pos; lia|apply Z.div_lt_upper_bound; nia]. }
  pose proof (Z.div_mod ((N - 1) / h) h ltac:(lia)) as Hd2.
  pose proof (Z.mod_pos_bound ((N - 1) / h) h ltac:(lia)) as Hr2.
  set (x := (N - 1) / h) in *. set (y := x / h) in *.
  assert (q <= y) as Hqy by (rewrite <- Hm; apply Z.div_le_mono; lia).
  replace (j + q + 1 - (r + 1) + (h + 1)) with (q * h + q + h + 1) by lia.
  assert (0 <= q * h <= h * h) by nia. assert (h * h < 2 ^ 48) by nia. assert (y <= x) by nia.
  rewrite (u64_small (q * h + q + h + 1)), Z.add_simpl_r by (unfold is_u64; lia).
  rewrite !u64_small by (unfold is_u64; lia). f_equal. rewrite Hmin.
  assert (y = q \/ (q + 1) * h <= x) as [Hy|Hy].
  { destruct (decide (y = q)); [by left|right]. pose proof (Z.mul_le_mono_nonneg_l (q + 1) y h). lia. }
  - assert (x <= q * h + h - 1) by (rewrite Hy in Hd2; lia). rewrite Hy. destruct (Z.ltb_spec (x + q + 1) (q * h + q + h)); lia.
  - destruct (Z.ltb_spec (x + y + 1) (q * h + q + h)); lia.
Qed.

Lemma next_up_1 j :
  (2 < D)%nat -> 0 <= j -> h * h * j < N ->
  NextIntegrityBlockUp g 1 (block_pos h D N 1 j) = mkLocation (block_pos h D N 2 0) j.
Proof using Hh HN Hg.
  intros HD Hj Hlt. pose proof cube_small. pose proof depth_3. assert (D = 3%nat) as ED by lia.
  assert (h ^ 3 = h * h * h) as E3 by (simpl; lia). rewrite E3 in *.
  assert (0 <= j < h) as Hjh by nia. assert (j / h = 0) as Hj0 by (apply Z.div_small; lia).
  destruct Hg as [Eh Es _ HN1].
  set (m := (Z.min N ((j + 1) * (h * h)) - 1) / h).
  assert (m / h = j) as Hm. { unfold m. rewrite Z.div_div by lia. apply min_last_div; lia. }
  pose proof (Z.div_mod m h ltac:(lia)) as Hd. pose proof (Z.mod_pos_bound m h ltac:(lia)) as Hr.
  rewrite Hm in Hd. set (r := m mod h) in *.
  assert (block_pos h D N 1 j = h * j + r + j + 1) as Ep1.
  { unfold block_pos. change (h ^ (Z.of_nat 1 + 1)) with (h ^ 2). rewrite Z.pow_2_r, ED.
    change (Z.of_nat 1) with 1. simpl. fold m. rewrite Hm, Hj0. lia. }
  set (x := (N - 1) / h). assert (0 <= x < h * h) as Hx.
  { split; [apply Z.div_pos; lia|apply Z.div_lt_upper_bound; lia]. }
  assert (0 <= x / h < h) as Hy. { split; [apply Z.div_pos; lia|apply Z.div_lt_upper_bound; lia]. }
  assert (block_pos h D N 2 0 = x + x / h + 2) as Ep2.
  { unfold block_pos. change (h ^ (Z.of_nat 2 + 1)) with (h ^ 3). rewrite E3, ED, Z.min_l by lia.
    change (Z.of_nat 2) with 2. simpl. fold x. rewrite (Z.div_small (x / h)) by lia. lia. }
  assert (tree_blocks h D N = x + x / h + 3) as Etb.
  { rewrite tree_blocks_complete, ED by lia. simpl. fold x. rewrite (Z.div_small (x / h)) by lia. lia. }
  unfold NextIntegrityBlockUp. rewrite Eh, Es, Ep1, Ep2, Etb, ED. simpl integrity_block_count.
  simpl tree_depth. assert (h * j <= h * (h - 1)) by nia. assert (h * h < 2 ^ 32) by nia.
  assert (tier_stride h (Z.to_nat 1) = h + 1) as ->.
  { change (tier_stride h (Z.to_nat 1)) with (u64 (u64 (1 * h) + 1)). rewrite Z.mul_1_l.
    rewrite !u64_small by (unfold is_u64; rewrite ?u64_small by (unfold is_u64; lia); lia). done. }
  rewrite (u64_small ((h + 1) * h)), (u64_small ((h + 1) * h + 1)), (u64_small (h * j + r + j + 1 + 1))
    by (unfold is_u64; lia).
  rewrite (Z.mod_small (h * j + r + j + 1 + 1)) by lia.
  set (one := h * j + r + j + 1 + 1). unfold u32.
  assert (one / (h + 1) = if decide (r = h - 1) then j + 1 else j) as Hdiv.
  { symmetry. unfold one. destruct (decide (r = h - 1)).
    - apply Z.div_unique_pos with (r := 0); lia.
    - apply Z.div_unique_pos with (r := r + 2); lia. }
  assert (0 <= one / (h + 1) <= h) as Hq by (rewrite Hdiv; destruct (decide _); lia).
  rewrite !(Z.mod_small (one / (h + 1))) by lia.
  rewrite (Z.mod_small (Z.of_nat 3 - 1 - 1)) by lia.
  replace (one - one + ((h + 1) * h + 1)) with ((h + 1) * h + 1) by lia.
  rewrite (u64_small ((h + 1) * h + 1)), Z.add_simpl_r by (unfold is_u64; lia).
  rewrite !u64_small by (unfold is_u64; nia).
  f_equal; [destruct (Z.ltb_spec (x + x / h + 3 - (Z.of_nat 3 - 1 - 1)) ((h + 1) * h)); lia|].
  rewrite Hdiv. destruct (decide (r = h - 1)).
  - rewrite (proj2 (Z.eqb_eq _ _)) by (unfold one; lia). rewrite Z.mod_small; lia.
  - rewrite (proj2 (Z.eqb_neq _ _)); [done|unfold one; lia].
Qed.

(** The hash of block [j] of tier [t] is where the code looks for it. *)
Lemma next_up t j :
  (S t < D)%nat -> 0 <= j -> h ^ (Z.of_nat t + 1) * j < N ->
  NextIntegrityBlockUp g (Z.of_nat t) (block_pos h D N t j) =
    mkLocation (block_pos h D N (S t) (j / h)) (j mod h).
Proof using Hh HN Hg.
  intros HD Hj Hlt. pose proof depth_3. destruct t as [|[|t]]; [| |lia].
  - apply next_up_0; [lia..|]. change (Z.of_nat 0 + 1) with 1 in Hlt. by rewrite Z.pow_1_r in Hlt.
  - change (Z.of_nat 1 + 1) with 2 in Hlt. rewrite Z.pow_2_r in Hlt.
    assert (h ^ 3 = h * h * h) as E3 by (simpl; lia). assert (j < h) by nia.
    rewrite (Z.div_small j), (Z.mod_small j) by lia. by apply next_up_1.
Qed.

(** The root is the last block. *)
Lemma root_pos : block_pos h D N (D - 1) 0 = tree_blocks h D N - 1.
Proof using Hh HN Hg.
  pose proof depth_3. destruct Hg as [_ _ (_ & H2 & _) H4]. rewrite tree_blocks_complete by lia. unfold block_pos.
  replace (Z.of_nat (D - 1) + 1) with (Z.of_nat D) by lia. rewrite Z.min_l by lia. lia.
Qed.
End locations.
