(* ===== verification/VeritySealer.v ===== *)
(** * VeritySealer: computing the integrity data of a block-verity partition

    Model of [src/devices/block/drivers/block-verity/hash-block-accumulator.cc], [sealer.cc],
    [driver-sealer.cc] and [superblock.h]. The sealer is a state machine driven by completed I/O: each
    entry point returns the new state and what the sealer does next, a block operation it queues or
    the call of its callback. *)
From Stdlib Require Import ZArith Lia.
From stdpp Require Import prelude.
From S2P Require Import Prelude VerityGeometry.

Local Open Scope Z_scope.

(** The digest library: SHA-256 of a byte string. *)
Class Digest := { hash : list Z -> list Z }.

(** What is relied on: the length of its output. *)
Class DigestOk `{Digest} : Prop := { hash_length : forall b, Z.of_nat (length (hash b)) = kHashOutputSize }.

Definition zeros (n : Z) : list Z := replicate (Z.to_nat n) 0.

(** ** Hash block accumulators *)

Record HashBlockAccumulator := mkHBA {
  block : list Z;
  block_bytes_filled : Z;
  write_requested_ : bool
}.

Definition new_accumulator : HashBlockAccumulator := mkHBA (zeros kBlockSize) 0 false.

Definition HBA_Reset (a : HashBlockAccumulator) : HashBlockAccumulator := mkHBA (zeros kBlockSize) 0 false.

Definition IsEmpty (a : HashBlockAccumulator) : bool := block_bytes_filled a =? 0.
Definition IsFull (a : HashBlockAccumulator) : bool := kBlockSize <=? block_bytes_filled a.

(** [memcpy] of [buf] into [l] at [offset]. *)
Definition copy_to (l : list Z) (offset : Z) (buf : list Z) : list Z :=
  take (Z.to_nat offset) l ++ buf ++ drop (Z.to_nat offset + length buf) l.

Definition Feed (buf : list Z) (a : HashBlockAccumulator) : exec HashBlockAccumulator :=
  let count := Z.of_nat (length buf) in
  (ASSERT u64 (block_bytes_filled a + count) <=? kBlockSize ;;
   Done (mkHBA (copy_to (block a) (block_bytes_filled a) buf) (u64 (block_bytes_filled a + count))
           (write_requested_ a)))%exec.

Definition PadBlockWithZeroesToFill (a : HashBlockAccumulator) : HashBlockAccumulator :=
  mkHBA (copy_to (block a) (block_bytes_filled a) (zeros (kBlockSize - block_bytes_filled a)))
    kBlockSize (write_requested_ a).

Definition MarkWriteRequested (a : HashBlockAccumulator) : HashBlockAccumulator :=
  mkHBA (block a) (block_bytes_filled a) true.

(** ** The superblock *)

Definition kBlockVerityMagic : list Z :=
  [0x62; 0x6c; 0x6f; 0x63; 0x6b; 0x2d; 0x76; 0x65; 0x72; 0x69; 0x74; 0x79; 0x2d; 0x76; 0x31; 0x00].
Definition kSHA256HashTag : Z := 1.

(** The [n] bytes of [x], little-endian. *)
Fixpoint htole (n : nat) (x : Z) : list Z :=
  match n with O => [] | S n' => x mod 256 :: htole n' (x / 256) end.

Definition GenerateSuperblock (g : Geometry) (root_hash : list Z) : list Z :=
  kBlockVerityMagic ++ htole 8 (total_blocks_ g) ++ htole 4 (block_size_ g) ++ htole 4 kSHA256HashTag ++
  root_hash ++ zeros 4032.

(** ** The sealer *)

Inductive SealerState :=
  | Initial
  | ReadLoop
  | PadHashBlocks
  | CommitSuperblock
  | FinalFlush
  | Sealed
  | Failed.

#[global] Instance sealer_state_eq_dec : EqDecision SealerState.
Proof. solve_decision. Defined.

(** [callback_]: the cookie, while the callback is set. [hw_blocks_per_virtual_block] is [info_]'s. *)
Record Sealer := mkSealer {
  geometry_ : Geometry;
  state_ : SealerState;
  integrity_block_index_ : Z;
  data_block_index_ : Z;
  hash_block_accumulators_ : list HashBlockAccumulator;
  root_hash_ : list Z;
  final_seal_ : list Z;
  callback_ : option Z;
  hw_blocks_per_virtual_block : Z;
  outstanding_block_requests_ : Z
}.

(** Updates. *)
Definition set_state (x : SealerState) (s : Sealer) : Sealer :=
  mkSealer (geometry_ s) x (integrity_block_index_ s) (data_block_index_ s) (hash_block_accumulators_ s)
    (root_hash_ s) (final_seal_ s) (callback_ s) (hw_blocks_per_virtual_block s) (outstanding_block_requests_ s).
Definition set_integrity_index (x : Z) (s : Sealer) : Sealer :=
  mkSealer (geometry_ s) (state_ s) x (data_block_index_ s) (hash_block_accumulators_ s)
    (root_hash_ s) (final_seal_ s) (callback_ s) (hw_blocks_per_virtual_block s) (outstanding_block_requests_ s).
Definition set_data_index (x : Z) (s : Sealer) : Sealer :=
  mkSealer (geometry_ s) (state_ s) (integrity_block_index_ s) x (hash_block_accumulators_ s)
    (root_hash_ s) (final_seal_ s) (callback_ s) (hw_blocks_per_virtual_block s) (outstanding_block_requests_ s).
Definition set_accumulator (tier : nat) (a : HashBlockAccumulator) (s : Sealer) : Sealer :=
  mkSealer (geometry_ s) (state_ s) (integrity_block_index_ s) (data_block_index_ s)
    (<[tier := a]> (hash_block_accumulators_ s))
    (root_hash_ s) (final_seal_ s) (callback_ s) (hw_blocks_per_virtual_block s) (outstanding_block_requests_ s).
Definition set_root (x : list Z) (s : Sealer) : Sealer :=
  mkSealer (geometry_ s) (state_ s) (integrity_block_index_ s) (data_block_index_ s) (hash_block_accumulators_ s)
    x (final_seal_ s) (callback_ s) (hw_blocks_per_virtual_block s) (outstanding_block_requests_ s).
Definition set_seal (x : list Z) (s : Sealer) : Sealer :=
  mkSealer (geometry_ s) (state_ s) (integrity_block_index_ s) (data_block_index_ s) (hash_block_accumulators_ s)
    (root_hash_ s) x (callback_ s) (hw_blocks_per_virtual_block s) (outstanding_block_requests_ s).
Definition set_callback (x : option Z) (s : Sealer) : Sealer :=
  mkSealer (geometry_ s) (state_ s) (integrity_block_index_ s) (data_block_index_ s) (hash_block_accumulators_ s)
    (root_hash_ s) (final_seal_ s) x (hw_blocks_per_virtual_block s) (outstanding_block_requests_ s).
Definition set_outstanding (x : Z) (s : Sealer) : Sealer :=
  mkSealer (geometry_ s) (state_ s) (integrity_block_index_ s) (data_block_index_ s) (hash_block_accumulators_ s)
    (root_hash_ s) (final_seal_ s) (callback_ s) (hw_blocks_per_virtual_block s) x.

(** A block operation, in hardware blocks; a write has the contents of the VMO it is made from. *)
Inductive BlockOp :=
  | OpRead (length offset_dev : Z)
  | OpWrite (length offset_dev : Z) (vmo : list Z)
  | OpFlush.

(** The completion callback of an operation. *)
Inductive Completion :=
  | ReadCompletedCallback
  | IntegrityWriteCompletedCallback
  | SuperblockWriteCompletedCallback
  | FlushCompletedCallback.

(** What a sealer does next: queue an operation, call its callback, nothing. *)
Inductive Output :=
  | Queue (op : BlockOp) (completion : Completion)
  | Callback (cookie : Z) (status : zx_status) (buf : option (list Z)) (len : Z)
  | Nothing.

Section sealer.
Context `{Digest}.

Definition new_sealer (g : Geometry) (hw : Z) : Sealer :=
  mkSealer g Initial 0 0
    (replicate (Z.to_nat (tree_depth (integrity_shape (allocation_ g)))) new_accumulator)
    (zeros kHashOutputSize) (zeros kHashOutputSize) None hw 0.

(** [info_.block_protocol.Queue], of which there is one at a time. *)
Definition queue (op : BlockOp) (c : Completion) (s : Sealer) : exec (Sealer * Output) :=
  (let n := outstanding_block_requests_ s + 1 in
   ASSERT n =? 1 ;;
   Done (set_outstanding n s, Queue op c))%exec.

Definition RequestRead (block : Z) (s : Sealer) : exec (Sealer * Output) :=
  queue (OpRead (hw_blocks_per_virtual_block s) (u64 (block * hw_blocks_per_virtual_block s)))
    ReadCompletedCallback s.

Definition WriteIntegrityBlock (hba : HashBlockAccumulator) (b : Z) (s : Sealer) : exec (Sealer * Output) :=
  queue (OpWrite (hw_blocks_per_virtual_block s) (u64 (b * hw_blocks_per_virtual_block s)) (block hba))
    IntegrityWriteCompletedCallback s.

(** [PrepareSuperblock]: the buffer, and the seal saved. *)
Definition PrepareSuperblock (s : Sealer) : list Z * Sealer :=
  let buf := GenerateSuperblock (geometry_ s) (root_hash_ s) in (buf, set_seal (hash buf) s).

Definition WriteSuperblock (s : Sealer) : exec (Sealer * Output) :=
  let '(buf, s) := PrepareSuperblock s in
  queue (OpWrite (hw_blocks_per_virtual_block s) 0 buf) SuperblockWriteCompletedCallback s.

Definition RequestFlush (s : Sealer) : exec (Sealer * Output) := queue OpFlush FlushCompletedCallback s.

Definition RequestNextRead (s : Sealer) : exec (Sealer * Output) :=
  let mapped_data_block := AbsoluteLocationForData (geometry_ s) (data_block_index_ s) in
  RequestRead mapped_data_block (set_data_index (data_block_index_ s + 1) s).

(** The loop of [WriteIntegrityIfReady], [n] tiers from [tier]: [inr] if it returns from within with
    a write requested, [inl] if it goes on to [ScheduleNextWorkUnit]. *)
Fixpoint write_integrity_loop (n tier : nat) (s : Sealer) : exec (Sealer + Sealer * Output) :=
  match n with
  | O => Done (inl s)
  | S n' =>
      match hash_block_accumulators_ s !! tier with
      | None => Panic
      | Some hba =>
          if IsFull hba then
            if negb (write_requested_ hba) then
              let mapped := AbsoluteLocationForIntegrity (geometry_ s) (integrity_block_index_ s) in
              let s := set_integrity_index (integrity_block_index_ s + 1) s in
              r ← WriteIntegrityBlock hba mapped (set_accumulator tier (MarkWriteRequested hba) s);
              Done (inr r)
            else
              let block_hash := hash (block hba) in
              s ← (if (S tier <? length (hash_block_accumulators_ s))%nat then
                     match hash_block_accumulators_ s !! S tier with
                     | None => Panic
                     | Some next => next ← Feed block_hash next; Done (set_accumulator (S tier) next s)
                     end
                   else Done (set_root block_hash s));
              write_integrity_loop n' (S tier) (set_accumulator tier (HBA_Reset hba) s)
          else write_integrity_loop n' (S tier) s
      end
  end.

Definition write_integrity (s : Sealer) : exec (Sealer + Sealer * Output) :=
  write_integrity_loop (length (hash_block_accumulators_ s)) 0 s.

(** The first tier that is not empty. *)
Definition first_unflushed (s : Sealer) : option (nat * HashBlockAccumulator) :=
  list_find (fun a => IsEmpty a = false) (hash_block_accumulators_ s).

(** [ScheduleNextWorkUnit] and [WriteIntegrityIfReady] call each other, at most [fuel] deep. *)
Fixpoint ScheduleNextWorkUnit (fuel : nat) (s : Sealer) : exec (Sealer * Output) :=
  match fuel with
  | O => Panic
  | S fuel' =>
      let pad (s : Sealer) :=
        match first_unflushed s with
        | Some (tier, hba) =>
            r ← write_integrity (set_accumulator tier (PadBlockWithZeroesToFill hba) s);
            match r with inr r => Done r | inl s => ScheduleNextWorkUnit fuel' s end
        | None => WriteSuperblock (set_state CommitSuperblock s)
        end in
      match state_ s with
      | Initial | Sealed | Failed => Panic
      | ReadLoop =>
          if data_block_index_ s <? data_block_count (allocation_ (geometry_ s)) then RequestNextRead s
          else pad (set_state PadHashBlocks s)
      | PadHashBlocks => pad s
      | CommitSuperblock => WriteSuperblock s
      | FinalFlush => RequestFlush s
      end
  end.

Definition kFuel : nat := 2.

Definition WriteIntegrityIfReady (s : Sealer) : exec (Sealer * Output) :=
  r ← write_integrity s;
  match r with inr r => Done r | inl s => ScheduleNextWorkUnit kFuel s end.

Definition StartSealing (cookie : Z) (s : Sealer) : exec (zx_status * Sealer * Output) :=
  if decide (state_ s = Initial) then
    '(s, out) ← ScheduleNextWorkUnit kFuel (set_state ReadLoop (set_callback (Some cookie) s));
    Done (ZX_OK, s, out)
  else Done (ZX_ERR_BAD_STATE, s, Nothing).

Definition Fail (error : zx_status) (s : Sealer) : Sealer * Output :=
  let s := set_state Failed s in
  match callback_ s with
  | Some cookie => (set_callback None s, Callback cookie error None 0)
  | None => (s, Nothing)
  end.

Definition CompleteRead (status : zx_status) (block_data : list Z) (s : Sealer) : exec (Sealer * Output) :=
  if decide (status = ZX_OK) then
    match hash_block_accumulators_ s !! 0%nat with
    | None => Panic
    | Some a => a ← Feed (hash block_data) a; WriteIntegrityIfReady (set_accumulator 0 a s)
    end
  else Done (Fail status s).

Definition CompleteIntegrityWrite (status : zx_status) (s : Sealer) : exec (Sealer * Output) :=
  if decide (status = ZX_OK) then WriteIntegrityIfReady s else Done (Fail status s).

Definition CompleteSuperblockWrite (status : zx_status) (s : Sealer) : exec (Sealer * Output) :=
  if decide (status = ZX_OK) then ScheduleNextWorkUnit kFuel (set_state FinalFlush s)
  else Done (Fail status s).

Definition CompleteFlush (status : zx_status) (s : Sealer) : exec (Sealer * Output) :=
  if decide (status = ZX_OK) then
    let s := set_state Sealed s in
    match callback_ s with
    | None => Panic
    | Some cookie => Done (set_callback None s, Callback cookie ZX_OK (Some (final_seal_ s)) kHashOutputSize)
    end
  else Done (Fail status s).

(** [OnReadCompleted], [OnIntegrityWriteCompleted], [OnSuperblockWriteCompleted], [OnFlushCompleted]:
    [data] is what a read put into the VMO. *)
Definition on_completed (c : Completion) (status : zx_status) (data : list Z) (s : Sealer)
    : exec (Sealer * Output) :=
  (let n := outstanding_block_requests_ s - 1 in
   let s := set_outstanding n s in
   ASSERT n =? 0 ;;
   match c with
   | ReadCompletedCallback => CompleteRead status data s
   | IntegrityWriteCompletedCallback => CompleteIntegrityWrite status s
   | SuperblockWriteCompletedCallback => CompleteSuperblockWrite status s
   | FlushCompletedCallback => CompleteFlush status s
   end)%exec.

End sealer.

(** ** The device below *)

(** A disk, by byte address. *)
Abbreviation disk := (Z -> Z).

Definition read_bytes (d : disk) (offset : Z) (n : Z) : list Z :=
  map (fun k => d (offset + Z.of_nat k)) (seq 0 (Z.to_nat n)).

Definition write_bytes (offset : Z) (data : list Z) (d : disk) : disk := fun a =>
  if (offset <=? a) && (a <? offset + Z.of_nat (length data))
  then nth (Z.to_nat (a - offset)) data 0 else d a.

(** An operation that succeeds, on hardware blocks of [bs] bytes: the data read, and the disk. *)
Definition perform (bs : Z) (op : BlockOp) (d : disk) : list Z * disk :=
  match op with
  | OpRead length offset => (read_bytes d (offset * bs) (length * bs), d)
  | OpWrite length offset vmo => ([], write_bytes (offset * bs) (take (Z.to_nat (length * bs)) vmo) d)
  | OpFlush => ([], d)
  end.

(** Virtual block [b]. *)
Definition vblock (d : disk) (b : Z) : list Z := read_bytes d (b * kBlockSize) kBlockSize.

Section run.
Context `{Digest}.

Record SealRun := mkRun {
  run_sealer : Sealer;
  run_disk : disk;
  run_output : Output;
  (** The operations performed. *)
  run_ops : list BlockOp
}.

(** The queued operation is performed and completed. *)
Definition seal_step (bs : Z) (r : SealRun) : exec SealRun :=
  match run_output r with
  | Queue op c =>
      let '(data, d) := perform bs op (run_disk r) in
      '(s, out) ← on_completed c ZX_OK data (run_sealer r);
      Done (mkRun s d out (run_ops r ++ [op]))
  | _ => Done r
  end.

Fixpoint seal_steps (n : nat) (bs : Z) (r : SealRun) : exec SealRun :=
  match n with O => Done r | S n' => r ← seal_step bs r; seal_steps n' bs r end.

(** Sealing a disk, [n] operations long. *)
Definition seal (n : nat) (g : Geometry) (hw cookie : Z) (d : disk) : exec SealRun :=
  '(_, s, out) ← StartSealing cookie (new_sealer g hw);
  seal_steps n (kBlockSize / hw) (mkRun s d out []).
End run.
