(* ===== verification/VerityTree.v ===== *)
(** * VerityTree: the hash tree of a block-verity partition

    The reference the sealer is compared with: the tree over a list of data blocks, tier by tier. Tier
    0 holds the hashes of the data blocks, [h] to a block; each further tier the hashes of the blocks
    of the tier below; blocks are filled up with zeros. *)
From Stdlib Require Import ZArith Lia.
From stdpp Require Import prelude.
From S2P Require Import Prelude VerityGeometry VeritySealer.

Local Open Scope nat_scope.

(** ** Arithmetic of positions *)

Lemma div_pow_S e h t : h <> 0 -> e / h ^ S t = e / h ^ t / h.
Proof. intros Hh. simpl. by rewrite (Nat.mul_comm h), Nat.Div0.div_div. Qed.

Lemma div_le_up a b h : a <= b -> a / h <= b / h.
Proof. intros. by apply Nat.Div0.div_le_mono. Qed.

Lemma pow_pos h t : 2 <= h -> 1 <= h ^ t.
Proof. intros Hh. pose proof (Nat.pow_nonzero h t). lia. Qed.

Lemma reached_quot h e t : 2 <= h -> Nat.divide (h ^ t) (S e) -> S e / h ^ t = S (e / h ^ t).
Proof.
  intros Hh [k Hk]. pose proof (pow_pos h t Hh). rewrite Hk, Nat.div_mul by lia.
  assert (e / h ^ t = k - 1); [|destruct k; simpl in *; lia].
  symmetry. apply Nat.div_unique with (r := h ^ t - 1); [lia|]. destruct k; simpl in *; [lia|]. nia.
Qed.

Lemma mod_succ_small h q : 2 <= h -> S (q mod h) < h -> S q / h = q / h /\ S q mod h = S (q mod h).
Proof.
  intros Hh Hq. pose proof (Nat.div_mod_eq q h). split.
  - symmetry. apply Nat.div_unique with (r := S (q mod h)); lia.
  - symmetry. apply Nat.mod_unique with (q := q / h); lia.
Qed.

(** ** The tree *)

Section tree.
Context `{Hdigest : Digest} (h : nat) (data : list (list Z)).

(** A block with the given hashes. *)
Definition padded (l : list (list Z)) : list Z :=
  concat l ++ zeros (kBlockSize - kHashOutputSize * Z.of_nat (length l)).

(** The hashes of tier [t]; there is at least one. *)
Fixpoint items (t : nat) : list (list Z) :=
  match t with
  | O => hash <$> data
  | S t' =>
      (fun j => hash (padded (take h (drop (h * j) (items t'))))) <$> seq 0 (S ((length (items t') - 1) / h))
  end.

(** Block [j] of tier [t]. *)
Definition tree_block (t j : nat) : list Z := padded (take h (drop (h * j) (items t))).

(** The hashes gathered at tier [t] when data blocks [0..e-1] are in. *)
Definition slice (t e : nat) : list (list Z) :=
  take ((e / h ^ t) mod h) (drop (h * (e / h ^ t / h)) (items t)).

(** The same with the hash that data block [e] completes. *)
Definition fed (t e : nat) : list (list Z) :=
  take (S ((e / h ^ t) mod h)) (drop (h * (e / h ^ t / h)) (items t)).

Context (Hh : 2 <= h) (Hdata : data <> []).

Lemma data_pos : 1 <= length data.
Proof. destruct data; [done|]. simpl. lia. Qed.

Lemma items_length t : length (items t) = S ((length data - 1) / h ^ t).
Proof.
  pose proof data_pos. induction t as [|t IH].
  - cbn [items]. rewrite length_fmap, Nat.pow_0_r, Nat.div_1_r. lia.
  - rewrite div_pow_S by lia. cbn [items]. rewrite length_fmap, length_seq, IH. do 2 f_equal. lia.
Qed.

Lemma items_lookup_S t j :
  j <= (length data - 1) / h ^ S t -> items (S t) !! j = Some (hash (tree_block t j)).
Proof.
  intros Hj. cbn [items]. rewrite list_lookup_fmap, lookup_seq_lt; [done|].
  rewrite items_length. rewrite div_pow_S in Hj by lia.
  rewrite Nat.sub_succ, Nat.sub_0_r. lia.
Qed.

Lemma items_lookup t e : e < length data -> exists x, items t !! (e / h ^ t) = Some x.
Proof.
  intros He. apply lookup_lt_is_Some. rewrite items_length.
  pose proof (div_le_up e (length data - 1) (h ^ t)). lia.
Qed.

Lemma items_hash_length `{!DigestOk} t : Forall (fun x => Z.of_nat (length x) = kHashOutputSize) (items t).
Proof.
  destruct t; cbn [items]; apply Forall_fmap, Forall_true; intros; apply hash_length.
Qed.

(** ** Feeding data block [e] *)

Section feed.
Context (e : nat) (He : e < length data).

Lemma fed_slice t x : items t !! (e / h ^ t) = Some x -> fed t e = slice t e ++ [x].
Proof.
  intros Hx. unfold fed, slice. apply take_S_r. rewrite lookup_drop.
  rewrite <- (Nat.div_mod_eq (e / h ^ t) h). done.
Qed.

Lemma slice_length t : length (slice t e) = (e / h ^ t) mod h.
Proof.
  unfold slice. rewrite length_take, length_drop, items_length.
  pose proof (Nat.div_mod_eq (e / h ^ t) h). pose proof (div_le_up e (length data - 1) (h ^ t)). lia.
Qed.

Lemma slice_short t : length (slice t e) < h.
Proof. rewrite slice_length. apply Nat.mod_upper_bound. lia. Qed.

Lemma fed_length t : length (fed t e) = S ((e / h ^ t) mod h).
Proof.
  destruct (items_lookup t e He) as [x Hx]. rewrite (fed_slice t x Hx), length_app, slice_length. simpl. lia.
Qed.

(** A block is complete when it is full, or when the data ends. *)
Lemma fed_complete t :
  length (fed t e) = h \/ S e = length data ->
  fed t e = take h (drop (h * (e / h ^ t / h)) (items t)).
Proof.
  intros Hc. pose proof (fed_length t) as Hl. destruct Hc as [Hf|Hlast].
  - unfold fed. f_equal. lia.
  - unfold fed. rewrite !take_ge; [done| |]; rewrite length_drop, items_length;
      replace (length data - 1) with e by lia; pose proof (Nat.div_mod_eq (e / h ^ t) h);
      pose proof (Nat.mod_upper_bound (e / h ^ t) h); lia.
Qed.

(** The block below is complete, so that tier [t] gets a hash. *)
Definition reached (t : nat) : Prop := Nat.divide (h ^ t) (S e) \/ S e = length data.

Lemma reached_0 : reached 0.
Proof. left. apply Nat.divide_1_l. Qed.

Lemma reached_S t : reached t -> length (fed t e) = h -> reached (S t).
Proof.
  intros [Hd|?] Hl; [left|by right]. rewrite fed_length in Hl. pose proof (reached_quot h e t Hh Hd) as Hq.
  destruct Hd as [k Hk]. rewrite Hk, Nat.div_mul in Hq by (pose proof (pow_pos h t Hh); lia).
  pose proof (Nat.div_mod_eq (e / h ^ t) h) as Hdm.
  exists (S (e / h ^ t / h)). rewrite Hk. simpl. rewrite Hq. nia.
Qed.

(** If tier [t] does not fill up, the tiers are as for the next data block. *)
Lemma slice_next t s :
  Nat.divide (h ^ t) (S e) -> length (fed t e) < h ->
  slice s (S e) = if decide (s < t) then [] else if decide (s = t) then fed t e else slice s e.
Proof.
  intros Hd Hl. rewrite fed_length in Hl. pose proof (reached_quot h e t Hh Hd) as Hq.
  destruct (mod_succ_small h (e / h ^ t) Hh Hl) as [Hq1 Hq2].
  destruct (decide (s < t)) as [Hs|Hs].
  - unfold slice. assert ((S e / h ^ s) mod h = 0) as ->; [|done].
    destruct Hd as [k Hk]. replace t with (s + S (t - s - 1)) in Hk by lia.
    rewrite Nat.pow_add_r in Hk. rewrite Hk. simpl. pose proof (pow_pos h s Hh).
    replace (k * (h ^ s * (h * h ^ (t - s - 1)))) with (k * h ^ (t - s - 1) * h * h ^ s) by lia.
    rewrite Nat.div_mul by lia. apply Nat.Div0.mod_mul.
  - destruct (decide (s = t)) as [->|Hn].
    + unfold slice, fed. by rewrite Hq, Hq2, Hq1.
    + unfold slice. assert (S e / h ^ s = e / h ^ s) as ->; [|done].
      replace s with (t + S (s - t - 1)) by lia. pose proof (pow_pos h t Hh). pose proof (pow_pos h (s - t - 1) Hh).
      rewrite Nat.pow_add_r, <- !Nat.Div0.div_div, Hq. simpl.
      by rewrite <- !Nat.Div0.div_div, Hq1.
Qed.

(** If it does, or the data ends, nothing is left of the tiers below. *)
Lemma slice_zero t : slice t 0 = [].
Proof. unfold slice. rewrite Nat.Div0.div_0_l, Nat.Div0.mod_0_l. done. Qed.
End feed.
End tree.

(** ** Blocks of hashes *)

Definition hashes (l : list (list Z)) : Prop := Forall (fun x => length x = 32) l.

Lemma concat_hashes_length l : hashes l -> length (concat l) = 32 * length l.
Proof. induction 1 as [|x l Hx _ IH]; simpl; [done|]. rewrite length_app, IH, Hx. lia. Qed.

(** The hash at place [k] of a block. *)
Lemma padded_slot l k x : hashes l -> l !! k = Some x -> take 32 (drop (32 * k) (padded l)) = x.
Proof.
  intros Hl Hx. unfold padded. rewrite <- (take_drop_middle l k x Hx) in Hl |- *.
  apply Forall_app in Hl as [H1 H2]. apply Forall_cons in H2 as [H2 _].
  rewrite concat_app, concat_cons, <- !(assoc_L (++)).
  rewrite drop_app_length'.
  - rewrite take_app_length'; done.
  - rewrite concat_hashes_length by done. rewrite length_take.
    apply lookup_lt_Some in Hx. lia.
Qed.

Section blocks.
Context (h : nat) (Hblock : kBlockSize = (kHashOutputSize * Z.of_nat h)%Z).

Lemma padded_length l : hashes l -> length l <= h -> length (padded l) = Z.to_nat kBlockSize.
Proof.
  intros Hl Hle. unfold padded, zeros. rewrite length_app, concat_hashes_length, length_replicate by done.
  rewrite Hblock. unfold kHashOutputSize in *. lia.
Qed.

(** The accumulator that holds the hashes [l], and the same filled up. *)
Definition acc_of (l : list (list Z)) : HashBlockAccumulator :=
  mkHBA (padded l) (kHashOutputSize * Z.of_nat (length l)) false.
Definition full_acc (requested : bool) (l : list (list Z)) : HashBlockAccumulator :=
  mkHBA (padded l) kBlockSize requested.

Lemma new_acc : new_accumulator = acc_of [].
Proof. done. Qed.

Lemma feed_acc l x : hashes l -> length x = 32 -> length l < h -> Feed x (acc_of l) = Done (acc_of (l ++ [x])).
Proof.
  intros Hl Hx Hlt. unfold Feed, acc_of. simpl. rewrite Hx.
  assert ((kHashOutputSize * Z.of_nat (length l) + 32)%Z = (kHashOutputSize * Z.of_nat (length (l ++ [x])))%Z) as E.
  { rewrite length_app. simpl. unfold kHashOutputSize. lia. }
  change (Z.of_nat 32) with 32%Z. rewrite E.
  assert (length (l ++ [x]) = S (length l)) as E' by (rewrite length_app; simpl; lia).
  rewrite u64_small by (unfold is_u64; unfold kHashOutputSize, kBlockSize in *; lia).
  rewrite (proj2 (Z.leb_le _ _)) by (rewrite Hblock; unfold kHashOutputSize; lia). simpl. do 2 f_equal.
  unfold copy_to, padded. rewrite concat_app. simpl. rewrite app_nil_r, E'.
  rewrite take_app_length', <- (assoc_L (++)).
  - f_equal. f_equal. rewrite drop_app_ge by (rewrite concat_hashes_length, Hx; unfold kHashOutputSize; lia || done).
    rewrite concat_hashes_length, Hx by done. unfold zeros. rewrite drop_replicate. f_equal.
    unfold kHashOutputSize. lia.
  - rewrite concat_hashes_length by done. unfold kHashOutputSize. lia.
Qed.

Lemma acc_full l : length l = h -> acc_of l = full_acc false l.
Proof. intros Hl. unfold acc_of, full_acc. by rewrite Hl, Hblock. Qed.

Lemma pad_acc l : hashes l -> length l <= h -> PadBlockWithZeroesToFill (acc_of l) = full_acc false l.
Proof.
  intros Hl Hle. unfold PadBlockWithZeroesToFill, acc_of, full_acc. simpl. f_equal.
  unfold copy_to, padded. rewrite take_app_length'.
  - f_equal. unfold zeros at 1 2. rewrite length_replicate.
    rewrite drop_ge; [by rewrite app_nil_r|]. rewrite length_app, concat_hashes_length by done.
    unfold zeros. rewrite length_replicate. unfold kHashOutputSize. lia.
  - rewrite concat_hashes_length by done. unfold kHashOutputSize. lia.
Qed.

Lemma acc_not_full l : length l < h -> IsFull (acc_of l) = false.
Proof. intros Hl. unfold IsFull, acc_of. simpl. apply Z.leb_gt. rewrite Hblock. unfold kHashOutputSize. lia. Qed.

Lemma full_acc_full req l : IsFull (full_acc req l) = true.
Proof. apply Z.leb_le. simpl. lia. Qed.

Lemma acc_empty l : IsEmpty (acc_of l) = false <-> l <> [].
Proof.
  unfold IsEmpty, acc_of, kHashOutputSize. simpl. rewrite Z.eqb_neq. destruct l; simpl; split; try done; lia.
Qed.
End blocks.

Lemma items_hashes `{DigestOk} h data t : hashes (items h data t).
Proof.
  eapply Forall_impl; [apply (items_hash_length h data t)|]. intros x Hx. unfold kHashOutputSize in Hx. lia.
Qed.
