(* ===== verification/VeritySeal.v ===== *)
(** * VeritySeal: the sealer writes the tree

    The state machine of [VeritySealer], with every operation it queues succeeding, writes the tree of
    [VerityTree] where [VerityGeometry] looks for it, and the superblock. *)
From Stdlib Require Import ZArith Lia.
From stdpp Require Import prelude.
From S2P Require Import Prelude VerityGeometry VeritySealer VerityTree.

Local Open Scope Z_scope.

(** ** Disks *)

Lemma read_bytes_length d off n : length (read_bytes d off n) = Z.to_nat n.
Proof. unfold read_bytes. by rewrite length_map, length_seq. Qed.

Lemma read_bytes_lookup d off n k : (k < Z.to_nat n)%nat -> read_bytes d off n !! k = Some (d (off + Z.of_nat k)).
Proof.
  intros Hk. unfold read_bytes. change (map ?f ?l) with (f <$> l). by rewrite list_lookup_fmap, lookup_seq_lt.
Qed.

Lemma read_bytes_ext d d' off n :
  (forall a, off <= a < off + n -> d a = d' a) -> read_bytes d off n = read_bytes d' off n.
Proof.
  intros Hd. unfold read_bytes. apply map_ext_in. intros k Hk%in_seq. apply Hd. lia.
Qed.

(** What is written is read back, and nothing else changes. *)
Lemma read_write_same d off data :
  read_bytes (write_bytes off data d) off (Z.of_nat (length data)) = data.
Proof.
  apply list_eq_same_length with (n := length data);
    [done|by rewrite read_bytes_length, Nat2Z.id|].
  intros k x y Hk Hx Hy. rewrite read_bytes_lookup in Hx by lia. injection Hx as <-.
  unfold write_bytes. rewrite (proj2 (Z.leb_le _ _)), (proj2 (Z.ltb_lt _ _)) by lia. simpl.
  replace (Z.to_nat (off + Z.of_nat k - off)) with k by lia.
  by rewrite (nth_lookup_Some _ _ _ _ Hy).
Qed.

Lemma read_write_other d off data off' n :
  off' + n <= off \/ off + Z.of_nat (length data) <= off' ->
  read_bytes (write_bytes off data d) off' n = read_bytes d off' n.
Proof.
  intros Hd. apply read_bytes_ext. intros a Ha. unfold write_bytes.
  destruct (Z.leb_spec off a), (Z.ltb_spec a (off + Z.of_nat (length data))); simpl; try done; lia.
Qed.

Lemma vblock_write_same d b data :
  length data = Z.to_nat kBlockSize -> vblock (write_bytes (b * kBlockSize) data d) b = data.
Proof.
  intros Hl. unfold vblock. assert (Z.of_nat (length data) = kBlockSize) as E by (unfold kBlockSize in *; lia).
  pose proof (read_write_same d (b * kBlockSize) data) as Hs. by rewrite E in Hs.
Qed.

Lemma vblock_write_other d b b' data :
  length data = Z.to_nat kBlockSize -> b' <> b ->
  vblock (write_bytes (b * kBlockSize) data d) b' = vblock d b'.
Proof.
  intros Hl Hn. apply read_write_other. rewrite Hl. unfold kBlockSize. lia.
Qed.

(** ** Counting complete blocks *)

Lemma complete_reached h E e t :
  (2 <= h)%nat -> (t < E)%nat -> Nat.divide (h ^ t) (S e) -> (S ((e / h ^ t) mod h) < h)%nat ->
  complete_blocks (Z.of_nat h) E (Z.of_nat (S e)) = complete_blocks (Z.of_nat h) E (Z.of_nat e) + Z.of_nat t.
Proof.
  intros Hh. revert e t. induction E as [|E IH]; intros e t Ht Hd Hlt; [lia|]. simpl.
  rewrite <- !Nat2Z.inj_div. destruct t as [|t].
  - rewrite Nat.pow_0_r, Nat.div_1_r in Hlt. destruct (mod_succ_small h e Hh Hlt) as [-> _]. lia.
  - assert (S e / h = S (e / h))%nat as Hq.
    { pose proof (reached_quot h e 1 Hh) as Hr. rewrite Nat.pow_1_r in Hr. apply Hr.
      eapply Nat.divide_trans; [|exact Hd]. simpl. apply Nat.divide_factor_l. }
    rewrite Hq, (IH (e / h)%nat t); [lia|lia| |].
    + destruct Hd as [k Hk]. exists k. rewrite <- Hq, Hk. simpl.
      replace (k * (h * h ^ t))%nat with (k * h ^ t * h)%nat by lia. by rewrite Nat.div_mul by lia.
    + rewrite Nat.Div0.div_div. simpl in Hlt. done.
Qed.

(** ** One pass over the tiers *)

Lemma hash_length_32 `{DigestOk} b : length (hash b) = 32%nat.
Proof. pose proof (hash_length b). unfold kHashOutputSize in *. lia. Qed.

Section seal.
Context `{Hdok : DigestOk} (g : Geometry) (hw cookie : Z) (h D : nat) (data : list (list Z)).

(** The accumulators, tier by tier. *)
Definition accs (f : nat -> HashBlockAccumulator) : list HashBlockAccumulator := f <$> seq 0 D.

Lemma accs_length f : length (accs f) = D.
Proof. unfold accs. by rewrite length_fmap, length_seq. Qed.

Lemma accs_lookup f t : (t < D)%nat -> accs f !! t = Some (f t).
Proof. intros Ht. unfold accs. by rewrite list_lookup_fmap, lookup_seq_lt. Qed.

Lemma accs_ext f f' : (forall s, (s < D)%nat -> f s = f' s) -> accs f = accs f'.
Proof.
  intros Hf. unfold accs. apply list_fmap_ext. intros i s Hs. apply Hf. apply lookup_seq in Hs. lia.
Qed.

Lemma accs_insert f t a : (t < D)%nat -> <[t := a]> (accs f) = accs (fun s => if decide (s = t) then a else f s).
Proof.
  intros Ht. apply list_eq. intros s. destruct (decide (s < D)%nat) as [Hs|Hs].
  - rewrite accs_lookup by done. destruct (decide (s = t)) as [->|].
    + by rewrite list_lookup_insert_eq by by rewrite accs_length.
    + rewrite list_lookup_insert_ne, accs_lookup by done. done.
  - rewrite !lookup_ge_None_2; [done|by rewrite accs_length; lia|].
    rewrite length_insert, accs_length. lia.
Qed.

Definition sealer_at (st : SealerState) (idx didx : Z) (f : nat -> HashBlockAccumulator)
    (root fseal : list Z) (outstanding : Z) : Sealer :=
  mkSealer g st idx didx (accs f) root fseal (Some cookie) hw outstanding.

Lemma set_acc_at st idx didx f root fseal o t a :
  (t < D)%nat ->
  set_accumulator t a (sealer_at st idx didx f root fseal o) =
  sealer_at st idx didx (fun s => if decide (s = t) then a else f s) root fseal o.
Proof. intros Ht. unfold set_accumulator, sealer_at. simpl. by rewrite accs_insert. Qed.

(** Tiers that are not full are passed. *)
Lemma loop_skip st idx didx f root fseal o k n tier :
  (tier + k <= D)%nat -> (forall s, (tier <= s < tier + k)%nat -> IsFull (f s) = false) ->
  write_integrity_loop (k + n) tier (sealer_at st idx didx f root fseal o) =
  write_integrity_loop n (tier + k) (sealer_at st idx didx f root fseal o).
Proof.
  revert tier. induction k as [|k IH]; intros tier Hle Hf; simpl; [by rewrite Nat.add_0_r|].
  rewrite accs_lookup, Hf by lia. rewrite IH by (try intros; try apply Hf; lia).
  by replace (S tier + k)%nat with (tier + S k)%nat by lia.
Qed.

Context (Hblock : kBlockSize = kHashOutputSize * Z.of_nat h).
Context (Hg : geometry_ok g (Z.of_nat h) (Z.of_nat (length data)) D).
Context (Hcount : data_block_count (allocation_ g) = Z.of_nat (length data)).
Context (Hsuper : superblock_count (allocation_ g) = 1).
Context (Hroom : tree_blocks (Z.of_nat h) D (Z.of_nat (length data)) <= padded_integrity_block_count (allocation_ g)).
Context (Htotal : padded_integrity_block_count (allocation_ g) + Z.of_nat (length data) < 2 ^ 48).
Context (Hhw : 0 < hw) (Hbs : kBlockSize = hw * (kBlockSize / hw)).

Lemma hashes_128 : h = 128%nat.
Proof. unfold kBlockSize, kHashOutputSize in *. lia. Qed.
Lemma h_ge_2 : (2 <= h)%nat.
Proof. rewrite hashes_128. lia. Qed.
Lemma hw_small : hw <= 4096.
Proof.
  assert (0 <= kBlockSize / hw) by (apply Z.div_pos; unfold kBlockSize; lia).
  change 4096 with kBlockSize. revert Hbs. generalize dependent (kBlockSize / hw). unfold kBlockSize. intros q ? ?.
  destruct (decide (q = 0)) as [->|]; nia.
Qed.
Lemma data_nonempty : data <> [].
Proof. destruct Hg as [_ _ _ Hn]. intros ->. simpl in Hn. lia. Qed.

Lemma write_at st idx didx f root fseal l t :
  (t < D)%nat -> 0 <= idx < 2 ^ 48 -> f t = full_acc false l ->
  write_integrity_loop (D - t) t (sealer_at st idx didx f root fseal 0) =
  Done (inr (sealer_at st (idx + 1) didx (fun s => if decide (s = t) then full_acc true l else f s) root fseal 1,
             Queue (OpWrite hw ((1 + idx) * hw) (padded l)) IntegrityWriteCompletedCallback)).
Proof.
  intros Ht Hidx Hf. replace (D - t)%nat with (S (D - t - 1)) by lia. simpl.
  rewrite accs_lookup, Hf, (full_acc_full h) by done. simpl.
  unfold AbsoluteLocationForIntegrity. rewrite Hsuper. pose proof hw_small.
  rewrite (u64_small (1 + idx)) by (unfold is_u64; lia). rewrite u64_small by (unfold is_u64; nia).
  unfold set_outstanding, set_accumulator, set_integrity_index, sealer_at. simpl.
  by rewrite accs_insert by done.
Qed.

(** The states of a pass: the accumulators when tier [t] has got the hash that data block [e]
    completes, and when its block is being written. *)
Definition fed_accs (e t s : nat) : HashBlockAccumulator :=
  if decide (s < t)%nat then acc_of [] else if decide (s = t) then acc_of (fed h data t e)
  else acc_of (slice h data s e).
Definition write_accs (e t s : nat) : HashBlockAccumulator :=
  if decide (s = t) then full_acc true (fed h data t e) else fed_accs e t s.

Lemma schedule_read k idx n f root fseal :
  0 <= n < Z.of_nat (length data) ->
  ScheduleNextWorkUnit (S k) (sealer_at ReadLoop idx n f root fseal 0) =
  Done (sealer_at ReadLoop idx (n + 1) f root fseal 1,
        Queue (OpRead hw ((1 + padded_integrity_block_count (allocation_ g) + n) * hw)) ReadCompletedCallback).
Proof.
  intros Hn. simpl. rewrite Hcount, (proj2 (Z.ltb_lt _ _)) by lia.
  unfold RequestNextRead, AbsoluteLocationForData. simpl. rewrite Hsuper. pose proof hw_small.
  assert (0 <= tree_blocks (Z.of_nat h) D (Z.of_nat (length data))) as Htb.
  { rewrite tree_blocks_complete by (pose proof h_ge_2; destruct Hg; lia).
    pose proof (complete_nonneg (Z.of_nat h) ltac:(pose proof h_ge_2; lia) D (Z.of_nat (length data) - 1)).
    destruct Hg. lia. }
  rewrite (u64_small (1 + _ + n)) by (unfold is_u64; lia).
  unfold RequestRead, queue. simpl. rewrite u64_small by (unfold is_u64; nia). done.
Qed.

Section pass.
Context (e : nat) (He : (e < length data)%nat).

Lemma slice_not_full s : IsFull (acc_of (slice h data s e)) = false.
Proof. apply (acc_not_full h Hblock). apply slice_short; [apply h_ge_2|apply data_nonempty|done]. Qed.

Lemma empty_not_full : IsFull (acc_of []) = false.
Proof. apply (acc_not_full h Hblock). simpl. pose proof h_ge_2. lia. Qed.

Lemma fed_hashes t : hashes (fed h data t e).
Proof. unfold fed. apply Forall_take, Forall_drop, items_hashes. Qed.

Lemma slice_hashes t : hashes (slice h data t e).
Proof. unfold slice. apply Forall_take, Forall_drop, items_hashes. Qed.

Lemma fed_le t : (length (fed h data t e) <= h)%nat.
Proof.
  rewrite fed_length by (try apply h_ge_2; try apply data_nonempty; done).
  pose proof (Nat.mod_upper_bound (e / h ^ t) h). pose proof h_ge_2. lia.
Qed.

Lemma fed_nonempty t : fed h data t e <> [].
Proof.
  intros E. pose proof (fed_length h data h_ge_2 data_nonempty e He t) as Hl. by rewrite E in Hl.
Qed.

(** The loop from tier [t] on, which has just been fed. *)
Lemma loop_fed st idx didx root fseal t :
  (t < D)%nat -> 0 <= idx < 2 ^ 48 ->
  write_integrity_loop (D - t) t (sealer_at st idx didx (fed_accs e t) root fseal 0) =
  Done (if decide (length (fed h data t e) = h)
        then inr (sealer_at st (idx + 1) didx (write_accs e t) root fseal 1,
                  Queue (OpWrite hw ((1 + idx) * hw) (padded (fed h data t e))) IntegrityWriteCompletedCallback)
        else inl (sealer_at st idx didx (fed_accs e t) root fseal 0)).
Proof.
  intros Ht Hidx. destruct (decide (length (fed h data t e) = h)) as [Hf|Hf].
  - rewrite (write_at _ _ _ _ _ _ (fed h data t e)); [done..|].
    unfold fed_accs. rewrite decide_False, decide_True by lia. by apply (acc_full h).
  - replace (D - t)%nat with (D - t + 0)%nat by lia. rewrite loop_skip; [done|lia|].
    intros s Hs. unfold fed_accs. rewrite decide_False by lia.
    destruct (decide (s = t)) as [->|]; [|apply slice_not_full].
    apply (acc_not_full h Hblock). pose proof (fed_le t). lia.
Qed.

(** Tier [t]'s block is complete. *)
Definition complete (t : nat) : Prop := length (fed h data t e) = h \/ S e = length data.

Lemma fed_block t : complete t -> padded (fed h data t e) = tree_block h data t (e / h ^ S t).
Proof.
  intros Hc. unfold tree_block. rewrite div_pow_S by (pose proof h_ge_2; lia).
  by rewrite <- (fed_complete h data h_ge_2 data_nonempty e He t Hc).
Qed.

Lemma next_item t : complete t -> items h data (S t) !! (e / h ^ S t)%nat = Some (hash (padded (fed h data t e))).
Proof.
  intros Hc. rewrite (fed_block t Hc). apply items_lookup_S; [apply h_ge_2|apply data_nonempty|].
  apply div_le_up. lia.
Qed.

Lemma skip_below st idx didx f root fseal t :
  (t < D)%nat -> (forall s, (s < t)%nat -> f s = acc_of []) ->
  write_integrity (sealer_at st idx didx f root fseal 0) =
  write_integrity_loop (S (D - S t)) t (sealer_at st idx didx f root fseal 0).
Proof.
  intros Ht Hf. unfold write_integrity. simpl hash_block_accumulators_. rewrite accs_length.
  replace D with (t + S (D - S t))%nat at 1 by lia. rewrite loop_skip; [done|lia|].
  intros s Hs. rewrite Hf by lia. apply empty_not_full.
Qed.

(** When the block of tier [t] is written, its hash goes to the next tier. *)
Lemma written_next st idx didx root fseal t :
  (S t < D)%nat -> complete t ->
  write_integrity (sealer_at st idx didx (write_accs e t) root fseal 0) =
  write_integrity_loop (D - S t) (S t) (sealer_at st idx didx (fed_accs e (S t)) root fseal 0).
Proof.
  intros Ht Hc. rewrite (skip_below _ _ _ _ _ _ t); [|lia|].
  2: { intros s Hs. unfold write_accs, fed_accs. rewrite decide_False, decide_True by lia. done. }
  cbn [write_integrity_loop]. simpl hash_block_accumulators_. rewrite !accs_lookup, accs_length by lia.
  assert (write_accs e t t = full_acc true (fed h data t e)) as -> by (unfold write_accs; by rewrite decide_True).
  assert (write_accs e t (S t) = acc_of (slice h data (S t) e)) as ->.
  { unfold write_accs, fed_accs. by rewrite !decide_False by lia. }
  rewrite (full_acc_full h). simpl negb. cbn iota. rewrite (proj2 (Nat.ltb_lt _ _) Ht). simpl block.
  rewrite (feed_acc h Hblock); [|apply slice_hashes|apply hash_length_32|
    apply slice_short; [apply h_ge_2|apply data_nonempty|done]].
  rewrite <- (fed_slice h data e (S t) _ (next_item t Hc)). simpl.
  f_equal. unfold set_accumulator, sealer_at. simpl. f_equal.
  rewrite !accs_insert by lia. apply accs_ext. intros s Hs. unfold fed_accs, write_accs, fed_accs.
  destruct (decide (s = t)) as [->|]; [by rewrite decide_True by lia|].
  destruct (decide (s = S t)) as [->|]; [by rewrite decide_False by lia|].
  destruct (decide (s < t)%nat); [by rewrite decide_True by lia|by rewrite decide_False by lia].
Qed.

(** The hash of the root block is saved. *)
Lemma written_root st idx didx root fseal t :
  S t = D ->
  write_integrity (sealer_at st idx didx (write_accs e t) root fseal 0) =
  Done (inl (sealer_at st idx didx (fun _ => acc_of []) (hash (padded (fed h data t e))) fseal 0)).
Proof.
  intros Ht. rewrite (skip_below _ _ _ _ _ _ t); [|lia|].
  2: { intros s Hs. unfold write_accs, fed_accs. rewrite decide_False, decide_True by lia. done. }
  cbn [write_integrity_loop]. simpl hash_block_accumulators_. rewrite !accs_lookup, accs_length by lia.
  assert (write_accs e t t = full_acc true (fed h data t e)) as -> by (unfold write_accs; by rewrite decide_True).
  rewrite (full_acc_full h). simpl negb. cbn iota. rewrite (proj2 (Nat.ltb_ge _ _)) by lia. simpl block.
  replace (D - S t)%nat with 0%nat by lia. simpl. do 2 f_equal. unfold set_accumulator, set_root, sealer_at. simpl.
  f_equal. rewrite accs_insert by lia. apply accs_ext. intros s Hs. unfold write_accs, fed_accs.
  destruct (decide (s = t)); [done|]. by rewrite decide_True by lia.
Qed.

(** ** Scheduling *)

Lemma first_fed st idx didx root fseal o t :
  (t < D)%nat ->
  first_unflushed (sealer_at st idx didx (fed_accs e t) root fseal o) = Some (t, acc_of (fed h data t e)).
Proof.
  intros Ht. apply list_find_Some. simpl. split_and!.
  - rewrite accs_lookup by done. unfold fed_accs. by rewrite decide_False, decide_True by lia.
  - apply acc_empty, fed_nonempty.
  - intros s y Hy Hs. rewrite accs_lookup in Hy by lia. injection Hy as <-. unfold fed_accs.
    by rewrite decide_True by lia.
Qed.

(** The last data block is in: the tier that has a hash and is not full is filled up. *)
Lemma schedule_pad k st idx root fseal t :
  (t < D)%nat -> 0 <= idx < 2 ^ 48 -> st = ReadLoop \/ st = PadHashBlocks ->
  ScheduleNextWorkUnit (S k) (sealer_at st idx (Z.of_nat (length data)) (fed_accs e t) root fseal 0) =
  Done (sealer_at PadHashBlocks (idx + 1) (Z.of_nat (length data)) (write_accs e t) root fseal 1,
        Queue (OpWrite hw ((1 + idx) * hw) (padded (fed h data t e))) IntegrityWriteCompletedCallback).
Proof.
  intros Ht Hidx Hst.
  assert (forall s, s = sealer_at PadHashBlocks idx (Z.of_nat (length data)) (fed_accs e t) root fseal 0 ->
    match first_unflushed s with
    | Some (tier, hba) =>
        r ← write_integrity (set_accumulator tier (PadBlockWithZeroesToFill hba) s);
        match r with inr r => Done r | inl s => ScheduleNextWorkUnit k s end
    | None => WriteSuperblock (set_state CommitSuperblock s)
    end = Done (sealer_at PadHashBlocks (idx + 1) (Z.of_nat (length data)) (write_accs e t) root fseal 1,
        Queue (OpWrite hw ((1 + idx) * hw) (padded (fed h data t e))) IntegrityWriteCompletedCallback)) as Hpad.
  { intros s ->. rewrite first_fed by done. rewrite (pad_acc h) by (apply fed_hashes || apply fed_le).
    rewrite set_acc_at by done.
    rewrite (skip_below _ _ _ _ _ _ t Ht).
    2: { intros s Hs. unfold fed_accs. rewrite decide_False, decide_True by lia. done. }
    replace (S (D - S t)) with (D - t)%nat by lia.
    rewrite (write_at _ _ _ _ _ _ (fed h data t e)); [|done|done|by rewrite decide_True]. simpl. do 2 f_equal.
    unfold sealer_at. f_equal. apply accs_ext. intros s Hs. unfold write_accs.
    by destruct (decide (s = t)). }
  cbn [ScheduleNextWorkUnit]. destruct Hst as [-> | ->]; simpl state_; cbn iota.
  - simpl data_block_index_. simpl geometry_. rewrite Hcount, Z.ltb_irrefl. by apply Hpad.
  - by apply Hpad.
Qed.

End pass.

Lemma schedule_super k st idx root fseal :
  st = ReadLoop \/ st = PadHashBlocks ->
  ScheduleNextWorkUnit (S k) (sealer_at st idx (Z.of_nat (length data)) (fun _ => acc_of []) root fseal 0) =
  Done (sealer_at CommitSuperblock idx (Z.of_nat (length data)) (fun _ => acc_of []) root
          (hash (GenerateSuperblock g root)) 1,
        Queue (OpWrite hw 0 (GenerateSuperblock g root)) SuperblockWriteCompletedCallback).
Proof.
  intros Hst.
  assert (forall s, s = sealer_at PadHashBlocks idx (Z.of_nat (length data)) (fun _ => acc_of []) root fseal 0 ->
    first_unflushed s = None) as Hnone.
  { intros s ->. apply list_find_None. simpl. unfold accs. apply Forall_fmap, Forall_true. done. }
  cbn [ScheduleNextWorkUnit]. destruct Hst as [-> | ->]; simpl state_; cbn iota.
  - simpl data_block_index_. simpl geometry_. rewrite Hcount, Z.ltb_irrefl. by rewrite Hnone.
  - by rewrite Hnone.
Qed.
(** ** What is on the disk *)

(** The last data block below block [j] of tier [s]. *)
Definition last_data (s j : nat) : nat := (Nat.min (length data) (S j * h ^ S s) - 1)%nat.

Lemma pos_last s j :
  block_pos (Z.of_nat h) D (Z.of_nat (length data)) s (Z.of_nat j) =
  complete_blocks (Z.of_nat h) D (Z.of_nat (last_data s j)) + Z.of_nat s.
Proof.
  unfold block_pos, last_data. f_equal. f_equal.
  replace ((Z.of_nat j + 1) * Z.of_nat h ^ (Z.of_nat s + 1)) with (Z.of_nat (S j * h ^ S s)).
  - pose proof (data_pos h data h_ge_2 data_nonempty). pose proof (pow_pos h (S s) h_ge_2). nia.
  - rewrite Nat2Z.inj_mul, Nat2Z.inj_pow, !Nat2Z.inj_succ. do 2 f_equal; lia.
Qed.

(** Data blocks [0..e-1] are in the tree, and of what data block [e] completes, the blocks of the
    tiers below [t]: the integrity section starts with [out]. *)
Record seal_inv (e t : nat) (out : list (list Z)) (d : disk) : Prop := {
  si_len : Z.of_nat (length out) = complete_blocks (Z.of_nat h) D (Z.of_nat e) + Z.of_nat t;
  si_out : forall s j, (s < D)%nat -> (j <= (length data - 1) / h ^ S s)%nat ->
    (last_data s j < e \/ last_data s j = e /\ s < t)%nat ->
    out !! Z.to_nat (block_pos (Z.of_nat h) D (Z.of_nat (length data)) s (Z.of_nat j)) =
      Some (tree_block h data s j);
  si_disk : forall k b, out !! k = Some b -> vblock d (1 + Z.of_nat k) = b;
  si_data : forall i b, data !! i = Some b ->
    vblock d (1 + padded_integrity_block_count (allocation_ g) + Z.of_nat i) = b
}.

Lemma seal_inv_next e t out d :
  seal_inv e t out d -> (t < D)%nat -> (S e < length data)%nat -> reached h data e t ->
  (length (fed h data t e) < h)%nat -> seal_inv (S e) 0 out d.
Proof.
  intros [I1 I2 I3 I4] Ht He Hr Hl. rewrite fed_length in Hl by (try apply h_ge_2; try apply data_nonempty; lia).
  destruct Hr as [Hr|?]; [|lia]. split; [|intros s j Hs Hj Hlast|done..].
  - rewrite (complete_reached h D e t h_ge_2 Ht Hr Hl). lia.
  - apply I2; [done..|]. destruct Hlast as [Hlast|[_ ?]]; [|lia].
    destruct (decide (last_data s j = e)) as [E|]; [|lia]. right. split; [done|].
    destruct (decide (s < t)%nat) as [|Hst]; [done|]. exfalso.
    assert (S e = S j * h ^ S s)%nat as Hse.
    { unfold last_data in E. pose proof (pow_pos h (S s) h_ge_2). nia. }
    pose proof (reached_quot h e t h_ge_2 Hr) as Hq. pose proof (pow_pos h t h_ge_2).
    destruct (mod_succ_small h (e / h ^ t) h_ge_2 Hl) as [_ Hm]. rewrite <- Hq, Hse in Hm.
    replace (S s) with (t + S (s - t))%nat in Hm by lia. rewrite Nat.pow_add_r in Hm. simpl in Hm.
    replace (h ^ t * (h * h ^ (s - t)) + j * (h ^ t * (h * h ^ (s - t))))%nat
      with (S j * h ^ (s - t) * h * h ^ t)%nat in Hm by lia.
    rewrite Nat.div_mul, Nat.Div0.mod_mul in Hm by lia. lia.
Qed.

Lemma index_small e t : (e < length data)%nat -> (t < D)%nat ->
  0 <= complete_blocks (Z.of_nat h) D (Z.of_nat e) + Z.of_nat t <
    padded_integrity_block_count (allocation_ g).
Proof.
  intros He Ht. assert (2 <= Z.of_nat h) as Hh by (pose proof h_ge_2; lia).
  pose proof (complete_nonneg (Z.of_nat h) Hh D (Z.of_nat e) ltac:(lia)).
  pose proof (complete_mono (Z.of_nat h) Hh D (Z.of_nat e) (Z.of_nat (length data) - 1) ltac:(lia)).
  pose proof (tree_blocks_complete (Z.of_nat h) Hh D (Z.of_nat (length data)) ltac:(lia)). lia.
Qed.

Lemma tree_block_length s j : length (tree_block h data s j) = Z.to_nat kBlockSize.
Proof.
  unfold tree_block. apply (padded_length h Hblock); [apply Forall_take, Forall_drop, items_hashes|].
  rewrite length_take. lia.
Qed.

Lemma seal_inv_write e t out d :
  seal_inv e t out d -> (t < D)%nat -> (e < length data)%nat ->
  seal_inv e (S t) (out ++ [tree_block h data t (e / h ^ S t)])
    (write_bytes ((1 + (complete_blocks (Z.of_nat h) D (Z.of_nat e) + Z.of_nat t)) * kBlockSize)
       (tree_block h data t (e / h ^ S t)) d).
Proof.
  intros [I1 I2 I3 I4] Ht He. pose proof (index_small e t He Ht) as Hidx. split.
  - rewrite length_app. simpl. lia.
  - intros s j Hs Hj Hlast. destruct (decide (last_data s j = e /\ s = t)) as [[E ->]|Hn].
    + rewrite pos_last, E. assert (j = e / h ^ S t)%nat as ->.
      { pose proof (pow_pos h (S t) h_ge_2). pose proof (Nat.Div0.mul_div_le (length data - 1) (h ^ S t)).
        unfold last_data in E. apply Nat.div_unique with (r := (e - h ^ S t * j)%nat); nia. }
      rewrite lookup_app_r by lia. rewrite <- I1, Nat2Z.id, Nat.sub_diag. done.
    + apply lookup_app_l_Some. apply I2; [done..|]. lia.
  - intros k b [Hk|[Hk Hb]]%lookup_app_Some.
    + rewrite vblock_write_other; [by apply I3|apply tree_block_length|]. apply lookup_lt_Some in Hk. lia.
    + apply list_lookup_singleton_Some in Hb as [Hk0 <-]. replace (Z.of_nat k) with (Z.of_nat (length out)) by lia.
      rewrite I1. apply vblock_write_same, tree_block_length.
  - intros i b Hb. rewrite vblock_write_other; [by apply I4|apply tree_block_length|]. lia.
Qed.

(** ** The phases of sealing *)

Definition blocks_total : Z := tree_blocks (Z.of_nat h) D (Z.of_nat (length data)).
Definition root : list Z := hash (tree_block h data (D - 1) 0).
Definition superblock : list Z := GenerateSuperblock g root.

(** The tree and the data are on the disk. *)
Definition tree_on (d : disk) : Prop :=
  (forall s j, (s < D)%nat -> (j <= (length data - 1) / h ^ S s)%nat ->
     vblock d (1 + block_pos (Z.of_nat h) D (Z.of_nat (length data)) s (Z.of_nat j)) = tree_block h data s j) /\
  (forall i b, data !! i = Some b ->
     vblock d (1 + padded_integrity_block_count (allocation_ g) + Z.of_nat i) = b).

(** A run with [n] operations to go. *)
Inductive sealing : Z -> SealRun -> Prop :=
  | sealing_read e out d rt fs l :
      (e < length data)%nat -> seal_inv e 0 out d ->
      sealing (Z.of_nat (length data - e) + (blocks_total - complete_blocks (Z.of_nat h) D (Z.of_nat e)) + 2)
        (mkRun (sealer_at ReadLoop (complete_blocks (Z.of_nat h) D (Z.of_nat e)) (Z.of_nat e + 1)
                  (fun s => acc_of (slice h data s e)) rt fs 1) d
           (Queue (OpRead hw ((1 + padded_integrity_block_count (allocation_ g) + Z.of_nat e) * hw))
              ReadCompletedCallback) l)
  | sealing_write e t st out d rt fs l :
      (e < length data)%nat -> (t < D)%nat -> seal_inv e t out d -> reached h data e t -> complete e t ->
      st = ReadLoop \/ st = PadHashBlocks /\ S e = length data ->
      sealing (Z.of_nat (length data - S e) +
                 (blocks_total - complete_blocks (Z.of_nat h) D (Z.of_nat e) - Z.of_nat t) + 2)
        (mkRun (sealer_at st (complete_blocks (Z.of_nat h) D (Z.of_nat e) + Z.of_nat t + 1) (Z.of_nat e + 1)
                  (write_accs e t) rt fs 1) d
           (Queue (OpWrite hw ((1 + (complete_blocks (Z.of_nat h) D (Z.of_nat e) + Z.of_nat t)) * hw)
                     (padded (fed h data t e))) IntegrityWriteCompletedCallback) l)
  | sealing_super idx d l :
      tree_on d ->
      sealing 2
        (mkRun (sealer_at CommitSuperblock idx (Z.of_nat (length data)) (fun _ => acc_of []) root
                  (hash superblock) 1) d
           (Queue (OpWrite hw 0 superblock) SuperblockWriteCompletedCallback) l)
  | sealing_flush idx d l :
      tree_on d -> vblock d 0 = superblock ->
      sealing 1
        (mkRun (sealer_at FinalFlush idx (Z.of_nat (length data)) (fun _ => acc_of []) root
                  (hash superblock) 1) d (Queue OpFlush FlushCompletedCallback) l)
  | sealing_done s d l :
      tree_on d -> vblock d 0 = superblock -> state_ s = Sealed ->
      sealing 0 (mkRun s d (Callback cookie ZX_OK (Some (hash superblock)) kHashOutputSize) l).

(** Tier [t] has just been fed: whatever comes next. *)
Lemma after_feed e t st out d rt fs l :
  (e < length data)%nat -> (t < D)%nat -> seal_inv e t out d -> reached h data e t ->
  st = ReadLoop \/ st = PadHashBlocks /\ S e = length data ->
  exists s o,
    (r ← write_integrity_loop (D - t) t
           (sealer_at st (complete_blocks (Z.of_nat h) D (Z.of_nat e) + Z.of_nat t) (Z.of_nat e + 1)
              (fed_accs e t) rt fs 0);
     match r with inr r => Done r | inl s => ScheduleNextWorkUnit kFuel s end) = Done (s, o) /\
    sealing (Z.of_nat (length data - S e) +
               (blocks_total - complete_blocks (Z.of_nat h) D (Z.of_nat e) - Z.of_nat t) + 2) (mkRun s d o l).
Proof.
  intros He Ht Hi Hr Hst. pose proof (index_small e t He Ht) as Hidx.
  rewrite loop_fed by (done || lia). cbn [mbind exec_bind]. change kFuel with 2%nat.
  destruct (decide (length (fed h data t e) = h)) as [Hf|Hf].
  { do 2 eexists. split; [reflexivity|]. eapply sealing_write; eauto. by left. }
  pose proof (fed_le e He t). destruct (decide (S e = length data)) as [Hlast|Hmore].
  - replace (Z.of_nat e + 1) with (Z.of_nat (length data)) by lia.
    rewrite schedule_pad by (done || lia || naive_solver). do 2 eexists. split; [reflexivity|].
    replace (Z.of_nat (length data)) with (Z.of_nat e + 1) by lia.
    eapply sealing_write; eauto. by right.
  - destruct Hst as [-> | [_ ?]]; [|done].
    rewrite schedule_read by lia. do 2 eexists. split; [reflexivity|].
    pose proof (seal_inv_next e t out d Hi Ht ltac:(lia) Hr ltac:(lia)) as Hi'.
    pose proof (si_len _ _ _ _ Hi). pose proof (si_len _ _ _ _ Hi').
    replace (complete_blocks (Z.of_nat h) D (Z.of_nat e) + Z.of_nat t)
      with (complete_blocks (Z.of_nat h) D (Z.of_nat (S e))) by lia.
    replace (blocks_total - complete_blocks (Z.of_nat h) D (Z.of_nat e) - Z.of_nat t)
      with (blocks_total - complete_blocks (Z.of_nat h) D (Z.of_nat (S e))) by lia.
    replace (Z.of_nat e + 1) with (Z.of_nat (S e)) by lia.
    assert (sealer_at ReadLoop (complete_blocks (Z.of_nat h) D (Z.of_nat (S e))) (Z.of_nat (S e) + 1) (fed_accs e t) rt fs 1 =
      sealer_at ReadLoop (complete_blocks (Z.of_nat h) D (Z.of_nat (S e))) (Z.of_nat (S e) + 1)
        (fun s => acc_of (slice h data s (S e))) rt fs 1) as ->.
    { unfold sealer_at. f_equal. apply accs_ext. intros s Hs. destruct Hr as [Hr|?]; [|lia].
      rewrite (slice_next h data h_ge_2 data_nonempty e He t s Hr) by lia. unfold fed_accs.
      destruct (decide (s < t)%nat); [done|]. by destruct (decide (s = t)) as [->|]. }
    eapply sealing_read; [lia|done].
Qed.

(** ** Operations on virtual blocks *)

Lemma perform_read b d :
  perform (kBlockSize / hw) (OpRead hw (b * hw)) d = (vblock d b, d).
Proof.
  simpl. unfold vblock. rewrite <- Hbs. by replace (b * hw * (kBlockSize / hw)) with (b * kBlockSize) by lia.
Qed.

Lemma perform_write b l d :
  length l = Z.to_nat kBlockSize ->
  perform (kBlockSize / hw) (OpWrite hw (b * hw) l) d = ([], write_bytes (b * kBlockSize) l d).
Proof.
  intros Hl. simpl. rewrite <- Hbs, take_ge by lia.
  by replace (b * hw * (kBlockSize / hw)) with (b * kBlockSize) by lia.
Qed.

Lemma superblock_length : length superblock = Z.to_nat kBlockSize.
Proof.
  unfold superblock, GenerateSuperblock. rewrite !length_app. unfold zeros. rewrite length_replicate.
  unfold root. rewrite hash_length_32. done.
Qed.

Lemma positions_tree e out d : seal_inv e D out d -> S e = length data -> tree_on d.
Proof.
  intros [I1 I2 I3 I4] He. split; [|exact I4]. intros s j Hs Hj.
  assert (last_data s j <= e)%nat by (unfold last_data; lia).
  specialize (I2 s j Hs Hj ltac:(lia)). apply I3 in I2. rewrite Z2Nat.id in I2; [done|].
  rewrite pos_last. pose proof (complete_nonneg (Z.of_nat h) ltac:(pose proof h_ge_2; lia) D (Z.of_nat (last_data s j))). lia.
Qed.

(** The block of the top tier is the root, and completes with the data. *)
Lemma top_complete e t : (e < length data)%nat -> S t = D -> reached h data e t -> complete e t ->
  S e = length data /\ padded (fed h data t e) = tree_block h data (D - 1) 0.
Proof.
  intros He Ht Hr Hc. destruct Hg as [_ _ (_ & Hpow & _) _].
  assert (length data <= h ^ D)%nat as Hle by (apply Nat2Z.inj_le; rewrite Nat2Z.inj_pow; lia).
  assert (S e = length data) as Hlast.
  { destruct Hc as [Hf|?]; [|done].
    pose proof (reached_S h data h_ge_2 data_nonempty e He t Hr Hf) as [Hd|?]; [|done].
    rewrite Ht in Hd. apply Nat.divide_pos_le in Hd; lia. }
  split; [done|]. rewrite (fed_block e He t Hc), Ht. f_equal; [lia|].
  apply Nat.div_small. lia.
Qed.

Lemma complete_next e t : (e < length data)%nat -> reached h data e t -> complete e t -> reached h data e (S t).
Proof.
  intros He Hr [Hf|?]; [|by right]. by apply (reached_S h data h_ge_2 data_nonempty).
Qed.

Lemma on_write_completed st idx didx f rt fs :
  on_completed IntegrityWriteCompletedCallback ZX_OK [] (sealer_at st idx didx f rt fs 1) =
  WriteIntegrityIfReady (sealer_at st idx didx f rt fs 0).
Proof. done. Qed.

Lemma step_write e t st out d rt fs l :
  (e < length data)%nat -> (t < D)%nat -> seal_inv e t out d -> reached h data e t -> complete e t ->
  st = ReadLoop \/ st = PadHashBlocks /\ S e = length data ->
  exists s o,
    on_completed IntegrityWriteCompletedCallback ZX_OK []
      (sealer_at st (complete_blocks (Z.of_nat h) D (Z.of_nat e) + Z.of_nat t + 1) (Z.of_nat e + 1)
         (write_accs e t) rt fs 1) = Done (s, o) /\
    sealing (Z.of_nat (length data - S e) +
               (blocks_total - complete_blocks (Z.of_nat h) D (Z.of_nat e) - Z.of_nat t) + 1)
      (mkRun s (write_bytes ((1 + (complete_blocks (Z.of_nat h) D (Z.of_nat e) + Z.of_nat t)) * kBlockSize)
                  (padded (fed h data t e)) d) o l).
Proof.
  intros He Ht Hi Hr Hc Hst. pose proof (seal_inv_write e t out d Hi Ht He) as Hi'.
  rewrite on_write_completed. unfold WriteIntegrityIfReady. destruct (decide (S t = D)) as [Htop|Hmore].
  - destruct (top_complete e t He Htop Hr Hc) as [Hlast Hroot].
    rewrite (written_root e He _ _ _ _ _ _ Htop). cbn [mbind exec_bind]. change kFuel with 2%nat.
    replace (Z.of_nat e + 1) with (Z.of_nat (length data)) by lia.
    rewrite schedule_super by naive_solver. do 2 eexists. split; [reflexivity|].
    rewrite Hroot. rewrite <- (fed_block e He t Hc), Hroot, Htop in Hi'.
    assert (Z.of_nat (length data - S e) + (blocks_total - complete_blocks (Z.of_nat h) D (Z.of_nat e) - Z.of_nat t) + 1 = 2) as ->.
    { unfold blocks_total. rewrite tree_blocks_complete by (pose proof h_ge_2; lia).
      replace (Z.of_nat (length data) - 1) with (Z.of_nat e) by lia. lia. }
    fold root. apply (sealing_super _ _ _ (positions_tree e _ _ Hi' Hlast)).
  - rewrite (written_next e He _ _ _ _ _ t ltac:(lia) Hc).
    replace (complete_blocks (Z.of_nat h) D (Z.of_nat e) + Z.of_nat t + 1)
      with (complete_blocks (Z.of_nat h) D (Z.of_nat e) + Z.of_nat (S t)) by lia.
    rewrite (fed_block e He t Hc).
    destruct (after_feed e (S t) st _ _ rt fs l He ltac:(lia) Hi' (complete_next e t He Hr Hc) Hst) as (s & o & Hrun & Hs).
    exists s, o. split; [exact Hrun|]. 
    replace (Z.of_nat (length data - S e) + (blocks_total - complete_blocks (Z.of_nat h) D (Z.of_nat e) - Z.of_nat t) + 1)
      with (Z.of_nat (length data - S e) +
              (blocks_total - complete_blocks (Z.of_nat h) D (Z.of_nat e) - Z.of_nat (S t)) + 2) by lia.
    exact Hs.
Qed.

Lemma step_read e out d rt fs l :
  (e < length data)%nat -> seal_inv e 0 out d ->
  exists s o,
    on_completed ReadCompletedCallback ZX_OK
      (vblock d (1 + padded_integrity_block_count (allocation_ g) + Z.of_nat e))
      (sealer_at ReadLoop (complete_blocks (Z.of_nat h) D (Z.of_nat e)) (Z.of_nat e + 1)
         (fun s => acc_of (slice h data s e)) rt fs 1) = Done (s, o) /\
    sealing (Z.of_nat (length data - S e) + (blocks_total - complete_blocks (Z.of_nat h) D (Z.of_nat e)) + 2)
      (mkRun s d o l).
Proof.
  intros He Hi. destruct (lookup_lt_is_Some_2 data e He) as [b Hb]. rewrite (si_data _ _ _ _ Hi e b Hb).
  assert (0 < D)%nat as HD by (by destruct Hg as [_ _ (? & _) _]).
  unfold on_completed. simpl outstanding_block_requests_. simpl (1 - 1 =? 0). cbn [zx_assert exec_bind].
  unfold CompleteRead. rewrite decide_True by done. simpl hash_block_accumulators_. rewrite accs_lookup by done.
  rewrite (feed_acc h Hblock); [|apply slice_hashes|apply hash_length_32|
    apply slice_short; [apply h_ge_2|apply data_nonempty|done]].
  assert (items h data 0 !! (e / h ^ 0)%nat = Some (hash b)) as Hit.
  { rewrite Nat.pow_0_r, Nat.div_1_r. cbn [items]. by rewrite list_lookup_fmap, Hb. }
  rewrite <- (fed_slice h data e 0 _ Hit). cbn [mbind exec_bind].
  change (set_outstanding (1 - 1) (sealer_at ReadLoop ?i ?n ?f rt fs 1)) with (sealer_at ReadLoop i n f rt fs 0).
  rewrite set_acc_at by done.
  destruct (after_feed e 0 ReadLoop out d rt fs l He HD Hi (reached_0 h data e) ltac:(by left)) as (s & o & Hrun & Hs).
  exists s, o. rewrite Z.add_0_r in Hrun. rewrite Z.sub_0_r in Hs. split; [|exact Hs]. rewrite <- Hrun.
  unfold WriteIntegrityIfReady, write_integrity. simpl hash_block_accumulators_. rewrite accs_length, Nat.sub_0_r.
  reflexivity.
Qed.

(** As long as data is left to be read or the tree to be written, more than the superblock and the flush are to come. *)
Lemma tree_left e t : (e < length data)%nat -> (t < D)%nat -> complete_blocks (Z.of_nat h) D (Z.of_nat e) + Z.of_nat t < blocks_total.
Proof.
  intros He Ht. unfold blocks_total. rewrite tree_blocks_complete by (pose proof h_ge_2; lia).
  pose proof (complete_mono (Z.of_nat h) ltac:(pose proof h_ge_2; lia) D (Z.of_nat e) (Z.of_nat (length data) - 1)). lia.
Qed.

(** Each operation brings the sealer one closer to its end; the last two write the superblock and flush. *)
Lemma sealing_step n r :
  sealing n r -> n <> 0 -> exists r' op, seal_step (kBlockSize / hw) r = Done r' /\ sealing (n - 1) r' /\ run_ops r' = run_ops r ++ [op] /\
    (n = 2 -> op = OpWrite hw 0 superblock) /\ (n = 1 -> op = OpFlush).
Proof.
  intros Hs Hn. assert (0 < D)%nat as HD by (by destruct Hg as [_ _ (? & _) _]).
  unfold seal_step. inversion Hs; subst; try done; cbn [run_output run_disk run_sealer run_ops].
  - rewrite perform_read. destruct (step_read e out d rt fs (l ++ [OpRead hw ((1 + padded_integrity_block_count (allocation_ g) + Z.of_nat e) * hw)])) as (s & o & -> & Hs'); [done..|].
    pose proof (tree_left e 0 ltac:(done) HD). eexists _, _. split; [reflexivity|]. split; [|split; [done|lia]].
    by replace (_ + _ + 2 - 1) with (Z.of_nat (length data - S e) +
      (blocks_total - complete_blocks (Z.of_nat h) D (Z.of_nat e)) + 2) by lia.
  - rewrite perform_write by (rewrite fed_block by done; apply tree_block_length).
    match goal with |- context [l ++ [?op]] => destruct (step_write e t st out d rt fs (l ++ [op])) as (s & o & -> & Hs'); [done..|] end.
    pose proof (tree_left e t ltac:(done) ltac:(done)). eexists _, _. split; [reflexivity|]. split; [|split; [done|lia]].
    by replace (_ + _ + 2 - 1) with (Z.of_nat (length data - S e) +
      (blocks_total - complete_blocks (Z.of_nat h) D (Z.of_nat e) - Z.of_nat t) + 1) by lia.
  - change 0 with (0 * hw). rewrite perform_write by apply superblock_length. simpl.
    eexists _, _. split; [reflexivity|]. split; [|split; [done|split; [done|lia]]]. change 1 with (2 - 1).
    apply sealing_flush; [|change (0 * kBlockSize) with 0; apply (vblock_write_same d 0), superblock_length].
    destruct H0 as [H1 H2]. split.
    + intros s j Hs' Hj. rewrite (vblock_write_other d 0); [by apply H1|apply superblock_length|].
      rewrite pos_last. pose proof (complete_nonneg (Z.of_nat h) ltac:(pose proof h_ge_2; lia) D (Z.of_nat (last_data s j))). lia.
    + intros i b Hb. rewrite (vblock_write_other d 0); [by apply H2|apply superblock_length|].
      pose proof (index_small 0 0). pose proof (data_pos h data h_ge_2 data_nonempty).
      destruct Hg as [_ _ (? & _) _]. lia.
  - eexists _, _. split; [reflexivity|]. split; [by apply sealing_done|]. split; [done|]. split; [lia|done].
Qed.

Lemma sealing_steps n r :
  sealing (Z.of_nat (n + 2)) r -> exists r' ops, seal_steps (n + 2) (kBlockSize / hw) r = Done r' /\ sealing 0 r' /\
    run_ops r' = run_ops r ++ ops ++ [OpWrite hw 0 superblock; OpFlush] /\ length ops = n.
Proof.
  revert r. induction n as [|n IH]; intros r Hs; cbn [Nat.add seal_steps].
  - destruct (sealing_step _ _ Hs) as (r1 & op1 & -> & Hs1 & E1 & Ho1 & _); [lia|]. cbn [mbind exec_bind].
    destruct (sealing_step _ _ Hs1) as (r2 & op2 & -> & Hs2 & E2 & _ & Ho2); [lia|]. exists r2, []. split; [done|]. split; [done|].
    rewrite E2, E1, Ho1, Ho2, <- app_assoc by lia. done.
  - destruct (sealing_step _ _ Hs) as (r1 & op1 & -> & Hs1 & E1 & _); [lia|]. cbn [mbind exec_bind].
    replace (Z.of_nat (S n + 2) - 1) with (Z.of_nat (n + 2)) in Hs1 by lia. destruct (IH _ Hs1) as (r' & ops & -> & Hs' & E' & Hl).
    exists r', (op1 :: ops). split; [done|]. split; [done|]. rewrite E', E1, <- app_assoc. split; [done|]. simpl. lia.
Qed.

Lemma seal_inv_start d :
  (forall i b, data !! i = Some b ->
     vblock d (1 + padded_integrity_block_count (allocation_ g) + Z.of_nat i) = b) -> seal_inv 0 0 [] d.
Proof.
  intros Hd. split; [|intros s j _ _ [?|[_ ?]]; lia|done|done].
  rewrite complete_zero; [done|]. pose proof h_ge_2. lia.
Qed.

(** Sealing takes one operation for each data block, each block of the tree, the superblock and the
    flush; then the callback has the seal, and the tree and the superblock are on the disk. *)
Lemma seal_complete d :
  (forall i b, data !! i = Some b ->
     vblock d (1 + padded_integrity_block_count (allocation_ g) + Z.of_nat i) = b) ->
  exists r, seal (Z.to_nat (Z.of_nat (length data) + blocks_total + 2)) g hw cookie d = Done r /\
    run_output r = Callback cookie ZX_OK (Some (hash superblock)) kHashOutputSize /\
    tree_on (run_disk r) /\ vblock (run_disk r) 0 = superblock /\
    exists ops, run_ops r = ops ++ [OpWrite hw 0 superblock; OpFlush] /\ Z.of_nat (length ops) = Z.of_nat (length data) + blocks_total.
Proof.
  intros Hd. pose proof (data_pos h data h_ge_2 data_nonempty) as Hpos.
  assert (new_sealer g hw = mkSealer g Initial 0 0 (accs (fun _ => acc_of [])) (zeros kHashOutputSize)
    (zeros kHashOutputSize) None hw 0) as Hnew.
  { unfold new_sealer. destruct Hg as [_ Hsh _ _]. rewrite Hsh. simpl tree_depth. rewrite Nat2Z.id.
    f_equal. apply list_eq_same_length with (n := D); [apply accs_length|apply length_replicate|].
    intros k x y Hk [-> _]%lookup_replicate Hy. rewrite accs_lookup in Hy by done. by injection Hy as <-. }
  unfold seal, StartSealing. rewrite Hnew. simpl state_. rewrite decide_True by done.
  change (set_state ReadLoop (set_callback (Some cookie) ?s)) with
    (sealer_at ReadLoop 0 0 (fun _ => acc_of []) (zeros kHashOutputSize) (zeros kHashOutputSize) 0).
  change kFuel with 2%nat. rewrite schedule_read by lia. cbn [mbind exec_bind].
  set (tb := blocks_total). assert (0 <= tb) as Htb.
  { unfold tb, blocks_total. rewrite tree_blocks_complete by (pose proof h_ge_2; lia).
    pose proof (complete_nonneg (Z.of_nat h) ltac:(pose proof h_ge_2; lia) D (Z.of_nat (length data) - 1)). lia. }
  replace (Z.to_nat (Z.of_nat (length data) + tb + 2)) with (Z.to_nat (Z.of_nat (length data) + tb) + 2)%nat by lia.
  destruct (sealing_steps (Z.to_nat (Z.of_nat (length data) + tb))
    (mkRun (sealer_at ReadLoop 0 (0 + 1) (fun _ => acc_of []) (zeros kHashOutputSize) (zeros kHashOutputSize) 1) d
       (Queue (OpRead hw ((1 + padded_integrity_block_count (allocation_ g) + 0) * hw)) ReadCompletedCallback) []))
    as (r & ops & Hr & Hs & Eops & Hlen).
  { pose proof (sealing_read 0 [] d (zeros kHashOutputSize) (zeros kHashOutputSize) [] Hpos (seal_inv_start d Hd)) as Hs.
    change (Z.of_nat 0) with 0 in Hs. rewrite complete_zero in Hs by (pose proof h_ge_2; lia).
    rewrite Nat2Z.inj_add, Z2Nat.id by lia. rewrite Nat.sub_0_r, Z.sub_0_r in Hs. fold tb in Hs.
    assert (accs (fun s => acc_of (slice h data s 0)) = accs (fun _ => acc_of [])) as E.
    { apply accs_ext. intros s _. by rewrite slice_zero. }
    unfold sealer_at in *. by rewrite E in Hs. }
  exists r. split; [exact Hr|]. assert (exists o, run_ops r = o ++ [OpWrite hw 0 superblock; OpFlush] /\ Z.of_nat (length o) = Z.of_nat (length data) + tb) as Ho
    by (exists ops; split; [exact Eops|lia]).
  inversion Hs; subst; simpl in *; try done.
  - assert (0 < D)%nat as HD by (by destruct Hg as [_ _ (? & _) _]). pose proof (tree_left e 0 ltac:(done) HD). unfold tb in *. lia.
  - pose proof (tree_left e t ltac:(done) ltac:(done)). unfold tb in *. lia.
Qed.
End seal.
