(* ===== verification/VerityVerifier.v ===== *)
(** * VerityVerifier: checking what is read from a block-verity partition

    Model of [src/devices/block/drivers/block-verity/superblock-verifier.cc] and [block-verifier.cc]:
    the check of the superblock against the seal, and of a data block against the integrity data that
    was loaded, up to the root hash. *)
From Stdlib Require Import ZArith Lia.
From stdpp Require Import prelude.
From S2P Require Import Prelude VerityGeometry VeritySealer.

Local Open Scope Z_scope.

(** ** The superblock *)

Record Superblock := mkSuperblock {
  magic : list Z;
  block_count : Z;
  block_size : Z;
  hash_function : Z;
  integrity_root_hash : list Z
}.

(** The value of little-endian bytes. *)
Fixpoint letoh (l : list Z) : Z := match l with [] => 0 | b :: rest => b + 256 * letoh rest end.

(** The bytes [offset..offset+n-1] of a buffer. *)
Definition field (offset n : nat) (buf : list Z) : list Z := take n (drop offset buf).

(** The layout of [struct Superblock]. *)
Definition read_superblock (buf : list Z) : Superblock :=
  mkSuperblock (field 0 16 buf) (letoh (field 16 8 buf)) (letoh (field 24 4 buf)) (letoh (field 28 4 buf))
    (field 32 32 buf).

Section verifier.
Context `{Digest}.

(** [SuperblockVerifier::OnReadCompleted]: the arguments of its callback. [read] is what the read of
    the VMO returns. *)
Definition OnReadCompleted (g : Geometry) (expected_superblock_hash : list Z) (status : zx_status)
    (read : zx_status * list Z) : zx_status * option Superblock :=
  if decide (status <> ZX_OK) then (status, None)
  else
    let '(rc, buf) := read in
    if decide (rc <> ZX_OK) then (rc, None)
    else if decide (hash buf <> expected_superblock_hash) then (ZX_ERR_IO_DATA_INTEGRITY, None)
    else
      let sb := read_superblock buf in
      if bool_decide (magic sb <> kBlockVerityMagic) || negb (block_count sb =? total_blocks_ g) ||
         (kMaxBlockCount <? block_count sb) || negb (block_size sb =? kBlockSize) ||
         negb (hash_function sb =? kSHA256HashTag)
      then (ZX_ERR_INVALID_ARGS, None)
      else (ZX_OK, Some sb).

(** ** The block verifier *)

Inductive BlockVerifierState := kInitial | kLoading | kReady | kFailed.

(** [bv_memory] is the mapped VMO, by offset. *)
Record BlockVerifier := mkVerifier {
  bv_geometry : Geometry;
  bv_state : BlockVerifierState;
  bv_root_hash : list Z;
  bv_memory : disk
}.

Definition new_verifier (g : Geometry) (root : list Z) (m : disk) : BlockVerifier :=
  mkVerifier g kInitial root m.

Definition GetIntegritySectionSizeInBytes (v : BlockVerifier) : Z :=
  u64 (integrity_block_count (integrity_shape (allocation_ (bv_geometry v))) * kBlockSize).

(** [PrepareAsync], where creating and mapping the VMO give the statuses [vmo] and [map]: the status,
    and the blocks [LoadIntegrityBlocks] requests. *)
Definition PrepareAsync (vmo map : zx_status) (v : BlockVerifier)
    : exec (zx_status * option (Z * Z) * BlockVerifier) :=
  (ASSERT match bv_state v with kInitial => true | _ => false end ;;
   if decide (vmo <> ZX_OK) then Done (vmo, None, v)
   else if decide (map <> ZX_OK) then Done (map, None, v)
   else Done (ZX_OK,
              Some (AbsoluteLocationForIntegrity (bv_geometry v) 0,
                    integrity_block_count (integrity_shape (allocation_ (bv_geometry v)))),
              mkVerifier (bv_geometry v) kLoading (bv_root_hash v) (bv_memory v)))%exec.

(** [OnIntegrityDataLoaded]; the load has left [m] in the VMO. *)
Definition OnIntegrityDataLoaded (status : zx_status) (m : disk) (v : BlockVerifier) : exec BlockVerifier :=
  (ASSERT match bv_state v with kLoading => true | _ => false end ;;
   Done (mkVerifier (bv_geometry v) (if decide (status = ZX_OK) then kReady else kFailed) (bv_root_hash v) m))%exec.

(** The bytes at [MemoryLocationForHash] and [MemoryLocationForBlock]. *)
Definition hash_at (h : HashLocation) (v : BlockVerifier) : list Z :=
  read_bytes (bv_memory v)
    (u64 (u64 (integrity_block h * kBlockSize) + u64 (hash_in_block h * kHashOutputSize))) kHashOutputSize.
Definition block_at (i : Z) (v : BlockVerifier) : list Z :=
  read_bytes (bv_memory v) (u64 (i * kBlockSize)) kBlockSize.

(** The loop from the leaf up, [n] rounds from [distance_from_leaf]: the last location, unless a hash
    does not match. *)
Fixpoint verify_up (n : nat) (distance_from_leaf : Z) (previous : HashLocation) (v : BlockVerifier)
    : option HashLocation :=
  match n with
  | O => Some previous
  | S n' =>
      let up_one := NextIntegrityBlockUp (bv_geometry v) distance_from_leaf (integrity_block previous) in
      if decide (hash (block_at (integrity_block previous) v) = hash_at up_one v)
      then verify_up n' (distance_from_leaf + 1) up_one v else None
  end.

Definition VerifyDataBlockSync (data_block_index : Z) (block_data : list Z) (v : BlockVerifier)
    : exec zx_status :=
  match bv_state v with
  | kReady =>
      let shape := integrity_shape (allocation_ (bv_geometry v)) in
      leaf ← IntegrityDataLocationForDataBlock (bv_geometry v) data_block_index;
      if decide (hash block_data <> hash_at leaf v) then Done ZX_ERR_IO_DATA_INTEGRITY
      else
        match verify_up (Z.to_nat (u32 (tree_depth shape - 1))) 0 leaf v with
        | None => Done ZX_ERR_IO_DATA_INTEGRITY
        | Some previous =>
            (ASSERT integrity_block previous =? u64 (integrity_block_count shape - 1) ;;
             Done (if decide (hash (block_at (integrity_block previous) v) = bv_root_hash v)
                   then ZX_OK else ZX_ERR_IO_DATA_INTEGRITY))%exec
        end
  | _ => Done ZX_ERR_BAD_STATE
  end.
End verifier.
