(* ===== verification/VerityRoundtrip.v ===== *)
(** * VerityRoundtrip: what was sealed is verified

    The path the verifier follows is the path of the tree the sealer wrote: what was sealed verifies,
    and what verifies was sealed, or two byte strings with one hash have been found. *)
From Stdlib Require Import ZArith Lia.
From stdpp Require Import prelude.
From S2P Require Import Prelude VerityGeometry VeritySealer VerityTree VeritySeal VerityVerifier.

Local Open Scope Z_scope.

Lemma read_bytes_sub m off a n M :
  0 <= a -> 0 <= n -> a + n <= M ->
  read_bytes m (off + a) n = take (Z.to_nat n) (drop (Z.to_nat a) (read_bytes m off M)).
Proof.
  intros Ha Hn HM. apply list_eq_same_length with (n := Z.to_nat n);
    [rewrite length_take, length_drop, read_bytes_length; lia|apply read_bytes_length|].
  intros k x y Hk Hx Hy. rewrite read_bytes_lookup in Hx by done.
  rewrite lookup_take_lt, lookup_drop, read_bytes_lookup in Hy by lia. simplify_eq. f_equal. lia.
Qed.

(** ** The path of a data block *)

Section path.
Context `{Hdok : DigestOk} (g : Geometry) (h D : nat) (data : list (list Z)).
Context (Hh : (2 <= h)%nat) (Hblock : kBlockSize = kHashOutputSize * Z.of_nat h).
Context (Hcube : Z.of_nat (length data) <= Z.of_nat h ^ 3).
Context (Hg : geometry_ok g (Z.of_nat h) (Z.of_nat (length data)) D).

Lemma h_bounds : 2 <= Z.of_nat h < 2 ^ 16.
Proof. unfold kBlockSize, kHashOutputSize in *. lia. Qed.

Lemma data_not_empty : data <> [].
Proof. destruct Hg as [_ _ _ Hn]. intros ->. simpl in Hn. lia. Qed.

Context (i : nat) (Hi : (i < length data)%nat).

(** The block of tier [t] above data block [i]. *)
Definition above (t : nat) : nat := (i / h ^ S t)%nat.
Definition pos (t : nat) : Z := block_pos (Z.of_nat h) D (Z.of_nat (length data)) t (Z.of_nat (above t)).
(** The location of the hash at tier [t] on the path of data block [i]. *)
Definition loc (t : nat) : HashLocation := mkLocation (pos t) (Z.of_nat ((i / h ^ t) mod h)).

Lemma above_le t : (above t <= (length data - 1) / h ^ S t)%nat.
Proof. apply div_le_up. lia. Qed.

Lemma leaf_loc : IntegrityDataLocationForDataBlock g (Z.of_nat i) = Done (loc 0).
Proof.
  rewrite (location_of_data g _ _ D h_bounds Hcube Hg) by lia. unfold loc, pos, above.
  rewrite Nat.pow_0_r, Nat.pow_1_r, Nat.div_1_r, Nat2Z.inj_div, Nat2Z.inj_mod. done.
Qed.

Lemma next_loc t : (S t < D)%nat -> NextIntegrityBlockUp g (Z.of_nat t) (pos t) = loc (S t).
Proof.
  intros Ht. unfold pos. rewrite (next_up g _ _ D h_bounds Hcube Hg); [|done|lia|].
  - unfold loc, pos, above. rewrite <- Nat2Z.inj_div, <- Nat2Z.inj_mod, <- div_pow_S by lia. done.
  - replace (Z.of_nat t + 1) with (Z.of_nat (S t)) by lia. rewrite <- Nat2Z.inj_pow, <- Nat2Z.inj_mul.
    apply inj_lt. unfold above. pose proof (Nat.Div0.mul_div_le i (h ^ S t)). lia.
Qed.

Lemma top_pos : pos (D - 1) = tree_blocks (Z.of_nat h) D (Z.of_nat (length data)) - 1.
Proof.
  pose proof (depth_3 g _ _ D h_bounds Hcube Hg). unfold pos.
  assert (above (D - 1) = 0)%nat as ->; [|by apply (root_pos g _ _ D h_bounds Hcube Hg)].
  unfold above. apply Nat.div_small. replace (S (D - 1)) with D by lia. destruct Hg as [_ _ (_ & Hp & _) _].
  apply Nat2Z.inj_lt. rewrite Nat2Z.inj_pow. lia.
Qed.

Lemma pos_small t : (t < D)%nat -> 0 <= pos t < 2 ^ 49.
Proof.
  intros Ht. pose proof (depth_3 g _ _ D h_bounds Hcube Hg). pose proof h_bounds.
  pose proof (cube_small (Z.of_nat h) h_bounds). unfold pos, block_pos.
  set (z := Z.min _ _ - 1). assert (0 <= z < Z.of_nat (length data)) as Hz.
  { unfold z. assert (0 < Z.of_nat h ^ (Z.of_nat t + 1)) by (apply Z.pow_pos_nonneg; lia).
    pose proof (Z.mul_pos_pos (Z.of_nat (above t) + 1) (Z.of_nat h ^ (Z.of_nat t + 1))). lia. }
  pose proof (complete_nonneg (Z.of_nat h) ltac:(lia) D z ltac:(lia)).
  assert (forall E m, 0 <= m -> complete_blocks (Z.of_nat h) E m <= m) as Hle.
  { induction E as [|E IH]; intros m Hm; simpl; [done|].
    pose proof (Z.div_mod m (Z.of_nat h) ltac:(lia)). pose proof (Z.mod_pos_bound m (Z.of_nat h) ltac:(lia)).
    specialize (IH (m / Z.of_nat h) ltac:(apply Z.div_pos; lia)). nia. }
  specialize (Hle D z). lia.
Qed.

Lemma pos_range t : (t < D)%nat -> 0 <= pos t < tree_blocks (Z.of_nat h) D (Z.of_nat (length data)).
Proof.
  intros Ht. split; [by apply pos_small|]. pose proof h_bounds. destruct Hg as [_ _ _ Hn]. rewrite tree_blocks_complete by lia. unfold pos, block_pos.
  assert (0 < Z.of_nat h ^ (Z.of_nat t + 1)) by (apply Z.pow_pos_nonneg; lia).
  pose proof (Z.mul_pos_pos (Z.of_nat (above t) + 1) (Z.of_nat h ^ (Z.of_nat t + 1)) ltac:(lia) ltac:(lia)).
  pose proof (complete_mono (Z.of_nat h) ltac:(lia) D (Z.min (Z.of_nat (length data)) ((Z.of_nat (above t) + 1) * Z.of_nat h ^ (Z.of_nat t + 1)) - 1) (Z.of_nat (length data) - 1) ltac:(lia)). lia.
Qed.

(** ** Memory *)

Section memory.
Context (v : BlockVerifier) (Hv : bv_geometry v = g).

Lemma block_at_pos t : (t < D)%nat -> block_at (pos t) v = vblock (bv_memory v) (pos t).
Proof.
  intros Ht. unfold block_at, vblock. pose proof (pos_small t Ht).
  rewrite u64_small by (unfold is_u64, kBlockSize; lia). done.
Qed.

Lemma hash_at_loc t :
  (t < D)%nat ->
  hash_at (loc t) v = take 32 (drop (32 * ((i / h ^ t) mod h)) (vblock (bv_memory v) (pos t))).
Proof.
  intros Ht. unfold hash_at, vblock. simpl. pose proof (pos_small t Ht). pose proof h_bounds.
  pose proof (Nat.mod_upper_bound (i / h ^ t) h ltac:(lia)) as Hm.
  unfold kBlockSize, kHashOutputSize in *.
  rewrite (u64_small (pos t * 4096)), (u64_small (_ * 32)) by (unfold is_u64; lia).
  rewrite u64_small by (unfold is_u64; lia). rewrite (read_bytes_sub _ _ _ _ 4096) by lia.
  do 2 f_equal. lia.
Qed.

(** A block of the tree that is in memory has the hash of the block below it. *)
Lemma slot_of_tree t x :
  (t < D)%nat -> vblock (bv_memory v) (pos t) = tree_block h data t (above t) ->
  items h data t !! (i / h ^ t)%nat = Some x -> hash_at (loc t) v = x.
Proof.
  intros Ht Hb Hx. rewrite hash_at_loc, Hb by done. unfold tree_block.
  apply padded_slot; [apply Forall_take, Forall_drop, items_hashes|].
  pose proof (Nat.mod_upper_bound (i / h ^ t) h ltac:(lia)).
  rewrite lookup_take_lt, lookup_drop by done. unfold above. rewrite div_pow_S by lia.
  by rewrite <- (Nat.div_mod_eq (i / h ^ t) h).
Qed.

Lemma item_above t : (t < D)%nat -> items h data (S t) !! (i / h ^ S t)%nat = Some (hash (tree_block h data t (above t))).
Proof. intros _. apply items_lookup_S; [done|apply data_not_empty|apply above_le]. Qed.

(** The loop follows the path, and succeeds if all hashes on it match. *)
Lemma verify_up_path n t :
  (t + n < D)%nat ->
  match verify_up n (Z.of_nat t) (loc t) v with
  | Some l => l = loc (t + n) /\
      forall s, (t <= s < t + n)%nat -> hash (block_at (pos s) v) = hash_at (loc (S s)) v
  | None => exists s, (t <= s < t + n)%nat /\ hash (block_at (pos s) v) <> hash_at (loc (S s)) v
  end.
Proof.
  revert t. induction n as [|n IH]; intros t Ht; simpl.
  - rewrite Nat.add_0_r. split; [done|lia].
  - rewrite Hv. simpl. rewrite next_loc by lia. destruct (decide _) as [Heq|Hne].
    + specialize (IH (S t) ltac:(lia)). replace (Z.of_nat t + 1) with (Z.of_nat (S t)) by lia.
      destruct (verify_up n (Z.of_nat (S t)) (loc (S t)) v).
      * destruct IH as [-> IH]. split; [f_equal; lia|]. intros s Hs.
        destruct (decide (s = t)) as [->|]; [done|]. apply IH. lia.
      * destruct IH as (s & Hs & IH). exists s. split; [lia|done].
    + exists t. split; [lia|done].
Qed.

(** ** Verifying a block *)

Context (Hready : bv_state v = kReady).

(** A string among [xs] and another one among [ys] have the same hash. *)
Definition collision (xs ys : list (list Z)) : Prop := exists x y, x ∈ xs /\ y ∈ ys /\ x <> y /\ hash x = hash y.

(** Whatever is in memory, the code checks exactly the hashes on the path of the data block. *)
Lemma verify_spec b :
  VerifyDataBlockSync (Z.of_nat i) b v =
  Done (if decide (hash b = hash_at (loc 0) v /\
                   Forall (fun t => hash (block_at (pos t) v) = hash_at (loc (S t)) v) (seq 0 (D - 1)) /\
                   hash (block_at (pos (D - 1)) v) = bv_root_hash v)
        then ZX_OK else ZX_ERR_IO_DATA_INTEGRITY).
Proof.
  pose proof (depth_3 g _ _ D h_bounds Hcube Hg) as HD. destruct Hg as [_ Hs _ HN].
  unfold VerifyDataBlockSync. rewrite Hready, Hv, leaf_loc, Hs. cbn [mbind exec_bind]. simpl tree_depth.
  simpl integrity_block_count. unfold u32. rewrite Z.mod_small by lia.
  replace (Z.to_nat (Z.of_nat D - 1)) with (D - 1)%nat by lia.
  destruct (decide (hash b <> hash_at (loc 0) v)) as [Hne|Heq].
  { by rewrite decide_False by (by intros [? _]). }
  apply dec_stable in Heq. pose proof (verify_up_path (D - 1) 0 ltac:(lia)) as Hup.
  change (Z.of_nat 0) with 0 in Hup. simpl (0 + (D - 1))%nat in Hup.
  destruct (verify_up (D - 1) 0 (loc 0) v) as [l|].
  - destruct Hup as [-> Hup]. simpl integrity_block. rewrite <- top_pos.
    pose proof (pos_small (D - 1) ltac:(lia)). rewrite u64_small by (unfold is_u64; lia).
    rewrite Z.eqb_refl. cbn [zx_assert exec_bind]. f_equal.
    destruct (decide (hash (block_at (pos (D - 1)) v) = bv_root_hash v)) as [Hr|Hr].
    + rewrite decide_True; [done|]. split_and!; [done| |done]. apply Forall_forall. intros t Ht%elem_of_seq.
      apply Hup. lia.
    + by rewrite decide_False by (by intros (_ & _ & ?)).
  - destruct Hup as (t & Ht & Hne). rewrite decide_False; [done|]. intros (_ & Hall & _).
    apply Hne. rewrite Forall_forall in Hall. apply Hall, elem_of_seq. lia.
Qed.

Context (Hroot : bv_root_hash v = hash (tree_block h data (D - 1) 0)).

Lemma above_top : above (D - 1) = 0%nat.
Proof.
  pose proof (depth_3 g _ _ D h_bounds Hcube Hg). unfold above. apply Nat.div_small.
  replace (S (D - 1)) with D by lia. destruct Hg as [_ _ (_ & Hp & _) _]. apply Nat2Z.inj_lt. rewrite Nat2Z.inj_pow. lia.
Qed.

Lemma verify_complete b :
  (forall t, (t < D)%nat -> vblock (bv_memory v) (pos t) = tree_block h data t (above t)) ->
  data !! i = Some b -> VerifyDataBlockSync (Z.of_nat i) b v = Done ZX_OK.
Proof.
  intros Hm Hb. pose proof (depth_3 g _ _ D h_bounds Hcube Hg) as HD. rewrite verify_spec, decide_True; [done|].
  assert (forall t, (t < D)%nat -> block_at (pos t) v = tree_block h data t (above t)) as Hbl.
  { intros t Ht. by rewrite block_at_pos, Hm. }
  split_and!.
  - symmetry. apply slot_of_tree; [lia|apply Hm; lia|]. rewrite Nat.pow_0_r, Nat.div_1_r. cbn [items].
    by rewrite list_lookup_fmap, Hb.
  - apply Forall_forall. intros t Ht%elem_of_seq. rewrite Hbl by lia. symmetry.
    apply slot_of_tree; [lia|apply Hm; lia|apply item_above; lia].
  - rewrite Hbl, Hroot, above_top by lia. done.
Qed.

(** Two strings with the same hash are the same, or a collision. *)
Lemma same_hash (xs ys : list (list Z)) (x y : list Z) : x ∈ xs -> y ∈ ys -> hash x = hash y -> x = y \/ collision xs ys.
Proof. intros Hx Hy Hxy. destruct (decide (x = y)); [by left|right]. by exists x, y. Qed.

Section sound.
(** What is presented holds the blocks on the path, what was sealed those of the tree. *)
Context (xs ys : list (list Z)).
Context (Hxs : forall t, (t < D)%nat -> vblock (bv_memory v) (pos t) ∈ xs) (Hys : forall t, (t < D)%nat -> tree_block h data t (above t) ∈ ys).

(** The blocks on the path are those of the tree, from the root down. *)
Lemma path_blocks k :
  Forall (fun t => hash (block_at (pos t) v) = hash_at (loc (S t)) v) (seq 0 (D - 1)) ->
  hash (block_at (pos (D - 1)) v) = bv_root_hash v -> (k < D)%nat ->
  vblock (bv_memory v) (pos (D - 1 - k)) = tree_block h data (D - 1 - k) (above (D - 1 - k)) \/ collision xs ys.
Proof.
  intros Hall Htop. rewrite Forall_forall in Hall. induction k as [|k IH]; intros Hk.
  - rewrite Nat.sub_0_r. apply same_hash; [apply Hxs; lia|apply Hys; lia|]. rewrite <- block_at_pos, above_top by lia. congruence.
  - destruct IH as [IH|]; [lia| |by right]. set (t := (D - 1 - S k)%nat).
    replace (D - 1 - k)%nat with (S t) in IH by lia. apply same_hash; [apply Hxs; lia|apply Hys; lia|]. rewrite <- block_at_pos by lia.
    rewrite Hall by (apply elem_of_seq; lia). apply slot_of_tree; [lia|done|apply item_above; lia].
Qed.

Lemma verify_sound b b0 :
  b ∈ xs -> b0 ∈ ys -> VerifyDataBlockSync (Z.of_nat i) b v = Done ZX_OK -> data !! i = Some b0 -> b = b0 \/ collision xs ys.
Proof.
  intros Hbx Hby Hver Hb0. pose proof (depth_3 g _ _ D h_bounds Hcube Hg) as HD. rewrite verify_spec in Hver.
  destruct (decide _) as [(Hleaf & Hall & Htop)|]; [|done].
  destruct (path_blocks (D - 1) Hall Htop) as [Hblk|]; [lia| |by right].
  rewrite Nat.sub_diag in Hblk. apply same_hash; [done..|]. rewrite Hleaf. apply slot_of_tree; [lia|done|].
  rewrite Nat.pow_0_r, Nat.div_1_r. cbn [items]. by rewrite list_lookup_fmap, Hb0.
Qed.
End sound.
End memory.
End path.

(** ** The superblock *)

Lemma htole_length n x : length (htole n x) = n.
Proof. revert x. induction n as [|n IH]; intros x; simpl; [done|]. by rewrite IH. Qed.

Lemma letoh_htole n x : 0 <= x < 256 ^ Z.of_nat n -> letoh (htole n x) = x.
Proof.
  revert x. induction n as [|n IH]; intros x Hx; [simpl in *; lia|].
  rewrite Nat2Z.inj_succ, Z.pow_succ_r in Hx by lia. simpl.
  rewrite IH by (split; [apply Z.div_pos|apply Z.div_lt_upper_bound]; lia).
  pose proof (Z.div_mod x 256). lia.
Qed.

Lemma field_app_skip k pre l off n : off = (length pre + k)%nat -> field off n (pre ++ l) = field k n l.
Proof. intros ->. unfold field. by rewrite drop_app_add. Qed.

Lemma field_app_here pre l n : length pre = n -> field 0 n (pre ++ l) = pre.
Proof. intros <-. unfold field. by rewrite drop_0, take_app_length. Qed.

Lemma read_fields a b c t r z :
  length a = 16%nat -> length b = 8%nat -> length c = 4%nat -> length t = 4%nat -> length r = 32%nat ->
  read_superblock (a ++ b ++ c ++ t ++ r ++ z) = mkSuperblock a (letoh b) (letoh c) (letoh t) r.
Proof.
  intros La Lb Lc Lt Lr. unfold read_superblock.
  rewrite (field_app_here a), (field_app_skip 0 a 
    (b ++ c ++ t ++ r ++ z) 16), (field_app_skip 8 a (b ++ c ++ t ++ r ++ z) 24),
    (field_app_skip 12 a (b ++ c ++ t ++ r ++ z) 28), (field_app_skip 16 a (b ++ c ++ t ++ r ++ z) 32) by lia.
  rewrite (field_app_here b), (field_app_skip 0 b (c ++ t ++ r ++ z) 8), (field_app_skip 4 b (c ++ t ++ r ++ z) 12),
    (field_app_skip 8 b (c ++ t ++ r ++ z) 16) by lia.
  rewrite (field_app_here c), (field_app_skip 0 c (t ++ r ++ z) 4), (field_app_skip 4 c (t ++ r ++ z) 8) by lia.
  rewrite (field_app_here t), (field_app_skip 0 t (r ++ z) 4), field_app_here by lia. done.
Qed.

(** Writing a superblock and reading it back. *)
Lemma superblock_roundtrip g root :
  0 <= total_blocks_ g < 2 ^ 64 -> 0 <= block_size_ g < 2 ^ 32 -> length root = 32%nat ->
  read_superblock (GenerateSuperblock g root) =
  mkSuperblock kBlockVerityMagic (total_blocks_ g) (block_size_ g) kSHA256HashTag root.
Proof.
  intros Ht Hb Hr. unfold GenerateSuperblock. rewrite read_fields by (done || apply htole_length).
  rewrite !letoh_htole by done. done.
Qed.

(** ** Partitions *)

(** The data blocks of a disk. *)
Definition data_of (g : Geometry) (d : disk) : list (list Z) :=
  (fun i => vblock d (AbsoluteLocationForData g (Z.of_nat i))) <$>
    seq 0 (Z.to_nat (data_block_count (allocation_ g))).

(** A partition of 5 blocks to [kMaxBlockCount], on hardware blocks that divide 4096. *)
Record partition (u : IntegrityShape) (total : Z) (g : Geometry) (hw : Z) : Prop := {
  pa_geometry : new_geometry u kBlockSize kHashOutputSize total = Done g;
  pa_total : 5 <= total <= kMaxBlockCount;
  pa_hw : 0 < hw;
  pa_divides : (hw | kBlockSize)
}.

Section partitions.
Context (u : IntegrityShape) (total : Z) (g : Geometry) (hw : Z) (Hp : partition u total g hw).
Context (d : disk).

Lemma partition_shape :
  exists D, geometry_ok g (Z.of_nat 128) (Z.of_nat (length (data_of g d))) D /\
    superblock_count (allocation_ g) = 1 /\
    data_block_count (allocation_ g) = Z.of_nat (length (data_of g d)) /\
    integrity_block_count (integrity_shape (allocation_ g)) =
      tree_blocks 128 D (Z.of_nat (length (data_of g d))) /\
    tree_blocks 128 D (Z.of_nat (length (data_of g d))) <= padded_integrity_block_count (allocation_ g) /\
    1 + padded_integrity_block_count (allocation_ g) + Z.of_nat (length (data_of g d)) = total /\
    total_blocks_ g = total /\ block_size_ g = kBlockSize.
Proof.
  destruct Hp as [Hnew Ht _ _]. unfold kMaxBlockCount in Ht.
  destruct (BestSplitFor_spec u kBlockSize kHashOutputSize 128 eq_refl ltac:(done) ltac:(done) total ltac:(lia))
    as (a & Ha & Hs & Hn & Hsum & Hshape & Hroom & _).
  destruct (IntegrityShapeFor_spec kBlockSize kHashOutputSize 128 eq_refl ltac:(done) ltac:(done) (data_block_count a))
    as (D & HD & Hb & Hs'); [lia|].
  unfold new_geometry in Hnew. rewrite Ha in Hnew. injection Hnew as <-. exists D.
  rewrite Hs' in Hshape. injection Hshape as Hshape.
  assert (Z.of_nat (length (data_of (mkGeometry total kHashOutputSize kBlockSize (kBlockSize / kHashOutputSize) a) d)) =
    data_block_count a) as HN.
  { unfold data_of. rewrite length_fmap, length_seq. simpl. lia. }
  rewrite HN. simpl. rewrite <- Hshape in Hroom |- *. simpl in *. split_and!; try done; try lia.
  split; simpl; [done|by rewrite <- Hshape|done|lia].
Qed.

Lemma data_of_lookup i b :
  data_of g d !! i = Some b ->
  vblock d (1 + padded_integrity_block_count (allocation_ g) + Z.of_nat i) = b.
Proof.
  intros Hi. pose proof (lookup_lt_Some _ _ _ Hi) as Hlt.
  destruct partition_shape as (D & Hg & Hs & Hn & _ & Hr & Hsum & _). destruct Hp as [_ Ht _ _].
  unfold data_of in Hi. rewrite list_lookup_fmap in Hi.
  destruct (seq 0 _ !! i) as [j|] eqn:Ej; [|done]. apply lookup_seq in Ej as [-> _]. injection Hi as <-.
  unfold AbsoluteLocationForData. rewrite Hs, u64_small; [done|].
  assert (0 <= padded_integrity_block_count (allocation_ g)).
  { destruct Hg as [_ _ _ Hg]. rewrite tree_blocks_complete in Hr by lia.
    pose proof (complete_nonneg 128 ltac:(lia) D (Z.of_nat (length (data_of g d)) - 1)). lia. }
  unfold is_u64, kMaxBlockCount in *. lia.
Qed.

Lemma data_of_index i :
  0 <= i < data_block_count (allocation_ g) ->
  data_of g d !! Z.to_nat i = Some (vblock d (AbsoluteLocationForData g i)).
Proof.
  intros Hi. unfold data_of. rewrite list_lookup_fmap, lookup_seq_lt by lia. simpl. by rewrite Z2Nat.id by lia.
Qed.
End partitions.

(** ** The claims *)

Section claims.
Context `{Hdok : DigestOk}.

(** The number of operations of sealing. *)
Definition seal_length (g : Geometry) : nat :=
  Z.to_nat (data_block_count (allocation_ g) + integrity_block_count (integrity_shape (allocation_ g)) + 2).

(** The integrity section of a disk, as [RequestBlocks] loads it. *)
Definition loaded (g : Geometry) (d : disk) : disk := fun a => d (AbsoluteLocationForIntegrity g 0 * kBlockSize + a).

(** A verifier that has loaded [m]. *)
Definition verifier_of (g : Geometry) (root : list Z) (m : disk) : exec BlockVerifier :=
  '(_, _, v) ← PrepareAsync ZX_OK ZX_OK (new_verifier g root m);
  OnIntegrityDataLoaded ZX_OK m v.

(** Opening with a seal, a superblock [buf] and integrity data [m], and reading data block [i] as [b]. *)
Definition verified_read (g : Geometry) (seal buf : list Z) (m : disk) (i : Z) (b : list Z) : exec zx_status :=
  match OnReadCompleted g seal ZX_OK (ZX_OK, buf) with
  | (ZX_OK, Some sb) => v ← verifier_of g (integrity_root_hash sb) m; VerifyDataBlockSync i b v
  | (st, _) => Done st
  end.

Lemma verifier_ready g root m : verifier_of g root m = Done (mkVerifier g kReady root m).
Proof. done. Qed.

Section one.
Context (u : IntegrityShape) (total : Z) (g : Geometry) (hw cookie : Z) (d : disk) (Hp : partition u total g hw).

Lemma sealed_partition :
  exists r D, seal (seal_length g) g hw cookie d = Done r /\
    geometry_ok g (Z.of_nat 128) (Z.of_nat (length (data_of g d))) D /\
    run_output r = Callback cookie ZX_OK (Some (hash (superblock g 128 D (data_of g d)))) kHashOutputSize /\
    tree_on g 128 D (data_of g d) (run_disk r) /\ vblock (run_disk r) 0 = superblock g 128 D (data_of g d) /\
    exists ops, run_ops r = ops ++ [OpWrite hw 0 (vblock (run_disk r) 0); OpFlush] /\
      Z.of_nat (length ops) = data_block_count (allocation_ g) + integrity_block_count (integrity_shape (allocation_ g)).
Proof.
  destruct (partition_shape u total g hw Hp d) as (D & Hg & Hs & Hn & Hi & Hr & Hsum & _).
  pose proof (data_of_lookup u total g hw Hp d) as Hd. destruct Hp as [_ Ht Hhw [q Hq]]. unfold kMaxBlockCount in Ht.
  assert (seal_length g = Z.to_nat (Z.of_nat (length (data_of g d)) + blocks_total 128 D (data_of g d) + 2)) as E.
  { unfold seal_length, blocks_total. by rewrite Hn, Hi. }
  destruct (seal_complete g hw cookie 128 D (data_of g d) eq_refl Hg Hn Hs Hr) with (d := d) as (r & Hrun & H1 & H2 & H3 & ops & H4 & H5);
    [lia|done|by rewrite Hq, Z.div_mul, Z.mul_comm by lia|done|].
  exists r, D. rewrite E. split_and!; try done. exists ops. rewrite H3. split; [done|]. rewrite Hn, Hi, H5. done.
Qed.

Lemma cube_bound : Z.of_nat (length (data_of g d)) <= Z.of_nat 128 ^ 3.
Proof.
  destruct (partition_shape u total g hw Hp d) as (D & Hg & _ & _ & _ & Hr & Hsum & _).
  destruct Hp as [_ Ht _ _]. unfold kMaxBlockCount in Ht. destruct Hg as [_ _ _ Hg].
  rewrite tree_blocks_complete in Hr by lia.
  pose proof (complete_nonneg 128 ltac:(lia) D (Z.of_nat (length (data_of g d)) - 1)).
  change (Z.of_nat 128 ^ 3) with 2097152. lia.
Qed.

Lemma superblock_read D :
  read_superblock (superblock g 128 D (data_of g d)) =
  mkSuperblock kBlockVerityMagic total kBlockSize kSHA256HashTag (root 128 D (data_of g d)).
Proof.
  destruct (partition_shape u total g hw Hp d) as (_ & _ & _ & _ & _ & _ & _ & Ht & Hb).
  destruct Hp as [_ Htot _ _]. unfold kMaxBlockCount in Htot. unfold superblock.
  rewrite superblock_roundtrip; [by rewrite Ht, Hb|rewrite Ht; lia|by rewrite Hb|apply hash_length_32].
Qed.
End one.

(** Verifying a block of the partition does not abort. *)
Lemma verify_returns u total g hw v i b :
  partition u total g hw -> bv_geometry v = g -> 0 <= i < data_block_count (allocation_ g) ->
  exists st, VerifyDataBlockSync i b v = Done st.
Proof.
  intros Hp Hv Hi. set (d := fun _ : Z => 0).
  destruct (partition_shape u total g hw Hp d) as (D & Hg & _ & Hn & _).
  destruct (bv_state v) eqn:Est; try (by eexists; unfold VerifyDataBlockSync; rewrite Est).
  replace i with (Z.of_nat (Z.to_nat i)) by lia.
  pose proof (lookup_lt_Some _ _ _ (data_of_index g d i Hi)) as Hlt.
  eexists. exact (verify_spec g 128 D (data_of g d) ltac:(lia) eq_refl (cube_bound u total g hw d Hp) Hg _ Hlt v Hv Est b).
Qed.

Lemma superblock_ok g s st read : OnReadCompleted g s st read <> (ZX_OK, None).
Proof.
  unfold OnReadCompleted. destruct read as [rc buf]. repeat case_match; try done; intros [= ->]; done.
Qed.

(** A partition larger than [kMaxBlockCount] can be sealed, but not opened. *)
Lemma large_refused g s st read sb : kMaxBlockCount < total_blocks_ g -> OnReadCompleted g s st read <> (ZX_OK, Some sb).
Proof.
  intros Hlarge. unfold OnReadCompleted. destruct read as [rc buf]. do 3 (destruct (decide _); [done|]).
  match goal with |- context [if ?c then _ else _] => destruct c eqn:E end; [done|].
  rewrite !orb_false_iff, !negb_false_iff in E. destruct E as ((((_ & E1) & E2) & _) & _).
  apply Z.eqb_eq in E1. apply Z.ltb_ge in E2. lia.
Qed.

(** The integrity blocks in the memory of a verifier, and the blocks of the disk once it has been sealed. *)
Definition integrity_blocks (g : Geometry) (m : disk) : list (list Z) := vblock m <$> seqZ 0 (integrity_block_count (integrity_shape (allocation_ g))).
Definition sealed_blocks (g : Geometry) (r : SealRun) : list (list Z) := vblock (run_disk r) <$> seqZ 0 (total_blocks_ g).

Lemma elem_blocks (m : disk) n k : 0 <= k < n -> vblock m k ∈ vblock m <$> seqZ 0 n.
Proof. intros Hk. apply list_elem_of_fmap_2, elem_of_seqZ. lia. Qed.

(** A verifier with the root hash of a superblock that matches the seal accepts only what was sealed. *)
Lemma verify_sealed u total g hw cookie d r s st rc buf sb v i b :
  partition u total g hw ->
  seal (seal_length g) g hw cookie d = Done r -> run_output r = Callback cookie ZX_OK (Some s) kHashOutputSize ->
  OnReadCompleted g s st (rc, buf) = (ZX_OK, Some sb) ->
  bv_geometry v = g -> bv_root_hash v = integrity_root_hash sb ->
  0 <= i < data_block_count (allocation_ g) -> VerifyDataBlockSync i b v = Done ZX_OK ->
  b = vblock d (AbsoluteLocationForData g i) \/ collision (buf :: b :: integrity_blocks g (bv_memory v)) (sealed_blocks g r).
Proof.
  intros Hp Hrun Hout Hsb Hv Hroot Hi Hver.
  destruct (sealed_partition u total g hw cookie d Hp) as (r' & D & Hrun' & Hg & Hout' & [Htree Hdata] & Hs0 & _).
  assert (r' = r) as -> by congruence. rewrite Hout in Hout'. injection Hout' as ->.
  destruct (partition_shape u total g hw Hp d) as (D' & Hg' & _ & Hn & Hib & Hroom & Hsum & Htot & _).
  assert (D' = D) as -> by (pose proof (go_shape _ _ _ _ Hg) as E1; pose proof (go_shape _ _ _ _ Hg') as E2; rewrite E1 in E2; injection E2; lia).
  assert (0 < total) as Hpos by (destruct Hp as [_ Ht _ _]; lia).
  unfold OnReadCompleted in Hsb. destruct (decide (st <> ZX_OK)); [done|].
  destruct (decide (rc <> ZX_OK)); [done|]. destruct (decide (hash buf <> _)) as [|Hh]; [done|]. apply dec_stable in Hh.
  destruct (same_hash (buf :: b :: integrity_blocks g (bv_memory v)) (sealed_blocks g r) buf (superblock g 128 D (data_of g d)) ltac:(by left) ltac:(rewrite <- Hs0; apply elem_blocks; lia) Hh) as [->|]; [|by right].
  rewrite (superblock_read u total g hw d Hp D) in Hsb. simpl in Hsb.
  match type of Hsb with context [if ?c then _ else _] => destruct c end; [done|]. injection Hsb as <-.
  destruct (bv_state v) eqn:Est; try (unfold VerifyDataBlockSync in Hver; by rewrite Est in Hver).
  replace i with (Z.of_nat (Z.to_nat i)) in Hver at 1 by lia.
  pose proof (data_of_index g d i Hi) as Hd.
  pose proof (lookup_lt_Some _ _ _ Hd) as Hlt.
  pose proof (depth_3 g (Z.of_nat 128) _ D ltac:(lia) (cube_bound u total g hw d Hp) Hg) as HD3.
  pose proof (pos_range g 128 D (data_of g d) ltac:(lia) eq_refl (cube_bound u total g hw d Hp) Hg _ Hlt) as Hpr.
  apply (verify_sound g 128 D (data_of g d) ltac:(lia) eq_refl (cube_bound u total g hw d Hp) Hg _ Hlt v Hv Est Hroot); try done.
  - intros t Ht. right. right. apply elem_blocks. rewrite Hib. by apply Hpr.
  - intros t Ht. rewrite <- Htree; [|done|apply div_le_up; lia]. apply elem_blocks.
    specialize (Hpr t Ht). unfold pos in Hpr. change (Z.of_nat 128) with 128 in *. lia.
  - right. by left.
  - rewrite <- (Hdata _ _ Hd). apply elem_blocks. specialize (Hpr 0%nat ltac:(lia)). change (Z.of_nat 128) with 128 in *. lia.
Qed.

(** Sealing, and what is on the disk after it. *)
Lemma seal_opens u total g hw cookie d :
  partition u total g hw ->
  exists r s, seal (seal_length g) g hw cookie d = Done r /\
    run_output r = Callback cookie ZX_OK (Some s) kHashOutputSize /\
    (exists ops, run_ops r = ops ++ [OpWrite hw 0 (vblock (run_disk r) 0); OpFlush] /\
       Z.of_nat (length ops) = data_block_count (allocation_ g) + integrity_block_count (integrity_shape (allocation_ g))) /\
    forall i, 0 <= i < data_block_count (allocation_ g) ->
      vblock (run_disk r) (AbsoluteLocationForData g i) = vblock d (AbsoluteLocationForData g i) /\
      verified_read g s (vblock (run_disk r) 0) (loaded g (run_disk r)) i
        (vblock (run_disk r) (AbsoluteLocationForData g i)) = Done ZX_OK.
Proof.
  intros Hp. destruct (sealed_partition u total g hw cookie d Hp) as (r & D & Hrun & Hg & Hout & [Htree Hdata] & Hsb & Hops).
  destruct (partition_shape u total g hw Hp d) as (_ & _ & Hs & Hn & _ & _ & _ & Ht & Hbs).
  exists r, (hash (superblock g 128 D (data_of g d))). split_and!; [done..|]. intros i Hi.
  pose proof (data_of_index g d i Hi) as Hib.
  assert (vblock (run_disk r) (AbsoluteLocationForData g i) = vblock d (AbsoluteLocationForData g i)) as Hsame.
  { rewrite <- (Hdata _ _ Hib), Z2Nat.id by lia. f_equal. unfold AbsoluteLocationForData. rewrite Hs.
    destruct (partition_shape u total g hw Hp d) as (D' & Hg' & _ & _ & _ & Hr & Hsum & _).
    destruct Hg' as [_ _ _ Hg']. rewrite tree_blocks_complete in Hr by lia.
    pose proof (complete_nonneg 128 ltac:(lia) D' (Z.of_nat (length (data_of g d)) - 1)).
    destruct Hp as [_ Htot _ _]. unfold kMaxBlockCount in Htot. rewrite u64_small; [done|unfold is_u64; lia]. }
  split; [done|]. unfold verified_read, OnReadCompleted. rewrite Hsb. rewrite !decide_False by (by intros []).
  rewrite (superblock_read u total g hw d Hp D). simpl magic. simpl block_count. simpl VerityVerifier.block_size.
  simpl hash_function. rewrite bool_decide_false by (by intros []). rewrite Ht, !Z.eqb_refl.
  rewrite (proj2 (Z.ltb_ge _ _)) by (by destruct Hp as [_ [_ ?] _ _]). cbn [orb negb]. cbn iota.
  rewrite verifier_ready, Hsame. cbn [mbind exec_bind]. replace i with (Z.of_nat (Z.to_nat i)) at 1 by lia.
  assert (Z.to_nat i < length (data_of g d))%nat as Hlt by lia.
  apply (verify_complete g 128 D (data_of g d) ltac:(lia) eq_refl (cube_bound u total g hw d Hp) Hg _ Hlt
    (mkVerifier g kReady (root 128 D (data_of g d)) (loaded g (run_disk r)))); [done..| |done].
  intros t HtD. simpl bv_memory.
  rewrite <- (Htree t (above 128 (Z.to_nat i) t) HtD) by (apply div_le_up; lia).
  unfold vblock, loaded, pos, AbsoluteLocationForIntegrity. rewrite Hs. change (u64 (1 + 0)) with 1.
  unfold read_bytes. apply map_ext. intros k. f_equal. lia.
Qed.

(** C7. Sealing a partition over a device whose operations all succeed: it ends with the callback ZX_OK after exactly
    one operation for each data block and each integrity block, then the write of the superblock, and last a flush; it
    leaves the data as it was, and the seal it returns opens the partition: every data block verifies. *)
Theorem seal_then_verify u total g hw cookie d :
  partition u total g hw ->
  exists r s, seal (seal_length g) g hw cookie d = Done r /\
    run_output r = Callback cookie ZX_OK (Some s) kHashOutputSize /\
    (exists ops, run_ops r = ops ++ [OpWrite hw 0 (vblock (run_disk r) 0); OpFlush] /\
       Z.of_nat (length ops) = data_block_count (allocation_ g) + integrity_block_count (integrity_shape (allocation_ g))) /\
    forall i, 0 <= i < data_block_count (allocation_ g) ->
      vblock (run_disk r) (AbsoluteLocationForData g i) = vblock d (AbsoluteLocationForData g i) /\
      verified_read g s (vblock (run_disk r) 0) (loaded g (run_disk r)) i
        (vblock (run_disk r) (AbsoluteLocationForData g i)) = Done ZX_OK.
Proof. exact (seal_opens u total g hw cookie d). Qed.

(** Where the code looks for a hash is where it is. Integrity blocks are numbered in the order in
    which they are completed ([block_pos]); the location computed for a data block is its slot in its
    block of tier 0, the location computed for a block of a tier is its slot in its block of the tier
    above, and the root is the last block. *)
Theorem integrity_path u total g hw :
  partition u total g hw ->
  let N := data_block_count (allocation_ g) in
  let D := Z.to_nat (tree_depth (integrity_shape (allocation_ g))) in
  (forall i, 0 <= i < N ->
     IntegrityDataLocationForDataBlock g i = Done (mkLocation (block_pos 128 D N 0 (i / 128)) (i mod 128))) /\
  (forall t j, (S t < D)%nat -> 0 <= j -> 128 ^ (Z.of_nat t + 1) * j < N ->
     NextIntegrityBlockUp g (Z.of_nat t) (block_pos 128 D N t j) =
       mkLocation (block_pos 128 D N (S t) (j / 128)) (j mod 128)) /\
  block_pos 128 D N (D - 1) 0 = integrity_block_count (integrity_shape (allocation_ g)) - 1.
Proof.
  intros Hp. destruct (partition_shape u total g hw Hp (fun _ => 0)) as (D & Hg & _ & Hn & Hi & _).
  pose proof (cube_bound u total g hw (fun _ => 0) Hp) as Hcube. rewrite <- Hn in Hg, Hcube, Hi.
  assert (tree_depth (integrity_shape (allocation_ g)) = Z.of_nat D) as -> by (destruct Hg as [_ -> _ _]; done).
  rewrite Nat2Z.id, Hi. split_and!.
  - intros i. apply (location_of_data g 128 _ D ltac:(lia) Hcube Hg).
  - intros t j. apply (next_up g 128 _ D ltac:(lia) Hcube Hg).
  - exact (root_pos g 128 _ D ltac:(lia) Hcube Hg).
Qed.

(** C8. What verifies is what was sealed: for a sealed partition, whatever superblock and integrity data
    are presented later with the seal, a block accepted as data block [i] is the data block that was
    sealed, or one of the blocks presented - the superblock, an integrity block, the data block - and one of the blocks on
    the disk when it was sealed are different and have the same hash. *)
Theorem verified_is_sealed u total g hw cookie d r s :
  partition u total g hw ->
  seal (seal_length g) g hw cookie d = Done r -> run_output r = Callback cookie ZX_OK (Some s) kHashOutputSize ->
  forall buf m i b, 0 <= i < data_block_count (allocation_ g) ->
    verified_read g s buf m i b = Done ZX_OK ->
    b = vblock d (AbsoluteLocationForData g i) \/ collision (buf :: b :: integrity_blocks g m) (sealed_blocks g r).
Proof.
  intros Hp Hrun Hout buf m i b Hi Hver. unfold verified_read in Hver.
  destruct (OnReadCompleted g s ZX_OK (ZX_OK, buf)) as [st [sb|]] eqn:Hsb.
  2: { destruct st; try done. by destruct (superblock_ok g s ZX_OK (ZX_OK, buf)). }
  destruct st; try done. rewrite verifier_ready in Hver.
  exact (verify_sealed u total g hw cookie d r s _ _ _ sb
    (mkVerifier g kReady (integrity_root_hash sb) m) i b Hp Hrun Hout Hsb eq_refl eq_refl Hi Hver).
Qed.
End claims.

(** ** An instance *)

Module RoundtripExample.

(** A digest for the examples: the sum of the bytes, in 32 bytes. *)
#[local] Instance sum_digest : Digest := {| hash := fun b => htole 32 (foldr Z.add 17 b) |}.

#[local] Instance sum_digest_ok : DigestOk.
Proof. constructor. intros b. change (hash b) with (htole 32 (foldr Z.add 17 b)). by rewrite htole_length. Qed.

(** Five blocks of 4096 bytes; the byte at [a] is its offset modulo 256. *)
Definition example_disk : disk := fun a => a mod 256.

Definition example_geometry : Geometry :=
  mkGeometry 5 kHashOutputSize kBlockSize 128 (mkAllocation 1 2 2 (mkShape 1 1)).

Lemma example_partition : partition (mkShape 0 0) 5 example_geometry 8.
Proof.
  split; [vm_compute; reflexivity|unfold kMaxBlockCount; lia|lia|].
  exists 512. reflexivity.
Qed.

Lemma seal_then_verify_witness :
  exists r s, seal 5 example_geometry 8 7 example_disk = Done r /\
    run_output r = Callback 7 ZX_OK (Some s) kHashOutputSize /\
    verified_read example_geometry s (vblock (run_disk r) 0) (loaded example_geometry (run_disk r)) 1
      (vblock (run_disk r) 4) = Done ZX_OK.
Proof.
  destruct (seal_then_verify (mkShape 0 0) 5 example_geometry 8 7 example_disk example_partition)
    as (r & s & Hr & Ho & _ & Hv).
  exists r, s. split; [exact Hr|]. split; [exact Ho|]. exact (proj2 (Hv 1 ltac:(simpl; lia))).
Defined.

Lemma integrity_path_witness :
  IntegrityDataLocationForDataBlock example_geometry 1 =
    Done (mkLocation (block_pos 128 1 2 0 (1 / 128)) (1 mod 128)) /\ block_pos 128 1 2 0 0 = 0.
Proof.
  destruct (integrity_path (mkShape 0 0) 5 example_geometry 8 example_partition) as (Hl & _ & Hr).
  split; [exact (Hl 1 ltac:(simpl; lia))|exact Hr].
Defined.

Lemma verified_is_sealed_witness :
  exists r s, seal 5 example_geometry 8 7 example_disk = Done r /\
    verified_read example_geometry s (vblock (run_disk r) 0) (loaded example_geometry (run_disk r)) 1
      (vblock (run_disk r) 4) = Done ZX_OK /\
    (vblock (run_disk r) 4 = vblock example_disk 4 \/
     collision (vblock (run_disk r) 0 :: vblock (run_disk r) 4 :: integrity_blocks example_geometry (loaded example_geometry (run_disk r))) (sealed_blocks example_geometry r)).
Proof.
  destruct (seal_opens (mkShape 0 0) 5 example_geometry 8 7 example_disk example_partition)
    as (r & s & Hr & Ho & _ & Hv).
  exists r, s. split; [exact Hr|]. split; [exact (proj2 (Hv 1 ltac:(simpl; lia)))|].
  exact (verified_is_sealed (mkShape 0 0) 5 example_geometry 8 7 example_disk r s example_partition Hr Ho
    _ _ 1 _ ltac:(simpl; lia) (proj2 (Hv 1 ltac:(simpl; lia)))).
Defined.
End RoundtripExample.
