(* ===== verification/VerityDevice.v ===== *)
(** * VerityDevice: block operations on a block-verity partition

    Model of [config.cc], [device-info.cc], [extra.cc] and [device.cc] of
    [src/devices/block/drivers/block-verity/]: the configurations accepted, what is known of the block
    device below, the translation of a client's operation, and the mutable device. *)
From Stdlib Require Import ZArith Lia.
From stdpp Require Import prelude.
From S2P Require Import Prelude VerityGeometry VeritySealer.

Local Open Scope Z_scope.

(** ** Configurations *)

(** [fuchsia.hardware.block.verified/Config]: a table with optional fields. *)
Inductive HashFunction := kSha256 | UnknownHashFunction (value : Z).
Inductive BlockSize := kSize4096 | UnknownBlockSize (value : Z).

Record Config := mkConfig {
  config_hash_function : option HashFunction;
  config_block_size : option BlockSize
}.

(** The fields of [block_info_t] that are used. *)
Record block_info_t := mkBlockInfo {
  info_block_count : Z;
  info_block_size : Z
}.

(** [kBlockSize % blk.block_size], which traps for zero. *)
Definition size_remainder (blk : block_info_t) : exec Z :=
  (ASSERT negb (info_block_size blk =? 0) ;; Done (kBlockSize mod info_block_size blk))%exec.

Definition CheckConfig (config : Config) (blk : block_info_t) : exec zx_status :=
  match config_hash_function config with
  | None => Done ZX_ERR_INVALID_ARGS
  | Some (UnknownHashFunction _) => Done ZX_ERR_INVALID_ARGS
  | Some kSha256 =>
      match config_block_size config with
      | None => Done ZX_ERR_INVALID_ARGS
      | Some (UnknownBlockSize _) => Done ZX_ERR_INVALID_ARGS
      | Some kSize4096 =>
          remainder ← size_remainder blk;
          Done (if remainder =? 0 then ZX_OK else ZX_ERR_INVALID_ARGS)
      end
  end.

(** ** The device below *)

(** What the parent answers to [Query], and whether it has the block protocol at all. *)
Record Parent := mkParent {
  parent_info : block_info_t;
  parent_op_size : Z;
  parent_valid : bool
}.

Record DeviceInfo := mkDeviceInfo {
  geometry : Geometry;
  upstream_op_size : Z;
  op_size : Z;
  info_hw_blocks : Z;
  info_valid : bool
}.

(** [sizeof(extra_op_t)]: a list node, two 32-bit and five 64-bit fields. *)
Definition kExtraOpSize : Z := 64.

Definition CreateFromDevice (uninitialised : IntegrityShape) (parent : Parent) : exec DeviceInfo :=
  (remainder ← size_remainder (parent_info parent);
   ASSERT remainder =? 0 ;;
   let hw_blocks_per_virtual_block := u32 (kBlockSize / info_block_size (parent_info parent)) in
   let virtual_block_count := info_block_count (parent_info parent) / hw_blocks_per_virtual_block in
   g ← new_geometry uninitialised kBlockSize kHashOutputSize virtual_block_count;
   Done (mkDeviceInfo g (parent_op_size parent) (u64 (parent_op_size parent + kExtraOpSize))
           hw_blocks_per_virtual_block (parent_valid parent)))%exec.

Definition IsValid (info : DeviceInfo) : bool := info_valid info.

(** ** Operations *)

(** [command & BLOCK_OP_MASK]. *)
Inductive Command :=
  | BLOCK_OP_READ
  | BLOCK_OP_WRITE
  | BLOCK_OP_FLUSH
  | BLOCK_OP_TRIM
  | UnknownCommand (value : Z).

#[global] Instance Command_eq_dec : EqDecision Command.
Proof. solve_decision. Defined.

Record block_op_t := mkBlockOp {
  command : Command;
  rw_vmo : Z;
  rw_length : Z;
  rw_offset_dev : Z;
  rw_offset_vmo : Z
}.

(** The saved fields; [extra_cookie] stands for the completion callback and its cookie. *)
Record extra_op_t := mkExtra {
  extra_vmo : Z;
  extra_length : Z;
  extra_offset_dev : Z;
  extra_offset_vmo : Z;
  extra_cookie : Z
}.

(** The memory of an operation: the [block_op_t] and, at its end, the [extra_op_t] ([BlockToExtra] and
    [ExtraToBlock] go from one to the other). *)
Record Request := mkRequest {
  rq_block : block_op_t;
  rq_extra : extra_op_t
}.

Definition set_length (x : Z) (b : block_op_t) : block_op_t :=
  mkBlockOp (command b) (rw_vmo b) x (rw_offset_dev b) (rw_offset_vmo b).
Definition set_offset_dev (x : Z) (b : block_op_t) : block_op_t :=
  mkBlockOp (command b) (rw_vmo b) (rw_length b) x (rw_offset_vmo b).
Definition set_offset_vmo (x : Z) (b : block_op_t) : block_op_t :=
  mkBlockOp (command b) (rw_vmo b) (rw_length b) (rw_offset_dev b) x.

(** [extra_op_t::Init]. [add_overflow] and [mul_overflow] store the wrapped result in any case. *)
Definition Init (cookie hw_blocks_per_logical_block data_start_offset_logical_blocks : Z) (r : Request)
    : zx_status * Request :=
  let b := rq_block r in
  match command b with
  | BLOCK_OP_READ | BLOCK_OP_WRITE =>
      let extra := mkExtra (rw_vmo b) (rw_length b) (rw_offset_dev b) (rw_offset_vmo b) cookie in
      let start := rw_offset_dev b + data_start_offset_logical_blocks in
      let b := set_offset_dev (u64 start) b in
      if 2 ^ 64 <=? start then (ZX_ERR_OUT_OF_RANGE, mkRequest b extra)
      else
        let len := rw_length b * hw_blocks_per_logical_block in
        let b := set_length (u32 len) b in
        if 2 ^ 32 <=? len then (ZX_ERR_OUT_OF_RANGE, mkRequest b extra)
        else
          let dev := rw_offset_dev b * hw_blocks_per_logical_block in
          let b := set_offset_dev (u64 dev) b in
          if 2 ^ 64 <=? dev then (ZX_ERR_OUT_OF_RANGE, mkRequest b extra)
          else
            let off := rw_offset_vmo b * hw_blocks_per_logical_block in
            let b := set_offset_vmo (u64 off) b in
            if 2 ^ 64 <=? off then (ZX_ERR_OUT_OF_RANGE, mkRequest b extra)
            else (ZX_OK, mkRequest b extra)
  | BLOCK_OP_FLUSH => (ZX_OK, mkRequest b (mkExtra (extra_vmo (rq_extra r)) 0 0 0 cookie))
  | _ =>
      let e := rq_extra r in
      (ZX_ERR_NOT_SUPPORTED,
       mkRequest b (mkExtra (extra_vmo e) (extra_length e) (extra_offset_dev e) (extra_offset_vmo e) cookie))
  end.

(** Putting the saved fields back. *)
Definition restore (r : Request) : Request :=
  let e := rq_extra r in
  mkRequest (mkBlockOp (command (rq_block r)) (extra_vmo e) (extra_length e) (extra_offset_dev e)
               (extra_offset_vmo e)) e.

(** ** The mutable device *)

(** What becomes of an operation: it goes to the device below, or back to its client. *)
Inductive Outcome :=
  | Forwarded (r : Request)
  | Completed (r : Request) (status : zx_status).

Definition DdkGetSize (info : DeviceInfo) : Z :=
  let data_size := block_size_ (geometry info) * data_block_count (allocation_ (geometry info)) in
  if 2 ^ 64 <=? data_size then 0 else data_size.

(** The information and operation size reported to clients; the fields of [block_info_t] that are passed
    through are not represented. *)
Definition BlockImplQuery (info : DeviceInfo) : block_info_t * Z :=
  (mkBlockInfo (data_block_count (allocation_ (geometry info))) kBlockSize, op_size info).

Definition BlockImplQueue (info : DeviceInfo) (cookie : Z) (r : Request) : Outcome :=
  let data_start_offset := AbsoluteLocationForData (geometry info) 0 in
  let '(rc, r) := Init cookie (info_hw_blocks info) data_start_offset r in
  if decide (rc <> ZX_OK) then Completed r rc
  else
    match command (rq_block r) with
    | BLOCK_OP_READ | BLOCK_OP_WRITE | BLOCK_OP_FLUSH | BLOCK_OP_TRIM => Forwarded r
    | UnknownCommand _ => Completed r ZX_ERR_NOT_SUPPORTED
    end.

Definition BlockCallback (status : zx_status) (r : Request) : Outcome :=
  let r := restore r in
  if decide (status <> ZX_OK) then Completed r status
  else
    match command (rq_block r) with
    | BLOCK_OP_READ | BLOCK_OP_WRITE | BLOCK_OP_FLUSH | BLOCK_OP_TRIM => Completed r ZX_OK
    | UnknownCommand _ => Completed r ZX_ERR_NOT_SUPPORTED
    end.

(** ** Translation *)

Definition transfers (b : block_op_t) : Prop := command b = BLOCK_OP_READ \/ command b = BLOCK_OP_WRITE.

(** The operation [b], its fields at their widths. *)
Record op_ok (b : block_op_t) : Prop := {
  ok_length : is_u32 (rw_length b);
  ok_offset_dev : is_u64 (rw_offset_dev b);
  ok_offset_vmo : is_u64 (rw_offset_vmo b)
}.

(** The translated operation is representable. *)
Definition translatable (hw start : Z) (b : block_op_t) : Prop :=
  rw_length b * hw < 2 ^ 32 /\ (rw_offset_dev b + start) * hw < 2 ^ 64 /\ rw_offset_vmo b * hw < 2 ^ 64.

(** [b'] is the operation [b] on the hardware blocks of the data section. *)
Definition translates (hw start : Z) (b b' : block_op_t) : Prop :=
  b' = mkBlockOp (command b) (rw_vmo b) (rw_length b * hw) ((rw_offset_dev b + start) * hw) (rw_offset_vmo b * hw).

Lemma Init_transfer cookie hw start r :
  transfers (rq_block r) -> op_ok (rq_block r) -> 1 <= hw -> 0 <= start ->
  exists st r', Init cookie hw start r = (st, r') /\
    rq_extra r' = mkExtra (rw_vmo (rq_block r)) (rw_length (rq_block r)) (rw_offset_dev (rq_block r))
                    (rw_offset_vmo (rq_block r)) cookie /\
    command (rq_block r') = command (rq_block r) /\
    (st = ZX_OK /\ translatable hw start (rq_block r) /\ translates hw start (rq_block r) (rq_block r') \/
     st = ZX_ERR_OUT_OF_RANGE /\ ~ translatable hw start (rq_block r)).
Proof.
  destruct r as [[c v l od ov] e]. unfold transfers, Init, translatable, translates.
  cbn [rq_block command rw_vmo rw_length rw_offset_dev rw_offset_vmo].
  intros Hc [Hl Hd Hv] Hhw Hs. cbn in Hl, Hd, Hv. unfold is_u32, is_u64 in *.
  assert (0 <= od + start <= (od + start) * hw) by nia. assert (0 <= l * hw) by nia. assert (0 <= ov * hw) by nia.
  destruct Hc as [-> | ->]; cbn [set_offset_dev set_length set_offset_vmo command rw_vmo rw_length rw_offset_dev rw_offset_vmo];
    (destruct (Z.leb_spec (2 ^ 64) (od + start)); [do 2 eexists; split_and!; [done|done|done|right; split; [done|lia]]|]);
    (destruct (Z.leb_spec (2 ^ 32) (l * hw)); [do 2 eexists; split_and!; [done|done|done|right; split; [done|lia]]|]);
    rewrite (u64_small (od + start)) by (unfold is_u64; lia);
    (destruct (Z.leb_spec (2 ^ 64) ((od + start) * hw)); [do 2 eexists; split_and!; [done|done|done|right; split; [done|lia]]|]);
    (destruct (Z.leb_spec (2 ^ 64) (ov * hw)); [do 2 eexists; split_and!; [done|done|done|right; split; [done|lia]]|]);
    rewrite !u64_small, u32_small by (unfold is_u64, is_u32; lia);
    (do 2 eexists; split_and!; [done|done|done|left; split_and!; [done|lia..|done]]).
Qed.

Lemma restore_Init cookie hw start r st r' :
  transfers (rq_block r) -> Init cookie hw start r = (st, r') ->
  restore r' = mkRequest (rq_block r) (rq_extra r').
Proof.
  destruct r as [[c v l od ov] e]. unfold transfers, Init. cbn [rq_block command]. intros [-> | ->] Hi;
    repeat (case_match; simplify_eq); done.
Qed.

(** A read or write on the mutable device goes to the device below exactly if its translation is
    representable, and then as the same operation on the hardware blocks of the data section, never on
    the superblock or the integrity data; when it comes back, with any status, the client gets its
    operation with the fields it had. Otherwise the client gets ZX_ERR_OUT_OF_RANGE. *)
Theorem mutable_translation info cookie r :
  transfers (rq_block r) -> op_ok (rq_block r) -> 1 <= info_hw_blocks info ->
  let start := AbsoluteLocationForData (geometry info) 0 in
  let hw := info_hw_blocks info in
  match BlockImplQueue info cookie r with
  | Forwarded r' =>
      translatable hw start (rq_block r) /\ translates hw start (rq_block r) (rq_block r') /\
      start * hw <= rw_offset_dev (rq_block r') /\
      forall status, BlockCallback status r' = Completed (mkRequest (rq_block r) (rq_extra r')) status
  | Completed r' status => status = ZX_ERR_OUT_OF_RANGE /\ ~ translatable hw start (rq_block r)
  end.
Proof.
  intros Hc Hok Hhw start hw.
  assert (0 <= start) as Hs by (unfold start, AbsoluteLocationForData; apply u64_range).
  destruct (Init_transfer cookie hw start r Hc Hok Hhw Hs) as (st & r' & Hi & He & Hcmd & Hcase).
  pose proof (restore_Init cookie hw start r st r' Hc Hi) as Hr.
  unfold BlockImplQueue. fold start hw. rewrite Hi. destruct Hcase as [(-> & Ht & Htr) | (-> & Hn)].
  2: { rewrite decide_True by done. done. }
  rewrite decide_False by (by intros []). rewrite Hcmd.
  assert (forall status, BlockCallback status r' = Completed (mkRequest (rq_block r) (rq_extra r')) status) as Hcb.
  { intros status. unfold BlockCallback. rewrite Hr. cbn [rq_block]. destruct (decide (status <> ZX_OK)) as [|Hst]; [done|].
    apply dec_stable in Hst as ->. by destruct Hc as [-> | ->]. }
  assert (start * hw <= rw_offset_dev (rq_block r')) as Hge.
  { rewrite Htr. cbn [rw_offset_dev]. destruct Hok as [_ [] _]. nia. }
  by destruct Hc as [-> | ->].
Qed.

(** ** What is refused *)

(** [extra_op_t::Init] knows no TRIM: the branch for it in [BlockImplQueue] is not reached. *)
Lemma trim_refused info cookie r :
  command (rq_block r) = BLOCK_OP_TRIM ->
  exists r', BlockImplQueue info cookie r = Completed r' ZX_ERR_NOT_SUPPORTED.
Proof. intros Hc. unfold BlockImplQueue, Init. rewrite Hc. by eexists. Qed.

(** A device with room for less than three blocks makes the driver abort. *)
Lemma too_small_aborts u parent :
  info_block_count (parent_info parent) / u32 (kBlockSize / info_block_size (parent_info parent)) < 3 ->
  CreateFromDevice u parent = Panic.
Proof.
  intros Hlt. unfold CreateFromDevice, size_remainder. destruct (negb _); [|done]. cbn [zx_assert exec_bind mbind].
  destruct (_ =? 0); [|done]. cbn [zx_assert exec_bind].
  unfold new_geometry, BestSplitFor. rewrite (proj2 (Z.leb_gt _ _)) by lia. by destruct (_ =? 0).
Qed.

(** A configuration is accepted exactly if it asks for SHA-256 and 4096 bytes, and the size of the
    hardware blocks divides that. *)
Lemma CheckConfig_ok config blk :
  info_block_size blk <> 0 ->
  CheckConfig config blk = Done ZX_OK <->
  config = mkConfig (Some kSha256) (Some kSize4096) /\ (info_block_size blk | kBlockSize).
Proof.
  intros Hz. destruct config as [[[]|] [[]|]]; unfold CheckConfig; simpl; try (split; [done|by intros [? _]]).
  unfold size_remainder. rewrite (proj2 (Z.eqb_neq _ _) Hz). cbn [negb zx_assert exec_bind mbind].
  rewrite <- Z.mod_divide by done. destruct (Z.eqb_spec (kBlockSize mod info_block_size blk) 0) as [E|E].
  - by split.
  - split; [done|]. by intros [_ ?].
Qed.

Module DeviceExample.

(** A partition of 5 blocks on hardware blocks of 512 bytes. *)
Definition example_info : DeviceInfo :=
  mkDeviceInfo (mkGeometry 5 kHashOutputSize kBlockSize 128 (mkAllocation 1 2 2 (mkShape 1 1))) 100 164 8 true.

Definition example_write : Request := mkRequest (mkBlockOp BLOCK_OP_WRITE 77 2 0 3) (mkExtra 0 0 0 0 0).

Lemma example_created :
  CreateFromDevice (mkShape 0 0) (mkParent (mkBlockInfo 47 512) 100 true) = Done example_info.
Proof. vm_compute. reflexivity. Qed.

Lemma mutable_translation_witness :
  exists r', BlockImplQueue example_info 9 example_write = Forwarded r' /\
    translates 8 3 (rq_block example_write) (rq_block r').
Proof.
  pose proof (mutable_translation example_info 9 example_write (or_intror eq_refl)
    ltac:(split; unfold is_u32, is_u64; simpl; lia) ltac:(simpl; lia)) as H.
  eexists. split; [reflexivity|]. exact (proj1 (proj2 H)).
Defined.
End DeviceExample.
