(* ===== verification/VerityVerifiedDevice.v ===== *)
(** * VerityVerifiedDevice: the read-only device of a sealed partition

    Model of [src/devices/block/drivers/block-verity/verified-device.cc]: the device that forwards
    reads to the device below and verifies what comes back, its loading, its teardown, and the runs of
    it over a device below that may answer anything. *)
From Stdlib Require Import ZArith Lia.
From stdpp Require Import prelude.
From S2P Require Import Prelude VerityGeometry VeritySealer VeritySeal VerityVerifier VerityRoundtrip VerityDevice.

Local Open Scope Z_scope.

Inductive DeviceState := kInitial | kLoading | kActive | kQuiescing | kStopped | kFailed.

#[global] Instance DeviceState_eq_dec : EqDecision DeviceState.
Proof. solve_decision. Defined.

(** [unbind_txn_] says whether there is a transaction. *)
Record VerifiedDevice := mkVerified {
  state_ : DeviceState;
  outstanding : Z;
  deferred_requests_ : list Request;
  info_ : DeviceInfo;
  unbind_txn_ : bool;
  block_verifier_ : BlockVerifier
}.

Definition set_state (x : DeviceState) (d : VerifiedDevice) : VerifiedDevice :=
  mkVerified x (outstanding d) (deferred_requests_ d) (info_ d) (unbind_txn_ d) (block_verifier_ d).
Definition set_outstanding (x : Z) (d : VerifiedDevice) : VerifiedDevice :=
  mkVerified (state_ d) x (deferred_requests_ d) (info_ d) (unbind_txn_ d) (block_verifier_ d).
Definition set_deferred (x : list Request) (d : VerifiedDevice) : VerifiedDevice :=
  mkVerified (state_ d) (outstanding d) x (info_ d) (unbind_txn_ d) (block_verifier_ d).
Definition set_unbind (x : bool) (d : VerifiedDevice) : VerifiedDevice :=
  mkVerified (state_ d) (outstanding d) (deferred_requests_ d) (info_ d) x (block_verifier_ d).
Definition set_verifier (x : BlockVerifier) (d : VerifiedDevice) : VerifiedDevice :=
  mkVerified (state_ d) (outstanding d) (deferred_requests_ d) (info_ d) (unbind_txn_ d) x.

(** What the device does to the outside: it queues an operation of a client or its own load to the
    device below, completes an operation of a client, replies to the unbind transaction. *)
Inductive Effect :=
  | QueueClient (r : Request)
  | QueueLoad (op : block_op_t)
  | Complete (r : Request) (status : zx_status)
  | UnbindReply.

Section device.
Context `{Digest}.

(** The constructor; [m] is the memory that will hold the integrity data. *)
Definition new_verified (info : DeviceInfo) (integrity_root_hash : list Z) (m : disk) : VerifiedDevice :=
  mkVerified kInitial 0 [] info false (new_verifier (geometry info) integrity_root_hash m).

Definition RequestBlocks (start_block block_count vmo : Z) (d : VerifiedDevice)
    : VerifiedDevice * list Effect :=
  let hw := info_hw_blocks (info_ d) in
  let op := mkBlockOp BLOCK_OP_READ vmo (u32 (u64 (block_count * hw))) (u64 (start_block * hw)) 0 in
  (set_outstanding (u64 (outstanding d + 1)) d, [QueueLoad op]).

(** [Init], where creating and mapping the VMO give the statuses [create] and [map], and the VMO has
    the handle [vmo]. *)
Definition Init (create map : zx_status) (vmo : Z) (d : VerifiedDevice)
    : exec (zx_status * VerifiedDevice * list Effect) :=
  (ASSERT bool_decide (state_ d = kInitial) ;;
   let d := set_state kLoading d in
   '(rc, load, v) ← PrepareAsync create map (block_verifier_ d);
   let d := set_verifier v d in
   let '(d, out) :=
     match load with
     | Some (start_block, block_count) => RequestBlocks start_block block_count vmo d
     | None => (d, [])
     end in
   Done (rc, if decide (rc <> ZX_OK) then set_state kFailed d else d, out))%exec.

(** [TeardownIfQuiesced]; replying without a transaction is a null dereference. *)
Definition TeardownIfQuiesced (d : VerifiedDevice) : exec (VerifiedDevice * list Effect) :=
  if outstanding d =? 0 then
    (ASSERT unbind_txn_ d ;;
     Done (set_unbind false (set_state kStopped d), [UnbindReply]))%exec
  else Done (d, []).

Definition DdkUnbind (d : VerifiedDevice) : exec (VerifiedDevice * list Effect) :=
  if decide (state_ d = kFailed) then Done (d, [UnbindReply])
  else TeardownIfQuiesced (set_unbind true (set_state kQuiescing d)).

Definition BlockComplete (r : Request) (status : zx_status) (d : VerifiedDevice)
    : exec (VerifiedDevice * list Effect) :=
  if decide (state_ d = kQuiescing) then
    '(d, out) ← TeardownIfQuiesced d; Done (d, Complete r status :: out)
  else Done (d, [Complete r status]).

Definition ForwardTranslatedBlockOp (r : Request) (d : VerifiedDevice) : exec (VerifiedDevice * list Effect) :=
  match command (rq_block r) with
  | BLOCK_OP_READ =>
      if u64 (total_blocks_ (geometry (info_ d)) * info_hw_blocks (info_ d)) <?
         u64 (rw_offset_dev (rq_block r) + rw_length (rq_block r))
      then BlockComplete r ZX_ERR_INVALID_ARGS d
      else Done (set_outstanding (u64 (outstanding d + 1)) d, [QueueClient r])
  | BLOCK_OP_FLUSH | BLOCK_OP_WRITE | BLOCK_OP_TRIM => BlockComplete r ZX_ERR_NOT_SUPPORTED d
  | UnknownCommand _ => BlockComplete r ZX_ERR_NOT_SUPPORTED d
  end.

Definition BlockImplQueue (cookie : Z) (r : Request) (d : VerifiedDevice)
    : exec (VerifiedDevice * list Effect) :=
  let data_start_offset := AbsoluteLocationForData (geometry (info_ d)) 0 in
  let '(rc, r) := VerityDevice.Init cookie (info_hw_blocks (info_ d)) data_start_offset r in
  if decide (rc <> ZX_OK) then BlockComplete r rc d
  else
    match state_ d with
    | kInitial | kQuiescing | kStopped | kFailed => BlockComplete r ZX_ERR_BAD_STATE d
    | kLoading => Done (set_deferred (deferred_requests_ d ++ [r]) d, [])
    | kActive => ForwardTranslatedBlockOp r d
    end.

(** The loop over the deferred requests. *)
Fixpoint forward_deferred (rs : list Request) (d : VerifiedDevice) : exec (VerifiedDevice * list Effect) :=
  match rs with
  | [] => Done (d, [])
  | r :: rs' =>
      '(d, out) ← ForwardTranslatedBlockOp r (set_deferred rs' d);
      '(d, out') ← forward_deferred rs' d;
      Done (d, out ++ out')
  end.

Definition OnBlockVerifierPrepareComplete (status : zx_status) (d : VerifiedDevice)
    : exec (VerifiedDevice * list Effect) :=
  (ASSERT bool_decide (state_ d = kLoading) ;;
   forward_deferred (deferred_requests_ d) (set_state kActive d))%exec.

(** [OnBlockLoaderRequestComplete]: the section under the lock. After it, without the device's lock, the
    thread calls the callback of the load, which is [OnIntegrityDataLoaded] of the verifier, and that,
    without the verifier's lock, calls [OnBlockVerifierPrepareComplete]. *)
Definition OnBlockLoaderRequestComplete (d : VerifiedDevice) : VerifiedDevice :=
  set_outstanding (u64 (outstanding d - 1)) d.

(** The section of the verifier. The load has left [m] in the VMO. *)
Definition integrity_loaded (status : zx_status) (m : disk) (d : VerifiedDevice) : exec VerifiedDevice :=
  v ← OnIntegrityDataLoaded status m (block_verifier_ d);
  Done (set_verifier v d).

(** [zx_vmo_read] of a handle at an offset, a length: the status and the bytes. *)
Definition vmo_read : Type := Z -> Z -> Z -> zx_status * list Z.

(** The loop over the blocks read, [n] of them from [block_offset]. *)
Fixpoint verify_blocks (read : vmo_read) (n : nat) (block_offset : Z) (e : extra_op_t) (v : BlockVerifier)
    : exec zx_status :=
  match n with
  | O => Done ZX_OK
  | S n' =>
      let vmo_offset := u64 (extra_offset_vmo e + u64 (block_offset * kBlockSize)) in
      let '(status, buf) := read (extra_vmo e) vmo_offset kBlockSize in
      if decide (status <> ZX_OK) then Done status
      else
        status ← VerifyDataBlockSync (u64 (extra_offset_dev e + block_offset)) buf v;
        if decide (status <> ZX_OK) then Done status else verify_blocks read n' (block_offset + 1) e v
  end.

Definition OnClientBlockRequestComplete (read : vmo_read) (status : zx_status) (r : Request) (d : VerifiedDevice)
    : exec (VerifiedDevice * list Effect) :=
  let d := set_outstanding (u64 (outstanding d - 1)) d in
  let r := restore r in
  if decide (status <> ZX_OK) then BlockComplete r status d
  else
    status ← verify_blocks read (Z.to_nat (rw_length (rq_block r))) 0 (rq_extra r) (block_verifier_ d);
    BlockComplete r status d.

(** ** Runs *)

(** Where the load of the integrity data is: below; on a thread that has counted it as complete; on
    one that has told the verifier as well. *)
Inductive LoadPhase :=
  | NoLoad
  | LoadBelow
  | LoadReturned (status : zx_status) (m : disk)
  | LoadPrepared (status : zx_status).

Definition load_below (l : LoadPhase) : bool := match l with LoadBelow => true | _ => false end.
Definition load_active (l : LoadPhase) : bool := match l with NoLoad => false | _ => true end.

(** The device, the operations of clients that are below, where the load is, whether the
    device has been unbound, the operations the clients have queued and have had back, and the replies
    to the unbind transaction. *)
Record World := mkWorld {
  dev : VerifiedDevice;
  in_flight : list Request;
  loading : LoadPhase;
  unbound : bool;
  submitted : list Z;
  completed : list (Request * zx_status);
  unbind_replies : nat
}.

Definition emit (w : World) (e : Effect) : World :=
  match e with
  | QueueClient r =>
      mkWorld (dev w) (in_flight w ++ [r]) (loading w) (unbound w) (submitted w) (completed w) (unbind_replies w)
  | QueueLoad _ =>
      mkWorld (dev w) (in_flight w) LoadBelow (unbound w) (submitted w) (completed w) (unbind_replies w)
  | Complete r st =>
      mkWorld (dev w) (in_flight w) (loading w) (unbound w) (submitted w) (completed w ++ [(r, st)])
        (unbind_replies w)
  | UnbindReply =>
      mkWorld (dev w) (in_flight w) (loading w) (unbound w) (submitted w) (completed w) (S (unbind_replies w))
  end.

Definition emits (out : list Effect) (w : World) : World := fold_left emit out w.

(** A device that [Init] has started, with the integrity data loading. *)
Definition started (info : DeviceInfo) (root : list Z) (w : World) : Prop :=
  exists vmo m d out, Init ZX_OK ZX_OK vmo (new_verified info root m) = Done (ZX_OK, d, out) /\
    w = emits out (mkWorld d [] NoLoad false [] [] 0).

(** A client queues an operation (there is memory for less than 2^63 of them); the load completes, in
    three sections; an operation completes; the device is unbound, once. *)
Inductive step (w : World) : World -> Prop :=
  | step_queue cookie r d out :
      op_ok (rq_block r) -> Z.of_nat (length (in_flight w) + length (deferred_requests_ (dev w))) < 2 ^ 63 ->
      BlockImplQueue cookie r (dev w) = Done (d, out) ->
      step w (emits out (mkWorld d (in_flight w) (loading w) (unbound w) (submitted w ++ [cookie])
                           (completed w) (unbind_replies w)))
  | step_load_returned status m :
      loading w = LoadBelow ->
      step w (mkWorld (OnBlockLoaderRequestComplete (dev w)) (in_flight w) (LoadReturned status m) (unbound w)
                (submitted w) (completed w) (unbind_replies w))
  | step_loaded status m d :
      loading w = LoadReturned status m -> integrity_loaded status m (dev w) = Done d ->
      step w (mkWorld d (in_flight w) (LoadPrepared status) (unbound w) (submitted w) (completed w) (unbind_replies w))
  | step_prepared status d out :
      loading w = LoadPrepared status -> OnBlockVerifierPrepareComplete status (dev w) = Done (d, out) ->
      step w (emits out (mkWorld d (in_flight w) NoLoad (unbound w) (submitted w) (completed w) (unbind_replies w)))
  | step_client read status pre r post d out :
      in_flight w = pre ++ r :: post ->
      OnClientBlockRequestComplete read status r (dev w) = Done (d, out) ->
      step w (emits out (mkWorld d (pre ++ post) (loading w) (unbound w) (submitted w) (completed w)
                           (unbind_replies w)))
  | step_unbind d out :
      unbound w = false -> DdkUnbind (dev w) = Done (d, out) ->
      step w (emits out (mkWorld d (in_flight w) (loading w) true (submitted w) (completed w)
                           (unbind_replies w))).

Inductive reachable (info : DeviceInfo) (root : list Z) : World -> Prop :=
  | reach_start w : started info root w -> reachable info root w
  | reach_step w w' : reachable info root w -> step w w' -> reachable info root w'.

End device.

(** ** The invariant *)

Definition with_dev (d : VerifiedDevice) (w : World) : World :=
  mkWorld d (in_flight w) (loading w) (unbound w) (submitted w) (completed w) (unbind_replies w).

Definition cookie_of (r : Request) : Z := extra_cookie (rq_extra r).

Section invariant.
Context `{Digest} (info : DeviceInfo) (root : list Z).
Hypothesis Hhw : 1 <= info_hw_blocks info.

(** The first block of the data section. *)
Definition data_start : Z := AbsoluteLocationForData (geometry info) 0.

(** [r] is a client's read [b], translated. *)
Definition of_client (b : block_op_t) (r : Request) : Prop :=
  command b = BLOCK_OP_READ /\ op_ok b /\ translatable (info_hw_blocks info) data_start b /\
  translates (info_hw_blocks info) data_start b (rq_block r) /\
  rq_extra r = mkExtra (rw_vmo b) (rw_length b) (rw_offset_dev b) (rw_offset_vmo b) (cookie_of r).

(** The bound of [ForwardTranslatedBlockOp]. *)
Definition bounded (r : Request) : Prop :=
  u64 (rw_offset_dev (rq_block r) + rw_length (rq_block r)) <=
  u64 (total_blocks_ (geometry info) * info_hw_blocks info).

Definition phase_ok (w : World) : Prop :=
  match state_ (dev w) with
  | kLoading => load_active (loading w) = true /\ unbound w = false /\ unbind_txn_ (dev w) = false
  | kActive => loading w = NoLoad /\ unbound w = false /\ unbind_txn_ (dev w) = false
  | kQuiescing => unbound w = true /\ unbind_txn_ (dev w) = true /\
      (loading w = NoLoad -> deferred_requests_ (dev w) = [])
  | kStopped => unbound w = true /\ unbind_txn_ (dev w) = false /\ load_below (loading w) = false /\
      in_flight w = [] /\ (loading w = NoLoad -> deferred_requests_ (dev w) = [])
  | kInitial | kFailed => False
  end.

(** What holds at any time, while the operations [held] are in the hands of a thread. *)
Record core (held : list Request) (w : World) : Prop := {
  co_info : info_ (dev w) = info;
  co_geometry : bv_geometry (block_verifier_ (dev w)) = geometry info;
  co_root : bv_root_hash (block_verifier_ (dev w)) = root;
  co_verifier : bv_state (block_verifier_ (dev w)) = VerityVerifier.kLoading <->
    match loading w with LoadBelow | LoadReturned _ _ => True | _ => False end;
  co_outstanding : outstanding (dev w) =
    Z.of_nat (length (in_flight w)) + (if load_below (loading w) then 1 else 0);
  co_room : Z.of_nat (length held + length (in_flight w) + length (deferred_requests_ (dev w))) <= 2 ^ 63;
  co_phase : phase_ok w;
  co_replies : unbind_replies w = if decide (state_ (dev w) = kStopped) then 1%nat else 0%nat;
  co_in_flight : Forall (fun r => bounded r /\ exists b, of_client b r) (in_flight w);
  co_deferred : Forall (fun r => command (rq_block r) = BLOCK_OP_READ -> exists b, of_client b r)
                  (deferred_requests_ (dev w));
  co_requests : submitted w ≡ₚ
    (cookie_of <$> held) ++ (cookie_of <$> in_flight w) ++ (cookie_of <$> deferred_requests_ (dev w)) ++
    ((fun c => cookie_of c.1) <$> completed w)
}.

(** Between operations: nothing is deferred once the device is active, and a device that is quiescing
    waits for something below, or the completion of the load is under way. *)
Record inv (w : World) : Prop := {
  in_core : core [] w;
  in_active : state_ (dev w) = kActive -> deferred_requests_ (dev w) = [];
  in_quiescing : state_ (dev w) = kQuiescing -> 0 < outstanding (dev w) \/ load_active (loading w) = true
}.

(** What an operation that ends in [d] and [out] leaves; [active] devices stay active. *)
Definition leaves (held : list Request) (w : World) (d : VerifiedDevice) (out : list Effect) : Prop :=
  core held (emits out (with_dev d w)) /\ dev (emits out (with_dev d w)) = d /\
  (state_ d = kQuiescing -> 0 < outstanding d) /\
  deferred_requests_ d = deferred_requests_ (dev w) /\
  (state_ d = kActive <-> state_ (dev w) = kActive).

Lemma complete_core held r st w :
  core (r :: held) w ->
  exists d out, BlockComplete r st (dev w) = Done (d, out) /\ leaves held w d out.
Proof.
  intros [Hi Hg Hr Hv Ho Hm Hp Hn Hf Hd Hq]. unfold BlockComplete, leaves.
  assert (submitted w ≡ₚ (cookie_of <$> held) ++ (cookie_of <$> in_flight w) ++
    (cookie_of <$> deferred_requests_ (dev w)) ++ ((fun c => cookie_of c.1) <$> (completed w ++ [(r, st)]))) as Hq'.
  { rewrite Hq, fmap_app. simpl. rewrite Permutation_cons_append. by rewrite <- !app_assoc. }
  simpl in Hm. destruct (decide (state_ (dev w) = kQuiescing)) as [Es|Es].
  - unfold TeardownIfQuiesced. unfold phase_ok in Hp. rewrite Es in Hp. destruct Hp as (Hu & Ht & Hdef).
    destruct (Z.eqb_spec (outstanding (dev w)) 0) as [Hz|Hz].
    + rewrite Ht. assert (in_flight w = [] /\ load_below (loading w) = false) as [Hfl Hl].
      { rewrite Ho in Hz. destruct (load_below (loading w)), (in_flight w); simpl in Hz; [lia|lia|done|lia]. }
      do 2 eexists. split; [reflexivity|]. split_and!; [|done|done|done|by simpl; rewrite Es].
      split; simpl; auto; try done; [lia|by rewrite Hn, decide_False by (by rewrite Es)].
    + do 2 eexists. split; [reflexivity|]. split_and!; [|done| |done|done].
      2: { intros _. rewrite Ho in Hz |- *. destruct (load_below (loading w)); lia. }
      split; simpl; auto; try done; [lia|unfold phase_ok; simpl; rewrite Es; split_and!; auto].
  - do 2 eexists. split; [reflexivity|]. split_and!; [|done|done|done|done]. split; simpl; auto. lia.
Qed.

Lemma forward_core held r w :
  core (r :: held) w -> state_ (dev w) = kActive ->
  (command (rq_block r) = BLOCK_OP_READ -> exists b, of_client b r) ->
  exists d out, ForwardTranslatedBlockOp r (dev w) = Done (d, out) /\ leaves held w d out.
Proof.
  intros Hc Hs Hr. unfold ForwardTranslatedBlockOp.
  destruct (command (rq_block r)) eqn:Ec; try (by apply complete_core).
  destruct Hc as [Hi Hg Hroot Hv Ho Hm Hp Hn Hf Hd Hq]. rewrite Hi.
  destruct (Z.ltb_spec (u64 (total_blocks_ (geometry info) * info_hw_blocks info))
    (u64 (rw_offset_dev (rq_block r) + rw_length (rq_block r)))) as [Hlt|Hle]; [by apply complete_core|].
  unfold phase_ok in Hp. rewrite Hs in Hp. destruct Hp as (Hl & Hu & Ht). simpl in Hm.
  do 2 eexists. split; [reflexivity|]. unfold leaves. split_and!; [|done|by simpl; rewrite Hs|done|done].
  rewrite Hl in Ho, Hv.
  split; simpl; auto; try done.
  - by rewrite Hl.
  - rewrite Ho, length_app, Hl. simpl. rewrite u64_small by (unfold is_u64; lia). lia.
  - rewrite length_app. simpl. lia.
  - unfold phase_ok. simpl. by rewrite Hs.
  - apply Forall_app. split; [done|]. apply Forall_singleton. split; [exact Hle|by apply Hr].
  - rewrite Hq, fmap_app. simpl. rewrite <- !app_assoc. simpl.
    by rewrite (app_assoc (cookie_of <$> held)), <- Permutation_middle, <- app_assoc.
Qed.

Lemma emits_app out out' w : emits (out ++ out') w = emits out' (emits out w).
Proof. apply fold_left_app. Qed.

Lemma emits_dev out d d' w : with_dev d' (emits out (with_dev d w)) = emits out (with_dev d' w).
Proof.
  revert w. induction out as [|e out IH] using rev_ind; intros w; [done|].
  rewrite !emits_app, <- IH. by destruct e.
Qed.

(** Forwarding all that is deferred. *)
Lemma forward_deferred_core rs w :
  core [] w -> state_ (dev w) = kActive -> deferred_requests_ (dev w) = rs ->
  exists d out, forward_deferred rs (dev w) = Done (d, out) /\ core [] (emits out (with_dev d w)) /\
    dev (emits out (with_dev d w)) = d /\ state_ d = kActive /\ deferred_requests_ d = [].
Proof.
  revert w. induction rs as [|r rs IH]; intros w Hc Hs Hrs; simpl.
  { exists (dev w), []. split; [done|]. split_and!; try done. by destruct w. }
  set (w1 := with_dev (set_deferred rs (dev w)) w).
  assert (core [r] w1 /\ (command (rq_block r) = BLOCK_OP_READ -> exists b, of_client b r)) as [Hc1 Hr].
  { destruct Hc as [Hi Hg Hroot Hv Ho Hm Hp Hn Hf Hd Hq]. rewrite Hrs in Hm, Hd, Hq.
    apply Forall_cons in Hd as [Hr Hd]. split; [|exact Hr].
    unfold phase_ok in Hp. rewrite Hs in Hp.
    split; simpl; auto; [simpl in Hm; lia|unfold phase_ok; simpl; by rewrite Hs|].
    rewrite Hq. simpl. by rewrite <- Permutation_middle. }
  destruct (forward_core [] r w1 Hc1 Hs Hr) as (d & out & Hf & Hc2 & Hdev & _ & Hdef & Hact).
  change (set_deferred rs (dev w)) with (dev w1). rewrite Hf. cbn [mbind exec_bind].
  destruct (IH (emits out (with_dev d w1))) as (d' & out' & Hf' & Hc' & Hdev' & Hs' & Hdef');
    [done|by rewrite Hdev; apply Hact|by rewrite Hdev, Hdef|].
  rewrite Hdev in Hf'. rewrite Hf'. cbn [mbind exec_bind]. rewrite emits_dev in Hc', Hdev'.
  exists d', (out ++ out'). split; [done|]. rewrite emits_app. split_and!; done.
Qed.

(** Completing or forwarding an operation that is in hand keeps the invariant. *)
Lemma leaves_inv w d out :
  (state_ (dev w) = kActive -> deferred_requests_ (dev w) = []) -> leaves [] w d out ->
  inv (emits out (with_dev d w)).
Proof.
  intros Ha (Hc & Hdev & Hq & Hdef & Hact). split; rewrite ?Hdev; [done| |by left; auto].
  intros E. rewrite Hdef. by apply Ha, Hact.
Qed.

Lemma Init_cookie cookie hw start r : cookie_of (VerityDevice.Init cookie hw start r).2 = cookie.
Proof. unfold VerityDevice.Init. repeat case_match; done. Qed.

Lemma Init_read cookie r r' :
  op_ok (rq_block r) -> VerityDevice.Init cookie (info_hw_blocks info) data_start r = (ZX_OK, r') ->
  command (rq_block r') = BLOCK_OP_READ -> exists b, of_client b r'.
Proof.
  intros Hok Hi Hc. assert (command (rq_block r) = BLOCK_OP_READ) as Hcr.
  { unfold VerityDevice.Init in Hi. repeat case_match; simplify_eq; simpl in *; congruence. }
  destruct (Init_transfer cookie (info_hw_blocks info) data_start r (or_introl Hcr) Hok Hhw) as
    (st & r2 & Hi2 & He & _ & Hcase); [unfold data_start, AbsoluteLocationForData; apply u64_range|].
  rewrite Hi in Hi2. injection Hi2 as <- <-. destruct Hcase as [(_ & Ht & Htr)|[? _]]; [|done].
  pose proof (Init_cookie cookie (info_hw_blocks info) data_start r) as Hck. rewrite Hi in Hck. simpl in Hck.
  exists (rq_block r). unfold of_client. rewrite Hck. split_and!; done.
Qed.

Definition submit (cookie : Z) (w : World) : World :=
  mkWorld (dev w) (in_flight w) (loading w) (unbound w) (submitted w ++ [cookie]) (completed w) (unbind_replies w).

Lemma verified_queue_inv cookie r w :
  inv w -> op_ok (rq_block r) -> Z.of_nat (length (in_flight w) + length (deferred_requests_ (dev w))) < 2 ^ 63 ->
  exists d out, BlockImplQueue cookie r (dev w) = Done (d, out) /\ inv (emits out (with_dev d (submit cookie w))).
Proof.
  intros [Hc Ha Hqu] Hok Hroom. unfold BlockImplQueue. rewrite (co_info _ _ Hc).
  destruct (VerityDevice.Init cookie (info_hw_blocks info) (AbsoluteLocationForData (geometry info) 0) r) as [rc r'] eqn:Ei.
  assert (core [r'] (submit cookie w)) as Hc1.
  { destruct Hc as [Hi Hg Hroot Hv Ho Hm Hp Hn Hf Hd Hq]. split; simpl; auto; [lia|].
    pose proof (Init_cookie cookie (info_hw_blocks info) (AbsoluteLocationForData (geometry info) 0) r) as Hck.
    rewrite Ei in Hck. simpl in Hck. rewrite Hck, Hq. simpl. symmetry. apply Permutation_cons_append. }
  assert (forall st, exists d out, BlockComplete r' st (dev w) = Done (d, out) /\
    inv (emits out (with_dev d (submit cookie w)))) as Hcomp.
  { intros st. destruct (complete_core [] r' st _ Hc1) as (d & out & Hb & Hl). exists d, out. split; [exact Hb|].
    by apply leaves_inv. }
  destruct (decide (rc <> ZX_OK)) as [|Hrc]; [apply Hcomp|]. apply dec_stable in Hrc as ->.
  destruct (state_ (dev w)) eqn:Es; try apply Hcomp.
  - do 2 eexists. split; [reflexivity|]. split; [|by simpl; rewrite Es..].
    destruct Hc1 as [Hi Hg Hroot Hv Ho Hm Hp Hn Hf Hd Hq]. simpl in Hm. unfold phase_ok in Hp. simpl in Hp, Hq. rewrite Es in Hp.
    split; simpl; auto; try done.
    + rewrite length_app. simpl. lia.
    + unfold phase_ok. simpl. by rewrite Es.
    + apply Forall_app. split; [done|]. apply Forall_singleton. intros Hrd. exact (Init_read cookie r r' Hok Ei Hrd).
    + rewrite Hq, fmap_app, <- !app_assoc. simpl.
      by rewrite <- !Permutation_middle.
  - destruct (forward_core [] r' _ Hc1 Es (Init_read cookie r r' Hok Ei)) as (d & out & Hf & Hl).
    exists d, out. split; [exact Hf|]. by apply leaves_inv; [simpl; rewrite Es|].
Qed.

Lemma start_inv w : started info root w -> inv w.
Proof.
  intros (vmo & m & d & out & Hi & ->). injection Hi as <- <-. split; [|done|done].
  split; simpl; try done.
Qed.

(** The world with the load at [l]. *)
Definition load_at (l : LoadPhase) (w : World) : World :=
  mkWorld (dev w) (in_flight w) l (unbound w) (submitted w) (completed w) (unbind_replies w).

Lemma load_returned_inv status m w :
  inv w -> loading w = LoadBelow ->
  inv (with_dev (OnBlockLoaderRequestComplete (dev w)) (load_at (LoadReturned status m) w)).
Proof.
  intros [[Hi Hg Hroot Hv Ho Hm Hp Hn Hf Hd Hq] Ha Hqu] Hl. rewrite Hl in Ho, Hv. simpl in Ho.
  unfold phase_ok in Hp. rewrite Hl in Hp.
  split; simpl; [|done|by right]. split; simpl; auto.
  - rewrite Ho, u64_small; unfold is_u64; lia.
  - unfold phase_ok. simpl. destruct (state_ (dev w)); try done; naive_solver.
Qed.

Lemma integrity_loaded_inv status m w :
  inv w -> loading w = LoadReturned status m ->
  exists d, integrity_loaded status m (dev w) = Done d /\ inv (with_dev d (load_at (LoadPrepared status) w)).
Proof.
  intros [[Hi Hg Hroot Hv Ho Hm Hp Hn Hf Hd Hq] Ha Hqu] Hl. rewrite Hl in Ho, Hv. simpl in Ho.
  unfold integrity_loaded, OnIntegrityDataLoaded. rewrite (proj2 Hv I).
  cbn [zx_assert exec_bind mbind]. eexists. split; [reflexivity|]. unfold phase_ok in Hp. rewrite Hl in Hp.
  split; simpl; [|done|by right]. split; simpl; auto.
  - split; [by destruct (decide (status = ZX_OK))|done].
  - unfold phase_ok. simpl. destruct (state_ (dev w)); try done; naive_solver.
Qed.

Lemma prepared_inv status w :
  inv w -> loading w = LoadPrepared status ->
  if decide (state_ (dev w) = kLoading)
  then exists d out, OnBlockVerifierPrepareComplete status (dev w) = Done (d, out) /\
         inv (emits out (with_dev d (load_at NoLoad w)))
  else OnBlockVerifierPrepareComplete status (dev w) = Panic.
Proof.
  intros [[Hi Hg Hroot Hv Ho Hm Hp Hn Hf Hd Hq] Ha Hqu] Hl. rewrite Hl in Ho, Hv. simpl in Ho.
  unfold OnBlockVerifierPrepareComplete.
  destruct (decide (state_ (dev w) = kLoading)) as [Es|Es]; [|by rewrite bool_decide_false].
  rewrite bool_decide_true by done. cbn [zx_assert exec_bind]. unfold phase_ok in Hp. rewrite Es in Hp.
  set (d1 := set_state kActive _).
  destruct (forward_deferred_core (deferred_requests_ d1) (with_dev d1 (load_at NoLoad w)))
    as (d & out & Hfw & Hc & Hdev & Hs & Hdef); [|done|done|].
  { destruct Hp as (_ & Hu & Ht). split; simpl; auto; try done. by rewrite Hn, Es. }
  change (with_dev d (with_dev d1 (load_at NoLoad w))) with (with_dev d (load_at NoLoad w)) in Hc, Hdev.
  exists d, out. split; [exact Hfw|]. split; rewrite ?Hdev; [exact Hc|by intros _|by rewrite Hs].
Qed.

(** The world in which an operation has come back. *)
Definition came_back (pre post : list Request) (w : World) : World :=
  mkWorld (set_outstanding (u64 (outstanding (dev w) - 1)) (dev w)) (pre ++ post) (loading w) (unbound w)
    (submitted w) (completed w) (unbind_replies w).

Lemma came_back_core pre r post w :
  inv w -> in_flight w = pre ++ r :: post -> core [restore r] (came_back pre post w).
Proof.
  intros [[Hi Hg Hroot Hv Ho Hm Hp Hn Hf Hd Hq] Ha Hqu] Hfl. rewrite Hfl in *.
  apply Forall_app in Hf as [Hf1 [_ Hf2]%Forall_cons]. rewrite length_app in Ho, Hm. simpl in Ho, Hm.
  split; simpl; auto.
  - rewrite Ho, length_app, u64_small by (unfold is_u64; destruct (load_below (loading w)); lia). lia.
  - rewrite length_app. lia.
  - unfold phase_ok in *. simpl. destruct (state_ (dev w)); auto.
    destruct Hp as (_ & _ & _ & Hbad & _). by rewrite Hfl in Hbad; destruct pre.
  - by apply Forall_app.
  - rewrite Hq, !fmap_app. simpl. rewrite <- !app_assoc. simpl. by rewrite <- !Permutation_middle.
Qed.

Lemma client_inv read status pre r post w d out :
  inv w -> in_flight w = pre ++ r :: post ->
  OnClientBlockRequestComplete read status r (dev w) = Done (d, out) ->
  inv (emits out (with_dev d (came_back pre post w))).
Proof.
  intros Hw Hfl Hd. pose proof (came_back_core pre r post w Hw Hfl) as Hc.
  assert (exists st, BlockComplete (restore r) st (dev (came_back pre post w)) = Done (d, out)) as [st Hb].
  { unfold OnClientBlockRequestComplete in Hd. destruct (decide (status <> ZX_OK)); [by exists status|].
    apply exec_bind_Done in Hd as (st & _ & Hd). by exists st. }
  destruct (complete_core [] _ st _ Hc) as (d' & out' & Hb' & Hl). rewrite Hb in Hb'. injection Hb' as <- <-.
  apply leaves_inv; [exact (in_active _ Hw)|done].
Qed.

Definition unbinding (w : World) : World :=
  mkWorld (dev w) (in_flight w) (loading w) true (submitted w) (completed w) (unbind_replies w).

Lemma unbind_inv w :
  inv w -> unbound w = false ->
  exists d out, DdkUnbind (dev w) = Done (d, out) /\ inv (emits out (with_dev d (unbinding w))).
Proof.
  intros [[Hi Hg Hroot Hv Ho Hm Hp Hn Hf Hd Hq] Ha Hqu] Hu. unfold phase_ok in Hp. unfold DdkUnbind, TeardownIfQuiesced.
  simpl unbind_txn_. simpl outstanding.
  assert (state_ (dev w) = kLoading /\ load_active (loading w) = true \/ state_ (dev w) = kActive /\ loading w = NoLoad) as Hs.
  { destruct (state_ (dev w)); try done; destruct Hp as (H1 & H2 & _); [by left|by right|congruence..]. }
  rewrite decide_False by (destruct Hs as [[-> _]|[-> _]]; done). rewrite decide_False in Hn by (destruct Hs as [[-> _]|[-> _]]; done).
  assert (loading w = NoLoad -> deferred_requests_ (dev w) = []) as Hdef.
  { intros Hl. apply Ha. destruct Hs as [[_ Hb]|[? _]]; [by rewrite Hl in Hb|done]. }
  destruct (Z.eqb_spec (outstanding (dev w)) 0) as [Hz|Hz]; do 2 eexists; (split; [reflexivity|]).
  - assert (in_flight w = [] /\ load_below (loading w) = false) as [Hfl Hl].
    { rewrite Ho in Hz. destruct (load_below (loading w)), (in_flight w); simpl in Hz; [lia|lia|done|lia]. }
    split; simpl; try done. split; simpl; auto; try done.
  - split; simpl; try done.
    intros _. left. rewrite Ho in Hz |- *. destruct (load_below (loading w)); lia.
Qed.

Lemma verified_inv w : reachable info root w -> inv w.
Proof.
  induction 1 as [w Hs|w w' Hw IH Hst]; [by apply start_inv|]. destruct Hst as
    [cookie r d out Hok Hroom Hq|status m Hl|status m d Hl Hq|status d out Hl Hq|read status pre r post d out Hfl Hq|d out Hu Hq].
  - destruct (verified_queue_inv cookie r w IH Hok Hroom) as (d' & out' & Hq' & Hi). rewrite Hq in Hq'. by injection Hq' as <- <-.
  - by apply load_returned_inv.
  - destruct (integrity_loaded_inv status m w IH Hl) as (d' & Hq' & Hi). rewrite Hq in Hq'. by injection Hq' as <-.
  - pose proof (prepared_inv status w IH Hl) as Hi. destruct (decide _); [|by rewrite Hq in Hi].
    destruct Hi as (d' & out' & Hq' & Hi). rewrite Hq in Hq'. by injection Hq' as <- <-.
  - exact (client_inv read status pre r post w d out IH Hfl Hq).
  - destruct (unbind_inv w IH Hu) as (d' & out' & Hq' & Hi). rewrite Hq in Hq'. by injection Hq' as <- <-.
Qed.
End invariant.

(** ** The partition of a device *)

(** On hardware blocks that divide 4096, a device of 5 to [kMaxBlockCount] blocks is a partition. *)
Lemma CreateFromDevice_partition u parent :
  let bs := info_block_size (parent_info parent) in
  let total := info_block_count (parent_info parent) / (kBlockSize / bs) in
  0 < bs -> (bs | kBlockSize) -> 5 <= total <= kMaxBlockCount ->
  exists info, CreateFromDevice u parent = Done info /\ partition u total (geometry info) (info_hw_blocks info) /\
    IsValid info = parent_valid parent.
Proof.
  intros bs total Hbs [q Hq] Ht. unfold CreateFromDevice, size_remainder. fold bs.
  rewrite (proj2 (Z.eqb_neq bs 0)) by lia. cbn [negb zx_assert exec_bind mbind].
  rewrite Hq, Z.mod_mul by lia. cbn [Z.eqb zx_assert exec_bind]. unfold total, kMaxBlockCount in Ht.
  assert (0 < q <= 4096) as Hqr by (unfold kBlockSize in Hq; nia).
  rewrite Hq, Z.div_mul in Ht by lia. rewrite Z.div_mul, u32_small by (unfold is_u32; lia).
  unfold total. rewrite Hq, Z.div_mul by lia.
  destruct (BestSplitFor_spec u kBlockSize kHashOutputSize 128 eq_refl ltac:(done) ltac:(done)
    (info_block_count (parent_info parent) / q) ltac:(lia)) as (a & Ha & _).
  assert (new_geometry u kBlockSize kHashOutputSize (info_block_count (parent_info parent) / q) =
    Done (mkGeometry (info_block_count (parent_info parent) / q) kHashOutputSize kBlockSize (kBlockSize / kHashOutputSize) a)) as Hg.
  { unfold new_geometry. by rewrite Ha. }
  rewrite <- Hq, Hg. cbn [mbind exec_bind]. eexists. split; [reflexivity|]. split; [|done].
  split; simpl; [exact Hg|unfold kMaxBlockCount; lia|lia|]. exists bs. lia.
Qed.

(** ** Verifying what was read *)

Section verifying.
Context `{Hdok : DigestOk} (u : IntegrityShape) (total : Z) (info : DeviceInfo).
Hypothesis Hp : partition u total (geometry info) (info_hw_blocks info).

Lemma hw_range : 1 <= info_hw_blocks info <= 4096.
Proof using Hp.
  destruct Hp as [_ _ Hhw Hdiv]. pose proof (Z.divide_pos_le _ kBlockSize ltac:(done) Hdiv). unfold kBlockSize in *. lia.
Qed.

Lemma data_section :
  exists padded, data_start info = 1 + padded /\ 0 <= padded <= total /\
    1 + padded + data_block_count (allocation_ (geometry info)) = total /\ total_blocks_ (geometry info) = total.
Proof using Hp.
  destruct (partition_shape u total _ _ Hp (fun _ => 0)) as (D & Hg & Hs & Hn & Hi & Hr & Hsum & Ht & _).
  exists (padded_integrity_block_count (allocation_ (geometry info))).
  assert (0 <= padded_integrity_block_count (allocation_ (geometry info))) as H0.
  { destruct Hg as [_ _ _ Hg]. rewrite tree_blocks_complete in Hr by lia.
    pose proof (complete_nonneg 128 ltac:(lia) D (Z.of_nat (length (data_of (geometry info) (fun _ => 0))) - 1)). lia. }
  destruct Hp as [_ Htot _ _]. unfold kMaxBlockCount in Htot.
  split_and!; [|done|lia|lia|done]. unfold data_start, AbsoluteLocationForData. rewrite Hs.
  rewrite Z.add_0_r, u64_small; [done|unfold is_u64; lia].
Qed.

(** The end of a read that does not wrap around. *)
Definition no_wrap (b : block_op_t) : Prop :=
  (rw_offset_dev b + data_start info + rw_length b) * info_hw_blocks info < 2 ^ 64.

(** A read that was forwarded is within the data section. *)
Lemma forwarded_range b r :
  of_client info b r -> bounded info r -> no_wrap b ->
  rw_offset_dev b + rw_length b <= data_block_count (allocation_ (geometry info)).
Proof using Hp.
  intros (_ & [Hl Hd _] & _ & Ht & _) Hb Hw. unfold bounded in Hb. rewrite Ht in Hb. simpl in Hb.
  destruct data_section as (padded & Hds & Hpad & Hsum & Htot). pose proof hw_range as Hhw.
  destruct Hp as [_ Hmax _ _]. unfold kMaxBlockCount, no_wrap, is_u32, is_u64 in *. rewrite Hds in *.
  rewrite <- Z.mul_add_distr_r, Htot in Hb.
  assert (total * info_hw_blocks info <= 1048575 * 4096) by (apply Z.mul_le_mono_nonneg; lia).
  assert (0 <= (rw_offset_dev b + (1 + padded) + rw_length b) * info_hw_blocks info) by (apply Z.mul_nonneg_nonneg; lia).
  assert (0 <= total * info_hw_blocks info) by (apply Z.mul_nonneg_nonneg; lia).
  rewrite !u64_small in Hb by (unfold is_u64; lia).
  apply Z.mul_le_mono_pos_r in Hb; lia.
Qed.

(** The loop checks every block, at byte [extra_offset_vmo] and from there on. *)
Lemma verify_blocks_ok read n k e v :
  verify_blocks read n k e v = Done ZX_OK ->
  forall j, k <= j < k + Z.of_nat n ->
    exists buf, read (extra_vmo e) (u64 (extra_offset_vmo e + u64 (j * kBlockSize))) kBlockSize = (ZX_OK, buf) /\
      VerifyDataBlockSync (u64 (extra_offset_dev e + j)) buf v = Done ZX_OK.
Proof using.
  revert k. induction n as [|n IH]; intros k Hv j Hj; [lia|]. simpl in Hv.
  destruct (read _ _ _) as [st buf] eqn:Er. destruct (decide (st <> ZX_OK)) as [|Hst]; [congruence|].
  apply dec_stable in Hst as ->. apply exec_bind_Done in Hv as (st & Hver & Hv).
  destruct (decide (st <> ZX_OK)) as [|Hst]; [congruence|]. apply dec_stable in Hst as ->.
  destruct (Z.eq_dec j k) as [->|Hne]; [by exists buf|]. apply (IH (k + 1) Hv). lia.
Qed.

Lemma verify_blocks_returns read n k e v :
  bv_geometry v = geometry info -> 0 <= extra_offset_dev e -> 0 <= k ->
  extra_offset_dev e + k + Z.of_nat n <= data_block_count (allocation_ (geometry info)) ->
  exists st, verify_blocks read n k e v = Done st.
Proof using Hp Hdok.
  intros Hv He. revert k. induction n as [|n IH]; intros k Hk Hle; simpl; [by eexists|].
  destruct (read _ _ _) as [st buf]. destruct (decide (st <> ZX_OK)); [by eexists|].
  destruct data_section as (padded & _ & Hpad & Hsum & _). destruct Hp as [_ Hmax _ _]. unfold kMaxBlockCount in Hmax.
  rewrite u64_small by (unfold is_u64; lia).
  destruct (verify_returns u total _ _ v (extra_offset_dev e + k) buf Hp Hv) as [st' ->]; [lia|].
  cbn [mbind exec_bind]. destruct (decide (st' <> ZX_OK)); [by eexists|]. apply IH; lia.
Qed.

End verifying.

(** ** The claims *)

Section claims.
Context `{Hdok : DigestOk}.

Lemma complete_status r st d0 d out :
  BlockComplete r st d0 = Done (d, out) -> forall r' st', Complete r' st' ∈ out -> st' = st.
Proof.
  intros Hb r' st' Hin. unfold BlockComplete in Hb. destruct (decide _).
  - apply exec_bind_Done in Hb as ([d1 o] & Ht & Hb). simplify_eq.
    apply elem_of_cons in Hin as [Hin|Hin]; [congruence|]. unfold TeardownIfQuiesced in Ht.
    destruct (_ =? 0); [|simplify_eq; by apply not_elem_of_nil in Hin].
    destruct (unbind_txn_ d0); simplify_eq/=. by apply list_elem_of_singleton in Hin.
  - simplify_eq. apply list_elem_of_singleton in Hin. congruence.
Qed.

(** C24. Along every run of a verified device, the completion of the load being interleaved section by
    section: every operation its clients have queued is, once, either below, deferred, or completed.
    The unbind transaction is answered once at most, only when the device has been unbound and
    nothing is left below; unless a thread is still completing the load, it is then answered, and
    every operation is completed. (While one is, the answer can come early, see
    [unbind_during_load_completion].) *)
Theorem verified_device_runs info root w :
  1 <= info_hw_blocks info -> reachable info root w ->
  submitted w ≡ₚ (cookie_of <$> in_flight w) ++ (cookie_of <$> deferred_requests_ (dev w)) ++
                  ((fun c => cookie_of c.1) <$> completed w) /\
  (unbind_replies w = 1%nat /\ unbound w = true /\ in_flight w = [] /\ loading w <> LoadBelow /\
     (loading w = NoLoad -> submitted w ≡ₚ (fun c => cookie_of c.1) <$> completed w) \/
   unbind_replies w = 0%nat /\ (unbound w = true -> in_flight w <> [] \/ loading w <> NoLoad)).
Proof.
  intros Hhw Hr. destruct (verified_inv info root Hhw w Hr) as [[_ _ _ _ Ho _ Hp Hn _ _ Hq] _ Hqu].
  split; [exact Hq|]. unfold phase_ok in Hp. destruct (state_ (dev w)) eqn:Es; try done.
  - right. destruct Hp as (_ & Hu & _). split; [done|congruence].
  - right. destruct Hp as (_ & Hu & _). split; [done|congruence].
  - right. split; [done|]. intros _. destruct (Hqu eq_refl) as [H0|H0]; [|right; intros E; by rewrite E in H0].
    rewrite Ho in H0. destruct (loading w) eqn:El; [left|by right..].
    intros E. rewrite E in H0. simpl in H0. lia.
  - left. destruct Hp as (Hu & _ & Hl & Hf & Hd). split_and!; [done..| |].
    + intros E. by rewrite E in Hl.
    + intros E. rewrite Hf, (Hd E) in Hq. exact Hq.
Qed.

(** The assertions of a verified device: queueing and unbinding do not abort, nor does the
    completion of a read that does not wrap around, nor the first two sections of the completion of the
    load; the last aborts exactly if the device has been unbound while it was loading. *)
Theorem verified_device_asserts u total info root w :
  partition u total (geometry info) (info_hw_blocks info) -> reachable info root w ->
  (forall cookie r, op_ok (rq_block r) ->
     Z.of_nat (length (in_flight w) + length (deferred_requests_ (dev w))) < 2 ^ 63 ->
     BlockImplQueue cookie r (dev w) <> Panic) /\
  (unbound w = false -> DdkUnbind (dev w) <> Panic) /\
  (forall read status r, r ∈ in_flight w -> no_wrap info (rq_block (restore r)) ->
     OnClientBlockRequestComplete read status r (dev w) <> Panic) /\
  (forall status m, loading w = LoadReturned status m -> integrity_loaded status m (dev w) <> Panic) /\
  (forall status, loading w = LoadPrepared status ->
     OnBlockVerifierPrepareComplete status (dev w) = Panic <-> unbound w = true).
Proof.
  intros Hp Hr. pose proof (hw_range u total info Hp) as [Hhw _].
  pose proof (verified_inv info root Hhw w Hr) as Hinv. split_and!.
  - intros cookie r Hok Hroom. destruct (verified_queue_inv info root Hhw cookie r w Hinv Hok Hroom) as (d & out & -> & _). done.
  - intros Hu. destruct (unbind_inv info root w Hinv Hu) as (d & out & -> & _). done.
  - intros read status r Hin Hw. apply list_elem_of_split in Hin as (pre & post & Hfl).
    pose proof (came_back_core info root pre r post w Hinv Hfl) as Hc.
    assert (forall st, BlockComplete (restore r) st (dev (came_back pre post w)) <> Panic) as Hcomp.
    { intros st. destruct (complete_core info root [] _ st _ Hc) as (d & out & -> & _). done. }
    unfold OnClientBlockRequestComplete. destruct (decide (status <> ZX_OK)); [apply Hcomp|].
    destruct Hinv as [[_ Hg _ _ _ _ _ _ Hf _ _] _ _]. rewrite Hfl in Hf.
    apply Forall_app in Hf as [_ [(Hb & b & Hcl) _]%Forall_cons].
    assert (rq_block (restore r) = b /\ rq_extra (restore r) = rq_extra r) as [Hrb Hre].
    { destruct Hcl as (Hcmd & _ & _ & Htr & He). unfold restore. rewrite He, Htr. by destruct b; simpl in Hcmd |- *. }
    rewrite Hrb in *. pose proof (forwarded_range u total info Hp b r Hcl Hb Hw) as Hle.
    destruct Hcl as (_ & [Hl Hd _] & _ & _ & He). unfold is_u32, is_u64 in *.
    destruct (verify_blocks_returns u total info Hp read (Z.to_nat (rw_length b)) 0 (rq_extra (restore r))
      (block_verifier_ (dev w))) as [st Hst]; [done|rewrite Hre, He; simpl; lia|lia|rewrite Hre, He; simpl; lia|].
    simpl block_verifier_. rewrite Hst. apply Hcomp.
  - intros status m Hl. destruct (integrity_loaded_inv info root status m w Hinv Hl) as (d & -> & _). done.
  - intros status Hl. pose proof (prepared_inv info root status w Hinv Hl) as Hcase.
    destruct Hinv as [[_ _ _ _ _ _ Hph _ _ _ _] _ _]. unfold phase_ok in Hph.
    destruct (decide (state_ (dev w) = kLoading)) as [Es|Es].
    + rewrite Es in Hph. destruct Hph as (_ & Hu & _). destruct Hcase as (d & out & -> & _). by rewrite Hu.
    + split; [intros _|done]. destruct (state_ (dev w)); try done; destruct Hph as (? & ? & _); congruence.
Qed.

(** C2. What a client reads is what was sealed. A partition is sealed; later a superblock that matches
    the seal is accepted, and a verified device is made with its root hash, over a device below that
    may load and return anything. If a read to the start of its VMO whose end, in blocks of the device below, is
    less than 2^64 completes with ZX_OK, each block in the VMO is the block that was sealed, or this block, the superblock or an
    integrity block that was loaded collides with a block of the sealed disk: they differ and have the same hash. *)
Theorem verified_reads u total info cookie d0 r0 s st rc buf sb w read mem status r d out :
  partition u total (geometry info) (info_hw_blocks info) ->
  seal (seal_length (geometry info)) (geometry info) (info_hw_blocks info) cookie d0 = Done r0 ->
  run_output r0 = Callback cookie ZX_OK (Some s) kHashOutputSize ->
  OnReadCompleted (geometry info) s st (rc, buf) = (ZX_OK, Some sb) ->
  reachable info (integrity_root_hash sb) w -> r ∈ in_flight w ->
  (forall vmo off n bytes, read vmo off n = (ZX_OK, bytes) -> bytes = read_bytes (mem vmo) off n) ->
  OnClientBlockRequestComplete read status r (dev w) = Done (d, out) ->
  Complete (restore r) ZX_OK ∈ out ->
  let b := rq_block (restore r) in
  no_wrap info b -> rw_offset_vmo b = 0 ->
  forall j, 0 <= j < rw_length b ->
    read_bytes (mem (rw_vmo b)) (j * kBlockSize) kBlockSize =
      vblock d0 (AbsoluteLocationForData (geometry info) (rw_offset_dev b + j)) \/
    collision (buf :: read_bytes (mem (rw_vmo b)) (j * kBlockSize) kBlockSize :: integrity_blocks (geometry info) (bv_memory (block_verifier_ (dev w))))
      (sealed_blocks (geometry info) r0).
Proof.
  intros Hp Hseal Hout0 Hsb Hr Hin Hmem Hdone Hcomp b Hw Hoff j Hj.
  pose proof (hw_range u total info Hp) as [Hhw _].
  pose proof (verified_inv info _ Hhw w Hr) as Hinv.
  destruct Hinv as [[_ Hg Hroot _ _ _ _ _ Hf _ _] _ _].
  rewrite Forall_forall in Hf. destruct (Hf r Hin) as (Hb & b' & Hcl).
  assert (b = b' /\ rq_extra (restore r) = rq_extra r) as [Hrb Hre].
  { unfold b. destruct Hcl as (Hcmd & _ & _ & Htr & He). unfold restore. rewrite He, Htr. by destruct b'; simpl in Hcmd |- *. }
  rewrite Hrb in *. pose proof (forwarded_range u total info Hp b' r Hcl Hb Hw) as Hle.
  assert (verify_blocks read (Z.to_nat (rw_length b')) 0 (rq_extra r) (block_verifier_ (dev w)) = Done ZX_OK) as Hver.
  { unfold OnClientBlockRequestComplete in Hdone. fold b in Hdone. rewrite Hrb, Hre in Hdone. simpl block_verifier_ in Hdone.
    assert (forall st' d1, BlockComplete (restore r) st' d1 = Done (d, out) -> st' = ZX_OK) as Hst
      by (intros st' d1 Hbc; symmetry; exact (complete_status _ _ _ _ _ Hbc _ _ Hcomp)).
    destruct (decide (status <> ZX_OK)) as [Hne|_]; [by apply Hst in Hdone|].
    apply exec_bind_Done in Hdone as (st' & Hv & Hbc). by apply Hst in Hbc as ->. }
  destruct Hcl as (_ & [Hl Hd _] & _ & _ & He). unfold is_u32, is_u64 in *.
  destruct (data_section u total info Hp) as (padded & _ & Hpad & Hsum & _).
  destruct (verify_blocks_ok read _ 0 _ _ Hver j ltac:(lia)) as (bytes & Hread & Hblock).
  apply Hmem in Hread. rewrite He in Hread, Hblock. simpl in Hread, Hblock. rewrite Hoff in Hread.
  unfold kBlockSize in *. rewrite (u64_small (j * 4096)) in Hread by (unfold is_u64; lia).
  rewrite Z.add_0_l, u64_small in Hread by (unfold is_u64; lia).
  destruct Hp as [Hp1 Hmax Hp3 Hp4]. unfold kMaxBlockCount in Hmax.
  rewrite u64_small in Hblock by (unfold is_u64; lia). rewrite <- Hread.
  exact (verify_sealed u total _ _ cookie d0 r0 s st rc buf sb _ (rw_offset_dev b' + j) _ (Build_partition _ _ _ _ Hp1 Hmax Hp3 Hp4)
    Hseal Hout0 Hsb Hg Hroot ltac:(lia) Hblock).
Qed.

(** ** A read in flight *)

(** From a start, the load brings [m], and a client queues the read [b] within the data section. *)
Lemma read_in_flight u total info root m cookie b :
  partition u total (geometry info) (info_hw_blocks info) ->
  command b = BLOCK_OP_READ -> op_ok b -> translatable (info_hw_blocks info) (data_start info) b ->
  rw_offset_dev b + rw_length b <= data_block_count (allocation_ (geometry info)) ->
  exists w r, reachable info root w /\ in_flight w = [r] /\ rq_block (restore r) = b /\
    rq_extra r = mkExtra (rw_vmo b) (rw_length b) (rw_offset_dev b) (rw_offset_vmo b) cookie /\
    state_ (dev w) = kActive /\ block_verifier_ (dev w) = mkVerifier (geometry info) kReady root m.
Proof.
  intros Hp Hc Hok Ht Hle. pose proof (hw_range u total info Hp) as Hhw.
  destruct (data_section u total info Hp) as (padded & Hds & Hpad & Hsum & Htot).
  set (v := mkVerifier (geometry info) kReady root m).
  set (w1 := mkWorld (mkVerified kActive 0 [] info false v) [] NoLoad false [] [] 0).
  assert (reachable info root w1) as Hw1.
  { set (d0 := mkVerified kLoading 1 [] info false (mkVerifier (geometry info) VerityVerifier.kLoading root m)).
    set (wa := mkWorld d0 [] LoadBelow false [] [] 0).
    set (wb := mkWorld (set_outstanding 0 d0) [] (LoadReturned ZX_OK m) false [] [] 0).
    set (wc := mkWorld (mkVerified kLoading 0 [] info false v) [] (LoadPrepared ZX_OK) false [] [] 0).
    refine (reach_step info root wc _ (reach_step info root wb _ (reach_step info root wa _ (reach_start _ _ _ _) _) _) _).
    - exists 0, m, d0. eexists. split; reflexivity.
    - exact (step_load_returned wa ZX_OK m eq_refl).
    - exact (step_loaded wb ZX_OK m (dev wc) eq_refl eq_refl).
    - exact (step_prepared wc ZX_OK (dev w1) [] eq_refl eq_refl). }
  destruct (Init_transfer cookie (info_hw_blocks info) (data_start info) (mkRequest b (mkExtra 0 0 0 0 0)))
    as (st & r & Hi & He & Hcmd & Hcase); [by left|done|lia|lia|].
  destruct Hcase as [(-> & _ & Htr) | (_ & Hn)]; [|done]. cbn [rq_block] in Htr, He, Hcmd.
  pose proof (restore_Init cookie _ _ _ _ _ (or_introl Hc : transfers (rq_block (mkRequest b (mkExtra 0 0 0 0 0)))) Hi) as Hre.
  assert (BlockImplQueue cookie (mkRequest b (mkExtra 0 0 0 0 0)) (dev w1) =
    Done (set_outstanding 1 (dev w1), [QueueClient r])) as Hq.
  { unfold BlockImplQueue. cbn [dev w1 info_ state_]. fold (data_start info). rewrite Hi.
    rewrite decide_False by (by intros []). unfold ForwardTranslatedBlockOp. rewrite Hcmd, Hc. cbn [info_].
    rewrite Htr. cbn [rw_offset_dev rw_length]. rewrite Htot, Hds.
    destruct Hok as [[Hl _] [Ho _] _]. destruct Ht as (_ & Ht2 & _). destruct Hp as [_ Hmax _ _]. unfold kMaxBlockCount in Hmax.
    rewrite <- Z.mul_add_distr_r.
    assert ((rw_offset_dev b + (1 + padded) + rw_length b) * info_hw_blocks info <= total * info_hw_blocks info)
      by (apply Z.mul_le_mono_nonneg_r; lia).
    assert (total * info_hw_blocks info <= 1048575 * 4096) by (apply Z.mul_le_mono_nonneg; lia).
    assert (0 <= (rw_offset_dev b + (1 + padded) + rw_length b) * info_hw_blocks info) by (apply Z.mul_nonneg_nonneg; lia).
    rewrite !u64_small by (unfold is_u64; lia). rewrite (proj2 (Z.ltb_ge _ _)) by lia. done. }
  exists (mkWorld (set_outstanding 1 (dev w1)) [r] NoLoad false [cookie] [] 0), r.
  split; [|by rewrite Hre].
  refine (reach_step info root w1 _ Hw1 _).
  exact (step_queue w1 cookie (mkRequest b (mkExtra 0 0 0 0 0)) _ _ Hok eq_refl Hq).
Qed.

(** A read that verifies completes with ZX_OK. *)
Lemma read_completes read r d :
  state_ d = kActive ->
  verify_blocks read (Z.to_nat (rw_length (rq_block (restore r)))) 0 (rq_extra r) (block_verifier_ d) = Done ZX_OK ->
  exists d', OnClientBlockRequestComplete read ZX_OK r d = Done (d', [Complete (restore r) ZX_OK]).
Proof.
  intros Hs Hv. unfold OnClientBlockRequestComplete. rewrite decide_False by (by intros []).
  simpl block_verifier_. change (rq_extra (restore r)) with (rq_extra r). rewrite Hv. cbn [mbind exec_bind].
  unfold BlockComplete. simpl state_. rewrite decide_False by (by rewrite Hs). by eexists.
Qed.

(** What opening a sealed partition finds: a superblock that matches, and data that verify. *)
Lemma sealed_opens u total g hw cookie d0 r0 s :
  partition u total g hw -> seal (seal_length g) g hw cookie d0 = Done r0 ->
  run_output r0 = Callback cookie ZX_OK (Some s) kHashOutputSize ->
  exists sb, OnReadCompleted g s ZX_OK (ZX_OK, vblock (run_disk r0) 0) = (ZX_OK, Some sb) /\
    forall i, 0 <= i < data_block_count (allocation_ g) ->
      VerifyDataBlockSync i (vblock d0 (AbsoluteLocationForData g i))
        (mkVerifier g kReady (integrity_root_hash sb) (loaded g (run_disk r0))) = Done ZX_OK.
Proof.
  intros Hp Hseal Hout. destruct (seal_opens u total g hw cookie d0 Hp) as (r & s' & Hr & Ho & _ & Hv).
  rewrite Hseal in Hr. injection Hr as <-. rewrite Hout in Ho. injection Ho as <-. unfold verified_read in Hv.
  assert (0 <= 0 < data_block_count (allocation_ g)) as H0.
  { destruct (partition_shape u total g hw Hp d0) as (D & [_ _ _ Hg] & _ & Hn & _). lia. }
  pose proof (proj2 (Hv 0 H0)) as Hv0.
  destruct (OnReadCompleted g s ZX_OK (ZX_OK, vblock (run_disk r0) 0)) as [st [sb|]] eqn:E.
  - destruct st; try discriminate Hv0. exists sb. split; [done|]. intros i Hi. destruct (Hv i Hi) as [Hsame Hok].
    rewrite verifier_ready, Hsame in Hok. exact Hok.
  - destruct st; try discriminate Hv0. by destruct (superblock_ok g s ZX_OK (ZX_OK, vblock (run_disk r0) 0)).
Qed.

(** Unbinding while a thread is completing the load. [OnBlockLoaderRequestComplete] gives up the
    lock after it has counted the load as complete: an unbind in that window is answered at once,
    although a client's operation is deferred and never completed, and the thread that completes
    the load then aborts, its device no longer loading. *)
Theorem unbind_during_load_completion info root (m : disk) cookie r :
  op_ok (rq_block r) -> (VerityDevice.Init cookie (info_hw_blocks info) (AbsoluteLocationForData (geometry info) 0) r).1 = ZX_OK ->
  exists w, reachable info root w /\ loading w = LoadPrepared ZX_OK /\ unbind_replies w = 1%nat /\
    submitted w = [cookie] /\ completed w = [] /\ OnBlockVerifierPrepareComplete ZX_OK (dev w) = Panic.
Proof.
  intros Hok Hi. set (data_start_offset := AbsoluteLocationForData (geometry info) 0) in Hi.
  destruct (VerityDevice.Init cookie (info_hw_blocks info) data_start_offset r) as [st r'] eqn:E. simpl in Hi. subst st.
  set (v := mkVerifier (geometry info) VerityVerifier.kLoading root m).
  set (v' := mkVerifier (geometry info) kReady root m).
  set (d0 := mkVerified kLoading 1 [] info false v). set (wa := mkWorld d0 [] LoadBelow false [] [] 0).
  set (wb := mkWorld (set_deferred [r'] d0) [] LoadBelow false [cookie] [] 0).
  set (wc := mkWorld (set_outstanding 0 (dev wb)) [] (LoadReturned ZX_OK m) false [cookie] [] 0).
  set (wd := mkWorld (mkVerified kStopped 0 [r'] info false v) [] (LoadReturned ZX_OK m) true [cookie] [] 1).
  exists (mkWorld (mkVerified kStopped 0 [r'] info false v') [] (LoadPrepared ZX_OK) true [cookie] [] 1).
  split; [|by split_and!].
  refine (reach_step info root wd _ (reach_step info root wc _ (reach_step info root wb _
    (reach_step info root wa _ (reach_start _ _ _ _) _) _) _) _).
  - exists 0, m, d0. eexists. split; reflexivity.
  - apply (step_queue wa cookie r (dev wb) []); [done|done|]. unfold BlockImplQueue. simpl.
    unfold data_start_offset in E. by rewrite E.
  - exact (step_load_returned wb ZX_OK m eq_refl).
  - exact (step_unbind wc (dev wd) [UnbindReply] eq_refl eq_refl).
  - exact (step_loaded wd ZX_OK m (mkVerified kStopped 0 [r'] info false v') eq_refl eq_refl).
Qed.

(** The bytes verified are not always the bytes read. [offset_vmo] counts blocks, but the check reads
    the VMO at byte [offset_vmo]: for every sealed partition there is a read of its first block to block
    1 of a VMO that completes with ZX_OK while that block of the VMO is not the block that was sealed. *)
Theorem vmo_offset_unverified u total info cookie d0 r0 s :
  partition u total (geometry info) (info_hw_blocks info) ->
  seal (seal_length (geometry info)) (geometry info) (info_hw_blocks info) cookie d0 = Done r0 ->
  run_output r0 = Callback cookie ZX_OK (Some s) kHashOutputSize ->
  exists sb w mem r d',
    OnReadCompleted (geometry info) s ZX_OK (ZX_OK, vblock (run_disk r0) 0) = (ZX_OK, Some sb) /\
    reachable info (integrity_root_hash sb) w /\ r ∈ in_flight w /\
    rq_block (restore r) = mkBlockOp BLOCK_OP_READ 0 1 0 1 /\
    OnClientBlockRequestComplete (fun vmo off n => (ZX_OK, read_bytes (mem vmo) off n)) ZX_OK r (dev w) =
      Done (d', [Complete (restore r) ZX_OK]) /\
    read_bytes (mem 0) (1 * kBlockSize) kBlockSize <> vblock d0 (AbsoluteLocationForData (geometry info) 0).
Proof.
  intros Hp Hseal Hout. destruct (sealed_opens u total _ _ cookie d0 r0 s Hp Hseal Hout) as (sb & Hsb & Hver).
  pose proof (hw_range u total info Hp) as Hhw. destruct (data_section u total info Hp) as (padded & Hds & Hpad & Hsum & _).
  assert (0 <= 0 < data_block_count (allocation_ (geometry info))) as H0.
  { destruct (partition_shape u total _ _ Hp d0) as (D & [_ _ _ Hg] & _ & Hn & _). lia. }
  assert ((0 + (1 + padded)) * info_hw_blocks info <= 1048575 * 4096).
  { destruct Hp as [_ Hmax _ _]. unfold kMaxBlockCount in Hmax. apply Z.mul_le_mono_nonneg; lia. }
  destruct (read_in_flight u total info (integrity_root_hash sb) (loaded (geometry info) (run_disk r0)) 9
    (mkBlockOp BLOCK_OP_READ 0 1 0 1) Hp eq_refl) as (w & r & Hw & Hfl & Hb & He & Hs & Hv).
  { by split. }
  { unfold translatable. cbn [rw_length rw_offset_dev rw_offset_vmo]. rewrite Hds. split_and!; lia. }
  { simpl. lia. }
  set (at0 := AbsoluteLocationForData (geometry info) 0 * kBlockSize).
  set (mem := fun _ a : Z => if a <=? 4096 then d0 (at0 + (a - 1)) else if d0 (at0 + 1) =? 0 then 1 else 0).
  set (read := fun vmo off n => (ZX_OK, read_bytes (mem vmo) off n)).
  destruct (read_completes read r (dev w) Hs) as [d' Hd'].
  { rewrite Hb, He, Hv. cbn [rw_length rw_vmo rw_offset_dev rw_offset_vmo]. change (Z.to_nat 1) with 1%nat.
    cbn [verify_blocks read]. cbn [extra_vmo extra_offset_vmo extra_offset_dev]. rewrite decide_False by (by intros []).
    change (u64 (1 + u64 (0 * kBlockSize))) with 1. change (u64 (0 + 0)) with 0.
    replace (read_bytes (mem 0) 1 kBlockSize) with (vblock d0 (AbsoluteLocationForData (geometry info) 0)).
    - rewrite (Hver 0 H0). cbn [mbind exec_bind]. by rewrite decide_False by (by intros []).
    - unfold vblock, read_bytes. apply map_ext_in. intros k [_ Hk]%in_seq. unfold mem, at0.
      change (0 + Z.to_nat kBlockSize)%nat with 4096%nat in Hk. rewrite (proj2 (Z.leb_le _ _)) by lia. f_equal. lia. }
  exists sb, w, mem, r, d'. split_and!; [done|done|by rewrite Hfl; apply list_elem_of_singleton|done|exact Hd'|].
  intros E. assert (read_bytes (mem 0) (1 * kBlockSize) kBlockSize !! 1%nat =
    vblock d0 (AbsoluteLocationForData (geometry info) 0) !! 1%nat) as E1 by (by rewrite E).
  unfold vblock in E1. rewrite !read_bytes_lookup in E1 by (unfold kBlockSize; lia). change (Z.of_nat 1) with 1 in E1. injection E1 as E1.
  fold at0 in E1. unfold mem in E1. change (1 * kBlockSize + 1 <=? 4096) with false in E1. cbn iota in E1.
  destruct (Z.eqb_spec (d0 (at0 + 1)) 0) as [E0|E0]; congruence.
Qed.
End claims.

(** ** An instance *)

Module VerifiedDeviceExample.
Import RoundtripExample DeviceExample.
#[local] Existing Instances sum_digest sum_digest_ok.

Lemma info_partition : partition (mkShape 0 0) 5 (geometry example_info) (info_hw_blocks example_info).
Proof. exact example_partition. Qed.

(** A read of the two data blocks to the start of VMO 77. *)
Definition example_read : block_op_t := mkBlockOp BLOCK_OP_READ 77 2 0 0.

Lemma example_in_flight root m :
  exists w r, reachable example_info root w /\ in_flight w = [r] /\ rq_block (restore r) = example_read /\
    rq_extra r = mkExtra 77 2 0 0 9 /\ state_ (dev w) = kActive /\
    block_verifier_ (dev w) = mkVerifier (geometry example_info) kReady root m.
Proof.
  apply (read_in_flight (mkShape 0 0) 5 example_info root m 9 example_read info_partition eq_refl).
  - by split.
  - by unfold translatable.
  - by simpl.
Qed.

Lemma verified_device_runs_witness :
  exists w, reachable example_info [] w /\ in_flight w <> [] /\
    submitted w ≡ₚ (cookie_of <$> in_flight w) ++ (cookie_of <$> deferred_requests_ (dev w)) ++
                    ((fun c => cookie_of c.1) <$> completed w).
Proof.
  destruct (example_in_flight [] example_disk) as (w & r & Hw & Hfl & _).
  exists w. split; [exact Hw|]. split; [by rewrite Hfl|].
  exact (proj1 (verified_device_runs example_info [] w ltac:(simpl; lia) Hw)).
Defined.

Lemma verified_device_asserts_witness :
  exists w r, reachable example_info [] w /\ r ∈ in_flight w /\
    OnClientBlockRequestComplete (fun _ _ _ => (ZX_ERR_IO, [])) ZX_OK r (dev w) <> Panic /\
    DdkUnbind (dev w) <> Panic.
Proof.
  destruct (example_in_flight [] example_disk) as (w & r & Hw & Hfl & Hb & _ & Hs & _).
  exists w, r. split; [exact Hw|]. split; [by rewrite Hfl; apply list_elem_of_singleton|].
  destruct (verified_device_asserts (mkShape 0 0) 5 example_info [] w info_partition Hw) as (_ & Hu & Hc & _).
  split; [apply Hc; [by rewrite Hfl; apply list_elem_of_singleton|by rewrite Hb]|].
  apply Hu. destruct (verified_inv example_info [] ltac:(simpl; lia) w Hw) as [[_ _ _ _ _ _ Hph _ _ _ _] _ _].
  unfold phase_ok in Hph. rewrite Hs in Hph. exact (proj1 (proj2 Hph)).
Defined.

Lemma verified_reads_witness :
  exists w r d', in_flight w = [r] /\ rw_length (rq_block (restore r)) = 2 /\
    OnClientBlockRequestComplete (fun vmo off n => (ZX_OK, read_bytes (fun a => example_disk (12288 + a)) off n))
      ZX_OK r (dev w) = Done (d', [Complete (restore r) ZX_OK]) /\
    (read_bytes (fun a => example_disk (12288 + a)) (1 * kBlockSize) kBlockSize = vblock example_disk 4 \/
     exists buf r0, collision (buf :: read_bytes (fun a => example_disk (12288 + a)) (1 * kBlockSize) kBlockSize ::
       integrity_blocks example_geometry (bv_memory (block_verifier_ (dev w)))) (sealed_blocks example_geometry r0)).
Proof.
  destruct (seal_opens (mkShape 0 0) 5 example_geometry 8 7 example_disk example_partition) as (r0 & s & Hr0 & Ho & _).
  destruct (sealed_opens (mkShape 0 0) 5 example_geometry 8 7 example_disk r0 s example_partition Hr0 Ho) as (sb & Hsb & Hver).
  destruct (example_in_flight (integrity_root_hash sb) (loaded example_geometry (run_disk r0))) as (w & r & Hw & Hfl & Hb & He & Hs & Hv).
  set (mem := fun _ a : Z => example_disk (12288 + a)).
  assert (forall j, read_bytes (mem 77) (j * kBlockSize) kBlockSize = vblock example_disk (3 + j)) as Hm.
  { intros j. unfold vblock, read_bytes, mem. apply map_ext. intros k. f_equal. unfold kBlockSize. lia. }
  destruct (read_completes (fun vmo off n => (ZX_OK, read_bytes (mem vmo) off n)) r (dev w) Hs) as [d' Hd'].
  { rewrite Hb, He, Hv. change (Z.to_nat (rw_length example_read)) with 2%nat. cbn [verify_blocks].
    cbn [extra_vmo extra_offset_vmo extra_offset_dev]. rewrite decide_False by (by intros []).
    change (u64 (0 + u64 (0 * kBlockSize))) with (0 * kBlockSize). change (u64 (0 + u64 ((0 + 1) * kBlockSize))) with (1 * kBlockSize).
    rewrite !Hm. change (u64 (0 + 0)) with 0. change (u64 (0 + (0 + 1))) with 1.
    pose proof (Hver 0 ltac:(simpl; lia)) as H0. pose proof (Hver 1 ltac:(simpl; lia)) as H1.
    change (AbsoluteLocationForData example_geometry 0) with (3 + 0) in H0.
    change (AbsoluteLocationForData example_geometry 1) with (3 + 1) in H1.
    change (geometry example_info) with example_geometry. rewrite H0. cbn [mbind exec_bind].
    rewrite decide_False by (by intros []). rewrite decide_False by (by intros []). rewrite H1. cbn [mbind exec_bind].
    clear. reflexivity. }
  exists w, r, d'. split; [exact Hfl|]. split; [by rewrite Hb|]. split; [exact Hd'|].
  pose proof (verified_reads (mkShape 0 0) 5 example_info 7 example_disk r0 s _ _ _ sb w
    (fun vmo off n => (ZX_OK, read_bytes (mem vmo) off n)) mem ZX_OK r d' _
    info_partition Hr0 Ho Hsb Hw ltac:(rewrite Hfl; by apply list_elem_of_singleton)
    ltac:(intros vmo off n bytes E; cbn beta in E; congruence) Hd' ltac:(by apply list_elem_of_singleton)) as Hall.
  rewrite Hb in Hall. destruct (Hall eq_refl eq_refl 1 ltac:(simpl; lia)) as [E|E]; [left; exact E|right]. eexists _, r0. exact E.
Defined.

Lemma vmo_offset_unverified_witness :
  exists w r d' mem,
    OnClientBlockRequestComplete (fun vmo off n => (ZX_OK, read_bytes (mem vmo) off n)) ZX_OK r (dev w) =
      Done (d', [Complete (restore r) ZX_OK]) /\
    read_bytes (mem 0) (1 * kBlockSize) kBlockSize <> vblock example_disk 3.
Proof.
  destruct (seal_opens (mkShape 0 0) 5 example_geometry 8 7 example_disk example_partition) as (r0 & s & Hr0 & Ho & _).
  destruct (vmo_offset_unverified (mkShape 0 0) 5 example_info 7 example_disk r0 s info_partition Hr0 Ho)
    as (sb & w & mem & r & d' & _ & _ & _ & _ & Hd & Hne).
  exists w, r, d', mem. split; [exact Hd|exact Hne].
Defined.
End VerifiedDeviceExample.
