(* ===== verification/VerityManager.v ===== *)
(** * VerityManager: opening, sealing and closing a partition

    Model of [src/devices/block/drivers/block-verity/device-manager.cc], and of
    [SuperblockVerifier::StartVerifying] and [DriverSealer::StartSealing], which it calls: the state
    machine of the block-verity driver, its FIDL calls and their replies. Every handler holds [mtx_], so
    that each is one step. *)
From Stdlib Require Import ZArith Lia.
From stdpp Require Import prelude.
From S2P Require Import Prelude VerityGeometry VeritySealer VerityVerifier VerityRoundtrip VerityDevice VerityVerifiedDevice.

Local Open Scope Z_scope.

Inductive State :=
  | kBinding
  | kClosed
  | kAuthoring
  | kClosingForSeal
  | kSealing
  | kVerifiedReadCheck
  | kVerifiedRead
  | kClosing
  | kError
  | kUnbinding
  | kRemoved.

#[global] Instance State_eq_dec : EqDecision State.
Proof. solve_decision. Defined.

(** [SuperblockVerifier]: the device and the hash it expects. *)
Record SuperblockVerifier := mkSuperblockVerifier {
  sv_info : DeviceInfo;
  expected_superblock_hash_ : list Z
}.

(** A completer is the transaction it completes, a child its device. *)
Record DeviceManager := mkManager {
  state_ : State;
  mutable_child_ : option Z;
  verified_child_ : option Z;
  close_completer_ : option Z;
  sealer_ : option Sealer;
  seal_completer_ : option Z;
  superblock_verifier_ : option SuperblockVerifier;
  open_for_verified_read_completer_ : option Z
}.

Definition set_state (x : State) (m : DeviceManager) : DeviceManager :=
  mkManager x (mutable_child_ m) (verified_child_ m) (close_completer_ m) (sealer_ m) (seal_completer_ m)
    (superblock_verifier_ m) (open_for_verified_read_completer_ m).
Definition set_mutable_child (x : option Z) (m : DeviceManager) : DeviceManager :=
  mkManager (state_ m) x (verified_child_ m) (close_completer_ m) (sealer_ m) (seal_completer_ m)
    (superblock_verifier_ m) (open_for_verified_read_completer_ m).
Definition set_verified_child (x : option Z) (m : DeviceManager) : DeviceManager :=
  mkManager (state_ m) (mutable_child_ m) x (close_completer_ m) (sealer_ m) (seal_completer_ m)
    (superblock_verifier_ m) (open_for_verified_read_completer_ m).
Definition set_close_completer (x : option Z) (m : DeviceManager) : DeviceManager :=
  mkManager (state_ m) (mutable_child_ m) (verified_child_ m) x (sealer_ m) (seal_completer_ m)
    (superblock_verifier_ m) (open_for_verified_read_completer_ m).
Definition set_sealer (x : option Sealer) (m : DeviceManager) : DeviceManager :=
  mkManager (state_ m) (mutable_child_ m) (verified_child_ m) (close_completer_ m) x (seal_completer_ m)
    (superblock_verifier_ m) (open_for_verified_read_completer_ m).
Definition set_seal_completer (x : option Z) (m : DeviceManager) : DeviceManager :=
  mkManager (state_ m) (mutable_child_ m) (verified_child_ m) (close_completer_ m) (sealer_ m) x
    (superblock_verifier_ m) (open_for_verified_read_completer_ m).
Definition set_superblock_verifier (x : option SuperblockVerifier) (m : DeviceManager) : DeviceManager :=
  mkManager (state_ m) (mutable_child_ m) (verified_child_ m) (close_completer_ m) (sealer_ m) (seal_completer_ m)
    x (open_for_verified_read_completer_ m).
Definition set_open_completer (x : option Z) (m : DeviceManager) : DeviceManager :=
  mkManager (state_ m) (mutable_child_ m) (verified_child_ m) (close_completer_ m) (sealer_ m) (seal_completer_ m)
    (superblock_verifier_ m) x.

(** What a handler does: it replies to a transaction, with success (and a seal) or an error; adds or asks
    to remove a child; starts the sealer, whose first output is [out]; queues the read of the
    superblock; replies to the unbind transaction. *)
Inductive ManagerEffect :=
  | ReplySuccess (txn : Z)
  | ReplySeal (txn : Z) (seal : list Z)
  | ReplyError (txn : Z) (status : zx_status)
  | AddMutable (child : Z)
  | AddVerified (child : Z) (d : VerifiedDevice) (out : list Effect)
  | AsyncRemove (child : Z)
  | SealerStarted (out : Output)
  | ReadSuperblock (op : block_op_t)
  | UnbindTxnReply.

(** What the environment answers in a handler: the parent, whether memory can be allocated, the results
    of creating and mapping a VMO and of adding a device, the addresses of a new child and VMO, and the
    contents of memory that is not initialised. *)
Record Env := mkEnv {
  env_parent : Parent;
  env_uninitialised : IntegrityShape;
  env_alloc : bool;
  env_vmo_create : zx_status;
  env_vmo_map : zx_status;
  env_add : zx_status;
  env_child : Z;
  env_vmo : Z;
  env_memory : disk
}.

Section manager.
Context `{Digest}.

Definition new_manager : DeviceManager := mkManager kBinding None None None None None None None.

(** [*optional] of nothing is undefined. *)
Definition deref {A} (x : option A) : exec A := match x with Some a => Done a | None => Panic end.

Definition Bind (env : Env) (m : DeviceManager) : zx_status * DeviceManager :=
  if decide (env_add env <> ZX_OK) then (env_add env, set_state kRemoved m) else (ZX_OK, set_state kClosed m).

(** The unbind hook of the driver's device. *)
Definition ManagerUnbind (m : DeviceManager) : DeviceManager * list ManagerEffect :=
  (set_state kRemoved m, [UnbindTxnReply]).

(** [DriverSealer::StartSealing]; the cookie is the manager. *)
Definition DriverStartSealing (env : Env) (s : Sealer) : exec (zx_status * Sealer * Output) :=
  if decide (env_vmo_create env <> ZX_OK) then Done (env_vmo_create env, s, Nothing)
  else if decide (env_vmo_map env <> ZX_OK) then Done (env_vmo_map env, s, Nothing)
  else StartSealing 0 s.

Definition DdkChildPreRelease (env : Env) (child_ctx : Z) (m : DeviceManager)
    : exec (DeviceManager * list ManagerEffect) :=
  (match state_ m with
   | kAuthoring | kVerifiedRead =>
       Done (set_state kError (set_verified_child None (set_mutable_child None m)), [])
   | kClosing =>
       ASSERT bool_decide (is_Some (mutable_child_ m)) || bool_decide (is_Some (verified_child_ m)) ;;
       ASSERT match mutable_child_ m with Some c => child_ctx =? c | None => true end ;;
       ASSERT match verified_child_ m with Some c => child_ctx =? c | None => true end ;;
       txn ← deref (close_completer_ m);
       Done (set_state kClosed (set_close_completer None (set_verified_child None (set_mutable_child None m))),
             [ReplySuccess txn])
   | kClosingForSeal =>
       let m := set_mutable_child None (set_state kSealing m) in
       info ← CreateFromDevice (env_uninitialised env) (env_parent env);
       if negb (IsValid info) then
         txn ← deref (seal_completer_ m);
         Done (set_state kError (set_seal_completer None m), [ReplyError txn ZX_ERR_BAD_STATE])
       else
         '(result, s, out) ← DriverStartSealing env (new_sealer (geometry info) (info_hw_blocks info));
         let m := set_sealer (Some s) m in
         Done (if decide (result <> ZX_OK) then set_state kError m else m, [SealerStarted out])
   | kBinding | kClosed | kSealing | kVerifiedReadCheck | kError | kUnbinding | kRemoved => Done (m, [])
   end)%exec.

Definition OpenForWrite (env : Env) (txn : Z) (config : Config) (m : DeviceManager)
    : exec (DeviceManager * list ManagerEffect) :=
  if decide (state_ m <> kClosed) then Done (m, [ReplyError txn ZX_ERR_BAD_STATE])
  else
    rc ← CheckConfig config (parent_info (env_parent env));
    if decide (rc <> ZX_OK) then Done (m, [ReplyError txn rc])
    else
      info ← CreateFromDevice (env_uninitialised env) (env_parent env);
      if negb (IsValid info) then Done (m, [ReplyError txn ZX_ERR_BAD_STATE])
      else if negb (env_alloc env) then Done (m, [ReplyError txn ZX_ERR_NO_MEMORY])
      else if decide (env_add env <> ZX_OK) then Done (m, [ReplyError txn (env_add env)])
      else Done (set_state kAuthoring (set_mutable_child (Some (env_child env)) m),
                 [AddMutable (env_child env); ReplySuccess txn]).

Definition CloseAndGenerateSeal (txn : Z) (m : DeviceManager) : exec (DeviceManager * list ManagerEffect) :=
  if decide (state_ m <> kAuthoring) then Done (m, [ReplyError txn ZX_ERR_BAD_STATE])
  else
    child ← deref (mutable_child_ m);
    Done (set_seal_completer (Some txn) (set_state kClosingForSeal m), [AsyncRemove child]).

(** [OnSealCompleted]; copying from a null buffer is undefined. *)
Definition OnSealCompleted (status : zx_status) (seal_buf : option (list Z)) (seal_len : Z) (m : DeviceManager)
    : exec (DeviceManager * list ManagerEffect) :=
  (ASSERT bool_decide (state_ m = kSealing) ;;
   txn ← deref (seal_completer_ m);
   ASSERT seal_len =? 32 ;;
   reply ← (if decide (status = ZX_OK) then
              seal ← deref seal_buf; Done (ReplySeal txn (take 32 seal))
            else Done (ReplyError txn status));
   Done (set_seal_completer None (set_sealer None (set_state kClosed m)), [reply]))%exec.

Definition CompleteOpenForVerifiedRead (status : zx_status) (m : DeviceManager)
    : exec (DeviceManager * list ManagerEffect) :=
  txn ← deref (open_for_verified_read_completer_ m);
  let '(m, reply) := if decide (status <> ZX_OK) then (set_state kClosed m, ReplyError txn status)
                     else (set_state kVerifiedRead m, ReplySuccess txn) in
  Done (set_superblock_verifier None (set_open_completer None m), [reply]).

Definition OnSuperblockVerificationCompleted (env : Env) (status : zx_status) (superblock : option Superblock)
    (m : DeviceManager) : exec (DeviceManager * list ManagerEffect) :=
  (ASSERT bool_decide (state_ m = kVerifiedReadCheck) ;;
   ASSERT bool_decide (is_Some (open_for_verified_read_completer_ m)) ;;
   if decide (status <> ZX_OK) then CompleteOpenForVerifiedRead status m
   else
     info ← CreateFromDevice (env_uninitialised env) (env_parent env);
     if negb (IsValid info) then CompleteOpenForVerifiedRead ZX_ERR_BAD_STATE m
     else
       sb ← deref superblock;
       if negb (env_alloc env) then CompleteOpenForVerifiedRead ZX_ERR_NO_MEMORY m
       else
         let device := new_verified info (integrity_root_hash sb) (env_memory env) in
         '(rc, device, out) ←
           VerityVerifiedDevice.Init (env_vmo_create env) (env_vmo_map env) (env_vmo env) device;
         if decide (rc <> ZX_OK) then CompleteOpenForVerifiedRead rc m
         else if decide (env_add env <> ZX_OK) then CompleteOpenForVerifiedRead (env_add env) m
         else
           '(m, replies) ← CompleteOpenForVerifiedRead ZX_OK (set_verified_child (Some (env_child env)) m);
           Done (m, AddVerified (env_child env) device out :: replies))%exec.

(** [SuperblockVerifier::StartVerifying]: the status, and the read that is queued. *)
Definition StartVerifying (env : Env) (v : SuperblockVerifier) : zx_status * list ManagerEffect :=
  if decide (env_vmo_create env <> ZX_OK) then (env_vmo_create env, [])
  else (ZX_OK, [ReadSuperblock (mkBlockOp BLOCK_OP_READ (env_vmo env) (info_hw_blocks (sv_info v)) 0 0)]).

(** [OpenForVerifiedRead]; [seal] is the hash in the request. The status of [StartVerifying] is dropped. *)
Definition OpenForVerifiedRead (env : Env) (txn : Z) (config : Config) (seal : list Z) (m : DeviceManager)
    : exec (DeviceManager * list ManagerEffect) :=
  if decide (state_ m <> kClosed) then Done (m, [ReplyError txn ZX_ERR_BAD_STATE])
  else
    rc ← CheckConfig config (parent_info (env_parent env));
    if decide (rc <> ZX_OK) then Done (m, [ReplyError txn rc])
    else
      let m := set_open_completer (Some txn) m in
      info ← CreateFromDevice (env_uninitialised env) (env_parent env);
      let v := mkSuperblockVerifier info seal in
      let m := set_state kVerifiedReadCheck (set_superblock_verifier (Some v) m) in
      let '(_, out) := StartVerifying env v in
      Done (m, out).

Definition Close (txn : Z) (m : DeviceManager) : exec (DeviceManager * list ManagerEffect) :=
  if decide (state_ m <> kAuthoring /\ state_ m <> kVerifiedRead) then Done (m, [ReplyError txn ZX_ERR_BAD_STATE])
  else
    let m := set_state kClosing m in
    Done (set_close_completer (Some txn) m,
          match mutable_child_ m with Some c => [AsyncRemove c] | None => [] end ++
          match verified_child_ m with Some c => [AsyncRemove c] | None => [] end).
End manager.

(** ** Runs *)

(** The manager, the calls received and those answered, the children that are there, whether the sealer
    and the superblock verifier are at work, whether the driver has been unbound. *)
Record World := mkWorld {
  mgr : DeviceManager;
  calls : list Z;
  answered : list Z;
  children : list Z;
  sealing : bool;
  checking : bool;
  unbound : bool
}.

Definition emit (w : World) (e : ManagerEffect) : World :=
  match e with
  | ReplySuccess txn | ReplySeal txn _ | ReplyError txn _ =>
      mkWorld (mgr w) (calls w) (answered w ++ [txn]) (children w) (sealing w) (checking w) (unbound w)
  | AddMutable c | AddVerified c _ _ =>
      mkWorld (mgr w) (calls w) (answered w) (children w ++ [c]) (sealing w) (checking w) (unbound w)
  | SealerStarted (Queue _ _) =>
      mkWorld (mgr w) (calls w) (answered w) (children w) true (checking w) (unbound w)
  | ReadSuperblock _ =>
      mkWorld (mgr w) (calls w) (answered w) (children w) (sealing w) true (unbound w)
  | AsyncRemove _ | SealerStarted _ | UnbindTxnReply => w
  end.

Definition emits (out : list ManagerEffect) (w : World) : World := fold_left emit out w.

Section runs.
Context `{Digest}.

Inductive FidlCall :=
  | CallOpenForWrite (config : Config)
  | CallCloseAndGenerateSeal
  | CallOpenForVerifiedRead (config : Config) (seal : list Z)
  | CallClose.

(** The FIDL calls. *)
Definition call (env : Env) (txn : Z) (c : FidlCall) (m : DeviceManager) : exec (DeviceManager * list ManagerEffect) :=
  match c with
  | CallOpenForWrite config => OpenForWrite env txn config m
  | CallCloseAndGenerateSeal => CloseAndGenerateSeal txn m
  | CallOpenForVerifiedRead config seal => OpenForVerifiedRead env txn config seal m
  | CallClose => Close txn m
  end.

(** A call arrives; a child goes, asked or not; the sealer or the superblock verifier is done; the
    driver is unbound. *)
Inductive step (w : World) : World -> Prop :=
  | step_call env txn c m out :
      call env txn c (mgr w) = Done (m, out) ->
      step w (emits out (mkWorld m (calls w ++ [txn]) (answered w) (children w) (sealing w) (checking w) (unbound w)))
  | step_child env pre c post m out :
      children w = pre ++ c :: post -> DdkChildPreRelease env c (mgr w) = Done (m, out) ->
      step w (emits out (mkWorld m (calls w) (answered w) (pre ++ post) (sealing w) (checking w) (unbound w)))
  | step_sealed status buf len m out :
      sealing w = true -> OnSealCompleted status buf len (mgr w) = Done (m, out) ->
      step w (emits out (mkWorld m (calls w) (answered w) (children w) false (checking w) (unbound w)))
  | step_checked env status sb m out :
      checking w = true -> OnSuperblockVerificationCompleted env status sb (mgr w) = Done (m, out) ->
      step w (emits out (mkWorld m (calls w) (answered w) (children w) (sealing w) false (unbound w)))
  | step_unbind m out :
      ManagerUnbind (mgr w) = (m, out) ->
      step w (emits out (mkWorld m (calls w) (answered w) (children w) (sealing w) (checking w) true)).

Inductive reachable : World -> Prop :=
  | reach_bound env m : Bind env new_manager = (ZX_OK, m) -> reachable (mkWorld m [] [] [] false false false)
  | reach_step w w' : reachable w -> step w w' -> reachable w'.

(** The transactions that are kept. *)
Definition held (m : DeviceManager) : list Z :=
  option_list (close_completer_ m) ++ option_list (seal_completer_ m) ++
  option_list (open_for_verified_read_completer_ m).

(** What each state means, until the driver is unbound. *)
Definition members (w : World) : Prop :=
  let m := mgr w in
  let idle := sealing w = false /\ checking w = false /\ superblock_verifier_ m = None in
  match state_ m with
  | kClosed =>
      idle /\ sealer_ m = None /\ held m = [] /\ mutable_child_ m = None /\ verified_child_ m = None /\ children w = []
  | kAuthoring =>
      idle /\ sealer_ m = None /\ held m = [] /\ verified_child_ m = None /\
      exists c, mutable_child_ m = Some c /\ children w = [c]
  | kVerifiedRead =>
      idle /\ sealer_ m = None /\ held m = [] /\ mutable_child_ m = None /\
      exists c, verified_child_ m = Some c /\ children w = [c]
  | kClosing =>
      idle /\ sealer_ m = None /\ seal_completer_ m = None /\ open_for_verified_read_completer_ m = None /\
      is_Some (close_completer_ m) /\
      exists c, children w = [c] /\
        (mutable_child_ m = Some c /\ verified_child_ m = None \/ mutable_child_ m = None /\ verified_child_ m = Some c)
  | kClosingForSeal =>
      idle /\ sealer_ m = None /\ close_completer_ m = None /\ open_for_verified_read_completer_ m = None /\
      is_Some (seal_completer_ m) /\ verified_child_ m = None /\
      exists c, mutable_child_ m = Some c /\ children w = [c]
  | kSealing =>
      sealing w = true /\ checking w = false /\ superblock_verifier_ m = None /\ is_Some (sealer_ m) /\
      close_completer_ m = None /\ open_for_verified_read_completer_ m = None /\
      is_Some (seal_completer_ m) /\ mutable_child_ m = None /\ verified_child_ m = None /\ children w = []
  | kVerifiedReadCheck =>
      sealing w = false /\ is_Some (superblock_verifier_ m) /\ sealer_ m = None /\
      close_completer_ m = None /\ seal_completer_ m = None /\ is_Some (open_for_verified_read_completer_ m) /\
      mutable_child_ m = None /\ verified_child_ m = None /\ children w = []
  | kError =>
      idle /\ close_completer_ m = None /\ open_for_verified_read_completer_ m = None /\
      (seal_completer_ m = None <-> sealer_ m = None) /\
      mutable_child_ m = None /\ verified_child_ m = None /\ children w = []
  | kBinding | kUnbinding | kRemoved => False
  end.

Record inv (w : World) : Prop := {
  in_calls : calls w ≡ₚ answered w ++ held (mgr w);
  in_members : if unbound w then state_ (mgr w) = kRemoved else members w
}.

(** ** The invariant *)

Lemma reply_keeps w txn :
  inv w ->
  inv (mkWorld (mgr w) (calls w ++ [txn]) (answered w ++ [txn]) (children w) (sealing w) (checking w) (unbound w)).
Proof.
  intros [Hc Hm]. split; [|exact Hm]. simpl. rewrite Hc, <- !app_assoc. apply Permutation_app_head, Permutation_app_comm.
Qed.

(** A state other than [kRemoved] says that the driver is not unbound. *)
Lemma in_state w st : inv w -> state_ (mgr w) = st -> st <> kRemoved -> unbound w = false /\ members w.
Proof. intros [_ Hm] Hs Hne. destruct (unbound w); [congruence|done]. Qed.

(** Starting a new sealer queues its first operation. *)
Lemma start_queues cookie g hw :
  exists s op c, StartSealing cookie (new_sealer g hw) = Done (ZX_OK, s, Queue op c).
Proof.
  assert (forall l, Forall (fun a => IsEmpty a = true) l -> list_find (fun a => IsEmpty a = false) l = None) as Hnone.
  { intros l Hl. apply list_find_None. eapply Forall_impl; [exact Hl|]. simpl. congruence. }
  unfold StartSealing. rewrite decide_True by done. unfold kFuel.
  set (s := VeritySealer.set_state ReadLoop _). cbn [ScheduleNextWorkUnit]. change (VeritySealer.state_ s) with ReadLoop. cbn iota.
  destruct (data_block_index_ s <? _).
  - by do 3 eexists.
  - unfold first_unflushed. cbn [VeritySealer.set_state hash_block_accumulators_ s]. rewrite Hnone.
    + by do 3 eexists.
    + unfold set_callback, new_sealer. cbn [hash_block_accumulators_]. by apply Forall_replicate.
Qed.

Lemma held_nil m :
  held m = [] <-> close_completer_ m = None /\ seal_completer_ m = None /\ open_for_verified_read_completer_ m = None.
Proof.
  unfold held. destruct (close_completer_ m), (seal_completer_ m), (open_for_verified_read_completer_ m); simpl;
    split; try done; by intros (? & ? & ?).
Qed.

(** The world in which the manager is [m] and has received the call [txn]. *)
Definition received (txn : Z) (m : DeviceManager) (w : World) : World :=
  mkWorld m (calls w ++ [txn]) (answered w) (children w) (sealing w) (checking w) (unbound w).

Lemma open_for_write_inv env txn config w m out :
  inv w -> OpenForWrite env txn config (mgr w) = Done (m, out) -> inv (emits out (received txn m w)).
Proof.
  intros Hw Hc. pose proof (reply_keeps w txn Hw) as Hreply. unfold OpenForWrite in Hc.
  destruct (decide (state_ (mgr w) <> kClosed)) as [|Hs]; [by simplify_eq|]. apply dec_stable in Hs.
  apply exec_bind_Done in Hc as (rc & _ & Hc). destruct (decide (rc <> ZX_OK)); [by simplify_eq|].
  apply exec_bind_Done in Hc as (info & _ & Hc). destruct (negb _); [by simplify_eq|].
  destruct (negb _); [by simplify_eq|]. destruct (decide _); [by simplify_eq|]. simplify_eq. clear Hreply.
  destruct (in_state w _ Hw Hs ltac:(done)) as [Hu Hm]. destruct Hw as [Hcalls _].
  unfold members in Hm. rewrite Hs, held_nil in Hm. destruct Hm as ((Hi1 & Hi2 & Hi3) & Hse & (H1 & H2 & H3) & Hmc & Hvc & Hch).
  unfold held in Hcalls. rewrite H1, H2, H3, app_nil_r in Hcalls.
  split; simpl; [unfold held; simpl; by rewrite Hcalls, H1, H2, H3, app_nil_r|].
  rewrite Hu, Hch. unfold members. simpl. rewrite held_nil. split_and!; try done. by eexists.
Qed.

Lemma close_and_seal_inv txn w m out :
  inv w -> CloseAndGenerateSeal txn (mgr w) = Done (m, out) -> inv (emits out (received txn m w)).
Proof.
  intros Hw Hc. pose proof (reply_keeps w txn Hw) as Hreply. unfold CloseAndGenerateSeal in Hc.
  destruct (decide (state_ (mgr w) <> kAuthoring)) as [|Hs]; [by simplify_eq|]. apply dec_stable in Hs.
  apply exec_bind_Done in Hc as (child & Hch & Hc). simplify_eq. clear Hreply.
  destruct (in_state w _ Hw Hs ltac:(done)) as [Hu Hm]. destruct Hw as [Hcalls _].
  unfold members in Hm. rewrite Hs, held_nil in Hm. destruct Hm as ((Hi1 & Hi2 & Hi3) & Hse & (H1 & H2 & H3) & Hvc & Hex).
  unfold held in Hcalls. rewrite H1, H2, H3, app_nil_r in Hcalls.
  split; simpl; [unfold held; simpl; by rewrite Hcalls, H1, H3|].
  rewrite Hu. unfold members. simpl. by split_and!.
Qed.

Lemma open_for_read_inv env txn config seal w m out :
  inv w -> OpenForVerifiedRead env txn config seal (mgr w) = Done (m, out) -> inv (emits out (received txn m w)).
Proof.
  intros Hw Hc. pose proof (reply_keeps w txn Hw) as Hreply. unfold OpenForVerifiedRead in Hc.
  destruct (decide (state_ (mgr w) <> kClosed)) as [|Hs]; [by simplify_eq|]. apply dec_stable in Hs.
  apply exec_bind_Done in Hc as (rc & _ & Hc). destruct (decide (rc <> ZX_OK)); [by simplify_eq|].
  apply exec_bind_Done in Hc as (info & _ & Hc). clear Hreply.
  destruct (in_state w _ Hw Hs ltac:(done)) as [Hu Hm]. destruct Hw as [Hcalls _].
  unfold members in Hm. rewrite Hs, held_nil in Hm.
  destruct Hm as ((Hi1 & Hi2 & Hi3) & Hse & (H1 & H2 & H3) & Hmc & Hvc & Hch).
  unfold held in Hcalls. rewrite H1, H2, H3, app_nil_r in Hcalls. unfold StartVerifying in Hc.
  destruct (decide (env_vmo_create env <> ZX_OK)); simplify_eq; (split; simpl;
    [unfold held; simpl; by rewrite Hcalls, H1, H2|rewrite Hu; unfold members; simpl; by split_and!]).
Qed.

Lemma close_inv txn w m out :
  inv w -> Close txn (mgr w) = Done (m, out) -> inv (emits out (received txn m w)).
Proof.
  intros Hw Hc. pose proof (reply_keeps w txn Hw) as Hreply. unfold Close in Hc.
  destruct (decide _) as [|Hs]; [by simplify_eq|]. simplify_eq. clear Hreply.
  assert (exists child, unbound w = false /\ children w = [child] /\ held (mgr w) = [] /\ sealer_ (mgr w) = None /\
    (sealing w = false /\ checking w = false /\ superblock_verifier_ (mgr w) = None) /\
    (mutable_child_ (mgr w) = Some child /\ verified_child_ (mgr w) = None \/
     mutable_child_ (mgr w) = None /\ verified_child_ (mgr w) = Some child)) as (child & Hu & Hch & Hh & Hse & (Hi1 & Hi2 & Hi3) & Hcase).
  { destruct (decide (state_ (mgr w) = kAuthoring)) as [Ea|Ea].
    - destruct (in_state w _ Hw Ea ltac:(done)) as [Hu Hm]. unfold members in Hm. rewrite Ea in Hm.
      destruct Hm as ((Hi1 & Hi2 & Hi3) & Hse & Hh & Hvc & child & Hmc & Hch). exists child. split_and!; try done. by left.
    - assert (state_ (mgr w) = kVerifiedRead) as Ev by (apply dec_stable; intros ?; by apply Hs).
      destruct (in_state w _ Hw Ev ltac:(done)) as [Hu Hm]. unfold members in Hm. rewrite Ev in Hm.
      destruct Hm as ((Hi1 & Hi2 & Hi3) & Hse & Hh & Hmc & child & Hvc & Hch). exists child. split_and!; try done. by right. }
  destruct Hw as [Hcalls _]. rewrite Hh, app_nil_r in Hcalls. apply held_nil in Hh as (H1 & H2 & H3).
  destruct Hcase as [[Hmc Hvc]|[Hmc Hvc]]; rewrite Hmc, Hvc; simpl; (split; simpl;
    [unfold held; simpl; by rewrite Hcalls, H2, H3|rewrite Hu; unfold members; simpl; split_and!; try done; exists child; by auto]).
Qed.

Lemma call_inv env txn c w m out :
  inv w -> call env txn c (mgr w) = Done (m, out) -> inv (emits out (received txn m w)).
Proof.
  destruct c; simpl; [apply open_for_write_inv|apply close_and_seal_inv|apply open_for_read_inv|apply close_inv].
Qed.

(** The world in which the manager is [m] and the children are [cs]. *)
Definition released (cs : list Z) (m : DeviceManager) (w : World) : World :=
  mkWorld m (calls w) (answered w) cs (sealing w) (checking w) (unbound w).

(** The child of a closing manager goes. *)
Lemma close_done_inv env c w m out :
  inv w -> state_ (mgr w) = kClosing -> children w = [c] ->
  DdkChildPreRelease env c (mgr w) = Done (m, out) -> inv (emits out (released [] m w)).
Proof.
  intros Hw Hs Hch Hd. destruct (in_state w _ Hw Hs ltac:(done)) as [Hu Hm]. destruct Hw as [Hcalls _].
  unfold members in Hm. rewrite Hs in Hm.
  destruct Hm as ((Hi1 & Hi2 & Hi3) & Hse & H2 & H3 & [txn Htxn] & c' & Hch' & Hcase).
  unfold held in Hcalls. rewrite Htxn, H2, H3 in Hcalls. simpl in Hcalls.
  unfold DdkChildPreRelease in Hd. rewrite Hs, Htxn in Hd.
  apply exec_bind_Done in Hd as (? & _ & Hd). apply exec_bind_Done in Hd as (? & _ & Hd).
  apply exec_bind_Done in Hd as (? & _ & Hd). simpl in Hd. injection Hd as <- <-.
  split; simpl; [unfold held; simpl; by rewrite Hcalls, H2, H3, app_nil_r|].
  rewrite Hu. unfold members. simpl. rewrite held_nil. by split_and!.
Qed.

(** The mutable child goes, and sealing begins. *)
Lemma sealing_begins_inv env c w m out :
  inv w -> state_ (mgr w) = kClosingForSeal -> children w = [c] ->
  DdkChildPreRelease env c (mgr w) = Done (m, out) -> inv (emits out (released [] m w)).
Proof.
  intros Hw Hs Hch Hd. destruct (in_state w _ Hw Hs ltac:(done)) as [Hu Hm]. destruct Hw as [Hcalls _].
  unfold members in Hm. rewrite Hs in Hm.
  destruct Hm as ((Hi1 & Hi2 & Hi3) & Hse & H1 & H3 & [txn Htxn] & Hvc & c' & Hmc & _).
  unfold held in Hcalls. rewrite H1, Htxn, H3 in Hcalls. simpl in Hcalls.
  unfold DdkChildPreRelease in Hd. rewrite Hs in Hd.
  apply exec_bind_Done in Hd as (info & _ & Hd). destruct (negb (IsValid info)).
  { simpl in Hd. rewrite Htxn in Hd. simpl in Hd. injection Hd as <- <-.
    split; simpl; [unfold held; simpl; by rewrite Hcalls, H1, H3, app_nil_r|].
    rewrite Hu. unfold members. simpl. by split_and!. }
  assert (calls w ≡ₚ answered w ++ option_list (close_completer_ (mgr w)) ++ option_list (seal_completer_ (mgr w)) ++
    option_list (open_for_verified_read_completer_ (mgr w))) as Hcalls' by (by rewrite H1, Htxn, H3).
  unfold DriverStartSealing in Hd.
  destruct (decide (env_vmo_create env <> ZX_OK)) as [Hne|_].
  { simpl in Hd. rewrite decide_True in Hd by done. injection Hd as <- <-. split; simpl; [exact Hcalls'|].
    rewrite Hu. unfold members. simpl. rewrite Htxn. by split_and!. }
  destruct (decide (env_vmo_map env <> ZX_OK)) as [Hne|_].
  { simpl in Hd. rewrite decide_True in Hd by done. injection Hd as <- <-. split; simpl; [exact Hcalls'|].
    rewrite Hu. unfold members. simpl. rewrite Htxn. by split_and!. }
  destruct (start_queues 0 (geometry info) (info_hw_blocks info)) as (s & op & cb & Hst).
  rewrite Hst in Hd. cbn [mbind exec_bind] in Hd. rewrite decide_False in Hd by (by intros []). injection Hd as <- <-.
  split; simpl; [exact Hcalls'|]. rewrite Hu. unfold members. simpl. rewrite Htxn. by split_and!.
Qed.

Lemma child_inv env pre c post w m out :
  inv w -> children w = pre ++ c :: post -> DdkChildPreRelease env c (mgr w) = Done (m, out) ->
  inv (emits out (released (pre ++ post) m w)).
Proof.
  intros Hw Hch Hd. destruct (unbound w) eqn:Hu.
  { destruct Hw as [Hcalls Hm]. rewrite Hu in Hm. unfold DdkChildPreRelease in Hd. rewrite Hm in Hd. injection Hd as <- <-.
    split; [exact Hcalls|]. simpl. by rewrite Hu. }
  assert (members w) as Hm by (destruct Hw as [_ Hm]; by rewrite Hu in Hm).
  assert (forall c', children w = [c'] -> pre = [] /\ post = [] /\ children w = [c]) as Hone.
  { intros c' E. rewrite Hch in E |- *. destruct pre as [|? [|]]; [|done|done]. injection E as -> ->. done. }
  unfold members in Hm. destruct (state_ (mgr w)) eqn:Hs; try done.
  - by destruct Hm as (_ & _ & _ & _ & _ & Hnil); rewrite Hch in Hnil; destruct pre.
  - destruct Hm as ((Hi1 & Hi2 & Hi3) & Hse & Hh & Hvc & c' & Hmc & Hc'). destruct (Hone c' Hc') as (-> & -> & _).
    unfold DdkChildPreRelease in Hd. rewrite Hs in Hd. injection Hd as <- <-. destruct Hw as [Hcalls _]. split; [exact Hcalls|].
    apply held_nil in Hh as (H1 & H2 & H3). simpl. rewrite Hu. unfold members. simpl. rewrite H2, Hse. by split_and!.
  - destruct Hm as (_ & _ & _ & _ & _ & _ & c' & _ & Hc'). destruct (Hone c' Hc') as (-> & -> & Hc).
    exact (sealing_begins_inv env c w m out Hw Hs Hc Hd).
  - by destruct Hm as (_ & _ & _ & _ & _ & _ & _ & _ & _ & Hnil); rewrite Hch in Hnil; destruct pre.
  - by destruct Hm as (_ & _ & _ & _ & _ & _ & _ & _ & Hnil); rewrite Hch in Hnil; destruct pre.
  - destruct Hm as ((Hi1 & Hi2 & Hi3) & Hse & Hh & Hmc & c' & Hvc & Hc'). destruct (Hone c' Hc') as (-> & -> & _).
    unfold DdkChildPreRelease in Hd. rewrite Hs in Hd. injection Hd as <- <-. destruct Hw as [Hcalls _]. split; [exact Hcalls|].
    apply held_nil in Hh as (H1 & H2 & H3). simpl. rewrite Hu. unfold members. simpl. rewrite H2, Hse. by split_and!.
  - destruct Hm as (_ & _ & _ & _ & _ & c' & Hc' & _). destruct (Hone c' Hc') as (-> & -> & Hc).
    exact (close_done_inv env c w m out Hw Hs Hc Hd).
  - by destruct Hm as (_ & _ & _ & _ & _ & _ & Hnil); rewrite Hch in Hnil; destruct pre.
Qed.

Lemma sealed_inv status buf len w m out :
  inv w -> OnSealCompleted status buf len (mgr w) = Done (m, out) ->
  inv (emits out (mkWorld m (calls w) (answered w) (children w) false (checking w) (unbound w))).
Proof.
  intros Hw Hd. unfold OnSealCompleted in Hd. apply exec_bind_Done in Hd as (? & Hs & Hd).
  apply zx_assert_Done, bool_decide_eq_true in Hs. destruct (in_state w _ Hw Hs ltac:(done)) as [Hu Hm].
  destruct Hw as [Hcalls _]. unfold members in Hm. rewrite Hs in Hm.
  destruct Hm as (Hse & Hck & Hsv & _ & H1 & H3 & [txn Htxn] & Hmc & Hvc & Hch).
  unfold held in Hcalls. rewrite H1, Htxn, H3 in Hcalls. simpl in Hcalls. rewrite Htxn in Hd. simpl deref in Hd.
  cbn [mbind exec_bind] in Hd. apply exec_bind_Done in Hd as (? & _ & Hd). apply exec_bind_Done in Hd as (reply & Hr & Hd).
  injection Hd as <- <-.
  assert (forall w, emit w reply =
    mkWorld (mgr w) (calls w) (answered w ++ [txn]) (children w) (sealing w) (checking w) (unbound w)) as He.
  { destruct (decide (status = ZX_OK)); [|by injection Hr as <-].
    apply exec_bind_Done in Hr as (seal & _ & Hr). by injection Hr as <-. }
  simpl. rewrite He. split; simpl; [unfold held; simpl; by rewrite Hcalls, H1, H3, app_nil_r|].
  rewrite Hu. unfold members. simpl. rewrite held_nil. by split_and!.
Qed.

Lemma open_done_inv status w m out vc :
  calls w ≡ₚ answered w ++ held (mgr w) -> unbound w = false -> members w ->
  state_ (mgr w) = kVerifiedReadCheck ->
  (if decide (status = ZX_OK) then exists c, vc = Some c else vc = None) ->
  CompleteOpenForVerifiedRead status (set_verified_child vc (mgr w)) = Done (m, out) ->
  inv (emits out (mkWorld m (calls w) (answered w) (option_list vc) (sealing w) false (unbound w))).
Proof.
  intros Hcalls Hu Hm Hs Hvc Hd. unfold members in Hm. rewrite Hs in Hm.
  destruct Hm as (Hse & _ & Hsl & H1 & H2 & [txn Htxn] & Hmc & _ & Hch).
  unfold held in Hcalls. rewrite H1, H2, Htxn in Hcalls. simpl in Hcalls.
  unfold CompleteOpenForVerifiedRead in Hd. simpl open_for_verified_read_completer_ in Hd. rewrite Htxn in Hd.
  cbn [deref mbind exec_bind] in Hd. destruct (decide (status = ZX_OK)) as [->|Hne].
  - destruct Hvc as [c ->]. rewrite decide_False in Hd by (by intros []). injection Hd as <- <-.
    split; simpl; [unfold held; simpl; by rewrite Hcalls, H1, H2, app_nil_r|].
    rewrite Hu. unfold members. simpl. rewrite held_nil. split_and!; try done. by eexists.
  - subst vc. rewrite decide_True in Hd by done. injection Hd as <- <-.
    split; simpl; [unfold held; simpl; by rewrite Hcalls, H1, H2, app_nil_r|].
    rewrite Hu. unfold members. simpl. rewrite held_nil. by split_and!.
Qed.

Lemma checked_inv env status sb w m out :
  inv w -> OnSuperblockVerificationCompleted env status sb (mgr w) = Done (m, out) ->
  inv (emits out (mkWorld m (calls w) (answered w) (children w) (sealing w) false (unbound w))).
Proof.
  intros Hw Hd. unfold OnSuperblockVerificationCompleted in Hd. apply exec_bind_Done in Hd as (? & Hs & Hd).
  apply zx_assert_Done, bool_decide_eq_true in Hs. destruct (in_state w _ Hw Hs ltac:(done)) as [Hu Hm].
  destruct Hw as [Hcalls _]. apply exec_bind_Done in Hd as (? & _ & Hd).
  assert (children w = [] /\ verified_child_ (mgr w) = None) as [Hch Hvc].
  { unfold members in Hm. rewrite Hs in Hm. by destruct Hm as (_ & _ & _ & _ & _ & _ & _ & ? & ?). }
  assert (set_verified_child None (mgr w) = mgr w) as Hset by (rewrite <- Hvc; by destruct (mgr w)).
  assert (forall st, st <> ZX_OK -> CompleteOpenForVerifiedRead st (mgr w) = Done (m, out) ->
    inv (emits out (mkWorld m (calls w) (answered w) (children w) (sealing w) false (unbound w)))) as Hfail.
  { intros st Hne Hd'. rewrite Hch. apply (open_done_inv st w m out None Hcalls Hu Hm Hs); [by rewrite decide_False|].
    by rewrite Hset. }
  destruct (decide (status <> ZX_OK)) as [Hne|_]; [by apply (Hfail status)|].
  apply exec_bind_Done in Hd as (info & _ & Hd). destruct (negb _); [by apply (Hfail ZX_ERR_BAD_STATE)|].
  apply exec_bind_Done in Hd as (sb' & _ & Hd). destruct (negb _); [by apply (Hfail ZX_ERR_NO_MEMORY)|].
  apply exec_bind_Done in Hd as ([[rc d] o] & _ & Hd). destruct (decide (rc <> ZX_OK)) as [Hne|_]; [by apply (Hfail rc)|].
  destruct (decide (env_add env <> ZX_OK)) as [Hne|_]; [by apply (Hfail (env_add env))|].
  apply exec_bind_Done in Hd as ([m' replies] & Hco & Hd). injection Hd as <- <-. simpl. rewrite Hch.
  apply (open_done_inv ZX_OK w m' replies (Some (env_child env)) Hcalls Hu Hm Hs); [by eexists|exact Hco].
Qed.

Lemma manager_inv w : reachable w -> inv w.
Proof.
  induction 1 as [env m Hb|w w' Hw IH Hst].
  { unfold Bind in Hb. destruct (decide (env_add env <> ZX_OK)) as [Hne|]; [congruence|]. injection Hb as <-.
    split; [done|]. by unfold members. }
  destruct Hst as [env txn c m out Hc|env pre c post m out Hch Hd|status buf len m out Hse Hd|env status sb m out Hck Hd|m out Hd].
  - exact (call_inv env txn c w m out IH Hc).
  - exact (child_inv env pre c post w m out IH Hch Hd).
  - exact (sealed_inv status buf len w m out IH Hd).
  - exact (checked_inv env status sb w m out IH Hd).
  - injection Hd as <- <-. destruct IH as [Hcalls _]. split; [exact Hcalls|done].
Qed.

(** ** The claims *)

(** C23. Along every run of the driver every FIDL call is, once, either answered or kept in a completer;
    and until the driver is unbound its members are what its state says: there is at most one child and
    it is the one the manager refers to, the sealer and the superblock verifier are at work only in
    their states, and a completer is kept in [kClosing], [kClosingForSeal], [kSealing],
    [kVerifiedReadCheck], or after the sealer could not be started. *)
Theorem manager_runs w :
  reachable w ->
  calls w ≡ₚ answered w ++ held (mgr w) /\ (if unbound w then state_ (mgr w) = kRemoved else members w).
Proof. intros Hw. destruct (manager_inv w Hw). by split. Qed.

(** The end of sealing: the caller of CloseAndGenerateSeal gets the seal if the sealer succeeds.
    If any of its operations fails, the arguments with which the sealer then calls back make the driver
    abort; so does any end of sealing after the driver was unbound. *)
Theorem sealing_ends w :
  reachable w -> sealing w = true ->
  (unbound w = false -> forall seal,
     exists txn m, seal_completer_ (mgr w) = Some txn /\ state_ m = kClosed /\
       OnSealCompleted ZX_OK (Some seal) kHashOutputSize (mgr w) = Done (m, [ReplySeal txn (take 32 seal)])) /\
  (forall c status data s cookie,
     status <> ZX_OK -> callback_ s = Some cookie -> outstanding_block_requests_ s = 1 ->
     exists s', on_completed c status data s = Done (s', Callback cookie status None 0) /\
       OnSealCompleted status None 0 (mgr w) = Panic) /\
  (unbound w = true -> forall status buf len, OnSealCompleted status buf len (mgr w) = Panic).
Proof.
  intros Hw Hse. destruct (manager_inv w Hw) as [_ Hm]. split_and!.
  - intros Hu seal. rewrite Hu in Hm. unfold members in Hm.
    destruct (state_ (mgr w)) eqn:Hs; try done; try (by destruct Hm as ((Hf & _) & _); rewrite Hse in Hf).
    + destruct Hm as (_ & _ & _ & _ & _ & _ & [txn Htxn] & _). exists txn, (set_seal_completer None (set_sealer None (set_state kClosed (mgr w)))).
      unfold OnSealCompleted. rewrite Hs, Htxn. by split_and!.
    + destruct Hm as (Hf & _). by rewrite Hse in Hf.
  - intros c status data s cookie Hne Hcb Hone. unfold on_completed. rewrite Hone.
    assert (Fail status (VeritySealer.set_outstanding (1 - 1) s) =
      (set_callback None (VeritySealer.set_state Failed (VeritySealer.set_outstanding (1 - 1) s)), Callback cookie status None 0)) as Hf.
    { unfold Fail. simpl callback_. by rewrite Hcb. }
    eexists. split; [cbn [zx_assert exec_bind Z.eqb Z.sub Z.add Z.pos_sub Z.opp];
      destruct c; [unfold CompleteRead|unfold CompleteIntegrityWrite|unfold CompleteSuperblockWrite|unfold CompleteFlush];
      rewrite decide_False by done; by rewrite Hf|].
    unfold OnSealCompleted. destruct (bool_decide _); [|done]. by destruct (seal_completer_ (mgr w)).
  - intros Hu status buf len. rewrite Hu in Hm. unfold OnSealCompleted. by rewrite Hm.
Qed.

(** The superblock verifier cannot be started: the call is never answered, and every later call is
    refused. *)
Lemma verifier_not_started env txn config seal info m :
  state_ m = kClosed -> CheckConfig config (parent_info (env_parent env)) = Done ZX_OK ->
  CreateFromDevice (env_uninitialised env) (env_parent env) = Done info -> env_vmo_create env <> ZX_OK ->
  exists m', OpenForVerifiedRead env txn config seal m = Done (m', []) /\
    open_for_verified_read_completer_ m' = Some txn /\
    forall env' txn' c, call env' txn' c m' = Done (m', [ReplyError txn' ZX_ERR_BAD_STATE]).
Proof.
  intros Hs Hcfg Hinfo Hne. unfold OpenForVerifiedRead. rewrite decide_False by (by intros []).
  rewrite Hcfg. cbn [mbind exec_bind]. rewrite decide_False by (by intros []). rewrite Hinfo. cbn [mbind exec_bind].
  unfold StartVerifying. rewrite decide_True by done. eexists. split; [reflexivity|]. split; [done|].
  intros env' txn' [| | |]; simpl; [unfold OpenForWrite|unfold CloseAndGenerateSeal|unfold OpenForVerifiedRead|unfold Close];
    by rewrite decide_True by (by simpl).
Qed.
End runs.

Module ManagerExample.
Import RoundtripExample DeviceExample.
#[local] Existing Instances sum_digest sum_digest_ok.

Definition example_env : Env :=
  mkEnv (mkParent (mkBlockInfo 47 512) 100 true) (mkShape 0 0) true ZX_OK ZX_OK ZX_OK 1 77 (fun _ => 0).

(** Opened for writing by call 7, asked to seal by call 8. *)
Definition closing_for_seal : World :=
  mkWorld (mkManager kClosingForSeal (Some 1) None None None (Some 8) None None) [7; 8] [7] [1] false false false.

Lemma closing_reachable : reachable closing_for_seal.
Proof.
  set (m0 := mkManager kClosed None None None None None None None).
  set (m1 := mkManager kAuthoring (Some 1) None None None None None None).
  refine (reach_step (mkWorld m1 [7] [7] [1] false false false) _ _ _).
  { refine (reach_step (mkWorld m0 [] [] [] false false false) _ (reach_bound example_env m0 eq_refl) _).
    refine (step_call _ example_env 7 (CallOpenForWrite (mkConfig (Some kSha256) (Some kSize4096))) m1
      [AddMutable 1; ReplySuccess 7] _). vm_compute. reflexivity. }
  exact (step_call (mkWorld m1 [7] [7] [1] false false false) example_env 8 CallCloseAndGenerateSeal (mgr closing_for_seal) [AsyncRemove 1] eq_refl).
Qed.

Lemma sealing_reachable : exists w, reachable w /\ sealing w = true /\ unbound w = false /\ calls w = [7; 8].
Proof.
  destruct (start_queues 0 (geometry example_info) (info_hw_blocks example_info)) as (s & op & c & Hst).
  eexists. split.
  - refine (reach_step _ _ closing_reachable (step_child closing_for_seal example_env [] 1 [] (mkManager kSealing None None None (Some s) (Some 8) None None)
      [SealerStarted (Queue op c)] eq_refl _)).
    cbn [DdkChildPreRelease closing_for_seal mgr state_]. cbn [example_env env_uninitialised env_parent].
    rewrite example_created. cbn [mbind exec_bind]. cbn [IsValid info_valid example_info negb].
    unfold DriverStartSealing. rewrite !decide_False by (by intros []). fold example_info.
    change (mkDeviceInfo _ _ _ _ _) with example_info.
    rewrite Hst. reflexivity.
  - by split_and!.
Qed.

Lemma manager_runs_witness :
  reachable closing_for_seal /\ calls closing_for_seal ≡ₚ answered closing_for_seal ++ held (mgr closing_for_seal).
Proof. split; [exact closing_reachable|exact (proj1 (manager_runs closing_for_seal closing_reachable))]. Defined.

Lemma sealing_ends_witness :
  exists w, reachable w /\ sealing w = true /\ OnSealCompleted ZX_ERR_IO None 0 (mgr w) = Panic /\
    exists txn m, OnSealCompleted ZX_OK (Some (zeros 32)) kHashOutputSize (mgr w) =
      Done (m, [ReplySeal txn (take 32 (zeros 32))]).
Proof.
  destruct sealing_reachable as (w & Hw & Hs & Hu & _).
  destruct (sealing_ends w Hw Hs) as (Hok & Hfail & _).
  exists w. split; [exact Hw|]. split; [exact Hs|]. split.
  - destruct (Hfail FlushCompletedCallback ZX_ERR_IO [] (mkSealer example_geometry FinalFlush 0 0 [] [] [] (Some 0) 8 1) 0
      ltac:(done) eq_refl eq_refl) as (_ & _ & Hp). exact Hp.
  - destruct (Hok Hu (zeros 32)) as (txn & m & _ & _ & Hd). exists txn, m. exact Hd.
Defined.
End ManagerExample.
