(* ===== verification/DriverTask.v ===== *)
(** * DriverTask: the tasks of the driver manager

    Model of [Task] of [src/devices/bin/driver_manager/v1/task.cc]. A task waits for the tasks it depends on, is
    then run by the dispatcher, and completes with a status that its dependents are told. Tasks live in a
    store; they are run by one thread. No task of the driver manager overrides [DependencyFailed], and the
    completion callback of a task touches no other task, so that [Complete] lists the callbacks it makes, in
    order, as its effect. What a task does in [Run] is the matter of its class; here any sequence of calls
    on tasks is considered. *)
From Stdlib Require Import ZArith Lia.
From stdpp Require Import prelude gmap sorting.
From S2P Require Import Prelude.

(** ** Tasks *)

Record Task := mkTask {
  dependents_ : list nat;
  dependencies_ : list nat;
  status_ : option zx_status;
  total_dependencies_count_ : nat;
  finished_dependencies_count_ : nat
}.

(** The tasks by name, those that the dispatcher is to run, and the next free name. *)
Record Store := mkStore {
  tasks : gmap nat Task;
  posted : list nat;
  next_task : nat
}.

Definition Store_empty : Store := mkStore ∅ [] 0.

Definition set_dependents (l : list nat) (t : Task) : Task :=
  mkTask l (dependencies_ t) (status_ t) (total_dependencies_count_ t) (finished_dependencies_count_ t).
Definition set_dependencies (l : list nat) (t : Task) : Task :=
  mkTask (dependents_ t) l (status_ t) (total_dependencies_count_ t) (finished_dependencies_count_ t).
Definition set_task_status (s : zx_status) (t : Task) : Task :=
  mkTask (dependents_ t) (dependencies_ t) (Some s) (total_dependencies_count_ t) (finished_dependencies_count_ t).
Definition inc_total (t : Task) : Task :=
  mkTask (dependents_ t) (dependencies_ t) (status_ t) (S (total_dependencies_count_ t)) (finished_dependencies_count_ t).
Definition inc_finished (t : Task) : Task :=
  mkTask (dependents_ t) (dependencies_ t) (status_ t) (total_dependencies_count_ t) (S (finished_dependencies_count_ t)).

(** A name that is not in the store is a dangling pointer. *)
Definition get_task (st : Store) (x : nat) : exec Task := match tasks st !! x with Some t => Done t | None => Panic end.
Definition put_task (x : nat) (t : Task) (st : Store) : Store := mkStore (<[x := t]> (tasks st)) (posted st) (next_task st).
Definition update_task (f : Task -> Task) (x : nat) (st : Store) : exec Store :=
  t ← get_task st x; Done (put_task x (f t) st).

Definition is_completed (t : Task) : bool := match status_ t with Some _ => true | None => false end.
Definition status (t : Task) : zx_status := default ZX_ERR_UNAVAILABLE (status_ t).
Definition is_pending (st : Store) (x : nat) : bool := bool_decide (x ∈ posted st).

(** [async_task_.Post], which fails for a task that is posted already. *)
Definition Post (x : nat) (st : Store) : exec Store :=
  (ASSERT negb (is_pending st x) ;; Done (mkStore (tasks st) (posted st ++ [x]) (next_task st)))%exec.

(** The constructor. *)
Definition Task_new (post_on_create : bool) (st : Store) : exec (nat * Store) :=
  let x := next_task st in
  let st := mkStore (<[x := mkTask [] [] None 0 0]> (tasks st)) (posted st) (S x) in
  if post_on_create then (st ← Post x st; Done (x, st)) else Done (x, st).

(** The assertion of the destructor. *)
Definition Task_dtor (t : Task) : exec unit := zx_assert (bool_decide (dependents_ t = [])).

(** The dispatcher runs a posted task; the result says whether [Run] is called. *)
Definition ExecuteTask (x : nat) (st : Store) : exec (bool * Store) :=
  let st := mkStore (tasks st) (filter (fun y => y <> x) (posted st)) (next_task st) in
  t ← get_task st x;
  Done (negb (is_completed t || negb (finished_dependencies_count_ t =? total_dependencies_count_ t)%nat), st).

(** The first [dependency] taken out. *)
Fixpoint erase_first (dependency : nat) (l : list nat) : option (list nat) :=
  match l with
  | [] => None
  | d :: l => if (dependency =? d)%nat then Some l else cons d <$> erase_first dependency l
  end.

(** The completion callbacks that were called. *)
Definition Callbacks : Type := list (nat * zx_status).

(** [complete] is [Complete], which [DependencyFailed] calls. *)
Definition DependencyComplete (complete : nat -> zx_status -> Store -> exec (Store * Callbacks))
    (x dependency : nat) (s : zx_status) (st : Store) : exec (Store * Callbacks) :=
  st ← update_task inc_finished x st;
  t ← get_task st x;
  st ← (if negb (is_pending st x) && (finished_dependencies_count_ t =? total_dependencies_count_ t)%nat then Post x st else Done st);
  '(st, log) ← (if negb (bool_decide (s = ZX_OK)) && negb (is_completed t) then complete x s st else Done (st, []));
  t ← get_task st x;
  match erase_first dependency (dependencies_ t) with
  | Some l => Done (put_task x (set_dependencies l t) st, log)
  | None => if is_completed t then Done (st, log) else Panic
  end.

(** The loop over the dependents. *)
Fixpoint notify_all (complete : nat -> zx_status -> Store -> exec (Store * Callbacks))
    (dependents : list nat) (dependency : nat) (s : zx_status) (st : Store) : exec (Store * Callbacks) :=
  match dependents with
  | [] => Done (st, [])
  | x :: dependents =>
      '(st, log) ← DependencyComplete complete x dependency s st;
      '(st, log') ← notify_all complete dependents dependency s st;
      Done (st, log ++ log')
  end.

Fixpoint complete_fuel (fuel : nat) (x : nat) (s : zx_status) (st : Store) : exec (Store * Callbacks) :=
  match fuel with
  | O => Panic
  | S fuel =>
      t ← get_task st x;
      ASSERT negb (is_completed t) ;;
      let st := put_task x (set_task_status s t) st in
      '(st, log) ← notify_all (complete_fuel fuel) (dependents_ t) x s st;
      st ← update_task (set_dependents []) x st;
      st ← update_task (set_dependencies []) x st;
      Done (st, log ++ [(x, s)])
  end%exec.

(** The tasks that are not completed. *)
Definition incomplete (st : Store) : gmap nat Task := filter (fun p => status_ p.2 = None) (tasks st).

(** Each nested call completes one more task. *)
Definition Complete (x : nat) (s : zx_status) (st : Store) : exec (Store * Callbacks) :=
  complete_fuel (S (size (incomplete st))) x s st.

Definition RegisterDependent (this dependent : nat) (st : Store) : exec (Store * Callbacks) :=
  st ← update_task inc_total dependent st;
  t ← get_task st this;
  match status_ t with
  | Some s => DependencyComplete Complete dependent this s st
  | None => st ← update_task (fun t => set_dependents (dependents_ t ++ [dependent]) t) this st; Done (st, [])
  end.

Definition AddDependency (this dependency : nat) (st : Store) : exec (Store * Callbacks) :=
  (t ← get_task st dependency;
   ASSERT negb (is_completed t) ;;
   st ← update_task (fun t => set_dependencies (dependencies_ t ++ [dependency]) t) this st;
   RegisterDependent dependency this st)%exec.

(** ** Counting edges *)

(** How often [d] is in a list. *)
Abbreviation cnt := (count_occ Nat.eq_dec).

Definition edge_dec (e e' : nat * nat) : {e = e'} + {e <> e'} := decide (e = e').
Abbreviation cntp := (count_occ edge_dec).

(** How often the completion of [d] is still to be told to [x]. *)
Definition outstanding (st : Store) (d x : nat) : nat :=
  match tasks st !! d with Some t => if is_completed t then 0 else cnt (dependents_ t) x | None => 0 end.

Definition aimed_at (x : nat) (l : list (nat * nat)) : list (nat * nat) := filter (fun e => e.2 = x) l.

(** The lists of dependencies and dependents mirror each other, and the counters count them. [P] are completions
    (dependency, dependent) that the loops of [Complete] have yet to tell, [E] those that were told but not yet
    taken off the list of dependencies. *)
Record Consistent (P E : list (nat * nat)) (st : Store) : Prop := {
  co_deps x t d : tasks st !! x = Some t -> status_ t = None ->
    cnt (dependencies_ t) d = outstanding st d x + cntp P (d, x) + cntp E (d, x);
  co_count x t : tasks st !! x = Some t -> status_ t = None ->
    total_dependencies_count_ t + length (aimed_at x E) = finished_dependencies_count_ t + length (dependencies_ t);
  co_exists d x t : tasks st !! d = Some t -> x ∈ dependents_ t -> is_Some (tasks st !! x);
  co_told e : e ∈ P ++ E -> is_Some (tasks st !! e.2);
  co_posted x : x ∈ posted st -> is_Some (tasks st !! x);
  co_next x : is_Some (tasks st !! x) -> x < next_task st
}.

Lemma cnt_edges_app l1 l2 x : cnt (l1 ++ l2) x = cnt l1 x + cnt l2 x.
Proof. apply count_occ_app. Qed.

Lemma cnt_one d x : cnt [d] x = if decide (d = x) then 1 else 0.
Proof. simpl. destruct (Nat.eq_dec d x); case_decide; lia. Qed.

Lemma cntp_cons e l e' : cntp (e :: l) e' = (if decide (e = e') then 1 else 0) + cntp l e'.
Proof. simpl. unfold edge_dec. case_decide; lia. Qed.

(** Edges from one task. *)
Lemma cntp_map d l (y x : nat) : cntp (map (fun z => (d, z)) l) (y, x) = if decide (d = y) then cnt l x else 0.
Proof.
  induction l as [|z l IH]; [by simpl; case_decide|]. cbn [map]. rewrite cntp_cons, IH. cbn [count_occ].
  destruct (Nat.eq_dec z x); repeat case_decide; simplify_eq; lia.
Qed.

Lemma erase_first_cnt d l l' x : erase_first d l = Some l' -> cnt l x = cnt l' x + (if decide (d = x) then 1 else 0) /\ length l = S (length l').
Proof.
  revert l'. induction l as [|y l IH]; intros l'; [done|]. simpl. destruct (Nat.eqb_spec d y) as [->|Hne].
  - intros [= <-]. destruct (Nat.eq_dec y x); case_decide; split; lia.
  - destruct (erase_first d l) as [k|]; [|done]. intros [= <-]. destruct (IH k eq_refl) as [Hc Hl]. simpl. split; [|lia].
    destruct (Nat.eq_dec y x); lia.
Qed.

Lemma erase_first_None d l : erase_first d l = None -> cnt l d = 0.
Proof.
  induction l as [|y l IH]; [done|]. simpl. destruct (Nat.eqb_spec d y) as [->|Hne]; [done|]. destruct (erase_first d l); [done|].
  intros _. destruct (Nat.eq_dec y d); [lia|by apply IH].
Qed.

(** ** What a completion changes *)

(** The tasks that are waiting for a task. *)
Definition waits_for (st : Store) (x d : nat) : Prop := exists t, tasks st !! d = Some t /\ status_ t = None /\ x ∈ dependents_ t.

Definition open_task (st : Store) (x : nat) : Prop := exists t, tasks st !! x = Some t /\ status_ t = None.
Definition closed_task (st : Store) (x : nat) : Prop := exists t s, tasks st !! x = Some t /\ status_ t = Some s.
Definition newly (st st' : Store) (x : nat) : Prop := open_task st x /\ closed_task st' x.

(** A task after a completion with status [s]: as it was, or completed with [s]. *)
Definition kept (s : zx_status) (posted' : list nat) (x : nat) (t t' : Task) : Prop :=
  if is_completed t then status_ t' = status_ t /\ dependents_ t' = dependents_ t
  else
    (status_ t' = None /\ dependents_ t' = dependents_ t /\ total_dependencies_count_ t' = total_dependencies_count_ t /\
       (finished_dependencies_count_ t' = total_dependencies_count_ t' ->
        finished_dependencies_count_ t' = finished_dependencies_count_ t \/ x ∈ posted')) \/
    (status_ t' = Some s /\ dependents_ t' = []).

Record Evolves (s : zx_status) (st st' : Store) : Prop := {
  ev_kept x t : tasks st !! x = Some t -> exists t', tasks st' !! x = Some t' /\ kept s (posted st') x t t';
  ev_old x : is_Some (tasks st' !! x) -> is_Some (tasks st !! x);
  ev_posted x : x ∈ posted st -> x ∈ posted st';
  ev_next : next_task st' = next_task st
}.

Lemma evolves_refl s st : Evolves s st st.
Proof. constructor; try done. intros x t Hx. exists t. split; [done|]. unfold kept. destruct (is_completed t) eqn:E; [done|]. left. unfold is_completed in E. destruct (status_ t); [done|]. auto. Qed.

Lemma evolves_trans s st1 st2 st3 : Evolves s st1 st2 -> Evolves s st2 st3 -> Evolves s st1 st3.
Proof.
  intros [K1 O1 P1 N1] [K2 O2 P2 N2]. constructor; [|by auto|by auto|congruence].
  intros x t Hx. destruct (K1 x t Hx) as (t2 & H2 & Hk). destruct (K2 x t2 H2) as (t3 & H3 & Hk'). exists t3. split; [done|].
  unfold kept, is_completed in *. destruct (status_ t) eqn:E.
  - destruct Hk as [Es Ed]. rewrite Es in Hk'. destruct Hk' as [Es' Ed']. split; congruence.
  - destruct Hk as [(Es & Ed & Et & Hs)|(Es & Ed)]; rewrite Es in Hk'.
    + destruct Hk' as [(Es' & Ed' & Et' & Hs')|(Es' & Ed')]; [left|by right].
      split_and!; [done|congruence|congruence|]. intros Hf. destruct (Hs' Hf) as [Hf2|?]; [|by right].
      destruct Hs as [?|?]; [congruence|left; congruence|right; by apply P2].
    + destruct Hk' as [Es' Ed']. right. split; congruence.
Qed.

Lemma evolves_closed s st st' x : Evolves s st st' -> closed_task st x -> closed_task st' x.
Proof.
  intros [K _ _ _] (t & s0 & Hx & Hs). destruct (K x t Hx) as (t' & Hx' & Hk). unfold kept, is_completed in Hk. rewrite Hs in Hk.
  exists t', s0. split; [done|]. by destruct Hk.
Qed.

Lemma evolves_open s st st' x : Evolves s st st' -> open_task st' x -> open_task st x.
Proof.
  intros [K O _ _] (t' & Hx' & Hs'). destruct (O x ltac:(eauto)) as [t Hx]. exists t. split; [done|].
  destruct (K x t Hx) as (t2 & Hx2 & Hk). rewrite Hx' in Hx2. injection Hx2 as <-. unfold kept, is_completed in Hk.
  destruct (status_ t) eqn:E; [|done]. destruct Hk as [Hk _]. congruence.
Qed.

Lemma evolves_waits s st st' x d : Evolves s st st' -> waits_for st' x d -> waits_for st x d.
Proof.
  intros HE (t' & Hd' & Hs' & Hx). destruct (evolves_open _ _ _ d HE) as (t & Hd & Hs); [by exists t'|].
  exists t. split_and!; [done|done|]. destruct (ev_kept _ _ _ HE d t Hd) as (t2 & Hd2 & Hk). rewrite Hd' in Hd2. injection Hd2 as <-.
  unfold kept, is_completed in Hk. rewrite Hs in Hk. destruct Hk as [(_ & <- & _)|(? & _)]; [done|congruence].
Qed.

Lemma open_or_closed st x : is_Some (tasks st !! x) -> open_task st x \/ closed_task st x.
Proof. intros [t Hx]. destruct (status_ t) as [s|] eqn:E; [right; by exists t, s|left; by exists t]. Qed.

Lemma open_not_closed st x : open_task st x -> ~ closed_task st x.
Proof. intros (t & Hx & Hs) (t' & s & Hx' & Hs'). congruence. Qed.

(** What completions with status [s] did: they came to the tasks [own], and if [s] is an error to all that wait for a
    completed one, starting at [roots]; each calls its callback once. *)
Record Spread (s : zx_status) (roots own : nat -> Prop) (st st' : Store) (log : Callbacks) : Prop := {
  sp_evolves : Evolves s st st';
  sp_reach y : newly st st' y -> exists r, roots r /\ rtc (fun d y => waits_for st y d) r y;
  sp_own y : s = ZX_OK -> newly st st' y -> own y;
  sp_all d y : s <> ZX_OK -> newly st st' d -> waits_for st y d -> closed_task st' y;
  sp_log y r : (y, r) ∈ log <-> newly st st' y /\ r = s;
  sp_once : NoDup log
}.

Lemma newly_trans s st1 st2 st3 x :
  Evolves s st1 st2 -> Evolves s st2 st3 -> newly st1 st3 x <-> newly st1 st2 x \/ newly st2 st3 x.
Proof.
  intros H1 H2. split.
  - intros [Ho Hc]. destruct Ho as (t & Hx & Hs) eqn:Eo. destruct (ev_kept _ _ _ H1 x t Hx) as (t2 & Hx2 & _).
    destruct (open_or_closed st2 x ltac:(eauto)) as [?|?]; [right|left]; by split.
  - intros [[Ho Hc]|[Ho Hc]]; split; [done|by eapply evolves_closed|by eapply evolves_open|done].
Qed.

Lemma spread_trans s roots own st1 st2 st3 log1 log2 :
  Spread s roots own st1 st2 log1 -> Spread s roots own st2 st3 log2 -> Spread s roots own st1 st3 (log1 ++ log2).
Proof.
  intros [E1 R1 O1 A1 L1 N1] [E2 R2 O2 A2 L2 N2]. pose proof (fun x => newly_trans s st1 st2 st3 x E1 E2) as Hn. constructor.
  - by eapply evolves_trans.
  - intros y [Hy|Hy]%Hn; [by apply R1|]. destruct (R2 y Hy) as (r & Hr & Hp). exists r. split; [done|].
    eapply rtc_subrel; [|exact Hp]. intros d z. by eapply evolves_waits.
  - intros y Hs [Hy|Hy]%Hn; auto.
  - intros d y Hs [Hd|Hd]%Hn Hw; [eapply evolves_closed; [done|by apply (A1 d)]|]. apply (A2 d); [done..|].
    destruct Hw as (t & Ht & Hst & Hy). destruct Hd as [(t2 & Ht2 & Hs2) _]. exists t2. split_and!; [done|done|].
    destruct (ev_kept _ _ _ E1 d t Ht) as (t2' & Ht2' & Hk). rewrite Ht2 in Ht2'. injection Ht2' as <-. unfold kept, is_completed in Hk. rewrite Hst in Hk.
    destruct Hk as [(_ & -> & _)|(? & _)]; [done|congruence].
  - intros y r. rewrite elem_of_app, L1, L2, Hn. tauto.
  - apply NoDup_app. split_and!; [done| |done]. intros [y r] [[_ Hc] _]%L1 [[Ho _] _]%L2. by eapply open_not_closed.
Qed.

(** Nothing is completed. *)
Lemma spread_none s roots own st st' : Evolves s st st' -> (forall x, ~ newly st st' x) -> Spread s roots own st st' [].
Proof.
  intros HE Hn. constructor; [done|intros y Hy; by destruct (Hn y)|intros y _ Hy; by destruct (Hn y)|intros d y _ Hd; by destruct (Hn d)| |constructor].
  intros y r. split; [intros H; by apply not_elem_of_nil in H|intros [H _]; by destruct (Hn y)].
Qed.

Lemma spread_weaken s (roots own roots' own' : nat -> Prop) st st' log :
  Spread s roots own st st' log -> (forall r, roots r -> exists r', roots' r' /\ rtc (fun d y => waits_for st y d) r' r) -> (forall x, own x -> own' x) ->
  Spread s roots' own' st st' log.
Proof.
  intros [E1 R1 O1 A1 L1 N1] Hr Ho. constructor; try done; [|by auto]. intros y Hy. destruct (R1 y Hy) as (r & Hr0 & Hp).
  destruct (Hr r Hr0) as (r' & Hr' & Hp'). exists r'. split; [done|]. by etrans.
Qed.

(** A store with fewer open tasks has fewer to complete. *)
Lemma incomplete_lookup st x t : incomplete st !! x = Some t <-> tasks st !! x = Some t /\ status_ t = None.
Proof. unfold incomplete. by rewrite map_lookup_filter_Some. Qed.

Lemma evolves_size s st st' : Evolves s st st' -> size (incomplete st') <= size (incomplete st).
Proof.
  intros HE. rewrite <- !size_dom. apply subseteq_size. intros x. rewrite !elem_of_dom. intros [t' [Hx Hs]%incomplete_lookup].
  destruct (evolves_open _ _ _ x HE) as (t & Hx' & Hs'); [by exists t'|]. exists t. by apply incomplete_lookup.
Qed.

Lemma evolves_closed_size s st st' x : Evolves s st st' -> open_task st x -> closed_task st' x -> size (incomplete st') < size (incomplete st).
Proof.
  intros HE (t & Hx & Hs) (u & r & Hu & Hr). rewrite <- !size_dom. apply subset_size. split.
  - intros y. rewrite !elem_of_dom. intros [t' [Hy Hs']%incomplete_lookup]. destruct (evolves_open _ _ _ y HE) as (v & Hv & Hvs); [by exists t'|].
    exists v. by apply incomplete_lookup.
  - intros Hsub. specialize (Hsub x). rewrite !elem_of_dom in Hsub. destruct Hsub as [v [Hv Hn]%incomplete_lookup]; [exists t; by apply incomplete_lookup|congruence].
Qed.

(** ** The pieces of a completion keep the store consistent *)

Lemma lookup_put x t st y : tasks (put_task x t st) !! y = if decide (x = y) then Some t else tasks st !! y.
Proof. simpl. case_decide as E; [subst; apply lookup_insert_eq|by apply lookup_insert_ne]. Qed.

Lemma bind_ok {A B} (m : exec A) (f : A -> exec B) a : m = Done a -> m ≫= f = f a.
Proof. by intros ->. Qed.

Lemma get_task_ok st x t : tasks st !! x = Some t -> get_task st x = Done t.
Proof. intros Hx. unfold get_task. by rewrite Hx. Qed.

Lemma update_task_ok f st x t : tasks st !! x = Some t -> update_task f x st = Done (put_task x (f t) st).
Proof. intros Hx. unfold update_task. by rewrite (get_task_ok _ _ _ Hx). Qed.

Lemma is_Some_put x t t' st y : tasks st !! x = Some t -> is_Some (tasks (put_task x t' st) !! y) <-> is_Some (tasks st !! y).
Proof. intros Hx. rewrite lookup_put. case_decide; [subst; rewrite Hx; split; eauto|done]. Qed.

(** The edges from a task are decided by its dependents while it is open. *)
Lemma outstanding_put x t t' st d y :
  tasks st !! x = Some t -> (is_completed t' = is_completed t /\ (is_completed t = true \/ dependents_ t' = dependents_ t)) ->
  outstanding (put_task x t' st) d y = outstanding st d y.
Proof.
  intros Hx [Hs Hd]. unfold outstanding. rewrite lookup_put. case_decide; [subst|done]. rewrite Hx, Hs. destruct (is_completed t); [done|].
  destruct Hd as [?| ->]; done.
Qed.

Lemma status_completed t : status_ t = None <-> is_completed t = false.
Proof. unfold is_completed. by destruct (status_ t). Qed.

(** Changing one task, its dependents and its being open aside. *)
Lemma put_consistent P E P' E' st x t t' :
  Consistent P E st -> tasks st !! x = Some t ->
  is_completed t' = is_completed t /\ (is_completed t = true \/ dependents_ t' = dependents_ t) -> (forall y, y ∈ dependents_ t' -> y ∈ dependents_ t) ->
  (forall d y, y <> x -> cntp P (d, y) + cntp E (d, y) = cntp P' (d, y) + cntp E' (d, y)) ->
  (forall y, y <> x -> length (aimed_at y E) = length (aimed_at y E')) ->
  (status_ t' = None -> (forall d, cnt (dependencies_ t') d = outstanding st d x + cntp P' (d, x) + cntp E' (d, x)) /\
     total_dependencies_count_ t' + length (aimed_at x E') = finished_dependencies_count_ t' + length (dependencies_ t')) ->
  (forall e, e ∈ P' ++ E' -> is_Some (tasks st !! e.2)) ->
  Consistent P' E' (put_task x t' st).
Proof.
  intros [HD HC HE HT HP HN] Hx Hsame Hdep Hcnt Haim Hnew Htold. constructor.
  - intros y u d. rewrite lookup_put, (outstanding_put x t) by done. case_decide as Exy.
    + subst. intros [= <-] Hs. by apply Hnew.
    + intros Hy Hs. rewrite (HD y u d Hy Hs). specialize (Hcnt d y ltac:(congruence)). lia.
  - intros y u. rewrite lookup_put. case_decide as Exy; [subst; intros [= <-] Hs; by apply Hnew|]. intros Hy Hs.
    rewrite <- Haim by congruence. by apply HC.
  - intros d y u. rewrite lookup_put, (is_Some_put x t) by done. case_decide as Exy; [subst; intros [= <-] Hy%Hdep; by eapply HE|apply HE].
  - intros e He. rewrite (is_Some_put x t) by done. by apply Htold.
  - intros y Hy. rewrite (is_Some_put x t) by done. by apply HP.
  - intros y. rewrite (is_Some_put x t) by done. apply HN.
Qed.

Lemma aimed_at_cons x d y l : aimed_at x ((d, y) :: l) = if decide (y = x) then (d, y) :: aimed_at x l else aimed_at x l.
Proof. unfold aimed_at. rewrite filter_cons. done. Qed.

Lemma posted_consistent P E st l :
  Consistent P E st -> (forall x, x ∈ l -> is_Some (tasks st !! x)) -> Consistent P E (mkStore (tasks st) l (next_task st)).
Proof. intros [HD HC HE HT HP HN] Hl. by constructor. Qed.

(** A dependency is counted as finished. *)
Lemma told_consistent P E st d x t :
  Consistent ((d, x) :: P) E st -> tasks st !! x = Some t -> Consistent P ((d, x) :: E) (put_task x (inc_finished t) st).
Proof.
  intros HC Hx. eapply put_consistent; [exact HC|exact Hx|by split; [|right]|done| | | |].
  - intros d' y Hy. rewrite !cntp_cons. lia.
  - intros y Hy. rewrite aimed_at_cons, decide_False by done. done.
  - intros Hs. split.
    + intros d'. pose proof (co_deps _ _ _ HC x t d' Hx Hs) as H. rewrite cntp_cons in H. rewrite cntp_cons. simpl. lia.
    + pose proof (co_count _ _ _ HC x t Hx Hs). rewrite aimed_at_cons, decide_True by done. simpl. lia.
  - intros e He. apply (co_told _ _ _ HC). set_solver.
Qed.

(** A finished dependency is taken off the list. *)
Lemma erased_consistent P E st d x t l :
  Consistent P ((d, x) :: E) st -> tasks st !! x = Some t -> erase_first d (dependencies_ t) = Some l ->
  Consistent P E (put_task x (set_dependencies l t) st).
Proof.
  intros HC Hx He. eapply put_consistent; [exact HC|exact Hx|by split; [|right]|done| | | |].
  - intros d' y Hy. rewrite cntp_cons, decide_False by congruence. lia.
  - intros y Hy. rewrite aimed_at_cons, decide_False by done. done.
  - intros Hs. split.
    + intros d'. pose proof (co_deps _ _ _ HC x t d' Hx Hs) as H. rewrite cntp_cons in H. destruct (erase_first_cnt _ _ _ d' He) as [Hc _]. simpl.
      repeat case_decide; simplify_eq; lia.
    + pose proof (co_count _ _ _ HC x t Hx Hs) as H. rewrite aimed_at_cons, decide_True in H by done. destruct (erase_first_cnt _ _ _ d He) as [_ Hl]. simpl in *. lia.
  - intros e Hel. apply (co_told _ _ _ HC). set_solver.
Qed.

(** A completed task needs no list. *)
Lemma closed_consistent P E st d x t :
  Consistent P ((d, x) :: E) st -> tasks st !! x = Some t -> is_completed t = true -> Consistent P E st.
Proof.
  intros [HD HC HE HT HP HN] Hx Hs. constructor; try done.
  - intros y u d' Hy Hu. rewrite (HD y u d' Hy Hu), cntp_cons, decide_False; [done|]. intros [= _ ->]. rewrite Hx in Hy. injection Hy as <-.
    apply status_completed in Hu. congruence.
  - intros y u Hy Hu. specialize (HC y u Hy Hu). rewrite aimed_at_cons, decide_False in HC; [done|]. intros ->. rewrite Hx in Hy. injection Hy as <-.
    apply status_completed in Hu. congruence.
  - intros e He. apply HT. set_solver.
Qed.

(** A task is marked as completed: its dependents are to be told. *)
Lemma marked_consistent P E st x t s :
  Consistent P E st -> tasks st !! x = Some t -> status_ t = None ->
  Consistent (map (fun y => (x, y)) (dependents_ t) ++ P) E (put_task x (set_task_status s t) st).
Proof.
  intros [HD HC HE HT HP HN] Hx Hs. assert (is_completed t = false) as Hc by (by apply status_completed).
  assert (forall d y, outstanding st d y = outstanding (put_task x (set_task_status s t) st) d y + cntp (map (fun y => (x, y)) (dependents_ t)) (d, y)) as Hout.
  { intros d y. unfold outstanding. rewrite lookup_put, cntp_map. case_decide; [subst; rewrite Hx, Hc; simpl; lia|lia]. }
  constructor.
  - intros y u d. rewrite lookup_put. case_decide; [subst; intros [= <-]; done|]. intros Hy Hu. rewrite (HD y u d Hy Hu), Hout, count_occ_app. lia.
  - intros y u. rewrite lookup_put. case_decide; [subst; intros [= <-]; done|apply HC].
  - intros d y u. rewrite lookup_put, (is_Some_put x t) by done. case_decide; [subst; intros [= <-] Hy; by eapply HE|apply HE].
  - intros e He. rewrite (is_Some_put x t) by done. apply elem_of_app in He as [[He|He]%elem_of_app|He]; [|apply HT; set_solver..].
    apply list_elem_of_fmap in He as (y & -> & Hy). by eapply HE.
  - intros y Hy. rewrite (is_Some_put x t) by done. by apply HP.
  - intros y. rewrite (is_Some_put x t) by done. apply HN.
Qed.

(** The lists of a completed task are emptied. *)
Lemma reset_consistent P E st x t :
  Consistent P E st -> tasks st !! x = Some t -> is_completed t = true -> Consistent P E (put_task x (set_dependencies [] (set_dependents [] t)) st).
Proof.
  intros HC Hx Hs. eapply put_consistent; [exact HC|exact Hx|by split; [|left]|simpl; set_solver|done|done| |apply HC].
  intros Hn. apply status_completed in Hn. change (is_completed t = false) in Hn. congruence.
Qed.

(** ** [Complete] *)

(** What [Complete] does, for stores with at most [n] open tasks. *)
Definition CompleteSpec (n : nat) (complete : nat -> zx_status -> Store -> exec (Store * Callbacks)) : Prop :=
  forall P E st x s, Consistent P E st -> open_task st x -> size (incomplete st) <= n ->
  exists st' log, complete x s st = Done (st', log) /\ Consistent P E st' /\ closed_task st' x /\ Spread s (fun y => y = x) (fun y => y = x) st st' log.

(** One task is put back, open or completed as before, with the same dependents. *)
Lemma put_spread s roots own st x t t' (l : list nat) :
  tasks st !! x = Some t -> is_completed t' = is_completed t -> status_ t' = status_ t -> dependents_ t' = dependents_ t ->
  total_dependencies_count_ t' = total_dependencies_count_ t -> (forall y, y ∈ posted st -> y ∈ l) ->
  (finished_dependencies_count_ t' = total_dependencies_count_ t' -> finished_dependencies_count_ t' = finished_dependencies_count_ t \/ x ∈ l) ->
  Spread s roots own st (mkStore (tasks (put_task x t' st)) l (next_task st)) [].
Proof.
  intros Hx Hc Hs Hd Ht Hl Hf. apply spread_none.
  - constructor; cbn [posted next_task]; [|intros y; change (tasks (mkStore ?a _ _)) with a; by rewrite (is_Some_put x t)|done|done].
    intros y u Hy. cbn [tasks]. rewrite lookup_put. case_decide as E.
    + subst y. rewrite Hx in Hy. injection Hy as <-. exists t'. split; [done|]. unfold kept. destruct (is_completed t) eqn:Ec; [done|].
      apply status_completed in Ec. left. split_and!; [congruence|done|done|done].
    + exists u. split; [done|]. unfold kept. destruct (is_completed u) eqn:Ec; [done|]. apply status_completed in Ec. left. auto.
  - intros y [(u & Hy & Hu) (u' & r & Hy' & Hu')]. cbn [tasks] in Hy'. rewrite lookup_put in Hy'. case_decide; [subst|]; simplify_eq; congruence.
Qed.

(** The step of [DependencyComplete] that posts the task. *)
Definition post_if_ready (x : nat) (t : Task) (st : Store) : exec Store :=
  if negb (is_pending st x) && (finished_dependencies_count_ t =? total_dependencies_count_ t)%nat then Post x st else Done st.

Lemma post_if_ready_ok x t st :
  exists l, post_if_ready x t st = Done (mkStore (tasks st) l (next_task st)) /\ (forall y, y ∈ posted st -> y ∈ l) /\
    (forall y, y ∈ l -> y ∈ posted st \/ y = x) /\ (finished_dependencies_count_ t = total_dependencies_count_ t -> x ∈ l).
Proof.
  unfold post_if_ready, Post, is_pending. destruct (bool_decide_reflect (x ∈ posted st)) as [Hp|Hp]; cbn [negb andb].
  - exists (posted st). split_and!; [by destruct st|done|by left|by intros].
  - destruct (Nat.eqb_spec (finished_dependencies_count_ t) (total_dependencies_count_ t)).
    + exists (posted st ++ [x]). split_and!; [done|set_solver|set_solver|set_solver].
    + exists (posted st). split_and!; [by destruct st|done|by left|done].
Qed.

Section notify.
Context (n : nat) (complete : nat -> zx_status -> Store -> exec (Store * Callbacks)) (Hspec : CompleteSpec n complete).

(** The step of [DependencyComplete] that passes on an error. *)
Lemma fail_step P E st x t s :
  Consistent P E st -> tasks st !! x = Some t -> size (incomplete st) <= n ->
  exists st' log, (if negb (bool_decide (s = ZX_OK)) && negb (is_completed t) then complete x s st else Done (st, [])) = Done (st', log) /\
    Consistent P E st' /\ (s <> ZX_OK -> closed_task st' x) /\ Spread s (fun y => y = x) (fun _ => False) st st' log.
Proof using Hspec.
  intros HC Hx Hn. assert (Spread s (fun y => y = x) (fun _ => False) st st []) as Hnone.
  { apply spread_none; [apply evolves_refl|]. intros y [? ?]. by eapply open_not_closed. }
  destruct (bool_decide_reflect (s = ZX_OK)) as [->|Hs]; cbn [negb andb]; [by exists st, []|].
  destruct (is_completed t) eqn:Ec; cbn [negb].
  - exists st, []. split_and!; [done|done| |done]. intros _. unfold is_completed in Ec. destruct (status_ t) as [r|] eqn:Er; [|done]. by exists t, r.
  - destruct (Hspec P E st x s HC) as (st' & log & E' & HC' & Hcl & HS); [exists t; by rewrite status_completed|done|].
    exists st', log. split_and!; [done|done|done|]. destruct HS. by constructor.
Qed.

Lemma dependency_complete_spec P E st x d s :
  Consistent ((d, x) :: P) E st -> size (incomplete st) <= n ->
  exists st' log, DependencyComplete complete x d s st = Done (st', log) /\ Consistent P E st' /\
    (s <> ZX_OK -> closed_task st' x) /\ Spread s (fun y => y = x) (fun _ => False) st st' log.
Proof using Hspec.
  intros HC Hn. destruct (co_told _ _ _ HC (d, x)) as [t Hx]; [set_solver|]. simpl in Hx. unfold DependencyComplete. rewrite (update_task_ok _ _ _ t Hx).
  cbn [mbind exec_bind]. rewrite (get_task_ok _ _ (inc_finished t)) by (by rewrite lookup_put, decide_True). cbn [mbind exec_bind].
  pose proof (told_consistent _ _ _ _ _ _ HC Hx) as HC1. set (st1 := put_task x (inc_finished t) st) in *.
  destruct (post_if_ready_ok x (inc_finished t) st1) as (l & El & Hl1 & Hl2 & Hl3). unfold post_if_ready in El. rewrite El. cbn [mbind exec_bind].
  change (mkStore (tasks st1) l (next_task st1)) with (mkStore (tasks st1) l (next_task st)). set (st2 := mkStore (tasks st1) l (next_task st)).
  assert (Consistent P ((d, x) :: E) st2) as HC2.
  { apply (posted_consistent _ _ st1); [done|]. intros y [Hy| ->]%Hl2; [by apply (co_posted _ _ _ HC1)|]. unfold st1. rewrite lookup_put, decide_True by done. eauto. }
  assert (Spread s (fun y => y = x) (fun _ => False) st st2 []) as HS1 by (apply (put_spread s _ _ st x t); auto).
  assert (tasks st2 !! x = Some (inc_finished t)) as Hx2 by (unfold st2, st1; cbn [tasks]; by rewrite lookup_put, decide_True).
  destruct (fail_step _ _ st2 x (inc_finished t) s HC2 Hx2) as (st3 & log & E3 & HC3 & Hcl & HS2); [pose proof (evolves_size _ _ _ (sp_evolves _ _ _ _ _ _ HS1)); lia|].
  rewrite (bind_ok _ _ _ E3). destruct (ev_kept _ _ _ (sp_evolves _ _ _ _ _ _ HS2) x _ Hx2) as (t3 & Hx3 & Hk3). cbn [mbind exec_bind]. rewrite (get_task_ok _ _ t3 Hx3). cbn [mbind exec_bind].
  destruct (erase_first d (dependencies_ t3)) as [k|] eqn:Ek.
  - exists (put_task x (set_dependencies k t3) st3), log. split_and!; [done|by eapply erased_consistent| |].
    + intros Hs. destruct (Hcl Hs) as (u & r & Hu & Hr). exists (set_dependencies k t3), r. rewrite lookup_put, decide_True by done.
      split; [done|]. simpl. congruence.
    + assert (log = ([] ++ log) ++ []) as -> by (by rewrite app_nil_r). eapply spread_trans; [by eapply spread_trans|].
      change (put_task x (set_dependencies k t3) st3) with (mkStore (tasks (put_task x (set_dependencies k t3) st3)) (posted st3) (next_task st3)).
      apply (put_spread s _ _ st3 x t3); auto.
  - destruct (is_completed t3) eqn:Ec3.
    + exists st3, log. split_and!; [done|by eapply closed_consistent|done|]. change log with ([] ++ log). by eapply spread_trans.
    + exfalso. apply erase_first_None in Ek. apply status_completed in Ec3. pose proof (co_deps _ _ _ HC3 x t3 d Hx3 Ec3) as H. rewrite cntp_cons, decide_True in H by done. lia.
Qed.

Lemma notify_all_spec P E l d s st :
  Consistent (map (fun y => (d, y)) l ++ P) E st -> size (incomplete st) <= n ->
  exists st' log, notify_all complete l d s st = Done (st', log) /\ Consistent P E st' /\
    (s <> ZX_OK -> forall y, y ∈ l -> closed_task st' y) /\ Spread s (fun y => y ∈ l) (fun _ => False) st st' log.
Proof using Hspec.
  revert st. induction l as [|x l IH]; intros st HC Hn; cbn [notify_all].
  { exists st, []. split_and!; [done|done|set_solver|]. apply spread_none; [apply evolves_refl|]. intros y [? ?]. by eapply open_not_closed. }
  destruct (dependency_complete_spec _ _ _ _ _ s HC Hn) as (st1 & log1 & E1 & HC1 & Hcl1 & HS1). rewrite (bind_ok _ _ _ E1).
  pose proof (sp_evolves _ _ _ _ _ _ HS1) as He1.
  destruct (IH st1 HC1) as (st2 & log2 & E2 & HC2 & Hcl2 & HS2); [pose proof (evolves_size _ _ _ He1); lia|]. rewrite (bind_ok _ _ _ E2).
  exists st2, (log1 ++ log2). split_and!; [done|done| |].
  - intros Hs y [->|Hy]%elem_of_cons; [|by apply Hcl2]. eapply evolves_closed; [apply (sp_evolves _ _ _ _ _ _ HS2)|by apply Hcl1].
  - eapply spread_trans; (eapply spread_weaken; [eassumption| |done]); intros r Hr; exists r; (split; [set_solver|done]).
Qed.
End notify.

(** Everything a completion does, from what telling the dependents does. *)
Section spread_complete.
Context (s : zx_status) (x : nat) (st st2 : Store) (t t2 : Task) (log : Callbacks).
Context (Hx : tasks st !! x = Some t) (Hs : status_ t = None).
Local Abbreviation st1 := (put_task x (set_task_status s t) st).
Local Abbreviation st3 := (put_task x (set_dependencies [] (set_dependents [] t2)) st2).
Context (HS : Spread s (fun y => y ∈ dependents_ t) (fun _ => False) st1 st2 log).
Context (Hcl : s <> ZX_OK -> forall y, y ∈ dependents_ t -> closed_task st2 y).
Context (Hx2 : tasks st2 !! x = Some t2).

Lemma spread_status : status_ t2 = Some s.
Proof using Hx2 HS.
  destruct (ev_kept _ _ _ (sp_evolves _ _ _ _ _ _ HS) x (set_task_status s t)) as (u & Hu & Hk); [by rewrite lookup_put, decide_True|].
  rewrite Hx2 in Hu. injection Hu as <-. by destruct Hk.
Qed.

Lemma open_marked y : open_task st1 y <-> y <> x /\ open_task st y.
Proof using Hx.
  clear Hcl HS Hx2. unfold open_task. rewrite lookup_put. case_decide as E; [subst|by split; [intros; split|intros [? ?]]].
  split; [intros (u & [= <-] & Hu); done|by intros [? _]].
Qed.

Lemma closed_reset y : closed_task st3 y <-> closed_task st2 y.
Proof using Hx2 HS.
  clear Hcl Hx Hs. pose proof spread_status as H. unfold closed_task. rewrite lookup_put. case_decide as E; [subst|done]. rewrite Hx2.
  split; intros (u & r & [= <-] & Hr); [exists t2, s|exists (set_dependencies [] (set_dependents [] t2)), s]; done.
Qed.

Lemma newly_complete y : newly st st3 y <-> y = x \/ newly st1 st2 y.
Proof using Hx Hs Hx2 HS.
  unfold newly. rewrite closed_reset, open_marked. destruct (decide (y = x)) as [->|Hne]; [|tauto]. split; [tauto|]. intros _.
  split; [by exists t|]. exists t2, s. split; [done|apply spread_status].
Qed.

Lemma waits_marked y d : waits_for st1 y d -> waits_for st y d.
Proof using Hx. clear Hcl HS Hx2. unfold waits_for. rewrite lookup_put. case_decide as E; [|done]. intros (u & [= <-] & ? & _). done. Qed.

Lemma evolves_complete : Evolves s st st3.
Proof using Hx Hs Hx2 HS.
  pose proof (sp_evolves _ _ _ _ _ _ HS) as [K O Hp Hn]. constructor.
  - intros y u Hy. rewrite lookup_put. case_decide as E.
    + subst y. rewrite Hx in Hy. injection Hy as <-. eexists. split; [done|]. unfold kept, is_completed. rewrite Hs. right. simpl. split; [apply spread_status|done].
    + destruct (K y u) as (u' & Hu' & Hk); [by rewrite lookup_put, decide_False|]. exists u'. by split.
  - intros y Hy. rewrite (is_Some_put x t2) in Hy by done. apply O in Hy. by rewrite (is_Some_put x t) in Hy.
  - apply Hp.
  - apply Hn.
Qed.

Lemma spread_complete : Spread s (fun y => y = x) (fun y => y = x) st st3 (log ++ [(x, s)]).
Proof using Hx Hs Hx2 HS Hcl.
  pose proof HS as [HE HR HO HA HL HN]. constructor; [apply evolves_complete|..].
  - intros y [->|Hy]%newly_complete; [by exists x|]. destruct (HR y Hy) as (r & Hr & Hp). exists x. split; [done|].
    eapply rtc_l; [by exists t|]. eapply rtc_subrel; [|exact Hp]. intros d z. apply waits_marked.
  - intros y E [->|Hy]%newly_complete; [done|]. by destruct (HO y E Hy).
  - intros d y E [->|Hd]%newly_complete Hw; rewrite closed_reset.
    + apply Hcl; [done|]. destruct Hw as (u & Hu & _ & Hy). congruence.
    + apply (HA d y E Hd). destruct Hd as [[Hne _]%open_marked _]. unfold waits_for. by rewrite lookup_put, decide_False.
  - intros y r. rewrite elem_of_app, HL, newly_complete, list_elem_of_singleton. split; [|naive_solver].
    intros [[? ?]|[= -> ->]]; auto.
  - apply NoDup_app. split_and!; [done| |apply NoDup_singleton]. intros e He ->%list_elem_of_singleton.
    apply HL in He as [[[? _]%open_marked _] _]. done.
Qed.
End spread_complete.

Lemma marked_size x t s st :
  tasks st !! x = Some t -> status_ t = None -> size (incomplete (put_task x (set_task_status s t) st)) < size (incomplete st).
Proof.
  intros Hx Hs. rewrite <- !size_dom. apply subset_size. split.
  - intros y. rewrite !elem_of_dom. intros [u [Hu Hn]%incomplete_lookup]. exists u. apply incomplete_lookup. rewrite lookup_put in Hu.
    case_decide; [|done]. injection Hu as <-. done.
  - intros Hsub. specialize (Hsub x). rewrite !elem_of_dom in Hsub. destruct Hsub as [u [Hu Hn]%incomplete_lookup]; [exists t; by apply incomplete_lookup|].
    rewrite lookup_put, decide_True in Hu by done. injection Hu as <-. done.
Qed.

Lemma complete_fuel_spec n : CompleteSpec n (complete_fuel n).
Proof.
  induction n as [|n IH]; intros P E st x s HC (t & Hx & Hs) Hn.
  - exfalso. pose proof (marked_size x t s st Hx Hs). lia.
  - pose proof (marked_size x t s st Hx Hs) as Hsz. cbn [complete_fuel]. rewrite (get_task_ok _ _ _ Hx). cbn [mbind exec_bind].
    rewrite (proj1 (status_completed t) Hs). cbn [negb zx_assert exec_bind].
    destruct (notify_all_spec n _ IH P E (dependents_ t) x s (put_task x (set_task_status s t) st)) as (st2 & log & E2 & HC2 & Hcl & HS);
      [by apply marked_consistent|lia|]. rewrite (bind_ok _ _ _ E2).
    destruct (ev_kept _ _ _ (sp_evolves _ _ _ _ _ _ HS) x (set_task_status s t)) as (t2 & Hx2 & _); [by rewrite lookup_put, decide_True|].
    pose proof (spread_status _ _ _ _ _ _ _ HS Hx2) as Hs2. rewrite (update_task_ok _ _ _ _ Hx2). cbn [mbind exec_bind].
    rewrite (update_task_ok _ _ _ (set_dependents [] t2)) by (by rewrite lookup_put, decide_True). cbn [mbind exec_bind].
    assert (put_task x (set_dependencies [] (set_dependents [] t2)) (put_task x (set_dependents [] t2) st2) =
      put_task x (set_dependencies [] (set_dependents [] t2)) st2) as -> by (unfold put_task; simpl; by rewrite insert_insert_eq).
    eexists _, _. split; [done|]. split_and!.
    + apply reset_consistent; [done..|]. unfold is_completed. by rewrite Hs2.
    + eexists _, s. by rewrite lookup_put, decide_True.
    + by eapply spread_complete.
Qed.

(** [Complete] of an open task returns. *)
Lemma Complete_spec P E st x s :
  Consistent P E st -> open_task st x ->
  exists st' log, Complete x s st = Done (st', log) /\ Consistent P E st' /\ closed_task st' x /\ Spread s (fun y => y = x) (fun y => y = x) st st' log.
Proof. intros HC Hx. by apply (complete_fuel_spec (S (size (incomplete st)))); [..|lia]. Qed.

(** ** What gets posted *)

(** [Q] holds of every dependent. *)
Definition dependents_are (Q : nat -> Prop) (st : Store) : Prop := forall d t y, tasks st !! d = Some t -> y ∈ dependents_ t -> Q y.

(** Only tasks of [Q] are posted. *)
Definition posts (Q : nat -> Prop) (st st' : Store) : Prop := dependents_are Q st' /\ forall y, y ∈ posted st' -> y ∈ posted st \/ Q y.

Lemma put_dependents Q x t' st : dependents_are Q st -> (forall y, y ∈ dependents_ t' -> Q y) -> dependents_are Q (put_task x t' st).
Proof. intros H H' d u y. rewrite lookup_put. case_decide; [intros [= <-]; apply H'|apply H]. Qed.

Lemma update_task_inv f x st st' : update_task f x st = Done st' -> exists t, tasks st !! x = Some t /\ st' = put_task x (f t) st.
Proof. unfold update_task, get_task. destruct (tasks st !! x) as [t|]; [|done]. intros [= <-]. eauto. Qed.

Section posts.
Context (Q : nat -> Prop) (complete : nat -> zx_status -> Store -> exec (Store * Callbacks)).
Context (Hc : forall x s st st' log, dependents_are Q st -> complete x s st = Done (st', log) -> posts Q st st').

Lemma dependency_complete_posts x d s st st' log :
  dependents_are Q st -> Q x -> DependencyComplete complete x d s st = Done (st', log) -> posts Q st st'.
Proof using Hc.
  intros HQ Hx E. apply exec_bind_Done in E as (st1 & (t & Ht & ->)%update_task_inv & E).
  apply exec_bind_Done in E as (t1 & _ & E). apply exec_bind_Done in E as (st2 & E2 & E).
  assert (dependents_are Q (put_task x (inc_finished t) st)) as HQ1 by (apply put_dependents; [done|intros y; apply (HQ _ _ y Ht)]).
  assert (tasks st2 = tasks (put_task x (inc_finished t) st) /\ forall y, y ∈ posted st2 -> y ∈ posted st \/ Q y) as [Et Hp].
  { destruct (negb _ && _); [|injection E2 as <-; split; [done|by left]]. unfold Post in E2. destruct (negb _); [|done].
    simpl in E2. injection E2 as <-. split; [done|]. simpl. set_solver. }
  apply exec_bind_Done in E as ([st3 log3] & E3 & E). assert (dependents_are Q st2) as HQ2 by (unfold dependents_are; rewrite Et; exact HQ1).
  assert (posts Q st2 st3) as [HQ3 Hp3] by (clear E2; destruct (negb _ && _); [eapply Hc; [exact HQ2|exact E3]|injection E3 as <- _; split; [done|by left]]).
  apply exec_bind_Done in E as (t3 & Ht3 & E). unfold get_task in Ht3. destruct (tasks st3 !! x) as [u|] eqn:Hu; [|done]. injection Ht3 as ->.
  assert (forall y, y ∈ posted st3 -> y ∈ posted st \/ Q y) as Hp' by (intros y [Hy|?]%Hp3; [by apply Hp|by right]).
  destruct (erase_first d (dependencies_ t3)); [|destruct (is_completed t3); [|done]]; injection E as <- _; split; try done.
  apply put_dependents; [done|]. intros y. apply (HQ3 _ _ y Hu).
Qed.

Lemma notify_all_posts l d s st st' log :
  dependents_are Q st -> (forall y, y ∈ l -> Q y) -> notify_all complete l d s st = Done (st', log) -> posts Q st st'.
Proof using Hc.
  revert st log. induction l as [|x l IH]; intros st log HQ Hl; cbn [notify_all]; [intros [= <- _]; split; [done|by left]|].
  intros ([st1 log1] & E1 & E)%exec_bind_Done. apply exec_bind_Done in E as ([st2 log2] & E2 & [= <- _]).
  destruct (dependency_complete_posts x d s st st1 log1 HQ) as [HQ1 Hp1]; [apply Hl; set_solver|done|].
  destruct (IH st1 log2 HQ1) as [HQ2 Hp2]; [intros; apply Hl; set_solver|done|]. split; [done|].
  intros y [Hy|?]%Hp2; [by apply Hp1|by right].
Qed.
End posts.

Lemma complete_fuel_posts Q n x s st st' log : dependents_are Q st -> complete_fuel n x s st = Done (st', log) -> posts Q st st'.
Proof.
  revert x s st st' log. induction n as [|n IH]; intros x s st st' log HQ E; [done|]. cbn [complete_fuel] in E.
  apply exec_bind_Done in E as (t & Ht & E). unfold get_task in Ht. destruct (tasks st !! x) as [u|] eqn:Hu; [|done]. injection Ht as ->.
  destruct (negb (is_completed t)); [|done]. cbn [zx_assert exec_bind] in E. apply exec_bind_Done in E as ([st1 log1] & E1 & E).
  destruct (notify_all_posts Q _ IH (dependents_ t) x s (put_task x (set_task_status s t) st) st1 log1) as [HQ1 Hp1];
    [apply put_dependents; [done|intros y; apply (HQ _ _ y Hu)]|intros y; apply (HQ _ _ y Hu)|done|].
  apply exec_bind_Done in E as (st2 & (t2 & Ht2 & ->)%update_task_inv & E). apply exec_bind_Done in E as (st3 & (t3 & Ht3 & ->)%update_task_inv & [= <- _]).
  split; [|done]. rewrite lookup_put, decide_True in Ht3 by done. injection Ht3 as <-.
  apply put_dependents; [apply put_dependents; [done|]|]; simpl; set_solver.
Qed.

Lemma Complete_posts Q x s st st' log : dependents_are Q st -> Complete x s st = Done (st', log) -> posts Q st st'.
Proof. apply complete_fuel_posts. Qed.
