(* ===== verification/DriverTaskRun.v ===== *)
(** * DriverTaskRun: the driver manager's tasks over any sequence of calls

    The calls on tasks of [DriverTask], in any order the code allows, with a record of the dependencies ever added
    and of the number of dependencies a task had when it was last run: a task is run only when all its
    dependencies have completed successfully, none is forgotten, an error completes exactly the tasks that wait,
    and tasks that complete when they are run all complete. *)
From Stdlib Require Import ZArith Lia.
From stdpp Require Import prelude gmap sorting.
From S2P Require Import Prelude DriverTask.

(** ** The machine *)

(** [added] are the dependencies added so far, as (task, dependency); [settled] is the number of dependencies that a
    task had when [Run] was last called, and 0 for one that is not posted when it is created. *)
Record Tasks := mkTasks { store : Store; added : list (nat * nat); settled : gmap nat nat }.

Definition Tasks_init : Tasks := mkTasks Store_empty [] ∅.

Inductive TaskCall :=
  | CallNew (post_on_create : bool)
  | CallAdd (this dependency : nat)
  | CallComplete (x : nat) (s : zx_status)
  | CallExecute (x : nat).

Definition do_call (c : TaskCall) (m : Tasks) : exec (Tasks * Callbacks) :=
  match c with
  | CallNew p => '(x, st) ← Task_new p (store m); Done (mkTasks st (added m) (if p then settled m else <[x := 0]> (settled m)), [])
  | CallAdd this dependency =>
      '(st, log) ← AddDependency this dependency (store m); Done (mkTasks st (added m ++ [(this, dependency)]) (settled m), log)
  | CallComplete x s => '(st, log) ← Complete x s (store m); Done (mkTasks st (added m) (settled m), log)
  | CallExecute x =>
      '(run, st) ← ExecuteTask x (store m);
      t ← get_task st x;
      Done (mkTasks st (added m) (if run : bool then <[x := total_dependencies_count_ t]> (settled m) else settled m), [])
  end.

(** What the callers keep to: a dependency is not complete when it is added, a task completes once, and the
    dispatcher runs what was posted. *)
Definition call_allowed (m : Tasks) (c : TaskCall) : Prop :=
  match c with
  | CallNew _ => True
  | CallAdd this dependency => is_Some (tasks (store m) !! this) /\ open_task (store m) dependency
  | CallComplete x _ => open_task (store m) x
  | CallExecute x => x ∈ posted (store m)
  end.

Inductive tasks_reachable : Tasks -> Prop :=
  | tasks_start : tasks_reachable Tasks_init
  | tasks_call m c m' log : tasks_reachable m -> call_allowed m c -> do_call c m = Done (m', log) -> tasks_reachable m'.

(** A dependency of an open task is awaited or has completed successfully. *)
Definition awaited_or_ok (st : Store) (x d : nat) : Prop :=
  waits_for st x d \/ exists t, tasks st !! d = Some t /\ status_ t = Some ZX_OK.

(** A task that waits for nothing is posted, or was run with the dependencies it has. *)
Definition remembered (m : Tasks) (x : nat) (t : Task) : Prop :=
  finished_dependencies_count_ t = total_dependencies_count_ t ->
  x ∈ posted (store m) \/ settled m !! x = Some (total_dependencies_count_ t).

Record TasksInv (m : Tasks) : Prop := {
  ti_consistent : Consistent [] [] (store m);
  ti_added x d : (x, d) ∈ added m -> is_Some (tasks (store m) !! x) /\ (open_task (store m) x -> awaited_or_ok (store m) x d);
  ti_remembered x t : tasks (store m) !! x = Some t -> status_ t = None -> remembered m x t;
  ti_reset x t s : tasks (store m) !! x = Some t -> status_ t = Some s -> dependents_ t = [];
  ti_dependents d t y : tasks (store m) !! d = Some t -> y ∈ dependents_ t -> (y, d) ∈ added m;
  ti_settled x : is_Some (settled m !! x) -> is_Some (tasks (store m) !! x);
  ti_posted x : x ∈ posted (store m) -> is_Some (settled m !! x) -> exists d, (x, d) ∈ added m
}.

(** ** Each call keeps the invariant *)

(** An open task waits for nothing when its counters agree. *)
Lemma ready_nil st x t :
  Consistent [] [] st -> tasks st !! x = Some t -> status_ t = None -> finished_dependencies_count_ t = total_dependencies_count_ t ->
  forall d, ~ waits_for st x d.
Proof.
  intros HC Hx Hs Hf d (u & Hd & Hu & Hin). pose proof (co_count _ _ _ HC x t Hx Hs) as Hcount.
  pose proof (co_deps _ _ _ HC x t d Hx Hs) as Hdeps. unfold aimed_at in Hcount. simpl in Hcount, Hdeps.
  assert (dependencies_ t = []) as E by (destruct (dependencies_ t); [done|simpl in Hcount; lia]). rewrite E in Hdeps. simpl in Hdeps.
  unfold outstanding in Hdeps. rewrite Hd, (proj1 (status_completed u) Hu) in Hdeps.
  apply list_elem_of_In, (count_occ_In Nat.eq_dec) in Hin. lia.
Qed.

(** A completion keeps what is known of the dependencies. *)
Lemma awaited_evolves s roots own st st' log x d :
  Spread s roots own st st' log -> open_task st' x -> awaited_or_ok st x d -> awaited_or_ok st' x d.
Proof.
  intros HS Hx [(t & Hd & Ht & Hin)|(t & Hd & Ht)]; pose proof (ev_kept _ _ _ (sp_evolves _ _ _ _ _ _ HS) d t Hd) as (t' & Hd' & Hk);
    unfold kept, is_completed in Hk; rewrite Ht in Hk; [|right; exists t'; by destruct Hk as [-> _]].
  destruct Hk as [(Ht' & Ed & _)|(Ht' & _)]; [left; exists t'; rewrite Ed; auto|].
  destruct (decide (s = ZX_OK)) as [->|Hs]; [right; by exists t'|]. exfalso. eapply open_not_closed; [exact Hx|].
  apply (sp_all _ _ _ _ _ _ HS d x Hs); [|by exists t]. split; [by exists t|by exists t', s].
Qed.

(** What the invariant says of the tasks after a completion. *)
Lemma spread_inv s roots own m st' log :
  TasksInv m -> Spread s roots own (store m) st' log -> Consistent [] [] st' ->
  (forall y, y ∈ posted st' -> y ∈ posted (store m) \/ exists d, (y, d) ∈ added m) -> TasksInv (mkTasks st' (added m) (settled m)).
Proof.
  intros [HC HA HR HZ HD HT HP] HS HC' Hpost. pose proof (sp_evolves _ _ _ _ _ _ HS) as HE. constructor; [done|..]; simpl.
  - intros x d Hin. destruct (HA x d Hin) as [[t Hx] Ha]. split; [destruct (ev_kept _ _ _ HE x t Hx) as (t' & -> & _); eauto|].
    intros Ho. eapply awaited_evolves; [done..|]. apply Ha. by eapply evolves_open.
  - intros x t' Hx' Hs' Hf. destruct (evolves_open _ _ _ x HE) as (t & Hx & Hs); [by exists t'|].
    destruct (ev_kept _ _ _ HE x t Hx) as (t2 & Hx2 & Hk). rewrite Hx' in Hx2. injection Hx2 as <-. unfold kept, is_completed in Hk. rewrite Hs in Hk.
    destruct Hk as [(_ & _ & Et & Hor)|(? & _)]; [|congruence]. destruct (Hor Hf) as [Ef|?]; [|by left]. cbn [store settled].
    destruct (HR x t Hx Hs) as [Hp|Hp]; [congruence|left; by apply (ev_posted _ _ _ HE)|right; by rewrite Et].
  - intros x t' r Hx' Hr. destruct (ev_old _ _ _ HE x) as [t Hx]; [by rewrite Hx'|]. destruct (ev_kept _ _ _ HE x t Hx) as (t2 & Hx2 & Hk).
    rewrite Hx' in Hx2. injection Hx2 as <-. unfold kept, is_completed in Hk. destruct (status_ t) as [q|] eqn:Eq.
    + destruct Hk as [_ ->]. by eapply HZ.
    + by destruct Hk as [(? & _)|(_ & ?)]; [congruence|].
  - intros d t' y Hd' Hy. destruct (ev_old _ _ _ HE d) as [t Hd]; [by rewrite Hd'|]. destruct (ev_kept _ _ _ HE d t Hd) as (t2 & Hd2 & Hk).
    rewrite Hd' in Hd2. injection Hd2 as <-. apply (HD d t y Hd). unfold kept in Hk.
    destruct (is_completed t); [by destruct Hk as [_ <-]|]. destruct Hk as [(_ & <- & _)|(_ & E)]; [done|]. rewrite E in Hy. by apply not_elem_of_nil in Hy.
  - intros x [t Hx]%HT. destruct (ev_kept _ _ _ HE x t Hx) as (t' & -> & _). eauto.
  - intros x [Hx|?]%Hpost Hs; [by apply HP|done].
Qed.

(** A new task. *)
Section fresh.
Context (st : Store) (l : list nat) (HC : Consistent [] [] st).
Context (Hl : forall y, y ∈ l -> y ∈ posted st \/ y = next_task st).
Local Abbreviation x := (next_task st).
Local Abbreviation t0 := (mkTask [] [] None 0 0).
Local Abbreviation st' := (mkStore (<[x := t0]> (tasks st)) l (S x)).

Lemma fresh_name : tasks st !! x = None.
Proof using HC. destruct (tasks st !! x) as [t|] eqn:E; [|done]. pose proof (co_next _ _ _ HC x ltac:(eauto)). lia. Qed.

Lemma fresh_old y t : tasks st !! y = Some t -> tasks st' !! y = Some t.
Proof using HC. intros Hy. simpl. rewrite lookup_insert_ne; [done|]. intros <-. pose proof fresh_name. congruence. Qed.

Lemma fresh_lookup y t : tasks st' !! y = Some t -> (y = x /\ t = t0) \/ tasks st !! y = Some t.
Proof.
  clear. simpl. destruct (decide (y = x)) as [->|Hne]; [rewrite lookup_insert_eq; intros [= <-]; by left|rewrite lookup_insert_ne by done; by right].
Qed.

Lemma fresh_outstanding d y : outstanding st' d y = outstanding st d y.
Proof using HC.
  unfold outstanding. simpl. destruct (decide (d = x)) as [->|Hne]; [by rewrite lookup_insert_eq, fresh_name|by rewrite lookup_insert_ne].
Qed.

Lemma fresh_unawaited d : outstanding st d x = 0.
Proof using HC.
  unfold outstanding. destruct (tasks st !! d) as [t|] eqn:Hd; [|done]. destruct (is_completed t); [done|]. apply count_occ_not_In.
  intros Hin%list_elem_of_In. destruct (co_exists _ _ _ HC d x t Hd Hin) as [u Hu]. pose proof fresh_name. congruence.
Qed.

Lemma fresh_consistent : Consistent [] [] st'.
Proof using HC Hl.
  assert (forall y, is_Some (tasks st !! y) -> is_Some (tasks st' !! y)) as Hsome by (intros y [u Hu]; rewrite (fresh_old _ _ Hu); eauto).
  constructor.
  - intros y t d [[-> ->]|Hy]%fresh_lookup Hs; rewrite fresh_outstanding; [by rewrite fresh_unawaited|by apply (co_deps _ _ _ HC)].
  - intros y t [[-> ->]|Hy]%fresh_lookup Hs; [done|by apply (co_count _ _ _ HC)].
  - intros d y t [[-> ->]|Hd]%fresh_lookup Hy; [by apply not_elem_of_nil in Hy|]. apply Hsome. by eapply (co_exists _ _ _ HC).
  - intros e He. by apply not_elem_of_nil in He.
  - intros y [Hy| ->]%Hl; [by apply Hsome, (co_posted _ _ _ HC)|]. simpl. rewrite lookup_insert_eq. eauto.
  - intros y [t [[-> _]|Hy]%fresh_lookup]; simpl; [lia|]. pose proof (co_next _ _ _ HC y ltac:(eauto)). lia.
Qed.

Lemma fresh_awaited y d : is_Some (tasks st !! y) -> (open_task st y -> awaited_or_ok st y d) -> open_task st' y -> awaited_or_ok st' y d.
Proof using HC.
  intros [u Hu] Ha (t & Hy & Hs). rewrite (fresh_old _ _ Hu) in Hy. injection Hy as <-.
  destruct Ha as [(v & Hd & Hv & Hin)|(v & Hd & Hv)]; [by exists u|left; exists v|right; exists v]; by rewrite (fresh_old _ _ Hd).
Qed.
End fresh.

Lemma Task_new_ok p st :
  Consistent [] [] st -> exists l, Task_new p st = Done (next_task st, mkStore (<[next_task st := mkTask [] [] None 0 0]> (tasks st)) l (S (next_task st))) /\
    (forall y, y ∈ l <-> y ∈ posted st \/ (p = true /\ y = next_task st)).
Proof.
  intros HC. unfold Task_new. destruct p; [|exists (posted st); split; [done|naive_solver]].
  exists (posted st ++ [next_task st]). split; [|set_solver]. unfold Post, is_pending. simpl. rewrite bool_decide_false; [done|].
  intros Hp. destruct (co_posted _ _ _ HC _ Hp) as [u Hu]. by rewrite (fresh_name st HC) in Hu.
Qed.

Lemma fresh_inv p m : TasksInv m -> exists m', do_call (CallNew p) m = Done (m', []) /\ TasksInv m'.
Proof.
  intros [HC HA HR HZ HD HT HP]. destruct (Task_new_ok p (store m) HC) as (l & E & Hl). cbn [do_call]. rewrite (bind_ok _ _ _ E).
  eexists. split; [done|]. constructor; simpl.
  - apply fresh_consistent; [done|]. naive_solver.
  - intros y d Hin. destruct (HA y d Hin) as [[u Hu] Ha]. split; [exists u; exact (fresh_old _ l HC _ _ Hu)|]. apply fresh_awaited; eauto.
  - intros y t Hy Hs Hf. destruct (fresh_lookup _ l _ _ Hy) as [[-> ->]|Ho]; cbn [store posted settled].
    + destruct p; [left; apply Hl; auto|right; by rewrite lookup_insert_eq].
    + destruct (HR y t Ho Hs Hf) as [Hp|Hp]; [left; apply Hl; auto|right]. destruct p; [done|]. rewrite lookup_insert_ne; [done|].
      intros <-. rewrite (fresh_name _ HC) in Ho. done.
  - intros y t s Hy Hs. destruct (fresh_lookup _ l _ _ Hy) as [[-> ->]|Ho]; [done|by eapply HZ].
  - intros d t y Hd Hy. destruct (fresh_lookup _ l _ _ Hd) as [[-> ->]|Ho]; [by apply not_elem_of_nil in Hy|by eapply HD].
  - intros x Hx. assert (x = next_task (store m) \/ is_Some (tasks (store m) !! x)) as [->|[t Ht]].
    { destruct p; [right; by apply HT|]. destruct (decide (x = next_task (store m))) as [->|Hne]; [by left|right].
      apply HT. by rewrite lookup_insert_ne in Hx. }
    + rewrite lookup_insert_eq. eauto.
    + exists t. exact (fresh_old _ l HC _ _ Ht).
  - intros x [Hx|[-> ->]]%Hl Hs.
    + apply HP; [done|]. destruct p; [done|]. rewrite lookup_insert_ne in Hs; [done|]. intros <-. destruct (co_posted _ _ _ HC _ Hx) as [u Hu].
      by rewrite (fresh_name _ HC) in Hu.
    + destruct (HT _ Hs) as [u Hu]. by rewrite (fresh_name _ HC) in Hu.
Qed.

(** A completion. *)
Lemma complete_task_inv m x s :
  TasksInv m -> open_task (store m) x ->
  exists st' log, Complete x s (store m) = Done (st', log) /\ TasksInv (mkTasks st' (added m) (settled m)) /\ closed_task st' x /\
    Spread s (fun y => y = x) (fun y => y = x) (store m) st' log.
Proof.
  intros HI Hx. destruct (Complete_spec [] [] (store m) x s (ti_consistent _ HI) Hx) as (st' & log & E & HC & Hcl & HS).
  exists st', log. split_and!; [done| |done|done]. eapply spread_inv; [done..|]. intros y Hy.
  by apply (Complete_posts (fun y => exists d, (y, d) ∈ added m) x s (store m) st' log); [intros d t z ? ?; exists d; by eapply (ti_dependents _ HI)| |].
Qed.

(** The dispatcher takes a task. *)
Lemma execute_inv m x :
  TasksInv m -> is_Some (tasks (store m) !! x) -> exists m', do_call (CallExecute x) m = Done (m', []) /\ TasksInv m'.
Proof.
  intros [HC HA HR HZ HD HT HP] [t Hx]. cbn [do_call]. unfold ExecuteTask. set (l := filter _ _).
  set (st1 := mkStore (tasks (store m)) l (next_task (store m))). rewrite (get_task_ok st1 x t Hx). cbn [mbind exec_bind]. rewrite (get_task_ok st1 x t Hx).
  eexists. split; [done|]. constructor; [|done| | |done| |]; cbn [store].
  - apply posted_consistent; [done|]. intros y [_ Hy]%list_elem_of_filter. by apply (co_posted _ _ _ HC).
  - intros y u Hy Hs Hf. cbn [store posted settled st1]. destruct (decide (y = x)) as [->|Hne].
    + cbn [tasks st1] in Hy. rewrite Hx in Hy. injection Hy as <-. right. rewrite (proj1 (status_completed t) Hs), Hf, Nat.eqb_refl. simpl. by rewrite lookup_insert_eq.
    + destruct (HR y u Hy Hs Hf) as [Hp|Hp]; [left; by apply list_elem_of_filter|right]. case_match; [|done]. by rewrite lookup_insert_ne.
  - intros y u s Hy Hs. by eapply HZ.
  - intros y Hy. cbn [settled st1 tasks] in *. case_match; [|by apply HT]. destruct (decide (y = x)) as [->|Hne]; [eauto|]. apply HT. by rewrite lookup_insert_ne in Hy.
  - intros y [Hne Hy]%list_elem_of_filter Hs. cbn [settled added] in *. apply HP; [done|]. case_match; [|done]. by rewrite lookup_insert_ne in Hs.
Qed.

(** A task after [AddDependency this dependency]. *)
Definition with_dependency (this dependency y : nat) (t : Task) : Task :=
  mkTask (dependents_ t ++ if decide (y = dependency) then [this] else []) (dependencies_ t ++ if decide (y = this) then [dependency] else [])
    (status_ t) (total_dependencies_count_ t + if decide (y = this) then 1 else 0) (finished_dependencies_count_ t).

Lemma AddDependency_ok st this d :
  is_Some (tasks st !! this) -> open_task st d ->
  exists ts, AddDependency this d st = Done (mkStore ts (posted st) (next_task st), []) /\
    forall y, ts !! y = with_dependency this d y <$> tasks st !! y.
Proof.
  intros [t Ht] (u & Hd & Hu). unfold AddDependency. rewrite (get_task_ok _ _ _ Hd). cbn [mbind exec_bind].
  rewrite (proj1 (status_completed u) Hu). cbn [negb zx_assert exec_bind]. rewrite (update_task_ok _ _ _ _ Ht). cbn [mbind exec_bind].
  unfold RegisterDependent. rewrite (update_task_ok _ _ _ (set_dependencies (dependencies_ t ++ [d]) t)) by (by rewrite lookup_put, decide_True).
  cbn [mbind exec_bind]. set (st1 := put_task this _ (put_task this _ st)).
  assert (exists u1, tasks st1 !! d = Some u1 /\ dependents_ u1 = dependents_ u /\ status_ u1 = None /\
    finished_dependencies_count_ u1 = finished_dependencies_count_ u /\
    dependencies_ u1 = dependencies_ u ++ (if decide (d = this) then [d] else []) /\
    total_dependencies_count_ u1 = total_dependencies_count_ u + (if decide (d = this) then 1 else 0)) as (u1 & Hu1 & E1 & E2 & E3 & E4 & E5).
  { unfold st1. destruct (decide (d = this)) as [->|Hne].
    - rewrite lookup_put, decide_True by done. eexists. split; [done|]. simpl. rewrite Ht in Hd. injection Hd as <-. split_and!; [done..|lia].
    - rewrite !lookup_put, !decide_False by done. exists u. rewrite app_nil_r, Nat.add_0_r. by split_and!. }
  rewrite (get_task_ok _ _ _ Hu1). cbn [mbind exec_bind]. rewrite E2, (update_task_ok _ _ _ _ Hu1). cbn [mbind exec_bind].
  eexists. split; [done|]. intros y. fold (put_task d (set_dependents (dependents_ u1 ++ [this]) u1) st1).
  rewrite lookup_insert. unfold with_dependency. destruct (decide (d = y)) as [Edy|Edy].
  - subst y. rewrite Hd. simpl. rewrite decide_True by done. f_equal. destruct u1; simpl in *; subst. unfold set_dependents. simpl. f_equal; congruence.
  - rewrite decide_False by done. unfold st1. rewrite !lookup_put. destruct (decide (this = y)) as [Ety|Ety].
    + subst y. rewrite Ht, !decide_True by done. simpl. f_equal. unfold inc_total, set_dependencies. simpl. f_equal; [by rewrite app_nil_r|lia].
    + rewrite !decide_False by done. destruct (tasks st !! y) as [v|]; simpl; [|done]. rewrite !app_nil_r, Nat.add_0_r. by destruct v.
Qed.

Lemma with_dependency_open this d y t : status_ (with_dependency this d y t) = status_ t.
Proof. done. Qed.

Section add.
Context (m : Tasks) (this d : nat) (ts : gmap nat Task) (HI : TasksInv m) (Hd : open_task (store m) d).
Context (Hthis : is_Some (tasks (store m) !! this)) (Hts : forall y, ts !! y = with_dependency this d y <$> tasks (store m) !! y).
Local Abbreviation st' := (mkStore ts (posted (store m)) (next_task (store m))).

Lemma add_lookup y t : tasks st' !! y = Some t -> exists u, tasks (store m) !! y = Some u /\ t = with_dependency this d y u.
Proof using Hts. simpl. rewrite Hts. intros (u & -> & ->)%fmap_Some. eauto. Qed.

Lemma add_some y : is_Some (tasks st' !! y) <-> is_Some (tasks (store m) !! y).
Proof using Hts. simpl. rewrite Hts. by rewrite fmap_is_Some. Qed.

Lemma add_open y : open_task st' y <-> open_task (store m) y.
Proof using Hts.
  clear HI Hthis. split; [intros (t & (u & Hu & ->)%add_lookup & Hs); by exists u|]. intros (u & Hu & Hs). exists (with_dependency this d y u). split; [|done].
  simpl. by rewrite Hts, Hu.
Qed.

Lemma add_waits y e : waits_for st' y e <-> waits_for (store m) y e \/ (y = this /\ e = d).
Proof using Hts Hd.
  clear HI Hthis. split.
  - intros (t & (u & Hu & ->)%add_lookup & Hs & Hin). simpl in Hin. apply elem_of_app in Hin as [Hin|Hin]; [left; by exists u|].
    case_decide; [|by apply not_elem_of_nil in Hin]. apply list_elem_of_singleton in Hin. auto.
  - intros [(u & Hu & Hs & Hin)|[-> ->]].
    + exists (with_dependency this d e u). split_and!; [simpl; by rewrite Hts, Hu|done|]. simpl. set_solver.
    + destruct Hd as (u & Hu & Hs). exists (with_dependency this d d u). split_and!; [simpl; by rewrite Hts, Hu|done|]. simpl. rewrite decide_True by done. set_solver.
Qed.

Lemma add_outstanding e y : outstanding st' e y = outstanding (store m) e y + (if decide (e = d /\ y = this) then 1 else 0).
Proof using Hts Hd.
  clear HI Hthis. unfold outstanding. cbn [tasks]. rewrite Hts. destruct (tasks (store m) !! e) as [u|] eqn:He; simpl.
  - unfold is_completed. simpl. destruct (status_ u) eqn:Hs; simpl.
    + rewrite decide_False; [done|]. intros [-> ->]. destruct Hd as (v & ? & ?). congruence.
    + rewrite cnt_edges_app. f_equal. destruct (decide (e = d)) as [->|]; [rewrite cnt_one|]; repeat case_decide; try done; naive_solver.
  - rewrite decide_False; [done|]. intros [-> ->]. destruct Hd as (v & ? & ?). congruence.
Qed.

Lemma add_consistent : Consistent [] [] st'.
Proof using Hts HI Hd Hthis.
  pose proof (ti_consistent _ HI) as HC. constructor.
  - intros y t e (u & Hu & ->)%add_lookup Hs. rewrite add_outstanding. cbn [dependencies_ with_dependency]. rewrite cnt_edges_app.
    rewrite (co_deps _ _ _ HC y u e Hu Hs). destruct (decide (y = this)) as [->|Hne].
    + rewrite cnt_one. destruct (decide (d = e)) as [->|]; [rewrite decide_True by done|rewrite decide_False by naive_solver]; simpl; lia.
    + rewrite decide_False by naive_solver. simpl. lia.
  - intros y t (u & Hu & ->)%add_lookup Hs. pose proof (co_count _ _ _ HC y u Hu Hs) as H. simpl in H |- *. rewrite length_app. case_decide; simpl; lia.
  - intros e y t (u & Hu & ->)%add_lookup Hin. apply add_some. simpl in Hin. apply elem_of_app in Hin as [Hin|Hin]; [by eapply (co_exists _ _ _ HC)|].
    case_decide; [|by apply not_elem_of_nil in Hin]. apply list_elem_of_singleton in Hin as ->. done.
  - intros e He. by apply not_elem_of_nil in He.
  - intros y Hy. apply add_some. by apply (co_posted _ _ _ HC).
  - intros y Hy%add_some. by apply (co_next _ _ _ HC).
Qed.

Lemma add_inv : TasksInv (mkTasks st' (added m ++ [(this, d)]) (settled m)).
Proof using Hts HI Hd Hthis.
  constructor; cbn [store added settled]; [apply add_consistent|..].
  - intros y e [Hin|Hin]%elem_of_app.
    + destruct (ti_added _ HI y e Hin) as [Hs Ha]. split; [by apply add_some|]. rewrite add_open. intros Ho. destruct (Ha Ho) as [Hw|(u & Hu & Hst)].
      * left. apply add_waits. auto.
      * right. exists (with_dependency this d e u). split; [simpl; by rewrite Hts, Hu|done].
    + apply list_elem_of_singleton in Hin as [= -> ->]. split; [by apply add_some|]. intros _. left. apply add_waits. auto.
  - intros y t (u & Hu & ->)%add_lookup Hs Hf. pose proof (co_count _ _ _ (ti_consistent _ HI) y u Hu Hs) as Hc. simpl in Hf, Hc |- *.
    case_decide; [lia|]. rewrite Nat.add_0_r in *. by apply (ti_remembered _ HI y u).
  - intros y t s (u & Hu & ->)%add_lookup Hs. simpl. rewrite (ti_reset _ HI y u s Hu Hs). rewrite decide_False; [done|]. intros ->.
    destruct Hd as (v & ? & ?). simpl in Hs. congruence.
  - intros e t y (u & Hu & ->)%add_lookup Hin. simpl in Hin. apply elem_of_app. apply elem_of_app in Hin as [Hin|Hin].
    + left. by eapply (ti_dependents _ HI).
    + case_decide; [|by apply not_elem_of_nil in Hin]. apply list_elem_of_singleton in Hin as ->. subst. set_solver.
  - intros y Hy%(ti_settled _ HI). by apply add_some.
  - intros y Hy Hs. destruct (ti_posted _ HI y Hy Hs) as [e He]. exists e. set_solver.
Qed.
End add.

(** Every call that is allowed returns, and keeps the invariant. *)
Lemma call_returns m c : TasksInv m -> call_allowed m c -> exists m' log, do_call c m = Done (m', log) /\ TasksInv m'.
Proof.
  intros HI Ha. destruct c as [p|this d|x s|x]; simpl in Ha.
  - destruct (fresh_inv p m HI) as (m' & ? & ?). eauto.
  - destruct Ha as [Ht Hd]. destruct (AddDependency_ok (store m) this d Ht Hd) as (ts & E & Hts). cbn [do_call]. rewrite (bind_ok _ _ _ E).
    eexists _, _. split; [done|]. by apply add_inv.
  - destruct (complete_task_inv m x s HI Ha) as (st' & log & E & HI' & _). cbn [do_call]. rewrite (bind_ok _ _ _ E). eauto.
  - destruct (execute_inv m x HI) as (m' & ? & ?); [by apply (co_posted _ _ _ (ti_consistent _ HI))|]. eauto.
Qed.

(** What a call keeps: tasks stay, and only [AddDependency] adds a dependency. *)
Lemma call_effects m c m' log :
  TasksInv m -> call_allowed m c -> do_call c m = Done (m', log) ->
  (forall x, is_Some (tasks (store m) !! x) -> is_Some (tasks (store m') !! x)) /\
  (forall x, is_Some (settled m !! x) -> is_Some (settled m' !! x)) /\
  added m' = added m ++ match c with CallAdd this d => [(this, d)] | _ => [] end.
Proof.
  intros HI Ha E. destruct c as [p|this d|x s|x]; simpl in Ha.
  - destruct (Task_new_ok p (store m) (ti_consistent _ HI)) as (l & E' & _). cbn [do_call] in E. rewrite (bind_ok _ _ _ E') in E.
    injection E as <- _. cbn [store settled added tasks]. split_and!; [|destruct p; [done|]|by rewrite app_nil_r].
    + intros x [t Hx]. exists t. exact (fresh_old _ l (ti_consistent _ HI) _ _ Hx).
    + intros x Hx. rewrite lookup_insert. case_decide; eauto.
  - destruct Ha as [Ht Hd]. destruct (AddDependency_ok (store m) this d Ht Hd) as (ts & E' & Hts). cbn [do_call] in E. rewrite (bind_ok _ _ _ E') in E.
    injection E as <- _. cbn [store settled added tasks]. split_and!; [|done|done]. intros x Hx. by rewrite Hts, fmap_is_Some.
  - destruct (complete_task_inv m x s HI Ha) as (st' & log' & E' & _ & _ & HS). cbn [do_call] in E. rewrite (bind_ok _ _ _ E') in E.
    injection E as <- _. cbn [store settled added]. split_and!; [|done|by rewrite app_nil_r]. intros y [t Hy].
    destruct (ev_kept _ _ _ (sp_evolves _ _ _ _ _ _ HS) y t Hy) as (t' & -> & _). eauto.
  - cbn [do_call] in E. unfold ExecuteTask in E. destruct (co_posted _ _ _ (ti_consistent _ HI) x Ha) as [t Hx].
    rewrite (get_task_ok _ _ t) in E by done. cbn [mbind exec_bind] in E. rewrite (get_task_ok _ _ t) in E by done.
    injection E as <- _. cbn [store settled added tasks]. split_and!; [done| |by rewrite app_nil_r]. intros y Hy. case_match; [|done].
    rewrite lookup_insert. case_decide; eauto.
Qed.

(** The name of a new task, which is not posted only if it is settled. *)
Lemma new_task_name p m m' log :
  TasksInv m -> do_call (CallNew p) m = Done (m', log) ->
  log = [] /\ tasks (store m) !! next_task (store m) = None /\ is_Some (tasks (store m') !! next_task (store m)) /\
  (p = false -> is_Some (settled m' !! next_task (store m))).
Proof.
  intros HI E. destruct (Task_new_ok p (store m) (ti_consistent _ HI)) as (l & E' & _). cbn [do_call] in E. rewrite (bind_ok _ _ _ E') in E.
  injection E as <- <-. cbn [store settled tasks]. split_and!; [done|apply fresh_name, (ti_consistent _ HI)|rewrite lookup_insert_eq; eauto|].
  intros ->. rewrite lookup_insert_eq. eauto.
Qed.

(** The assertions of [AddDependency] and [Complete] check what is allowed. *)
Lemma call_checked m c m' log : do_call c m = Done (m', log) -> match c with CallExecute _ => True | _ => call_allowed m c end.
Proof.
  destruct c as [p|this d|x s|x]; cbn [do_call call_allowed]; [done| | |done].
  - intros ([st' l] & E & _)%exec_bind_Done. unfold AddDependency in E. apply exec_bind_Done in E as (t & Ht & E).
    unfold get_task in Ht. destruct (tasks (store m) !! d) as [u|] eqn:Hd; [|done]. injection Ht as ->.
    destruct (is_completed t) eqn:Ec; [done|]. cbn [negb zx_assert exec_bind] in E. apply exec_bind_Done in E as (st1 & (v & Hv & _)%update_task_inv & _).
    split; [eauto|]. exists t. by rewrite status_completed.
  - intros ([st' l] & E & _)%exec_bind_Done. unfold Complete in E. cbn [complete_fuel] in E. apply exec_bind_Done in E as (t & Ht & E).
    unfold get_task in Ht. destruct (tasks (store m) !! x) as [u|] eqn:Hd; [|done]. injection Ht as ->.
    destruct (is_completed t) eqn:Ec; [done|]. exists t. by rewrite status_completed.
Qed.

Lemma Tasks_init_inv : TasksInv Tasks_init.
Proof. constructor; [constructor|..]; simpl; unfold open_task; simpl; try done; intros; try (by apply not_elem_of_nil in H); by destruct H. Qed.

Lemma tasks_inv m : tasks_reachable m -> TasksInv m.
Proof.
  induction 1 as [|m c m' log Hm IH Ha Hc]; [apply Tasks_init_inv|]. destruct (call_returns m c IH Ha) as (m2 & log2 & E & HI).
  rewrite Hc in E. by simplify_eq.
Qed.

(** ** Tasks that complete when they are run *)

(** The dispatcher runs the posted tasks in order until there are none; a task that is run completes with
    the status [result] gives it. *)
Fixpoint drain (result : nat -> zx_status) (fuel : nat) (st : Store) : exec Store :=
  match fuel with
  | O => Panic
  | S fuel =>
      match posted st with
      | [] => Done st
      | x :: _ =>
          '(run, st) ← ExecuteTask x st;
          '(st, _) ← (if run : bool then Complete x (result x) st else Done (st, []));
          drain result fuel st
      end
  end.

(** No open task waits, directly or not, for itself. *)
Definition acyclic (st : Store) : Prop := exists rank : nat -> nat, forall x d, waits_for st x d -> rank d < rank x.

(** No open task was run without completing and none has neither been posted nor given a dependency. *)
Definition never_left (m : Tasks) : Prop :=
  forall x t, tasks (store m) !! x = Some t -> status_ t = None -> settled m !! x <> Some (total_dependencies_count_ t).

(** An open task that was not run and is not posted waits for an open task. *)
Lemma stuck_waits m x t :
  TasksInv m -> never_left m -> tasks (store m) !! x = Some t -> status_ t = None -> x ∉ posted (store m) -> exists d, waits_for (store m) x d.
Proof.
  intros HI Hu Hx Hs Hp. destruct (decide (finished_dependencies_count_ t = total_dependencies_count_ t)) as [Hf|Hf].
  { destruct (ti_remembered _ HI x t Hx Hs Hf) as [?|He]; [done|]. by destruct (Hu x t Hx Hs). }
  pose proof (co_count _ _ _ (ti_consistent _ HI) x t Hx Hs) as Hc. simpl in Hc. destruct (dependencies_ t) as [|d l] eqn:El; [simpl in Hc; lia|].
  pose proof (co_deps _ _ _ (ti_consistent _ HI) x t d Hx Hs) as Hd. rewrite El in Hd. simpl in Hd. destruct (Nat.eq_dec d d); [|done].
  unfold outstanding in Hd. exists d. destruct (tasks (store m) !! d) as [u|] eqn:Eu; [|lia]. destruct (is_completed u) eqn:Ec; [lia|].
  exists u. split_and!; [done|by apply status_completed|]. apply list_elem_of_In, (count_occ_In Nat.eq_dec). lia.
Qed.

(** When nothing is posted any more, every task has completed. *)
Lemma quiet_closed m x : TasksInv m -> never_left m -> acyclic (store m) -> posted (store m) = [] -> ~ open_task (store m) x.
Proof.
  intros HI Hu [rank Hr] Hp. remember (rank x) as k eqn:Ek. revert x Ek. induction k as [k IH] using lt_wf_ind. intros x -> (t & Hx & Hs).
  destruct (stuck_waits m x t HI Hu Hx Hs) as [d Hd]; [rewrite Hp; apply not_elem_of_nil|]. apply (IH (rank d) (Hr x d Hd) d eq_refl).
  destruct Hd as (u & ? & ? & _). by exists u.
Qed.

(** One turn of the dispatcher. *)
Lemma drain_turn result m x :
  TasksInv m -> never_left m -> acyclic (store m) -> is_Some (tasks (store m) !! x) ->
  exists run st1 st2 log m', ExecuteTask x (store m) = Done (run, st1) /\
    (if run : bool then Complete x (result x) st1 else Done (st1, [])) = Done (st2, log) /\
    store m' = st2 /\ TasksInv m' /\ never_left m' /\ acyclic st2 /\ (forall y, is_Some (tasks (store m) !! y) -> is_Some (tasks st2 !! y)) /\
    (size (incomplete st2) < size (incomplete (store m)) \/
     size (incomplete st2) = size (incomplete (store m)) /\ posted st2 = filter (fun y => y <> x) (posted (store m))).
Proof.
  intros HI Hu [rank Hr] Hsome. destruct Hsome as [t Hx]. destruct (execute_inv m x HI ltac:(eauto)) as (m1 & E & HI1).
  cbn [do_call] in E. unfold ExecuteTask in *. set (st1 := mkStore (tasks (store m)) _ _) in *. rewrite (get_task_ok st1 x t Hx) in E |- *.
  cbn [mbind exec_bind] in E |- *. rewrite (get_task_ok st1 x t Hx) in E. cbn [mbind exec_bind] in E. set (run := negb _) in *.
  injection E as <-. destruct run eqn:Er.
  - assert (status_ t = None) as Hs by (unfold run in Er; apply negb_true_iff, orb_false_iff in Er as [? _]; by apply status_completed).
    destruct (complete_task_inv _ x (result x) HI1 ltac:(by exists t)) as (st2 & log & E & HI2 & Hcl & HS). cbn [store added settled] in *.
    pose proof (sp_evolves _ _ _ _ _ _ HS) as HE.
    exists true, st1, st2, log, (mkTasks st2 (added m) (<[x := total_dependencies_count_ t]> (settled m))). split_and!; [done|done|done|done| | | |].
    + intros y u Hy Hn. cbn [store settled] in *. destruct (decide (y = x)) as [->|Hne].
      { exfalso. eapply open_not_closed; [by exists u|done]. }
      rewrite lookup_insert_ne by done. destruct (evolves_open _ _ _ y HE) as (v & Hv & Hvs); [by exists u|].
      destruct (ev_kept _ _ _ HE y v Hv) as (u' & Hu' & Hk). rewrite Hy in Hu'. injection Hu' as <-. unfold kept, is_completed in Hk. rewrite Hvs in Hk.
      destruct Hk as [(_ & _ & -> & _)|(? & _)]; [by apply (Hu y v)|congruence].
    + exists rank. intros y d Hw. apply Hr. change (waits_for st1 y d). by eapply evolves_waits.
    + intros y [u Hy]. destruct (ev_kept _ _ _ HE y u Hy) as (u' & -> & _). eauto.
    + left. change (incomplete (store m)) with (incomplete st1). pose proof (evolves_closed_size _ _ _ _ HE ltac:(by exists t) Hcl). lia.
  - exists false, st1, st1, [], (mkTasks st1 (added m) (settled m)). split_and!; [done|done|done|done|done|by exists rank|done|]. right. done.
Qed.

(** The posted tasks run until none is left, and then all have completed. *)
Lemma drain_ends result m :
  TasksInv m -> never_left m -> acyclic (store m) ->
  exists fuel st', drain result fuel (store m) = Done st' /\ posted st' = [] /\ forall x, is_Some (tasks (store m) !! x) -> closed_task st' x.
Proof.
  remember (size (incomplete (store m))) as a eqn:Ea. remember (length (posted (store m))) as b eqn:Eb. revert b m Ea Eb.
  induction a as [a IHa] using lt_wf_ind. induction b as [b IHb] using lt_wf_ind. intros m -> -> HI Hu Ha.
  destruct (posted (store m)) as [|x l] eqn:Hp.
  { exists 1, (store m). split_and!; [simpl; by rewrite Hp|done|]. intros x [Hx|?]%open_or_closed; [by destruct (quiet_closed m x HI Hu Ha Hp)|done]. }
  destruct (drain_turn result m x HI Hu Ha) as (run & st1 & st2 & log & m' & E1 & E2 & <- & HI' & Hu' & Ha' & Hold & Hm).
  { apply (co_posted _ _ _ (ti_consistent _ HI)). rewrite Hp. set_solver. }
  assert (exists fuel st', drain result fuel (store m') = Done st' /\ posted st' = [] /\ forall x, is_Some (tasks (store m') !! x) -> closed_task st' x)
    as (fuel & st' & Ed & Hq & Hd).
  { destruct Hm as [Hm|[Hm Hf]]; [by eapply (IHa _ Hm)|]. eapply (IHb (length (posted (store m')))); [|by rewrite Hm|done..].
    rewrite Hf, Hp, filter_cons, decide_False by naive_solver. pose proof (length_filter (fun y => y <> x) l). simpl. lia. }
  exists (S fuel), st'. split; [|by auto]. cbn [drain]. rewrite Hp, (bind_ok _ _ _ E1), (bind_ok _ _ _ E2). done.
Qed.

(** ** The properties of the tasks *)

(** [Run] is called for an open task whose dependencies have completed successfully. *)
Lemma run_ready m x st' :
  TasksInv m -> ExecuteTask x (store m) = Done (true, st') ->
  open_task (store m) x /\ forall d, (x, d) ∈ added m -> exists t, tasks (store m) !! d = Some t /\ status_ t = Some ZX_OK.
Proof.
  intros HI E. unfold ExecuteTask, get_task in E. cbn [tasks] in E. destruct (tasks (store m) !! x) as [t|] eqn:Hx; [|done].
  injection E as Er _. apply negb_true_iff, orb_false_iff in Er as [Hs%status_completed Hf%negb_false_iff%Nat.eqb_eq].
  split; [by exists t|]. intros d Hin. destruct (ti_added _ HI x d Hin) as [_ [Hw|Hok]]; [by exists t| |done].
  by destruct (ready_nil _ x t (ti_consistent _ HI) Hx Hs Hf d).
Qed.

(** C19. In every run of calls whose callers keep to [call_allowed] (a dependency is not complete when it is added, a task
    is completed once, what is executed was posted): the next call to create a task, add a dependency or complete a task returns, all its assertions
    and lookups passed, exactly if its caller keeps to that again, and what was posted can always be executed, so
    that no other assertion ever fails; and [Run] is called only for a task that has not completed and all of
    whose dependencies, those added last included, have completed with [ZX_OK]. *)
Theorem task_run_ready m :
  tasks_reachable m ->
  (forall c, match c with
             | CallExecute x => x ∈ posted (store m) -> exists m' log, do_call c m = Done (m', log)
             | _ => (exists m' log, do_call c m = Done (m', log)) <-> call_allowed m c
             end) /\
  (forall x st', ExecuteTask x (store m) = Done (true, st') ->
     open_task (store m) x /\ forall d, (x, d) ∈ added m -> exists t, tasks (store m) !! d = Some t /\ status_ t = Some ZX_OK).
Proof.
  intros HI%tasks_inv. split.
  - intros c. assert (call_allowed m c -> exists m' log, do_call c m = Done (m', log)) as Hr by (intros Hc; destruct (call_returns m c HI Hc) as (m' & log & ? & _); eauto).
    destruct c; [split; [by intros (m' & log & E%call_checked)|done]..|done].
  - intros x st' E. by apply (run_ready m x st').
Qed.

(** C26. [Complete] of an open task returns. Of the open tasks, those that complete are the one named
    and, for an error, all that wait for it directly or through others, and no other. They complete with that
    status, have no dependents left, and call their callbacks once each. *)
Theorem complete_exact m x s :
  tasks_reachable m -> open_task (store m) x ->
  exists st' log, Complete x s (store m) = Done (st', log) /\
    (forall y, newly (store m) st' y <->
       if decide (s = ZX_OK) then y = x else open_task (store m) y /\ rtc (fun d y => waits_for (store m) y d) x y) /\
    (forall y, newly (store m) st' y -> exists t, tasks st' !! y = Some t /\ status_ t = Some s /\ dependents_ t = []) /\
    (forall y r, (y, r) ∈ log <-> newly (store m) st' y /\ r = s) /\ NoDup log.
Proof.
  intros HI%tasks_inv Hx. destruct (complete_task_inv m x s HI Hx) as (st' & log & E & HI' & Hcl & HS). exists st', log.
  split_and!; [done| | |apply HS|apply HS].
  - intros y. case_decide as Es; split.
    + by apply (sp_own _ _ _ _ _ _ HS).
    + intros ->. by split.
    + intros Hy. split; [apply Hy|]. by destruct (sp_reach _ _ _ _ _ _ HS y Hy) as (r & -> & ?).
    + intros [Ho Hp]. split; [done|]. clear Ho. revert y Hp. refine (rtc_ind_r _ x Hcl _). intros d z _ Hw IH.
      apply (sp_all _ _ _ _ _ _ HS d z Es); [|done]. split; [|done]. destruct Hw as (u & ? & ? & _). by exists u.
  - intros y [(t & Hy & Ht) (t' & r & Hy' & Hr)]. destruct (ev_kept _ _ _ (sp_evolves _ _ _ _ _ _ HS) y t Hy) as (u & Hu & Hk).
    rewrite Hy' in Hu. injection Hu as <-. unfold kept, is_completed in Hk. rewrite Ht in Hk. exists t'.
    destruct Hk as [(? & _)|(? & ?)]; [congruence|done].
Qed.

(** C27. Nothing is forgotten: when no task waits for itself, and none that is open was run and left or is without both
    a post and a dependency, the dispatcher runs out of posted tasks, with every task completed, whatever statuses
    the tasks that are run complete with. *)
Theorem tasks_all_complete m result :
  tasks_reachable m -> never_left m -> acyclic (store m) ->
  exists fuel st', drain result fuel (store m) = Done st' /\ posted st' = [] /\ forall x, is_Some (tasks (store m) !! x) -> closed_task st' x.
Proof. intros HI%tasks_inv Hu Ha. by apply drain_ends. Qed.

(** ** An example *)
Module TaskExample.

(** Task 0 waits for the tasks 1 and 2, task 3 for task 0. *)
Definition calls : list TaskCall :=
  [CallNew false; CallNew true; CallNew true; CallNew false; CallAdd 0 1; CallAdd 0 2; CallAdd 3 0].

Fixpoint do_calls (l : list TaskCall) (m : Tasks) : exec Tasks :=
  match l with [] => Done m | c :: l => '(m, _) ← do_call c m; do_calls l m end.

Definition example : Tasks := match do_calls calls Tasks_init with Done m => m | Panic => Tasks_init end.

(** The status says what the calls must keep to. *)
Definition allowed_b (m : Tasks) (c : TaskCall) : bool :=
  let is_open x := match tasks (store m) !! x with Some t => negb (is_completed t) | None => false end in
  match c with
  | CallNew _ => true
  | CallAdd this dependency => match tasks (store m) !! this with Some _ => true | None => false end && is_open dependency
  | CallComplete x _ => is_open x
  | CallExecute x => is_pending (store m) x
  end.

Lemma allowed_b_ok m c : allowed_b m c = true -> call_allowed m c.
Proof.
  assert (forall x, match tasks (store m) !! x with Some t => negb (is_completed t) | None => false end = true -> open_task (store m) x) as Ho.
  { intros x. destruct (tasks (store m) !! x) as [t|] eqn:Hx; [|done]. intros Hc%negb_true_iff. exists t. by rewrite status_completed. }
  destruct c; simpl; [done| | |].
  - intros [H1 H2]%andb_prop. split; [|by apply Ho]. destruct (tasks (store m) !! this); [eauto|done].
  - apply Ho.
  - unfold is_pending. apply bool_decide_eq_true.
Qed.

Fixpoint all_allowed (l : list TaskCall) (m : Tasks) : bool :=
  match l with [] => true | c :: l => allowed_b m c && match do_call c m with Done (m, _) => all_allowed l m | Panic => false end end.

Lemma do_calls_reachable l m : tasks_reachable m -> all_allowed l m = true -> exists m', do_calls l m = Done m' /\ tasks_reachable m'.
Proof.
  revert m. induction l as [|c l IH]; intros m Hm Ha; [by exists m|]. cbn [all_allowed] in Ha. apply andb_prop in Ha as [Hc Ha].
  destruct (do_call c m) as [[m' log]|] eqn:E; [|done]. cbn [do_calls]. rewrite E. cbn [mbind exec_bind].
  apply IH; [|done]. eapply tasks_call; [done|by apply allowed_b_ok|done].
Qed.

Lemma example_reachable : tasks_reachable example.
Proof.
  destruct (do_calls_reachable calls Tasks_init tasks_start) as (m' & E & Hm); [vm_compute; reflexivity|]. unfold example. by rewrite E.
Qed.

Lemma example_open x : x < 4 -> open_task (store example) x.
Proof. intros Hx. do 4 (destruct x as [|x]; [eexists; split; vm_compute; reflexivity|]). lia. Qed.

(** Both dependencies complete and the task that waits for them is run. *)
Definition ran : Tasks :=
  match do_calls [CallExecute 1; CallComplete 1 ZX_OK; CallExecute 2; CallComplete 2 ZX_OK] example with Done m => m | Panic => example end.

Lemma task_run_ready_witness :
  (exists st', ExecuteTask 0 (store ran) = Done (true, st')) /\ open_task (store ran) 0 /\
  exists t, tasks (store ran) !! 2 = Some t /\ status_ t = Some ZX_OK.
Proof.
  assert (tasks_reachable ran) as Hr.
  { destruct (do_calls_reachable [CallExecute 1; CallComplete 1 ZX_OK; CallExecute 2; CallComplete 2 ZX_OK] example example_reachable) as (m' & E & Hm);
      [vm_compute; reflexivity|]. unfold ran. by rewrite E. }
  assert (exists st', ExecuteTask 0 (store ran) = Done (true, st')) as [st' E] by (eexists; vm_compute; reflexivity).
  destruct (task_run_ready ran Hr) as [_ H]. destruct (H 0 st' E) as [Ho Hd]. split; [by exists st'|]. split; [done|]. apply Hd.
  vm_compute. right. left.
Defined.

(** An error of task 1 goes to the tasks 0 and 3. *)
Lemma complete_exact_witness :
  exists st' log, Complete 1 ZX_ERR_BAD_STATE (store example) = Done (st', log) /\ newly (store example) st' 3 /\ ~ newly (store example) st' 2.
Proof.
  destruct (complete_exact example 1 ZX_ERR_BAD_STATE example_reachable (example_open 1 ltac:(lia))) as (st' & log & E & Hn & _).
  exists st', log. split; [exact E|]. split.
  - apply Hn. split; [by apply example_open; lia|]. eapply rtc_l; [|eapply rtc_l; [|apply rtc_refl]].
    + instantiate (1 := 0). eexists. split; [vm_compute; reflexivity|]. split; [vm_compute; reflexivity|]. vm_compute. left.
    + eexists. split; [vm_compute; reflexivity|]. split; [vm_compute; reflexivity|]. vm_compute. left.
  - intros [_ (t & s & Ht & Hs)]. vm_compute in E. injection E as <- _. vm_compute in Ht. injection Ht as <-. done.
Defined.

Definition example_rank (x : nat) : nat := match x with 0 => 1 | 3 => 2 | _ => 0 end.

Lemma tasks_all_complete_witness :
  exists fuel st', drain (fun x => if (x =? 2)%nat then ZX_ERR_BAD_STATE else ZX_OK) fuel (store example) = Done st' /\ closed_task st' 3.
Proof.
  destruct (tasks_all_complete example (fun x => if (x =? 2)%nat then ZX_ERR_BAD_STATE else ZX_OK) example_reachable) as (fuel & st' & E & _ & Hcl).
  - assert (bool_decide (map_Forall (fun x t => status_ t = None -> settled example !! x <> Some (total_dependencies_count_ t)) (tasks (store example))) = true)
      as H%bool_decide_eq_true by (vm_compute; reflexivity). exact H.
  - exists example_rank. assert (bool_decide (map_Forall (fun d t => Forall (fun x => example_rank d < example_rank x) (dependents_ t)) (tasks (store example))) = true)
      as H%bool_decide_eq_true by (vm_compute; reflexivity). intros x d (t & Ht & _ & Hin). exact (proj1 (Forall_forall _ _) (H d t Ht) x Hin).
  - exists fuel, st'. split; [exact E|]. apply Hcl. eexists. vm_compute. reflexivity.
Defined.
End TaskExample.
