(* ===== verification/DriverDevice.v ===== *)
(** * DriverDevice: devices of the driver manager and their tasks

    Model of the life of devices in [src/devices/bin/driver_manager/]: [device.cc], the tasks of [v1/] that start,
    suspend, resume, unbind and remove a device, and [v1/device_manager.cc]. A method is a computation over the
    world: the devices and driver hosts, the store of tasks (the machine of [DriverTaskRun]), the requests to
    driver hosts that have not been answered, and what was published. Devices of composites are left out, as are
    properties, devfs and inspection. *)
From Stdlib Require Import ZArith Lia.
From stdpp Require Import prelude gmap.
From S2P Require Import Prelude DriverTask DriverTaskRun.

(** ** Devices *)

Inductive State := kActive | kInitializing | kSuspending | kSuspended | kResuming | kResumed | kUnbinding | kDead.

#[global] Instance State_eq_dec : EqDecision State.
Proof. solve_decision. Defined.

(** The flags [DEV_CTX_...]. *)
Record Flags := mkFlags {
  IMMORTAL : bool;
  MUST_ISOLATE : bool;
  BOUND : bool;
  PROXY : bool;
  INVISIBLE : bool
}.

Definition set_BOUND (v : bool) (f : Flags) : Flags :=
  mkFlags (IMMORTAL f) (MUST_ISOLATE f) v (PROXY f) (INVISIBLE f).
Definition set_INVISIBLE (v : bool) (f : Flags) : Flags :=
  mkFlags (IMMORTAL f) (MUST_ISOLATE f) (BOUND f) (PROXY f) v.

(** The task of one kind that is in progress, and the task whose completion waits for an answer: the completion
    kept by [SendInit] and the others is always the lambda of a task of the device. *)
Record Slot := mkSlot { active_ : option nat; completion_ : option nat }.

Record Device := mkDevice {
  parent_ : option nat;
  proxy_ : option nat;
  new_proxy_ : option nat;
  children_ : list nat;
  host_ : option nat;
  state_ : State;
  flags : Flags;
  coordinator_binding_ : bool;
  retries : nat;
  backoff : Z;
  init_ : Slot;
  suspend_ : Slot;
  resume_ : Slot;
  unbind_ : Slot;
  remove_ : Slot
}.

Definition set_dev_parent (v : option nat) (d : Device) : Device :=
  mkDevice v (proxy_ d) (new_proxy_ d) (children_ d) (host_ d) (state_ d) (flags d) (coordinator_binding_ d)
    (retries d) (backoff d) (init_ d) (suspend_ d) (resume_ d) (unbind_ d) (remove_ d).
Definition set_dev_proxy (v : option nat) (d : Device) : Device :=
  mkDevice (parent_ d) v (new_proxy_ d) (children_ d) (host_ d) (state_ d) (flags d) (coordinator_binding_ d)
    (retries d) (backoff d) (init_ d) (suspend_ d) (resume_ d) (unbind_ d) (remove_ d).
Definition set_dev_new_proxy (v : option nat) (d : Device) : Device :=
  mkDevice (parent_ d) (proxy_ d) v (children_ d) (host_ d) (state_ d) (flags d) (coordinator_binding_ d)
    (retries d) (backoff d) (init_ d) (suspend_ d) (resume_ d) (unbind_ d) (remove_ d).
Definition set_dev_children (v : list nat) (d : Device) : Device :=
  mkDevice (parent_ d) (proxy_ d) (new_proxy_ d) v (host_ d) (state_ d) (flags d) (coordinator_binding_ d)
    (retries d) (backoff d) (init_ d) (suspend_ d) (resume_ d) (unbind_ d) (remove_ d).
Definition set_dev_host (v : option nat) (d : Device) : Device :=
  mkDevice (parent_ d) (proxy_ d) (new_proxy_ d) (children_ d) v (state_ d) (flags d) (coordinator_binding_ d)
    (retries d) (backoff d) (init_ d) (suspend_ d) (resume_ d) (unbind_ d) (remove_ d).
Definition set_dev_state (v : State) (d : Device) : Device :=
  mkDevice (parent_ d) (proxy_ d) (new_proxy_ d) (children_ d) (host_ d) v (flags d) (coordinator_binding_ d)
    (retries d) (backoff d) (init_ d) (suspend_ d) (resume_ d) (unbind_ d) (remove_ d).
Definition set_dev_flags (v : Flags) (d : Device) : Device :=
  mkDevice (parent_ d) (proxy_ d) (new_proxy_ d) (children_ d) (host_ d) (state_ d) v (coordinator_binding_ d)
    (retries d) (backoff d) (init_ d) (suspend_ d) (resume_ d) (unbind_ d) (remove_ d).
Definition set_dev_coordinator_binding (v : bool) (d : Device) : Device :=
  mkDevice (parent_ d) (proxy_ d) (new_proxy_ d) (children_ d) (host_ d) (state_ d) (flags d) v (retries d)
    (backoff d) (init_ d) (suspend_ d) (resume_ d) (unbind_ d) (remove_ d).
Definition set_dev_retries (v : nat) (d : Device) : Device :=
  mkDevice (parent_ d) (proxy_ d) (new_proxy_ d) (children_ d) (host_ d) (state_ d) (flags d)
    (coordinator_binding_ d) v (backoff d) (init_ d) (suspend_ d) (resume_ d) (unbind_ d) (remove_ d).
Definition set_dev_backoff (v : Z) (d : Device) : Device :=
  mkDevice (parent_ d) (proxy_ d) (new_proxy_ d) (children_ d) (host_ d) (state_ d) (flags d)
    (coordinator_binding_ d) (retries d) v (init_ d) (suspend_ d) (resume_ d) (unbind_ d) (remove_ d).
Definition set_dev_init (v : Slot) (d : Device) : Device :=
  mkDevice (parent_ d) (proxy_ d) (new_proxy_ d) (children_ d) (host_ d) (state_ d) (flags d)
    (coordinator_binding_ d) (retries d) (backoff d) v (suspend_ d) (resume_ d) (unbind_ d) (remove_ d).
Definition set_dev_suspend (v : Slot) (d : Device) : Device :=
  mkDevice (parent_ d) (proxy_ d) (new_proxy_ d) (children_ d) (host_ d) (state_ d) (flags d)
    (coordinator_binding_ d) (retries d) (backoff d) (init_ d) v (resume_ d) (unbind_ d) (remove_ d).
Definition set_dev_resume (v : Slot) (d : Device) : Device :=
  mkDevice (parent_ d) (proxy_ d) (new_proxy_ d) (children_ d) (host_ d) (state_ d) (flags d)
    (coordinator_binding_ d) (retries d) (backoff d) (init_ d) (suspend_ d) v (unbind_ d) (remove_ d).
Definition set_dev_unbind (v : Slot) (d : Device) : Device :=
  mkDevice (parent_ d) (proxy_ d) (new_proxy_ d) (children_ d) (host_ d) (state_ d) (flags d)
    (coordinator_binding_ d) (retries d) (backoff d) (init_ d) (suspend_ d) (resume_ d) v (remove_ d).
Definition set_dev_remove (v : Slot) (d : Device) : Device :=
  mkDevice (parent_ d) (proxy_ d) (new_proxy_ d) (children_ d) (host_ d) (state_ d) (flags d)
    (coordinator_binding_ d) (retries d) (backoff d) (init_ d) (suspend_ d) (resume_ d) (unbind_ d) v.

Definition set_active (v : option nat) (s : Slot) : Slot := mkSlot v (completion_ s).
Definition set_completion (v : option nat) (s : Slot) : Slot := mkSlot (active_ s) v.

(** A driver host: whether it is dying, and its devices. *)
Record DriverHost := mkDriverHost { kDying : bool; host_devices : list nat }.

(** The tasks of a device. A resume task of [SuspendResumeManager::Resume] is [scheduled]: its completion callback
    clears the active resume task of the device. *)
Inductive TaskKind :=
  | InitTask (device : nat)
  | SuspendTask (device : nat) (flags : Z)
  | ResumeTask (device : nat) (target_system_state : Z) (scheduled : bool)
  | UnbindTask (device : nat) (do_unbind driver_host_requested : bool)
  | RemoveTask (device : nat).

(** A request to the driver host of a device. *)
Inductive Request :=
  | ReqInit (device : nat)
  | ReqSuspend (device : nat) (flags : Z)
  | ReqResume (device : nat) (target_system_state : Z)
  | ReqUnbind (device : nat)
  | ReqCompleteRemoval (device : nat).

#[global] Instance Request_eq_dec : EqDecision Request.
Proof. solve_decision. Defined.

(** [published] are the devices posted to be bound, with the delay; [callbacks] the completion callbacks of tasks
    that were called. *)
Record World := mkWorld {
  device_map : gmap nat Device;
  next_device : nat;
  devices_ : list nat;
  hosts : gmap nat DriverHost;
  machine : Tasks;
  kinds : gmap nat TaskKind;
  requests : list Request;
  published : list (nat * Z);
  callbacks : Callbacks
}.

Definition set_w_device_map (v : gmap nat Device) (w : World) : World :=
  mkWorld v (next_device w) (devices_ w) (hosts w) (machine w) (kinds w) (requests w) (published w) (callbacks w).
Definition set_w_next_device (v : nat) (w : World) : World :=
  mkWorld (device_map w) v (devices_ w) (hosts w) (machine w) (kinds w) (requests w) (published w) (callbacks w).
Definition set_w_devices (v : list nat) (w : World) : World :=
  mkWorld (device_map w) (next_device w) v (hosts w) (machine w) (kinds w) (requests w) (published w) (callbacks w).
Definition set_w_hosts (v : gmap nat DriverHost) (w : World) : World :=
  mkWorld (device_map w) (next_device w) (devices_ w) v (machine w) (kinds w) (requests w) (published w)
    (callbacks w).
Definition set_w_machine (v : Tasks) (w : World) : World :=
  mkWorld (device_map w) (next_device w) (devices_ w) (hosts w) v (kinds w) (requests w) (published w) (callbacks w).
Definition set_w_kinds (v : gmap nat TaskKind) (w : World) : World :=
  mkWorld (device_map w) (next_device w) (devices_ w) (hosts w) (machine w) v (requests w) (published w)
    (callbacks w).
Definition set_w_requests (v : list Request) (w : World) : World :=
  mkWorld (device_map w) (next_device w) (devices_ w) (hosts w) (machine w) (kinds w) v (published w) (callbacks w).
Definition set_w_published (v : list (nat * Z)) (w : World) : World :=
  mkWorld (device_map w) (next_device w) (devices_ w) (hosts w) (machine w) (kinds w) (requests w) v (callbacks w).
Definition set_w_callbacks (v : Callbacks) (w : World) : World :=
  mkWorld (device_map w) (next_device w) (devices_ w) (hosts w) (machine w) (kinds w) (requests w) (published w) v.


(** ** Computations over the world *)

Definition M (A : Type) : Type := World -> exec (A * World).

#[global] Instance M_ret : MRet M := fun A a w => Done (a, w).
#[global] Instance M_bind : MBind M := fun A B f m w => match m w with Done (a, w) => f a w | Panic => Panic end.

(** A failed assertion, or a null pointer that is dereferenced. *)
Definition panic {A} : M A := fun _ => Panic.
Definition assert (b : bool) : M unit := if b then mret tt else panic.
Definition deref (o : option nat) : M nat := match o with Some x => mret x | None => panic end.

Definition get_dev (d : nat) : M Device := fun w => match device_map w !! d with Some dev => Done (dev, w) | None => Panic end.
Definition upd_dev (f : Device -> Device) (d : nat) : M unit :=
  fun w => match device_map w !! d with Some dev => Done (tt, set_w_device_map (<[d := f dev]> (device_map w)) w) | None => Panic end.

Fixpoint for_each (f : nat -> M unit) (l : list nat) : M unit :=
  match l with [] => mret tt | x :: l => _ ← f x; for_each f l end.

Definition is_some {A} (o : option A) : bool := match o with Some _ => true | None => false end.

(** The completion callback of a task, by its kind. *)
Definition callback (w : World) (t : nat) : World :=
  match kinds w !! t with
  | Some (ResumeTask d _ true) =>
      match device_map w !! d with
      | Some v => set_w_device_map (<[d := set_dev_resume (set_active None (resume_ v)) v]> (device_map w)) w
      | None => w
      end
  | _ => w
  end.

(** A call on a task, and the callbacks of the tasks that it completes, which touch no task. *)
Definition task_call (c : TaskCall) : M unit := fun w =>
  match do_call c (machine w) with
  | Done (m, log) => Done (tt, set_w_callbacks (callbacks w ++ log) (fold_left callback log.*1 (set_w_machine m w)))
  | Panic => Panic
  end.

Definition new_task (k : TaskKind) (post_on_create : bool) : M nat := fun w =>
  let x := next_task (store (machine w)) in
  match task_call (CallNew post_on_create) w with
  | Done (_, w) => Done (x, set_w_kinds (<[x := k]> (kinds w)) w)
  | Panic => Panic
  end.

(** [this->AddDependency(dependency)] where [dependency] may be null. *)
Definition add_dependency (this : nat) (dependency : option nat) : M unit := x ← deref dependency; task_call (CallAdd this x).
Definition complete_task (x : nat) (s : zx_status) : M unit := task_call (CallComplete x s).

Definition get_kind (x : nat) : M TaskKind := fun w => match kinds w !! x with Some k => Done (k, w) | None => Panic end.
Definition set_kind (x : nat) (k : TaskKind) : M unit := fun w => Done (tt, set_w_kinds (<[x := k]> (kinds w)) w).

Definition send (r : Request) : M unit := fun w => Done (tt, set_w_requests (requests w ++ [r]) w).

(** ** Device *)

Definition set_state (d : nat) (s : State) : M unit :=
  _ ← upd_dev (set_dev_state s) d;
  if decide (s = kDead) then upd_dev (set_dev_coordinator_binding false) d else mret tt.

Definition DropInitTask : nat -> M unit := upd_dev (fun v => set_dev_init (set_active None (init_ v)) v).
Definition DropSuspendTask : nat -> M unit := upd_dev (fun v => set_dev_suspend (set_active None (suspend_ v)) v).
Definition DropUnbindTask : nat -> M unit := upd_dev (fun v => set_dev_unbind (set_active None (unbind_ v)) v).
Definition DropRemoveTask : nat -> M unit := upd_dev (fun v => set_dev_remove (set_active None (remove_ v)) v).

Definition SignalReadyForBind (d : nat) (delay : Z) : M zx_status := fun w =>
  Done (ZX_OK, set_w_published (published w ++ [(d, delay)]) w).

(** The list of a driver host. *)
Definition upd_host (f : list nat -> list nat) (h : nat) : M unit := fun w =>
  match hosts w !! h with
  | Some v => Done (tt, set_w_hosts (<[h := mkDriverHost (kDying v) (f (host_devices v))]> (hosts w)) w)
  | None => Panic
  end.

Definition set_host (d : nat) (host : option nat) : M unit :=
  dev ← get_dev d;
  _ ← match host_ dev with Some h => upd_host (filter (fun x => x <> d)) h | None => mret tt end;
  _ ← upd_dev (set_dev_host host) d;
  match host with Some h => upd_host (fun l => l ++ [d]) h | None => mret tt end.

Definition CreateInitTask (d : nat) : M unit :=
  dev ← get_dev d;
  _ ← assert (negb (is_some (active_ (init_ dev))));
  _ ← set_state d kInitializing;
  t ← new_task (InitTask d) true;
  upd_dev (fun v => set_dev_init (set_active (Some t) (init_ v)) v) d.

Definition RequestSuspendTask (d : nat) (suspend_flags : Z) : M nat :=
  dev ← get_dev d;
  match active_ (suspend_ dev) with
  | Some t =>
      k ← get_kind t;
      _ ← assert (match k with SuspendTask _ f => (suspend_flags =? f)%Z | _ => false end);
      mret t
  | None =>
      t ← new_task (SuspendTask d suspend_flags) true;
      _ ← upd_dev (fun v => set_dev_suspend (set_active (Some t) (suspend_ v)) v) d;
      mret t
  end.

Definition RequestResumeTask (d : nat) (target_system_state : Z) : M nat :=
  dev ← get_dev d;
  match active_ (resume_ dev) with
  | Some t =>
      k ← get_kind t;
      _ ← assert (match k with ResumeTask _ s _ => (target_system_state =? s)%Z | _ => false end);
      mret t
  | None =>
      t ← new_task (ResumeTask d target_system_state false) true;
      _ ← upd_dev (fun v => set_dev_resume (set_active (Some t) (resume_ v)) v) d;
      mret t
  end.

Definition SendInit (d t : nat) : M unit :=
  dev ← get_dev d;
  _ ← assert (negb (is_some (completion_ (init_ dev))));
  _ ← send (ReqInit d);
  upd_dev (fun v => set_dev_init (set_completion (Some t) (init_ v)) v) d.

(** The completion of a suspend task. *)
Definition suspend_completion (t d : nat) (status : zx_status) : M unit := _ ← complete_task t status; DropSuspendTask d.

Definition SendSuspend (d : nat) (flags : Z) (t : nat) : M unit :=
  dev ← get_dev d;
  if is_some (completion_ (suspend_ dev)) then suspend_completion t d ZX_ERR_UNAVAILABLE
  else
    _ ← send (ReqSuspend d flags);
    _ ← set_state d kSuspending;
    upd_dev (fun v => set_dev_suspend (set_completion (Some t) (suspend_ v)) v) d.

Definition CompleteSuspend (d : nat) (status : zx_status) : M unit :=
  dev ← get_dev d;
  _ ← (if decide (state_ dev = kDead) then mret tt else set_state d (if decide (status = ZX_OK) then kSuspended else kActive));
  _ ← match completion_ (suspend_ dev) with
      | Some t => _ ← upd_dev (fun v => set_dev_suspend (set_completion None (suspend_ v)) v) d; suspend_completion t d status
      | None => mret tt
      end;
  DropSuspendTask d.

(** The completion of a resume task. *)
Definition resume_completion (t d : nat) (status : zx_status) : M unit :=
  _ ← set_state d (if decide (status = ZX_OK) then kActive else kSuspended);
  complete_task t status.

Definition SendResume (d : nat) (target_system_state : Z) (t : nat) : M unit :=
  dev ← get_dev d;
  if is_some (completion_ (resume_ dev)) then resume_completion t d ZX_ERR_UNAVAILABLE
  else
    _ ← send (ReqResume d target_system_state);
    _ ← set_state d kResuming;
    upd_dev (fun v => set_dev_resume (set_completion (Some t) (resume_ v)) v) d.

Definition CompleteResume (d : nat) (status : zx_status) : M unit :=
  _ ← set_state d (if decide (status = ZX_OK) then kResumed else kSuspended);
  dev ← get_dev d;
  match completion_ (resume_ dev) with
  | Some t => _ ← upd_dev (fun v => set_dev_resume (set_completion None (resume_ v)) v) d; resume_completion t d status
  | None => mret tt
  end.

Definition MakeVisible (d : nat) : M zx_status :=
  dev ← get_dev d;
  if decide (state_ dev = kDead) then mret ZX_ERR_BAD_STATE
  else if decide (state_ dev = kInitializing) then mret ZX_ERR_BAD_STATE
  else if INVISIBLE (flags dev) then
    _ ← upd_dev (fun v => set_dev_flags (set_INVISIBLE false (flags v)) v) d;
    SignalReadyForBind d 0
  else mret ZX_OK.

Definition DetachFromParent (d : nat) : M unit :=
  dev ← get_dev d;
  _ ← upd_dev (set_dev_parent None) d;
  parent ← deref (parent_ dev);
  if PROXY (flags dev) then upd_dev (set_dev_proxy None) parent
  else upd_dev (fun v => set_dev_children (filter (fun x => x <> d) (children_ v)) v) parent.

(** ** Unbinding and removing *)

Record UnbindTaskOpts := mkUnbindTaskOpts { opt_do_unbind : bool; opt_post_on_create : bool; opt_driver_host_requested : bool }.

Inductive DriverHostCrashPolicy := kRestartDriverHost | kRebootSystem | kDoNothing.

#[global] Instance DriverHostCrashPolicy_eq_dec : EqDecision DriverHostCrashPolicy.
Proof. solve_decision. Defined.

(** [RemoveDevice] completes tasks, whose completions may call [RemoveDevice]. *)
Section lifecycle.
Context (crash_policy_ : DriverHostCrashPolicy).
Context (remove_device : nat -> bool -> M zx_status).

(** Removes the device by force after an error, unless it is being removed. *)
Definition remove_if_failed (d : nat) (status : zx_status) : M unit :=
  dev ← get_dev d;
  if negb (bool_decide (status = ZX_OK)) && negb (bool_decide (status = ZX_ERR_UNAVAILABLE)) && negb (bool_decide (state_ dev = kDead))
  then _ ← remove_device d true; mret tt
  else mret tt.

(** The completion of an unbind task. *)
Definition unbind_completion (t d : nat) (status : zx_status) : M unit :=
  _ ← remove_if_failed d status;
  _ ← complete_task t (if decide (status = ZX_OK) then ZX_OK else ZX_ERR_UNAVAILABLE);
  DropUnbindTask d.

(** The completion of a remove task. *)
Definition remove_completion (t d : nat) (status : zx_status) : M unit :=
  _ ← remove_if_failed d status;
  _ ← complete_task t (if decide (status = ZX_OK) then ZX_OK else ZX_ERR_UNAVAILABLE);
  DropRemoveTask d.

Definition CompleteUnbind (d : nat) (status : zx_status) : M zx_status :=
  dev ← get_dev d;
  if negb (is_some (completion_ (unbind_ dev))) && bool_decide (status = ZX_OK) then mret ZX_ERR_IO
  else
    _ ← match completion_ (unbind_ dev) with
        | Some t => _ ← upd_dev (fun v => set_dev_unbind (set_completion None (unbind_ v)) v) d; unbind_completion t d status
        | None => mret tt
        end;
    _ ← DropUnbindTask d;
    mret ZX_OK.

Definition CompleteRemove (d : nat) (status : zx_status) : M zx_status :=
  dev ← get_dev d;
  if negb (is_some (completion_ (remove_ dev))) && bool_decide (status = ZX_OK) then mret ZX_ERR_IO
  else
    _ ← (if decide (status = ZX_OK) then _ ← remove_device d false; mret tt else mret tt);
    dev ← get_dev d;
    _ ← match completion_ (remove_ dev) with
        | Some t => _ ← upd_dev (fun v => set_dev_remove (set_completion None (remove_ v)) v) d; remove_completion t d ZX_OK
        | None => mret tt
        end;
    _ ← DropRemoveTask d;
    mret ZX_OK.

Definition CreateUnbindRemoveTasks (d : nat) (opts : UnbindTaskOpts) : M unit :=
  dev ← get_dev d;
  if decide (state_ dev = kDead) then mret tt
  else match active_ (unbind_ dev), active_ (remove_ dev) with
  | None, None =>
      r ← new_task (RemoveTask d) false;
      _ ← upd_dev (fun v => set_dev_remove (set_active (Some r) (remove_ v)) v) d;
      u ← new_task (UnbindTask d (opt_do_unbind opts) (opt_driver_host_requested opts)) (opt_post_on_create opts);
      upd_dev (fun v => set_dev_unbind (set_active (Some u) (unbind_ v)) v) d
  | None, _ => mret tt
  | Some u, _ =>
      k ← get_kind u;
      match k with
      | UnbindTask _ _ requested =>
          if negb (opt_driver_host_requested opts && negb requested) then mret tt
          else if decide (state_ dev = kUnbinding) then
            (if is_some (completion_ (unbind_ dev)) then _ ← CompleteUnbind d ZX_OK; mret tt else mret tt)
          else set_kind u (UnbindTask d (opt_do_unbind opts) requested)
      | _ => panic
      end
  end.

Definition ScheduleRemove (d : nat) : M unit := CreateUnbindRemoveTasks d (mkUnbindTaskOpts false true false).
Definition ScheduleDriverHostRequestedRemove (d : nat) (do_unbind : bool) : M unit :=
  CreateUnbindRemoveTasks d (mkUnbindTaskOpts do_unbind true true).
Definition ScheduleDriverHostRequestedUnbindChildren (parent : nat) : M unit :=
  dev ← get_dev parent;
  for_each (fun child => CreateUnbindRemoveTasks child (mkUnbindTaskOpts true true true)) (children_ dev).
Definition ScheduleUnbindRemoveAllDevices (h : nat) : M unit := fun w =>
  match hosts w !! h with
  | Some host => for_each (fun d => CreateUnbindRemoveTasks d (mkUnbindTaskOpts true true false)) (host_devices host) w
  | None => Panic
  end.

(** The completion of an init task. *)
Definition init_completion (t d : nat) (status : zx_status) : M unit :=
  dev ← get_dev d;
  _ ← (if decide (state_ dev = kDead) then mret tt else set_state d kActive);
  _ ← (if decide (status = ZX_OK) then _ ← MakeVisible d; mret tt
       else if decide (state_ dev = kDead) then mret tt
       else ScheduleDriverHostRequestedRemove d true);
  _ ← complete_task t ZX_OK;
  DropInitTask d.

Definition CompleteInit (d : nat) (status : zx_status) : M zx_status :=
  dev ← get_dev d;
  if negb (is_some (completion_ (init_ dev))) && bool_decide (status = ZX_OK) then mret ZX_ERR_IO
  else
    _ ← match completion_ (init_ dev) with
        | Some t => _ ← upd_dev (fun v => set_dev_init (set_completion None (init_ v)) v) d; init_completion t d status
        | None => mret tt
        end;
    _ ← DropInitTask d;
    mret ZX_OK.

(** The loop that removes the devices of a driver host that dies. [LOGF(FATAL)] aborts. *)
Fixpoint remove_all (fuel : nat) (h : nat) (last : option nat) : M unit := fun w =>
  match fuel, hosts w !! h with
  | S fuel, Some host =>
      match host_devices host with
      | [] => Done (tt, w)
      | next :: _ =>
          if decide (last = Some next) then Panic
          else (_ ← remove_device next false; remove_all fuel h (Some next)) w
      end
  | _, _ => Panic
  end.

Definition host_dying (h : nat) : M bool := fun w => match hosts w !! h with Some host => Done (kDying host, w) | None => Panic end.
Definition host_length (h : nat) : M nat := fun w => match hosts w !! h with Some host => Done (length (host_devices host), w) | None => Panic end.
Definition set_dying (h : nat) : M unit := fun w =>
  match hosts w !! h with
  | Some host => Done (tt, set_w_hosts (<[h := mkDriverHost true (host_devices host)]> (hosts w)) w)
  | None => Panic
  end.

(** Taking the device off its driver host, and with it, if forced, the other devices of the host. *)
Definition detach_from_host (d : nat) (dh : option nat) (forced : bool) : M unit :=
  match dh with
  | None => mret tt
  | Some h =>
      _ ← set_host d None;
      if forced then
        _ ← set_dying h;
        n ← host_length h;
        remove_all (S n) h None
      else mret tt
  end.

(** Taking the device off its parent, which is bound again if its last child is gone. *)
Definition leave_parent (d : nat) : M zx_status :=
  dev ← get_dev d;
  match parent_ dev with
  | None => mret ZX_OK
  | Some parent =>
      _ ← DetachFromParent d;
      if PROXY (flags dev) then mret ZX_OK
      else
        p ← get_dev parent;
        match children_ p with
        | _ :: _ => mret ZX_OK
        | [] =>
            _ ← upd_dev (fun v => set_dev_flags (set_BOUND false (flags v)) v) parent;
            dying ← match host_ p with Some h => host_dying h | None => mret false end;
            if bool_decide (crash_policy_ = kRestartDriverHost) && negb (bool_decide (state_ p = kDead)) && MUST_ISOLATE (flags p) && negb dying then
              match retries p with
              | O => mret ZX_OK
              | S k =>
                  r ← SignalReadyForBind parent (backoff p);
                  if decide (r = ZX_OK) then
                    _ ← upd_dev (fun v => set_dev_retries k (set_dev_backoff (backoff p * 2)%Z v)) parent;
                    mret ZX_OK
                  else mret r
              end
            else mret ZX_OK
        end
  end.

Definition erase_device (d : nat) : M unit := fun w => Done (tt, set_w_devices (filter (fun x => x <> d) (devices_ w)) w).

(** One call of [RemoveDevice]. *)
Definition RemoveDevice_body (d : nat) (forced : bool) : M zx_status :=
  _ ← assert (negb (forced && bool_decide (crash_policy_ = kRebootSystem)));
  dev ← get_dev d;
  if decide (state_ dev = kDead) then mret ZX_ERR_BAD_STATE
  else if IMMORTAL (flags dev) then mret ZX_ERR_BAD_STATE
  else
    _ ← set_state d kDead;
    _ ← CompleteSuspend d ZX_OK;
    _ ← CompleteInit d ZX_ERR_UNAVAILABLE;
    dev ← get_dev d;
    let dh := host_ dev in
    driver_host_dying ← match dh with Some h => host_dying h | None => mret false end;
    _ ← (if forced || driver_host_dying then
           _ ← CompleteUnbind d ZX_ERR_UNAVAILABLE;
           _ ← CompleteRemove d ZX_ERR_UNAVAILABLE;
           dev ← get_dev d;
           _ ← match proxy_ dev with Some p => ScheduleRemove p | None => mret tt end;
           match new_proxy_ dev with Some p => ScheduleRemove p | None => mret tt end
         else assert (negb (is_some (active_ (unbind_ dev)))));
    _ ← detach_from_host d dh forced;
    r ← leave_parent d;
    if decide (r = ZX_OK) then
      _ ← (if PROXY (flags dev) then mret tt else erase_device d);
      mret ZX_OK
    else mret r.
End lifecycle.

(** A forced removal removes the other devices of the driver host; those removals complete tasks with
    [ZX_ERR_UNAVAILABLE] or [ZX_OK], for which no completion calls [RemoveDevice]. *)
Fixpoint remove_fuel (policy : DriverHostCrashPolicy) (fuel : nat) (d : nat) (forced : bool) : M zx_status :=
  match fuel with O => panic | S fuel => RemoveDevice_body policy (remove_fuel policy fuel) d forced end.

Definition RemoveDevice (policy : DriverHostCrashPolicy) : nat -> bool -> M zx_status := remove_fuel policy 3.

(** ** The tasks *)

Section run.
Context (policy : DriverHostCrashPolicy).

Definition InitTask_Run (t d : nat) : M unit :=
  dev ← get_dev d;
  _ ← assert (bool_decide (state_ dev = kInitializing));
  _ ← assert (negb (PROXY (flags dev)));
  waiting ← match parent_ dev with
            | Some p => pdev ← get_dev p; mret (if decide (state_ pdev = kInitializing) then Some (active_ (init_ pdev)) else None)
            | None => mret None
            end;
  match waiting with
  | Some init_task => add_dependency t init_task
  | None => if is_some (host_ dev) then SendInit d t else init_completion (RemoveDevice policy) t d ZX_OK
  end.

Definition IsDeviceBeingRemoved (dev : Device) : bool :=
  bool_decide (state_ dev = kUnbinding) || bool_decide (state_ dev = kDead) || is_some (active_ (remove_ dev)).

(** The loop over the children: whether a dependency was added. *)
Fixpoint suspend_children (t : nat) (flags_ : Z) (children : list nat) : M bool :=
  match children with
  | [] => mret false
  | child :: children =>
      dev ← get_dev child;
      match state_ dev with
      | kDead | kUnbinding | kSuspended => suspend_children t flags_ children
      | _ =>
          if IsDeviceBeingRemoved dev then suspend_children t flags_ children
          else
            s ← RequestSuspendTask child flags_;
            _ ← add_dependency t (Some s);
            _ ← suspend_children t flags_ children;
            mret true
      end
  end.

(** The device once its children and its proxy need not be waited for. *)
Definition suspend_self (t d : nat) (flags_ : Z) : M unit :=
  dev ← get_dev d;
  if decide (state_ dev = kInitializing) then add_dependency t (active_ (init_ dev))
  else if IsDeviceBeingRemoved dev then complete_task t ZX_OK
  else if decide (state_ dev = kResuming) then add_dependency t (active_ (resume_ dev))
  else if is_some (host_ dev) then SendSuspend d flags_ t
  else
    _ ← (if decide (state_ dev = kDead) then mret tt else set_state d kSuspended);
    complete_task t ZX_OK.

Definition SuspendTask_Run (t d : nat) (flags_ : Z) : M unit :=
  dev ← get_dev d;
  found_more_dependencies ← suspend_children t flags_ (children_ dev);
  if (found_more_dependencies : bool) then mret tt
  else match proxy_ dev with
  | None => suspend_self t d flags_
  | Some p =>
      pdev ← get_dev p;
      match state_ pdev with
      | kDead | kSuspended | kResuming | kResumed => suspend_self t d flags_
      | _ => s ← RequestSuspendTask p flags_; add_dependency t (Some s)
      end
  end.

(** Waiting for the resume task of [p], the proxy or the parent: whether a dependency was added. *)
Definition resume_after (t p : nat) (target_system_state_ : Z) : M bool :=
  pdev ← get_dev p;
  match state_ pdev with
  | kDead => _ ← complete_task t ZX_ERR_NOT_CONNECTED; mret false
  | kInitializing | kActive => mret false
  | _ => r ← RequestResumeTask p target_system_state_; _ ← add_dependency t (Some r); mret true
  end.

Definition AddParentResumeTask (t d : nat) (target_system_state_ : Z) : M bool :=
  dev ← get_dev d;
  match parent_ dev with None => mret false | Some p => resume_after t p target_system_state_ end.

Definition AddProxyResumeTask (t d : nat) (target_system_state_ : Z) : M bool :=
  dev ← get_dev d;
  if PROXY (flags dev) then mret false
  else match parent_ dev with
  | None => mret false
  | Some p => pdev ← get_dev p; match proxy_ pdev with None => mret false | Some x => resume_after t x target_system_state_ end
  end.

Definition ResumeTask_Run (t d : nat) (target_system_state_ : Z) : M unit :=
  dev ← get_dev d;
  match state_ dev with
  | kDead => complete_task t ZX_ERR_NOT_CONNECTED
  | kActive => complete_task t ZX_OK
  | kInitializing => panic
  | kUnbinding => add_dependency t (active_ (remove_ dev))
  | kSuspending => add_dependency t (active_ (suspend_ dev))
  | _ =>
      proxy ← AddProxyResumeTask t d target_system_state_;
      if (proxy : bool) then mret tt
      else
        parent ← AddParentResumeTask t d target_system_state_;
        if (parent : bool) then mret tt
        else if is_some (host_ dev) then SendResume d target_system_state_ t
        else _ ← set_state d kActive; complete_task t ZX_OK
  end.

(** The tasks of the proxy are created; it is unbound after the device, and removed before it. *)
Definition link_proxy (u remove_task p : nat) : M unit :=
  _ ← CreateUnbindRemoveTasks (RemoveDevice policy) p (mkUnbindTaskOpts false false false);
  pdev ← get_dev p;
  _ ← match active_ (unbind_ pdev) with Some pu => add_dependency pu (Some u) | None => mret tt end;
  add_dependency remove_task (active_ (remove_ pdev)).

Definition schedule_unbind_proxy (u remove_task p : nat) : M unit :=
  pdev ← get_dev p;
  match state_ pdev with
  | kDead | kUnbinding => mret tt
  | _ => link_proxy u remove_task p
  end.

(** The tasks of a child are created; it is unbound after [parent], and removed before it. *)
Definition link_child (parent child : nat) : M unit :=
  _ ← CreateUnbindRemoveTasks (RemoveDevice policy) child (mkUnbindTaskOpts true false false);
  cdev ← get_dev child;
  pdev ← get_dev parent;
  _ ← match active_ (unbind_ cdev), active_ (unbind_ pdev) with
      | Some cu, Some pu => add_dependency cu (Some pu)
      | _, _ => mret tt
      end;
  child_remove_task ← deref (active_ (remove_ cdev));
  match active_ (remove_ pdev) with Some pr => add_dependency pr (Some child_remove_task) | None => mret tt end.

Definition schedule_unbind_child (parent child : nat) : M unit :=
  cdev ← get_dev child;
  match state_ cdev with
  | kDead | kUnbinding => mret tt
  | _ => link_child parent child
  end.

Definition ScheduleUnbindChildren (u d : nat) : M unit :=
  dev ← get_dev d;
  match active_ (remove_ dev) with
  | None => mret tt
  | Some remove_task =>
      _ ← add_dependency remove_task (Some u);
      _ ← match proxy_ dev with Some p => schedule_unbind_proxy u remove_task p | None => mret tt end;
      children ← match PROXY (flags dev), parent_ dev with
                 | true, Some p => pdev ← get_dev p; mret (children_ pdev)
                 | _, _ => mret (children_ dev)
                 end;
      for_each (schedule_unbind_child (default d (proxy_ dev))) children
  end.

Definition SendUnbind (d u : nat) : M unit :=
  dev ← get_dev d;
  if is_some (completion_ (unbind_ dev)) then unbind_completion (RemoveDevice policy) u d ZX_ERR_UNAVAILABLE
  else
    _ ← set_state d kUnbinding;
    _ ← send (ReqUnbind d);
    upd_dev (fun v => set_dev_unbind (set_completion (Some u) (unbind_ v)) v) d.

Definition UnbindTask_Run (u d : nat) (do_unbind_ : bool) : M unit :=
  dev ← get_dev d;
  match state_ dev with
  | kInitializing => add_dependency u (active_ (init_ dev))
  | kSuspending => add_dependency u (active_ (suspend_ dev))
  | kResuming => add_dependency u (active_ (resume_ dev))
  | _ =>
      _ ← ScheduleUnbindChildren u d;
      if is_some (host_ dev) && do_unbind_ then SendUnbind d u else unbind_completion (RemoveDevice policy) u d ZX_OK
  end.

Definition SendCompleteRemove (d r : nat) : M unit :=
  dev ← get_dev d;
  if is_some (completion_ (remove_ dev)) then remove_completion (RemoveDevice policy) r d ZX_ERR_UNAVAILABLE
  else
    _ ← set_state d kUnbinding;
    _ ← send (ReqCompleteRemoval d);
    upd_dev (fun v => set_dev_remove (set_completion (Some r) (remove_ v)) v) d.

Definition RemoveTask_Run (r d : nat) : M unit :=
  dev ← get_dev d;
  if is_some (host_ dev) then SendCompleteRemove d r else remove_completion (RemoveDevice policy) r d ZX_OK.

Definition Run (t : nat) : M unit :=
  k ← get_kind t;
  match k with
  | InitTask d => InitTask_Run t d
  | SuspendTask d f => SuspendTask_Run t d f
  | ResumeTask d s _ => ResumeTask_Run t d s
  | UnbindTask d do_unbind _ => UnbindTask_Run t d do_unbind
  | RemoveTask d => RemoveTask_Run t d
  end.

(** ** The calls from outside *)

(** [Device::Create] and [AddDevice] of a device without fragments. [created] is the answer of what comes before the
    device is put into the tree (properties, inspection, devfs). *)
Definition new_device (parent : option nat) (fl : Flags) : M nat := fun w =>
  let d := next_device w in
  let dev := mkDevice parent None None [] None kActive fl false 4 250 (mkSlot None None) (mkSlot None None) (mkSlot None None) (mkSlot None None) (mkSlot None None) in
  Done (d, set_w_next_device (S d) (set_w_device_map (<[d := dev]> (device_map w)) w)).

Definition append_device (d : nat) : M unit := fun w => Done (tt, set_w_devices (devices_ w ++ [d]) w).

Definition Device_Create (parent : nat) (must_isolate want_init_task : bool) (created : zx_status) : M (zx_status * nat) :=
  pdev ← get_dev parent;
  real_parent ← (if PROXY (flags pdev) then deref (parent_ pdev) else mret parent);
  d ← new_device (Some real_parent) (mkFlags false must_isolate false false want_init_task);
  if decide (created = ZX_OK) then
    _ ← upd_dev (set_dev_coordinator_binding true) d;
    _ ← set_host d (host_ pdev);
    _ ← upd_dev (fun v => set_dev_children (children_ v ++ [d]) v) real_parent;
    _ ← (if want_init_task : bool then CreateInitTask d else mret tt);
    mret (ZX_OK, d)
  else mret (created, d).

(** [in_suspend] and [in_resume] are the answers of the suspend and resume manager. *)
Definition AddDevice (in_suspend in_resume : bool) (parent : nat) (must_isolate has_init : bool) (created : zx_status) : M zx_status :=
  if in_suspend then mret ZX_ERR_BAD_STATE
  else if in_resume then mret ZX_ERR_BAD_STATE
  else
    pdev ← get_dev parent;
    if decide (state_ pdev = kUnbinding) then mret ZX_ERR_BAD_STATE
    else
      '(status, d) ← Device_Create parent must_isolate has_init created;
      if decide (status = ZX_OK) then
        _ ← append_device d;
        if has_init then mret ZX_OK else SignalReadyForBind d 0
      else mret status.

(** [CreateProxy] and [CreateNewProxy], and the driver host that the coordinator launches for the proxy. *)
Definition CreateProxy (d : nat) : M unit :=
  dev ← get_dev d;
  _ ← assert (negb (is_some (proxy_ dev)));
  p ← new_device (Some d) (mkFlags false false false true false);
  upd_dev (set_dev_proxy (Some p)) d.

Definition CreateNewProxy (d : nat) : M unit :=
  dev ← get_dev d;
  _ ← assert (negb (is_some (new_proxy_ dev)));
  p ← new_device (Some d) (mkFlags false false false true false);
  upd_dev (set_dev_new_proxy (Some p)) d.

(** A new driver host. *)
Definition NewDriverHost : M nat := fun w =>
  let h := fresh (dom (hosts w)) in Done (h, set_w_hosts (<[h := mkDriverHost false []]> (hosts w)) w).

(** [launched] and [connected] are the answers of launching the host and of creating the device there. *)
Definition PrepareProxy (d : nat) (target_driver_host : option nat) (launched connected : zx_status) : M zx_status :=
  dev ← get_dev d;
  _ ← assert (negb (PROXY (flags dev)) && MUST_ISOLATE (flags dev));
  _ ← (if is_some (proxy_ dev) then mret tt else CreateProxy d);
  dev ← get_dev d;
  p ← deref (proxy_ dev);
  pdev ← get_dev p;
  if is_some (host_ pdev) then mret ZX_OK
  else if negb (is_some target_driver_host) && negb (bool_decide (launched = ZX_OK)) then mret launched
  else
    h ← match target_driver_host with Some h => mret h | None => NewDriverHost end;
    _ ← set_host p (Some h);
    if decide (connected = ZX_OK) then _ ← upd_dev (set_dev_coordinator_binding true) p; mret ZX_OK else mret connected.

Definition PrepareNewProxy (d : nat) (target_driver_host : option nat) (launched connected : zx_status) : M zx_status :=
  dev ← get_dev d;
  _ ← assert (MUST_ISOLATE (flags dev));
  _ ← (if is_some (new_proxy_ dev) then mret tt else CreateNewProxy d);
  dev ← get_dev d;
  p ← deref (new_proxy_ dev);
  if negb (is_some target_driver_host) && negb (bool_decide (launched = ZX_OK)) then mret launched
  else
    h ← match target_driver_host with Some h => mret h | None => NewDriverHost end;
    _ ← set_host p (Some h);
    if decide (connected = ZX_OK) then _ ← upd_dev (set_dev_coordinator_binding true) p; mret ZX_OK else mret connected.

(** The suspend task of the system, and the resume tasks of the system, which the managers of suspend and resume
    create. *)
Definition start_suspend (d : nat) (flags_ : Z) : M unit := _ ← get_dev d; _ ← new_task (SuspendTask d flags_) true; mret tt.
Definition schedule_resume (target_state : Z) (d : nat) : M unit :=
  t ← new_task (ResumeTask d target_state true) true;
  upd_dev (fun v => set_dev_resume (set_active (Some t) (resume_ v)) v) d.

(** Whether the system device has a proxy decides if there is a system to resume. *)
Definition with_proxy (w : World) (d : nat) : list nat :=
  d :: match device_map w !! d with Some dev => match proxy_ dev with Some p => [p] | None => [] end | None => [] end.

Definition all_devices (sys_device : nat) : M (list nat) := fun w => Done (flat_map (with_proxy w) (devices_ w) ++ with_proxy w sys_device, w).

Definition Resume (in_suspend : bool) (target_state : Z) (sys_device : nat) : M unit :=
  dev ← get_dev sys_device;
  l ← all_devices sys_device;
  if is_some (proxy_ dev) && negb in_suspend then for_each (schedule_resume target_state) l else mret tt.

(** The answer to a request: a response with a status, or an error of the connection. *)
Definition handle_reply (r : Request) (ok : bool) (status : zx_status) : M unit :=
  match r with
  | ReqInit d => _ ← CompleteInit (RemoveDevice policy) d status; mret tt
  | ReqSuspend d _ => CompleteSuspend d status
  | ReqResume d _ => CompleteResume d status
  | ReqUnbind d => _ ← CompleteUnbind (RemoveDevice policy) d (if ok then ZX_OK else status); mret tt
  | ReqCompleteRemoval d =>
      if ok then _ ← CompleteRemove (RemoveDevice policy) d ZX_OK; mret tt
      else
        dev ← get_dev d;
        _ ← match completion_ (remove_ dev) with
            | Some t => _ ← upd_dev (fun v => set_dev_remove (set_completion None (remove_ v)) v) d; remove_completion (RemoveDevice policy) t d status
            | None => mret tt
            end;
        DropRemoveTask d
  end.

Definition take_request (r : Request) : M unit := fun w =>
  match list_find (fun q => q = r) (requests w) with
  | Some (i, _) => Done (tt, set_w_requests (delete i (requests w)) w)
  | None => Panic
  end.

(** The dispatcher runs a task. *)
Definition execute (t : nat) : M unit := fun w =>
  match ExecuteTask t (store (machine w)) with
  | Done (run, _) => (_ ← task_call (CallExecute t); if (run : bool) then Run t else mret tt) w
  | Panic => Panic
  end.

(** What comes from outside: the calls of drivers, the dispatcher, the driver hosts' answers and crashes, and the
    managers. *)
Inductive Event :=
  | EvAddDevice (in_suspend in_resume : bool) (parent : nat) (must_isolate has_init : bool) (created : zx_status)
  | EvScheduleRemove (d : nat) (unbind_self : bool)
  | EvScheduleUnbindChildren (d : nat)
  | EvUnbindHost (h : nat)
  | EvPrepareProxy (d : nat) (target : option nat) (launched connected : zx_status)
  | EvPrepareNewProxy (d : nat) (target : option nat) (launched connected : zx_status)
  | EvExecute (t : nat)
  | EvReply (r : Request) (ok : bool) (status : zx_status)
  | EvDisconnected (d : nat)
  | EvSuspend (d : nat) (flags_ : Z)
  | EvResume (in_suspend : bool) (target_state : Z) (sys_device : nat).

Definition handle (e : Event) : M unit :=
  match e with
  | EvAddDevice in_suspend in_resume parent must_isolate has_init created =>
      _ ← AddDevice in_suspend in_resume parent must_isolate has_init created; mret tt
  | EvScheduleRemove d unbind_self => ScheduleDriverHostRequestedRemove (RemoveDevice policy) d unbind_self
  | EvScheduleUnbindChildren d => ScheduleDriverHostRequestedUnbindChildren (RemoveDevice policy) d
  | EvUnbindHost h => ScheduleUnbindRemoveAllDevices (RemoveDevice policy) h
  | EvPrepareProxy d target launched connected => _ ← PrepareProxy d target launched connected; mret tt
  | EvPrepareNewProxy d target launched connected => _ ← PrepareNewProxy d target launched connected; mret tt
  | EvExecute t => execute t
  | EvReply r ok status => _ ← take_request r; handle_reply r ok status
  | EvDisconnected d =>
      dev ← get_dev d;
      if decide (state_ dev = kDead) then mret tt else _ ← RemoveDevice policy d true; mret tt
  | EvSuspend d flags_ => start_suspend d flags_
  | EvResume in_suspend target_state sys_device => Resume in_suspend target_state sys_device
  end.
End run.

(** The world at the start: the root device and the system device, which are in no driver host. *)
Definition root_device : nat := 0.
Definition sys_device : nat := 1.
Definition core_device (parent : option nat) (must_isolate : bool) : Device :=
  mkDevice parent None None [] None kActive (mkFlags true must_isolate false false false) false 4 250
    (mkSlot None None) (mkSlot None None) (mkSlot None None) (mkSlot None None) (mkSlot None None).

Definition World_init : World :=
  mkWorld (<[root_device := core_device None false]> {[sys_device := core_device (Some root_device) true]}) 2 [] ∅ Tasks_init ∅ [] [] [].
