(* ===== verification/DriverDeviceRun.v ===== *)
(** * DriverDeviceRun: the life of devices over any sequence of events

    Runs of the driver manager of [DriverDevice]: drivers add and remove devices, driver hosts answer or die, the
    dispatcher runs tasks, the system suspends and resumes. The tasks of the driver manager are the tasks of
    [DriverTaskRun], so that what holds of those holds here; on top of it, the order in which devices are unbound,
    removed and suspended. *)
From Stdlib Require Import ZArith Lia.
From stdpp Require Import prelude gmap.
From S2P Require Import Prelude DriverTask DriverTaskRun DriverDevice.

(** ** Runs *)

(** What the outside keeps to: only a device that is connected is called for or lost, posted tasks are run, open
    requests answered, and a connection does not fail with [ZX_OK]. *)
Definition event_allowed (w : World) (e : Event) : Prop :=
  let connected d := exists dev, device_map w !! d = Some dev /\ coordinator_binding_ dev = true in
  match e with
  | EvAddDevice _ _ d _ _ _ | EvScheduleRemove d _ | EvScheduleUnbindChildren d | EvDisconnected d => connected d
  | EvUnbindHost h => is_Some (hosts w !! h)
  | EvPrepareProxy d target _ _ | EvPrepareNewProxy d target _ _ =>
      is_Some (device_map w !! d) /\ match target with Some h => is_Some (hosts w !! h) | None => True end
  | EvExecute t => t ∈ posted (store (machine w))
  | EvReply r ok status => r ∈ requests w /\ (ok = false -> status <> ZX_OK)
  | EvSuspend d _ | EvResume _ _ d => is_Some (device_map w !! d)
  end.

Inductive dm_step (policy : DriverHostCrashPolicy) (w w' : World) : Prop :=
  | dm_event e : event_allowed w e -> handle policy e w = Done (tt, w') -> dm_step policy w w'.

Definition dm_reachable (policy : DriverHostCrashPolicy) : World -> Prop := rtc (dm_step policy) World_init.

(** ** The invariant *)

Definition is_unbind (d : nat) (k : TaskKind) : Prop := exists b c, k = UnbindTask d b c.

(** The kind of a task does not change, but for what an unbind task is to do. *)
Definition same_kind (k k' : TaskKind) : Prop := k' = k \/ exists d, is_unbind d k /\ is_unbind d k'.

(** The tasks of a device are of its kinds. *)
Definition slots_ok (ks : gmap nat TaskKind) (d : nat) (dev : Device) : Prop :=
  (forall u, active_ (unbind_ dev) = Some u -> exists k, ks !! u = Some k /\ is_unbind d k) /\
  (forall r, active_ (remove_ dev) = Some r -> ks !! r = Some (RemoveTask d)).

Record WInv (w : World) : Prop := {
  wi_tasks : tasks_reachable (machine w);
  wi_kinds t : is_Some (kinds w !! t) -> is_Some (tasks (store (machine w)) !! t);
  wi_unposted r d : kinds w !! r = Some (RemoveTask d) -> is_Some (settled (machine w) !! r) /\ is_Some (device_map w !! d);
  wi_slots d dev : device_map w !! d = Some dev -> slots_ok (kinds w) d dev;
  wi_proxy d dev p : device_map w !! d = Some dev -> proxy_ dev = Some p -> exists pdev, device_map w !! p = Some pdev /\ PROXY (flags pdev) = true;
  wi_device d : is_Some (device_map w !! d) -> d < next_device w;
  wi_remove r d dev t : kinds w !! r = Some (RemoveTask d) -> device_map w !! d = Some dev -> PROXY (flags dev) = false ->
    (r, t) ∈ added (machine w) -> exists u k, kinds w !! u = Some k /\ is_unbind d k /\ (r, u) ∈ added (machine w)
}.

(** What never changes back. *)
Record Later (w w' : World) : Prop := {
  la_added e : e ∈ added (machine w) -> e ∈ added (machine w');
  la_kinds t k : kinds w !! t = Some k -> exists k', kinds w' !! t = Some k' /\ same_kind k k';
  la_devices d dev : device_map w !! d = Some dev -> exists dev', device_map w' !! d = Some dev' /\ PROXY (flags dev') = PROXY (flags dev)
}.

Lemma same_kind_refl k : same_kind k k.
Proof. by left. Qed.

Lemma same_kind_trans k1 k2 k3 : same_kind k1 k2 -> same_kind k2 k3 -> same_kind k1 k3.
Proof.
  intros [->|(d & H1 & H2)] [->|(e & H3 & H4)]; [by left|right; eauto|right; eauto|right; exists d; split; [done|]].
  destruct H2 as (? & ? & ->), H3 as (? & ? & [= -> -> ->]). done.
Qed.

Lemma same_kind_remove d k : same_kind (RemoveTask d) k -> k = RemoveTask d.
Proof. intros [->|(e & (? & ? & [=]) & _)]. done. Qed.

Lemma same_kind_unbind d k k' : is_unbind d k -> same_kind k k' -> is_unbind d k'.
Proof. intros (b & c & ->) [->|(e & (? & ? & [= -> _ _]) & ?)]; [by eexists _, _|done]. Qed.

Lemma later_refl w : Later w w.
Proof. constructor; [done|..]; intros ? ? ?; eexists; split; [done| |done|done]. apply same_kind_refl. Qed.

Lemma later_trans w1 w2 w3 : Later w1 w2 -> Later w2 w3 -> Later w1 w3.
Proof.
  intros [A1 K1 D1] [A2 K2 D2]. constructor; [by auto|..].
  - intros t k (k' & Hk' & Hs)%K1. destruct (K2 t k' Hk') as (k2 & ? & ?). exists k2. split; [done|by eapply same_kind_trans].
  - intros d dev (dev' & Hd & Hp)%D1. destruct (D2 d dev' Hd) as (dev2 & ? & ?). exists dev2. split; [done|congruence].
Qed.

Lemma later_remove w w' r d : Later w w' -> kinds w !! r = Some (RemoveTask d) -> kinds w' !! r = Some (RemoveTask d).
Proof. intros HL (k & Hk & ->%same_kind_remove)%(la_kinds _ _ HL). done. Qed.

Lemma later_unbind w w' u k d : Later w w' -> kinds w !! u = Some k -> is_unbind d k -> exists k', kinds w' !! u = Some k' /\ is_unbind d k'.
Proof. intros HL (k' & Hk & Hs)%(la_kinds _ _ HL) Hu. exists k'. split; [done|by eapply same_kind_unbind]. Qed.

(** ** Computations that keep the invariant *)

(** [m] keeps the invariant from worlds where [P] holds, and [Q] holds afterwards. *)
Definition keeps {A} (P : World -> Prop) (m : M A) (Q : A -> World -> Prop) : Prop :=
  forall w a w', WInv w -> P w -> m w = Done (a, w') -> WInv w' /\ Later w w' /\ Q a w'.

Definition Pres {A} (m : M A) : Prop := keeps (fun _ => True) m (fun _ _ => True).

Lemma M_bind_Done {A B} (m : M A) (f : A -> M B) w b w' : (m ≫= f) w = Done (b, w') -> exists a w1, m w = Done (a, w1) /\ f a w1 = Done (b, w').
Proof. unfold mbind, M_bind. destruct (m w) as [[a w1]|]; [eauto|done]. Qed.

Lemma keeps_bind {A B} P (m : M A) Q (f : A -> M B) R : keeps P m Q -> (forall a, keeps (Q a) (f a) R) -> keeps P (m ≫= f) R.
Proof.
  intros Hm Hf w b w' HI HP (a & w1 & E1 & E2)%M_bind_Done. destruct (Hm w a w1 HI HP E1) as (HI1 & HL1 & HQ).
  destruct (Hf a w1 b w' HI1 HQ E2) as (HI2 & HL2 & HR). split_and!; [done|by eapply later_trans|done].
Qed.

Lemma keeps_ret {A} (P : World -> Prop) (a : A) (Q : A -> World -> Prop) : (forall w, P w -> Q a w) -> keeps P (mret a) Q.
Proof. intros H w b w' HI HP [= <- <-]. split_and!; [done|apply later_refl|by apply H]. Qed.

Lemma keeps_weaken {A} (P P' : World -> Prop) (m : M A) (Q Q' : A -> World -> Prop) :
  keeps P m Q -> (forall w, P' w -> P w) -> (forall a w, Q a w -> Q' a w) -> keeps P' m Q'.
Proof. intros H HP HQ w a w' HI Hw E. destruct (H w a w' HI (HP w Hw) E) as (? & ? & ?). auto. Qed.

Lemma pres_bind {A B} (m : M A) (f : A -> M B) : Pres m -> (forall a, Pres (f a)) -> Pres (m ≫= f).
Proof. intros Hm Hf. eapply keeps_bind; [exact Hm|]. intros a. apply Hf. Qed.

Lemma pres_apply {A} (m : M A) w a w' : WInv w -> Pres m -> m w = Done (a, w') -> WInv w' /\ Later w w' /\ True.
Proof. intros HI Hm E. exact (Hm w a w' HI I E). Qed.

Lemma keeps_assoc {A B C} P (m : M A) (f : A -> M B) (g : M C) Q : keeps P ((a ← m; f a) ≫= fun _ => g) Q -> keeps P (a ← m; _ ← f a; g) Q.
Proof.
  intros H w c w' HI HP E. apply (H w c w' HI HP). unfold mbind, M_bind in *. destruct (m w) as [[a w1]|]; [|done]. exact E.
Qed.

Lemma pres_ret {A} (a : A) : Pres (mret a).
Proof. by apply keeps_ret. Qed.

Lemma pres_panic {A} : Pres (@panic A).
Proof. intros w a w' _ _ [=]. Qed.

Lemma pres_for_each f l : (forall x, Pres (f x)) -> Pres (for_each f l).
Proof. intros Hf. induction l as [|x l IH]; [apply pres_ret|]. apply pres_bind; [apply Hf|done]. Qed.

(** A fact that lasts can be carried along. *)
Definition lasting (F : World -> Prop) : Prop := forall w w', Later w w' -> F w -> F w'.

Lemma keeps_carry {A} (F P : World -> Prop) (m : M A) (Q : A -> World -> Prop) :
  lasting F -> keeps P m Q -> keeps (fun w => F w /\ P w) m (fun a w => F w /\ Q a w).
Proof. intros HF Hm w a w' HI [Hf Hp] E. destruct (Hm w a w' HI Hp E) as (? & HL & ?). split_and!; [done|done|by eapply HF|done]. Qed.

(** A computation that leaves the world as it is. *)
Lemma pres_read {A} (m : M A) : (forall w a w', m w = Done (a, w') -> w' = w) -> Pres m.
Proof. intros H w a w' HI _ ->%H. split_and!; [done|apply later_refl|done]. Qed.

(** A change of the world outside tasks, kinds and devices. *)
Definition same_core (w w' : World) : Prop :=
  machine w' = machine w /\ kinds w' = kinds w /\ device_map w' = device_map w /\ next_device w' = next_device w.

Lemma core_inv w w' : same_core w w' -> WInv w -> WInv w' /\ Later w w'.
Proof.
  intros (Em & Ek & Ed & En) HI. split.
  - destruct HI. constructor; rewrite ?Em, ?Ek, ?Ed, ?En; done.
  - constructor; rewrite ?Em, ?Ek, ?Ed; [done|..]; intros ? ? ?; eexists; split; [done| |done|done]. apply same_kind_refl.
Qed.

Lemma pres_core {A} (m : M A) : (forall w a w', m w = Done (a, w') -> same_core w w') -> Pres m.
Proof. intros H w a w' HI _ Hc%H. destruct (core_inv w w' Hc HI). auto. Qed.

(** ** The pieces *)

Lemma device_inv w d v v' :
  WInv w -> device_map w !! d = Some v -> PROXY (flags v') = PROXY (flags v) -> slots_ok (kinds w) d v' ->
  (forall p, proxy_ v' = Some p -> exists pdev, device_map w !! p = Some pdev /\ PROXY (flags pdev) = true) ->
  WInv (set_w_device_map (<[d := v']> (device_map w)) w) /\ Later w (set_w_device_map (<[d := v']> (device_map w)) w).
Proof.
  intros HI Hd Hp Hs Hproxy.
  assert (forall x dev, device_map w !! x = Some dev -> exists dev', <[d := v']> (device_map w) !! x = Some dev' /\ PROXY (flags dev') = PROXY (flags dev)) as Hold.
  { intros x dev Hx. destruct (decide (x = d)) as [->|Hne]; [exists v'; rewrite lookup_insert_eq; split; [done|congruence]|exists dev; by rewrite lookup_insert_ne]. }
  assert (forall x dev, <[d := v']> (device_map w) !! x = Some dev -> (x = d /\ dev = v') \/ device_map w !! x = Some dev) as Hnew.
  { intros x dev. destruct (decide (x = d)) as [->|Hne]; [rewrite lookup_insert_eq; intros [= <-]; by left|rewrite lookup_insert_ne by done; by right]. }
  split; [|constructor; simpl; [done| |exact Hold]; intros t k ?; exists k; split; [done|apply same_kind_refl]].
  destruct HI as [H1 H2 H3 H4 H5 H6 H7]. constructor; simpl; [done|done|..].
  - intros r x Hr. destruct (H3 r x Hr) as [? [dev Hx]]. split; [done|]. destruct (Hold x dev Hx) as (dev' & -> & _). eauto.
  - intros x dev [[-> ->]|Hx]%Hnew; [done|by apply H4].
  - intros x dev p Hx Hpr. assert (exists pdev, device_map w !! p = Some pdev /\ PROXY (flags pdev) = true) as (pdev & Hpd & Hpf).
    { apply Hnew in Hx as [[-> ->]|Hx]; [by apply Hproxy|by eapply H5]. }
    destruct (Hold p pdev Hpd) as (pdev' & ? & ?). exists pdev'. split; [done|congruence].
  - intros x [dev [[-> _]|Hx]%Hnew]; apply H6; eauto.
  - intros r x dev t Hr Hx Hf Hin. assert (exists dev0, device_map w !! x = Some dev0 /\ PROXY (flags dev0) = false) as (dev0 & ? & ?).
    { apply Hnew in Hx as [[-> ->]|Hx]; [exists v; split; [done|congruence]|eauto]. }
    by eapply H7.
Qed.

(** A change of a device that gives it no new task and no new proxy. *)
Definition gentle (v v' : Device) : Prop :=
  PROXY (flags v') = PROXY (flags v) /\ (proxy_ v' = proxy_ v \/ proxy_ v' = None) /\
  (active_ (unbind_ v') = active_ (unbind_ v) \/ active_ (unbind_ v') = None) /\
  (active_ (remove_ v') = active_ (remove_ v) \/ active_ (remove_ v') = None).

Lemma gentle_inv w d v v' :
  WInv w -> device_map w !! d = Some v -> gentle v v' ->
  WInv (set_w_device_map (<[d := v']> (device_map w)) w) /\ Later w (set_w_device_map (<[d := v']> (device_map w)) w).
Proof.
  intros HI Hd (Hf & Hp & Hu & Hr). destruct (wi_slots _ HI d v Hd) as [Su Sr]. apply (device_inv w d v v' HI Hd Hf).
  - split; [intros u Eu; apply Su; destruct Hu; congruence|intros r Er; apply Sr; destruct Hr; congruence].
  - intros p Ep. apply (wi_proxy _ HI d v p Hd). destruct Hp; congruence.
Qed.

Lemma pres_upd_dev f d : (forall v, gentle v (f v)) -> Pres (upd_dev f d).
Proof.
  intros Hf w a w' HI _ E. unfold upd_dev in E. destruct (device_map w !! d) as [v|] eqn:Hd; [|done]. injection E as _ <-.
  destruct (gentle_inv w d v (f v) HI Hd (Hf v)). auto.
Qed.

Lemma callback_inv w t : WInv w -> WInv (callback w t) /\ Later w (callback w t).
Proof.
  intros HI. unfold callback. assert (WInv w /\ Later w w) as Hid by (split; [done|apply later_refl]).
  destruct (kinds w !! t) as [[| |d ? []| |]|]; try done. destruct (device_map w !! d) as [v|] eqn:Hd; [|done].
  apply (gentle_inv w d v); [done|done|]. repeat split; by left.
Qed.

Lemma callbacks_inv l w : WInv w -> WInv (fold_left callback l w) /\ Later w (fold_left callback l w).
Proof.
  revert w. induction l as [|t l IH]; intros w HI; [split; [done|apply later_refl]|]. simpl. destruct (callback_inv w t HI) as [HI1 HL1].
  destruct (IH _ HI1) as [HI2 HL2]. split; [done|by eapply later_trans].
Qed.

(** What a new dependency of a remove task needs. *)
Definition dependency_ok (w : World) (this dependency : nat) : Prop :=
  forall d dev, kinds w !! this = Some (RemoveTask d) -> device_map w !! d = Some dev -> PROXY (flags dev) = false ->
  exists u k, kinds w !! u = Some k /\ is_unbind d k /\ (u = dependency \/ (this, u) ∈ added (machine w)).

Definition call_ok (w : World) (c : TaskCall) : Prop :=
  match c with
  | CallNew _ | CallComplete _ _ => True
  | CallAdd this dependency => dependency_ok w this dependency
  | CallExecute t => t ∈ posted (store (machine w))
  end.

Lemma machine_inv w c m log :
  WInv w -> call_ok w c -> do_call c (machine w) = Done (m, log) -> WInv (set_w_machine m w) /\ Later w (set_w_machine m w).
Proof.
  intros [H1 H2 H3 H4 H5 H6 H7] Hok E. assert (call_allowed (machine w) c) as Ha.
  { pose proof (call_checked _ _ _ _ E) as Hc. by destruct c. }
  destruct (call_effects _ c _ _ (tasks_inv _ H1) Ha E) as (Ht & Hs & Hadd). split.
  - constructor; simpl; try done; [by eapply tasks_call|by auto|intros r d Hr; destruct (H3 r d Hr); auto|].
    intros r d dev t Hr Hd Hf Hin. rewrite Hadd in Hin |- *. apply elem_of_app in Hin as [Hin|Hin].
    + destruct (H7 r d dev t Hr Hd Hf Hin) as (u & k & ? & ? & ?). exists u, k. split_and!; [done|done|set_solver].
    + destruct c as [|this x| |]; try (by apply not_elem_of_nil in Hin). apply list_elem_of_singleton in Hin as [= -> ->].
      destruct (Hok d dev Hr Hd Hf) as (u & k & ? & ? & Hor). exists u, k. split_and!; [done|done|]. destruct Hor as [->|?]; set_solver.
  - constructor; simpl; [rewrite Hadd; set_solver| |]; intros ? ? ?; eexists; split; [done| |done|done]. apply same_kind_refl.
Qed.

Lemma keeps_task_call c : keeps (fun w => call_ok w c) (task_call c) (fun _ _ => True).
Proof.
  intros w a w' HI Hok E. unfold task_call in E. destruct (do_call c (machine w)) as [[m log]|] eqn:Ec; [|done]. injection E as _ <-.
  destruct (machine_inv w c m log HI Hok Ec) as [HI1 HL1]. destruct (callbacks_inv log.*1 _ HI1) as [HI2 HL2].
  edestruct core_inv as [HI3 HL3]; [|exact HI2|]; [|split_and!; [exact HI3|eapply later_trans; [exact HL1|eapply later_trans; [exact HL2|exact HL3]]|done]].
  by repeat split.
Qed.

Lemma pres_complete_task x s : Pres (complete_task x s).
Proof. eapply keeps_weaken; [apply keeps_task_call|by intros|done]. Qed.

(** A dependency of a task that is not a remove task. *)
Definition not_remove (w : World) (t : nat) : Prop := exists k, kinds w !! t = Some k /\ forall d, k <> RemoveTask d.

Lemma not_remove_lasting t : lasting (fun w => not_remove w t).
Proof.
  intros w w' HL (k & Hk & Hn). destruct (la_kinds _ _ HL t k Hk) as (k' & Hk' & Hs). exists k'. split; [done|].
  intros d ->. destruct Hs as [<-|(e & _ & (? & ? & [=]))]. by apply (Hn d).
Qed.

Lemma keeps_add_dependency t o : keeps (fun w => not_remove w t) (add_dependency t o) (fun _ _ => True).
Proof.
  intros w a w' HI (k & Hk & Hn) E. destruct o as [x|]; [|done]. apply (keeps_task_call (CallAdd t x) w a w' HI); [|done].
  intros d dev Hd. rewrite Hk in Hd. injection Hd as ->. by destruct (Hn d).
Qed.

Lemma keeps_new_task k post :
  keeps (fun w => match k with RemoveTask d => post = false /\ is_Some (device_map w !! d) | _ => True end) (new_task k post) (fun x w => kinds w !! x = Some k).
Proof.
  intros w x w' HI Hk E. unfold new_task in E. destruct (task_call (CallNew post) w) as [[[] w1]|] eqn:Ec; [|done]. injection E as <- <-.
  destruct (keeps_task_call (CallNew post) w tt w1 HI I Ec) as (HI1 & HL1 & _). set (x := next_task (store (machine w))).
  unfold task_call in Ec. destruct (do_call (CallNew post) (machine w)) as [[m log]|] eqn:Em; [|done].
  destruct (new_task_name post _ _ _ (tasks_inv _ (wi_tasks _ HI)) Em) as (-> & Hfresh & Hx & Hset). injection Ec as <-. fold x in Hfresh, Hx, Hset.
  simpl in HI1, HL1 |- *. assert (kinds w !! x = None) as Hnone.
  { destruct (kinds w !! x) as [k0|] eqn:E0; [|done]. destruct (wi_kinds _ HI x) as [u Hu]; [eauto|]. congruence. }
  assert (forall t k', kinds w !! t = Some k' -> <[x := k]> (kinds w) !! t = Some k') as Hold by (intros t k' Ht; rewrite lookup_insert_ne; [done|congruence]).
  split_and!; [|eapply later_trans; [exact HL1|]; constructor; simpl; [done| |]|apply lookup_insert_eq].
  - destruct HI1 as [H1 H2 H3 H4 H5 H6 H7]. simpl in *. constructor; simpl; [done|..].
    + intros t [k' Ht]. rewrite lookup_insert in Ht. case_decide; [by subst|]. apply H2. eauto.
    + intros r d Hr. rewrite lookup_insert in Hr. case_decide; [|by apply H3]. subst r. injection Hr as ->. destruct Hk as [-> Hd]. split; [by apply Hset|done].
    + intros d dev Hd. destruct (H4 d dev Hd) as [Su Sr]. split; [intros u Hu; destruct (Su u Hu) as (k' & ? & ?); exists k'; auto|auto].
    + done.
    + done.
    + intros r d dev t Hr Hd Hf Hin. rewrite lookup_insert in Hr. case_decide as Er.
      * subst r. exfalso. destruct (call_effects (machine w) (CallNew post) m [] (tasks_inv _ (wi_tasks _ HI)) I Em) as (_ & _ & Ha). rewrite Ha, app_nil_r in Hin.
        destruct (ti_added _ (tasks_inv _ (wi_tasks _ HI)) x t Hin) as [[u Hu] _]. congruence.
      * destruct (H7 r d dev t Hr Hd Hf Hin) as (u & k' & ? & ? & ?). exists u, k'. auto.
  - intros t k' Ht. exists k'. split; [by apply Hold|apply same_kind_refl].
  - intros d dev Hd. by exists dev.
Qed.

(** ** The operations on devices *)

Create HintDb pres.

(** Computations of a task that is not a remove task. *)
Definition PresT {A} (t : nat) (m : M A) : Prop := keeps (fun w => not_remove w t) m (fun _ w => not_remove w t).

Lemma presT_of_pres {A} t (m : M A) : Pres m -> PresT t m.
Proof.
  intros Hm. eapply keeps_weaken; [apply (keeps_carry (fun w => not_remove w t) _ _ _ (not_remove_lasting t) Hm)|by split|by intros ? ? [? _]].
Qed.

Lemma presT_bind {A B} t (m : M A) (f : A -> M B) : PresT t m -> (forall a, PresT t (f a)) -> PresT t (m ≫= f).
Proof. intros Hm Hf. eapply keeps_bind; [exact Hm|]. intros a. apply Hf. Qed.

Lemma presT_add_dependency t o : PresT t (add_dependency t o).
Proof.
  eapply keeps_weaken; [apply (keeps_carry _ _ _ _ (not_remove_lasting t) (keeps_add_dependency t o))|by split|by intros ? ? [? _]].
Qed.

(** Walks through a computation. *)
Ltac pres_walk :=
  repeat first
    [ apply pres_ret | apply pres_panic | solve [eauto 3 with pres nocore]
    | apply pres_bind; [|intros ?]
    | apply pres_for_each; intros ?
    | apply presT_add_dependency
    | apply presT_of_pres; solve [eauto 3 with pres nocore | apply pres_ret | apply pres_panic]
    | apply presT_bind; [|intros ?]
    | match goal with
      | |- Pres (if ?b then _ else _) => destruct b
      | |- PresT _ (if ?b then _ else _) => destruct b
      | |- Pres (match ?b with _ => _ end) => destruct b
      | |- PresT _ (match ?b with _ => _ end) => destruct b
      end ].

Ltac gentle_change := apply pres_upd_dev; intros []; repeat split; simpl; auto.

Lemma pres_get_dev d : Pres (get_dev d).
Proof. apply pres_read. intros w a w'. unfold get_dev. case_match; [|done]. by intros [= _ <-]. Qed.
Lemma pres_get_kind t : Pres (get_kind t).
Proof. apply pres_read. intros w a w'. unfold get_kind. case_match; [|done]. by intros [= _ <-]. Qed.
Lemma pres_host_dying h : Pres (host_dying h).
Proof. apply pres_read. intros w a w'. unfold host_dying. case_match; [|done]. by intros [= _ <-]. Qed.
Lemma pres_host_length h : Pres (host_length h).
Proof. apply pres_read. intros w a w'. unfold host_length. case_match; [|done]. by intros [= _ <-]. Qed.
Lemma pres_assert b : Pres (assert b).
Proof. destruct b; [apply pres_ret|apply pres_panic]. Qed.
Lemma pres_deref o : Pres (deref o).
Proof. destruct o; [apply pres_ret|apply pres_panic]. Qed.
Lemma pres_send r : Pres (send r).
Proof. apply pres_core. by intros w a w' [= _ <-]. Qed.
Lemma pres_take_request r : Pres (take_request r).
Proof. apply pres_core. intros w a w'. unfold take_request. case_match; [|done]. case_match. by intros [= _ <-]. Qed.
Lemma pres_SignalReadyForBind d delay : Pres (SignalReadyForBind d delay).
Proof. apply pres_core. by intros w a w' [= _ <-]. Qed.
Lemma pres_upd_host f h : Pres (upd_host f h).
Proof. apply pres_core. intros w a w'. unfold upd_host. case_match; [|done]. by intros [= _ <-]. Qed.
Lemma pres_set_dying h : Pres (set_dying h).
Proof. apply pres_core. intros w a w'. unfold set_dying. case_match; [|done]. by intros [= _ <-]. Qed.
Lemma pres_erase_device d : Pres (erase_device d).
Proof. apply pres_core. by intros w a w' [= _ <-]. Qed.
Lemma pres_append_device d : Pres (append_device d).
Proof. apply pres_core. by intros w a w' [= _ <-]. Qed.
Lemma pres_NewDriverHost : Pres NewDriverHost.
Proof. apply pres_core. by intros w a w' [= _ <-]. Qed.
#[export] Hint Resolve pres_get_dev pres_get_kind pres_host_dying pres_host_length pres_assert pres_deref pres_send pres_take_request
  pres_SignalReadyForBind pres_upd_host pres_set_dying pres_erase_device pres_append_device pres_NewDriverHost pres_complete_task : pres.

(** The tasks whose creation asks for nothing. *)
Lemma pres_new_task k post : (forall d, k <> RemoveTask d) -> Pres (new_task k post).
Proof. intros Hk. eapply keeps_weaken; [apply keeps_new_task| |done]. intros w _. destruct k; try done. by destruct (Hk device). Qed.

Lemma pres_set_state d s : Pres (set_state d s).
Proof. unfold set_state. pres_walk; gentle_change. Qed.
Lemma pres_DropInitTask d : Pres (DropInitTask d).
Proof. gentle_change. Qed.
Lemma pres_DropSuspendTask d : Pres (DropSuspendTask d).
Proof. gentle_change. Qed.
Lemma pres_DropUnbindTask d : Pres (DropUnbindTask d).
Proof. gentle_change. Qed.
Lemma pres_DropRemoveTask d : Pres (DropRemoveTask d).
Proof. gentle_change. Qed.
#[export] Hint Resolve pres_set_state pres_DropInitTask pres_DropSuspendTask pres_DropUnbindTask pres_DropRemoveTask : pres.

Lemma pres_set_host d h : Pres (set_host d h).
Proof. unfold set_host. pres_walk. gentle_change. Qed.
Lemma pres_CreateInitTask d : Pres (CreateInitTask d).
Proof. unfold CreateInitTask. pres_walk; [by apply pres_new_task|gentle_change]. Qed.
Lemma pres_RequestSuspendTask d f : Pres (RequestSuspendTask d f).
Proof. unfold RequestSuspendTask. pres_walk; [by apply pres_new_task|gentle_change]. Qed.
Lemma pres_RequestResumeTask d s : Pres (RequestResumeTask d s).
Proof. unfold RequestResumeTask. pres_walk; [by apply pres_new_task|gentle_change]. Qed.
Lemma pres_suspend_completion t d s : Pres (suspend_completion t d s).
Proof. unfold suspend_completion. pres_walk. Qed.
Lemma pres_resume_completion t d s : Pres (resume_completion t d s).
Proof. unfold resume_completion. pres_walk. Qed.
#[export] Hint Resolve pres_set_host pres_CreateInitTask pres_RequestSuspendTask pres_RequestResumeTask pres_suspend_completion pres_resume_completion : pres.

Lemma pres_SendInit d t : Pres (SendInit d t).
Proof. unfold SendInit. pres_walk. gentle_change. Qed.
Lemma pres_SendSuspend d f t : Pres (SendSuspend d f t).
Proof. unfold SendSuspend. pres_walk. gentle_change. Qed.
Lemma pres_CompleteSuspend d s : Pres (CompleteSuspend d s).
Proof. unfold CompleteSuspend. pres_walk. gentle_change. Qed.
Lemma pres_SendResume d s t : Pres (SendResume d s t).
Proof. unfold SendResume. pres_walk. gentle_change. Qed.
Lemma pres_CompleteResume d s : Pres (CompleteResume d s).
Proof. unfold CompleteResume. pres_walk. gentle_change. Qed.
Lemma pres_MakeVisible d : Pres (MakeVisible d).
Proof. unfold MakeVisible. pres_walk. gentle_change. Qed.
Lemma pres_DetachFromParent d : Pres (DetachFromParent d).
Proof. unfold DetachFromParent. pres_walk; gentle_change. Qed.
#[export] Hint Resolve pres_SendInit pres_SendSuspend pres_CompleteSuspend pres_SendResume pres_CompleteResume pres_MakeVisible pres_DetachFromParent : pres.

(** ** Unbinding and removing *)

Definition exists_dev (d : nat) (w : World) : Prop := is_Some (device_map w !! d).

Lemma exists_dev_lasting d : lasting (exists_dev d).
Proof. intros w w' HL [dev Hd]. destruct (la_devices _ _ HL d dev Hd) as (dev' & Hd' & _). by exists dev'. Qed.

Lemma keeps_get_dev d : keeps (fun _ => True) (get_dev d) (fun dev w => device_map w !! d = Some dev).
Proof.
  intros w a w' HI _ E. unfold get_dev in E. destruct (device_map w !! d) as [v|] eqn:Hd; [|done]. injection E as <- <-.
  split_and!; [done|apply later_refl|done].
Qed.

(** A device is given a task. *)
Lemma keeps_set_slot f d (F : World -> Prop) :
  (forall v, PROXY (flags (f v)) = PROXY (flags v) /\ proxy_ (f v) = proxy_ v) ->
  (forall w v, F w -> slots_ok (kinds w) d v -> slots_ok (kinds w) d (f v)) -> keeps F (upd_dev f d) (fun _ => exists_dev d).
Proof.
  intros Hf Hs w a w' HI HF E. unfold upd_dev in E. destruct (device_map w !! d) as [v|] eqn:Hd; [|done]. injection E as _ <-.
  destruct (Hf v) as [Hflag Hpr]. destruct (device_inv w d v (f v) HI Hd Hflag) as [HI' HL'].
  - apply (Hs w v HF), (wi_slots _ HI d v Hd).
  - intros p. rewrite Hpr. apply (wi_proxy _ HI d v p Hd).
  - split_and!; [done|done|]. unfold exists_dev. simpl. rewrite lookup_insert_eq. eauto.
Qed.

Lemma keeps_new_remove d :
  keeps (exists_dev d) (r ← new_task (RemoveTask d) false; upd_dev (fun v => set_dev_remove (set_active (Some r) (remove_ v)) v) d) (fun _ => exists_dev d).
Proof.
  eapply keeps_bind; [eapply keeps_weaken; [apply keeps_new_task|by split|done]|]. intros r. apply keeps_set_slot; [by intros []|].
  intros w v Hr [Su Sr]. split; [done|]. by intros r' [= <-].
Qed.

Lemma keeps_new_unbind d b c post :
  keeps (fun _ => True) (u ← new_task (UnbindTask d b c) post; upd_dev (fun v => set_dev_unbind (set_active (Some u) (unbind_ v)) v) d) (fun _ => exists_dev d).
Proof.
  eapply keeps_bind; [exact (keeps_new_task (UnbindTask d b c) post)|]. intros u. apply keeps_set_slot; [by intros []|].
  intros w v Hu [Su Sr]. split; [|done]. intros u' [= <-]. eexists. split; [exact Hu|by eexists _, _].
Qed.

(** What an unbind task is to do is changed. *)
Lemma set_kind_inv w u d k k' :
  WInv w -> kinds w !! u = Some k -> is_unbind d k -> is_unbind d k' -> WInv (set_w_kinds (<[u := k']> (kinds w)) w) /\ Later w (set_w_kinds (<[u := k']> (kinds w)) w).
Proof.
  intros HI Hu Hk Hk'.
  assert (forall t e, is_unbind e t -> forall x, kinds w !! x = Some t -> exists t', <[u := k']> (kinds w) !! x = Some t' /\ is_unbind e t') as Hun.
  { intros t e Ht x Hx. destruct (decide (x = u)) as [->|Hne]; [|exists t; by rewrite lookup_insert_ne]. exists k'. rewrite lookup_insert_eq. split; [done|].
    rewrite Hu in Hx. injection Hx as ->. destruct Hk as (? & ? & ->), Ht as (? & ? & [= -> _ _]). done. }
  assert (forall r e, <[u := k']> (kinds w) !! r = Some (RemoveTask e) <-> kinds w !! r = Some (RemoveTask e)) as Hrem.
  { intros r e. destruct (decide (r = u)) as [->|Hne]; [|by rewrite lookup_insert_ne]. rewrite lookup_insert_eq, Hu.
    destruct Hk as (? & ? & ->), Hk' as (? & ? & ->). done. }
  split.
  - destruct HI as [H1 H2 H3 H4 H5 H6 H7]. constructor; simpl; [done|..|done|done|].
    + intros t [t' Ht]. rewrite lookup_insert in Ht. case_decide; [|by apply H2; eauto]. subst. apply H2. eauto.
    + intros r e. rewrite Hrem. apply H3.
    + intros e dev Hd. destruct (H4 e dev Hd) as [Su Sr]. split; [intros x Hx; destruct (Su x Hx) as (t & ? & ?); by eapply Hun|intros r Hr; apply Hrem; by apply Sr].
    + intros r e dev t Hr Hd Hf Hin. apply Hrem in Hr. destruct (H7 r e dev t Hr Hd Hf Hin) as (x & kx & Hx & Hkx & Hin').
      destruct (Hun kx e Hkx x Hx) as (kx' & ? & ?). by exists x, kx'.
  - constructor; simpl; [done| |intros e dev Hd; by exists dev]. intros t kt Ht. destruct (decide (t = u)) as [->|Hne].
    + exists k'. rewrite lookup_insert_eq. split; [done|]. right. rewrite Hu in Ht. injection Ht as <-. eauto.
    + exists kt. rewrite lookup_insert_ne by done. split; [done|apply same_kind_refl].
Qed.

Section removal.
Context (policy : DriverHostCrashPolicy) (remove_device : nat -> bool -> M zx_status).
Context (Hremove : forall d forced, Pres (remove_device d forced)).
#[local] Hint Resolve Hremove : pres.

Lemma pres_remove_if_failed d s : Pres (remove_if_failed remove_device d s).
Proof using Hremove. unfold remove_if_failed. pres_walk. Qed.
#[local] Hint Resolve pres_remove_if_failed : pres.
Lemma pres_unbind_completion t d s : Pres (unbind_completion remove_device t d s).
Proof using Hremove. unfold unbind_completion. pres_walk. Qed.
Lemma pres_remove_completion t d s : Pres (remove_completion remove_device t d s).
Proof using Hremove. unfold remove_completion. pres_walk. Qed.
#[local] Hint Resolve pres_unbind_completion pres_remove_completion : pres.
Lemma pres_CompleteUnbind d s : Pres (CompleteUnbind remove_device d s).
Proof using Hremove. unfold CompleteUnbind. pres_walk. gentle_change. Qed.
Lemma pres_CompleteRemove d s : Pres (CompleteRemove remove_device d s).
Proof using Hremove. unfold CompleteRemove. pres_walk; gentle_change. Qed.
#[local] Hint Resolve pres_CompleteUnbind pres_CompleteRemove : pres.

Lemma pres_CreateUnbindRemoveTasks d opts : Pres (CreateUnbindRemoveTasks remove_device d opts).
Proof using Hremove.
  eapply keeps_bind; [apply keeps_get_dev|]. intros dev. destruct (decide (state_ dev = kDead)); [by apply keeps_ret|].
  destruct (active_ (unbind_ dev)) as [u|] eqn:Eu; [|destruct (active_ (remove_ dev)) as [r|] eqn:Er; [by apply keeps_ret|]].
  - intros w a w' HI Hd E. destruct (wi_slots _ HI d dev Hd) as [Su _]. destruct (Su u Eu) as (k & Hk & Hu).
    apply M_bind_Done in E as (k' & w1 & E1 & E). unfold get_kind in E1. rewrite Hk in E1. injection E1 as <- <-. destruct Hu as (b & c & ->).
    revert E. case_match; [intros [= _ <-]; split_and!; [done|apply later_refl|done]|]. destruct (decide (state_ dev = kUnbinding)).
    + intros E. refine (pres_apply _ _ _ _ HI _ E). pres_walk.
    + intros [= _ <-]. destruct (set_kind_inv w u d _ (UnbindTask d (opt_do_unbind opts) c) HI Hk) as [HI' HL']; [by eexists _, _|by eexists _, _|done].
  - apply keeps_assoc. eapply keeps_bind; [eapply keeps_weaken; [apply keeps_new_remove| |done]; intros w Hd; by exists dev|].
    intros []. eapply keeps_weaken; [apply keeps_new_unbind|done|done].
Qed.
#[local] Hint Resolve pres_CreateUnbindRemoveTasks : pres.

Lemma pres_ScheduleRemove d : Pres (ScheduleRemove remove_device d).
Proof using Hremove. unfold ScheduleRemove. pres_walk. Qed.
Lemma pres_ScheduleDriverHostRequestedRemove d b : Pres (ScheduleDriverHostRequestedRemove remove_device d b).
Proof using Hremove. unfold ScheduleDriverHostRequestedRemove. pres_walk. Qed.
Lemma pres_ScheduleDriverHostRequestedUnbindChildren d : Pres (ScheduleDriverHostRequestedUnbindChildren remove_device d).
Proof using Hremove. unfold ScheduleDriverHostRequestedUnbindChildren. pres_walk. Qed.
Lemma pres_ScheduleUnbindRemoveAllDevices h : Pres (ScheduleUnbindRemoveAllDevices remove_device h).
Proof using Hremove.
  intros w a w' HI _ E. unfold ScheduleUnbindRemoveAllDevices in E. destruct (hosts w !! h); [|done]. refine (pres_apply _ _ _ _ HI _ E). pres_walk.
Qed.
#[local] Hint Resolve pres_ScheduleRemove pres_ScheduleDriverHostRequestedRemove : pres.

Lemma pres_init_completion t d s : Pres (init_completion remove_device t d s).
Proof using Hremove. unfold init_completion. pres_walk. Qed.
#[local] Hint Resolve pres_init_completion : pres.
Lemma pres_CompleteInit d s : Pres (CompleteInit remove_device d s).
Proof using Hremove. unfold CompleteInit. pres_walk. gentle_change. Qed.

Lemma pres_remove_all fuel h last : Pres (remove_all remove_device fuel h last).
Proof using Hremove.
  revert last. induction fuel as [|fuel IH]; intros last w a w' HI _ E; [done|]. cbn [remove_all] in E. destruct (hosts w !! h) as [host|]; [|done].
  destruct (host_devices host) as [|next l]; [injection E as _ <-; split_and!; [done|apply later_refl|done]|]. destruct (decide (last = Some next)); [done|].
  refine (pres_apply _ _ _ _ HI _ E). pres_walk.
Qed.
#[local] Hint Resolve pres_CompleteInit pres_remove_all : pres.

Lemma pres_detach_from_host d dh forced : Pres (detach_from_host remove_device d dh forced).
Proof using Hremove. unfold detach_from_host. pres_walk. Qed.
Lemma pres_leave_parent d : Pres (leave_parent policy d).
Proof. clear. unfold leave_parent. pres_walk; gentle_change. Qed.
#[local] Hint Resolve pres_detach_from_host pres_leave_parent : pres.

Lemma pres_RemoveDevice_body d forced : Pres (RemoveDevice_body policy remove_device d forced).
Proof using Hremove. unfold RemoveDevice_body. pres_walk. Qed.
End removal.

Lemma pres_remove_fuel policy fuel d forced : Pres (remove_fuel policy fuel d forced).
Proof. revert d forced. induction fuel as [|fuel IH]; intros d forced; [apply pres_panic|]. by apply pres_RemoveDevice_body. Qed.

Lemma pres_RemoveDevice policy d forced : Pres (RemoveDevice policy d forced).
Proof. apply pres_remove_fuel. Qed.
#[export] Hint Resolve pres_RemoveDevice pres_unbind_completion pres_remove_completion pres_init_completion pres_CreateUnbindRemoveTasks pres_CompleteInit
  pres_CompleteUnbind pres_CompleteRemove pres_ScheduleDriverHostRequestedRemove pres_ScheduleDriverHostRequestedUnbindChildren pres_ScheduleUnbindRemoveAllDevices : pres.

(** ** The tasks *)

Section tasks.
Context (policy : DriverHostCrashPolicy).

Lemma presT_InitTask_Run t d : PresT t (InitTask_Run policy t d).
Proof. unfold InitTask_Run. pres_walk. Qed.

Lemma presT_suspend_children t f l : PresT t (suspend_children t f l).
Proof. induction l as [|c l IH]; cbn [suspend_children]; [apply presT_of_pres, pres_ret|]. pres_walk; try exact IH. Qed.

Lemma presT_suspend_self t d f : PresT t (suspend_self t d f).
Proof. unfold suspend_self. pres_walk. Qed.

Lemma presT_SuspendTask_Run t d f : PresT t (SuspendTask_Run t d f).
Proof. unfold SuspendTask_Run. pres_walk; try apply presT_suspend_children; apply presT_suspend_self. Qed.

Lemma presT_resume_after t p s : PresT t (resume_after t p s).
Proof. unfold resume_after. pres_walk. Qed.

Lemma presT_ResumeTask_Run t d s : PresT t (ResumeTask_Run t d s).
Proof. unfold ResumeTask_Run, AddProxyResumeTask, AddParentResumeTask. pres_walk; apply presT_resume_after. Qed.

Lemma pres_SendUnbind d u : Pres (SendUnbind policy d u).
Proof. unfold SendUnbind. pres_walk. gentle_change. Qed.
Lemma pres_SendCompleteRemove d r : Pres (SendCompleteRemove policy d r).
Proof. unfold SendCompleteRemove. pres_walk. gentle_change. Qed.
#[local] Hint Resolve pres_SendUnbind pres_SendCompleteRemove : pres.
Lemma pres_RemoveTask_Run r d : Pres (RemoveTask_Run policy r d).
Proof. unfold RemoveTask_Run. pres_walk. Qed.
End tasks.
