(* ===== verification/DriverRemoval.v ===== *)
(** * DriverRemoval: the order in which devices are removed

    Over the runs of [DriverDeviceRun]: what scheduling the children of a device adds to the tasks, and what follows
    for the order in which devices are unbound and removed. *)
From Stdlib Require Import ZArith Lia.
From stdpp Require Import prelude gmap.
From S2P Require Import Prelude DriverTask DriverTaskRun DriverDevice DriverDeviceRun.

(** ** Scheduling the children of a device that is unbound *)

(** Devices stay what they are, but for tasks they are given. *)
Definition calm_dev (v v' : Device) : Prop :=
  state_ v' = state_ v /\ flags v' = flags v /\ proxy_ v' = proxy_ v /\ parent_ v' = parent_ v /\ children_ v' = children_ v /\ host_ v' = host_ v /\
  forall r, active_ (remove_ v) = Some r -> active_ (remove_ v') = Some r.

Definition Calm (w w' : World) : Prop := forall d v, device_map w !! d = Some v -> exists v', device_map w' !! d = Some v' /\ calm_dev v v'.

Lemma calm_dev_refl v : calm_dev v v.
Proof. by repeat split. Qed.

Lemma calm_dev_trans v1 v2 v3 : calm_dev v1 v2 -> calm_dev v2 v3 -> calm_dev v1 v3.
Proof. intros (? & ? & ? & ? & ? & ? & ?) (? & ? & ? & ? & ? & ? & ?). repeat split; try congruence. auto. Qed.

Lemma calm_same w w' : device_map w' = device_map w -> Calm w w'.
Proof. intros E d v Hd. exists v. rewrite E. split; [done|apply calm_dev_refl]. Qed.

Lemma calm_trans w1 w2 w3 : Calm w1 w2 -> Calm w2 w3 -> Calm w1 w3.
Proof.
  intros H1 H2 d v Hd. destruct (H1 d v Hd) as (v2 & Hd2 & C2). destruct (H2 d v2 Hd2) as (v3 & Hd3 & C3).
  exists v3. split; [done|by eapply calm_dev_trans].
Qed.

Lemma calm_upd f d w a w' : (forall v, device_map w !! d = Some v -> calm_dev v (f v)) -> upd_dev f d w = Done (a, w') -> Calm w w'.
Proof.
  intros Hf E. unfold upd_dev in E. destruct (device_map w !! d) as [v|] eqn:Hd; [|done]. injection E as _ <-. intros x u Hx. simpl.
  destruct (decide (x = d)) as [->|Hne]; [exists (f v); rewrite lookup_insert_eq; split; [done|]|exists u; rewrite lookup_insert_ne by done; split; [done|apply calm_dev_refl]].
  rewrite Hd in Hx. injection Hx as <-. by apply Hf.
Qed.

Lemma new_task_same k p w x w' : WInv w -> new_task k p w = Done (x, w') -> device_map w' = device_map w.
Proof.
  intros HI E. unfold new_task, task_call in E. destruct (do_call (CallNew p) (machine w)) as [[m log]|] eqn:Em; [|done].
  destruct (new_task_name p _ _ _ (tasks_inv _ (wi_tasks _ HI)) Em) as (-> & _). injection E as _ <-. done.
Qed.

Lemma add_dependency_same t o w a w' :
  WInv w -> add_dependency t o w = Done (a, w') -> device_map w' = device_map w /\ exists x, o = Some x /\ (t, x) ∈ added (machine w').
Proof.
  intros HI E. destruct o as [x|]; [|done]. change (task_call (CallAdd t x) w = Done (a, w')) in E. unfold task_call in E.
  destruct (do_call (CallAdd t x) (machine w)) as [[m log]|] eqn:Em; [|done]. injection E as _ <-.
  pose proof (call_checked _ _ _ _ Em) as [Ht Hx]. destruct (call_effects _ (CallAdd t x) _ _ (tasks_inv _ (wi_tasks _ HI)) (conj Ht Hx) Em) as (_ & _ & Ha).
  destruct (AddDependency_ok _ t x Ht Hx) as (ts & E' & _). cbn [do_call] in Em. rewrite (bind_ok _ _ _ E') in Em. injection Em as <- <-.
  split; [done|]. exists x. split; [done|]. simpl in Ha |- *. set_solver.
Qed.

(** Tasks that the driver manager creates for a device change nothing else. *)
Lemma create_calm rd d b p w a w' : (forall d forced, Pres (rd d forced)) -> WInv w -> CreateUnbindRemoveTasks rd d (mkUnbindTaskOpts b p false) w = Done (a, w') -> Calm w w'.
Proof.
  intros Hrd HI E. apply M_bind_Done in E as (dev & w1 & E1 & E). unfold get_dev in E1. destruct (device_map w !! d) as [v|] eqn:Hd; [|done]. injection E1 as -> <-.
  assert (forall c w', Done (c, w) = Done (a, w') -> Calm w w') as Hsame by (intros c w2 [= _ <-]; by apply calm_same).
  destruct (decide (state_ dev = kDead)); [by eapply Hsame|]. destruct (active_ (unbind_ dev)) as [u|] eqn:Eu.
  - apply M_bind_Done in E as (k & w1 & E1 & E). unfold get_kind in E1. destruct (kinds w !! u); [|done]. injection E1 as -> <-. destruct k; try done. exact (Hsame tt _ E).
  - destruct (active_ (remove_ dev)) as [r|] eqn:Er; [by eapply Hsame|].
    apply M_bind_Done in E as (r & w1 & E1 & E). pose proof (new_task_same _ _ _ _ _ HI E1) as S1.
    destruct (keeps_new_task (RemoveTask d) false w r w1 HI (conj eq_refl (ex_intro _ dev Hd)) E1) as (HI1 & _ & Hr).
    apply M_bind_Done in E as ([] & w2 & E2 & E).
    assert (Calm w1 w2) as C2 by (eapply calm_upd; [|exact E2]; intros v Hv; repeat split; rewrite S1, Hd in Hv; injection Hv as <-; by rewrite Er).
    assert (WInv w2) as HI2.
    { refine (proj1 (keeps_set_slot _ d (fun w => kinds w !! r = Some (RemoveTask d)) _ _ w1 tt w2 HI1 Hr E2)); [by intros []|].
      intros w3 v Hr3 [Su Sr]. split; [done|]. by intros r' [= <-]. }
    apply M_bind_Done in E as (u & w3 & E3 & E). pose proof (new_task_same _ _ _ _ _ HI2 E3) as S3.
    eapply calm_trans; [by apply calm_same|]. eapply calm_trans; [exact C2|]. eapply calm_trans; [by apply calm_same|].
    eapply calm_upd; [|exact E]. by repeat split.
Qed.

(** The device [parent], whose remove task [r], if it is no proxy, waits for its unbind task. *)
Definition waiting_parent (parent r : nat) (w : World) : Prop :=
  exists v, device_map w !! parent = Some v /\
    (PROXY (flags v) = true \/
     active_ (remove_ v) = Some r /\ exists u k, kinds w !! u = Some k /\ is_unbind parent k /\ (r, u) ∈ added (machine w)).

Lemma waiting_parent_stays parent r w w' : Later w w' -> Calm w w' -> waiting_parent parent r w -> waiting_parent parent r w'.
Proof.
  intros HL HC (v & Hv & Hor). destruct (HC parent v Hv) as (v' & Hv' & (_ & Hf & _ & _ & _ & _ & Hr)). exists v'. split; [done|]. rewrite Hf.
  destruct Hor as [?|(Er & u & k & Hk & Hu & Hin)]; [by left|right]. split; [by apply Hr|]. destruct (later_unbind _ _ _ _ _ HL Hk Hu) as (k' & ? & ?).
  exists u, k'. split_and!; [done|done|by apply (la_added _ _ HL)].
Qed.

(** A dependency of the remove task of such a device may be added. *)
Lemma waiting_dependency parent r w v pr x :
  WInv w -> waiting_parent parent r w -> device_map w !! parent = Some v -> active_ (remove_ v) = Some pr -> dependency_ok w pr x.
Proof.
  intros HI (v' & Hv' & Hor) Hv Hpr d dev Hk Hd Hf. rewrite Hv in Hv'. injection Hv' as <-. destruct (wi_slots _ HI parent v Hv) as [_ Sr].
  rewrite (Sr pr Hpr) in Hk. injection Hk as <-. rewrite Hv in Hd. injection Hd as <-. destruct Hor as [?|(Er & u & k & Hk & Hu & Hin)]; [congruence|].
  exists u, k. split_and!; [done|done|right; congruence].
Qed.

Lemma active_unbind_not_remove w d v u : WInv w -> device_map w !! d = Some v -> active_ (unbind_ v) = Some u -> not_remove w u.
Proof. intros HI Hv Hu. destruct (wi_slots _ HI d v Hv) as [Su _]. destruct (Su u Hu) as (k & Hk & (b & c & ->)). eexists. split; [exact Hk|done]. Qed.

(** One step of a computation that keeps the invariant and the devices. *)
Definition good (w w' : World) : Prop := WInv w' /\ Later w w' /\ Calm w w'.

Lemma good_trans w1 w2 w3 : good w1 w2 -> good w2 w3 -> good w1 w3.
Proof. intros (? & ? & ?) (? & ? & ?). split_and!; [done|by eapply later_trans|by eapply calm_trans]. Qed.

Lemma good_refl w : WInv w -> good w w.
Proof. intros HI. split_and!; [done|apply later_refl|by apply calm_same]. Qed.

Lemma good_add t o w a w' :
  WInv w -> (not_remove w t \/ exists x, o = Some x /\ dependency_ok w t x) -> add_dependency t o w = Done (a, w') ->
  good w w' /\ exists x, o = Some x /\ (t, x) ∈ added (machine w').
Proof.
  intros HI Hor E. destruct (add_dependency_same _ _ _ _ _ HI E) as [Es Hx]. split; [|done].
  assert (WInv w' /\ Later w w') as [HI' HL'].
  { destruct Hor as [Hn|(x & -> & Hd)].
    - destruct (keeps_add_dependency t o w a w' HI Hn E) as (? & ? & _). done.
    - destruct (keeps_task_call (CallAdd t x) w a w' HI Hd E) as (? & ? & _). done. }
  split_and!; [done|done|by apply calm_same].
Qed.

Lemma good_create policy d b p w a w' : WInv w -> CreateUnbindRemoveTasks (RemoveDevice policy) d (mkUnbindTaskOpts b p false) w = Done (a, w') -> good w w'.
Proof.
  intros HI E. destruct (pres_CreateUnbindRemoveTasks _ (pres_RemoveDevice policy) d _ w a w' HI I E) as (HI' & HL' & _). split_and!; [done|done|].
  by eapply create_calm; [apply pres_RemoveDevice|..].
Qed.

Lemma get_dev_Done d w v w' : get_dev d w = Done (v, w') -> w' = w /\ device_map w !! d = Some v.
Proof. unfold get_dev. destruct (device_map w !! d); [|done]. by intros [= <- <-]. Qed.

Section schedule.
Context (policy : DriverHostCrashPolicy).

(** A child is unbound after its parent and removed before it. *)
Lemma schedule_child parent child r w a w' :
  WInv w -> waiting_parent parent r w -> schedule_unbind_child policy parent child w = Done (a, w') ->
  good w w' /\
  (forall v c, device_map w !! parent = Some v -> active_ (remove_ v) = Some r -> device_map w !! child = Some c -> state_ c <> kDead -> state_ c <> kUnbinding ->
     exists rc, kinds w' !! rc = Some (RemoveTask child) /\ (r, rc) ∈ added (machine w')).
Proof.
  intros HI HW E. apply M_bind_Done in E as (c & w0 & E0 & E). apply get_dev_Done in E0 as [-> Hc].
  destruct (decide (state_ c = kDead \/ state_ c = kUnbinding)) as [Hs|Hs].
  { assert (w' = w) as -> by (destruct (state_ c); destruct Hs; try done; by injection E as _ <-). split; [by apply good_refl|].
    intros v c' _ _ Hc' ? ?. rewrite Hc in Hc'. injection Hc' as <-. naive_solver. }
  assert (link_child policy parent child w = Done (a, w')) as E1 by (destruct (state_ c); naive_solver). clear E.
  apply M_bind_Done in E1 as ([] & w1 & E1 & E). pose proof (good_create _ _ _ _ _ _ _ HI E1) as G1. destruct G1 as (HI1 & HL1 & HC1).
  apply M_bind_Done in E as (cdev & w1' & Ec & E). apply get_dev_Done in Ec as [-> Hcd].
  apply M_bind_Done in E as (pdev & w1' & Ep & E). apply get_dev_Done in Ep as [-> Hpd].
  apply M_bind_Done in E as ([] & w2 & E2 & E). assert (good w1 w2) as G2.
  { destruct (active_ (unbind_ cdev)) as [cu|] eqn:Ecu; [destruct (active_ (unbind_ pdev)) as [pu|]|]; [|injection E2 as <-; by apply good_refl..].
    eapply good_add; [done| |exact E2]. left. by apply (active_unbind_not_remove w1 child cdev). }
  apply M_bind_Done in E as (rc & w2' & E3 & E). destruct (active_ (remove_ cdev)) as [rc'|] eqn:Erc; [|done]. injection E3 as -> <-.
  destruct (wi_slots _ HI1 child cdev Hcd) as [_ Sr]. pose proof (Sr rc Erc) as Hkrc.
  pose proof (waiting_parent_stays _ _ _ _ HL1 HC1 HW) as HW1. destruct G2 as (HI2 & HL2 & HC2). pose proof (waiting_parent_stays _ _ _ _ HL2 HC2 HW1) as HW2.
  destruct (HC2 parent pdev Hpd) as (pdev2 & Hpd2 & (_ & _ & _ & _ & _ & _ & Hr2)).
  assert (good w2 w' /\ (active_ (remove_ pdev) = Some r -> (r, rc) ∈ added (machine w'))) as [G3 Hin].
  { destruct (active_ (remove_ pdev)) as [pr|] eqn:Epr; [|injection E as _ <-; split; [by apply good_refl|done]].
    destruct (good_add pr (Some rc) w2 a w' HI2) as [G (x & [= <-] & Hx)]; [|exact E|].
    - right. exists rc. split; [done|]. apply (waiting_dependency parent r w2 pdev2 pr rc HI2 HW2 Hpd2). by apply Hr2.
    - split; [done|]. by intros [= <-]. }
  split; [apply (good_trans w w1 w'); [by split_and!|apply (good_trans w1 w2 w'); [by split_and!|done]]|].
  intros v c' Hv Hr _ _ _. exists rc. destruct G3 as (_ & HL3 & _). split; [by apply (later_remove _ _ _ _ HL3), (later_remove _ _ _ _ HL2)|].
  apply Hin. destruct (HC1 parent v Hv) as (v1 & Hv1 & (_ & _ & _ & _ & _ & _ & Hr1)). rewrite Hpd in Hv1. injection Hv1 as <-. by apply Hr1.
Qed.

(** The loop over the children. *)
Lemma schedule_children parent r l w a w' :
  WInv w -> waiting_parent parent r w -> for_each (schedule_unbind_child policy parent) l w = Done (a, w') ->
  good w w' /\
  (forall v child c, child ∈ l -> device_map w !! parent = Some v -> active_ (remove_ v) = Some r -> device_map w !! child = Some c ->
     state_ c <> kDead -> state_ c <> kUnbinding -> exists rc, kinds w' !! rc = Some (RemoveTask child) /\ (r, rc) ∈ added (machine w')).
Proof.
  revert w. induction l as [|x l IH]; intros w HI HW E; cbn [for_each] in E.
  { injection E as _ <-. split; [by apply good_refl|]. intros v child c Hin. by apply not_elem_of_nil in Hin. }
  apply M_bind_Done in E as ([] & w1 & E1 & E). destruct (schedule_child parent x r w tt w1 HI HW E1) as [G1 Hx]. pose proof G1 as (HI1 & HL1 & HC1).
  destruct (IH w1 HI1 (waiting_parent_stays _ _ _ _ HL1 HC1 HW) E) as [G2 Hl]. split; [by eapply good_trans|]. destruct G2 as (_ & HL2 & _).
  intros v child c [->|Hin]%elem_of_cons Hv Hr Hc Hd Hu.
  - destruct (Hx v c Hv Hr Hc Hd Hu) as (rc & Hk & Hin). exists rc. split; [by apply (later_remove _ _ _ _ HL2)|by apply (la_added _ _ HL2)].
  - destruct (HC1 parent v Hv) as (v1 & Hv1 & (_ & _ & _ & _ & _ & _ & Hr1)). destruct (HC1 child c Hc) as (c1 & Hc1 & (Es & _)).
    apply (Hl v1 child c1 Hin Hv1 (Hr1 r Hr) Hc1); congruence.
Qed.

(** The proxy of a device is unbound after the device, and removed before it. *)
Lemma schedule_proxy d u r p w a w' v :
  WInv w -> waiting_parent d r w -> device_map w !! d = Some v -> active_ (remove_ v) = Some r -> schedule_unbind_proxy policy u r p w = Done (a, w') -> good w w'.
Proof.
  intros HI HW Hv Hr E. apply M_bind_Done in E as (pdev & w0 & E0 & E). apply get_dev_Done in E0 as [-> Hp].
  destruct (decide (state_ pdev = kDead \/ state_ pdev = kUnbinding)) as [Hs|Hs].
  { assert (w' = w) as -> by (destruct (state_ pdev); destruct Hs; try done; by injection E as _ <-). by apply good_refl. }
  assert (link_proxy policy u r p w = Done (a, w')) as E1 by (destruct (state_ pdev); naive_solver). clear E.
  apply M_bind_Done in E1 as ([] & w1 & E1 & E). pose proof (good_create _ _ _ _ _ _ _ HI E1) as G1. pose proof G1 as (HI1 & HL1 & HC1).
  apply M_bind_Done in E as (pdev1 & w1' & Ec & E). apply get_dev_Done in Ec as [-> Hp1]. apply M_bind_Done in E as ([] & w2 & E2 & E).
  assert (good w1 w2) as G2.
  { destruct (active_ (unbind_ pdev1)) as [pu|] eqn:Epu; [|injection E2 as <-; by apply good_refl].
    eapply good_add; [done| |exact E2]. left. by apply (active_unbind_not_remove w1 p pdev1). }
  eapply good_trans; [exact G1|]. eapply good_trans; [exact G2|]. pose proof G2 as (HI2 & HL2 & HC2).
  destruct (active_ (remove_ pdev1)) as [pr|] eqn:Epr; [|done]. eapply good_add; [done| |exact E]. right. exists pr. split; [done|].
  destruct (HC1 d v Hv) as (v1 & Hv1 & (_ & _ & _ & _ & _ & _ & Hr1)). destruct (HC2 d v1 Hv1) as (v2 & Hv2 & (_ & _ & _ & _ & _ & _ & Hr2)).
  apply (waiting_dependency d r w2 v2 r pr HI2); [|done|by apply Hr2, Hr1].
  apply (waiting_parent_stays _ _ w1); [done|done|]. by apply (waiting_parent_stays _ _ w).
Qed.

(** Unbinding a device makes its remove task wait for the unbind task and, if the device has no proxy, for the
    removal of every child that is neither dead nor being unbound. *)
Lemma schedule_unbind_children u d w a w' k :
  WInv w -> kinds w !! u = Some k -> is_unbind d k -> ScheduleUnbindChildren policy u d w = Done (a, w') ->
  good w w' /\
  (forall v r, device_map w !! d = Some v -> active_ (remove_ v) = Some r -> (r, u) ∈ added (machine w') /\
     (PROXY (flags v) = false -> proxy_ v = None -> forall child c, child ∈ children_ v -> device_map w !! child = Some c ->
        state_ c <> kDead -> state_ c <> kUnbinding -> exists rc, kinds w' !! rc = Some (RemoveTask child) /\ (r, rc) ∈ added (machine w'))).
Proof.
  intros HI Hk Hu E. apply M_bind_Done in E as (v & w0 & E0 & E). apply get_dev_Done in E0 as [-> Hv].
  destruct (active_ (remove_ v)) as [r|] eqn:Er.
  2:{ injection E as _ <-. split; [by apply good_refl|]. intros v' r Hv' Hr. rewrite Hv in Hv'. injection Hv' as <-. congruence. }
  destruct (wi_slots _ HI d v Hv) as [_ Sr]. pose proof (Sr r Er) as Hkr.
  apply M_bind_Done in E as ([] & w1 & E1 & E). destruct (good_add r (Some u) w tt w1 HI) as [G1 (x & [= <-] & Hin)]; [|exact E1|].
  { right. exists u. split; [done|]. intros e dev He _ _. rewrite Hkr in He. injection He as <-. exists u, k. auto. }
  pose proof G1 as (HI1 & HL1 & HC1). destruct (HC1 d v Hv) as (v1 & Hv1 & Cv1). pose proof Cv1 as (_ & Ef1 & _ & _ & _ & _ & Hr1).
  assert (waiting_parent d r w1) as HW1.
  { exists v1. split; [done|]. right. split; [by apply Hr1|]. destruct (later_unbind _ _ _ _ _ HL1 Hk Hu) as (k' & ? & ?). by exists u, k'. }
  apply M_bind_Done in E as ([] & w2 & E2 & E). assert (good w1 w2) as G2.
  { destruct (proxy_ v) as [p|]; [|injection E2 as <-; by apply good_refl]. eapply schedule_proxy; [done|exact HW1|done|by apply Hr1|exact E2]. }
  pose proof G2 as (HI2 & HL2 & HC2). pose proof (waiting_parent_stays _ _ _ _ HL2 HC2 HW1) as HW2.
  apply M_bind_Done in E as (l & w2' & E3 & E). assert (w2' = w2 /\ (PROXY (flags v) = false -> l = children_ v)) as [-> Hl].
  { destruct (PROXY (flags v)); [destruct (parent_ v) as [q|]|]; [|injection E3 as <- <-; by split..].
    apply M_bind_Done in E3 as (qdev & w3 & Eq & E3). apply get_dev_Done in Eq as [-> _]. injection E3 as <- <-. done. }
  assert (waiting_parent (default d (proxy_ v)) r w2) as HWp.
  { destruct (proxy_ v) as [p|] eqn:Ep; [|done]. simpl. destruct (wi_proxy _ HI d v p Hv Ep) as (pdev & Hp & Hf).
    destruct (HC1 p pdev Hp) as (p1 & Hp1 & (_ & Ep1 & _)). destruct (HC2 p p1 Hp1) as (p2 & Hp2 & (_ & Ep2 & _)). exists p2. split; [done|left; congruence]. }
  destruct (schedule_children _ r l w2 a w' HI2 HWp E) as [G3 Hch]. pose proof G3 as (HI3 & HL3 & HC3).
  split; [by eapply good_trans; [exact G1|eapply good_trans; [exact G2|]]|]. intros v' r' Hv' Hr'. rewrite Hv in Hv'. injection Hv' as <-.
  rewrite Er in Hr'. injection Hr' as <-. split; [by apply (la_added _ _ HL3), (la_added _ _ HL2)|].
  intros Hpf Hnp child c Hin' Hc Hd Hub. rewrite Hnp in Hch. simpl in Hch. destruct (HC2 d v1 Hv1) as (v2 & Hv2 & (_ & _ & _ & _ & _ & _ & Hr2)).
  destruct (HC1 child c Hc) as (c1 & Hc1 & (Es1 & _)). destruct (HC2 child c1 Hc1) as (c2 & Hc2 & (Es2 & _)).
  apply (Hch v2 child c2); [by rewrite (Hl Hpf)|done|by apply Hr2, Hr1|done|congruence|congruence].
Qed.
End schedule.

(** ** Every event keeps the invariant *)

Lemma new_device_keeps parent fl :
  keeps (fun _ => True) (new_device parent fl) (fun d w => exists v, device_map w !! d = Some v /\ PROXY (flags v) = PROXY fl).
Proof.
  intros w d w' HI _ E. injection E as <- <-. set (d := next_device w). set (v := mkDevice _ _ _ _ _ _ _ _ _ _ _ _ _ _ _).
  assert (device_map w !! d = None) as Hnone.
  { destruct (device_map w !! d) as [u|] eqn:Hu; [|done]. pose proof (wi_device _ HI d ltac:(eauto)). unfold d in *. lia. }
  assert (forall x u, device_map w !! x = Some u -> <[d := v]> (device_map w) !! x = Some u) as Hold by (intros x u Hx; rewrite lookup_insert_ne; congruence).
  split_and!; [|constructor; simpl; [done| |intros x u Hx; exists u; auto]|exists v; split; [apply lookup_insert_eq|done]].
  2:{ intros t k ?. exists k. split; [done|apply same_kind_refl]. }
  destruct HI as [H1 H2 H3 H4 H5 H6 H7]. constructor; simpl; [done|done|..].
  - intros r x Hr. destruct (H3 r x Hr) as [? [u Hu]]. split; [done|]. rewrite (Hold x u Hu). eauto.
  - intros x u Hx. rewrite lookup_insert in Hx. case_decide; [|by apply H4]. injection Hx as <-. by split.
  - intros x u p Hx Hp. rewrite lookup_insert in Hx. case_decide; [by injection Hx as <-|]. destruct (H5 x u p Hx Hp) as (q & ? & ?). exists q. auto.
  - intros x [u Hx]. rewrite lookup_insert in Hx. case_decide; [subst; unfold d; lia|]. pose proof (H6 x ltac:(eauto)). lia.
  - intros r x u t Hr Hx Hf Hin. rewrite lookup_insert in Hx. case_decide; [|by eapply H7]. subst x. destruct (H3 r d Hr) as [_ [q Hq]]. congruence.
Qed.

Lemma pres_new_device parent fl : Pres (new_device parent fl).
Proof. eapply keeps_weaken; [apply new_device_keeps|done|done]. Qed.
#[export] Hint Resolve pres_new_device : pres.

(** A device is given a proxy. *)
Lemma set_proxy_keeps f d p :
  (forall v, PROXY (flags (f v)) = PROXY (flags v) /\ proxy_ (f v) = Some p /\ unbind_ (f v) = unbind_ v /\ remove_ (f v) = remove_ v) ->
  keeps (fun w => exists v, device_map w !! p = Some v /\ PROXY (flags v) = true) (upd_dev f d) (fun _ _ => True).
Proof.
  intros Hf w a w' HI Hp E. unfold upd_dev in E. destruct (device_map w !! d) as [v|] eqn:Hd; [|done]. injection E as _ <-.
  destruct (Hf v) as (Hfl & Hpr & Hu & Hr). destruct (device_inv w d v (f v) HI Hd Hfl) as [HI' HL']; [| |done].
  - unfold slots_ok. rewrite Hu, Hr. apply (wi_slots _ HI d v Hd).
  - intros q Hq. rewrite Hpr in Hq. injection Hq as <-. done.
Qed.

Lemma pres_CreateProxy d : Pres (CreateProxy d).
Proof.
  unfold CreateProxy. apply pres_bind; [apply pres_get_dev|]. intros dev. apply pres_bind; [apply pres_assert|]. intros _.
  eapply keeps_bind; [apply new_device_keeps|]. intros p. by apply set_proxy_keeps.
Qed.
Lemma pres_CreateNewProxy d : Pres (CreateNewProxy d).
Proof. unfold CreateNewProxy. pres_walk. gentle_change. Qed.
#[export] Hint Resolve pres_CreateProxy pres_CreateNewProxy : pres.

Lemma pres_PrepareProxy d target s1 s2 : Pres (PrepareProxy d target s1 s2).
Proof. unfold PrepareProxy. pres_walk; gentle_change. Qed.
Lemma pres_PrepareNewProxy d target s1 s2 : Pres (PrepareNewProxy d target s1 s2).
Proof. unfold PrepareNewProxy. pres_walk; gentle_change. Qed.
Lemma pres_Device_Create parent b c s : Pres (Device_Create parent b c s).
Proof. unfold Device_Create. pres_walk; gentle_change. Qed.
#[export] Hint Resolve pres_Device_Create : pres.
Lemma pres_AddDevice in_suspend in_resume parent b c s : Pres (AddDevice in_suspend in_resume parent b c s).
Proof. unfold AddDevice. pres_walk. Qed.

Lemma pres_all_devices d : Pres (all_devices d).
Proof. apply pres_read. by intros w a w' [= _ <-]. Qed.
#[export] Hint Resolve pres_all_devices pres_PrepareProxy pres_PrepareNewProxy pres_AddDevice : pres.

Lemma pres_Resume b s d : Pres (Resume b s d).
Proof. unfold Resume, schedule_resume. pres_walk; [by apply pres_new_task|gentle_change]. Qed.
Lemma pres_start_suspend d f : Pres (start_suspend d f).
Proof. unfold start_suspend. pres_walk. by apply pres_new_task. Qed.

Section events.
Context (policy : DriverHostCrashPolicy).

Lemma pres_handle_reply r ok s : Pres (handle_reply policy r ok s).
Proof. unfold handle_reply. pres_walk. gentle_change. Qed.

Lemma unbind_run_keeps u d b : keeps (fun w => exists k, kinds w !! u = Some k /\ is_unbind d k) (UnbindTask_Run policy u d b) (fun _ _ => True).
Proof.
  intros w a w' HI (k & Hk & Hu) E. assert (not_remove w u) as Hn by (destruct Hu as (? & ? & ->); by exists (UnbindTask d x x0)).
  apply M_bind_Done in E as (v & w0 & E0 & E). apply get_dev_Done in E0 as [-> Hv].
  assert (Pres (if is_some (host_ v) && b then SendUnbind policy d u else unbind_completion (RemoveDevice policy) u d ZX_OK)) as Hlast
    by (destruct (is_some (host_ v) && b); [apply pres_SendUnbind|apply pres_unbind_completion, pres_RemoveDevice]).
  destruct (state_ v) eqn:Es; try (by destruct (keeps_add_dependency u _ w a w' HI Hn E)).
  all: apply M_bind_Done in E as ([] & w1 & E1 & E); destruct (schedule_unbind_children policy u d w tt w1 k HI Hk Hu E1) as [(HI1 & HL1 & _) _].
  all: destruct (Hlast w1 a w' HI1 I E) as (HI2 & HL2 & _); split_and!; [done|by eapply later_trans|done].
Qed.

Lemma pres_Run t : Pres (Run policy t).
Proof.
  intros w a w' HI _ E. apply M_bind_Done in E as (k & w0 & E0 & E). unfold get_kind in E0. destruct (kinds w !! t) as [k'|] eqn:Hk; [|done].
  injection E0 as -> <-. assert ((forall d, k <> RemoveTask d) -> not_remove w t) as Hn by (intros H; by exists k). destruct k as [d|d f|d s sch|d b c|d].
  - destruct (presT_InitTask_Run policy t d w a w' HI (Hn ltac:(done)) E) as (? & ? & _). done.
  - destruct (presT_SuspendTask_Run t d f w a w' HI (Hn ltac:(done)) E) as (? & ? & _). done.
  - destruct (presT_ResumeTask_Run t d s w a w' HI (Hn ltac:(done)) E) as (? & ? & _). done.
  - apply (unbind_run_keeps t d b w a w' HI); [|done]. eexists. split; [exact Hk|by eexists _, _].
  - by apply (pres_RemoveTask_Run policy t d w a w' HI).
Qed.

Lemma execute_keeps t : keeps (fun w => t ∈ posted (store (machine w))) (execute policy t) (fun _ _ => True).
Proof.
  intros w a w' HI Hp E. unfold execute in E. destruct (ExecuteTask t (store (machine w))) as [[run st]|]; [|done].
  apply M_bind_Done in E as ([] & w1 & E1 & E). destruct (keeps_task_call (CallExecute t) w tt w1 HI Hp E1) as (HI1 & HL1 & _).
  destruct run.
  - destruct (pres_Run t w1 a w' HI1 I E) as (? & HL2 & _). split_and!; [done|by eapply later_trans|done].
  - injection E as _ <-. done.
Qed.

Lemma event_inv w e w' : WInv w -> event_allowed w e -> handle policy e w = Done (tt, w') -> WInv w' /\ Later w w'.
Proof.
  intros HI Ha E. assert (forall m : M unit, Pres m -> m w = Done (tt, w') -> WInv w' /\ Later w w') as Hp.
  { intros m Hm Em. destruct (Hm w tt w' HI I Em) as (? & ? & _). done. }
  destruct e; cbn [handle] in E; try (eapply Hp; [|exact E]; pres_walk; fail).
  - destruct (execute_keeps t w tt w' HI Ha E) as (? & ? & _). done.
  - eapply Hp; [|exact E]. pres_walk. apply pres_handle_reply.
  - eapply Hp; [|exact E]. apply pres_start_suspend.
  - eapply Hp; [|exact E]. apply pres_Resume.
Qed.

Lemma init_inv : WInv World_init.
Proof.
  assert (forall d v, device_map World_init !! d = Some v -> (d = 0 /\ v = core_device None false) \/ (d = 1 /\ v = core_device (Some 0) true)) as Hd.
  { intros d v. simpl. unfold root_device, sys_device. rewrite lookup_insert. case_decide as E0; [subst; intros [= <-]; by left|].
    intros H%lookup_singleton_Some. destruct H as [<- <-]. by right. }
  constructor; [constructor|..]; simpl.
  - by intros t [? ?].
  - by intros r d ?.
  - intros d v [[-> ->]|[-> ->]]%Hd; by split.
  - intros d v p [[-> ->]|[-> ->]]%Hd; done.
  - intros d [v [[-> _]|[-> _]]%Hd]; lia.
  - by intros r d v t ?.
Qed.

Lemma reachable_later w w' : WInv w -> rtc (dm_step policy) w w' -> WInv w' /\ Later w w'.
Proof.
  intros HI Hr. revert HI. induction Hr as [w|w1 w2 w3 [e Ha E] _ IH]; intros HI; [split; [done|apply later_refl]|].
  destruct (event_inv w1 e w2 HI Ha E) as [HI2 HL2]. destruct (IH HI2) as [HI3 HL3]. split; [done|by eapply later_trans].
Qed.

Lemma dm_reachable_inv w : dm_reachable policy w -> WInv w.
Proof. intros Hr. by destruct (reachable_later _ _ init_inv Hr). Qed.
End events.

(** ** The order of removals *)

(** The task [t] has completed successfully. *)
Definition completed_ok (w : World) (t : nat) : Prop := exists v, tasks (store (machine w)) !! t = Some v /\ status_ v = Some ZX_OK.

(** The dispatcher takes the task [t] and calls its [Run]. *)
Definition runs_now (w : World) (t : nat) : Prop := t ∈ posted (store (machine w)) /\ exists st', ExecuteTask t (store (machine w)) = Done (true, st').

(** Running the unbind task [u] of the device [d], with remove task [r], gets past waiting for other tasks of [d]. *)
Definition unbinds (policy : DriverHostCrashPolicy) (w : World) (u d r : nat) (v : Device) (w' : World) : Prop :=
  runs_now w u /\ (exists k, kinds w !! u = Some k /\ is_unbind d k) /\ device_map w !! d = Some v /\ active_ (remove_ v) = Some r /\
  state_ v ∉ [kInitializing; kSuspending; kResuming] /\ handle policy (EvExecute u) w = Done (tt, w').

Section order.
Context (policy : DriverHostCrashPolicy).

(** Taking a task from the dispatcher changes no device. *)
Lemma execute_same w t a w1 : WInv w -> t ∈ posted (store (machine w)) -> task_call (CallExecute t) w = Done (a, w1) -> device_map w1 = device_map w.
Proof.
  clear. intros HI Hp E. unfold task_call in E. destruct (do_call (CallExecute t) (machine w)) as [[m log]|] eqn:Em; [|done].
  pose proof (tasks_inv _ (wi_tasks _ HI)) as HT.
  destruct (execute_inv _ t HT) as (m' & Em' & _); [by apply (co_posted _ _ _ (ti_consistent _ HT))|]. rewrite Em in Em'. injection Em' as -> ->.
  by injection E as _ <-.
Qed.

(** What unbinding a device adds. *)
Lemma unbinds_adds w u d r v w' :
  WInv w -> unbinds policy w u d r v w' -> PROXY (flags v) = false -> proxy_ v = None ->
  forall child c, child ∈ children_ v -> device_map w !! child = Some c -> state_ c <> kDead -> state_ c <> kUnbinding ->
  exists rc, kinds w' !! rc = Some (RemoveTask child) /\ (r, rc) ∈ added (machine w').
Proof.
  intros HI ([Hp [st' Ex]] & (k & Hk & Hu) & Hv & Hr & Hs & E) Hf Hnp child c Hin Hc Hd Hub. cbn [handle] in E. unfold execute in E. rewrite Ex in E.
  apply M_bind_Done in E as ([] & w1 & E1 & E). destruct (keeps_task_call (CallExecute u) w tt w1 HI Hp E1) as (HI1 & HL1 & _).
  assert (device_map w1 = device_map w) as Ed by (by eapply execute_same).
  destruct (later_unbind _ _ _ _ _ HL1 Hk Hu) as (k1 & Hk1 & Hu1). apply M_bind_Done in E as (k2 & w2 & E2 & E). unfold get_kind in E2. rewrite Hk1 in E2. injection E2 as <- <-.
  destruct Hu1 as (b & cc & ->). apply M_bind_Done in E as (v' & w2 & E2 & E). apply get_dev_Done in E2 as [-> Hv'].
  rewrite Ed, Hv in Hv'. injection Hv' as <-.
  assert ((_ ← ScheduleUnbindChildren policy u d;
    if is_some (host_ v) && b then SendUnbind policy d u else unbind_completion (RemoveDevice policy) u d ZX_OK) w1 = Done (tt, w')) as E'
    by (destruct (state_ v); try exact E; set_solver).
  clear E. apply M_bind_Done in E' as ([] & w2 & E2 & E). rewrite <- Ed in Hv, Hc.
  destruct (schedule_unbind_children policy u d w1 tt w2 _ HI1 Hk1 ltac:(by eexists _, _) E2) as [(HI2 & HL2 & _) Hadd].
  destruct (Hadd v r Hv Hr) as [_ Hch]. destruct (Hch Hf Hnp child c Hin Hc Hd Hub) as (rc & Hkrc & Hrc).
  assert (Pres (if is_some (host_ v) && b then SendUnbind policy d u else unbind_completion (RemoveDevice policy) u d ZX_OK)) as Hlast
    by (destruct (is_some (host_ v) && b); [apply pres_SendUnbind|apply pres_unbind_completion, pres_RemoveDevice]).
  destruct (Hlast w2 tt w' HI2 I E) as (_ & HL3 & _). exists rc. split; [by apply (later_remove _ _ _ _ HL3)|by apply (la_added _ _ HL3)].
Qed.

(** C18. The order of removals, in every run of the driver manager. When the remove task of a device that is no proxy is
    run, which is when its driver host is told to remove it, an unbind task of the device has completed; and every
    child that the device, without a proxy, had when it was unbound and that was then neither dead nor being unbound
    has a remove task that has completed. *)
Theorem removal_order w r d v :
  dm_reachable policy w -> kinds w !! r = Some (RemoveTask d) -> device_map w !! d = Some v -> PROXY (flags v) = false -> runs_now w r ->
  (exists u k, kinds w !! u = Some k /\ is_unbind d k /\ completed_ok w u) /\
  (forall w1 w2 u v1, dm_reachable policy w1 -> unbinds policy w1 u d r v1 w2 -> rtc (dm_step policy) w2 w -> proxy_ v1 = None ->
     forall child c, child ∈ children_ v1 -> device_map w1 !! child = Some c -> state_ c <> kDead -> state_ c <> kUnbinding ->
     exists rc, kinds w !! rc = Some (RemoveTask child) /\ completed_ok w rc).
Proof.
  intros Hr Hk Hv Hf [Hp [st' Ex]]. pose proof (dm_reachable_inv policy w Hr) as HI. pose proof (tasks_inv _ (wi_tasks _ HI)) as HT.
  destruct (run_ready _ _ _ HT Ex) as [_ Hdeps]. split.
  - destruct (wi_unposted _ HI r d Hk) as [Hset _]. destruct (ti_posted _ HT r Hp Hset) as [t Ht].
    destruct (wi_remove _ HI r d v t Hk Hv Hf Ht) as (u & k & Hu & Hku & Hin). exists u, k. split_and!; [done|done|]. by apply Hdeps.
  - intros w1 w2 u v1 Hr1 Hub Hlater Hnp child c Hin Hc Hd Hu. pose proof (dm_reachable_inv policy w1 Hr1) as HI1.
    pose proof Hub as (Hnow & _ & Hv1 & _ & _ & E). destruct (event_inv policy w1 (EvExecute u) w2 HI1 (proj1 Hnow) E) as [HI2 HL2].
    destruct (reachable_later policy w2 w HI2 Hlater) as [_ HL3].
    assert (PROXY (flags v1) = false) as Hf1.
    { destruct (la_devices _ _ (later_trans _ _ _ HL2 HL3) d v1 Hv1) as (v' & Hv' & Hpf). rewrite Hv in Hv'. injection Hv' as <-. congruence. }
    destruct (unbinds_adds w1 u d r v1 w2 HI1 Hub Hf1 Hnp child c Hin Hc Hd Hu) as (rc & Hkrc & Hrc). exists rc.
    split; [by apply (later_remove _ _ _ _ HL3)|]. by apply Hdeps, (la_added _ _ HL3).
Qed.
End order.
