(* ===== verification/DriverSuspend.v ===== *)
(** * DriverSuspend: the order in which devices are suspended

    A driver host is asked to suspend a device only when what depends on the device is suspended, gone, or going. *)
From Stdlib Require Import ZArith Lia.
From stdpp Require Import prelude gmap.
From S2P Require Import Prelude DriverTask DriverTaskRun DriverDevice DriverDeviceRun DriverRemoval.

(** ** Computations that send nothing *)

Definition silent {A} (m : M A) : Prop := forall w a w', m w = Done (a, w') -> requests w' = requests w.

Create HintDb silent.

Lemma silent_bind {A B} (m : M A) (f : A -> M B) : silent m -> (forall a, silent (f a)) -> silent (m ≫= f).
Proof. intros Hm Hf w b w' (a & w1 & E1 & E2)%M_bind_Done. rewrite (Hf a w1 b w' E2). by apply (Hm w a w1). Qed.
Lemma silent_ret {A} (a : A) : silent (mret a).
Proof. by intros w b w' [= _ <-]. Qed.
Lemma silent_panic {A} : silent (@panic A).
Proof. by intros w b w' [=]. Qed.
Lemma silent_get_dev d : silent (get_dev d).
Proof. intros w v w' [-> _]%get_dev_Done. done. Qed.
Lemma silent_get_kind t : silent (get_kind t).
Proof. intros w a w'. unfold get_kind. case_match; [|done]. by intros [= _ <-]. Qed.
Lemma silent_assert b : silent (assert b).
Proof. destruct b; [apply silent_ret|apply silent_panic]. Qed.
Lemma silent_deref o : silent (deref o).
Proof. destruct o; [apply silent_ret|apply silent_panic]. Qed.
Lemma silent_upd_dev f d : silent (upd_dev f d).
Proof. intros w a w'. unfold upd_dev. case_match; [|done]. by intros [= _ <-]. Qed.

Lemma callbacks_requests l w : requests (fold_left callback l w) = requests w.
Proof.
  revert w. induction l as [|t l IH]; intros w; [done|]. simpl. rewrite IH. unfold callback. repeat (case_match; try done).
Qed.

Lemma silent_task_call c : silent (task_call c).
Proof. intros w a w'. unfold task_call. case_match; [|done]. case_match. intros [= _ <-]. simpl. by rewrite callbacks_requests. Qed.
Lemma silent_new_task k p : silent (new_task k p).
Proof. intros w a w'. unfold new_task. destruct (task_call (CallNew p) w) as [[[] w1]|] eqn:E; [|done]. intros [= _ <-]. exact (silent_task_call (CallNew p) w tt w1 E). Qed.
#[export] Hint Resolve silent_ret silent_panic silent_get_dev silent_get_kind silent_assert silent_deref silent_upd_dev silent_task_call silent_new_task : silent.

Ltac silent_walk :=
  repeat first
    [ solve [eauto 3 with silent nocore] | apply silent_bind; [|intros ?]
    | match goal with
      | |- silent (if ?b then _ else _) => destruct b
      | |- silent (match ?b with _ => _ end) => destruct b
      end ].

Lemma silent_add_dependency t o : silent (add_dependency t o).
Proof. unfold add_dependency. silent_walk. Qed.
Lemma silent_complete_task t s : silent (complete_task t s).
Proof. unfold complete_task. silent_walk. Qed.
Lemma silent_set_state d s : silent (set_state d s).
Proof. unfold set_state. silent_walk. Qed.
Lemma silent_RequestSuspendTask d f : silent (RequestSuspendTask d f).
Proof. unfold RequestSuspendTask. silent_walk. Qed.
#[export] Hint Resolve silent_add_dependency silent_complete_task silent_set_state silent_RequestSuspendTask : silent.
Lemma silent_suspend_children t f l : silent (suspend_children t f l).
Proof. induction l as [|c l IH]; cbn [suspend_children]; [apply silent_ret|]. silent_walk; exact IH. Qed.

(** ** The order of suspensions *)

(** A child that need not be waited for. *)
Definition child_quiet (w : World) (child : nat) : Prop :=
  exists c, device_map w !! child = Some c /\ (state_ c = kSuspended \/ IsDeviceBeingRemoved c = true).

(** When no dependency was added, all children are quiet, and nothing has changed. *)
Lemma suspend_children_none t f l w w' : suspend_children t f l w = Done (false, w') -> w' = w /\ forall child, child ∈ l -> child_quiet w child.
Proof.
  revert w. induction l as [|x l IH]; intros w E; cbn [suspend_children] in E.
  { injection E as <-. split; [done|]. intros child Hin. by apply not_elem_of_nil in Hin. }
  apply M_bind_Done in E as (c & w1 & E1 & E). apply get_dev_Done in E1 as [-> Hc].
  assert (suspend_children t f l w = Done (false, w') /\ (state_ c = kSuspended \/ IsDeviceBeingRemoved c = true)) as [E' Hq].
  { assert (state_ c = kDead \/ state_ c = kUnbinding -> IsDeviceBeingRemoved c = true) as Hgone by (unfold IsDeviceBeingRemoved; intros [-> | ->]; done).
    assert ((if IsDeviceBeingRemoved c then suspend_children t f l
             else s ← RequestSuspendTask x f; _ ← add_dependency t (Some s); _ ← suspend_children t f l; mret true) w = Done (false, w') ->
            suspend_children t f l w = Done (false, w') /\ IsDeviceBeingRemoved c = true) as Hother.
    { destruct (IsDeviceBeingRemoved c); [done|]. intros (? & ? & _ & E2)%M_bind_Done. apply M_bind_Done in E2 as (? & ? & _ & E2).
      by apply M_bind_Done in E2 as (? & ? & _ & [=]). }
    destruct (state_ c); auto; destruct (Hother E); auto. }
  destruct (IH w E') as [-> Hl]. split; [done|]. intros child [->|Hin]%elem_of_cons; [by exists c|by apply Hl].
Qed.

(** What [suspend_self] sends. *)
Lemma suspend_self_sends t d f w w' v :
  device_map w !! d = Some v -> suspend_self t d f w = Done (tt, w') -> requests w' <> requests w ->
  requests w' = requests w ++ [ReqSuspend d f] /\ IsDeviceBeingRemoved v = false /\ state_ v <> kInitializing /\ state_ v <> kResuming /\ is_some (host_ v) = true.
Proof.
  intros Hv E Hne. apply M_bind_Done in E as (v' & w1 & E1 & E). apply get_dev_Done in E1 as [-> Hv']. rewrite Hv in Hv'. injection Hv' as <-.
  destruct (decide (state_ v = kInitializing)); [by destruct Hne; eapply silent_add_dependency|].
  destruct (IsDeviceBeingRemoved v); [by destruct Hne; eapply silent_complete_task|].
  destruct (decide (state_ v = kResuming)); [by destruct Hne; eapply silent_add_dependency|]. destruct (is_some (host_ v)).
  - split_and!; try done. unfold SendSuspend in E. apply M_bind_Done in E as (v' & w1 & E1 & E). apply get_dev_Done in E1 as [-> Hv'].
    destruct (is_some (completion_ (suspend_ v'))).
    + destruct Hne. revert E. apply (silent_bind (complete_task t ZX_ERR_UNAVAILABLE)); [apply silent_complete_task|intros _; apply silent_upd_dev].
    + apply M_bind_Done in E as ([] & w1 & [= <-] & E). apply M_bind_Done in E as ([] & w2 & E2 & E).
      rewrite (silent_upd_dev _ _ _ _ _ E), (silent_set_state _ _ _ _ _ E2). done.
  - destruct Hne. revert E. refine (silent_bind _ _ _ _ w tt w'); [|intros _; apply silent_complete_task]. silent_walk.
Qed.

(** C28. When running a suspend task sends anything, it asks the driver host to suspend the device of the task, and at
    that moment every child of the device is suspended or being removed, its proxy is suspended, resuming, resumed or
    dead, and the device itself is in a driver host, not starting, not resuming and not being removed. *)
Theorem suspend_order policy w t d f v w' :
  dm_reachable policy w -> kinds w !! t = Some (SuspendTask d f) -> device_map w !! d = Some v -> t ∈ posted (store (machine w)) ->
  handle policy (EvExecute t) w = Done (tt, w') -> requests w' <> requests w ->
  requests w' = requests w ++ [ReqSuspend d f] /\
  (forall child, child ∈ children_ v -> child_quiet w child) /\
  (forall p, proxy_ v = Some p -> exists pv, device_map w !! p = Some pv /\ state_ pv ∈ [kDead; kSuspended; kResuming; kResumed]) /\
  IsDeviceBeingRemoved v = false /\ state_ v <> kInitializing /\ state_ v <> kResuming /\ is_some (host_ v) = true.
Proof.
  intros Hr Hk Hv Hp E Hne. pose proof (dm_reachable_inv policy w Hr) as HI. cbn [handle] in E. unfold execute in E.
  destruct (ExecuteTask t (store (machine w))) as [[run st]|]; [|done]. apply M_bind_Done in E as ([] & w1 & E1 & E).
  pose proof (silent_task_call _ _ _ _ E1) as Er. destruct (keeps_task_call (CallExecute t) w tt w1 HI Hp E1) as (_ & HL1 & _).
  assert (device_map w1 = device_map w) as Ed by (by eapply execute_same).
  destruct run; [|injection E as <-; done]. apply M_bind_Done in E as (k & w2 & E2 & E). unfold get_kind in E2.
  destruct (la_kinds _ _ HL1 t _ Hk) as (k1 & Hk1 & Hs). rewrite Hk1 in E2. injection E2 as <- <-. destruct Hs as [->|(e & (? & ? & [=]) & _)].
  apply M_bind_Done in E as (v' & w2 & E2 & E). apply get_dev_Done in E2 as [-> Hv']. rewrite Ed, Hv in Hv'. injection Hv' as <-.
  apply M_bind_Done in E as (b & w2 & E2 & E). destruct b.
  { injection E as <-. rewrite (silent_suspend_children _ _ _ _ _ _ E2) in Hne. congruence. }
  apply suspend_children_none in E2 as [-> Hch]. rewrite <- Er in Hne |- *. rewrite <- Ed in Hv |- *.
  assert (suspend_self t d f w1 = Done (tt, w') /\ forall p, proxy_ v = Some p -> exists pv, device_map w1 !! p = Some pv /\ state_ pv ∈ [kDead; kSuspended; kResuming; kResumed]) as [Es Hpr].
  { destruct (proxy_ v) as [p|]; [|done]. apply M_bind_Done in E as (pv & w2 & E2 & E). apply get_dev_Done in E2 as [-> Hpv].
    assert ((s ← RequestSuspendTask p f; add_dependency t (Some s)) w1 <> Done (tt, w')) as Hno.
    { intros E2. apply Hne. revert E2. refine (silent_bind _ _ _ _ w1 tt w'); [apply silent_RequestSuspendTask|intros s; apply silent_add_dependency]. }
    assert (suspend_self t d f w1 = Done (tt, w') /\ state_ pv ∈ [kDead; kSuspended; kResuming; kResumed]) as [? ?].
    { destruct (state_ pv); try (by destruct (Hno E)); (split; [exact E|set_solver]). }
    split; [done|]. intros q [= <-]. by exists pv. }
  destruct (suspend_self_sends t d f w1 w' v Hv Es Hne) as (? & ? & ? & ? & ?). split_and!; try done.
  intros child Hin. destruct (Hch child Hin) as (c & Hc & Hq). exists c. by rewrite <- Ed.
Qed.
