(* ===== verification/DriverExample.v ===== *)
(** * DriverExample: runs of the driver manager

    Concrete runs: the hypotheses of the theorems on removals and suspensions hold in them, and three runs that
    show what the driver manager does not guard against. *)
From Stdlib Require Import ZArith Lia.
From stdpp Require Import prelude gmap.
From S2P Require Import Prelude DriverTask DriverTaskRun DriverDevice DriverDeviceRun DriverRemoval DriverSuspend.

(** ** Running a list of events *)

Definition event_allowed_b (w : World) (e : Event) : bool :=
  let connected d := match device_map w !! d with Some dev => coordinator_binding_ dev | None => false end in
  match e with
  | EvAddDevice _ _ d _ _ _ | EvScheduleRemove d _ | EvScheduleUnbindChildren d | EvDisconnected d => connected d
  | EvUnbindHost h => is_some (hosts w !! h)
  | EvPrepareProxy d target _ _ | EvPrepareNewProxy d target _ _ =>
      is_some (device_map w !! d) && match target with Some h => is_some (hosts w !! h) | None => true end
  | EvExecute t => is_pending (store (machine w)) t
  | EvReply r ok status => bool_decide (r ∈ requests w) && (ok || negb (bool_decide (status = ZX_OK)))
  | EvSuspend d _ | EvResume _ _ d => is_some (device_map w !! d)
  end.

Lemma is_some_ok {A} (o : option A) : is_some o = true -> is_Some o.
Proof. destruct o; [eauto|done]. Qed.

Lemma event_allowed_b_ok w e : event_allowed_b w e = true -> event_allowed w e.
Proof.
  assert (forall d, match device_map w !! d with Some dev => coordinator_binding_ dev | None => false end = true ->
    exists dev, device_map w !! d = Some dev /\ coordinator_binding_ dev = true) as Hc by (intros d; destruct (device_map w !! d); [eauto|done]).
  destruct e; cbn [event_allowed_b event_allowed]; auto using is_some_ok.
  - intros [H1 H2]%andb_prop. split; [by apply is_some_ok|]. destruct target; [by apply is_some_ok|done].
  - intros [H1 H2]%andb_prop. split; [by apply is_some_ok|]. destruct target; [by apply is_some_ok|done].
  - unfold is_pending. apply bool_decide_eq_true.
  - intros [H1 H2]%andb_prop. split; [by apply bool_decide_eq_true in H1|]. intros ->. by apply negb_true_iff, bool_decide_eq_false in H2.
Qed.

Fixpoint run_events (policy : DriverHostCrashPolicy) (l : list Event) (w : World) : option World :=
  match l with
  | [] => Some w
  | e :: l => if event_allowed_b w e then match handle policy e w with Done (_, w) => run_events policy l w | Panic => None end else None
  end.

Lemma run_events_steps policy l w w' : run_events policy l w = Some w' -> rtc (dm_step policy) w w'.
Proof.
  revert w. induction l as [|e l IH]; intros w E; cbn [run_events] in E; [by injection E as ->|].
  destruct (event_allowed_b w e) eqn:Ea; [|done]. destruct (handle policy e w) as [[[] w1]|] eqn:Eh; [|done].
  eapply rtc_l; [|by apply IH]. exists e; [by apply event_allowed_b_ok|done].
Qed.

Definition after (l : list Event) : World := default World_init (run_events kRestartDriverHost l World_init).

Module Runs.

(** The system device (1) with its proxy (2), a device (3) and its child (4). *)
Definition two_devices : list Event :=
  [EvPrepareProxy 1 None ZX_OK ZX_OK; EvAddDevice false false 2 false false ZX_OK; EvAddDevice false false 3 false false ZX_OK].

(** Removing device 3: its unbind task is 1 and its remove task 0; those of its child are 3 and 2. *)
Definition scheduled : list Event := two_devices ++ [EvScheduleRemove 3 true].
Definition child_removed : list Event :=
  [EvReply (ReqUnbind 3) true ZX_OK; EvExecute 3; EvReply (ReqUnbind 4) true ZX_OK; EvExecute 2; EvReply (ReqCompleteRemoval 4) true ZX_OK].

Lemma reach_after l : is_some (run_events kRestartDriverHost l World_init) = true -> dm_reachable kRestartDriverHost (after l).
Proof. unfold after. destruct (run_events _ l _) as [w|] eqn:E; [|done]. intros _. by eapply run_events_steps. Qed.

(** A device as the run leaves it. *)
Lemma device_after l d (P : Device -> bool) :
  match device_map (after l) !! d with Some v => P v | None => false end = true -> exists v, device_map (after l) !! d = Some v /\ P v = true.
Proof. destruct (device_map (after l) !! d) as [v|]; [eauto|done]. Qed.

Lemma runs_now_after l t :
  is_pending (store (machine (after l))) t && match ExecuteTask t (store (machine (after l))) with Done (b, _) => b | Panic => false end = true -> runs_now (after l) t.
Proof.
  intros [Hp He]%andb_prop. split; [by apply bool_decide_eq_true in Hp|]. destruct (ExecuteTask t _) as [[[] st]|]; [eauto|done|done].
Qed.

Definition ordered : list Event := scheduled ++ EvExecute 1 :: child_removed.

Lemma removal_order_witness : exists rc, kinds (after ordered) !! rc = Some (RemoveTask 4) /\ completed_ok (after ordered) rc.
Proof.
  destruct (device_after ordered 3 (fun v => negb (PROXY (flags v)))) as (v & Hv & Hf%negb_true_iff); [vm_compute; reflexivity|].
  destruct (device_after scheduled 3 (fun v1 => bool_decide (active_ (remove_ v1) = Some 0 /\ proxy_ v1 = None /\ children_ v1 = [4] /\ state_ v1 = kActive)))
    as (v1 & Hv1 & (Hr1 & Hp1 & Hc1 & Hs1)%bool_decide_eq_true); [vm_compute; reflexivity|].
  destruct (device_after scheduled 4 (fun c => bool_decide (state_ c = kActive))) as (c & Hc & Hsc%bool_decide_eq_true); [vm_compute; reflexivity|].
  assert (unbinds kRestartDriverHost (after scheduled) 1 3 0 v1 (after (scheduled ++ [EvExecute 1]))) as Hub.
  { refine (conj _ (conj _ (conj Hv1 (conj Hr1 (conj _ _))))).
    - apply runs_now_after. vm_compute. reflexivity.
    - exists (UnbindTask 3 true true). split; [vm_compute; reflexivity|by eexists _, _].
    - rewrite Hs1. apply (bool_decide_eq_true_1 (kActive ∉ [kInitializing; kSuspending; kResuming])). reflexivity.
    - vm_compute. reflexivity. }
  destruct (removal_order kRestartDriverHost (after ordered) 0 3 v) as [_ H].
  - apply reach_after. vm_compute. reflexivity.
  - vm_compute. reflexivity.
  - exact Hv.
  - exact Hf.
  - apply runs_now_after. vm_compute. reflexivity.
  - refine (H (after scheduled) (after (scheduled ++ [EvExecute 1])) 1 v1 _ Hub _ Hp1 4 c _ Hc _ _).
    + apply reach_after. vm_compute. reflexivity.
    + apply (run_events_steps _ child_removed). vm_compute. reflexivity.
    + rewrite Hc1. left.
    + by rewrite Hsc.
    + by rewrite Hsc.
Defined.

(** Suspending the system: the task of device 4 is 2. *)
Definition suspending : list Event := two_devices ++ [EvSuspend 1 5; EvExecute 0; EvExecute 1; EvExecute 2; EvReply (ReqSuspend 4 5) true ZX_OK].

Lemma suspend_order_witness : exists w', handle kRestartDriverHost (EvExecute 1) (after suspending) = Done (tt, w') /\ requests w' = [ReqSuspend 3 5] /\ child_quiet (after suspending) 4.
Proof.
  destruct (device_after suspending 3 (fun v => bool_decide (children_ v = [4]))) as (v & Hv & Hc%bool_decide_eq_true); [vm_compute; reflexivity|].
  destruct (handle kRestartDriverHost (EvExecute 1) (after suspending)) as [[[] w']|] eqn:E; [|vm_compute in E; discriminate E].
  assert (requests w' = [ReqSuspend 3 5]) as Hreq by (vm_compute in E; injection E as <-; reflexivity).
  assert (requests (after suspending) = []) as Hnil by (vm_compute; reflexivity).
  destruct (suspend_order kRestartDriverHost (after suspending) 1 3 5%Z v w') as (_ & Hch & _).
  - apply reach_after. vm_compute. reflexivity.
  - vm_compute. reflexivity.
  - exact Hv.
  - apply (bool_decide_eq_true_1 _). vm_compute. reflexivity.
  - exact E.
  - rewrite Hreq, Hnil. discriminate.
  - exists w'. split; [reflexivity|]. split; [exact Hreq|]. apply Hch. rewrite Hc. left.
Defined.

(** ** Runs that are not guarded against *)

(** The child is being unbound when its parent is unbound. *)
Definition child_unbinding : list Event :=
  two_devices ++ [EvScheduleRemove 4 true; EvExecute 1; EvScheduleRemove 3 true; EvExecute 3; EvReply (ReqUnbind 3) true ZX_OK; EvExecute 2;
    EvReply (ReqCompleteRemoval 3) true ZX_OK].

(** The driver host dies while the proxy of the system device resumes. *)
Definition all_suspended : list Event :=
  suspending ++ [EvExecute 1; EvReply (ReqSuspend 3 5) true ZX_OK; EvExecute 0; EvExecute 3; EvReply (ReqSuspend 2 5) true ZX_OK; EvExecute 0].
Definition dies_resuming : list Event :=
  all_suspended ++ [EvResume false 1 1; EvExecute 4; EvExecute 5; EvExecute 6; EvExecute 7; EvDisconnected 2; EvReply (ReqResume 2 1) false ZX_ERR_PEER_CLOSED].

(** A bus (3) with its proxy (4) in a host of its own and a child (5) there; after a suspend the host of the bus
    dies, and the system resumes. *)
Definition bus : list Event :=
  [EvPrepareProxy 1 None ZX_OK ZX_OK; EvAddDevice false false 2 true false ZX_OK; EvPrepareProxy 3 None ZX_OK ZX_OK; EvAddDevice false false 4 false false ZX_OK].
Definition bus_suspended : list Event :=
  bus ++ [EvSuspend 1 5; EvExecute 0; EvExecute 1; EvExecute 2; EvReply (ReqSuspend 5 5) true ZX_OK; EvExecute 1; EvExecute 3;
    EvReply (ReqSuspend 4 5) true ZX_OK; EvExecute 1; EvReply (ReqSuspend 3 5) true ZX_OK; EvExecute 0; EvExecute 4; EvReply (ReqSuspend 2 5) true ZX_OK; EvExecute 0].
Definition bus_dies : list Event :=
  bus_suspended ++ [EvDisconnected 3; EvPrepareProxy 1 None ZX_OK ZX_OK; EvResume false 1 1; EvExecute 6; EvExecute 7; EvExecute 8; EvExecute 9; EvExecute 11; EvExecute 12].

(** Three runs that the driver manager does not guard against. A device can be removed, on request and not by force,
    while a child of it is still being unbound, since an unbinding child is skipped when its parent is unbound; a
    removed device can be marked as suspended by the late answer to a resume request; and the answer to a resume
    request can abort the driver manager, since a resume task whose parent is dead completes and goes on to resume. *)
Theorem lifecycle_faults :
  (let w := after child_unbinding in dm_reachable kRestartDriverHost w /\
     (exists v, device_map w !! 3 = Some v /\ state_ v = kDead) /\
     (exists c, device_map w !! 4 = Some c /\ parent_ c = Some 3 /\ state_ c = kUnbinding /\ is_some (host_ c) = true)) /\
  (let w := after dies_resuming in dm_reachable kRestartDriverHost w /\
     exists v, device_map w !! 2 = Some v /\ host_ v = None /\ parent_ v = None /\ state_ v = kSuspended) /\
  (let w := after bus_dies in dm_reachable kRestartDriverHost w /\
     exists e, event_allowed w e /\ handle kRestartDriverHost e w = Panic).
Proof.
  split; [|split]; (split; [apply reach_after; vm_compute; reflexivity|]).
  - destruct (device_after child_unbinding 3 (fun v => bool_decide (state_ v = kDead))) as (v & Hv & Hs%bool_decide_eq_true); [vm_compute; reflexivity|].
    destruct (device_after child_unbinding 4 (fun c => bool_decide (parent_ c = Some 3 /\ state_ c = kUnbinding /\ is_some (host_ c) = true)))
      as (c & Hc & Hsc%bool_decide_eq_true); [vm_compute; reflexivity|]. exact (conj (ex_intro _ v (conj Hv Hs)) (ex_intro _ c (conj Hc Hsc))).
  - destruct (device_after dies_resuming 2 (fun c => bool_decide (host_ c = None /\ parent_ c = None /\ state_ c = kSuspended)))
      as (c & Hc & Hsc%bool_decide_eq_true); [vm_compute; reflexivity|]. exact (ex_intro _ c (conj Hc Hsc)).
  - exists (EvReply (ReqResume 4 1) true ZX_OK). split; [apply event_allowed_b_ok|]; vm_compute; reflexivity.
Qed.
End Runs.
