(* ===== verification/BlockServer.v ===== *)
(** * BlockServer: the server of block requests

    Model of [src/devices/block/drivers/core/server.cc], [message-group.cc], [message.cc] and [iobuffer.cc].
    A client writes requests to a FIFO. [Server::Serve] splits them into messages for the block device below and
    answers each request, or each group of requests, once. The server's thread is a list of [Action]s, one per
    critical section; completions come from other threads ([BlockServerRun] interleaves them). *)
From Stdlib Require Import ZArith Lia.
From stdpp Require Import prelude gmap.
From S2P Require Import Prelude.

Local Open Scope Z_scope.

(** ** Constants of the block protocol *)

Class BlockAbi := {
  BLOCK_OP_READ : Z;
  BLOCK_OP_WRITE : Z;
  BLOCK_OP_FLUSH : Z;
  BLOCK_OP_TRIM : Z;
  BLOCK_OP_CLOSE_VMO : Z;
  BLOCK_OP_MASK : Z;
  BLOCK_GROUP_ITEM : Z;
  BLOCK_GROUP_LAST : Z;
  MAX_TXN_GROUP_COUNT : Z;
  BLOCK_VMOID_INVALID : Z;
  (** [fbl::round_up] on [uint32_t]. *)
  round_up32 : Z -> Z -> Z
}.

Class BlockAbiOk `{!BlockAbi} : Prop := {
  group_count_range : 0 < MAX_TXN_GROUP_COUNT < 2 ^ 16;
  vmoid_invalid_range : 0 <= BLOCK_VMOID_INVALID < 2 ^ 16 - 1;
  round_up32_spec a g : 0 < g -> 0 <= a -> a + g - 1 < 2 ^ 32 -> round_up32 a g = a + g - 1 - (a + g - 1) mod g
}.

(** ** Data *)

(** [block_fifo_request_t] and [block_fifo_response_t]. *)
Record FifoRequest := mkFifoRequest {
  opcode : Z;
  reqid : Z;
  group : Z;
  vmoid : Z;
  length_ : Z;
  vmo_offset : Z;
  dev_offset : Z
}.

Record FifoResponse := mkFifoResponse {
  status_ : zx_status;
  reqid_ : Z;
  group_ : Z;
  count_ : Z
}.

Record MessageGroup := mkMessageGroup {
  pending_ : bool;
  response_ : FifoResponse;
  op_count_ : Z
}.

(** A group of [groups_], or one made for a single request. *)
Inductive GroupRef :=
  | Fixed (i : Z)
  | Oneshot (i : nat).

#[global] Instance GroupRef_eq_dec : EqDecision GroupRef.
Proof. solve_decision. Defined.

(** What the completer of a message does with its status. *)
Inductive MessageCompleter :=
  | CompleteGroup (g : GroupRef)
  | CompleteTransaction (reqid group : Z).

(** [block_op_t], as the server fills it in. *)
Inductive BlockOp :=
  | RwOp (command vmo length offset_dev offset_vmo : Z)
  | FlushOp (command : Z)
  | TrimOp (command length offset_dev : Z).

Record Message := mkMessage {
  op_ : BlockOp;
  completer_ : MessageCompleter
}.

(** [block_info_t]. *)
Record BlockInfo := mkBlockInfo {
  block_size : Z;
  max_transfer_size : Z
}.

(** [tree_] maps a [vmoid_t] to the VMO of its [IoBuffer]. [bp_] holds the messages queued to the device below,
    [fifo_] the responses that [SendResponse] was called for, each with whether it got into the FIFO. *)
Record Server := mkServer {
  info_ : BlockInfo;
  pending_count_ : Z;
  groups_ : list MessageGroup;
  oneshot_groups : list MessageGroup;
  tree_ : gmap Z Z;
  last_id_ : Z;
  bp_ : list Message;
  fifo_ : list (FifoResponse * bool)
}.

Definition set_pending_count (x : Z) (s : Server) : Server :=
  mkServer (info_ s) x (groups_ s) (oneshot_groups s) (tree_ s) (last_id_ s) (bp_ s) (fifo_ s).
Definition set_groups (x y : list MessageGroup) (s : Server) : Server :=
  mkServer (info_ s) (pending_count_ s) x y (tree_ s) (last_id_ s) (bp_ s) (fifo_ s).
Definition set_tree (x : gmap Z Z) (y : Z) (s : Server) : Server :=
  mkServer (info_ s) (pending_count_ s) (groups_ s) (oneshot_groups s) x y (bp_ s) (fifo_ s).
Definition set_bp (x : list Message) (s : Server) : Server :=
  mkServer (info_ s) (pending_count_ s) (groups_ s) (oneshot_groups s) (tree_ s) (last_id_ s) x (fifo_ s).
Definition set_fifo (x : list (FifoResponse * bool)) (s : Server) : Server :=
  mkServer (info_ s) (pending_count_ s) (groups_ s) (oneshot_groups s) (tree_ s) (last_id_ s) (bp_ s) x.

(** ** [MessageGroup] *)

(** Adds [response_count] completions to wait for, which belong to [request_count] requests. *)
Definition ExpectResponses (response_count request_count : Z) (request_id : option Z) (g : MessageGroup) : zx_status * MessageGroup :=
  let r := response_ g in
  let finalised := pending_ g && negb (request_count =? 0) in
  let failed := finalised || negb (bool_decide (status_ r = ZX_OK)) in
  let r := mkFifoResponse (if finalised then ZX_ERR_IO else status_ r) (default (reqid_ r) request_id) (group_ r) (u32 (count_ r + request_count)) in
  (if failed then ZX_ERR_IO else ZX_OK,
   mkMessageGroup (match request_id with Some _ => true | None => pending_ g end) r (u32 (op_count_ g + response_count))).

(** The response to send, if it was the last completion of a group that is final. *)
Definition MessageGroup_Complete (status : zx_status) (g : MessageGroup) : option FifoResponse * MessageGroup :=
  let r := response_ g in
  let st := if negb (bool_decide (status = ZX_OK)) && bool_decide (status_ r = ZX_OK) then status else status_ r in
  let r := mkFifoResponse st (reqid_ r) (group_ r) (count_ r) in
  let n := u32 (op_count_ g - 1) in
  if (n =? 0) && pending_ g
  then (Some r, mkMessageGroup false (mkFifoResponse ZX_OK 0 (group_ r) 0) n)
  else (None, mkMessageGroup (pending_ g) r n).

Section server.
Context `{!BlockAbi}.

Definition kNoGroup : Z := MAX_TXN_GROUP_COUNT.

Definition new_group (group : Z) : MessageGroup := mkMessageGroup false (mkFifoResponse ZX_OK 0 group 0) 0.

(** ** Sending responses *)

(** What the FIFO answers to [write_one], and what the wait for it to be writable ends with. *)
Inductive FifoAnswer :=
  | Written
  | Full (wait : zx_status) (terminate : bool)
  | WriteFailed (status : zx_status).

(** [SendResponse]: whether the response gets into the FIFO; the list holds the answers of one call, and the
    call has not returned if they do not end it. *)
Fixpoint SendResponse (answers : list FifoAnswer) : option bool :=
  match answers with
  | [] => None
  | Written :: _ => Some true
  | Full wait terminate :: answers =>
      if negb (bool_decide (wait = ZX_OK)) then Some false
      else if terminate then Some false
      else SendResponse answers
  | WriteFailed _ :: _ => Some false
  end.

Definition send (answers : list FifoAnswer) (r : FifoResponse) (s : Server) : Server :=
  set_fifo (fifo_ s ++ [(r, default false (SendResponse answers))]) s.

(** A group by reference; [groups_] is an array of [MAX_TXN_GROUP_COUNT] pointers. *)
Definition get_group (g : GroupRef) (s : Server) : option MessageGroup :=
  match g with Fixed i => if i <? 0 then None else groups_ s !! Z.to_nat i | Oneshot i => oneshot_groups s !! i end.

Definition put_group (g : GroupRef) (x : MessageGroup) (s : Server) : Server :=
  match g with
  | Fixed i => set_groups (<[Z.to_nat i := x]> (groups_ s)) (oneshot_groups s) s
  | Oneshot i => set_groups (groups_ s) (<[i := x]> (oneshot_groups s)) s
  end.

Definition complete_group (answers : list FifoAnswer) (g : GroupRef) (status : zx_status) (s : Server) : exec Server :=
  match get_group g s with
  | None => Panic
  | Some x =>
      let '(r, x) := MessageGroup_Complete status x in
      let s := put_group g x s in
      Done (match r with Some r => send answers r s | None => s end)
  end.

Definition FinishTransaction (answers : list FifoAnswer) (status : zx_status) (reqid group : Z) (s : Server) : exec Server :=
  if negb (group =? kNoGroup) then complete_group answers (Fixed group) status s
  else Done (send answers (mkFifoResponse status reqid group 1) s).

(** ** VMOs *)

(** The first free id among [n] ids from [i] on. *)
Fixpoint find_free (tree : gmap Z Z) (i : Z) (n : nat) : option Z :=
  match n with
  | O => None
  | S n => match tree !! i with None => Some i | Some _ => find_free tree (i + 1) n end
  end.

Definition kMaxVmoId : Z := 2 ^ 16 - 1.

Definition FindVmoIdLocked (s : Server) : zx_status * option Z * Server :=
  match find_free (tree_ s) (last_id_ s) (Z.to_nat (kMaxVmoId - last_id_ s)) with
  | Some i => (ZX_OK, Some i, set_tree (tree_ s) (i + 1) s)
  | None =>
      match find_free (tree_ s) (BLOCK_VMOID_INVALID + 1) (Z.to_nat (last_id_ s - (BLOCK_VMOID_INVALID + 1))) with
      | Some i => (ZX_OK, Some i, set_tree (tree_ s) (i + 1) s)
      | None => (ZX_ERR_NO_RESOURCES, None, s)
      end
  end.

(** [alloc]: whether there is memory for the [IoBuffer]. *)
Definition AttachVmo (alloc : bool) (vmo : Z) (s : Server) : zx_status * option Z * Server :=
  match FindVmoIdLocked s with
  | (ZX_OK, Some id, s) => if alloc then (ZX_OK, Some id, set_tree (<[id := vmo]> (tree_ s)) (last_id_ s) s) else (ZX_ERR_NO_MEMORY, None, s)
  | (status, _, s) => (status, None, s)
  end.

(** [vmo_size]: what [get_size] answers. *)
Definition ValidateVmoHack (vmo_size : zx_status * Z) (length vmo_offset : Z) : zx_status :=
  let '(status, vmo_size) := vmo_size in
  if negb (bool_decide (status = ZX_OK)) then status
  else if (vmo_size <? vmo_offset) || (vmo_size - vmo_offset <? length) then ZX_ERR_OUT_OF_RANGE
  else ZX_OK.

(** ** Messages *)

(** [Server::Enqueue]: the message is counted and queued below. *)
Definition Enqueue (m : Message) (s : Server) : Server :=
  set_bp (bp_ s ++ [m]) (set_pending_count (u64 (pending_count_ s + 1)) s).

Definition TxnEnd (s : Server) : Server := set_pending_count (u64 (pending_count_ s - 1)) s.

Definition OpcodeToCommand (opcode : Z) : Z := Z.land opcode BLOCK_OP_MASK.

(** The operations of [n] messages for [len] blocks, at most [max_xfer] in each. *)
Fixpoint split_ops (n : nat) (command vmo max_xfer len dev_offset vmo_offset : Z) : list BlockOp :=
  match n with
  | O => []
  | S n =>
      let length := Z.min len max_xfer in
      RwOp command vmo length dev_offset vmo_offset ::
      split_ops n command vmo max_xfer (len - length) (u64 (dev_offset + length)) (u64 (vmo_offset + length))
  end.

(** What is left to do for a request, one entry per critical section. *)
Inductive Action :=
  | Process (request : FifoRequest)
  | ExpectMore (group count : Z)
  | Messages (request : FifoRequest) (completer : MessageCompleter) (ops : list BlockOp)
  | Finish (status : zx_status) (reqid group : Z).

(** The answers of the kernel, of the allocator and of the FIFO that an action asks for. *)
Record Answer := mkAnswer {
  ans_vmo_size : zx_status * Z;
  ans_alloc : bool;
  ans_fifo : list FifoAnswer
}.

(** An error is returned, or the rest of the request is left to do. *)
Definition ProcessReadWriteRequest (request : FifoRequest) (vmo_size : zx_status * Z) (s : Server) :
    exec ((zx_status + list Action) * Server) :=
  match tree_ s !! vmoid request with
  | None => Done (inl ZX_ERR_IO, s)
  | Some vmo =>
      if length_ request =? 0 then Done (inl ZX_ERR_INVALID_ARGS, s)
      else
        let bsz := block_size (info_ s) in
        let status := ValidateVmoHack vmo_size (u64 (bsz * length_ request)) (u64 (bsz * vmo_offset request)) in
        if negb (bool_decide (status = ZX_OK)) then Done (inl status, s)
        else if bsz =? 0 then Panic
        else
          let max_xfer := max_transfer_size (info_ s) / bsz in
          let command := OpcodeToCommand (opcode request) in
          if negb (max_xfer =? 0) && (max_xfer <? length_ request) then
            let sub_txns := round_up32 (length_ request) max_xfer / max_xfer in
            let ops := split_ops (Z.to_nat sub_txns) command vmo max_xfer (length_ request) (dev_offset request) (vmo_offset request) in
            if group request =? kNoGroup then
              let '(status, g) := ExpectResponses sub_txns 1 (Some (reqid request)) (new_group kNoGroup) in
              if negb (bool_decide (status = ZX_OK)) then Panic
              else
                let i := length (oneshot_groups s) in
                Done (inr [Messages request (CompleteGroup (Oneshot i)) ops], set_groups (groups_ s) (oneshot_groups s ++ [g]) s)
            else Done (inr [ExpectMore (group request) (u32 (sub_txns - 1)); Messages request (CompleteGroup (Fixed (group request))) ops], s)
          else Done (inr [Messages request (CompleteTransaction (reqid request) (group request))
                            [RwOp command vmo (length_ request) (dev_offset request) (vmo_offset request)]], s)
  end.

Definition ProcessCloseVmoRequest (request : FifoRequest) (s : Server) : zx_status * Server :=
  match tree_ s !! vmoid request with
  | None => (ZX_ERR_IO, s)
  | Some _ => (ZX_OK, set_tree (delete (vmoid request) (tree_ s)) (last_id_ s) s)
  end.

Definition ProcessFlushRequest (request : FifoRequest) : list Action :=
  [Messages request (CompleteTransaction (reqid request) (group request)) [FlushOp (OpcodeToCommand (opcode request))]].

Definition ProcessTrimRequest (request : FifoRequest) : zx_status + list Action :=
  if length_ request =? 0 then inl ZX_ERR_INVALID_ARGS
  else inr [Messages request (CompleteTransaction (reqid request) (group request))
              [TrimOp (OpcodeToCommand (opcode request)) (length_ request) (dev_offset request)]].

(** [if (status != ZX_OK) FinishTransaction(...)]. *)
Definition or_finish (request : FifoRequest) (r : zx_status + list Action) : list Action :=
  match r with inl status => [Finish status (reqid request) (group request)] | inr l => l end.

Definition ProcessRequest (request : FifoRequest) (vmo_size : zx_status * Z) (s : Server) : exec (list Action * Server) :=
  let c := Z.land (opcode request) BLOCK_OP_MASK in
  if (c =? BLOCK_OP_READ) || (c =? BLOCK_OP_WRITE) then
    '(r, s) ← ProcessReadWriteRequest request vmo_size s; Done (or_finish request r, s)
  else if c =? BLOCK_OP_FLUSH then Done (ProcessFlushRequest request, s)
  else if c =? BLOCK_OP_TRIM then Done (or_finish request (ProcessTrimRequest request), s)
  else if c =? BLOCK_OP_CLOSE_VMO then
    let '(status, s) := ProcessCloseVmoRequest request s in Done ([Finish status (reqid request) (group request)], s)
  else Done ([Finish ZX_ERR_NOT_SUPPORTED (reqid request) (group request)], s).

(** One critical section of the server's thread. [Messages] is the loop that makes and queues messages. *)
Definition run_action (a : Action) (ans : Answer) (s : Server) : exec (list Action * Server) :=
  match a with
  | Process request => ProcessRequest request (ans_vmo_size ans) s
  | ExpectMore g n =>
      match get_group (Fixed g) s with
      | None => Panic
      | Some x => Done ([], put_group (Fixed g) (ExpectResponses n 0 None x).2 s)
      end
  | Messages request c [] => Done ([], s)
  | Messages request c (op :: ops) =>
      if ans_alloc ans then Done ([Messages request c ops], Enqueue (mkMessage op c) s)
      else Done ([Finish ZX_ERR_NO_MEMORY (reqid request) (group request)], s)
  | Finish status reqid group => s ← FinishTransaction (ans_fifo ans) status reqid group s; Done ([], s)
  end.

Definition with_group (g : Z) (r : FifoRequest) : FifoRequest :=
  mkFifoRequest (opcode r) (reqid r) g (vmoid r) (length_ r) (vmo_offset r) (dev_offset r).

Definition wants_reply (r : FifoRequest) : bool := negb (Z.land (opcode r) BLOCK_GROUP_LAST =? 0).
Definition use_group (r : FifoRequest) : bool := negb (Z.land (opcode r) BLOCK_GROUP_ITEM =? 0).

(** The body of the loop of [Serve], for one request. *)
Definition Serve (request : FifoRequest) (s : Server) : exec (list Action * Server) :=
  if use_group request then
    if MAX_TXN_GROUP_COUNT <=? group request then
      Done (if wants_reply request then [Finish ZX_ERR_IO (reqid request) (group request)] else [], s)
    else
      match get_group (Fixed (group request)) s with
      | None => Panic
      | Some x =>
          let '(status, x) := ExpectResponses 1 1 (if wants_reply request then Some (reqid request) else None) x in
          Done ([if bool_decide (status = ZX_OK) then Process request else Finish status (reqid request) (group request)],
                put_group (Fixed (group request)) x s)
      end
  else Done ([Process (with_group kNoGroup request)], s).

(** [BlockCompleteCb] and [Message::Complete] up to [TxnEnd]: the [k]-th message below is done. *)
Definition BlockCompleteCb (k : nat) (status : zx_status) (answers : list FifoAnswer) (s : Server) : exec Server :=
  match bp_ s !! k with
  | None => Panic
  | Some m =>
      let s := set_bp (delete k (bp_ s)) s in
      match completer_ m with
      | CompleteGroup g => complete_group answers g status s
      | CompleteTransaction reqid group => FinishTransaction answers status reqid group s
      end
  end.

Definition Server_Create (info : BlockInfo) : Server :=
  mkServer info 0 ((fun i => new_group (Z.of_nat i)) <$> seq 0 (Z.to_nat MAX_TXN_GROUP_COUNT)) [] ∅ (BLOCK_VMOID_INVALID + 1) [] [].
End server.

(** ** The split of a request *)

(** The blocks an operation moves: of the device, and of the VMO. *)
Definition moved (op : BlockOp) : list (Z * Z) :=
  match op with
  | RwOp _ _ len d v => (fun i => (u64 (d + i), u64 (v + i))) <$> seqZ 0 len
  | FlushOp _ | TrimOp _ _ _ => []
  end.

Definition op_length (op : BlockOp) : Z := match op with RwOp _ _ len _ _ | TrimOp _ len _ => len | FlushOp _ => 0 end.

Lemma u64_add x y : u64 (u64 x + y) = u64 (x + y).
Proof. unfold u64. apply Z.add_mod_idemp_l. lia. Qed.

Lemma u32_add x y : u32 (u32 x + y) = u32 (x + y).
Proof. unfold u32. apply Z.add_mod_idemp_l. lia. Qed.

Lemma moved_app command vmo d v (a b : Z) :
  0 <= a -> 0 <= b ->
  moved (RwOp command vmo (a + b) d v) = moved (RwOp command vmo a d v) ++ moved (RwOp command vmo b (u64 (d + a)) (u64 (v + a))).
Proof.
  intros Ha Hb. simpl. rewrite seqZ_app by done. rewrite fmap_app. f_equal. rewrite (Z.add_comm 0 a), <- (fmap_add_seqZ a 0 b), <- list_fmap_compose.
  apply list_fmap_ext. intros k x _. simpl. rewrite !u64_add. f_equal; f_equal; lia.
Qed.

Lemma split_ops_spec (n : nat) command vmo max_xfer len d v :
  0 < max_xfer -> (Z.of_nat n - 1) * max_xfer < len <= Z.of_nat n * max_xfer -> is_u64 d -> is_u64 v ->
  concat (moved <$> split_ops n command vmo max_xfer len d v) = moved (RwOp command vmo len d v) /\
  length (split_ops n command vmo max_xfer len d v) = n /\
  Forall (fun op => exists l d v, op = RwOp command vmo l d v /\ 0 < l <= max_xfer) (split_ops n command vmo max_xfer len d v).
Proof.
  intros Hm. revert len d v. induction n as [|n IH]; intros len d v Hlen Hd Hv.
  { assert (len <= 0) as Hl by lia. simpl. rewrite seqZ_nil by lia. done. }
  cbn [split_ops fmap list_fmap concat length]. destruct (decide (n = 0%nat)) as [->|Hn].
  { rewrite Z.min_l by lia. cbn [split_ops fmap list_fmap concat length]. rewrite app_nil_r. split_and!; [done..|].
    apply Forall_singleton. eexists _, _, _. split; [done|lia]. }
  rewrite Z.min_r by nia. destruct (IH (len - max_xfer) (u64 (d + max_xfer)) (u64 (v + max_xfer))) as (IH1 & IH2 & IH3);
    [nia|apply u64_range..|].
  split_and!; [|by rewrite IH2|constructor; [eexists _, _, _; split; [done|lia]|done]].
  rewrite IH1. replace len with (max_xfer + (len - max_xfer)) at 2 by lia. rewrite (moved_app _ _ _ _ max_xfer) by nia. done.
Qed.

(** ** Ids of VMOs *)

Lemma find_free_Some tree i n j : find_free tree i n = Some j -> i <= j < i + Z.of_nat n /\ tree !! j = None.
Proof.
  revert i. induction n as [|n IH]; intros i E; [done|]. simpl in E. destruct (tree !! i) eqn:Ei.
  - apply IH in E as [? ?]. split; [lia|done].
  - injection E as <-. split; [lia|done].
Qed.

Lemma find_free_None tree i n : find_free tree i n = None -> forall j, i <= j < i + Z.of_nat n -> is_Some (tree !! j).
Proof.
  revert i. induction n as [|n IH]; intros i E j Hj; [lia|]. simpl in E. destruct (tree !! i) eqn:Ei; [|done].
  destruct (decide (j = i)) as [->|]; [eauto|]. apply (IH (i + 1)); [done|lia].
Qed.
