(* ===== verification/BlockServerRun.v ===== *)
(** * BlockServerRun: runs of the block server

    The server's thread serves one request after the other, while messages below complete in any order with any
    status, VMOs are attached, and the completions of messages end. Every request is answered once: on its own, or
    with its group. *)
From Stdlib Require Import ZArith Lia.
From stdpp Require Import prelude gmap.
From S2P Require Import Prelude BlockServer.

Local Open Scope Z_scope.

(** ** Sums *)

Section sums.
Context {A : Type}.
Implicit Types (f g : A -> Z) (l : list A) (y : A).

Definition zsum f l : Z := foldr (fun y n => f y + n) 0 l.

Lemma zsum_cons f y l : zsum f (y :: l) = f y + zsum f l.
Proof. done. Qed.

Lemma zsum_app f l l' : zsum f (l ++ l') = zsum f l + zsum f l'.
Proof. induction l as [|y l IH]; [done|]. cbn [app]. rewrite !zsum_cons, IH. lia. Qed.

Lemma zsum_nonneg f l : (forall y, 0 <= f y) -> 0 <= zsum f l.
Proof. intros H. induction l as [|y l IH]; [done|]. rewrite zsum_cons. pose proof (H y). lia. Qed.

Lemma zsum_le f g l : (forall y, f y <= g y) -> zsum f l <= zsum g l.
Proof. intros H. induction l as [|y l IH]; [done|]. rewrite !zsum_cons. pose proof (H y). lia. Qed.

Lemma zsum_delete f l k y : l !! k = Some y -> zsum f (delete k l) = zsum f l - f y.
Proof.
  revert k. induction l as [|z l IH]; intros [|k] E; [done..| |]; simpl in E.
  - injection E as ->. change (delete 0%nat (y :: l)) with l. rewrite zsum_cons. lia.
  - change (delete (S k) (z :: l)) with (z :: delete k l). rewrite !zsum_cons, (IH _ E). lia.
Qed.
End sums.

Section run.
Context `{!BlockAbi} `{!BlockAbiOk}.
Implicit Types (s : Server) (r : FifoRequest) (a : Action) (m : Message) (x : MessageGroup) (gr : GroupRef).

(** ** Runs *)

(** [batch]: the requests read that have not been served; [todo]: what is left of the one that is being served;
    [ending]: messages completed for which [TxnEnd] is still to be called; [received]: the requests served. *)
Record Run := mkRun {
  server : Server;
  batch : list FifoRequest;
  todo : list Action;
  ending : nat;
  received : list FifoRequest
}.

Inductive Event :=
  | ERead (requests : list FifoRequest)
  | EServe
  | EAction (ans : Answer)
  | EComplete (k : nat) (status : zx_status) (answers : list FifoAnswer)
  | EEnd
  | EAttach (alloc : bool) (vmo : Z).

Definition handle_event (e : Event) (w : Run) : exec Run :=
  match e with
  | ERead l => Done (mkRun (server w) l (todo w) (ending w) (received w))
  | EServe =>
      match batch w with
      | [] => Panic
      | r :: l => '(acts, s) ← Serve r (server w); Done (mkRun s l acts (ending w) (received w ++ [r]))
      end
  | EAction ans =>
      match todo w with
      | [] => Panic
      | a :: l => '(acts, s) ← run_action a ans (server w); Done (mkRun s (batch w) (acts ++ l) (ending w) (received w))
      end
  | EComplete k status answers => s ← BlockCompleteCb k status answers (server w); Done (mkRun s (batch w) (todo w) (S (ending w)) (received w))
  | EEnd => Done (mkRun (TxnEnd (server w)) (batch w) (todo w) (Nat.pred (ending w)) (received w))
  | EAttach alloc vmo => Done (mkRun (AttachVmo alloc vmo (server w)).2 (batch w) (todo w) (ending w) (received w))
  end.

Definition max_xfer (i : BlockInfo) : Z := max_transfer_size i / block_size i.

(** A request as it can be in a FIFO: its fields have their widths. It is not so long that rounding its length
    up wraps around, and if it asks for the response of a group, then not of one beyond [kNoGroup]. *)
Record request_ok (i : BlockInfo) (r : FifoRequest) : Prop := {
  rq_group : 0 <= group r < 2 ^ 16;
  rq_length : is_u32 (length_ r);
  rq_dev_offset : is_u64 (dev_offset r);
  rq_vmo_offset : is_u64 (vmo_offset r);
  rq_short : max_xfer i = 0 \/ length_ r + max_xfer i - 1 < 2 ^ 32;
  rq_known : use_group r = true -> wants_reply r = true -> group r <= kNoGroup
}.

(** [mem]: no allocation fails. A thread that is in [SendResponse] returns from it, with whatever answer. *)
Definition allowed (mem : bool) (w : Run) (e : Event) : Prop :=
  match e with
  | ERead l => batch w = [] /\ todo w = [] /\ Forall (request_ok (info_ (server w))) l
  | EServe => todo w = [] /\ batch w <> []
  | EAction ans => todo w <> [] /\ (mem = true -> ans_alloc ans = true) /\ is_Some (SendResponse (ans_fifo ans))
  | EComplete k _ answers => (k < length (bp_ (server w)))%nat /\ is_Some (SendResponse answers)
  | EEnd => ending w <> 0%nat
  | EAttach _ _ => True
  end.

(** The messages that exist or are about to. *)
Definition action_size a : Z := match a with Process _ | Finish _ _ _ => 1 | ExpectMore _ _ => 0 | Messages _ _ ops => Z.of_nat (length ops) end.
Definition message_count (w : Run) : Z := zsum action_size (todo w) + Z.of_nat (length (bp_ (server w))) + Z.of_nat (ending w).

(** Fewer than [2^32] messages exist at a time. *)
Definition block_step (mem : bool) (w w' : Run) : Prop :=
  exists e, allowed mem w e /\ handle_event e w = Done w' /\ message_count w' < 2 ^ 32.

Definition block_start (i : BlockInfo) : Run := mkRun (Server_Create i) [] [] 0 [].

(** [BlockDevice::Bind] refuses other block sizes. *)
Definition block_info_ok (i : BlockInfo) : Prop := 0 < block_size i < 2 ^ 32 /\ 0 <= max_transfer_size i < 2 ^ 32.

Definition block_reachable (mem : bool) (i : BlockInfo) (w : Run) : Prop := rtc (block_step mem) (block_start i) w.

(** ** What is outstanding *)

(** The completions that a group waits for. *)
Definition completer_units gr (c : MessageCompleter) : Z :=
  match c with
  | CompleteGroup g => if decide (g = gr) then 1 else 0
  | CompleteTransaction _ g => if decide (g <> kNoGroup /\ Fixed g = gr) then 1 else 0
  end.

Definition action_units gr a : Z :=
  match a with
  | Process r => completer_units gr (CompleteTransaction (reqid r) (group r))
  | ExpectMore g n => if decide (Fixed g = gr) then - n else 0
  | Messages _ c ops => Z.of_nat (length ops) * completer_units gr c
  | Finish _ id g => completer_units gr (CompleteTransaction id g)
  end.

Definition units gr (w : Run) : Z := zsum (action_units gr) (todo w) + zsum (fun m => completer_units gr (completer_ m)) (bp_ (server w)).

(** The requests on their own that will be answered by an action or a message. *)
Definition completer_ids (c : MessageCompleter) : list Z :=
  match c with CompleteTransaction id g => if decide (g = kNoGroup) then [id] else [] | CompleteGroup _ => [] end.

Definition action_ids a : list Z :=
  match a with
  | Process r => completer_ids (CompleteTransaction (reqid r) (group r))
  | ExpectMore _ _ => []
  | Messages _ c ops => concat ((fun _ => completer_ids c) <$> ops)
  | Finish _ id g => completer_ids (CompleteTransaction id g)
  end.

Definition ids (w : Run) : list Z := concat (action_ids <$> todo w) ++ concat ((fun m => completer_ids (completer_ m)) <$> bp_ (server w)).

(** The requests on their own that will be answered by a group made for them. *)
Definition oneshot_ids s : list Z := concat ((fun x => if pending_ x then [reqid_ (response_ x)] else []) <$> oneshot_groups s).

(** The responses sent, those that got into the FIFO, and those that [SendResponse] gave up. *)
Definition responses s : list FifoResponse := (fifo_ s).*1.
Definition delivered s : list FifoResponse := (filter (fun p => p.2 = true) (fifo_ s)).*1.
Definition given_up s : list FifoResponse := (filter (fun p => p.2 = false) (fifo_ s)).*1.

(** The requests a list of responses answers on their own. *)
Definition own_response_ids (l : list FifoResponse) : list Z := reqid_ <$> filter (fun p => group_ p = kNoGroup) l.
Definition answered s : list Z := own_response_ids (responses s).

(** A request that is to be answered on its own: without a group, or with [kNoGroup] for one. *)
Definition own_answer r : bool := negb (use_group r) || (wants_reply r && (group r =? kNoGroup)).
Definition own_ids (l : list FifoRequest) : list Z := reqid <$> filter (fun r => own_answer r = true) l.

(** The requests of a group, and how many of them have been answered. *)
Definition in_group (i : Z) r : Prop := use_group r = true /\ group r = i.
#[global] Instance in_group_dec i r : Decision (in_group i r).
Proof using Type. unfold in_group. apply _. Defined.

Definition group_count (i : Z) s : Z := zsum count_ (filter (fun p => group_ p = i) (responses s)).

Definition gid gr : Z := match gr with Fixed i => i | Oneshot _ => kNoGroup end.

(** ** The invariant of the server

    [u gr] completions of group [gr] are outstanding, [out] are the requests that will be answered by others than
    the groups made for them, [rec] are the requests received. *)
Record SInv s (u : GroupRef -> Z) (out : list Z) (rec : list FifoRequest) : Prop := {
  si_length : Z.of_nat (length (groups_ s)) = MAX_TXN_GROUP_COUNT;
  si_group gr x : get_group gr s = Some x -> op_count_ x = u gr /\ (pending_ x = true -> 0 < op_count_ x) /\ group_ (response_ x) = gid gr;
  si_ids : own_ids rec ≡ₚ answered s ++ out ++ oneshot_ids s;
  si_counts i x : get_group (Fixed i) s = Some x ->
    u32 (group_count i s + count_ (response_ x)) = u32 (Z.of_nat (length (filter (in_group i) rec)))
}.

(** What completing a group leaves alone. *)
Record same_rest s s' : Prop := {
  sr_info : info_ s' = info_ s;
  sr_pending : pending_count_ s' = pending_count_ s;
  sr_tree : tree_ s' = tree_ s;
  sr_bp : bp_ s' = bp_ s;
  sr_groups gr : is_Some (get_group gr s') <-> is_Some (get_group gr s)
}.

Lemma same_rest_refl s : same_rest s s.
Proof using Type. by constructor. Qed.

Lemma same_rest_send fa p s s' : same_rest s s' -> same_rest s (send fa p s').
Proof using Type. intros []. by constructor. Qed.

Lemma get_put g gr x s : is_Some (get_group g s) -> get_group gr (put_group g x s) = if decide (gr = g) then Some x else get_group gr s.
Proof using Type.
  intros [y Hy]. destruct g as [i|i]; simpl in Hy.
  - destruct (Z.ltb_spec i 0); [done|]. destruct gr as [j|j]; [|by rewrite decide_False]. simpl.
    destruct (Z.ltb_spec j 0); [rewrite decide_False; [done|intros [= ->]; lia]|]. destruct (decide (Fixed j = Fixed i)) as [[= ->]|Hne].
    + apply list_lookup_insert_eq. by eapply lookup_lt_Some.
    + apply list_lookup_insert_ne. intros E. apply Hne. f_equal. lia.
  - destruct gr as [j|j]; [by rewrite decide_False|]. simpl. destruct (decide (Oneshot j = Oneshot i)) as [[= ->]|Hne].
    + apply list_lookup_insert_eq. by eapply lookup_lt_Some.
    + apply list_lookup_insert_ne. congruence.
Qed.

Lemma same_rest_put g x s : is_Some (get_group g s) -> same_rest s (put_group g x s).
Proof using Type.
  intros Hg. constructor; [by destruct g..|]. intros gr. rewrite get_put by done. destruct (decide (gr = g)) as [->|]; [|done].
  split; [done|eauto].
Qed.

Lemma fixed_below i x s : Z.of_nat (length (groups_ s)) = MAX_TXN_GROUP_COUNT -> get_group (Fixed i) s = Some x -> 0 <= i < kNoGroup.
Proof using Type. intros Hl E. simpl in E. destruct (Z.ltb_spec i 0); [done|]. apply lookup_lt_Some in E. unfold kNoGroup. lia. Qed.

Lemma concat_insert {A} (f : A -> list Z) (l : list A) k y z :
  l !! k = Some y -> f y ++ concat (f <$> <[k := z]> l) ≡ₚ f z ++ concat (f <$> l).
Proof using Type.
  revert k. induction l as [|b l IH]; intros [|k] E; [done..| |]; simpl in *.
  - injection E as ->. rewrite !app_assoc. f_equiv. apply Permutation_app_comm.
  - rewrite (Permutation_app_swap_app (f y)), (IH _ E). apply Permutation_app_swap_app.
Qed.

Lemma sinv_frame s s' u out rec :
  SInv s u out rec -> groups_ s' = groups_ s -> oneshot_groups s' = oneshot_groups s -> fifo_ s' = fifo_ s -> SInv s' u out rec.
Proof using Type.
  intros [] E1 E2 E3. assert (forall gr, get_group gr s' = get_group gr s) as Eg by (intros []; simpl; by rewrite ?E1, ?E2).
  constructor; unfold answered, responses, oneshot_ids, group_count in *; unfold responses in *; rewrite ?E1, ?E2, ?E3; try done; intros; rewrite Eg in *; eauto.
Qed.

Lemma sinv_ext s u u' out out' rec : SInv s u out rec -> (forall gr, u gr = u' gr) -> out ≡ₚ out' -> SInv s u' out' rec.
Proof using Type. intros [] Hu Ho. constructor; [done|intros ??; rewrite <- Hu; eauto|by rewrite <- Ho|done]. Qed.

Lemma answered_send fa p s : answered (send fa p s) = answered s ++ (if decide (group_ p = kNoGroup) then [reqid_ p] else []).
Proof using Type. unfold answered, own_response_ids, responses. simpl. rewrite fmap_app. simpl. rewrite filter_app, fmap_app, filter_cons, filter_nil. by destruct (decide _). Qed.

Lemma group_count_send i fa p s : group_count i (send fa p s) = group_count i s + (if decide (group_ p = i) then count_ p else 0).
Proof using Type. unfold group_count, responses. simpl. rewrite fmap_app. simpl. rewrite filter_app, zsum_app, filter_cons, filter_nil. destruct (decide _); simpl; lia. Qed.

(** A response on its own. *)
Lemma sinv_send_own s u id out rec fa st :
  SInv s u (id :: out) rec -> SInv (send fa (mkFifoResponse st id kNoGroup 1) s) u out rec.
Proof using Type.
  intros [Hl Hg Hi Hc]. constructor; [done|done| |].
  - rewrite Hi, answered_send. rewrite decide_True by done. rewrite <- app_assoc. done.
  - intros i x E. rewrite <- (Hc i x E), group_count_send. pose proof (fixed_below _ _ _ Hl E).
    rewrite decide_False by (simpl; lia). f_equal. lia.
Qed.

(** ** Completing *)

Definition completer_valid s (c : MessageCompleter) : Prop :=
  match c with
  | CompleteGroup g => is_Some (get_group g s)
  | CompleteTransaction _ g => g = kNoGroup \/ is_Some (get_group (Fixed g) s)
  end.

Definition run_completer (fa : list FifoAnswer) (c : MessageCompleter) (st : zx_status) s : exec Server :=
  match c with CompleteGroup g => complete_group fa g st s | CompleteTransaction id g => FinishTransaction fa st id g s end.

Lemma complete_spec st x p y :
  MessageGroup_Complete st x = (p, y) ->
  op_count_ y = u32 (op_count_ x - 1) /\ group_ (response_ y) = group_ (response_ x) /\ (pending_ y = true -> op_count_ y <> 0) /\
  match p with
  | Some q => pending_ x = true /\ pending_ y = false /\ group_ q = group_ (response_ x) /\ reqid_ q = reqid_ (response_ x) /\
      count_ q = count_ (response_ x) /\ count_ (response_ y) = 0
  | None => pending_ y = pending_ x /\ reqid_ (response_ y) = reqid_ (response_ x) /\ count_ (response_ y) = count_ (response_ x)
  end.
Proof using Type.
  unfold MessageGroup_Complete. destruct (andb _ (pending_ x)) eqn:Eb; intros [= <- <-]; simpl.
  - apply andb_true_iff in Eb as [? ->]. split_and!; done || lia.
  - split_and!; try done. intros Hp. rewrite Hp, andb_true_r in Eb. lia.
Qed.

Lemma oneshot_ids_put g x y s :
  get_group g s = Some x ->
  (match g with Fixed _ => [] | Oneshot _ => if pending_ x then [reqid_ (response_ x)] else [] end) ++ oneshot_ids (put_group g y s) ≡ₚ
  (match g with Fixed _ => [] | Oneshot _ => if pending_ y then [reqid_ (response_ y)] else [] end) ++ oneshot_ids s.
Proof using Type.
  intros E. destruct g as [i|i]; [done|]. unfold oneshot_ids. simpl in *.
  by apply (concat_insert (fun x => if pending_ x then [reqid_ (response_ x)] else []) _ _ x y).
Qed.

Lemma group_count_put i g y s : group_count i (put_group g y s) = group_count i s.
Proof using Type. by destruct g. Qed.

Lemma answered_put g y s : answered (put_group g y s) = answered s.
Proof using Type. by destruct g. Qed.

Lemma complete_group_inv fa s u out rec g st :
  SInv s u out rec -> is_Some (get_group g s) -> 1 <= u g < 2 ^ 32 ->
  exists s', complete_group fa g st s = Done s' /\ same_rest s s' /\ SInv s' (fun gr => u gr - completer_units gr (CompleteGroup g)) out rec.
Proof using Type.
  intros [Hl Hg Hi Hc] Hs Hu. pose proof Hs as [x Hx]. destruct (Hg _ _ Hx) as (Hop & Hpend & Hgid).
  unfold complete_group. rewrite Hx. destruct (MessageGroup_Complete st x) as [p y] eqn:E.
  apply complete_spec in E as (Hy1 & Hy2 & Hy3 & Hp). rewrite Hop, u32_small in Hy1 by (unfold is_u32; lia).
  eexists. split; [done|]. split.
  { destruct p; [apply same_rest_send|]; by apply same_rest_put. }
  assert (forall gr z, get_group gr (put_group g y s) = Some z ->
    op_count_ z = u gr - completer_units gr (CompleteGroup g) /\ (pending_ z = true -> 0 < op_count_ z) /\ group_ (response_ z) = gid gr) as Hg'.
  { intros gr z. rewrite get_put by done. unfold completer_units. destruct (decide (gr = g)) as [->|Hne].
    - intros [= <-]. rewrite decide_True by done. split_and!; [done|intros ?%Hy3; lia|congruence].
    - rewrite decide_False by done. intros Hz. destruct (Hg gr z Hz) as (? & ? & ?). split_and!; [lia|done..]. }
  assert (forall i z, get_group (Fixed i) (put_group g y s) = Some z ->
    exists z0, get_group (Fixed i) s = Some z0 /\ (g = Fixed i /\ z0 = x /\ z = y \/ g <> Fixed i /\ z0 = z)) as Hold.
  { intros i z. rewrite get_put by done. destruct (decide (Fixed i = g)) as [<-|]; [intros [= <-]; eauto 6|]. intros. exists z. split; [done|]. right. split; congruence. }
  pose proof (oneshot_ids_put g x y s Hx) as Ho.
  destruct p as [q|]; (constructor; [destruct g; simpl; by rewrite ?length_insert|exact Hg'| |]).
  - destruct Hp as (Ex & Ey & Eg & Er & _). rewrite Hi, answered_send, answered_put, Eg, Hgid, Er. rewrite Ex, Ey in Ho. destruct g as [i|i]; simpl in *.
    + rewrite decide_False, app_nil_r, <- Ho; [done|]. pose proof (fixed_below _ _ _ Hl Hx). lia.
    + rewrite decide_True by done. rewrite <- Ho, <- app_assoc. f_equiv. simpl. symmetry. apply Permutation_middle.
  - intros i z Hz. destruct (Hold i z Hz) as (z0 & Hz0 & Hcase). rewrite <- (Hc i z0 Hz0), group_count_send, group_count_put.
    destruct Hp as (_ & _ & Eg & _ & Ec & Ec'). rewrite Eg, Hgid, Ec. f_equal. destruct Hcase as [(-> & -> & ->)|[Hne ->]].
    + rewrite decide_True by done. lia.
    + rewrite decide_False; [lia|]. pose proof (fixed_below _ _ _ Hl Hz0). destruct g; simpl; [congruence|lia].
  - destruct Hp as (Ey & Er & _). rewrite Hi, answered_put. do 2 f_equiv. rewrite Ey, Er in Ho. symmetry. by apply Permutation_app_inv_l in Ho.
  - intros i z Hz. destruct (Hold i z Hz) as (z0 & Hz0 & Hcase). rewrite <- (Hc i z0 Hz0), group_count_put.
    destruct Hp as (_ & _ & Ec). destruct Hcase as [(-> & -> & ->)|[Hne ->]]; [by rewrite Ec|done].
Qed.

Lemma completer_inv fa s u out rec c st :
  SInv s u (completer_ids c ++ out) rec -> completer_valid s c -> (forall gr, completer_units gr c <= u gr < 2 ^ 32) ->
  exists s', run_completer fa c st s = Done s' /\ same_rest s s' /\ SInv s' (fun gr => u gr - completer_units gr c) out rec.
Proof using Type.
  intros HI Hv Hu. destruct c as [g|id g]; cbn [run_completer completer_ids completer_valid] in *.
  - apply complete_group_inv; [done|done|]. pose proof (Hu g) as Hg. cbn [completer_units] in Hg. rewrite decide_True in Hg by done. done.
  - unfold FinishTransaction. destruct (Z.eqb_spec g kNoGroup) as [->|Hne]; cbn [negb].
    + rewrite decide_True in HI by done. eexists. split; [done|]. split; [apply same_rest_send, same_rest_refl|].
      eapply sinv_ext; [by apply sinv_send_own| |done]. intros gr. cbn [completer_units]. rewrite decide_False by tauto. lia.
    + rewrite decide_False in HI by done. destruct Hv as [?|Hv]; [done|]. pose proof (Hu (Fixed g)) as Hg. cbn [completer_units] in Hg.
      rewrite decide_True in Hg by done. destruct (complete_group_inv fa s u out rec (Fixed g) st HI Hv Hg) as (s' & E & Hr & HI').
      exists s'. split_and!; [done..|]. eapply sinv_ext; [exact HI'| |done]. intros gr. cbn [completer_units].
      f_equal. destruct (decide (Fixed g = gr)); [by rewrite decide_True|by rewrite decide_False by tauto].
Qed.

(** ** Expecting completions *)

Lemma expect_inv s u out rec rec' i x rc qc id :
  SInv s u out rec -> get_group (Fixed i) s = Some x -> 0 <= rc -> (0 < rc \/ id = None) -> 0 <= u (Fixed i) -> u (Fixed i) + rc < 2 ^ 32 ->
  own_ids rec' = own_ids rec ->
  (forall j, Z.of_nat (length (filter (in_group j) rec')) = Z.of_nat (length (filter (in_group j) rec)) + (if decide (j = i) then qc else 0)) ->
  SInv (put_group (Fixed i) (ExpectResponses rc qc id x).2 s) (fun gr => u gr + if decide (Fixed i = gr) then rc else 0) out rec'.
Proof using Type.
  intros [Hl Hg Hi Hc] Hx Hrc Hid Hu Hu' Hown Hrec. destruct (Hg _ _ Hx) as (Hop & Hpend & Hgid).
  assert (is_Some (get_group (Fixed i) s)) as Hs by eauto.
  constructor.
  - simpl. by rewrite length_insert.
  - intros gr y. rewrite get_put by done. destruct (decide (gr = Fixed i)) as [->|Hne].
    + intros [= <-]. rewrite decide_True by done. simpl. rewrite u32_small by (unfold is_u32; lia). split_and!; [lia| |done].
      destruct Hid as [?| ->]; [lia|]. intros ?%Hpend. lia.
    + rewrite decide_False by done. intros Hy. destruct (Hg _ _ Hy) as (? & ? & ?). split_and!; [lia|done..].
  - rewrite Hown, Hi. by rewrite answered_put.
  - intros j y. rewrite get_put by done. rewrite group_count_put, Hrec. destruct (decide (Fixed j = Fixed i)) as [[= ->]|Hne].
    + intros [= <-]. rewrite decide_True by done. simpl. rewrite Z.add_comm, u32_add.
      rewrite <- (u32_add (Z.of_nat _)), <- (Hc i x Hx), u32_add. f_equal. lia.
    + intros Hy. rewrite decide_False by congruence. rewrite Z.add_0_r. eauto.
Qed.

Lemma oneshot_inv s u id out rec n :
  SInv s u (id :: out) rec -> u (Oneshot (length (oneshot_groups s))) = 0 -> 0 < n < 2 ^ 32 ->
  SInv (set_groups (groups_ s) (oneshot_groups s ++ [(ExpectResponses n 1 (Some id) (new_group kNoGroup)).2]) s)
    (fun gr => u gr + if decide (Oneshot (length (oneshot_groups s)) = gr) then n else 0) out rec.
Proof using Type.
  intros [Hl Hg Hi Hc] Hu Hn. set (y := (ExpectResponses n 1 (Some id) (new_group kNoGroup)).2).
  constructor; [done| |rewrite Hi|done].
  - intros [i|i] x.
    + intros E. rewrite decide_False by done. destruct (Hg (Fixed i) x E) as (? & ? & ?). split_and!; [lia|done..].
    + simpl. intros [E|[Hi' E]]%lookup_app_Some.
      * apply lookup_lt_Some in E as Hlt. rewrite decide_False by (intros [= ?]; lia). destruct (Hg (Oneshot i) x E) as (? & ? & ?). split_and!; [lia|done..].
      * apply list_lookup_singleton_Some in E as [Ei <-]. assert (i = length (oneshot_groups s)) as -> by lia. rewrite decide_True by done.
        rewrite Hu. simpl. rewrite u32_small by (unfold is_u32; lia). split_and!; [lia..|done].
  - unfold oneshot_ids. simpl. rewrite fmap_app, concat_app. simpl. apply Permutation_app_head. rewrite app_assoc. apply Permutation_cons_append.
Qed.

(** ** Actions *)

(** The actions left are of one request. *)
Definition todo_ok (i : BlockInfo) s (l : list Action) : Prop :=
  match l with
  | [] => True
  | [Process r] => request_ok i r /\ completer_valid s (CompleteTransaction (reqid r) (group r))
  | [Finish _ id g] => completer_valid s (CompleteTransaction id g)
  | [Messages _ c _] => completer_valid s c
  | [ExpectMore g n; Messages _ (CompleteGroup g') ops] =>
      g' = Fixed g /\ is_Some (get_group (Fixed g) s) /\ Z.of_nat (length ops) = n + 1 /\ 0 <= n
  | _ => False
  end.

Lemma completer_units_range gr c : 0 <= completer_units gr c <= 1.
Proof using Type. destruct c; simpl; case_decide; lia. Qed.

Lemma todo_units i s l gr : todo_ok i s l -> 0 <= zsum (action_units gr) l <= zsum action_size l.
Proof using Type.
  intros Hl. destruct l as [|[r|g n|r c ops|st id g] [|b l]]; simpl in Hl; try done.
  - simpl. pose proof (completer_units_range gr (CompleteTransaction (reqid r) (group r))). simpl in *. lia.
  - destruct b as [| |r c ops|]; try done. destruct c as [g'|]; [|done]. destruct l; [|done]. destruct Hl as (-> & _ & Hn & Hn0). simpl.
    destruct (decide (Fixed g = gr)); lia.
  - simpl. pose proof (completer_units_range gr c). nia.
  - simpl. pose proof (completer_units_range gr (CompleteTransaction id g)). simpl in *. lia.
Qed.

Lemma completer_units_invalid s gr c : completer_valid s c -> get_group gr s = None -> completer_units gr c = 0.
Proof using Type.
  destruct c as [g|id g]; simpl; intros Hv Hn; case_decide as Hd; try done.
  - subst. rewrite Hn in Hv. by destruct Hv.
  - destruct Hd as [? <-]. destruct Hv as [?|[? Hv]]; [done|]. simpl in *. congruence.
Qed.

(** Groups are never taken away. *)
Record grows s s' : Prop := {
  gr_info : info_ s' = info_ s;
  gr_groups gr : is_Some (get_group gr s) -> is_Some (get_group gr s')
}.

Lemma grows_refl s : grows s s.
Proof using Type. by constructor. Qed.

Lemma grows_same s s' : same_rest s s' -> grows s s'.
Proof using Type. intros []. constructor; [done|]. intros gr. by apply sr_groups0. Qed.

Lemma completer_valid_grows s s' c : grows s s' -> completer_valid s c -> completer_valid s' c.
Proof using Type. intros [_ Hg]. destruct c; cbn [completer_valid]; [auto|]. intros [?|?]; [by left|right; by apply Hg]. Qed.

(** The actions that take over from [Process]. *)
Definition takes_over s u out rec (acts : list Action) s' : Prop :=
  grows s s' /\ bp_ s' = bp_ s /\ pending_count_ s' = pending_count_ s /\ todo_ok (info_ s) s' acts /\
  SInv s' (fun gr => u gr + zsum (action_units gr) acts) (concat (action_ids <$> acts) ++ out) rec.

Section process.
Context (s : Server) (u : GroupRef -> Z) (out : list Z) (rec : list FifoRequest) (r : FifoRequest).
Abbreviation own := (CompleteTransaction (reqid r) (group r)).
Context (HI : SInv s (fun gr => u gr + completer_units gr own) (completer_ids own ++ out) rec).
Context (Hinfo : block_info_ok (info_ s)) (Hr : request_ok (info_ s) r) (Hv : completer_valid s own).
Context (Hu : forall gr, get_group gr s = None -> u gr = 0).

Lemma finish_takes_over st s' :
  groups_ s' = groups_ s -> oneshot_groups s' = oneshot_groups s -> fifo_ s' = fifo_ s -> info_ s' = info_ s -> bp_ s' = bp_ s ->
  pending_count_ s' = pending_count_ s -> takes_over s u out rec [Finish st (reqid r) (group r)] s'.
Proof using HI Hv.
  clear Hinfo Hr Hu. intros E1 E2 E3 E4 E5 E6. assert (grows s s') as Hg by (constructor; [done|intros []; simpl; by rewrite ?E1, ?E2]).
  unfold takes_over. split_and!; [done..|by eapply completer_valid_grows|]. eapply sinv_ext; [by eapply sinv_frame| |].
  - intros gr. simpl. lia.
  - simpl. by rewrite app_nil_r.
Qed.

Lemma message_takes_over op : takes_over s u out rec [Messages r own [op]] s.
Proof using HI Hv.
  clear Hinfo Hr Hu. unfold takes_over. split_and!; [apply grows_refl|done..|]. eapply sinv_ext; [exact HI| |].
  - intros gr. cbn [zsum foldr action_units length]. lia.
  - simpl. by rewrite !app_nil_r.
Qed.

(** The number of messages of a request that is too long for one. *)
Lemma sub_txns_spec :
  max_xfer (info_ s) <> 0 -> max_xfer (info_ s) < length_ r ->
  let n := round_up32 (length_ r) (max_xfer (info_ s)) / max_xfer (info_ s) in
  1 < n < 2 ^ 32 /\ (n - 1) * max_xfer (info_ s) < length_ r <= n * max_xfer (info_ s).
Proof using Hinfo Hr H0.
  clear HI Hv Hu. intros Hm Hlt n. destruct Hinfo as [Hb Ht]. destruct Hr as [_ Hlen _ _ Hshort _]. unfold is_u32 in Hlen.
  assert (0 <= max_xfer (info_ s)) as Hm0 by (unfold max_xfer; apply Z.div_pos; lia). destruct Hshort as [?|Hshort]; [done|].
  set (mx := max_xfer (info_ s)) in *. set (L := length_ r) in *. subst n. rewrite round_up32_spec by lia.
  pose proof (Z.div_mod (L + mx - 1) mx ltac:(lia)) as Hdm. pose proof (Z.mod_pos_bound (L + mx - 1) mx ltac:(lia)) as Hmod.
  set (q := (L + mx - 1) / mx) in *. set (e := (L + mx - 1) mod mx) in *.
  replace ((L + mx - 1 - e) / mx) with q by (rewrite (Z.mul_comm mx q) in Hdm; replace (L + mx - 1 - e) with (q * mx) by lia; by rewrite Z.div_mul by lia).
  nia.
Qed.

Lemma read_write_takes_over size :
  exists res s', ProcessReadWriteRequest r size s = Done (res, s') /\ takes_over s u out rec (or_finish r res) s'.
Proof using All.
  unfold ProcessReadWriteRequest. destruct (tree_ s !! vmoid r) as [vmo|]; [|eexists _, s; split; [done|by apply finish_takes_over]].
  destruct (length_ r =? 0); [eexists _, s; split; [done|by apply finish_takes_over]|].
  case_match; [eexists _, s; split; [done|by apply finish_takes_over]|]. destruct Hinfo as [Hb Ht].
  destruct (Z.eqb_spec (block_size (info_ s)) 0) as [|_]; [lia|]. fold (max_xfer (info_ s)).
  destruct (Z.eqb_spec (max_xfer (info_ s)) 0) as [Em|Em]; cbn [negb andb]; [eexists _, s; split; [done|apply message_takes_over]|].
  destruct (Z.ltb_spec (max_xfer (info_ s)) (length_ r)) as [Hlt|Hge]; [|eexists _, s; split; [done|apply message_takes_over]].
  destruct (sub_txns_spec Em Hlt) as [Hn Hn2]. set (n := round_up32 (length_ r) (max_xfer (info_ s)) / max_xfer (info_ s)) in *.
  assert (0 < max_xfer (info_ s)) as Hm by nia.
  set (ops := split_ops _ _ _ _ _ _ _). assert (Z.of_nat (length ops) = n) as Hops.
  { destruct (split_ops_spec (Z.to_nat n) (OpcodeToCommand (opcode r)) vmo (max_xfer (info_ s)) (length_ r) (dev_offset r) (vmo_offset r)) as (_ & E & _);
      [done|lia|apply Hr..|]. unfold ops. rewrite E. lia. }
  destruct (Z.eqb_spec (group r) kNoGroup) as [Eg|Eg].
  - destruct (ExpectResponses n 1 (Some (reqid r)) (new_group kNoGroup)) as [st g] eqn:Ee. pose proof Ee as [= <- _]. cbn [negb bool_decide decide_rel].
    rewrite bool_decide_true by done. cbn [negb]. eexists _, _. split; [done|]. assert (g = (ExpectResponses n 1 (Some (reqid r)) (new_group kNoGroup)).2) as -> by (by rewrite Ee).
    assert (get_group (Oneshot (length (oneshot_groups s))) s = None) as Hnone by (simpl; by apply lookup_ge_None_2).
    unfold takes_over. split_and!; [constructor; [done|]|done|done| |].
    + intros [i|i]; [done|]. simpl. intros [z Hz]. exists z. by apply lookup_app_l_Some.
    + simpl. by rewrite lookup_app_r, Nat.sub_diag by lia.
    + assert (forall gr, completer_units gr own = 0) as Hz by (intros gr; cbn [completer_units]; by rewrite decide_False by tauto).
      eapply sinv_ext; [apply (oneshot_inv s u (reqid r) out rec n)| |].
      * eapply sinv_ext; [exact HI|intros gr; cbv beta; rewrite Hz; lia|]. cbn [completer_ids]. by rewrite decide_True.
      * by apply Hu.
      * lia.
      * intros gr. simpl. rewrite Hops. destruct (decide _); lia.
      * simpl. rewrite app_nil_r. clear. induction ops; done.
  - eexists _, s. split; [done|]. destruct Hv as [?|Hs]; [done|]. rewrite u32_small by (unfold is_u32; lia).
    unfold takes_over. split_and!; [apply grows_refl|done|done|split_and!; [done|done|lia|lia]|].
    eapply sinv_ext; [exact HI| |].
    + intros gr. simpl. rewrite Hops. destruct (decide (Fixed (group r) = gr)); [rewrite decide_True by done|rewrite decide_False by tauto]; lia.
    + simpl. rewrite decide_False by done. rewrite app_nil_r. clear. induction ops; done.
Qed.

Lemma process_takes_over size : exists acts s', ProcessRequest r size s = Done (acts, s') /\ takes_over s u out rec acts s'.
Proof using All.
  unfold ProcessRequest. destruct (_ || _).
  { destruct (read_write_takes_over size) as (res & s' & -> & Ht). eexists _, s'. by split. }
  destruct (_ =? BLOCK_OP_FLUSH); [eexists _, s; split; [done|apply message_takes_over]|].
  destruct (_ =? BLOCK_OP_TRIM).
  { eexists _, s. split; [done|]. unfold ProcessTrimRequest. case_match; [by apply finish_takes_over|apply message_takes_over]. }
  destruct (_ =? BLOCK_OP_CLOSE_VMO); [|eexists _, s; split; [done|by apply finish_takes_over]].
  unfold ProcessCloseVmoRequest. destruct (tree_ s !! vmoid r); eexists _, _; (split; [done|by apply finish_takes_over]).
Qed.
End process.

(** ** The invariant of runs *)

Record RunInv (w : Run) : Prop := {
  ri_server : SInv (server w) (fun gr => units gr w) (ids w) (received w);
  ri_todo : todo_ok (info_ (server w)) (server w) (todo w);
  ri_bp : Forall (fun m => completer_valid (server w) (completer_ m)) (bp_ (server w));
  ri_pending : pending_count_ (server w) = Z.of_nat (length (bp_ (server w))) + Z.of_nat (ending w);
  ri_batch : Forall (request_ok (info_ (server w))) (batch w);
  ri_info : block_info_ok (info_ (server w));
  ri_count : message_count w < 2 ^ 32
}.

(** An event succeeds, and keeps the invariant unless there are too many messages. *)
Definition keeps_inv (w : Run) (e : Event) : Prop :=
  exists w', handle_event e w = Done w' /\ (message_count w' < 2 ^ 32 -> RunInv w').

Definition bp_units gr (l : list Message) : Z := zsum (fun m => completer_units gr (completer_ m)) l.
Definition bp_ids (l : list Message) : list Z := concat ((fun m => completer_ids (completer_ m)) <$> l).

Lemma bp_units_range gr l : 0 <= bp_units gr l <= Z.of_nat (length l).
Proof using Type.
  unfold bp_units. induction l as [|m l IH]; [done|]. rewrite zsum_cons. cbn [length]. pose proof (completer_units_range gr (completer_ m)). lia.
Qed.

Lemma units_range w gr : todo_ok (info_ (server w)) (server w) (todo w) -> 0 <= units gr w <= message_count w.
Proof using Type.
  intros Ht. unfold units, message_count. fold (bp_units gr (bp_ (server w))). pose proof (bp_units_range gr (bp_ (server w))).
  pose proof (todo_units _ _ _ gr Ht). lia.
Qed.

Lemma bp_units_invalid s gr l : Forall (fun m => completer_valid s (completer_ m)) l -> get_group gr s = None -> bp_units gr l = 0.
Proof using Type.
  intros Hl Hn. unfold bp_units. induction Hl as [|m l Hm _ IH]; [done|]. rewrite zsum_cons, IH. by rewrite (completer_units_invalid s).
Qed.

Lemma bp_valid_grows s s' l :
  grows s s' -> Forall (fun m => completer_valid s (completer_ m)) l -> Forall (fun m => completer_valid s' (completer_ m)) l.
Proof using Type. intros Hg Hl. eapply Forall_impl; [exact Hl|]. intros m. by apply completer_valid_grows. Qed.

Lemma batch_valid_grows s s' l : grows s s' -> Forall (request_ok (info_ s)) l -> Forall (request_ok (info_ s')) l.
Proof using Type. by intros [-> _]. Qed.

Lemma todo_ok_grows s s' l : grows s s' -> todo_ok (info_ s) s l -> todo_ok (info_ s') s' l.
Proof using Type.
  intros Hg. pose proof (fun c => completer_valid_grows s s' c Hg) as Hv. destruct Hg as [-> Hg].
  destruct l as [|[r|g n|r c ops|st id g] [|b l]]; cbn [todo_ok]; try done; [by intros [? ?]; auto| |by auto..].
  destruct b as [| |r [g'|] ops|]; try done. destruct l; [|done]. intros (-> & ? & ? & ?). auto.
Qed.

(** A step that leaves the batch and the requests received. *)
Lemma block_step_inv w s' todo' en' :
  RunInv w -> grows (server w) s' -> todo_ok (info_ s') s' todo' -> Forall (fun m => completer_valid s' (completer_ m)) (bp_ s') ->
  pending_count_ s' = Z.of_nat (length (bp_ s')) + Z.of_nat en' ->
  SInv s' (fun gr => zsum (action_units gr) todo' + bp_units gr (bp_ s')) (concat (action_ids <$> todo') ++ bp_ids (bp_ s')) (received w) ->
  message_count (mkRun s' (batch w) todo' en' (received w)) < 2 ^ 32 -> RunInv (mkRun s' (batch w) todo' en' (received w)).
Proof using Type.
  intros HI Hg Ht Hb Hp HS Hc. constructor; try done; cbn [server batch].
  - by apply (batch_valid_grows (server w)), HI.
  - destruct Hg as [-> _]. apply HI.
Qed.

(** Taking the next action. *)
Lemma action_keeps w ans : RunInv w -> todo w <> [] -> ans_alloc ans = true -> keeps_inv w (EAction ans).
Proof using All.
  intros HR Hne Ha. pose proof HR as [HI Ht Hb Hp _ Hi Hc]. pose proof (fun gr => units_range w gr Ht) as Hrange. unfold keeps_inv. cbn [handle_event].
  unfold units, ids in HI. unfold units in Hrange. destruct (todo w) as [|[r|g n|r c ops|st id g] l] eqn:Etodo; [done| | | |].
  - destruct l; [|done]. destruct Ht as [Hr Hv].
    destruct (process_takes_over (server w) (fun gr => bp_units gr (bp_ (server w))) (bp_ids (bp_ (server w))) (received w) r) with (size := ans_vmo_size ans)
      as (acts & s' & E & Hg & E1 & E2 & Ht' & HI'); try done.
    { eapply sinv_ext; [exact HI| |].
      - intros gr. simpl. unfold bp_units. lia.
      - simpl. by rewrite app_nil_r. }
    { intros gr Hn. by apply (bp_units_invalid (server w)). }
    simpl. rewrite E. eexists. split; [done|]. intros Hc'. rewrite app_nil_r in *. apply block_step_inv; try done; rewrite ?E1, ?E2; try done.
    + by destruct Hg as [-> _].
    + by apply (bp_valid_grows (server w)).
    + eapply sinv_ext; [exact HI'| |done]. intros gr. cbv beta. lia.
  - destruct l as [|[| |r [g'|] ops|] [|]]; try done. destruct Ht as (-> & [x Hx] & Hops & Hn0). cbn [run_action]. rewrite Hx.
    eexists. split; [done|]. intros Hc'. assert (is_Some (get_group (Fixed g) (server w))) as Hs by eauto.
    pose proof (same_rest_put (Fixed g) (ExpectResponses n 0 None x).2 _ Hs) as Hsr. pose proof (grows_same _ _ Hsr) as Hg.
    assert (forall gr, zsum (action_units gr) [ExpectMore g n; Messages r (CompleteGroup (Fixed g)) ops] + bp_units gr (bp_ (server w)) +
      (if decide (Fixed g = gr) then n else 0) = zsum (action_units gr) [Messages r (CompleteGroup (Fixed g)) ops] + bp_units gr (bp_ (server w))) as Hu.
    { intros gr. simpl. case_decide; lia. }
    apply block_step_inv; try done; [by apply Hg|by apply (bp_valid_grows (server w))|].
    eapply sinv_ext; [eapply (expect_inv _ _ _ _ (received w) g x n 0 None HI Hx)|exact Hu|done]; try done; [by right|apply Hrange| |].
    + pose proof (bp_units_range (Fixed g) (bp_ (server w))). unfold message_count, bp_units in *. rewrite Etodo in Hc. simpl in *.
      rewrite !decide_True by done. lia.
    + intros j. case_decide; lia.
  - cbn [run_action]. destruct l; [|by destruct c, ops]. destruct ops as [|op ops].
    + eexists. split; [done|]. intros Hc'. apply block_step_inv; done.
    + rewrite Ha. eexists. split; [done|]. intros Hc'. unfold message_count in Hc. rewrite Etodo in Hc. cbn [zsum foldr action_size length] in Hc.
      apply block_step_inv; try done.
      * simpl. apply Forall_app. split; [done|]. by apply Forall_singleton.
      * simpl. rewrite Hp, length_app. simpl. rewrite u64_small by (unfold is_u64; lia). lia.
      * eapply sinv_ext; [eapply (sinv_frame (server w)); [exact HI|done..]| |].
        -- intros gr. simpl. unfold bp_units. rewrite zsum_app. simpl. lia.
        -- simpl. unfold bp_ids. rewrite fmap_app, concat_app. simpl. rewrite !app_nil_r.
           rewrite (Permutation_app_comm (completer_ids c)). by rewrite <- !app_assoc, (Permutation_app_comm (completer_ids c)).
  - cbn [run_action]. destruct l; [|done].
    destruct (completer_inv (ans_fifo ans) (server w) (fun gr => completer_units gr (CompleteTransaction id g) + bp_units gr (bp_ (server w))) (bp_ids (bp_ (server w)))
      (received w) (CompleteTransaction id g) st) as (s' & E & Hsr & HI').
    { eapply sinv_ext; [exact HI| |].
      - intros gr. simpl. unfold bp_units. lia.
      - simpl. by rewrite app_nil_r. }
    { done. }
    { intros gr. pose proof (bp_units_range gr (bp_ (server w))). specialize (Hrange gr). simpl in Hrange. unfold bp_units in *. simpl. lia. }
    cbn [run_completer] in E. rewrite E. eexists. split; [done|]. intros Hc'. pose proof (grows_same _ _ Hsr) as Hg. destruct Hsr as [_ E2 _ E1 _].
    apply block_step_inv; try done; rewrite ?E1, ?E2; try done; [by apply (bp_valid_grows (server w))|].
    eapply sinv_ext; [exact HI'| |done]. intros gr. simpl. lia.
Qed.

Lemma own_ids_snoc l r : own_ids (l ++ [r]) = own_ids l ++ (if own_answer r then [reqid r] else []).
Proof using Type. unfold own_ids. rewrite filter_app, fmap_app, filter_cons, filter_nil. destruct (own_answer r); [by rewrite decide_True|by rewrite decide_False]. Qed.

Lemma in_group_snoc j l r :
  Z.of_nat (length (filter (in_group j) (l ++ [r]))) = Z.of_nat (length (filter (in_group j) l)) + (if decide (in_group j r) then 1 else 0).
Proof using Type. rewrite filter_app, length_app, filter_cons, filter_nil. destruct (decide _); simpl; lia. Qed.

(** A request that is received, and whose answer is due. *)
Lemma sinv_receive s u out rec r :
  SInv s u out rec -> own_answer r = true -> (forall j x, get_group (Fixed j) s = Some x -> ~ in_group j r) -> SInv s u (reqid r :: out) (rec ++ [r]).
Proof using Type.
  intros [Hl Hg Hi Hc] Ho Hn. constructor; [done|done| |].
  - rewrite own_ids_snoc, Ho, Hi. rewrite Permutation_app_comm. simpl. by rewrite Permutation_middle.
  - intros j x Hx. rewrite (Hc j x Hx), in_group_snoc, decide_False by eauto. f_equal. lia.
Qed.

(** A request that is dropped. *)
Lemma sinv_drop s u out rec r :
  SInv s u out rec -> own_answer r = false -> (forall j x, get_group (Fixed j) s = Some x -> ~ in_group j r) -> SInv s u out (rec ++ [r]).
Proof using Type.
  intros [Hl Hg Hi Hc] Ho Hn. constructor; [done|done| |].
  - by rewrite own_ids_snoc, Ho, app_nil_r.
  - intros j x Hx. rewrite (Hc j x Hx), in_group_snoc, decide_False by eauto. f_equal. lia.
Qed.

Lemma serve_keeps w : RunInv w -> todo w = [] -> batch w <> [] -> keeps_inv w EServe.
Proof using All.
  intros HR Ht Hne. pose proof HR as [HI _ Hb Hp Hba Hi Hc]. unfold keeps_inv. cbn [handle_event]. destruct (batch w) as [|r l] eqn:Eb; [done|].
  apply Forall_cons in Hba as [Hr Hba]. unfold units, ids in HI. rewrite Ht in HI. cbn [zsum foldr fmap list_fmap concat app] in HI.
  pose proof (si_length _ _ _ _ HI) as Hlen. unfold Serve. destruct (use_group r) eqn:Eu.
  - destruct (Z.leb_spec MAX_TXN_GROUP_COUNT (group r)) as [Hge|Hlt].
    + assert (forall j x, get_group (Fixed j) (server w) = Some x -> ~ in_group j r) as Hn.
      { intros j x Hx [_ Hj]. apply fixed_below in Hx; [|done]. unfold kNoGroup in Hx. lia. }
      eexists. split; [done|]. intros Hc'. destruct (wants_reply r) eqn:Ew.
      * assert (group r = kNoGroup) as Eg by (pose proof (rq_known _ _ Hr Eu Ew); unfold kNoGroup in *; lia).
        constructor; try done; [|by left]. unfold units, ids. eapply sinv_ext; [apply sinv_receive; [exact HI| |done]| |].
        -- unfold own_answer. rewrite Eu, Ew, Eg, Z.eqb_refl. done.
        -- intros gr. simpl. rewrite decide_False by tauto. lia.
        -- simpl. by rewrite decide_True.
      * constructor; try done. unfold units, ids. eapply sinv_ext; [apply sinv_drop; [exact HI| |done]|done|done].
        unfold own_answer. by rewrite Eu, Ew.
    + destruct (lookup_lt_is_Some_2 (groups_ (server w)) (Z.to_nat (group r))) as [x Hx]; [pose proof (rq_group _ _ Hr); lia|].
      assert (get_group (Fixed (group r)) (server w) = Some x) as Hx'.
      { simpl. destruct (Z.ltb_spec (group r) 0); [pose proof (rq_group _ _ Hr); lia|done]. }
      rewrite Hx'. destruct (ExpectResponses 1 1 (if wants_reply r then Some (reqid r) else None) x) as [st y] eqn:Ee.
      eexists. split; [done|]. intros Hc'. assert (is_Some (get_group (Fixed (group r)) (server w))) as Hs by eauto.
      pose proof (grows_same _ _ (same_rest_put (Fixed (group r)) y _ Hs)) as Hg. assert (group r <> kNoGroup) as Hng by (unfold kNoGroup; lia).
      assert (SInv (put_group (Fixed (group r)) y (server w)) (fun gr => completer_units gr (CompleteTransaction (reqid r) (group r)) + bp_units gr (bp_ (server w)))
        (bp_ids (bp_ (server w))) (received w ++ [r])) as HI'.
      { assert (y = (ExpectResponses 1 1 (if wants_reply r then Some (reqid r) else None) x).2) as -> by (by rewrite Ee).
        pose proof (bp_units_range (Fixed (group r)) (bp_ (server w))) as Hbr. unfold message_count in Hc'. simpl in Hc'.
        eapply sinv_ext; [eapply (expect_inv _ _ _ (received w) _ (group r) x 1 1 _ HI Hx')| |done]; [lia|left; lia|..].
        - unfold bp_units in Hbr. cbv beta. lia.
        - unfold bp_units in Hbr. cbv beta. destruct (bool_decide (st = ZX_OK)); cbn [action_size] in Hc'; lia.
        - rewrite own_ids_snoc. unfold own_answer. rewrite Eu. destruct (Z.eqb_spec (group r) kNoGroup); [done|]. rewrite andb_false_r. simpl. by rewrite app_nil_r.
        - intros j. rewrite in_group_snoc. unfold in_group. destruct (decide (j = group r)) as [->|]; [by rewrite decide_True|by rewrite decide_False by naive_solver].
        - intros gr. cbv beta. cbn [completer_units]. unfold bp_units. destruct (decide (Fixed (group r) = gr)); [rewrite (decide_True (P := _ /\ _)) by done|rewrite (decide_False (P := _ /\ _)) by tauto]; lia. }
      constructor; try done; cbn [server batch todo ending received].
      * unfold units, ids. eapply sinv_ext; [exact HI'| |].
        -- intros gr. simpl. destruct (bool_decide _); simpl; unfold bp_units; lia.
        -- simpl. unfold bp_ids. destruct (bool_decide _); simpl; by rewrite decide_False.
      * destruct (bool_decide _); cbn [todo_ok completer_valid]; [split; [done|]|]; right; by apply (gr_groups _ _ Hg).
      * by apply (bp_valid_grows (server w)).
  - eexists. split; [done|]. intros Hc'. constructor; try done; cbn [server batch todo ending received].
    + unfold units, ids. eapply sinv_ext; [apply (sinv_receive _ _ _ _ r HI)| |].
      * unfold own_answer. by rewrite Eu.
      * intros j x _ [E _]. congruence.
      * intros gr. simpl. rewrite decide_False by tauto. lia.
      * simpl. by rewrite decide_True.
    + simpl. split; [|by left]. destruct Hr. constructor; try done; cbn [group with_group].
      pose proof group_count_range. unfold kNoGroup. lia.
Qed.

Lemma complete_keeps w k st fa : RunInv w -> (k < length (bp_ (server w)))%nat -> keeps_inv w (EComplete k st fa).
Proof using All.
  intros HR Hk. pose proof HR as [HI Ht Hb Hp _ _ Hc]. unfold keeps_inv. cbn [handle_event].
  destruct (lookup_lt_is_Some_2 _ _ Hk) as [m Hm]. pose proof (fun gr => units_range w gr Ht) as Hrange.
  unfold BlockCompleteCb. rewrite Hm. pose proof (delete_Permutation _ _ _ Hm) as Hperm. set (l := delete k (bp_ (server w))) in *.
  assert (length (bp_ (server w)) = S (length l)) as Hlen by (by rewrite Hperm).
  assert (forall gr, bp_units gr (bp_ (server w)) = completer_units gr (completer_ m) + bp_units gr l) as Hu.
  { intros gr. unfold bp_units, l. rewrite (zsum_delete _ _ _ m Hm). lia. }
  destruct (completer_inv fa (set_bp l (server w)) (fun gr => units gr w) (concat (action_ids <$> todo w) ++ bp_ids l) (received w) (completer_ m) st)
    as (s' & E & Hsr & HI').
  - eapply sinv_ext; [eapply (sinv_frame (server w)); [exact HI|done..]|done|]. unfold ids. rewrite Hperm. simpl.
    rewrite !app_assoc. by rewrite (Permutation_app_comm (completer_ids _)).
  - rewrite Forall_forall in Hb. apply (completer_valid_grows (server w)); [by constructor|]. apply Hb. by eapply list_elem_of_lookup_2.
  - intros gr. pose proof (Hrange gr). pose proof (todo_units _ _ _ gr Ht). pose proof (bp_units_range gr l). unfold units in *. fold (bp_units gr (bp_ (server w))) in *.
    rewrite Hu in *. lia.
  - assert ((match completer_ m with CompleteGroup g => complete_group fa g st (set_bp l (server w))
      | CompleteTransaction reqid group => FinishTransaction fa st reqid group (set_bp l (server w)) end) = Done s') as -> by exact E.
    eexists. split; [done|]. intros Hc'. pose proof (grows_same _ _ Hsr) as Hg. destruct Hsr as [_ E2 _ E1 _]. simpl in E1, E2.
    assert (grows (server w) s') as Hg' by (destruct Hg as [Hg1 Hg2]; constructor; [done|exact Hg2]).
    apply block_step_inv; try done; rewrite ?E1, ?E2.
    + by apply (todo_ok_grows (server w)).
    + apply (bp_valid_grows (server w)); [done|]. rewrite Hperm in Hb. by apply Forall_cons in Hb as [_ ?].
    + rewrite Hp, Hlen. lia.
    + eapply sinv_ext; [exact HI'| |done]. intros gr. unfold units. fold (bp_units gr (bp_ (server w))). rewrite Hu. lia.
Qed.

Lemma frame_keeps w s' en' :
  RunInv w -> groups_ s' = groups_ (server w) -> oneshot_groups s' = oneshot_groups (server w) -> fifo_ s' = fifo_ (server w) -> info_ s' = info_ (server w) ->
  bp_ s' = bp_ (server w) -> pending_count_ s' - Z.of_nat en' = pending_count_ (server w) - Z.of_nat (ending w) ->
  message_count (mkRun s' (batch w) (todo w) en' (received w)) < 2 ^ 32 -> RunInv (mkRun s' (batch w) (todo w) en' (received w)).
Proof using Type.
  intros HR E1 E2 E3 E4 E5 E6 Hc. pose proof HR as [HI Ht Hb Hp _ _ _]. assert (grows (server w) s') as Hg by (constructor; [done|intros []; simpl; by rewrite ?E1, ?E2]).
  apply block_step_inv; try done; [by apply (todo_ok_grows (server w))|rewrite E5; by apply (bp_valid_grows (server w))|rewrite E5; lia|].
  rewrite E5. by eapply sinv_frame.
Qed.

Lemma attach_frame alloc vmo s :
  let s' := (AttachVmo alloc vmo s).2 in
  groups_ s' = groups_ s /\ oneshot_groups s' = oneshot_groups s /\ fifo_ s' = fifo_ s /\ info_ s' = info_ s /\ bp_ s' = bp_ s /\ pending_count_ s' = pending_count_ s.
Proof using Type. unfold AttachVmo, FindVmoIdLocked. repeat case_match; naive_solver. Qed.

Lemma event_keeps w e : RunInv w -> allowed true w e -> keeps_inv w e.
Proof using All.
  intros HR He. destruct e as [l| |ans|k st fa| |alloc vmo]; cbn [allowed] in He.
  - destruct He as (Hb & Ht & Hl). eexists. split; [done|]. intros Hc. destruct HR. by constructor.
  - destruct He. by apply serve_keeps.
  - destruct He as (Ht & Ha & _). apply action_keeps; auto.
  - destruct He as [Hk _]. by apply complete_keeps.
  - eexists. split; [done|]. intros Hc. apply frame_keeps; try done. pose proof HR as [_ _ _ Hp _ _ Hcw]. simpl.
    unfold message_count in Hcw. pose proof (zsum_nonneg action_size (todo w) ltac:(intros []; simpl; lia)).
    rewrite u64_small by (unfold is_u64; lia). lia.
  - destruct (attach_frame alloc vmo (server w)) as (E1 & E2 & E3 & E4 & E5 & E6). eexists. split; [done|]. intros Hc. apply frame_keeps; try done. by rewrite E6.
Qed.

Lemma block_start_inv i : block_info_ok i -> RunInv (block_start i).
Proof using All.
  intros Hi. constructor; try done. pose proof group_count_range as Hg. constructor.
  - simpl. rewrite length_fmap, length_seq. lia.
  - intros [j|j] x; [|done]. simpl. destruct (Z.ltb_spec j 0); [done|]. rewrite list_lookup_fmap. intros (k & Hk & ->)%fmap_Some.
    apply lookup_seq in Hk as [-> _]. split_and!; [done..|]. simpl. lia.
  - done.
  - intros j x. simpl. destruct (Z.ltb_spec j 0); [done|]. rewrite list_lookup_fmap. intros (k & Hk & ->)%fmap_Some. done.
Qed.

Lemma block_reachable_inv i w : block_info_ok i -> block_reachable true i w -> RunInv w.
Proof using All.
  intros Hi. apply (rtc_ind_r (fun w => RunInv w)); [by apply block_start_inv|]. intros w1 w2 _ (e & Ha & E & Hc) HR.
  destruct (event_keeps w1 e HR Ha) as (w' & E' & Hw'). rewrite E in E'. injection E' as <-. auto.
Qed.

(** Nothing is left to do, and nothing is below. *)
Definition idle (w : Run) : Prop := batch w = [] /\ todo w = [] /\ bp_ (server w) = [].

(** [SendResponse] gives a response up exactly if, after rounds of waiting for room, the FIFO refuses it, the wait
    fails, or the server is told to terminate while it waits. *)
Lemma SendResponse_gives_up answers :
  SendResponse answers = Some false <->
  exists full last rest, answers = full ++ last :: rest /\ Forall (eq (Full ZX_OK false)) full /\
    match last with Written => False | Full wait terminate => wait <> ZX_OK \/ terminate = true | WriteFailed _ => True end.
Proof using Type.
  split.
  - induction answers as [|[|wait terminate|st] answers IH]; simpl; [done|done| |].
    + destruct (bool_decide_reflect (wait = ZX_OK)) as [->|Hw]; simpl.
      * destruct terminate; [intros _; eexists [], _, answers; split_and!; [done|constructor|by right]|].
        intros E. destruct (IH E) as (full & last & rest & -> & Hf & Hl). exists (Full ZX_OK false :: full), last, rest.
        split_and!; [done|by constructor|done].
      * intros _. eexists [], _, answers. split_and!; [done|constructor|by left].
    + intros _. eexists [], _, answers. by split_and!.
  - intros (full & last & rest & -> & Hf & Hl). induction Hf as [|a full <- _ IH]; [|done]. simpl.
    destruct last as [|wait terminate|]; [done| |done]. destruct (bool_decide_reflect (wait = ZX_OK)) as [->|]; [|done].
    destruct Hl as [?| ->]; done.
Qed.

Lemma delivered_or_given_up s : responses s ≡ₚ delivered s ++ given_up s.
Proof using Type.
  unfold responses, delivered, given_up. rewrite <- fmap_app. f_equiv. induction (fifo_ s) as [|[p b] l IH]; [done|].
  rewrite !filter_cons. simpl. destruct b; simpl; [by rewrite <- IH|]. rewrite <- Permutation_middle. by rewrite <- IH.
Qed.

(** C12. Every request is answered once. In every run over requests as [request_ok] describes them (of the widths of
    their fields, not so long that rounding the length up wraps around, and asking for a group's response only
    of a group up to [kNoGroup]), in which memory does not run out and every [SendResponse] returns: no event aborts
    the server; [pending_count_], for which the destructor waits, is the number of messages whose completion has not
    ended; and the requests of a group are counted, up to the width of the counter, by the responses sent for it and
    the one that is being made. Whenever nothing is left to do, each request that is answered on its own has been
    answered once, by a response that was delivered or that [SendResponse] had to give up, and no group still owes its
    response. *)
Theorem requests_answered i w :
  block_info_ok i -> block_reachable true i w ->
  (forall e, allowed true w e -> exists w', handle_event e w = Done w') /\
  pending_count_ (server w) = Z.of_nat (length (bp_ (server w))) + Z.of_nat (ending w) /\
  (forall g x, get_group (Fixed g) (server w) = Some x ->
     u32 (group_count g (server w) + count_ (response_ x)) = u32 (Z.of_nat (length (filter (in_group g) (received w))))) /\
  (idle w ->
     own_ids (received w) ≡ₚ own_response_ids (delivered (server w)) ++ own_response_ids (given_up (server w)) /\
     forall g x, get_group g (server w) = Some x -> pending_ x = false /\ op_count_ x = 0).
Proof using All.
  intros Hi Hr. pose proof (block_reachable_inv i w Hi Hr) as HR. pose proof HR as [HI Ht Hb Hp _ _ _]. split_and!; [|done|apply HI|].
  - intros e He. destruct (event_keeps w e HR He) as (w' & E & _). eauto.
  - intros (_ & Et & Eb). destruct HI as [_ Hg Hids _]. unfold units, ids in *. rewrite Et, Eb in *. simpl in Hids.
    assert (forall g x, get_group g (server w) = Some x -> pending_ x = false /\ op_count_ x = 0) as Hz.
    { intros g x Hx. destruct (Hg g x Hx) as (E & Hpd & _). simpl in E. split; [|done]. destruct (pending_ x); [|done]. specialize (Hpd eq_refl). lia. }
    split; [|done]. transitivity (answered (server w)).
    + rewrite Hids. unfold oneshot_ids. rewrite <- (app_nil_r (answered (server w))) at 2. f_equiv.
      assert (forall l, (forall x, x ∈ l -> pending_ x = false) -> concat ((fun x => if pending_ x then [reqid_ (response_ x)] else []) <$> l) = []) as ->; [|done|].
      * clear. induction l as [|x l IH]; intros Hl; [done|]. simpl. rewrite (Hl x) by set_solver. apply IH. set_solver.
      * intros x [k Hk]%list_elem_of_lookup. by apply (Hz (Oneshot k)).
    + unfold answered, own_response_ids. rewrite delivered_or_given_up, filter_app, fmap_app. done.
Qed.
End run.
