(* ===== verification/BlockServerSpec.v ===== *)
(** * BlockServerSpec: what the operations of the block server do

    A message group as one answer for many completions, the split of a request into messages, the ids of VMOs; an
    instance of the constants, with runs; and the requests that the server does not withstand. *)
From Stdlib Require Import ZArith Lia.
From stdpp Require Import prelude gmap.
From S2P Require Import Prelude BlockServer BlockServerRun.

Local Open Scope Z_scope.

(** ** Groups *)

(** The calls on a group, and the responses it sends. *)
Inductive GroupCall :=
  | CallExpect (response_count request_count : Z) (request_id : option Z)
  | CallComplete (status : zx_status).

Definition group_call (p : list FifoResponse * MessageGroup) (c : GroupCall) : list FifoResponse * MessageGroup :=
  match c with
  | CallExpect rc qc id => (p.1, (ExpectResponses rc qc id p.2).2)
  | CallComplete st => let '(r, g) := MessageGroup_Complete st p.2 in (p.1 ++ match r with Some r => [r] | None => [] end, g)
  end.

Definition run_group (l : list GroupCall) (g : MessageGroup) : list FifoResponse * MessageGroup := foldl group_call ([], g) l.

(** What a sequence of calls amounts to: completions still due, requests, the id to answer with, the first error. *)
Definition balance (l : list GroupCall) : Z := zsum (fun c => match c with CallExpect rc _ _ => rc | CallComplete _ => -1 end) l.
Definition request_total (l : list GroupCall) : Z := zsum (fun c => match c with CallExpect _ qc _ => qc | CallComplete _ => 0 end) l.
Definition final_id (l : list GroupCall) : option Z :=
  foldl (fun id c => match c with CallExpect _ _ (Some id) => Some id | _ => id end) None l.
Definition first_error (l : list GroupCall) : zx_status :=
  foldl (fun st c => match c with CallComplete st' => if bool_decide (st = ZX_OK) then st' else st | _ => st end) ZX_OK l.

(** A client that adds no request to a group once it has asked for its response, and a server that completes no
    more than is expected. *)
Record orderly (l : list GroupCall) : Prop := {
  or_balance p : p `prefix_of` l -> 0 <= balance p < 2 ^ 32;
  or_open p : p `prefix_of` l -> is_Some (final_id p) -> 0 < balance p;
  or_requests p : p `prefix_of` l -> 0 <= request_total p < 2 ^ 32;
  or_closed p rc qc id : p ++ [CallExpect rc qc id] `prefix_of` l -> is_Some (final_id p) -> qc = 0
}.

Lemma orderly_snoc l c : orderly (l ++ [c]) -> orderly l.
Proof.
  intros [H1 H2 H3 H4]. constructor.
  - intros p Hp. by apply H1, prefix_app_r.
  - intros p Hp. by apply H2, prefix_app_r.
  - intros p Hp. by apply H3, prefix_app_r.
  - intros p rc qc id Hp. apply (H4 p rc qc id). by apply prefix_app_r.
Qed.

Lemma group_calls i l :
  orderly l -> run_group l (new_group i) =
    ([], mkMessageGroup (bool_decide (is_Some (final_id l))) (mkFifoResponse (first_error l) (default 0 (final_id l)) i (request_total l)) (balance l)).
Proof.
  induction l as [|c l IH] using rev_ind; intros Ho; [done|]. pose proof (IH (orderly_snoc _ _ Ho)) as IH'. clear IH.
  destruct Ho as [H1 H2 H3 H4]. specialize (H1 _ (reflexivity _)). specialize (H2 _ (reflexivity _)). specialize (H3 _ (reflexivity _)).
  unfold run_group, final_id, first_error, balance, request_total in *. rewrite !foldl_app, !zsum_app in *. cbn [foldl zsum foldr] in *. rewrite IH'.
  set (f := foldl _ None l) in *. set (e := foldl _ ZX_OK l) in *. set (b := zsum (fun c => match c with CallExpect rc _ _ => rc | _ => _ end) l) in *.
  destruct c as [rc qc id|st]; unfold group_call; cbn [fst snd].
  - unfold ExpectResponses. cbn [response_ pending_ op_count_ status_ reqid_ group_ count_ snd].
    assert (bool_decide (is_Some f) && negb (qc =? 0) = false) as ->.
    { destruct (bool_decide_reflect (is_Some f)) as [Hf|]; [|done]. rewrite (H4 l rc qc id (reflexivity _) Hf). done. }
    rewrite !Z.add_0_r in *. rewrite !u32_small by (unfold is_u32; lia). destruct id; done.
  - unfold MessageGroup_Complete. cbn [response_ pending_ op_count_ status_ reqid_ group_ count_].
    rewrite (u32_small (b - 1)) by (unfold is_u32; lia).
    assert ((b - 1 =? 0) && bool_decide (is_Some f) = false) as ->.
    { destruct (bool_decide_reflect (is_Some f)) as [Hf|]; [|by rewrite andb_false_r]. specialize (H2 Hf). rewrite andb_true_r. lia. }
    rewrite !Z.add_0_r. replace (b + -1) with (b - 1) by lia. repeat f_equal.
    destruct (bool_decide_reflect (e = ZX_OK)), (bool_decide_reflect (st = ZX_OK)); subst; done.
Qed.

(** C29. A message group is one answer for many completions. After any orderly sequence of calls, the completion of the
    last message that is due makes the group send one response, its only one: with the id of the request that asked
    for it, the number of requests, and the first error among the completions, or ZX_OK. The group is then as new. *)
Theorem group_answer i id l st :
  orderly l -> final_id l = Some id -> balance (l ++ [CallComplete st]) = 0 ->
  run_group (l ++ [CallComplete st]) (new_group i) =
    ([mkFifoResponse (first_error (l ++ [CallComplete st])) id i (request_total l)], new_group i).
Proof.
  intros Ho Hf Hb. unfold run_group. rewrite foldl_app. fold (run_group l (new_group i)). rewrite (group_calls i l Ho), Hf.
  unfold balance in Hb. rewrite zsum_app in Hb. simpl in Hb. fold (balance l) in Hb. cbn [foldl group_call fst snd default].
  unfold MessageGroup_Complete. cbn [response_ pending_ op_count_ status_ reqid_ group_ count_]. rewrite bool_decide_true by eauto.
  replace (balance l - 1) with 0 by lia. simpl. unfold new_group, first_error. rewrite foldl_app. cbn [foldl]. do 4 f_equal.
  destruct (bool_decide_reflect (foldl (fun st c => match c with CallComplete st' => if bool_decide (st = ZX_OK) then st' else st | _ => st end) ZX_OK l = ZX_OK)) as [E|E].
  - rewrite E. by destruct (bool_decide_reflect (st = ZX_OK)) as [->|].
  - by rewrite andb_false_r.
Qed.

(** ** Requests *)

Section spec.
Context `{!BlockAbi} `{!BlockAbiOk}.
Implicit Types (s : Server) (r : FifoRequest).

(** An operation on behalf of [r]. *)
Definition op_for (i : BlockInfo) r vmo (op : BlockOp) : Prop :=
  exists l d v, op = RwOp (OpcodeToCommand (opcode r)) vmo l d v /\ 0 < l /\ (max_xfer i <> 0 -> l <= max_xfer i).

(** C30. A read or write that is accepted, of a length whose rounding up to a multiple of the largest transfer does not
    wrap around in 32 bits, becomes messages that move exactly its blocks, in order: block [k] of the
    range on the device to or from block [k] of the range in the VMO. No message moves nothing or more than the
    device can transfer at once; and if the offset in the VMO can be expressed in bytes, the range lies in it. *)
Theorem split_exact s r vmo_size acts s' :
  block_info_ok (info_ s) -> request_ok (info_ s) r -> ProcessReadWriteRequest r vmo_size s = Done (inr acts, s') ->
  exists vmo c ops, tree_ s !! vmoid r = Some vmo /\ last acts = Some (Messages r c ops) /\
    concat (moved <$> ops) = moved (RwOp (OpcodeToCommand (opcode r)) vmo (length_ r) (dev_offset r) (vmo_offset r)) /\
    Forall (op_for (info_ s) r vmo) ops /\
    (block_size (info_ s) * vmo_offset r < 2 ^ 64 -> (vmo_offset r + length_ r) * block_size (info_ s) <= vmo_size.2).
Proof using All.
  intros Hi Hr. unfold ProcessReadWriteRequest. destruct (tree_ s !! vmoid r) as [vmo|]; [|done].
  destruct (Z.eqb_spec (length_ r) 0) as [|Hl]; [done|]. pose proof (rq_length _ _ Hr) as Hl32. unfold is_u32 in Hl32.
  pose proof (rq_vmo_offset _ _ Hr) as Hv. unfold is_u64 in Hv. pose proof Hi as [Hb Ht].
  destruct (bool_decide_reflect (ValidateVmoHack vmo_size (u64 (block_size (info_ s) * length_ r)) (u64 (block_size (info_ s) * vmo_offset r)) = ZX_OK)) as [Hval|];
    cbn [negb]; [|done].
  assert (block_size (info_ s) * vmo_offset r < 2 ^ 64 -> (vmo_offset r + length_ r) * block_size (info_ s) <= vmo_size.2) as Hbytes.
  { intros Hlt. destruct vmo_size as [st n]. unfold ValidateVmoHack in Hval. destruct (bool_decide (st = ZX_OK)) eqn:Es; cbn [negb] in Hval; [|subst st; done].
    rewrite !u64_small in Hval by (unfold is_u64; nia). destruct (_ || _) eqn:Eo; [done|]. apply orb_false_iff in Eo. simpl. nia. }
  destruct (Z.eqb_spec (block_size (info_ s)) 0) as [|_]; [lia|]. fold (max_xfer (info_ s)).
  assert (forall c, exists vmo' c' ops', Some vmo = Some vmo' /\ last [Messages r c [RwOp (OpcodeToCommand (opcode r)) vmo (length_ r) (dev_offset r) (vmo_offset r)]] = Some (Messages r c' ops') /\
    concat (moved <$> ops') = moved (RwOp (OpcodeToCommand (opcode r)) vmo' (length_ r) (dev_offset r) (vmo_offset r)) /\
    ((max_xfer (info_ s) <> 0 -> length_ r <= max_xfer (info_ s)) -> Forall (op_for (info_ s) r vmo') ops')) as Hone.
  { intros c. exists vmo, c, [RwOp (OpcodeToCommand (opcode r)) vmo (length_ r) (dev_offset r) (vmo_offset r)]. split_and!; [done|done| |].
    - simpl. by rewrite app_nil_r.
    - intros Hx. apply Forall_singleton. eexists _, _, _. split_and!; [done|lia|done]. }
  destruct (Z.eqb_spec (max_xfer (info_ s)) 0) as [Em|Em]; cbn [negb andb].
  { intros [= <- _]. destruct (Hone (CompleteTransaction (reqid r) (group r))) as (v & c & ops & ? & ? & ? & Hf). exists v, c, ops. split_and!; try done. by apply Hf. }
  destruct (Z.ltb_spec (max_xfer (info_ s)) (length_ r)) as [Hlt|Hge].
  2:{ intros [= <- _]. destruct (Hone (CompleteTransaction (reqid r) (group r))) as (v & c & ops & ? & ? & ? & Hf). exists v, c, ops. split_and!; try done. by apply Hf. }
  destruct (sub_txns_spec s r Hi Hr Em Hlt) as [Hn Hn2]. set (n := round_up32 (length_ r) (max_xfer (info_ s)) / max_xfer (info_ s)) in *.
  destruct (split_ops_spec (Z.to_nat n) (OpcodeToCommand (opcode r)) vmo (max_xfer (info_ s)) (length_ r) (dev_offset r) (vmo_offset r)) as (E1 & _ & E3);
    [nia|lia|apply Hr..|]. set (ops := split_ops _ _ _ _ _ _ _) in *.
  assert (Forall (op_for (info_ s) r vmo) ops) as Hops.
  { eapply Forall_impl; [exact E3|]. intros op (l & d & v & -> & ?). eexists _, _, _. split_and!; [done|lia|lia]. }
  destruct (group r =? kNoGroup).
  - destruct (ExpectResponses n 1 (Some (reqid r)) (new_group kNoGroup)) as [st g]. case_match; [done|]. intros [= <- _]. eexists _, _, ops. split_and!; done.
  - intros [= <- _]. eexists _, _, ops. split_and!; done.
Qed.

(** The ids that can be given out. *)
Definition last_id_ok s : Prop := BLOCK_VMOID_INVALID < last_id_ s <= kMaxVmoId.

(** [AttachVmo] gives the VMO an id that is valid and not in use, and keeps all others; it fails for want of ids only when
    all of them are in use. *)
Theorem attach_exact s vmo :
  last_id_ok s ->
  (exists id, AttachVmo true vmo s = (ZX_OK, Some id, set_tree (<[id := vmo]> (tree_ s)) (id + 1) s) /\
     BLOCK_VMOID_INVALID < id < kMaxVmoId /\ tree_ s !! id = None /\ last_id_ok (AttachVmo true vmo s).2) \/
  AttachVmo true vmo s = (ZX_ERR_NO_RESOURCES, None, s) /\ forall id, BLOCK_VMOID_INVALID < id < kMaxVmoId -> is_Some (tree_ s !! id).
Proof using Type.
  intros [Hl Hm]. unfold AttachVmo, FindVmoIdLocked.
  destruct (find_free (tree_ s) (last_id_ s) _) as [j|] eqn:E1.
  { left. exists j. apply find_free_Some in E1 as [Hj Hn]. unfold last_id_ok. simpl. split_and!; done || lia. }
  pose proof (find_free_None _ _ _ E1) as H1. destruct (find_free (tree_ s) (BLOCK_VMOID_INVALID + 1) _) as [j|] eqn:E2.
  { left. exists j. apply find_free_Some in E2 as [Hj Hn]. unfold last_id_ok. simpl. split_and!; done || lia. }
  right. split; [done|]. intros j Hj. destruct (decide (last_id_ s <= j)); [apply H1; lia|].
  apply (find_free_None _ _ _ E2). lia.
Qed.
End spec.

(** ** Runs of events *)

Section events.
Context `{!BlockAbi}.

Definition request_ok_b (i : BlockInfo) (r : FifoRequest) : bool :=
  (0 <=? group r) && (group r <? 2 ^ 16) && (0 <=? length_ r) && (length_ r <? 2 ^ 32) && (0 <=? dev_offset r) && (dev_offset r <? 2 ^ 64) &&
  (0 <=? vmo_offset r) && (vmo_offset r <? 2 ^ 64) && ((max_xfer i =? 0) || (length_ r + max_xfer i - 1 <? 2 ^ 32)) &&
  (negb (use_group r && wants_reply r) || (group r <=? kNoGroup)).

Lemma request_ok_b_ok i r : request_ok_b i r = true -> request_ok i r.
Proof.
  unfold request_ok_b. rewrite !andb_true_iff, !orb_true_iff. intros Hb.
  constructor; unfold is_u32, is_u64; try lia. intros E1 E2. rewrite E1, E2 in Hb. destruct Hb as [_ [?|?]]; [done|lia].
Qed.

Definition allowed_b (mem : bool) (w : Run) (e : Event) : bool :=
  match e with
  | ERead l => match batch w, todo w with [], [] => forallb (request_ok_b (info_ (server w))) l | _, _ => false end
  | EServe => match todo w, batch w with [], _ :: _ => true | _, _ => false end
  | EAction ans =>
      match todo w with [] => false | _ => (negb mem || ans_alloc ans) && bool_decide (is_Some (SendResponse (ans_fifo ans))) end
  | EComplete k _ answers => (k <? length (bp_ (server w)))%nat && bool_decide (is_Some (SendResponse answers))
  | EEnd => negb (ending w =? 0)%nat
  | EAttach _ _ => true
  end.

Lemma event_allowed_ok mem w e : allowed_b mem w e = true -> allowed mem w e.
Proof.
  destruct e as [l| |ans|k st fa| |alloc vmo]; cbn [allowed_b allowed].
  - destruct (batch w), (todo w); try done. intros Hl. split_and!; [done..|]. apply Forall_forall. intros r Hr.
    apply request_ok_b_ok. rewrite forallb_forall in Hl. apply Hl. by apply list_elem_of_In.
  - by destruct (todo w), (batch w).
  - destruct (todo w); [done|]. intros [[E| ->]%orb_true_iff Hf%bool_decide_eq_true]%andb_true_iff; split_and!; try done. by intros ->.
  - intros [Hk%Nat.ltb_lt Hf%bool_decide_eq_true]%andb_true_iff. done.
  - destruct (Nat.eqb_spec (ending w) 0); done.
  - done.
Qed.

Fixpoint run_block (mem : bool) (l : list Event) (w : Run) : option Run :=
  match l with
  | [] => Some w
  | e :: l =>
      if allowed_b mem w e then
        match handle_event e w with Done w' => if message_count w' <? 2 ^ 32 then run_block mem l w' else None | Panic => None end
      else None
  end.

Lemma run_block_steps mem l w w' : run_block mem l w = Some w' -> rtc (block_step mem) w w'.
Proof.
  revert w. induction l as [|e l IH]; intros w E; cbn [run_block] in E; [by injection E as ->|].
  destruct (allowed_b mem w e) eqn:Ea; [|done]. destruct (handle_event e w) as [w1|] eqn:Eh; [|done].
  destruct (Z.ltb_spec (message_count w1) (2 ^ 32)); [|done]. eapply rtc_l; [|by apply IH]. exists e. split_and!; [by apply event_allowed_ok|done|done].
Qed.
End events.

Module BlockExample.

#[local] Instance example_abi : BlockAbi := {|
  BLOCK_OP_READ := 1; BLOCK_OP_WRITE := 2; BLOCK_OP_FLUSH := 3; BLOCK_OP_TRIM := 4; BLOCK_OP_CLOSE_VMO := 5; BLOCK_OP_MASK := 255;
  BLOCK_GROUP_ITEM := 256; BLOCK_GROUP_LAST := 512; MAX_TXN_GROUP_COUNT := 8; BLOCK_VMOID_INVALID := 0;
  round_up32 := fun a g => u32 (a + g - 1) / g * g
|}.

#[local] Instance example_abi_ok : BlockAbiOk.
Proof.
  constructor; [done|done|]. intros a g Hg Ha Hs. simpl. rewrite u32_small by (unfold is_u32; lia). rewrite (Z.mod_eq (a + g - 1) g) by lia. lia.
Qed.

(** Blocks of 512 bytes, of which the device transfers two at once. *)
Definition info : BlockInfo := mkBlockInfo 512 1024.
Definition fine : Answer := mkAnswer (ZX_OK, 2 ^ 20) true [Written].

(** A read of five blocks, and a flush that ends group 3; the messages complete in another order. *)
Definition read_five : FifoRequest := mkFifoRequest 1 41 0 1 5 7 100.
Definition flush_last : FifoRequest := mkFifoRequest (3 + 256 + 512) 42 3 0 0 0 0.
Definition two_requests : list Event :=
  [EAttach true 77; ERead [read_five; flush_last]; EServe; EAction fine; EAction fine; EAction fine; EAction fine; EAction fine;
   EServe; EAction fine; EAction fine; EAction fine; EComplete 3 ZX_OK [Full ZX_OK false; Written];
   EComplete 1 ZX_OK [Written]; EComplete 0 ZX_ERR_IO [Written]; EEnd; EComplete 0 ZX_OK [Written]].

Definition after (mem : bool) (l : list Event) : Run := default (block_start info) (run_block mem l (block_start info)).

Lemma block_reach_after mem l : (if run_block mem l (block_start info) is Some _ then true else false) = true -> block_reachable mem info (after mem l).
Proof. unfold after. destruct (run_block mem l _) as [w|] eqn:E; [|done]. intros _. by eapply run_block_steps. Qed.

Lemma two_requests_answered :
  fifo_ (server (after true two_requests)) = [(mkFifoResponse ZX_OK 42 3 1, true); (mkFifoResponse ZX_ERR_IO 41 8 1, true)].
Proof. vm_compute. reflexivity. Qed.

Lemma requests_answered_witness :
  own_ids (received (after true two_requests)) ≡ₚ own_response_ids (delivered (server (after true two_requests))) ++
    own_response_ids (given_up (server (after true two_requests))) /\
  own_ids (received (after true two_requests)) = [41].
Proof.
  split; [|vm_compute; reflexivity]. destruct (requests_answered info (after true two_requests)) as (_ & _ & _ & Hid).
  - vm_compute. repeat split; discriminate.
  - apply block_reach_after. vm_compute. reflexivity.
  - apply Hid. vm_compute. repeat split.
Defined.

(** A group of two requests, the first of two messages. *)
Definition calls : list GroupCall := [CallExpect 1 1 None; CallExpect 1 0 None; CallComplete ZX_ERR_IO; CallExpect 1 1 (Some 9); CallComplete ZX_ERR_TIMED_OUT].

Lemma calls_prefix p : p `prefix_of` calls -> exists n, (n <= 5)%nat /\ p = take n calls.
Proof.
  intros [q E]. exists (length p). split.
  - pose proof (f_equal length E) as El. rewrite length_app in El. simpl in El. lia.
  - by rewrite E, take_app_length.
Qed.

Ltac each_prefix n := destruct n as [|[|[|[|[|[|n]]]]]]; [..|lia].

Lemma calls_orderly : orderly calls.
Proof.
  constructor.
  - intros p (n & Hn & ->)%calls_prefix. each_prefix n; vm_compute; repeat split; discriminate.
  - intros p (n & Hn & ->)%calls_prefix. each_prefix n; vm_compute; try done; intros [? ?]; discriminate.
  - intros p (n & Hn & ->)%calls_prefix. each_prefix n; vm_compute; repeat split; discriminate.
  - intros p rc qc id Hp Hf. pose proof Hp as (n & Hn & E)%calls_prefix. exfalso.
    assert (p = take (length p) calls) as Ep by (destruct Hp as [q ->]; by rewrite <- app_assoc, take_app_length).
    pose proof (f_equal length E) as El. rewrite length_app, length_take in El. simpl in El.
    assert (length p <= 4)%nat as Hl by lia. rewrite Ep in Hf, E. revert Hf E. generalize (length p) Hl. clear - Hn. intros m Hm Hf E.
    destruct m as [|[|[|[|[|m]]]]]; [..|lia]; try (vm_compute in Hf; destruct Hf; discriminate).
    each_prefix n; simpl in E; simplify_eq.
Qed.

Lemma group_answer_witness : run_group (calls ++ [CallComplete ZX_OK]) (new_group 5) = ([mkFifoResponse ZX_ERR_IO 9 5 2], new_group 5).
Proof. exact (group_answer 5 9 calls ZX_OK calls_orderly eq_refl eq_refl). Defined.

Definition attached : Server := server (after true [EAttach true 77]).

Definition served : FifoRequest := with_group kNoGroup read_five.

Lemma split_exact_witness : exists vmo c ops, tree_ attached !! 1 = Some vmo /\
  last [Messages served (CompleteGroup (Oneshot 0)) (split_ops 3 1 77 2 5 100 7)] = Some (Messages served c ops) /\
  concat (moved <$> ops) = moved (RwOp 1 vmo 5 100 7).
Proof.
  destruct (split_exact attached served (ZX_OK, 2 ^ 20) [Messages served (CompleteGroup (Oneshot 0)) (split_ops 3 1 77 2 5 100 7)]
    (set_groups (groups_ attached) [(ExpectResponses 3 1 (Some 41) (new_group 8)).2] attached)) as (vmo & c & ops & H1 & H2 & H3 & _).
  - vm_compute. repeat split; discriminate.
  - apply request_ok_b_ok. vm_compute. reflexivity.
  - vm_compute. reflexivity.
  - exists vmo, c, ops. split; [exact H1|]. split; [exact H2|exact H3].
Defined.

Lemma attach_exact_witness : exists id, AttachVmo true 78 attached = (ZX_OK, Some id, set_tree (<[id := 78]> (tree_ attached)) (id + 1) attached).
Proof.
  destruct (attach_exact attached 78) as [(id & E & _)|[E _]].
  - vm_compute. split; [reflexivity|discriminate].
  - exists id. exact E.
  - vm_compute in E. discriminate.
Defined.

(** ** Requests that are not withstood *)

(** The last request of group 9, of which there is none. *)
Definition wrong_group : FifoRequest := mkFifoRequest (3 + 256 + 512) 43 9 0 0 0 0.

(** A write from block [2^55] of a VMO of 4096 bytes. *)
Definition far_write : FifoRequest := mkFifoRequest 2 44 8 1 1 (2 ^ 55) 0.

(** Memory runs out at the second message of a request that is the last of group 0. *)
Definition read_group : FifoRequest := mkFifoRequest (1 + 256 + 512) 45 0 1 5 0 0.
Definition out_of_memory : list Event :=
  [EAttach true 77; ERead [read_group]; EServe; EAction fine; EAction fine; EAction fine; EAction (mkAnswer (ZX_OK, 2 ^ 20) false [Written]); EAction fine;
   EComplete 0 ZX_OK [Written]; EEnd].

(** A read of 2^32 - 1 blocks. *)
Definition whole_read : FifoRequest := mkFifoRequest 1 46 8 1 (2 ^ 32 - 1) 0 0.

(** Where [fbl::round_up] wraps around, a request too long for one transfer is split into no message at all: the group
    made for it has nothing to wait for, and the request is never answered. *)
Lemma split_length_wraps :
  exists s', ProcessReadWriteRequest whole_read (ZX_OK, 2 ^ 42) attached =
    Done (inr [Messages whole_read (CompleteGroup (Oneshot 0)) []], s') /\
    oneshot_groups s' = [mkMessageGroup true (mkFifoResponse ZX_OK 46 8 1) 0].
Proof. eexists. split; vm_compute; reflexivity. Qed.

(** Three requests that the server does not withstand. If the last request of a group names a group beyond the first
    that does not exist, then the answer to it reads past the end of the array of groups. A request whose offset in
    the VMO wraps around when it is expressed in bytes is passed on, although it lies outside the VMO. And if memory
    runs out while a request of a group is split, then the group, and every later request of it, is never
    answered. *)
Theorem block_server_faults :
  (forall s r ans, Z.of_nat (length (groups_ s)) = MAX_TXN_GROUP_COUNT -> use_group r = true -> wants_reply r = true ->
     (kNoGroup < group r -> exists a, Serve r s = Done ([a], s) /\ run_action a ans s = Panic)) /\
  ProcessReadWriteRequest far_write (ZX_OK, 4096) attached =
    Done (inr [Messages far_write (CompleteTransaction 44 8) [RwOp 2 77 1 0 (2 ^ 55)]], attached) /\
  (let w := after false out_of_memory in block_reachable false info w /\ idle w /\ ending w = 0%nat /\
     exists x, get_group (Fixed 0) (server w) = Some x /\ pending_ x = true /\ op_count_ x = 1 /\ fifo_ (server w) = []).
Proof.
  split; [|split].
  - intros s r ans Hl Hu Hw Hg. exists (Finish ZX_ERR_IO (reqid r) (group r)). unfold Serve. rewrite Hu, Hw.
    destruct (Z.leb_spec MAX_TXN_GROUP_COUNT (group r)) as [_|]; [|unfold kNoGroup in Hg; lia]. split; [done|].
    simpl. unfold FinishTransaction. destruct (Z.eqb_spec (group r) kNoGroup); [lia|]. cbn [negb]. unfold complete_group. simpl.
    assert (kNoGroup = 8) as E8 by done. destruct (Z.ltb_spec (group r) 0); [lia|]. rewrite lookup_ge_None_2; [done|]. simpl in Hl. lia.
  - vm_compute. reflexivity.
  - split; [apply block_reach_after; vm_compute; reflexivity|]. split; [vm_compute; repeat split|]. split; [vm_compute; reflexivity|].
    eexists. vm_compute. repeat split.
Qed.
End BlockExample.
