(* ===== verification/BlockCore.v ===== *)
(** * BlockCore: the block device and the manager of its server

    Model of [src/devices/block/drivers/core/block-device.cc], as far as it moves data ([DoIo], which splits a blocking
    read or write in bytes into operations, and the checks of [Bind]), and of [manager.cc], which starts, joins and
    closes the thread of the block server. *)
From Stdlib Require Import ZArith Lia.
From stdpp Require Import prelude gmap.
From S2P Require Import Prelude BlockServer BlockServerRun.

Local Open Scope Z_scope.

(** ** [BlockDevice] *)

(** [block_size & (block_size - 1)] is zero for powers of two. *)
Definition BlockDevice_Bind (i : BlockInfo) : zx_status :=
  if max_transfer_size i <? block_size i then ZX_ERR_NOT_SUPPORTED
  else if (block_size i <? 512) || negb (Z.land (block_size i) (block_size i - 1) =? 0) then ZX_ERR_NOT_SUPPORTED
  else ZX_OK.

Definition kMaxMidlayerIO : Z := 8192.

Section io.
Context (i : BlockInfo) (command vmo : Z) (buf_len off vmo_off : Z).

(** [max_xfer] of [DoIo], in bytes. *)
Definition io_max_xfer : Z := Z.min (max_transfer_size i) kMaxMidlayerIO.

Definition io_op (sub_txn_offset sub_txn_length : Z) : BlockOp :=
  RwOp command vmo (u32 (sub_txn_length / block_size i)) (u64 (off + sub_txn_offset) / block_size i) (u64 (vmo_off + sub_txn_offset) / block_size i).

(** The loop of [DoIo]; [answers] are the statuses the operations complete with, [io_status] the last one. The result
    lists the operations queued. *)
Fixpoint do_io (fuel : nat) (answers : nat -> zx_status) (k : nat) (sub_txn_offset : Z) (io_status : zx_status) : exec (zx_status * list BlockOp) :=
  if sub_txn_offset <? buf_len then
    match fuel with
    | O => Panic
    | S fuel =>
        let sub_txn_length := Z.min (buf_len - sub_txn_offset) io_max_xfer in
        let op := io_op sub_txn_offset sub_txn_length in
        if negb (bool_decide (answers k = ZX_OK)) then Done (answers k, [op])
        else
          '(st, ops) ← do_io fuel answers (S k) (sub_txn_offset + sub_txn_length) (answers k);
          Done (st, op :: ops)
    end
  else Done (io_status, []).

Definition DoIo (answers : nat -> zx_status) : exec (zx_status * list BlockOp) :=
  if buf_len =? 0 then Done (ZX_OK, [])
  else if negb (buf_len mod block_size i =? 0) || negb (off mod block_size i =? 0) then Done (ZX_ERR_INVALID_ARGS, [])
  else do_io (S (Z.to_nat (buf_len / io_max_xfer))) answers 0 0 ZX_OK.

(** A transfer that can be split at blocks, and whose offsets do not wrap around. *)
Record io_ok : Prop := {
  io_block : 0 < block_size i;
  io_max : 0 < io_max_xfer /\ io_max_xfer mod block_size i = 0;
  io_len : 0 < buf_len /\ buf_len mod block_size i = 0;
  io_off : 0 <= off /\ off mod block_size i = 0 /\ off + buf_len < 2 ^ 64;
  io_vmo_off : 0 <= vmo_off /\ vmo_off mod block_size i = 0 /\ vmo_off + buf_len < 2 ^ 64
}.

Context (Hok : io_ok).

(** The blocks from [n] bytes on. *)
Definition io_blocks (n len : Z) : list (Z * Z) := moved (RwOp command vmo (len / block_size i) ((off + n) / block_size i) ((vmo_off + n) / block_size i)).

Lemma io_op_moved n len :
  0 <= n -> 0 <= len <= io_max_xfer -> n + len <= buf_len -> moved (io_op n len) = io_blocks n len.
Proof using Hok.
  destruct Hok as [Hb [Hm _] [Hl _] (Ho & _ & Ho2) (Hv & _ & Hv2)]. intros Hn Hlen Hle. unfold io_op, io_blocks. unfold io_max_xfer, kMaxMidlayerIO in *.
  rewrite !(u64_small (_ + _)) by (unfold is_u64; lia). rewrite u32_small; [done|]. unfold is_u32. split; [apply Z.div_pos; lia|].
  apply Z.div_lt_upper_bound; [lia|]. nia.
Qed.

Lemma io_blocks_app n (a b : Z) :
  n mod block_size i = 0 -> a mod block_size i = 0 -> 0 <= n -> 0 <= a -> 0 <= b -> n + a + b <= buf_len ->
  io_blocks n (a + b) = io_blocks n a ++ io_blocks (n + a) b.
Proof using Hok.
  destruct Hok as [Hb _ _ (Ho & Ho1 & Ho2) (Hv & Hv1 & Hv2)]. intros Hn Ha Hn0 Ha0 Hb0 Hle. unfold io_blocks. set (bs := block_size i) in *.
  apply Z.mod_divide in Hn as [n' ->]; [|lia]. apply Z.mod_divide in Ha as [a' ->]; [|lia]. apply Z.mod_divide in Ho1 as [o' Eo]; [|lia].
  apply Z.mod_divide in Hv1 as [v' Ev]; [|lia]. rewrite Eo, Ev.
  rewrite !(Z.add_comm (a' * bs) b), (Z.div_add b) by lia. rewrite <- !Z.mul_add_distr_r. rewrite <- ?Z.add_assoc, <- ?Z.mul_add_distr_r, !Z.div_mul by lia.
  rewrite Z.add_comm. rewrite moved_app; [|nia|by apply Z.div_pos; lia]. f_equal. f_equal. f_equal.
  - rewrite u64_small; [lia|]. unfold is_u64. nia.
  - rewrite u64_small; [lia|]. unfold is_u64. nia.
Qed.

(** The loop from [n] bytes on, when every operation succeeds. *)
Lemma do_io_all fuel answers k n st :
  (forall j, answers j = ZX_OK) -> 0 <= n <= buf_len -> n mod block_size i = 0 -> buf_len - n <= (Z.of_nat fuel) * io_max_xfer ->
  (n = buf_len -> st = ZX_OK) ->
  exists ops, do_io fuel answers k n st = Done (ZX_OK, ops) /\ concat (moved <$> ops) = io_blocks n (buf_len - n) /\ Forall (fun op => 0 < op_length op) ops.
Proof using Hok.
  intros Ha. revert k n st. pose proof Hok as [Hb [Hm Hm0] [Hl Hl0] _ _].
  induction fuel as [|fuel IH]; intros k n st Hn Hn0 Hf Hst; cbn [do_io]; destruct (Z.ltb_spec n buf_len) as [Hlt|Hge].
  - lia.
  - assert (n = buf_len) as -> by lia. rewrite Hst by done. exists []. split_and!; [done| |done]. rewrite Z.sub_diag. unfold io_blocks. by rewrite Z.div_0_l by lia.
  - rewrite bool_decide_true by done. cbn [negb]. set (len := Z.min (buf_len - n) io_max_xfer).
    assert (len mod block_size i = 0) as Hlen0.
    { unfold len. destruct (Z.min_spec (buf_len - n) io_max_xfer) as [[_ ->]|[_ ->]]; [|done]. by rewrite Zminus_mod, Hl0, Hn0. }
    assert (0 < len <= io_max_xfer /\ n + len <= buf_len) as [Hlen Hle] by lia.
    destruct (IH (S k) (n + len) (answers k)) as (ops & -> & Hops & Hpos); [lia| |nia|done|].
    { by rewrite Zplus_mod, Hn0, Hlen0. }
    eexists. split; [done|]. split.
    + cbn [fmap list_fmap concat]. rewrite Hops, io_op_moved by lia. rewrite <- io_blocks_app by lia. f_equal. lia.
    + constructor; [|done]. simpl. unfold io_max_xfer, kMaxMidlayerIO in *. apply Z.mod_divide in Hlen0 as [q Eq]; [|lia]. rewrite Eq, Z.div_mul by lia.
      rewrite u32_small; [nia|]. unfold is_u32. nia.
  - assert (n = buf_len) as -> by lia. rewrite Hst by done. exists []. split_and!; [done| |done]. rewrite Z.sub_diag. unfold io_blocks. by rewrite Z.div_0_l by lia.
Qed.

(** The loop returns, with the status of the first operation that fails. *)
Lemma do_io_returns fuel answers k n st :
  0 <= n <= buf_len -> buf_len - n <= (Z.of_nat fuel) * io_max_xfer -> st = ZX_OK ->
  exists st' ops, do_io fuel answers k n st = Done (st', ops) /\
    (st' = ZX_OK /\ (forall j, (j < length ops)%nat -> answers (k + j)%nat = ZX_OK) \/
     st' <> ZX_OK /\ exists j, S j = length ops /\ answers (k + j)%nat = st' /\ forall j', (j' < j)%nat -> answers (k + j')%nat = ZX_OK).
Proof using Hok.
  revert k n st. pose proof Hok as [Hb [Hm Hm0] _ _ _].
  induction fuel as [|fuel IH]; intros k n st Hn Hf ->; cbn [do_io]; destruct (Z.ltb_spec n buf_len) as [Hlt|Hge].
  - lia.
  - eexists _, []. split; [done|]. left. split; [done|]. simpl. lia.
  - destruct (bool_decide_reflect (answers k = ZX_OK)) as [Ek|Ek]; cbn [negb].
    + set (len := Z.min (buf_len - n) io_max_xfer). destruct (IH (S k) (n + len) (answers k)) as (st' & ops & -> & Hcase); [lia|nia|done|].
      eexists _, _. split; [done|]. destruct Hcase as [[-> Hj]|(Hne & j & Ej & Es & Hj)].
      * left. split; [done|]. intros [|j] Hlt'; [by rewrite Nat.add_0_r|]. rewrite <- Nat.add_succ_comm. apply Hj. simpl in Hlt'. lia.
      * right. split; [done|]. exists (S j). split_and!; [by rewrite Ej|by rewrite <- Nat.add_succ_comm|].
        intros [|j'] Hlt'; [by rewrite Nat.add_0_r|]. rewrite <- Nat.add_succ_comm. apply Hj. lia.
    + eexists _, _. split; [done|]. right. split; [done|]. exists 0%nat. split_and!; [done|by rewrite Nat.add_0_r|lia].
  - eexists _, []. split; [done|]. left. split; [done|]. simpl. lia.
Qed.
End io.

(** The status of the first operation that fails, or ZX_OK; no operation is queued after it. *)
Definition first_failure (answers : nat -> zx_status) (st : zx_status) (n : nat) : Prop :=
  st = ZX_OK /\ (forall j, (j < n)%nat -> answers j = ZX_OK) \/
  st <> ZX_OK /\ exists j, S j = n /\ answers j = st /\ forall j', (j' < j)%nat -> answers j' = ZX_OK.

(** C31. A blocking transfer moves what was asked for. If the device transfers whole blocks at once, and the length and the
    offsets are whole blocks, then [DoIo] returns the status of the first operation that fails, after which it queues
    no other; and if none fails, its operations, none of them empty, move exactly the blocks of the transfer, in order. *)
Theorem do_io_exact i command vmo buf_len off vmo_off answers :
  io_ok i buf_len off vmo_off ->
  exists st ops, DoIo i command vmo buf_len off vmo_off answers = Done (st, ops) /\ first_failure answers st (length ops) /\
    ((forall j, answers j = ZX_OK) -> st = ZX_OK /\ Forall (fun op => 0 < op_length op) ops /\
       concat (moved <$> ops) = moved (RwOp command vmo (buf_len / block_size i) (off / block_size i) (vmo_off / block_size i))).
Proof.
  intros Hok. pose proof Hok as [Hb [Hm Hm0] [Hl Hl0] (_ & Ho & _) _]. unfold DoIo. rewrite Hl0, Ho. destruct (Z.eqb_spec buf_len 0); [lia|]. cbn [negb orb Z.eqb].
  set (fuel := S (Z.to_nat (buf_len / io_max_xfer i))).
  assert (buf_len - 0 <= Z.of_nat fuel * io_max_xfer i) as Hf.
  { unfold fuel. rewrite Nat2Z.inj_succ, Z2Nat.id by (apply Z.div_pos; lia). pose proof (Z.div_mod buf_len (io_max_xfer i) ltac:(lia)).
    pose proof (Z.mod_pos_bound buf_len (io_max_xfer i) ltac:(lia)). nia. }
  destruct (do_io_returns i command vmo buf_len off vmo_off Hok fuel answers 0 0 ZX_OK) as (st & ops & E & Hcase); [lia|done|done|].
  exists st, ops. split; [done|]. split; [exact Hcase|]. intros Ha.
  destruct (do_io_all i command vmo buf_len off vmo_off Hok fuel answers 0 0 ZX_OK Ha) as (ops' & E' & Hops & Hpos); [lia|done|done|done|].
  rewrite E in E'. injection E' as -> ->. split_and!; [done|done|]. rewrite Hops. unfold io_blocks. by rewrite Z.sub_0_r, !Z.add_0_r.
Qed.

(** What [Bind] lets pass has blocks of a power of two of bytes; if they are not larger than [kMaxMidlayerIO], and the
    device transfers whole blocks at once, transfers can be split at blocks. *)
Lemma power_of_two n : 0 < n -> Z.land n (n - 1) = 0 -> n = 2 ^ Z.log2 n.
Proof.
  intros Hn Hl. destruct (Z.log2_spec n Hn) as [H1 H2]. destruct (decide (n = 2 ^ Z.log2 n)) as [|Hne]; [done|]. exfalso.
  assert (Z.log2 (n - 1) = Z.log2 n) as E by (apply Z.log2_unique; [apply Z.log2_nonneg|lia]).
  pose proof (Z.land_spec n (n - 1) (Z.log2 n)) as Hs. rewrite Hl, Z.bits_0, Z.bit_log2 in Hs by done.
  rewrite <- E, Z.bit_log2 in Hs; [done|]. pose proof (Z.log2_nonneg n). assert (1 <= 2 ^ Z.log2 n) by (pose proof (Z.pow_pos_nonneg 2 (Z.log2 n)); lia). lia.
Qed.

Lemma bind_splits i :
  BlockDevice_Bind i = ZX_OK -> block_size i <= kMaxMidlayerIO -> max_transfer_size i mod block_size i = 0 ->
  0 < io_max_xfer i /\ io_max_xfer i mod block_size i = 0.
Proof.
  unfold BlockDevice_Bind, io_max_xfer. intros Hb Hle Hm. destruct (Z.ltb_spec (max_transfer_size i) (block_size i)); [done|].
  destruct (_ || _) eqn:E; [done|]. apply orb_false_iff in E as [E1 E2]. apply negb_false_iff, Z.eqb_eq in E2. apply Z.ltb_ge in E1.
  split; [unfold kMaxMidlayerIO; lia|]. destruct (Z.min_spec (max_transfer_size i) kMaxMidlayerIO) as [[_ ->]|[_ ->]]; [done|].
  pose proof (power_of_two (block_size i) ltac:(lia) E2) as Ep. rewrite Ep in *. set (k := Z.log2 (block_size i)) in *. unfold kMaxMidlayerIO in *.
  assert (0 <= k <= 13) as Hk.
  { split; [apply Z.log2_nonneg|]. apply (Z.pow_le_mono_r_iff 2); [lia..|]. done. }
  replace 8192 with (2 ^ (13 - k) * 2 ^ k); [apply Z.mod_mul; lia|]. rewrite <- Z.pow_add_r by lia. by replace (13 - k + k) with 13 by lia.
Qed.

(** ** [Manager] *)

Inductive ThreadState := None_ | Running | Joinable.

#[global] Instance ThreadState_eq_dec : EqDecision ThreadState.
Proof. solve_decision. Defined.

(** The thread of [RunServer]: in [Serve]; out of it; about to return, the state being [Joinable]; returned. *)
Inductive ServerThread := InServe | LeftServe | Returning | Returned.

#[global] Instance ServerThread_eq_dec : EqDecision ServerThread.
Proof. solve_decision. Defined.

(** [thread_]: the thread that has not been joined. [peer_closed], [terminate]: the signals of the FIFO of the server;
    [outstanding]: its [pending_count_]. *)
Record Manager := mkManager {
  state_ : ThreadState;
  server_ : bool;
  thread_ : option ServerThread;
  peer_closed : bool;
  terminate : bool;
  outstanding : Z
}.

Definition new_manager : Manager := mkManager None_ false None false false 0.

Definition SetState (x : ThreadState) (m : Manager) : Manager :=
  mkManager x (server_ m) (thread_ m) (peer_closed m) (terminate m) (outstanding m).
Definition set_server (x : bool) (m : Manager) : Manager :=
  mkManager (state_ m) x (thread_ m) (peer_closed m) (terminate m) (outstanding m).
Definition set_thread (x : option ServerThread) (m : Manager) : Manager :=
  mkManager (state_ m) (server_ m) x (peer_closed m) (terminate m) (outstanding m).

(** What a call of a client still has to do, one entry for each thing another thread can see: wait for the state to
    be [Joinable]; join the thread; set the state; destroy the server; make one; make the thread; tell the
    server to shut down. *)
Inductive CallStep :=
  | AwaitJoinable
  | JoinThread
  | SetNone
  | ResetServer
  | CreateServer
  | SetRunning
  | CreateThread
  | ShutdownServer.

Definition FreeServer : list CallStep := [SetNone; ResetServer].
Definition JoinServer : list CallStep := JoinThread :: FreeServer.

(** [IsFifoServerRunning], under the lock: [true], or what is to be done before it returns [false]. *)
Definition IsFifoServerRunning (m : Manager) : bool + list CallStep :=
  match state_ m with
  | Running => if negb (peer_closed m) then inl true else inr (AwaitJoinable :: JoinServer)
  | Joinable => inr JoinServer
  | None_ => inl false
  end.

Definition StartServer (m : Manager) : zx_status + list CallStep :=
  match IsFifoServerRunning m with
  | inl true => inl ZX_ERR_ALREADY_BOUND
  | inl false => inr [CreateServer]
  | inr l => inr (l ++ [CreateServer])
  end.

Definition CloseFifoServer (m : Manager) : list CallStep :=
  match state_ m with
  | Running => ShutdownServer :: JoinServer
  | Joinable => JoinServer
  | None_ => []
  end.

(** One step of a call: what it leaves to do, or [None] if it waits. [create]: what [Server::Create] answers; [thrd]: whether
    the thread can be made. The destructor of the server waits for its messages. *)
Definition call_step (create : zx_status) (thrd : bool) (a : CallStep) (m : Manager) : option (list CallStep * Manager) :=
  match a with
  | AwaitJoinable => if decide (state_ m = Joinable) then Some ([], m) else None
  | JoinThread => if decide (thread_ m = Some Returned) then Some ([], set_thread None m) else None
  | SetNone => Some ([], SetState None_ m)
  | ResetServer => if outstanding m =? 0 then Some ([], set_server false m) else None
  | CreateServer =>
      if decide (create = ZX_OK) then Some ([SetRunning; CreateThread], mkManager (state_ m) true (thread_ m) false false 0)
      else Some ([], m)
  | SetRunning => Some ([], SetState Running m)
  | CreateThread => if thrd then Some ([], set_thread (Some InServe) m) else Some (FreeServer, m)
  | ShutdownServer => Some ([], mkManager (state_ m) (server_ m) (thread_ m) (peer_closed m) true (outstanding m))
  end.

Definition Manager_AttachVmo (m : Manager) (attach : zx_status) : zx_status :=
  if negb (server_ m) then ZX_ERR_BAD_STATE else attach.

(** [RunServer] after [Serve]: it sets the state, then returns. *)
Definition RunServer_end (m : Manager) : option Manager :=
  match thread_ m with
  | Some LeftServe => Some (SetState Joinable (set_thread (Some Returning) m))
  | Some Returning => Some (set_thread (Some Returned) m)
  | _ => None
  end.

(** The calls of clients, one at a time, and what happens meanwhile: the client closes its end of the FIFO, messages
    come, as long as the thread is in [Serve], and go, the thread leaves [Serve], for whatever reason, and goes on. *)
Inductive manager_step : Manager * list CallStep -> Manager * list CallStep -> Prop :=
  | ms_start m l : StartServer m = inr l -> manager_step (m, []) (m, l)
  | ms_close m : manager_step (m, []) (m, CloseFifoServer m)
  | ms_call m a l create thrd l' m' : call_step create thrd a m = Some (l', m') -> manager_step (m, a :: l) (m', l' ++ l)
  | ms_peer m l : server_ m = true -> manager_step (m, l) (mkManager (state_ m) (server_ m) (thread_ m) true (terminate m) (outstanding m), l)
  | ms_messages m l n : server_ m = true -> 0 <= n -> (outstanding m < n -> thread_ m = Some InServe) ->
      manager_step (m, l) (mkManager (state_ m) (server_ m) (thread_ m) (peer_closed m) (terminate m) n, l)
  | ms_leaves m l : thread_ m = Some InServe -> manager_step (m, l) (set_thread (Some LeftServe) m, l)
  | ms_run m m' l : RunServer_end m = Some m' -> manager_step (m, l) (m', l).

(** A server with its thread, and the state that says how far the thread has come. *)
Definition serving (m : Manager) : Prop :=
  server_ m = true /\
  match thread_ m with
  | Some InServe | Some LeftServe => state_ m = Running
  | Some Returning | Some Returned => state_ m = Joinable
  | None => False
  end.
Definition vacant (m : Manager) : Prop := server_ m = false /\ thread_ m = None /\ state_ m = None_.

(** The thread is out of [Serve], or has been told to leave it. *)
Definition told (m : Manager) : Prop := thread_ m = Some InServe -> peer_closed m || terminate m = true.

(** What follows the end of a server in a call: nothing, or the next server. *)
Definition next_ok (l : list CallStep) : Prop := l = [] \/ l = [CreateServer].

(** What holds before the rest of a call. *)
Inductive call_inv : list CallStep -> Manager -> Prop :=
  | ci_idle m : serving m \/ vacant m -> call_inv [] m
  | ci_shutdown m : serving m -> call_inv (ShutdownServer :: JoinServer) m
  | ci_await m : serving m -> told m -> call_inv (AwaitJoinable :: JoinServer ++ [CreateServer]) m
  | ci_join m l : next_ok l -> serving m -> told m -> call_inv (JoinServer ++ l) m
  | ci_none m l : next_ok l -> server_ m = true -> thread_ m = None -> call_inv (FreeServer ++ l) m
  | ci_reset m l : next_ok l -> server_ m = true -> thread_ m = None -> state_ m = None_ -> call_inv (ResetServer :: l) m
  | ci_create m : vacant m -> call_inv [CreateServer] m
  | ci_running m : server_ m = true -> thread_ m = None -> call_inv [SetRunning; CreateThread] m
  | ci_thread m : server_ m = true -> thread_ m = None -> state_ m = Running -> call_inv [CreateThread] m.

Definition MInv (p : Manager * list CallStep) : Prop := call_inv p.2 p.1 /\ 0 <= outstanding p.1.

Lemma serving_thread m : serving m -> thread_ m <> None.
Proof. intros [_ H] E. by rewrite E in H. Qed.

(** What other threads do keeps the invariant of any call. *)
Lemma call_inv_mono l m m' :
  call_inv l m -> (serving m -> serving m') -> (thread_ m <> None -> told m -> told m') ->
  (thread_ m = None -> server_ m' = server_ m /\ thread_ m' = None /\ state_ m' = state_ m) -> call_inv l m'.
Proof.
  intros Hc Hs Ht Hv.
  assert (vacant m -> vacant m') as Hvac by (unfold vacant; intros (? & E & ?); destruct (Hv E) as (-> & -> & ->); done).
  destruct Hc as [m [H|H]|m H|m H Hd|m l Hl H Hd|m l Hl H1 H2|m l Hl H1 H2 H3|m H|m H1 H2|m H1 H2 H3];
    try (destruct (Hv H2) as (E1 & E2 & E3)); constructor; auto using serving_thread; congruence.
Qed.

Lemma call_step_inv create thrd a l m l' m' :
  MInv (m, a :: l) -> call_step create thrd a m = Some (l', m') -> MInv (m', l' ++ l).
Proof.
  intros [Hc Ho] E. unfold MInv in *. simpl fst in *. simpl snd in *.
  inversion Hc as [|m0 H|m0 H Hd|m0 l0 Hl H Hd|m0 l0 Hl H1 H2|m0 l0 Hl H1 H2 H3|m0 H|m0 H1 H2|m0 H1 H2 H3]; subst; simpl in E.
  - simplify_eq/=. split; [|done]. apply (ci_join _ []); [by left|exact H|]. intros _. simpl. apply orb_true_r.
  - destruct (decide _); simplify_eq/=. split; [|done]. apply (ci_join _ [CreateServer]); [by right|done|done].
  - destruct (decide _) as [Er|]; simplify_eq/=. split; [|done]. by apply (ci_none _ l0); [| destruct H|].
  - simplify_eq/=. split; [|done]. by apply ci_reset.
  - destruct (outstanding m =? 0); simplify_eq/=. split; [|done].
    destruct Hl as [->| ->]; [apply ci_idle; right|apply ci_create]; by split_and!.
  - destruct (decide _); simplify_eq/=; (split; [|done]); [by apply ci_running; destruct H as (_ & ? & _)|by apply ci_idle; right].
  - simplify_eq/=. split; [|done]. by apply ci_thread.
  - destruct thrd; simplify_eq/=; (split; [|done]); [|by apply (ci_none _ []); [left|..]]. apply ci_idle. left. by split.
Qed.

(** Between calls a state other than [None] means a server with its thread, which is out of [Serve] once the state is
    [Joinable]. *)
Lemma idle_serving m : call_inv [] m -> state_ m <> None_ -> serving m /\ (state_ m = Joinable -> told m).
Proof.
  intros Hc Hs. inversion Hc as [m0 [H|(_ & _ & H)]| | | | | | | |]; subst; [|done]. split; [done|].
  intros Ej Hin. destruct H as [_ Hth]. rewrite Hin in Hth. congruence.
Qed.

Lemma manager_step_inv p p' : MInv p -> manager_step p p' -> MInv p'.
Proof.
  intros HI Hs. destruct Hs as [m l E|m|m a l create thrd l' m' E|m l Hsv|m l n Hsv Hn Ht|m l Ht|m m' l E].
  - destruct HI as [Hc Ho]. split; [|done]. simpl in *. unfold StartServer, IsFifoServerRunning in E. pose proof (idle_serving m Hc) as Hi.
    destruct (state_ m) eqn:Es; [|destruct (peer_closed m) eqn:Ep|]; simplify_eq/=.
    + inversion Hc as [m0 [[_ H]|H]| | | | | | | |]; subst; [|by apply ci_create]. destruct (thread_ m) as [[]|]; try congruence; done.
    + apply ci_await; [by apply Hi|]. intros _. by rewrite Ep.
    + destruct Hi as [? ?]; [done|]. apply (ci_join m [CreateServer]); [by right|auto..].
  - destruct HI as [Hc Ho]. split; [|done]. simpl in *. unfold CloseFifoServer. pose proof (idle_serving m Hc) as Hi.
    destruct (state_ m) eqn:Es; [done|by apply ci_shutdown, Hi|]. destruct Hi as [? ?]; [done|]. apply (ci_join m []); [by left|auto..].
  - by eapply call_step_inv.
  - destruct HI as [Hc Ho]. simpl in Hc, Ho. split; [|done]. eapply call_inv_mono; [exact Hc|done|done|done].
  - destruct HI as [Hc Ho]. simpl in Hc, Ho. split; [|done]. eapply call_inv_mono; [exact Hc|done|done|done].
  - destruct HI as [Hc Ho]. simpl in Hc, Ho. split; [|done]. eapply call_inv_mono; [exact Hc|..].
    + intros [Hs Hth]. split; [done|]. rewrite Ht in Hth. done.
    + intros _ _ Hin. simpl in Hin. done.
    + intros Hn. congruence.
  - destruct HI as [Hc Ho]. simpl in Hc, Ho. unfold RunServer_end in E. destruct (thread_ m) as [[]|] eqn:Et; try done; simplify_eq/=;
      (split; [|done]); (eapply call_inv_mono; [exact Hc|..]); unfold serving, told; simpl; rewrite ?Et; try done; naive_solver.
Qed.

(** C34. The manager, its server and its thread, in every run of calls, one at a time, interleaved with the server's thread:
    the server is there as long as its thread is, and between calls exactly then; [state_] is then [Running] until the
    thread has set [Joinable], and [None] if there is no thread. No second server is made: a call to start one while
    one is running fails, and where one is made there is neither server nor thread. A call that waits, waits for a
    thread that is out of [Serve] or has been told to leave it, or for messages that are outstanding. *)
Theorem manager_sound m l :
  rtc manager_step (new_manager, []) (m, l) ->
  (thread_ m <> None -> server_ m = true /\ state_ m <> None_) /\
  (l = [] -> (server_ m = true <-> thread_ m <> None) /\ (state_ m = None_ <-> thread_ m = None) /\
     (state_ m = Running <-> thread_ m = Some InServe \/ thread_ m = Some LeftServe) /\
     (state_ m = Running -> peer_closed m = false -> StartServer m = inl ZX_ERR_ALREADY_BOUND)) /\
  (forall rest, l = CreateServer :: rest -> server_ m = false /\ thread_ m = None /\ state_ m = None_) /\
  (forall a rest create thrd, l = a :: rest -> call_step create thrd a m = None ->
     (exists t, thread_ m = Some t /\ t <> Returned /\ (t = InServe -> peer_closed m || terminate m = true)) \/
     outstanding m <> 0).
Proof.
  intros Hr. assert (MInv (m, l)) as [Hc Ho].
  { revert Hr. apply (rtc_ind_r (R := manager_step) MInv (new_manager, [])); [|intros p p' _ Hs HI; by eapply manager_step_inv].
    split; [apply ci_idle; right; by split_and!|done]. }
  simpl in *. split_and!.
  - intros Ht. assert (serving m -> server_ m = true /\ state_ m <> None_) as Hsv.
    { intros [Hs Hth]. split; [done|]. destruct (thread_ m) as [[]|]; congruence. }
    inversion Hc as [m0 [H|(_ & H & _)]| | | | | |m0 (_ & H & _)| |]; subst; auto; done.
  - intros ->. unfold StartServer, IsFifoServerRunning.
    inversion Hc as [m0 [[Hs Hth]|(Hs & Ht & Es)]| | | | | | | |]; subst.
    + destruct (thread_ m) as [[]|] eqn:Et; rewrite ?Hth, Hs; try done; split_and!; try done; try naive_solver;
        (intros _ Ep; by rewrite Ep).
    + rewrite Hs, Ht, Es. split_and!; try done; naive_solver.
  - intros rest ->. by inversion Hc.
  - intros a rest create thrd -> Hw. assert (serving m -> told m -> thread_ m <> Some Returned ->
      exists t, thread_ m = Some t /\ t <> Returned /\ (t = InServe -> peer_closed m || terminate m = true)) as Hwait.
    { intros [_ Hth] Htold Hne. destruct (thread_ m) as [t|] eqn:Et; [|done]. exists t. split_and!; [done|congruence|]. intros ->. by apply Htold. }
    inversion Hc as [|m0 H|m0 H Hd|m0 l0 Hl H Hd|m0 l0 Hl H1 H2|m0 l0 Hl H1 H2 H3|m0 H|m0 H1 H2|m0 H1 H2 H3]; subst; simpl in Hw; try done.
    + left. destruct (decide (state_ m = Joinable)) as [|Hj]; [done|]. apply Hwait; [done..|]. intros E. destruct H as [_ Hth]. by rewrite E in Hth.
    + left. destruct (decide (thread_ m = Some Returned)); [done|]. by apply Hwait.
    + right. destruct (Z.eqb_spec (outstanding m) 0); done.
    + by destruct (decide _).
    + by destruct thrd.
Qed.

Module CoreExample.

(** A device with blocks of 512 bytes that transfers eight at once. *)
Definition info : BlockInfo := mkBlockInfo 512 4096.

Lemma do_io_exact_witness : exists st ops, DoIo info 1 77 10240 512 1024 (fun _ => ZX_OK) = Done (st, ops) /\
  concat (moved <$> ops) = moved (RwOp 1 77 20 1 2) /\ length ops = 3%nat.
Proof.
  destruct (do_io_exact info 1 77 10240 512 1024 (fun _ => ZX_OK)) as (st & ops & E & _ & Hall).
  - constructor; vm_compute; repeat split; discriminate.
  - destruct Hall as (_ & _ & Hops); [reflexivity|]. exists st, ops. split; [exact E|]. split; [exact Hops|].
    vm_compute in E. injection E as _ <-. reflexivity.
Defined.

(** A server that is started, and closed while its thread is in [Serve] and a message is outstanding. *)
Definition being_closed : Manager := mkManager Running true (Some InServe) false true 1.

Lemma manager_sound_witness :
  call_step ZX_OK true JoinThread being_closed = None /\
  ((exists t, thread_ being_closed = Some t /\ t <> Returned /\ (t = InServe -> peer_closed being_closed || terminate being_closed = true)) \/
   outstanding being_closed <> 0).
Proof.
  split; [reflexivity|]. apply (manager_sound being_closed JoinServer) with (a := JoinThread) (rest := FreeServer) (create := ZX_OK) (thrd := true);
    [|reflexivity|reflexivity].
  eapply rtc_l; [apply ms_start; reflexivity|].
  eapply rtc_l; [apply (ms_call _ CreateServer [] ZX_OK true); reflexivity|].
  eapply rtc_l; [apply (ms_call _ SetRunning _ ZX_OK true); reflexivity|].
  eapply rtc_l; [apply (ms_call _ CreateThread _ ZX_OK true); reflexivity|].
  eapply rtc_l; [apply (ms_messages _ _ 1); done|].
  eapply rtc_l; [apply ms_close|].
  eapply rtc_l; [apply (ms_call _ ShutdownServer _ ZX_OK true); reflexivity|apply rtc_refl].
Defined.

(** Devices that [Bind] accepts and on which [DoIo] moves less than it reports: with blocks larger than [kMaxMidlayerIO] nothing, with a
    limit that is not a whole number of blocks not all blocks. *)
Lemma do_io_faults :
  let large := mkBlockInfo 16384 65536 in let uneven := mkBlockInfo 1024 1536 in
  BlockDevice_Bind large = ZX_OK /\ BlockDevice_Bind uneven = ZX_OK /\
  (exists ops, DoIo large 1 77 16384 0 0 (fun _ => ZX_OK) = Done (ZX_OK, ops) /\ concat (moved <$> ops) = []) /\
  (exists ops, DoIo uneven 1 77 4096 0 0 (fun _ => ZX_OK) = Done (ZX_OK, ops) /\ concat (moved <$> ops) = [(0, 0); (1, 1); (3, 3)]).
Proof. split; [reflexivity|]. split; [reflexivity|]. split; (eexists; split; [vm_compute; reflexivity|vm_compute; reflexivity]). Qed.
End CoreExample.
