(* ===== verification/SkipBlock.v ===== *)
(** * SkipBlock: raw flash with bad blocks

    Model of [src/devices/nand/drivers/skip-block/]: [LogicalToPhysicalMap], which skips the bad blocks of each copy
    ([logical-to-physical-map.cc]), and [SkipBlockDevice], which keeps several copies of its data ([skip-block.cc]).
    The device holds its lock while an operation is done block by block, so that the chain of completion callbacks is
    a loop. The NAND below is a class: pages can be erased by the block, written and read, and blocks marked bad. *)
From Stdlib Require Import ZArith Lia Sorted.
From stdpp Require Import prelude sorting.
From S2P Require Import Prelude.

Local Open Scope Z_scope.

(** ** [LogicalToPhysicalMap] *)

Record BlockMap := mkBlockMap {
  copies_ : Z;
  block_count_ : Z;
  bad_blocks_ : list Z
}.

(** The constructor sorts the bad blocks. *)
Definition LogicalToPhysicalMap (copies block_count : Z) (bad_blocks : list Z) : exec BlockMap :=
  (ASSERT (0 <? block_count);;
   ASSERT (Z.of_nat (length bad_blocks) <=? block_count);;
   ASSERT (negb (copies =? 0) && (block_count mod copies =? 0));;
   Done (mkBlockMap copies block_count (merge_sort Z.le bad_blocks)))%exec.

(** [bad == std::clamp(bad, first, last)]. *)
Definition within (first last bad : Z) : bool := (first <=? bad) && (bad <=? last).

Fixpoint get_physical (first last block skipped : Z) (bad : list Z) : zx_status * Z :=
  match bad with
  | [] => if u32 (block + skipped) <=? last then (ZX_OK, u32 (block + skipped)) else (ZX_ERR_OUT_OF_RANGE, 0)
  | b :: bad =>
      if negb (within first last b) then get_physical first last block skipped bad
      else if u32 (block + skipped) <? b then (ZX_OK, u32 (block + skipped))
      else get_physical first last block (u32 (skipped + 1)) bad
  end.

Definition blocks_per_copy (m : BlockMap) : Z := block_count_ m / copies_ m.
Definition copy_first (m : BlockMap) (copy : Z) : Z := u32 (copy * blocks_per_copy m).
Definition copy_last (m : BlockMap) (copy : Z) : Z := u32 (copy_first m copy + blocks_per_copy m - 1).

Definition GetPhysical (m : BlockMap) (copy block : Z) : exec (zx_status * Z) :=
  (ASSERT (copy <? copies_ m);;
   Done (get_physical (copy_first m copy) (copy_last m copy) (u32 (block + copy_first m copy)) 0 (bad_blocks_ m)))%exec.

Definition AvailableBlockCount (m : BlockMap) (copy : Z) : exec Z :=
  (ASSERT (copy <? copies_ m);;
   Done (u32 (blocks_per_copy m - Z.of_nat (length (filter (fun b => within (copy_first m copy) (copy_last m copy) b = true) (bad_blocks_ m))))))%exec.

(** ** The NAND below *)

(** [N] is the state of the NAND, a page an element of [Page]. Reading gives the pages that end up in the VMO. *)
Class NandProtocol (N Page : Type) := {
  nand_erase : Z -> N -> zx_status * N;
  nand_write : Z -> list Page -> N -> zx_status * N;
  nand_read : Z -> Z -> N -> zx_status * list Page * N;
  (** At most so many bad blocks, and how many there are. *)
  nand_bad_blocks : nat -> N -> zx_status * list Z * nat;
  nand_mark_bad : Z -> N -> zx_status * N
}.

(** [nand_info_t]. *)
Record NandInfo := mkNandInfo {
  page_size : Z;
  pages_per_block : Z;
  num_blocks : Z
}.

Section device.
Context {N Page : Type} `{!NandProtocol N Page}.

(** A VMO, by pages of the NAND; and its size in bytes as [get_size] answers. *)
Definition Vmo : Type := Z -> Page.

Record ReadWriteOperation := mkRw {
  rw_vmo : Vmo;
  rw_vmo_offset : Z;
  rw_block : Z;
  rw_block_count : Z
}.

Record WriteBytesOperation := mkWb {
  wb_vmo_offset : Z;
  wb_offset : Z;
  wb_size : Z
}.

Record PageRange := mkPageRange {
  page_offset : Z;
  page_count : Z
}.

(** [nand_], [bad_block_] are [sd_nand]. *)
Record SkipBlockDevice := mkSkipBlock {
  nand_info_ : NandInfo;
  copy_count_ : Z;
  block_map_ : BlockMap;
  sd_nand : N
}.

Definition set_nand (n : N) (d : SkipBlockDevice) : SkipBlockDevice := mkSkipBlock (nand_info_ d) (copy_count_ d) (block_map_ d) n.
Definition set_map (m : BlockMap) (d : SkipBlockDevice) : SkipBlockDevice := mkSkipBlock (nand_info_ d) (copy_count_ d) m (sd_nand d).

Definition ppb (d : SkipBlockDevice) : Z := pages_per_block (nand_info_ d).
Definition GetBlockSize (d : SkipBlockDevice) : Z := u32 (pages_per_block (nand_info_ d) * page_size (nand_info_ d)).

(** Pages into a VMO, and out of it. *)
Definition vmo_put (off : Z) (l : list Page) (v : Vmo) : Vmo :=
  fun j => if (off <=? j) then match l !! Z.to_nat (j - off) with Some p => p | None => v j end else v j.
Definition vmo_get (off n : Z) (v : Vmo) : list Page := (fun j => v (off + j)) <$> seqZ 0 n.

Definition GetBadBlockList (n : N) : zx_status * list Z :=
  let '(status, _, count) := nand_bad_blocks 0 n in
  if negb (bool_decide (status = ZX_OK)) then (status, [])
  else if (count =? 0)%nat then (ZX_OK, [])
  else
    let '(status, l, count') := nand_bad_blocks count n in
    if negb (bool_decide (status = ZX_OK)) then (status, [])
    else if negb (count =? count')%nat then (ZX_ERR_INTERNAL, [])
    else (ZX_OK, l).

(** [Bind], once the operation of the parent has been allocated. *)
Definition SkipBlock_Bind (info : NandInfo) (copy_count : Z) (n : N) : exec (zx_status + SkipBlockDevice) :=
  let '(status, bad) := GetBadBlockList n in
  if negb (bool_decide (status = ZX_OK)) then Done (inl status)
  else m ← LogicalToPhysicalMap copy_count (num_blocks info) bad; Done (inr (mkSkipBlock info copy_count m n)).

(** [GetBlockCountLocked]: the largest copy. *)
Fixpoint max_available (m : BlockMap) (copies : list Z) (acc : Z) : exec Z :=
  match copies with
  | [] => Done acc
  | c :: copies => n ← AvailableBlockCount m c; max_available m copies (Z.max acc n)
  end.

Definition GetBlockCountLocked (d : SkipBlockDevice) : exec Z := max_available (block_map_ d) (seqZ 0 (copy_count_ d)) 0.

(** ** Validation *)

(** [vmo_size]: what [get_size] answers. *)
Definition ValidateReadWrite (op : ReadWriteOperation) (vmo_size : zx_status * Z) (d : SkipBlockDevice) : exec zx_status :=
  if rw_block_count op =? 0 then Done ZX_ERR_INVALID_ARGS
  else
    count ← GetBlockCountLocked d;
    Done (if count <? u32 (rw_block op + rw_block_count op) then ZX_ERR_OUT_OF_RANGE
          else if negb (bool_decide (vmo_size.1 = ZX_OK)) then ZX_ERR_INVALID_ARGS
          else if vmo_size.2 <? u64 (rw_vmo_offset op + u64 (rw_block_count op * GetBlockSize d)) then ZX_ERR_OUT_OF_RANGE
          else ZX_OK).

(** [round_up]: [fbl::round_up] on 64 bits. *)
Definition ValidateWriteBytes (round_up : Z -> Z -> Z) (op : WriteBytesOperation) (vmo_size : zx_status * Z) (d : SkipBlockDevice) : exec zx_status :=
  let ps := page_size (nand_info_ d) in
  if wb_size op =? 0 then Done ZX_ERR_INVALID_ARGS
  else if ps =? 0 then Panic
  else if negb (wb_offset op mod ps =? 0) || negb (wb_size op mod ps =? 0) then Done ZX_ERR_INVALID_ARGS
  else
    count ← GetBlockCountLocked d;
    Done (if u64 (count * GetBlockSize d) <? round_up (u64 (wb_offset op + wb_size op)) (GetBlockSize d) then ZX_ERR_OUT_OF_RANGE
          else if negb (bool_decide (vmo_size.1 = ZX_OK)) then ZX_ERR_INVALID_ARGS
          else if vmo_size.2 <? u64 (wb_vmo_offset op + wb_size op) then ZX_ERR_OUT_OF_RANGE
          else ZX_OK).

(** ** Reading *)

(** The current block is the last one. *)
Definition last_block (op : ReadWriteOperation) (current : Z) : bool := u32 (current + 1) =? u32 (rw_block op + rw_block_count op).

(** The reads of one copy: [ReadCompletionCallback] queues the next one. The result has the VMO and the NAND. *)
Fixpoint read_blocks (fuel : nat) (m : BlockMap) (info : NandInfo) (copy : Z) (op : ReadWriteOperation) (current physical vmo_off : Z) (v : Vmo) (n : N) :
    exec (zx_status * Vmo * N) :=
  match fuel with
  | O => Panic
  | S fuel =>
      let '(status, pages, n) := nand_read (u32 (physical * pages_per_block info)) (pages_per_block info) n in
      let v := vmo_put vmo_off pages v in
      if negb (bool_decide (status = ZX_OK)) || last_block op current then Done (status, v, n)
      else
        let current := u32 (current + 1) in
        '(status, physical) ← GetPhysical m copy current;
        if negb (bool_decide (status = ZX_OK)) then Done (status, v, n)
        else read_blocks fuel m info copy op current physical (u64 (vmo_off + pages_per_block info)) v n
  end.

Definition op_fuel (op : ReadWriteOperation) : nat := S (Z.to_nat (rw_block_count op)).

(** [ReadLocked]: the copies one after the other until one can be read. *)
Fixpoint read_copies (copies : list Z) (op : ReadWriteOperation) (v : Vmo) (d : SkipBlockDevice) : exec (zx_status * Vmo * SkipBlockDevice) :=
  match copies with
  | [] => Done (ZX_ERR_IO, v, d)
  | copy :: copies =>
      avail ← AvailableBlockCount (block_map_ d) copy;
      if avail <? rw_block_count op then read_copies copies op v d
      else
        '(status, physical) ← GetPhysical (block_map_ d) copy (rw_block op);
        if negb (bool_decide (status = ZX_OK)) then Done (status, v, d)
        else
          '(status, v, n) ← read_blocks (op_fuel op) (block_map_ d) (nand_info_ d) copy op (rw_block op) physical (rw_vmo_offset op) v (sd_nand d);
          if bool_decide (status = ZX_OK) then Done (ZX_OK, v, set_nand n d) else read_copies copies op v (set_nand n d)
  end.

Definition ReadLocked (op : ReadWriteOperation) (d : SkipBlockDevice) : exec (zx_status * Vmo * SkipBlockDevice) :=
  read_copies (seqZ 0 (copy_count_ d)) op (rw_vmo op) d.

(** ** Writing *)

(** The part of the current block that a range of pages touches: the offset in the block, the number of pages, and the
    offset in the VMO. *)
Definition ComputeInBlockWriteRangeFromPageRange (info : NandInfo) (op : ReadWriteOperation) (current : Z) (r : PageRange) : Z * Z * Z :=
  let block_start_page := u32 (current * pages_per_block info) in
  let block_end_page := u64 (block_start_page + pages_per_block info) in
  let write_start_page := Z.max block_start_page (page_offset r) in
  let write_end_page := Z.min block_end_page (u64 (page_offset r + page_count r)) in
  (u64 (write_start_page - block_start_page), u64 (write_end_page - write_start_page),
   u64 (rw_vmo_offset op + write_start_page - page_offset r)).

(** What [EraseCompletionCallback] writes: the offset in the block, the number of pages, the offset in the VMO. *)
Definition write_range (info : NandInfo) (op : ReadWriteOperation) (current : Z) (range : option PageRange) : Z * Z * Z :=
  match range with
  | Some r => ComputeInBlockWriteRangeFromPageRange info op current r
  | None => (0, pages_per_block info, u64 (rw_vmo_offset op + u32 (u32 (current - rw_block op) * pages_per_block info)))
  end.

(** How the writes of a copy end: the status, whether the block is to be marked bad, and the block. *)
Record WriteEnd := mkWriteEnd {
  we_status : zx_status;
  we_mark_bad : bool;
  we_physical : Z
}.

Definition is_io (s : zx_status) : bool := bool_decide (s = ZX_ERR_IO).

(** Erase and write, block by block: [EraseCompletionCallback] and [WriteCompletionCallback]. *)
Fixpoint write_blocks (fuel : nat) (m : BlockMap) (info : NandInfo) (copy : Z) (op : ReadWriteOperation) (range : option PageRange)
    (current physical : Z) (n : N) : exec (WriteEnd * N) :=
  match fuel with
  | O => Panic
  | S fuel =>
      let '(status, n) := nand_erase physical n in
      if negb (bool_decide (status = ZX_OK)) then Done (mkWriteEnd status (is_io status) physical, n)
      else
        let '(in_block_offset, write_size, vmo_offset) := write_range info op current range in
        let offset_nand := u64 (u32 (physical * pages_per_block info) + in_block_offset) in
        (ASSERT (write_size <=? UINT32_MAX);;
         ASSERT (offset_nand <=? UINT32_MAX);;
         let '(status, n) := nand_write offset_nand (vmo_get vmo_offset write_size (rw_vmo op)) n in
         if negb (bool_decide (status = ZX_OK)) || last_block op current then Done (mkWriteEnd status (is_io status) physical, n)
         else
           let current := u32 (current + 1) in
           '(status, physical') ← GetPhysical m copy current;
           if negb (bool_decide (status = ZX_OK)) then Done (mkWriteEnd status false physical, n)
           else write_blocks fuel m info copy op range current physical' n)%exec
  end.

(** One copy, again whenever a block has turned bad. The result: whether the copy was written, or the status with
    which [WriteLocked] returns; whether a bad block has grown; the device. *)
Fixpoint write_copy (fuel : nat) (copy : Z) (op : ReadWriteOperation) (range : option PageRange) (grown : bool) (d : SkipBlockDevice) :
    exec ((zx_status + bool) * bool * SkipBlockDevice) :=
  match fuel with
  | O => Panic
  | S fuel =>
      avail ← AvailableBlockCount (block_map_ d) copy;
      if avail <=? rw_block op then Done (inr false, grown, d)
      else
        '(status, physical) ← GetPhysical (block_map_ d) copy (rw_block op);
        if negb (bool_decide (status = ZX_OK)) then Done (inl status, grown, d)
        else
          '(e, n) ← write_blocks (op_fuel op) (block_map_ d) (nand_info_ d) copy op range (rw_block op) physical (sd_nand d);
          if we_mark_bad e then
            let '(status, n) := nand_mark_bad (we_physical e) n in
            if negb (bool_decide (status = ZX_OK)) then Done (inl status, grown, set_nand n d)
            else
              let '(status, bad) := GetBadBlockList n in
              (ASSERT (bool_decide (status = ZX_OK));;
               m ← LogicalToPhysicalMap (copy_count_ d) (num_blocks (nand_info_ d)) bad;
               write_copy fuel copy op range true (set_map m (set_nand n d)))%exec
          else Done (inr (bool_decide (we_status e = ZX_OK)), grown, set_nand n d)
  end.

(** A copy can lose each of its blocks once. *)
Definition copy_fuel (d : SkipBlockDevice) : nat := S (Z.to_nat (num_blocks (nand_info_ d))).

Fixpoint write_copies (copies : list Z) (op : ReadWriteOperation) (range : option PageRange) (ok grown : bool) (d : SkipBlockDevice) :
    exec (zx_status * bool * SkipBlockDevice) :=
  match copies with
  | [] => Done (if ok then ZX_OK else ZX_ERR_IO, grown, d)
  | copy :: copies =>
      '(r, grown, d) ← write_copy (copy_fuel d) copy op range grown d;
      match r with
      | inl status => Done (status, grown, d)
      | inr succeeded => write_copies copies op range (ok || succeeded) grown d
      end
  end.

Definition WriteLocked (op : ReadWriteOperation) (range : option PageRange) (d : SkipBlockDevice) : exec (zx_status * bool * SkipBlockDevice) :=
  write_copies (seqZ 0 (copy_count_ d)) op range false false d.

(** ** The calls of clients *)

Definition SkipBlock_Read (op : ReadWriteOperation) (vmo_size : zx_status * Z) (d : SkipBlockDevice) : exec (zx_status * Vmo * SkipBlockDevice) :=
  status ← ValidateReadWrite op vmo_size d;
  if negb (bool_decide (status = ZX_OK)) then Done (status, rw_vmo op, d) else ReadLocked op d.

Definition SkipBlock_Write (op : ReadWriteOperation) (vmo_size : zx_status * Z) (d : SkipBlockDevice) : exec (zx_status * bool * SkipBlockDevice) :=
  status ← ValidateReadWrite op vmo_size d;
  if negb (bool_decide (status = ZX_OK)) then Done (status, false, d) else WriteLocked op None d.

(** ** Writing without erasing *)

Fixpoint write_only (fuel : nat) (m : BlockMap) (info : NandInfo) (copy : Z) (op : ReadWriteOperation) (r : PageRange) (current : Z) (n : N) :
    exec (zx_status * N) :=
  match fuel with
  | O => Panic
  | S fuel =>
      if current =? u32 (rw_block op + rw_block_count op) then Done (ZX_OK, n)
      else
        '(status, physical) ← GetPhysical m copy current;
        if negb (bool_decide (status = ZX_OK)) then Done (status, n)
        else
          let '(in_block_offset, write_size, vmo_offset) := ComputeInBlockWriteRangeFromPageRange info op current r in
          let offset_nand := u64 (u32 (physical * pages_per_block info) + in_block_offset) in
          (ASSERT (write_size <=? UINT32_MAX);;
           ASSERT (offset_nand <=? UINT32_MAX);;
           let '(status, n) := nand_write offset_nand (vmo_get vmo_offset write_size (rw_vmo op)) n in
           if negb (bool_decide (status = ZX_OK)) then Done (status, n)
           else write_only fuel m info copy op r (u32 (current + 1)) n)%exec
  end.

Fixpoint write_only_copies (copies : list Z) (r : PageRange) (op : ReadWriteOperation) (d : SkipBlockDevice) : exec (zx_status * SkipBlockDevice) :=
  match copies with
  | [] => Done (ZX_OK, d)
  | copy :: copies =>
      avail ← AvailableBlockCount (block_map_ d) copy;
      if avail <=? rw_block op then Done (ZX_ERR_IO, d)
      else
        '(status, physical) ← GetPhysical (block_map_ d) copy (rw_block op);
        if negb (bool_decide (status = ZX_OK)) then Done (status, d)
        else
          '(status, n) ← write_only (op_fuel op) (block_map_ d) (nand_info_ d) copy op r (rw_block op) (sd_nand d);
          if negb (bool_decide (status = ZX_OK)) then Done (status, set_nand n d)
          else write_only_copies copies r op (set_nand n d)
  end.

Definition WriteBytesWithoutEraseLocked (r : PageRange) (op : ReadWriteOperation) (d : SkipBlockDevice) : exec (zx_status * SkipBlockDevice) :=
  write_only_copies (seqZ 0 (copy_count_ d)) r op d.

(** [round_up]: [fbl::round_up]. The VMO of the operation, by pages, is [v]. *)
Definition WriteBytesWithoutErase (round_up : Z -> Z -> Z) (v : Vmo) (op : WriteBytesOperation) (vmo_size : zx_status * Z) (d : SkipBlockDevice) :
    exec (zx_status * SkipBlockDevice) :=
  status ← ValidateWriteBytes round_up op vmo_size d;
  let ps := page_size (nand_info_ d) in
  if negb (bool_decide (status = ZX_OK)) then Done (status, d)
  else if negb (wb_vmo_offset op mod ps =? 0) then Done (ZX_ERR_INVALID_ARGS, d)
  else if GetBlockSize d =? 0 then Panic
  else
    let first_block := wb_offset op / GetBlockSize d in
    let last_block := u64 (round_up (u64 (wb_offset op + wb_size op)) (GetBlockSize d) / GetBlockSize d - 1) in
    WriteBytesWithoutEraseLocked (mkPageRange (wb_offset op / ps) (wb_size op / ps))
      (mkRw v (wb_vmo_offset op / ps) (u32 first_block) (u32 (last_block - first_block + 1))) d.

Definition SkipBlock_DdkGetSize (d : SkipBlockDevice) : exec Z := count ← GetBlockCountLocked d; Done (u64 (GetBlockSize d * count)).
End device.
Arguments Vmo : clear implicits.
Arguments ReadWriteOperation : clear implicits.
Arguments SkipBlockDevice : clear implicits.
