(* ===== verification/SkipBlockMap.v ===== *)
(** * SkipBlockMap: the map from logical to physical blocks

    [GetPhysical] walks the list of bad blocks; it finds the block with the given index among the good blocks of a
    copy. *)
From Stdlib Require Import ZArith Lia Sorted.
From stdpp Require Import prelude sorting.
From S2P Require Import Prelude SkipBlock.

Local Open Scope Z_scope.
Implicit Types (m : BlockMap) (bad l : list Z).

(** ** Good blocks *)

(** The blocks from [a] to [last] that are not bad. *)
Definition good_from (a last : Z) bad : list Z := filter (fun b => b ∉ bad) (seqZ a (last + 1 - a)).

(** The blocks of a copy that can be used, in order. *)
Definition first_block m (copy : Z) : Z := copy * blocks_per_copy m.
Definition end_block m (copy : Z) : Z := first_block m copy + blocks_per_copy m - 1.
Definition good_blocks m (copy : Z) : list Z := good_from (first_block m copy) (end_block m copy) (bad_blocks_ m).

(** A map as the constructor makes it of distinct bad blocks. *)
Record map_ok m : Prop := {
  mo_copies : 0 < copies_ m;
  mo_count : 0 < block_count_ m < 2 ^ 30;
  mo_whole : block_count_ m mod copies_ m = 0;
  mo_bad : StronglySorted Z.lt (bad_blocks_ m);
  mo_range : Forall (fun b => 0 <= b < block_count_ m) (bad_blocks_ m)
}.

Lemma filter_ext_elem {A} (P Q : A -> Prop) `{!forall x, Decision (P x)} `{!forall x, Decision (Q x)} (l : list A) :
  (forall x, x ∈ l -> P x <-> Q x) -> filter P l = filter Q l.
Proof.
  induction l as [|x l IH]; intros Hl; [done|]. rewrite !filter_cons, IH by (intros; apply Hl; set_solver). pose proof (Hl x ltac:(set_solver)).
  destruct (decide (P x)), (decide (Q x)); tauto.
Qed.

Lemma good_from_skip a last b bad : ~ (a <= b <= last) -> good_from a last (b :: bad) = good_from a last bad.
Proof.
  intros Hb. apply filter_ext_elem. intros x Hx%elem_of_seqZ. rewrite not_elem_of_cons. split; [tauto|]. intros. split; [lia|done].
Qed.

Lemma good_from_split a last b bad :
  a <= b <= last -> Forall (fun c => b < c) bad -> good_from a last (b :: bad) = seqZ a (b - a) ++ good_from (b + 1) last bad.
Proof.
  intros Hb Hs. rewrite Forall_forall in Hs. unfold good_from. replace (last + 1 - a) with ((b - a) + (1 + (last + 1 - (b + 1)))) by lia.
  rewrite seqZ_app, seqZ_app by lia. replace (a + (b - a)) with b by lia. rewrite !filter_app. f_equal.
  - apply list_filter_all, Forall_forall. intros x Hx%elem_of_seqZ. rewrite not_elem_of_cons. split; [lia|]. intros ?%Hs. lia.
  - rewrite (list_filter_none _ (seqZ b 1)); [|apply Forall_forall; intros x Hx%elem_of_seqZ Hn; apply Hn; replace x with b by lia; set_solver].
    cbn [app]. apply filter_ext_elem. intros x Hx%elem_of_seqZ. rewrite not_elem_of_cons. split; [tauto|]. intros. split; [lia|done].
Qed.

Lemma get_physical_spec first last a block skipped bad :
  first <= a -> 0 <= first -> a <= block + skipped -> block + skipped + Z.of_nat (length bad) < 2 ^ 32 -> 0 <= skipped -> 0 <= block ->
  StronglySorted Z.lt bad -> (forall b, b ∈ bad -> first <= b <= last -> a <= b) ->
  get_physical first last block skipped bad =
    match good_from a last bad !! Z.to_nat (block + skipped - a) with Some p => (ZX_OK, p) | None => (ZX_ERR_OUT_OF_RANGE, 0) end.
Proof.
  intros Hf Hf0 Ha Hlt Hs Hb0 Hsort. revert a skipped Hf Ha Hlt Hs. induction Hsort as [|b bad Hsort IH Hall]; intros a skipped Hf Ha Hlt Hs Hin; cbn [get_physical].
  - rewrite u32_small by (unfold is_u32; simpl in Hlt; lia). unfold good_from. rewrite list_filter_all by (apply Forall_forall; intros; apply not_elem_of_nil).
    destruct (Z.leb_spec (block + skipped) last).
    + assert (seqZ a (last + 1 - a) !! Z.to_nat (block + skipped - a) = Some (block + skipped)) as ->; [|done]. apply lookup_seqZ. lia.
    + rewrite lookup_ge_None_2; [done|]. rewrite length_seqZ. lia.
  - cbn [length] in Hlt. unfold within. destruct (Z.leb_spec first b) as [H1|H1], (Z.leb_spec b last) as [H2|H2]; cbn [andb negb].
    2-4: rewrite good_from_skip by lia; apply IH; [done|done|lia|done|intros b' Hb'; apply Hin; set_solver].
    assert (a <= b) as Hab by (apply Hin; [set_solver|done]). rewrite good_from_split by done. rewrite u32_small by (unfold is_u32; lia).
    destruct (Z.ltb_spec (block + skipped) b) as [Hlt'|Hge].
    + assert ((seqZ a (b - a) ++ good_from (b + 1) last bad) !! Z.to_nat (block + skipped - a) = Some (block + skipped)) as ->; [|done].
      apply lookup_app_l_Some. apply lookup_seqZ. lia.
    + rewrite u32_small by (unfold is_u32; lia). rewrite (IH (b + 1)); [|lia..|].
      * rewrite lookup_app_r, length_seqZ by (rewrite length_seqZ; lia).
        by replace (Z.to_nat (block + (skipped + 1) - (b + 1))) with (Z.to_nat (block + skipped - a) - Z.to_nat (b - a))%nat by lia.
      * intros b' Hb' _. rewrite Forall_forall in Hall. pose proof (Hall b' Hb'). lia.
Qed.

(** ** The map *)

Section map.
Context m (Hm : map_ok m) (copy : Z) (Hcopy : 0 <= copy < copies_ m).

Lemma copy_bounds : 0 < blocks_per_copy m /\ 0 <= first_block m copy /\ end_block m copy < block_count_ m /\ first_block m copy <= end_block m copy.
Proof using Hm Hcopy.
  destruct Hm as [H1 H2 H3 _ _]. unfold end_block, first_block, blocks_per_copy. apply Z.mod_divide in H3 as [q Eq]; [|lia]. rewrite Eq, Z.div_mul by lia. nia.
Qed.

Lemma copy_first_eq : copy_first m copy = first_block m copy.
Proof using Hm Hcopy. destruct copy_bounds as (? & ? & ? & ?). destruct Hm. apply u32_small. unfold is_u32, first_block in *. lia. Qed.

Lemma copy_last_eq : copy_last m copy = end_block m copy.
Proof using Hm Hcopy. destruct copy_bounds as (? & ? & ? & ?). destruct Hm. unfold copy_last. rewrite copy_first_eq. apply u32_small. unfold is_u32, end_block in *. lia. Qed.

Lemma bad_NoDup : NoDup (bad_blocks_ m).
Proof using Hm.
  destruct Hm as [_ _ _ Hs _]. clear - Hs. induction Hs as [|b bad Hs IH Hb]; constructor; [|done].
  intros Hin. rewrite Forall_forall in Hb. apply Hb in Hin. lia.
Qed.

Lemma bad_length : Z.of_nat (length (bad_blocks_ m)) <= block_count_ m.
Proof using Hm.
  destruct Hm as [_ H2 _ Hs Hr]. rewrite Forall_forall in Hr. pose proof (NoDup_Z_length (bad_blocks_ m) (block_count_ m)) as Hn.
  rewrite Z.max_r in Hn by lia. apply Hn; [apply bad_NoDup|done].
Qed.

Lemma good_count first last :
  first <= last + 1 -> Z.of_nat (length (good_from first last (bad_blocks_ m))) + Z.of_nat (length (filter (fun b => within first last b = true) (bad_blocks_ m))) = last + 1 - first.
Proof using Hm.
  clear Hcopy. intros Hle. unfold good_from. set (l := seqZ first (last + 1 - first)).
  assert (filter (fun b => b ∈ bad_blocks_ m) l ≡ₚ filter (fun b => within first last b = true) (bad_blocks_ m)) as Hp.
  { apply NoDup_Permutation; [apply NoDup_filter, NoDup_seqZ|apply NoDup_filter, bad_NoDup|]. intros x. rewrite !list_elem_of_filter. unfold l. rewrite elem_of_seqZ.
    unfold within. rewrite andb_true_iff, !Z.leb_le. intuition lia. }
  rewrite <- Hp. assert (length (filter (fun b => b ∉ bad_blocks_ m) l) + length (filter (fun b => b ∈ bad_blocks_ m) l) = length l)%nat as E.
  { clear. induction l as [|x l IH]; [done|]. rewrite !filter_cons. destruct (decide (x ∈ bad_blocks_ m)) as [H|H].
    - rewrite decide_False by tauto. simpl. lia.
    - rewrite decide_True by done. simpl. lia. }
  unfold l in *. rewrite length_seqZ in E. lia.
Qed.

Lemma physical_at block :
  0 <= block < 2 ^ 31 ->
  GetPhysical m copy block = Done (match good_blocks m copy !! Z.to_nat block with Some p => (ZX_OK, p) | None => (ZX_ERR_OUT_OF_RANGE, 0) end) /\
  AvailableBlockCount m copy = Done (Z.of_nat (length (good_blocks m copy))) /\
  NoDup (good_blocks m copy) /\
  (forall p, p ∈ good_blocks m copy <-> first_block m copy <= p <= end_block m copy /\ p ∉ bad_blocks_ m).
Proof using Hm Hcopy.
  intros Hb. destruct copy_bounds as (Hbpc & Hf & He & Hfe). pose proof bad_length as Hlen. pose proof Hm as [H1 H2 H3 H4 H5].
  unfold GetPhysical, AvailableBlockCount. destruct (Z.ltb_spec copy (copies_ m)); [|lia]. cbn [zx_assert exec_bind]. rewrite copy_first_eq, copy_last_eq.
  split_and!.
  - rewrite u32_small by (unfold is_u32; lia). rewrite (get_physical_spec _ _ (first_block m copy)) by (lia || done || by intros ? _ []).
    by replace (block + first_block m copy + 0 - first_block m copy) with block by lia.
  - pose proof (good_count (first_block m copy) (end_block m copy)) as Hg. unfold good_blocks. rewrite u32_small; unfold is_u32, end_block in *; [f_equal|]; lia.
  - apply NoDup_filter, NoDup_seqZ.
  - intros p. unfold good_blocks, good_from. rewrite list_elem_of_filter, elem_of_seqZ. intuition lia.
Qed.

(** C32. [GetPhysical] is lookup among good blocks. For a block below 2^31 (the sums are of 32 bits, and wrap for the highest
    blocks), the walk over the sorted bad blocks finds the [block]-th block of the copy
    that is not bad, and ZX_ERR_OUT_OF_RANGE if there are not so many, and [AvailableBlockCount] is the number of blocks
    it can find. They are distinct, and exactly the blocks in the range of the copy that are not bad. *)
Theorem physical_exact block :
  0 <= block < 2 ^ 31 ->
  GetPhysical m copy block = Done (match good_blocks m copy !! Z.to_nat block with Some p => (ZX_OK, p) | None => (ZX_ERR_OUT_OF_RANGE, 0) end) /\
  AvailableBlockCount m copy = Done (Z.of_nat (length (good_blocks m copy))) /\
  NoDup (good_blocks m copy) /\
  (forall p, p ∈ good_blocks m copy <-> first_block m copy <= p <= end_block m copy /\ p ∉ bad_blocks_ m).
Proof using Hm Hcopy. apply physical_at. Qed.
End map.

(** Sorting distinct bad blocks. *)
Lemma strictly_sorted l : StronglySorted Z.le l -> NoDup l -> StronglySorted Z.lt l.
Proof.
  induction 1 as [|b l Hs IH Hb]; intros Hnd; constructor; apply NoDup_cons in Hnd as [Hn Hnd]; [by apply IH|].
  apply Forall_forall. intros x Hx. rewrite Forall_forall in Hb. pose proof (Hb x Hx). assert (x <> b) by (by intros ->). lia.
Qed.

Lemma made_map copies count bad :
  0 < copies -> 0 < count < 2 ^ 30 -> count mod copies = 0 -> NoDup bad -> Forall (fun b => 0 <= b < count) bad ->
  exists m, LogicalToPhysicalMap copies count bad = Done m /\ map_ok m /\ copies_ m = copies /\ block_count_ m = count /\ bad_blocks_ m ≡ₚ bad.
Proof.
  intros Hc Hn Hm Hnd Hr. unfold LogicalToPhysicalMap. destruct (Z.ltb_spec 0 count); [|lia]. rewrite Forall_forall in Hr.
  pose proof (NoDup_Z_length bad count Hnd Hr). destruct (Z.leb_spec (Z.of_nat (length bad)) count); [|lia]. destruct (Z.eqb_spec copies 0); [lia|].
  rewrite Hm. cbn [zx_assert exec_bind negb andb Z.eqb]. eexists. split; [done|]. pose proof (merge_sort_Permutation Z.le bad) as Hp.
  split_and!; [|done..]. constructor; simpl; try done.
  - apply strictly_sorted; [apply StronglySorted_merge_sort; apply _|by rewrite Hp].
  - apply Forall_forall. intros b. rewrite Hp. apply Hr.
Qed.

(** The ranges of two copies have no block in common. *)
Lemma copies_apart m c c' p : map_ok m -> first_block m c <= p <= end_block m c -> first_block m c' <= p <= end_block m c' -> c = c'.
Proof.
  intros _ Hp Hp'. unfold end_block, first_block in *. generalize dependent (blocks_per_copy m). intros q Hp Hp'.
  destruct (Z.lt_trichotomy c c') as [Hlt|[E|Hlt]]; [|done|]; nia.
Qed.
