(* ===== verification/SkipBlockRun.v ===== *)
(** * SkipBlockRun: what is written can be read

    What a write leaves on a NAND whose operations can fail and whose blocks turn bad, and what a read then finds. *)
From Stdlib Require Import ZArith Lia Sorted.
From stdpp Require Import prelude sorting.
From S2P Require Import Prelude SkipBlock SkipBlockMap.

Local Open Scope Z_scope.

(** ** The NAND *)

(** What can be seen of a NAND: its pages and its bad blocks. *)
Class NandView (N Page : Type) := {
  page_at : N -> Z -> Page;
  bad_of : N -> list Z
}.

Definition in_block (info : NandInfo) (b p : Z) : Prop := b * pages_per_block info <= p < (b + 1) * pages_per_block info.

(** The operations touch the pages of one block, if they fail too; what is written or read is what was asked for if they
    succeed. Marking a block bad adds it to the list; reading the list may fail. *)
Class NandLaws {N Page} `{!NandProtocol N Page} `{!NandView N Page} (info : NandInfo) : Prop := {
  erase_law b n st n' : nand_erase b n = (st, n') -> bad_of n' = bad_of n /\ forall p, ~ in_block info b p -> page_at n' p = page_at n p;
  write_law b off (l : list Page) n st n' :
    nand_write off l n = (st, n') -> b * pages_per_block info <= off -> off + Z.of_nat (length l) <= (b + 1) * pages_per_block info ->
    bad_of n' = bad_of n /\ (forall p, ~ in_block info b p -> page_at n' p = page_at n p) /\
    (st = ZX_OK -> forall j x, l !! j = Some x -> page_at n' (off + Z.of_nat j) = x);
  read_law off len n st (l : list Page) n' :
    nand_read off len n = (st, l, n') -> 0 <= len -> bad_of n' = bad_of n /\ (forall p, page_at n' p = page_at n p) /\
    Z.of_nat (length l) <= len /\ (st = ZX_OK -> l = page_at n <$> seqZ off len);
  bad_law k n l count : nand_bad_blocks k n = (ZX_OK, l, count) -> l = take k (bad_of n) /\ count = length (bad_of n);
  mark_law b n st n' :
    nand_mark_bad b n = (st, n') -> (forall p, ~ in_block info b p -> page_at n' p = page_at n p) /\
    (st = ZX_OK -> b ∉ bad_of n -> bad_of n' ≡ₚ b :: bad_of n) /\ (st <> ZX_OK -> bad_of n' = bad_of n)
}.

(** A NAND whose erasing and writing fail with ZX_ERR_IO only. *)
Definition io_only {N Page} `{!NandProtocol N Page} : Prop :=
  (forall b n st n', nand_erase b n = (st, n') -> st = ZX_OK \/ st = ZX_ERR_IO) /\
  (forall off l n st n', nand_write off l n = (st, n') -> st = ZX_OK \/ st = ZX_ERR_IO).

(** The list of bad blocks cannot be read although a block has just been marked. *)
Definition list_unreadable {N Page} `{!NandProtocol N Page} : Prop := exists b n n', nand_mark_bad b n = (ZX_OK, n') /\ (GetBadBlockList n').1 <> ZX_OK.

Section run.
Context {N Page : Type} `{!NandProtocol N Page} `{!NandView N Page}.
Implicit Types (n : N) (op : ReadWriteOperation Page) (d : SkipBlockDevice N) (m : BlockMap) (info : NandInfo).

(** The operation does not wrap around. *)
Record op_ok info op : Prop := {
  oo_block : 0 <= rw_block op;
  oo_count : 0 < rw_block_count op;
  oo_end : rw_block op + rw_block_count op < 2 ^ 30;
  oo_vmo : 0 <= rw_vmo_offset op /\ rw_vmo_offset op + rw_block_count op * pages_per_block info < 2 ^ 64;
  oo_pages : rw_block_count op * pages_per_block info < 2 ^ 32
}.

Definition in_op op (j : Z) : Prop := rw_block op <= j < rw_block op + rw_block_count op.

(** The page of the VMO for page [q] of block [j]. *)
Definition vmo_page info op (j q : Z) : Z := rw_vmo_offset op + (j - rw_block op) * pages_per_block info + q.

(** Block [j] holds the data of the operation. *)
Definition written info op (G : list Z) n (j : Z) : Prop :=
  exists b, G !! Z.to_nat j = Some b /\ forall q, 0 <= q < pages_per_block info -> page_at n (b * pages_per_block info + q) = rw_vmo op (vmo_page info op j q).

Lemma lookup_vmo_get off len (v : Vmo Page) k : (k < Z.to_nat len)%nat -> vmo_get off len v !! k = Some (v (off + Z.of_nat k)).
Proof using Type. intros Hk. unfold vmo_get. rewrite list_lookup_fmap. assert (seqZ 0 len !! k = Some (Z.of_nat k)) as -> by (apply lookup_seqZ; lia). done. Qed.

Section copy.
Context m info (copy : Z) op.
Context `{!NandLaws info} (Hm : map_ok m) (Hcopy : 0 <= copy < copies_ m) (Hop : op_ok info op).
Context (Hppb : 0 < pages_per_block info) (Hfit : block_count_ m * pages_per_block info < 2 ^ 32).
Let G := good_blocks m copy.

Lemma good_range (k : nat) b : G !! k = Some b -> 0 <= b < block_count_ m /\ b ∈ G.
Proof using Hm Hcopy.
  intros Hk. apply list_elem_of_lookup_2 in Hk as Hin. split; [|done]. destruct (physical_at m Hm copy Hcopy 0 ltac:(lia)) as (_ & _ & _ & He).
  apply He in Hin as [Hin _]. destruct (copy_bounds m Hm copy Hcopy) as (? & ? & ? & ?). lia.
Qed.

Lemma good_inj (k k' : nat) b : G !! k = Some b -> G !! k' = Some b -> k = k'.
Proof using Hm Hcopy.
  intros H1 H2. destruct (physical_at m Hm copy Hcopy 0 ltac:(lia)) as (_ & _ & Hnd & _). by eapply NoDup_lookup.
Qed.

Lemma get_physical_G j : 0 <= j < 2 ^ 31 -> GetPhysical m copy j = Done (match G !! Z.to_nat j with Some p => (ZX_OK, p) | None => (ZX_ERR_OUT_OF_RANGE, 0) end).
Proof using Hm Hcopy. intros Hj. by destruct (physical_at m Hm copy Hcopy j Hj) as (-> & _). Qed.

Lemma blocks_apart b b' p : in_block info b p -> in_block info b' p -> b = b'.
Proof using Hppb. unfold in_block. intros. nia. Qed.

(** What the writes of the blocks from [current] on leave. *)
Definition write_post (current : Z) n (e : WriteEnd) n' : Prop :=
  bad_of n' = bad_of n /\
  (forall p, (forall j b, current <= j -> in_op op j -> G !! Z.to_nat j = Some b -> ~ in_block info b p) -> page_at n' p = page_at n p) /\
  (we_status e = ZX_OK -> we_mark_bad e = false /\ forall j, current <= j -> in_op op j -> written info op G n' j) /\
  (we_mark_bad e = true -> we_physical e ∈ G) /\
  (io_only -> we_mark_bad e = false -> we_status e <> ZX_OK -> exists j, in_op op j /\ G !! Z.to_nat j = None).

Lemma write_one current physical n st n' :
  in_op op current -> G !! Z.to_nat current = Some physical ->
  nand_write (u64 (u32 (physical * pages_per_block info) + 0)) (vmo_get (u64 (rw_vmo_offset op + u32 (u32 (current - rw_block op) * pages_per_block info))) (pages_per_block info) (rw_vmo op)) n = (st, n') ->
  bad_of n' = bad_of n /\ (forall p, ~ in_block info physical p -> page_at n' p = page_at n p) /\ (st = ZX_OK -> written info op G n' current).
Proof using All.
  intros Hc Hp E. destruct (good_range _ _ Hp) as [Hpr _]. destruct Hop as [O1 O2 O3 O4 O5]. unfold in_op in Hc.
  rewrite (u32_small (current - rw_block op)) in E by (unfold is_u32; lia).
  rewrite (u32_small (_ * _)) in E by (unfold is_u32; nia). rewrite (u32_small (_ * _)) in E by (unfold is_u32; nia).
  rewrite Z.add_0_r, (u64_small (physical * _)) in E by (unfold is_u64; nia).
  rewrite u64_small in E by (unfold is_u64; nia).
  destruct (write_law physical _ _ _ _ _ E) as (H1 & H2 & H3); [lia|unfold vmo_get; rewrite length_fmap, length_seqZ; lia|].
  split_and!; [done..|]. intros Hst. exists physical. split; [done|]. intros q Hq. rewrite <- (Z2Nat.id q) by lia. apply H3; [done|].
  rewrite lookup_vmo_get by lia. unfold vmo_page. do 2 f_equal; lia.
Qed.

Lemma write_blocks_spec fuel current physical n :
  in_op op current -> G !! Z.to_nat current = Some physical -> rw_block op + rw_block_count op - current <= Z.of_nat fuel ->
  exists e n', write_blocks fuel m info copy op None current physical n = Done (e, n') /\ write_post current n e n'.
Proof using All.
  revert current physical n. induction fuel as [|fuel IH]; intros current physical n Hc Hp Hf; [unfold in_op in Hc; lia|]. cbn [write_blocks].
  destruct (nand_erase physical n) as [st1 n1] eqn:E1. destruct (erase_law _ _ _ _ E1) as [Hb1 Hp1]. destruct (good_range _ _ Hp) as [Hpr HpG].
  assert (forall p n', (forall p, ~ in_block info physical p -> page_at n' p = page_at n p) ->
    (forall j b, current <= j -> in_op op j -> G !! Z.to_nat j = Some b -> ~ in_block info b p) -> page_at n' p = page_at n p) as Hframe.
  { intros p n' Hn Hall. apply Hn. apply (Hall current); [lia|done|done]. }
  destruct (bool_decide_reflect (st1 = ZX_OK)) as [->|Hne]; cbn [negb].
  2:{ eexists _, n1. split; [done|]. unfold write_post. cbn [we_status we_mark_bad we_physical]. split; [done|]. split; [eauto|]. split; [done|]. split; [done|].
      intros [Hio _] Hno _. destruct (Hio _ _ _ _ E1) as [->| ->]; done. }
  cbn [write_range]. destruct Hop as [O1 O2 O3 O4 O5] eqn:EO. pose proof Hc as Hc'. unfold in_op in Hc'.
  assert (u32 (physical * pages_per_block info) = physical * pages_per_block info) as Eo by (apply u32_small; unfold is_u32; nia).
  assert (u64 (u32 (physical * pages_per_block info) + 0) <= UINT32_MAX) as Hass by (rewrite Eo, Z.add_0_r, u64_small; unfold is_u64, UINT32_MAX; nia).
  destruct (Z.leb_spec (pages_per_block info) UINT32_MAX) as [_|Hbig]; [|unfold UINT32_MAX in Hbig; nia].
  destruct (Z.leb_spec (u64 (u32 (physical * pages_per_block info) + 0)) UINT32_MAX) as [_|]; [|lia]. cbn [zx_assert exec_bind].
  destruct (nand_write _ _ n1) as [st2 n2] eqn:E2. destruct (write_one current physical n1 st2 n2 Hc Hp E2) as (Hb2 & Hp2 & Hw2).
  assert (forall p, ~ in_block info physical p -> page_at n2 p = page_at n p) as Hp12 by (intros; by rewrite Hp2, Hp1).
  unfold last_block. rewrite !u32_small by (unfold is_u32; lia).
  destruct (bool_decide_reflect (st2 = ZX_OK)) as [->|Hne2]; cbn [negb orb].
  2:{ eexists _, n2. split; [done|]. unfold write_post. cbn [we_status we_mark_bad we_physical]. split_and!; [congruence|eauto|done|done|].
      intros [_ Hio] Hno _. destruct (Hio _ _ _ _ _ E2) as [->| ->]; done. }
  destruct (Z.eqb_spec (current + 1) (rw_block op + rw_block_count op)) as [Hlast|Hmore].
  { eexists _, n2. split; [done|]. unfold write_post. cbn [we_status we_mark_bad we_physical]. split_and!; [congruence|eauto| |done|done].
    intros _. split; [done|]. intros j Hj Hj'. unfold in_op in Hj'. replace j with current by lia. by apply Hw2. }
  rewrite get_physical_G by lia. destruct (G !! Z.to_nat (current + 1)) as [physical'|] eqn:Ep; cbn [mbind exec_bind].
  2:{ rewrite bool_decide_false by done. eexists _, n2. split; [done|]. unfold write_post. cbn [negb we_status we_mark_bad we_physical]. split_and!; [congruence|eauto|done|done|].
      intros _ _ _. exists (current + 1). split; [unfold in_op; lia|done]. }
  rewrite bool_decide_true by done. cbn [negb]. destruct (IH (current + 1) physical' n2) as (e & n' & E & Hb3 & Hp3 & Hok3 & Hmark3 & Hio3); [unfold in_op; lia|done|lia|].
  exists e, n'. split; [done|]. unfold write_post. split_and!; [congruence| | |done|].
  - intros p Hall. rewrite Hp3 by (intros j b ? ? ?; apply (Hall j b); [lia|done..]). apply Hp12. by apply (Hall current); [lia|..].
  - intros Hs. destruct (Hok3 Hs) as [Hmb Hall]. split; [done|]. intros j Hj Hj'. destruct (decide (j = current)) as [->|]; [|apply Hall; [lia|done]].
    destruct (Hw2 eq_refl) as (b & Hb & Hbq). exists b. split; [done|]. intros q Hq. rewrite <- (Hbq q Hq). apply Hp3. intros j b' Hj1 Hj2 Hb' Hin.
    assert (b' = b) as ->. { eapply blocks_apart; [exact Hin|]. unfold in_block. lia. }
    pose proof (good_inj _ _ _ Hb Hb'). lia.
  - done.
Qed.
End copy.

(** ** The device *)

(** The map of the device is that of the NAND. *)
Record dev_ok d : Prop := {
  do_map : map_ok (block_map_ d);
  do_copies : copies_ (block_map_ d) = copy_count_ d;
  do_count : block_count_ (block_map_ d) = num_blocks (nand_info_ d);
  do_bad : bad_blocks_ (block_map_ d) ≡ₚ bad_of (sd_nand d);
  do_ppb : 0 < ppb d;
  do_fit : num_blocks (nand_info_ d) * ppb d < 2 ^ 32
}.

Definition good d (copy : Z) : list Z := good_blocks (block_map_ d) copy.
Definition in_copy d (copy b : Z) : Prop := first_block (block_map_ d) copy <= b <= end_block (block_map_ d) copy.

(** A copy is as it was. *)
Definition stays (c : Z) d d' : Prop :=
  good d' c = good d c /\ forall b p, in_copy d c b -> in_block (nand_info_ d) b p -> page_at (sd_nand d') p = page_at (sd_nand d) p.

(** A copy holds all of the data; a copy is too small for it. *)
Definition all_written op d (c : Z) : Prop := forall j, in_op op j -> written (nand_info_ d) op (good d c) (sd_nand d) j.
Definition too_small op d (c : Z) : Prop := exists j, in_op op j /\ good d c !! Z.to_nat j = None.

Definition bad_count d : nat := length (bad_of (sd_nand d)).

Record same_shape d d' : Prop := {
  sh_info : nand_info_ d' = nand_info_ d;
  sh_copies : copy_count_ d' = copy_count_ d
}.

#[global] Instance same_shape_preorder : PreOrder same_shape.
Proof using Type. split; [by constructor|]. intros d1 d2 d3 [] []. constructor; congruence. Qed.

Lemma shape_blocks d d' c : dev_ok d -> dev_ok d' -> same_shape d d' -> first_block (block_map_ d') c = first_block (block_map_ d) c /\ end_block (block_map_ d') c = end_block (block_map_ d) c.
Proof using Type.
  intros [_ H1 H2 _ _ _] [_ H1' H2' _ _ _] [E1 E2]. unfold end_block, first_block, blocks_per_copy. rewrite H1, H2, H1', H2', E1, E2. done.
Qed.

Lemma shape_in_copy d d' c b : dev_ok d -> dev_ok d' -> same_shape d d' -> in_copy d' c b <-> in_copy d c b.
Proof using Type. intros H1 H2 H3. unfold in_copy. destruct (shape_blocks d d' c H1 H2 H3) as [-> ->]. done. Qed.

Lemma good_in_copy d c (k : nat) b : dev_ok d -> 0 <= c < copy_count_ d -> good d c !! k = Some b -> in_copy d c b.
Proof using Type.
  intros Hd Hc Hk%list_elem_of_lookup_2. destruct Hd as [Hm E _ _ _ _]. destruct (physical_at _ Hm c ltac:(lia) 0 ltac:(lia)) as (_ & _ & _ & He). by apply He in Hk as [? _].
Qed.

Lemma stays_trans c d d' d'' : dev_ok d -> dev_ok d' -> same_shape d d' -> stays c d d' -> stays c d' d'' -> stays c d d''.
Proof using Type.
  intros Hd Hd' Hs [H1 H2] [H3 H4]. split; [congruence|]. intros b p Hb Hp. transitivity (page_at (sd_nand d') p); [|by apply (H2 b)].
  apply (H4 b); [|by rewrite (sh_info _ _ Hs)]. unfold in_copy in *. destruct (shape_blocks d d' c Hd Hd' Hs) as [-> ->]. done.
Qed.

(** What a copy holds stays while it does. *)
Lemma written_stays op d d' c : dev_ok d -> 0 <= c < copy_count_ d -> same_shape d d' -> stays c d d' -> all_written op d c -> all_written op d' c.
Proof using Type.
  intros Hd Hc Hs [H1 H2] Hw j Hj. destruct (Hw j Hj) as (b & Hb & Hq). exists b. rewrite H1. split; [done|]. rewrite (sh_info _ _ Hs). intros q Hq'.
  rewrite <- (Hq q Hq'). apply (H2 b); [by eapply good_in_copy|]. unfold in_block. lia.
Qed.

Lemma small_stays op d d' c : stays c d d' -> too_small op d c -> too_small op d' c.
Proof using Type. intros [H1 _] (j & Hj & E). exists j. by rewrite H1. Qed.

Lemma bad_list_read info n : NandLaws info -> (GetBadBlockList n).1 = ZX_OK -> GetBadBlockList n = (ZX_OK, bad_of n).
Proof using Type.
  intros HL. unfold GetBadBlockList. destruct (nand_bad_blocks 0 n) as [[st l] count] eqn:E0. destruct (bool_decide_reflect (st = ZX_OK)) as [->|]; cbn [negb]; [|done].
  destruct (bad_law _ _ _ _ E0) as [_ ->]. destruct (Nat.eqb_spec (length (bad_of n)) 0) as [Hz|_]; [intros _; by rewrite (nil_length_inv _ Hz)|].
  destruct (nand_bad_blocks (length (bad_of n)) n) as [[st l'] count'] eqn:E1. destruct (bool_decide_reflect (st = ZX_OK)) as [->|]; cbn [negb]; [|done].
  destruct (bad_law _ _ _ _ E1) as [-> ->]. rewrite Nat.eqb_refl. cbn [negb]. by rewrite take_ge by lia.
Qed.

(** The device once a block of a copy has been marked. *)
Lemma mark_device info d n n' copy b :
  NandLaws info -> info = nand_info_ d -> dev_ok d -> 0 <= copy < copy_count_ d -> b ∈ good d copy -> bad_of n = bad_of (sd_nand d) -> nand_mark_bad b n = (ZX_OK, n') ->
  exists m, LogicalToPhysicalMap (copy_count_ d) (num_blocks (nand_info_ d)) (bad_of n') = Done m /\
    dev_ok (set_map m (set_nand n' d)) /\ bad_of n' ≡ₚ b :: bad_of (sd_nand d) /\
    (forall p, ~ in_block info b p -> page_at n' p = page_at n p) /\
    (length (good_blocks m copy) < length (good d copy))%nat /\
    (forall c, 0 <= c < copy_count_ d -> c <> copy -> good_blocks m c = good d c).
Proof using Type.
  intros HL -> Hd Hcopy Hb En Em. destruct (mark_law _ _ _ _ Em) as (Hp & Hadd & _). destruct Hd as [Hm E1 E2 E3 E4 E5].
  destruct (physical_at _ Hm copy ltac:(lia) 0 ltac:(lia)) as (_ & _ & _ & He). apply He in Hb as [Hbr Hnb].
  rewrite E3, <- En in Hnb. specialize (Hadd eq_refl Hnb). destruct (copy_bounds _ Hm copy ltac:(lia)) as (? & ? & Hlt & _).
  pose proof Hm as [M1 M2 M3 M4 M5].
  destruct (made_map (copy_count_ d) (num_blocks (nand_info_ d)) (bad_of n')) as (m & Emm & Hmm & F1 & F2 & F3); [lia|lia|by rewrite <- E1, <- E2| | |].
  { rewrite Hadd. constructor; [done|]. rewrite En, <- E3. by apply bad_NoDup. }
  { rewrite Hadd. constructor; [lia|]. rewrite En, <- E3, <- E2. done. }
  assert (forall c, first_block m c = first_block (block_map_ d) c /\ end_block m c = end_block (block_map_ d) c) as Hsame.
  { intros c. unfold end_block, first_block, blocks_per_copy. by rewrite F1, F2, E1, E2. }
  assert (forall x, x ∈ bad_blocks_ m <-> x = b \/ x ∈ bad_blocks_ (block_map_ d)) as Hel.
  { intros x. rewrite F3, Hadd, elem_of_cons, En, E3. done. }
  exists m. split_and!.
  - done.
  - by constructor.
  - by rewrite Hadd, En.
  - done.
  - unfold good, good_blocks, good_from. destruct (Hsame copy) as [-> ->]. set (l := seqZ _ _).
    rewrite (filter_ext_elem _ (fun x => x <> b /\ x ∉ bad_blocks_ (block_map_ d))) by (intros x _; rewrite Hel; tauto).
    rewrite <- list_filter_filter. apply length_filter_lt with b; [|tauto]. apply list_elem_of_filter. rewrite E3, <- En. split; [done|]. unfold l. apply elem_of_seqZ. lia.
  - intros c Hc Hne. unfold good, good_blocks, good_from. destruct (Hsame c) as [-> ->]. apply filter_ext_elem. intros x Hx%elem_of_seqZ. rewrite Hel.
    split; [tauto|]. intros ? [->|?]; [|done]. apply Hne. eapply (copies_apart _ _ _ b Hm); lia.
Qed.

(** ** Writing *)

Section write.
Context op info `{!NandLaws info} (Hop : op_ok info op).

(** What the writing of a copy leaves. *)
Record copy_post (copy : Z) d (grown : bool) (r : zx_status + bool) (grown' : bool) d' : Prop := {
  cp_ok : dev_ok d';
  cp_shape : same_shape d d';
  cp_others c : 0 <= c < copy_count_ d -> c <> copy -> stays c d d';
  cp_bad : (bad_count d <= bad_count d')%nat;
  cp_grown : grown' = grown || (bad_count d <? bad_count d')%nat;
  cp_status : r <> inl ZX_OK;
  cp_written : r = inr true -> all_written op d' copy;
  cp_small : io_only -> r = inr false -> too_small op d' copy
}.

(** A device whose NAND had only blocks of the copy touched. *)
Lemma only_copy d n copy :
  dev_ok d -> bad_of n = bad_of (sd_nand d) ->
  (forall p, (forall b, in_copy d copy b -> ~ in_block (nand_info_ d) b p) -> page_at n p = page_at (sd_nand d) p) ->
  dev_ok (set_nand n d) /\ same_shape d (set_nand n d) /\ forall c, 0 <= c < copy_count_ d -> c <> copy -> stays c d (set_nand n d).
Proof using Type.
  intros Hd Hb Hp. pose proof Hd as [H1 H2 H3 H4 H5 H6]. split_and!.
  - constructor; try done. simpl. by rewrite Hb.
  - done.
  - intros c Hc Hne. split; [done|]. intros b p Hbc Hbp. apply Hp. intros b' Hb' Hb'p. apply Hne. eapply (copies_apart _ _ _ b H1); [done|].
    rewrite (blocks_apart (nand_info_ d) H5 b b' p Hbp Hb'p). done.
Qed.

(** A copy again, once a block has been marked. *)
Lemma copy_post_again copy d d1 grown r grown' d' :
  dev_ok d -> dev_ok d1 -> same_shape d d1 -> (forall c, 0 <= c < copy_count_ d -> c <> copy -> stays c d d1) -> (bad_count d < bad_count d1)%nat ->
  copy_post copy d1 true r grown' d' -> copy_post copy d grown r grown' d'.
Proof using Type.
  intros Hd Hd1 Hs Hst Hb [C1 C2 C3 C4 C5 C6 C7 C8]. constructor; try done.
  - by transitivity d1.
  - intros c Hc Hne. apply (stays_trans c d d1); [done..|by apply Hst|]. apply C3; [|done]. by rewrite (sh_copies _ _ Hs).
  - lia.
  - rewrite C5. symmetry. rewrite (proj2 (Nat.ltb_lt _ _)) by lia. by rewrite orb_true_r.
Qed.

Lemma write_copy_spec fuel copy grown d :
  dev_ok d -> nand_info_ d = info -> 0 <= copy < copy_count_ d -> (length (good d copy) < fuel)%nat ->
  (exists r grown' d', write_copy fuel copy op None grown d = Done (r, grown', d') /\ copy_post copy d grown r grown' d') \/
  write_copy fuel copy op None grown d = Panic /\ list_unreadable.
Proof using All.
  revert grown d. induction fuel as [|fuel IH]; intros grown d Hd Ei Hc Hf; [lia|]. cbn [write_copy]. pose proof Hd as [H1 H2 H3 H4 H5 H6].
  pose proof (oo_block _ _ Hop) as O1. pose proof (oo_count _ _ Hop) as O2. pose proof (oo_end _ _ Hop) as O3.
  destruct (physical_at _ H1 copy ltac:(lia) (rw_block op) ltac:(lia)) as (-> & -> & _ & _). cbn [mbind exec_bind]. change (good_blocks (block_map_ d) copy) with (good d copy).
  assert (in_op op (rw_block op)) as Hin by (unfold in_op; lia).
  destruct (Z.leb_spec (Z.of_nat (length (good d copy))) (rw_block op)) as [Hsm|Hbig].
  { left. eexists _, _, _. split; [done|]. constructor; [done|done|done|lia| |done|done|].
    - by rewrite (proj2 (Nat.ltb_ge _ _)), orb_false_r by lia.
    - intros _ _. exists (rw_block op). split; [done|]. apply lookup_ge_None. lia. }
  destruct (lookup_lt_is_Some_2 (good d copy) (Z.to_nat (rw_block op)) ltac:(lia)) as [physical Hph]. rewrite Hph. cbn [mbind exec_bind].
  rewrite bool_decide_true by done. cbn [negb]. rewrite Ei.
  destruct (write_blocks_spec (block_map_ d) info copy op H1 ltac:(lia) Hop ltac:(by rewrite <- Ei) ltac:(rewrite H3, <- Ei; done) (op_fuel op) (rw_block op) physical (sd_nand d) Hin Hph)
    as (e & n & -> & Pb & Pp & Pok & Pm & Pio); [unfold op_fuel; lia|]. cbn [exec_bind].
  assert (forall p, (forall b, in_copy d copy b -> ~ in_block info b p) -> page_at n p = page_at (sd_nand d) p) as Hfr.
  { intros p Hall. apply Pp. intros j b _ _ Hb. apply Hall. by eapply good_in_copy. }
  destruct (only_copy d n copy Hd Pb) as (Hd1 & Hs1 & Hst1); [by rewrite Ei|].
  destruct (we_mark_bad e) eqn:Em; cbn [mbind exec_bind]; rewrite ?Em.
  2:{ left. eexists _, _, _. split; [done|]. constructor; [done|done|done|unfold bad_count; simpl; rewrite Pb; lia| |done| |].
      - unfold bad_count. simpl. by rewrite Pb, Nat.ltb_irrefl, orb_false_r.
      - intros [= Hok%bool_decide_eq_true]. destruct (Pok Hok) as [_ Hw]. intros j Hj. simpl. rewrite Ei. apply Hw; [unfold in_op in Hj; lia|done].
      - intros Hio [= Hno%bool_decide_eq_false]. by destruct (Pio Hio eq_refl Hno) as (j & Hj & Hn); exists j. }
  specialize (Pm eq_refl). destruct (nand_mark_bad (we_physical e) n) as [st n1] eqn:E1.
  destruct (mark_law _ _ _ _ E1) as (Mp & _ & Mno). apply list_elem_of_lookup_1 in Pm as Hpl. destruct Hpl as [k Hk].
  assert (forall p, (forall b, in_copy d copy b -> ~ in_block (nand_info_ d) b p) -> page_at n1 p = page_at (sd_nand d) p) as Hfr1.
  { rewrite Ei. intros p Hall. rewrite Mp by (apply Hall; by eapply good_in_copy). by apply Hfr. }
  destruct (bool_decide_reflect (st = ZX_OK)) as [->|Hne]; cbn [negb].
  2:{ left. eexists _, _, _. split; [done|]. destruct (only_copy d n1 copy Hd) as (Hd2 & Hs2 & Hst2); [by rewrite Mno|done|].
      constructor; [done|done|done|unfold bad_count; simpl; rewrite Mno, Pb by done; lia| |congruence|done|done].
      unfold bad_count. simpl. by rewrite Mno, Pb, Nat.ltb_irrefl, orb_false_r by done. }
  destruct (mark_device info d n n1 copy (we_physical e)) as (m & Emap & Hd2 & Hbad & _ & Hlen & Hoth); [done..|].
  destruct (GetBadBlockList n1) as [st bad] eqn:Ebad. destruct (bool_decide_reflect (st = ZX_OK)) as [Est|Hbl].
  2:{ right. split; [done|]. exists (we_physical e), n, n1. split; [done|]. by rewrite Ebad. }
  rewrite (bad_list_read info) in Ebad by (done || by rewrite Ebad). injection Ebad as <- <-. cbn [zx_assert]. cbn [zx_assert exec_bind mbind]. rewrite <- Ei, Emap. cbn [exec_bind].
  destruct (IH true (set_map m (set_nand n1 d)) Hd2 Ei Hc) as [(r & grown' & d' & E & Hpost)|Hpanic]; [unfold good in *; simpl; lia| |by right].
  left. exists r, grown', d'. split; [done|]. eapply copy_post_again; [done|exact Hd2|by constructor| |unfold bad_count; simpl; rewrite Hbad; simpl; lia|done].
  intros c Hc' Hne. split; [by apply Hoth|]. intros b p Hb Hbp. simpl. apply Hfr1. intros b' Hb' Hb'p. apply Hne.
  eapply (copies_apart _ _ _ b H1); [done|]. by rewrite (blocks_apart (nand_info_ d) H5 b b' p Hbp Hb'p).
Qed.

(** What the writing of the copies [cs] leaves. *)
Record copies_post (cs : list Z) d (ok grown : bool) (st : zx_status) (grown' : bool) d' : Prop := {
  cs_ok : dev_ok d';
  cs_shape : same_shape d d';
  cs_others c : 0 <= c < copy_count_ d -> c ∉ cs -> stays c d d';
  cs_bad : (bad_count d <= bad_count d')%nat;
  cs_grown : grown' = grown || (bad_count d <? bad_count d')%nat;
  cs_written : st = ZX_OK -> ok = true \/ exists c, c ∈ cs /\ all_written op d' c;
  cs_io : io_only -> st = ZX_OK -> forall c, c ∈ cs -> all_written op d' c \/ too_small op d' c
}.

Lemma good_length d c : dev_ok d -> 0 <= c < copy_count_ d -> (length (good d c) < copy_fuel d)%nat.
Proof using Type.
  intros [H1 H2 H3 _ _ _] Hc. destruct (physical_at _ H1 c ltac:(lia) 0 ltac:(lia)) as (_ & _ & Hnd & He). destruct (copy_bounds _ H1 c ltac:(lia)) as (? & ? & ? & _).
  pose proof (NoDup_Z_length (good d c) (num_blocks (nand_info_ d)) Hnd) as Hl. pose proof (mo_count _ H1). unfold copy_fuel.
  rewrite Z.max_r in Hl by lia. cut (Z.of_nat (length (good d c)) <= num_blocks (nand_info_ d)); [lia|]. apply Hl. intros b [Hb _]%He. lia.
Qed.

Lemma write_copies_spec cs ok grown d :
  dev_ok d -> nand_info_ d = info -> NoDup cs -> (forall c, c ∈ cs -> 0 <= c < copy_count_ d) ->
  (exists st grown' d', write_copies cs op None ok grown d = Done (st, grown', d') /\ copies_post cs d ok grown st grown' d') \/
  write_copies cs op None ok grown d = Panic /\ list_unreadable.
Proof using All.
  revert ok grown d. induction cs as [|c cs IH]; intros ok grown d Hd Ei Hnd Hr; cbn [write_copies].
  { left. eexists _, _, _. split; [done|]. constructor; [done|done|done|lia| | |].
    - by rewrite Nat.ltb_irrefl, orb_false_r.
    - destruct ok; [by left|done].
    - intros _ _ c []%not_elem_of_nil. }
  apply NoDup_cons in Hnd as [Hn Hnd]. assert (0 <= c < copy_count_ d) as Hc by (apply Hr; set_solver).
  destruct (write_copy_spec (copy_fuel d) c grown d Hd Ei Hc) as [(r & grown1 & d1 & -> & [C1 C2 C3 C4 C5 C6 C7 C8])|[-> Hun]]; [by apply good_length| |by right].
  cbn [mbind exec_bind]. destruct r as [st|succeeded].
  { left. eexists _, _, _. split; [done|]. constructor; [done|done| |done|done|congruence|congruence].
    intros c' Hc' [Hne _]%not_elem_of_cons. by apply C3. }
  destruct (IH (ok || succeeded) grown1 d1 C1) as [(st & grown' & d' & -> & [S1 S2 S3 S4 S5 S6 S7])|[-> Hun]];
    [by rewrite (sh_info _ _ C2)|done|intros c' Hc'; rewrite (sh_copies _ _ C2); apply Hr; set_solver| |by right].
  assert (stays c d1 d') as Hstay by (apply S3; [by rewrite (sh_copies _ _ C2)|done]). assert (0 <= c < copy_count_ d1) as Hc1 by by rewrite (sh_copies _ _ C2).
  left. eexists _, _, _. split; [done|]. constructor; [done|by transitivity d1| |lia| | |].
  - intros c' Hc' [Hne Hnin]%not_elem_of_cons. apply (stays_trans c' d d1); [done..|by apply C3|]. apply S3; [by rewrite (sh_copies _ _ C2)|done].
  - rewrite S5, C5. destruct grown; [done|]. cbn [orb]. destruct (Nat.ltb_spec (bad_count d) (bad_count d1)), (Nat.ltb_spec (bad_count d1) (bad_count d')), (Nat.ltb_spec (bad_count d) (bad_count d')); simpl; (done || lia).
  - intros Hst. destruct (S6 Hst) as [[Hok|Hsu]%orb_true_iff|(c' & Hc' & Hw)]; [by left| |right; exists c'; set_solver].
    right. exists c. split; [set_solver|]. apply (written_stays op d1); [done..|]. apply C7. by rewrite Hsu.
  - intros Hio Hst c' [->|Hc']%elem_of_cons; [|by apply S7]. destruct succeeded.
    + left. apply (written_stays op d1); [done..|by apply C7].
    + right. apply (small_stays op d1); [done|by apply C8].
Qed.
End write.

(** C17. A write ends, and ZX_OK means that it was done. Whatever erasing, writing, reading and marking answer, [WriteLocked]
    returns, or it stops at the assertion that the list of bad blocks can be read, which it makes right after a block has been
    marked bad: a copy is tried again only when one more of its blocks has been marked. When it returns, the map of the device is that of the NAND,
    it tells exactly whether a block has turned bad, and answers ZX_OK only if some copy holds all of the data. *)
Theorem write_done op d :
  NandLaws (nand_info_ d) -> dev_ok d -> op_ok (nand_info_ d) op ->
  (exists st grown d', WriteLocked op None d = Done (st, grown, d') /\
    dev_ok d' /\ nand_info_ d' = nand_info_ d /\ copy_count_ d' = copy_count_ d /\
    grown = (bad_count d <? bad_count d')%nat /\ (bad_count d <= bad_count d')%nat /\
    (st = ZX_OK -> exists c, 0 <= c < copy_count_ d /\ all_written op d' c)) \/
  WriteLocked op None d = Panic /\ list_unreadable.
Proof using Type.
  intros HL Hd Hop. destruct (write_copies_spec op (nand_info_ d) Hop (seqZ 0 (copy_count_ d)) false false d Hd eq_refl (NoDup_seqZ _ _))
    as [(st & grown & d' & E & [S1 [] S3 S4 S5 S6 _])|Hp]; [intros c ?%elem_of_seqZ; lia| |by right].
  left. exists st, grown, d'. split_and!; [done..|]. intros Hst. destruct (S6 Hst) as [|(c & Hc%elem_of_seqZ & Hw)]; [done|]. exists c. split; [lia|done].
Qed.
End run.
