(* ===== verification/SkipBlockRead.v ===== *)
(** * SkipBlockRead: what has been written is read

    A read finds what the copies hold, and after a write, what was written. *)
From Stdlib Require Import ZArith Lia Sorted.
From stdpp Require Import prelude sorting.
From S2P Require Import Prelude SkipBlock SkipBlockMap SkipBlockRun.

Local Open Scope Z_scope.

(** A NAND whose reads do not fail. *)
Definition reads_succeed {N Page} `{!NandProtocol N Page} : Prop := forall off len n, (nand_read off len n).1.1 = ZX_OK.

Section read.
Context {N Page : Type} `{!NandProtocol N Page} `{!NandView N Page}.
Implicit Types (n : N) (v : Vmo Page) (op : ReadWriteOperation Page) (d : SkipBlockDevice N) (m : BlockMap) (info : NandInfo).

(** The VMO has what block [j] of a copy holds. *)
Definition block_read info op (G : list Z) n v (j : Z) : Prop :=
  exists b, G !! Z.to_nat j = Some b /\ forall q, 0 <= q < pages_per_block info -> v (vmo_page info op j q) = page_at n (b * pages_per_block info + q).

(** Pages of the VMO that the operation leaves alone from block [current] on. *)
Definition outside info op (current k : Z) : Prop := k < vmo_page info op current 0 \/ vmo_page info op (rw_block op + rw_block_count op) 0 <= k.

Lemma vmo_put_in off (l : list Page) v k x : l !! k = Some x -> vmo_put off l v (off + Z.of_nat k) = x.
Proof using Type. intros Hk. unfold vmo_put. destruct (Z.leb_spec off (off + Z.of_nat k)); [|lia]. replace (off + Z.of_nat k - off) with (Z.of_nat k) by lia. by rewrite Nat2Z.id, Hk. Qed.

Lemma vmo_put_out off (l : list Page) v k : k < off \/ off + Z.of_nat (length l) <= k -> vmo_put off l v k = v k.
Proof using Type.
  intros Hk. unfold vmo_put. destruct (Z.leb_spec off k); [|done]. rewrite lookup_ge_None_2; [done|lia].
Qed.

Record read_post info op (G : list Z) (current : Z) v n (st : zx_status) v' n' : Prop := {
  rp_bad : bad_of n' = bad_of n;
  rp_pages p : page_at n' p = page_at n p;
  rp_outside k : outside info op current k -> v' k = v k;
  rp_read : st = ZX_OK -> forall j, current <= j -> in_op op j -> block_read info op G n v' j;
  rp_fails : reads_succeed -> st <> ZX_OK -> exists j, in_op op j /\ G !! Z.to_nat j = None
}.

Lemma read_blocks_spec m info copy op fuel current physical v n :
  NandLaws info -> map_ok m -> 0 <= copy < copies_ m -> op_ok info op -> 0 < pages_per_block info -> block_count_ m * pages_per_block info < 2 ^ 32 ->
  in_op op current -> good_blocks m copy !! Z.to_nat current = Some physical -> rw_block op + rw_block_count op - current <= Z.of_nat fuel ->
  exists st v' n', read_blocks fuel m info copy op current physical (vmo_page info op current 0) v n = Done (st, v', n') /\
    read_post info op (good_blocks m copy) current v n st v' n'.
Proof using Type.
  intros HL Hm Hcopy Hop Hppb Hfit. revert current physical v n. induction fuel as [|fuel IH]; intros current physical v n Hc Hp Hf; [unfold in_op in Hc; lia|]. cbn [read_blocks].
  destruct (good_range m copy Hm Hcopy _ _ Hp) as [Hpr _]. rewrite (u32_small (physical * _)) by (unfold is_u32; nia).
  destruct (nand_read _ _ n) as [[st l] n1] eqn:E1. destruct (read_law _ _ _ _ _ _ E1 ltac:(lia)) as (R1 & R2 & R3 & R4).
  pose proof Hop as [O1 O2 O3 [O4 O4'] O5]. pose proof Hc as Hc'. unfold in_op in Hc'. set (v1 := vmo_put _ l v).
  assert (forall k, outside info op current k -> v1 k = v k) as Hout1.
  { intros k Hk. unfold v1. apply vmo_put_out. unfold outside, vmo_page in *. nia. }
  assert (st = ZX_OK -> block_read info op (good_blocks m copy) n v1 current) as Hread1.
  { intros ->. exists physical. split; [done|]. intros q Hq. rewrite (R4 eq_refl) in R3. unfold v1. rewrite (R4 eq_refl).
    replace (vmo_page info op current q) with (vmo_page info op current 0 + Z.of_nat (Z.to_nat q)) by (unfold vmo_page; lia). apply vmo_put_in.
    rewrite list_lookup_fmap. assert (seqZ (physical * pages_per_block info) (pages_per_block info) !! Z.to_nat q = Some (physical * pages_per_block info + q)) as ->; [|done].
    apply lookup_seqZ. lia. }
  unfold last_block. rewrite !u32_small by (unfold is_u32; lia).
  destruct (bool_decide_reflect (st = ZX_OK)) as [->|Hne]; cbn [negb orb].
  2:{ eexists _, _, _. split; [done|]. constructor; try done. intros Hs _. specialize (Hs (physical * pages_per_block info) (pages_per_block info) n). by rewrite E1 in Hs. }
  destruct (Z.eqb_spec (current + 1) (rw_block op + rw_block_count op)) as [Hlast|Hmore].
  { eexists _, _, _. split; [done|]. constructor; try done. intros _ j Hj Hj'. unfold in_op in Hj'. replace j with current by lia. by apply Hread1. }
  rewrite (get_physical_G m copy Hm Hcopy) by lia. destruct (good_blocks m copy !! Z.to_nat (current + 1)) as [physical'|] eqn:Ep; cbn [mbind exec_bind].
  2:{ rewrite bool_decide_false by done. eexists _, _, _. split; [done|]. constructor; try done. intros _ _. exists (current + 1). split; [unfold in_op; lia|done]. }
  rewrite bool_decide_true by done. cbn [negb]. rewrite u64_small by (unfold is_u64, vmo_page; nia).
  replace (vmo_page info op current 0 + pages_per_block info) with (vmo_page info op (current + 1) 0) by (unfold vmo_page; lia).
  destruct (IH (current + 1) physical' v1 n1) as (st & v' & n' & -> & [P1 P2 P3 P4 P5]); [unfold in_op; lia|done|lia|].
  eexists _, _, _. split; [done|]. constructor; [congruence|intros p; by rewrite P2| | |done].
  - intros k Hk. rewrite P3 by (unfold outside, vmo_page in *; nia). by apply Hout1.
  - intros Hst j Hj Hj'. destruct (decide (j = current)) as [->|].
    + destruct (Hread1 eq_refl) as (b & Hb & Hq). exists b. split; [done|]. intros q Hq'. rewrite <- Hq by done. apply P3. left. unfold vmo_page. lia.
    + destruct (P4 Hst j ltac:(lia) Hj') as (b & Hb & Hq). exists b. split; [done|]. intros q Hq'. rewrite Hq by done. apply R2.
Qed.

(** The VMO has what the copy holds; the copy has all of the blocks. *)
Definition copy_read op d v (c : Z) : Prop := forall j, in_op op j -> block_read (nand_info_ d) op (good d c) (sd_nand d) v j.
Definition has_blocks op d (c : Z) : Prop := forall j, in_op op j -> is_Some (good d c !! Z.to_nat j).

(** [ReadLocked] does not give up at this copy because of where the range starts. *)
Definition starts_in op d (c : Z) : Prop := Z.of_nat (length (good d c)) < rw_block_count op \/ rw_block op < Z.of_nat (length (good d c)).

Lemma has_length op d c : op_ok (nand_info_ d) op -> has_blocks op d c -> rw_block op + rw_block_count op <= Z.of_nat (length (good d c)).
Proof using Type.
  intros [O1 O2 O3 _ _] Hh. destruct (Hh (rw_block op + rw_block_count op - 1)) as [b Hb%lookup_lt_Some]; [unfold in_op; lia|]. lia.
Qed.

Record copies_read op (cs : list Z) v d (st : zx_status) v' d' : Prop := {
  cr_info : nand_info_ d' = nand_info_ d;
  cr_copies : copy_count_ d' = copy_count_ d;
  cr_map : block_map_ d' = block_map_ d;
  cr_bad : bad_of (sd_nand d') = bad_of (sd_nand d);
  cr_pages p : page_at (sd_nand d') p = page_at (sd_nand d) p;
  cr_outside k : outside (nand_info_ d) op (rw_block op) k -> v' k = v k;
  cr_read : st = ZX_OK -> exists c, c ∈ cs /\ copy_read op d v' c;
  cr_ok : reads_succeed -> (forall c, c ∈ cs -> starts_in op d c) -> (exists c, c ∈ cs /\ has_blocks op d c) -> st = ZX_OK
}.

(** The other copies after one that gave nothing. *)
Lemma copies_read_next op c cs v v1 d d1 st v' d' :
  nand_info_ d1 = nand_info_ d -> copy_count_ d1 = copy_count_ d -> block_map_ d1 = block_map_ d -> bad_of (sd_nand d1) = bad_of (sd_nand d) ->
  (forall p, page_at (sd_nand d1) p = page_at (sd_nand d) p) -> (forall k, outside (nand_info_ d) op (rw_block op) k -> v1 k = v k) ->
  (reads_succeed -> ~ has_blocks op d c) ->
  copies_read op cs v1 d1 st v' d' -> copies_read op (c :: cs) v d st v' d'.
Proof using Type.
  intros E1 E2 E3 E4 E5 E6 Hno [C1 C2 C3 C4 C5 C6 C7 C8]. rewrite E1 in *. constructor; try congruence.
  - intros k Hk. rewrite C6 by done. by apply E6.
  - intros Hst. destruct (C7 Hst) as (c' & Hc' & Hr). exists c'. split; [set_solver|]. intros j Hj. destruct (Hr j Hj) as (b & Hb & Hq). exists b. rewrite E1 in Hq. split.
    + unfold good in *. by rewrite <- E3.
    + intros q Hq'. by rewrite Hq, E5.
  - intros Hs Hst (c' & [->|Hc']%elem_of_cons & Hh); [by destruct (Hno Hs)|]. apply C8; [done| |].
    + intros c'' Hc''. specialize (Hst c'' ltac:(set_solver)). unfold starts_in, good in *. by rewrite E3.
    + exists c'. split; [done|]. intros j Hj. unfold good. rewrite E3. by apply Hh.
Qed.

Lemma read_copies_spec op cs v d :
  NandLaws (nand_info_ d) -> dev_ok d -> op_ok (nand_info_ d) op -> (forall c, c ∈ cs -> 0 <= c < copy_count_ d) ->
  exists st v' d', read_copies cs op v d = Done (st, v', d') /\ copies_read op cs v d st v' d'.
Proof using Type.
  revert v d. induction cs as [|c cs IH]; intros v d HL Hd Hop Hr; cbn [read_copies].
  { eexists _, _, _. split; [done|]. constructor; try done. by intros _ _ (c & []%not_elem_of_nil & _). }
  pose proof Hd as [H1 H2 H3 H4 H5 H6]. assert (0 <= c < copy_count_ d) as Hc by (apply Hr; set_solver). pose proof Hop as [O1 O2 O3 O4 O5].
  destruct (physical_at _ H1 c ltac:(lia) (rw_block op) ltac:(lia)) as (-> & -> & _ & _). cbn [mbind exec_bind]. change (good_blocks (block_map_ d) c) with (good d c).
  destruct (Z.ltb_spec (Z.of_nat (length (good d c))) (rw_block_count op)) as [Hsm|Hbig].
  { destruct (IH v d HL Hd Hop) as (st & v' & d' & -> & Hcr); [set_solver|]. eexists _, _, _. split; [done|]. apply (copies_read_next op c cs v v d d); try done.
    intros _ Hh%has_length; [lia|done]. }
  destruct (good d c !! Z.to_nat (rw_block op)) as [physical|] eqn:Ep; cbn [mbind exec_bind].
  2:{ rewrite bool_decide_false by done. eexists _, _, _. split; [done|]. constructor; try done. intros _ Hst _. apply lookup_ge_None in Ep.
      destruct (Hst c); [set_solver|lia|lia]. }
  rewrite bool_decide_true by done. cbn [negb].
  destruct (read_blocks_spec (block_map_ d) (nand_info_ d) c op (op_fuel op) (rw_block op) physical v (sd_nand d)) as (st & v1 & n1 & E & [P1 P2 P3 P4 P5]);
    [done|done|lia|done|done|by rewrite H3|unfold in_op; lia|done|unfold op_fuel; lia|].
  replace (vmo_page (nand_info_ d) op (rw_block op) 0) with (rw_vmo_offset op) in E by (unfold vmo_page; lia). rewrite E. cbn [mbind exec_bind].
  destruct (bool_decide_reflect (st = ZX_OK)) as [->|Hne].
  { eexists _, _, _. split; [done|]. constructor; try done. intros _. exists c. split; [set_solver|]. intros j Hj. apply P4; [done|unfold in_op in Hj; lia|done]. }
  destruct (IH v1 (set_nand n1 d)) as (st' & v' & d' & -> & Hcr); [done|by constructor; simpl; rewrite ?P1|done|set_solver|].
  eexists _, _, _. split; [done|]. apply (copies_read_next op c cs v v1 d (set_nand n1 d)); try done. intros Hs Hh. destruct (P5 Hs Hne) as (j & Hj & Hnone). destruct (Hh j Hj) as [b Hb]. unfold good in Hb. congruence.
Qed.

(** C16. What is written is read. On a NAND that fails with ZX_ERR_IO only, once a write has been answered with ZX_OK, a read
    of the same blocks returns, changes nothing of the NAND, and writes only the pages of its VMO that it was given. If
    it answers ZX_OK, the pages are those that were written, whichever copy it found them in: no copy has older
    data. If the NAND can be read and no copy ends before the range starts, the read succeeds. *)
Theorem write_read op op' d grown d' :
  NandLaws (nand_info_ d) -> io_only -> dev_ok d -> op_ok (nand_info_ d) op -> op_ok (nand_info_ d) op' ->
  rw_block op' = rw_block op -> rw_block_count op' = rw_block_count op ->
  WriteLocked op None d = Done (ZX_OK, grown, d') ->
  exists st v d'', ReadLocked op' d' = Done (st, v, d'') /\
    (forall p, page_at (sd_nand d'') p = page_at (sd_nand d') p) /\ bad_of (sd_nand d'') = bad_of (sd_nand d') /\
    (forall k, outside (nand_info_ d) op' (rw_block op) k -> v k = rw_vmo op' k) /\
    (st = ZX_OK -> forall j q, in_op op j -> 0 <= q < ppb d -> v (vmo_page (nand_info_ d) op' j q) = rw_vmo op (vmo_page (nand_info_ d) op j q)) /\
    (reads_succeed -> (forall c, 0 <= c < copy_count_ d -> starts_in op d' c) -> st = ZX_OK).
Proof using Type.
  intros HL Hio Hd Hop Hop' Eb Ec Ew.
  destruct (write_copies_spec op (nand_info_ d) Hop (seqZ 0 (copy_count_ d)) false false d Hd eq_refl (NoDup_seqZ _ _))
    as [(st & grown' & d1 & Ew' & [S1 [Si Sc] S3 S4 S5 S6 S7])|[Ew' _]]; [intros c ?%elem_of_seqZ; lia| |unfold WriteLocked in Ew; congruence].
  unfold WriteLocked in Ew. rewrite Ew in Ew'. injection Ew' as <- <- <-.
  assert (forall j, in_op op' j <-> in_op op j) as Hin by (intros; unfold in_op; by rewrite Eb, Ec).
  destruct (read_copies_spec op' (seqZ 0 (copy_count_ d')) (rw_vmo op') d') as (st & v & d'' & E & [C1 C2 C3 C4 C5 C6 C7 C8]);
    [by rewrite Si|done|by rewrite Si|intros c ?%elem_of_seqZ; lia|].
  exists st, v, d''. split_and!; [done|done|done|by rewrite Si, Eb in C6| |].
  - intros Hst j q Hj Hq. destruct (C7 Hst) as (c & Hc & Hr). rewrite Sc in Hc. destruct (Hr j) as (b & Hb & Hbq); [by apply Hin|].
    rewrite Si in Hbq. rewrite Hbq by done. destruct (S7 Hio eq_refl c Hc) as [Hw|(j' & Hj' & Hnone)].
    + destruct (Hw j Hj) as (b' & Hb' & Hbq'). rewrite Hb in Hb'. injection Hb' as <-. rewrite Si in Hbq'. by apply Hbq'.
    + destruct (Hr j') as (b' & Hb' & _); [by apply Hin|]. congruence.
  - intros Hs Hst. apply C8; [done| |].
    + intros c ?%elem_of_seqZ. unfold starts_in. rewrite Eb, Ec. apply Hst. lia.
    + destruct (S6 eq_refl) as [|(c & Hc & Hw)]; [done|]. exists c. rewrite Sc. split; [done|]. intros j Hj%Hin. destruct (Hw j Hj) as (b & Hb & _). by exists b.
Qed.
End read.

(** ** A flash *)

Module FlashExample.
(** Blocks of two pages of sixteen bytes; worn blocks can be neither erased nor written. *)
Definition info : NandInfo := mkNandInfo 16 2 8.

(** [error]: how the worn blocks fail. *)
Record Flash (error : zx_status) := mkFlash {
  fl_pages : Z -> Z;
  fl_bad : list Z;
  fl_worn : list Z
}.
Arguments mkFlash {_} _ _ _.
Arguments fl_pages {_} _ _.
Arguments fl_bad {_} _.
Arguments fl_worn {_} _.

Section flash.
Context {error : zx_status}.

Definition set_pages (off : Z) (l : list Z) (f : Flash error) : Flash error := mkFlash (vmo_put off l (fl_pages f)) (fl_bad f) (fl_worn f).

#[global] Instance flash_nand : NandProtocol (Flash error) Z := {
  nand_erase b f := if bool_decide (b ∈ fl_worn f) then (error, f) else (ZX_OK, set_pages (b * 2) [0; 0] f);
  nand_write off l f := if bool_decide (off / 2 ∈ fl_worn f) then (error, f) else (ZX_OK, set_pages off l f);
  nand_read off len f := (ZX_OK, fl_pages f <$> seqZ off len, f);
  nand_bad_blocks k f := (ZX_OK, take k (fl_bad f), length (fl_bad f));
  nand_mark_bad b f := (ZX_OK, mkFlash (fl_pages f) (b :: fl_bad f) (fl_worn f))
}.

#[global] Instance flash_view : NandView (Flash error) Z := { page_at := fl_pages; bad_of := fl_bad }.

Lemma flash_laws : error <> ZX_OK -> NandLaws (N := Flash error) info.
Proof.
  intros Herr. split; unfold in_block; cbn -[Z.mul Z.add Z.div].
  - intros b f st f'. case_bool_decide; intros [= <- <-]; [done|]. split; [done|]. intros p Hp. apply vmo_put_out. simpl. lia.
  - intros b off l f st f'. case_bool_decide; intros [= <- <-] H1 H2; (split; [done|]); split; [done|by intros ?%Herr| |].
    + intros p Hp. apply vmo_put_out. lia.
    + intros _ j x Hj. by apply vmo_put_in.
  - intros off len f st l f' [= <- <- <-] Hl. split_and!; [done..| |done]. rewrite length_fmap, length_seqZ. lia.
  - by intros k f l count [= <- <-].
  - by intros b f st f' [= <- <-].
Qed.

Definition device (bad worn : list Z) : SkipBlockDevice (Flash error) := mkSkipBlock info 2 (mkBlockMap 2 8 bad) (mkFlash (fun _ => 7) bad worn).

Lemma device_ok bad worn : StronglySorted Z.lt bad -> Forall (fun b => 0 <= b < 8) bad -> dev_ok (device bad worn).
Proof. intros Hs Hr. constructor; simpl; try lia; try done. Qed.

(** What clients see of a write, and of a read after it. *)
Definition wrote (r : exec (zx_status * bool * SkipBlockDevice (Flash error))) : option (zx_status * bool * list Z) :=
  match r with Done (st, grown, d) => Some (st, grown, bad_blocks_ (block_map_ d)) | Panic => None end.
Definition after (r : exec (zx_status * bool * SkipBlockDevice (Flash error))) (op : ReadWriteOperation Z) : option (zx_status * list Z) :=
  match r with
  | Done (_, _, d) => match ReadLocked op d with Done (st, v, _) => Some (st, v <$> seqZ 0 9) | Panic => None end
  | Panic => None
  end.
End flash.

(** The pages 10, 11, 12, ...; and a VMO into which to read from page 3 on. *)
Definition op (block count : Z) : ReadWriteOperation Z := mkRw (fun k => 10 + k) 0 block count.
Definition read_op (block count : Z) : ReadWriteOperation Z := mkRw (fun _ => 0) 3 block count.

Lemma op_is_ok block count : 0 <= block -> 0 < count -> block + count < 100 -> op_ok info (op block count) /\ op_ok info (read_op block count).
Proof. intros. split; constructor; simpl; lia. Qed.

Lemma flash_io : io_only (N := Flash ZX_ERR_IO).
Proof. split; intros; simpl in *; case_bool_decide; simplify_eq; auto. Qed.

(** Block 1 is bad and block 2 about to be. *)
Definition worn_device : SkipBlockDevice (Flash ZX_ERR_IO) := device [1] [2].

Lemma physical_exact_witness : GetPhysical (mkBlockMap 2 8 [1; 2]) 0 1 = Done (ZX_OK, 3).
Proof.
  destruct (physical_exact (mkBlockMap 2 8 [1; 2]) ltac:(apply (device_ok (error := ZX_ERR_IO) [1; 2] []); [repeat constructor|repeat constructor; lia]) 0 ltac:(simpl; lia) 1 ltac:(lia))
    as (E & _). exact E.
Defined.

Lemma write_done_witness :
  wrote (WriteLocked (op 0 2) None worn_device) = Some (ZX_OK, true, [1; 2]) /\
  exists d', (exists grown, WriteLocked (op 0 2) None worn_device = Done (ZX_OK, grown, d')) /\ exists c, all_written (op 0 2) d' c.
Proof.
  split; [reflexivity|]. destruct (write_done (op 0 2) worn_device) as [(st & grown & d' & E & _ & _ & _ & _ & _ & Hw)|[E _]].
  - by apply flash_laws.
  - apply device_ok; repeat constructor; lia.
  - by apply op_is_ok.
  - assert (st = ZX_OK) as ->. { assert (wrote (WriteLocked (op 0 2) None worn_device) = Some (ZX_OK, true, [1; 2])) as Hv by reflexivity. rewrite E in Hv. by injection Hv. }
    exists d'. split; [by exists grown|]. destruct (Hw eq_refl) as (c & _ & Hc). by exists c.
  - by vm_compute in E.
Defined.

Lemma write_read_witness :
  after (WriteLocked (op 0 2) None worn_device) (read_op 0 2) = Some (ZX_OK, [0; 0; 0; 10; 11; 12; 13; 0; 0]) /\
  exists grown d' st v d'', WriteLocked (op 0 2) None worn_device = Done (ZX_OK, grown, d') /\ ReadLocked (read_op 0 2) d' = Done (st, v, d'') /\ (st = ZX_OK -> v 6 = 13).
Proof.
  split; [reflexivity|]. destruct (WriteLocked (op 0 2) None worn_device) as [[[st grown] d']|] eqn:E; [|by vm_compute in E].
  assert (st = ZX_OK) as ->. { assert (wrote (WriteLocked (op 0 2) None worn_device) = Some (ZX_OK, true, [1; 2])) as Hv by reflexivity. rewrite E in Hv. by injection Hv. }
  destruct (write_read (op 0 2) (read_op 0 2) worn_device grown d') as (st & v & d'' & Er & _ & _ & _ & Hd & _);
    [by apply flash_laws|apply flash_io|apply device_ok; repeat constructor; lia|by apply op_is_ok|by apply op_is_ok|done|done|done|].
  exists grown, d', st, v, d''. split_and!; [done|done|]. intros Hst. by apply (Hd Hst 1 1); unfold in_op; simpl.
Defined.

(** The same flash, but the list of bad blocks cannot be read. *)
Definition blind_nand : NandProtocol (Flash ZX_ERR_IO) Z := {|
  nand_erase := nand_erase; nand_write := nand_write; nand_read := nand_read; nand_bad_blocks := fun _ _ => (ZX_ERR_IO, [], 0%nat); nand_mark_bad := nand_mark_bad
|}.

(** A write on it that meets a worn block aborts the driver, though every law holds. *)
Lemma unreadable_list_aborts :
  NandLaws (NandProtocol0 := blind_nand) info /\ WriteLocked (NandProtocol0 := blind_nand) (op 0 2) None worn_device = Panic.
Proof. split; [|reflexivity]. destruct (flash_laws (error := ZX_ERR_IO) ltac:(done)) as [L1 L2 L3 L4 L5]. by constructor. Qed.

(** A range that ends above 2^32 passes the validation, and [GetPhysical] gives it block 0, or a block of another copy. *)
Lemma physical_wraps :
  ValidateReadWrite (op (2 ^ 32 - 1) 2) (ZX_OK, 64) (device (error := ZX_ERR_IO) [1] []) = Done ZX_OK /\
  GetPhysical (mkBlockMap 2 8 [1]) 0 (2 ^ 32 - 1) = Done (ZX_OK, 0) /\ GetPhysical (mkBlockMap 2 8 []) 1 (2 ^ 32 - 1) = Done (ZX_OK, 3) /\ end_block (mkBlockMap 2 8 []) 0 = 3.
Proof. split_and!; reflexivity. Qed.

(** Where copies do not help. A write answered with ZX_OK is not read back if a copy has enough blocks for the length of
    the range but ends before it starts: the read answers ZX_ERR_OUT_OF_RANGE though the other copy holds the data. If
    a block fails with another status than ZX_ERR_IO, the copy is left half written, the write is answered with ZX_OK
    because of the other copy, and the read finds the first: old pages after new ones. The validation takes the offset
    in the VMO for bytes, the NAND for pages: a read of 32 bytes at offset 1 into a VMO of 33 bytes is accepted, and
    touches the bytes from 16 to 48. *)
Theorem skip_block_faults :
  (let w := WriteLocked (op 2 2) None (device (error := ZX_ERR_IO) [1; 2] []) in
   wrote w = Some (ZX_OK, false, [1; 2]) /\ after w (read_op 2 2) = Some (ZX_ERR_OUT_OF_RANGE, [0; 0; 0; 0; 0; 0; 0; 0; 0])) /\
  (let w := WriteLocked (op 0 2) None (device (error := ZX_ERR_INTERNAL) [] [1]) in
   wrote w = Some (ZX_OK, false, []) /\ after w (read_op 0 2) = Some (ZX_OK, [0; 0; 0; 10; 11; 7; 7; 0; 0])) /\
  (let read := mkRw (fun _ => 0) 1 0 1 in
   ValidateReadWrite read (ZX_OK, 33) worn_device = Done ZX_OK /\
   exists v, SkipBlock_Read read (ZX_OK, 33) worn_device = Done (ZX_OK, v, worn_device) /\ v 1 = 7 /\ v 2 = 7 /\ 33 < (2 + 1) * page_size info).
Proof. split; [split; reflexivity|]. split; [split; reflexivity|]. split; [reflexivity|]. eexists. split; [reflexivity|]. split_and!; reflexivity. Qed.
End FlashExample.
