(* ===== verification/VirtioRing.v ===== *)
(** * VirtioRing: the rings of a virtio device

    Model of [src/devices/bus/lib/virtio/ring.cc] and [include/lib/virtio/ring.h]. A ring has a table of descriptors; those
    not in use are linked into a free list through their [next] fields, those of a request into a chain. Chains are
    handed to the device through the ring [avail] and come back through the ring [used]. *)
From Stdlib Require Import ZArith Lia.
From stdpp Require Import prelude gmap.
From S2P Require Import Prelude.

Local Open Scope Z_scope.

Definition u16 (z : Z) : Z := z mod 2 ^ 16.

(** ** The layout of the ring *)

(** The flags of [virtio_ring.h], and the page size. *)
Class VirtioAbi := {
  VRING_DESC_F_NEXT : Z;
  VRING_DESC_F_WRITE : Z;
  kPageSize : Z
}.

Class VirtioAbiOk `{!VirtioAbi} : Prop := {
  next_flag : exists k, 0 <= k < 16 /\ VRING_DESC_F_NEXT = 2 ^ k;
  write_flag : exists k, 0 <= k < 16 /\ VRING_DESC_F_WRITE = 2 ^ k;
  flags_differ : VRING_DESC_F_NEXT <> VRING_DESC_F_WRITE;
  page_size_power : exists k, 0 < k < 32 /\ kPageSize = 2 ^ k
}.

Record vring_desc := mkDesc {
  addr : Z;
  len : Z;
  flags : Z;
  next : Z
}.

(** [struct vring], with the arrays [desc], [avail->ring] and [used->ring] by index. *)
Record vring := mkVring {
  num : Z;
  num_mask : Z;
  free_list : Z;
  free_count : Z;
  last_used : Z;
  desc : gmap Z vring_desc;
  avail_idx : Z;
  avail_ring : gmap Z Z;
  used_idx : Z;
  used_ring : gmap Z Z
}.

Definition set_free (l c : Z) (r : vring) : vring :=
  mkVring (num r) (num_mask r) l c (last_used r) (desc r) (avail_idx r) (avail_ring r) (used_idx r) (used_ring r).
Definition set_desc (ds : gmap Z vring_desc) (r : vring) : vring :=
  mkVring (num r) (num_mask r) (free_list r) (free_count r) (last_used r) ds (avail_idx r) (avail_ring r) (used_idx r) (used_ring r).
Definition set_avail (idx : Z) (a : gmap Z Z) (r : vring) : vring :=
  mkVring (num r) (num_mask r) (free_list r) (free_count r) (last_used r) (desc r) idx a (used_idx r) (used_ring r).
Definition set_used (idx : Z) (u : gmap Z Z) (r : vring) : vring :=
  mkVring (num r) (num_mask r) (free_list r) (free_count r) (last_used r) (desc r) (avail_idx r) (avail_ring r) idx u.
Definition set_last_used (x : Z) (r : vring) : vring :=
  mkVring (num r) (num_mask r) (free_list r) (free_count r) x (desc r) (avail_idx r) (avail_ring r) (used_idx r) (used_ring r).

(** A store past the end of an array is a [Panic]. *)
Definition put_desc (i : Z) (d : vring_desc) (r : vring) : exec vring :=
  match desc r !! i with None => Panic | Some _ => Done (set_desc (<[i := d]> (desc r)) r) end.

Definition get_desc (i : Z) (r : vring) : exec vring_desc := match desc r !! i with None => Panic | Some d => Done d end.

Definition set_next (n : Z) (d : vring_desc) : vring_desc := mkDesc (addr d) (len d) (flags d) n.

(** ** Operations *)

Section ring.
Context {abi : VirtioAbi}.

Definition FreeDesc (desc_index : Z) (r : vring) : exec vring :=
  d ← get_desc desc_index r;
  r ← put_desc desc_index (set_next (free_list r) d) r;
  Done (set_free desc_index (u16 (free_count r + 1)) r).

Definition has_next (d : vring_desc) : bool := negb (Z.land (flags d) VRING_DESC_F_NEXT =? 0).

(** The descriptor in front of the one taken last. *)
Definition link_desc (last : option Z) (d : vring_desc) : vring_desc :=
  match last with
  | Some last_index => mkDesc (addr d) (len d) (Z.lor (flags d) VRING_DESC_F_NEXT) last_index
  | None => mkDesc (addr d) (len d) (Z.land (flags d) (u16 (Z.lnot VRING_DESC_F_NEXT))) 0
  end.

Fixpoint alloc_loop (count : nat) (last : option Z) (r : vring) : exec (option Z * vring) :=
  match count with
  | O => Done (last, r)
  | S count =>
      let i := free_list r in
      (ASSERT (i <? num r);;
       d ← get_desc i r;
       r ← put_desc i (link_desc last d) (set_free (next d) (u16 (free_count r - 1)) r);
       alloc_loop count (Some i) r)%exec
  end.

(** The index of the first descriptor of the chain, if there are enough. *)
Definition AllocDescChain (count : Z) (r : vring) : exec (option Z * vring) :=
  if free_count r <? count then Done (None, r) else alloc_loop (Z.to_nat count) None r.

Definition SubmitChain (desc_index : Z) (r : vring) : exec vring :=
  let slot := Z.land (avail_idx r) (num_mask r) in
  match avail_ring r !! slot with
  | None => Panic
  | Some _ => Done (set_avail (u16 (avail_idx r + 1)) (<[slot := desc_index]> (avail_ring r)) r)
  end.

(** The entry of [used] at which the loop of [IrqRingUpdate] looks; none once it is at the index read before. *)
Definition used_elem (i cur_idx : Z) (r : vring) : exec (option Z) :=
  if i =? cur_idx then Done None
  else match used_ring r !! Z.land i (num_mask r) with None => Panic | Some id => Done (Some id) end.

Fixpoint free_all (count : nat) (i : Z) (r : vring) : exec vring :=
  match count with O => Done r | S count => r ← FreeDesc i r; free_all count (u16 (i + 1)) r end.

(** [vring_init]: the tables in the memory that has been allocated. [max_ring_size]: what the device offers. *)
Definition Ring_Init (vring_init : Z -> vring) (io_buffer_init : zx_status) (max_ring_size count : Z) (r : vring) : exec (zx_status * vring) :=
  if negb ((0 <? count) && (Z.land count (count - 1) =? 0)) then Done (ZX_ERR_INVALID_ARGS, r)
  else if max_ring_size <? count then Done (ZX_ERR_OUT_OF_RANGE, r)
  else if negb (bool_decide (io_buffer_init = ZX_OK)) then Done (io_buffer_init, r)
  else r ← free_all (Z.to_nat count) 0 (set_free 65535 0 (vring_init count)); Done (ZX_OK, r).

(** ** Well-formed rings *)

(** The descriptors [l] are linked by [next], from [i] to the end of the list. *)
Fixpoint linked (ds : gmap Z vring_desc) (i : Z) (l : list Z) : Prop :=
  match l with
  | [] => i = 65535
  | j :: l => i = j /\ exists d, ds !! j = Some d /\ linked ds (next d) l
  end.

(** The descriptors [l] are a chain. *)
Fixpoint chain (ds : gmap Z vring_desc) (l : list Z) : Prop :=
  match l with
  | [] => False
  | i :: l => exists d, ds !! i = Some d /\
      match l with [] => has_next d = false | j :: _ => has_next d = true /\ next d = j /\ chain ds l end
  end.

(** A ring of [2 ^ w] descriptors of which [fl] are free. *)
Record ring_ok (w : Z) (fl : list Z) (r : vring) : Prop := {
  ro_width : 0 <= w < 16;
  ro_num : num r = 2 ^ w;
  ro_mask : num_mask r = 2 ^ w - 1;
  ro_desc i : is_Some (desc r !! i) <-> 0 <= i < 2 ^ w;
  ro_avail i : is_Some (avail_ring r !! i) <-> 0 <= i < 2 ^ w;
  ro_used i : is_Some (used_ring r !! i) <-> 0 <= i < 2 ^ w;
  ro_linked : linked (desc r) (free_list r) fl;
  ro_count : free_count r = Z.of_nat (length fl);
  ro_nodup : NoDup fl
}.

Lemma linked_frame ds i l j d : j ∉ l -> linked ds i l -> linked (<[j := d]> ds) i l.
Proof using Type.
  revert i. induction l as [|k l IH]; intros i Hj Hl; [done|]. apply not_elem_of_cons in Hj as [Hjk Hj]. destruct Hl as [-> (d' & Hd & Hl)].
  split; [done|]. exists d'. rewrite lookup_insert_ne by done. split; [done|by apply IH].
Qed.

Lemma chain_frame ds l j d : j ∉ l -> chain ds l -> chain (<[j := d]> ds) l.
Proof using Type.
  induction l as [|k l IH]; intros Hj Hl; [done|]. apply not_elem_of_cons in Hj as [Hjk Hj]. destruct Hl as (d' & Hd & Hl).
  exists d'. rewrite lookup_insert_ne by done. split; [done|]. destruct l; [done|]. destruct Hl as (? & ? & ?). split_and!; [done..|by apply IH].
Qed.

Lemma chain_ext ds ds' l : (forall i, i ∈ l -> ds' !! i = ds !! i) -> chain ds l -> chain ds' l.
Proof using Type.
  induction l as [|k l IH]; intros Hl Hc; [done|]. destruct Hc as (d & Hd & Hc). exists d. rewrite Hl by set_solver. split; [done|].
  destruct l; [done|]. destruct Hc as (? & ? & ?). split_and!; [done..|]. apply IH; [|done]. intros; apply Hl; set_solver.
Qed.

Lemma linked_in ds i l j : linked ds i l -> j ∈ l -> is_Some (ds !! j).
Proof using Type.
  revert i. induction l as [|k l IH]; intros i Hl Hj; [by apply not_elem_of_nil in Hj|]. destruct Hl as [-> (d & Hd & Hl)].
  apply elem_of_cons in Hj as [->|Hj]; [by exists d|by eapply IH].
Qed.

Lemma free_in w fl r i : ring_ok w fl r -> i ∈ fl -> 0 <= i < 2 ^ w.
Proof using Type. intros H Hi. apply (ro_desc _ _ _ H). eapply linked_in; [apply H|done]. Qed.

Lemma ring_range w fl r : ring_ok w fl r -> 0 < 2 ^ w <= 2 ^ 15 /\ Z.of_nat (length fl) <= 2 ^ w.
Proof using Type.
  intros H. pose proof (ro_width _ _ _ H) as Hw. assert (0 < 2 ^ w) by (apply Z.pow_pos_nonneg; lia). assert (2 ^ w <= 2 ^ 15) by (apply Z.pow_le_mono_r; lia).
  split; [lia|]. rewrite <- (Z.max_r 0 (2 ^ w)) by lia. apply NoDup_Z_length; [apply H|]. intros i Hi. by eapply free_in.
Qed.

Lemma u16_small x : 0 <= x < 2 ^ 16 -> u16 x = x.
Proof using Type. apply Z.mod_small. Qed.

Lemma u16_range x : 0 <= u16 x < 2 ^ 16.
Proof using Type. apply Z.mod_pos_bound. lia. Qed.

(** The rings [avail] and [used] are as they were. *)
Record same_rings (r r' : vring) : Prop := {
  sr_num : num r' = num r;
  sr_avail_idx : avail_idx r' = avail_idx r;
  sr_avail : avail_ring r' = avail_ring r;
  sr_used_idx : used_idx r' = used_idx r;
  sr_used : used_ring r' = used_ring r;
  sr_last : last_used r' = last_used r
}.

#[global] Instance same_rings_preorder : PreOrder same_rings.
Proof. split; [by constructor|]. intros r1 r2 r3 [] []. constructor; congruence. Qed.

(** ** [FreeDesc] *)

Lemma free_desc_spec w fl r i :
  ring_ok w fl r -> 0 <= i < 2 ^ w -> i ∉ fl ->
  exists r', FreeDesc i r = Done r' /\ ring_ok w (i :: fl) r' /\ (forall j, j <> i -> desc r' !! j = desc r !! j) /\ same_rings r r'.
Proof using Type.
  intros H Hi Hf. pose proof (ring_range _ _ _ H) as [Hw Hl]. pose proof H as [H1 H2 H3 H4 H5 H6 H7 H8 H9].
  destruct (proj2 (H4 i) Hi) as [d Hd]. unfold FreeDesc, get_desc, put_desc. rewrite !Hd. cbn [mbind exec_bind].
  eexists. split; [done|]. split; [|split; [intros j Hj; simpl; by rewrite lookup_insert_ne|done]].
  constructor; simpl; try done.
  - intros j. rewrite lookup_insert_is_Some. rewrite H4. destruct (decide (i = j)); [subst; tauto|tauto].
  - split; [done|]. eexists. rewrite lookup_insert_eq. split; [done|]. simpl. by apply linked_frame.
  - rewrite u16_small; lia.
  - by constructor.
Qed.

(** ** [AllocDescChain] *)

Context {abi_ok : VirtioAbiOk}.

Lemma flag_bit x f k : 0 <= k -> f = 2 ^ k -> Z.land x f = 0 <-> Z.testbit x k = false.
Proof using Type.
  intros Hk ->. split.
  - intros E. apply (f_equal (fun z => Z.testbit z k)) in E. rewrite Z.land_spec, Z.pow2_bits_true, andb_true_r, Z.bits_0 in E by lia. done.
  - intros E. apply Z.bits_inj'. intros n Hn. rewrite Z.land_spec, Z.bits_0, Z.pow2_bits_eqb by lia. destruct (Z.eqb_spec k n) as [->|]; [by rewrite E|apply andb_false_r].
Qed.

Lemma link_has_next last d : has_next (link_desc last d) = bool_decide (is_Some last).
Proof using abi_ok.
  destruct next_flag as (k & Hk & E). unfold has_next, link_desc. destruct last as [l|]; cbn [flags].
  - rewrite bool_decide_true by done. apply negb_true_iff, Z.eqb_neq. rewrite (flag_bit _ _ k) by lia. rewrite Z.lor_spec, E, Z.pow2_bits_true by lia. by rewrite orb_true_r.
  - rewrite bool_decide_false by (intros [? [=]]). apply negb_false_iff, Z.eqb_eq. rewrite (flag_bit _ _ k) by lia.
    unfold u16. rewrite Z.land_spec, Z.mod_pow2_bits_low, Z.lnot_spec, E, Z.pow2_bits_true by lia. apply andb_false_r.
Qed.

Lemma alloc_loop_spec (n : nat) w fl acc r :
  ring_ok w fl r -> (n <= length fl)%nat -> (acc = [] \/ chain (desc r) acc) -> (forall i, i ∈ acc -> i ∉ fl) ->
  exists r', alloc_loop n (head acc) r = Done (head (reverse (take n fl) ++ acc), r') /\ ring_ok w (drop n fl) r' /\
    (reverse (take n fl) ++ acc = [] \/ chain (desc r') (reverse (take n fl) ++ acc)) /\
    (forall j, j ∉ take n fl -> desc r' !! j = desc r !! j) /\ same_rings r r'.
Proof using abi_ok.
  revert fl acc r. induction n as [|n IH]; intros fl acc r H Hn Hacc Hdis; [exists r; by rewrite take_0, reverse_nil|].
  pose proof (ring_range _ _ _ H) as [Hw Hl]. pose proof H as [H1 H2 H3 H4 H5 H6 H7 H8 H9]. destruct fl as [|i fl]; [simpl in Hn; lia|].
  destruct H7 as [Ei (d & Hd & Hlk)]. apply NoDup_cons in H9 as [Hi Hnd]. cbn [alloc_loop]. rewrite Ei, H2.
  destruct (Z.ltb_spec i (2 ^ w)) as [_|Hge]; [|destruct (proj1 (H4 i) (mk_is_Some _ _ Hd)); lia]. cbn [zx_assert exec_bind].
  unfold get_desc, put_desc. rewrite Hd. cbn [mbind exec_bind desc set_free]. rewrite Hd. cbn [exec_bind].
  set (r1 := set_desc _ _).
  destruct (IH fl (i :: acc) r1) as (r' & E & Hok & Hch & Hfr & Hs).
  - constructor; simpl; try done.
    + intros j. rewrite lookup_insert_is_Some, H4. destruct (decide (i = j)) as [->|]; [|tauto]. rewrite <- H4, Hd. split; [by eexists|by left].
    + by apply linked_frame.
    + rewrite H8. simpl length. rewrite u16_small; [lia|]. simpl length in Hl. lia.
  - simpl in Hn. lia.
  - right. cbn [chain]. exists (link_desc (head acc) d). simpl desc. rewrite lookup_insert_eq. split; [done|]. destruct Hacc as [->|Hc]; [by rewrite link_has_next|].
    destruct acc as [|j acc]; [done|]. cbn [head]. rewrite link_has_next, bool_decide_true by done. split_and!; [done..|]. apply chain_frame; [|done].
    intros Hin. apply (Hdis i Hin). set_solver.
  - intros j [->|Hj]%elem_of_cons; [done|]. intros Hin. apply (Hdis j Hj). set_solver.
  - cbn [take drop]. rewrite reverse_cons, <- app_assoc. cbn [app]. exists r'. split_and!; [done..| |].
    + intros j [Hne Hj]%not_elem_of_cons. rewrite Hfr by done. simpl. by rewrite lookup_insert_ne.
    + etransitivity; [|exact Hs]. done.
Qed.

Lemma alloc_spec w fl r (count : Z) :
  ring_ok w fl r -> 0 < count ->
  if Z.of_nat (length fl) <? count then AllocDescChain count r = Done (None, r)
  else exists i l r', AllocDescChain count r = Done (Some i, r') /\ i :: l = reverse (take (Z.to_nat count) fl) /\ ring_ok w (drop (Z.to_nat count) fl) r' /\
    chain (desc r') (i :: l) /\ (forall j, j ∉ i :: l -> desc r' !! j = desc r !! j) /\ same_rings r r'.
Proof using abi_ok.
  intros H Hc. unfold AllocDescChain. rewrite (ro_count _ _ _ H). destruct (Z.ltb_spec (Z.of_nat (length fl)) count) as [|Hle]; [done|].
  destruct (alloc_loop_spec (Z.to_nat count) w fl [] r H) as (r' & El & Hok & Hch & Hfr & Hs); [lia|by left|intros i []%not_elem_of_nil|].
  cbn [head] in El. rewrite El.   rewrite app_nil_r in *. destruct (reverse (take (Z.to_nat count) fl)) as [|i l] eqn:E.
  { apply (f_equal length) in E. rewrite length_reverse, length_take in E. simpl in E. lia. }
  exists i, l, r'. destruct Hch as [|Hch]; [done|]. split_and!; [done..| |done]. intros j Hj. apply Hfr. by rewrite <- elem_of_reverse, E.
Qed.

(** ** The rings [avail] and [used] *)

(** The entries [l] from index [start] on. *)
Definition entries {A} (w : Z) (buf : gmap Z A) (start : Z) (l : list A) : Prop :=
  Z.of_nat (length l) <= 2 ^ w /\ forall k x, l !! k = Some x -> buf !! ((start + Z.of_nat k) mod 2 ^ w) = Some x.

Lemma slot_mask w i : 0 <= w -> Z.land i (2 ^ w - 1) = i mod 2 ^ w.
Proof using Type. intros. rewrite <- Z.land_ones by lia. f_equal. rewrite Z.ones_equiv. lia. Qed.

Lemma slot_u16 w i k : 0 <= w < 16 -> (u16 i + k) mod 2 ^ w = (i + k) mod 2 ^ w.
Proof using Type.
  intros Hw. assert (0 < 2 ^ w) as Hp by (apply Z.pow_pos_nonneg; lia). unfold u16. rewrite <- (Zplus_mod_idemp_l (i mod 2 ^ 16)), <- (Zplus_mod_idemp_l i). f_equal. f_equal.
  replace 16 with (w + (16 - w)) by lia. rewrite Z.pow_add_r by lia. rewrite Z.rem_mul_r by nia. rewrite (Z.mul_comm (2 ^ w)), Z.mod_add by lia. apply Z.mod_mod. lia.
Qed.

Lemma entries_u16 {A} w (buf : gmap Z A) start l : 0 <= w < 16 -> entries w buf (u16 start) l <-> entries w buf start l.
Proof using Type. intros Hw. unfold entries. split; intros [H1 H2]; (split; [done|]); intros k x Hx; [rewrite <- slot_u16 by done|rewrite slot_u16 by done]; by apply H2. Qed.

Lemma entries_nil {A} w (buf : gmap Z A) start : 0 <= w -> entries w buf start [].
Proof using Type. intros. split; [simpl; apply Z.pow_nonneg; lia|done]. Qed.

Lemma entries_push {A} w (buf : gmap Z A) start l x :
  0 <= w < 16 -> entries w buf start l -> Z.of_nat (length l) < 2 ^ w -> entries w (<[(start + Z.of_nat (length l)) mod 2 ^ w := x]> buf) start (l ++ [x]).
Proof using Type.
  intros Hw [H1 H2] Hlt. split; [rewrite length_app; simpl; lia|]. intros k y Hk. apply lookup_app_Some in Hk as [Hk|[Hge Hk]].
  - rewrite lookup_insert_ne; [by apply H2|]. apply lookup_lt_Some in Hk. intros E.
    assert ((Z.of_nat (length l) - Z.of_nat k) mod 2 ^ w = 0) as E0.
    { replace (Z.of_nat (length l) - Z.of_nat k) with ((start + Z.of_nat (length l)) - (start + Z.of_nat k)) by lia. rewrite Zminus_mod, E, Z.sub_diag. done. }
    rewrite Z.mod_small in E0 by lia. lia.
  - apply list_lookup_singleton_Some in Hk as [Hk <-]. replace k with (length l) by lia. by rewrite lookup_insert_eq.
Qed.

Lemma entries_pop {A} w (buf : gmap Z A) start x l : entries w buf start (x :: l) -> buf !! (start mod 2 ^ w) = Some x /\ entries w buf (start + 1) l.
Proof using Type.
  intros [H1 H2]. split; [replace start with (start + Z.of_nat 0) by lia; by apply H2|]. simpl in H1. split; [lia|]. intros k y Hk.
  replace (start + 1 + Z.of_nat k) with (start + Z.of_nat (S k)) by lia. by apply H2.
Qed.

Lemma submit_spec w fl r i a l :
  ring_ok w fl r -> entries w (avail_ring r) a l -> avail_idx r = u16 (a + Z.of_nat (length l)) -> Z.of_nat (length l) < 2 ^ w ->
  exists r', SubmitChain i r = Done r' /\ ring_ok w fl r' /\ desc r' = desc r /\ entries w (avail_ring r') a (l ++ [i]) /\
    avail_idx r' = u16 (a + Z.of_nat (length (l ++ [i]))) /\ used_idx r' = used_idx r /\ used_ring r' = used_ring r /\ last_used r' = last_used r.
Proof using Type.
  intros H He Ha Hl. pose proof H as [H1 H2 H3 H4 H5 H6 H7 H8 H9]. unfold SubmitChain. rewrite H3, slot_mask by lia.
  assert (0 < 2 ^ w) as Hp by (apply Z.pow_pos_nonneg; lia).
  assert (avail_idx r mod 2 ^ w = (a + Z.of_nat (length l)) mod 2 ^ w) as Es.
  { rewrite Ha. rewrite <- (Z.add_0_r (u16 _)), slot_u16, Z.add_0_r by done. done. }
  rewrite Es. destruct (proj2 (H5 ((a + Z.of_nat (length l)) mod 2 ^ w))) as [y Hy]; [apply Z.mod_pos_bound; lia|]. rewrite Hy. eexists. split; [done|]. split_and!; try done.
  - constructor; simpl; try done. intros j. rewrite lookup_insert_is_Some, H5. destruct (decide ((a + Z.of_nat (length l)) mod 2 ^ w = j)) as [<-|]; [|tauto].
    pose proof (Z.mod_pos_bound (a + Z.of_nat (length l)) (2 ^ w)). tauto.
  - by apply entries_push.
  - simpl. rewrite Ha, length_app. simpl. unfold u16. rewrite Zplus_mod_idemp_l. f_equal. lia.
Qed.

(** ** [Init] *)

(** A ring as [vring_init] lays it out in zeroed memory. *)
Record fresh_vring (count : Z) (r : vring) : Prop := {
  fv_num : num r = count;
  fv_mask : num_mask r = count - 1;
  fv_desc i : is_Some (desc r !! i) <-> 0 <= i < count;
  fv_avail i : is_Some (avail_ring r !! i) <-> 0 <= i < count;
  fv_used i : is_Some (used_ring r !! i) <-> 0 <= i < count;
  fv_avail_idx : avail_idx r = 0;
  fv_used_idx : used_idx r = 0;
  fv_last : last_used r = 0
}.

Lemma free_all_spec (n : nat) w i fl r :
  ring_ok w fl r -> 0 <= i -> i + Z.of_nat n <= 2 ^ w -> (forall j, j ∈ fl -> j < i) ->
  exists r', free_all n i r = Done r' /\ ring_ok w (reverse (seqZ i (Z.of_nat n)) ++ fl) r' /\ same_rings r r'.
Proof using Type.
  revert i fl r. induction n as [|n IH]; intros i fl r H Hi Hn Hfl; [by exists r|]. pose proof (ring_range _ _ _ H) as [Hw _]. cbn [free_all].
  destruct (free_desc_spec w fl r i H) as (r1 & -> & H1 & _ & Hs1); [lia|intros ?%Hfl; lia|]. cbn [mbind exec_bind]. rewrite u16_small by lia.
  destruct (IH (i + 1) (i :: fl) r1 H1) as (r' & -> & H2 & Hs2); [lia|lia|intros j [->|?%Hfl]%elem_of_cons; lia|].
  exists r'. split; [done|]. split; [|by transitivity r1]. rewrite seqZ_cons, reverse_cons, <- app_assoc by lia. by replace (Z.pred (Z.of_nat (S n))) with (Z.of_nat n) by lia.
Qed.

Lemma init_spec vring_init w max_ring_size r :
  0 <= w < 16 -> 2 ^ w <= max_ring_size -> fresh_vring (2 ^ w) (vring_init (2 ^ w)) ->
  exists r' fl, Ring_Init vring_init ZX_OK max_ring_size (2 ^ w) r = Done (ZX_OK, r') /\ ring_ok w fl r' /\ fl ≡ₚ seqZ 0 (2 ^ w) /\
    avail_idx r' = 0 /\ used_idx r' = 0 /\ last_used r' = 0.
Proof using Type.
  intros Hw Hmax [F1 F2 F3 F4 F5 F6 F7 F8]. assert (0 < 2 ^ w) as Hp by (apply Z.pow_pos_nonneg; lia). unfold Ring_Init.
  destruct (Z.ltb_spec 0 (2 ^ w)) as [_|]; [|lia]. rewrite slot_mask, Z.mod_same by lia. destruct (Z.ltb_spec max_ring_size (2 ^ w)); [lia|]. cbn [negb andb Z.eqb bool_decide].
  rewrite bool_decide_true by done. cbn [negb].
  destruct (free_all_spec (Z.to_nat (2 ^ w)) w 0 [] (set_free 65535 0 (vring_init (2 ^ w)))) as (r' & -> & Hok & [S1 S2 S3 S4 S5 S6]).
  - constructor; simpl; try done. apply NoDup_nil_2.
  - lia.
  - lia.
  - intros j []%not_elem_of_nil.
  - cbn [mbind exec_bind]. rewrite app_nil_r, Z2Nat.id in Hok by lia. eexists _, _. split; [done|]. split; [done|]. split; [apply reverse_Permutation|].
    rewrite S2, S4, S6. done.
Qed.
End ring.
