(* ===== verification/VirtioBlock.v ===== *)
(** * VirtioBlock: the virtio block device

    Model of [src/devices/block/drivers/virtio/block.cc] and [block.h]. Clients queue transactions; the worker thread takes
    them one after the other, describes them to the device by a chain of descriptors and submits the chain; the
    interrupt thread frees the chains the device has used and completes their transactions. Each thread is a program
    counter whose steps are the critical sections of the code; the device fetches chains and uses them in any order. *)
From Stdlib Require Import ZArith Lia.
From stdpp Require Import prelude gmap.
From S2P Require Import Prelude BlockServer VirtioRing.

Local Open Scope Z_scope.

(** ** Constants *)

(** Of [virtio/block.h]; [blk_req_size] is [sizeof(virtio_blk_req_t)], [zx_roundup] the macro [ZX_ROUNDUP]. *)
Class VirtioBlkAbi := {
  VIRTIO_BLK_T_IN : Z;
  VIRTIO_BLK_T_OUT : Z;
  VIRTIO_BLK_T_FLUSH : Z;
  VIRTIO_BLK_S_OK : Z;
  VIRTIO_BLK_S_IOERR : Z;
  VIRTIO_BLK_S_UNSUPP : Z;
  blk_req_size : Z;
  zx_roundup : Z -> Z -> Z
}.

Class VirtioBlkAbiOk `{!VirtioBlkAbi} : Prop := {
  types_differ : VIRTIO_BLK_T_IN <> VIRTIO_BLK_T_OUT /\ VIRTIO_BLK_T_IN <> VIRTIO_BLK_T_FLUSH /\ VIRTIO_BLK_T_OUT <> VIRTIO_BLK_T_FLUSH;
  roundup_spec a b : 0 <= a -> 0 < b -> a + b - 1 < 2 ^ 64 -> (exists k, 0 <= k /\ b = 2 ^ k) -> zx_roundup a b = (a + b - 1) / b * b
}.

(** ** Data *)

(** The fields of [block_op_t] that are used. *)
Record BlkOp := mkBlkOp {
  command : Z;
  op_vmo : Z;
  length_blocks : Z;
  offset_dev : Z;
  offset_vmo : Z
}.

(** [block_txn_t]: [desc] and [index] are set when the transaction is queued to the ring. *)
Record block_txn := mkTxn {
  t_op : BlkOp;
  t_desc : option Z;
  t_index : option Z;
  t_pmt : bool
}.

Record BlockDevice := mkBlockDevice {
  capacity : Z;
  blk_size : Z;
  blk_req_pa : Z;
  vring_ : vring;
  blk_req_bitmap_ : Z;
  blk_req_ : gmap Z (Z * Z);
  blk_res_ : gmap Z Z;
  txns : list block_txn;
  worker_txn_list_ : list nat;
  pending_txn_list_ : list nat;
  worker_shutdown_ : bool;
  worker_signal_ : bool;
  txn_signal_ : bool;
  (** The calls of [completion_cb]. *)
  completed : list (nat * zx_status)
}.

Definition set_vring (x : vring) (d : BlockDevice) : BlockDevice :=
  mkBlockDevice (capacity d) (blk_size d) (blk_req_pa d) x (blk_req_bitmap_ d) (blk_req_ d) (blk_res_ d) (txns d) (worker_txn_list_ d) (pending_txn_list_ d) (worker_shutdown_ d) (worker_signal_ d) (txn_signal_ d) (completed d).
Definition set_bitmap (x : Z) (d : BlockDevice) : BlockDevice :=
  mkBlockDevice (capacity d) (blk_size d) (blk_req_pa d) (vring_ d) x (blk_req_ d) (blk_res_ d) (txns d) (worker_txn_list_ d) (pending_txn_list_ d) (worker_shutdown_ d) (worker_signal_ d) (txn_signal_ d) (completed d).
Definition set_reqs (x : gmap Z (Z * Z)) (d : BlockDevice) : BlockDevice :=
  mkBlockDevice (capacity d) (blk_size d) (blk_req_pa d) (vring_ d) (blk_req_bitmap_ d) x (blk_res_ d) (txns d) (worker_txn_list_ d) (pending_txn_list_ d) (worker_shutdown_ d) (worker_signal_ d) (txn_signal_ d) (completed d).
Definition set_res (x : gmap Z Z) (d : BlockDevice) : BlockDevice :=
  mkBlockDevice (capacity d) (blk_size d) (blk_req_pa d) (vring_ d) (blk_req_bitmap_ d) (blk_req_ d) x (txns d) (worker_txn_list_ d) (pending_txn_list_ d) (worker_shutdown_ d) (worker_signal_ d) (txn_signal_ d) (completed d).
Definition set_txns (x : list block_txn) (d : BlockDevice) : BlockDevice :=
  mkBlockDevice (capacity d) (blk_size d) (blk_req_pa d) (vring_ d) (blk_req_bitmap_ d) (blk_req_ d) (blk_res_ d) x (worker_txn_list_ d) (pending_txn_list_ d) (worker_shutdown_ d) (worker_signal_ d) (txn_signal_ d) (completed d).
Definition set_lists (x y : list nat) (d : BlockDevice) : BlockDevice :=
  mkBlockDevice (capacity d) (blk_size d) (blk_req_pa d) (vring_ d) (blk_req_bitmap_ d) (blk_req_ d) (blk_res_ d) (txns d) x y (worker_shutdown_ d) (worker_signal_ d) (txn_signal_ d) (completed d).
Definition set_shutdown (x : bool) (d : BlockDevice) : BlockDevice :=
  mkBlockDevice (capacity d) (blk_size d) (blk_req_pa d) (vring_ d) (blk_req_bitmap_ d) (blk_req_ d) (blk_res_ d) (txns d) (worker_txn_list_ d) (pending_txn_list_ d) x (worker_signal_ d) (txn_signal_ d) (completed d).
Definition set_signals (x y : bool) (d : BlockDevice) : BlockDevice :=
  mkBlockDevice (capacity d) (blk_size d) (blk_req_pa d) (vring_ d) (blk_req_bitmap_ d) (blk_req_ d) (blk_res_ d) (txns d) (worker_txn_list_ d) (pending_txn_list_ d) (worker_shutdown_ d) x y (completed d).
Definition set_completed (x : list (nat * zx_status)) (d : BlockDevice) : BlockDevice :=
  mkBlockDevice (capacity d) (blk_size d) (blk_req_pa d) (vring_ d) (blk_req_bitmap_ d) (blk_req_ d) (blk_res_ d) (txns d) (worker_txn_list_ d) (pending_txn_list_ d) (worker_shutdown_ d) (worker_signal_ d) (txn_signal_ d) x.

Definition upd_txn (t : nat) (f : block_txn -> block_txn) (d : BlockDevice) : BlockDevice := set_txns (alter f t (txns d)) d.
Definition set_pmt (b : bool) (x : block_txn) : block_txn := mkTxn (t_op x) (t_desc x) (t_index x) b.
Definition set_index (i : Z) (x : block_txn) : block_txn := mkTxn (t_op x) (t_desc x) (Some i) (t_pmt x).
Definition set_head (i : Z) (x : block_txn) : block_txn := mkTxn (t_op x) (Some i) (t_index x) (t_pmt x).
Definition set_op (o : BlkOp) (x : block_txn) : block_txn := mkTxn o (t_desc x) (t_index x) (t_pmt x).

Definition get_txn (t : nat) (d : BlockDevice) : exec block_txn := match txns d !! t with None => Panic | Some x => Done x end.

(** ** Requests *)

Definition blk_req_count : Z := 32.
Definition MAX_SCATTER : Z := 257.

Definition txn_complete (t : nat) (status : zx_status) (d : BlockDevice) : BlockDevice :=
  set_completed (completed d ++ [(t, status)]) (upd_txn t (set_pmt false) d).

(** The slot above the highest one in use. *)
Definition alloc_blk_req (bitmap : Z) : Z * Z :=
  let i := bit_width bitmap in
  (i, if i <? blk_req_count then Z.lor bitmap (Z.shiftl 1 i) else bitmap).

Definition free_blk_req (i bitmap : Z) : Z := Z.land bitmap (u32_not (Z.shiftl 1 i)).

Section block.
Context {abi : VirtioAbi} {blk : VirtioBlkAbi} {block_abi : BlockAbi}.

(** The arguments of [zx_bti_pin]. *)
Record PinRequest := mkPin {
  pin_vmo : Z;
  aligned_offset : Z;
  pin_size : Z
}.

Definition kPageMask : Z := kPageSize - 1.

(** What [pin_pages] asks for. *)
Definition pin_request (op : BlkOp) (bytes : Z) : PinRequest :=
  let suboffset := Z.land (offset_vmo op) kPageMask in
  mkPin (op_vmo op) (Z.land (offset_vmo op) (u32_not kPageMask)) (zx_roundup (u64 (suboffset + bytes)) kPageSize).

Definition num_pages (op : BlkOp) (bytes : Z) : Z := pin_size (pin_request op bytes) / kPageSize.

Definition pin_pages (op : BlkOp) (bytes : Z) (answer : zx_status * list Z) : zx_status + list Z :=
  if MAX_SCATTER <? num_pages op bytes then inl ZX_ERR_INVALID_ARGS
  else if negb (bool_decide (answer.1 = ZX_OK)) then inl ZX_ERR_INTERNAL
  else inr (match answer.2 with [] => [] | p :: l => u64 (p + Z.land (offset_vmo op) kPageMask) :: l end).

(** ** Describing a transfer *)

(** The address and the length of the segment in a page. *)
Definition page_segment (first : bool) (off page bytes : Z) : Z * Z :=
  let l := if kPageSize <? bytes then kPageSize else bytes in
  if first then
    let page0_offset := Z.land off kPageMask in
    let max := kPageSize - page0_offset in
    (u64 (page + page0_offset), if max <? l then max else l)
  else (page, l).

Definition page_flags (type : Z) : Z := if type =? VIRTIO_BLK_T_IN then Z.lor VRING_DESC_F_NEXT VRING_DESC_F_WRITE else VRING_DESC_F_NEXT.

(** The loop over the pages: the last descriptor, the bytes that are left, the ring. *)
Fixpoint fill_pages (first : bool) (type off : Z) (pages : list Z) (i bytes : Z) (r : vring) : exec (Z * Z * vring) :=
  match pages with
  | [] => Done (i, bytes, r)
  | p :: pages =>
      d ← get_desc i r;
      let j := next d in
      dj ← get_desc j r;
      let '(a, l) := page_segment first off p bytes in
      r ← put_desc j (mkDesc a (u32 l) (page_flags type) (next dj)) r;
      fill_pages false type off pages j (u64 (bytes - u32 l)) r
  end.

Definition blk_res_pa (req_pa : Z) : Z := req_pa + blk_req_size * blk_req_count.

(** The chain that begins with [i]: the request, the pages, and the byte for the answer. *)
Definition fill_chain (req_pa index type off : Z) (pages : list Z) (i bytes : Z) (r : vring) : exec vring :=
  (d ← get_desc i r;
   r ← put_desc i (mkDesc (req_pa + index * blk_req_size) blk_req_size VRING_DESC_F_NEXT (next d)) r;
   '(j, rest, r) ← fill_pages true type off pages i bytes r;
   ASSERT (rest =? 0);;
   d ← get_desc j r;
   dk ← get_desc (next d) r;
   put_desc (next d) (mkDesc (blk_res_pa req_pa + index) 1 VRING_DESC_F_WRITE (next dk)) r)%exec.

(** ** Clients *)

Definition SignalWorker (t : nat) (op : BlkOp) (d : BlockDevice) : BlockDevice :=
  let enqueue d :=
    if worker_shutdown_ d then txn_complete t ZX_ERR_IO_NOT_PRESENT d
    else set_signals true (txn_signal_ d) (set_lists (worker_txn_list_ d ++ [t]) (pending_txn_list_ d) d) in
  let c := Z.land (command op) BLOCK_OP_MASK in
  if (c =? BLOCK_OP_READ) || (c =? BLOCK_OP_WRITE) then
    let d := if length_blocks op =? 0 then txn_complete t ZX_ERR_INVALID_ARGS d else d in
    if (capacity d <=? offset_dev op) || (capacity d - offset_dev op <? length_blocks op) then txn_complete t ZX_ERR_OUT_OF_RANGE d
    else if length_blocks op =? 0 then txn_complete t ZX_OK d
    else enqueue d
  else if c =? BLOCK_OP_FLUSH then enqueue d
  else txn_complete t ZX_ERR_NOT_SUPPORTED d.

Definition Virtio_BlockImplQueue (op : BlkOp) (d : BlockDevice) : BlockDevice :=
  SignalWorker (length (txns d)) op (set_txns (txns d ++ [mkTxn op None None false]) d).

Definition Virtio_DdkUnbind (d : BlockDevice) : BlockDevice := set_signals true true (set_shutdown true d).

(** ** The worker *)

(** What the worker has worked out for a transaction. *)
Record Job := mkJob {
  j_type : Z;
  j_bytes : Z;
  j_pages : list Z;
  j_flush : bool
}.

(** Where [WorkerThread] is; [QueueTxn] is [WAlloc], [WChain] and [WFree], the [bool] before a failed attempt is
    [cannot_fail], that of a flush tells whether the transaction has been queued already. *)
Inductive WorkerPc :=
  | WTop
  | WPull
  | WSleep
  | WFlush (t : nat) (j : Job) (queued : bool)
  | WFlushWait (t : nat) (j : Job) (queued : bool)
  | WAlloc (t : nat) (j : Job) (cannot_fail : bool)
  | WChain (t : nat) (j : Job) (cannot_fail : bool) (index : Z)
  | WFree (t : nat) (j : Job) (cannot_fail : bool) (index : Z)
  | WFailed (t : nat) (j : Job) (cannot_fail : bool)
  | WWait (t : nat) (j : Job)
  | WSubmit (t : nat) (j : Job) (idx : Z)
  | WReset
  | WCleanWorker
  | WCleanPending
  | WDone.

(** Where [IrqRingUpdate] is: the loop at entry [i] of the used ring up to [cur]. *)
Inductive IrqPc :=
  | IIdle
  | IRun (cur i : Z)
  | IFreed (cur i head : Z)
  | IComplete (cur i : Z) (t : nat) (status : zx_status).

(** The device's side of the ring: whether it has not been reset, its place in [avail], the chains it works on. The last
    six fields are only a record of the run: the transaction a chain was submitted for and its job, the answers of
    the device, the transactions the worker has dropped, the transfers of no blocks that were queued, and for each
    transaction what [zx_bti_pin] was asked for and has answered. *)
Record Sys := mkSys {
  dev : BlockDevice;
  worker : WorkerPc;
  irq : IrqPc;
  h_live : bool;
  h_avail : Z;
  h_busy : list Z;
  owner : gmap Z nat;
  jobs : gmap nat Job;
  answers : list (nat * Z);
  lost : list nat;
  empties : list nat;
  pins : gmap nat (PinRequest * list Z)
}.

Definition set_dev (d : BlockDevice) (s : Sys) : Sys :=
  mkSys d (worker s) (irq s) (h_live s) (h_avail s) (h_busy s) (owner s) (jobs s) (answers s) (lost s) (empties s) (pins s).
Definition set_worker (w : WorkerPc) (s : Sys) : Sys :=
  mkSys (dev s) w (irq s) (h_live s) (h_avail s) (h_busy s) (owner s) (jobs s) (answers s) (lost s) (empties s) (pins s).
Definition set_irq (i : IrqPc) (s : Sys) : Sys :=
  mkSys (dev s) (worker s) i (h_live s) (h_avail s) (h_busy s) (owner s) (jobs s) (answers s) (lost s) (empties s) (pins s).
Definition set_backend (live : bool) (a : Z) (b : list Z) (s : Sys) : Sys :=
  mkSys (dev s) (worker s) (irq s) live a b (owner s) (jobs s) (answers s) (lost s) (empties s) (pins s).
Definition set_owner (o : gmap Z nat) (s : Sys) : Sys :=
  mkSys (dev s) (worker s) (irq s) (h_live s) (h_avail s) (h_busy s) o (jobs s) (answers s) (lost s) (empties s) (pins s).
Definition set_jobs (j : gmap nat Job) (s : Sys) : Sys :=
  mkSys (dev s) (worker s) (irq s) (h_live s) (h_avail s) (h_busy s) (owner s) j (answers s) (lost s) (empties s) (pins s).
Definition set_answers (a : list (nat * Z)) (s : Sys) : Sys :=
  mkSys (dev s) (worker s) (irq s) (h_live s) (h_avail s) (h_busy s) (owner s) (jobs s) a (lost s) (empties s) (pins s).
Definition set_lost (x : list nat) (s : Sys) : Sys :=
  mkSys (dev s) (worker s) (irq s) (h_live s) (h_avail s) (h_busy s) (owner s) (jobs s) (answers s) x (empties s) (pins s).

Definition set_empties (x : list nat) (s : Sys) : Sys :=
  mkSys (dev s) (worker s) (irq s) (h_live s) (h_avail s) (h_busy s) (owner s) (jobs s) (answers s) (lost s) x (pins s).
Definition set_pins (x : gmap nat (PinRequest * list Z)) (s : Sys) : Sys :=
  mkSys (dev s) (worker s) (irq s) (h_live s) (h_avail s) (h_busy s) (owner s) (jobs s) (answers s) (lost s) (empties s) x.

(** The worker returns while it holds [t]: the deferred [CleanupPendingTxns] runs, and [t] is in none of its lists. *)
Definition drop_txn (t : nat) (s : Sys) : Sys := set_worker WReset (set_lost (lost s ++ [t]) s).

(** A transaction has been pulled off the list: what is to be queued, or the status it is completed with. *)
Definition worker_pull (t : nat) (answer : zx_status * list Z) (s : Sys) : exec Sys :=
  x ← get_txn t (dev s);
  let op := t_op x in
  let c := Z.land (command op) BLOCK_OP_MASK in
  if c =? BLOCK_OP_FLUSH then
    let j := mkJob VIRTIO_BLK_T_FLUSH 0 [] true in
    Done (set_worker (WFlush t j false) (set_jobs (<[t := j]> (jobs s)) s))
  else
    let type := if c =? BLOCK_OP_WRITE then VIRTIO_BLK_T_OUT else VIRTIO_BLK_T_IN in
    let op := mkBlkOp (command op) (op_vmo op) (length_blocks op) (offset_dev op) (u64 (offset_vmo op * blk_size (dev s))) in
    let bytes := u32 (length_blocks op * blk_size (dev s)) in
    let s := set_dev (upd_txn t (set_op op) (dev s)) s in
    match pin_pages op bytes answer with
    | inl status => Done (set_worker WTop (set_dev (txn_complete t status (dev s)) s))
    | inr pages =>
        let j := mkJob type bytes pages false in
        Done (set_worker (WAlloc t j false) (set_pins (<[t := (pin_request op bytes, answer.2)]> (pins s))
               (set_jobs (<[t := j]> (jobs s)) (set_dev (upd_txn t (set_pmt true) (dev s)) s))))
    end.

(** [FlushPendingTxns] has returned. *)
Definition after_flush (t : nat) (j : Job) (queued : bool) (s : Sys) : Sys :=
  if queued then set_worker WTop s
  else if worker_shutdown_ (dev s) then drop_txn t s
  else set_worker (WAlloc t j false) s.

(** The transaction has been queued or given up. *)
Definition after_queue (t : nat) (j : Job) (s : Sys) : Sys := set_worker (if j_flush j then WFlush t j true else WTop) s.

(** [QueueTxn] from the descriptors on. The descriptors are filled in after the lock of the ring has been released;
    nobody else touches them. *)
Definition queue_chain (t : nat) (j : Job) (cannot_fail : bool) (index : Z) (s : Sys) : exec Sys :=
  x ← get_txn t (dev s);
  let sector := if j_type j =? VIRTIO_BLK_T_FLUSH then 0 else offset_dev (t_op x) in
  let d := upd_txn t (set_index index) (set_reqs (<[index := (j_type j, sector)]> (blk_req_ (dev s))) (dev s)) in
  '(head, r) ← AllocDescChain (u16 (2 + Z.of_nat (length (j_pages j)))) (vring_ d);
  match head with
  | None => Done (set_worker (WFree t j cannot_fail index) (set_dev d s))
  | Some i =>
      r ← fill_chain (blk_req_pa d) index (j_type j) (offset_vmo (t_op x)) (j_pages j) i (j_bytes j) r;
      Done (set_worker (WSubmit t j i) (set_dev (set_vring r (upd_txn t (set_head i) d)) s))
  end.

(** [free_blk_req(txn->index)]. *)
Definition free_txn_req (t : nat) (d : BlockDevice) : exec BlockDevice :=
  x ← get_txn t d;
  match t_index x with None => Panic | Some i => Done (set_bitmap (free_blk_req i (blk_req_bitmap_ d)) d) end.

(** [CleanupPendingTxns], the pending ones. *)
Fixpoint clean_pending (l : list nat) (d : BlockDevice) : exec BlockDevice :=
  match l with
  | [] => Done d
  | t :: l => d ← free_txn_req t d; clean_pending l (txn_complete t ZX_ERR_IO_NOT_PRESENT d)
  end.

(** One critical section of [WorkerThread]; [answer]: what [zx_bti_pin] answers. *)
Definition worker_step (answer : zx_status * list Z) (s : Sys) : exec Sys :=
  let d := dev s in
  match worker s with
  | WTop => Done (set_worker (if worker_shutdown_ d then WReset else WPull) s)
  | WPull =>
      match worker_txn_list_ d with
      | [] => Done (set_worker WSleep s)
      | t :: l => worker_pull t answer (set_dev (set_lists l (pending_txn_list_ d) d) s)
      end
  | WSleep => Done (set_worker WTop (set_dev (set_signals false (txn_signal_ d) d) s))
  | WFlush t j queued =>
      match pending_txn_list_ d with
      | [] => Done (after_flush t j queued s)
      | _ => Done (set_worker (WFlushWait t j queued) (set_dev (set_signals (worker_signal_ d) false d) s))
      end
  | WFlushWait t j queued => Done (if worker_shutdown_ d then after_flush t j queued s else set_worker (WFlush t j queued) s)
  | WAlloc t j cannot_fail =>
      let '(i, bitmap) := alloc_blk_req (blk_req_bitmap_ d) in
      Done (if blk_req_count <=? i then set_worker (WFailed t j cannot_fail) s
            else set_worker (WChain t j cannot_fail i) (set_dev (set_bitmap bitmap d) s))
  | WChain t j cannot_fail i => queue_chain t j cannot_fail i s
  | WFree t j cannot_fail i => Done (set_worker (WFailed t j cannot_fail) (set_dev (set_bitmap (free_blk_req i (blk_req_bitmap_ d)) d) s))
  | WFailed t j true => d ← free_txn_req t d; Done (after_queue t j (set_dev (txn_complete t ZX_ERR_NO_RESOURCES d) s))
  | WFailed t j false =>
      match pending_txn_list_ d with
      | [] => Done (set_worker (WAlloc t j true) s)
      | _ => Done (set_worker (WWait t j) (set_dev (set_signals (worker_signal_ d) false d) s))
      end
  | WWait t j => Done (if worker_shutdown_ d then drop_txn t s else set_worker (WAlloc t j false) s)
  | WSubmit t j i =>
      r ← SubmitChain i (vring_ d);
      Done (after_queue t j (set_owner (<[i := t]> (owner s)) (set_dev (set_vring r (set_lists (worker_txn_list_ d) (pending_txn_list_ d ++ [t]) d)) s)))
  | WReset => Done (set_worker WCleanWorker (set_backend false (h_avail s) (h_busy s) s))
  | WCleanWorker =>
      Done (set_worker WCleanPending (set_dev (foldl (fun d t => txn_complete t ZX_ERR_IO_NOT_PRESENT d) (set_lists [] (pending_txn_list_ d) d) (worker_txn_list_ d)) s))
  | WCleanPending =>
      d ← clean_pending (pending_txn_list_ d) (set_lists (worker_txn_list_ d) [] d);
      Done (set_worker WDone (set_dev d s))
  | WDone => Panic
  end.

(** The worker can go on: it does not wait for a signal, and has not ended. *)
Definition worker_ready (s : Sys) : bool :=
  match worker s with
  | WSleep => worker_signal_ (dev s)
  | WFlushWait _ _ _ | WWait _ _ => txn_signal_ (dev s)
  | WDone => false
  | _ => true
  end.

(** ** The interrupt thread *)

(** The descriptors of a chain go back to the free list, one by one. *)
Fixpoint free_chain (fuel : nat) (i : Z) (r : vring) : exec vring :=
  match fuel with
  | O => Panic
  | S fuel => d ← get_desc i r; r ← FreeDesc i r; if has_next d then free_chain fuel (next d) r else Done r
  end.

(** The first pending transaction that was submitted with the chain [head]. *)
Fixpoint find_pending (head : Z) (l : list nat) (d : BlockDevice) : option (nat * block_txn) :=
  match l with
  | [] => None
  | t :: l =>
      match txns d !! t with
      | Some x => if bool_decide (t_desc x = Some head) then Some (t, x) else find_pending head l d
      | None => find_pending head l d
      end
  end.

Definition status_of (status : Z) : zx_status :=
  if status =? VIRTIO_BLK_S_OK then ZX_OK
  else if status =? VIRTIO_BLK_S_IOERR then ZX_ERR_IO
  else if status =? VIRTIO_BLK_S_UNSUPP then ZX_ERR_NOT_SUPPORTED
  else ZX_ERR_IO.

Definition remove_txn (t : nat) (l : list nat) : list nat := filter (fun u => u <> t) l.

(** One critical section of [IrqRingUpdate]. *)
Definition irq_step (s : Sys) : exec Sys :=
  let d := dev s in
  match irq s with
  | IIdle => Done (set_irq (IRun (used_idx (vring_ d)) (last_used (vring_ d))) s)
  | IRun cur i =>
      e ← used_elem i cur (vring_ d);
      match e with
      | None => Done (set_irq IIdle (set_dev (set_vring (set_last_used i (vring_ d)) d) s))
      | Some id =>
          let head := u16 id in
          r ← free_chain (Z.to_nat (num (vring_ d))) head (vring_ d);
          Done (set_irq (IFreed cur i head) (set_dev (set_vring r d) s))
      end
  | IFreed cur i head =>
      match find_pending head (pending_txn_list_ d) d with
      | None => Done (set_irq (IRun cur (u16 (i + 1))) s)
      | Some (t, x) =>
          match t_index x with
          | None => Panic
          | Some k =>
              match blk_res_ d !! k with
              | None => Panic
              | Some status =>
                  let d := set_lists (worker_txn_list_ d) (remove_txn t (pending_txn_list_ d)) (set_bitmap (free_blk_req k (blk_req_bitmap_ d)) d) in
                  Done (set_irq (IComplete cur i t (status_of status)) (set_dev (set_signals (worker_signal_ d) true d) s))
              end
          end
      end
  | IComplete cur i t status =>
      Done (set_irq (IRun cur (u16 (i + 1))) (set_dev (txn_complete t status d) s))
  end.

(** ** The device *)

(** The descriptors of a chain, as the device follows it. *)
Fixpoint walk (fuel : nat) (i : Z) (ds : gmap Z vring_desc) : option (list vring_desc) :=
  match fuel with
  | O => None
  | S fuel =>
      match ds !! i with
      | None => None
      | Some d => if has_next d then (fun l => d :: l) <$> walk fuel (next d) ds else Some [d]
      end
  end.

Definition host_fetch (s : Sys) : exec Sys :=
  let r := vring_ (dev s) in
  match avail_ring r !! Z.land (h_avail s) (num_mask r) with
  | None => Panic
  | Some i => Done (set_backend (h_live s) (u16 (h_avail s + 1)) (h_busy s ++ [i]) s)
  end.

(** The [k]-th chain it works on is used: the answer is written where the last descriptor points, and the chain put
    into the used ring. *)
Definition host_use (k : nat) (status : Z) (s : Sys) : exec Sys :=
  let d := dev s in
  let r := vring_ d in
  match h_busy s !! k with
  | None => Panic
  | Some i =>
      match walk (Z.to_nat (num r)) i (desc r) ≫= last with
      | None => Panic
      | Some e =>
          let index := addr e - blk_res_pa (blk_req_pa d) in
          match blk_res_ d !! index, used_ring r !! Z.land (used_idx r) (num_mask r), owner s !! i with
          | Some _, Some _, Some t =>
              let r := set_used (u16 (used_idx r + 1)) (<[Z.land (used_idx r) (num_mask r) := i]> (used_ring r)) r in
              Done (set_answers (answers s ++ [(t, status)])
                     (set_backend (h_live s) (h_avail s) (delete k (h_busy s)) (set_dev (set_vring r (set_res (<[index := status]> (blk_res_ d)) d)) s)))
          | _, _, _ => Panic
          end
      end
  end.

(** ** Runs *)

Inductive VEvent :=
  | EQueue (op : BlkOp)
  | EUnbind
  | EWorker (answer : zx_status * list Z)
  | EIrq
  | EFetch
  | EUse (k : nat) (status : Z).

(** The request is no transfer of no blocks. *)
Definition has_blocks (op : BlkOp) : bool :=
  let c := Z.land (command op) BLOCK_OP_MASK in negb (((c =? BLOCK_OP_READ) || (c =? BLOCK_OP_WRITE)) && (length_blocks op =? 0)).

(** A client queues a request. *)
Definition queue_op (op : BlkOp) (s : Sys) : Sys :=
  set_empties (if has_blocks op then empties s else empties s ++ [length (txns (dev s))]) (set_dev (Virtio_BlockImplQueue op (dev s)) s).

Definition handle_vevent (e : VEvent) (s : Sys) : exec Sys :=
  match e with
  | EQueue op => Done (queue_op op s)
  | EUnbind => Done (set_dev (Virtio_DdkUnbind (dev s)) s)
  | EWorker answer => worker_step answer s
  | EIrq => irq_step s
  | EFetch => host_fetch s
  | EUse k status => host_use k status s
  end.

(** [zx_bti_pin] gives as many addresses of 64 bits as it was asked for. *)
Definition answer_valid (answer : zx_status * list Z) (s : Sys) : bool :=
  match worker s, worker_txn_list_ (dev s) with
  | WPull, t :: _ =>
      match txns (dev s) !! t with
      | Some x =>
          let op := t_op x in
          let op := mkBlkOp (command op) (op_vmo op) (length_blocks op) (offset_dev op) (u64 (offset_vmo op * blk_size (dev s))) in
          negb (bool_decide (answer.1 = ZX_OK)) ||
            (Z.of_nat (length answer.2) =? num_pages op (u32 (length_blocks op * blk_size (dev s)))) && forallb (fun p => (0 <=? p) && (p <? 2 ^ 64)) answer.2
      | None => true
      end
  | _, _ => true
  end.

Definition vallowed (e : VEvent) (s : Sys) : bool :=
  match e with
  | EQueue _ | EUnbind => true
  | EWorker answer => worker_ready s && answer_valid answer s
  | EIrq => true
  | EFetch => h_live s && negb (h_avail s =? avail_idx (vring_ (dev s)))
  | EUse k _ => h_live s && (k <? length (h_busy s))%nat
  end.

Inductive vstep : Sys -> Sys -> Prop :=
  | vstep_event e s s' : vallowed e s = true -> handle_vevent e s = Done s' -> vstep s s'.

(** A device that has just been initialised with the ring [r]. *)
Definition Virtio_Init (capacity blk_size req_pa : Z) (r : vring) : Sys :=
  let zeros := list_to_map ((fun i => (i, 0)) <$> seqZ 0 blk_req_count) in
  mkSys (mkBlockDevice capacity (if blk_size =? 0 then 512 else blk_size) req_pa r 0 ∅ zeros [] [] [] false false false []) WTop IIdle true 0 [] ∅ ∅ [] [] [] ∅.

Definition ring_size : Z := 128.

(** [Init]: the ring is laid out by [vring_init]; [ring_buf] and [req_buf] are the answers of [io_buffer_init]. *)
Definition BlockDevice_Init (vring_init : Z -> vring) (ring_buf req_buf : zx_status) (max_ring_size capacity blk_size req_pa : Z) (r : vring) : exec (zx_status + Sys) :=
  '(status, r) ← Ring_Init vring_init ring_buf max_ring_size ring_size r;
  if negb (bool_decide (status = ZX_OK)) then Done (inl status)
  else if negb (bool_decide (req_buf = ZX_OK)) then Done (inl req_buf)
  else Done (inr (Virtio_Init capacity blk_size req_pa r)).

(** The fields of [block_info_t] that are set. *)
Record VirtioInfo := mkVirtioInfo {
  info_block_size : Z;
  info_block_count : Z;
  info_max_transfer : Z
}.

Definition kMaxMaxXfer : Z := u32 ((MAX_SCATTER - 1) * kPageSize).

Definition Virtio_GetSize (d : BlockDevice) : Z := u64 (capacity d * blk_size d).

Definition Virtio_BlockImplQuery (d : BlockDevice) : VirtioInfo :=
  let max := u32 (kPageSize * (ring_size - 2)) in
  mkVirtioInfo (blk_size d) (Virtio_GetSize d / blk_size d) (if kMaxMaxXfer <? max then kMaxMaxXfer else max).
End block.
