(* ===== verification/VirtioChain.v ===== *)
(** * VirtioChain: chains of descriptors

    What filling a chain in, freeing it and following it do, for a chain that is not on the free list. *)
From Stdlib Require Import ZArith Lia.
From stdpp Require Import prelude gmap.
From S2P Require Import Prelude BlockServer VirtioRing VirtioBlock.

Local Open Scope Z_scope.

Section chain.
Context {abi : VirtioAbi} {abi_ok : VirtioAbiOk} {blk : VirtioBlkAbi}.
Implicit Types (r : vring) (ds : gmap Z vring_desc) (l c fl : list Z).

Lemma chain_update ds l i d d' : ds !! i = Some d -> next d' = next d -> has_next d' = has_next d -> chain ds l -> chain (<[i := d']> ds) l.
Proof using Type.
  intros Hd En Eh. induction l as [|j l IH]; intros Hc; [done|]. destruct Hc as (e & He & Hc). destruct (decide (j = i)) as [->|Hne].
  - rewrite Hd in He. injection He as <-. exists d'. rewrite lookup_insert_eq, Eh, En. split; [done|]. destruct l; [done|]. destruct Hc as (? & ? & ?). split_and!; [done..|by apply IH].
  - exists e. rewrite lookup_insert_ne by done. split; [done|]. destruct l; [done|]. destruct Hc as (? & ? & ?). split_and!; [done..|by apply IH].
Qed.

Lemma chain_step ds i j l : chain ds (i :: j :: l) -> exists d, ds !! i = Some d /\ has_next d = true /\ next d = j /\ chain ds (j :: l).
Proof using Type. intros (d & Hd & H1 & H2 & H3). by exists d. Qed.

Lemma chain_next ds l k i j : chain ds l -> l !! k = Some i -> l !! S k = Some j -> exists d, ds !! i = Some d /\ next d = j.
Proof using Type.
  revert l. induction k as [|k IH]; intros [|a [|b l]] Hc Hi Hj; try done.
  - injection Hi as ->. injection Hj as ->. apply chain_step in Hc as (d & ? & _ & ? & _). by exists d.
  - apply chain_step in Hc as (_ & _ & _ & _ & Hc). by apply (IH (b :: l)).
Qed.

Lemma chain_last ds l z : chain ds (l ++ [z]) -> exists d, ds !! z = Some d /\ has_next d = false.
Proof using Type.
  induction l as [|a l IH]; intros Hc; [by destruct Hc as (d & ? & ?); exists d|]. destruct (l ++ [z]) as [|b l'] eqn:E; [by destruct l|].
  cbn [app] in Hc. rewrite E in Hc. apply chain_step in Hc as (_ & _ & _ & _ & Hc). by apply IH.
Qed.

Lemma put_ring_ok w fl r i d : ring_ok w fl r -> 0 <= i < 2 ^ w -> i ∉ fl -> exists r', put_desc i d r = Done r' /\ ring_ok w fl r' /\ desc r' = <[i := d]> (desc r) /\ same_rings r r'.
Proof using Type.
  intros H Hi Hf. pose proof H as [H1 H2 H3 H4 H5 H6 H7 H8 H9]. destruct (proj2 (H4 i) Hi) as [e He]. unfold put_desc. rewrite He. eexists. split; [done|].
  split; [|done]. constructor; simpl; try done.
  - intros j. rewrite lookup_insert_is_Some, H4. destruct (decide (i = j)) as [->|]; [tauto|tauto].
  - by apply linked_frame.
Qed.

Lemma chain_range w fl r l i : ring_ok w fl r -> chain (desc r) l -> i ∈ l -> 0 <= i < 2 ^ w.
Proof using Type.
  intros H Hc Hi. apply (ro_desc _ _ _ H). clear H. induction l as [|j l IH]; [by apply not_elem_of_nil in Hi|]. destruct Hc as (d & Hd & Hc).
  apply elem_of_cons in Hi as [->|Hi]; [by exists d|]. destruct l as [|k l]; [by apply not_elem_of_nil in Hi|]. apply IH; [by destruct Hc as (_ & _ & ?)|done].
Qed.

(** ** Flags *)

Definition writable (d : vring_desc) : bool := negb (Z.land (flags d) VRING_DESC_F_WRITE =? 0).
Definition seg_of (d : vring_desc) : Z * Z * bool := (addr d, len d, writable d).

Lemma flag_set x y f : (f = VRING_DESC_F_NEXT \/ f = VRING_DESC_F_WRITE) -> x = f \/ y = f -> negb (Z.land (Z.lor x y) f =? 0) = true.
Proof using abi_ok.
  intros Hf Hxy. assert (exists k, 0 <= k < 16 /\ f = 2 ^ k) as (k & Hk & E) by (destruct Hf as [->| ->]; [apply next_flag|apply write_flag]).
  apply negb_true_iff, Z.eqb_neq. rewrite (flag_bit _ _ k) by lia. rewrite Z.lor_spec. destruct Hxy as [->| ->]; rewrite E, Z.pow2_bits_true by lia; [done|by rewrite orb_true_r].
Qed.

Lemma flag_self f : (f = VRING_DESC_F_NEXT \/ f = VRING_DESC_F_WRITE) -> negb (Z.land f f =? 0) = true.
Proof using abi_ok. intros Hf. rewrite <- (Z.lor_diag f) at 1. apply flag_set; [done|by left]. Qed.

Lemma flags_apart : Z.land VRING_DESC_F_NEXT VRING_DESC_F_WRITE = 0 /\ Z.land VRING_DESC_F_WRITE VRING_DESC_F_NEXT = 0.
Proof using abi_ok.
  destruct next_flag as (k & Hk & E), write_flag as (k' & Hk' & E'). pose proof flags_differ as Hd. assert (k <> k') by (intros ->; congruence).
  split; [apply (flag_bit _ _ k'); [lia|done|]|apply (flag_bit _ _ k); [lia|done|]]; rewrite ?E, ?E'; apply Z.pow2_bits_false; lia.
Qed.

Lemma page_flags_next a x t n : has_next (mkDesc a x (page_flags t) n) = true.
Proof using abi_ok. unfold has_next, page_flags. simpl. destruct (t =? VIRTIO_BLK_T_IN); [apply flag_set; auto|apply flag_self; auto]. Qed.

Lemma page_flags_write a x t n : writable (mkDesc a x (page_flags t) n) = (t =? VIRTIO_BLK_T_IN).
Proof using abi_ok. unfold writable, page_flags. simpl. destruct (t =? VIRTIO_BLK_T_IN); [apply flag_set; auto|]. destruct flags_apart as [-> _]. done. Qed.

Lemma next_only a x n : has_next (mkDesc a x VRING_DESC_F_NEXT n) = true /\ writable (mkDesc a x VRING_DESC_F_NEXT n) = false.
Proof using abi_ok. unfold has_next, writable. simpl. destruct flags_apart as [-> _]. split; [apply flag_self; auto|done]. Qed.

Lemma answer_only a x n : has_next (mkDesc a x VRING_DESC_F_WRITE n) = false /\ writable (mkDesc a x VRING_DESC_F_WRITE n) = true.
Proof using abi_ok. unfold has_next, writable. simpl. destruct flags_apart as [_ ->]. split; [done|apply flag_self; auto]. Qed.

(** ** Following and freeing *)

(** The descriptors of [l] describe [es]. *)
Definition described ds l (es : list (Z * Z * bool)) : Prop := Forall2 (fun i e => exists d, ds !! i = Some d /\ seg_of d = e) l es.

Lemma described_ext ds ds' l es : (forall i, i ∈ l -> ds' !! i = ds !! i) -> described ds l es -> described ds' l es.
Proof using Type. intros Hl. induction 1 as [|i e l es (d & Hd & He) _ IH]; constructor; [exists d; by rewrite Hl by left|apply IH; intros; apply Hl; by right]. Qed.

Lemma walk_chain fuel ds i l es : chain ds (i :: l) -> described ds (i :: l) es -> (length (i :: l) <= fuel)%nat -> exists dl, walk fuel i ds = Some dl /\ seg_of <$> dl = es.
Proof using Type.
  revert i l es. induction fuel as [|fuel IH]; intros i l es Hc Hd Hf; [simpl in Hf; lia|]. cbn [walk]. apply Forall2_cons_inv_l in Hd as (e & es' & (d & Hd & He) & Hds & ->).
  rewrite Hd. destruct l as [|j l].
  - destruct Hc as (d' & Hd' & Hn). rewrite Hd in Hd'. injection Hd' as <-. rewrite Hn. apply Forall2_nil_inv_l in Hds as ->. exists [d]. by rewrite <- He.
  - apply chain_step in Hc as (d' & Hd' & Hn & Ej & Hc). rewrite Hd in Hd'. injection Hd' as <-. rewrite Hn, Ej.
    destruct (IH j l es' Hc Hds) as (dl & -> & <-); [simpl in *; lia|]. exists (d :: dl). by rewrite <- He.
Qed.

Lemma free_chain_spec fuel w fl r i l :
  ring_ok w fl r -> chain (desc r) (i :: l) -> NoDup (i :: l) -> (forall j, j ∈ i :: l -> j ∉ fl) -> (length (i :: l) <= fuel)%nat ->
  exists r', free_chain fuel i r = Done r' /\ ring_ok w (reverse (i :: l) ++ fl) r' /\ (forall j, j ∉ i :: l -> desc r' !! j = desc r !! j) /\ same_rings r r'.
Proof using abi_ok.
  revert fl r i l. induction fuel as [|fuel IH]; intros fl r i l H Hc Hnd Hdis Hf; [simpl in Hf; lia|]. cbn [free_chain].
  pose proof (chain_range _ _ _ _ i H Hc ltac:(set_solver)) as Hi. destruct (free_desc_spec w fl r i H Hi) as (r1 & E1 & H1 & Hfr1 & Hs1); [apply Hdis; set_solver|].
  apply NoDup_cons in Hnd as [Hni Hnd]. rewrite reverse_cons, <- app_assoc. destruct l as [|j l].
  - destruct Hc as (d & Hd & Hn). unfold get_desc. rewrite Hd. cbn [mbind exec_bind]. rewrite E1. cbn [mbind exec_bind]. rewrite Hn. exists r1. split; [done|]. split; [done|]. split; [|done].
    intros j Hj. apply Hfr1. set_solver.
  - apply chain_step in Hc as (d & Hd & Hn & Ej & Hc). unfold get_desc. rewrite Hd. cbn [mbind exec_bind]. rewrite E1. cbn [mbind exec_bind]. rewrite Hn, Ej.
    destruct (IH (i :: fl) r1 j l H1) as (r' & -> & H2 & Hfr2 & Hs2).
    + eapply chain_ext; [|exact Hc]. intros k Hk. apply Hfr1. by intros ->.
    + done.
    + intros k Hk [->|Hkf]%elem_of_cons; [done|]. apply (Hdis k); [set_solver|done].
    + simpl in *. lia.
    + exists r'. split; [done|]. split; [done|]. split; [|by transitivity r1]. intros k [Hk1 Hk2]%not_elem_of_cons. rewrite Hfr2 by done. by apply Hfr1.
Qed.

(** ** Filling in *)

(** The segments of a transfer, and the bytes they leave. *)
Fixpoint page_segs (first : bool) (off bytes : Z) (pages : list Z) : list (Z * Z) :=
  match pages with
  | [] => []
  | p :: pages => let '(a, l) := page_segment first off p bytes in (a, u32 l) :: page_segs false off (u64 (bytes - u32 l)) pages
  end.

Fixpoint page_rest (first : bool) (off bytes : Z) (pages : list Z) : Z :=
  match pages with
  | [] => bytes
  | p :: pages => let '(a, l) := page_segment first off p bytes in page_rest false off (u64 (bytes - u32 l)) pages
  end.

Definition data_segs (type off bytes : Z) (pages : list Z) : list (Z * Z * bool) := (fun e => (e, type =? VIRTIO_BLK_T_IN)) <$> page_segs true off bytes pages.

Lemma fill_pages_spec first type off pages w fl r i c bytes :
  ring_ok w fl r -> chain (desc r) (i :: c) -> NoDup (i :: c) -> (forall j, j ∈ i :: c -> j ∉ fl) -> (length pages < length c)%nat ->
  exists j r', fill_pages first type off pages i bytes r = Done (j, page_rest first off bytes pages, r') /\ (i :: c) !! length pages = Some j /\
    ring_ok w fl r' /\ chain (desc r') (i :: c) /\ same_rings r r' /\ (forall x, x ∉ take (length pages) c -> desc r' !! x = desc r !! x) /\
    described (desc r') (take (length pages) c) ((fun e => (e, type =? VIRTIO_BLK_T_IN)) <$> page_segs first off bytes pages).
Proof using abi_ok.
  revert first r i c bytes. induction pages as [|p pages IH]; intros first r i c bytes H Hc Hnd Hdis Hlen.
  { exists i, r. cbn [fill_pages page_rest page_segs length take fmap list_fmap]. split_and!; try done. constructor. }
  destruct c as [|j [|k c]]; [simpl in Hlen; lia|simpl in Hlen; lia|]. pose proof (chain_step _ _ _ _ Hc) as (d & Hd & Hn & Ej & Hcj).
  pose proof (chain_step _ _ _ _ Hcj) as (dj & Hdj & Hnj & Ejk & _). pose proof (NoDup_cons_1_1 _ _ Hnd) as Hni. apply NoDup_cons in Hnd as [Hij Hnd].
  pose proof (NoDup_cons_1_1 _ _ Hnd) as Hnj'. cbn [fill_pages page_rest page_segs]. unfold get_desc. rewrite Hd. cbn [mbind exec_bind]. rewrite Ej, Hdj. cbn [mbind exec_bind].
  destruct (page_segment first off p bytes) as [a sl]. set (e := mkDesc a (u32 sl) (page_flags type) (next dj)).
  destruct (put_ring_ok w fl r j e H) as (r1 & -> & H1 & E1 & Hs1); [eapply chain_range; [done|exact Hcj|set_solver]|apply Hdis; set_solver|]. cbn [mbind exec_bind].
  assert (chain (desc r1) (j :: k :: c)) as Hc1 by (rewrite E1; apply (chain_update _ _ _ dj); [done|done|by rewrite Hnj; apply page_flags_next|done]).
  destruct (IH false r1 j (k :: c) (u64 (bytes - u32 sl)) H1 Hc1 Hnd) as (j' & r' & -> & Hj' & H2 & Hc2 & Hs2 & Hfr2 & Hde2); [intros; apply Hdis; set_solver|simpl in *; lia|].
  assert (forall x, x ∉ j :: k :: c -> x ∉ take (length pages) (k :: c)) as Hsub.
  { intros x Hx Hin. apply Hx. right. eapply elem_of_take in Hin as (y & Hy & _). by eapply list_elem_of_lookup_2. }
  exists j', r'. split_and!; try done.
  - exists d. split; [|by rewrite Hn].
    rewrite Hfr2 by (apply Hsub; done). rewrite E1, lookup_insert_ne; [done|]. intros ->. set_solver.
  - by transitivity r1.
  - cbn [length take]. intros x [Hxj Hx]%not_elem_of_cons. rewrite Hfr2 by done. by rewrite E1, lookup_insert_ne.
  - cbn [length take fmap list_fmap]. constructor; [|done]. exists e. rewrite Hfr2.
    + rewrite E1, lookup_insert_eq. split; [done|]. unfold seg_of, e. rewrite page_flags_write. done.
    + intros (y & Hy & _)%elem_of_take. apply Hnj'. by eapply list_elem_of_lookup_2.
Qed.

Lemma fill_chain_spec req_pa index type off pages w fl r i c bytes :
  ring_ok w fl r -> chain (desc r) (i :: c) -> NoDup (i :: c) -> (forall j, j ∈ i :: c -> j ∉ fl) -> length c = S (length pages) -> page_rest true off bytes pages = 0 ->
  exists r', fill_chain req_pa index type off pages i bytes r = Done r' /\ ring_ok w fl r' /\ chain (desc r') (i :: c) /\ same_rings r r' /\
    (forall x, x ∉ i :: c -> desc r' !! x = desc r !! x) /\
    described (desc r') (i :: c) ((req_pa + index * blk_req_size, blk_req_size, false) :: data_segs type off bytes pages ++ [(blk_res_pa req_pa + index, 1, true)]).
Proof using abi_ok.
  intros H Hc Hnd Hdis Hlen Hrest. unfold fill_chain. destruct c as [|i2 c2]; [done|]. pose proof (chain_step _ _ _ _ Hc) as (d & Hd & Hn & Ei2 & _).
  unfold get_desc. rewrite Hd. cbn [mbind exec_bind]. set (e := mkDesc _ _ VRING_DESC_F_NEXT _).
  destruct (put_ring_ok w fl r i e H) as (r1 & -> & H1 & E1 & Hs1); [eapply chain_range; [done|exact Hc|set_solver]|apply Hdis; set_solver|]. cbn [mbind exec_bind].
  destruct (next_only (req_pa + index * blk_req_size) blk_req_size (next d)) as [He1 He2].
  assert (chain (desc r1) (i :: i2 :: c2)) as Hc1 by (rewrite E1; apply (chain_update _ _ _ d); [done|done|by rewrite Hn|done]).
  remember (i2 :: c2) as c eqn:Ec. destruct (fill_pages_spec true type off pages w fl r1 i c bytes H1 Hc1 Hnd Hdis) as (j & r2 & -> & Hj & H2 & Hc2 & Hs2 & Hfr2 & Hde2); [lia|].
  cbn [mbind exec_bind]. rewrite Hrest. cbn [Z.eqb zx_assert mbind exec_bind].
  destruct (lookup_lt_is_Some_2 c (length pages)) as [z Hz]; [lia|].
  assert (c = take (length pages) c ++ [z]) as Ez. { rewrite <- (take_S_r c (length pages) z) by done. by rewrite take_ge by lia. }
  destruct (chain_next _ _ (length pages) j z Hc2 Hj Hz) as (dj & Hdj & Enj). rewrite Hdj. cbn [mbind exec_bind]. rewrite Enj.
  destruct (chain_last (desc r2) (i :: take (length pages) c) z) as (dz & Hdz & Hnz); [cbn [app]; by rewrite <- Ez|]. rewrite Hdz. cbn [mbind exec_bind].
  assert (z ∈ c) as Hzc by by eapply list_elem_of_lookup_2. destruct (answer_only (blk_res_pa req_pa + index) 1 (next dz)) as [Hz1 Hz2].
  assert (z <> i /\ z ∉ take (length pages) c /\ i ∉ take (length pages) c) as (Hzi & Hzt & Hit).
  { apply NoDup_cons in Hnd as [Hni Hnd]. rewrite Ez in Hnd. apply NoDup_app in Hnd as (_ & Hnd & _). split_and!.
    - by intros ->.
    - intros Hin. by apply (Hnd z Hin), list_elem_of_singleton.
    - intros (y & Hy & _)%elem_of_take. apply Hni. by eapply list_elem_of_lookup_2. }
  destruct (put_ring_ok w fl r2 z (mkDesc (blk_res_pa req_pa + index) 1 VRING_DESC_F_WRITE (next dz)) H2) as (r3 & -> & H3 & E3 & Hs3);
    [eapply chain_range; [done|exact Hc2|by right]|apply Hdis; by right|].
  exists r3. split; [done|]. split; [done|]. split; [rewrite E3; apply (chain_update _ _ _ dz); [done|done|congruence|done]|].
  split; [by transitivity r1; [|transitivity r2]|]. split.
  - intros x [Hxi Hxc]%not_elem_of_cons. rewrite E3, lookup_insert_ne by (by intros ->). rewrite Hfr2; [by rewrite E1, lookup_insert_ne|].
    intros (y & Hy & _)%elem_of_take. apply Hxc. by eapply list_elem_of_lookup_2.
  - constructor.
    + exists e. rewrite E3, lookup_insert_ne, Hfr2, E1, lookup_insert_eq by done. split; [done|]. unfold seg_of. unfold e at 3. by rewrite He2.
    + rewrite Ez. apply Forall2_app.
      * eapply described_ext; [|exact Hde2]. intros x Hx. rewrite E3, lookup_insert_ne; [done|]. by intros ->.
      * constructor; [|constructor]. eexists. rewrite E3, lookup_insert_eq. split; [done|]. unfold seg_of. by rewrite Hz2.
Qed.

Lemma page_range : 2 <= kPageSize < 2 ^ 32.
Proof using abi_ok.
  destruct page_size_power as (k & Hk & ->). split; [change 2 with (2 ^ 1); apply Z.pow_le_mono_r; lia|apply Z.pow_lt_mono_r; lia].
Qed.

Lemma page_pos : 0 < kPageSize.
Proof using abi_ok. pose proof page_range. lia. Qed.

Lemma page_mask x : Z.land x kPageMask = x mod kPageSize.
Proof using abi_ok. destruct page_size_power as (k & Hk & E). unfold kPageMask. rewrite E. apply slot_mask. lia. Qed.

(** The part of [bytes] in the first page, which begins at [o] in it. *)
Definition page_room (o bytes : Z) : Z := Z.min (kPageSize - o) bytes.

Lemma page_segment_eq first off p bytes :
  0 <= bytes -> page_segment first off p bytes = (if first then u64 (p + off mod kPageSize) else p, page_room (if first then off mod kPageSize else 0) bytes).
Proof using abi_ok.
  intros Hb. pose proof page_range as Hp. unfold page_segment, page_room. rewrite page_mask.
  pose proof (Z.mod_pos_bound off kPageSize page_pos) as Hm. generalize dependent (off mod kPageSize). intros o Hm.
  destruct first; destruct (Z.ltb_spec kPageSize bytes); cbn beta iota.
  - destruct (Z.ltb_spec (kPageSize - o) kPageSize); f_equal; lia.
  - destruct (Z.ltb_spec (kPageSize - o) bytes); f_equal; lia.
  - f_equal; lia.
  - f_equal; lia.
Qed.

Lemma page_rest_zero (first : bool) off bytes pages :
  0 <= bytes < 2 ^ 64 -> bytes <= Z.of_nat (length pages) * kPageSize - (if first then off mod kPageSize else 0) -> page_rest first off bytes pages = 0.
Proof using abi_ok.
  pose proof page_range as Hp. revert first bytes. induction pages as [|p pages IH]; intros first bytes Hb Hle.
  { cbn [page_rest length] in *. destruct first; [pose proof (Z.mod_pos_bound off kPageSize page_pos)|]; lia. }
  cbn [page_rest]. rewrite page_segment_eq by lia. set (o := if first then _ else _) in *.
  assert (0 <= o < kPageSize) as Ho by (unfold o; destruct first; [apply Z.mod_pos_bound|]; lia).
  unfold page_room. rewrite u32_small by (unfold is_u32; lia). rewrite u64_small by (unfold is_u64; lia). apply IH; [lia|]. simpl length in Hle. lia.
Qed.

(** A transfer that begins at a page takes whole pages, and of the last one what is left. *)
Lemma page_segs_exact off bytes pages :
  off mod kPageSize = 0 -> 0 <= bytes < 2 ^ 64 -> Forall is_u64 pages ->
  forall first k a, pages !! k = Some a -> page_segs first off bytes pages !! k = Some (a, Z.max 0 (Z.min kPageSize (bytes - Z.of_nat k * kPageSize))).
Proof using abi_ok.
  intros Hoff. pose proof page_range as Hp. revert bytes. induction pages as [|p pages IH]; intros bytes Hb Hpg first k a Hk; [done|].
  apply Forall_cons in Hpg as [Hpp Hpg]. cbn [page_segs]. rewrite page_segment_eq by lia. rewrite Hoff. replace (if first then 0 else 0) with 0 by by destruct first.
  unfold page_room. rewrite u32_small by (unfold is_u32; lia). rewrite (u64_small (bytes - _)) by (unfold is_u64; lia). destruct k as [|k].
  - injection Hk as ->. simpl. replace (if first then u64 (a + 0) else a) with a; [f_equal; f_equal; lia|]. destruct first; [|done]. rewrite Z.add_0_r, u64_small; done.
  - simpl. rewrite (IH (bytes - Z.min (kPageSize - 0) bytes)) with (a := a); [|lia|done|done]. f_equal. f_equal. lia.
Qed.

Lemma page_segs_length first off bytes pages : length (page_segs first off bytes pages) = length pages.
Proof using Type. revert first bytes. induction pages as [|p pages IH]; intros first bytes; [done|]. cbn [page_segs]. destruct (page_segment _ _ _ _). simpl. by rewrite IH. Qed.

(** The segments make up the transfer. *)
Definition seg_bytes (l : list (Z * Z)) : Z := foldr (fun e n => e.2 + n) 0 l.

Lemma page_segs_sum first off bytes pages : 0 <= bytes < 2 ^ 64 -> seg_bytes (page_segs first off bytes pages) + page_rest first off bytes pages = bytes.
Proof using abi_ok.
  pose proof page_range as Hp. revert first bytes. induction pages as [|p pages IH]; intros first bytes Hb; [done|]. cbn [page_segs page_rest]. rewrite page_segment_eq by lia. set (o := if first then off mod _ else 0) in *.
  assert (0 <= o < kPageSize) as Ho by (unfold o; destruct first; [apply Z.mod_pos_bound|]; lia).
  unfold page_room. rewrite u32_small by (unfold is_u32; lia). rewrite (u64_small (bytes - _)) by (unfold is_u64; lia). cbn [seg_bytes foldr snd]. specialize (IH false (bytes - Z.min (kPageSize - o) bytes)). unfold seg_bytes in IH. lia.
Qed.

(** The addresses at which the pages of a transfer begin, for those [zx_bti_pin] has given. *)
Definition page_starts (off : Z) (pages : list Z) : list Z := match pages with [] => [] | p :: l => u64 (p + off mod kPageSize) :: l end.

Lemma page_starts_aligned off pages : off mod kPageSize = 0 -> Forall is_u64 pages -> page_starts off pages = pages.
Proof using Type. intros E Hp. destruct pages as [|p l]; [done|]. cbn [page_starts]. rewrite E, Z.add_0_r, u64_small; [done|]. by apply Forall_cons in Hp as [Hp _]. Qed.

Lemma page_starts_length off pages : length (page_starts off pages) = length pages.
Proof using Type. by destruct pages. Qed.

(** What a transfer that begins at a page has to be: of each page all, and of the last what is left. *)
Definition whole_pages (bytes : Z) (pages : list Z) : list (Z * Z) := imap (fun n p => (p, Z.min kPageSize (bytes - Z.of_nat n * kPageSize))) pages.

Lemma page_segs_whole off bytes pages :
  off mod kPageSize = 0 -> 0 <= bytes < 2 ^ 64 -> Forall is_u64 pages -> Z.of_nat (length pages) * kPageSize < bytes + kPageSize -> page_segs true off bytes pages = whole_pages bytes pages.
Proof using abi_ok.
  intros Ho Hb Hp Hl. pose proof page_range as Hr. apply list_eq. intros n. unfold whole_pages. rewrite list_lookup_imap. destruct (pages !! n) as [p|] eqn:E.
  - rewrite (page_segs_exact off bytes pages Ho Hb Hp true n p E). simpl. f_equal. f_equal. apply lookup_lt_Some in E.
    assert ((Z.of_nat n + 1) * kPageSize <= Z.of_nat (length pages) * kPageSize) by (apply Z.mul_le_mono_nonneg_r; lia). lia.
  - simpl. apply lookup_ge_None. rewrite page_segs_length. by apply lookup_ge_None.
Qed.

(** ** Pinning *)

Context {blk_ok : VirtioBlkAbiOk}.

Lemma pin_size_pages op bytes : 0 <= bytes < 2 ^ 32 -> 0 <= offset_vmo op -> pin_size (pin_request op bytes) = num_pages op bytes * kPageSize.
Proof using abi_ok blk_ok.
  intros Hb Ho. pose proof page_range as Hp. pose proof (Z.mod_pos_bound (offset_vmo op) kPageSize page_pos) as Hm. unfold num_pages, pin_request. cbn [pin_size]. rewrite page_mask.
  rewrite u64_small by (unfold is_u64; lia). rewrite roundup_spec; [|lia|lia|lia|destruct page_size_power as (k & ? & ?); exists k; split; [lia|done]]. by rewrite Z.div_mul by lia.
Qed.

Lemma num_pages_spec op bytes : 0 <= bytes < 2 ^ 32 -> 0 <= offset_vmo op ->
  offset_vmo op mod kPageSize + bytes <= num_pages op bytes * kPageSize < offset_vmo op mod kPageSize + bytes + kPageSize.
Proof using abi_ok blk_ok.
  intros Hb Ho. pose proof page_range as Hp. pose proof (Z.mod_pos_bound (offset_vmo op) kPageSize page_pos) as Hm. unfold num_pages, pin_request. cbn [pin_size]. rewrite page_mask.
  rewrite u64_small by (unfold is_u64; lia). rewrite roundup_spec; [|lia|lia|lia|destruct page_size_power as (k & ? & ?); exists k; split; [lia|done]].
  rewrite Z.div_mul by lia. set (a := _ + bytes). assert (kPageSize <> 0) as Hz by lia. pose proof (Z.div_mod (a + kPageSize - 1) kPageSize Hz) as E.
  pose proof (Z.mod_pos_bound (a + kPageSize - 1) kPageSize page_pos). lia.
Qed.
End chain.
