(* ===== verification/VirtioBlockRun.v ===== *)
(** * VirtioBlockRun: the runs of the virtio block device

    The invariant of all threads: the descriptors are divided between the free list, the chains that have been submitted and
    the one the worker is about to submit; the slots of the bitmap belong to the transactions that wait for the
    device; and every transaction is in one place. *)
From Stdlib Require Import ZArith Lia.
From stdpp Require Import prelude gmap.
From S2P Require Import Prelude BlockServer VirtioRing VirtioBlock VirtioChain.

Local Open Scope Z_scope.

Section run.
Context {abi : VirtioAbi} {abi_ok : VirtioAbiOk} {blk : VirtioBlkAbi} {blk_ok : VirtioBlkAbiOk} {block_abi : BlockAbi}.
Implicit Types (s : Sys) (d : BlockDevice) (t : nat) (c fl wc A U : list Z) (cs : list (nat * list Z)).

Definition idx_of d t : option Z := txns d !! t ≫= t_index.
Definition head_of d t : option Z := txns d !! t ≫= t_desc.
Definition op_of d t : option BlkOp := t_op <$> txns d !! t.

(** ** The places of transactions *)

(** What the worker holds: a transaction, a slot. *)
Definition in_hand (p : WorkerPc) : list nat :=
  match p with
  | WFlush t _ false | WFlushWait t _ false | WAlloc t _ _ | WChain t _ _ _ | WFree t _ _ _ | WFailed t _ _ | WWait t _ | WSubmit t _ _ => [t]
  | _ => []
  end.

Definition worker_slots (p : WorkerPc) d : list Z :=
  match p with
  | WChain _ _ _ i | WFree _ _ _ i => [i]
  | WSubmit t _ _ => option_list (idx_of d t)
  | _ => []
  end.

Definition irq_hand (p : IrqPc) : list nat := match p with IComplete _ _ t _ => [t] | _ => [] end.

(** The transactions that have not been completed: those the worker has still to take, the one it holds, those with the device, the
    one the interrupt thread is about to complete, and those that were dropped. *)
Definition waiting s : list nat := worker_txn_list_ (dev s) ++ in_hand (worker s) ++ pending_txn_list_ (dev s) ++ irq_hand (irq s) ++ lost s.

Definition places s : list nat := (completed (dev s)).*1 ++ waiting s.

(** Every transaction is completed once or waits; a transfer of no blocks is completed twice. *)
Definition accounted s : Prop :=
  exists once, (completed (dev s)).*1 ≡ₚ once ++ empties s ++ empties s /\ once ++ empties s ++ waiting s ≡ₚ seq 0 (length (txns (dev s))).

(** The pending transactions have been completed by [CleanupPendingTxns]. *)
Definition cleaned (p : WorkerPc) : bool := match p with WDone => true | _ => false end.
Definition cleaning (p : WorkerPc) : bool := match p with WCleanWorker | WCleanPending | WDone => true | _ => false end.

(** ** The ring *)

(** What the device is told: the request, the pages, the place for the answer. *)
Definition layout (req_pa k : Z) (j : Job) (off : Z) : list (Z * Z * bool) :=
  (req_pa + k * blk_req_size, blk_req_size, false) :: data_segs (j_type j) off (j_bytes j) (j_pages j) ++ [(blk_res_pa req_pa + k, 1, true)].

Definition sector_of (j : Job) (op : BlkOp) : Z := if j_type j =? VIRTIO_BLK_T_FLUSH then 0 else offset_dev op.

(** The chain [c] has been filled in for the transaction [t] of job [j] and slot [k]. *)
Record filled s t c (j : Job) (k : Z) (op : BlkOp) : Prop := {
  fi_op : op_of (dev s) t = Some op;
  fi_head : exists i l, c = i :: l /\ head_of (dev s) t = Some i;
  fi_idx : idx_of (dev s) t = Some k;
  fi_job : jobs s !! t = Some j;
  fi_req : blk_req_ (dev s) !! k = Some (j_type j, sector_of j op);
  fi_chain : chain (desc (vring_ (dev s))) c;
  fi_layout : described (desc (vring_ (dev s))) c (layout (blk_req_pa (dev s)) k j (offset_vmo op))
}.

Definition submitted s (x : nat * list Z) : Prop := (exists j k op, filled s x.1 x.2 j k op) /\ forall i, head x.2 = Some i -> owner s !! i = Some x.1.

Definition heads cs : list Z := omap (fun x => head x.2) cs.

Definition answered s t : Prop := exists k st, idx_of (dev s) t = Some k /\ (t, st) ∈ answers s /\ blk_res_ (dev s) !! k = Some st.

(** The place in the used ring up to which chains have been taken out. *)
Definition used_pos s : Z :=
  match irq s with IIdle => last_used (vring_ (dev s)) | IRun _ i => i | IFreed _ i _ | IComplete _ i _ _ => u16 (i + 1) end.

Definition irq_cur s : option Z := match irq s with IIdle => None | IRun cur _ | IFreed cur _ _ | IComplete cur _ _ _ => Some cur end.

(** The pending transactions are those of the submitted chains, and the one whose chain has just been freed: the first
    with this head. *)
Definition pending_ok s cs : Prop :=
  if cleaned (worker s) then pending_txn_list_ (dev s) = []
  else match irq s with
       | IFreed _ _ h => exists l1 t l2, pending_txn_list_ (dev s) = l1 ++ t :: l2 /\ cs.*1 = l1 ++ l2 /\
           head_of (dev s) t = Some h /\ (forall u, u ∈ l1 -> head_of (dev s) u <> Some h) /\ answered s t
       | _ => pending_txn_list_ (dev s) = cs.*1
       end.

Record slots_ok d (ws : list Z) : Prop := {
  so_u32 : is_u32 (blk_req_bitmap_ d);
  so_slots : exists ks, Forall2 (fun t k => idx_of d t = Some k) (pending_txn_list_ d) ks /\ NoDup (ks ++ ws) /\
    Forall (fun k => 0 <= k < blk_req_count) (ks ++ ws) /\ forall k, 0 <= k -> Z.testbit (blk_req_bitmap_ d) k = true <-> k ∈ ks ++ ws
}.

Record RI (w : Z) s fl cs wc A U : Prop := {
  ri_ring : ring_ok w fl (vring_ (dev s));
  ri_part : fl ++ concat cs.*2 ++ wc ≡ₚ seqZ 0 (2 ^ w);
  ri_cs : Forall (submitted s) cs;
  ri_wc : match worker s with WSubmit t j i => (exists k op, filled s t wc j k op) /\ head wc = Some i | _ => wc = [] end;
  ri_pending : pending_ok s cs;
  ri_slots : slots_ok (dev s) (worker_slots (worker s) (dev s));
  ri_avail : entries w (avail_ring (vring_ (dev s))) (h_avail s) A;
  ri_avail_idx : avail_idx (vring_ (dev s)) = u16 (h_avail s + Z.of_nat (length A));
  ri_h_avail : u16 (h_avail s) = h_avail s;
  ri_used : entries w (used_ring (vring_ (dev s))) (used_pos s) U;
  ri_used_idx : used_idx (vring_ (dev s)) = u16 (used_pos s + Z.of_nat (length U));
  ri_pos : u16 (used_pos s) = used_pos s;
  ri_cur : forall cur, irq_cur s = Some cur -> exists m, 0 <= m <= Z.of_nat (length U) /\ cur = u16 (used_pos s + m);
  ri_heads : A ++ h_busy s ++ U ≡ₚ heads cs;
  ri_answered : forall x i, x ∈ cs -> head x.2 = Some i -> i ∈ U -> answered s x.1;
  ri_res : forall k, 0 <= k < blk_req_count -> is_Some (blk_res_ (dev s) !! k);
  ri_live : h_live s = true -> cleaning (worker s) = false
}.

(** ** The rest *)

Definition job_ok d t (j : Job) : Prop :=
  exists op, op_of d t = Some op /\ page_rest true (offset_vmo op) (j_bytes j) (j_pages j) = 0 /\ Z.of_nat (length (j_pages j)) <= MAX_SCATTER.

Definition worker_ok s : Prop :=
  let d := dev s in
  match worker s with
  | WFlush t j false | WFlushWait t j false | WWait t j => jobs s !! t = Some j /\ job_ok d t j
  | WAlloc t j cf | WChain t j cf _ => jobs s !! t = Some j /\ job_ok d t j /\ (cf = true -> pending_txn_list_ d = [])
  | WFree t j cf i => jobs s !! t = Some j /\ job_ok d t j /\ (cf = true -> pending_txn_list_ d = []) /\ idx_of d t = Some i
  | WFailed t j cf => jobs s !! t = Some j /\ job_ok d t j /\ (cf = true -> pending_txn_list_ d = [] /\ exists k, idx_of d t = Some k /\ 0 <= k)
  | _ => True
  end.

Definition from_device s (x : nat * zx_status) : Prop := exists st, (x.1, st) ∈ answers s /\ x.2 = status_of st.

(** The statuses with which the driver itself completes a transaction. *)
Definition local_errors : list zx_status :=
  [ZX_ERR_OUT_OF_RANGE; ZX_ERR_NOT_SUPPORTED; ZX_ERR_INVALID_ARGS; ZX_ERR_INTERNAL; ZX_ERR_NO_RESOURCES; ZX_ERR_IO_NOT_PRESENT].

(** What a completion reports: the answer of the device, an error of the driver's own, or that a transfer of no blocks
    has succeeded. *)
Definition reported s (x : nat * zx_status) : Prop := from_device s x \/ x.2 ∈ local_errors \/ x.2 = ZX_OK /\ x.1 ∈ empties s.

Record VInv (w : Z) s : Prop := {
  vi_ring : exists fl cs wc A U, RI w s fl cs wc A U;
  vi_places : accounted s;
  vi_worker : worker_ok s;
  vi_done : Forall (reported s) (completed (dev s));
  vi_complete : match irq s with IComplete _ _ t st => from_device s (t, st) | _ => True end;
  vi_lost : lost s <> [] -> worker_shutdown_ (dev s) = true
}.

(** ** Frames *)

(** What the ring and the completions depend on. *)
Record same_txn d d' t : Prop := {
  st_op : op_of d' t = op_of d t;
  st_head : head_of d' t = head_of d t;
  st_idx : idx_of d' t = idx_of d t
}.

Lemma same_txn_lookup d d' t : txns d' !! t = txns d !! t -> same_txn d d' t.
Proof using All. intros E. constructor; unfold op_of, head_of, idx_of; by rewrite E. Qed.

Lemma upd_txn_ne d t f u : u <> t -> same_txn d (upd_txn t f d) u.
Proof using All. intros Hne. apply same_txn_lookup. simpl. by apply list_lookup_alter_ne. Qed.

Lemma upd_txn_pmt d t b u : same_txn d (upd_txn t (set_pmt b) d) u.
Proof using All.
  destruct (decide (u = t)) as [->|]; [|by apply upd_txn_ne]. constructor; unfold op_of, head_of, idx_of; simpl; rewrite list_lookup_alter_eq; by destruct (txns d !! t).
Qed.

Lemma complete_same d t st u : same_txn d (txn_complete t st d) u.
Proof using All. destruct (upd_txn_pmt d t false u). by constructor. Qed.

Lemma filled_frame s s' t c j k op :
  filled s t c j k op -> (forall i, i ∈ c -> desc (vring_ (dev s')) !! i = desc (vring_ (dev s)) !! i) -> same_txn (dev s) (dev s') t ->
  jobs s' !! t = jobs s !! t -> blk_req_ (dev s') !! k = blk_req_ (dev s) !! k -> blk_req_pa (dev s') = blk_req_pa (dev s) -> filled s' t c j k op.
Proof using All.
  intros [F1 F2 F3 F4 F5 F6 F7] Hd [T1 T2 T3] Hj Hr Hp. constructor; rewrite ?T1, ?T2, ?T3, ?Hj, ?Hr, ?Hp; try done.
  - by eapply chain_ext.
  - by eapply described_ext.
Qed.

Lemma submitted_frame s s' x :
  submitted s x -> (forall i, i ∈ x.2 -> desc (vring_ (dev s')) !! i = desc (vring_ (dev s)) !! i) -> same_txn (dev s) (dev s') x.1 ->
  jobs s' !! x.1 = jobs s !! x.1 -> (forall k, idx_of (dev s) x.1 = Some k -> blk_req_ (dev s') !! k = blk_req_ (dev s) !! k) -> blk_req_pa (dev s') = blk_req_pa (dev s) ->
  (forall i, head x.2 = Some i -> owner s' !! i = owner s !! i) -> submitted s' x.
Proof using All.
  intros [(j & k & op & F) Ho] Hd Ht Hj Hr Hp Hown. split.
  - exists j, k, op. eapply filled_frame; eauto. apply Hr, F.
  - intros i Hi. rewrite Hown by done. by apply Ho.
Qed.

Lemma answered_frame s s' t :
  answered s t -> idx_of (dev s') t = idx_of (dev s) t -> (forall x, x ∈ answers s -> x ∈ answers s') ->
  (forall k, idx_of (dev s) t = Some k -> blk_res_ (dev s') !! k = blk_res_ (dev s) !! k) -> answered s' t.
Proof using All. intros (k & st & Hk & Ha & Hr) Hi Hans Hres. exists k, st. rewrite Hi, Hres by done. eauto. Qed.

(** The steps that leave the ring and the pending transactions alone. *)
Record same_ring s s' cs : Prop := {
  sg_vring : vring_ (dev s') = vring_ (dev s);
  sg_req t k : t ∈ cs.*1 -> idx_of (dev s) t = Some k -> blk_req_ (dev s') !! k = blk_req_ (dev s) !! k;
  sg_res : blk_res_ (dev s') = blk_res_ (dev s);
  sg_pa : blk_req_pa (dev s') = blk_req_pa (dev s);
  sg_pending : pending_txn_list_ (dev s') = pending_txn_list_ (dev s);
  sg_txns t : t ∈ cs.*1 ++ pending_txn_list_ (dev s) -> same_txn (dev s) (dev s') t;
  sg_jobs t : t ∈ cs.*1 -> jobs s' !! t = jobs s !! t;
  sg_irq : irq s' = irq s;
  sg_avail : h_avail s' = h_avail s;
  sg_busy : h_busy s' = h_busy s;
  sg_owner : owner s' = owner s;
  sg_answers : answers s' = answers s
}.

Lemma slots_frame d d' ws :
  slots_ok d ws -> blk_req_bitmap_ d' = blk_req_bitmap_ d -> pending_txn_list_ d' = pending_txn_list_ d -> (forall t, t ∈ pending_txn_list_ d -> idx_of d' t = idx_of d t) -> slots_ok d' ws.
Proof using All.
  intros [S1 (ks & S2 & S3)] E1 E2 E3. constructor; rewrite ?E1; try done. exists ks. rewrite E2. split; [|done].
  apply Forall2_same_length_lookup_2; [by eapply Forall2_length|]. intros i t k Ht Hk. rewrite E3 by (by eapply list_elem_of_lookup_2).
  by eapply Forall2_lookup_lr in S2.
Qed.

Lemma elem_fst cs x : x ∈ cs -> x.1 ∈ cs.*1.
Proof using All. intros. by apply list_elem_of_fmap_2. Qed.

Lemma pending_frame s s' cs :
  pending_ok s cs -> pending_txn_list_ (dev s') = pending_txn_list_ (dev s) -> irq s' = irq s -> cleaned (worker s') = cleaned (worker s) ->
  (forall t, t ∈ pending_txn_list_ (dev s) -> same_txn (dev s) (dev s') t) -> (forall x, x ∈ answers s -> x ∈ answers s') ->
  (forall t, t ∈ pending_txn_list_ (dev s) -> answered s t -> answered s' t) -> pending_ok s' cs.
Proof using All.
  intros Hp Ep Ei Ec Hs Ha Hr. unfold pending_ok in *. rewrite Ec, Ep, Ei. destruct (cleaned (worker s)); [done|]. destruct (irq s); try done.
  destruct Hp as (l1 & t & l2 & E1 & E2 & H1 & H2 & H3). exists l1, t, l2. rewrite E1 in Hs, Hr. split_and!; [done|done| | |].
  - by rewrite (st_head _ _ _ (Hs t ltac:(set_solver))).
  - intros u Hu. rewrite (st_head _ _ _ (Hs u ltac:(set_solver))). by apply H2.
  - apply Hr; [set_solver|done].
Qed.

Definition no_submit (p : WorkerPc) : Prop := match p with WSubmit _ _ _ => False | _ => True end.

Lemma ri_frame w s s' fl cs wc A U :
  RI w s fl cs wc A U -> same_ring s s' cs -> no_submit (worker s) -> no_submit (worker s') -> slots_ok (dev s') (worker_slots (worker s') (dev s')) ->
  cleaned (worker s') = cleaned (worker s) -> (h_live s' = true -> cleaning (worker s') = false) -> RI w s' fl cs wc A U.
Proof using All.
  intros H Hs N1 N2 Hsl Ec El. pose proof Hs as [G1 G3 G4 G5 G6 G7 G8 G9 G10 G11 G12 G13].
  assert (used_pos s' = used_pos s) as Ep by (unfold used_pos; by rewrite G9, G1). assert (irq_cur s' = irq_cur s) as Ei by (unfold irq_cur; by rewrite G9).
  destruct H. constructor; rewrite ?G1, ?G10, ?G11, ?Ep, ?Ei, ?G4; try done.
  - apply Forall_forall. intros x Hx. rewrite Forall_forall in ri_cs0. apply (submitted_frame s); [by apply ri_cs0|by rewrite G1|apply G7|apply G8|intros k; apply G3|done|by rewrite G12];
      apply elem_fst in Hx; set_solver.
  - destruct (worker s), (worker s'); done.
  - eapply pending_frame; [done|done|done|done|intros t Ht; apply G7; set_solver|by rewrite G13|].
    intros t Ht Ha. eapply answered_frame; [done|apply G7; set_solver|by rewrite G13|by rewrite G4].
  - intros x i Hx Hi HU. eapply answered_frame; [by eauto|apply G7; apply elem_fst in Hx; set_solver|by rewrite G13|by rewrite G4].
Qed.

(** ** Slots *)

Lemma u32_of_bits x : 0 <= x -> (forall k, 32 <= k -> Z.testbit x k = false) -> is_u32 x.
Proof using All.
  intros Hx Hk. destruct (decide (x = 0)) as [->|Hne]; [unfold is_u32; lia|]. split; [done|]. apply Z.log2_lt_pow2; [lia|].
  destruct (Z.lt_ge_cases (Z.log2 x) 32) as [|Hge]; [done|]. apply Hk in Hge. rewrite Z.bit_log2 in Hge by lia. done.
Qed.

Lemma u32_bits x k : is_u32 x -> 32 <= k -> Z.testbit x k = false.
Proof using All.
  intros [H0 H1] Hk. destruct (decide (x = 0)) as [->|Hne]; [apply Z.bits_0|]. apply Z.bits_above_log2; [done|]. apply Z.log2_lt_pow2 in H1; lia.
Qed.

Lemma alloc_bits b i b' :
  is_u32 b -> alloc_blk_req b = (i, b') -> i < blk_req_count ->
  0 <= i /\ Z.testbit b i = false /\ is_u32 b' /\ forall k, 0 <= k -> Z.testbit b' k = true <-> Z.testbit b k = true \/ k = i.
Proof using All.
  intros Hb E Hi. unfold alloc_blk_req in E. injection E as Ei Eb. subst i. destruct (Z.ltb_spec (bit_width b) blk_req_count) as [_|]; [|lia]. subst b'. set (i := bit_width b) in *.
  assert (0 <= i) as H0. { unfold i, bit_width. destruct (b =? 0); [lia|]. pose proof (Z.log2_nonneg b). lia. }
  assert (Z.testbit b i = false) as Hf.
  { unfold i, bit_width. destruct (Z.eqb_spec b 0) as [->|Hne]; [done|]. apply Z.bits_above_log2; [apply Hb|lia]. }
  assert (forall k, 0 <= k -> Z.testbit (Z.lor b (Z.shiftl 1 i)) k = true <-> Z.testbit b k = true \/ k = i) as Hbits.
  { intros k Hk. rewrite Z.shiftl_1_l, Z.lor_spec, Z.pow2_bits_eqb, orb_true_iff, Z.eqb_eq by done. intuition lia. }
  split_and!; [done|done| |done]. apply u32_of_bits; [apply Z.lor_nonneg; split; [apply Hb|rewrite Z.shiftl_1_l; apply Z.pow_nonneg; lia]|].
  intros k Hk. apply not_true_is_false. rewrite Hbits by lia. intros [Ht| ->]; [|unfold blk_req_count in Hi; lia]. rewrite (u32_bits b k) in Ht by done. done.
Qed.

Lemma free_bits b i : is_u32 b -> 0 <= i -> is_u32 (free_blk_req i b) /\ forall k, 0 <= k -> Z.testbit (free_blk_req i b) k = true <-> Z.testbit b k = true /\ k <> i.
Proof using All.
  intros Hb Hi. unfold free_blk_req. rewrite land_u32_not, Z.shiftl_1_l by done.
  assert (forall k, 0 <= k -> Z.testbit (Z.ldiff b (2 ^ i)) k = true <-> Z.testbit b k = true /\ k <> i) as Hbits.
  { intros k Hk. rewrite Z.ldiff_spec, Z.pow2_bits_eqb, andb_true_iff, negb_true_iff, Z.eqb_neq by done. intuition lia. }
  split; [|done]. apply u32_of_bits; [apply Z.ldiff_nonneg; left; apply Hb|]. intros k Hk. apply not_true_is_false. rewrite Hbits by lia. intros [Ht _]. rewrite (u32_bits b k) in Ht by done. done.
Qed.

Lemma slots_alloc d i b :
  slots_ok d [] -> alloc_blk_req (blk_req_bitmap_ d) = (i, b) -> i < blk_req_count -> 0 <= i /\ slots_ok (set_bitmap b d) [i].
Proof using All.
  intros [S1 (ks & S2 & S3 & S4 & S5)] E Hi. destruct (alloc_bits _ _ _ S1 E Hi) as (H0 & Hf & Hu & Hb). split; [done|]. rewrite app_nil_r in *. constructor; simpl; [done|].
  exists ks. split_and!; [done| | |].
  - apply NoDup_app. split_and!; [done| |apply NoDup_singleton]. intros k Hk ->%list_elem_of_singleton. apply S5 in Hk; [|done]. congruence.
  - apply Forall_app_2; [done|by repeat constructor].
  - intros k Hk. rewrite Hb, S5 by done. set_solver.
Qed.

Lemma slots_free d i : slots_ok d [i] -> slots_ok (set_bitmap (free_blk_req i (blk_req_bitmap_ d)) d) [].
Proof using All.
  intros [S1 (ks & S2 & S3 & S4 & S5)]. apply Forall_app in S4 as [S4 [H0 _]%Forall_singleton]. destruct (free_bits _ i S1 H0) as [Hu Hb]. constructor; simpl; [done|].
  exists ks. rewrite app_nil_r. apply NoDup_app in S3 as (N1 & N2 & _). split_and!; [done..|]. intros k Hk. rewrite Hb, S5 by done. rewrite elem_of_app, list_elem_of_singleton.
  split; [tauto|]. intros Hin. split; [tauto|]. intros ->. by apply (N2 i Hin), list_elem_of_singleton.
Qed.

(** Freeing a slot that is not in use changes nothing. *)
Lemma slots_free_none d i : slots_ok d [] -> pending_txn_list_ d = [] -> 0 <= i -> slots_ok (set_bitmap (free_blk_req i (blk_req_bitmap_ d)) d) [].
Proof using All.
  intros [S1 (ks & S2 & S3 & S4 & S5)] Hp Hi. rewrite Hp in S2. apply Forall2_nil_inv_l in S2 as ->. destruct (free_bits _ i S1 Hi) as [Hu Hb]. constructor; simpl; [done|].
  exists []. rewrite Hp. split_and!; [constructor|done|done|]. intros k Hk. rewrite Hb, S5 by done. set_solver.
Qed.

(** The slot of a pending transaction, and how it is given back. *)
Lemma slots_split d ws l1 t l2 :
  slots_ok d ws -> pending_txn_list_ d = l1 ++ t :: l2 ->
  exists ks1 k ks2, idx_of d t = Some k /\ Forall2 (fun t k => idx_of d t = Some k) (l1 ++ l2) (ks1 ++ ks2) /\ NoDup (k :: (ks1 ++ ks2) ++ ws) /\
    Forall (fun k => 0 <= k < blk_req_count) (k :: (ks1 ++ ks2) ++ ws) /\
    (forall x, 0 <= x -> Z.testbit (blk_req_bitmap_ d) x = true <-> x ∈ k :: (ks1 ++ ks2) ++ ws).
Proof using All.
  intros [S1 (ks & S2 & S3 & S4 & S5)] Hp. rewrite Hp in S2. apply Forall2_app_inv_l in S2 as (ks1 & ks' & F1 & F2 & ->). apply Forall2_cons_inv_l in F2 as (k & ks2 & Hk & F2 & ->).
  assert ((ks1 ++ k :: ks2) ++ ws ≡ₚ k :: (ks1 ++ ks2) ++ ws) as Hperm by (by rewrite <- Permutation_middle).
  exists ks1, k, ks2. split_and!; [done|by apply Forall2_app|by rewrite <- Hperm|by rewrite <- Hperm|]. intros x Hx. by rewrite S5, Hperm.
Qed.

Lemma slots_take d ws l1 t l2 k :
  slots_ok d ws -> pending_txn_list_ d = l1 ++ t :: l2 -> idx_of d t = Some k ->
  slots_ok (set_lists (worker_txn_list_ d) (l1 ++ l2) (set_bitmap (free_blk_req k (blk_req_bitmap_ d)) d)) ws.
Proof using All.
  intros H Hp Ek. destruct (slots_split _ _ _ _ _ H Hp) as (ks1 & k' & ks2 & Hk & F & N & R & B). rewrite Ek in Hk. injection Hk as <-.
  apply Forall_cons in R as [R1 R2]. destruct (free_bits (blk_req_bitmap_ d) k) as [Hu Hb]; [apply H|lia|]. constructor; simpl; [done|]. apply NoDup_cons in N as [N1 N2].
  exists (ks1 ++ ks2). split_and!; [done..|]. intros x Hx. rewrite Hb, B by done. rewrite elem_of_cons. split; [tauto|]. intros Hin. split; [by right|]. by intros ->.
Qed.

Lemma slots_distinct d ws t u k :
  slots_ok d ws -> NoDup (pending_txn_list_ d) -> t ∈ pending_txn_list_ d -> u ∈ pending_txn_list_ d -> idx_of d t = Some k -> idx_of d u = Some k -> t = u.
Proof using All.
  intros [S1 (ks & S2 & S3 & S4 & S5)] Hnd Ht Hu Et Eu. apply list_elem_of_lookup_1 in Ht as [n Hn], Hu as [m Hm].
  destruct (Forall2_lookup_l _ _ _ _ _ S2 Hn) as (k1 & Hk1 & E1), (Forall2_lookup_l _ _ _ _ _ S2 Hm) as (k2 & Hk2 & E2). rewrite Et in E1. rewrite Eu in E2. injection E1 as <-. injection E2 as <-.
  apply NoDup_app in S3 as (N1 & _ & _). pose proof (NoDup_lookup _ _ _ _ N1 Hk1 Hk2). subst m. congruence.
Qed.

Lemma slots_in d ws t k : slots_ok d ws -> t ∈ pending_txn_list_ d -> idx_of d t = Some k -> 0 <= k < blk_req_count /\ k ∉ ws.
Proof using All.
  intros H (l1 & l2 & Hp)%list_elem_of_split Ek. destruct (slots_split _ _ _ _ _ H Hp) as (ks1 & k' & ks2 & Hk & _ & N & R & _). rewrite Ek in Hk. injection Hk as <-.
  apply Forall_cons in R as [R _]. apply NoDup_cons in N as [N _]. split; [done|]. set_solver.
Qed.
End run.
