(* ===== verification/VirtioBlockSteps.v ===== *)
(** * VirtioBlockSteps: the steps that touch the ring

    Each critical section that changes the ring, the slots or the pending transactions keeps the invariant of the ring and
    returns. *)
From Stdlib Require Import ZArith Lia.
From stdpp Require Import prelude gmap.
From S2P Require Import Prelude BlockServer VirtioRing VirtioBlock VirtioChain VirtioBlockRun.

Local Open Scope Z_scope.

Section steps.
Context {abi : VirtioAbi} {abi_ok : VirtioAbiOk} {blk : VirtioBlkAbi} {blk_ok : VirtioBlkAbiOk} {block_abi : BlockAbi}.
Implicit Types (s : Sys) (d : BlockDevice) (t : nat) (c fl wc A U : list Z) (cs : list (nat * list Z)).

(** What is not of the ring. *)
Record same_rest s s' : Prop := {
  sr_completed : completed (dev s') = completed (dev s);
  sr_worker_list : worker_txn_list_ (dev s') = worker_txn_list_ (dev s);
  sr_txns : length (txns (dev s')) = length (txns (dev s));
  sr_ops t : op_of (dev s') t = op_of (dev s) t;
  sr_blk_size : blk_size (dev s') = blk_size (dev s);
  sr_shutdown : worker_shutdown_ (dev s') = worker_shutdown_ (dev s);
  sr_lost : lost s' = lost s;
  sr_jobs : jobs s' = jobs s;
  sr_empties : empties s' = empties s
}.

(** ** Chains and heads *)

Lemma filled_some s t c j k op : filled s t c j k op -> is_Some (txns (dev s) !! t).
Proof using Type. intros F. pose proof (fi_op _ _ _ _ _ _ F) as E. unfold op_of in E. destruct (txns (dev s) !! t); [by eexists|done]. Qed.

Lemma idx_some d t k : idx_of d t = Some k -> is_Some (txns d !! t).
Proof using Type. unfold idx_of. destruct (txns d !! t); [by eexists|done]. Qed.

Lemma submitted_head s x : submitted s x -> exists i l, x.2 = i :: l /\ head_of (dev s) x.1 = Some i.
Proof using All. intros [(j & k & op & F) _]. destruct (fi_head _ _ _ _ _ _ F) as (i & l & E & H). by exists i, l. Qed.

Lemma heads_in s cs i : Forall (submitted s) cs -> i ∈ heads cs -> exists cs1 x cs2, cs = cs1 ++ x :: cs2 /\ head x.2 = Some i.
Proof using All. intros _ (x & Hx & Hi)%list_elem_of_omap. apply list_elem_of_split in Hx as (cs1 & cs2 & ->). by exists cs1, x, cs2. Qed.

Lemma heads_app cs1 cs2 : heads (cs1 ++ cs2) = heads cs1 ++ heads cs2.
Proof using All. apply omap_app. Qed.

Lemma elem_concat cs y z : y ∈ cs -> z ∈ y.2 -> z ∈ concat cs.*2.
Proof using All. intros (l1 & l2 & ->)%list_elem_of_split Hz. rewrite fmap_app, concat_app. cbn [fmap list_fmap concat]. set_solver. Qed.

Lemma heads_sub s cs : Forall (submitted s) cs -> (length (heads cs) <= length (concat cs.*2))%nat /\ (forall i, i ∈ heads cs -> i ∈ concat cs.*2) /\ (NoDup (concat cs.*2) -> NoDup (heads cs)).
Proof using All.
  induction 1 as [|x cs Hx _ (IH1 & IH2 & IH3)]; [split_and!; [done|intros i []%not_elem_of_nil|constructor]|]. destruct (submitted_head _ _ Hx) as (i & l & E & _).
  assert (heads (x :: cs) = i :: heads cs) as Eh by (unfold heads; simpl; by rewrite E). rewrite Eh. cbn [fmap list_fmap concat]. rewrite E, length_app. cbn [length app]. split_and!.
  - lia.
  - intros j [->|Hj]%elem_of_cons; [set_solver|]. apply IH2 in Hj. set_solver.
  - intros [Hi Hnd]%NoDup_cons. apply NoDup_app in Hnd as (_ & _ & Hnd). constructor; [|by apply IH3]. intros Hin%IH2. apply Hi. set_solver.
Qed.

Lemma slots_push s t k d' :
  slots_ok (dev s) [k] -> idx_of (dev s) t = Some k -> blk_req_bitmap_ d' = blk_req_bitmap_ (dev s) -> txns d' = txns (dev s) ->
  pending_txn_list_ d' = pending_txn_list_ (dev s) ++ [t] -> slots_ok d' [].
Proof using All.
  intros [S1 (ks & S2 & S3 & S4 & S5)] Ek E1 E2 E3. constructor; rewrite ?E1; [done|]. exists (ks ++ [k]). rewrite app_nil_r, E3. split_and!; [|done|done|done].
  unfold idx_of in *. rewrite E2. apply Forall2_app; [done|]. by repeat constructor.
Qed.

Lemma after_queue_worker t j s1 : no_submit (worker (after_queue t j s1)) /\ cleaned (worker (after_queue t j s1)) = false /\
  cleaning (worker (after_queue t j s1)) = false /\ worker_slots (worker (after_queue t j s1)) (dev s1) = [] /\ in_hand (worker (after_queue t j s1)) = [].
Proof using All. unfold after_queue. simpl. by destruct (j_flush j). Qed.

Section ri.
Context w s fl cs wc A U (H : RI w s fl cs wc A U).

Lemma part_nodup : NoDup (fl ++ concat cs.*2 ++ wc).
Proof using All. rewrite (ri_part _ _ _ _ _ _ _ H). apply NoDup_seqZ. Qed.

Lemma part_length : Z.of_nat (length fl) + Z.of_nat (length (concat cs.*2)) + Z.of_nat (length wc) = 2 ^ w.
Proof using All.
  pose proof (ri_part _ _ _ _ _ _ _ H) as E%Permutation_length. rewrite !length_app, length_seqZ in E. pose proof (ring_range _ _ _ (ri_ring _ _ _ _ _ _ _ H)). lia.
Qed.

Lemma part_range i : i ∈ fl ++ concat cs.*2 ++ wc <-> 0 <= i < 2 ^ w.
Proof using All. rewrite (ri_part _ _ _ _ _ _ _ H), elem_of_seqZ. lia. Qed.

Lemma heads_nodup : NoDup (heads cs).
Proof using All. pose proof part_nodup as Hn. apply NoDup_app in Hn as (_ & _ & Hn). apply NoDup_app in Hn as (Hn & _ & _). by apply (heads_sub s cs (ri_cs _ _ _ _ _ _ _ H)). Qed.

Lemma heads_length : Z.of_nat (length (heads cs)) + Z.of_nat (length wc) <= 2 ^ w.
Proof using All. pose proof part_length. destruct (heads_sub s cs (ri_cs _ _ _ _ _ _ _ H)) as (? & _ & _). lia. Qed.

(** A submitted chain is apart from the rest. *)
Lemma chain_apart cs1 x cs2 i : cs = cs1 ++ x :: cs2 -> i ∈ x.2 -> i ∉ fl /\ i ∉ wc /\ i ∉ concat (cs1 ++ cs2).*2 /\ NoDup x.2.
Proof using All.
  intros E Hi. pose proof part_nodup as Hn.
  assert (fl ++ concat cs.*2 ++ wc ≡ₚ x.2 ++ fl ++ concat (cs1 ++ cs2).*2 ++ wc) as Hp.
  { rewrite E, !fmap_app, fmap_cons, !concat_app. cbn [concat]. solve_Permutation. }
  rewrite Hp in Hn. apply NoDup_app in Hn as (N1 & N2 & _). specialize (N2 i Hi). set_solver.
Qed.

Lemma not_cleaned_pending t : cleaned (worker s) = false -> t ∈ cs.*1 -> t ∈ pending_txn_list_ (dev s).
Proof using All.
  intros Hc Ht. pose proof (ri_pending _ _ _ _ _ _ _ H) as Hp. unfold pending_ok in Hp. rewrite Hc in Hp. destruct (irq s); [by rewrite Hp..| |by rewrite Hp].
  destruct Hp as (l1 & u & l2 & -> & E & _). rewrite E in Ht. set_solver.
Qed.

(** ** [QueueTxn] *)

Lemma idx_set_index t i : is_Some (txns (dev s) !! t) -> forall d, txns d = txns (dev s) ->
  idx_of (upd_txn t (set_index i) d) t = Some i /\ op_of (upd_txn t (set_index i) d) t = op_of (dev s) t.
Proof using All. intros [x Hx] d E. unfold idx_of, op_of. simpl. rewrite list_lookup_alter_eq, E, Hx. done. Qed.

Lemma slots_fresh t i ws : t ∉ pending_txn_list_ (dev s) -> slots_ok (dev s) ws -> slots_ok (upd_txn t (set_index i) (dev s)) ws.
Proof using All.
  intros Ht Hs. eapply slots_frame; [exact Hs|done|done|]. intros u Hu. apply upd_txn_ne. by intros ->.
Qed.

Lemma ri_queue_chain t j cf i :
  worker s = WChain t j cf i -> jobs s !! t = Some j -> job_ok (dev s) t j -> t ∉ cs.*1 -> t ∉ pending_txn_list_ (dev s) ->
  exists s' fl' wc', queue_chain t j cf i s = Done s' /\ RI w s' fl' cs wc' A U /\ same_rest s s' /\ irq s' = irq s /\ answers s' = answers s /\
    pending_txn_list_ (dev s') = pending_txn_list_ (dev s) /\
    (worker s' = WFree t j cf i /\ idx_of (dev s') t = Some i \/ exists h, worker s' = WSubmit t j h).
Proof using All.
  intros Ew Ej (op & Eop & Hrest & Hsc) Hcs Hpd. pose proof (ri_ring _ _ _ _ _ _ _ H) as Hring. pose proof (ri_slots _ _ _ _ _ _ _ H) as Hsl. rewrite Ew in Hsl. cbn [worker_slots] in Hsl.
  assert (is_Some (txns (dev s) !! t)) as [x Hx] by (unfold op_of in Eop; destruct (txns (dev s) !! t); [by eexists|done]).
  assert (t_op x = op) as Ex by (unfold op_of in Eop; rewrite Hx in Eop; by injection Eop).
  unfold queue_chain, get_txn. rewrite Hx. cbn [mbind exec_bind]. subst op. set (d1 := upd_txn t (set_index i) _).
  destruct (idx_set_index t i (mk_is_Some _ _ Hx) (set_reqs (<[i := (j_type j, sector_of j (t_op x))]> (blk_req_ (dev s))) (dev s)) eq_refl) as [Ei Eo].
  change (upd_txn t (set_index i) _) with d1 in Ei, Eo.
  assert (forall u, u <> t -> same_txn (dev s) d1 u) as Hsame by (intros u Hu; by destruct (upd_txn_ne (dev s) t (set_index i) u Hu)).
  assert (slots_ok d1 [i]) as Hsl1 by (eapply slots_frame; [exact Hsl|done|done|]; intros u Hu; apply Hsame; by intros ->).
  assert (forall u k, u ∈ cs.*1 -> idx_of (dev s) u = Some k -> blk_req_ d1 !! k = blk_req_ (dev s) !! k) as Hreq.
  { intros u k Hu Hk. simpl. apply lookup_insert_ne. intros ->. apply not_cleaned_pending in Hu; [|by rewrite Ew]. destruct (slots_in _ _ _ _ Hsl Hu Hk) as [_ Hn]. set_solver. }
  assert (forall st, same_rest s (set_worker st (set_dev d1 s))) as Hsr.
  { intros st. constructor; try done; simpl; [by rewrite length_alter|]. intros u. destruct (decide (u = t)) as [->|Hne]; [done|by destruct (Hsame u Hne)]. }
  assert (u16 (2 + Z.of_nat (length (j_pages j))) = 2 + Z.of_nat (length (j_pages j))) as -> by (apply u16_small; unfold MAX_SCATTER in Hsc; lia).
  pose proof (alloc_spec w fl (vring_ d1) (2 + Z.of_nat (length (j_pages j))) Hring ltac:(lia)) as Ha. destruct (Z.ltb_spec (Z.of_nat (length fl)) (2 + Z.of_nat (length (j_pages j)))) as [Hfew|Hen].
  { rewrite Ha. cbn [mbind exec_bind]. eexists _, fl, wc. split; [done|]. split; [|split; [apply Hsr|split_and!; try done; by left]].
    eapply (ri_frame w s); [exact H| |by rewrite Ew|done|done|by rewrite Ew|done].
    constructor; try done. intros u Hu. apply Hsame. set_solver. }
  destruct Ha as (h & l & r1 & -> & El & Hr1 & Hch1 & Hfr1 & Hs1). cbn [mbind exec_bind].
  set (n := Z.to_nat (2 + Z.of_nat (length (j_pages j)))) in *.
  assert (fl ≡ₚ drop n fl ++ h :: l) as Hpf by (rewrite El, reverse_Permutation, Permutation_app_comm, take_drop; done).
  assert (length l = S (length (j_pages j))) as Hll by (apply (f_equal length) in El; rewrite length_reverse, length_take in El; simpl in El; lia).
  pose proof part_nodup as Hnd. rewrite Hpf, <- app_assoc in Hnd. apply NoDup_app in Hnd as (N1 & N2 & N3). apply NoDup_app in N3 as (N3 & N4 & _).
  assert (forall y, y ∈ h :: l -> y ∉ drop n fl) as Hdis by (intros y Hy Hin; apply (N2 y Hin); set_solver).
  destruct (fill_chain_spec (blk_req_pa d1) i (j_type j) (offset_vmo (t_op x)) (j_pages j) w (drop n fl) r1 h l (j_bytes j) Hr1 Hch1 N3 Hdis Hll Hrest) as (r2 & -> & Hr2 & Hch2 & Hs2 & Hfr2 & Hde2).
  cbn [mbind exec_bind]. pose proof (transitivity Hs1 Hs2) as [Q1 Q2 Q3 Q4 Q5 Q6].
  set (d2 := set_vring r2 (upd_txn t (set_head h) d1)).
  assert (forall u, u <> t -> same_txn (dev s) d2 u) as Hsame2.
  { intros u Hu. destruct (Hsame u Hu) as [B1 B2 B3]. destruct (upd_txn_ne d1 t (set_head h) u Hu) as [C1 C2 C3]. constructor; [by rewrite <- B1|by rewrite <- B2|by rewrite <- B3]. }
  assert (idx_of d2 t = Some i /\ op_of d2 t = Some (t_op x) /\ head_of d2 t = Some h) as (Fi & Fo & Fh).
  { unfold idx_of, op_of, head_of, d2. simpl. rewrite !list_lookup_alter_eq, Hx. done. }
  assert (forall y, y ∈ concat cs.*2 -> desc r2 !! y = desc (vring_ (dev s)) !! y) as Hdesc.
  { intros y Hy. rewrite Hfr2, Hfr1; [done|..]; intros Hin; apply (N4 y Hin); set_solver. }
  assert (wc = []) as Ewc by (pose proof (ri_wc _ _ _ _ _ _ _ H) as Hwc; by rewrite Ew in Hwc). subst wc. rewrite app_nil_r in *.
  exists (set_worker (WSubmit t j h) (set_dev d2 s)), (drop n fl), (h :: l). split; [done|]. split; [|split; [|split_and!; try done; right; by exists h]].
  - pose proof H as [R1 R2 R3 R4 R5 R6 R7 R8 R9 R10 R11 R12 R13 R14 R15 R16 R17]. constructor; simpl; try done.
    + rewrite <- R2, app_nil_r. etransitivity; [|apply Permutation_app_tail; symmetry; exact Hpf]. solve_Permutation.
    + apply Forall_forall. intros y Hy. rewrite Forall_forall in R3. pose proof (elem_fst _ _ Hy) as Hy1. assert (y.1 <> t) as Hyt by (by intros E; apply Hcs; rewrite <- E).
      apply (submitted_frame s); [by apply R3| |by apply Hsame2|done|intros k Hk; by apply (Hreq y.1)|done|done].
      intros z Hz. by apply Hdesc, (elem_concat cs y).
    + split; [|done]. exists i, (t_op x). constructor; try done. by exists h, l. simpl. by rewrite lookup_insert_eq.
    + eapply pending_frame; [done|done|done|by rewrite Ew|intros u Hu; apply Hsame2; by intros ->|done|].
      intros u Hu Ha. eapply answered_frame; [done|apply Hsame2; by intros ->|done|done].
    + rewrite Fi. eapply slots_frame; [exact Hsl|done|done|]. intros u Hu. apply Hsame2. by intros ->.
    + by rewrite Q3.
    + by rewrite Q2.
    + unfold used_pos in *. simpl. rewrite Q5, Q6. done.
    + unfold used_pos in *. simpl. rewrite Q4, Q6. done.
    + unfold used_pos in *. simpl. rewrite Q6. done.
    + unfold used_pos, irq_cur in *. simpl. rewrite Q6. done.
    + intros y z Hy Hz HU. eapply answered_frame; [by eauto|apply Hsame2; intros E; apply Hcs; rewrite <- E; by apply elem_fst|done|done].
  - constructor; try done; simpl; [by rewrite !length_alter|]. intros u. destruct (decide (u = t)) as [->|Hne]; [by rewrite Fo|by destruct (Hsame2 u Hne)].
Qed.

(** ** Submitting *)

Lemma ri_submit t j i answer :
  worker s = WSubmit t j i -> t ∉ cs.*1 -> t ∉ pending_txn_list_ (dev s) ->
  exists s', worker_step answer s = Done s' /\ RI w s' fl (cs ++ [(t, wc)]) [] (A ++ [i]) U /\ same_rest s s' /\ irq s' = irq s /\ answers s' = answers s /\
    pending_txn_list_ (dev s') = pending_txn_list_ (dev s) ++ [t] /\ in_hand (worker s') = [] /\ worker_ok s'.
Proof using All.
  intros Ew Hcs Hpd. pose proof H as [R1 R2 R3 R4 R5 R6 R7 R8 R9 R10 R11 R12 R13 R14 R15 R16 R17]. rewrite Ew in R4. destruct R4 as [(k & op & F) Hi].
  assert (Z.of_nat (length A) < 2 ^ w) as HA. { pose proof heads_length as Hl. apply Permutation_length in R14. rewrite !length_app in R14. destruct wc; [done|]. simpl in Hl. lia. }
  pose proof part_nodup as Hnd. destruct (submit_spec w fl (vring_ (dev s)) i (h_avail s) A R1 R7 R8 HA) as (r & Er & Hr & Q1 & Q2 & Q3 & Q4 & Q5 & Q6).
  unfold worker_step. rewrite Ew, Er. cbn [mbind exec_bind].   set (s1 := set_owner _ _). destruct (after_queue_worker t j s1) as (N1 & N2 & N3 & N4 & N5).
  assert (forall u, same_txn (dev s) (dev s1) u) as Hsame by (intros; by apply same_txn_lookup).
  apply NoDup_app in Hnd as (_ & _ & Hnd). apply NoDup_app in Hnd as (_ & Hnd & _). assert (i ∈ wc) as Hiw by (destruct wc; [done|]; injection Hi as ->; set_solver).
  rewrite Ew in R6. cbn [worker_slots] in R6. rewrite (fi_idx _ _ _ _ _ _ F) in R6. cbn [option_list] in R6.
  eexists. split; [done|]. split; [|split; [by constructor|split_and!; try done; unfold worker_ok, after_queue; simpl; by destruct (j_flush j)]].
  constructor; try done.
  - rewrite <- R2, fmap_app, concat_app. cbn [fmap list_fmap concat]. by rewrite !app_nil_r.
  - apply Forall_app_2.
    + apply Forall_forall. intros y Hy. rewrite Forall_forall in R3. apply (submitted_frame s); try done; [by apply R3|simpl; by rewrite Q1|].
      intros z Hz. apply lookup_insert_ne. intros <-. apply (Hnd i); [|done]. apply (elem_concat cs y); [done|]. destruct y.2; [done|]. injection Hz as ->. set_solver.
    + constructor; [|done]. split.
      * exists j, k, op. eapply filled_frame; try done. simpl. by rewrite Q1.
      * cbn [snd fst]. rewrite Hi. intros z [= ->]. simpl. by rewrite lookup_insert_eq.
  - unfold after_queue. simpl. by destruct (j_flush j).
  - unfold pending_ok in *. rewrite N2. rewrite Ew in R5. cbn [cleaned] in R5. rewrite fmap_app. cbn [fmap list_fmap]. change (irq (after_queue t j s1)) with (irq s). simpl.
    destruct (irq s); [by rewrite R5..| |by rewrite R5]. destruct R5 as (l1 & u & l2 & E1 & E2 & P1 & P2 & P3). exists l1, u, (l2 ++ [t]). rewrite E1, E2, <- !app_assoc. split_and!; try done.
  - change (dev (after_queue t j s1)) with (dev s1). rewrite N4. apply (slots_push s t k); [done|apply F|done..].
  - simpl. by unfold used_pos in *; simpl; rewrite Q5, Q6.
  - simpl. by unfold used_pos in *; simpl; rewrite Q4, Q6.
  - by unfold used_pos in *; simpl; rewrite Q6.
  - by unfold used_pos in *; simpl; rewrite Q6.
  - simpl. rewrite heads_app, <- R14. unfold heads at 1. cbn [omap list_omap snd]. rewrite Hi. solve_Permutation.
  - intros y z [Hy|Hy]%elem_of_app Hz HU; [by eapply R15|]. apply list_elem_of_singleton in Hy as ->. cbn [snd] in Hz. rewrite Hi in Hz. injection Hz as ->.
    destruct (heads_sub s cs R3) as (_ & Hsub & _). exfalso. apply (Hnd z); [|done]. apply Hsub. rewrite <- R14. set_solver.
Qed.

(** ** The interrupt thread *)

Lemma u16_add x y : u16 (u16 x + y) = u16 (x + y).
Proof using Type. unfold u16. apply Zplus_mod_idemp_l. Qed.

Lemma ri_irq_end cur i : irq s = IRun cur i -> i = cur ->
  RI w (set_irq IIdle (set_dev (set_vring (set_last_used i (vring_ (dev s))) (dev s)) s)) fl cs wc A U.
Proof using All.
  intros Ei ->. pose proof H as [R1 R2 R3 R4 R5 R6 R7 R8 R9 R10 R11 R12 R13 R14 R15 R16 R17]. unfold used_pos, irq_cur, pending_ok in *. rewrite Ei in *.
  constructor; unfold used_pos, irq_cur, pending_ok; simpl; try done.
  - destruct R1. by constructor.
  - eapply Forall_impl; [done|]. intros y Hy. by apply (submitted_frame s).
  - destruct (worker s); try done. destruct R4 as [(k & op & F) Hh]. split; [|done]. exists k, op. by eapply filled_frame.
  - by eapply slots_frame.
Qed.

(** The first chain of the used ring, and the transaction it was submitted for. *)
Lemma used_first cur i : irq s = IRun cur i -> i <> cur ->
  exists id U' cs1 x cs2 l, U = id :: U' /\ cs = cs1 ++ x :: cs2 /\ x.2 = id :: l /\ used_elem i cur (vring_ (dev s)) = Done (Some id) /\ u16 id = id /\
    (forall u, u ∈ cs1.*1 -> head_of (dev s) u <> Some id).
Proof using All.
  intros Ei Hne. pose proof H as [R1 R2 R3 R4 R5 R6 R7 R8 R9 R10 R11 R12 R13 R14 R15 R16 R17]. unfold used_pos, irq_cur in *. rewrite Ei in *.
  destruct (R13 cur eq_refl) as (m & Hm & Ecur).
  assert (exists id U', U = id :: U') as (id & U' & EU). { destruct U as [|id U']; [|by exists id, U']. simpl in Hm. replace m with 0 in Ecur by lia. rewrite Z.add_0_r in Ecur. congruence. }
  rewrite EU in R10, R14. destruct (entries_pop _ _ _ _ _ R10) as [Hid _]. assert (id ∈ heads cs) as Hin by (rewrite <- R14; set_solver). destruct (heads_in _ _ _ R3 Hin) as (cs1 & x & cs2 & Ecs & Hx).
  assert (0 <= id < 2 ^ w) as Hr. { apply part_range. destruct (heads_sub s cs R3) as (_ & Hsub & _). apply Hsub in Hin. set_solver. }
  pose proof (ring_range _ _ _ R1) as [Hw _]. destruct (x.2) as [|y l] eqn:Ex; [done|]. injection Hx as ->. exists id, U', cs1, x, cs2, l. split_and!; try done.
  - unfold used_elem. destruct (Z.eqb_spec i cur); [done|]. rewrite (ro_mask _ _ _ R1), slot_mask by apply R1. by rewrite Hid.
  - apply u16_small. lia.
  - intros u (y & -> & Hy)%list_elem_of_fmap Eu. rewrite Ecs in R3. rewrite Forall_forall in R3. destruct (submitted_head s y) as (z & l' & E1 & E2); [apply R3; set_solver|]. rewrite Eu in E2. injection E2 as <-.
    pose proof heads_nodup as Hn. rewrite Ecs, heads_app in Hn. apply NoDup_app in Hn as (_ & Hn & _). apply (Hn id).
    + apply list_elem_of_omap. exists y. by rewrite E1.
    + unfold heads. cbn [omap list_omap]. rewrite Ex. set_solver.
Qed.

Lemma ri_irq_free cur i : irq s = IRun cur i -> i <> cur ->
  exists s' fl' cs' U' head, irq_step s = Done s' /\ RI w s' fl' cs' wc A U' /\ same_rest s s' /\ worker s' = worker s /\ irq s' = IFreed cur i head /\ answers s' = answers s /\
    pending_txn_list_ (dev s') = pending_txn_list_ (dev s) /\ (forall t, same_txn (dev s) (dev s') t).
Proof using All.
  intros Ei Hne. destruct (used_first cur i Ei Hne) as (id & U' & cs1 & x & cs2 & l & EU & Ecs & Ex & Eu & Eid & Hl1).
  pose proof H as [R1 R2 R3 R4 R5 R6 R7 R8 R9 R10 R11 R12 R13 R14 R15 R16 R17].
  assert (submitted s x) as Hx by (rewrite Forall_forall in R3; apply R3; rewrite Ecs; set_solver). pose proof Hx as [(j & k & op & F) _]. pose proof (fi_chain _ _ _ _ _ _ F) as Hch. rewrite Ex in Hch.
  assert (forall y, y ∈ id :: l -> y ∉ fl /\ y ∉ wc /\ y ∉ concat (cs1 ++ cs2).*2 /\ NoDup x.2) as Hap by (intros y Hy; apply (chain_apart cs1 x cs2); [done|by rewrite Ex]).
  destruct (Hap id ltac:(set_solver)) as (_ & _ & _ & Hnd). rewrite Ex in Hnd.
  assert (length (id :: l) <= Z.to_nat (num (vring_ (dev s))))%nat as Hlen.
  { pose proof part_length as Hpl. rewrite Ecs, fmap_app, concat_app in Hpl. cbn [fmap list_fmap concat] in Hpl. rewrite Ex, !length_app in Hpl. rewrite (ro_num _ _ _ R1). lia. }
  destruct (free_chain_spec (Z.to_nat (num (vring_ (dev s)))) w fl (vring_ (dev s)) id l R1 Hch Hnd) as (r & Er & Hr & Hfr & [Q1 Q2 Q3 Q4 Q5 Q6]); [by intros y (? & _)%Hap|done|].
  unfold irq_step. rewrite Ei, Eu. cbn [mbind exec_bind]. rewrite Eid, Er. cbn [mbind exec_bind].
  exists (set_irq (IFreed cur i id) (set_dev (set_vring r (dev s)) s)), (reverse (id :: l) ++ fl), (cs1 ++ cs2), U', id. split; [done|]. split; [|split; [by constructor|split_and!; done]].
  unfold used_pos, irq_cur in *. rewrite Ei in *. assert (0 <= w < 16) as Hw by apply R1. rewrite EU in R10. destruct (entries_pop _ _ _ _ _ R10) as [_ Hpop].
  assert (A ++ h_busy s ++ U' ≡ₚ heads (cs1 ++ cs2)) as Hheads.
  { apply (Permutation_cons_inv (a := id)). rewrite heads_app, (Permutation_middle (heads cs1)). replace (id :: heads cs2) with (heads (x :: cs2)) by (unfold heads; simpl; by rewrite Ex).
    rewrite <- heads_app, <- Ecs, <- R14, EU. solve_Permutation. }
  constructor; unfold used_pos, irq_cur; simpl; try done.
  - rewrite <- R2, Ecs, !fmap_app, !concat_app, reverse_Permutation. cbn [fmap list_fmap concat]. rewrite Ex. solve_Permutation.
  - apply Forall_forall. intros y Hy. rewrite Ecs, Forall_forall in R3. apply (submitted_frame s); try done; [apply R3; set_solver|]. intros z Hz. apply Hfr. intros Hin%Hap. destruct Hin as (_ & _ & Hn & _).
    apply Hn. by apply (elem_concat _ y).
  - destruct (worker s); try done. destruct R4 as [(k' & op' & F') Hh]. split; [|done]. exists k', op'. eapply filled_frame; try done. intros z Hz. apply Hfr. intros Hin%Hap. by destruct Hin as (_ & ? & _).
  - unfold pending_ok in *. simpl. rewrite Ei in R5. destruct (cleaned (worker s)); [done|]. exists cs1.*1, x.1, cs2.*1. rewrite R5, Ecs, !fmap_app. split_and!; try done.
    + destruct (submitted_head s x Hx) as (z & l' & E1 & E2). rewrite Ex in E1. injection E1 as <- _. done.
    + apply (R15 x id); [rewrite Ecs; set_solver|by rewrite Ex|rewrite EU; set_solver].
  - by eapply slots_frame.
  - by rewrite Q3.
  - by rewrite Q2.
  - rewrite Q5. by apply entries_u16.
  - rewrite Q4, R11, EU, u16_add. simpl length. f_equal. lia.
  - unfold u16. apply Z.mod_mod. lia.
  - intros c [= <-]. destruct (R13 cur eq_refl) as (m & Hm & Ecur). rewrite EU in Hm. simpl in Hm. exists (m - 1). assert (m <> 0). { intros ->. rewrite Z.add_0_r in Ecur. congruence. }
    split; [lia|]. rewrite Ecur, u16_add. f_equal. lia.
  - intros y z Hy Hz HU. apply (R15 y z); [rewrite Ecs; set_solver|done|rewrite EU; set_solver].
Qed.

(** A step that leaves the ring and the worker alone. *)
Lemma ri_move s' :
  vring_ (dev s') = vring_ (dev s) -> blk_req_ (dev s') = blk_req_ (dev s) -> blk_res_ (dev s') = blk_res_ (dev s) -> blk_req_pa (dev s') = blk_req_pa (dev s) ->
  (forall t, is_Some (txns (dev s) !! t) -> same_txn (dev s) (dev s') t) -> worker s' = worker s -> jobs s' = jobs s -> h_live s' = h_live s -> h_avail s' = h_avail s -> h_busy s' = h_busy s ->
  owner s' = owner s -> answers s' = answers s -> used_pos s' = used_pos s -> pending_ok s' cs -> slots_ok (dev s') (worker_slots (worker s) (dev s)) ->
  (forall cur, irq_cur s' = Some cur -> exists m, 0 <= m <= Z.of_nat (length U) /\ cur = u16 (used_pos s + m)) -> RI w s' fl cs wc A U.
Proof using All.
  intros E1 E2 E3 E4 Hs E5 E6 E7 E8 E9 E10 E11 E12 Hp Hsl Hcur. pose proof H as [R1 R2 R3 R4 R5 R6 R7 R8 R9 R10 R11 R12 R13 R14 R15 R16 R17].
  constructor; rewrite ?E1, ?E3, ?E5, ?E7, ?E8, ?E9, ?E12; try done.
  - eapply Forall_impl; [done|]. intros y Hy. apply (submitted_frame s); rewrite ?E1, ?E2, ?E4, ?E6, ?E10; try done. destruct Hy as [(j & k & op & F) _]. by eapply Hs, filled_some.
  - destruct (worker s); try done. destruct R4 as [(k & op & F) Hh]. split; [|done]. exists k, op. apply (filled_frame s); rewrite ?E1, ?E2, ?E4, ?E6; try done. by eapply Hs, filled_some.
  - replace (worker_slots (worker s) (dev s')) with (worker_slots (worker s) (dev s)); [done|]. destruct (worker s); try done. destruct R4 as [(k & op & F) _]. simpl.
    by rewrite (st_idx _ _ _ (Hs t (filled_some _ _ _ _ _ _ F))).
  - intros x i Hx Hi HU. pose proof (R15 x i Hx Hi HU) as Ha. eapply answered_frame; [done|apply Hs|by rewrite E11|by rewrite E3]. destruct Ha as (k & st & Hk & _). by eapply idx_some.
Qed.

Lemma find_pending_first h l1 t l2 d x : (forall u, u ∈ l1 -> head_of d u <> Some h) -> head_of d t = Some h -> txns d !! t = Some x -> find_pending h (l1 ++ t :: l2) d = Some (t, x).
Proof using Type.
  intros Hl Ht Hx. induction l1 as [|u l1 IH]; cbn [app find_pending].
  - rewrite Hx. rewrite bool_decide_true; [done|]. unfold head_of in Ht. by rewrite Hx in Ht.
  - assert (head_of d u <> Some h) as Hu by (apply Hl; by left). unfold head_of in Hu. rewrite IH by (intros; apply Hl; by right).
    destruct (txns d !! u) as [y|]; [|done]. rewrite bool_decide_false; done.
Qed.

Lemma remove_txn_mid t l1 l2 : NoDup (l1 ++ t :: l2) -> remove_txn t (l1 ++ t :: l2) = l1 ++ l2.
Proof using Type.
  intros Hnd. unfold remove_txn. rewrite filter_app, filter_cons_False by tauto. apply NoDup_app in Hnd as (_ & N1 & N2). apply NoDup_cons in N2 as [N2 _].
  rewrite !list_filter_all; [done|apply Forall_forall; intros u Hu ->; done|apply Forall_forall; intros u Hu ->]. apply (N1 t Hu). by left.
Qed.

Lemma ri_irq_find cur i h : irq s = IFreed cur i h -> NoDup (pending_txn_list_ (dev s)) ->
  exists s', irq_step s = Done s' /\ RI w s' fl cs wc A U /\ same_rest s s' /\ worker s' = worker s /\ answers s' = answers s /\ (forall t, same_txn (dev s) (dev s') t) /\
    (irq s' = IRun cur (u16 (i + 1)) /\ pending_txn_list_ (dev s') = pending_txn_list_ (dev s) \/
     exists t st l1 l2, irq s' = IComplete cur i t st /\ pending_txn_list_ (dev s) = l1 ++ t :: l2 /\ pending_txn_list_ (dev s') = l1 ++ l2 /\ from_device s (t, st)).
Proof using All.
  intros Ei Hnd. pose proof (ri_pending _ _ _ _ _ _ _ H) as Hp. pose proof (ri_cur _ _ _ _ _ _ _ H) as Hcur. unfold irq_step. rewrite Ei. unfold pending_ok in Hp. destruct (cleaned (worker s)) eqn:Ec.
  { rewrite Hp. cbn [find_pending]. eexists. split; [done|]. split; [|split; [by constructor|split_and!; try done; by left]].
    apply ri_move; try done; [unfold used_pos; simpl; by rewrite Ei|unfold pending_ok; simpl; by rewrite Ec|apply H|]. intros c Hc. apply Hcur. unfold irq_cur in *. by rewrite Ei. }
  rewrite Ei in Hp. destruct Hp as (l1 & t & l2 & E1 & E2 & Hh & Hl1 & (k & st & Hk & Hst & Hres)). assert (is_Some (txns (dev s) !! t)) as [x Hx] by (unfold head_of in Hh; destruct (txns (dev s) !! t); [by eexists|done]).
  rewrite E1, (find_pending_first _ _ _ _ _ x Hl1 Hh Hx). assert (t_index x = Some k) as -> by (unfold idx_of in Hk; by rewrite Hx in Hk). rewrite Hres. cbn [set_lists set_bitmap pending_txn_list_].
  rewrite remove_txn_mid by (by rewrite <- E1). eexists. split; [done|]. split; [|split; [by constructor|split_and!; try done]].
  - apply ri_move; try done.
    + unfold used_pos. simpl. by rewrite Ei.
    + unfold pending_ok. simpl. by rewrite Ec.
    + pose proof (slots_take _ _ l1 t l2 k (ri_slots _ _ _ _ _ _ _ H) E1 Hk) as Hsl. by eapply slots_frame.
    + intros c Hc. apply Hcur. unfold irq_cur in *. by rewrite Ei.
  - right. exists t, (status_of st), l1, l2. split_and!; try done. by exists st.
Qed.

Lemma ri_irq_complete cur i t st : irq s = IComplete cur i t st -> RI w (set_irq (IRun cur (u16 (i + 1))) (set_dev (txn_complete t st (dev s)) s)) fl cs wc A U.
Proof using All.
  intros Ei. pose proof (ri_pending _ _ _ _ _ _ _ H) as Hp. pose proof (ri_cur _ _ _ _ _ _ _ H) as Hcur. apply ri_move; try done.
  - intros u _. apply complete_same.
  - unfold used_pos. simpl. by rewrite Ei.
  - unfold pending_ok in *. simpl. by rewrite Ei in Hp.
  - eapply slots_frame; [apply H|done|done|]. intros u _. apply (complete_same (dev s) t st u).
  - intros c Hc. apply Hcur. unfold irq_cur in *. by rewrite Ei.
Qed.

Lemma ri_irq_start : irq s = IIdle -> RI w (set_irq (IRun (used_idx (vring_ (dev s))) (last_used (vring_ (dev s)))) s) fl cs wc A U.
Proof using All.
  intros Ei. pose proof (ri_pending _ _ _ _ _ _ _ H) as Hp. pose proof (ri_used_idx _ _ _ _ _ _ _ H) as Hu. apply ri_move; try done.
  - unfold used_pos. simpl. by rewrite Ei.
  - unfold pending_ok in *. simpl. by rewrite Ei in Hp.
  - apply H.
  - unfold irq_cur. simpl. intros c [= <-]. exists (Z.of_nat (length U)). split; [lia|]. done.
Qed.

(** ** The device *)

Lemma ri_fetch : h_avail s <> avail_idx (vring_ (dev s)) ->
  exists i A', A = i :: A' /\ host_fetch s = Done (set_backend (h_live s) (u16 (h_avail s + 1)) (h_busy s ++ [i]) s) /\ RI w (set_backend (h_live s) (u16 (h_avail s + 1)) (h_busy s ++ [i]) s) fl cs wc A' U.
Proof using All.
  intros Hne. pose proof H as [R1 R2 R3 R4 R5 R6 R7 R8 R9 R10 R11 R12 R13 R14 R15 R16 R17].
  assert (exists i A', A = i :: A') as (i & A' & EA). { destruct A as [|i A']; [|by exists i, A']. simpl in R8. rewrite Z.add_0_r in R8. congruence. }
  exists i, A'. split; [done|]. rewrite EA in R7. destruct (entries_pop _ _ _ _ _ R7) as [Hi Hpop]. split.
  - unfold host_fetch. rewrite (ro_mask _ _ _ R1), slot_mask by apply R1. by rewrite Hi.
  - constructor; simpl; try done.
    + eapply Forall_impl; [done|]. intros y Hy. by apply (submitted_frame s).
    + destruct (worker s); try done. destruct R4 as [(k & op & F) Hh]. split; [|done]. exists k, op. by apply (filled_frame s).
    + apply entries_u16; [apply R1|done].
    + rewrite R8, u16_add, EA. simpl length. f_equal. lia.
    + unfold u16. apply Z.mod_mod. lia.
    + rewrite <- R14, EA. solve_Permutation.
Qed.

Lemma last_seg dl a n b es e : seg_of <$> dl = e :: es ++ [(a, n, b)] -> exists z, last dl = Some z /\ addr z = a.
Proof using Type.
  intros E. assert (last (seg_of <$> dl) = Some (a, n, b)) as Hl by (rewrite E, app_comm_cons, last_snoc; done). rewrite fmap_last in Hl.
  destruct (last dl) as [z|]; [|done]. exists z. split; [done|]. injection Hl as ? ? ?. done.
Qed.

(** The chain the device uses, and the slot its answer goes to. *)
Lemma used_chain k i : h_busy s !! k = Some i -> cleaned (worker s) = false ->
  exists x z kk, x ∈ cs /\ head x.2 = Some i /\ idx_of (dev s) x.1 = Some kk /\ x.1 ∈ pending_txn_list_ (dev s) /\ owner s !! i = Some x.1 /\
    walk (Z.to_nat (num (vring_ (dev s)))) i (desc (vring_ (dev s))) ≫= last = Some z /\ addr z - blk_res_pa (blk_req_pa (dev s)) = kk.
Proof using All.
  intros Hk Hc. pose proof H as [R1 R2 R3 R4 R5 R6 R7 R8 R9 R10 R11 R12 R13 R14 R15 R16 R17]. assert (i ∈ heads cs) as Hi by (rewrite <- R14; apply list_elem_of_lookup_2 in Hk; set_solver).
  destruct (heads_in _ _ _ R3 Hi) as (cs1 & x & cs2 & Ecs & Hx). assert (x ∈ cs) as Hin by (rewrite Ecs; set_solver). rewrite Forall_forall in R3. destruct (R3 x Hin) as [(j & kk & op & F) Ho].
  destruct (x.2) as [|y l] eqn:Ex; [done|]. injection Hx as ->. pose proof (fi_chain _ _ _ _ _ _ F) as Hch. pose proof (fi_layout _ _ _ _ _ _ F) as Hlay.
  assert (length (i :: l) <= Z.to_nat (num (vring_ (dev s))))%nat as Hlen.
  { pose proof part_length as Hpl. rewrite Ecs, fmap_app, concat_app in Hpl. cbn [fmap list_fmap concat] in Hpl. rewrite Ex, !length_app in Hpl. rewrite (ro_num _ _ _ R1). lia. }
  destruct (walk_chain _ _ _ _ _ Hch Hlay Hlen) as (dl & Hw & Hdl). destruct (last_seg _ _ _ _ _ _ Hdl) as (z & Hz & Ha).
  exists x, z, kk. split_and!; try done.
  - by rewrite Ex.
  - apply F.
  - apply not_cleaned_pending; [done|by apply elem_fst].
  - by apply Ho.
  - by rewrite Hw.
  - rewrite Ha. lia.
Qed.

Lemma ri_use k status : h_live s = true -> (k < length (h_busy s))%nat -> NoDup (pending_txn_list_ (dev s)) ->
  exists s' U', host_use k status s = Done s' /\ RI w s' fl cs wc A U' /\ same_rest s s' /\ worker s' = worker s /\ irq s' = irq s /\ (forall x, x ∈ answers s -> x ∈ answers s') /\
    pending_txn_list_ (dev s') = pending_txn_list_ (dev s) /\ (forall t, same_txn (dev s) (dev s') t).
Proof using All.
  intros Hlive Hk Hnd. pose proof H as [R1 R2 R3 R4 R5 R6 R7 R8 R9 R10 R11 R12 R13 R14 R15 R16 R17].
  assert (cleaned (worker s) = false) as Hc by (pose proof (R17 Hlive); by destruct (worker s)). apply lookup_lt_is_Some_2 in Hk as [i Hi].
  destruct (used_chain k i Hi Hc) as (x & z & kk & Hx & Hhx & Hkk & Hpx & Hox & Hw & Ha). destruct (slots_in _ _ _ _ R6 Hpx Hkk) as [Hrange _].
  unfold host_use. rewrite Hi, Hw, Ha. destruct (R16 kk Hrange) as [old Hold]. rewrite Hold. pose proof (ring_range _ _ _ R1) as [Hww _].
  assert (0 <= w < 16) as Hwr by apply R1. rewrite (ro_mask _ _ _ R1), slot_mask by lia.
  assert (used_idx (vring_ (dev s)) mod 2 ^ w = (used_pos s + Z.of_nat (length U)) mod 2 ^ w) as Es by (rewrite R11, <- (Z.add_0_r (u16 _)), slot_u16, Z.add_0_r by done; done).
  rewrite Es. destruct (proj2 (ro_used _ _ _ R1 ((used_pos s + Z.of_nat (length U)) mod 2 ^ w))) as [old' Hold']; [apply Z.mod_pos_bound; lia|]. rewrite Hold', Hox.
  eexists _, (U ++ [i]). split; [done|]. set (s' := set_answers _ _).
  assert (forall u, u ∈ pending_txn_list_ (dev s) -> answered s u -> answered s' u) as Hans.
  { intros u Hu (ku & su & Hku & Hsu & Hru). destruct (decide (ku = kk)) as [->|Hne].
    - assert (u = x.1) as -> by (by eapply slots_distinct). exists kk, status. split_and!; [done|simpl; set_solver|simpl; by rewrite lookup_insert_eq].
    - exists ku, su. split_and!; [done|simpl; set_solver|simpl; by rewrite lookup_insert_ne]. }
  assert (Z.of_nat (length U) < 2 ^ w) as HU.
  { pose proof heads_length as Hl. apply Permutation_length in R14. rewrite !length_app in R14. apply lookup_lt_Some in Hi. lia. }
  split; [|split; [by constructor|split_and!; try done; simpl; set_solver]]. constructor; simpl; try done.
  - destruct R1. constructor; simpl; try done. intros y. rewrite lookup_insert_is_Some, ro_used. destruct (decide ((used_pos s + Z.of_nat (length U)) mod 2 ^ w = y)) as [<-|]; [|tauto].
    pose proof (Z.mod_pos_bound (used_pos s + Z.of_nat (length U)) (2 ^ w)). tauto.
  - eapply Forall_impl; [done|]. intros y Hy. by apply (submitted_frame s).
  - destruct (worker s); try done. destruct R4 as [(k' & op & F) Hh]. split; [|done]. exists k', op. by apply (filled_frame s).
  - eapply pending_frame; try done. intros y Hy. simpl. set_solver.
  - by eapply slots_frame.
  - by apply entries_push.
  - rewrite R11, u16_add, length_app. simpl. f_equal. unfold used_pos. simpl. lia.
  - intros c Hcur. destruct (R13 c Hcur) as (m & Hm & E). exists m. rewrite length_app. split; [lia|done].
  - rewrite (delete_Permutation _ _ _ Hi) in R14. rewrite <- R14. solve_Permutation.
  - intros y y' Hy Hy' [HyU|Hyi]%elem_of_app.
    + apply Hans; [apply not_cleaned_pending; [done|by apply elem_fst]|by eapply R15].
    + apply list_elem_of_singleton in Hyi as ->. rewrite Forall_forall in R3. destruct (R3 y Hy) as [_ Ho]. rewrite (Ho i Hy') in Hox. injection Hox as ->.
      exists kk, status. split_and!; [done|simpl; set_solver|simpl; by rewrite lookup_insert_eq].
  - intros y Hy. rewrite lookup_insert_is_Some. destruct (decide (kk = y)); [by left|right; split; [done|by apply R16]].
Qed.
End ri.
End steps.
