(* ===== verification/VirtioBlockInv.v ===== *)
(** * VirtioBlockInv: every run of the virtio block device

    The invariant holds in every state that can be reached, and no step aborts the driver. *)
From Stdlib Require Import ZArith Lia.
From stdpp Require Import prelude gmap.
From S2P Require Import Prelude BlockServer VirtioRing VirtioBlock VirtioChain VirtioBlockRun VirtioBlockSteps.

Local Open Scope Z_scope.

Section inv.
Context {abi : VirtioAbi} {abi_ok : VirtioAbiOk} {blk : VirtioBlkAbi} {blk_ok : VirtioBlkAbiOk} {block_abi : BlockAbi}.
Implicit Types (s : Sys) (d : BlockDevice) (t : nat).

(** [VInv] after a step that changes neither the ring nor the slots, for a worker that submits nothing. *)
Lemma job_ok_frame d d' t j : op_of d' t = op_of d t -> job_ok d t j -> job_ok d' t j.
Proof using All. intros E (op & Ho & Hr). exists op. by rewrite E. Qed.

Lemma worker_ok_frame s s' :
  worker_ok s -> worker s' = worker s -> jobs s' = jobs s -> (forall t, is_Some (txns (dev s) !! t) -> same_txn (dev s) (dev s') t) ->
  (pending_txn_list_ (dev s) = [] -> pending_txn_list_ (dev s') = []) -> worker_ok s'.
Proof using All.
  intros Hw Ew Ej Hs Hp. unfold worker_ok in *. rewrite Ew, Ej. cbn zeta in *.
  assert (forall t j, job_ok (dev s) t j -> job_ok (dev s') t j) as Hjob.
  { intros t j Hj. eapply job_ok_frame; [|done]. destruct Hj as (op & Ho & _). apply Hs. unfold op_of in Ho. destruct (txns (dev s) !! t); [by eexists|done]. }
  assert (forall t k, idx_of (dev s) t = Some k -> idx_of (dev s') t = Some k) as Hidx.
  { intros t k Hk. by rewrite (st_idx _ _ _ (Hs t (idx_some _ _ _ Hk))). }
  destruct (worker s) as [| | |t j []|t j []|t j cf|t j cf i|t j cf i|t j cf|t j|t j i| | | |]; try done; naive_solver.
Qed.

(** What [Virtio_BlockImplQueue] does: a transfer of no blocks is completed twice; another transaction is completed with
    an error, or left to the worker. *)
Record queued op d (d' : BlockDevice) : Prop := {
  qu_vring : vring_ d' = vring_ d;
  qu_bitmap : blk_req_bitmap_ d' = blk_req_bitmap_ d;
  qu_req : blk_req_ d' = blk_req_ d;
  qu_res : blk_res_ d' = blk_res_ d;
  qu_pa : blk_req_pa d' = blk_req_pa d;
  qu_pending : pending_txn_list_ d' = pending_txn_list_ d;
  qu_shutdown : worker_shutdown_ d' = worker_shutdown_ d;
  qu_txns t : is_Some (txns d !! t) -> same_txn d d' t;
  qu_length : length (txns d') = S (length (txns d));
  qu_place : if has_blocks op then
      (exists st, st ∈ local_errors /\ completed d' = completed d ++ [(length (txns d), st)] /\ worker_txn_list_ d' = worker_txn_list_ d) \/
      completed d' = completed d /\ worker_txn_list_ d' = worker_txn_list_ d ++ [length (txns d)]
    else exists st, (st ∈ local_errors \/ st = ZX_OK) /\ completed d' = completed d ++ [(length (txns d), ZX_ERR_INVALID_ARGS); (length (txns d), st)] /\
      worker_txn_list_ d' = worker_txn_list_ d
}.

Lemma old_txn_same d x t : is_Some (txns d !! t) -> same_txn d (set_txns (txns d ++ [x]) d) t.
Proof using All. intros [y Hy]. apply same_txn_lookup. simpl. by rewrite lookup_app_l by (by eapply lookup_lt_Some). Qed.

Lemma queued_complete op d x st : has_blocks op = true -> st ∈ local_errors -> queued op d (txn_complete (length (txns d)) st (set_txns (txns d ++ [x]) d)).
Proof using All.
  intros Hb Hst. constructor; simpl; try done.
  - intros t Ht. destruct (old_txn_same d x t Ht) as [A1 A2 A3], (complete_same (set_txns (txns d ++ [x]) d) (length (txns d)) st t) as [B1 B2 B3]. constructor; congruence.
  - rewrite length_alter, length_app. simpl. lia.
  - rewrite Hb. left. by exists st.
Qed.

Lemma queued_twice op d x st :
  has_blocks op = false -> st ∈ local_errors \/ st = ZX_OK ->
  queued op d (txn_complete (length (txns d)) st (txn_complete (length (txns d)) ZX_ERR_INVALID_ARGS (set_txns (txns d ++ [x]) d))).
Proof using All.
  intros Hb Hst. set (d1 := set_txns (txns d ++ [x]) d). set (d2 := txn_complete (length (txns d)) ZX_ERR_INVALID_ARGS d1). constructor; try done.
  - intros t Ht. destruct (old_txn_same d x t Ht) as [A1 A2 A3], (complete_same d1 (length (txns d)) ZX_ERR_INVALID_ARGS t) as [B1 B2 B3], (complete_same d2 (length (txns d)) st t) as [C1 C2 C3].
    constructor; [rewrite C1; exact (eq_trans B1 A1)|rewrite C2; exact (eq_trans B2 A2)|rewrite C3; exact (eq_trans B3 A3)].
  - simpl. rewrite !length_alter, length_app. simpl. lia.
  - rewrite Hb. exists st. split; [done|]. split; [|done]. simpl. by rewrite <- app_assoc.
Qed.

Lemma queue_spec op d : queued op d (Virtio_BlockImplQueue op d).
Proof using All.
  unfold Virtio_BlockImplQueue, SignalWorker. cbn zeta in *. set (d1 := set_txns _ d).
  assert (has_blocks op = true -> queued op d (if worker_shutdown_ d1 then txn_complete (length (txns d)) ZX_ERR_IO_NOT_PRESENT d1
    else set_signals true (txn_signal_ d1) (set_lists (worker_txn_list_ d1 ++ [length (txns d)]) (pending_txn_list_ d1) d1))) as Henq.
  { intros Hb. simpl. destruct (worker_shutdown_ d) eqn:E; [apply queued_complete; [done|set_solver]|]. constructor; simpl; try done; [|rewrite length_app; simpl; lia|rewrite Hb; by right].
    intros t Ht. by destruct (old_txn_same d (mkTxn op None None false) t Ht). }
  pose proof (eq_refl (has_blocks op)) as Hv. unfold has_blocks at 2 in Hv. cbn zeta in Hv.
  destruct ((Z.land (command op) BLOCK_OP_MASK =? BLOCK_OP_READ) || (Z.land (command op) BLOCK_OP_MASK =? BLOCK_OP_WRITE)); cbn [andb negb] in Hv.
  - destruct (length_blocks op =? 0); cbn [negb] in Hv.
    + destruct (_ || _); apply queued_twice; auto. left. set_solver.
    + destruct (_ || _); [apply queued_complete; [done|set_solver]|by apply Henq].
  - destruct (_ =? BLOCK_OP_FLUSH); [by apply Henq|apply queued_complete; [done|set_solver]].
Qed.

(** A transfer of no blocks: invalid, and then out of range or a success. *)
Lemma empty_completed op d : has_blocks op = false -> let t := length (txns d) in
  completed (Virtio_BlockImplQueue op d) = completed d ++
    [(t, ZX_ERR_INVALID_ARGS); (t, if capacity d <=? offset_dev op then ZX_ERR_OUT_OF_RANGE else ZX_OK)].
Proof using All.
  unfold has_blocks, Virtio_BlockImplQueue, SignalWorker. cbn zeta. destruct (_ || _); cbn [andb negb]; [|done]. intros E%negb_false_iff. rewrite E. apply Z.eqb_eq in E. rewrite E.
  simpl. destruct (Z.leb_spec (capacity d) (offset_dev op)) as [|Hlt]; cbn [orb]; [simpl; by rewrite <- app_assoc|].
  destruct (Z.ltb_spec (capacity d - offset_dev op) 0); [lia|]. simpl. by rewrite <- app_assoc.
Qed.

(** The transactions [es] have been completed; the slots are now those of [b]. *)
Record finished d (d' : BlockDevice) (es : list (nat * zx_status)) (b : Z) : Prop := {
  fd_vring : vring_ d' = vring_ d;
  fd_bitmap : blk_req_bitmap_ d' = b;
  fd_req : blk_req_ d' = blk_req_ d;
  fd_res : blk_res_ d' = blk_res_ d;
  fd_pa : blk_req_pa d' = blk_req_pa d;
  fd_pending : pending_txn_list_ d' = pending_txn_list_ d;
  fd_list : worker_txn_list_ d' = worker_txn_list_ d;
  fd_shutdown : worker_shutdown_ d' = worker_shutdown_ d;
  fd_length : length (txns d') = length (txns d);
  fd_txns t : same_txn d d' t;
  fd_completed : completed d' = completed d ++ es
}.

Lemma finished_cons d d' b t st es b' : finished (txn_complete t st (set_bitmap b d)) d' es b' -> finished d d' ((t, st) :: es) b'.
Proof using All.
  intros [F1 F2 F3 F4 F5 F6 F7 F8 F9 F10 F11]. constructor; try done.
  - rewrite F9. simpl. by rewrite length_alter.
  - intros u. destruct (F10 u) as [A1 A2 A3], (complete_same (set_bitmap b d) t st u) as [B1 B2 B3]. constructor; etransitivity; eassumption.
  - rewrite F11. simpl. by rewrite <- app_assoc.
Qed.

Lemma complete_all st l d : finished d (foldl (fun d t => txn_complete t st d) d l) ((fun t => (t, st)) <$> l) (blk_req_bitmap_ d).
Proof using All.
  revert d. induction l as [|t l IH]; intros d; cbn [foldl]; [by constructor; rewrite ?app_nil_r|]. eapply (finished_cons _ _ (blk_req_bitmap_ d)).
  replace (set_bitmap (blk_req_bitmap_ d) d) with d by (by destruct d). apply (IH (txn_complete t st d)).
Qed.

Lemma clean_pending_spec l ks d :
  Forall2 (fun t k => idx_of d t = Some k) l ks -> Forall (fun k => 0 <= k < blk_req_count) ks -> is_u32 (blk_req_bitmap_ d) ->
  exists d' b, clean_pending l d = Done d' /\ finished d d' ((fun t => (t, ZX_ERR_IO_NOT_PRESENT)) <$> l) b /\ is_u32 b /\
    forall k, 0 <= k -> Z.testbit b k = true <-> Z.testbit (blk_req_bitmap_ d) k = true /\ k ∉ ks.
Proof using All.
  intros F. revert d F. induction l as [|t l IH] in ks |- *; intros d F Hr Hu.
  { apply Forall2_nil_inv_l in F as ->. exists d, (blk_req_bitmap_ d). split; [done|]. split; [by constructor; rewrite ?app_nil_r|]. split; [done|]. set_solver. }
  apply Forall2_cons_inv_l in F as (k & ks' & Hk & F & ->). apply Forall_cons in Hr as [Hk0 Hr]. cbn [clean_pending]. unfold free_txn_req, get_txn. unfold idx_of in Hk.
  destruct (txns d !! t) as [x|] eqn:Hx; [|done]. simpl in Hk. cbn [mbind exec_bind]. rewrite Hk. cbn [mbind exec_bind]. destruct (free_bits _ k Hu) as [Hu' Hb]; [lia|].
  set (d1 := txn_complete t ZX_ERR_IO_NOT_PRESENT (set_bitmap (free_blk_req k (blk_req_bitmap_ d)) d)).
  destruct (IH ks' d1) as (d' & b & E & Hf & Hbu & Hbb); [|done|done|].
  { eapply Forall2_impl; [exact F|]. intros u k' <-. apply (complete_same (set_bitmap (free_blk_req k (blk_req_bitmap_ d)) d)). }
  exists d', b. split; [done|]. split; [by eapply finished_cons|]. split; [done|]. intros k' Hk'. rewrite Hbb by done. simpl. rewrite Hb by done. set_solver.
Qed.

Lemma local_not_present l : Forall (fun x : nat * zx_status => x.2 ∈ local_errors) ((fun t => (t, ZX_ERR_IO_NOT_PRESENT)) <$> l).
Proof using All. apply Forall_fmap, Forall_true. intros t. simpl. set_solver. Qed.

Lemma not_present_fst (l : list nat) : ((fun t => (t, ZX_ERR_IO_NOT_PRESENT)) <$> l).*1 = l.
Proof using All. rewrite <- list_fmap_compose. by rewrite list_fmap_id. Qed.

Lemma pin_spec op bytes answer :
  (exists st, pin_pages op bytes answer = inl st /\ st ∈ local_errors) \/
  exists pages, pin_pages op bytes answer = inr pages /\ answer.1 = ZX_OK /\ length pages = length answer.2 /\ num_pages op bytes <= MAX_SCATTER /\ pages = page_starts (offset_vmo op) answer.2.
Proof using All.
  unfold pin_pages. destruct (Z.ltb_spec MAX_SCATTER (num_pages op bytes)) as [|Hle]; [left; eexists; split; [done|set_solver]|].
  destruct (bool_decide_reflect (answer.1 = ZX_OK)) as [E|]; cbn [negb]; [|left; eexists; split; [done|set_solver]]. right. eexists. split; [done|]. unfold page_starts. rewrite page_mask. split_and!; try done. by destruct (answer.2).
Qed.

Section vinv.
Context w s (H : VInv w s).

Lemma waiting_nodup : NoDup (waiting s).
Proof using All.
  destruct (vi_places _ _ H) as (once & _ & E). assert (NoDup (once ++ empties s ++ waiting s)) as Hn by (rewrite E; apply NoDup_seq).
  by apply NoDup_app in Hn as (_ & _ & (_ & _ & Hn)%NoDup_app).
Qed.

Lemma pending_nodup : NoDup (pending_txn_list_ (dev s)).
Proof using All. pose proof waiting_nodup as Hn. unfold waiting in Hn. by repeat (apply NoDup_app in Hn as (? & ? & Hn)). Qed.

Lemma place_some t : t ∈ waiting s -> is_Some (txns (dev s) !! t).
Proof using All.
  intros Ht. destruct (vi_places _ _ H) as (once & _ & E). assert (t ∈ seq 0 (length (txns (dev s)))) as [_ Hl]%elem_of_seq by (rewrite <- E; set_solver). by apply lookup_lt_is_Some_2.
Qed.

Lemma hand_apart t : t ∈ worker_txn_list_ (dev s) ++ in_hand (worker s) -> t ∉ pending_txn_list_ (dev s).
Proof using All.
  intros Ht Hp. pose proof waiting_nodup as Hn. unfold waiting in Hn. rewrite (app_assoc (worker_txn_list_ _)) in Hn. apply NoDup_app in Hn as (_ & Hn & _).
  apply (Hn t Ht). set_solver.
Qed.

Lemma hand_not_submitted fl cs wc A U t :
  RI w s fl cs wc A U -> cleaned (worker s) = false -> t ∈ worker_txn_list_ (dev s) ++ in_hand (worker s) -> t ∉ cs.*1 ++ pending_txn_list_ (dev s).
Proof using All. intros R Hc Ht [Hin|Hin]%elem_of_app; [|by eapply hand_apart]. apply (hand_apart t Ht). by eapply not_cleaned_pending. Qed.

(** ** Requests *)

(** Completions and moves from one place to another. *)
Lemma accounted_step s' es :
  length (txns (dev s')) = length (txns (dev s)) -> empties s' = empties s -> completed (dev s') = completed (dev s) ++ es -> places s' ≡ₚ places s -> accounted s'.
Proof using All.
  intros El Ee Ec Hp. destruct (vi_places _ _ H) as (once & E1 & E2). exists (once ++ es.*1). rewrite El, Ee, Ec, fmap_app. split.
  - rewrite E1. solve_Permutation.
  - rewrite <- E2. unfold places, waiting in Hp. rewrite Ec, fmap_app, <- app_assoc in Hp. apply Permutation_app_inv_l in Hp. rewrite <- Hp. solve_Permutation.
Qed.

Lemma accounted_queue op : accounted (queue_op op s).
Proof using All.
  destruct (queue_spec op (dev s)) as [_ _ _ _ _ Q6 _ _ Q9 Q10]. destruct (vi_places _ _ H) as (once & E1 & E2). unfold accounted, waiting, queue_op. cbn [dev set_dev set_empties empties irq worker lost] in *.
  rewrite Q6, Q9, seq_S. unfold waiting in E2. destruct (has_blocks op).
  - destruct Q10 as [(st & _ & -> & ->)|[-> ->]].
    + exists (once ++ [length (txns (dev s))]). rewrite fmap_app. simpl. rewrite E1, <- E2. split; solve_Permutation.
    + exists once. split; [done|]. rewrite <- E2. solve_Permutation.
  - destruct Q10 as (st & _ & -> & ->). exists once. rewrite fmap_app. simpl. rewrite E1, <- E2. split; solve_Permutation.
Qed.

Lemma reported_step s' x : (forall y, y ∈ answers s -> y ∈ answers s') -> (forall t, t ∈ empties s -> t ∈ empties s') -> reported s x -> reported s' x.
Proof using All. intros Ha He [(st & Hx & E)|[Hl|[E Hx]]]; [left; exists st; split; [by apply Ha|done]|by right; left|right; right; auto]. Qed.

Lemma vinv_queue op : VInv w (queue_op op s).
Proof using All.
  pose proof (accounted_queue op) as Hacc. destruct (queue_spec op (dev s)) as [Q1 Q2 Q3 Q4 Q5 Q6 Q7 Q8 Q9 Q10]. unfold queue_op in *. set (d' := Virtio_BlockImplQueue op (dev s)) in *.
  pose proof H as [(fl & cs & wc & A & U & R) V2 V3 V4 V5 V6].
  constructor; simpl.
  - exists fl, cs, wc, A, U. eapply ri_move; [exact R|done..| | | |]; simpl.
    + unfold used_pos. simpl. by rewrite Q1.
    + assert (forall t, t ∈ pending_txn_list_ (dev s) -> same_txn (dev s) d' t) as Hs by (intros t Ht; apply Q8, place_some; unfold waiting; set_solver).
      eapply pending_frame; [apply R|done|done|done|exact Hs|done|]. intros t Ht Ha. eapply answered_frame; [done|apply Hs, Ht|done|simpl; by rewrite Q4].
    + eapply slots_frame; [apply R|done|done|]. intros t Ht. apply Q8, place_some. unfold waiting. set_solver.
    + apply R.
  - done.
  - eapply worker_ok_frame; [done|done|done|done|by rewrite <- Q6].
  - assert (forall es, completed d' = completed (dev s) ++ es -> Forall (reported (queue_op op s)) es -> Forall (reported (queue_op op s)) (completed d')) as Hall.
    { intros es -> He. apply Forall_app_2; [|done]. eapply Forall_impl; [exact V4|]. intros x. apply reported_step; [done|]. unfold queue_op. simpl. destruct (has_blocks op); set_solver. }
    unfold queue_op in Hall. fold d' in Hall. unfold reported in *. simpl in Hall. destruct (has_blocks op).
    + destruct Q10 as [(st & Hst & Ec & _)|[Ec _]]; [apply (Hall _ Ec); constructor; auto|apply (Hall []); [by rewrite app_nil_r|done]].
    + destruct Q10 as (st & Hst & Ec & _). apply (Hall _ Ec). constructor; [right; left; set_solver|]. constructor; [|done]. destruct Hst as [Hst| ->]; [auto|]. right. right. split; [done|]. simpl. set_solver.
  - done.
  - by rewrite Q7.
Qed.

Lemma vinv_unbind : VInv w (set_dev (Virtio_DdkUnbind (dev s)) s).
Proof using All.
  pose proof H as [(fl & cs & wc & A & U & R) V2 V3 V4 V5 V6]. constructor; try done.
  - exists fl, cs, wc, A, U. eapply ri_move; [exact R|done..| | |]; simpl; [|eapply slots_frame; [apply R|done..]|apply R]. eapply pending_frame; [apply R|done..].
Qed.

(** ** The interrupt thread and the device *)

Lemma vinv_same s' :
  (exists fl cs wc A U, RI w s' fl cs wc A U) -> same_rest s s' -> worker s' = worker s -> (forall x, x ∈ answers s -> x ∈ answers s') -> (forall t, same_txn (dev s) (dev s') t) ->
  places s' ≡ₚ places s -> (pending_txn_list_ (dev s) = [] -> pending_txn_list_ (dev s') = []) ->
  match irq s' with IComplete _ _ t st => from_device s' (t, st) | _ => True end -> VInv w s'.
Proof using All.
  intros R [S1 S2 S3 S4 S5 S6 S7 S8 S9] Ew Ha Ht Hp Hpd Hi. pose proof H as [_ V2 V3 V4 V5 V6]. constructor; try done.
  - apply (accounted_step s' []); rewrite ?app_nil_r; done.
  - eapply worker_ok_frame; try done.
  - rewrite S1. eapply Forall_impl; [done|]. intros x. apply reported_step; [done|by rewrite S9].
  - by rewrite S7, S6.
Qed.

Lemma vinv_irq : exists s', irq_step s = Done s' /\ VInv w s'.
Proof using All.
  pose proof H as [(fl & cs & wc & A & U & R) V2 V3 V4 V5 V6]. destruct (irq s) as [|cur i|cur i h|cur i t st] eqn:Ei.
  - unfold irq_step. rewrite Ei. eexists. split; [done|]. apply vinv_same; try done; [eexists _, _, _, _, _; by apply ri_irq_start|unfold places, waiting; simpl; by rewrite Ei].
  - destruct (decide (i = cur)) as [Heq|Hne].
    + unfold irq_step, used_elem. rewrite Ei. destruct (Z.eqb_spec i cur); [|done]. cbn [mbind exec_bind]. eexists. split; [done|].
      apply vinv_same; try done; [eexists _, _, _, _, _; by eapply ri_irq_end|unfold places, waiting; simpl; by rewrite Ei].
    + destruct (ri_irq_free w s fl cs wc A U R cur i Ei Hne) as (s' & fl' & cs' & U' & h & -> & R' & Sr & Ew & Ei' & Ea & Ep & Ht). exists s'. split; [done|].
      apply vinv_same; try done; [by eexists _, _, _, _, _|by rewrite Ea| |by rewrite Ep|by rewrite Ei'].
      destruct Sr. unfold places, waiting. rewrite Ew, Ei, Ei', Ep, sr_lost, sr_completed, sr_worker_list. done.
  - destruct (ri_irq_find w s fl cs wc A U R cur i h Ei pending_nodup) as (s' & -> & R' & Sr & Ew & Ea & Ht & Hc). exists s'. split; [done|]. pose proof Sr as [S1 S2 S3 S4 S5 S6 S7 S8 S9].
    apply vinv_same; try done; [by eexists _, _, _, _, _|by rewrite Ea|..]; destruct Hc as [[Ei' Ep]|(t & st & l1 & l2 & Ei' & Ep & Ep' & Hfd)].
    + unfold places, waiting. by rewrite Ew, Ei, Ei', Ep, S7, S1, S2.
    + unfold places, waiting. rewrite Ew, Ei, Ei', Ep, Ep', S7, S1, S2. simpl. solve_Permutation.
    + by rewrite Ep.
    + rewrite Ep. by destruct l1.
    + by rewrite Ei'.
    + rewrite Ei'. destruct Hfd as (x & Hx & E). exists x. by rewrite Ea.
  - unfold irq_step. rewrite Ei. eexists. split; [done|]. constructor; simpl.
    + eexists _, _, _, _, _. by apply (ri_irq_complete w s fl cs wc A U R).
    + apply (accounted_step _ [(t, st)]); try done; [simpl; by rewrite length_alter|]. unfold places, waiting. simpl. rewrite Ei, fmap_app. simpl. solve_Permutation.
    + eapply worker_ok_frame; try done. intros u _. apply complete_same.
    + apply Forall_app_2; [done|]. constructor; [by left|done].
    + done.
    + done.
Qed.

Lemma vinv_fetch : h_avail s <> avail_idx (vring_ (dev s)) -> exists s', host_fetch s = Done s' /\ VInv w s'.
Proof using All.
  intros Hne. pose proof H as [(fl & cs & wc & A & U & R) V2 V3 V4 V5 V6]. destruct (ri_fetch w s fl cs wc A U R Hne) as (i & A' & _ & -> & R'). eexists. split; [done|].
  apply vinv_same; try done. by eexists _, _, _, _, _.
Qed.

Lemma vinv_use k st : h_live s = true -> (k < length (h_busy s))%nat -> exists s', host_use k st s = Done s' /\ VInv w s'.
Proof using All.
  intros Hl Hk. pose proof H as [(fl & cs & wc & A & U & R) V2 V3 V4 V5 V6]. destruct (ri_use w s fl cs wc A U R k st Hl Hk pending_nodup) as (s' & U' & -> & R' & Sr & Ew & Ei & Ha & Ep & Ht). exists s'. split; [done|].
  apply vinv_same; try done; [by eexists _, _, _, _, _| |by rewrite Ep|].
  - destruct Sr. unfold places, waiting. by rewrite Ew, Ei, Ep, sr_lost, sr_completed, sr_worker_list.
  - rewrite Ei. destruct (irq s); try done. destruct V5 as (x & Hx & E). exists x. split; [by apply Ha|done].
Qed.

(** ** The worker *)

Lemma vinv_step s' :
  (exists fl cs wc A U, RI w s' fl cs wc A U) -> length (txns (dev s')) = length (txns (dev s)) -> empties s' = empties s -> places s' ≡ₚ places s -> worker_ok s' -> irq s' = irq s -> answers s' = answers s ->
  (exists es, completed (dev s') = completed (dev s) ++ es /\ Forall (fun x => x.2 ∈ local_errors) es) -> (lost s' <> [] -> worker_shutdown_ (dev s') = true) -> VInv w s'.
Proof using All.
  intros R Hn Hem Hp Hw Hi Ha (es & Ec & He) Hl. pose proof H as [_ V2 V3 V4 V5 V6]. unfold from_device in *. constructor; try done.
  - by eapply accounted_step.
  - rewrite Ec. apply Forall_app_2; [eapply Forall_impl; [done|]|eapply Forall_impl; [done|]; by right; left]. intros x. apply reported_step; [by rewrite Ha|by rewrite Hem].
  - rewrite Hi. unfold from_device. by rewrite Ha.
Qed.

(** Nothing but the signals and the places of the worker have changed. *)
Record quiet s' : Prop := {
  qt_vring : vring_ (dev s') = vring_ (dev s);
  qt_bitmap : blk_req_bitmap_ (dev s') = blk_req_bitmap_ (dev s);
  qt_req : blk_req_ (dev s') = blk_req_ (dev s);
  qt_res : blk_res_ (dev s') = blk_res_ (dev s);
  qt_pa : blk_req_pa (dev s') = blk_req_pa (dev s);
  qt_pending : pending_txn_list_ (dev s') = pending_txn_list_ (dev s);
  qt_txns : txns (dev s') = txns (dev s);
  qt_completed : completed (dev s') = completed (dev s);
  qt_list : worker_txn_list_ (dev s') = worker_txn_list_ (dev s);
  qt_shutdown : worker_shutdown_ (dev s') = worker_shutdown_ (dev s);
  qt_irq : irq s' = irq s;
  qt_avail : h_avail s' = h_avail s;
  qt_busy : h_busy s' = h_busy s;
  qt_owner : owner s' = owner s;
  qt_jobs : jobs s' = jobs s;
  qt_answers : answers s' = answers s;
  qt_empties : empties s' = empties s
}.

Lemma vinv_quiet s' :
  quiet s' -> no_submit (worker s) -> no_submit (worker s') -> worker_slots (worker s') (dev s') = worker_slots (worker s) (dev s) -> cleaned (worker s') = cleaned (worker s) ->
  (h_live s' = true -> cleaning (worker s') = false) -> in_hand (worker s') ++ lost s' ≡ₚ in_hand (worker s) ++ lost s -> worker_ok s' ->
  (lost s' <> [] -> worker_shutdown_ (dev s) = true) -> VInv w s'.
Proof using All.
  intros [G1 G2 G3 G4 G5 G6 G7 G8 G9 G10 G11 G12 G13 G14 G15 G16 G17] N1 N2 Hsl Hc Hlv Hh Hw Hl. pose proof H as [(fl & cs & wc & A & U & R) V2 V3 V4 V5 V6].
  apply vinv_step; try done; [| | |by exists []; rewrite G8, app_nil_r|by rewrite G10].
  - exists fl, cs, wc, A, U. apply (ri_frame w s); try done.
    + constructor; try done; [intros; by rewrite G3|intros; apply same_txn_lookup; by rewrite G7|intros; by rewrite G15].
    + rewrite Hsl. eapply slots_frame; [apply R|done|done|]. intros u _. unfold idx_of. by rewrite G7.
  - by rewrite G7.
  - unfold places, waiting. rewrite G8, G9, G6, G11.
    transitivity ((completed (dev s)).*1 ++ worker_txn_list_ (dev s) ++ pending_txn_list_ (dev s) ++ irq_hand (irq s) ++ (in_hand (worker s') ++ lost s')); [solve_Permutation|].
    rewrite Hh. solve_Permutation.
Qed.

(** The program counters at which the worker has neither a slot nor a chain. *)
Definition plain (p : WorkerPc) : Prop := no_submit p /\ worker_slots p (dev s) = [] /\ cleaning p = false /\ cleaned p = false.

Lemma vinv_plain s' :
  quiet s' -> plain (worker s) -> plain (worker s') -> in_hand (worker s') ++ lost s' ≡ₚ in_hand (worker s) ++ lost s -> worker_ok s' ->
  (lost s' <> [] -> worker_shutdown_ (dev s) = true) -> VInv w s'.
Proof using All.
  intros Q (P1 & P2 & P3 & P4) (P1' & P2' & P3' & P4') Hh Hw Hl. apply vinv_quiet; try done; [|by rewrite P4, P4'].
  rewrite P2. destruct (worker s'); done.
Qed.

(** A transaction in the worker's hand is dropped when the driver shuts down, else it is queued. *)
Lemma vinv_drop t : plain (worker s) -> in_hand (worker s) = [t] -> worker_shutdown_ (dev s) = true -> VInv w (drop_txn t s).
Proof using All. intros P Hh Hs. apply vinv_plain; try done. simpl. rewrite Hh. solve_Permutation. Qed.

Lemma vinv_after_flush t j (q : bool) :
  plain (worker s) -> in_hand (worker s) = (if q then [] else [t]) -> (q = false -> jobs s !! t = Some j /\ job_ok (dev s) t j) -> VInv w (after_flush t j q s).
Proof using All.
  intros P Hh Hj. unfold after_flush. destruct q.
  - apply vinv_plain; try done; [by rewrite Hh|apply H].
  - destruct (worker_shutdown_ (dev s)) eqn:E; [by apply vinv_drop|]. apply vinv_plain; try done; [by rewrite Hh| |by intros ?%(vi_lost _ _ H)].
    destruct (Hj eq_refl). split_and!; done.
Qed.

(** A transaction has been pulled off the list: it is in the worker's hand, or completed. *)
Lemma vinv_pulled t l s' :
  worker s = WPull -> worker_txn_list_ (dev s) = t :: l -> worker_txn_list_ (dev s') = l ->
  vring_ (dev s') = vring_ (dev s) -> blk_req_bitmap_ (dev s') = blk_req_bitmap_ (dev s) -> blk_req_ (dev s') = blk_req_ (dev s) -> blk_res_ (dev s') = blk_res_ (dev s) ->
  blk_req_pa (dev s') = blk_req_pa (dev s) -> pending_txn_list_ (dev s') = pending_txn_list_ (dev s) -> worker_shutdown_ (dev s') = worker_shutdown_ (dev s) ->
  irq s' = irq s -> h_avail s' = h_avail s -> h_busy s' = h_busy s -> owner s' = owner s -> answers s' = answers s -> lost s' = lost s -> empties s' = empties s ->
  length (txns (dev s')) = length (txns (dev s)) -> (forall u, u <> t -> same_txn (dev s) (dev s') u) -> (forall u, u <> t -> jobs s' !! u = jobs s !! u) ->
  plain (worker s') -> worker_ok s' ->
  (in_hand (worker s') = [t] /\ completed (dev s') = completed (dev s) \/ exists st, st ∈ local_errors /\ in_hand (worker s') = [] /\ completed (dev s') = completed (dev s) ++ [(t, st)]) ->
  VInv w s'.
Proof using All.
  intros Ew El El' G1 G2 G3 G4 G5 G6 G7 G8 G9 G10 G11 G12 G13 Gem G14 Gt Gj (P1 & P2 & P3 & P4) Hw Hc. pose proof H as [(fl & cs & wc & A & U & R) V2 V3 V4 V5 V6].
  assert (t ∉ cs.*1 ++ pending_txn_list_ (dev s)) as Hnt by (eapply hand_not_submitted; [exact R|by rewrite Ew|rewrite El; set_solver]).
  assert (worker_slots (worker s') (dev s') = []) as P2' by (destruct (worker s'); done).
  apply vinv_step; try done.
  - exists fl, cs, wc, A, U. apply (ri_frame w s); try done; [|by rewrite Ew| |by rewrite Ew, P4].
    + constructor; try done; [intros; by rewrite G3|intros u Hu; apply Gt; by intros ->|intros u Hu; apply Gj; intros ->; set_solver].
    + rewrite P2'. pose proof (ri_slots _ _ _ _ _ _ _ R) as Hsl. rewrite Ew in Hsl. eapply slots_frame; [exact Hsl|done|done|]. intros u Hu. apply Gt. intros ->. set_solver.
  - unfold places, waiting. rewrite El', El, G6, G8, G13, Ew. destruct Hc as [[-> ->]|(st & _ & -> & ->)]; rewrite ?fmap_app; simpl; solve_Permutation.
  - destruct Hc as [[_ ->]|(st & Hst & _ & ->)]; [exists []; by rewrite app_nil_r|]. exists [(t, st)]. split; [done|]. by apply Forall_singleton.
  - by rewrite G13, G7.
Qed.

Lemma vinv_pull answer t l :
  worker s = WPull -> worker_txn_list_ (dev s) = t :: l -> answer_valid answer s = true -> exists s', worker_pull t answer (set_dev (set_lists l (pending_txn_list_ (dev s)) (dev s)) s) = Done s' /\ VInv w s'.
Proof using All.
  intros Ew El Hv. destruct (place_some t) as [x Hx]; [unfold places, waiting; rewrite El; set_solver|]. unfold answer_valid in Hv. rewrite Ew, El, Hx in Hv.
  unfold worker_pull, get_txn. simpl. rewrite Hx. cbn [mbind exec_bind]. destruct (_ =? BLOCK_OP_FLUSH).
  { eexists. split; [done|]. apply (vinv_pulled t l); try done; [intros u Hu; simpl; by rewrite lookup_insert_ne| |by left].
    unfold worker_ok. simpl. rewrite lookup_insert_eq. split; [done|]. exists (t_op x). split; [unfold op_of; simpl; by rewrite Hx|done]. }
  set (op := mkBlkOp _ _ _ _ _) in *. set (bytes := u32 _) in *. set (d1 := upd_txn t (set_op op) _).
  assert (forall u, u <> t -> same_txn (dev s) d1 u) as Hs1 by (intros u Hu; by destruct (upd_txn_ne (dev s) t (set_op op) u Hu)).
  assert (length (txns d1) = length (txns (dev s))) as Hl1 by (simpl; by rewrite length_alter).
  destruct (pin_spec op bytes answer) as [(st & -> & Hst)|(pages & -> & E1 & E2 & E3 & E4)].
  - eexists. split; [done|]. apply (vinv_pulled t l); try done; simpl.
    + by rewrite !length_alter.
    + intros u Hu. destruct (Hs1 u Hu) as [A1 A2 A3], (complete_same d1 t st u) as [B1 B2 B3]. constructor; simpl in *; congruence.
    + right. by exists st.
  - eexists. split; [done|]. apply (vinv_pulled t l); try done; simpl.
    + by rewrite !length_alter.
    + intros u Hu. destruct (Hs1 u Hu) as [A1 A2 A3], (upd_txn_pmt d1 t true u) as [B1 B2 B3]. constructor; simpl in *; congruence.
    + intros u Hu. by rewrite lookup_insert_ne.
    + unfold worker_ok. simpl. rewrite lookup_insert_eq. split_and!; try done. exists op. split; [unfold op_of; simpl; by rewrite !list_lookup_alter_eq, Hx|].
      rewrite E1 in Hv. rewrite bool_decide_true in Hv by done. cbn [negb orb] in Hv. apply andb_true_iff in Hv as [Hv%Z.eqb_eq _]. cbn [j_bytes j_pages].
      pose proof (num_pages_spec op bytes (u32_range _)) as Hn. specialize (Hn (proj1 (u64_range _))). pose proof (u32_range (length_blocks op * blk_size (dev s))) as Hb.
      split; [|rewrite E2, Hv; done]. apply page_rest_zero; [unfold is_u32 in Hb; fold bytes in Hb; lia|]. rewrite E2, Hv. fold op bytes. lia.
    + by left.
Qed.

(** The steps of [QueueTxn]. *)

Lemma bitmap_zero : slots_ok (dev s) [] -> pending_txn_list_ (dev s) = [] -> blk_req_bitmap_ (dev s) = 0.
Proof using All.
  intros [S1 (ks & S2 & S3 & S4 & S5)] Hp. rewrite Hp in S2. apply Forall2_nil_inv_l in S2 as ->. apply Z.bits_inj'. intros k Hk. rewrite Z.bits_0. apply not_true_is_false. rewrite S5 by done. set_solver.
Qed.

(** Only the bitmap and the place of the worker change. *)
Lemma vinv_bitmap b p :
  no_submit (worker s) -> no_submit p -> cleaned p = cleaned (worker s) -> cleaning p = false -> in_hand p = in_hand (worker s) -> slots_ok (set_bitmap b (dev s)) (worker_slots p (dev s)) ->
  worker_ok (set_worker p (set_dev (set_bitmap b (dev s)) s)) -> VInv w (set_worker p (set_dev (set_bitmap b (dev s)) s)).
Proof using All.
  intros N1 N2 Hc Hg Hh Hsl Hw. pose proof H as [(fl & cs & wc & A & U & R) V2 V3 V4 V5 V6]. apply vinv_step; try done; simpl.
  - exists fl, cs, wc, A, U. apply (ri_frame w s); done.
  - unfold places, waiting. simpl. by rewrite Hh.
  - exists []. by rewrite app_nil_r.
Qed.

Lemma vinv_alloc t j cf answer : worker s = WAlloc t j cf -> exists s', worker_step answer s = Done s' /\ VInv w s'.
Proof using All.
  intros Ew. pose proof H as [(fl & cs & wc & A & U & R) V2 V3 V4 V5 V6]. pose proof (ri_slots _ _ _ _ _ _ _ R) as Hsl. unfold worker_ok in V3. unfold worker_step. rewrite Ew in *. cbn [worker_slots] in Hsl.
  destruct V3 as (Hj & Hjob & Hcf). destruct (alloc_blk_req (blk_req_bitmap_ (dev s))) as [i b] eqn:Ea. eexists. split; [done|]. destruct (Z.leb_spec blk_req_count i) as [Hge|Hlt].
  - apply vinv_plain; try done; try (by rewrite Ew). unfold worker_ok. simpl. split_and!; try done. intros ->. specialize (Hcf eq_refl). exfalso.
    rewrite (bitmap_zero Hsl Hcf) in Ea. injection Ea as <- _. vm_compute in Hge. done.
  - destruct (slots_alloc _ _ _ Hsl Ea Hlt) as [H0 Hsl']. apply vinv_bitmap; try done; by rewrite Ew.
Qed.

Lemma vinv_chain t j cf i answer : worker s = WChain t j cf i -> exists s', worker_step answer s = Done s' /\ VInv w s'.
Proof using All.
  intros Ew. pose proof H as [(fl & cs & wc & A & U & R) V2 V3 V4 V5 V6]. unfold worker_ok in V3. rewrite Ew in V3. destruct V3 as (Hj & Hjob & Hcf).
  assert (t ∉ cs.*1 ++ pending_txn_list_ (dev s)) as [N1 N2]%not_elem_of_app by (eapply hand_not_submitted; [exact R|by rewrite Ew|rewrite Ew; set_solver]).
  destruct (ri_queue_chain w s fl cs wc A U R t j cf i Ew Hj Hjob N1 N2) as (s' & fl' & wc' & E & R' & [S1 S2 S3 S4 S5 S6 S7 S8 S9] & Ei & Ea & Ep & Hw). unfold worker_step. rewrite Ew, E. exists s'. split; [done|].
  assert (in_hand (worker s') = [t]) as Hh by (destruct Hw as [[-> _]|[h ->]]; done). apply vinv_step; try done.
  - by eexists _, _, _, _, _.
  - unfold places, waiting. by rewrite S1, S2, Ep, Ei, S7, Hh, Ew.
  - unfold worker_ok. destruct Hw as [[-> Hidx]|[h ->]]; [|done]. rewrite S8, Ep. split_and!; try done. eapply job_ok_frame; [apply S4|done].
  - exists []. by rewrite app_nil_r.
  - by rewrite S7, S6.
Qed.

Lemma vinv_free t j cf i answer : worker s = WFree t j cf i -> exists s', worker_step answer s = Done s' /\ VInv w s'.
Proof using All.
  intros Ew. pose proof H as [(fl & cs & wc & A & U & R) V2 V3 V4 V5 V6]. pose proof (ri_slots _ _ _ _ _ _ _ R) as Hsl. unfold worker_ok in V3. unfold worker_step. rewrite Ew in *. cbn [worker_slots] in Hsl.
  destruct V3 as (Hj & Hjob & Hcf & Hi). eexists. split; [done|]. apply vinv_bitmap; try done; try (by rewrite Ew); [by apply slots_free|].
  unfold worker_ok. simpl. split_and!; try done. intros E. split; [by apply Hcf|]. exists i. split; [done|]. destruct Hsl as [_ (ks & _ & _ & Hr & _)]. apply Forall_app in Hr as [_ Hr]. apply (Forall_inv Hr).
Qed.

Lemma vinv_give_up t j answer : worker s = WFailed t j true -> exists s', worker_step answer s = Done s' /\ VInv w s'.
Proof using All.
  intros Ew. pose proof H as [(fl & cs & wc & A & U & R) V2 V3 V4 V5 V6]. pose proof (ri_slots _ _ _ _ _ _ _ R) as Hsl. unfold worker_ok in V3. unfold worker_step, free_txn_req, get_txn. rewrite Ew in *. cbn [worker_slots] in Hsl.
  destruct V3 as (Hj & Hjob & Hcf). destruct (Hcf eq_refl) as (Hp & k & Hk & Hk0). unfold idx_of in Hk. destruct (txns (dev s) !! t) as [x|] eqn:Hx; [|done]. simpl in Hk. cbn [mbind exec_bind]. rewrite Hk. cbn [exec_bind].
  set (d1 := txn_complete t ZX_ERR_NO_RESOURCES (set_bitmap (free_blk_req k (blk_req_bitmap_ (dev s))) (dev s))). destruct (after_queue_worker t j (set_dev d1 s)) as (N1 & N2 & N3 & N4 & N5). exists (after_queue t j (set_dev d1 s)). split; [done|]. apply vinv_step; try done.
  - exists fl, cs, wc, A, U. apply (ri_frame w s); try done; [|by rewrite Ew| |by rewrite N2, Ew].
    + constructor; try done. intros u Hu. destruct (complete_same (dev s) t ZX_ERR_NO_RESOURCES u). by constructor.
    + change (dev (after_queue t j (set_dev d1 s))) with (dev (set_dev d1 s)). rewrite N4. pose proof (slots_free_none _ k Hsl Hp Hk0) as Hf.
      eapply slots_frame; [exact Hf|done|done|]. intros u Hu. apply (complete_same (set_bitmap (free_blk_req k (blk_req_bitmap_ (dev s))) (dev s)) t ZX_ERR_NO_RESOURCES u).
  - simpl. by rewrite length_alter.
  - unfold places, waiting. rewrite N5, Ew. simpl. rewrite fmap_app. simpl. solve_Permutation.
  - unfold worker_ok, after_queue. simpl. by destruct (j_flush j).
  - exists [(t, ZX_ERR_NO_RESOURCES)]. split; [done|]. apply Forall_singleton. set_solver.
Qed.

Lemma vinv_submit t j i answer : worker s = WSubmit t j i -> exists s', worker_step answer s = Done s' /\ VInv w s'.
Proof using All.
  intros Ew. pose proof H as [(fl & cs & wc & A & U & R) V2 V3 V4 V5 V6].
  assert (t ∉ cs.*1 ++ pending_txn_list_ (dev s)) as [N1 N2]%not_elem_of_app by (eapply hand_not_submitted; [exact R|by rewrite Ew|rewrite Ew; set_solver]).
  destruct (ri_submit w s fl cs wc A U R t j i answer Ew N1 N2) as (s' & -> & R' & [S1 S2 S3 S4 S5 S6 S7 S8 S9] & Ei & Ea & Ep & Hh & Hw). exists s'. split; [done|]. apply vinv_step; try done.
  - by eexists _, _, _, _, _.
  - unfold places, waiting. rewrite S1, S2, Ep, Ei, S7, Hh, Ew. simpl. solve_Permutation.
  - exists []. by rewrite app_nil_r.
  - by rewrite S7, S6.
Qed.

(** ** The end of the worker *)

Lemma vinv_clean_worker answer : worker s = WCleanWorker -> exists s', worker_step answer s = Done s' /\ VInv w s'.
Proof using All.
  intros Ew. pose proof H as [(fl & cs & wc & A & U & R) V2 V3 V4 V5 V6]. unfold worker_step. rewrite Ew.
  set (d0 := set_lists [] (pending_txn_list_ (dev s)) (dev s)). destruct (complete_all ZX_ERR_IO_NOT_PRESENT (worker_txn_list_ (dev s)) d0) as [F1 F2 F3 F4 F5 F6 F7 F8 F9 F10 F11].
  set (d' := foldl _ _ _) in *. exists (set_worker WCleanPending (set_dev d' s)). split; [done|]. assert (forall u, same_txn (dev s) d' u) as Hs by (intros u; by destruct (F10 u)).
  apply vinv_step; try done; simpl.
  - exists fl, cs, wc, A, U. apply (ri_frame w s); try done; [|by rewrite Ew| |by rewrite Ew|].
    + constructor; try done. intros. simpl. by rewrite F3.
    + simpl. pose proof (ri_slots _ _ _ _ _ _ _ R) as Hsl. rewrite Ew in Hsl. eapply slots_frame; [exact Hsl|done|done|]. intros u _. apply Hs.
    + intros Hl. pose proof (ri_live _ _ _ _ _ _ _ R Hl) as Hc. by rewrite Ew in Hc.
  - unfold places, waiting. simpl. rewrite F11, F7, F6, Ew, fmap_app, not_present_fst. simpl. solve_Permutation.
  - eexists. split; [exact F11|apply local_not_present].
  - by rewrite F8.
Qed.

Lemma vinv_clean_pending answer : worker s = WCleanPending -> exists s', worker_step answer s = Done s' /\ VInv w s'.
Proof using All.
  intros Ew. pose proof H as [(fl & cs & wc & A & U & R) V2 V3 V4 V5 V6]. pose proof R as [R1 R2 R3 R4 R5 R6 R7 R8 R9 R10 R11 R12 R13 R14 R15 R16 R17].
  unfold worker_step. rewrite Ew in *. destruct R6 as [S1 (ks & S2 & S3 & S4 & S5)]. cbn [worker_slots] in *. rewrite app_nil_r in *.
  set (d0 := set_lists (worker_txn_list_ (dev s)) [] (dev s)). destruct (clean_pending_spec (pending_txn_list_ (dev s)) ks d0) as (d' & b & -> & [F1 F2 F3 F4 F5 F6 F7 F8 F9 F10 F11] & Hu & Hb); [done..|].
  cbn [mbind exec_bind]. eexists. split; [done|]. assert (forall u, same_txn (dev s) d' u) as Hs by (intros u; by destruct (F10 u)). apply vinv_step; try done.
  - exists fl, cs, wc, A, U. constructor; simpl; rewrite ?F1, ?F4; try done.
    + eapply Forall_impl; [exact R3|]. intros y Hy. apply (submitted_frame s); simpl; rewrite ?F1, ?F3, ?F5; done.
    + constructor; simpl; [by rewrite F2|]. exists []. rewrite F6. split_and!; [constructor|constructor|constructor|]. intros k Hk. rewrite F2, Hb by done. simpl. rewrite S5 by done. set_solver.
    + unfold used_pos in *. simpl. by rewrite F1.
    + unfold used_pos in *. simpl. by rewrite F1.
    + unfold used_pos in *. simpl. by rewrite F1.
    + unfold used_pos in *. simpl. by rewrite F1.
    + intros x i Hx Hi HU. eapply answered_frame; [by eapply R15|apply Hs|done|simpl; by rewrite F4].
  - unfold places, waiting. simpl. rewrite F11, F7, F6, Ew, fmap_app, not_present_fst. simpl. solve_Permutation.
  - eexists. split; [exact F11|apply local_not_present].
  - simpl. by rewrite F8.
Qed.

Lemma vinv_worker answer : worker_ready s = true -> answer_valid answer s = true -> exists s', worker_step answer s = Done s' /\ VInv w s'.
Proof using All.
  intros Hr Hv. pose proof H as [_ _ V3 _ _ V6]. destruct (worker s) as [| | |t j q|t j q|t j cf|t j cf i|t j cf i|t j cf|t j|t j i| | | |] eqn:Ew;
    [| | | | |by eapply vinv_alloc|by eapply vinv_chain|by eapply vinv_free| | |by eapply vinv_submit| |by eapply vinv_clean_worker|by eapply vinv_clean_pending|];
    unfold worker_ready in Hr; rewrite Ew in Hr; try done; unfold worker_step; rewrite Ew; unfold worker_ok in V3; rewrite Ew in V3.
  - eexists. split; [done|]. apply vinv_plain; try done; destruct (worker_shutdown_ (dev s)); rewrite ?Ew; done.
  - destruct (worker_txn_list_ (dev s)) as [|t l] eqn:El; [|by eapply vinv_pull]. eexists. split; [done|]. apply vinv_plain; rewrite ?Ew; done.
  - eexists. split; [done|]. apply vinv_plain; rewrite ?Ew; done.
  - destruct (pending_txn_list_ (dev s)) eqn:Ep; eexists; (split; [done|]).
    + apply vinv_after_flush; rewrite ?Ew; [by destruct q|by destruct q|by intros ->].
    + apply vinv_plain; rewrite ?Ew; try done; by destruct q.
  - eexists. split; [done|]. destruct (worker_shutdown_ (dev s)) eqn:Es; [apply vinv_after_flush|apply vinv_plain]; rewrite ?Ew; try done; try (by destruct q). by intros ?%V6.
  - destruct cf; [pose proof (vinv_give_up t j answer Ew) as Hg; unfold worker_step in Hg; by rewrite Ew in Hg|]. destruct V3 as (Hj & Hjob & _).
    destruct (pending_txn_list_ (dev s)) eqn:Ep; eexists; (split; [done|]); apply vinv_plain; rewrite ?Ew; done.
  - eexists. split; [done|]. destruct (worker_shutdown_ (dev s)) eqn:Es; [apply vinv_drop|apply vinv_plain]; rewrite ?Ew; try done; [|by intros ?%V6]. destruct V3. split_and!; done.
  - eexists. split; [done|]. apply vinv_quiet; rewrite ?Ew; done.
Qed.

(** Every event the clients, the threads, the kernel and the device may cause is handled, and keeps the invariant. *)
Lemma vinv_event e : vallowed e s = true -> exists s', handle_vevent e s = Done s' /\ VInv w s'.
Proof using All.
  intros Ha. destruct e as [op| |answer| | |k st]; cbn [vallowed handle_vevent] in *.
  - eexists. split; [done|by apply vinv_queue].
  - eexists. split; [done|by apply vinv_unbind].
  - apply andb_true_iff in Ha as [Hr Hv]. by apply vinv_worker.
  - apply vinv_irq.
  - apply andb_true_iff in Ha as [_ Hn%negb_true_iff%Z.eqb_neq]. by apply vinv_fetch.
  - apply andb_true_iff in Ha as [Hl Hk%Nat.ltb_lt]. by apply vinv_use.
Qed.
End vinv.
End inv.
