(* ===== verification/VirtioBlockJobs.v ===== *)
(** * VirtioBlockJobs: what the worker does with the requests of the clients

    The worker hands a transaction to the device as the client has asked for it, and a flush only when the device
    works on nothing else. *)
From Stdlib Require Import ZArith Lia.
From stdpp Require Import prelude gmap.
From S2P Require Import Prelude BlockServer VirtioRing VirtioBlock VirtioChain VirtioBlockRun VirtioBlockSteps VirtioBlockInv.

Local Open Scope Z_scope.

Section jobs.
Context {abi : VirtioAbi} {abi_ok : VirtioAbiOk} {blk : VirtioBlkAbi} {blk_ok : VirtioBlkAbiOk} {block_abi : BlockAbi}.
Implicit Types (s : Sys) (d : BlockDevice) (t : nat) (op : BlkOp) (j : Job).

Definition command_of op : Z := Z.land (command op) BLOCK_OP_MASK.

(** What the worker has to work out for a request, whose offset in the VMO is in bytes by now; [pin]: what was pinned for it. *)
Definition job_for (bs : Z) op (pin : option (PinRequest * list Z)) j : Prop :=
  if command_of op =? BLOCK_OP_FLUSH then j = mkJob VIRTIO_BLK_T_FLUSH 0 [] true
  else j_type j = (if command_of op =? BLOCK_OP_WRITE then VIRTIO_BLK_T_OUT else VIRTIO_BLK_T_IN) /\ j_bytes j = u32 (length_blocks op * bs) /\ j_flush j = false /\ is_u64 (offset_vmo op) /\
    exists pages, pin = Some (pin_request op (j_bytes j), pages) /\ Z.of_nat (length pages) = num_pages op (j_bytes j) /\ Forall is_u64 pages /\ j_pages j = page_starts (offset_vmo op) pages.

Record jobs_ok s : Prop := {
  jo_job t j : jobs s !! t = Some j -> exists op, op_of (dev s) t = Some op /\ job_for (blk_size (dev s)) op (pins s !! t) j;
  jo_new t : t ∈ worker_txn_list_ (dev s) -> jobs s !! t = None;
  jo_empty t : t ∈ empties s <-> exists op, op_of (dev s) t = Some op /\ has_blocks op = false
}.

(** ** Steps that leave the requests alone *)

(** What is noted about the requests. *)
Definition notes s : gmap nat Job * gmap nat (PinRequest * list Z) * list nat := (jobs s, pins s, empties s).

Record kept s s' : Prop := {
  kp_ops t : op_of (dev s') t = op_of (dev s) t;
  kp_notes : notes s' = notes s;
  kp_size : blk_size (dev s') = blk_size (dev s);
  kp_list : worker_txn_list_ (dev s') = worker_txn_list_ (dev s) \/ worker_txn_list_ (dev s') = []
}.

Lemma kept_jobs s s' : kept s s' -> jobs_ok s -> jobs_ok s'.
Proof using All.
  intros [K1 [= K2 K5 K6] K3 K4] [J1 J2 J3]. constructor.
  - intros t j. rewrite K2, K3, K1, K5. apply J1.
  - intros t Ht. rewrite K2. apply J2. destruct K4 as [K4|K4]; rewrite K4 in Ht; [done|by apply elem_of_nil in Ht].
  - intros t. by rewrite K6, K1.
Qed.

Lemma kp_jobs s s' : kept s s' -> jobs s' = jobs s.
Proof using Type. by intros [_ [= ->] _ _]. Qed.

Lemma op_upd d t f u : (forall x, t_op (f x) = t_op x) -> op_of (upd_txn t f d) u = op_of d u.
Proof using All.
  intros Hf. unfold op_of. simpl. destruct (decide (u = t)) as [->|Hne]; [|by rewrite list_lookup_alter_ne]. rewrite list_lookup_alter_eq. destruct (txns d !! t); simpl; [by rewrite Hf|done].
Qed.

Lemma kept_done s p t st : kept s (set_worker p (set_dev (txn_complete t st (dev s)) s)).
Proof using All. constructor; try done; [|by left]. intros u. apply (op_upd (dev s) t (set_pmt false) u). done. Qed.

Definition same_requests d d' : Prop := (forall t, op_of d' t = op_of d t) /\ blk_size d' = blk_size d /\ worker_txn_list_ d' = worker_txn_list_ d.

Lemma kept_by d' s s' : same_requests (dev s) d' -> dev s' = d' -> notes s' = notes s -> kept s s'.
Proof using All. intros (K1 & K2 & K3) E Ej. subst d'. constructor; try done. by left. Qed.

Lemma kept_same s s' :
  txns (dev s') = txns (dev s) -> blk_size (dev s') = blk_size (dev s) -> worker_txn_list_ (dev s') = worker_txn_list_ (dev s) -> notes s' = notes s -> kept s s'.
Proof using All. intros E1 E2 E3 E4. constructor; try done; [|by left]. intros t. unfold op_of. by rewrite E1. Qed.

Lemma same_requests_trans d1 d2 d3 : same_requests d1 d2 -> same_requests d2 d3 -> same_requests d1 d3.
Proof using All. intros (A1 & A2 & A3) (B1 & B2 & B3). split_and!; [intros t; by rewrite B1|congruence|congruence]. Qed.

Lemma complete_requests d t st : same_requests d (txn_complete t st d).
Proof using All. split_and!; try done. intros u. by apply (op_upd d t (set_pmt false)). Qed.

Lemma complete_all_requests st l d : same_requests d (foldl (fun d t => txn_complete t st d) d l).
Proof using All. revert d. induction l as [|t l IH]; intros d; [done|]. eapply same_requests_trans; [apply (complete_requests d t st)|apply IH]. Qed.

Lemma clean_requests l d d' :
  clean_pending l d = Done d' -> same_requests d d' /\ pending_txn_list_ d' = pending_txn_list_ d /\ worker_shutdown_ d' = worker_shutdown_ d.
Proof using All.
  revert d. induction l as [|t l IH]; intros d; cbn [clean_pending]; [by intros [= <-]|]. unfold free_txn_req, get_txn.
  destruct (txns d !! t) as [x|]; cbn [mbind exec_bind]; [|done]. destruct (t_index x) as [i|]; cbn [mbind exec_bind]; [|done]. intros (E & -> & ->)%IH. split_and!; try done.
  eapply same_requests_trans; [|exact E]. apply (complete_requests (set_bitmap (free_blk_req i (blk_req_bitmap_ d)) d)).
Qed.

(** [QueueTxn] changes only the place of the transaction in the ring. *)
Lemma queue_requests t j cf i s s' : queue_chain t j cf i s = Done s' -> same_requests (dev s) (dev s') /\ notes s' = notes s /\
  pending_txn_list_ (dev s') = pending_txn_list_ (dev s) /\ worker_shutdown_ (dev s') = worker_shutdown_ (dev s) /\
  (worker s' = WFree t j cf i \/ exists h, worker s' = WSubmit t j h).
Proof using All.
  unfold queue_chain, get_txn. destruct (txns (dev s) !! t) as [x|]; cbn [mbind exec_bind]; [|done]. set (d := upd_txn t (set_index i) _).
  assert (same_requests (dev s) d) as Hd by (split_and!; try done; intros u; unfold d; by rewrite op_upd).
  destruct (AllocDescChain _ _) as [[[h|] r]|]; cbn [mbind exec_bind]; [|by intros [= <-]; eauto 10|done].
  destruct (fill_chain _ _ _ _ _ _ _ _) as [r'|]; cbn [mbind exec_bind]; [|done]. intros [= <-]. simpl. split_and!; try done; [|eauto].
  eapply same_requests_trans; [exact Hd|]. split_and!; try done. intros u. by apply (op_upd d t (set_head h)).
Qed.

(** ** Requests *)

Lemma signal_fields t op d :
  blk_size (SignalWorker t op d) = blk_size d /\ pending_txn_list_ (SignalWorker t op d) = pending_txn_list_ d /\ worker_shutdown_ (SignalWorker t op d) = worker_shutdown_ d /\
  (forall u, op_of (SignalWorker t op d) u = op_of d u) /\ (forall u, u ∈ worker_txn_list_ (SignalWorker t op d) -> u ∈ worker_txn_list_ d \/ u = t).
Proof using All.
  assert (forall st d, (forall u, op_of (txn_complete t st d) u = op_of d u)) as Hc by (intros st d' u; by apply (op_upd d' t (set_pmt false))).
  unfold SignalWorker. cbn zeta. destruct (_ || _); [destruct (length_blocks op =? 0); destruct (_ || _)|destruct (_ =? BLOCK_OP_FLUSH)]; try destruct (worker_shutdown_ _) eqn:Es;
    (split_and!; [done|done|done|intros u; rewrite ?Hc; done|simpl; set_solver]).
Qed.

Lemma op_old d x t op : op_of d t = Some op -> op_of (set_txns (txns d ++ [x]) d) t = Some op.
Proof using All. unfold op_of. simpl. destruct (txns d !! t) eqn:E; [|done]. by rewrite (lookup_app_l_Some _ _ _ _ E). Qed.

Lemma op_new d op d' : (forall u, op_of d' u = op_of (set_txns (txns d ++ [mkTxn op None None false]) d) u) -> op_of d' (length (txns d)) = Some op.
Proof using All. intros E. rewrite E. unfold op_of. simpl. by rewrite lookup_app_r, Nat.sub_diag by lia. Qed.

Lemma op_cases d op t op' : op_of (set_txns (txns d ++ [mkTxn op None None false]) d) t = Some op' -> op_of d t = Some op' \/ t = length (txns d) /\ op' = op.
Proof using All.
  unfold op_of. simpl. destruct (decide (t < length (txns d))%nat) as [Hl|Hl]; [rewrite lookup_app_l by done; by left|]. rewrite lookup_app_r by lia.
  destruct (t - length (txns d))%nat as [|n] eqn:E; [|done]. intros [= <-]. right. split; [lia|done].
Qed.

Lemma jobs_queue op s : jobs_ok s -> jobs_ok (queue_op op s).
Proof using All.
  intros [J1 J2 J3]. unfold queue_op, Virtio_BlockImplQueue. set (d0 := set_txns _ (dev s)). destruct (signal_fields (length (txns (dev s))) op d0) as (Q1 & _ & _ & Q4 & Q5).
  constructor; cbn [dev set_dev jobs pins empties set_empties].
  - intros t j (op' & Ho & Hj)%J1. exists op'. rewrite Q4, Q1. split; [by apply op_old|done].
  - intros t [Ht|Ht]%Q5; [by apply J2|]. destruct (jobs s !! t) as [j|] eqn:E; [|done]. apply J1 in E as (op' & Ho & _). unfold op_of in Ho.
    rewrite lookup_ge_None_2 in Ho by lia. done.
  - intros t. pose proof (op_new (dev s) op _ Q4) as Hn. split.
    + intros Ht. assert (t ∈ empties s \/ t = length (txns (dev s)) /\ has_blocks op = false) as [Hold|[-> Hb]] by (destruct (has_blocks op); set_solver); [|by exists op].
      apply J3 in Hold as (op' & Ho & Hb). exists op'. rewrite Q4. split; [by apply op_old|done].
    + intros (op' & Ho & Hb). rewrite Q4 in Ho. destruct (op_cases _ _ _ _ Ho) as [Hold|[-> ->]]; [|rewrite Hb; set_solver].
      assert (t ∈ empties s) as Ht by (apply J3; by exists op'). destruct (has_blocks op); set_solver.
Qed.

(** ** The worker *)

Lemma op_set d t op u : is_Some (txns d !! t) -> op_of (upd_txn t (set_op op) d) u = if decide (u = t) then Some op else op_of d u.
Proof using All.
  intros [x Hx]. unfold op_of. simpl. destruct (decide (u = t)) as [->|Hne]; [by rewrite list_lookup_alter_eq, Hx|by rewrite list_lookup_alter_ne].
Qed.

Lemma paddrs_u64 (l : list Z) : forallb (fun p => (0 <=? p) && (p <? 2 ^ 64)) l = true -> Forall is_u64 l.
Proof using Type. intros Hl. apply Forall_forall. intros p Hp. rewrite forallb_forall in Hl. apply list_elem_of_In, Hl in Hp. unfold is_u64. lia. Qed.

(** The state after a transaction has been pulled. *)
Record pulled (s s' : Sys) t (l : list nat) : Prop := {
  pu_ops u : u <> t -> op_of (dev s') u = op_of (dev s) u;
  pu_jobs u : u <> t -> jobs s' !! u = jobs s !! u;
  pu_pins u : u <> t -> pins s' !! u = pins s !! u;
  pu_empties : empties s' = empties s;
  pu_blocks : exists op op', op_of (dev s) t = Some op /\ op_of (dev s') t = Some op' /\ has_blocks op' = has_blocks op;
  pu_job j : jobs s' !! t = Some j -> exists op, op_of (dev s') t = Some op /\ job_for (blk_size (dev s')) op (pins s' !! t) j;
  pu_size : blk_size (dev s') = blk_size (dev s);
  pu_list : worker_txn_list_ (dev s') = l;
  pu_pending : pending_txn_list_ (dev s') = pending_txn_list_ (dev s);
  pu_shutdown : worker_shutdown_ (dev s') = worker_shutdown_ (dev s);
  pu_worker : worker s' = WTop \/ exists j, worker s' = WFlush t j false \/ (worker s' = WAlloc t j false /\ j_flush j = false)
}.

Lemma pull_spec t l answer s s' :
  worker s = WPull -> worker_txn_list_ (dev s) = t :: l -> answer_valid answer s = true -> jobs s !! t = None ->
  worker_pull t answer (set_dev (set_lists l (pending_txn_list_ (dev s)) (dev s)) s) = Done s' -> pulled s s' t l.
Proof using All.
  intros Ew El Hv Hn. unfold worker_pull, get_txn, answer_valid in *. rewrite Ew, El in Hv. cbn [dev set_dev txns set_lists jobs blk_size] in *. destruct (txns (dev s) !! t) as [x|] eqn:Hx; cbn [mbind exec_bind]; [|done].
  assert (op_of (dev s) t = Some (t_op x)) as Hot by (unfold op_of; by rewrite Hx).
  destruct (_ =? BLOCK_OP_FLUSH) eqn:Ef.
  { intros [= <-]. constructor; cbn; try done; [intros u Hu; by rewrite lookup_insert_ne|by exists (t_op x), (t_op x)| |eauto]. intros j. rewrite lookup_insert_eq. intros [= <-].
    exists (t_op x). split; [done|]. unfold job_for, command_of. by rewrite Ef. }
  set (op := mkBlkOp _ _ _ _ _) in *. set (bytes := u32 _) in *. set (d1 := upd_txn t (set_op op) _).
  assert (forall u, op_of d1 u = if decide (u = t) then Some op else op_of (dev s) u) as Ho by (intros u; unfold d1; rewrite op_set by (by eexists); done).
  destruct (pin_spec op bytes answer) as [(st & -> & Hst)|(pages & -> & E1 & E2 & E3 & E4)]; intros [= <-].
  - assert (forall u, op_of (txn_complete t st d1) u = op_of d1 u) as Hc by (intros u; by apply (op_upd d1 t (set_pmt false))). constructor; try done; [| |simpl; by rewrite Hn|by left].
    + intros u Hu. etransitivity; [apply Hc|]. rewrite Ho. by rewrite decide_False.
    + exists (t_op x), op. split; [done|]. split; [|done]. etransitivity; [apply Hc|]. rewrite Ho. by rewrite decide_True.
  - assert (forall u, op_of (upd_txn t (set_pmt true) d1) u = op_of d1 u) as Hp by (intros u; by apply (op_upd d1 t (set_pmt true))).
    assert (op_of (upd_txn t (set_pmt true) d1) t = Some op) as Hopt by (rewrite Hp, Ho; by rewrite decide_True). constructor; try done.
    + intros u Hu. etransitivity; [apply Hp|]. rewrite Ho. by rewrite decide_False.
    + intros u Hu. simpl. by rewrite lookup_insert_ne.
    + intros u Hu. simpl. by rewrite lookup_insert_ne.
    + by exists (t_op x), op.
    + intros j. simpl. rewrite !lookup_insert_eq. intros [= <-]. exists op. split; [exact Hopt|]. unfold job_for, command_of. cbn [command op].
      rewrite Ef. cbn [j_type j_bytes j_pages j_flush]. rewrite bool_decide_true in Hv by done. cbn [negb orb] in Hv. apply andb_true_iff in Hv as [Hv%Z.eqb_eq Hf]. split_and!; [done|done|done|apply u64_range|].
      exists answer.2. split_and!; [done|done|by apply paddrs_u64|done].
    + right. eexists. right. by split.
Qed.

Lemma pulled_jobs s s' t l : pulled s s' t l -> worker_txn_list_ (dev s) = t :: l -> t ∉ l -> jobs_ok s -> jobs_ok s'.
Proof using All.
  intros P El Hn [J1 J2 J3]. destruct (pu_blocks _ _ _ _ P) as (op & op' & Ho & Ho' & Hb). constructor.
  - intros u j Hj. destruct (decide (u = t)) as [->|Hne]; [by apply P|]. rewrite (pu_ops _ _ _ _ P), (pu_size _ _ _ _ P), (pu_pins _ _ _ _ P) by done. apply J1. by rewrite <- (pu_jobs _ _ _ _ P).
  - intros u. rewrite (pu_list _ _ _ _ P). intros Hu. rewrite (pu_jobs _ _ _ _ P) by (by intros ->). apply J2. rewrite El. by right.
  - intros u. rewrite (pu_empties _ _ _ _ P), J3. destruct (decide (u = t)) as [->|Hne]; [|by rewrite (pu_ops _ _ _ _ P)]. rewrite Ho, Ho'. split; intros (o & [= <-] & E); eexists; (split; [done|congruence]).
Qed.

(** A step of the worker pulls a transaction, or leaves the requests alone. *)
Lemma worker_kept answer s s' :
  worker_step answer s = Done s' -> worker_shutdown_ (dev s') = worker_shutdown_ (dev s) /\ kept s s' \/
  exists t l, worker s = WPull /\ worker_txn_list_ (dev s) = t :: l /\ worker_pull t answer (set_dev (set_lists l (pending_txn_list_ (dev s)) (dev s)) s) = Done s'.
Proof using All.
  unfold worker_step. destruct (worker s) as [| | |t j q|t j q|t j cf|t j cf i|t j cf i|t j [] |t j|t j i| | | |] eqn:Ew; intros E.
  - injection E as <-. left. split; [done|]. by apply kept_same.
  - destruct (worker_txn_list_ (dev s)) as [|t l]; [|by right; eauto 10]. injection E as <-. left. split; [done|]. by apply kept_same.
  - injection E as <-. left. split; [done|]. by apply kept_same.
  - left. destruct (pending_txn_list_ (dev s)); injection E as <-; [unfold after_flush; destruct q; [|destruct (worker_shutdown_ (dev s)) eqn:Es]|]; (split; [done|]; by apply kept_same).
  - left. injection E as <-. destruct (worker_shutdown_ (dev s)) eqn:Es; [unfold after_flush; destruct q; rewrite ?Es|]; (split; [done|]; by apply kept_same).
  - left. destruct (alloc_blk_req _) as [i b]. injection E as <-. destruct (_ <=? i); (split; [done|]; by apply kept_same).
  - left. apply queue_requests in E as (Hr & Hj & _ & Hs & _). split; [done|]. by eapply kept_by.
  - injection E as <-. left. split; [done|]. by apply kept_same.
  - left. unfold free_txn_req, get_txn in E. destruct (txns (dev s) !! t) as [x|]; cbn [mbind exec_bind] in E; [|done]. destruct (t_index x) as [k|]; cbn [mbind exec_bind] in E; [|done]. injection E as <-.
    split; [done|]. eapply kept_by; [|done|done]. apply (complete_requests (set_bitmap (free_blk_req k (blk_req_bitmap_ (dev s))) (dev s))).
  - left. destruct (pending_txn_list_ (dev s)); injection E as <-; (split; [done|]; by apply kept_same).
  - left. injection E as <-. destruct (worker_shutdown_ (dev s)) eqn:Es; (split; [done|]; by apply kept_same).
  - left. destruct (SubmitChain i (vring_ (dev s))) as [r|]; cbn [mbind exec_bind] in E; [|done]. injection E as <-. split; [done|]. by apply kept_same.
  - injection E as <-. left. split; [done|]. by apply kept_same.
  - left. injection E as <-. destruct (complete_all_requests ZX_ERR_IO_NOT_PRESENT (worker_txn_list_ (dev s)) (set_lists [] (pending_txn_list_ (dev s)) (dev s))) as (C1 & C2 & C3).
    pose proof (fd_shutdown _ _ _ _ (complete_all ZX_ERR_IO_NOT_PRESENT (worker_txn_list_ (dev s)) (set_lists [] (pending_txn_list_ (dev s)) (dev s)))) as C4. split; [done|]. constructor; try done. by right.
  - left. destruct (clean_pending _ _) as [d'|] eqn:Ec; cbn [mbind exec_bind] in E; [|done]. injection E as <-. apply clean_requests in Ec as (Hr & _ & Hs). split; [done|]. by eapply kept_by.
  - done.
Qed.

(** What the interrupt thread and the device leave alone; pending transactions are only taken away. *)
Record serves s s' : Prop := {
  sv_kept : kept s s';
  sv_worker : worker s' = worker s;
  sv_shutdown : worker_shutdown_ (dev s') = worker_shutdown_ (dev s);
  sv_pending : exists P : nat -> Prop, exists _ : forall t, Decision (P t), pending_txn_list_ (dev s') = filter P (pending_txn_list_ (dev s))
}.

Lemma serves_same s s' : kept s s' -> worker s' = worker s -> worker_shutdown_ (dev s') = worker_shutdown_ (dev s) -> pending_txn_list_ (dev s') = pending_txn_list_ (dev s) -> serves s s'.
Proof using All.
  intros K E1 E2 E3. constructor; try done. exists (fun _ => True), _. rewrite E3. symmetry. apply list_filter_all. by apply Forall_true.
Qed.

Lemma irq_serves s s' : irq_step s = Done s' -> serves s s'.
Proof using All.
  unfold irq_step. destruct (irq s) as [|cur i|cur i h|cur i t st].
  - intros [= <-]. by apply serves_same; [apply kept_same|..].
  - destruct (used_elem i cur _) as [[id|]|]; cbn [mbind exec_bind]; [|intros [= <-]; by apply serves_same; [apply kept_same|..]|done].
    destruct (free_chain _ _ _) as [r|]; cbn [mbind exec_bind]; [|done]. intros [= <-]. by apply serves_same; [apply kept_same|..].
  - destruct (find_pending h _ _) as [[t x]|]; [|intros [= <-]; by apply serves_same; [apply kept_same|..]].
    destruct (t_index x) as [k|]; [|done]. destruct (blk_res_ (dev s) !! k) as [st|]; [|done]. intros [= <-]. constructor; try done; [by apply kept_same|]. by exists (fun u => u <> t), _.
  - intros [= <-]. apply serves_same; try done. eapply kept_by; [apply complete_requests|done|done].
Qed.

Lemma fetch_serves s s' : host_fetch s = Done s' -> serves s s'.
Proof using All. unfold host_fetch. destruct (_ !! _); [|done]. intros [= <-]. by apply serves_same; [apply kept_same|..]. Qed.

Lemma use_serves k st s s' : host_use k st s = Done s' -> serves s s'.
Proof using All.
  unfold host_use. destruct (h_busy s !! k); [|done]. destruct (walk _ _ _ ≫= last); [|done]. destruct (blk_res_ (dev s) !! _); [|done].
  destruct (used_ring _ !! _); [|done]. destruct (owner s !! _); [|done]. intros [= <-]. by apply serves_same; [apply kept_same|..].
Qed.

Lemma list_nodup w s : VInv w s -> NoDup (worker_txn_list_ (dev s)).
Proof using All.
  intros H. pose proof (waiting_nodup w s H) as Hn. unfold waiting in Hn. by apply NoDup_app in Hn as (Hn & _).
Qed.

Lemma jobs_event w e s s' : VInv w s -> vallowed e s = true -> handle_vevent e s = Done s' -> jobs_ok s -> jobs_ok s'.
Proof using All.
  intros H Ha E J. destruct e as [op| |answer| | |k st]; cbn [vallowed handle_vevent] in *.
  - injection E as <-. by apply jobs_queue.
  - injection E as <-. eapply kept_jobs; [|done]. by apply kept_same.
  - apply andb_true_iff in Ha as [_ Hv]. destruct (worker_kept _ _ _ E) as [[_ K]|(t & l & Ew & El & Ep)]; [by eapply kept_jobs|].
    eapply pulled_jobs; [eapply pull_spec; try done|done| |done]; [apply J; rewrite El; by left|]. pose proof (list_nodup w s H) as Hn. rewrite El in Hn. by apply NoDup_cons in Hn as [Hn _].
  - eapply kept_jobs; [apply (irq_serves _ _ E)|done].
  - eapply kept_jobs; [apply (fetch_serves _ _ E)|done].
  - eapply kept_jobs; [apply (use_serves _ _ _ _ E)|done].
Qed.

(** ** Flushes *)

(** The job the worker is about to queue, and the flush it waits for. *)
Definition queueing (p : WorkerPc) : option Job :=
  match p with WAlloc _ j _ | WChain _ j _ _ | WFree _ j _ _ | WFailed _ j _ | WWait _ j | WSubmit _ j _ => Some j | _ => None end.

Definition flushing (p : WorkerPc) : option nat := match p with WFlush t _ true | WFlushWait t _ true => Some t | _ => None end.

(** A flush is queued when nothing is pending, and while it is pending the worker waits. *)
Definition flush_ok s : Prop := worker_shutdown_ (dev s) = false ->
  (forall j, queueing (worker s) = Some j -> j_flush j = true -> pending_txn_list_ (dev s) = []) /\
  match flushing (worker s) with
  | Some t => pending_txn_list_ (dev s) = [] \/ pending_txn_list_ (dev s) = [t]
  | None => forall u, u ∈ pending_txn_list_ (dev s) -> exists j, jobs s !! u = Some j /\ j_flush j = false
  end.

Lemma serves_flush s s' : serves s s' -> flush_ok s -> flush_ok s'.
Proof using All.
  intros [K%kp_jobs Ew Es (P & HP & Ep)] F Hs. rewrite Es in Hs. destruct (F Hs) as [F1 F2]. rewrite Ew, Ep, K. split.
  - intros j Hj Hf. by rewrite (F1 j Hj Hf).
  - destruct (flushing (worker s)) as [t|].
    + destruct F2 as [->| ->]; [by left|]. rewrite filter_cons. destruct (decide (P t)); [by right|by left].
    + intros u [_ Hu]%list_elem_of_filter. by apply F2.
Qed.

(** A move of the worker that queues nothing. *)
Lemma moves_flush s s' :
  worker_shutdown_ (dev s') = worker_shutdown_ (dev s) -> jobs s' = jobs s -> pending_txn_list_ (dev s') = pending_txn_list_ (dev s) \/ pending_txn_list_ (dev s') = [] ->
  (forall j, worker_shutdown_ (dev s) = false -> queueing (worker s') = Some j -> queueing (worker s) = Some j \/ pending_txn_list_ (dev s) = [] \/ j_flush j = false) ->
  (worker_shutdown_ (dev s) = false -> flushing (worker s') = flushing (worker s) \/ pending_txn_list_ (dev s) = []) -> flush_ok s -> flush_ok s'.
Proof using All.
  intros Es Ej Hp Hq Hf F Hs. rewrite Es in Hs. destruct (F Hs) as [F1 F2]. rewrite Ej.
  assert (pending_txn_list_ (dev s) = [] -> pending_txn_list_ (dev s') = []) as Hn by (intros E; destruct Hp as [->| ->]; done). split.
  - intros j Hj Hfl. apply Hn. destruct (Hq j Hs Hj) as [Hq'|[E|E]]; [by eapply F1|done|congruence].
  - destruct (Hf Hs) as [->|E]; [|rewrite (Hn E); destruct (flushing (worker s')); [by left|by intros u ?%elem_of_nil]].
    destruct Hp as [->| ->]; [done|]. destruct (flushing (worker s)); [by left|by intros u ?%elem_of_nil].
Qed.

Lemma pulled_flush w s s' t l : VInv w s -> worker s = WPull -> worker_txn_list_ (dev s) = t :: l -> pulled s s' t l -> flush_ok s -> flush_ok s'.
Proof using All.
  intros H Ew El [P1 P2 _ _ _ P3 P4 P5 P6 P7 P8] F Hs. rewrite P7 in Hs. destruct (F Hs) as [_ F2]. rewrite Ew in F2. cbn [flushing] in F2. rewrite P6. split.
  - intros j Hj Hf. destruct P8 as [E|(j' & [E|[E Ef]])]; rewrite E in Hj; try done. injection Hj as ->. congruence.
  - replace (flushing (worker s')) with (@None nat) by (destruct P8 as [->|(j' & [->|[-> _]])]; done). intros u Hu. rewrite P2; [by apply F2|]. intros ->.
    apply (hand_apart w s H t); [rewrite El; set_solver|done].
Qed.

Lemma submitted_flush w s s' t j i answer : VInv w s -> worker s = WSubmit t j i -> worker_step answer s = Done s' -> flush_ok s -> flush_ok s'.
Proof using All.
  intros H Ew E F Hs. destruct (vi_ring _ _ H) as (fl & cs & wc & A & U & R). pose proof (ri_wc _ _ _ _ _ _ _ R) as Hw. rewrite Ew in Hw. destruct Hw as [(k & op & Hfi) _].
  unfold worker_step in E. rewrite Ew in E. destruct (SubmitChain i (vring_ (dev s))) as [r|]; cbn [mbind exec_bind] in E; [|done]. injection E as <-.
  change (worker_shutdown_ (dev s) = false) in Hs. destruct (F Hs) as [F1 F2]. rewrite Ew in F1, F2. cbn [flushing queueing] in F1, F2. unfold after_queue. simpl. destruct (j_flush j) eqn:Ef; simpl.
  - split; [done|]. right. by rewrite (F1 j eq_refl Ef).
  - split; [done|]. intros u [Hu|Hu%list_elem_of_singleton]%elem_of_app; [by apply F2|]. subst u. exists j. split; [by apply Hfi|done].
Qed.

Lemma flush_worker w answer s s' : VInv w s -> jobs_ok s -> answer_valid answer s = true -> worker_step answer s = Done s' -> flush_ok s -> flush_ok s'.
Proof using All.
  intros H J Hv E F. pose proof E as E0. destruct (worker_kept _ _ _ E) as [[Es K]|(t & l & Ew & El & Ep)].
  2:{ eapply pulled_flush; [done..| |done]. eapply pull_spec; try done. apply J. rewrite El. by left. }
  pose proof (kp_jobs _ _ K) as Ej. clear K. pose proof (vi_worker _ _ H) as Hw. unfold worker_ok in Hw. unfold worker_step in E.
  destruct (worker s) as [| | |t j q|t j q|t j cf|t j cf i|t j cf i|t j cf|t j|t j i| | | |] eqn:Ew; [| | | | | | | | | |by eapply submitted_flush| | | |].
  - injection E as <-. destruct (worker_shutdown_ (dev s)) eqn:Eh; apply (moves_flush s); rewrite ?Ew; try done; by left.
  - destruct (worker_txn_list_ (dev s)) as [|t l] eqn:El; [injection E as <-; apply (moves_flush s); rewrite ?Ew; try done; by left|].
    eapply pulled_flush; [done..| |done]. eapply pull_spec; try done. apply J. rewrite El. by left.
  - injection E as <-. apply (moves_flush s); rewrite ?Ew; try done; by left.
  - destruct (pending_txn_list_ (dev s)) eqn:Ep; injection E as <-.
    + unfold after_flush in *. destruct q; [|destruct (worker_shutdown_ (dev s)) eqn:Eh]; apply (moves_flush s); rewrite ?Ew, ?Ep; try done; auto.
    + apply (moves_flush s); rewrite ?Ew; try done; by left.
  - injection E as <-. destruct (worker_shutdown_ (dev s)) eqn:Eh; [intros Hs; congruence|]. apply (moves_flush s); rewrite ?Ew; try done; by left.
  - destruct (alloc_blk_req _) as [i b]. injection E as <-. destruct (_ <=? i); apply (moves_flush s); rewrite ?Ew; try done; auto.
  - apply queue_requests in E as (_ & _ & Ep & _ & Hq). apply (moves_flush s); rewrite ?Ew; try done; [by left| |left]; destruct Hq as [->|[h ->]]; auto.
  - injection E as <-. apply (moves_flush s); rewrite ?Ew; try done; auto.
  - destruct cf.
    + destruct Hw as (_ & _ & Hp). destruct (Hp eq_refl) as [Hp' _]. unfold free_txn_req, get_txn in E. destruct (txns (dev s) !! t) as [x|]; cbn [mbind exec_bind] in E; [|done].
      destruct (t_index x) as [k|]; cbn [mbind exec_bind] in E; [|done]. injection E as <-. apply (moves_flush s); rewrite ?Ew; try done; auto.
    + destruct (pending_txn_list_ (dev s)) eqn:Ep; injection E as <-; apply (moves_flush s); rewrite ?Ew; try done; auto.
  - injection E as <-. destruct (worker_shutdown_ (dev s)) eqn:Eh; [intros Hs; congruence|]. apply (moves_flush s); rewrite ?Ew; try done; auto.
  - injection E as <-. apply (moves_flush s); rewrite ?Ew; try done; by left.
  - injection E as <-. pose proof (fd_pending _ _ _ _ (complete_all ZX_ERR_IO_NOT_PRESENT (worker_txn_list_ (dev s)) (set_lists [] (pending_txn_list_ (dev s)) (dev s)))) as C4.
    apply (moves_flush s); rewrite ?Ew; try done; by left.
  - destruct (clean_pending _ _) as [d'|] eqn:Ec; cbn [mbind exec_bind] in E; [|done]. injection E as <-. apply clean_requests in Ec as (_ & Hc & _).
    apply (moves_flush s); rewrite ?Ew; try done; [by right|by left].
  - done.
Qed.

(** ** Runs *)

Lemma flush_event w e s s' : VInv w s -> jobs_ok s -> vallowed e s = true -> handle_vevent e s = Done s' -> flush_ok s -> flush_ok s'.
Proof using All.
  intros H J Ha E F. destruct e as [op| |answer| | |k st]; cbn [vallowed handle_vevent] in *.
  - injection E as <-. unfold queue_op, Virtio_BlockImplQueue. destruct (signal_fields (length (txns (dev s))) op (set_txns (txns (dev s) ++ [mkTxn op None None false]) (dev s))) as (_ & Q2 & Q3 & _ & _).
    intros Hs. cbn [dev set_dev set_empties jobs worker] in *. rewrite Q2. apply F. by rewrite Q3 in Hs.
  - injection E as <-. intros [=].
  - apply andb_true_iff in Ha as [_ Hv]. by eapply flush_worker.
  - eapply serves_flush; [by apply irq_serves|done].
  - eapply serves_flush; [by apply fetch_serves|done].
  - eapply serves_flush; [by eapply use_serves|done].
Qed.
End jobs.
