(* ===== verification/VirtioBlockSafe.v ===== *)
(** * VirtioBlockSafe: what holds in every run of the virtio block device

    The invariant holds from [Init] on; what the clients and the device may rely on follows from it. *)
From Stdlib Require Import ZArith Lia.
From stdpp Require Import prelude gmap.
From S2P Require Import Prelude BlockServer VirtioRing VirtioBlock VirtioChain VirtioBlockRun VirtioBlockSteps VirtioBlockInv VirtioBlockJobs.

Local Open Scope Z_scope.

Section safe.
Context {abi : VirtioAbi} {abi_ok : VirtioAbiOk} {blk : VirtioBlkAbi} {blk_ok : VirtioBlkAbiOk} {block_abi : BlockAbi}.
Implicit Types (s : Sys) (d : BlockDevice) (t : nat) (op : BlkOp) (j : Job).

(** ** The initial state *)

Lemma zeros_some k : 0 <= k < blk_req_count -> (list_to_map ((fun i => (i, 0)) <$> seqZ 0 blk_req_count) : gmap Z Z) !! k = Some 0.
Proof using Type.
  intros Hk. apply elem_of_list_to_map_1.
  - rewrite <- list_fmap_compose. rewrite list_fmap_id. apply NoDup_seqZ.
  - apply list_elem_of_fmap. exists k. split; [done|]. apply elem_of_seqZ. lia.
Qed.

Lemma vinv_initial w fl r cap bs pa :
  ring_ok w fl r -> fl ≡ₚ seqZ 0 (2 ^ w) -> avail_idx r = 0 -> used_idx r = 0 -> last_used r = 0 -> VInv w (Virtio_Init cap bs pa r).
Proof using All.
  intros Hr Hfl E1 E2 E3. pose proof (ro_width _ _ _ Hr) as Hw. unfold Virtio_Init. pose proof zeros_some as Hz. set (zeros := list_to_map _) in *. clearbody zeros.
  constructor; try done; [|by exists []].
  exists fl, [], [], [], []. constructor; simpl; rewrite ?E1, ?E2, ?E3, ?app_nil_r; try done.
  - constructor; [simpl; unfold is_u32; lia|]. exists []. split_and!; try constructor; simpl; rewrite ?Z.bits_0; try done. set_solver.
  - apply entries_nil; lia.
  - apply entries_nil; lia.
  - unfold used_pos. simpl. by rewrite E3.
  - unfold used_pos. simpl. by rewrite E3.
  - intros x i []%elem_of_nil.
  - intros k Hk. exists 0. by apply Hz.
Qed.

Definition vreachable s0 s : Prop := rtc vstep s0 s.

(** The device has been brought up. *)
Definition started (vring_init : Z -> vring) s : Prop :=
  exists max cap bs pa r, ring_size <= max /\ BlockDevice_Init vring_init ZX_OK ZX_OK max cap bs pa r = Done (inr s).

(** A transfer of at most the advertised size that begins at a page needs no more descriptors than the ring has. *)
Lemma advertised_fits d op bytes :
  0 <= bytes <= info_max_transfer (Virtio_BlockImplQuery d) -> 0 <= offset_vmo op -> offset_vmo op mod kPageSize = 0 -> 2 + num_pages op bytes <= ring_size.
Proof using All.
  intros Hb Ho Ha. pose proof page_range as Hp. cbn [info_max_transfer Virtio_BlockImplQuery] in Hb. unfold Virtio_BlockImplQuery in Hb. cbn [info_max_transfer] in Hb.
  assert (bytes <= kPageSize * 126) as Hle.
  { assert (u32 (kPageSize * (ring_size - 2)) <= kPageSize * 126) as Hu by (unfold u32, ring_size; apply Z.mod_le; lia).
    destruct (Z.ltb_spec kMaxMaxXfer (u32 (kPageSize * (ring_size - 2)))); lia. }
  assert (bytes < 2 ^ 32) as Hb32. { pose proof (u32_range (kPageSize * (ring_size - 2))) as [_ Hu]. destruct (Z.ltb_spec kMaxMaxXfer (u32 (kPageSize * (ring_size - 2)))); lia. }
  destruct (num_pages_spec op bytes) as [_ Hn]; [lia|done|]. rewrite Ha in Hn. unfold ring_size.
  assert (num_pages op bytes < 127); [|lia]. apply (Z.mul_lt_mono_pos_r kPageSize); lia.
Qed.

Section runs.
Context (vring_init : Z -> vring) (Hinit : fresh_vring ring_size (vring_init ring_size)).

Lemma started_inv s : started vring_init s -> VInv 7 s.
Proof using All.
  intros (max & cap & bs & pa & r & Hm & E). unfold BlockDevice_Init in E. change ring_size with (2 ^ 7) in *.
  destruct (init_spec vring_init 7 max r ltac:(lia) Hm Hinit) as (r' & fl & Er & Hr & Hfl & E1 & E2 & E3). rewrite Er in E. cbn in E. injection E as <-. by eapply vinv_initial.
Qed.

Lemma started_clean s : started vring_init s -> jobs s = ∅ /\ worker_txn_list_ (dev s) = [] /\ pending_txn_list_ (dev s) = [] /\ worker s = WTop.
Proof using All.
  intros (max & cap & bs & pa & r & _ & E). unfold BlockDevice_Init in E. destruct (Ring_Init _ _ _ _ _) as [[st r']|]; cbn [mbind exec_bind] in E; [|done].
  destruct (negb (bool_decide (st = ZX_OK))); cbn in E; [done|]. by injection E as <-.
Qed.

Lemma started_empty s : started vring_init s -> forall t, t ∈ empties s <-> exists op, op_of (dev s) t = Some op /\ has_blocks op = false.
Proof using All.
  intros (max & cap & bs & pa & r & _ & E). unfold BlockDevice_Init in E. destruct (Ring_Init _ _ _ _ _) as [[st r']|]; cbn [mbind exec_bind] in E; [|done].
  destruct (negb (bool_decide (st = ZX_OK))); cbn in E; [done|]. injection E as <-. intros t. split; [by intros ?%elem_of_nil|]. by intros (op & Ho & _).
Qed.

(** The invariants together. *)
Record SInv s : Prop := {
  si_ring : VInv 7 s;
  si_jobs : jobs_ok s;
  si_flush : flush_ok s
}.

Lemma reach_inv s0 s : started vring_init s0 -> vreachable s0 s -> SInv s.
Proof using All.
  intros H0 Hr. assert (SInv s0) as Hi.
  { destruct (started_clean s0 H0) as (E1 & E2 & E3 & E4). constructor; [by apply started_inv|constructor; [intros t j; by rewrite E1, lookup_empty|intros t; rewrite E2; set_solver|by apply started_empty]|].
    intros _. rewrite E3, E4. split; [done|]. by intros u ?%elem_of_nil. }
  clear H0. induction Hr as [|s0 s1 s [e s0' s1' Ha E] Hr IH]; [done|]. destruct Hi as [I1 I2 I3]. apply IH. destruct (vinv_event 7 s0' I1 e Ha) as (s'' & E' & Hv). rewrite E in E'. injection E' as <-.
  constructor; [done|by apply (jobs_event 7 e s0')|by apply (flush_event 7 e s0')].
Qed.

(** ** What holds in every run *)

(** C13. However the calls of clients, the worker, the interrupt thread, the device and the unbinding of the driver
    interleave, from [Init] on: no step aborts or leaves the arrays (every event that may happen is handled);
    every transaction that is not a read or a write of no blocks is in exactly one place - completed once, in the worker's
    list or hand, pending, about to be completed, or dropped; a read or a write of no blocks is completed twice and is
    nowhere else, at once when it is queued: first as invalid, then as out of range or as a success; each completion reports the device's own answer
    for that transaction, an error of the driver's, or that second success; and a transaction is dropped only after the driver has been unbound. *)
Theorem virtio_transactions s0 s :
  started vring_init s0 -> vreachable s0 s ->
  (forall e, vallowed e s = true -> exists s', handle_vevent e s = Done s') /\
  (exists once twice, once ++ twice ++ waiting s ≡ₚ seq 0 (length (txns (dev s))) /\ (completed (dev s)).*1 ≡ₚ once ++ twice ++ twice /\
    (forall t, t ∈ twice <-> exists op, op_of (dev s) t = Some op /\ has_blocks op = false) /\
    Forall (fun x => from_device s x \/ x.2 ∈ local_errors \/ x.2 = ZX_OK /\ x.1 ∈ twice) (completed (dev s))) /\
  (forall op, has_blocks op = false -> let t := length (txns (dev s)) in
    completed (dev (queue_op op s)) = completed (dev s) ++
      [(t, ZX_ERR_INVALID_ARGS); (t, if capacity (dev s) <=? offset_dev op then ZX_ERR_OUT_OF_RANGE else ZX_OK)]) /\
  (lost s <> [] -> worker_shutdown_ (dev s) = true).
Proof using All.
  intros H0 Hr. destruct (reach_inv s0 s H0 Hr) as [I1 I2 _]. split_and!.
  - intros e Ha. destruct (vinv_event 7 s I1 e Ha) as (s' & E & _). by exists s'.
  - destruct (vi_places _ _ I1) as (once & E1 & E2). exists once, (empties s). split_and!; [done|done|apply I2|apply I1].
  - intros op Hb. apply (empty_completed op (dev s) Hb).
  - apply I1.
Qed.

(** C33. In every run each of the 128 descriptors of the ring is on the free list, in one chain of a submitted transaction, or
    in the chain the worker is about to submit, and in no two of them, so that none is ever lost; the free list is linked and counted right; as
    long as the worker runs the submitted chains are those of the pending transactions (and of the one whose chain has just been
    freed); the device holds exactly the submitted chains, each waiting in the available ring to be fetched, being worked
    on, or in the used ring and not yet seen by the driver; and the bits of the request bitmap are the slots of the
    pending transactions and of the worker. *)
Theorem virtio_descriptors s0 s :
  started vring_init s0 -> vreachable s0 s ->
  exists fl cs wc A U, ring_ok 7 fl (vring_ (dev s)) /\ fl ++ concat cs.*2 ++ wc ≡ₚ seqZ 0 ring_size /\ Forall (submitted s) cs /\
    match worker s with WSubmit t j i => (exists k op, filled s t wc j k op) /\ head wc = Some i | _ => wc = [] end /\ pending_ok s cs /\
    A ++ h_busy s ++ U ≡ₚ heads cs /\
    entries 7 (avail_ring (vring_ (dev s))) (h_avail s) A /\ avail_idx (vring_ (dev s)) = u16 (h_avail s + Z.of_nat (length A)) /\
    entries 7 (used_ring (vring_ (dev s))) (used_pos s) U /\ used_idx (vring_ (dev s)) = u16 (used_pos s + Z.of_nat (length U)) /\
    slots_ok (dev s) (worker_slots (worker s) (dev s)).
Proof using All. intros H0 Hr. destruct (reach_inv s0 s H0 Hr) as [[(fl & cs & wc & A & U & R) _ _ _ _ _] _ _]. exists fl, cs, wc, A, U. destruct R. done. Qed.

(** What the chain [i] tells the device. *)
Definition chain_of s (i : Z) : option (list (Z * Z * bool)) := fmap (M := list) seg_of <$> walk (Z.to_nat ring_size) i (desc (vring_ (dev s))).

Lemma held_submitted s i : VInv 7 s -> i ∈ h_busy s -> exists t c j k op, filled s t c j k op /\ owner s !! i = Some t /\ head c = Some i /\ (length c <= Z.to_nat ring_size)%nat.
Proof using All.
  intros [(fl & cs & wc & A & U & R) _ _ _ _ _] Hi. pose proof (part_length _ _ _ _ _ _ _ R) as Hl.
  assert (i ∈ heads cs) as Hh by (rewrite <- (ri_heads _ _ _ _ _ _ _ R); set_solver). unfold heads in Hh. apply list_elem_of_omap in Hh as ([t c] & Hx & Hc).
  pose proof (ri_cs _ _ _ _ _ _ _ R) as Hs. rewrite Forall_forall in Hs. destruct (Hs _ Hx) as [(j & k & op & F) Ho]. exists t, c, j, k, op. split; [done|]. split; [by apply Ho|]. split; [done|].
  apply list_elem_of_split in Hx as (l1 & l2 & ->). rewrite fmap_app, concat_app, length_app in Hl. cbn [fmap list_fmap concat snd] in Hl. rewrite length_app in Hl. change ring_size with (2 ^ 7). lia.
Qed.

(** The descriptors of the data for a request whose offset in the VMO is in bytes, of [bytes] bytes; [q], [pages]: what was
    pinned and where. *)
Record transfer_of op (bytes : Z) (q : PinRequest) (pages : list Z) (data : list (Z * Z * bool)) : Prop := {
  tr_vmo : pin_vmo q = op_vmo op;
  tr_size : pin_size q = Z.of_nat (length pages) * kPageSize;
  tr_covers : offset_vmo op mod kPageSize + bytes <= pin_size q;
  tr_offset : offset_vmo op < 2 ^ 32 -> aligned_offset q = offset_vmo op - offset_vmo op mod kPageSize;
  tr_count : length data = length pages;
  tr_bytes : seg_bytes data.*1 = bytes;
  tr_write : Forall (fun e => e.2 = negb (command_of op =? BLOCK_OP_WRITE)) data;
  tr_pages : offset_vmo op mod kPageSize = 0 -> data.*1 = whole_pages bytes pages
}.

Lemma data_fst type off bytes pages : (data_segs type off bytes pages).*1 = page_segs true off bytes pages.
Proof using Type. unfold data_segs. rewrite <- list_fmap_compose. by rewrite list_fmap_id. Qed.

Lemma aligned_offset_small op bytes : 0 <= offset_vmo op < 2 ^ 32 -> aligned_offset (pin_request op bytes) = offset_vmo op - offset_vmo op mod kPageSize.
Proof using All.
  intros Ho. cbn [aligned_offset pin_request]. rewrite land_u32_not by (unfold is_u32; lia). rewrite <- page_mask.
  pose proof (Z.sub_nocarry_ldiff (offset_vmo op) (Z.land (offset_vmo op) kPageMask)) as E. rewrite E.
  - apply Z.bits_inj'. intros n Hn. rewrite !Z.ldiff_spec, Z.land_spec. by destruct (Z.testbit (offset_vmo op) n), (Z.testbit kPageMask n).
  - apply Z.bits_inj'. intros n Hn. rewrite Z.ldiff_spec, Z.land_spec, Z.bits_0. by destruct (Z.testbit (offset_vmo op) n), (Z.testbit kPageMask n).
Qed.

Lemma transfer_described bs op pin j :
  job_for bs op pin j -> (command_of op =? BLOCK_OP_FLUSH) = false ->
  exists q pages, pin = Some (q, pages) /\ transfer_of op (u32 (length_blocks op * bs)) q pages (data_segs (j_type j) (offset_vmo op) (j_bytes j) (j_pages j)).
Proof using All.
  intros Hj Hf. unfold job_for in Hj. rewrite Hf in Hj. destruct Hj as (Et & Eb & _ & Ho & pages & Ep & El & Hp & Es). exists (pin_request op (j_bytes j)), pages. split; [done|]. rewrite <- Eb.
  pose proof (u32_range (length_blocks op * bs)) as Hb. rewrite <- Eb in Hb. unfold is_u32 in Hb. destruct (num_pages_spec op (j_bytes j) Hb (proj1 Ho)) as [Hn1 Hn2]. pose proof page_range as Hr.
  assert (pin_size (pin_request op (j_bytes j)) = Z.of_nat (length pages) * kPageSize) as Hsz.
  { rewrite El. by apply pin_size_pages; [|apply Ho]. }
  rewrite <- El in Hn1, Hn2. constructor; rewrite ?data_fst; try done.
  - lia.
  - intros Hs. apply aligned_offset_small. split; [apply Ho|done].
  - unfold data_segs. by rewrite length_fmap, page_segs_length, Es, page_starts_length.
  - pose proof (page_segs_sum true (offset_vmo op) (j_bytes j) (j_pages j)) as Hs. rewrite page_rest_zero in Hs; [lia|lia|]. rewrite Es, page_starts_length. lia.
  - unfold data_segs. apply Forall_fmap, Forall_true. intros e. simpl. destruct types_differ as (D1 & _). rewrite Et. destruct (_ =? BLOCK_OP_WRITE); [apply Z.eqb_neq; congruence|apply Z.eqb_refl].
  - intros Hz. rewrite Es, page_starts_aligned by done. apply page_segs_whole; try done; [lia|]. rewrite Hz in Hn2. lia.
Qed.


(** C15. A flush is a barrier: as long as the driver has not been unbound, while a flush is with the device no other
    transaction is - all that were submitted before have been completed, and nothing is submitted until the flush
    itself is complete. *)
Theorem virtio_flush_barrier s0 s t op :
  started vring_init s0 -> vreachable s0 s -> worker_shutdown_ (dev s) = false -> t ∈ pending_txn_list_ (dev s) -> op_of (dev s) t = Some op -> command_of op = BLOCK_OP_FLUSH ->
  pending_txn_list_ (dev s) = [t].
Proof using All.
  intros H0 Hr Hs Ht Ho Hc. destruct (reach_inv s0 s H0 Hr) as [I1 I2 I3]. destruct (I3 Hs) as [_ F2]. destruct (flushing (worker s)) as [u|].
  { destruct F2 as [E|E]; rewrite E in *; [by apply elem_of_nil in Ht|]. by apply list_elem_of_singleton in Ht as ->. }
  destruct (F2 t Ht) as (j & Hj & Hf). destruct (jo_job _ I2 t j Hj) as (op' & Ho' & Hjf). rewrite Ho in Ho'. injection Ho' as <-.
  unfold job_for in Hjf. rewrite Hc, Z.eqb_refl in Hjf. by subst j.
Qed.
End runs.
End safe.
