(* ===== verification/VirtioExample.v ===== *)
(** * VirtioExample: runs of the virtio block device

    A concrete device: the statements about all runs apply to it, and some of its runs show what the driver does not do. *)
From Stdlib Require Import ZArith Lia.
From stdpp Require Import prelude gmap.
From S2P Require Import Prelude BlockServer VirtioRing VirtioBlock VirtioChain VirtioBlockRun VirtioBlockSteps VirtioBlockInv VirtioBlockJobs VirtioBlockSafe.

Local Open Scope Z_scope.

(** ** Running events *)

Section events.
Context {abi : VirtioAbi} {abi_ok : VirtioAbiOk} {blk : VirtioBlkAbi} {blk_ok : VirtioBlkAbiOk} {block_abi : BlockAbi}.

Fixpoint vrun (es : list VEvent) (s : Sys) : option Sys :=
  match es with
  | [] => Some s
  | e :: es => if vallowed e s then match handle_vevent e s with Done s => vrun es s | Panic => None end else None
  end.

Lemma vrun_reach es s s' : vrun es s = Some s' -> vreachable s s'.
Proof using Type.
  revert s. induction es as [|e es IH]; intros s; cbn [vrun]; [intros [= <-]; apply rtc_refl|]. destruct (vallowed e s) eqn:Ha; [|done]. destruct (handle_vevent e s) as [s1|] eqn:E; [|done].
  intros H%IH. eapply rtc_l; [|exact H]. by eapply vstep_event.
Qed.
End events.

Definition zeroed {A} (x : A) (count : Z) : gmap Z A := list_to_map ((fun i => (i, x)) <$> seqZ 0 count).

Lemma zeroed_some {A} (x : A) count i : is_Some (zeroed x count !! i) <-> 0 <= i < count.
Proof.
  unfold zeroed. split.
  - intros [y Hy]. apply elem_of_list_to_map_2 in Hy. apply list_elem_of_fmap in Hy as (k & [= -> ->] & Hk). apply elem_of_seqZ in Hk. lia.
  - intros Hi. exists x. apply elem_of_list_to_map_1; [rewrite <- list_fmap_compose, list_fmap_id; apply NoDup_seqZ|]. apply list_elem_of_fmap. exists i. split; [done|]. apply elem_of_seqZ. lia.
Qed.

Module VirtioRuns.
#[local] Instance virtio_abi : VirtioAbi := {| VRING_DESC_F_NEXT := 1; VRING_DESC_F_WRITE := 2; kPageSize := 4096 |}.

#[local] Instance virtio_abi_ok : VirtioAbiOk.
Proof. constructor; [by exists 0|by exists 1|done|by exists 12]. Qed.

#[local] Instance virtio_blk_abi : VirtioBlkAbi := {|
  VIRTIO_BLK_T_IN := 0; VIRTIO_BLK_T_OUT := 1; VIRTIO_BLK_T_FLUSH := 4; VIRTIO_BLK_S_OK := 0; VIRTIO_BLK_S_IOERR := 1; VIRTIO_BLK_S_UNSUPP := 2; blk_req_size := 16;
  zx_roundup := fun a b => (a + b - 1) / b * b
|}.

#[local] Instance virtio_blk_abi_ok : VirtioBlkAbiOk.
Proof. constructor; [split_and!; discriminate|done]. Qed.

#[local] Instance virtio_block_abi : BlockAbi := {|
  BLOCK_OP_READ := 1; BLOCK_OP_WRITE := 2; BLOCK_OP_FLUSH := 3; BLOCK_OP_TRIM := 4; BLOCK_OP_CLOSE_VMO := 5; BLOCK_OP_MASK := 255;
  BLOCK_GROUP_ITEM := 256; BLOCK_GROUP_LAST := 512; MAX_TXN_GROUP_COUNT := 8; BLOCK_VMOID_INVALID := 0; round_up32 := fun a g => (a + g - 1) / g * g
|}.

(** A ring in zeroed memory; a disk of 2^24 blocks of 512 bytes. *)
Definition zero_ring (count : Z) : vring := mkVring count (count - 1) 0 0 0 (zeroed (mkDesc 0 0 0 0) count) 0 (zeroed 0 count) 0 (zeroed 0 count).

Lemma zero_ring_fresh : fresh_vring ring_size (zero_ring ring_size).
Proof. constructor; try done; intros i; apply zeroed_some. Qed.

Definition disk : Sys :=
  match BlockDevice_Init zero_ring ZX_OK ZX_OK 1024 (2 ^ 24) 0 0x10000 (zero_ring 0) with Done (inr s) => s | _ => Virtio_Init 0 0 0 (zero_ring 0) end.

Lemma disk_started : started zero_ring disk.
Proof. exists 1024, (2 ^ 24), 0, 0x10000, (zero_ring 0). split; [done|]. vm_compute. reflexivity. Qed.

Definition after (es : list VEvent) : Sys := default disk (vrun es disk).

Lemma after_reach es : (if vrun es disk is Some _ then true else false) = true -> vreachable disk (after es).
Proof. unfold after. destruct (vrun es disk) as [s|] eqn:E; [|done]. intros _. by eapply vrun_reach. Qed.

Definition read (length off_vmo off_dev : Z) : BlkOp := mkBlkOp 1 7 length off_dev off_vmo.
Definition write (length off_vmo off_dev : Z) : BlkOp := mkBlkOp 2 7 length off_dev off_vmo.
Definition flush : BlkOp := mkBlkOp 3 0 0 0 0.

(** The worker, when it pins nothing. *)
Definition go : VEvent := EWorker (ZX_OK, []).

(** A write of two pages, and a flush behind it, which the device answers. *)
Definition write_flush : list VEvent :=
  [EQueue (write 16 0 100); EQueue flush; go; EWorker (ZX_OK, [0x4000; 0x9000]); go; go; go; EFetch; go; go; go].

Definition flush_pending : list VEvent := write_flush ++ [EUse 0 0; EIrq; EIrq; EIrq; EIrq; EIrq; go; go; go; go; go; EFetch].

(** The same, and then a read of no blocks. *)
Definition empty_read : list VEvent := flush_pending ++ [EQueue (read 0 0 0)].

Lemma virtio_transactions_witness :
  started zero_ring disk /\ vreachable disk (after empty_read) /\ completed (dev (after empty_read)) = [(0%nat, ZX_OK); (2%nat, ZX_ERR_INVALID_ARGS); (2%nat, ZX_OK)] /\
  exists once twice, once ++ twice ++ [1%nat] ≡ₚ [0%nat; 1%nat; 2%nat] /\ [0%nat; 2%nat; 2%nat] ≡ₚ once ++ twice ++ twice.
Proof.
  split; [apply disk_started|]. split; [apply after_reach; vm_compute; reflexivity|]. split; [vm_compute; reflexivity|].
  destruct (virtio_transactions zero_ring zero_ring_fresh disk (after empty_read)) as (_ & (once & twice & H1 & H2 & _) & _); [apply disk_started|apply after_reach; vm_compute; reflexivity|].
  exists once, twice. split.
  - replace [1%nat] with (waiting (after empty_read)) by (vm_compute; reflexivity). exact H1.
  - replace [0%nat; 2%nat; 2%nat] with (completed (dev (after empty_read))).*1 by (vm_compute; reflexivity). exact H2.
Defined.

Lemma virtio_descriptors_witness :
  h_busy (after flush_pending) = [126] /\ exists fl cs A U, fl ++ concat cs.*2 ≡ₚ seqZ 0 ring_size /\ A ++ [126] ++ U ≡ₚ heads cs.
Proof.
  split; [vm_compute; reflexivity|].
  destruct (virtio_descriptors zero_ring zero_ring_fresh disk (after flush_pending)) as (fl & cs & wc & A & U & _ & H1 & _ & H2 & _ & H3 & _); [apply disk_started|apply after_reach; vm_compute; reflexivity|].
  exists fl, cs, A, U. split; [|exact H3].
  assert (wc = []) as -> by (revert H2; replace (worker (after flush_pending)) with (WFlush 1 (mkJob VIRTIO_BLK_T_FLUSH 0 [] true) true) by (vm_compute; reflexivity); exact (fun H => H)).
  rewrite app_nil_r in H1. exact H1.
Defined.


Lemma virtio_flush_barrier_witness : pending_txn_list_ (dev (after flush_pending)) = [1%nat].
Proof.
  apply (virtio_flush_barrier zero_ring zero_ring_fresh disk (after flush_pending) 1 flush); [apply disk_started|apply after_reach|..]; try (vm_compute; reflexivity).
  replace (pending_txn_list_ (dev (after flush_pending))) with [1%nat] by (vm_compute; reflexivity). by left.
Defined.

(** ** What the driver does not do *)

Definition unaligned_read : list VEvent := [EQueue (read 1 1 0); go; EWorker (ZX_OK, [0x4000]); go; go; go; EFetch].
Definition huge_read : list VEvent := [EQueue (read (2 ^ 23) 0 0); go; go; go; go; go; EFetch; EUse 0 0; EIrq; EIrq; EIrq; EIrq; EIrq].
Definition unbound_flush : list VEvent := write_flush ++ [EUnbind; go; go; go; go].
Definition largest_read : list VEvent := [EQueue (read 1008 1 0); go; EWorker (ZX_OK, seqZ 0x100000 127); go; go; go; go; go; go; go; go].

(** What runs of the driver show. A read of no blocks is completed twice, first as invalid and then as a success.
    A read to the second block of a page is told to the device 512 bytes too far, because the offset in the page is
    added both when the page is pinned and when it is described. The offset at which a VMO is pinned loses all above
    4 GiB. A read of 2^23 blocks of 512 bytes is a success although no byte is transferred, because the number of
    bytes is computed in 32 bits. A flush that waits for others when the driver is unbound is never completed,
    although the worker has ended. A read of the advertised size fails for want of descriptors when it does not begin
    at a page. When the last of the 32 slots is taken none can be allocated, though all the others are free. *)
Theorem virtio_faults :
  completed (Virtio_BlockImplQueue (read 0 0 0) (dev disk)) = [(0%nat, ZX_ERR_INVALID_ARGS); (0%nat, ZX_OK)] /\
  chain_of (after unaligned_read) 125 = Some [(0x10000, 16, false); (0x4000 + 2 * 512, 512, true); (0x10200, 1, true)] /\
  aligned_offset (pin_request (read 1 (2 ^ 32 + 4096) 0) 512) = 4096 /\
  chain_of (after (take 7 huge_read)) 126 = Some [(0x10000, 16, false); (0x10200, 1, true)] /\ completed (dev (after huge_read)) = [(0%nat, ZX_OK)] /\
  worker (after unbound_flush) = WDone /\ lost (after unbound_flush) = [1%nat] /\ completed (dev (after unbound_flush)) = [(0%nat, ZX_ERR_IO_NOT_PRESENT)] /\
  info_max_transfer (Virtio_BlockImplQuery (dev disk)) = 1008 * 512 /\ completed (dev (after largest_read)) = [(0%nat, ZX_ERR_NO_RESOURCES)] /\
  (alloc_blk_req (2 ^ 31)).1 = blk_req_count.
Proof. vm_compute. split_and!; reflexivity. Qed.
End VirtioRuns.
