(* ===== verification/NandCore.v ===== *)
(** * NandCore: the driver of raw NAND

    Model of [src/devices/nand/drivers/nand/nand.cc] and [read_cache.cc], and of the queue of
    [src/devices/lib/dev-operation/include/lib/operation/operation.h]. Operations on pages are queued by clients and
    done by a worker thread, page by page; reads that came close to failing are kept in a cache. The controller below is
    a class: it reads and writes a page with its spare bytes, and erases a block. *)
From Stdlib Require Import ZArith Lia.
From stdpp Require Import prelude.
From S2P Require Import Prelude.

Local Open Scope Z_scope.

(** ** The cache *)

Record CacheEntry := mkEntry {
  e_page : Z;
  e_data : list Z;
  e_spare : list Z
}.

(** The oldest entry first. *)
Record ReadCache := mkCache {
  max_entries_ : Z;
  fifo_ : list CacheEntry
}.

Definition in_purged (first_page length : Z) (e : CacheEntry) : bool := (first_page <=? e_page e) && (e_page e <=? u32 (first_page + u32 (length - 1))).

Definition PurgeRange (first_page length : Z) (c : ReadCache) : ReadCache :=
  mkCache (max_entries_ c) (filter (fun e => in_purged first_page length e = false) (fifo_ c)).

Definition Cache_Insert (page : Z) (data spare : list Z) (c : ReadCache) : ReadCache :=
  let l := fifo_ (PurgeRange page 1 c) in
  mkCache (max_entries_ c) ((if max_entries_ c <=? Z.of_nat (length l) then tail l else l) ++ [mkEntry page data spare]).

Fixpoint get_page (page : Z) (l : list CacheEntry) : option (list Z * list Z) :=
  match l with
  | [] => None
  | e :: l => if e_page e =? page then Some (e_data e, e_spare e) else get_page page l
  end.

Definition GetPage (page : Z) (c : ReadCache) : option (list Z * list Z) := get_page page (fifo_ c).

(** ** The queue of operations *)

(** The front of the list first. *)
Definition Queue : Type := list nat.
Definition queue_push (t : nat) (q : Queue) : Queue := t :: q.
Definition queue_pop (q : Queue) : option (nat * Queue) := match reverse q with [] => None | t :: l => Some (t, reverse l) end.

(** The operations are destroyed, which asserts that each has been completed. *)
Definition queue_Release (q : Queue) : exec Queue := match q with [] => Done [] | _ => Panic end.

(** ** The controller *)

(** A read tells what it leaves in the two buffers, and the number of bits that were corrected; it may be asked for the spare
    bytes only. *)
Class RawNand (R : Type) := {
  ReadPageHwecc : bool -> Z -> R -> zx_status * list Z * list Z * Z * R;
  WritePageHwecc : option (list Z) -> option (list Z) -> Z -> R -> zx_status * R;
  EraseBlock : Z -> R -> zx_status * R
}.

(** [nand_info_t]. *)
Record RawInfo := mkRawInfo {
  r_page_size : Z;
  r_oob_size : Z;
  r_pages_per_block : Z;
  r_num_blocks : Z;
  r_ecc_bits : Z
}.

(** ** Operations *)

(** The part of [nand_operation_t] for reads and writes; 0 is ZX_HANDLE_INVALID. *)
Record NandRw := mkNandRw {
  data_vmo : Z;
  oob_vmo : Z;
  n_length : Z;
  offset_nand : Z;
  offset_data_vmo : Z;
  offset_oob_vmo : Z
}.

Inductive NandOp :=
  | NandRead (rw : NandRw)
  | NandWrite (rw : NandRw)
  | NandErase (first_block num : Z)
  | NandOther.

(** The contents of VMOs, by handle and byte. *)
Definition Memory : Type := Z -> Z -> Z.
Definition mem_put (v a : Z) (l : list Z) (m : Memory) : Memory :=
  fun u x => if (u =? v) && (a <=? x) then match l !! Z.to_nat (x - a) with Some b => b | None => m u x end else m u x.
Definition mem_get (v a n : Z) (m : Memory) : list Z := (fun k => m v (a + k)) <$> seqZ 0 n.

Section device.
Context {R : Type} `{!RawNand R}.

(** [oob_buffer_] is always filled before it is used, and is no part of the state. *)
Record NandDevice := mkNand {
  nd_info : RawInfo;
  dangerous_reads_cache_ : ReadCache;
  nd_raw : R;
  nd_mem : Memory
}.

Definition set_cache (c : ReadCache) (d : NandDevice) : NandDevice := mkNand (nd_info d) c (nd_raw d) (nd_mem d).
Definition set_raw (r : R) (d : NandDevice) : NandDevice := mkNand (nd_info d) (dangerous_reads_cache_ d) r (nd_mem d).
Definition set_mem (m : Memory) (d : NandDevice) : NandDevice := mkNand (nd_info d) (dangerous_reads_cache_ d) (nd_raw d) m.

Definition kNandReadRetries : nat := 10.

Definition num_nand_pages_ (i : RawInfo) : Z := u32 (r_num_blocks i * r_pages_per_block i).

Definition Nand_Init (i : RawInfo) (r : R) (m : Memory) : NandDevice := mkNand i (mkCache 8 []) r m.

(** The loop of [ReadPage]: the last status, whether a read has failed for ECC, the buffers and the bits. *)
Fixpoint read_retry (retries : nat) (want : bool) (page : Z) (status : zx_status) (ecc_failure : bool) (data oob : list Z) (bits : Z) (r : R) :
    zx_status * bool * list Z * list Z * Z * R :=
  match retries with
  | O => (status, ecc_failure, data, oob, bits, r)
  | S retries =>
      if bool_decide (status = ZX_OK) then (status, ecc_failure, data, oob, bits, r)
      else
        let '(status, data, oob, bits, r) := ReadPageHwecc want page r in
        read_retry retries want page status (ecc_failure || bool_decide (status = ZX_ERR_IO_DATA_INTEGRITY)) data oob bits r
  end.

(** What is left in the buffers, and the corrected bits. *)
Definition ReadPage (want : bool) (page : Z) (d : NandDevice) : zx_status * list Z * list Z * Z * NandDevice :=
  match (if want then GetPage page (dangerous_reads_cache_ d) else None) with
  | Some (data, oob) => (ZX_OK, data, oob, 0, d)
  | None =>
      let '(status, ecc_failure, data, oob, bits, r) := read_retry kNandReadRetries want page ZX_ERR_INTERNAL false [] [] 0 (nd_raw d) in
      let bits := if ecc_failure then r_ecc_bits (nd_info d) else bits in
      let d := set_raw r d in
      (status, data, oob, bits,
       if bool_decide (status = ZX_OK) && want && (r_ecc_bits (nd_info d) / 2 <? bits) then set_cache (Cache_Insert page data oob (dangerous_reads_cache_ d)) d else d)
  end.

(** A mapped VMO: the byte [vaddr] points to, and how many bytes follow in the mapping. *)
Record Mapping := mkMapping {
  mp_vmo : Z;
  mp_start : Z;
  mp_room : Z
}.

Definition map_vmo (vmo offset length unit : Z) (answer : zx_status) (i : RawInfo) : zx_status + option Mapping :=
  if vmo =? 0 then inr None
  else if negb (bool_decide (answer = ZX_OK)) then inl answer
  else inr (Some (mkMapping vmo (u64 (offset * r_page_size i)) (u32 (length * unit)))).

(** [answers]: what the two calls of [Map] return. *)
Definition MapVmos (rw : NandRw) (answers : zx_status * zx_status) (i : RawInfo) : zx_status + option Mapping * option Mapping :=
  match map_vmo (data_vmo rw) (offset_data_vmo rw) (n_length rw) (r_page_size i) answers.1 i with
  | inl status => inl status
  | inr data =>
      match map_vmo (oob_vmo rw) (offset_oob_vmo rw) (n_length rw) (r_oob_size i) answers.2 i with
      | inl status => inl status
      | inr oob => inr (data, oob)
      end
  end.

(** Bytes to a mapped VMO, and from it; an access past the end of the mapping is a [Panic]. *)
Definition map_store (mp : option Mapping) (at_ unit : Z) (l : list Z) (m : Memory) : exec Memory :=
  match mp with
  | None => Done m
  | Some mp => if mp_room mp <? at_ + unit then Panic else Done (mem_put (mp_vmo mp) (mp_start mp + at_) l m)
  end.

Definition map_load (mp : option Mapping) (at_ unit : Z) (m : Memory) : exec (option (list Z)) :=
  match mp with
  | None => Done None
  | Some mp => if mp_room mp <? at_ + unit then Panic else Done (Some (mem_get (mp_vmo mp) (mp_start mp + at_) unit m))
  end.

(** The loop of [ReadOp] from page [i] on: the status, the most bits that were corrected. *)
Fixpoint read_pages (count : nat) (i : Z) (rw : NandRw) (data oob : option Mapping) (status : zx_status) (max_bits : Z) (d : NandDevice) : exec (zx_status * Z * NandDevice) :=
  match count with
  | O => Done (status, max_bits, d)
  | S count =>
      let ps := r_page_size (nd_info d) in
      let os := r_oob_size (nd_info d) in
      let '(status, bd, bo, bits, d) := ReadPage (bool_decide (data <> None)) (u32 (offset_nand rw + i)) d in
      m ← map_store data (i * ps) ps bd (nd_mem d);
      m ← map_store oob (i * os) os bo m;
      if bool_decide (status = ZX_OK) then read_pages count (i + 1) rw data oob status (Z.max max_bits bits) (set_mem m d)
      else Done (status, max_bits, set_mem m d)
  end.

(** The status, [corrected_bit_flips] if it is set. *)
Definition ReadOp (rw : NandRw) (answers : zx_status * zx_status) (d : NandDevice) : exec (zx_status * option Z * NandDevice) :=
  match MapVmos rw answers (nd_info d) with
  | inl status => Done (status, None, d)
  | inr (data, oob) =>
      '(status, bits, d) ← read_pages (Z.to_nat (n_length rw)) 0 rw data oob ZX_OK 0 d;
      Done (status, Some bits, d)
  end.

Fixpoint write_pages (count : nat) (i : Z) (rw : NandRw) (data oob : option Mapping) (status : zx_status) (d : NandDevice) : exec (zx_status * NandDevice) :=
  match count with
  | O => Done (status, d)
  | S count =>
      let ps := r_page_size (nd_info d) in
      let os := r_oob_size (nd_info d) in
      bd ← map_load data (i * ps) ps (nd_mem d);
      bo ← map_load oob (i * os) os (nd_mem d);
      let '(status, r) := WritePageHwecc bd bo (u32 (offset_nand rw + i)) (nd_raw d) in
      if bool_decide (status = ZX_OK) then write_pages count (i + 1) rw data oob status (set_raw r d) else Done (status, set_raw r d)
  end.

Definition WriteOp (rw : NandRw) (answers : zx_status * zx_status) (d : NandDevice) : exec (zx_status * NandDevice) :=
  match MapVmos rw answers (nd_info d) with
  | inl status => Done (status, d)
  | inr (data, oob) => write_pages (Z.to_nat (n_length rw)) 0 rw data oob ZX_OK d
  end.

Fixpoint erase_blocks (count : nat) (i first : Z) (d : NandDevice) : zx_status * NandDevice :=
  match count with
  | O => (ZX_OK, d)
  | S count =>
      let page := u32 (u32 (first + i) * r_pages_per_block (nd_info d)) in
      let d := set_cache (PurgeRange page (r_pages_per_block (nd_info d)) (dangerous_reads_cache_ d)) d in
      let '(status, r) := EraseBlock page (nd_raw d) in
      let d := set_raw r d in
      if bool_decide (status = ZX_OK) then erase_blocks count (i + 1) first d else (status, d)
  end.

Definition EraseOp (first num : Z) (d : NandDevice) : zx_status * NandDevice := erase_blocks (Z.to_nat num) 0 first d.

Definition Nand_DoIo (op : NandOp) (answers : zx_status * zx_status) (d : NandDevice) : exec (zx_status * NandDevice) :=
  match op with
  | NandRead rw => '(status, _, d) ← ReadOp rw answers d; Done (status, d)
  | NandWrite rw => WriteOp rw answers d
  | NandErase first num => Done (EraseOp first num d)
  | NandOther => Done (ZX_ERR_NOT_SUPPORTED, d)
  end.

(** ** Clients and the worker *)

(** The status with which [NandQueue] refuses an operation. *)
Definition nand_refuses (op : NandOp) (i : RawInfo) : option zx_status :=
  match op with
  | NandRead rw | NandWrite rw =>
      if (num_nand_pages_ i <=? offset_nand rw) || (n_length rw =? 0) || (num_nand_pages_ i - offset_nand rw <? n_length rw) then Some ZX_ERR_OUT_OF_RANGE
      else if (data_vmo rw =? 0) && (oob_vmo rw =? 0) then Some ZX_ERR_BAD_HANDLE
      else None
  | NandErase first num => if (num =? 0) || (r_num_blocks i <=? first) || (r_num_blocks i - first <? num) then Some ZX_ERR_OUT_OF_RANGE else None
  | NandOther => Some ZX_ERR_NOT_SUPPORTED
  end.

(** Where [WorkerThread] is: at the top of its loop, doing a batch of operations, or gone. *)
Inductive NandWorker :=
  | NTop
  | NBatch (q : Queue)
  | NGone.

(** [nq_done] is a record of the operations the worker has done. *)
Record NandSys := mkNandSys {
  nq_dev : NandDevice;
  nq_ops : list NandOp;
  txn_queue_ : Queue;
  nq_worker : NandWorker;
  shutdown_ : bool;
  nq_released : bool;
  nq_completed : list (nat * zx_status);
  nq_done : list nat
}.

(** A client queues an operation, with a callback. *)
Definition NandQueue (op : NandOp) (s : NandSys) : NandSys :=
  let t := length (nq_ops s) in
  let finish st := mkNandSys (nq_dev s) (nq_ops s ++ [op]) (txn_queue_ s) (nq_worker s) (shutdown_ s) (nq_released s) (nq_completed s ++ [(t, st)]) (nq_done s) in
  match nand_refuses op (nd_info (nq_dev s)) with
  | Some st => finish st
  | None =>
      if shutdown_ s then finish ZX_ERR_CANCELED
      else mkNandSys (nq_dev s) (nq_ops s ++ [op]) (queue_push t (txn_queue_ s)) (nq_worker s) (shutdown_ s) (nq_released s) (nq_completed s) (nq_done s)
  end.

Definition nand_worker_step (answers : zx_status * zx_status) (s : NandSys) : exec NandSys :=
  match nq_worker s with
  | NTop =>
      Done (if shutdown_ s then mkNandSys (nq_dev s) (nq_ops s) (txn_queue_ s) NGone true (nq_released s) (nq_completed s) (nq_done s)
            else mkNandSys (nq_dev s) (nq_ops s) [] (NBatch (txn_queue_ s)) false (nq_released s) (nq_completed s) (nq_done s))
  | NBatch q =>
      match queue_pop q with
      | None => Done (mkNandSys (nq_dev s) (nq_ops s) (txn_queue_ s) NTop (shutdown_ s) (nq_released s) (nq_completed s) (nq_done s))
      | Some (t, q) =>
          match nq_ops s !! t with
          | None => Panic
          | Some op =>
              '(status, d) ← Nand_DoIo op answers (nq_dev s);
              Done (mkNandSys d (nq_ops s) (txn_queue_ s) (NBatch q) (shutdown_ s) (nq_released s) (nq_completed s ++ [(t, status)]) (nq_done s ++ [t]))
          end
      end
  | NGone => Panic
  end.

(** The worker does not wait on [worker_event_]. *)
Definition nand_worker_ready (s : NandSys) : bool :=
  match nq_worker s with NTop => shutdown_ s || negb (bool_decide (txn_queue_ s = [])) | NBatch _ => true | NGone => false end.

(** [Shutdown] up to [thrd_join], and after it. *)
Definition Nand_Shutdown (s : NandSys) : NandSys :=
  mkNandSys (nq_dev s) (nq_ops s) (txn_queue_ s) (nq_worker s) true (nq_released s) (nq_completed s) (nq_done s).

Definition Nand_Shutdown_joined (s : NandSys) : exec NandSys :=
  q ← queue_Release (txn_queue_ s);
  Done (mkNandSys (nq_dev s) (nq_ops s) q (nq_worker s) (shutdown_ s) true (nq_completed s) (nq_done s)).

Inductive NandEvent :=
  | NQueue (op : NandOp)
  | NWorker (answers : zx_status * zx_status)
  | NShutdown
  | NJoined.

Definition handle_nevent (e : NandEvent) (s : NandSys) : exec NandSys :=
  match e with
  | NQueue op => Done (NandQueue op s)
  | NWorker answers => nand_worker_step answers s
  | NShutdown => Done (Nand_Shutdown s)
  | NJoined => Nand_Shutdown_joined s
  end.

Definition nallowed (e : NandEvent) (s : NandSys) : bool :=
  match e with
  | NQueue _ => true
  | NWorker _ => nand_worker_ready s
  | NShutdown => negb (shutdown_ s)
  | NJoined => match nq_worker s with NGone => shutdown_ s && negb (nq_released s) | _ => false end
  end.

Definition Nand_Start (i : RawInfo) (r : R) (m : Memory) : NandSys := mkNandSys (Nand_Init i r m) [] [] NTop false false [] [].
End device.
