(* ===== verification/NandRun.v ===== *)
(** * NandRun: what the driver of raw NAND does

    Reads give what the NAND holds, through the cache too, as long as no page is written that is in the cache; operations
    are done once and in order. *)
From Stdlib Require Import ZArith Lia Sorted.
From stdpp Require Import prelude.
From S2P Require Import Prelude NandCore.

Local Open Scope Z_scope.

(** ** The controller *)

(** What a page holds: its data and its spare bytes. *)
Class RawView (R : Type) := { held : R -> Z -> list Z * list Z }.

(** Reading changes nothing, and fills the buffers; what it reads, if it succeeds, is what is held. Writing changes one page
    and erasing one block, whether they succeed or not. *)
Class RawNandLaws {R} `{!RawNand R} `{!RawView R} (i : RawInfo) : Prop := {
  raw_read want p r st d o b r' : ReadPageHwecc want p r = (st, d, o, b, r') ->
    (forall q, held r' q = held r q) /\ length o = Z.to_nat (r_oob_size i) /\ (want = true -> length d = Z.to_nat (r_page_size i)) /\
    (st = ZX_OK -> o = (held r p).2 /\ (want = true -> d = (held r p).1));
  raw_write d o p r st r' : WritePageHwecc d o p r = (st, r') -> (forall q, q <> p -> held r' q = held r q) /\
    (st = ZX_OK -> (forall x, d = Some x -> length x = Z.to_nat (r_page_size i) -> (held r' p).1 = x) /\
                   (forall x, o = Some x -> length x = Z.to_nat (r_oob_size i) -> (held r' p).2 = x));
  raw_size r q : length (held r q).1 = Z.to_nat (r_page_size i) /\ length (held r q).2 = Z.to_nat (r_oob_size i);
  raw_erase p r st r' : EraseBlock p r = (st, r') -> forall q, ~ (p <= q < p + r_pages_per_block i) -> held r' q = held r q
}.

(** The pages can be numbered in 32 bits. *)
Record info_ok (i : RawInfo) : Prop := {
  io_page : 0 < r_page_size i;
  io_oob : 0 <= r_oob_size i <= r_page_size i;
  io_ppb : 0 < r_pages_per_block i;
  io_blocks : 0 <= r_num_blocks i;
  io_size : r_num_blocks i * r_pages_per_block i < 2 ^ 32
}.

(** ** Memory *)

Lemma mem_put_ne v a l m u x : ~ (u = v /\ a <= x < a + Z.of_nat (length l)) -> mem_put v a l m u x = m u x.
Proof.
  intros Hn. unfold mem_put. destruct (Z.eqb_spec u v) as [->|]; [|done]. destruct (Z.leb_spec a x); [|done]. cbn. rewrite lookup_ge_None_2; [done|]. lia.
Qed.

Lemma mem_get_ext v a n m m' : (forall x, a <= x < a + n -> m' v x = m v x) -> mem_get v a n m' = mem_get v a n m.
Proof. intros H. apply list_fmap_ext. intros k x Hx. apply lookup_seqZ in Hx as [-> Hk]. apply H. lia. Qed.

Lemma mem_get_put v a l m n : length l = Z.to_nat n -> mem_get v a n (mem_put v a l m) = l.
Proof.
  intros Hl. apply list_eq. intros k. unfold mem_get. rewrite list_lookup_fmap. destruct (seqZ 0 n !! k) as [x|] eqn:E.
  - apply lookup_seqZ in E as [-> Hk]. cbn. unfold mem_put. rewrite Z.eqb_refl. destruct (Z.leb_spec a (a + (0 + Z.of_nat k))); [|lia]. cbn.
    replace (Z.to_nat (a + (0 + Z.of_nat k) - a)) with k by lia. destruct (lookup_lt_is_Some_2 l k) as [b ->]; [lia|done].
  - apply lookup_ge_None_1 in E. rewrite length_seqZ in E. cbn. symmetry. apply lookup_ge_None_2. lia.
Qed.

Lemma mem_get_length v a n m : length (mem_get v a n m) = Z.to_nat n.
Proof. unfold mem_get. by rewrite length_fmap, length_seqZ. Qed.

(** Byte [x] of VMO [v] is in the part of the mapping that takes pages [k] to [n] of [unit] bytes. *)
Definition area (mp : option Mapping) (unit k n v x : Z) : Prop :=
  match mp with None => False | Some mp => v = mp_vmo mp /\ mp_start mp + k * unit <= x < mp_start mp + n * unit end.

Definition room (mp : option Mapping) (unit n : Z) : Prop := match mp with None => True | Some mp => n * unit <= mp_room mp end.

(** Page [k] of the mapping holds [l]. *)
Definition stored (mp : option Mapping) (unit k : Z) (m : Memory) (l : list Z) : Prop :=
  match mp with None => True | Some mp => mem_get (mp_vmo mp) (mp_start mp + k * unit) unit m = l end.

Lemma store_spec mp unit k n l m :
  room mp unit n -> 0 <= k < n -> 0 <= unit -> (mp <> None -> length l = Z.to_nat unit) ->
  exists m', map_store mp (k * unit) unit l m = Done m' /\ stored mp unit k m' l /\ (forall v x, ~ area mp unit k (k + 1) v x -> m' v x = m v x).
Proof.
  intros Hr Hk Hu Hl. destruct mp as [mp|]; [|by exists m]. cbn in *. destruct (Z.ltb_spec (mp_room mp) (k * unit + unit)); [nia|]. eexists. split; [done|]. split.
  - apply mem_get_put. by apply Hl.
  - intros v x Hn. apply mem_put_ne. intros [-> Hx]. apply Hn. rewrite Hl in Hx by done. split; [done|]. lia.
Qed.

Lemma stored_frame mp unit k m m' l : (forall v x, area mp unit k (k + 1) v x -> m' v x = m v x) -> stored mp unit k m l -> stored mp unit k m' l.
Proof.
  intros H. destruct mp as [mp|]; [|done]. cbn. intros <-. apply mem_get_ext. intros x Hx. apply H. cbn. split; [done|]. lia.
Qed.

Lemma area_mono mp unit k n k' n' v x : 0 <= unit -> k' <= k -> n <= n' -> area mp unit k n v x -> area mp unit k' n' v x.
Proof. intros Hu Hk Hn. destruct mp as [mp|]; [|done]. cbn. intros [-> Hx]. split; [done|]. nia. Qed.

Lemma area_next mp unit k n n' v x : 0 <= unit -> k < n -> area mp unit k (k + 1) v x -> ~ area mp unit n n' v x.
Proof. intros Hu Hk. destruct mp as [mp|]; [|done]. cbn. intros [-> Hx] [_ Hx']. nia. Qed.

Section nand.
Context {R : Type} `{!RawNand R} `{!RawView R} {i : RawInfo} {laws : RawNandLaws i} (Hi : info_ok i).
Implicit Types (d : NandDevice (R := R)) (rw : NandRw) (c : ReadCache).

Definition pages : Z := r_num_blocks i * r_pages_per_block i.

Lemma pages_range : 0 <= pages < 2 ^ 32 /\ num_nand_pages_ i = pages.
Proof using All.
  destruct Hi as [H1 H2 H3 H4 H5]. fold pages in H5. assert (0 <= pages) as H0 by (unfold pages; nia). split; [done|].
  unfold num_nand_pages_. fold pages. rewrite u32_small; [done|]. unfold is_u32. lia.
Qed.

(** ** The cache *)

(** Every entry is what the NAND holds. *)
Definition coherent d : Prop := Forall (fun e => held (nd_raw d) (e_page e) = (e_data e, e_spare e)) (fifo_ (dangerous_reads_cache_ d)).

Lemma get_page_coherent p l x (f : Z -> list Z * list Z) : Forall (fun e => f (e_page e) = (e_data e, e_spare e)) l -> get_page p l = Some x -> f p = x.
Proof using Type. induction 1 as [|e l He _ IH]; cbn [get_page]; [done|]. destruct (Z.eqb_spec (e_page e) p) as [<-|]; [by intros [= <-]|done]. Qed.

Lemma purge_forall (P : CacheEntry -> Prop) p n c : Forall P (fifo_ c) -> Forall (fun e => P e /\ in_purged p n e = false) (fifo_ (PurgeRange p n c)).
Proof using Type. intros Hc. cbn. apply Forall_forall. intros e [H1 H2]%list_elem_of_filter. rewrite Forall_forall in Hc. split; [by apply Hc|done]. Qed.

Lemma insert_forall (P : CacheEntry -> Prop) p x y c : Forall P (fifo_ c) -> P (mkEntry p x y) -> Forall P (fifo_ (Cache_Insert p x y c)).
Proof using Type.
  intros Hc Hp. unfold Cache_Insert. cbn [fifo_]. apply Forall_app. split; [|by constructor]. set (l := fifo_ (PurgeRange p 1 c)).
  assert (Forall P l) as Hl by (eapply Forall_impl; [by apply (purge_forall P)|]; by intros e [? _]).
  destruct (_ <=? _); [|done]. destruct l; [done|]. by apply Forall_cons in Hl as [_ Hl].
Qed.

(** ** Reading a page *)

Record same_flash d d' : Prop := {
  sf_info : nd_info d' = nd_info d;
  sf_held q : held (nd_raw d') q = held (nd_raw d) q
}.

Lemma retry_spec n want p st ecc data oob bits r st' ecc' data' oob' bits' r' :
  read_retry n want p st ecc data oob bits r = (st', ecc', data', oob', bits', r') ->
  (forall q, held r' q = held r q) /\
  ((st' = st /\ data' = data /\ oob' = oob /\ (n = O \/ st = ZX_OK)) \/
   length oob' = Z.to_nat (r_oob_size i) /\ (want = true -> length data' = Z.to_nat (r_page_size i)) /\ (st' = ZX_OK -> oob' = (held r p).2 /\ (want = true -> data' = (held r p).1))).
Proof using laws.
  revert st ecc data oob bits r. induction n as [|n IH]; intros st ecc data oob bits r; cbn [read_retry].
  { intros [= <- _ <- <- _ <-]. split; [done|]. left. auto. }
  destruct (bool_decide_reflect (st = ZX_OK)) as [Hs|Hs]; [intros [= <- _ <- <- _ <-]; split; [done|]; left; auto|].
  destruct (ReadPageHwecc want p r) as [[[[st1 d1] o1] b1] r1] eqn:E. destruct (raw_read _ _ _ _ _ _ _ _ E) as (L1 & L2 & L3 & L4). intros H. apply IH in H as [H1 H2].
  split; [intros q; by rewrite H1, L1|]. right. destruct H2 as [(-> & -> & -> & _)|(H3 & H4 & H5)]; [done|]. split_and!; try done. intros ->. rewrite L1 in H5. by apply H5.
Qed.

Lemma read_page_spec want p d st data oob bits d' :
  nd_info d = i -> coherent d -> ReadPage want p d = (st, data, oob, bits, d') ->
  same_flash d d' /\ coherent d' /\ nd_mem d' = nd_mem d /\ length oob = Z.to_nat (r_oob_size i) /\
  (want = true -> length data = Z.to_nat (r_page_size i)) /\ (st = ZX_OK -> oob = (held (nd_raw d) p).2 /\ (want = true -> data = (held (nd_raw d) p).1)).
Proof using laws.
  intros Ei Hc. unfold ReadPage. destruct (if want then GetPage p (dangerous_reads_cache_ d) else None) as [[x y]|] eqn:Eg.
  { intros [= <- <- <- _ <-]. destruct want; [|done]. pose proof (get_page_coherent _ _ _ _ Hc Eg) as E. pose proof (raw_size (nd_raw d) p) as [Hs1 Hs2]. rewrite E in *. by split_and!. }
  destruct (read_retry _ _ _ _ _ _ _ _ _) as [[[[[st1 ecc] x] y] b] r] eqn:E. destruct (retry_spec _ _ _ _ _ _ _ _ _ _ _ _ _ _ _ E) as [H1 H2].
  destruct H2 as [(_ & _ & _ & [?|?])|(H3 & H4 & H5)]; [done|done|]. intros [= <- <- <- _ <-].
  assert (coherent (set_raw r d)) as Hc1 by (eapply Forall_impl; [exact Hc|]; intros e He; simpl; by rewrite H1). split_and!.
  - destruct (_ && _); by constructor.
  - destruct (_ && _) eqn:Eb; [|done]. apply andb_true_iff in Eb as [[Eb Ew]%andb_true_iff _]. apply bool_decide_eq_true in Eb. destruct (H5 Eb) as [-> Hx]. rewrite (Hx Ew). apply insert_forall; [done|].
    simpl. rewrite H1. by destruct (held (nd_raw d) p).
  - by destruct (_ && _).
  - exact H3.
  - exact H4.
  - exact H5.
Qed.

(** ** Reading *)

(** The two areas do not overlap. *)
Definition apart (data oob : option Mapping) (n : Z) : Prop := forall v x, area data (r_page_size i) 0 n v x -> area oob (r_oob_size i) 0 n v x -> False.

Lemma read_pages_spec rw data oob n count :
  room data (r_page_size i) n -> room oob (r_oob_size i) n -> 0 <= offset_nand rw -> offset_nand rw + n <= pages ->
  forall k st0 b0 d, nd_info d = i -> coherent d -> 0 <= k -> k + Z.of_nat count = n -> st0 = ZX_OK ->
  exists st bits d', read_pages count k rw data oob st0 b0 d = Done (st, bits, d') /\ same_flash d d' /\ coherent d' /\
    (forall v x, ~ area data (r_page_size i) k n v x -> ~ area oob (r_oob_size i) k n v x -> nd_mem d' v x = nd_mem d v x) /\
    (apart data oob n -> st = ZX_OK -> forall j, k <= j < n -> stored data (r_page_size i) j (nd_mem d') (held (nd_raw d) (offset_nand rw + j)).1 /\
                                         stored oob (r_oob_size i) j (nd_mem d') (held (nd_raw d) (offset_nand rw + j)).2).
Proof using All.
  intros R1 R2 Ho Hp. pose proof pages_range as [Hpr _]. pose proof (io_page _ Hi) as P1. pose proof (io_oob _ Hi) as P2.
  induction count as [|count IH]; intros k st0 b0 d Ei Hc Hk Hn Hst; cbn [read_pages].
  { exists st0, b0, d. split; [done|]. split; [done|]. split; [done|]. split; [done|]. intros _ _ j Hj. lia. }
  rewrite Ei. assert (u32 (offset_nand rw + k) = offset_nand rw + k) as -> by (apply u32_small; unfold is_u32; lia).
  destruct (ReadPage _ _ d) as [[[[st bd] bo] bits] d1] eqn:E. destruct (read_page_spec _ _ _ _ _ _ _ _ Ei Hc E) as ([S1 S2] & Hc1 & Em & L1 & L2 & L3).
  rewrite bool_decide_eq_true in L2, L3.
  destruct (store_spec data (r_page_size i) k n bd (nd_mem d1) R1) as (m1 & -> & T1 & F1); [lia|lia|done|]. cbn [mbind exec_bind].
  destruct (store_spec oob (r_oob_size i) k n bo m1 R2) as (m2 & -> & T2 & F2); [lia|lia|done|]. cbn [mbind exec_bind].
  assert (forall v x, ~ area data (r_page_size i) k n v x -> ~ area oob (r_oob_size i) k n v x -> m2 v x = nd_mem d v x) as Hf.
  { intros v x N1 N2. rewrite F2, F1, Em; [done| |]; intros Ha; [apply N1|apply N2]; eapply area_mono; try exact Ha; lia. }
  destruct (bool_decide_reflect (st = ZX_OK)) as [Hs|Hs].
  2:{ exists st, b0, (set_mem m2 d1). split; [done|]. split; [by constructor|]. split; [done|]. split; [done|]. by intros _ ->. }
  destruct (L3 Hs) as [Eo Ed]. destruct (IH (k + 1) st (Z.max b0 bits) (set_mem m2 d1)) as (st' & b' & d' & -> & [S3 S4] & Hc' & Hm & Hok); [by rewrite <- Ei|done|lia|lia|done|].
  exists st', b', d'. split; [done|]. split; [constructor; [by rewrite S3|intros q; by rewrite S4, S2]|]. split; [done|]. split.
  - intros v x N1 N2. rewrite Hm; [by apply Hf| |]; intros Ha; [apply N1|apply N2]; eapply area_mono; try exact Ha; lia.
  - intros Hap Hs' j Hj. destruct (decide (j = k)) as [->|Hne]; [|rewrite <- S2; apply (Hok Hap Hs'); lia]. split.
    + eapply stored_frame.
      * intros v x Ha. etransitivity; [apply Hm|].
        -- eapply area_next; [..|exact Ha]; lia.
        -- intros Hb. eapply Hap; eapply area_mono; try exact Ha; try exact Hb; lia.
        -- simpl. apply F2. intros Hb. eapply Hap; eapply area_mono; try exact Ha; try exact Hb; lia.
      * destruct data as [mp|]; [|done]. cbn in *. rewrite <- Ed by done. done.
    + eapply stored_frame; [|rewrite <- Eo; exact T2]. intros v x Ha. apply Hm.
      * intros Hb. eapply Hap; eapply area_mono; try exact Ha; try exact Hb; lia.
      * eapply area_next; [..|exact Ha]; lia.
Qed.

(** ** Writing and erasing *)

Lemma load_spec mp unit k n m :
  room mp unit n -> 0 <= k < n -> 0 <= unit -> exists l, map_load mp (k * unit) unit m = Done l /\ (l = None <-> mp = None) /\
    (forall x, l = Some x -> length x = Z.to_nat unit /\ stored mp unit k m x).
Proof using Type.
  intros Hr Hk Hu. destruct mp as [mp|]; [|by exists None]. cbn in *. destruct (Z.ltb_spec (mp_room mp) (k * unit + unit)); [nia|]. eexists. split; [done|]. split; [done|].
  intros x [= <-]. split; [apply mem_get_length|done].
Qed.

Lemma stored_fun mp unit k m x y : mp <> None -> stored mp unit k m x -> stored mp unit k m y -> x = y.
Proof using Type. destruct mp; [|done]. cbn. intros _ -> ->. done. Qed.

Lemma write_pages_spec rw data oob n count :
  room data (r_page_size i) n -> room oob (r_oob_size i) n -> 0 <= offset_nand rw -> offset_nand rw + n <= pages ->
  forall k st0 d, nd_info d = i -> 0 <= k -> k + Z.of_nat count = n ->
  exists st d', write_pages count k rw data oob st0 d = Done (st, d') /\ nd_info d' = i /\ nd_mem d' = nd_mem d /\ dangerous_reads_cache_ d' = dangerous_reads_cache_ d /\
    (forall q, ~ (offset_nand rw + k <= q < offset_nand rw + n) -> held (nd_raw d') q = held (nd_raw d) q) /\
    (st = ZX_OK -> forall j, k <= j < n -> stored data (r_page_size i) j (nd_mem d) (held (nd_raw d') (offset_nand rw + j)).1 /\
                                         stored oob (r_oob_size i) j (nd_mem d) (held (nd_raw d') (offset_nand rw + j)).2).
Proof using All.
  intros R1 R2 Ho Hp. pose proof pages_range as [Hpr _]. pose proof (io_page _ Hi) as P1. pose proof (io_oob _ Hi) as P2.
  induction count as [|count IH]; intros k st0 d Ei Hk Hn; cbn [write_pages].
  { exists st0, d. split_and!; try done. intros _ j Hj. lia. }
  rewrite Ei. assert (u32 (offset_nand rw + k) = offset_nand rw + k) as -> by (apply u32_small; unfold is_u32; lia).
  destruct (load_spec data (r_page_size i) k n (nd_mem d) R1) as (bd & -> & Nd & Ld); [lia|lia|]. cbn [mbind exec_bind].
  destruct (load_spec oob (r_oob_size i) k n (nd_mem d) R2) as (bo & -> & No & Lo); [lia|lia|]. cbn [mbind exec_bind].
  destruct (WritePageHwecc bd bo (offset_nand rw + k) (nd_raw d)) as [st r] eqn:E. destruct (raw_write _ _ _ _ _ _ E) as [W1 W2].
  destruct (bool_decide_reflect (st = ZX_OK)) as [Hs|Hs].
  2:{ exists st, (set_raw r d). split_and!; try done. intros q Hq. apply W1. lia. }
  destruct (IH (k + 1) st (set_raw r d)) as (st' & d' & -> & I1 & I2 & I3 & I4 & I5); [done|lia|lia|]. exists st', d'. split_and!; try done.
  - intros q Hq. rewrite I4 by lia. simpl. apply W1. lia.
  - intros Hs' j Hj. destruct (decide (j = k)) as [->|Hne]; [|apply (I5 Hs'); lia]. rewrite I4 by lia. simpl. destruct (W2 Hs) as [Wd Wo]. split.
    + destruct data as [mp|]; [|done]. destruct bd as [x|]; [|by pose proof (proj1 Nd eq_refl)]. destruct (Ld x eq_refl) as [Lx Sx]. by rewrite (Wd x eq_refl Lx).
    + destruct oob as [mp|]; [|done]. destruct bo as [x|]; [|by pose proof (proj1 No eq_refl)]. destruct (Lo x eq_refl) as [Lx Sx]. by rewrite (Wo x eq_refl Lx).
Qed.

Lemma erase_blocks_spec first n count :
  0 <= first -> first + n <= r_num_blocks i -> forall k d, nd_info d = i -> coherent d -> 0 <= k -> k + Z.of_nat count = n ->
  let '(st, d') := erase_blocks count k first d in
  nd_info d' = i /\ nd_mem d' = nd_mem d /\ coherent d' /\
  (forall q, ~ ((first + k) * r_pages_per_block i <= q < (first + n) * r_pages_per_block i) -> held (nd_raw d') q = held (nd_raw d) q).
Proof using All.
  intros Hf Hn. pose proof pages_range as [Hpr _]. unfold pages in Hpr. pose proof (io_ppb _ Hi) as P1. pose proof (io_blocks _ Hi) as P2.
  induction count as [|count IH]; intros k d Ei Hc Hk Hkn; cbn [erase_blocks]; [done|]. set (ppb := r_pages_per_block i) in *. rewrite Ei.
  assert ((first + k) * ppb + ppb <= r_num_blocks i * ppb) as Hle by nia. fold ppb.
  assert (u32 (first + k) = first + k) as -> by (apply u32_small; unfold is_u32; nia). assert (u32 ((first + k) * ppb) = (first + k) * ppb) as -> by (apply u32_small; unfold is_u32; nia).
  set (c := PurgeRange _ _ _). simpl nd_raw. destruct (EraseBlock ((first + k) * ppb) (nd_raw d)) as [st r] eqn:E. pose proof (raw_erase _ _ _ _ E) as Hr. fold ppb in Hr.
  assert (coherent (set_raw r (set_cache c d))) as Hc1.
  { pose proof (purge_forall _ ((first + k) * ppb) ppb _ Hc) as Hp. eapply Forall_impl; [exact Hp|]. intros e [He Hin]. simpl. rewrite Hr; [done|]. intros Hq. unfold in_purged in Hin.
    rewrite (u32_small (ppb - 1)) in Hin by (unfold is_u32; nia). rewrite u32_small in Hin by (unfold is_u32; nia).
    apply andb_false_iff in Hin as [Hin|Hin]; apply Z.leb_gt in Hin; lia. }
  destruct (bool_decide_reflect (st = ZX_OK)).
  - specialize (IH (k + 1) (set_raw r (set_cache c d)) Ei Hc1). destruct (erase_blocks count (k + 1) first _) as [st' d']. destruct IH as (I1 & I2 & I3 & I4); [lia|lia|]. split_and!; try done.
    intros q Hq. rewrite I4 by nia. simpl. apply Hr. nia.
  - split_and!; try done. intros q Hq. simpl. apply Hr. nia.
Qed.
End nand.
