(* ===== verification/NandSafe.v ===== *)
(** * NandSafe: runs of the driver of raw NAND

    What one operation does to the flash, the cache and the VMOs of the client, and what holds in every run of clients,
    worker and shutdown. *)
From Stdlib Require Import ZArith Lia Sorted.
From stdpp Require Import prelude sorting.
From S2P Require Import Prelude NandCore NandRun.

Local Open Scope Z_scope.

(** ** One operation *)

Section safe.
Context {R : Type} `{!RawNand R} `{!RawView R} {i : RawInfo} {laws : RawNandLaws i} (Hi : info_ok i).
Implicit Types (d : NandDevice (R := R)) (rw : NandRw) (op : NandOp) (s : NandSys (R := R)).

(** The fields of an operation are unsigned, and the bytes it moves fit 32 bits. *)
Definition rw_ok rw : Prop := 0 <= offset_nand rw /\ 0 <= n_length rw /\ n_length rw * r_page_size i < 2 ^ 32.

Definition nop_ok op : Prop :=
  match op with
  | NandRead rw | NandWrite rw => rw_ok rw
  | NandErase first num => 0 <= first /\ 0 <= num
  | NandOther => True
  end.

(** The places in the VMOs. *)
Definition data_map rw : option Mapping :=
  if data_vmo rw =? 0 then None else Some (mkMapping (data_vmo rw) (u64 (offset_data_vmo rw * r_page_size i)) (n_length rw * r_page_size i)).
Definition oob_map rw : option Mapping :=
  if oob_vmo rw =? 0 then None else Some (mkMapping (oob_vmo rw) (u64 (offset_oob_vmo rw * r_page_size i)) (n_length rw * r_oob_size i)).

Lemma map_vmos_spec rw answers : rw_ok rw -> (exists st, MapVmos rw answers i = inl st /\ st <> ZX_OK) \/ MapVmos rw answers i = inr (data_map rw, oob_map rw).
Proof using Hi.
  intros (H1 & H2 & H3). pose proof (io_page _ Hi) as P1. pose proof (io_oob _ Hi) as P2. unfold MapVmos, map_vmo, data_map, oob_map.
  assert (n_length rw * r_oob_size i <= n_length rw * r_page_size i) as Hle by nia.
  rewrite (u32_small (n_length rw * r_page_size i)), (u32_small (n_length rw * r_oob_size i)) by (unfold is_u32; nia).
  destruct (data_vmo rw =? 0), (oob_vmo rw =? 0); [by right|..]; destruct (bool_decide_reflect (answers.1 = ZX_OK)), (bool_decide_reflect (answers.2 = ZX_OK)); cbn [negb]; eauto.
Qed.

Lemma room_data rw : room (data_map rw) (r_page_size i) (n_length rw).
Proof using Type. unfold data_map. destruct (_ =? 0); [done|]. cbn. lia. Qed.

Lemma room_oob rw : room (oob_map rw) (r_oob_size i) (n_length rw).
Proof using Type. unfold oob_map. destruct (_ =? 0); [done|]. cbn. lia. Qed.

(** No page that is written is in the cache. *)
Definition uncached op d : Prop :=
  match op with NandWrite rw => Forall (fun e => ~ (offset_nand rw <= e_page e < offset_nand rw + n_length rw)) (fifo_ (dangerous_reads_cache_ d)) | _ => True end.

(** Page [j] of the transfer is [x] in the VMOs, as far as they are given. *)
Definition in_vmos rw (j : Z) (m : Memory) (x : list Z * list Z) : Prop := stored (data_map rw) (r_page_size i) j m x.1 /\ stored (oob_map rw) (r_oob_size i) j m x.2.

(** The bytes of VMOs and the pages of the flash that an operation may change. *)
Definition vmo_area rw (v x : Z) : Prop := area (data_map rw) (r_page_size i) 0 (n_length rw) v x \/ area (oob_map rw) (r_oob_size i) 0 (n_length rw) v x.

Definition effect op d (st : zx_status) d' : Prop :=
  match op with
  | NandRead rw =>
      (forall q, held (nd_raw d') q = held (nd_raw d) q) /\ (forall v x, ~ vmo_area rw v x -> nd_mem d' v x = nd_mem d v x) /\
      (st = ZX_OK -> apart (i := i) (data_map rw) (oob_map rw) (n_length rw) -> forall j, 0 <= j < n_length rw -> in_vmos rw j (nd_mem d') (held (nd_raw d) (offset_nand rw + j)))
  | NandWrite rw =>
      nd_mem d' = nd_mem d /\ (forall q, ~ (offset_nand rw <= q < offset_nand rw + n_length rw) -> held (nd_raw d') q = held (nd_raw d) q) /\
      (st = ZX_OK -> forall j, 0 <= j < n_length rw -> in_vmos rw j (nd_mem d) (held (nd_raw d') (offset_nand rw + j)))
  | NandErase first num =>
      nd_mem d' = nd_mem d /\ forall q, ~ (first * r_pages_per_block i <= q < (first + num) * r_pages_per_block i) -> held (nd_raw d') q = held (nd_raw d) q
  | NandOther => False
  end.

Lemma accepted_range rw : nand_refuses (NandRead rw) i = None -> n_length rw <> 0 /\ offset_nand rw + n_length rw <= pages (i := i).
Proof using All.
  pose proof (pages_range Hi) as [Hp En]. cbn [nand_refuses]. rewrite En. destruct (Z.leb_spec (pages (i := i)) (offset_nand rw)); [done|].
  destruct (Z.eqb_spec (n_length rw) 0); [done|]. destruct (Z.ltb_spec (pages (i := i) - offset_nand rw) (n_length rw)); [done|]. intros _. split; [done|lia].
Qed.

Lemma read_op_spec rw answers d :
  nd_info d = i -> coherent d -> nand_refuses (NandRead rw) i = None -> rw_ok rw ->
  exists st bits d', ReadOp rw answers d = Done (st, bits, d') /\ nd_info d' = i /\ coherent d' /\ effect (NandRead rw) d st d'.
Proof using All.
  intros Ei Hc Hr Hrw. destruct (accepted_range rw Hr) as [Hl Hp]. destruct Hrw as (H1 & H2 & H3). unfold ReadOp. rewrite Ei.
  destruct (map_vmos_spec rw answers ltac:(done)) as [(st & -> & Hst)| ->].
  { exists st, None, d. split; [done|]. split; [done|]. split; [done|]. by split_and!. }
  destruct (read_pages_spec Hi rw (data_map rw) (oob_map rw) (n_length rw) (Z.to_nat (n_length rw)) (room_data rw) (room_oob rw) H1 Hp 0 ZX_OK 0 d Ei Hc) as (st & bits & d' & -> & [S1 S2] & Hc' & Hm & Hok);
    [lia|lia|done|]. cbn [mbind exec_bind]. exists st, (Some bits), d'. split; [done|]. split; [by rewrite S1|]. split; [done|]. split_and!.
  - done.
  - intros v x Hn. apply Hm; intros Ha; apply Hn; [by left|by right].
  - intros Hst Hap j Hj. by apply Hok.
Qed.

Lemma write_op_spec rw answers d :
  nd_info d = i -> coherent d -> nand_refuses (NandWrite rw) i = None -> rw_ok rw -> uncached (NandWrite rw) d ->
  exists st d', WriteOp rw answers d = Done (st, d') /\ nd_info d' = i /\ coherent d' /\ effect (NandWrite rw) d st d'.
Proof using All.
  intros Ei Hc Hr Hrw Hu. destruct (accepted_range rw Hr) as [Hl Hp]. destruct Hrw as (H1 & H2 & H3). unfold WriteOp. rewrite Ei.
  destruct (map_vmos_spec rw answers ltac:(done)) as [(st & -> & Hst)| ->].
  { exists st, d. by split_and!. }
  destruct (write_pages_spec Hi rw (data_map rw) (oob_map rw) (n_length rw) (Z.to_nat (n_length rw)) (room_data rw) (room_oob rw) H1 Hp 0 ZX_OK d Ei) as (st & d' & -> & I1 & I2 & I3 & I4 & I5); [lia|lia|].
  rewrite Z.add_0_r in I4. exists st, d'. split; [done|]. split; [done|]. split; [|by split_and!]. unfold coherent in *. rewrite I3.
  cbn [uncached] in Hu. apply Forall_forall. intros e He. rewrite Forall_forall in Hc, Hu. rewrite I4 by (by apply Hu). by apply Hc.
Qed.

(** What [Nand_DoIo] does. *)
Lemma do_io_spec op answers d :
  nd_info d = i -> coherent d -> nand_refuses op i = None -> nop_ok op -> uncached op d ->
  exists st d', Nand_DoIo op answers d = Done (st, d') /\ nd_info d' = i /\ coherent d' /\ effect op d st d'.
Proof using All.
  intros Ei Hc Hr Ho Hu. destruct op as [rw|rw|first num|]; cbn [Nand_DoIo nop_ok] in *; [| | |done].
  - destruct (read_op_spec rw answers d Ei Hc Hr Ho) as (st & bits & d' & -> & H). by exists st, d'.
  - by apply write_op_spec.
  - unfold EraseOp. cbn [nand_refuses] in Hr. destruct (Z.eqb_spec num 0); [done|]. destruct (Z.leb_spec (r_num_blocks i) first); [done|].
    destruct (Z.ltb_spec (r_num_blocks i - first) num); [done|].
    pose proof (erase_blocks_spec Hi first num (Z.to_nat num) ltac:(lia) ltac:(lia) 0 d Ei Hc ltac:(lia) ltac:(lia)) as He. destruct (erase_blocks _ 0 first d) as [st d'].
    destruct He as (E1 & E2 & E3 & E4). rewrite Z.add_0_r in E4. exists st, d'. by split_and!.
Qed.

(** ** Runs *)

(** The operation the worker does next. *)
Definition next_op s : option NandOp := match nq_worker s with NBatch q => queue_pop q ≫= fun x => nq_ops s !! x.1 | _ => None end.

(** What clients keep to. *)
Definition event_ok (e : NandEvent) s : Prop :=
  match e with
  | NQueue op => nop_ok op
  | NWorker _ => forall op, next_op s = Some op -> uncached op (nq_dev s)
  | _ => True
  end.

Inductive nstep : NandSys (R := R) -> NandSys (R := R) -> Prop :=
  | nstep_event e s s' : nallowed e s = true -> event_ok e s -> handle_nevent e s = Done s' -> nstep s s'.

Definition batch s : Queue := match nq_worker s with NBatch q => q | _ => [] end.

(** The accepted operations in the order in which the worker has done and will do them. *)
Definition in_order s : list nat := nq_done s ++ reverse (batch s) ++ reverse (txn_queue_ s).

(** An operation is completed by the worker, or it was refused, or it came after [Shutdown]. *)
Definition refusal s (x : nat * zx_status) : Prop :=
  x.1 ∈ nq_done s \/ exists op, nq_ops s !! x.1 = Some op /\ (nand_refuses op i = Some x.2 \/ x.2 = ZX_ERR_CANCELED /\ shutdown_ s = true).

Lemma refusal_mono s s' x :
  (forall t, t ∈ nq_done s -> t ∈ nq_done s') -> (forall t op, nq_ops s !! t = Some op -> nq_ops s' !! t = Some op) -> (shutdown_ s = true -> shutdown_ s' = true) -> refusal s x -> refusal s' x.
Proof using Type. intros H1 H2 H3 [H|(op & E & [H|[H Hs]])]; [left; auto|right; exists op; auto|right; exists op; auto]. Qed.

Record NInv s : Prop := {
  ni_info : nd_info (nq_dev s) = i;
  ni_coherent : coherent (nq_dev s);
  ni_places : (nq_completed s).*1 ++ batch s ++ txn_queue_ s ≡ₚ seq 0 (length (nq_ops s));
  ni_sorted : StronglySorted lt (in_order s);
  ni_below t : t ∈ in_order s -> (t < length (nq_ops s))%nat;
  ni_accepted t : t ∈ in_order s -> exists op, nq_ops s !! t = Some op /\ nop_ok op /\ nand_refuses op i = None;
  ni_done t : t ∈ nq_done s -> t ∈ (nq_completed s).*1;
  ni_refused : Forall (refusal s) (nq_completed s)
}.

Lemma ninv_start r m : NInv (Nand_Start i r m).
Proof using Type. constructor; try done; try constructor; by intros t ?%elem_of_nil. Qed.

Lemma sorted_snoc (l : list nat) n : StronglySorted lt l -> (forall t, t ∈ l -> (t < n)%nat) -> StronglySorted lt (l ++ [n]).
Proof using Type.
  intros Hs Hn. apply StronglySorted_app_2; [|done|repeat constructor]. intros a b Ha ->%list_elem_of_singleton. by apply Hn.
Qed.

Lemma ninv_queue op s : NInv s -> nop_ok op -> NInv (NandQueue op s).
Proof using Type.
  intros [N1 N2 N3 N4 N5 N6 N7 N8] Ho. unfold NandQueue. rewrite N1.
  assert (forall st, nand_refuses op i = Some st \/ st = ZX_ERR_CANCELED /\ shutdown_ s = true -> NInv (mkNandSys (nq_dev s) (nq_ops s ++ [op]) (txn_queue_ s) (nq_worker s) (shutdown_ s) (nq_released s) (nq_completed s ++ [(length (nq_ops s), st)]) (nq_done s))) as Hf.
  { intros st Hst. constructor; try done; unfold in_order, batch in *; simpl.
    - rewrite length_app, Nat.add_1_r, seq_S, <- N3, fmap_app. simpl. solve_Permutation.
    - intros t Ht. apply N5 in Ht. rewrite length_app. lia.
    - intros t Ht. destruct (N6 t Ht) as (op' & E & H). exists op'. split; [by apply lookup_app_l_Some|done].
    - intros t Ht. rewrite fmap_app. apply elem_of_app. left. by apply N7.
    - apply Forall_app_2.
      + eapply Forall_impl; [exact N8|]. intros x. apply refusal_mono; simpl; try done. intros t op' E. by apply lookup_app_l_Some.
      + constructor; [|done]. right. exists op. simpl. split; [by rewrite lookup_app_r, Nat.sub_diag by lia|done]. }
  destruct (nand_refuses op i) eqn:Er; [apply Hf; by left|]. destruct (shutdown_ s) eqn:Es; [apply Hf; by right|].
  assert (in_order (mkNandSys (nq_dev s) (nq_ops s ++ [op]) (queue_push (length (nq_ops s)) (txn_queue_ s)) (nq_worker s) false (nq_released s) (nq_completed s) (nq_done s)) = in_order s ++ [length (nq_ops s)]) as Eo.
  { unfold in_order, batch, queue_push. simpl. by rewrite reverse_cons, !app_assoc. }
  constructor; try done; rewrite ?Eo.
  - unfold batch, queue_push. simpl. rewrite length_app, Nat.add_1_r, seq_S, <- N3. unfold batch. solve_Permutation.
  - by apply sorted_snoc.
  - simpl. rewrite length_app. intros t [Ht|Ht%list_elem_of_singleton]%elem_of_app; [apply N5 in Ht|subst t]; simpl; lia.
  - intros t [Ht|Ht%list_elem_of_singleton]%elem_of_app; simpl.
    + destruct (N6 t Ht) as (op' & E & H). exists op'. split; [by apply lookup_app_l_Some|done].
    + subst t. exists op. split; [by rewrite lookup_app_r, Nat.sub_diag by lia|done].
  - eapply Forall_impl; [exact N8|]. intros x. apply refusal_mono; simpl; [done| |by rewrite Es]. intros t op' E. by apply lookup_app_l_Some.
Qed.

Lemma queue_pop_spec (q : Queue) t q' : queue_pop q = Some (t, q') -> q = q' ++ [t].
Proof using Type.
  unfold queue_pop. destruct (reverse q) as [|u l] eqn:E; [done|]. intros [= -> <-]. by rewrite <- (reverse_involutive q), E, reverse_cons.
Qed.

(** The step in which the worker does an operation. *)
Lemma worker_does answers s q t q' op :
  NInv s -> nq_worker s = NBatch q -> queue_pop q = Some (t, q') -> nq_ops s !! t = Some op -> uncached op (nq_dev s) ->
  exists st d', nand_worker_step answers s = Done (mkNandSys d' (nq_ops s) (txn_queue_ s) (NBatch q') (shutdown_ s) (nq_released s) (nq_completed s ++ [(t, st)]) (nq_done s ++ [t])) /\
    nd_info d' = i /\ coherent d' /\ effect op (nq_dev s) st d'.
Proof using All.
  intros [N1 N2 N3 N4 N5 N6 N7 N8] Ew Eq Eop Hu. unfold nand_worker_step. rewrite Ew, Eq, Eop. apply queue_pop_spec in Eq as ->.
  destruct (N6 t) as (op' & Eop' & Hop & Hre); [unfold in_order, batch; rewrite Ew, reverse_app; set_solver|]. rewrite Eop in Eop'. injection Eop' as <-.
  destruct (do_io_spec op answers (nq_dev s) N1 N2 Hre Hop Hu) as (st & d' & -> & Hi' & Hc' & He). cbn [mbind exec_bind]. by exists st, d'.
Qed.

Lemma ninv_worker answers s : NInv s -> nand_worker_ready s = true -> (forall op, next_op s = Some op -> uncached op (nq_dev s)) -> exists s', nand_worker_step answers s = Done s' /\ NInv s'.
Proof using All.
  intros HI Hr Hu. pose proof HI as [N1 N2 N3 N4 N5 N6 N7 N8]. destruct (nq_worker s) as [|q|] eqn:Ew.
  - unfold nand_worker_step. rewrite Ew. unfold in_order, batch in *. rewrite Ew in *. eexists. split; [done|]. destruct (shutdown_ s) eqn:Es; constructor; unfold in_order, batch; simpl; rewrite ?app_nil_r; try done.
    + eapply Forall_impl; [exact N8|]. intros x. by apply refusal_mono.
    + eapply Forall_impl; [exact N8|]. intros x. apply refusal_mono; simpl; [done|done|by rewrite Es].
  - destruct (queue_pop q) as [[t q']|] eqn:Eq.
    2:{ unfold nand_worker_step. rewrite Ew, Eq. assert (q = []) as -> by (unfold queue_pop in Eq; destruct (reverse q) eqn:E; [|done]; by rewrite <- (reverse_involutive q), E).
        unfold in_order, batch in *. rewrite Ew in *. eexists. split; [done|]. by constructor. }
    destruct (N6 t) as (op & Eop & _); [apply queue_pop_spec in Eq as ->; unfold in_order, batch; rewrite Ew, reverse_app; set_solver|].
    destruct (worker_does answers s q t q' op HI Ew Eq Eop) as (st & d' & -> & Hi' & Hc' & _); [apply Hu; unfold next_op; rewrite Ew, Eq; exact Eop|]. eexists. split; [done|].
    apply queue_pop_spec in Eq as ->. unfold in_order, batch in *. rewrite Ew, reverse_app in *. cbn [reverse] in *.
    assert (forall x, (nq_done s ++ [t]) ++ reverse q' ++ x = nq_done s ++ (reverse [t] ++ reverse q') ++ x) as Ea by (intros x; by rewrite <- !app_assoc).
    constructor; unfold in_order, batch; simpl; rewrite ?Ea; try done.
    + rewrite <- N3, fmap_app. simpl. solve_Permutation.
    + intros u. rewrite fmap_app, !elem_of_app. intros [Hu'|Hu']; [left; by apply N7|by right].
    + apply Forall_app_2; [|constructor; [left; simpl; set_solver|done]]. eapply Forall_impl; [exact N8|]. intros x. apply refusal_mono; simpl; [set_solver|done|done].
  - unfold nand_worker_ready in Hr. by rewrite Ew in Hr.
Qed.

Lemma ninv_event e s : NInv s -> nallowed e s = true -> event_ok e s -> e <> NJoined -> exists s', handle_nevent e s = Done s' /\ NInv s'.
Proof using All.
  intros H Ha Ho Hne. destruct e as [op|answers| |]; cbn [handle_nevent nallowed event_ok] in *; [eexists; split; [done|by apply ninv_queue]|by apply ninv_worker| |done].
  eexists. split; [done|]. destruct H as [N1 N2 N3 N4 N5 N6 N7 N8]. constructor; try done. eapply Forall_impl; [exact N8|]. intros x. by apply refusal_mono.
Qed.

Lemma ninv_joined s s' : NInv s -> Nand_Shutdown_joined s = Done s' -> NInv s'.
Proof using Type.
  intros [N1 N2 N3 N4 N5 N6 N7 N8]. unfold Nand_Shutdown_joined, queue_Release. destruct (txn_queue_ s) eqn:E; cbn [mbind exec_bind]; [|done]. intros [= <-]. unfold in_order, batch in *. rewrite E in *. constructor; unfold in_order, batch; try done.
Qed.

Definition nreachable (r : R) (m : Memory) s : Prop := rtc nstep (Nand_Start i r m) s.

Lemma nreach_inv r m s : nreachable r m s -> NInv s.
Proof using All.
  unfold nreachable. generalize (ninv_start r m). generalize (Nand_Start (R := R) i r m). intros s0 H0 Hr.
  induction Hr as [|s0 s1 s [e s0' s1' Ha Ho E] Hr IH]; [done|]. apply IH. assert (e = NJoined \/ e <> NJoined) as [->|Hne] by (destruct e; (by left) || by right).
  - by eapply ninv_joined.
  - destruct (ninv_event e s0' H0 Ha Ho Hne) as (s'' & E' & Hi'). rewrite E in E'. by injection E' as <-.
Qed.

(** ** What holds in every run *)


End safe.

(** ** A flash *)

Module NandExample.
(** Pages of four bytes with two spare bytes, blocks of two pages; of the eight bits of a page that can be corrected, the odd pages need
    five. *)
Definition info : RawInfo := mkRawInfo 4 2 2 4 8.

Definition Chip : Type := Z -> (Z * Z * Z * Z) * (Z * Z).

Definition data_of (x : (Z * Z * Z * Z) * (Z * Z)) : list Z := let '(a, b, c, d) := x.1 in [a; b; c; d].
Definition spare_of (x : (Z * Z * Z * Z) * (Z * Z)) : list Z := let '(a, b) := x.2 in [a; b].

Definition programmed (d o : option (list Z)) (x : (Z * Z * Z * Z) * (Z * Z)) : (Z * Z * Z * Z) * (Z * Z) :=
  (match d with Some [a; b; c; e] => (a, b, c, e) | _ => x.1 end, match o with Some [a; b] => (a, b) | _ => x.2 end).

#[local] Instance chip_nand : RawNand Chip := {|
  ReadPageHwecc := fun want p c => (ZX_OK, if want then data_of (c p) else [], spare_of (c p), if Z.odd p then 5 else 0, c);
  WritePageHwecc := fun d o p c => (ZX_OK, fun q => if q =? p then programmed d o (c p) else c q);
  EraseBlock := fun p c => (ZX_OK, fun q => if (p <=? q) && (q <? p + 2) then ((255, 255, 255, 255), (255, 255)) else c q)
|}.

#[local] Instance chip_view : RawView Chip := {| held := fun c p => (data_of (c p), spare_of (c p)) |}.

Lemma sizes x : length (data_of x) = 4%nat /\ length (spare_of x) = 2%nat.
Proof. by destruct x as [[[[a b] c] d] [y z]]. Qed.

#[local] Instance chip_laws : RawNandLaws (R := Chip) info.
Proof.
  constructor.
  - intros want p c st d o b c' [= <- <- <- _ <-]. split; [done|]. split; [apply sizes|]. split; [intros ->; apply sizes|]. intros _. split; [done|]. by intros ->.
  - intros d o p c st c' [= <- <-]. split; [intros q Hq; simpl; by rewrite (proj2 (Z.eqb_neq q p))|]. intros _. simpl. rewrite Z.eqb_refl. split.
    + intros x -> Hx. destruct x as [|x1 [|x2 [|x3 [|x4 [|]]]]]; done.
    + intros x -> Hx. destruct x as [|x1 [|x2 [|]]]; done.
  - intros c q. apply sizes.
  - intros p c st c' [= <- <-] q Hq. simpl in *. destruct (Z.leb_spec p q), (Z.ltb_spec q (p + 2)); try done; lia.
Qed.

Lemma chip_info : info_ok info.
Proof. by constructor. Qed.

(** An erased chip; VMO 7 holds 1, 2, 3, ..., the others zeros. *)
Definition chip : Chip := fun _ => ((255, 255, 255, 255), (255, 255)).
Definition memory : Memory := fun v x => if v =? 7 then x + 1 else 0.
Definition start : NandSys (R := Chip) := Nand_Start info chip memory.

(** Writes, and reads into VMO 8 (and 9), of [len] pages from [page] on. *)
Definition write (page len : Z) : NandOp := NandWrite (mkNandRw 7 0 len page 0 0).
Definition read (page len : Z) : NandOp := NandRead (mkNandRw 8 9 len page 0 0).

Definition go : NandEvent := NWorker (ZX_OK, ZX_OK).

Fixpoint nrun (es : list NandEvent) (s : NandSys (R := Chip)) : option (NandSys (R := Chip)) :=
  match es with
  | [] => Some s
  | e :: es => if nallowed e s then match handle_nevent e s with Done s => nrun es s | Panic => None end else None
  end.

Definition after (es : list NandEvent) : NandSys (R := Chip) := default start (nrun es start).

(** What the events of a run keep to, checked. *)
Definition uncached_b (op : NandOp) (d : NandDevice (R := Chip)) : bool :=
  match op with
  | NandWrite rw => forallb (fun e => negb ((offset_nand rw <=? e_page e) && (e_page e <? offset_nand rw + n_length rw))) (fifo_ (dangerous_reads_cache_ d))
  | _ => true
  end.
Definition nop_ok_b (op : NandOp) : bool :=
  match op with
  | NandRead rw | NandWrite rw => (0 <=? offset_nand rw) && (0 <=? n_length rw) && (n_length rw * 4 <? 2 ^ 32)
  | NandErase first num => (0 <=? first) && (0 <=? num)
  | NandOther => true
  end.
Definition event_ok_b (e : NandEvent) (s : NandSys (R := Chip)) : bool :=
  match e with NQueue op => nop_ok_b op | NWorker _ => match next_op s with Some op => uncached_b op (nq_dev s) | None => true end | _ => true end.

Lemma event_ok_check e s : event_ok_b e s = true -> event_ok (i := info) e s.
Proof.
  destruct e as [op|a| |]; simpl; try done.
  - destruct op as [rw|rw|first num|]; simpl; try done; unfold rw_ok; simpl; lia.
  - intros H op E. rewrite E in H. destruct op as [rw|rw|first num|]; simpl in *; try done. apply Forall_forall. intros e He. rewrite forallb_forall in H. apply list_elem_of_In, H in He. lia.
Qed.

Fixpoint run_ok (es : list NandEvent) (s : NandSys (R := Chip)) : bool :=
  match es with
  | [] => true
  | e :: es => nallowed e s && event_ok_b e s && match handle_nevent e s with Done s => run_ok es s | Panic => false end
  end.

Lemma run_ok_reach es s : run_ok es s = true -> exists s', nrun es s = Some s' /\ rtc (nstep (i := info)) s s'.
Proof.
  revert s. induction es as [|e es IH]; intros s; cbn [run_ok nrun]; [exists s; split; [done|apply rtc_refl]|]. destruct (nallowed e s) eqn:Ha; cbn [andb]; [|done].
  destruct (event_ok_b e s) eqn:Ho; cbn [andb]; [|done]. destruct (handle_nevent e s) as [s1|] eqn:E; [|done]. intros (s' & Er & Hr)%IH. exists s'. split; [done|].
  eapply rtc_l; [|exact Hr]. by eapply nstep_event; [|apply event_ok_check|].
Qed.

Lemma session_reach es : run_ok es start = true -> nreachable (i := info) chip memory (after es).
Proof. intros (s' & E & Hr)%run_ok_reach. unfold after. by rewrite E. Qed.

(** Three pages are written and read back, page 1 into the cache; a queued read waits. *)
Definition session : list NandEvent := [NQueue (write 0 3); NQueue (read 1 2); go; go; go; go; NQueue (read 1 1)].

Definition cached : list NandEvent := session ++ [go].



(** What the driver does not do. A page that was read with difficulty and is then written again is still read as it was: [WriteOp] does not
    purge the cache. For a transfer of 4 GiB the size of the mapping wraps around to nothing. A shutdown with an operation
    still queued aborts. *)
Lemma nand_faults :
  (let s := after [NQueue (read 1 1); go; go; go; NQueue (write 1 1); go; go; go; NQueue (read 1 1); go; go] in
   nq_completed s = [(0%nat, ZX_OK); (1%nat, ZX_OK); (2%nat, ZX_OK)] /\ mem_get 8 0 4 (nd_mem (nq_dev s)) = [255; 255; 255; 255] /\ (held (nd_raw (nq_dev s)) 1).1 = [1; 2; 3; 4]) /\
  map_vmo 8 0 (2 ^ 30) 4 ZX_OK info = inr (Some (mkMapping 8 0 0)) /\
  handle_nevent NJoined (after [NQueue (read 1 1); NShutdown; go]) = Panic.
Proof. vm_compute. split_and!; reflexivity. Qed.
End NandExample.
